(* ===== verification/_CoqProject ===== *)
-Q . S2P
Prelude.v
RustStr.v
PolicyTypes.v
Precedence.v
UrlCanon.v
RateLimit.v
BTree.v
Json.v
Kernel.v
PolicyEngine.v
PolicyEngineFacts.v
PolicyDecision.v
Admission.v
KillFence.v
Outbox.v
Approval.v
ApprovalRecipe.v
ApprovalLifecycle.v
ApprovalStore.v
ApprovalExecution.v
Egress.v
Crypto.v
Tracked.v
VaultLog.v
VaultCache.v
VaultFile.v
VaultFileFacts.v
VaultCommit.v
VaultSystem.v
Indexed.v
Tokens.v
Auth.v
Ssrf.v
Credential.v
HttpPlugin.v
HttpFacts.v
Idempotency.v
NativeDraft.v
VaultCollections.v
Capability.v
CapabilityFacts.v
Catalog.v
Sessions.v
Refusals.v
RefusalDrain.v
RefusalFacts.v
RefusalShutdown.v
QueueJournal.v
QueueJournalFacts.v
AverinQueue.v
QueueWriterFacts.v
QueueDurability.v
QueueRuns.v
QueueRecovery.v
RateCard.v
Metering.v
StreamTail.v
LlmGate.v
Identity.v
GatewayBase.v
Gateway.v
GatewayResume.v
GatewayHalt.v
GatewayFacts.v
GatewayResumeFacts.v
LlmProxy.v
GatewayStream.v
LlmHandler.v
Workload.v
McpText.v
Mcp.v
McpHttp.v
Concrete.v
WitnessesPolicy.v
WitnessesOutbox.v
WitnessesTokens.v
WitnessesVault.v
WitnessesHttp.v
WitnessesGateway.v
WitnessesLlm.v
