(* ===== verification/Prelude.v ===== *)
(** * Vultrino: the enforcement core of a credential proxy

    Vultrino holds credentials for agents and performs requests on their behalf.  A
    request is judged by the policy engine; it is allowed, denied, or held for people
    to approve; an approved request is claimed once and executed under a permit that
    binds exactly what was judged; every decision leaves a signed event in an outbox.
    This library models that core from the Rust sources under [src/src] and proves
    what each part promises to the others.

    ** The parts, and how they interact

    - A caller presents an API key or a use token.  The manager of [Auth] validates a
      key with its role; a token is found by its hash and its use is reserved by
      [consume_use_token] before anything runs.
    - The server ([Gateway]) resolves the credential a request names, checks the caller's
      role, token scope and tenant, has the request judged, classifies its action in the
      catalog of capabilities, and then opens an approval, refuses, or runs it.
    - A request is judged as an [AdmissionQuery].  [PolicyEngine.evaluate_for_admission]
      filters the policies that apply, refuses URLs it cannot canonicalise, asks the
      tiers deny, prompt, allow through [resolve_lazily], and charges rate limits
      while it does so.  Its [Evaluation] is the only thing the execution kernel turns
      into an admission witness and then into a permit.
    - A prompt opens an [ApprovalRequest] in the vault.  People (or delegate agents)
      decide it through [decide_approval_atomic]; a sweep and the polls escalate and
      expire it; when it is approved, [claim_approval_for_execution] re-derives the
      grant from the stored sign-offs, asks the kill fence, advances the execution
      epoch, and hands out a claim; [finalize_execution] commits the outcome by
      compare-and-set on that epoch.
    - A kill policy stored in the vault bumps the kill epoch and leaves a mark, so
      work admitted before it is refused even by a process whose engine is stale.
    - Lifecycle events are staged in the vault with the change that caused them and
      drained into the outbox, whose worker claims, delivers, retries, dead-letters
      and garbage-collects them.
    - A permitted request is prepared by the HTTP plugin: the URL is the one policy judged
      and is checked against private addresses, the caller's headers are filtered, the
      credential is injected or signed with, and an OAuth2 token is refreshed first when
      it is about to expire.
    - A call to a model comes in through the proxy of [LlmHandler]: it is bound to a channel
      the caller holds, checked so that everything it asks for has a price on the rate card,
      rewritten to the channel's ceiling, and then handed to the gateway like any request.
      A streamed answer is scrubbed, counted and charged by a task of its own.
    - An agent that speaks the Model Context Protocol reaches the same gateway through the
      tools of [Mcp], over a pipe or over HTTP ([McpHttp]); what it is told about an approval
      and what the log keeps of its messages is in [McpText].
    - A workload exchanges an assertion signed by the edge for use tokens of a grant the
      operator stored ([Workload]); a signed identity document may refine who a request runs
      as ([Identity]).
    - What an upstream answers passes [confine_response], or the [StreamScrubber] when
      the body is streamed, before the agent sees it.
    - Everything durable lives in the vault: one encrypted snapshot and a log of sealed
      records.  A locked mutation brings the process up to date, runs its closure on the
      cache, appends one record and now and then writes a new snapshot.
    - A halt revokes the agent's tokens, stores a kill policy, reloads the engine and
      wakes the agent's sessions; the kill fence is read again right before every call.
    - Admin writes carry an idempotency key, and drafts at a provider a reservation, so
      that a repeated request does not repeat its effect.

    ** Files, and the sources they model

    - [Prelude]: results, the state monad, machine integers, clock arithmetic, list
      lemmas, hint databases and tactics.  [RustStr]: the operations on [&str] that
      the code uses, on byte strings.  [BTree]: [BTreeMap] as a sorted association
      list over a key-order class.  [Json]: [serde_json::Value].
    - [PolicyTypes]: [policy/types.rs], policies, conditions and [validate].
    - [Precedence]: [policy/precedence.rs], the full and the lazy tier decision.
    - [UrlCanon]: [policy/url_canon.rs], canonical URLs, patterns, the broadened
      reading used by deny and prompt rules.
    - [RateLimit]: the counters of [policy/mod.rs].
    - [Kernel]: [formal_kernel.rs], witnesses, permits, bindings.
    - [PolicyEngine]: the engine of [policy/mod.rs]; [PolicyEngineFacts] its
      denotational reading of conditions and tiers; [PolicyDecision] the theorems on
      decisions; [Admission] invariants and the admission path.
    - [KillFence]: [policy/kill_fence.rs] and the vault operations that keep it.
    - [Outbox]: [outbox.rs] (events), [storage/outbox_model.rs],
      [storage/outbox_store.rs] and the page of [api_list_events] in [web/api.rs].
    - [Approval]: [approval/mod.rs]; [ApprovalRecipe] recipe satisfaction as an
      assignment problem; [ApprovalLifecycle] the reachable records.
    - [ApprovalStore]: the approval operations of [storage/file.rs];
      [ApprovalExecution] executions as sequences of locked operations.
    - [Egress]: [egress.rs], the spellings of a secret, the buffered response pipeline
      and the stream scrubber.
    - [Indexed]: tables with a secondary index.  [Tokens]: [auth/tokens.rs],
      [auth/approval_tokens.rs], [delegation/mod.rs] and the token operations of
      [storage/file.rs].  [Auth]: [auth/types.rs] and [auth/manager.rs].
    - [Crypto]: [crypto/encrypt.rs].  [Tracked] and [VaultLog]: [storage/vault_log.rs],
      maps that remember what changed and the log of sealed records.  [VaultCache]:
      [StorageCache] of [storage/file.rs] and its operations.  [VaultFile]: the files and
      every locked operation on them, in a monad whose steps may fail or crash;
      [VaultFileFacts] and [VaultCommit] what each operation leaves; [VaultSystem] the
      theorems over any processes.
    - [Ssrf]: the address checks of [plugins/http.rs] and [plugins/http/ssrf_spec.rs].
      [Credential]: the credential types of [lib.rs].  [HttpPlugin]: the rest of
      [plugins/http.rs] and the gateway-owned headers of [plugins/mod.rs]; [HttpFacts]
      its theorems.
    - [Idempotency]: the idempotency records of [storage/file.rs] and the wrapper of
      [web/api.rs].  [NativeDraft]: [storage/social.rs] and the draft operations of
      [storage/file.rs].  [VaultCollections]: credentials, roles and keys in
      [storage/file.rs].
    - [Capability]: [capability/mod.rs]; [CapabilityFacts] its theorems.  [Catalog]: the
      pure questions the server asks of configuration, catalog, policies and callers, from
      [server/mod.rs], [config/mod.rs], [policy/mod.rs], [policy/types.rs],
      [govder/mod.rs], [approval/mod.rs], [auth/middleware.rs] and [refusal.rs].
      [Sessions]: [session.rs] and [router/].
    - [Refusals]: the recorder of [refusal.rs]; [RefusalDrain]: the sealing of refusals
      and the receipt gaps of [averin/mod.rs] and [server/mod.rs]; [RefusalFacts] and
      [RefusalShutdown] their theorems.
    - [QueueJournal]: the journal format of [storage/averin_queue.rs], [QueueJournalFacts]
      reading a segment back; [AverinQueue]: its writer and the queue's operations;
      [QueueWriterFacts] what a batch leaves on disk, [QueueDurability] and [QueueRuns]
      the invariant of a live queue through each operation, [QueueRecovery] crashes,
      restarts and the theorems.
    - [GatewayBase]: the server's state, monad and trace logic, with the capability
      operations of [storage/file.rs] and the request types of [lib.rs] and
      [plugins/mod.rs].  [Gateway]: [prepare_execution], [run_action] and
      [execute_gated] of [server/mod.rs]; [GatewayResume]: [resume_approved] and
      [check_and_resume_approval]; [GatewayHalt]: halts, policy loading and tool lookup;
      [GatewayFacts] and [GatewayResumeFacts] their theorems.
    - [RateCard]: [ratecard.rs].  [Metering]: the usage readers, payloads and the stream
      accumulator of [outbox.rs] with the finalizer of [server/mod.rs].  [StreamTail]: the
      task behind a streamed body, and [GatewayStream]: [run_action_streaming] and
      [execute_gated_streaming] of [server/mod.rs].
    - [LlmGate]: the tables, walks and rewrites of [web/llm_proxy.rs]; [LlmProxy]: the checks
      of one call in their order ([llm_prepare], the part of [llm_proxy_impl] that has no
      effects) and their theorems; [LlmHandler]: [llm_proxy_impl] and its routes.
    - [Identity]: [identity.rs] and its use in [server/mod.rs] and [web/api.rs].  [Workload]:
      [web/workload_exchange.rs] and [require_admin] of [web/api.rs].
    - [McpText]: the texts of [mcp/server.rs], the log redaction and the approval artifact;
      [Mcp]: [mcp/types.rs] and the tools and handlers of [mcp/server.rs]; [McpHttp]:
      [web/mcp_http.rs] and the theorems on tool calls.
    - [Concrete]: stand-ins for the external crates and sample data;
      [WitnessesPolicy], [WitnessesOutbox], [WitnessesTokens], [WitnessesVault],
      [WitnessesHttp], [WitnessesGateway] and [WitnessesLlm] apply the theorems to them.

    ** How the code is represented

    A struct is a [Record], an enum an [Inductive]; [ApprovalRequest] is split into
    the fields fixed at opening, those a decision or the clock writes and those the
    execution path writes.  A [Result] is [result] with the error as a value: where
    the code renders an error into a message the model keeps the value it renders.  A
    method that mutates [self] returns the new state; the cells and counters an
    evaluation captures are the state of a small state monad.  [u32] and [u64] values
    are [Z] with saturating, checked and wrapping operations written out where the
    code has them; strings are byte strings (UTF-8), so case folding and trimming are
    those of the methods called.  A [HashMap] is a [gmap] and its iteration order is
    that of [map_to_list]; theorems do not depend on it.  Times are nanoseconds.

    The monotonic and the local clock of the engine are streams of readings, one per
    call.  An operation on approvals takes one instant, used for every reading of the
    clock inside it; overflow panics of date arithmetic are outside the model (the
    outbox, which guards against them, models its checked operations).  In the
    files on approvals, tokens, kills, drafts and idempotency a locked mutation is one
    atomic step on the collections it touches, and a step whose new state fails
    validation leaves them as they were; that the files of the vault implement such
    steps is the refinement theorem of [VaultSystem].  There a mutation that was reported
    as failed may still be durable; the operations on tokens have that outcome too
    ([Commit]), a handler of the server meets it as a failed call after which others
    changed the store, and the sequences of operations on approvals, drafts and
    idempotency keys leave it out.  There a file operation takes
    effect whole or not at all and is durable once it returned (the code fsyncs); a
    replaced file has a token (device, inode, times) that no earlier file had.

    A handler of the server is a computation over the shared store, the process's own
    state and a trace of what it did.  At every await [env_others] replaces the store and
    the process's shared state by whatever other tasks and processes left there; it is
    unconstrained, so a theorem on a handler holds for every interleaving.  Any storage
    call may fail.  Reads of the cache and locked operations are told apart, as in the
    code.  The trace is extended, never rewritten ([m ⊨ Q]), and an effect carries what
    the step saw: the engine an evaluation used, the fence a check read, the tokens a use
    was taken from, and likewise what a mere reading saw where a theorem needs it: the tokens
    and the time a secret was looked up with ([FX_Token], [FX_Key]), the capabilities listed
    and the credential and engine one was weighed with ([FX_Listed], [FX_Weighed]), the
    approvals a poll read ([FX_Polled]), the grants and the tokens an exchange read
    ([FX_Granted], [FX_Counted]).  Metering is one effect and a heartbeat one of the others' steps.

    The [url], [glob], [urlencoding], [serde_json], [sha2], [base64], [hex] and [regex]
    crates are the fields of the classes [UrlCrate], [GlobCrate], [UrlEncodingCrate],
    [SerdeJson], [Sha256], [Sha256Digest], [Encoders] and [RegexCrate].  No theorem assumes anything
    of them.  [JsonReader], [Rfc3339], [UrlQuery], [MacCrates] and [AssertionSerde] stand
    for the readers of JSON texts, dates and assertions, for appending query pairs to a URL and
    for HMAC; the theorem that a model call stays on its
    channel assumes of the last that it leaves the rest of the URL and prints what parses
    back.  So are AES-GCM, Argon2 and the derived serializers of the vault, as
    [SealCrates], [LogSerde], [CacheSerde] and [FileSerde], name resolution and address
    parsing, as [NetStd], the remaining functions the HTTP plugin calls, as [HttpCrates],
    and the JSON of a draft key, as [DraftSerde].  The theorems on the vault's files
    assume that what was sealed or serialized is read back ([SealLaws], [LogSerdeLaws],
    [CacheSerdeLaws], [FileSerdeLaws]), the one on mutations without faults also that there is
    a text for what is sealed or serialized ([WriteLaws]), those on the receipt queue likewise
    ([QueueSerdeLaws]), and one on drafts that the JSON of a key is
    injective ([DraftSerdeLaws]).  [McpCrates], [McpWire] and [PluginTools] stand for the crates,
    the derived readers of messages and the plugins' own tools that the MCP server uses; the
    theorem on calls over HTTP assumes that the message it prints is read back.  The witnesses have instances of all of them.

    ** What the theorems show

    - Decisions: the engine refines a declarative specification and its order of
      policies does not matter; kills and deny rules always win; a denied request
      charges nothing; an allowed one had room in every limit that applies to it and
      is charged for each (limits at the top of an allow rule or in a conjunction there; one
      under [or] or [not] is evaluated in place); a fixed window bounds traffic.  The local
      clock does not move during one evaluation.
    - URLs: canonical forms are fixed points, host prefixes stop at the host's end,
      the broadened reading survives appended parameters.
    - Admission and permits: the admission table is exact, halted requests are never
      admitted, observe mode waives no guard, a permit authorizes only the payload
      that was judged or approved; the newest policy load wins.
    - Approvals: in every reachable record an approval rests on enough distinct people
      (recipes are decided exactly), denials win, provenance does not mix, decided
      records are final, and what was granted can be re-derived when it is executed.
    - The gateway: a plugin is called only after every check, in order, on exactly what it
      is called with; an approved request only if everything it was approved under still
      holds; an error says truthfully whether the plugin was called; one request spends at
      most one use; the answer is confined.
    - Capabilities: the schema validator is exact; what the operator pinned wins.  A halt
      wakes exactly the sessions of its target.
    - Streams and model calls: a streamed request passes the same gate and its head, body
      and terminal frame show no secret; its usage is charged once and its evidence completed
      under the reason it ended with, and how it is cut into
      chunks does not change the count.  A model call is prepared and mediated, stays on its
      channel's provider, asks only for what the rate card prices, and stays within the
      ceiling.  A rate card covers exactly what its file prices, and a change of the file can
      only narrow it.
    - Workloads: tokens are minted only for a signed assertion, in date and fresh, whose identity the
      stored grant names, while fewer tokens than the cap are live, with the scope and lifetime of the grant; a stored grant is complete, is
      read back whole and touches no other workload; a removal leaves no live token; an identity document is
      believed only under a signature for this bearer, and it adds to a principal without
      hiding it from any policy.
    - Tools: a tool call reaches a plugin only for a caller that authenticated, with the
      request its tool stands for and behind the whole gate, or out of a claimed approval of
      the caller's own; a use token reaches only named tools; over HTTP the posted call runs
      under the bearer's key, whatever key its arguments name, and a listing shows only what
      was granted; what the log keeps of a message is exact, the names of headers apart; a
      poll reads back the status, counts and expiry the server wrote, if no later line of a
      note or an error looks like a field.
    - Refusals: over any notes, drains and retries the counts are exact, memory is bounded,
      and stopping the process loses none.
    - Receipt queue: what was acknowledged survives any interleaving of appends with the
      writer, claims, reports, pruning and compaction, any file operation that fails as
      a whole, crash and restart; the end of a delivery, once acknowledged, is not undone.
    - Execution: over any sequence of locked operations an action starts at most once,
      a superseded worker cannot commit, killed work never starts.
    - Outbox: sequences are never reused, polling by cursor misses nothing while the log
      changes between the pages, claims
      keep per-subject order, retries end, garbage collection drops a safe prefix, an
      intent is drained once.
    - Tokens and keys: a token drives at most its uses and hands out increasing
      numbers, none twice and none skipped unless a write went unreported, a dead token stays dead, collection drops only dead ones, an exchange id
      is accepted once, retiring leaves the kept generations; the built-in roles are
      permanent and a created key validates until it is revoked or expires.
    - Egress: no declared spelling of a secret leaves in a buffered response, its
      headers or a stream; chunking does not change what is scrubbed when no spelling
      starts another one; a stream skips no operator rule.
    - Vault: the files refine a store that changes atomically, over any processes, failing
      operations and crashes; a mutation cut short leaves the old or the new contents; a
      mutation or read without faults succeeds, and what was committed is what a process
      started afterwards sees; damaged, shortened or vanished files are
      refused, never read as older contents.
    - Outbound requests: the address classifier equals its specification and only public
      https destinations are accepted; every header has a known author and the
      credential's is the only copy; a URL token changes only the placeholder; client
      secrets are posted only to the token URL; a secret that was sent does not come back
      to the caller; buffered bodies are capped.
    - Repetition: an at-most-once admin operation runs once per key while operations are
      prompt; a draft is granted once, its outcome is final, and every stored record and
      receipt agrees with its key and the approved content; lookups by alias, name and
      hash agree with the records, and no key loses its role.
    - Fourteen theorems state behaviour that departs from what the sources say of
      themselves: an execution that outlives its re-authorization window blocks the
      lifecycle sweep; a kill stored over another under the same id forgets the scope
      of the first; a secret that begins with another one is cut at a chunk boundary
      and its rest is streamed in clear; a request that outlived the stale window
      releases the idempotency key of the request that took it over; a short write in
      the receipt queue hides records acknowledged after it; the journal of that queue
      does not carry the error that dead-lettered a receipt; the estimate for a stream that
      was cut ignores how many choices were asked for; the cap on live generations of a
      workload counts tokens; an exchange in flight outlives the removal of its grant; a tool
      call with positional arguments skips the check for use tokens; the body of an upstream
      can rewrite the artifact of an approval, and so can the note of its decision; a header given as a list is logged in clear;
      a second request under the same id takes away the first one's cancellation.

    ** Bounds

    Recursion is structural but for the loops named below; a poller of the outbox ([poll],
    which is not part of the program) runs over a list of turns, and as many turns as there
    are events beyond the cursor are enough when nothing is appended; the steps of a process on the vault's files take no
    fuel, their faults are a list that ends in successes.  Theorems that add to a sequence number or an
    epoch assume that it has not reached the top of [u64]; theorems on recipes assume
    counts that fit the [u32] the code stores.  A run of the receipt queue has no short
    writes (which the code takes as impossible, and after which it loses records) and a
    crash removes no file that was created, only bytes that were not synced; [replay_loop] takes the length of the
    segment as fuel, and a round consumes at least a header; [scrub_rounds] takes the
    length of the text, and a round consumes at least one spelling.

    ** Not modelled

    - The web API and the admin pages, but for the idempotency wrapper, the model proxy, the
      workload exchange and the MCP endpoint: they decode a transport and call operations that
      are modelled.  Of the MCP server, the loop that reads lines from a pipe and the constant
      texts of [initialize].
    - The other plugins, the govder and averin clients and the propagation of
      revocations: each is the client of a service whose code is not here; what they
      answer is a parameter of the handlers, without assumptions.
    - Vault backup and rekeying, the receipt quarantine, the key store, the repair of stored
      policies: operator commands and side stores outside the path of a request.
    - The tasks that repeat modelled operations on a timer (delivery, sweep, notifiers), the
      configuration parser and the command line. *)

From stdpp Require Import base gmap strings list sorting.
From Stdlib Require Import ZArith Lia.

(** ** Results *)

(** Rust's [Result<A, E>]. *)
Inductive result (A E : Type) : Type :=
| Ok (a : A)
| Err (e : E).

Arguments Ok {A E} a.
Arguments Err {A E} e.

Definition is_ok {A E} (r : result A E) : bool :=
  match r with Ok _ => true | Err _ => false end.

(** The [?] operator on [Result]. *)
Definition result_bind {A B E} (r : result A E) (k : A → result B E) : result B E :=
  match r with Ok a => k a | Err e => Err e end.

(** [Option::ok_or]. *)
Definition ok_or {A E} (o : option A) (e : E) : result A E :=
  match o with Some a => Ok a | None => Err e end.

Declare Scope rust_scope.
Delimit Scope rust_scope with rust.

Notation "'let?' x ':=' r 'in' k" := (result_bind r (λ x, k))
  (at level 10, x pattern, r at level 100, k at level 200) : rust_scope.

(** ** A state monad for code that mutates shared state *)

Definition st (S A : Type) : Type := S → A * S.

Definition st_ret {S A} (a : A) : st S A := λ s, (a, s).

Definition st_bind {S A B} (m : st S A) (k : A → st S B) : st S B :=
  λ s, let '(a, s') := m s in k a s'.

Notation "'let!' x ':=' m 'in' k" := (st_bind m (λ x, k))
  (at level 10, x pattern, m at level 100, k at level 200) : rust_scope.

#[global] Arguments st_ret {S A} a s /.
#[global] Arguments st_bind {S A B} m k s /.

Open Scope rust_scope.

(** ** Machine integers *)

Definition u32_max : Z := 4294967295.
Definition u64_max : Z := 18446744073709551615.
Definition i64_max : Z := 9223372036854775807.

Definition in_u32 (z : Z) : Prop := (0 <= z <= u32_max)%Z.
Definition in_u64 (z : Z) : Prop := (0 <= z <= u64_max)%Z.

(** [u64::checked_add]. *)
Definition u64_checked_add (a b : Z) : option Z :=
  if (a + b <=? u64_max)%Z then Some (a + b)%Z else None.

(** [u64::saturating_add] and [u64::saturating_mul]. *)
Definition u64_saturating_add (a b : Z) : Z := Z.min (a + b) u64_max.
Definition u64_saturating_mul (a b : Z) : Z := Z.min (a * b) u64_max.

(** ** Time *)

(** A [DateTime<Utc>] is its number of nanoseconds since the epoch. *)
Definition DateTime : Type := Z.

Definition nanos_per_sec : Z := 1000000000.

(** [Duration::seconds], and [Duration::num_seconds], which truncates toward zero. *)
Definition seconds (n : Z) : Z := (n * nanos_per_sec)%Z.
Definition num_seconds (d : Z) : Z := Z.quot d nanos_per_sec.

(** ** Iterators *)

(** Iterators: [any], [all] and [find_map] over a slice. *)
Fixpoint find_map {A B} (f : A → option B) (l : list A) : option B :=
  match l with
  | [] => None
  | x :: l' => match f x with Some b => Some b | None => find_map f l' end
  end.

(** ** Automation *)

Create HintDb vul.
Create Rewrite HintDb vul_str.
Create Rewrite HintDb vul_bool.

#[export] Hint Rewrite andb_true_iff andb_false_iff orb_true_iff orb_false_iff
  negb_true_iff negb_false_iff : vul_bool.

(** Turns boolean connectives in the context and the goal into propositions. *)
Ltac bool_simpl := autorewrite with vul_bool in *; simpl in *.

(** Case analysis on every [if] and [match] scrutinee that is visible in the goal. *)
Ltac split_ifs :=
  repeat match goal with
  | |- context [if ?b then _ else _] => destruct b eqn:?
  end.

(** Splits every conjunction and existential of the context. *)
Ltac destr_hyps :=
  repeat match goal with
  | H : _ ∧ _ |- _ => destruct H
  | H : ∃ _, _ |- _ => destruct H
  | H : (_, _) = (_, _) |- _ => injection H as ?; subst
  | H : Some _ = Some _ |- _ => injection H as ?; subst
  | H : Ok _ = Ok _ |- _ => injection H as ?; subst
  | H : Err _ = Err _ |- _ => injection H as ?; subst
  end.

(** ** Generic lemmas *)

Section existsb_facts.
Context {A : Type}.

Lemma existsb_elem_of (f : A → bool) (l : list A) :
  existsb f l = true ↔ ∃ x, x ∈ l ∧ f x = true.
Proof.
  rewrite existsb_exists. split; intros (x & ? & ?); exists x;
    (split; [by apply list_elem_of_In|done]).
Qed.

Lemma existsb_false_elem_of (f : A → bool) (l : list A) :
  existsb f l = false ↔ ∀ x, x ∈ l → f x = false.
Proof.
  split.
  - intros H x Hx. destruct (f x) eqn:E; [|done].
    assert (existsb f l = true); [|congruence].
    apply existsb_elem_of; eauto.
  - intros H. destruct (existsb f l) eqn:E; [|done].
    apply existsb_elem_of in E as (x & Hx & Hf). by rewrite H in Hf.
Qed.

Lemma forallb_elem_of (f : A → bool) (l : list A) :
  forallb f l = true ↔ ∀ x, x ∈ l → f x = true.
Proof.
  rewrite forallb_forall. by setoid_rewrite list_elem_of_In.
Qed.

Lemma existsb_Permutation (f : A → bool) (l l' : list A) :
  l ≡ₚ l' → existsb f l = existsb f l'.
Proof.
  intros HP. apply eq_true_iff_eq. rewrite !existsb_elem_of.
  by setoid_rewrite HP.
Qed.

Lemma forallb_Permutation (f : A → bool) (l l' : list A) :
  l ≡ₚ l' → forallb f l = forallb f l'.
Proof.
  intros HP. apply eq_true_iff_eq. rewrite !forallb_elem_of.
  by setoid_rewrite HP.
Qed.

(** [existsb] and [filter] over a boolean test commute. *)
Lemma existsb_filter (f g : A → bool) (l : list A) :
  existsb f (List.filter g l) = existsb (λ x, g x && f x) l.
Proof.
  induction l as [|x l IH]; simpl; [done|].
  destruct (g x); simpl; by rewrite IH.
Qed.

Lemma filter_filter_bool (f g : A → bool) (l : list A) :
  List.filter f (List.filter g l) = List.filter (λ x, g x && f x) l.
Proof.
  induction l as [|x l IH]; simpl; [done|].
  destruct (g x); simpl; by rewrite IH.
Qed.

Lemma elem_of_filter_bool (f : A → bool) (l : list A) x :
  x ∈ List.filter f l ↔ x ∈ l ∧ f x = true.
Proof. rewrite !list_elem_of_In. apply filter_In. Qed.

Lemma filter_bool_Permutation (f : A → bool) (l l' : list A) :
  l ≡ₚ l' → List.filter f l ≡ₚ List.filter f l'.
Proof.
  induction 1 as [|x l l' _ IH|x y l|l1 l2 l3 _ IH1 _ IH2]; simpl; [done| | |].
  - destruct (f x); by rewrite ?IH.
  - destruct (f x), (f y); try done. constructor.
  - by rewrite IH1.
Qed.

Lemma find_elem_of (f : A → bool) (l : list A) x :
  List.find f l = Some x → x ∈ l ∧ f x = true.
Proof. intros H. apply find_some in H as [H1 H2]. by rewrite list_elem_of_In. Qed.

(** Searching a filtered list finds the same element when the filter keeps every
    candidate. *)
Lemma find_filter (f g : A → bool) (l : list A) :
  (∀ x, x ∈ l → g x = true → f x = true) → List.find g (List.filter f l) = List.find g l.
Proof.
  induction l as [|x l IH]; simpl; [done|]. intros H.
  assert (Hl : List.find g (List.filter f l) = List.find g l).
  { apply IH. intros y Hy. apply H. by constructor. }
  assert (Hx : g x = true → f x = true) by (apply H; constructor).
  destruct (f x); simpl; rewrite Hl; [done|]. destruct (g x); [|done].
  by specialize (Hx eq_refl).
Qed.
End existsb_facts.

#[export] Hint Resolve existsb_Permutation forallb_Permutation
  filter_bool_Permutation : vul.

Lemma find_map_Some {A B} (f : A → option B) l b :
  find_map f l = Some b → ∃ x, x ∈ l ∧ f x = Some b.
Proof.
  induction l as [|x l IH]; simpl; [done|].
  destruct (f x) eqn:E.
  - intros [= ->]. exists x. split; [by constructor|done].
  - intros (y & ? & ?)%IH. exists y. split; [by constructor|done].
Qed.

Lemma find_map_None {A B} (f : A → option B) l :
  find_map f l = None ↔ ∀ x, x ∈ l → f x = None.
Proof.
  induction l as [|x l IH]; simpl.
  - split; [|done]. intros _ x Hx. by apply elem_of_nil in Hx.
  - destruct (f x) eqn:E.
    + split; [done|]. intros H. rewrite (H x) in E; [done|constructor].
    + rewrite IH. split.
      * intros H y [->|Hy]%elem_of_cons; auto.
      * intros H y Hy. apply H. by constructor.
Qed.

Lemma u64_checked_add_spec a b r :
  u64_checked_add a b = Some r ↔ (r = a + b ∧ a + b <= u64_max)%Z.
Proof.
  unfold u64_checked_add. destruct (Z.leb_spec (a + b) u64_max); split;
    intros H'; [injection H' as <-; lia|by destruct H' as [-> _]|done|lia].
Qed.

Lemma u64_saturating_add_in a b : in_u64 a → in_u64 b → in_u64 (u64_saturating_add a b).
Proof. unfold in_u64, u64_saturating_add, u64_max. lia. Qed.

#[export] Hint Resolve u64_saturating_add_in : vul.

Lemma find_map_existsb {A B} (f : A → option B) l :
  existsb (λ x, bool_decide (is_Some (f x))) l = bool_decide (is_Some (find_map f l)).
Proof.
  induction l as [|x l IH]; simpl; [done|].
  by destruct (f x).
Qed.
