(* ===== verification/RustStr.v ===== *)
(** * Rust string operations

    The [&str] and [String] operations the modelled code calls.  A string is its
    UTF-8 byte sequence ([Stdlib]'s [string], one [ascii] per byte).  Every needle
    the code searches for is ASCII, so working on bytes gives the same positions
    and the same pieces as Rust's [char] based operations.  [is_blank] is the one
    operation that looks at multi-byte characters and it spells their encodings
    out. *)

From stdpp Require Import base strings list pretty.
From Stdlib Require Import Ascii ZArith Lia.
From S2P Require Import Prelude.


#[global] Arguments String.append !s1 s2 : simpl nomatch.

(** ** Searching and splitting *)

(** [str::strip_prefix]. *)
Fixpoint strip_prefix (p s : string) : option string :=
  match p, s with
  | EmptyString, _ => Some s
  | String a p', String b s' => if Ascii.eqb a b then strip_prefix p' s' else None
  | String _ _, EmptyString => None
  end.

(** [str::starts_with]. *)
Definition starts_with (p s : string) : bool :=
  match strip_prefix p s with Some _ => true | None => false end.

(** [str::strip_suffix]. *)
Fixpoint strip_suffix (suf s : string) : option string :=
  if String.eqb s suf then Some "" else
  match s with
  | EmptyString => None
  | String c s' =>
      match strip_suffix suf s' with
      | Some r => Some (String c r)
      | None => None
      end
  end.

(** [str::ends_with]. *)
Definition ends_with (suf s : string) : bool :=
  match strip_suffix suf s with Some _ => true | None => false end.

(** [str::split_once] at the first occurrence of a string. *)
Fixpoint split_once (pat s : string) : option (string * string) :=
  match strip_prefix pat s with
  | Some r => Some ("", r)
  | None =>
      match s with
      | EmptyString => None
      | String c s' =>
          match split_once pat s' with
          | Some (a, b) => Some (String c a, b)
          | None => None
          end
      end
  end.

(** [str::contains] of a string. *)
Definition contains (pat s : string) : bool :=
  match split_once pat s with Some _ => true | None => false end.

(** [str::contains] of a set of characters. *)
Fixpoint contains_any (P : ascii → bool) (s : string) : bool :=
  match s with
  | EmptyString => false
  | String c s' => P c || contains_any P s'
  end.

(** [(&s[..i], &s[i..])] for [i = s.find(P).unwrap_or(s.len())]. *)
Fixpoint break_at (P : ascii → bool) (s : string) : string * string :=
  match s with
  | EmptyString => ("", "")
  | String c s' =>
      if P c then ("", s) else let '(a, b) := break_at P s' in (String c a, b)
  end.

(** [str::rsplit_once] of a character. *)
Fixpoint rsplit_once_char (c : ascii) (s : string) : option (string * string) :=
  match s with
  | EmptyString => None
  | String x s' =>
      match rsplit_once_char c s' with
      | Some (a, b) => Some (String x a, b)
      | None => if Ascii.eqb x c then Some ("", s') else None
      end
  end.

(** [str::split] at a character. *)
Fixpoint split_char (c : ascii) (s : string) : list string :=
  match s with
  | EmptyString => [""]
  | String x s' =>
      if Ascii.eqb x c then "" :: split_char c s' else
      match split_char c s' with
      | h :: t => String x h :: t
      | [] => [String x ""]
      end
  end.

(** [slice::join]. *)
Fixpoint join (sep : string) (l : list string) : string :=
  match l with
  | [] => ""
  | [x] => x
  | x :: l' => x +:+ sep +:+ join sep l'
  end.

(** [str::match_indices] of a character: the byte offsets, in order. *)
Fixpoint match_indices (c : ascii) (s : string) (i : nat) : list nat :=
  match s with
  | EmptyString => []
  | String x s' =>
      if Ascii.eqb x c then i :: match_indices c s' (S i) else match_indices c s' (S i)
  end.

(** [&s[..n]]. *)
Fixpoint str_take (n : nat) (s : string) : string :=
  match n, s with
  | S n', String c s' => String c (str_take n' s')
  | _, _ => ""
  end.

(** [&s[n..]]. *)
Fixpoint str_drop (n : nat) (s : string) : string :=
  match n, s with
  | S n', String _ s' => str_drop n' s'
  | _, _ => s
  end.

(** ** Rewriting *)

(** [str::replace] of a non-empty needle; [skip] counts the bytes of the current
    match still to drop. *)
Fixpoint replace_from (skip : nat) (pat to s : string) : string :=
  match s with
  | EmptyString => ""
  | String c s' =>
      match skip with
      | S k => replace_from k pat to s'
      | O =>
          if starts_with pat s
          then to +:+ replace_from (String.length pat - 1) pat to s'
          else String c (replace_from 0 pat to s')
      end
  end.

Definition replace (pat to s : string) : string := replace_from 0 pat to s.

Definition lower_ascii (c : ascii) : ascii :=
  let n := nat_of_ascii c in
  if (65 <=? n) && (n <=? 90) then ascii_of_nat (n + 32) else c.

Definition upper_ascii (c : ascii) : ascii :=
  let n := nat_of_ascii c in
  if (97 <=? n) && (n <=? 122) then ascii_of_nat (n - 32) else c.

Fixpoint str_map (f : ascii → ascii) (s : string) : string :=
  match s with
  | EmptyString => ""
  | String c s' => String (f c) (str_map f s')
  end.

(** [str::to_ascii_lowercase], [str::to_ascii_uppercase]. *)
Definition to_ascii_lowercase : string → string := str_map lower_ascii.
Definition to_ascii_uppercase : string → string := str_map upper_ascii.

(** [str::eq_ignore_ascii_case]. *)
Definition eq_ignore_ascii_case (a b : string) : bool :=
  String.eqb (to_ascii_lowercase a) (to_ascii_lowercase b).

(** [str::trim_end_matches] of a character. *)
Fixpoint trim_end_matches (c : ascii) (s : string) : string :=
  match s with
  | EmptyString => ""
  | String x s' =>
      match trim_end_matches c s' with
      | EmptyString => if Ascii.eqb x c then "" else String x ""
      | r => String x r
      end
  end.

(** [u8::is_ascii_alphanumeric]. *)
Definition is_ascii_digit (c : ascii) : bool :=
  let n := nat_of_ascii c in (48 <=? n) && (n <=? 57).

Definition is_ascii_alphanumeric (c : ascii) : bool :=
  let n := nat_of_ascii c in
  (48 <=? n) && (n <=? 57) || (65 <=? n) && (n <=? 90) || (97 <=? n) && (n <=? 122).

(** [iter().all(..)] over the bytes of a string. *)
Fixpoint str_all (P : ascii → bool) (s : string) : bool :=
  match s with
  | EmptyString => true
  | String c s' => P c && str_all P s'
  end.

Definition is_empty (s : string) : bool :=
  match s with EmptyString => true | String _ _ => false end.

(** [s.trim().is_empty()]: every character is Unicode [White_Space], in UTF-8:
    U+0009..U+000D, U+0020, U+0085, U+00A0, U+1680, U+2000..U+200A, U+2028,
    U+2029, U+202F, U+205F and U+3000. *)
Definition ascii_white (n : nat) : bool := (9 <=? n) && (n <=? 13) || (n =? 32).
Definition white2 (n m : nat) : bool := (n =? 194) && ((m =? 133) || (m =? 160)).
Definition white3 (n m k : nat) : bool :=
  (n =? 225) && (m =? 154) && (k =? 128)
  || (n =? 226) && (m =? 128)
     && ((128 <=? k) && (k <=? 138) || (k =? 168) || (k =? 169) || (k =? 175))
  || (n =? 226) && (m =? 129) && (k =? 159)
  || (n =? 227) && (m =? 128) && (k =? 128).

Fixpoint is_blank (s : string) : bool :=
  match s with
  | EmptyString => true
  | String a s1 =>
      if ascii_white (nat_of_ascii a) then is_blank s1 else
      match s1 with
      | EmptyString => false
      | String b s2 =>
          if white2 (nat_of_ascii a) (nat_of_ascii b) then is_blank s2 else
          match s2 with
          | EmptyString => false
          | String c s3 =>
              if white3 (nat_of_ascii a) (nat_of_ascii b) (nat_of_ascii c)
              then is_blank s3 else false
          end
      end
  end.

(** [str::trim_start], [str::trim_end] and [str::trim].  A suffix that starts inside a
    character is never blank, so [trim_end] cuts at a character boundary. *)
Fixpoint trim_start (s : string) : string :=
  match s with
  | EmptyString => ""
  | String a s1 =>
      if ascii_white (nat_of_ascii a) then trim_start s1 else
      match s1 with
      | EmptyString => s
      | String b s2 =>
          if white2 (nat_of_ascii a) (nat_of_ascii b) then trim_start s2 else
          match s2 with
          | EmptyString => s
          | String c s3 =>
              if white3 (nat_of_ascii a) (nat_of_ascii b) (nat_of_ascii c)
              then trim_start s3 else s
          end
      end
  end.

Fixpoint trim_end (s : string) : string :=
  match s with
  | EmptyString => ""
  | String a s1 => if is_blank s then "" else String a (trim_end s1)
  end.

Definition trim (s : string) : string := trim_end (trim_start s).

(** ** Characters the code compares with *)

Definition one_of (cs : list ascii) (c : ascii) : bool := existsb (Ascii.eqb c) cs.

(** ** Lemmas *)

Lemma string_app_nil_r (s : string) : s +:+ "" = s.
Proof. induction s as [|c s IH]; simpl; [done|by rewrite IH]. Qed.

Lemma string_app_assoc (a b c : string) : (a +:+ b) +:+ c = a +:+ (b +:+ c).
Proof. induction a as [|x a IH]; simpl; [done|by rewrite IH]. Qed.

Lemma string_app_inj_l (a b c : string) : a +:+ b = a +:+ c → b = c.
Proof. induction a as [|x a IH]; simpl; [done|]. intros [= H]. auto. Qed.

Lemma strip_prefix_spec p s r : strip_prefix p s = Some r ↔ s = p +:+ r.
Proof.
  revert s. induction p as [|a p IH]; intros s; simpl.
  - split; [by intros [= ->]|by intros ->].
  - destruct s as [|b s]; [split; done|].
    destruct (Ascii.eqb_spec a b) as [->|Hne].
    + rewrite IH. split; [by intros ->|by intros [= ->]].
    + split; [done|]. intros [= Hab _]. congruence.
Qed.

Lemma strip_prefix_app p r : strip_prefix p (p +:+ r) = Some r.
Proof. by apply strip_prefix_spec. Qed.

Lemma starts_with_spec p s : starts_with p s = true ↔ ∃ r, s = p +:+ r.
Proof.
  unfold starts_with. destruct (strip_prefix p s) as [r|] eqn:E.
  - apply strip_prefix_spec in E. split; eauto.
  - split; [done|]. intros [r ->]. by rewrite strip_prefix_app in E.
Qed.

Lemma starts_with_app p r : starts_with p (p +:+ r) = true.
Proof. apply starts_with_spec. eauto. Qed.

Lemma length_app_string (a b : string) :
  String.length (a +:+ b) = String.length a + String.length b.
Proof. induction a as [|c a IH]; simpl; [done|by rewrite IH]. Qed.

Lemma string_app_length_inj a b c d :
  String.length b = String.length d → a +:+ b = c +:+ d → a = c ∧ b = d.
Proof.
  intros Hl. revert c. induction a as [|x a IH]; intros [|y c]; simpl; [done| | |].
  - intros H. rewrite H in Hl. simpl in Hl. rewrite length_app_string in Hl. lia.
  - intros H. rewrite <- H in Hl. simpl in Hl. rewrite length_app_string in Hl. lia.
  - intros [= -> H]. destruct (IH _ H) as [-> ->]. done.
Qed.

Lemma strip_suffix_eq suf s r : strip_suffix suf s = Some r → s = r +:+ suf.
Proof.
  revert r. induction s as [|c s IH]; intros r; cbn [strip_suffix].
  - destruct (String.eqb_spec "" suf) as [<-|Hne]; [|done]. by intros [= <-].
  - destruct (String.eqb_spec (String c s) suf) as [<-|Hne]; [by intros [= <-]|].
    destruct (strip_suffix suf s) as [r'|]; [|done].
    intros [= <-]. simpl. by rewrite (IH r').
Qed.

Lemma strip_suffix_app suf r : strip_suffix suf (r +:+ suf) = Some r.
Proof.
  induction r as [|c r IH].
  - destruct suf; cbn [strip_suffix String.append]; by rewrite String.eqb_refl.
  - cbn [strip_suffix String.append].
    destruct (String.eqb_spec (String c (r +:+ suf)) suf) as [H|Hne].
    + assert (Hl := f_equal String.length H). simpl in Hl.
      rewrite length_app_string in Hl. lia.
    + by rewrite IH.
Qed.

Lemma strip_suffix_spec suf s r : strip_suffix suf s = Some r ↔ s = r +:+ suf.
Proof. split; [apply strip_suffix_eq|intros ->; apply strip_suffix_app]. Qed.

Lemma split_once_spec pat s a b : split_once pat s = Some (a, b) → s = a +:+ pat +:+ b.
Proof.
  revert a. induction s as [|c s IH]; intros a; simpl.
  - destruct (strip_prefix pat "") eqn:E; [|done].
    intros [= <- <-]. by apply strip_prefix_spec in E.
  - destruct (strip_prefix pat (String c s)) eqn:E.
    + intros [= <- <-]. by apply strip_prefix_spec in E.
    + destruct (split_once pat s) as [[a' b']|]; [|done].
      intros [= <- <-]. by rewrite (IH a').
Qed.

Lemma contains_any_app P (a b : string) :
  contains_any P (a +:+ b) = contains_any P a || contains_any P b.
Proof. induction a as [|c a IH]; simpl; [done|]. by rewrite IH, orb_assoc. Qed.

Lemma break_at_app P s : (break_at P s).1 +:+ (break_at P s).2 = s.
Proof.
  induction s as [|c s IH]; simpl; [done|].
  destruct (P c); simpl; [done|]. destruct (break_at P s); simpl in *. by rewrite IH.
Qed.

Lemma break_at_before P s : contains_any P (break_at P s).1 = false.
Proof.
  induction s as [|c s IH]; simpl; [done|].
  destruct (P c) eqn:E; simpl; [done|]. destruct (break_at P s); simpl in *.
  by rewrite E, IH.
Qed.

Lemma break_at_after P s :
  (break_at P s).2 = "" ∨ ∃ c r, (break_at P s).2 = String c r ∧ P c = true.
Proof.
  induction s as [|c s IH]; simpl; [by left|].
  destruct (P c) eqn:E; simpl; [right; eauto|]. by destruct (break_at P s).
Qed.

(** Cutting at a character that does not occur before it. *)
Lemma break_at_found P (a : string) c b :
  contains_any P a = false → P c = true → break_at P (a +:+ String c b) = (a, String c b).
Proof.
  induction a as [|x a IH]; simpl; intros H Hc; [by rewrite Hc|].
  apply orb_false_iff in H as [Hx Ha]. rewrite Hx, IH; done.
Qed.

Lemma break_at_none P (a : string) :
  contains_any P a = false → break_at P a = (a, "").
Proof.
  induction a as [|x a IH]; simpl; intros H; [done|].
  apply orb_false_iff in H as [Hx Ha]. rewrite Hx, IH; done.
Qed.

Lemma one_of_true cs c : one_of cs c = true ↔ c ∈ cs.
Proof.
  unfold one_of. rewrite existsb_elem_of. split.
  - intros (x & Hx & ->%Ascii.eqb_eq). done.
  - intros H. exists c. by rewrite Ascii.eqb_refl.
Qed.

Lemma str_take_0 s : str_take 0 s = "".
Proof. by destruct s. Qed.

Lemma str_take_length s : str_take (String.length s) s = s.
Proof. induction s as [|c s IH]; simpl; [done|by rewrite IH]. Qed.

Lemma str_drop_app a b : str_drop (String.length a) (a +:+ b) = b.
Proof. induction a as [|c a IH]; [by destruct b|exact IH]. Qed.

#[export] Hint Rewrite string_app_nil_r string_app_assoc str_take_length strip_prefix_app
  starts_with_app : vul_str.

(** Trimming keeps the first non-blank character. *)
Lemma trim_start_blank s :
  is_blank (trim_start s) = is_blank s ∧ (trim_start s = "" → is_blank s = true).
Proof.
  induction s as [s IH] using (well_founded_induction (well_founded_ltof _ String.length)).
  unfold ltof in IH. destruct s as [|c1 s1]; [done|].
  cbn [trim_start is_blank]. destruct (ascii_white _) eqn:E1; [apply IH; simpl; lia|].
  destruct s1 as [|c2 s2]; [cbn; by rewrite E1|].
  destruct (white2 _ _) eqn:E2; [apply IH; simpl; lia|].
  destruct s2 as [|c3 s3]; [cbn; by rewrite E1, E2|].
  destruct (white3 _ _ _) eqn:E3; [apply IH; simpl; lia|].
  cbn. by rewrite E1, E2, E3.
Qed.

Lemma trim_nonblank s : is_blank s = false → trim s ≠ "".
Proof.
  intros Hb. unfold trim. destruct (trim_start_blank s) as [H1 H2].
  destruct (trim_start s) as [|c t]; [by rewrite H2 in Hb|].
  cbn [trim_end]. by rewrite H1, Hb.
Qed.

(** A text is determined by its parts around the first occurrence of a character, and a
    printed number holds only digits. *)
Lemma split_at_char_inj c (a a' b b' : string) :
  contains_any (Ascii.eqb c) a = false → contains_any (Ascii.eqb c) a' = false →
  a +:+ String c b = a' +:+ String c b' → a = a' ∧ b = b'.
Proof.
  intros Ha Ha' H. assert (Hb : (a, String c b) = (a', String c b')).
  { rewrite <- (break_at_found (Ascii.eqb c) a _ b Ha) by apply Ascii.eqb_refl. rewrite H. apply break_at_found; [done|apply Ascii.eqb_refl]. }
  by injection Hb as -> ->.
Qed.
Lemma pretty_N_go_free P x s :
  (∀ d, P (pretty_N_char d) = false) → contains_any P s = false → contains_any P (pretty_N_go x s) = false.
Proof.
  intros HP. revert s. induction (N.lt_wf_0 x) as [x _ IH]; intros s Hs.
  assert (x = 0 ∨ 0 < x)%N as [->|?] by lia; [by rewrite pretty_N_go_0|].
  rewrite pretty_N_go_step by done. apply IH; [by apply N.div_lt|]. cbn [contains_any]. by rewrite Hs, HP.
Qed.
Lemma pretty_N_free c (n : N) : (∀ d, Ascii.eqb c (pretty_N_char d) = false) → contains_any (Ascii.eqb c) (pretty n) = false.
Proof.
  intros HP. unfold pretty, pretty_N. case_decide; [cbn; pose proof (HP 0%N) as H0; cbn in H0; by rewrite H0|]. by apply pretty_N_go_free.
Qed.
