(* ===== verification/PolicyTypes.v ===== *)
(** * Policies: data and write-time validation

    Models [src/src/policy/types.rs]: the policy, rule and condition types, the
    policy builders, [Policy::validate] and the recursive condition walks it uses.
    A validation error is a value of [ValidationError], one constructor per
    [return Err(format!(..))] of the source with the values its message shows.
    [validate_spec] characterises the accepted policies by a declarative
    occurrence relation on condition trees. *)

From stdpp Require Import base strings list.
From Stdlib Require Import Ascii ZArith Lia.
From S2P Require Import Prelude RustStr.

(** ** Data *)

(** [chrono::NaiveTime]: seconds of the day and nanoseconds, ordered
    lexicographically. *)
Record NaiveTime := { nt_secs : Z; nt_frac : Z }.

#[export] Instance NaiveTime_eq_dec : EqDecision NaiveTime.
Proof. solve_decision. Defined.

Definition naive_time_leb (a b : NaiveTime) : bool :=
  (nt_secs a <? nt_secs b)%Z || (nt_secs a =? nt_secs b)%Z && (nt_frac a <=? nt_frac b)%Z.

(** [PolicyAction]. *)
Inductive PolicyAction := PA_Allow | PA_Deny | PA_Prompt.

#[export] Instance PolicyAction_eq_dec : EqDecision PolicyAction.
Proof. solve_decision. Defined.

(** [PolicyCondition]. *)
Inductive PolicyCondition :=
| UrlMatch (pattern : string)
| MethodMatch (methods : list string)
| ActionMatch (pattern : string)
| TimeWindow (start stop : NaiveTime)
| RateLimit (max window_secs : Z)
| SpendCap (asset : string) (per_action_max : Z)
| And (cs : list PolicyCondition)
| Or (cs : list PolicyCondition)
| Not (c : PolicyCondition)
| Always.

(** [PolicyRule]. *)
Record PolicyRule := { condition : PolicyCondition; action : PolicyAction }.

(** [Policy]. *)
Record Policy := {
  policy_id : string;
  policy_name : string;
  credential_pattern : string;
  principal_pattern : option string;
  rules : list PolicyRule;
  default_action : PolicyAction;
  kill : bool;
}.

(** ** Builders *)

(** [Policy::allow_all], with the fresh uuid as an argument. *)
Definition allow_all (uuid name pattern : string) : Policy :=
  {| policy_id := uuid; policy_name := name; credential_pattern := pattern;
     principal_pattern := None; rules := []; default_action := PA_Allow; kill := false |}.

(** [Policy::deny_all]. *)
Definition deny_all (uuid name pattern : string) : Policy :=
  {| policy_id := uuid; policy_name := name; credential_pattern := pattern;
     principal_pattern := None; rules := []; default_action := PA_Deny; kill := false |}.

(** [Policy::kill_switch]. *)
Definition kill_switch (id pattern : string) : Policy :=
  {| policy_id := id; policy_name := "halt " +:+ pattern; credential_pattern := "*";
     principal_pattern := Some pattern; rules := []; default_action := PA_Deny;
     kill := true |}.

(** [Policy::with_rule]. *)
Definition with_rule (p : Policy) (c : PolicyCondition) (a : PolicyAction) : Policy :=
  {| policy_id := policy_id p; policy_name := policy_name p;
     credential_pattern := credential_pattern p;
     principal_pattern := principal_pattern p;
     rules := rules p ++ [{| condition := c; action := a |}];
     default_action := default_action p; kill := kill p |}.

(** [Policy::with_principal]. *)
Definition with_principal (p : Policy) (pattern : string) : Policy :=
  {| policy_id := policy_id p; policy_name := policy_name p;
     credential_pattern := credential_pattern p;
     principal_pattern := Some pattern; rules := rules p;
     default_action := default_action p; kill := kill p |}.

(** A policy with its default action replaced. *)
Definition with_default (p : Policy) (a : PolicyAction) : Policy :=
  {| policy_id := policy_id p; policy_name := policy_name p;
     credential_pattern := credential_pattern p;
     principal_pattern := principal_pattern p; rules := rules p;
     default_action := a; kill := kill p |}.

(** A policy with its rules replaced. *)
Definition with_rules (p : Policy) (rs : list PolicyRule) : Policy :=
  {| policy_id := policy_id p; policy_name := policy_name p;
     credential_pattern := credential_pattern p;
     principal_pattern := principal_pattern p; rules := rs;
     default_action := default_action p; kill := kill p |}.

(** [PolicyCondition::read_only] and [PolicyCondition::write_methods]. *)
Definition read_only : PolicyCondition := MethodMatch ["GET"; "HEAD"; "OPTIONS"].
Definition write_methods : PolicyCondition :=
  MethodMatch ["POST"; "PUT"; "PATCH"; "DELETE"].

(** ** Condition walks *)

(** [condition_contains_rate_limit]. *)
Fixpoint condition_contains_rate_limit (c : PolicyCondition) : bool :=
  match c with
  | RateLimit _ _ => true
  | And cs | Or cs => existsb condition_contains_rate_limit cs
  | Not inner => condition_contains_rate_limit inner
  | _ => false
  end.

(** [condition_invalid_rate_limit]. *)
Fixpoint condition_invalid_rate_limit (c : PolicyCondition) : option (Z * Z) :=
  match c with
  | RateLimit max window_secs =>
      if (max =? 0)%Z || (window_secs =? 0)%Z then Some (max, window_secs) else None
  | And cs | Or cs => find_map condition_invalid_rate_limit cs
  | Not inner => condition_invalid_rate_limit inner
  | _ => None
  end.

(** [contains_spend_cap]. *)
Fixpoint contains_spend_cap (c : PolicyCondition) : bool :=
  match c with
  | SpendCap _ _ => true
  | And cs | Or cs => existsb contains_spend_cap cs
  | Not inner => contains_spend_cap inner
  | _ => false
  end.

(** [condition_nests_spend_cap]. *)
Definition condition_nests_spend_cap (c : PolicyCondition) : bool :=
  match c with
  | And cs | Or cs => existsb contains_spend_cap cs
  | Not inner => contains_spend_cap inner
  | _ => false
  end.

(** [condition_degenerate_time_window]. *)
Fixpoint condition_degenerate_time_window (c : PolicyCondition)
  : option (NaiveTime * NaiveTime) :=
  match c with
  | TimeWindow start stop => if bool_decide (start = stop) then Some (start, stop) else None
  | And cs | Or cs => find_map condition_degenerate_time_window cs
  | Not inner => condition_degenerate_time_window inner
  | _ => None
  end.

(** [Policy::rate_limit_default_not_deny]. *)
Definition rate_limit_default_not_deny (p : Policy) : bool :=
  bool_decide (default_action p ≠ PA_Deny)
  && existsb (λ r, condition_contains_rate_limit (condition r)) (rules p).

(** ** Validation *)

Inductive ValidationError :=
| SpendCapAssetEmpty (name : string)
| SpendCapMaxZero (name : string)
| SpendCapNested (name : string)
| TimeWindowDegenerate (name : string) (start stop : NaiveTime)
| RateLimitZero (name : string) (max window_secs : Z)
| SpendCapDefaultNotDeny (name : string)
| RateLimitDefaultNotDeny (name : string).

(** One iteration of the loop of [Policy::validate]: the checks on one rule.  The
    accumulator is the pair of flags [(uses_spend_cap, uses_rate_limit)]. *)
Definition validate_rule (name : string) (flags : bool * bool) (r : PolicyRule)
  : result (bool * bool) ValidationError :=
  let? spend :=
    (match condition r with
     | SpendCap asset per_action_max =>
         if is_blank asset then Err (SpendCapAssetEmpty name)
         else if (per_action_max =? 0)%Z then Err (SpendCapMaxZero name)
         else Ok true
     | c => if condition_nests_spend_cap c then Err (SpendCapNested name) else Ok flags.1
     end) in
  match condition_degenerate_time_window (condition r) with
  | Some (start, stop) => Err (TimeWindowDegenerate name start stop)
  | None =>
      let rate := flags.2 || condition_contains_rate_limit (condition r) in
      match condition_invalid_rate_limit (condition r) with
      | Some (max, window_secs) => Err (RateLimitZero name max window_secs)
      | None => Ok (spend, rate)
      end
  end.

Fixpoint validate_rules (name : string) (flags : bool * bool) (rs : list PolicyRule)
  : result (bool * bool) ValidationError :=
  match rs with
  | [] => Ok flags
  | r :: rs' => let? flags' := validate_rule name flags r in validate_rules name flags' rs'
  end.

(** [Policy::validate]. *)
Definition validate (p : Policy) : result unit ValidationError :=
  let? flags := validate_rules (policy_name p) (false, false) (rules p) in
  if flags.1 && bool_decide (default_action p ≠ PA_Deny)
  then Err (SpendCapDefaultNotDeny (policy_name p))
  else if flags.2 && bool_decide (default_action p ≠ PA_Deny)
  then Err (RateLimitDefaultNotDeny (policy_name p))
  else Ok tt.

(** ** Induction over condition trees *)

Section condition_ind.
Context (P : PolicyCondition → Prop).
Hypothesis H_url : ∀ s, P (UrlMatch s).
Hypothesis H_method : ∀ ms, P (MethodMatch ms).
Hypothesis H_action : ∀ s, P (ActionMatch s).
Hypothesis H_time : ∀ a b, P (TimeWindow a b).
Hypothesis H_rate : ∀ m w, P (RateLimit m w).
Hypothesis H_spend : ∀ a m, P (SpendCap a m).
Hypothesis H_and : ∀ cs, Forall P cs → P (And cs).
Hypothesis H_or : ∀ cs, Forall P cs → P (Or cs).
Hypothesis H_not : ∀ c, P c → P (Not c).
Hypothesis H_always : P Always.

Fixpoint condition_tree_ind (c : PolicyCondition) : P c :=
  let fix go (cs : list PolicyCondition) : Forall P cs :=
    match cs with
    | [] => Forall_nil_2 P
    | c :: cs' => Forall_cons_2 P c cs' (condition_tree_ind c) (go cs')
    end in
  match c with
  | UrlMatch s => H_url s
  | MethodMatch ms => H_method ms
  | ActionMatch s => H_action s
  | TimeWindow a b => H_time a b
  | RateLimit m w => H_rate m w
  | SpendCap a m => H_spend a m
  | And cs => H_and cs (go cs)
  | Or cs => H_or cs (go cs)
  | Not c' => H_not c' (condition_tree_ind c')
  | Always => H_always
  end.
End condition_ind.

(** [occurs d c]: the condition [d] occurs in the tree [c], at any depth. *)
Inductive occurs (d : PolicyCondition) : PolicyCondition → Prop :=
| occurs_here : occurs d d
| occurs_and cs c : c ∈ cs → occurs d c → occurs d (And cs)
| occurs_or cs c : c ∈ cs → occurs d c → occurs d (Or cs)
| occurs_not c : occurs d c → occurs d (Not c).

#[export] Hint Constructors occurs : vul.

(** A boolean walk that descends through [And], [Or] and [Not] finds exactly the
    occurrences of the leaves it accepts. *)
Section walk.
Context (leaf : PolicyCondition → bool) (walk : PolicyCondition → bool).
Hypothesis walk_and : ∀ cs, walk (And cs) = existsb walk cs.
Hypothesis walk_or : ∀ cs, walk (Or cs) = existsb walk cs.
Hypothesis walk_not : ∀ c, walk (Not c) = walk c.
Hypothesis walk_leaf : ∀ c,
  match c with And _ | Or _ | Not _ => True | _ => walk c = leaf c end.
Hypothesis leaf_leaf : ∀ c,
  match c with And _ | Or _ | Not _ => leaf c = false | _ => True end.

Lemma walk_occurs c : walk c = true ↔ ∃ d, occurs d c ∧ leaf d = true.
Proof.
  assert (Hin : ∀ cs, Forall (λ c, walk c = true ↔ ∃ d, occurs d c ∧ leaf d = true) cs →
            existsb walk cs = true ↔ ∃ c d, c ∈ cs ∧ occurs d c ∧ leaf d = true).
  { intros cs Hcs. rewrite existsb_elem_of. rewrite Forall_forall in Hcs. split.
    - intros (x & Hx & Hw). apply Hcs in Hw as (d & ? & ?); eauto.
    - intros (x & d & Hx & ? & ?). exists x. rewrite Hcs; eauto. }
  induction c using condition_tree_ind;
    try (match goal with |- walk ?c = _ ↔ _ =>
           specialize (walk_leaf c); simpl in walk_leaf; rewrite walk_leaf end;
         split; [eauto with vul|intros (d & Ho & Hd); inversion Ho; by subst]).
  - rewrite walk_and, Hin by done. split.
    + intros (x & d & ? & ? & ?). eauto with vul.
    + intros (d & Ho & Hd). inversion Ho; subst; [|eauto].
      specialize (leaf_leaf (And cs)). simpl in leaf_leaf. congruence.
  - rewrite walk_or, Hin by done. split.
    + intros (x & d & ? & ? & ?). eauto with vul.
    + intros (d & Ho & Hd). inversion Ho; subst; [|eauto].
      specialize (leaf_leaf (Or cs)). simpl in leaf_leaf. congruence.
  - rewrite walk_not, IHc. split.
    + intros (d & ? & ?). eauto with vul.
    + intros (d & Ho & Hd). inversion Ho; subst; [|eauto].
      specialize (leaf_leaf (Not c)). simpl in leaf_leaf. congruence.
Qed.
End walk.

Definition is_rate_limit (c : PolicyCondition) : bool :=
  match c with RateLimit _ _ => true | _ => false end.
Definition is_spend_cap (c : PolicyCondition) : bool :=
  match c with SpendCap _ _ => true | _ => false end.

Lemma contains_rate_limit_occurs c :
  condition_contains_rate_limit c = true ↔ ∃ m w, occurs (RateLimit m w) c.
Proof.
  rewrite (walk_occurs is_rate_limit); [|by intros; try destruct c0..].
  split; [intros ([] & ? & ?); eauto; done|intros (m & w & ?); by exists (RateLimit m w)].
Qed.

Lemma contains_spend_cap_occurs c :
  contains_spend_cap c = true ↔ ∃ a m, occurs (SpendCap a m) c.
Proof.
  rewrite (walk_occurs is_spend_cap); [|by intros; try destruct c0..].
  split; [intros ([] & ? & ?); eauto; done|intros (m & w & ?); by exists (SpendCap m w)].
Qed.

(** The same fact for a walk that returns the first offending leaf. *)
Section walk_option.
Context {B : Type} (leaf walk : PolicyCondition → option B).
Hypothesis walk_and : ∀ cs, walk (And cs) = find_map walk cs.
Hypothesis walk_or : ∀ cs, walk (Or cs) = find_map walk cs.
Hypothesis walk_not : ∀ c, walk (Not c) = walk c.
Hypothesis walk_leaf : ∀ c,
  match c with And _ | Or _ | Not _ => leaf c = None | _ => walk c = leaf c end.

Lemma walk_option_occurs c : walk c = None ↔ ∀ d, occurs d c → leaf d = None.
Proof.
  pose proof (walk_occurs (λ c, bool_decide (is_Some (leaf c)))
    (λ c, bool_decide (is_Some (walk c)))) as Hw.
  rewrite eq_None_not_Some.
  rewrite <- (bool_decide_eq_false (is_Some (walk c))), <- not_true_iff_false, Hw.
  - split.
    + intros Hn d Hd. destruct (leaf d) eqn:E; [|done].
      exfalso. apply Hn. exists d. split; [done|]. rewrite E. by apply bool_decide_eq_true.
    + intros Hn (d & Hd & He). rewrite (Hn d Hd) in He. done.
  - intros cs. by rewrite walk_and, <- find_map_existsb.
  - intros cs. by rewrite walk_or, <- find_map_existsb.
  - intros c'. by rewrite walk_not.
  - intros c'. specialize (walk_leaf c'). destruct c'; by rewrite ?walk_leaf.
  - intros c'. specialize (walk_leaf c'). destruct c'; by rewrite ?walk_leaf.
Qed.
End walk_option.

Lemma invalid_rate_limit_occurs c :
  condition_invalid_rate_limit c = None ↔
  ∀ m w, occurs (RateLimit m w) c → m ≠ 0%Z ∧ w ≠ 0%Z.
Proof.
  rewrite (walk_option_occurs (λ c, match c with
    | RateLimit _ _ => condition_invalid_rate_limit c | _ => None end));
    [|by intros; try destruct c0..].
  split.
  - intros H m w Hd%H. simpl in Hd.
    destruct (Z.eqb_spec m 0), (Z.eqb_spec w 0); done.
  - intros H [] Hd; try done. apply H in Hd as [Hm Hw]. simpl.
    by rewrite (proj2 (Z.eqb_neq _ _) Hm), (proj2 (Z.eqb_neq _ _) Hw).
Qed.

Lemma degenerate_time_window_occurs c :
  condition_degenerate_time_window c = None ↔ ∀ a b, occurs (TimeWindow a b) c → a ≠ b.
Proof.
  rewrite (walk_option_occurs (λ c, match c with
    | TimeWindow _ _ => condition_degenerate_time_window c | _ => None end));
    [|by intros; try destruct c0..].
  split.
  - intros H a b Hd%H. simpl in Hd. by destruct (decide (a = b)); case_bool_decide.
  - intros H [] Hd; try done. apply H in Hd. simpl. by rewrite bool_decide_false.
Qed.

(** What [validate] demands of one rule. *)
Definition rule_valid (default : PolicyAction) (r : PolicyRule) : Prop :=
  (∀ a m, occurs (SpendCap a m) (condition r) →
     condition r = SpendCap a m ∧ is_blank a = false ∧ m ≠ 0%Z)
  ∧ (∀ a b, occurs (TimeWindow a b) (condition r) → a ≠ b)
  ∧ (∀ m w, occurs (RateLimit m w) (condition r) → m ≠ 0%Z ∧ w ≠ 0%Z)
  ∧ (∀ d, occurs d (condition r) → is_rate_limit d || is_spend_cap d = true →
       default = PA_Deny).

Lemma nests_spend_cap_occurs c :
  is_spend_cap c = false →
  condition_nests_spend_cap c = false ↔ ∀ a m, ¬ occurs (SpendCap a m) c.
Proof.
  intros Hc. replace (condition_nests_spend_cap c) with (contains_spend_cap c)
    by (by destruct c).
  rewrite <- not_true_iff_false, contains_spend_cap_occurs. naive_solver.
Qed.

(** The checks of one iteration, and the flags it returns. *)
Lemma validate_rule_ok name flags r flags' :
  validate_rule name flags r = Ok flags' ↔
  flags' = (flags.1 || is_spend_cap (condition r),
            flags.2 || condition_contains_rate_limit (condition r))
  ∧ (∀ a m, occurs (SpendCap a m) (condition r) →
       condition r = SpendCap a m ∧ is_blank a = false ∧ m ≠ 0%Z)
  ∧ (∀ a b, occurs (TimeWindow a b) (condition r) → a ≠ b)
  ∧ (∀ m w, occurs (RateLimit m w) (condition r) → m ≠ 0%Z ∧ w ≠ 0%Z).
Proof.
  unfold validate_rule.
  rewrite <- degenerate_time_window_occurs, <- invalid_rate_limit_occurs.
  destruct (is_spend_cap (condition r)) eqn:Hsc.
  - destruct (condition r) as [| | | | |asset cap| | | |] eqn:Hc; try done. simpl.
    destruct (is_blank asset) eqn:Hb; simpl.
    { split; [done|]. intros (_ & H & _). destruct (H asset cap (occurs_here _)) as (_ & ? & _). congruence. }
    destruct (Z.eqb_spec cap 0) as [->|Hz]; simpl.
    { split; [done|]. intros (_ & H & _). destruct (H asset 0%Z (occurs_here _)) as (_ & _ & ?). congruence. }
    rewrite !orb_true_r, !orb_false_r. split.
    + intros [= <-]. repeat split; inversion H; by subst.
    + by intros [-> _].
  - assert (Heq : (match condition r with
      | SpendCap asset per_action_max =>
          if is_blank asset then Err (SpendCapAssetEmpty name)
          else if (per_action_max =? 0)%Z then Err (SpendCapMaxZero name) else Ok true
      | c => if condition_nests_spend_cap c then Err (SpendCapNested name) else Ok flags.1
      end) = if condition_nests_spend_cap (condition r)
             then Err (SpendCapNested name) else Ok flags.1)
      by (by destruct (condition r)).
    rewrite Heq, orb_false_r. clear Heq.
    pose proof (nests_spend_cap_occurs _ Hsc) as Hn.
    destruct (condition_nests_spend_cap (condition r)); simpl.
    + split; [done|]. intros (_ & H & _).
      assert (Hf : true = false); [|done]. apply Hn. intros a m Ho.
      destruct (H a m Ho) as [He _]. by rewrite He in Hsc.
    + destruct (condition_degenerate_time_window (condition r)) as [[]|]; [naive_solver|].
      destruct (condition_invalid_rate_limit (condition r)) as [[]|]; [naive_solver|].
      split; [|by intros [-> _]]. intros [= <-]. repeat split; try done;
        exfalso; by eapply (proj1 Hn eq_refl).
Qed.

Lemma validate_rules_ok name flags rs flags' :
  validate_rules name flags rs = Ok flags' ↔
  flags' = (flags.1 || existsb (λ r, is_spend_cap (condition r)) rs,
            flags.2 || existsb (λ r, condition_contains_rate_limit (condition r)) rs)
  ∧ (∀ r, r ∈ rs →
      (∀ a m, occurs (SpendCap a m) (condition r) →
         condition r = SpendCap a m ∧ is_blank a = false ∧ m ≠ 0%Z)
      ∧ (∀ a b, occurs (TimeWindow a b) (condition r) → a ≠ b)
      ∧ (∀ m w, occurs (RateLimit m w) (condition r) → m ≠ 0%Z ∧ w ≠ 0%Z)).
Proof.
  revert flags. induction rs as [|r rs IH]; intros flags; simpl.
  - rewrite !orb_false_r. destruct flags. split.
    + intros [= <-]. split; [done|]. intros r Hr. by apply elem_of_nil in Hr.
    + by intros [-> _].
  - setoid_rewrite elem_of_cons.
    destruct (validate_rule name flags r) as [f|e] eqn:E; simpl.
    + apply validate_rule_ok in E as (-> & Hr). rewrite IH. simpl. rewrite !orb_assoc.
      split; intros [-> Hrs]; split; try done; [|by eauto].
      intros r' [->|?]; auto.
    + split; [done|]. intros [-> Hrs]. pose proof (Hrs r (or_introl eq_refl)) as Hr.
      assert (validate_rule name flags r = Ok
        (flags.1 || is_spend_cap (condition r),
         flags.2 || condition_contains_rate_limit (condition r)));
        [by apply validate_rule_ok|congruence].
Qed.

(** A validated policy: every spend cap is a rule's whole condition, names a
    non-blank asset and has a positive cap; no time window is degenerate; every
    rate limit, at any depth, has positive dimensions; and a policy with a spend
    cap or a rate limit at any depth has a deny default.  These conditions are
    also enough. *)
Theorem validate_spec p :
  validate p = Ok tt ↔ ∀ r, r ∈ rules p → rule_valid (default_action p) r.
Proof.
  unfold validate, rule_valid.
  pose proof (validate_rules_ok (policy_name p) (false, false) (rules p)) as Hv.
  destruct (validate_rules _ _ _) as [f|e]; simpl.
  - destruct (Hv f) as [Hf _]. destruct (Hf eq_refl) as [-> Hr]. simpl. split.
    + intros Hok r Hin. destruct (Hr r Hin) as (Hs & Ht & Hl).
      split_and!; [done..|].
      intros d Ho Hd. destruct (decide (default_action p = PA_Deny)) as [|Hne]; [done|].
      rewrite bool_decide_true, !andb_true_r in Hok by done.
      destruct d; try done.
      * assert (existsb (λ r, condition_contains_rate_limit (condition r)) (rules p) = true)
          as Hx.
        { apply existsb_elem_of. exists r. split; [done|].
          apply contains_rate_limit_occurs. eauto. }
        rewrite Hx in Hok. by destruct (existsb _ _).
      * apply Hs in Ho as (Hc & _).
        assert (existsb (λ r, is_spend_cap (condition r)) (rules p) = true) as Hx.
        { apply existsb_elem_of. exists r. by rewrite Hc. }
        by rewrite Hx in Hok.
    + intros H. destruct (decide (default_action p = PA_Deny)) as [He|Hne].
      { rewrite bool_decide_false, !andb_false_r by naive_solver. done. }
      rewrite bool_decide_true, !andb_true_r by done.
      destruct (existsb (λ r, is_spend_cap _) _) eqn:E1.
      { apply existsb_elem_of in E1 as (r & Hin & Hc). exfalso. apply Hne.
        destruct (H r Hin) as (_ & _ & _ & Hd). apply (Hd (condition r)); [constructor|].
        by rewrite Hc, orb_true_r. }
      destruct (existsb (λ r, condition_contains_rate_limit _) _) eqn:E2; [|done].
      apply existsb_elem_of in E2 as (r & Hin & (m & w & Ho)%contains_rate_limit_occurs).
      exfalso. apply Hne. destruct (H r Hin) as (_ & _ & _ & Hd). by eapply Hd.
  - split; [done|]. intros H.
    destruct (Hv (existsb (λ r, is_spend_cap (condition r)) (rules p),
      existsb (λ r, condition_contains_rate_limit (condition r)) (rules p))) as [_ Hb].
    exfalso. discriminate Hb. split; [done|]. intros r Hr.
    by destruct (H r Hr) as (? & ? & ? & _).
Qed.
