(* ===== verification/Precedence.v ===== *)
(** * The precedence decision of the policy engine

    Models [src/src/policy/precedence.rs].  [resolve_precedence] decides from the
    set of rule outcomes, the defaults of the matching policies and the engine
    default; [resolve_lazily] is the shipped form that asks the tiers one by one
    through a closure with side effects (a state monad here).  The theorems give
    the decision as a maximum of ranks, its independence of the order of the
    policies, the equality of the two forms, and that the lazy form asks no tier
    weaker than the one that decides. *)

From stdpp Require Import base strings list sets.
From Stdlib Require Import ZArith Lia.
From S2P Require Import Prelude RustStr PolicyTypes.

(** ** Data *)

(** [PolicyDecision] of [policy/mod.rs]. *)
Inductive PolicyDecision :=
| PD_Allow
| PD_Deny (reason : string)
| PD_Prompt.

(** [RuleOutcome]. *)
Inductive RuleOutcome := RO_Kill | RO_Deny | RO_Prompt | RO_Allow | RO_NoMatch.

#[export] Instance RuleOutcome_eq_dec : EqDecision RuleOutcome.
Proof. solve_decision. Defined.

(** [precedence::Verdict]. *)
Inductive Verdict :=
| V_Kill
| V_Deny
| V_Prompt
| V_Allow
| V_PolicyDefaultDeny
| V_PolicyDefaultPrompt
| V_PolicyDefaultAllow
| V_EngineDefaultDeny
| V_EngineDefaultAllow
| V_FailClosedTail.

#[export] Instance Verdict_eq_dec : EqDecision Verdict.
Proof. solve_decision. Defined.

(** ** Operations *)

(** [fail_closed_tail]. *)
Definition fail_closed_tail : Verdict := V_FailClosedTail.

(** [decision_for]. *)
Definition decision_for (v : Verdict) (rule_deny_policy default_deny_policy : string)
  : PolicyDecision :=
  match v with
  | V_Kill => PD_Deny "denied: this principal has been halted"
  | V_Deny => PD_Deny ("Denied by policy '" +:+ rule_deny_policy +:+ "': rule matched")
  | V_Prompt | V_PolicyDefaultPrompt => PD_Prompt
  | V_Allow | V_PolicyDefaultAllow | V_EngineDefaultAllow => PD_Allow
  | V_PolicyDefaultDeny =>
      PD_Deny ("Denied by policy '" +:+ default_deny_policy +:+ "': default action")
  | V_EngineDefaultDeny =>
      PD_Deny "no_policy: no policy matches this credential (default-deny enforcement)"
  | V_FailClosedTail =>
      PD_Deny "denied: policy evaluation reached no decision (fail-closed)"
  end.

(** [slice::contains]. *)
Definition has_outcome (o : RuleOutcome) (l : list RuleOutcome) : bool :=
  existsb (λ x, bool_decide (x = o)) l.
Definition has_action (a : PolicyAction) (l : list PolicyAction) : bool :=
  existsb (λ x, bool_decide (x = a)) l.

(** [resolve_precedence]. *)
Definition resolve_precedence (outcomes : list RuleOutcome)
    (policy_defaults : list PolicyAction) (engine_default_deny : bool) : Verdict :=
  if has_outcome RO_Kill outcomes then V_Kill
  else if has_outcome RO_Deny outcomes then V_Deny
  else if has_outcome RO_Prompt outcomes then V_Prompt
  else if has_outcome RO_Allow outcomes then V_Allow
  else if has_action PA_Deny policy_defaults then V_PolicyDefaultDeny
  else if has_action PA_Prompt policy_defaults then V_PolicyDefaultPrompt
  else if has_action PA_Allow policy_defaults then V_PolicyDefaultAllow
  else match policy_defaults with
       | [] => if engine_default_deny then V_EngineDefaultDeny else V_EngineDefaultAllow
       | _ => fail_closed_tail
       end.

(** The [for tier in [..]] loop of [resolve_lazily]. *)
Fixpoint resolve_tiers {S} (matched : RuleOutcome → st S bool) (tiers : list RuleOutcome)
    (policy_defaults : list PolicyAction) (engine_default_deny : bool) : st S Verdict :=
  match tiers with
  | [] => st_ret (resolve_precedence [] policy_defaults engine_default_deny)
  | tier :: rest =>
      let! m := matched tier in
      if m then st_ret (resolve_precedence [tier] policy_defaults engine_default_deny)
      else resolve_tiers matched rest policy_defaults engine_default_deny
  end.

(** [resolve_lazily]. *)
Definition resolve_lazily {S} (kill : bool) (matched : RuleOutcome → st S bool)
    (policy_defaults : list PolicyAction) (engine_default_deny : bool) : st S Verdict :=
  if kill
  then st_ret (resolve_precedence [RO_Kill] policy_defaults engine_default_deny)
  else resolve_tiers matched [RO_Deny; RO_Prompt; RO_Allow]
         policy_defaults engine_default_deny.

(** ** Specification: the highest rank wins *)

Definition outcome_rank (o : RuleOutcome) : nat :=
  match o with RO_Kill => 10 | RO_Deny => 9 | RO_Prompt => 8 | RO_Allow => 7 | RO_NoMatch => 0 end.

Definition default_rank (a : PolicyAction) : nat :=
  match a with PA_Deny => 6 | PA_Prompt => 5 | PA_Allow => 4 end.

Definition engine_rank (defaults : list PolicyAction) (engine_default_deny : bool) : nat :=
  match defaults with [] => if engine_default_deny then 3 else 2 | _ => 0 end.

Definition max_rank (l : list nat) : nat := foldr Nat.max 0 l.

Definition verdict_of_rank (n : nat) : Verdict :=
  match n with
  | 10 => V_Kill | 9 => V_Deny | 8 => V_Prompt | 7 => V_Allow
  | 6 => V_PolicyDefaultDeny | 5 => V_PolicyDefaultPrompt | 4 => V_PolicyDefaultAllow
  | 3 => V_EngineDefaultDeny | 2 => V_EngineDefaultAllow
  | _ => V_FailClosedTail
  end.

Definition rank_spec (outcomes : list RuleOutcome) (defaults : list PolicyAction)
    (engine_default_deny : bool) : Verdict :=
  verdict_of_rank (Nat.max (max_rank (outcome_rank <$> outcomes))
    (Nat.max (max_rank (default_rank <$> defaults)) (engine_rank defaults engine_default_deny))).

(** Whether a verdict denies. *)
Definition denies (v : Verdict) : bool :=
  match v with
  | V_Kill | V_Deny | V_PolicyDefaultDeny | V_EngineDefaultDeny | V_FailClosedTail => true
  | _ => false
  end.

Definition is_deny (d : PolicyDecision) : bool :=
  match d with PD_Deny _ => true | _ => false end.

(** ** Lemmas *)

Lemma max_rank_bound {A} (f : A → nat) n (l : list A) :
  max_rank (f <$> l) ≤ n ↔ ∀ x, x ∈ l → f x ≤ n.
Proof.
  induction l as [|x l IH]; simpl.
  - split; [|lia]. intros _ y Hy. by apply elem_of_nil in Hy.
  - setoid_rewrite elem_of_cons. rewrite Nat.max_lub_iff, IH. naive_solver.
Qed.

Lemma has_outcome_true o l : has_outcome o l = true ↔ o ∈ l.
Proof.
  unfold has_outcome. rewrite existsb_elem_of. setoid_rewrite bool_decide_eq_true. naive_solver.
Qed.

Lemma has_action_true o l : has_action o l = true ↔ o ∈ l.
Proof.
  unfold has_action. rewrite existsb_elem_of. setoid_rewrite bool_decide_eq_true. naive_solver.
Qed.

Lemma max_rank_outcomes l :
  max_rank (outcome_rank <$> l) =
  if has_outcome RO_Kill l then 10 else if has_outcome RO_Deny l then 9
  else if has_outcome RO_Prompt l then 8 else if has_outcome RO_Allow l then 7 else 0.
Proof.
  induction l as [|o l IH]; [done|]. cbn [fmap list_fmap max_rank foldr].
  fold (max_rank (outcome_rank <$> l)). rewrite IH. unfold has_outcome. simpl.
  destruct o; simpl; split_ifs; done.
Qed.

Lemma max_rank_defaults l :
  max_rank (default_rank <$> l) =
  if has_action PA_Deny l then 6 else if has_action PA_Prompt l then 5
  else if has_action PA_Allow l then 4 else 0.
Proof.
  induction l as [|o l IH]; [done|]. cbn [fmap list_fmap max_rank foldr].
  fold (max_rank (default_rank <$> l)). rewrite IH. unfold has_action. simpl.
  destruct o; simpl; split_ifs; done.
Qed.

(** The outcome lists only matter as sets. *)
Lemma resolve_precedence_ext os os' ds ds' e :
  (∀ o, o ≠ RO_NoMatch → o ∈ os ↔ o ∈ os') → (∀ a, a ∈ ds ↔ a ∈ ds') →
  resolve_precedence os ds e = resolve_precedence os' ds' e.
Proof.
  intros Ho Ha. unfold resolve_precedence.
  assert (Heq : ∀ o, o ≠ RO_NoMatch → has_outcome o os = has_outcome o os').
  { intros o Hn. apply eq_true_iff_eq. rewrite !has_outcome_true. auto. }
  assert (Heqa : ∀ a, has_action a ds = has_action a ds').
  { intros a. apply eq_true_iff_eq. rewrite !has_action_true. auto. }
  rewrite !Heq, !Heqa by done. split_ifs; try done.
  destruct ds as [|a ds], ds' as [|a' ds']; try done.
  all: exfalso; set_solver.
Qed.

Lemma decision_for_deny v r d : is_deny (decision_for v r d) = denies v.
Proof. by destruct v. Qed.

#[export] Hint Rewrite decision_for_deny : vul_bool.

(** ** Theorems *)

(** The decision is the verdict of the highest rank among the rule outcomes, the
    policy defaults and, only when no policy matched, the engine default. *)
Theorem resolve_precedence_is_max_rank os ds e :
  resolve_precedence os ds e = rank_spec os ds e.
Proof.
  unfold resolve_precedence, rank_spec. rewrite max_rank_outcomes, max_rank_defaults.
  destruct (has_outcome RO_Kill os), (has_outcome RO_Deny os), (has_outcome RO_Prompt os),
    (has_outcome RO_Allow os); destruct ds as [|[] ds]; simpl; destruct e; simpl;
    split_ifs; done.
Qed.

(** The decision does not depend on the order of the outcomes or of the policies. *)
Theorem resolve_precedence_order_independent os os' ds ds' e :
  os ≡ₚ os' → ds ≡ₚ ds' → resolve_precedence os ds e = resolve_precedence os' ds' e.
Proof.
  intros Ho Hd. apply resolve_precedence_ext; [intros o _; by rewrite Ho|].
  intros a. by rewrite Hd.
Qed.

(** The fail-closed tail is unreachable. *)
Theorem resolve_precedence_never_tail os ds e :
  resolve_precedence os ds e ≠ V_FailClosedTail.
Proof.
  unfold resolve_precedence. destruct ds as [|[] ds], e; simpl; split_ifs; done.
Qed.

(** The lazy scan decides like the full precedence over every outcome the closure
    would report, for a closure without side effects. *)
Theorem resolve_lazily_equals_full {S} (present : RuleOutcome → bool) os ds e (s : S) :
  (∀ o, o ≠ RO_NoMatch → present o = true ↔ o ∈ os) →
  resolve_lazily (present RO_Kill) (λ t, st_ret (present t)) ds e s
  = (resolve_precedence os ds e, s).
Proof.
  intros Hp. unfold resolve_lazily.
  assert (Heq : ∀ o, o ≠ RO_NoMatch → has_outcome o os = present o).
  { intros o Hn. apply eq_true_iff_eq. rewrite has_outcome_true. symmetry. auto. }
  unfold resolve_precedence at 2. rewrite !Heq by done.
  destruct (present RO_Kill); simpl; [done|].
  destruct (present RO_Deny); simpl; [done|].
  destruct (present RO_Prompt); simpl; [done|].
  by destruct (present RO_Allow).
Qed.

(** The tiers strictly stronger than the deciding one. *)
Definition asked_tiers (kill : bool) (v : Verdict) : list RuleOutcome :=
  if kill then [] else
  match v with
  | V_Deny => [RO_Deny]
  | V_Prompt => [RO_Deny; RO_Prompt]
  | _ => [RO_Deny; RO_Prompt; RO_Allow]
  end.

(** The scan asks exactly the tiers at least as strong as the one that decides,
    strongest first, and nothing under a kill: whatever the closure answers and
    does, the log of its calls is determined by the verdict. *)
Theorem resolve_lazily_asks_no_weaker_tier {S} kill
    (matched : RuleOutcome → st S bool) ds e (s : S) log :
  let logged (t : RuleOutcome) : st (S * list RuleOutcome) bool :=
    λ '(s, l), let '(b, s') := matched t s in (b, (s', l ++ [t])) in
  let '(v, (s', log')) := resolve_lazily kill logged ds e (s, log) in
  log' = log ++ asked_tiers kill v ∧ (kill = true → s' = s).
Proof.
  intros logged. unfold resolve_lazily, asked_tiers.
  destruct kill; simpl; [by rewrite app_nil_r|].
  destruct (matched RO_Deny s) as [b1 s1] eqn:E1.
  destruct b1; simpl; [done|].
  destruct (matched RO_Prompt s1) as [b2 s2] eqn:E2.
  destruct b2; simpl; [by rewrite <- app_assoc|].
  destruct (matched RO_Allow s2) as [b3 s3] eqn:E3.
  destruct b3; simpl; [by rewrite <- !app_assoc|].
  unfold resolve_precedence. rewrite <- !app_assoc. simpl.
  split; [|done]. destruct ds as [|[] ds], e; simpl; split_ifs; done.
Qed.
