(* ===== verification/UrlCanon.v ===== *)
(** * Canonical URLs and URL pattern matching

    Models [src/src/policy/url_canon.rs].  The [url], [glob] and [urlencoding]
    crates are not part of the repository: their functions are the fields of the
    classes below, and every definition that uses them takes them as an argument.
    Everything else (percent normalisation, the two-pass fixed point, the pattern
    canonicalisation and its warnings, the component-wise glob match, the
    broadened reading of a deny rule) is written out. *)

From stdpp Require Import base strings list sorting.
From Stdlib Require Import Ascii ZArith Lia.
From S2P Require Import Prelude RustStr.

(** ** The external crates *)

(** The [url] crate: [Url::parse], parsing against a base, and the accessors and
    setters [one_pass] calls. *)
Class UrlCrate := {
  Url : Type;
  url_parse : string → option Url;
  url_parse_with_base : Url → string → option Url;
  url_host_str : Url → option string;
  url_port : Url → option Z;
  url_username : Url → string;
  url_password : Url → option string;
  url_path : Url → string;
  url_query : Url → option string;
  url_drop_fragment : Url → Url;
  url_domain : Url → option string;
  url_set_host : Url → string → option Url;
  url_as_str : Url → string;
}.

(** The [glob] crate: [Pattern::new(p).ok()] and [Pattern::matches]. *)
Class GlobCrate := { glob_new : string → option (string → bool) }.

(** The [urlencoding] crate. *)
Class UrlEncodingCrate := {
  decode_binary : string → string;
  url_encode : string → string;
}.

(** ** Percent escapes *)

(** [is_relative]. *)
Definition is_relative (raw : string) : bool :=
  starts_with "/" raw && negb (starts_with "//" raw) && negb (starts_with "/\" raw).

(** [is_unreserved]. *)
Definition is_unreserved (b : ascii) : bool :=
  is_ascii_alphanumeric b || one_of ["-"; "."; "_"; "~"]%char b.

(** [char::to_digit(16)]. *)
Definition to_digit16 (c : ascii) : option nat :=
  let n := nat_of_ascii c in
  if (48 <=? n) && (n <=? 57) then Some (n - 48)
  else if (97 <=? n) && (n <=? 102) then Some (n - 87)
  else if (65 <=? n) && (n <=? 70) then Some (n - 55)
  else None.

(** One digit of [{:02X}]. *)
Definition hex_upper (d : nat) : ascii :=
  if d <? 10 then ascii_of_nat (d + 48) else ascii_of_nat (d + 55).

(** What one valid escape [%hl] becomes. *)
Definition normalize_escape (h l : nat) : string :=
  let b := ascii_of_nat (h * 16 + l) in
  if is_unreserved b then String b ""
  else String "%" (String (hex_upper h) (String (hex_upper l) "")).

(** [normalize_percent]. *)
Fixpoint normalize_percent (s : string) : string :=
  match s with
  | EmptyString => ""
  | String c s1 =>
      if Ascii.eqb c "%" then
        match s1 with
        | String h (String l s3) =>
            match to_digit16 h, to_digit16 l with
            | Some dh, Some dl => normalize_escape dh dl +:+ normalize_percent s3
            | _, _ => "%25" +:+ normalize_percent s1
            end
        | _ => "%25" +:+ normalize_percent s1
        end
      else String c (normalize_percent s1)
  end.

(** [String::from_utf8_lossy]: each maximal ill-formed prefix becomes U+FFFD. *)
Definition cont (n lo hi : nat) : bool := (lo <=? n) && (n <=? hi).
Definition utf8_second_ok (a b : nat) : bool :=
  if a =? 224 then cont b 160 191
  else if a =? 237 then cont b 128 159
  else if a =? 240 then cont b 144 191
  else if a =? 244 then cont b 128 143
  else cont b 128 191.
Definition utf8_width (a : nat) : nat :=
  if a <? 128 then 1 else if cont a 194 223 then 2
  else if cont a 224 239 then 3 else if cont a 240 244 then 4 else 0.
Definition replacement_char : string :=
  String (ascii_of_nat 239) (String (ascii_of_nat 191) (String (ascii_of_nat 189) "")).

Fixpoint from_utf8_lossy (s : string) : string :=
  match s with
  | EmptyString => ""
  | String a s1 =>
      let na := nat_of_ascii a in
      match utf8_width na with
      | 0 => replacement_char +:+ from_utf8_lossy s1
      | 1 => String a (from_utf8_lossy s1)
      | w =>
          match s1 with
          | EmptyString => replacement_char
          | String b s2 =>
              if negb (utf8_second_ok na (nat_of_ascii b))
              then replacement_char +:+ from_utf8_lossy s1
              else if w =? 2 then String a (String b (from_utf8_lossy s2))
              else match s2 with
                   | EmptyString => replacement_char
                   | String c s3 =>
                       if negb (cont (nat_of_ascii c) 128 191)
                       then replacement_char +:+ from_utf8_lossy s2
                       else if w =? 3 then String a (String b (String c (from_utf8_lossy s3)))
                       else match s3 with
                            | EmptyString => replacement_char
                            | String d s4 =>
                                if negb (cont (nat_of_ascii d) 128 191)
                                then replacement_char +:+ from_utf8_lossy s3
                                else String a (String b (String c (String d (from_utf8_lossy s4))))
                            end
                   end
          end
      end
  end.

(** ** Pattern shapes *)

(** [PatternWarning]. *)
Inductive PatternWarning :=
| StarAfterHost
| StarInHost
| MeaningChanged
| Unparseable
| ExactUrlMissesQuery
| BracesAreLiteral
| QueryInPattern.

#[export] Instance PatternWarning_eq_dec : EqDecision PatternWarning.
Proof. solve_decision. Defined.

(** [CanonPattern]. *)
Record CanonPattern := { cp_text : string; cp_warnings : list PatternWarning }.

Definition DUMMY_BASE : string := "http://relative.invalid".
Definition STAR : string := "zzstarzz0".
Definition PLACEHOLDER : string := "{credential}".

Definition url_delim : ascii → bool := one_of ["/"; "?"; "#"]%char.
Definition scheme_char (c : ascii) : bool :=
  is_ascii_alphanumeric c || one_of ["+"; "-"; "."]%char c.

(** [host_part]. *)
Definition host_part (s : string) : option string :=
  match split_once "://" s with
  | None => None
  | Some (_, rest) =>
      let auth := (break_at url_delim rest).1 in
      Some (match rsplit_once_char "@" auth with Some (_, h) => h | None => auth end)
  end.

(** [braces_are_literal]. *)
Definition braces_are_literal (pattern : string) : bool :=
  contains_any (one_of ["{"; "}"]%char) (replace PLACEHOLDER "" pattern).

(** [exact_url_misses_query]. *)
Definition exact_url_misses_query (pattern : string) : bool :=
  if is_empty pattern || contains_any (one_of ["*"; "?"; "["; "]"]%char) pattern then false
  else match split_once "://" pattern with
       | Some (scheme, rest) =>
           negb (is_empty scheme) && negb (is_empty rest)
           && negb (match rest with String c _ => url_delim c | "" => false end)
       | None => is_relative pattern
       end.

(** [star_cuts_an_escape]. *)
Fixpoint star_cuts_an_escape (s : string) : bool :=
  match s with
  | EmptyString => false
  | String c s1 =>
      Ascii.eqb c "%" && contains_any (Ascii.eqb "*") (str_take 2 s1)
      || star_cuts_an_escape s1
  end.

(** The character loop of [expand_brace_alternation]; [body] is the text read since
    the last [{]. *)
Fixpoint expand_loop (out : list string) (body : option string) (s : string)
  : option (list string) :=
  match s with
  | EmptyString => match body with None => Some out | Some _ => None end
  | String c s' =>
      match body with
      | None =>
          if Ascii.eqb c "{" then expand_loop out (Some "") s'
          else if Ascii.eqb c "}" then None
          else expand_loop ((λ o, o +:+ String c "") <$> out) None s'
      | Some b =>
          if Ascii.eqb c "}" then
            if negb (contains "," b) then None
            else
              let alts := split_char "," b in
              if 64 <? length out * length alts then None
              else expand_loop (out ≫= λ o, (λ a, o +:+ a) <$> alts) None s'
          else if Ascii.eqb c "{" then None
          else expand_loop out (Some (b +:+ String c "")) s'
      end
  end.

Definition MASK : string := String "001" "".

(** [expand_brace_alternation]. *)
Definition expand_brace_alternation (pattern : string) : option (list string) :=
  match expand_loop [""] None (replace PLACEHOLDER MASK pattern) with
  | Some out => Some ((λ o, replace MASK PLACEHOLDER o) <$> out)
  | None => None
  end.

(** [split_url]. *)
Definition split_url (url : string) : option (string * string * string) :=
  match split_once "://" url with
  | None => None
  | Some (scheme, after) =>
      if is_empty scheme || negb (str_all scheme_char scheme) then None
      else let '(authority, rest) := break_at url_delim after in
           Some (scheme, authority, rest)
  end.

(** The loop of [split_port]: the last [:] at bracket depth 0. *)
Fixpoint split_port_from (depth : nat) (s : string) : option (string * string) :=
  match s with
  | EmptyString => None
  | String c s' =>
      let depth' :=
        if Ascii.eqb c "[" then S depth
        else if Ascii.eqb c "]" then Nat.pred depth else depth in
      match split_port_from depth' s' with
      | Some (a, b) => Some (String c a, b)
      | None => if Ascii.eqb c ":" && (depth =? 0) then Some ("", s') else None
      end
  end.

(** [split_port]. *)
Definition split_port (authority : string) : string * option string :=
  match split_port_from 0 authority with
  | Some (h, p) => (h, Some p)
  | None => (authority, None)
  end.

(** [strip_segments]. *)
Definition strip_segments (path : string) : string :=
  join "/" ((λ seg, match split_char ";" seg with h :: _ => h | [] => "" end)
              <$> split_char "/" path).

(** The position after [://] when there is one: [(base[..i+3], base[i+3..])]. *)
Definition split_authority (base : string) : option (string * string) :=
  match split_once "://" base with
  | Some (a, b) => Some (a +:+ "://", b)
  | None => None
  end.

(** [strip_path_params]. *)
Definition strip_path_params (base : string) : string :=
  match split_authority base with
  | None => strip_segments base
  | Some (head, rest) =>
      match break_at (Ascii.eqb "/") rest with
      | (_, EmptyString) => base
      | (auth, path) => head +:+ auth +:+ strip_segments path
      end
  end.

(** The loop of [fold_slashes] that merges runs of [/]; [last] says whether the
    output ends in [/]. *)
Fixpoint merge_slashes (last : bool) (s : string) : string :=
  match s with
  | EmptyString => ""
  | String c s' =>
      if Ascii.eqb c "/" && last then merge_slashes true s'
      else String c (merge_slashes (Ascii.eqb c "/") s')
  end.

(** Byte-wise lexicographic order of [(String, String)] pairs. *)
Definition pair_leb (a b : string * string) : bool :=
  match String.compare a.1 b.1 with
  | Lt => true
  | Gt => false
  | Eq => match String.compare a.2 b.2 with Gt => false | _ => true end
  end.

Definition pair_le (a b : string * string) : Prop := pair_leb a b = true.
#[export] Instance pair_le_dec : RelDecision pair_le.
Proof. intros a b. unfold pair_le. apply _. Defined.

(** The cut points of a query in [url_matches_for]: all of it, every [&] (last
    first), none of it. *)
Definition query_cuts (query : string) : list nat :=
  String.length query :: rev (match_indices "&" query 0)
  ++ (if is_empty query then [] else [0]).

(** The path spellings judged for one base in [url_matches_for]. *)
Definition base_spellings (b : string) : list string :=
  b :: (match strip_suffix "/" b with Some x => [x] | None => [] end)
  ++ [trim_end_matches "/" b].

Section with_crates.
Context {UC : UrlCrate} {GC : GlobCrate} {EC : UrlEncodingCrate}.

(** [one_pass]. *)
Definition one_pass (raw : string) : option string :=
  if is_relative raw then
    base ← url_parse DUMMY_BASE;
    u ← url_parse_with_base base raw;
    if negb (bool_decide (url_host_str u = Some "relative.invalid"))
       || bool_decide (is_Some (url_port u))
       || negb (is_empty (url_username u))
       || bool_decide (is_Some (url_password u))
    then None
    else
      let s := url_path u +:+ match url_query u with Some q => "?" +:+ q | None => "" end in
      Some (normalize_percent s)
  else
    u0 ← url_parse raw;
    if negb (is_empty (url_username u0)) || bool_decide (is_Some (url_password u0)) then None
    else
      let u := url_drop_fragment u0 in
      let trimmed :=
        match url_domain u with
        | Some h => if ends_with "." h then Some (trim_end_matches "." h) else None
        | None => None
        end in
      match trimmed with
      | Some h =>
          if is_empty h then None
          else u' ← url_set_host u h; Some (normalize_percent (url_as_str u'))
      | None => Some (normalize_percent (url_as_str u))
      end.

(** [canonical_url]. *)
Definition canonical_url (raw : string) : option string :=
  first ← one_pass raw;
  second ← one_pass first;
  if String.eqb first second then Some second
  else third ← one_pass second;
       if String.eqb third second then Some second else None.

(** [loose]: the rewrite of one default port, then the comparison form. *)
Definition loose_port (port t : string) : string :=
  let t1 := replace (port +:+ "?") "?" (replace (port +:+ "/") "/" t) in
  match strip_suffix port t1 with Some x => x | None => t1 end.

Definition loose (s : string) : string :=
  let t := to_ascii_lowercase (from_utf8_lossy (decode_binary s)) in
  trim_end_matches "/" (loose_port ":80" (loose_port ":443" t)).

(** [canonical_pattern_core]. *)
Definition canonical_pattern_core (pattern : string) : CanonPattern :=
  let keep text warnings := {| cp_text := text; cp_warnings := warnings |} in
  if contains STAR pattern then keep pattern [Unparseable] else
  let '(body, prefix_mode) :=
    match strip_suffix "*" pattern with Some b => (b, true) | None => (pattern, false) end in
  if is_empty body then keep pattern [] else
  if match strip_suffix "://" body with
     | Some scheme => str_all scheme_char scheme
     | None => false
     end
  then keep (to_ascii_lowercase pattern) [] else
  if negb (contains "://" body || is_relative body) then
    let scheme_prefix :=
      prefix_mode && (starts_with body "http://" || starts_with body "https://") in
    let head := match split_char "/" pattern with h :: _ => h | [] => "" end in
    if negb (String.eqb pattern "*") && negb scheme_prefix
       && contains_any (Ascii.eqb "*") head
    then keep pattern [StarInHost] else keep pattern []
  else
  let rest := match split_once "://" body with Some (_, r) => Some r | None => None end in
  if negb prefix_mode
     && match rest with
        | Some r => contains_any (Ascii.eqb "?") (break_at (Ascii.eqb "/") r).1
        | None => false
        end
  then keep pattern [Unparseable] else
  let src := if prefix_mode then body else replace "*" STAR body in
  match canonical_url src with
  | None => keep pattern [Unparseable]
  | Some canon0 =>
      let canon := if prefix_mode then canon0 else replace STAR "*" canon0 in
      let w1 := match host_part body with
                | Some h => if contains_any (Ascii.eqb "*") h then [StarInHost] else []
                | None => []
                end in
      let host_only :=
        prefix_mode
        && match rest with Some r => negb (contains_any url_delim r) | None => false end in
      let w2 := if host_only then [StarAfterHost] else [] in
      let w3 := if negb (String.eqb (loose body) (loose canon)) || star_cuts_an_escape pattern
                then [MeaningChanged] else [] in
      let text :=
        if host_only then trim_end_matches "/" canon +:+ "*"
        else if prefix_mode then canon +:+ "*" else canon in
      keep text (w1 ++ w2 ++ w3)
  end.

(** [canonical_pattern]. *)
Definition canonical_pattern (pattern : string) : CanonPattern :=
  let canon := canonical_pattern_core pattern in
  {| cp_text := cp_text canon;
     cp_warnings := cp_warnings canon
       ++ (if braces_are_literal pattern then [BracesAreLiteral] else [])
       ++ (if exact_url_misses_query pattern then [ExactUrlMissesQuery] else [])
       ++ (if contains_any (Ascii.eqb "?") pattern then [QueryInPattern] else []) |}.

(** [part_matches]. *)
Definition part_matches (pattern text : string) : bool :=
  match glob_new pattern with Some g => g text | None => false end.

(** [url_canon::glob_matches]. *)
Definition url_glob_matches (glob : string → bool) (url pattern : string) : bool :=
  match split_url url with
  | None => glob url
  | Some (scheme, authority, rest) =>
      let go p_scheme p_after :=
        let '(p_authority, p_rest) := break_at (Ascii.eqb "/") p_after in
        let '(p_host, p_port) := split_port p_authority in
        let '(host, port) := split_port authority in
        match p_scheme with None => true | Some s => part_matches s scheme end
        && part_matches p_host host
        && match p_port, port with
           | None, None => true
           | Some pp, Some p => part_matches pp p
           | _, _ => false
           end
        && part_matches p_rest rest in
      let schemeless := if starts_with "*" pattern then go None pattern else false in
      match split_once "://" pattern with
      | Some (s, a) =>
          if negb (contains_any (Ascii.eqb "/") s) then go (Some s) a else schemeless
      | None => schemeless
      end
  end.

(** [canonical_matches]. *)
Definition canonical_matches (url pattern : string) : bool :=
  match strip_suffix "*" pattern with
  | Some prefix =>
      match strip_prefix prefix url with
      | None => false
      | Some rest =>
          let host_only :=
            match split_once "://" prefix with
            | Some (_, r) => negb (is_empty r) && negb (contains_any (Ascii.eqb "/") r)
            | None => false
            end in
          if host_only
          then match rest with
               | EmptyString => true
               | String c _ => one_of ["/"; ":"; "?"]%char c
               end
          else true
      end
  | None =>
      match glob_new pattern with
      | Some glob => url_glob_matches glob url pattern
      | None => String.eqb url pattern
      end
  end.

(** [effective_url]; [query] lists the entries of the map. *)
Definition effective_url (url : string) (query : list (string * string)) : option string :=
  base ← canonical_url url;
  match query with
  | [] => Some base
  | _ =>
      let pairs := merge_sort pair_le query in
      let qs := join "&" ((λ kv, url_encode kv.1 +:+ "=" +:+ url_encode kv.2) <$> pairs) in
      let sep := if contains_any (Ascii.eqb "?") base then "&" else "?" in
      canonical_url (base +:+ sep +:+ qs)
  end.

(** [fold_slashes]. *)
Definition fold_slashes (base : string) : string :=
  let fold head path :=
    let decoded := replace "%2f" "/" (replace "%2F" "/" path) in
    let joined := head +:+ merge_slashes false decoded in
    match canonical_url joined with Some c => c | None => joined end in
  match split_authority base with
  | Some (head, rest) =>
      match break_at (Ascii.eqb "/") rest with
      | (_, EmptyString) => base
      | (auth, path) => fold (head +:+ auth) path
      end
  | None => fold "" base
  end.

(** The paths judged by the broadened reading. *)
Definition broadened_bases (base : string) : list string :=
  let no_params := strip_path_params base in
  [base; no_params; fold_slashes base; fold_slashes no_params] ≫= base_spellings.

(** [url_matches_for]. *)
Definition url_matches_for (raw_url raw_pattern : string) (broaden : bool) : bool :=
  match canonical_url raw_url with
  | None => false
  | Some u =>
      let p := cp_text (canonical_pattern raw_pattern) in
      if canonical_matches u p then true
      else if negb broaden then false
      else
        let '(base, query) := break_at (Ascii.eqb "?") u in
        existsb (λ b, existsb (λ at_, canonical_matches (b +:+ str_take at_ query) p)
                        (query_cuts query)) (broadened_bases base)
  end.

End with_crates.

(** ** Percent normalisation reaches a fixed point *)

Lemma hex_upper_digit d : d < 16 → to_digit16 (hex_upper d) = Some d.
Proof. intros H. do 16 (destruct d as [|d]; [done|]). lia. Qed.

Lemma to_digit16_lt c d : to_digit16 c = Some d → d < 16.
Proof.
  unfold to_digit16. split_ifs; bool_simpl; intros; simplify_eq;
    repeat match goal with H : _ ∧ _ |- _ => destruct H end;
    rewrite ?Nat.leb_le in *; lia.
Qed.

(** A string in which every [%] starts an upper-case escape of a reserved byte. *)
Inductive normal : string → Prop :=
| normal_nil : normal ""
| normal_char c s : c ≠ "%"%char → normal s → normal (String c s)
| normal_escape h l s :
    h < 16 → l < 16 → is_unreserved (ascii_of_nat (h * 16 + l)) = false → normal s →
    normal (String "%" (String (hex_upper h) (String (hex_upper l) s))).

#[local] Hint Constructors normal : vul.

Lemma normal_escape_25 s : normal s → normal ("%25" +:+ s).
Proof. intros H. by apply (normal_escape 2 5 s); [lia..| |]. Qed.

Lemma unreserved_not_percent c : is_unreserved c = true → c ≠ "%"%char.
Proof. by intros H ->. Qed.

Lemma normalize_escape_normal h l s :
  h < 16 → l < 16 → normal s → normal (normalize_escape h l +:+ s).
Proof.
  intros Hh Hl Hs. unfold normalize_escape.
  destruct (is_unreserved _) eqn:E; simpl; eauto using unreserved_not_percent with vul.
Qed.

#[local] Hint Resolve normal_escape_25 normalize_escape_normal to_digit16_lt : vul.

Lemma normalize_percent_normal s : normal (normalize_percent s).
Proof.
  induction s as [s IH] using (induction_ltof1 _ String.length). unfold ltof in IH.
  destruct s as [|c s1]; cbn [normalize_percent]; [constructor|].
  assert (IH1 : normal (normalize_percent s1)) by (apply IH; simpl; lia).
  destruct (Ascii.eqb_spec c "%") as [->|Hc]; [|by constructor].
  destruct s1 as [|h [|l s3]]; [by apply normal_escape_25..|].
  assert (IH3 : normal (normalize_percent s3)) by (apply IH; simpl; lia).
  destruct (to_digit16 h) eqn:?, (to_digit16 l) eqn:?; eauto with vul.
Qed.

Lemma normalize_percent_of_normal s : normal s → normalize_percent s = s.
Proof.
  induction 1 as [|c s Hc _ IH|h l s Hh Hl Hu _ IH]; [done| |].
  - simpl. rewrite (proj2 (Ascii.eqb_neq _ _) Hc). by rewrite IH.
  - cbn [normalize_percent]. rewrite !hex_upper_digit by done. simpl.
    unfold normalize_escape. by rewrite Hu, IH.
Qed.

(** Percent normalisation is idempotent. *)
Theorem normalize_percent_idempotent s :
  normalize_percent (normalize_percent s) = normalize_percent s.
Proof. apply normalize_percent_of_normal, normalize_percent_normal. Qed.

(** ** Canonical URLs *)

Section canonical_facts.
Context {UC : UrlCrate} {GC : GlobCrate} {EC : UrlEncodingCrate}.

Lemma canonical_url_fixed raw s : canonical_url raw = Some s → one_pass s = Some s.
Proof.
  unfold canonical_url. destruct (one_pass raw) as [a|]; simpl; [|done].
  destruct (one_pass a) as [b|] eqn:Eb; simpl; [|done].
  destruct (String.eqb_spec a b) as [->|Hne].
  - by intros [= <-].
  - destruct (one_pass b) as [c|] eqn:Ec; simpl; [|done].
    destruct (String.eqb_spec c b) as [->|]; [|done]. by intros [= <-].
Qed.

Lemma one_pass_normal raw s : one_pass raw = Some s → normalize_percent s = s.
Proof.
  assert (H : ∀ t, Some (normalize_percent t) = Some s → normalize_percent s = s).
  { intros t [= <-]. apply normalize_percent_idempotent. }
  unfold one_pass. destruct (is_relative raw).
  - destruct (url_parse _) as [b|]; simpl; [|done].
    destruct (url_parse_with_base b raw) as [u|]; simpl; [|done].
    destruct (_ || _ || _ || _); [done|]. apply H.
  - destruct (url_parse raw) as [u|]; simpl; [|done].
    destruct (_ || _); [done|].
    destruct (url_domain _) as [h|]; [|apply H].
    destruct (ends_with "." h); [|apply H].
    destruct (is_empty _); [done|].
    destruct (url_set_host _ _); simpl; [apply H|done].
Qed.

(** A canonical URL is its own canonical form, and its escapes are normalised:
    judging the URL that is sent gives the same text as judging the URL that was
    asked for. *)
Theorem canonical_url_idempotent raw s :
  canonical_url raw = Some s → canonical_url s = Some s ∧ normalize_percent s = s.
Proof.
  intros H. pose proof (canonical_url_fixed _ _ H) as Hf. split.
  - unfold canonical_url. rewrite Hf. simpl. rewrite Hf. simpl.
    by rewrite String.eqb_refl.
  - by apply one_pass_normal in Hf.
Qed.

(** ** Matching *)

(** A prefix pattern that stops in the host only matches URLs whose host part ends
    there: the prefix is followed by the end, a path, a port or a query. *)
Theorem host_prefix_stops_at_host_boundary url scheme host :
  is_empty host = false → contains_any (Ascii.eqb "/") host = false →
  split_once "://" (scheme +:+ "://" +:+ host) = Some (scheme, host) →
  canonical_matches url (scheme +:+ "://" +:+ host +:+ "*") = true ↔
  ∃ rest, url = scheme +:+ "://" +:+ host +:+ rest
    ∧ (rest = "" ∨ ∃ c r, rest = String c r ∧ c ∈ ["/"; ":"; "?"]%char).
Proof.
  intros He Hs Hsplit. unfold canonical_matches.
  replace (scheme +:+ "://" +:+ host +:+ "*")
    with ((scheme +:+ "://" +:+ host) +:+ "*") by (by rewrite !string_app_assoc).
  rewrite strip_suffix_app, Hsplit, He, Hs. cbn [negb andb].
  destruct (strip_prefix _ url) as [rest|] eqn:Ep.
  - apply strip_prefix_spec in Ep as ->. split.
    + intros Hr. exists rest. rewrite !string_app_assoc. split; [done|].
      destruct rest as [|c r]; [by left|right]. apply one_of_true in Hr. eauto.
    + intros (r & Heq & Hr). rewrite !string_app_assoc in Heq.
      repeat apply string_app_inj_l in Heq. subst r.
      destruct Hr as [->|(c & r & -> & Hc)]; [done|]. by apply one_of_true.
  - split; [done|]. intros (r & -> & _).
    replace (scheme +:+ "://" +:+ host +:+ r)
      with ((scheme +:+ "://" +:+ host) +:+ r) in Ep by (by rewrite !string_app_assoc).
    by rewrite strip_prefix_app in Ep.
Qed.

(** [kept] is what a cut of the query [kept +:+ tail] leaves: no query, all of it,
    or everything before one of its [&]. *)
Inductive query_cut : string → string → Prop :=
| cut_all q : query_cut q ""
| cut_none q : query_cut "" q
| cut_at a b : query_cut a (String "&" b).

Lemma match_indices_elem c a b i :
  i + String.length a ∈ match_indices c (a +:+ String c b) i.
Proof.
  revert i. induction a as [|x a IH]; intros i; simpl.
  - rewrite Ascii.eqb_refl, Nat.add_0_r. constructor.
  - replace (i + S (String.length a)) with (S i + String.length a) by lia.
    destruct (Ascii.eqb x c); [constructor|]; apply IH.
Qed.

Lemma str_take_app (a b : string) : str_take (String.length a) (a +:+ b) = a.
Proof. induction a as [|c a IH]; simpl; [by destruct b|by rewrite IH]. Qed.

Lemma query_cut_found kept tail :
  query_cut kept tail → ∃ n, n ∈ query_cuts (kept +:+ tail) ∧ str_take n (kept +:+ tail) = kept.
Proof.
  intros Hc. exists (String.length kept). split; [|apply str_take_app].
  unfold query_cuts. destruct Hc as [q|q|a b].
  - rewrite string_app_nil_r. constructor.
  - simpl. destruct q; simpl; [constructor|]. apply elem_of_cons. right.
    apply elem_of_app. right. by constructor.
  - apply elem_of_cons. right. apply elem_of_app. left.
    rewrite list_elem_of_In, <- in_rev, <- list_elem_of_In. apply (match_indices_elem "&" a b 0).
Qed.

(** The broadened reading of a pattern (deny and prompt rules) cannot be slipped
    past by adding to a URL it matches: if the pattern matches the path, or the
    path without trailing slashes, with some leading part of the query, then the
    broadened pattern matches the whole URL. *)
Theorem broadened_match_survives_suffix raw pattern base base' kept tail :
  canonical_url raw = Some (base +:+ kept +:+ tail) →
  contains_any (Ascii.eqb "?") base = false →
  (kept +:+ tail = "" ∨ ∃ q, kept +:+ tail = String "?" q) →
  query_cut kept tail →
  base' ∈ base_spellings base →
  canonical_matches (base' +:+ kept) (cp_text (canonical_pattern pattern)) = true →
  url_matches_for raw pattern true = true.
Proof.
  intros Hc Hb Hq Hcut Hsp Hm. unfold url_matches_for. rewrite Hc.
  destruct (canonical_matches (base +:+ kept +:+ tail) _); [done|]. cbn [negb].
  assert (Hbr : break_at (Ascii.eqb "?") (base +:+ kept +:+ tail) = (base, kept +:+ tail)).
  { destruct Hq as [->|[q ->]]; [|by apply break_at_found].
    rewrite string_app_nil_r. by apply break_at_none. }
  rewrite Hbr. apply existsb_elem_of. exists base'. split.
  - unfold broadened_bases. apply list_elem_of_bind. exists base. split; [done|constructor].
  - apply existsb_elem_of. destruct (query_cut_found _ _ Hcut) as (n & Hn & Ht).
    exists n. by rewrite Ht.
Qed.

(** The broadened reading matches whatever the exact reading matches. *)
Lemma url_matches_broaden raw pattern :
  url_matches_for raw pattern false = true → url_matches_for raw pattern true = true.
Proof.
  unfold url_matches_for. destruct (canonical_url raw); [|done].
  by destruct (canonical_matches _ _).
Qed.

Lemma url_matches_uncanonical raw pattern broaden :
  canonical_url raw = None → url_matches_for raw pattern broaden = false.
Proof. unfold url_matches_for. by intros ->. Qed.

End canonical_facts.

#[export] Hint Resolve url_matches_broaden : vul.
