(* ===== verification/RateLimit.v ===== *)
(** * Rate limits

    Models the rate limiter of [src/src/policy/mod.rs]: the fixed-window
    transition, the composite counter key, [check_rate_limit] (one counter) and
    [charge_rate_limits] (the conjunctive charge of a guard set).

    Time.  [Instant::now()] and [Local::now()] are read through a [Clock]: the
    [n]-th read returns the [n]-th value.  The counter of reads is part of the
    state, so successive reads in one evaluation may differ.  An [Instant] is a
    number of nanoseconds. *)

From stdpp Require Import base gmap strings list pretty sorting.
From Stdlib Require Import Ascii ZArith Lia.
From S2P Require Import Prelude RustStr PolicyTypes.

Local Open Scope Z_scope.

(** ** Data *)

Record Clock := { instant : nat → Z; local_time : nat → NaiveTime }.

(** [RateLimitState]. *)
Record RateLimitState := { rl_count : Z; rl_window_start : Z }.

(** The mutable part of [PolicyEngine] an evaluation touches: the counters, and
    how often the clock was read. *)
Record EngineState := { rate_limits : gmap string RateLimitState; reads : nat }.

(** [FixedWindowTransition]. *)
Record FixedWindowTransition := {
  fw_allowed : bool;
  fw_next_count : Z;
  fw_reset_window : bool;
}.

(** [Principal]. *)
Record Principal := {
  principal_id : string;
  agent_label : option string;
  owner : option string;
  workload_id : option string;
}.

(** ** Operations *)

(** [fixed_window_transition]. *)
Definition fixed_window_transition (count : Z) (window_elapsed : bool) (max : Z)
  : FixedWindowTransition :=
  if max =? 0 then
    {| fw_allowed := false; fw_next_count := count; fw_reset_window := false |}
  else if window_elapsed then
    {| fw_allowed := true; fw_next_count := 1; fw_reset_window := true |}
  else if count <? max then
    {| fw_allowed := true; fw_next_count := count + 1; fw_reset_window := false |}
  else
    {| fw_allowed := false; fw_next_count := count; fw_reset_window := false |}.

(** [rate_limit_principal]. *)
Definition rate_limit_principal (p : Principal) : string :=
  match agent_label p with
  | Some label => if negb (is_blank label) then label else principal_id p
  | None => principal_id p
  end.

(** The unit separator [\x1f]. *)
Definition unit_separator : ascii := "031".

(** [rate_limit_key]. *)
Definition rate_limit_key (credential_alias : string) (pid : option string)
    (max window_secs : Z) : string :=
  credential_alias +:+ String unit_separator
    (default "" pid +:+ String unit_separator
       (pretty max +:+ String unit_separator (pretty window_secs))).

(** [now.duration_since(start) >= Duration::from_secs(window_secs)];
    [duration_since] is zero when [start] is later. *)
Definition window_elapsed (now start window_secs : Z) : bool :=
  window_secs * nanos_per_sec <=? Z.max 0 (now - start).

Section with_clock.
Context (clk : Clock).

(** [Instant::now()]. *)
Definition instant_now : st EngineState Z :=
  λ s, (instant clk (reads s), {| rate_limits := rate_limits s; reads := S (reads s) |}).

(** [chrono::Local::now().time()]. *)
Definition local_now : st EngineState NaiveTime :=
  λ s, (local_time clk (reads s), {| rate_limits := rate_limits s; reads := S (reads s) |}).

(** The state [entry(key).or_insert_with(..)] sees. *)
Definition entry_or_new (m : gmap string RateLimitState) (key : string) (now : Z)
  : RateLimitState :=
  default {| rl_count := 0; rl_window_start := now |} (m !! key).

(** One transition of an addressed counter: the body shared by
    [check_rate_limit] and the second loop of [charge_rate_limits]. *)
Definition counter_step (max window_secs now : Z) (c : RateLimitState)
  : bool * RateLimitState :=
  let t := fixed_window_transition (rl_count c)
             (window_elapsed now (rl_window_start c) window_secs) max in
  (fw_allowed t,
   {| rl_count := fw_next_count t;
      rl_window_start := if fw_reset_window t then now else rl_window_start c |}).

(** [PolicyEngine::check_rate_limit]. *)
Definition check_rate_limit (credential_alias : string) (pid : option string)
    (max window_secs : Z) : st EngineState bool :=
  if (max =? 0) || (window_secs =? 0) then st_ret false
  else
    let! now := instant_now in
    λ s,
      let key := rate_limit_key credential_alias pid max window_secs in
      let '(allowed, c) :=
        counter_step max window_secs now (entry_or_new (rate_limits s) key now) in
      (allowed, {| rate_limits := <[key := c]> (rate_limits s); reads := reads s |}).

(** The check loop of [charge_rate_limits]. *)
Definition guard_has_room (m : gmap string RateLimitState) (credential_alias : string)
    (pid : option string) (now : Z) (g : Z * Z) : bool :=
  let key := rate_limit_key credential_alias pid g.1 g.2 in
  let '(count, elapsed) :=
    match m !! key with
    | Some s => (rl_count s, window_elapsed now (rl_window_start s) g.2)
    | None => (0, false)
    end in
  fw_allowed (fixed_window_transition count elapsed g.1).

(** One iteration of the charge loop of [charge_rate_limits]. *)
Definition charge_guard (credential_alias : string) (pid : option string) (now : Z)
    (m : gmap string RateLimitState) (g : Z * Z) : gmap string RateLimitState :=
  let key := rate_limit_key credential_alias pid g.1 g.2 in
  <[key := (counter_step g.1 g.2 now (entry_or_new m key now)).2]> m.

(** [PolicyEngine::charge_rate_limits]. *)
Definition charge_rate_limits (credential_alias : string) (pid : option string)
    (guards : list (Z * Z)) : st EngineState bool :=
  if existsb (λ g : Z * Z, (g.1 =? 0) || (g.2 =? 0)) guards then st_ret false
  else
    let! now := instant_now in
    λ s,
      if forallb (guard_has_room (rate_limits s) credential_alias pid now) guards
      then (true, {| rate_limits :=
                       foldl (charge_guard credential_alias pid now) (rate_limits s) guards;
                     reads := reads s |})
      else (false, s).

End with_clock.

(** ** One counter over time *)

(** The requests at [times] against one counter, oldest first, starting from the
    counter [c] ([None]: it does not exist yet); the times that were admitted. *)
Fixpoint admitted_times (max window_secs : Z) (c : option RateLimitState)
    (times : list Z) : list Z :=
  match times with
  | [] => []
  | now :: rest =>
      let c0 := default {| rl_count := 0; rl_window_start := now |} c in
      (if (counter_step max window_secs now c0).1 then [now] else [])
      ++ admitted_times max window_secs (Some (counter_step max window_secs now c0).2) rest
  end.

(** How many of [l] fall in [[lo, hi)]. *)
Definition count_in (lo hi : Z) (l : list Z) : Z :=
  Z.of_nat (length (List.filter (λ x, (lo <=? x) && (x <? hi)) l)).

Lemma count_in_app lo hi l1 l2 : count_in lo hi (l1 ++ l2) = count_in lo hi l1 + count_in lo hi l2.
Proof. unfold count_in. rewrite List.filter_app, length_app. lia. Qed.

Lemma count_in_single lo hi x :
  count_in lo hi [x] = if (lo <=? x) && (x <? hi) then 1 else 0.
Proof. unfold count_in. simpl. by destruct (_ && _). Qed.

Lemma admitted_times_subset max w c times x :
  x ∈ admitted_times max w c times → x ∈ times.
Proof.
  revert c. induction times as [|now rest IH]; intros c; cbn [admitted_times]; [done|].
  destruct (counter_step _ _ _ _) as [b c']. simpl.
  rewrite elem_of_app, elem_of_cons. intros [H|H%IH]; [|by right].
  destruct b; set_solver.
Qed.

Lemma count_in_none lo hi l : (∀ x, x ∈ l → hi <= x) → count_in lo hi l = 0.
Proof.
  intros H. unfold count_in. induction l as [|x l IH]; simpl; [done|].
  rewrite (proj2 (Z.ltb_ge x hi)) by (apply H; constructor).
  rewrite andb_false_r. apply IH. intros y Hy. apply H. by constructor.
Qed.

Section one_counter.
Context (max w : Z).
Hypothesis Hmax : 0 < max.
Hypothesis Hw : 0 < w.

Lemma window_elapsed_spec now start :
  window_elapsed now start w = true ↔ start + w * nanos_per_sec <= now.
Proof. unfold window_elapsed, nanos_per_sec. rewrite Z.leb_le. lia. Qed.

(** The three cases of a step. *)
Lemma counter_step_cases now c :
  0 <= rl_count c <= max →
  (counter_step max w now c = (true, {| rl_count := 1; rl_window_start := now |})
     ∧ rl_window_start c + w * nanos_per_sec <= now)
  ∨ (counter_step max w now c
       = (true, {| rl_count := rl_count c + 1; rl_window_start := rl_window_start c |})
     ∧ rl_count c < max ∧ now < rl_window_start c + w * nanos_per_sec)
  ∨ (counter_step max w now c = (false, c)
     ∧ rl_count c = max ∧ now < rl_window_start c + w * nanos_per_sec).
Proof.
  intros Hc. unfold counter_step, fixed_window_transition.
  rewrite (proj2 (Z.eqb_neq max 0)) by lia.
  pose proof (window_elapsed_spec now (rl_window_start c)) as He.
  destruct (window_elapsed _ _ _); simpl.
  - left. split; [done|]. by apply He.
  - right. assert (now < rl_window_start c + w * nanos_per_sec).
    { destruct (Z.lt_ge_cases now (rl_window_start c + w * nanos_per_sec)); [done|].
      apply He in H. done. }
    destruct (Z.ltb_spec (rl_count c) max); simpl; [left; done|right].
    split; [by destruct c|]. split; [lia|done].
Qed.

(** No reset happens before [start + w]: the rest of the current window admits at
    most what is left of it. *)
Lemma admitted_before_reset c times lo hi :
  0 <= rl_count c <= max → hi <= rl_window_start c + w * nanos_per_sec →
  Sorted Z.le times →
  count_in lo hi (admitted_times max w (Some c) times) <= max - rl_count c.
Proof.
  revert c. induction times as [|now rest IH]; intros c Hc Hhi Hs; cbn [admitted_times].
  { unfold count_in. simpl. lia. }
  apply Sorted_StronglySorted in Hs as Hss; [|intros ???; lia].
  apply StronglySorted_inv in Hss as [Hs' Hle]. apply StronglySorted_Sorted in Hs'.
  destruct (counter_step_cases now c Hc) as [[Hc' H1]|[(Hc' & H1 & H2)|(Hc' & H1 & H2)]];
    cbn [from_option id]; rewrite Hc'; cbn [fst snd].
  - rewrite count_in_none; [lia|]. intros x. rewrite elem_of_app, list_elem_of_singleton.
    rewrite Forall_forall in Hle. intros [->|Hx%admitted_times_subset]; [lia|].
    apply Hle in Hx. lia.
  - rewrite count_in_app, count_in_single.
    pose proof (IH {| rl_count := rl_count c + 1; rl_window_start := rl_window_start c |}) as IH'.
    simpl in IH'. destruct (_ && _); lia || (specialize (IH' ltac:(lia) Hhi Hs'); lia).
  - simpl. by apply IH.
Qed.

(** From any time [lo] on, at most the rest of the current window and one full
    window are admitted before [lo + w]. *)
Lemma admitted_from c times lo :
  0 <= rl_count c <= max → Sorted Z.le times → (∀ x, x ∈ times → lo <= x) →
  count_in lo (lo + w * nanos_per_sec) (admitted_times max w (Some c) times)
  <= (max - rl_count c) + max.
Proof.
  revert c. induction times as [|now rest IH]; intros c Hc Hs Hlo; cbn [admitted_times].
  { unfold count_in. simpl. lia. }
  assert (Hs' : Sorted Z.le rest) by (by inversion Hs).
  assert (lo <= now) by (apply Hlo; constructor).
  destruct (counter_step_cases now c Hc) as [[Hc' H1]|[(Hc' & H1 & H2)|(Hc' & H1 & H2)]];
    cbn [from_option id]; rewrite Hc'; cbn [fst snd].
  - rewrite count_in_app, count_in_single.
    pose proof (admitted_before_reset {| rl_count := 1; rl_window_start := now |} rest lo
      (lo + w * nanos_per_sec)) as Hr. simpl in Hr.
    specialize (Hr ltac:(lia) ltac:(lia) Hs').
    destruct (_ && _); lia.
  - rewrite count_in_app, count_in_single.
    pose proof (IH {| rl_count := rl_count c + 1; rl_window_start := rl_window_start c |}) as Hr.
    simpl in Hr. assert (count_in lo (lo + w * nanos_per_sec) (admitted_times max w
      (Some {| rl_count := rl_count c + 1; rl_window_start := rl_window_start c |}) rest)
      <= max - (rl_count c + 1) + max).
    { apply Hr; [lia|done|]. intros x Hx. apply Hlo. by constructor. }
    destruct (_ && _); lia.
  - simpl. apply IH; [done..|]. intros x Hx. apply Hlo. by constructor.
Qed.

Lemma admitted_any_window c times lo :
  0 <= rl_count c <= max → Sorted Z.le times →
  count_in lo (lo + w * nanos_per_sec) (admitted_times max w (Some c) times) <= 2 * max.
Proof.
  revert c. induction times as [|now rest IH]; intros c Hc Hs.
  { unfold count_in. simpl. lia. }
  destruct (Z.lt_ge_cases now lo) as [Hlt|Hge].
  - assert (Hs' : Sorted Z.le rest) by (by inversion Hs). cbn [admitted_times].
    assert (Hz : count_in lo (lo + w * nanos_per_sec) [now] = 0).
    { rewrite count_in_single. by rewrite (proj2 (Z.leb_gt lo now)) by lia. }
    destruct (counter_step_cases now c Hc) as [[Hc' H1]|[(Hc' & H1 & H2)|(Hc' & H1 & H2)]];
      cbn [from_option id]; rewrite Hc'; cbn [fst snd]; rewrite ?count_in_app, ?Hz, ?Z.add_0_l;
      apply IH; simpl; done || lia.
  - pose proof (admitted_from c (now :: rest) lo Hc Hs) as H.
    assert (Hall : ∀ x, x ∈ now :: rest → lo <= x).
    { apply Sorted_StronglySorted in Hs; [|intros ???; lia].
      apply StronglySorted_inv in Hs as [_ Hle]. rewrite Forall_forall in Hle.
      intros x [->|Hx%Hle]%elem_of_cons; lia. }
    specialize (H Hall). lia.
Qed.
End one_counter.

(** The limiter bounds traffic: over any request times in order, no interval of one
    window length admits more than twice [max] requests (the fixed-window bound).
    Started fresh, in the window opened by the first request at most [max] are
    admitted. *)
Theorem fixed_window_bounds_traffic max w times lo :
  0 < max → 0 < w → Sorted Z.le times →
  count_in lo (lo + w * nanos_per_sec) (admitted_times max w None times) <= 2 * max
  ∧ (∀ first rest, times = first :: rest →
       count_in first (first + w * nanos_per_sec) (admitted_times max w None times) <= max).
Proof.
  intros Hm Hw Hs. split.
  - destruct times as [|now rest]; [unfold count_in; simpl; lia|].
    change (admitted_times max w None (now :: rest)) with
      (admitted_times max w (Some {| rl_count := 0; rl_window_start := now |}) (now :: rest)).
    apply admitted_any_window; simpl; done || lia.
  - intros first rest ->.
    change (admitted_times max w None (first :: rest)) with
      (admitted_times max w (Some {| rl_count := 0; rl_window_start := first |}) (first :: rest)).
    pose proof (admitted_before_reset max w Hm Hw
      {| rl_count := 0; rl_window_start := first |} (first :: rest) first
      (first + w * nanos_per_sec)) as H. simpl rl_count in H. simpl rl_window_start in H.
    rewrite Z.sub_0_r in H. apply H; done || lia.
Qed.

(** ** Counter keys *)

Definition no_sep (s : string) : Prop := contains_any (Ascii.eqb unit_separator) s = false.

Lemma pretty_Z_no_sep (z : Z) : no_sep (pretty z).
Proof.
  assert (H : ∀ n : N, no_sep (pretty n)) by (intros n; apply pretty_N_free; intros d; unfold pretty_N_char; by repeat case_match).
  destruct z as [|p|p]; [done|apply (H (Npos p))|].
  unfold no_sep, pretty, pretty_Z. cbn [contains_any String.append]. apply (H (Npos p)).
Qed.

(** For one credential and principal, distinct caps have distinct counters. *)
Lemma rate_limit_key_inj_caps alias pid m w m' w' :
  rate_limit_key alias pid m w = rate_limit_key alias pid m' w' → m = m' ∧ w = w'.
Proof.
  unfold rate_limit_key. intros H. apply string_app_inj_l in H. injection H as H.
  apply string_app_inj_l in H. injection H as H.
  apply split_at_char_inj in H as [Hm Hw]; [|apply pretty_Z_no_sep..].
  by apply pretty_Z_inj in Hm, Hw.
Qed.

(** Distinct (credential, principal, cap) triples never share a counter, as long as
    aliases and principal ids hold no unit separator.  A missing principal and an
    empty one do share. *)
Theorem rate_limit_key_injective alias pid m w alias' pid' m' w' :
  no_sep alias → no_sep alias' → no_sep (default "" pid) → no_sep (default "" pid') →
  rate_limit_key alias pid m w = rate_limit_key alias' pid' m' w' →
  alias = alias' ∧ default "" pid = default "" pid' ∧ m = m' ∧ w = w'.
Proof.
  unfold rate_limit_key. intros ???? H.
  apply split_at_char_inj in H as [-> H]; [|done..].
  apply split_at_char_inj in H as [-> H]; [|done..].
  apply split_at_char_inj in H as [Hm Hw]; [|apply pretty_Z_no_sep..].
  by apply pretty_Z_inj in Hm, Hw.
Qed.

(** ** Charging a guard set *)

Section charging.
Context (clk : Clock) (alias : string) (pid : option string).

Definition guard_key (g : Z * Z) : string := rate_limit_key alias pid g.1 g.2.

Lemma guard_key_ne g g' : g ≠ g' → guard_key g ≠ guard_key g'.
Proof.
  intros Hne H. apply rate_limit_key_inj_caps in H as [H1 H2].
  destruct g, g'; simpl in *; congruence.
Qed.

Lemma charge_guard_other now m g k :
  guard_key g ≠ k → charge_guard alias pid now m g !! k = m !! k.
Proof. intros H. unfold charge_guard. by rewrite lookup_insert_ne. Qed.

Lemma charge_guards_other now gs m k :
  (∀ g, g ∈ gs → guard_key g ≠ k) → foldl (charge_guard alias pid now) m gs !! k = m !! k.
Proof.
  revert m. induction gs as [|g gs IH]; intros m H; simpl; [done|].
  rewrite IH; [apply charge_guard_other, H; constructor|].
  intros g' Hg. apply H. by constructor.
Qed.

(** Each guard of a duplicate-free set is stepped exactly once. *)
Lemma charge_guards_lookup now gs m g :
  NoDup gs → g ∈ gs →
  foldl (charge_guard alias pid now) m gs !! guard_key g
  = Some (counter_step g.1 g.2 now (entry_or_new m (guard_key g) now)).2.
Proof.
  revert m. induction gs as [|g' gs IH]; intros m Hnd Hin; [by apply elem_of_nil in Hin|].
  apply NoDup_cons in Hnd as [Hni Hnd]. simpl. apply elem_of_cons in Hin as [->|Hin].
  - rewrite charge_guards_other.
    + unfold charge_guard. by rewrite lookup_insert_eq.
    + intros g'' Hg''. apply guard_key_ne. by intros ->.
  - rewrite IH by done. unfold entry_or_new. rewrite charge_guard_other; [done|].
    apply guard_key_ne. by intros ->.
Qed.

(** [guard_has_room] says whether the guard's step would be allowed. *)
Lemma guard_has_room_step m now g :
  0 < g.1 → 0 < g.2 →
  guard_has_room m alias pid now g
  = (counter_step g.1 g.2 now (entry_or_new m (guard_key g) now)).1.
Proof.
  intros H1 H2. unfold guard_has_room, counter_step, entry_or_new, guard_key.
  destruct (m !! _); simpl; [done|]. unfold fixed_window_transition.
  replace (window_elapsed now now g.2) with false; [done|].
  symmetry. unfold window_elapsed, nanos_per_sec. apply Z.leb_gt. lia.
Qed.

(** The conjunctive charge, lemma form. *)
Lemma charge_all_or_nothing guards s :
  NoDup guards → (∀ g, g ∈ guards → 0 <= g.1 ∧ 0 <= g.2) →
  let '(admitted, s') := charge_rate_limits clk alias pid guards s in
  let now := instant clk (reads s) in
  let step g := counter_step g.1 g.2 now (entry_or_new (rate_limits s) (guard_key g) now) in
  if admitted then
    (∀ g, g ∈ guards → 0 < g.1 ∧ 0 < g.2 ∧ (step g).1 = true
       ∧ rate_limits s' !! guard_key g = Some (step g).2)
    ∧ (∀ k, (∀ g, g ∈ guards → guard_key g ≠ k) → rate_limits s' !! k = rate_limits s !! k)
  else
    rate_limits s' = rate_limits s
    ∧ ∃ g, g ∈ guards ∧ (g.1 = 0 ∨ g.2 = 0 ∨ (step g).1 = false).
Proof.
  intros Hnd Hnn. unfold charge_rate_limits.
  destruct (existsb _ guards) eqn:Ez; simpl.
  { split; [done|]. apply existsb_elem_of in Ez as (g & Hg & Hz). exists g.
    rewrite orb_true_iff, !Z.eqb_eq in Hz. naive_solver. }
  rewrite existsb_false_elem_of in Ez.
  assert (Hpos : ∀ g, g ∈ guards → 0 < g.1 ∧ 0 < g.2).
  { intros g Hg. specialize (Ez g Hg). specialize (Hnn g Hg).
    rewrite orb_false_iff, !Z.eqb_neq in Ez. lia. }
  destruct (forallb _ guards) eqn:Ef; simpl.
  - rewrite forallb_elem_of in Ef. split.
    + intros g Hg. specialize (Hpos g Hg) as [H1 H2]. split_and!; [done..| |].
      * symmetry. rewrite <- (Ef g Hg). by apply guard_has_room_step.
      * by apply charge_guards_lookup.
    + intros k Hk. by apply charge_guards_other.
  - split; [done|]. rewrite <- not_true_iff_false, forallb_elem_of in Ef.
    assert (∃ g, g ∈ guards ∧ guard_has_room (rate_limits s) alias pid
      (instant clk (reads s)) g = false) as (g & Hg & Hr).
    { destruct (existsb (λ g, negb (guard_has_room (rate_limits s) alias pid
        (instant clk (reads s)) g)) guards) eqn:E.
      - apply existsb_elem_of in E as (g & ? & ?%negb_true_iff). eauto.
      - rewrite existsb_false_elem_of in E. exfalso. apply Ef.
        intros g Hg. by apply negb_false_iff, E. }
    exists g. split; [done|]. right; right. specialize (Hpos g Hg) as [H1 H2].
    rewrite <- Hr. symmetry. by apply guard_has_room_step.
Qed.

(** The conjunctive charge is all or nothing.  Refused: no counter changes.
    Admitted: every guard had room and each guard's counter makes exactly its one
    step; every other counter is untouched. *)
Theorem charge_rate_limits_all_or_nothing guards s :
  NoDup guards → (∀ g, g ∈ guards → 0 <= g.1 ∧ 0 <= g.2) →
  let '(admitted, s') := charge_rate_limits clk alias pid guards s in
  let now := instant clk (reads s) in
  let step g := counter_step g.1 g.2 now (entry_or_new (rate_limits s) (guard_key g) now) in
  if admitted then
    (∀ g, g ∈ guards → 0 < g.1 ∧ 0 < g.2 ∧ (step g).1 = true
       ∧ rate_limits s' !! guard_key g = Some (step g).2)
    ∧ (∀ k, (∀ g, g ∈ guards → guard_key g ≠ k) → rate_limits s' !! k = rate_limits s !! k)
  else
    rate_limits s' = rate_limits s
    ∧ ∃ g, g ∈ guards ∧ (g.1 = 0 ∨ g.2 = 0 ∨ (step g).1 = false).
Proof. apply charge_all_or_nothing. Qed.

(** The order of the guards, and so the storage order of the policies they come
    from, does not matter. *)
Theorem charge_rate_limits_order_independent guards guards' s :
  NoDup guards → guards ≡ₚ guards' →
  charge_rate_limits clk alias pid guards s = charge_rate_limits clk alias pid guards' s.
Proof.
  intros Hnd HP. unfold charge_rate_limits.
  rewrite (existsb_Permutation _ _ _ HP). destruct (existsb _ guards'); [done|].
  unfold st_bind. simpl. rewrite (forallb_Permutation _ _ _ HP).
  destruct (forallb _ guards'); [|done]. f_equal. f_equal.
  apply map_eq. intros k.
  destruct (existsb (λ g, bool_decide (guard_key g = k)) guards) eqn:E.
  - apply existsb_elem_of in E as (g & Hg & <-%bool_decide_eq_true).
    rewrite !charge_guards_lookup; [done|by rewrite <- HP..|done|done].
  - rewrite existsb_false_elem_of in E.
    assert (Hk : ∀ g, g ∈ guards → guard_key g ≠ k).
    { intros g Hg. eapply bool_decide_eq_false_1, E, Hg. }
    rewrite !charge_guards_other; [done| |done]. intros g Hg. apply Hk. by rewrite HP.
Qed.
End charging.

(** ** The single-counter path *)

(** [check_rate_limit] steps exactly the addressed counter. *)
Lemma check_rate_limit_spec clk alias pid max w s :
  max ≠ 0 → w ≠ 0 →
  check_rate_limit clk alias pid max w s =
  (let now := instant clk (reads s) in
   let key := rate_limit_key alias pid max w in
   let r := counter_step max w now (entry_or_new (rate_limits s) key now) in
   (r.1, {| rate_limits := <[key := r.2]> (rate_limits s); reads := S (reads s) |})).
Proof.
  intros H1 H2. unfold check_rate_limit.
  by rewrite (proj2 (Z.eqb_neq _ _) H1), (proj2 (Z.eqb_neq _ _) H2).
Qed.

(** The invariant of the counter table: every counter fits a [u32]. *)
Definition counters_ok (s : EngineState) : Prop :=
  ∀ k c, rate_limits s !! k = Some c → in_u32 (rl_count c).

Lemma counter_step_in_u32 max w now c :
  in_u32 max → in_u32 (rl_count c) → in_u32 (rl_count (counter_step max w now c).2).
Proof.
  unfold in_u32, counter_step, fixed_window_transition, u32_max. intros.
  destruct (Z.eqb_spec max 0); simpl; [lia|].
  destruct (window_elapsed _ _ _); simpl; [lia|].
  destruct (Z.ltb_spec (rl_count c) max); simpl; lia.
Qed.

Lemma entry_or_new_ok m key now :
  (∀ k c, m !! k = Some c → in_u32 (rl_count c)) →
  in_u32 (rl_count (entry_or_new m key now)).
Proof.
  intros H. unfold entry_or_new. destruct (m !! key) eqn:E; simpl; [eauto|].
  unfold in_u32, u32_max. lia.
Qed.

(** The increment of the fixed window never overflows its [u32]: both limiter
    operations keep every counter in range. *)
Lemma check_rate_limit_ok clk alias pid max w s :
  in_u32 max → counters_ok s → counters_ok (check_rate_limit clk alias pid max w s).2.
Proof.
  intros Hm Hs. unfold check_rate_limit. destruct (_ || _); [done|].
  intros k c. simpl. rewrite lookup_insert. case_decide; [|apply Hs].
  intros [= <-]. by apply counter_step_in_u32, entry_or_new_ok.
Qed.

Lemma charge_rate_limits_ok clk alias pid guards s :
  (∀ g, g ∈ guards → in_u32 g.1) → counters_ok s →
  counters_ok (charge_rate_limits clk alias pid guards s).2.
Proof.
  intros Hg Hs. unfold charge_rate_limits. destruct (existsb _ _); [done|].
  unfold st_bind. simpl. destruct (forallb _ _); [|done].
  unfold counters_ok. simpl. unfold counters_ok in Hs. generalize dependent (rate_limits s).
  induction guards as [|g gs IH]; intros m Hm; [done|]. simpl. apply IH.
  - intros g' Hg'. apply Hg. by constructor.
  - intros k c. unfold charge_guard. rewrite lookup_insert. case_decide; [|apply Hm].
    intros [= <-]. apply counter_step_in_u32; [apply Hg; constructor|].
    by apply entry_or_new_ok.
Qed.
