(* ===== verification/BTree.v ===== *)
(** * Ordered maps

    [std::collections::BTreeMap] as the code uses it: an association list kept
    strictly sorted by key, so that iteration order is part of the value.  Keys come
    with a comparison ([OrdKey]); the instances are the strings (byte-wise order) and
    the integers. *)

From stdpp Require Import base strings list sorting.
From Stdlib Require Import Ascii ZArith Lia.
From S2P Require Import Prelude.

(** A key type with a decidable strict total order. *)
Class OrdKey (K : Type) := {
  kcmp : K → K → comparison;
  kcmp_eq a b : kcmp a b = Eq ↔ a = b;
  kcmp_antisym a b : kcmp b a = CompOpp (kcmp a b);
  kcmp_trans a b c : kcmp a b = Lt → kcmp b c = Lt → kcmp a c = Lt;
}.

#[export] Program Instance Z_OrdKey : OrdKey Z := {| kcmp := Z.compare |}.
Next Obligation. apply Z.compare_eq_iff. Qed.
Next Obligation. intros a b. apply Z.compare_antisym. Qed.
Next Obligation. intros a b c. rewrite !Z.compare_lt_iff. lia. Qed.

Lemma string_compare_trans a b c :
  String.compare a b = Lt → String.compare b c = Lt → String.compare a c = Lt.
Proof.
  intros Hab Hbc.
  assert (Hac : String.le a c).
  { transitivity b; unfold String.le, String.leb; by rewrite ?Hab, ?Hbc. }
  unfold String.le, String.leb in Hac.
  destruct (String.compare a c) eqn:E; try done.
  apply String.compare_eq_iff in E. subst c.
  by rewrite String.compare_antisym, Hab in Hbc.
Qed.

#[export] Program Instance string_OrdKey : OrdKey string := {| kcmp := String.compare |}.
Next Obligation.
  intros a b. split; [apply String.compare_eq_iff|intros ->].
  assert (H := String.compare_antisym b b). by destruct (String.compare b b).
Qed.
Next Obligation. intros a b. apply String.compare_antisym. Qed.
Next Obligation. apply string_compare_trans. Qed.

Section btree.
Context {K V : Type} {OK : OrdKey K}.

Definition BTreeMap := list (K * V).

(** [BTreeMap::get]. *)
Fixpoint bt_get (m : BTreeMap) (k : K) : option V :=
  match m with
  | [] => None
  | (k', v) :: m' => match kcmp k k' with Eq => Some v | _ => bt_get m' k end
  end.

(** [BTreeMap::insert]. *)
Fixpoint bt_insert (k : K) (v : V) (m : BTreeMap) : BTreeMap :=
  match m with
  | [] => [(k, v)]
  | (k', v') :: m' =>
      match kcmp k k' with
      | Lt => (k, v) :: m
      | Eq => (k, v) :: m'
      | Gt => (k', v') :: bt_insert k v m'
      end
  end.

(** [BTreeMap::remove]. *)
Definition bt_remove (k : K) (m : BTreeMap) : BTreeMap :=
  List.filter (λ e, match kcmp k e.1 with Eq => false | _ => true end) m.

(** [BTreeMap::keys] and [BTreeMap::values]. *)
Definition bt_keys (m : BTreeMap) : list K := m.*1.
Definition bt_values (m : BTreeMap) : list V := m.*2.

(** The representation invariant: strictly increasing keys. *)
Fixpoint bt_above (k : K) (m : BTreeMap) : Prop :=
  match m with [] => True | (k', _) :: m' => kcmp k k' = Lt ∧ bt_above k m' end.
Fixpoint bt_ok (m : BTreeMap) : Prop :=
  match m with [] => True | (k, _) :: m' => bt_above k m' ∧ bt_ok m' end.

Lemma kcmp_refl k : kcmp k k = Eq.
Proof. by apply kcmp_eq. Qed.

Lemma kcmp_gt a b : kcmp a b = Gt ↔ kcmp b a = Lt.
Proof. rewrite (kcmp_antisym a b). by destruct (kcmp a b). Qed.

Lemma bt_above_trans a b m : kcmp a b = Lt → bt_above b m → bt_above a m.
Proof.
  intros Hab. induction m as [|[k v] m IH]; simpl; [done|].
  intros [Hk Hm]. split; [by eapply kcmp_trans|auto].
Qed.

Lemma bt_above_insert a k v m : kcmp a k = Lt → bt_above a m → bt_above a (bt_insert k v m).
Proof.
  intros Hk. induction m as [|[k' v'] m IH]; simpl; [done|].
  intros [H1 H2]. destruct (kcmp k k'); simpl; auto.
Qed.

Lemma bt_insert_ok k v m : bt_ok m → bt_ok (bt_insert k v m).
Proof.
  induction m as [|[k' v'] m IH]; simpl; [done|]. intros [Ha Hm].
  destruct (kcmp k k') eqn:E; simpl.
  - apply kcmp_eq in E as ->. done.
  - split_and!; [done|by eapply bt_above_trans|done|done].
  - split; [|auto]. apply bt_above_insert; [by apply kcmp_gt|done].
Qed.

Lemma bt_above_filter a (f : K * V → bool) m : bt_above a m → bt_above a (List.filter f m).
Proof.
  induction m as [|[k v] m IH]; simpl; [done|]. intros [H1 H2].
  destruct (f (k, v)); simpl; auto.
Qed.

Lemma bt_filter_ok (f : K * V → bool) m : bt_ok m → bt_ok (List.filter f m).
Proof.
  induction m as [|[k v] m IH]; simpl; [done|]. intros [H1 H2].
  destruct (f (k, v)); simpl; auto using bt_above_filter.
Qed.

Lemma bt_remove_ok k m : bt_ok m → bt_ok (bt_remove k m).
Proof. apply bt_filter_ok. Qed.

Lemma bt_get_above k m : bt_above k m → bt_get m k = None.
Proof. induction m as [|[k' v] m IH]; simpl; [done|]. intros [-> H]. auto. Qed.

Lemma bt_get_insert k v m : bt_ok m → bt_get (bt_insert k v m) k = Some v.
Proof.
  induction m as [|[k' v'] m IH]; simpl; [by rewrite kcmp_refl|]. intros [Ha Hm].
  destruct (kcmp k k') eqn:E; simpl; rewrite ?kcmp_refl, ?E; auto.
Qed.

Lemma bt_get_insert_ne k k' v m : k ≠ k' → bt_get (bt_insert k v m) k' = bt_get m k'.
Proof.
  intros Hne. assert (Hk : kcmp k' k ≠ Eq) by (rewrite kcmp_eq; congruence).
  induction m as [|[k2 v2] m IH]; simpl; [by destruct (kcmp k' k)|].
  destruct (kcmp k k2) eqn:E; simpl.
  - apply kcmp_eq in E as ->. by destruct (kcmp k' k2).
  - by destruct (kcmp k' k).
  - by rewrite IH.
Qed.

Lemma bt_get_remove k m : bt_get (bt_remove k m) k = None.
Proof.
  unfold bt_remove. induction m as [|[k' v] m IH]; simpl; [done|].
  destruct (kcmp k k') eqn:E; simpl; rewrite ?E; auto.
Qed.

Lemma bt_get_remove_ne k k' m : k ≠ k' → bt_get (bt_remove k m) k' = bt_get m k'.
Proof.
  intros Hne. unfold bt_remove. induction m as [|[k2 v] m IH]; simpl; [done|].
  destruct (kcmp k k2) eqn:E; simpl; rewrite ?IH; [|done|done].
  apply kcmp_eq in E as ->.
  destruct (kcmp k' k2) eqn:E; [apply kcmp_eq in E; congruence|done|done].
Qed.

Lemma bt_get_elem_of k v m : bt_get m k = Some v → (k, v) ∈ m.
Proof.
  induction m as [|[k' v'] m IH]; simpl; [done|].
  destruct (kcmp k k') eqn:E; [|constructor; auto..].
  apply kcmp_eq in E as ->. intros [= ->]. constructor.
Qed.

Lemma bt_above_elem_of k k' v m : bt_above k m → (k', v) ∈ m → kcmp k k' = Lt.
Proof.
  induction m as [|[k2 v2] m IH]; simpl; [by intros _ ?%elem_of_nil|].
  intros [H1 H2] [[= -> ->]|Hin]%elem_of_cons; auto.
Qed.

Lemma bt_elem_of_get k v m : bt_ok m → (k, v) ∈ m → bt_get m k = Some v.
Proof.
  induction m as [|[k' v'] m IH]; simpl; [by intros _ ?%elem_of_nil|].
  intros [Ha Hm] [[= -> ->]|Hin]%elem_of_cons; [by rewrite kcmp_refl|].
  assert (H := bt_above_elem_of _ _ _ _ Ha Hin). apply kcmp_gt in H. rewrite H. auto.
Qed.

Lemma bt_insert_elem_of k v m k' v' :
  (k', v') ∈ bt_insert k v m → (k', v') = (k, v) ∨ (k', v') ∈ m.
Proof.
  induction m as [|[k2 v2] m IH]; cbn [bt_insert].
  - intros ?%list_elem_of_singleton. by left.
  - destruct (kcmp k k2); rewrite ?elem_of_cons; naive_solver.
Qed.

Lemma bt_keys_NoDup m : bt_ok m → NoDup (bt_keys m).
Proof.
  induction m as [|[k v] m IH]; simpl; [constructor|]. intros [Ha Hm].
  constructor; [|auto]. intros ([k' v'] & ? & Hin)%list_elem_of_fmap. simpl in *. subst k'.
  assert (H := bt_above_elem_of _ _ _ _ Ha Hin). by rewrite kcmp_refl in H.
Qed.

(** Two maps with the same lookups are the same list. *)
Lemma bt_ext m m' :
  bt_ok m → bt_ok m' → (∀ k, bt_get m k = bt_get m' k) → m = m'.
Proof.
  revert m'. induction m as [|[k v] m IH]; intros [|[k' v'] m'] Hm Hm' H; [done| | |].
  - specialize (H k'). cbn in H. by rewrite kcmp_refl in H.
  - specialize (H k). cbn in H. by rewrite kcmp_refl in H.
  - destruct Hm as [Ha Hm], Hm' as [Ha' Hm'].
    assert (Hk : k = k').
    { destruct (kcmp k k') eqn:E; [by apply kcmp_eq| |].
      - specialize (H k). cbn in H. rewrite kcmp_refl, E in H.
        rewrite (bt_get_above k m') in H; [done|by eapply bt_above_trans].
      - apply kcmp_gt in E. specialize (H k'). cbn in H. rewrite kcmp_refl, E in H.
        rewrite (bt_get_above k' m) in H; [done|by eapply bt_above_trans]. }
    subst k'. assert (Hv := H k). cbn in Hv. rewrite kcmp_refl in Hv. injection Hv as ->.
    f_equal. apply IH; [done|done|]. intros x. specialize (H x). cbn in H.
    destruct (kcmp x k) eqn:E; [|done|done].
    apply kcmp_eq in E as ->. by rewrite !bt_get_above.
Qed.

Lemma bt_get_None k m : bt_get m k = None ↔ k ∉ bt_keys m.
Proof.
  induction m as [|[k' v] m IH]; cbn; [by split; [intros _ ?%elem_of_nil|]|].
  rewrite not_elem_of_cons, <- IH. destruct (kcmp k k') eqn:E.
  - apply kcmp_eq in E. split; [done|]. by intros [? _].
  - split; [|by intros [_ ?]]. intros ?. split; [|done]. intros ->. by rewrite kcmp_refl in E.
  - split; [|by intros [_ ?]]. intros ?. split; [|done]. intros ->. by rewrite kcmp_refl in E.
Qed.

(** Inserting a key above all others appends. *)
Lemma bt_insert_last k v m :
  (∀ k' v', (k', v') ∈ m → kcmp k' k = Lt) → bt_insert k v m = m ++ [(k, v)].
Proof.
  induction m as [|[k' v'] m IH]; simpl; [done|]. intros H.
  assert (Hk : kcmp k k' = Gt).
  { apply kcmp_gt. apply (H k' v'). constructor. }
  rewrite Hk, IH; [done|]. intros k2 v2 Hin. apply (H k2 v2). by constructor.
Qed.
End btree.

Arguments BTreeMap K V : clear implicits.

#[export] Hint Resolve bt_insert_ok bt_remove_ok bt_filter_ok : vul.
