(* ===== verification/Json.v ===== *)
(** * JSON values and hashing

    [serde_json::Value] as an inductive type with the accessors the code calls.
    The serializer, JSON pointers and SHA-256 belong to crates outside the
    repository and are class fields. *)

From stdpp Require Import base strings list.
From Stdlib Require Import ZArith.
From S2P Require Import Prelude RustStr.

(** [serde_json::Number]: an unsigned, a negative or a floating point number. *)
Inductive JsonNumber := PosInt (n : Z) | NegInt (n : Z) | Float (repr : string).

(** [serde_json::Value]; an object is its entries in key order. *)
Inductive Value :=
| JNull
| JBool (b : bool)
| JNumber (n : JsonNumber)
| JString (s : string)
| JArray (l : list Value)
| JObject (m : list (string * Value)).

(** [Value::get] with a string key. *)
Definition json_get (key : string) (v : Value) : option Value :=
  match v with
  | JObject m => find_map (λ kv, if String.eqb kv.1 key then Some kv.2 else None) m
  | _ => None
  end.

(** [Value::as_str] and [Value::as_u64]. *)
Definition as_str (v : Value) : option string :=
  match v with JString s => Some s | _ => None end.
Definition as_u64 (v : Value) : option Z :=
  match v with JNumber (PosInt n) => Some n | _ => None end.

(** [serde_json::Map::insert]: the entries stay in key order. *)
Fixpoint obj_insert (k : string) (v : Value) (m : list (string * Value)) : list (string * Value) :=
  match m with
  | [] => [(k, v)]
  | (k', v') :: rest =>
      match String.compare k k' with
      | Eq => (k, v) :: rest
      | Lt => (k, v) :: (k', v') :: rest
      | Gt => (k', v') :: obj_insert k v rest
      end
  end.

(** [serde_json::Map::remove]. *)
Definition obj_remove (k : string) (m : list (string * Value)) : list (string * Value) :=
  List.filter (λ kv, negb (String.eqb kv.1 k)) m.

(** The parts of [serde_json] that are not accessors: [Value::to_string],
    [serde_json::to_vec(v).ok()] and [Value::pointer]. *)
Class SerdeJson := {
  json_to_string : Value → string;
  json_to_vec : Value → option string;
  json_pointer : Value → string → option Value;
}.

(** [hex::encode(Sha256::digest(bytes))]. *)
Class Sha256 := { sha256_hex : string → string }.

(** [Value::as_object], [as_array], [as_bool] and [is_*]. *)
Definition as_object (v : Value) : option (list (string * Value)) :=
  match v with JObject m => Some m | _ => None end.
Definition as_array (v : Value) : option (list Value) :=
  match v with JArray l => Some l | _ => None end.
Definition as_bool (v : Value) : option bool := match v with JBool b => Some b | _ => None end.
Definition is_object (v : Value) : bool := match v with JObject _ => true | _ => false end.

(** [PartialEq for Value]; a float is its shortest text, so the two zeros are equal. *)
Definition is_zero_float (repr : string) : bool := String.eqb repr "0.0" || String.eqb repr "-0.0".
Definition number_eqb (a b : JsonNumber) : bool :=
  match a, b with
  | PosInt n, PosInt m | NegInt n, NegInt m => Z.eqb n m
  | Float r, Float q => String.eqb r q || (is_zero_float r && is_zero_float q)
  | _, _ => false
  end.
Fixpoint json_eqb (a b : Value) : bool :=
  match a, b with
  | JNull, JNull => true
  | JBool x, JBool y => Bool.eqb x y
  | JNumber x, JNumber y => number_eqb x y
  | JString x, JString y => String.eqb x y
  | JArray l, JArray l' =>
      (fix go (l l' : list Value) : bool :=
         match l, l' with
         | [], [] => true
         | x :: r, y :: r' => json_eqb x y && go r r'
         | _, _ => false
         end) l l'
  | JObject m, JObject m' =>
      (fix go (m m' : list (string * Value)) : bool :=
         match m, m' with
         | [], [] => true
         | (k, x) :: r, (k', y) :: r' => String.eqb k k' && json_eqb x y && go r r'
         | _, _ => false
         end) m m'
  | _, _ => false
  end.
