(* ===== verification/Kernel.v ===== *)
(** * The permit kernel

    Models [src/src/formal_kernel.rs], with [Evaluation] and [DenyCause] of
    [src/src/policy/mod.rs] and the [Granted] value of [src/src/approval/mod.rs]
    that it consumes.  A permit is minted from a policy evaluation (direct) or
    from a grant and the evaluation at resume (approved), and authorizes only the
    payload whose recomputed binding it carries. *)

From stdpp Require Import base strings list.
From Stdlib Require Import ZArith Lia.
From S2P Require Import Prelude RustStr PolicyTypes Precedence Json.

Local Open Scope Z_scope.

(** ** Data *)

(** [ExecutionBinding]. *)
Record ExecutionBinding := {
  eb_approval_id : string;
  eb_epoch : Z;
  eb_tenant : string;
  eb_principal : string;
  eb_credential : string;
  eb_action : string;
  eb_params_digest : string;
  eb_rule_digest : string;
}.

(** [DispatchedBinding]. *)
Record DispatchedBinding := {
  db_approved : bool;
  db_approval_id : string;
  db_epoch : Z;
  db_tenant : string;
  db_principal : string;
  db_credential : string;
  db_action : string;
  db_params_digest : string;
}.

(** [formal_kernel::Verdict]. *)
Inductive KernelVerdict := KV_Allow | KV_Deny | KV_Prompt.

#[export] Instance KernelVerdict_eq_dec : EqDecision KernelVerdict.
Proof. solve_decision. Defined.

(** [AdmissionKind]. *)
Inductive AdmissionKind := AK_Allow | AK_ObservedDeny.

(** [PermitError]. *)
Inductive PermitError :=
| PolicyDenied
| ApprovalRequired
| BindingMismatch
| Unbindable
| GrantNotYetIssued
| GrantExpired.

(** [JudgedSubject]. *)
Record JudgedSubject := {
  js_credential : string;
  js_principal : string;
  js_params_digest : string;
}.

(** [AdmissionWitness]. *)
Record AdmissionWitness := { aw_kind : AdmissionKind; aw_subject : JudgedSubject }.

(** [DenyCause] of [policy/mod.rs]. *)
Inductive DenyCause :=
| DC_Rule | DC_Halt | DC_RateLimit | DC_SpendCap | DC_UrlUncanonical | DC_Default.

(** [Evaluation] of [policy/mod.rs]. *)
Record Evaluation := {
  ev_decision : PolicyDecision;
  ev_observe_downgrade : bool;
  ev_subject : option JudgedSubject;
  ev_deny_cause : option DenyCause;
}.

(** [Granted] and [GrantBasis] of [approval/mod.rs]. *)
Inductive GrantBasis :=
| NumericThreshold (need have : Z)
| RecipeBasis (recipes counted_signoffs : nat).

Record Granted := {
  gr_basis : GrantBasis;
  gr_binding : ExecutionBinding;
  gr_issued_at : Z;
  gr_expires_at : Z;
}.

(** [PermitBasis] and [ExecutionPermit]. *)
Inductive PermitBasis := PB_Direct (k : AdmissionKind) | PB_Approved (g : Granted).

Record ExecutionPermit := { ep_binding : ExecutionBinding; ep_basis : PermitBasis }.

(** ** Operations *)

(** [ExecutionBinding::binds]. *)
Definition binds (b : ExecutionBinding) (d : DispatchedBinding) : bool :=
  String.eqb (eb_approval_id b) (db_approval_id d)
  && (eb_epoch b =? db_epoch d)
  && String.eqb (eb_tenant b) (db_tenant d)
  && String.eqb (eb_principal b) (db_principal d)
  && String.eqb (eb_credential b) (db_credential d)
  && String.eqb (eb_action b) (db_action d)
  && String.eqb (eb_params_digest b) (db_params_digest d).

(** [next_epoch]. *)
Definition next_epoch (current : Z) : option Z := u64_checked_add current 1.

Definition DIRECT_ALLOW_RULE_DIGEST : string :=
  "sha256:d2c08dcdbdeee9ba014f122cbddc6c68c7264db9360594cf1f8b0d64852ec12a".
Definition DIRECT_OBSERVED_DENY_RULE_DIGEST : string :=
  "sha256:f09492db3e9370dcf6c024c71fd2747afc1b34a9710432f6585ebc68b53fb4ca".

(** [AdmissionKind::rule_digest]. *)
Definition rule_digest (k : AdmissionKind) : string :=
  match k with
  | AK_Allow => DIRECT_ALLOW_RULE_DIGEST
  | AK_ObservedDeny => DIRECT_OBSERVED_DENY_RULE_DIGEST
  end.

(** [JudgedSubject::judged]. *)
Definition judged (s : JudgedSubject) (b : ExecutionBinding) : bool :=
  String.eqb (js_credential s) (eb_credential b)
  && String.eqb (js_principal s) (eb_principal b)
  && String.eqb (js_params_digest s) (eb_params_digest b).

(** [Evaluation::verdict]. *)
Definition verdict (e : Evaluation) : KernelVerdict :=
  match ev_decision e with
  | PD_Allow => KV_Allow
  | PD_Deny _ => KV_Deny
  | PD_Prompt => KV_Prompt
  end.

(** [admission_gate]. *)
Definition admission_gate (v : KernelVerdict) (observe_downgrade approval_required : bool)
  : result AdmissionKind PermitError :=
  let? kind :=
    (match v with
     | KV_Allow => Ok AK_Allow
     | KV_Deny => if observe_downgrade then Ok AK_ObservedDeny else Err PolicyDenied
     | KV_Prompt => Err ApprovalRequired
     end) in
  if approval_required then Err ApprovalRequired else Ok kind.

(** [witness_from]. *)
Definition witness_from (v : KernelVerdict) (observe_downgrade approval_required : bool)
    (subject : option JudgedSubject) : result AdmissionWitness PermitError :=
  let? kind := admission_gate v observe_downgrade approval_required in
  let? s := ok_or subject Unbindable in
  Ok {| aw_kind := kind; aw_subject := s |}.

(** [admit]. *)
Definition kernel_admit (e : Evaluation) (approval_required : bool)
  : result AdmissionWitness PermitError :=
  witness_from (verdict e) (ev_observe_downgrade e) approval_required (ev_subject e).

(** [approved_gate]. *)
Definition approved_gate (v : KernelVerdict) (now issued_at expires_at : Z)
  : result unit PermitError :=
  if bool_decide (v = KV_Deny) then Err PolicyDenied
  else if now <? issued_at then Err GrantNotYetIssued
  else if expires_at <=? now then Err GrantExpired
  else Ok tt.

(** [PermitBasis::is_approved]. *)
Definition is_approved (b : PermitBasis) : bool :=
  match b with PB_Approved _ => true | PB_Direct _ => false end.

(** [ExecutionPermit::direct]. *)
Definition direct (w : AdmissionWitness) (request_id tenant act : string) : ExecutionPermit :=
  {| ep_binding :=
       {| eb_approval_id := "direct:" +:+ request_id;
          eb_epoch := 0;
          eb_tenant := tenant;
          eb_principal := js_principal (aw_subject w);
          eb_credential := js_credential (aw_subject w);
          eb_action := act;
          eb_params_digest := js_params_digest (aw_subject w);
          eb_rule_digest := rule_digest (aw_kind w) |};
     ep_basis := PB_Direct (aw_kind w) |}.

(** [ExecutionPermit::approved]. *)
Definition approved (grant : Granted) (resume : Evaluation) (now : Z)
  : result ExecutionPermit PermitError :=
  let? _ := approved_gate (verdict resume) now (gr_issued_at grant) (gr_expires_at grant) in
  match ev_subject resume with
  | Some s =>
      if judged s (gr_binding grant)
      then Ok {| ep_binding := gr_binding grant; ep_basis := PB_Approved grant |}
      else Err BindingMismatch
  | None => Err Unbindable
  end.

(** [ExecutionPermit::admission_kind]. *)
Definition admission_kind (p : ExecutionPermit) : option AdmissionKind :=
  match ep_basis p with PB_Direct k => Some k | PB_Approved _ => None end.

(** The [Dispatch] trait: a payload recomputes its own binding. *)
Class Dispatch (T : Type) := dispatched_binding : T → option DispatchedBinding.

(** [Authorized<T>]: the payload paired with the permit that authorized it. *)
Record Authorized (T : Type) := { au_payload : T; au_permit : ExecutionPermit }.
Arguments au_payload {T} _.
Arguments au_permit {T} _.

(** [ExecutionPermit::authorize]. *)
Definition authorize {T} `{!Dispatch T} (p : ExecutionPermit) (payload : T)
  : result (Authorized T) PermitError :=
  let? d := ok_or (dispatched_binding payload) Unbindable in
  if negb (eqb (db_approved d) (is_approved (ep_basis p))) || negb (binds (ep_binding p) d)
  then Err BindingMismatch
  else Ok {| au_payload := payload; au_permit := p |}.

Section digests.
Context {SJ : SerdeJson} {SH : Sha256}.

(** [digest_bytes]. *)
Definition digest_bytes (bytes : string) : string := "sha256:" +:+ sha256_hex bytes.

(** [digest_params]. *)
Definition digest_params (params : Value) : option string :=
  match json_to_vec params with Some bytes => Some (digest_bytes bytes) | None => None end.
End digests.

(** ** Lemmas *)

(** The fields a permit and a payload agree on. *)
Definition same_binding (b : ExecutionBinding) (d : DispatchedBinding) : Prop :=
  eb_approval_id b = db_approval_id d ∧ eb_epoch b = db_epoch d
  ∧ eb_tenant b = db_tenant d ∧ eb_principal b = db_principal d
  ∧ eb_credential b = db_credential d ∧ eb_action b = db_action d
  ∧ eb_params_digest b = db_params_digest d.

Lemma binds_spec b d : binds b d = true ↔ same_binding b d.
Proof.
  unfold binds, same_binding. rewrite !andb_true_iff, !String.eqb_eq, Z.eqb_eq. tauto.
Qed.

Lemma judged_spec s b :
  judged s b = true ↔
  js_credential s = eb_credential b ∧ js_principal s = eb_principal b
  ∧ js_params_digest s = eb_params_digest b.
Proof. unfold judged. rewrite !andb_true_iff, !String.eqb_eq. tauto. Qed.

(** [authorize] succeeds exactly on the payload that recomputes the permit's
    binding and claims the permit's kind of execution. *)
Lemma authorize_spec {T} `{!Dispatch T} (p : ExecutionPermit) (t : T) a :
  authorize p t = Ok a ↔
  a = {| au_payload := t; au_permit := p |}
  ∧ ∃ d, dispatched_binding t = Some d ∧ db_approved d = is_approved (ep_basis p)
         ∧ same_binding (ep_binding p) d.
Proof.
  unfold authorize. destruct (dispatched_binding t) as [d|]; simpl.
  - destruct (eqb (db_approved d) (is_approved (ep_basis p))) eqn:Ea; simpl.
    + apply eqb_prop in Ea. destruct (binds (ep_binding p) d) eqn:Eb; simpl.
      * apply binds_spec in Eb. split; [intros [= <-]; eauto|by intros [-> _]].
      * split; [done|]. intros (_ & d' & [= <-] & _ & Hs%binds_spec). congruence.
    + split; [done|]. intros (_ & d' & [= <-] & Ha & _). by rewrite Ha, eqb_reflx in Ea.
  - split; [done|]. by intros (_ & d & ? & _).
Qed.

Lemma approved_gate_spec v now issued expires :
  approved_gate v now issued expires = Ok tt ↔ v ≠ KV_Deny ∧ issued <= now < expires.
Proof.
  unfold approved_gate. case_bool_decide; [split; [done|tauto]|].
  destruct (Z.ltb_spec now issued); [split; [done|lia]|].
  destruct (Z.leb_spec expires now); [split; [done|lia]|]. split; [|done]. intros _. split; [done|lia].
Qed.

Lemma admit_iff e approval_required w :
  kernel_admit e approval_required = Ok w ↔
  approval_required = false ∧ ev_subject e = Some (aw_subject w)
  ∧ ((ev_decision e = PD_Allow ∧ aw_kind w = AK_Allow)
     ∨ (is_deny (ev_decision e) = true ∧ ev_observe_downgrade e = true
        ∧ aw_kind w = AK_ObservedDeny)).
Proof.
  unfold kernel_admit, witness_from, admission_gate, verdict.
  destruct w as [k s].
  destruct (ev_decision e); [|destruct (ev_observe_downgrade e)|];
    destruct approval_required; simpl; destruct (ev_subject e) as [s'|]; simpl;
    split; intros H; try naive_solver.
Qed.

(** What an approved permit and the payload it authorizes agree on. *)
Lemma approved_binds {T} `{!Dispatch T} g e now p (t : T) a :
  approved g e now = Ok p → authorize p t = Ok a →
  is_deny (ev_decision e) = false ∧ gr_issued_at g <= now < gr_expires_at g
  ∧ (∃ s, ev_subject e = Some s ∧ judged s (gr_binding g) = true)
  ∧ ∃ d, dispatched_binding t = Some d ∧ db_approved d = true
         ∧ same_binding (gr_binding g) d.
Proof.
  unfold approved. intros Hp Hz%authorize_spec.
  destruct (approved_gate _ _ _ _) as [[]|] eqn:Eg; [|done]. simpl in Hp.
  apply approved_gate_spec in Eg as [Hv Hw].
  destruct (ev_subject e) as [s|]; [|done].
  destruct (judged s (gr_binding g)) eqn:Ej; [|done]. injection Hp as <-.
  destruct Hz as (_ & d & Hd & Hap & Hb). simpl in *. split_and!; eauto.
  - unfold verdict in Hv. by destruct (ev_decision e).
  - tauto.
  - tauto.
Qed.

(** ** Theorems *)

(** The admission table: a witness exists exactly for an allowed request, or a
    denied one that observe mode lets run, with no approval required and bindable
    params; it names which of the two and the subject the evaluation judged. *)
Theorem admit_exact e approval_required w :
  kernel_admit e approval_required = Ok w ↔
  approval_required = false ∧ ev_subject e = Some (aw_subject w)
  ∧ ((ev_decision e = PD_Allow ∧ aw_kind w = AK_Allow)
     ∨ (is_deny (ev_decision e) = true ∧ ev_observe_downgrade e = true
        ∧ aw_kind w = AK_ObservedDeny)).
Proof. apply admit_iff. Qed.

(** A direct permit authorizes a payload only if the payload dispatches the
    credential, the principal and the params digest the policy evaluation judged,
    under the request id, tenant and action of the permit, at epoch 0 and as a
    direct execution. *)
Theorem direct_permit_binds_judged_request {T} `{!Dispatch T} e ar w rid tenant act (t : T) a :
  kernel_admit e ar = Ok w →
  authorize (direct w rid tenant act) t = Ok a →
  ∃ d s, dispatched_binding t = Some d ∧ ev_subject e = Some s
    ∧ db_approved d = false ∧ db_epoch d = 0
    ∧ db_approval_id d = "direct:" +:+ rid ∧ db_tenant d = tenant ∧ db_action d = act
    ∧ db_credential d = js_credential s ∧ db_principal d = js_principal s
    ∧ db_params_digest d = js_params_digest s.
Proof.
  intros Ha%admit_iff Hz%authorize_spec. destruct Ha as (_ & Hs & _).
  destruct Hz as (_ & d & Hd & Hap & Hb). exists d, (aw_subject w).
  unfold same_binding in Hb. simpl in *. naive_solver.
Qed.

(** An approved permit exists only while the grant is in force, for a resume
    evaluation that does not deny and judged the grant's own subject; a payload it
    authorizes is the granted one, at the granted epoch. *)
Theorem approved_permit_binds_grant {T} `{!Dispatch T} g e now p (t : T) a :
  approved g e now = Ok p → authorize p t = Ok a →
  is_deny (ev_decision e) = false ∧ gr_issued_at g <= now < gr_expires_at g
  ∧ (∃ s, ev_subject e = Some s ∧ judged s (gr_binding g) = true)
  ∧ ∃ d, dispatched_binding t = Some d ∧ db_approved d = true
         ∧ same_binding (gr_binding g) d.
Proof. apply approved_binds. Qed.

(** Any single-field substitution in a payload is refused with a mismatch. *)
Theorem authorize_refuses_substitution {T} `{!Dispatch T} p (t : T) d :
  dispatched_binding t = Some d →
  ¬ (db_approved d = is_approved (ep_basis p) ∧ same_binding (ep_binding p) d) →
  authorize p t = Err BindingMismatch.
Proof.
  intros Hd Hn. destruct (authorize p t) as [a|err] eqn:E.
  - apply authorize_spec in E as (_ & d' & Hd' & H). naive_solver.
  - unfold authorize in E. rewrite Hd in E. simpl in E. destruct (_ || _); congruence.
Qed.

(** The execution epoch strictly increases and never wraps. *)
Theorem next_epoch_strict current :
  in_u64 current →
  match next_epoch current with
  | Some n => n = current + 1 ∧ in_u64 n
  | None => current = u64_max
  end.
Proof.
  unfold next_epoch, u64_checked_add, in_u64, u64_max. intros H.
  destruct (Z.leb_spec (current + 1) 18446744073709551615); lia.
Qed.
