(* ===== verification/PolicyEngine.v ===== *)
(** * The policy engine

    Models [PolicyEngine] of [src/src/policy/mod.rs]: the policy list with its load
    tickets, pattern matching on credentials and principals, the condition
    evaluator [eval_pair], the layered rate limits of the allow tier, and
    [evaluate_inner] with its callers.  Evaluation runs in a state monad over the
    rate-limit counters; the mutable locals that the tier closure captures
    ([deny_policy], [guard_hint], [broadened_prompt]) are fields of [EvalState].
    The read lock on the policy list is held for a whole evaluation, so the list is
    an argument. *)

From stdpp Require Import base gmap strings list.
From Stdlib Require Import Ascii ZArith Lia.
From S2P Require Import Prelude RustStr PolicyTypes Precedence UrlCanon RateLimit Json Kernel.

(** ** Data *)

(** [RefusalClass] of [refusal.rs]. *)
Inductive RefusalClass :=
| RC_NotGranted | RC_PolicyDeny | RC_KillFence | RC_RateLimit | RC_SpendCap
| RC_CrossTenant | RC_TokenUnusable | RC_LlmChannelOnly | RC_ModelUnpriced
| RC_ModifierUnpriced | RC_ProviderDisabled | RC_CapabilityUndeclared
| RC_ApprovalUnavailable | RC_DecisionUnavailable.

(** [DenyCause::refusal_class]. *)
Definition refusal_class (c : DenyCause) : RefusalClass :=
  match c with
  | DC_Halt => RC_KillFence
  | DC_RateLimit => RC_RateLimit
  | DC_SpendCap => RC_SpendCap
  | DC_Rule | DC_UrlUncanonical | DC_Default => RC_PolicyDeny
  end.

(** [Want]. *)
Record Want := { want_narrow : bool; want_wide : bool }.
Definition NARROW : Want := {| want_narrow := true; want_wide := false |}.
Definition WIDE : Want := {| want_narrow := false; want_wide := true |}.

(** [same]. *)
Definition same (v : bool) : bool * bool := (v, v).

(** [SpendAttempt]. *)
Record SpendAttempt := { sp_asset : string; sp_amount : Z }.

(** [EvalInput]. *)
Record EvalInput := {
  in_credential_alias : string;
  in_url : option string;
  in_method : option string;
  in_action : option string;
  in_principal : option Principal;
  in_spend : option SpendAttempt;
}.

(** [AdmissionQuery]. *)
Record AdmissionQuery := {
  q_credential_alias : string;
  q_action : string;
  q_params : Value;
  q_principal : option Principal;
  q_spend : option SpendAttempt;
}.

(** [PolicyEngine]. *)
Record PolicyEngine := {
  policies : list Policy;
  counters : EngineState;
  default_deny : bool;
  next_load_ticket : Z;
  applied_load_ticket : Z;
}.

(** The state of one evaluation: the engine's counters and the locals captured by
    the tier closure. *)
Record EvalState := {
  es_engine : EngineState;
  es_deny_policy : option string;
  es_guard_hint : option DenyCause;
  es_broadened_prompt : bool;
}.

Definition set_engine (s : EvalState) (e : EngineState) : EvalState :=
  {| es_engine := e; es_deny_policy := es_deny_policy s;
     es_guard_hint := es_guard_hint s; es_broadened_prompt := es_broadened_prompt s |}.
Definition set_deny_policy (name : string) : st EvalState unit := λ s,
  (tt, {| es_engine := es_engine s; es_deny_policy := Some name;
          es_guard_hint := es_guard_hint s; es_broadened_prompt := es_broadened_prompt s |}).
Definition set_guard_hint (c : DenyCause) : st EvalState unit := λ s,
  (tt, {| es_engine := es_engine s; es_deny_policy := es_deny_policy s;
          es_guard_hint := Some c; es_broadened_prompt := es_broadened_prompt s |}).
Definition set_broadened_prompt : st EvalState unit := λ s,
  (tt, {| es_engine := es_engine s; es_deny_policy := es_deny_policy s;
          es_guard_hint := es_guard_hint s; es_broadened_prompt := true |}).

(** Runs a computation on the engine's counters inside an evaluation. *)
Definition on_engine {A} (m : st EngineState A) : st EvalState A := λ s,
  let '(a, e) := m (es_engine s) in (a, set_engine s e).

(** ** The policy list *)

(** [PolicyEngine::new]. *)
Definition engine_new : PolicyEngine :=
  {| policies := []; counters := {| rate_limits := ∅; reads := 0 |};
     default_deny := true; next_load_ticket := 0; applied_load_ticket := 0 |}.

Definition set_policies (e : PolicyEngine) (ps : list Policy) : PolicyEngine :=
  {| policies := ps; counters := counters e; default_deny := default_deny e;
     next_load_ticket := next_load_ticket e; applied_load_ticket := applied_load_ticket e |}.

Definition set_counters (e : PolicyEngine) (c : EngineState) : PolicyEngine :=
  {| policies := policies e; counters := c; default_deny := default_deny e;
     next_load_ticket := next_load_ticket e; applied_load_ticket := applied_load_ticket e |}.

(** [PolicyEngine::set_default_deny]. *)
Definition set_default_deny (e : PolicyEngine) (deny : bool) : PolicyEngine :=
  {| policies := policies e; counters := counters e; default_deny := deny;
     next_load_ticket := next_load_ticket e; applied_load_ticket := applied_load_ticket e |}.

(** [PolicyEngine::add_policy]; the two warnings it logs have no effect on state. *)
Definition add_policy (e : PolicyEngine) (p : Policy) : PolicyEngine :=
  set_policies e (policies e ++ [p]).

(** [PolicyEngine::remove_policy]. *)
Definition remove_policy (e : PolicyEngine) (id : string) : bool * PolicyEngine :=
  let kept := List.filter (λ p, negb (String.eqb (policy_id p) id)) (policies e) in
  (length kept <? length (policies e), set_policies e kept).

(** [PolicyEngine::list_policies]. *)
Definition list_policies (e : PolicyEngine) : list Policy := policies e.

(** [PolicyEngine::begin_load]: the ticket counter is a wrapping [AtomicU64]. *)
Definition begin_load (e : PolicyEngine) : Z * PolicyEngine :=
  let t := ((next_load_ticket e + 1) mod (u64_max + 1))%Z in
  (t, {| policies := policies e; counters := counters e; default_deny := default_deny e;
         next_load_ticket := t; applied_load_ticket := applied_load_ticket e |}).

(** [PolicyEngine::load_policies_if_newer]. *)
Definition load_policies_if_newer (e : PolicyEngine) (ticket : Z) (ps : list Policy)
  : bool * PolicyEngine :=
  if (ticket <=? applied_load_ticket e)%Z then (false, e)
  else (true, {| policies := ps; counters := counters e; default_deny := default_deny e;
                 next_load_ticket := next_load_ticket e; applied_load_ticket := ticket |}).

(** [PolicyEngine::load_policies]. *)
Definition load_policies (e : PolicyEngine) (ps : list Policy) : PolicyEngine :=
  set_policies e ps.

(** ** Condition walks of the engine *)

(** [contains_url_match]. *)
Fixpoint contains_url_match (c : PolicyCondition) : bool :=
  match c with
  | UrlMatch _ => true
  | And v | Or v => existsb contains_url_match v
  | Not b => contains_url_match b
  | _ => false
  end.

(** [contains_negated_url_match]. *)
Fixpoint contains_negated_url_match (c : PolicyCondition) (negated : bool) : bool :=
  match c with
  | UrlMatch _ => negated
  | And v | Or v => existsb (λ x, contains_negated_url_match x negated) v
  | Not b => contains_negated_url_match b (negb negated)
  | _ => false
  end.

(** [rule_guards] of [PolicyEngine::has_resource_guard]. *)
Fixpoint rule_guards (c : PolicyCondition) : bool :=
  match c with
  | SpendCap _ _ | RateLimit _ _ => true
  | And v | Or v => existsb rule_guards v
  | Not b => rule_guards b
  | UrlMatch _ | MethodMatch _ | ActionMatch _ | TimeWindow _ _ | Always => false
  end.

(** [split_rate_limits]: appends to the [rest] and [limits] vectors. *)
Fixpoint split_rate_limits (c : PolicyCondition)
    (acc : list PolicyCondition * list (Z * Z)) : list PolicyCondition * list (Z * Z) :=
  match c with
  | RateLimit max window_secs => (acc.1, acc.2 ++ [(max, window_secs)])
  | And children => foldl (λ acc child, split_rate_limits child acc) acc children
  | other => (acc.1 ++ [other], acc.2)
  end.

(** [PolicyEngine::spend_within_cap]. *)
Definition spend_within_cap (spend : option SpendAttempt) (asset : string)
    (per_action_max : Z) (check : bool) : bool :=
  if negb check then true else
  match spend with
  | None => false
  | Some s =>
      if negb (String.eqb (sp_asset s) asset) then false
      else (sp_amount s <=? per_action_max)%Z
  end.

(** The membership test of [TimeWindow]. *)
Definition in_time_window (now start stop : NaiveTime) : bool :=
  if naive_time_leb start stop
  then naive_time_leb start now && naive_time_leb now stop
  else naive_time_leb start now || naive_time_leb now stop.

(** ** Evaluation *)

Section with_crates.
Context {UC : UrlCrate} {GC : GlobCrate} {EC : UrlEncodingCrate}.
Context {SJ : SerdeJson} {SH : Sha256}.
Context (clk : Clock).

(** [policy::glob_matches]. *)
Definition glob_matches (pattern value : string) : bool :=
  if String.eqb pattern "*" then true
  else match glob_new pattern with
       | Some g => g value
       | None => String.eqb pattern value
       end.

(** [credential_matches]. *)
Definition credential_matches (pattern alias : string) : bool := glob_matches pattern alias.

(** [principal_matches]. *)
Definition principal_matches (pattern : option string) (principal : option Principal) : bool :=
  match pattern with
  | None => true
  | Some pat =>
      match principal with
      | None => false
      | Some p =>
          glob_matches pat (principal_id p)
          || match agent_label p with Some l => glob_matches pat l | None => false end
          || match workload_id p with Some w => glob_matches pat w | None => false end
      end
  end.

(** Whether a policy applies to a request: the filter of [evaluate_inner]. *)
Definition applies (input : EvalInput) (p : Policy) : bool :=
  credential_matches (credential_pattern p) (in_credential_alias input)
  && principal_matches (principal_pattern p) (in_principal input).

(** [PolicyEngine::is_halted]. *)
Definition is_halted (ps : list Policy) (input : EvalInput) : bool :=
  existsb (λ p, kill p
    && credential_matches (credential_pattern p) (in_credential_alias input)
    && principal_matches (principal_pattern p) (in_principal input)) ps.

(** [PolicyEngine::is_principal_halted]. *)
Definition is_principal_halted (ps : list Policy) (principal : Principal) : bool :=
  existsb (λ p, kill p && principal_matches (principal_pattern p) (Some principal)) ps.

(** [PolicyEngine::has_resource_guard]. *)
Definition has_resource_guard (ps : list Policy) (input : EvalInput) : bool :=
  existsb (λ p, existsb (λ r, rule_guards (condition r)) (rules p))
    (List.filter (applies input) ps).

Section with_input.
Context (input : EvalInput).

(** The [for] loop of the [And] case of [eval_pair]. *)
Fixpoint and_loop (eval : PolicyCondition → st EngineState (bool * bool)) (want : Want)
    (acc : bool * bool) (cs : list PolicyCondition) : st EngineState (bool * bool) :=
  match cs with
  | [] => st_ret acc
  | c :: rest =>
      let! r := eval c in
      let acc' := (acc.1 && r.1, acc.2 && r.2) in
      if negb ((want_narrow want && acc'.1) || (want_wide want && acc'.2))
      then st_ret acc' else and_loop eval want acc' rest
  end.

(** The [for] loop of the [Or] case of [eval_pair]. *)
Fixpoint or_loop (eval : PolicyCondition → st EngineState (bool * bool)) (want : Want)
    (acc : bool * bool) (cs : list PolicyCondition) : st EngineState (bool * bool) :=
  match cs with
  | [] => st_ret acc
  | c :: rest =>
      let! r := eval c in
      let acc' := (acc.1 || r.1, acc.2 || r.2) in
      if (negb (want_narrow want) || acc'.1) && (negb (want_wide want) || acc'.2)
      then st_ret acc' else or_loop eval want acc' rest
  end.

(** [PolicyEngine::eval_pair]. *)
Fixpoint eval_pair (c : PolicyCondition) (record : bool) (want : Want)
  : st EngineState (bool * bool) :=
  match c with
  | UrlMatch pattern =>
      st_ret (match in_url input with
              | Some u =>
                  let narrow := url_matches_for u pattern false in
                  (narrow, narrow || url_matches_for u pattern true)
              | None => (false, false)
              end)
  | MethodMatch methods =>
      st_ret (same (match in_method input with
                    | Some m => existsb (λ x, eq_ignore_ascii_case x m) methods
                    | None => false
                    end))
  | ActionMatch pattern =>
      st_ret (same (match in_action input with
                    | Some a => match glob_new pattern with
                                | Some g => g a
                                | None => String.eqb pattern a
                                end
                    | None => false
                    end))
  | TimeWindow start stop =>
      let! now := local_now clk in st_ret (same (in_time_window now start stop))
  | RateLimit max window_secs =>
      if record
      then let! ok := check_rate_limit clk (in_credential_alias input)
                        (rate_limit_principal <$> in_principal input) max window_secs in
           st_ret (same ok)
      else st_ret (same true)
  | SpendCap asset per_action_max =>
      st_ret (same (spend_within_cap (in_spend input) asset per_action_max record))
  | And cs => and_loop (λ c, eval_pair c record want) want (true, true) cs
  | Or cs => or_loop (λ c, eval_pair c record want) want (false, false) cs
  | Not inner =>
      let! r := eval_pair inner record
                  {| want_narrow := want_wide want; want_wide := want_narrow want |} in
      st_ret (negb r.2, negb r.1)
  | Always => st_ret (true, true)
  end.

(** [rest.iter().all(|c| self.eval_pair(c, input, record, Want::NARROW).0)]. *)
Fixpoint all_narrow (record : bool) (cs : list PolicyCondition) : st EngineState bool :=
  match cs with
  | [] => st_ret true
  | c :: rest =>
      let! r := eval_pair c record NARROW in
      if r.1 then all_narrow record rest else st_ret false
  end.

(** The [for limit in limits] loop that de-duplicates guards. *)
Definition push_guards (guards limits : list (Z * Z)) : list (Z * Z) :=
  foldl (λ gs l, if bool_decide (l ∈ gs) then gs else gs ++ [l]) guards limits.

(** One rule of the loop of [allow_tier_matches]; the accumulator is
    [(matched, guards)]. *)
Definition allow_rule (record : bool) (acc : bool * list (Z * Z)) (r : PolicyRule)
  : st EvalState (bool * list (Z * Z)) :=
  if bool_decide (action r ≠ PA_Allow) then st_ret acc else
  match condition r with
  | SpendCap asset per_action_max =>
      if spend_within_cap (in_spend input) asset per_action_max record
      then st_ret (true, acc.2)
      else let! _ := set_guard_hint DC_SpendCap in st_ret acc
  | c =>
      let '(rest, limits) := split_rate_limits c ([], []) in
      let! ok := on_engine (all_narrow record rest) in
      if ok then st_ret (true, push_guards acc.2 limits) else st_ret acc
  end.

Fixpoint allow_rules (record : bool) (acc : bool * list (Z * Z)) (rs : list PolicyRule)
  : st EvalState (bool * list (Z * Z)) :=
  match rs with
  | [] => st_ret acc
  | r :: rs' => let! acc' := allow_rule record acc r in allow_rules record acc' rs'
  end.

(** [PolicyEngine::allow_tier_matches]. *)
Definition allow_tier_matches (ps : list Policy) (record : bool) : st EvalState bool :=
  let! mg := allow_rules record (false, []) (ps ≫= rules) in
  if negb mg.1 then st_ret false
  else if bool_decide (mg.2 = []) || negb record then st_ret true
  else
    let! admitted := on_engine (charge_rate_limits clk (in_credential_alias input)
                       (rate_limit_principal <$> in_principal input) mg.2) in
    λ s, if negb admitted && bool_decide (es_guard_hint s = None)
         then (let! _ := set_guard_hint DC_RateLimit in st_ret admitted) s
         else (admitted, s).

(** Whether one rule matches in the deny and prompt tiers of [evaluate_inner]. *)
Definition tier_rule_matches (record : bool) (r : PolicyRule) : st EvalState bool :=
  match condition r with
  | SpendCap asset per_action_max =>
      st_ret (spend_within_cap (in_spend input) asset per_action_max record)
  | other =>
      match action r with
      | PA_Allow => let! p := on_engine (eval_pair other record NARROW) in st_ret p.1
      | PA_Deny => let! p := on_engine (eval_pair other record WIDE) in st_ret p.2
      | PA_Prompt =>
          let! n := on_engine (eval_pair other record NARROW) in
          if n.1 then st_ret true
          else
            let! w := on_engine (eval_pair other false WIDE) in
            let! _ := (if w.2 then set_broadened_prompt else st_ret tt) in
            st_ret false
      end
  end.

(** The nested loops over the policies and rules of one tier. *)
Fixpoint scan_rules (record : bool) (wanted : PolicyAction) (name : string)
    (rs : list PolicyRule) : st EvalState bool :=
  match rs with
  | [] => st_ret false
  | r :: rs' =>
      if bool_decide (action r ≠ wanted) then scan_rules record wanted name rs'
      else
        let! m := tier_rule_matches record r in
        if m then
          let! _ := (if bool_decide (wanted = PA_Deny)
                     then set_deny_policy name else st_ret tt) in
          st_ret true
        else scan_rules record wanted name rs'
  end.

Fixpoint scan_policies (record : bool) (wanted : PolicyAction) (ps : list Policy)
  : st EvalState bool :=
  match ps with
  | [] => st_ret false
  | p :: ps' =>
      let! m := scan_rules record wanted (policy_name p) (rules p) in
      if m then st_ret true else scan_policies record wanted ps'
  end.

(** The closure [evaluate_inner] passes to [resolve_lazily]. *)
Definition tier_matched (matching : list Policy) (record : bool) (tier : RuleOutcome)
  : st EvalState bool :=
  match tier with
  | RO_Kill | RO_NoMatch => st_ret false
  | RO_Allow => allow_tier_matches matching record
  | RO_Deny => scan_policies record PA_Deny matching
  | RO_Prompt => scan_policies record PA_Prompt matching
  end.

(** The URL pre-check of [evaluate_inner]: the first matching policy with a
    URL-sensitive deny or prompt rule. *)
Definition url_sensitive (p : Policy) : bool :=
  existsb (λ r, match action r with PA_Deny | PA_Prompt => contains_url_match (condition r)
                | PA_Allow => false end
                || contains_negated_url_match (condition r) false) (rules p).

Definition url_precheck (matching : list Policy) : option Policy :=
  match in_url input with
  | Some raw =>
      match canonical_url raw with
      | None => List.find url_sensitive matching
      | Some _ => None
      end
  | None => None
  end.

(** The prompt upgrade of [evaluate_inner]. *)
Definition upgrade_prompt (broadened : bool) (v : Verdict) : Verdict :=
  match v with
  | V_Allow | V_PolicyDefaultAllow | V_EngineDefaultAllow => if broadened then V_Prompt else v
  | v => v
  end.

(** The typed cause of [evaluate_inner]. *)
Definition deny_cause_of (hint : option DenyCause) (v : Verdict) : option DenyCause :=
  match v with
  | V_Kill => Some DC_Halt
  | V_Deny => Some DC_Rule
  | V_PolicyDefaultDeny | V_EngineDefaultDeny | V_FailClosedTail =>
      Some (default DC_Default hint)
  | _ => None
  end.

(** [PolicyEngine::evaluate_inner]. *)
Definition evaluate_inner (ps : list Policy) (engine_deny record : bool)
  : st EngineState (PolicyDecision * option DenyCause) := λ s0,
  let matching := List.filter (applies input) ps in
  match url_precheck matching with
  | Some p =>
      (PD_Deny ("policy '" +:+ policy_name p +:+
         "': request URL cannot be canonicalised and the policy has a URL deny or prompt rule"),
       Some DC_UrlUncanonical, s0)
  | None =>
      let policy_defaults := default_action <$> matching in
      let killed := existsb kill matching in
      let '(v0, s) :=
        resolve_lazily killed (tier_matched matching record) policy_defaults engine_deny
          {| es_engine := s0; es_deny_policy := None; es_guard_hint := None;
             es_broadened_prompt := false |} in
      let v := upgrade_prompt (es_broadened_prompt s) v0 in
      let default_deny_policy :=
        match List.find (λ p, bool_decide (default_action p = PA_Deny)) matching with
        | Some p => policy_name p
        | None => ""
        end in
      (decision_for v (default "" (es_deny_policy s)) default_deny_policy,
       deny_cause_of (es_guard_hint s) v, es_engine s)
  end.

End with_input.

(** ** Entry points *)

(** [PolicyEngine::evaluate_full]. *)
Definition evaluate_full (e : PolicyEngine) (input : EvalInput)
  : PolicyDecision * PolicyEngine :=
  let '(d, _, c) := evaluate_inner input (policies e) (default_deny e) true (counters e) in
  (d, set_counters e c).

(** [PolicyEngine::evaluate]: the legacy form, with the principal fields of the
    request context. *)
Definition evaluate (e : PolicyEngine) (alias : string) (url method : option string)
    (api_key_id ctx_agent_label : option string) : PolicyDecision * PolicyEngine :=
  let principal := (λ id, {| principal_id := id; agent_label := ctx_agent_label;
                             owner := None; workload_id := None |}) <$> api_key_id in
  evaluate_full e {| in_credential_alias := alias; in_url := url; in_method := method;
                     in_action := None; in_principal := principal; in_spend := None |}.

(** [PolicyEngine::evaluate_readonly_full]. *)
Definition evaluate_readonly_full (e : PolicyEngine) (input : EvalInput)
  : PolicyDecision * PolicyEngine :=
  let '(d, _, c) := evaluate_inner input (policies e) (default_deny e) false (counters e) in
  (d, set_counters e c).

(** [PolicyEngine::evaluate_readonly]. *)
Definition evaluate_readonly (e : PolicyEngine) (alias : string) (url method : option string)
  : PolicyDecision * PolicyEngine :=
  evaluate_readonly_full e
    {| in_credential_alias := alias; in_url := url; in_method := method;
       in_action := None; in_principal := None; in_spend := None |}.

(** [url_canon::policy_url]. *)
Definition policy_url (params : Value) : option string :=
  v ← json_get "url" params;
  raw ← as_str v;
  let query :=
    match json_get "query" params with
    | Some (JObject m) =>
        (λ kv : string * Value,
          (kv.1, match as_str kv.2 with Some s => s | None => json_to_string kv.2 end)) <$> m
    | _ => []
    end in
  Some (default "" (effective_url raw query)).

(** [AdmissionQuery::eval_input]. *)
Definition eval_input (q : AdmissionQuery) (url : option string) : EvalInput :=
  {| in_credential_alias := q_credential_alias q;
     in_url := url;
     in_method := v ← json_get "method" (q_params q); as_str v;
     in_action := Some (q_action q);
     in_principal := q_principal q;
     in_spend := q_spend q |}.

(** [AdmissionQuery::subject]. *)
Definition query_subject (q : AdmissionQuery) : option JudgedSubject :=
  d ← digest_params (q_params q);
  Some {| js_credential := q_credential_alias q;
          js_principal := match q_principal q with Some p => principal_id p | None => "" end;
          js_params_digest := d |}.

(** [PolicyEngine::evaluate_for_admission]. *)
Definition evaluate_for_admission (e : PolicyEngine) (q : AdmissionQuery)
    (observe_tenant : bool) : Evaluation * PolicyEngine :=
  let input := eval_input q (policy_url (q_params q)) in
  let '(d, cause, c) :=
    evaluate_inner input (policies e) (default_deny e) true (counters e) in
  ({| ev_decision := d;
      ev_observe_downgrade :=
        is_deny d && observe_tenant
        && negb (is_halted (policies e) input) && negb (has_resource_guard (policies e) input);
      ev_subject := query_subject q;
      ev_deny_cause := cause |}, set_counters e c).

(** [PolicyEngine::evaluate_readonly_for_admission]. *)
Definition evaluate_readonly_for_admission (e : PolicyEngine) (q : AdmissionQuery)
  : Evaluation * PolicyEngine :=
  let input := eval_input q (policy_url (q_params q)) in
  let '(d, cause, c) :=
    evaluate_inner input (policies e) (default_deny e) false (counters e) in
  ({| ev_decision := d; ev_observe_downgrade := false;
      ev_subject := query_subject q; ev_deny_cause := cause |}, set_counters e c).

(** [PolicyEngine::record_request]: the rate-limit rules of one policy, then all
    policies. *)
Fixpoint record_rules (alias : string) (rs : list PolicyRule) : st EngineState unit :=
  match rs with
  | [] => st_ret tt
  | r :: rs' =>
      let! _ := (match condition r with
                 | RateLimit max window_secs =>
                     check_rate_limit clk alias None max window_secs
                 | _ => st_ret true
                 end) in
      record_rules alias rs'
  end.

Definition record_request (e : PolicyEngine) (alias : string) : PolicyEngine :=
  let rs := List.filter (λ p, credential_matches (credential_pattern p) alias) (policies e)
              ≫= rules in
  set_counters e (record_rules alias rs (counters e)).2.

End with_crates.
