(* ===== verification/PolicyEngineFacts.v ===== *)
(** * Properties of the policy engine

    Theorems about the definitions of [PolicyEngine.v].  [denote] is the reference
    semantics of a condition: no short-circuiting, no state, a fixed local time.
    [readonly_spec] is the reference decision built from it. *)

From stdpp Require Import base gmap strings list.
From Stdlib Require Import Ascii ZArith Lia.
From S2P Require Import Prelude RustStr PolicyTypes Precedence UrlCanon RateLimit Json Kernel.
From S2P Require Import PolicyEngine.

Section facts.
Context {UC : UrlCrate} {GC : GlobCrate} {EC : UrlEncodingCrate}.
Context {SJ : SerdeJson} {SH : Sha256}.
Context (clk : Clock).

(** ** Reference semantics of conditions *)

Fixpoint denote (input : EvalInput) (t : NaiveTime) (record : bool) (c : PolicyCondition)
  : bool * bool :=
  match c with
  | UrlMatch pattern =>
      match in_url input with
      | Some u => (url_matches_for u pattern false, url_matches_for u pattern true)
      | None => (false, false)
      end
  | MethodMatch methods =>
      same (match in_method input with
            | Some m => existsb (λ x, eq_ignore_ascii_case x m) methods
            | None => false
            end)
  | ActionMatch pattern =>
      same (match in_action input with
            | Some a => match glob_new pattern with Some g => g a | None => String.eqb pattern a end
            | None => false
            end)
  | TimeWindow start stop => same (in_time_window t start stop)
  | RateLimit _ _ => same true
  | SpendCap asset cap => same (spend_within_cap (in_spend input) asset cap record)
  | And cs => (forallb (λ c, (denote input t record c).1) cs,
               forallb (λ c, (denote input t record c).2) cs)
  | Or cs => (existsb (λ c, (denote input t record c).1) cs,
              existsb (λ c, (denote input t record c).2) cs)
  | Not c => (negb (denote input t record c).2, negb (denote input t record c).1)
  | Always => (true, true)
  end.

Section with_input.
Context (input : EvalInput).

(** The pair [p] agrees with [d] on the components [want] asks for. *)
Definition agrees (want : Want) (p d : bool * bool) : Prop :=
  (want_narrow want = true → p.1 = d.1) ∧ (want_wide want = true → p.2 = d.2).

(** A condition whose evaluation does not depend on the counters. *)
Definition pure_cond (record : bool) (c : PolicyCondition) : Prop :=
  record = false ∨ condition_contains_rate_limit c = false.

Lemma pure_cond_list record cs (k : list PolicyCondition → PolicyCondition) :
  (∀ cs, condition_contains_rate_limit (k cs) = existsb condition_contains_rate_limit cs) →
  pure_cond record (k cs) → Forall (pure_cond record) cs.
Proof.
  intros Hk [->|H]; apply Forall_forall; intros c Hc; [by left|right].
  rewrite Hk, existsb_false_elem_of in H. auto.
Qed.

Lemma and_loop_agrees eval want (d : PolicyCondition → bool * bool) cs acc s m0 :
  (∀ c s, c ∈ cs → rate_limits s = m0 →
     agrees want (eval c s).1 (d c) ∧ rate_limits (eval c s).2 = m0) →
  rate_limits s = m0 →
  agrees want (and_loop eval want acc cs s).1
    (acc.1 && forallb (λ c, (d c).1) cs, acc.2 && forallb (λ c, (d c).2) cs)
  ∧ rate_limits (and_loop eval want acc cs s).2 = m0.
Proof.
  revert acc s. induction cs as [|c cs IH]; intros acc s Hev Hs; simpl.
  { rewrite !andb_true_r. by destruct acc. }
  destruct (eval c s) as [r s'] eqn:E.
  destruct (Hev c s ltac:(constructor) Hs) as [[Hn Hw] Hs']. rewrite E in Hn, Hw, Hs'.
  simpl in *.
  destruct (negb _) eqn:Eb; simpl.
  - split; [|done]. unfold agrees. clear IH Hev E.
    destruct (want_narrow want), (want_wide want), acc as [[] []], r as [[] []];
      simpl in *; try done; split; intros Hx; try done;
      first [by rewrite <- Hn|by rewrite <- Hw].
  - destruct (IH (acc.1 && r.1, acc.2 && r.2) s') as [[Hn' Hw'] Hs'']; [|done|].
    { intros c' s'' Hc'. apply Hev. by constructor. }
    split; [|done]. simpl in *. split; intros Hwant; simpl.
    + rewrite Hn', Hn by done. by rewrite andb_assoc.
    + rewrite Hw', Hw by done. by rewrite andb_assoc.
Qed.

Lemma or_loop_agrees eval want (d : PolicyCondition → bool * bool) cs acc s m0 :
  (∀ c s, c ∈ cs → rate_limits s = m0 →
     agrees want (eval c s).1 (d c) ∧ rate_limits (eval c s).2 = m0) →
  rate_limits s = m0 →
  agrees want (or_loop eval want acc cs s).1
    (acc.1 || existsb (λ c, (d c).1) cs, acc.2 || existsb (λ c, (d c).2) cs)
  ∧ rate_limits (or_loop eval want acc cs s).2 = m0.
Proof.
  revert acc s. induction cs as [|c cs IH]; intros acc s Hev Hs; simpl.
  { rewrite !orb_false_r. by destruct acc. }
  destruct (eval c s) as [r s'] eqn:E.
  destruct (Hev c s ltac:(constructor) Hs) as [[Hn Hw] Hs']. rewrite E in Hn, Hw, Hs'.
  simpl in *.
  destruct ((negb _ || _) && _) eqn:Eb; simpl.
  - split; [|done]. unfold agrees. clear IH Hev E.
    destruct (want_narrow want), (want_wide want), acc as [[] []], r as [[] []];
      simpl in *; try done; split; intros Hx; try done;
      first [by rewrite <- Hn|by rewrite <- Hw].
  - destruct (IH (acc.1 || r.1, acc.2 || r.2) s') as [[Hn' Hw'] Hs'']; [|done|].
    { intros c' s'' Hc'. apply Hev. by constructor. }
    split; [|done]. simpl in *. split; intros Hwant; simpl.
    + rewrite Hn', Hn by done. by rewrite orb_assoc.
    + rewrite Hw', Hw by done. by rewrite orb_assoc.
Qed.

(** The short-circuiting evaluator agrees with the reference semantics on the
    components that are asked for, and leaves every counter alone, for read-only
    evaluation and for conditions without rate limits. *)
Lemma eval_pair_denote t c record want s :
  (∀ n, local_time clk n = t) → pure_cond record c →
  agrees want (eval_pair clk input c record want s).1 (denote input t record c)
  ∧ rate_limits (eval_pair clk input c record want s).2 = rate_limits s.
Proof.
  intros Ht. revert want s.
  induction c as [u|ms|a|t1 t2|m w|a m|cs IH|cs IH|c IH|] using condition_tree_ind;
    intros want s Hp; simpl.
  - destruct (in_url input) as [u'|]; [|done]. split; [|done]. split; [done|]. simpl. intros _.
    destruct (url_matches_for u' u false) eqn:E; [|done].
    symmetry. by apply url_matches_broaden.
  - done.
  - done.
  - by rewrite Ht.
  - destruct Hp as [->|?]; done.
  - done.
  - apply (pure_cond_list _ _ And) in Hp; [|done].
    rewrite Forall_forall in IH, Hp.
    apply (and_loop_agrees _ _ _ _ (true, true)); [|done].
    intros c s' Hc <-. by apply IH, Hp.
  - apply (pure_cond_list _ _ Or) in Hp; [|done].
    rewrite Forall_forall in IH, Hp.
    apply (or_loop_agrees _ _ _ _ (false, false)); [|done].
    intros c s' Hc <-. by apply IH, Hp.
  - specialize (IH {| want_narrow := want_wide want; want_wide := want_narrow want |} s Hp).
    destruct (eval_pair clk input c record _ s) as [r s']. simpl in *.
    destruct IH as [[Hn Hw] Hs]. simpl in *. split; [|done].
    split; simpl; intros H; [by rewrite Hw|by rewrite Hn].
  - done.
Qed.

(** At every node and in every state, the exact reading implies the broadened
    one. *)
Lemma and_loop_ordered eval want acc cs s :
  (∀ c s, c ∈ cs → (eval c s).1.1 = true → (eval c s).1.2 = true) →
  (acc.1 = true → acc.2 = true) →
  (and_loop eval want acc cs s).1.1 = true → (and_loop eval want acc cs s).1.2 = true.
Proof.
  revert acc s. induction cs as [|c cs IH]; intros acc s Hev Hacc; simpl; [done|].
  destruct (eval c s) as [r s'] eqn:E.
  pose proof (Hev c s ltac:(constructor)) as Hr. rewrite E in Hr. simpl in Hr.
  assert (Hacc' : acc.1 && r.1 = true → acc.2 && r.2 = true).
  { rewrite !andb_true_iff. naive_solver. }
  destruct (negb _); simpl; [done|]. apply IH; [|done].
  intros c' s'' Hc'. apply Hev. by constructor.
Qed.

Lemma or_loop_ordered eval want acc cs s :
  (∀ c s, c ∈ cs → (eval c s).1.1 = true → (eval c s).1.2 = true) →
  (acc.1 = true → acc.2 = true) →
  (or_loop eval want acc cs s).1.1 = true → (or_loop eval want acc cs s).1.2 = true.
Proof.
  revert acc s. induction cs as [|c cs IH]; intros acc s Hev Hacc; simpl; [done|].
  destruct (eval c s) as [r s'] eqn:E.
  pose proof (Hev c s ltac:(constructor)) as Hr. rewrite E in Hr. simpl in Hr.
  assert (Hacc' : acc.1 || r.1 = true → acc.2 || r.2 = true).
  { rewrite !orb_true_iff. naive_solver. }
  destruct (_ && _); simpl; [done|]. apply IH; [|done].
  intros c' s'' Hc'. apply Hev. by constructor.
Qed.

End with_input.

(** The exact reading of a condition implies its broadened reading, for every
    condition, state, clock and choice of wanted components. *)
Theorem eval_pair_narrow_implies_wide input c record want s :
  (eval_pair clk input c record want s).1.1 = true →
  (eval_pair clk input c record want s).1.2 = true.
Proof.
  revert want s.
  induction c as [u|ms|a|t1 t2|m w|a m|cs IH|cs IH|c IH|] using condition_tree_ind;
    intros want s; cbn [eval_pair st_ret same fst snd]; try done.
  - destruct (in_url input); [|done]. simpl. by intros ->.
  - destruct record; [|done]. unfold st_bind. by destruct (check_rate_limit _ _ _ _ _ _).
  - rewrite Forall_forall in IH. apply and_loop_ordered; [|done].
    intros c s' Hc. by apply IH.
  - rewrite Forall_forall in IH. apply or_loop_ordered; [|done].
    intros c s' Hc. by apply IH.
  - specialize (IH {| want_narrow := want_wide want; want_wide := want_narrow want |} s).
    unfold st_bind. destruct (eval_pair clk input c record _ s) as [[n w] s']. simpl in *.
    rewrite !negb_true_iff. intros ->. by destruct n; [specialize (IH eq_refl)|].
Qed.

(** The evaluator against the reference semantics, lemma form. *)
Lemma eval_pair_ref input t c record s :
  (∀ n, local_time clk n = t) → pure_cond record c →
  (eval_pair clk input c record NARROW s).1.1 = (denote input t record c).1
  ∧ (eval_pair clk input c record WIDE s).1.2 = (denote input t record c).2
  ∧ ∀ want, rate_limits (eval_pair clk input c record want s).2 = rate_limits s.
Proof.
  intros Ht Hp. split_and!.
  - by apply (eval_pair_denote input t c record NARROW s Ht Hp).
  - by apply (eval_pair_denote input t c record WIDE s Ht Hp).
  - intros want. by apply (eval_pair_denote input t c record want s Ht Hp).
Qed.

(** The optimised evaluator computes the reference semantics: on read-only
    evaluation, and on conditions without a rate limit, at a fixed local time. *)
Theorem eval_pair_refines_denote input t c record s :
  (∀ n, local_time clk n = t) → pure_cond record c →
  (eval_pair clk input c record NARROW s).1.1 = (denote input t record c).1
  ∧ (eval_pair clk input c record WIDE s).1.2 = (denote input t record c).2
  ∧ ∀ want, rate_limits (eval_pair clk input c record want s).2 = rate_limits s.
Proof. apply eval_pair_ref. Qed.

(** ** Splitting off the top-level rate limits *)

Definition rest_of (c : PolicyCondition) : list PolicyCondition :=
  (split_rate_limits c ([], [])).1.
Definition limits_of (c : PolicyCondition) : list (Z * Z) :=
  (split_rate_limits c ([], [])).2.

Lemma split_rate_limits_acc c acc :
  split_rate_limits c acc = (acc.1 ++ rest_of c, acc.2 ++ limits_of c).
Proof.
  unfold rest_of, limits_of. revert acc.
  induction c as [u|ms|a|t1 t2|m w|a m|cs IH|cs IH|c IH|] using condition_tree_ind;
    intros [l1 l2]; simpl; rewrite ?app_nil_r; try done.
  assert (Hf : ∀ a b : list PolicyCondition * list (Z * Z),
    foldl (λ acc child, split_rate_limits child acc) (a.1 ++ b.1, a.2 ++ b.2) cs
    = (a.1 ++ (foldl (λ acc child, split_rate_limits child acc) b cs).1,
       a.2 ++ (foldl (λ acc child, split_rate_limits child acc) b cs).2)).
  { induction IH as [|c cs Hc _ IHcs]; intros a b; simpl; [done|].
    rewrite (Hc (a.1 ++ b.1, _)), (Hc b). simpl. rewrite <- !app_assoc.
    apply (IHcs a (b.1 ++ _, b.2 ++ _)). }
  specialize (Hf (l1, l2) ([], [])). simpl in Hf. by rewrite !app_nil_r in Hf.
Qed.

Lemma split_and_cons c cs :
  rest_of (And (c :: cs)) = rest_of c ++ rest_of (And cs)
  ∧ limits_of (And (c :: cs)) = limits_of c ++ limits_of (And cs).
Proof.
  unfold rest_of at 1, limits_of at 1. simpl.
  rewrite (surjective_pairing (split_rate_limits c ([], []))).
  change (split_rate_limits c ([], [])).1 with (rest_of c).
  change (split_rate_limits c ([], [])).2 with (limits_of c).
  change (foldl _ (rest_of c, limits_of c) cs)
    with (split_rate_limits (And cs) (rest_of c, limits_of c)).
  by rewrite split_rate_limits_acc.
Qed.

(** The conditions that remain decide the rule; the split-off limits are exactly
    the rate limits that [And] alone leads to. *)
Lemma rest_of_denote input t record c :
  forallb (λ c, (denote input t record c).1) (rest_of c) = (denote input t record c).1.
Proof.
  induction c as [u|ms|a|t1 t2|m w|a m|cs IH|cs IH|c IH|] using condition_tree_ind;
    try (cbn [rest_of split_rate_limits fst app forallb]; by rewrite andb_true_r).
  - done.
  - induction IH as [|c cs Hc _ IHcs]; [done|].
    destruct (split_and_cons c cs) as [-> _]. rewrite forallb_app, Hc, IHcs. done.
Qed.

(** ** Deny and prompt tiers *)

Section tiers.
Context (input : EvalInput) (t : NaiveTime).
Hypothesis Ht : ∀ n, local_time clk n = t.

Definition narrow (record : bool) (r : PolicyRule) : bool :=
  (denote input t record (condition r)).1.
Definition wide (record : bool) (r : PolicyRule) : bool :=
  (denote input t record (condition r)).2.
Definition has_act (a : PolicyAction) (r : PolicyRule) : bool := bool_decide (action r = a).

(** A prompt rule that the broadened reading alone makes match. *)
Definition broadened (r : PolicyRule) : bool :=
  match condition r with SpendCap _ _ => false | _ => wide false r end.

(** The rules of action [a] do not touch the counters. *)
Definition pure_tier (record : bool) (a : PolicyAction) (rs : list PolicyRule) : Prop :=
  ∀ r, r ∈ rs → action r = a → pure_cond record (condition r).

(** Two evaluation states that differ at most in clock reads. *)
Definition same_counters (s s' : EvalState) : Prop :=
  rate_limits (es_engine s') = rate_limits (es_engine s)
  ∧ es_guard_hint s' = es_guard_hint s.

Lemma tier_rule_deny record r s :
  action r = PA_Deny → pure_cond record (condition r) →
  (tier_rule_matches clk input record r s).1 = wide record r
  ∧ same_counters s (tier_rule_matches clk input record r s).2
  ∧ es_broadened_prompt (tier_rule_matches clk input record r s).2 = es_broadened_prompt s.
Proof.
  intros Ha Hp. unfold tier_rule_matches, wide.
  destruct (eval_pair_ref input t (condition r) record (es_engine s) Ht Hp)
    as (_ & Hw & Hs).
  destruct (condition r); try done; rewrite Ha; unfold st_bind, on_engine, st_ret;
    specialize (Hs WIDE); destruct (eval_pair _ _ _ _ _ _) as [[] ?]; simpl in *; done.
Qed.

Lemma prompt_rule_step record c s :
  pure_cond record c →
  let m := (let! n := on_engine (eval_pair clk input c record NARROW) in
            if n.1 then st_ret true
            else
              let! w := on_engine (eval_pair clk input c false WIDE) in
              let! _ := (if w.2 then set_broadened_prompt else st_ret tt) in
              st_ret false) s in
  m.1 = (denote input t record c).1 ∧ same_counters s m.2
  ∧ es_broadened_prompt m.2
    = es_broadened_prompt s || negb (denote input t record c).1 && (denote input t false c).2.
Proof.
  intros Hp. unfold st_bind, on_engine, st_ret, same_counters.
  destruct (eval_pair_ref input t c record (es_engine s) Ht Hp) as (Hn & _ & Hs).
  specialize (Hs NARROW).
  destruct (eval_pair clk input c record NARROW _) as [[n w] e1]. simpl in Hn, Hs. subst n.
  destruct (denote input t record c).1; simpl; [by rewrite orb_false_r|].
  destruct (eval_pair_ref input t c false e1 Ht) as (_ & Hw & Hs'); [by left|].
  specialize (Hs' WIDE).
  destruct (eval_pair clk input c false WIDE e1) as [[n2 w2] e2]. simpl in Hw, Hs'. subst w2.
  destruct (denote input t false c).2; simpl; rewrite ?orb_true_r, ?orb_false_r;
    split_and!; congruence.
Qed.

Lemma tier_rule_prompt record r s :
  action r = PA_Prompt → pure_cond record (condition r) →
  (tier_rule_matches clk input record r s).1 = narrow record r
  ∧ same_counters s (tier_rule_matches clk input record r s).2
  ∧ es_broadened_prompt (tier_rule_matches clk input record r s).2
    = es_broadened_prompt s || negb (narrow record r) && broadened r.
Proof.
  intros Ha Hp. unfold tier_rule_matches, narrow, broadened, wide.
  destruct (condition r) eqn:Hc; try (rewrite Ha; by apply prompt_rule_step).
  simpl. by rewrite andb_false_r, orb_false_r.
Qed.

Lemma same_counters_trans s1 s2 s3 :
  same_counters s1 s2 → same_counters s2 s3 → same_counters s1 s3.
Proof. unfold same_counters. intros [-> ->] [-> ->]. done. Qed.

(** The deny tier: some deny rule matches in its broadened reading. *)
Lemma scan_rules_deny record name rs s :
  pure_tier record PA_Deny rs →
  (scan_rules clk input record PA_Deny name rs s).1
    = existsb (λ r, has_act PA_Deny r && wide record r) rs
  ∧ same_counters s (scan_rules clk input record PA_Deny name rs s).2
  ∧ es_broadened_prompt (scan_rules clk input record PA_Deny name rs s).2
    = es_broadened_prompt s.
Proof.
  revert s. induction rs as [|r rs IH]; intros s Hp; simpl; [done|].
  assert (Hp' : pure_tier record PA_Deny rs) by (intros x Hx; apply Hp; by constructor).
  unfold has_act at 1. destruct (decide (action r = PA_Deny)) as [Ha|Ha].
  - rewrite (bool_decide_false (action r ≠ PA_Deny)) by naive_solver.
    rewrite (bool_decide_true (action r = PA_Deny)) by done.
    destruct (tier_rule_deny record r s Ha) as (H1 & H2 & H3);
      [apply Hp; [constructor|done]|].
    unfold st_bind, st_ret.
    destruct (tier_rule_matches clk input record r s) as [m s']. simpl in *. subst m.
    destruct (wide record r); simpl; [split_and!; [done|exact H2|exact H3]|].
    destruct (IH s' Hp') as (I1 & I2 & I3). rewrite I1, I3, H3. split_and!; [done| |done].
    by eapply same_counters_trans.
  - rewrite bool_decide_true, bool_decide_false by done. by apply IH.
Qed.

(** The prompt tier: some prompt rule matches exactly; if none does, the broadened
    flag records whether one matches broadened. *)
Lemma scan_rules_prompt record name rs s :
  pure_tier record PA_Prompt rs →
  let s' := (scan_rules clk input record PA_Prompt name rs s).2 in
  (scan_rules clk input record PA_Prompt name rs s).1
    = existsb (λ r, has_act PA_Prompt r && narrow record r) rs
  ∧ same_counters s s'
  ∧ (existsb (λ r, has_act PA_Prompt r && narrow record r) rs = false →
     es_broadened_prompt s'
     = es_broadened_prompt s || existsb (λ r, has_act PA_Prompt r && broadened r) rs).
Proof.
  revert s. induction rs as [|r rs IH]; intros s Hp; simpl; [by rewrite orb_false_r|].
  assert (Hp' : pure_tier record PA_Prompt rs) by (intros x Hx; apply Hp; by constructor).
  unfold has_act at 1 3 5. destruct (decide (action r = PA_Prompt)) as [Ha|Ha].
  - rewrite bool_decide_false, !bool_decide_true by naive_solver.
    destruct (tier_rule_prompt record r s Ha) as (H1 & H2 & H3);
      [apply Hp; [constructor|done]|].
    unfold st_bind, st_ret.
    destruct (tier_rule_matches clk input record r s) as [m s']. simpl in *. subst m.
    destruct (narrow record r); simpl; [done|].
    destruct (IH s' Hp') as (I1 & I2 & I3). rewrite I1. split_and!; [done| |].
    + by eapply same_counters_trans.
    + intros Hf. rewrite I3, H3 by done. simpl. by rewrite orb_assoc.
  - rewrite bool_decide_true, !bool_decide_false by done. by apply IH.
Qed.

Definition all_rules (ps : list Policy) : list PolicyRule := ps ≫= rules.

Lemma pure_tier_app record a rs rs' :
  pure_tier record a (rs ++ rs') ↔ pure_tier record a rs ∧ pure_tier record a rs'.
Proof. unfold pure_tier. setoid_rewrite elem_of_app. naive_solver. Qed.

Lemma scan_policies_deny record ps s :
  pure_tier record PA_Deny (all_rules ps) →
  (scan_policies clk input record PA_Deny ps s).1
    = existsb (λ r, has_act PA_Deny r && wide record r) (all_rules ps)
  ∧ same_counters s (scan_policies clk input record PA_Deny ps s).2
  ∧ es_broadened_prompt (scan_policies clk input record PA_Deny ps s).2
    = es_broadened_prompt s.
Proof.
  revert s. induction ps as [|p ps IH]; intros s Hp; cbn [scan_policies]; [done|].
  unfold all_rules in *. rewrite bind_cons in *. apply pure_tier_app in Hp as [Hp1 Hp2].
  destruct (scan_rules_deny record (policy_name p) (rules p) s Hp1) as (H1 & H2 & H3).
  unfold st_bind. destruct (scan_rules _ _ _ _ _ _ _) as [m s']. simpl in *. subst m.
  rewrite existsb_app. destruct (existsb _ (rules p)); simpl; [done|].
  destruct (IH s' Hp2) as (I1 & I2 & I3). rewrite I1, I3, H3. split_and!; [done| |done].
  by eapply same_counters_trans.
Qed.

Lemma scan_policies_prompt record ps s :
  pure_tier record PA_Prompt (all_rules ps) →
  let s' := (scan_policies clk input record PA_Prompt ps s).2 in
  (scan_policies clk input record PA_Prompt ps s).1
    = existsb (λ r, has_act PA_Prompt r && narrow record r) (all_rules ps)
  ∧ same_counters s s'
  ∧ (existsb (λ r, has_act PA_Prompt r && narrow record r) (all_rules ps) = false →
     es_broadened_prompt s'
     = es_broadened_prompt s
       || existsb (λ r, has_act PA_Prompt r && broadened r) (all_rules ps)).
Proof.
  revert s. induction ps as [|p ps IH]; intros s Hp; cbn [scan_policies].
  { simpl. by rewrite orb_false_r. }
  unfold all_rules in *. rewrite bind_cons in *. apply pure_tier_app in Hp as [Hp1 Hp2].
  destruct (scan_rules_prompt record (policy_name p) (rules p) s Hp1) as (H1 & H2 & H3).
  unfold st_bind. destruct (scan_rules _ _ _ _ _ _ _) as [m s']. simpl in H1, H2, H3. subst m.
  rewrite !existsb_app. destruct (existsb (λ r, _ && narrow _ _) (rules p)); simpl; [done|].
  destruct (IH s' Hp2) as (I1 & I2 & I3). rewrite I1. split_and!; [done| |].
  - by eapply same_counters_trans.
  - intros Hf. rewrite I3, H3 by done. by rewrite orb_assoc.
Qed.

End tiers.

End facts.
