(* ===== verification/PolicyDecision.v ===== *)
(** * The decision of the policy engine

    The allow tier and the whole of [evaluate_inner] against a reference decision,
    and the theorems a reader of a policy relies on: a kill always denies, an
    explicit deny beats everything but a kill, the order of the policies does not
    matter, an allow respects every cap that applies, a denied request charges
    nothing, and the composition with the permit kernel. *)

From stdpp Require Import base gmap strings list.
From Stdlib Require Import Ascii ZArith Lia.
From S2P Require Import Prelude RustStr PolicyTypes Precedence UrlCanon RateLimit Json Kernel.
From S2P Require Import PolicyEngine PolicyEngineFacts.

Section decision.
Context {UC : UrlCrate} {GC : GlobCrate} {EC : UrlEncodingCrate}.
Context {SJ : SerdeJson} {SH : Sha256}.
Context (clk : Clock).

(** ** The allow tier *)

Lemma push_guards_spec gs ls :
  NoDup gs →
  NoDup (push_guards gs ls) ∧ ∀ g, g ∈ push_guards gs ls ↔ g ∈ gs ∨ g ∈ ls.
Proof.
  revert gs. induction ls as [|l ls IH]; intros gs Hnd; simpl.
  - split; [done|]. intros g. split; [by left|]. intros [?|H]; [done|by apply elem_of_nil in H].
  - case_bool_decide as Hin.
    + destruct (IH gs Hnd) as [H1 H2]. split; [done|]. intros g. rewrite H2, elem_of_cons.
      naive_solver.
    + destruct (IH (gs ++ [l])) as [H1 H2].
      { apply NoDup_app. split_and!; [done| |apply NoDup_singleton].
        intros x Hx ->%list_elem_of_singleton. done. }
      split; [done|]. intros g. rewrite H2, elem_of_app, list_elem_of_singleton, elem_of_cons.
      naive_solver.
Qed.

Section tier.
Context (input : EvalInput) (t : NaiveTime).
Hypothesis Ht : ∀ n, local_time clk n = t.

(** An allow rule whose conditions, apart from its top-level limits, do not touch
    the counters. *)
Definition flat_allow (record : bool) (rs : list PolicyRule) : Prop :=
  ∀ r, r ∈ rs → action r = PA_Allow → Forall (pure_cond record) (rest_of (condition r)).

(** The allow rules that match. *)
Definition allow_match (record : bool) (r : PolicyRule) : bool :=
  has_act PA_Allow r && narrow input t record r.

Lemma all_narrow_spec record cs s :
  Forall (pure_cond record) cs →
  (all_narrow clk input record cs s).1 = forallb (λ c, (denote input t record c).1) cs
  ∧ rate_limits (all_narrow clk input record cs s).2 = rate_limits s.
Proof.
  intros Hp. revert s. induction Hp as [|c cs Hc _ IH]; intros s; cbn [all_narrow forallb]; [done|].
  destruct (eval_pair_ref clk input t c record s Ht Hc) as (Hn & _ & Hs).
  specialize (Hs NARROW). unfold st_bind.
  destruct (eval_pair clk input c record NARROW s) as [p s']. simpl in Hn, Hs. rewrite Hn.
  destruct (denote input t record c).1; simpl; [|done].
  destruct (IH s') as [H1 H2]. by rewrite H1, H2, Hs.
Qed.

Lemma allow_rule_spec record acc r s :
  flat_allow record [r] →
  let m := allow_rule clk input record acc r s in
  m.1 = (acc.1 || allow_match record r,
         if allow_match record r then push_guards acc.2 (limits_of (condition r)) else acc.2)
  ∧ rate_limits (es_engine m.2) = rate_limits (es_engine s)
  ∧ es_broadened_prompt m.2 = es_broadened_prompt s.
Proof.
  intros Hf. unfold allow_rule, allow_match, has_act.
  destruct (decide (action r = PA_Allow)) as [Ha|Ha].
  2:{ rewrite (bool_decide_true (action r ≠ PA_Allow)) by done.
      rewrite (bool_decide_false (action r = PA_Allow)) by done. simpl.
      rewrite orb_false_r. by destruct acc. }
  rewrite (bool_decide_false (action r ≠ PA_Allow)) by naive_solver.
  rewrite (bool_decide_true (action r = PA_Allow)) by done. simpl.
  specialize (Hf r ltac:(constructor) Ha). unfold narrow.
  assert (Hgen : ∀ c, c = condition r →
    let m := (let '(rest, limits) := split_rate_limits c ([], []) in
       let! ok := on_engine (all_narrow clk input record rest) in
       if ok then st_ret (true, push_guards acc.2 limits) else st_ret acc) s in
    m.1 = (acc.1 || (denote input t record c).1,
           if (denote input t record c).1 then push_guards acc.2 (limits_of c) else acc.2)
    ∧ rate_limits (es_engine m.2) = rate_limits (es_engine s)
    ∧ es_broadened_prompt m.2 = es_broadened_prompt s).
  { intros c ->. rewrite (surjective_pairing (split_rate_limits (condition r) ([], []))).
    fold (rest_of (condition r)). fold (limits_of (condition r)).
    unfold st_bind, on_engine, st_ret.
    destruct (all_narrow_spec record _ (es_engine s) Hf) as [H1 H2].
    rewrite rest_of_denote in H1.
    destruct (all_narrow clk input record (rest_of (condition r)) (es_engine s)) as [ok e].
    simpl in H1, H2. subst ok.
    destruct (denote input t record (condition r)).1; simpl;
      rewrite ?orb_true_r, ?orb_false_r; by destruct acc. }
  destruct (condition r) eqn:Hc; try exact (Hgen _ eq_refl).
  simpl. destruct (spend_within_cap _ _ _ _); simpl;
    rewrite ?orb_true_r, ?orb_false_r; by destruct acc.
Qed.

Lemma allow_rules_spec record acc rs s :
  flat_allow record rs → NoDup acc.2 →
  let m := allow_rules clk input record acc rs s in
  m.1.1 = acc.1 || existsb (allow_match record) rs
  ∧ NoDup m.1.2
  ∧ (∀ g, g ∈ m.1.2 ↔ g ∈ acc.2 ∨ ∃ r, r ∈ rs ∧ allow_match record r = true
                                     ∧ g ∈ limits_of (condition r))
  ∧ rate_limits (es_engine m.2) = rate_limits (es_engine s)
  ∧ es_broadened_prompt m.2 = es_broadened_prompt s.
Proof.
  revert acc s. induction rs as [|r rs IH]; intros acc s Hf Hnd; cbn [allow_rules].
  { simpl. rewrite orb_false_r. split_and!; try done. intros g. split; [by left|].
    intros [?|(r & Hr & _)]; [done|by apply elem_of_nil in Hr]. }
  destruct (allow_rule_spec record acc r s) as (H1 & H2 & H3).
  { intros x Hx%list_elem_of_singleton. subst x. apply Hf. constructor. }
  unfold st_bind. destruct (allow_rule clk input record acc r s) as [acc' s'].
  simpl in H1, H2, H3. subst acc'.
  destruct (push_guards_spec acc.2 (limits_of (condition r)) Hnd) as [Hp1 Hp2].
  destruct (IH (acc.1 || allow_match record r, if allow_match record r
      then push_guards acc.2 (limits_of (condition r)) else acc.2) s')
    as (I1 & I2 & I3 & I4 & I5).
  { intros x Hx. apply Hf. by constructor. }
  { simpl. by destruct (allow_match record r). }
  simpl in I1. rewrite I1, I4, I5, H2, H3. simpl. rewrite orb_assoc.
  split_and!; [done..| |done|done]. intros g. rewrite I3. simpl.
  assert (Hg : g ∈ (if allow_match record r
      then push_guards acc.2 (limits_of (condition r)) else acc.2)
      ↔ g ∈ acc.2 ∨ (allow_match record r = true ∧ g ∈ limits_of (condition r))).
  { destruct (allow_match record r); [rewrite Hp2|]; intuition congruence. }
  rewrite Hg. split.
  - intros [[?|[? ?]]|(r' & ? & ?)]; [by left|right; exists r|right; exists r'];
      rewrite elem_of_cons; auto.
  - intros [?|(r' & [->|?]%elem_of_cons & ? & ?)]; eauto.
Qed.

(** The guard set a request is charged against: the top-level limits of every
    allow rule that matches. *)
Definition is_guard_set (record : bool) (rs : list PolicyRule) (guards : list (Z * Z)) : Prop :=
  NoDup guards ∧
  ∀ g, g ∈ guards ↔ ∃ r, r ∈ rs ∧ allow_match record r = true ∧ g ∈ limits_of (condition r).

Lemma allow_tier_spec record ps s :
  flat_allow record (all_rules ps) →
  ∃ guards n, is_guard_set record (all_rules ps) guards ∧
  let m := allow_tier_matches clk input ps record s in
  let charged := charge_rate_limits clk (in_credential_alias input)
                   (rate_limit_principal <$> in_principal input) guards
                   {| rate_limits := rate_limits (es_engine s); reads := n |} in
  let must_charge := negb (bool_decide (guards = [])) && record in
  m.1 = existsb (allow_match record) (all_rules ps)
        && (if must_charge then charged.1 else true)
  ∧ rate_limits (es_engine m.2)
    = (if existsb (allow_match record) (all_rules ps) && must_charge
       then rate_limits charged.2 else rate_limits (es_engine s))
  ∧ es_broadened_prompt m.2 = es_broadened_prompt s.
Proof.
  intros Hf. unfold allow_tier_matches. fold (all_rules ps).
  destruct (allow_rules_spec record (false, []) (all_rules ps) s Hf) as (H1 & H2 & H3 & H4 & H5);
    [constructor|].
  unfold st_bind.
  destruct (allow_rules clk input record (false, []) (all_rules ps) s) as [[matched guards] s1].
  simpl in H1, H2, H3, H4, H5. subst matched.
  exists guards, (reads (es_engine s1)). split.
  { split; [done|]. intros g. rewrite H3. split; [intros [Hn|?]; [by apply elem_of_nil in Hn|done]|by right]. }
  simpl. destruct (existsb (allow_match record) (all_rules ps)); simpl; [|split_and!; done].
  destruct (bool_decide (guards = [])); simpl; [split_and!; done|].
  destruct record; simpl; [|split_and!; done].
  unfold on_engine.
  replace {| rate_limits := rate_limits (es_engine s); reads := reads (es_engine s1) |}
    with (es_engine s1) by (rewrite <- H4; by destruct (es_engine s1)).
  destruct (charge_rate_limits _ _ _ _ _) as [ok e].
  destruct (negb ok && _); simpl; done.
Qed.

(** ** The whole evaluation *)

Definition matching_policies (ps : list Policy) : list Policy := List.filter (applies input) ps.

(** The evaluation of a set of policies whose rules read the counters only through the
    top-level limits of their allow rules.  The code accepts others too: a limit nested under
    [or] or [not], or in a deny or prompt rule, is evaluated in place, and of two under an
    [or] at most the first with room is charged. *)
Definition counter_flat (record : bool) (ps : list Policy) : Prop :=
  pure_tier record PA_Deny (all_rules ps) ∧ pure_tier record PA_Prompt (all_rules ps)
  ∧ flat_allow record (all_rules ps).

(** The reference verdict, given whether the allow tier admits. *)
Definition spec_verdict (record engine_deny allow : bool) (ms : list Policy) : Verdict :=
  let rs := all_rules ms in
  if existsb kill ms then V_Kill
  else if existsb (λ r, has_act PA_Deny r && wide input t record r) rs then V_Deny
  else if existsb (λ r, has_act PA_Prompt r && narrow input t record r) rs then V_Prompt
  else upgrade_prompt (existsb (λ r, has_act PA_Prompt r && broadened input t r) rs)
         (if allow then V_Allow else resolve_precedence [] (default_action <$> ms) engine_deny).

Lemma resolve_nothing_not_allow ds e : resolve_precedence [] ds e ≠ V_Allow.
Proof. unfold resolve_precedence. destruct ds as [|[] ds], e; simpl; split_ifs; done. Qed.

Lemma upgrade_not_allow b v : v ≠ V_Allow → upgrade_prompt b v ≠ V_Allow.
Proof. by destruct v, b. Qed.

(** The verdict, the counters after it and the decision, in one statement. *)
Lemma evaluate_inner_spec record ps engine_deny s :
  counter_flat record (matching_policies ps) →
  url_precheck input (matching_policies ps) = None →
  let ms := matching_policies ps in
  let A := existsb (allow_match record) (all_rules ms) in
  ∃ guards n, is_guard_set record (all_rules ms) guards ∧
  let charged := charge_rate_limits clk (in_credential_alias input)
                   (rate_limit_principal <$> in_principal input) guards
                   {| rate_limits := rate_limits s; reads := n |} in
  let must_charge := negb (bool_decide (guards = [])) && record in
  let allow := A && (if must_charge then charged.1 else true) in
  let v := spec_verdict record engine_deny allow ms in
  let m := evaluate_inner clk input ps engine_deny record s in
  (∃ dn ddn, m.1.1 = decision_for v dn ddn)
  ∧ (∃ hint, m.1.2 = deny_cause_of hint v)
  ∧ (v = V_Allow → must_charge = true → rate_limits m.2 = rate_limits charged.2)
  ∧ (rate_limits m.2 = rate_limits s
     ∨ (allow = true ∧ must_charge = true ∧ rate_limits m.2 = rate_limits charged.2
        ∧ (v = V_Allow ∨ v = V_Prompt))).
Proof.
  intros (Hd & Hp & Ha) Hu. unfold evaluate_inner. fold (matching_policies ps). rewrite Hu.
  set (ms := matching_policies ps) in *. unfold resolve_lazily, spec_verdict.
  set (s0 := {| es_engine := s; es_deny_policy := None; es_guard_hint := None;
                es_broadened_prompt := false |}).
  destruct (scan_policies_deny clk input t Ht record ms s0 Hd) as (D1 & [D2 _] & D3).
  cbn [resolve_tiers tier_matched]. unfold st_bind, st_ret.
  destruct (scan_policies clk input record PA_Deny ms s0) as [bd s1] eqn:E1.
  simpl in D1, D2, D3. subst bd.
  destruct (scan_policies_prompt clk input t Ht record ms s1 Hp) as (P1 & [P2 _] & P3).
  destruct (scan_policies clk input record PA_Prompt ms s1) as [bp s2] eqn:E2.
  cbn [fst snd] in P1, P2, P3. subst bp. rewrite D3 in P3. simpl in P3.
  destruct (allow_tier_spec record ms s2 Ha) as (guards & n & Hg & A1 & A2 & A3).
  assert (Hr2 : rate_limits (es_engine s2) = rate_limits s) by (by rewrite P2, D2).
  rewrite Hr2 in A1, A2.
  exists guards, n. split; [done|]. simpl.
  set (charged := charge_rate_limits _ _ _ _ _) in *.
  destruct (existsb kill ms) eqn:Ek; simpl.
  { split_and!; [by exists "", ""|by exists None|done|by left]. }
  rewrite E1. destruct (existsb (λ r, _ && wide _ _ _ _) (all_rules ms)) eqn:Ed; simpl.
  { split_and!; [by exists (default "" (es_deny_policy s1)), ""|by exists None|done|by left]. }
  rewrite E2. destruct (existsb (λ r, _ && narrow _ _ _ _) (all_rules ms)) eqn:Ep; simpl.
  { split_and!; [by exists "", ""|by exists None|done|by left]. }
  specialize (P3 eq_refl).
  destruct (allow_tier_matches clk input ms record s2) as [ba s3]. cbn [fst snd] in A1, A2, A3.
  rewrite P3 in A3. rewrite <- A1.
  destruct ba; simpl.
  - symmetry in A1. apply andb_true_iff in A1 as [HA Hc]. rewrite A3.
    split_and!; [by do 2 eexists|by exists (es_guard_hint s3)| |]; rewrite A2, HA; simpl.
    { by intros _ ->. }
    destruct (negb (bool_decide (guards = [])) && record); [right|by left].
    split_and!; try done. destruct (existsb (λ r, _ && broadened _ _ _) _); simpl; [by right|by left].
  - rewrite A3. split_and!; [by do 2 eexists|by exists (es_guard_hint s3)| |].
    { intros Hv. exfalso. revert Hv. apply upgrade_not_allow, resolve_nothing_not_allow. }
    left. rewrite A2.
    destruct (existsb (allow_match record) (all_rules ms)) eqn:HA; simpl in *; [|done].
    destruct (negb (bool_decide (guards = [])) && record); [|done].
    unfold charged in A1 |- *. unfold charge_rate_limits in *.
    destruct (existsb _ guards); [done|]. unfold st_bind in *. simpl in *.
    destruct (forallb _ guards); [done|done].
Qed.

End tier.

(** ** What a decision means *)

(** The decision without its reason text. *)
Definition decision_action (d : PolicyDecision) : PolicyAction :=
  match d with PD_Allow => PA_Allow | PD_Deny _ => PA_Deny | PD_Prompt => PA_Prompt end.

Definition verdict_action (v : Verdict) : PolicyAction := decision_action (decision_for v "" "").

Lemma decision_action_for v dn ddn : decision_action (decision_for v dn ddn) = verdict_action v.
Proof. by destruct v. Qed.

(** The reference decision of a read-only evaluation at local time [t]. *)
Definition readonly_spec (input : EvalInput) (t : NaiveTime) (ps : list Policy)
    (engine_deny : bool) : PolicyAction :=
  let ms := matching_policies input ps in
  if bool_decide (url_precheck input ms = None)
  then verdict_action (spec_verdict input t false engine_deny
         (existsb (allow_match input t false) (all_rules ms)) ms)
  else PA_Deny.

Lemma counter_flat_readonly input ps : counter_flat false (matching_policies input ps).
Proof.
  split_and!; intros r _ _; [by left..|]. apply Forall_forall. intros c _. by left.
Qed.

Lemma is_halted_matching ps input :
  is_halted ps input = existsb kill (matching_policies input ps).
Proof.
  unfold is_halted, matching_policies. rewrite existsb_filter.
  induction ps as [|p ps IH]; simpl; [done|]. rewrite IH. f_equal.
  unfold applies. by destruct (kill p); rewrite ?andb_true_r, ?andb_false_r.
Qed.

Lemma elem_of_all_rules r ps : r ∈ all_rules ps ↔ ∃ p, p ∈ ps ∧ r ∈ rules p.
Proof. unfold all_rules. rewrite list_elem_of_bind. naive_solver. Qed.

Lemma all_rules_Permutation ps ps' : ps ≡ₚ ps' → all_rules ps ≡ₚ all_rules ps'.
Proof. intros HP. unfold all_rules. by rewrite HP. Qed.

Lemma url_precheck_Permutation input ms ms' :
  ms ≡ₚ ms' → url_precheck input ms = None ↔ url_precheck input ms' = None.
Proof.
  intros HP. unfold url_precheck. destruct (in_url input) as [raw|]; [|done].
  destruct (canonical_url raw); [done|].
  assert (Hf : ∀ l, List.find url_sensitive l = None ↔ existsb url_sensitive l = false).
  { intros l. induction l as [|p l IH]; simpl; [done|]. by destruct (url_sensitive p). }
  by rewrite !Hf, (existsb_Permutation _ _ _ HP).
Qed.

(** ** Theorems *)

(** A kill that matches decides before any rule is looked at. *)
Lemma evaluate_inner_killed input ps engine_deny record s :
  is_halted ps input = true →
  let m := evaluate_inner clk input ps engine_deny record s in
  is_deny m.1.1 = true ∧ m.2 = s
  ∧ (m.1.2 = Some DC_Halt ∨ m.1.2 = Some DC_UrlUncanonical).
Proof.
  rewrite is_halted_matching. intros Hk m. subst m. unfold evaluate_inner.
  fold (matching_policies input ps).
  destruct (url_precheck input (matching_policies input ps)) as [p|]; [simpl; auto|].
  unfold resolve_lazily. rewrite Hk. simpl. auto.
Qed.

(** C7: A kill switch that matches the request denies it, whatever the rules, the
    defaults, the clock and the counters say, no counter is touched, and the
    typed cause is the halt (or the URL pre-check, which also denies). *)
Theorem kill_always_denies input ps engine_deny record s p :
  p ∈ ps → kill p = true → applies input p = true →
  let m := evaluate_inner clk input ps engine_deny record s in
  is_deny m.1.1 = true ∧ m.2 = s
  ∧ (m.1.2 = Some DC_Halt ∨ m.1.2 = Some DC_UrlUncanonical).
Proof.
  intros Hp Hk Ha. apply evaluate_inner_killed. rewrite is_halted_matching.
  apply existsb_elem_of. exists p. split; [|done]. by apply elem_of_filter_bool.
Qed.

(** Read-only evaluation, lemma form. *)
Lemma readonly_eval input t ps engine_deny s :
  (∀ n, local_time clk n = t) →
  let m := evaluate_inner clk input ps engine_deny false s in
  decision_action m.1.1 = readonly_spec input t ps engine_deny
  ∧ rate_limits m.2 = rate_limits s.
Proof.
  intros Ht m. unfold readonly_spec. case_bool_decide as Hu.
  - destruct (evaluate_inner_spec input t Ht false ps engine_deny s
      (counter_flat_readonly input ps) Hu) as (guards & n & _ & (dn & ddn & Hd) & _ & _ & Hc).
    fold m in Hd, Hc. rewrite andb_false_r in Hd, Hc.
    rewrite Hd, decision_action_for, andb_true_r. split; [done|].
    destruct Hc as [?|(_ & ? & _)]; done.
  - subst m. unfold evaluate_inner. fold (matching_policies input ps).
    by destruct (url_precheck input (matching_policies input ps)).
Qed.

(** C8: Read-only evaluation (the re-check of an approved request) computes the
    reference decision and charges nothing.  The local time is the same at every reading of
    this evaluation. *)
Theorem readonly_refines_spec input t ps engine_deny s :
  (∀ n, local_time clk n = t) →
  let m := evaluate_inner clk input ps engine_deny false s in
  decision_action m.1.1 = readonly_spec input t ps engine_deny
  ∧ rate_limits m.2 = rate_limits s.
Proof. apply readonly_eval. Qed.

(** The read-only decision does not depend on the order of the stored policies. *)
Theorem readonly_order_independent input t ps ps' engine_deny s s' :
  (∀ n, local_time clk n = t) → ps ≡ₚ ps' →
  decision_action (evaluate_inner clk input ps engine_deny false s).1.1
  = decision_action (evaluate_inner clk input ps' engine_deny false s').1.1.
Proof.
  intros Ht HP.
  destruct (readonly_eval input t ps engine_deny s Ht) as [-> _].
  destruct (readonly_eval input t ps' engine_deny s' Ht) as [-> _].
  assert (Hm : matching_policies input ps ≡ₚ matching_policies input ps')
    by (by apply filter_bool_Permutation).
  pose proof (all_rules_Permutation _ _ Hm) as Hr.
  unfold readonly_spec, spec_verdict.
  rewrite (bool_decide_ext _ _ (url_precheck_Permutation input _ _ Hm)).
  destruct (bool_decide _); [|done].
  rewrite (existsb_Permutation kill _ _ Hm), !(existsb_Permutation _ _ _ Hr).
  rewrite (resolve_precedence_ext [] [] (default_action <$> matching_policies input ps)
    (default_action <$> matching_policies input ps') engine_deny); [done|done|].
  intros a. by rewrite Hm.
Qed.

(** An explicit deny rule that matches (in its broadened reading) denies the
    request on the live path, whatever other policies allow. *)
Theorem deny_rule_always_denies input t ps engine_deny record s r :
  (∀ n, local_time clk n = t) →
  counter_flat record (matching_policies input ps) →
  r ∈ all_rules (matching_policies input ps) → action r = PA_Deny →
  wide input t record r = true →
  is_deny (evaluate_inner clk input ps engine_deny record s).1.1 = true.
Proof.
  intros Ht Hf Hr Ha Hw.
  destruct (url_precheck input (matching_policies input ps)) as [p|] eqn:Hu.
  { unfold evaluate_inner. fold (matching_policies input ps). by rewrite Hu. }
  destruct (evaluate_inner_spec input t Ht record ps engine_deny s Hf Hu)
    as (guards & n & _ & (dn & ddn & ->) & _). rewrite decision_for_deny.
  unfold spec_verdict. destruct (existsb kill _); [done|].
  replace (existsb (λ r, has_act PA_Deny r && wide input t record r) _) with true; [done|].
  symmetry. apply existsb_elem_of. exists r. unfold has_act.
  by rewrite bool_decide_true, Hw.
Qed.

(** A denied request charges no rate limit. *)
Theorem denied_request_charges_nothing input t ps engine_deny record s :
  (∀ n, local_time clk n = t) →
  counter_flat record (matching_policies input ps) →
  is_deny (evaluate_inner clk input ps engine_deny record s).1.1 = true →
  rate_limits (evaluate_inner clk input ps engine_deny record s).2 = rate_limits s.
Proof.
  intros Ht Hf Hd.
  destruct (url_precheck input (matching_policies input ps)) as [p|] eqn:Hu.
  { unfold evaluate_inner. fold (matching_policies input ps). by rewrite Hu. }
  destruct (evaluate_inner_spec input t Ht record ps engine_deny s Hf Hu)
    as (guards & n & _ & (dn & ddn & Hdec) & _ & _ & [?|(_ & _ & _ & Hv)]); [done|].
  rewrite Hdec, decision_for_deny in Hd. by destruct Hv as [Hv|Hv]; rewrite Hv in Hd.
Qed.

(** Every policy that applies denies by default (and one applies, or the engine
    denies by default). *)
Definition fail_closed (input : EvalInput) (ps : list Policy) (engine_deny : bool) : Prop :=
  (∀ p, p ∈ matching_policies input ps → default_action p = PA_Deny)
  ∧ (matching_policies input ps = [] → engine_deny = true).

Lemma fail_closed_default input ps engine_deny :
  fail_closed input ps engine_deny →
  denies (resolve_precedence [] (default_action <$> matching_policies input ps) engine_deny) = true.
Proof.
  intros [Hd He]. unfold resolve_precedence. simpl.
  destruct (matching_policies input ps) as [|p ms]; simpl; [by rewrite He|].
  rewrite (Hd p) by constructor. done.
Qed.

(** In a fail-closed policy set an allow comes from the allow tier, and the charge
    of that tier is the one that happened. *)
Lemma allow_comes_from_tier input t ps engine_deny s :
  (∀ n, local_time clk n = t) →
  counter_flat true (matching_policies input ps) →
  fail_closed input ps engine_deny →
  (evaluate_inner clk input ps engine_deny true s).1.1 = PD_Allow →
  existsb (allow_match input t true) (all_rules (matching_policies input ps)) = true
  ∧ ∃ guards n, is_guard_set input t true (all_rules (matching_policies input ps)) guards ∧
    let charged := charge_rate_limits clk (in_credential_alias input)
                     (rate_limit_principal <$> in_principal input) guards
                     {| rate_limits := rate_limits s; reads := n |} in
    (guards ≠ [] → charged.1 = true
       ∧ rate_limits (evaluate_inner clk input ps engine_deny true s).2
         = rate_limits charged.2).
Proof.
  intros Ht Hf Hfc Hallow.
  destruct (url_precheck input (matching_policies input ps)) as [p|] eqn:Hu.
  { unfold evaluate_inner in Hallow. fold (matching_policies input ps) in Hallow.
    by rewrite Hu in Hallow. }
  destruct (evaluate_inner_spec input t Ht true ps engine_deny s Hf Hu)
    as (guards & n & Hg & (dn & ddn & Hdec) & _ & Hc & _).
  rewrite Hallow in Hdec. rewrite andb_true_r in Hdec, Hc.
  destruct (existsb (allow_match input t true) (all_rules (matching_policies input ps))
    && _) eqn:EA.
  2:{ exfalso. apply fail_closed_default in Hfc. unfold spec_verdict in Hdec.
      destruct (existsb kill _); [done|].
      destruct (existsb (λ r, _ && wide _ _ _ _) _); [done|].
      destruct (existsb (λ r, _ && narrow _ _ _ _) _); [done|].
      destruct (resolve_precedence _ _ _); simpl in Hfc; try done;
        destruct (existsb _ _); done. }
  apply andb_true_iff in EA as [EA Ec]. split; [done|]. exists guards, n. split; [done|].
  intros charged Hne. rewrite bool_decide_false in Ec, Hc by done. simpl in Ec, Hc.
  split; [done|]. apply Hc; [|done].
  unfold spec_verdict in Hdec |- *. simpl in *.
  destruct (existsb kill _); [done|].
  destruct (existsb (λ r, _ && wide _ _ _ _) _); [done|].
  destruct (existsb (λ r, _ && narrow _ _ _ _) _); [done|].
  by destruct (existsb (λ r, _ && broadened _ _ _) _).
Qed.

(** C25: What an allow on the live path of a fail-closed policy set stands on, when its rate
    limits stand where the code layers them: an allow rule matched, and every rate limit of
    every matching allow rule had room and was charged once.  [counter_flat] says where: at
    the top of an allow rule or in a conjunction there.  A limit under [or] or [not], or in a
    deny or prompt rule, is evaluated in place and is not covered.  The local time is the same
    at every reading of this evaluation, and the numbers of a limit are not negative. *)
Theorem allow_respects_every_limit input t ps engine_deny s :
  (∀ n, local_time clk n = t) →
  counter_flat true (matching_policies input ps) →
  (∀ r g, r ∈ all_rules (matching_policies input ps) → g ∈ limits_of (condition r) →
     0 <= g.1 ∧ 0 <= g.2)%Z →
  fail_closed input ps engine_deny →
  (evaluate_inner clk input ps engine_deny true s).1.1 = PD_Allow →
  (∃ r, r ∈ all_rules (matching_policies input ps) ∧ allow_match input t true r = true)
  ∧ ∃ n, ∀ r g, r ∈ all_rules (matching_policies input ps) →
      allow_match input t true r = true → g ∈ limits_of (condition r) →
      let now := instant clk n in
      let key := rate_limit_key (in_credential_alias input)
                   (rate_limit_principal <$> in_principal input) g.1 g.2 in
      let step := counter_step g.1 g.2 now (entry_or_new (rate_limits s) key now) in
      step.1 = true
      ∧ rate_limits (evaluate_inner clk input ps engine_deny true s).2 !! key = Some step.2.
Proof.
  intros Ht Hf Hnn Hfc Hallow.
  destruct (allow_comes_from_tier input t ps engine_deny s Ht Hf Hfc Hallow)
    as (EA & guards & n & [Hnd Hg] & Hc).
  split; [by apply existsb_elem_of in EA|]. exists n. intros r g Hr Hm Hgl. cbn zeta.
  assert (Hgg : g ∈ guards) by (apply Hg; eauto).
  destruct Hc as [Ec Hs]; [intros ->; by apply elem_of_nil in Hgg|]. rewrite Hs.
  pose proof (charge_all_or_nothing clk (in_credential_alias input)
    (rate_limit_principal <$> in_principal input) guards
    {| rate_limits := rate_limits s; reads := n |} Hnd) as Hch.
  destruct (charge_rate_limits _ _ _ guards _) as [b s']. simpl in Ec, Hs |- *. subst b.
  destruct Hch as [Hch _].
  { intros g' (r' & Hr' & _ & Hl')%Hg. by eapply Hnn. }
  destruct (Hch g Hgg) as (H1 & H2 & Hs1 & Hs2). split; [exact Hs1|exact Hs2].
Qed.
End decision.
