(* ===== verification/Admission.v ===== *)
(** * Admission: engine, guards and kernel together

    The invariant of the counter table over a whole evaluation, the spend cap, the
    default-deny answer, the load tickets, and the path from a policy evaluation to
    an admission witness. *)

From stdpp Require Import base gmap strings list.
From Stdlib Require Import Ascii ZArith Lia.
From S2P Require Import Prelude RustStr PolicyTypes Precedence UrlCanon RateLimit Json Kernel.
From S2P Require Import PolicyEngine PolicyEngineFacts PolicyDecision.

(** ** Occurrences in a split condition *)

Lemma limits_of_occurs c g : g ∈ limits_of c → occurs (RateLimit g.1 g.2) c.
Proof.
  induction c as [u|ms|a|t1 t2|m w|a m|cs IH|cs IH|c IH|] using condition_tree_ind;
    unfold limits_of; try (simpl; by intros ?%elem_of_nil).
  - simpl. intros ->%list_elem_of_singleton. constructor.
  - fold (limits_of (And cs)). induction IH as [|c cs Hc _ IHcs].
    { intros H. by apply elem_of_nil in H. }
    destruct (split_and_cons c cs) as [_ ->]. rewrite elem_of_app.
    intros [H|H]; [eapply occurs_and; [constructor|auto]|].
    apply IHcs in H. inversion H; subst. eapply occurs_and; [by constructor|done].
Qed.

Lemma rest_of_occurs c c' m w :
  c' ∈ rest_of c → occurs (RateLimit m w) c' → occurs (RateLimit m w) c.
Proof.
  induction c as [u|ms|a|t1 t2|m' w'|a m'|cs IH|cs IH|c IH|] using condition_tree_ind;
    unfold rest_of; try (simpl; by intros ->%list_elem_of_singleton).
  - simpl. by intros ?%elem_of_nil.
  - fold (rest_of (And cs)). induction IH as [|c cs Hc _ IHcs].
    { intros H. by apply elem_of_nil in H. }
    destruct (split_and_cons c cs) as [-> _]. rewrite elem_of_app.
    intros [H|H] Ho; [eapply occurs_and; [constructor|auto]|].
    specialize (IHcs H Ho). inversion IHcs; subst. eapply occurs_and; [by constructor|done].
Qed.

(** ** An invariant of the counters is kept by a whole evaluation *)

Section invariant.
Context {UC : UrlCrate} {GC : GlobCrate} {EC : UrlEncodingCrate}.
Context {SJ : SerdeJson} {SH : Sha256}.
Context (clk : Clock) (input : EvalInput).
Context (I : EngineState → Prop) (cap_ok : Z → Prop).
Hypothesis I_local : ∀ s, I s → I (local_now clk s).2.
Hypothesis I_check : ∀ alias pid max w s,
  cap_ok max → I s → I (check_rate_limit clk alias pid max w s).2.
Hypothesis I_charge : ∀ alias pid guards s,
  (∀ g, g ∈ guards → cap_ok g.1) → I s → I (charge_rate_limits clk alias pid guards s).2.

Definition caps_ok (c : PolicyCondition) : Prop :=
  ∀ m w, occurs (RateLimit m w) c → cap_ok m.

Definition rules_caps_ok (rs : list PolicyRule) : Prop :=
  ∀ r, r ∈ rs → caps_ok (condition r).

Lemma and_loop_inv eval want acc cs s :
  (∀ c s, c ∈ cs → I s → I (eval c s).2) → I s → I (and_loop eval want acc cs s).2.
Proof.
  revert acc s. induction cs as [|c cs IH]; intros acc s He Hs; simpl; [done|].
  assert (H := He c s ltac:(constructor) Hs). destruct (eval c s) as [r s']. simpl in H.
  destruct (negb _); simpl; [done|]. apply IH; [|done].
  intros c' s'' Hc. apply He. by constructor.
Qed.

Lemma or_loop_inv eval want acc cs s :
  (∀ c s, c ∈ cs → I s → I (eval c s).2) → I s → I (or_loop eval want acc cs s).2.
Proof.
  revert acc s. induction cs as [|c cs IH]; intros acc s He Hs; simpl; [done|].
  assert (H := He c s ltac:(constructor) Hs). destruct (eval c s) as [r s']. simpl in H.
  destruct (_ && _); simpl; [done|]. apply IH; [|done].
  intros c' s'' Hc. apply He. by constructor.
Qed.

Lemma eval_pair_inv c record want s :
  caps_ok c → I s → I (eval_pair clk input c record want s).2.
Proof.
  revert want s.
  induction c as [u|ms|a|t1 t2|m w|a m|cs IH|cs IH|c IH|] using condition_tree_ind;
    intros want s Hc Hs; cbn [eval_pair st_ret fst snd]; try done.
  - by apply (I_local s).
  - destruct record; [|done]. unfold st_bind.
    assert (H := I_check (in_credential_alias input)
      (rate_limit_principal <$> in_principal input) m w s). revert H.
    destruct (check_rate_limit _ _ _ _ _ s). simpl. intros H. apply H; [|done].
    by apply (Hc m w), occurs_here.
  - rewrite Forall_forall in IH. apply and_loop_inv; [|done].
    intros c s' Hin. apply IH; [done|]. intros m w Ho. eapply Hc, occurs_and; eauto.
  - rewrite Forall_forall in IH. apply or_loop_inv; [|done].
    intros c s' Hin. apply IH; [done|]. intros m w Ho. eapply Hc, occurs_or; eauto.
  - unfold st_bind.
    specialize (IH {| want_narrow := want_wide want; want_wide := want_narrow want |} s).
    destruct (eval_pair clk input c record _ s). simpl in *. apply IH; [|done].
    intros m w Ho. by eapply Hc, occurs_not.
Qed.

Lemma all_narrow_inv record cs s :
  (∀ c, c ∈ cs → caps_ok c) → I s → I (all_narrow clk input record cs s).2.
Proof.
  revert s. induction cs as [|c cs IH]; intros s Hc Hs; cbn [all_narrow]; [done|].
  unfold st_bind. assert (H := eval_pair_inv c record NARROW s (Hc c ltac:(constructor)) Hs).
  destruct (eval_pair clk input c record NARROW s) as [p s']. simpl in H.
  destruct p.1; [|done]. apply IH; [|done]. intros c' Hc'. apply Hc. by constructor.
Qed.

Definition E (s : EvalState) : Prop := I (es_engine s).

(** [on_engine] keeps the invariant when the computation does. *)
Lemma on_engine_inv {A} (m : st EngineState A) (s : EvalState) :
  (∀ e, I e → I (m e).2) → E s → E (on_engine m s).2.
Proof.
  unfold E, on_engine. intros Hm Hs. specialize (Hm _ Hs).
  by destruct (m (es_engine s)).
Qed.

Lemma st_bind_inv {A B} (m : st EvalState A) (k : A → st EvalState B) s :
  E (m s).2 → (∀ a s', E s' → E (k a s').2) → E (st_bind m k s).2.
Proof. unfold st_bind. destruct (m s) as [a s']. simpl. auto. Qed.

Lemma allow_rule_inv record acc r s :
  caps_ok (condition r) → E s → E (allow_rule clk input record acc r s).2.
Proof.
  intros Hc Hs. unfold allow_rule. destruct (bool_decide _); [done|].
  assert (Hgen : E ((let '(rest, limits) := split_rate_limits (condition r) ([], []) in
    let! ok := on_engine (all_narrow clk input record rest) in
    if ok then st_ret (true, push_guards acc.2 limits) else st_ret acc) s).2).
  { destruct (split_rate_limits (condition r) ([], [])) as [rest limits] eqn:Es.
    apply st_bind_inv; [|by intros []].
    apply on_engine_inv; [|done]. intros e He. apply all_narrow_inv; [|done].
    intros c Hin m w Ho. apply (Hc m w). eapply rest_of_occurs; [|done].
    unfold rest_of. by rewrite Es. }
  destruct (condition r); try exact Hgen.
  by destruct (spend_within_cap _ _ _ _).
Qed.

Lemma allow_rules_inv record acc rs s :
  rules_caps_ok rs → (∀ g, g ∈ acc.2 → cap_ok g.1) → E s →
  E (allow_rules clk input record acc rs s).2
  ∧ ∀ g, g ∈ (allow_rules clk input record acc rs s).1.2 → cap_ok g.1.
Proof.
  revert acc s. induction rs as [|r rs IH]; intros acc s Hr Ha Hs; cbn [allow_rules]; [done|].
  assert (Hc : caps_ok (condition r)) by (apply Hr; constructor).
  assert (H1 := allow_rule_inv record acc r s Hc Hs).
  assert (H2 : ∀ g, g ∈ (allow_rule clk input record acc r s).1.2 → cap_ok g.1).
  { assert (Hp : ∀ g, g ∈ push_guards acc.2 (limits_of (condition r)) → cap_ok g.1).
    { unfold push_guards.
      assert (Hl : ∀ g, g ∈ limits_of (condition r) → cap_ok g.1).
      { intros g Hg%limits_of_occurs. by eapply Hc. }
      revert Hl Ha. generalize (limits_of (condition r)) acc.2. clear.
      intros ls. induction ls as [|l ls IH]; intros gs Hl Hg; simpl; [done|].
      apply IH; [intros g Hx; apply Hl; by constructor|].
      case_bool_decide; [done|]. intros g [?| ->%list_elem_of_singleton]%elem_of_app; [auto|].
      apply Hl. constructor. }
    unfold allow_rule. destruct (bool_decide _); [done|].
    assert (Hgen : ∀ g, g ∈ ((let '(rest, limits) := split_rate_limits (condition r) ([], []) in
      let! ok := on_engine (all_narrow clk input record rest) in
      if ok then st_ret (true, push_guards acc.2 limits) else st_ret acc) s).1.2 → cap_ok g.1).
    { unfold limits_of in Hp. destruct (split_rate_limits (condition r) ([], [])) as [rest limits].
      unfold st_bind. destruct (on_engine _ s) as [[] ?]; simpl in *; done. }
    destruct (condition r); try exact Hgen.
    destruct (spend_within_cap _ _ _ _); simpl; done. }
  unfold st_bind. destruct (allow_rule clk input record acc r s) as [acc' s'].
  apply IH; [|done..]. intros x Hx. apply Hr. by constructor.
Qed.

Lemma allow_tier_inv record ps s :
  rules_caps_ok (all_rules ps) → E s → E (allow_tier_matches clk input ps record s).2.
Proof.
  intros Hr Hs. unfold allow_tier_matches. fold (all_rules ps).
  destruct (allow_rules_inv record (false, []) (all_rules ps) s Hr) as [H1 H2]; [|done|].
  { intros g Hg. by apply elem_of_nil in Hg. }
  unfold st_bind at 1.
  destruct (allow_rules clk input record (false, []) (all_rules ps) s) as [[m g] s'].
  simpl in H1, H2. destruct m; simpl; [|done].
  destruct (bool_decide (g = []) || negb record); [done|].
  apply st_bind_inv.
  - apply on_engine_inv; [|done]. intros e He. by apply I_charge.
  - intros a s'' Hs''. by destruct (negb a && _).
Qed.

Lemma tier_rule_inv record r s :
  caps_ok (condition r) → E s → E (tier_rule_matches clk input record r s).2.
Proof.
  intros Hc Hs. unfold tier_rule_matches.
  assert (Hev : ∀ rec want s, E s →
    E (on_engine (eval_pair clk input (condition r) rec want) s).2).
  { intros rec want s' Hs'. apply on_engine_inv; [|done]. intros e He. by apply eval_pair_inv. }
  assert (Hgen : E (match action r with
    | PA_Allow => let! p := on_engine (eval_pair clk input (condition r) record NARROW) in st_ret p.1
    | PA_Deny => let! p := on_engine (eval_pair clk input (condition r) record WIDE) in st_ret p.2
    | PA_Prompt =>
        let! n := on_engine (eval_pair clk input (condition r) record NARROW) in
        if n.1 then st_ret true
        else
          let! w := on_engine (eval_pair clk input (condition r) false WIDE) in
          let! _ := (if w.2 then set_broadened_prompt else st_ret tt) in
          st_ret false
    end s).2).
  { destruct (action r); (apply st_bind_inv; [by apply Hev|]); [done|done|].
    intros a s' Hs'. destruct a.1; [done|].
    apply st_bind_inv; [by apply Hev|]. intros w s2 Hs2. apply st_bind_inv; [|done].
    by destruct w.2. }
  destruct (condition r); done.
Qed.

Lemma scan_rules_inv record wanted name rs s :
  rules_caps_ok rs → E s → E (scan_rules clk input record wanted name rs s).2.
Proof.
  revert s. induction rs as [|r rs IH]; intros s Hr Hs; cbn [scan_rules]; [done|].
  assert (Hr' : rules_caps_ok rs) by (intros x Hx; apply Hr; by constructor).
  destruct (bool_decide _); [by apply IH|]. apply st_bind_inv.
  - apply tier_rule_inv; [apply Hr; constructor|done].
  - intros [] s' Hs'; [|by apply IH]. apply st_bind_inv; [|done].
    by destruct (bool_decide _).
Qed.

Lemma scan_policies_inv record wanted ps s :
  rules_caps_ok (all_rules ps) → E s → E (scan_policies clk input record wanted ps s).2.
Proof.
  revert s. induction ps as [|p ps IH]; intros s Hr Hs; cbn [scan_policies]; [done|].
  unfold all_rules in Hr. rewrite bind_cons in Hr. apply st_bind_inv.
  - apply scan_rules_inv; [|done]. intros r Hx. apply Hr, elem_of_app. by left.
  - intros [] s' Hs'; [done|]. apply IH; [|done].
    intros r Hx. apply Hr, elem_of_app. by right.
Qed.

Lemma evaluate_inner_inv ps engine_deny record s :
  rules_caps_ok (all_rules ps) → I s → I (evaluate_inner clk input ps engine_deny record s).2.
Proof.
  intros Hr Hs. unfold evaluate_inner. fold (matching_policies input ps).
  destruct (url_precheck _ _); [done|].
  assert (Hm : rules_caps_ok (all_rules (matching_policies input ps))).
  { intros r (p & [Hp _]%elem_of_filter_bool & Hrp)%elem_of_all_rules.
    apply Hr. rewrite elem_of_all_rules. eauto. }
  set (s0 := {| es_engine := s; es_deny_policy := None; es_guard_hint := None;
                es_broadened_prompt := false |}).
  assert (HE : E (resolve_lazily (existsb kill (matching_policies input ps))
    (tier_matched clk input (matching_policies input ps) record)
    (default_action <$> matching_policies input ps) engine_deny s0).2).
  { unfold resolve_lazily. destruct (existsb kill _); [done|].
    cbn [resolve_tiers tier_matched].
    apply st_bind_inv; [by apply scan_policies_inv|]. intros [] s1 Hs1; [done|].
    apply st_bind_inv; [by apply scan_policies_inv|]. intros [] s2 Hs2; [done|].
    apply st_bind_inv; [by apply allow_tier_inv|]. by intros [] s3 Hs3. }
  destruct (resolve_lazily _ _ _ _ s0) as [v s']. exact HE.
Qed.
End invariant.

Section theorems.
Context {UC : UrlCrate} {GC : GlobCrate} {EC : UrlEncodingCrate}.
Context {SJ : SerdeJson} {SH : Sha256}.
Context (clk : Clock).

(** An evaluation keeps every rate-limit counter in [u32] range, for policies whose
    limits are [u32] values: no increment overflows. *)
Theorem evaluate_keeps_counters_in_range input ps engine_deny record s :
  (∀ r m w, r ∈ all_rules ps → occurs (RateLimit m w) (condition r) → in_u32 m) →
  counters_ok s → counters_ok (evaluate_inner clk input ps engine_deny record s).2.
Proof.
  intros Hr. apply (evaluate_inner_inv clk input counters_ok in_u32).
  - done.
  - intros alias pid max w s' Hm. by apply check_rate_limit_ok.
  - intros alias pid guards s' Hg. by apply charge_rate_limits_ok.
  - intros r Hin m w. by eapply Hr.
Qed.

(** With only spend-cap allow rules in a fail-closed policy set, an allowed request
    carries a spend attempt within the cap of a rule for the same asset; a request
    without a readable amount is never allowed. *)
Theorem allow_respects_spend_cap input t ps engine_deny s :
  (∀ n, local_time clk n = t) →
  counter_flat true (matching_policies input ps) →
  fail_closed input ps engine_deny →
  (∀ r, r ∈ all_rules (matching_policies input ps) → action r = PA_Allow →
     is_spend_cap (condition r) = true) →
  (evaluate_inner clk input ps engine_deny true s).1.1 = PD_Allow →
  ∃ sp cap r, in_spend input = Some sp ∧ (sp_amount sp <= cap)%Z
    ∧ r ∈ all_rules (matching_policies input ps) ∧ action r = PA_Allow
    ∧ condition r = SpendCap (sp_asset sp) cap.
Proof.
  intros Ht Hf Hfc Hsp Hallow.
  destruct (allow_comes_from_tier clk input t ps engine_deny s Ht Hf Hfc Hallow) as [EA _].
  apply existsb_elem_of in EA as (r & Hr & Hm).
  unfold allow_match, has_act, narrow in Hm. apply andb_true_iff in Hm as [Ha Hn].
  apply bool_decide_eq_true in Ha. specialize (Hsp r Hr Ha).
  destruct (condition r) as [| | | | |asset cap| | | |] eqn:Hc; try done.
  cbn in Hn. unfold spend_within_cap in Hn. cbn in Hn.
  destruct (in_spend input) as [sp|]; [|done].
  destruct (String.eqb_spec (sp_asset sp) asset) as [<-|]; cbn in Hn; [|done].
  exists sp, cap, r. apply Z.leb_le in Hn. split_and!; done.
Qed.

(** A request no policy applies to is denied by a fail-closed engine, with the
    default cause, and nothing is read or charged. *)
Theorem no_policy_is_denied input ps record s :
  (∀ p, p ∈ ps → applies input p = false) →
  evaluate_inner clk input ps true record s
  = (PD_Deny "no_policy: no policy matches this credential (default-deny enforcement)",
     Some DC_Default, s).
Proof.
  intros Hn. unfold evaluate_inner.
  replace (List.filter (applies input) ps) with (@nil Policy).
  - unfold url_precheck. destruct (in_url input) as [u|]; [by destruct (canonical_url u)|done].
  - symmetry. induction ps as [|p ps IH]; simpl; [done|].
    rewrite (Hn p) by constructor. apply IH. intros q Hq. apply Hn. by constructor.
Qed.

(** ** From the engine to an admission witness *)

Lemma rule_guards_occurs c :
  rule_guards c = true ↔ ∃ d, occurs d c ∧ is_rate_limit d || is_spend_cap d = true.
Proof.
  apply (walk_occurs (λ d, is_rate_limit d || is_spend_cap d)); by try intros [].
Qed.

(** A halted principal never gets an admission witness: observe mode does not
    downgrade a halt, the gate refuses, and the engine is unchanged. *)
Theorem halted_is_never_admitted e q observe_tenant approval_required :
  is_halted (policies e) (eval_input q (policy_url (q_params q))) = true →
  kernel_admit (evaluate_for_admission clk e q observe_tenant).1 approval_required = Err PolicyDenied
  ∧ (evaluate_for_admission clk e q observe_tenant).2 = e.
Proof.
  intros Hh. unfold evaluate_for_admission.
  destruct (evaluate_inner_killed clk (eval_input q (policy_url (q_params q)))
    (policies e) (default_deny e) true (counters e) Hh) as (Hd & Hs & _).
  destruct (evaluate_inner _ _ _ _ _ _) as [[d c] s']. simpl in Hd, Hs. subst s'.
  rewrite Hh. split; [|by destruct e].
  unfold kernel_admit, witness_from, admission_gate, verdict. simpl.
  rewrite !andb_false_r. by destruct d.
Qed.

(** Observe mode lets a denied request run only for an observe tenant, only when no
    kill applies to it and no policy that applies to it holds a spend cap or a rate
    limit at any depth; the judged subject is the query's own. *)
Theorem observed_deny_waives_no_guard e q observe_tenant w :
  kernel_admit (evaluate_for_admission clk e q observe_tenant).1 false = Ok w →
  aw_kind w = AK_ObservedDeny →
  let input := eval_input q (policy_url (q_params q)) in
  observe_tenant = true ∧ query_subject q = Some (aw_subject w)
  ∧ ∀ p, p ∈ policies e → applies input p = true →
      kill p = false
      ∧ ∀ r d, r ∈ rules p → occurs d (condition r) →
          is_rate_limit d = false ∧ is_spend_cap d = false.
Proof.
  unfold kernel_admit, witness_from, admission_gate, verdict, evaluate_for_admission.
  destruct (evaluate_inner _ _ _ _ _ _) as [[d c] s']. simpl.
  destruct d; simpl; [|destruct (observe_tenant && _ && _) eqn:Eo|]; try done.
  - destruct (query_subject q); simpl; [|done]. by intros [= <-].
  - destruct (query_subject q) as [subj|]; simpl; [|done]. intros [= <-] _.
    rewrite !andb_true_iff, !negb_true_iff in Eo. destruct Eo as [[-> Hh] Hg].
    split_and!; [done|done|]. intros p Hp Hap. split.
    + rewrite is_halted_matching, existsb_false_elem_of in Hh. apply Hh.
      by apply elem_of_filter_bool.
    + intros r d Hr Ho. unfold has_resource_guard in Hg. rewrite existsb_false_elem_of in Hg.
      assert (Hin : p ∈ List.filter (applies (eval_input q (policy_url (q_params q)))) (policies e))
        by (by apply elem_of_filter_bool).
      specialize (Hg p Hin). rewrite existsb_false_elem_of in Hg. specialize (Hg r Hr).
      apply orb_false_iff. rewrite <- not_true_iff_false in Hg |- *.
      rewrite rule_guards_occurs in Hg. naive_solver.
Qed.

End theorems.

(** ** Load tickets *)

(** One step of a process that loads policies: take a ticket, or apply a list that
    was read under one. *)
Inductive load_op := OpBegin | OpLoad (ticket : Z) (ps : list Policy).

Definition load_step (e : PolicyEngine) (o : load_op) : PolicyEngine :=
  match o with
  | OpBegin => (begin_load e).2
  | OpLoad ticket ps => (load_policies_if_newer e ticket ps).2
  end.

(** Whatever the interleaving of ticket taking and loading, the engine ends with the
    list read under the newest ticket that was applied (or its old list, when no
    load was newer), so a stale list never replaces a newer one. *)
Theorem newest_load_wins e ops :
  let e' := foldl load_step e ops in
  (applied_load_ticket e <= applied_load_ticket e')%Z
  ∧ (∀ ticket ps, OpLoad ticket ps ∈ ops → ticket <= applied_load_ticket e')%Z
  ∧ ((policies e' = policies e ∧ applied_load_ticket e' = applied_load_ticket e)
     ∨ OpLoad (applied_load_ticket e') (policies e') ∈ ops).
Proof.
  revert e. induction ops as [|o ops IH]; intros e; simpl.
  { split_and!; [done| |by left]. intros ticket ps H. by apply elem_of_nil in H. }
  destruct (IH (load_step e o)) as (H1 & H2 & H3). setoid_rewrite elem_of_cons.
  destruct o as [|ticket ps]; simpl in *.
  - split_and!; [done|naive_solver|naive_solver].
  - unfold load_policies_if_newer in *.
    destruct (Z.leb_spec ticket (applied_load_ticket e)); simpl in *.
    + split_and!; [done| |naive_solver]. intros t' ps' [[= -> ->]|H']; [lia|eauto].
    + split_and!; [lia| |].
      * intros t' ps' [[= -> ->]|H']; [lia|eauto].
      * right. destruct H3 as [[-> ->]|H3]; [by left|by right].
Qed.

(** Tickets are handed out in strictly increasing order until the 64-bit counter is
    exhausted. *)
Lemma begin_load_fresh e :
  (0 <= next_load_ticket e < u64_max)%Z →
  (begin_load e).1 = (next_load_ticket e + 1)%Z
  ∧ next_load_ticket (begin_load e).2 = (begin_load e).1.
Proof.
  intros H. unfold begin_load. simpl. rewrite Z.mod_small by lia. done.
Qed.
