(* ===== verification/KillFence.v ===== *)
(** * The durable kill fence

    Models [src/src/policy/kill_fence.rs] and the vault operations of
    [src/src/storage/file.rs] that keep the fence: [store_policy], [delete_policy],
    [kill_fence_epoch], [kill_fence_check], [kill_fence_ack] and the kill-mark part of
    [gc_vault_at].  Each of them runs under the vault's cross-process lock, so an
    execution is a sequence of [fence_op]s.

    The promise of the fence: once a kill policy that matches some work is stored,
    that work stays refused through lifts and garbage collection, as long as no other
    kill is stored under the same id; a kill stored over it with another scope forgets
    the first one. *)

From stdpp Require Import base gmap strings list pretty sorting.
From Stdlib Require Import Ascii ZArith Lia.
From S2P Require Import Prelude RustStr PolicyTypes UrlCanon RateLimit BTree Json Kernel.
From S2P Require Import PolicyEngine.

Open Scope Z_scope.

(** ** Data *)

(** [KillMark]. *)
Record KillMark := {
  km_credential_pattern : string;
  km_principal_pattern : option string;
  km_epoch : Z;
  km_stored_at : option DateTime;
}.

(** [KillFenceState]. *)
Record KillFenceState := {
  kf_epoch : Z;
  kf_marks : BTreeMap string KillMark;
}.

(** [KillFenceQuery]. *)
Record KillFenceQuery := {
  kq_credential_alias : string;
  kq_principal : option Principal;
  kq_admitted_epoch : Z;
}.

(** [KillFenceVerdict]. *)
Inductive KillFenceVerdict :=
| KF_Clear
| KF_Halted (policy_id : string)
| KF_KilledSinceAdmission (policy_id : string) (epoch : Z).

(** ** Operations on the fence *)

(** [KillFenceState::record_store]; [now] is [Utc::now()]. *)
Definition record_store (now : DateTime) (s : KillFenceState) (p : Policy)
    : option Z * KillFenceState :=
  if negb (kill p) then (None, s)
  else
    let epoch := u64_saturating_add (kf_epoch s) 1 in
    (Some epoch,
     {| kf_epoch := epoch;
        kf_marks := bt_insert (policy_id p)
          {| km_credential_pattern := credential_pattern p;
             km_principal_pattern := principal_pattern p;
             km_epoch := epoch; km_stored_at := Some now |} (kf_marks s) |}).

(** The mark with its timestamp set, and whether [stamp_unstamped] counts it. *)
Definition stamp (now : DateTime) (m : KillMark) : KillMark :=
  match km_stored_at m with
  | None => {| km_credential_pattern := km_credential_pattern m;
               km_principal_pattern := km_principal_pattern m;
               km_epoch := km_epoch m; km_stored_at := Some now |}
  | Some _ => m
  end.

(** [KillFenceState::stamp_unstamped]. *)
Definition stamp_unstamped (now : DateTime) (s : KillFenceState) : nat * KillFenceState :=
  (length (List.filter (λ e : string * KillMark, bool_decide (km_stored_at e.2 = None)) (kf_marks s)),
   {| kf_epoch := kf_epoch s; kf_marks := prod_map id (stamp now) <$> kf_marks s |}).

(** [KILL_MARK_GC_GRACE_SECS]. *)
Definition KILL_MARK_GC_GRACE_SECS : Z := 24 * 60 * 60.

(** [Iterator::min] on [u64]. *)
Definition iter_min (l : list Z) : option Z :=
  match l with [] => None | e :: l' => Some (foldl Z.min e l') end.

(** The filter of [dead_kill_marks]. *)
Definition mark_is_dead (is_stored_kill : string → bool) (oldest_live : option Z)
    (now : DateTime) (e : string * KillMark) : bool :=
  negb (is_stored_kill e.1)
  && match km_stored_at e.2 with
     | Some t => KILL_MARK_GC_GRACE_SECS <=? num_seconds (now - t)
     | None => false
     end
  && match oldest_live with Some e' => km_epoch e.2 <=? e' | None => true end.

(** [dead_kill_marks]. *)
Definition dead_kill_marks (s : KillFenceState) (is_stored_kill : string → bool)
    (live_admitted : list Z) (now : DateTime) : list string :=
  (List.filter (mark_is_dead is_stored_kill (iter_min live_admitted) now) (kf_marks s)).*1.

(** [KillFenceVerdict::is_clear]. *)
Definition is_clear (v : KillFenceVerdict) : bool :=
  match v with KF_Clear => true | _ => false end.

(** [KillFenceVerdict::refusal_reason]. *)
Definition refusal_reason (v : KillFenceVerdict) : option string :=
  match v with
  | KF_Clear => None
  | KF_Halted id => Some ("the agent is halted (kill policy '" +:+ id +:+ "'); nothing ran")
  | KF_KilledSinceAdmission id epoch =>
      Some ("the agent was killed (kill policy '" +:+ id +:+ "', kill epoch "
            +:+ pretty epoch
            +:+ ") after this work was admitted; nothing ran, submit it again")
  end.

Section fence.
Context {UC : UrlCrate} {GC : GlobCrate}.

(** Whether a stored kill policy, or a mark, is about the work. *)
Definition policy_halts (q : KillFenceQuery) (p : Policy) : bool :=
  kill p && credential_matches (credential_pattern p) (kq_credential_alias q)
  && principal_matches (principal_pattern p) (kq_principal q).

Definition mark_refuses (q : KillFenceQuery) (e : string * KillMark) : bool :=
  (kq_admitted_epoch q <? km_epoch e.2)
  && credential_matches (km_credential_pattern e.2) (kq_credential_alias q)
  && principal_matches (km_principal_pattern e.2) (kq_principal q).

(** [kill_fence_verdict]. *)
Definition kill_fence_verdict (stored : list Policy) (s : KillFenceState)
    (q : KillFenceQuery) : KillFenceVerdict :=
  let halted := merge_sort String.le (policy_id <$> List.filter (policy_halts q) stored) in
  match halted with
  | id :: _ => KF_Halted id
  | [] =>
      match List.find (mark_refuses q) (kf_marks s) with
      | Some (id, m) => KF_KilledSinceAdmission id (km_epoch m)
      | None => KF_Clear
      end
  end.

(** ** The vault's policies and fence *)

(** The two fields of [StorageCache] the fence reads. *)
Record FenceVault := {
  fv_policies : gmap string Policy;
  fv_fence : KillFenceState;
}.

(** [HashMap::values]; the order is not observable through the fence. *)
Definition values {V} (m : gmap string V) : list V := (map_to_list m).*2.

(** [store_policy]. *)
Definition store_policy (now : DateTime) (v : FenceVault) (p : Policy) : FenceVault :=
  {| fv_policies := <[policy_id p := p]> (fv_policies v);
     fv_fence := (record_store now (fv_fence v) p).2 |}.

(** [delete_policy]. *)
Definition delete_policy (v : FenceVault) (id : string) : result FenceVault string :=
  match fv_policies v !! id with
  | None => Err id
  | Some _ => Ok {| fv_policies := delete id (fv_policies v); fv_fence := fv_fence v |}
  end.

(** [kill_fence_epoch]. *)
Definition kill_fence_epoch (v : FenceVault) : Z := kf_epoch (fv_fence v).

(** [kill_fence_check]. *)
Definition kill_fence_check (v : FenceVault) (q : KillFenceQuery) : KillFenceVerdict :=
  kill_fence_verdict (values (fv_policies v)) (fv_fence v) q.

(** [kill_fence_ack]. *)
Definition kill_fence_ack (v : FenceVault) (id : string) : option Z :=
  match fv_policies v !! id with
  | Some p => if kill p then km_epoch <$> bt_get (kf_marks (fv_fence v)) id else None
  | None => None
  end.

(** Whether a policy id is stored as a kill, as [dead_marks] asks. *)
Definition stored_kill (v : FenceVault) (id : string) : bool :=
  match fv_policies v !! id with Some p => kill p | None => false end.

(** The kill marks [gc_vault_at] drops, with the admission epochs of the approvals
    that can still run as an argument. *)
Definition gc_marks (now : DateTime) (live : list Z) (v : FenceVault) : FenceVault :=
  let dead := dead_kill_marks (fv_fence v) (stored_kill v) live now in
  {| fv_policies := fv_policies v;
     fv_fence := {| kf_epoch := kf_epoch (fv_fence v);
                    kf_marks := foldl (λ m id, bt_remove id m) (kf_marks (fv_fence v)) dead |} |}.

(** The locked mutations that touch the fence. *)
Inductive fence_op :=
| FO_store (now : DateTime) (p : Policy)
| FO_delete (id : string)
| FO_gc (now : DateTime) (live : list Z)
| FO_stamp (now : DateTime).

Definition fence_step (v : FenceVault) (o : fence_op) : FenceVault :=
  match o with
  | FO_store now p => store_policy now v p
  | FO_delete id => match delete_policy v id with Ok v' => v' | Err _ => v end
  | FO_gc now live => gc_marks now live v
  | FO_stamp now => {| fv_policies := fv_policies v;
                       fv_fence := (stamp_unstamped now (fv_fence v)).2 |}
  end.

(** ** Lemmas *)

Lemma iter_min_spec l e : iter_min l = Some e → e ∈ l ∧ ∀ x, x ∈ l → e <= x.
Proof.
  destruct l as [|a l]; simpl; [done|]. intros [= <-].
  revert a. induction l as [|b l IH]; intros a; simpl.
  - split; [constructor|]. intros x ->%list_elem_of_singleton. lia.
  - destruct (IH (Z.min a b)) as [H1 H2]. split.
    + apply elem_of_cons in H1 as [->|H1]; [|by repeat constructor].
      destruct (Z.min_spec a b) as [[_ ->]|[_ ->]]; repeat constructor.
    + assert (Hm : foldl Z.min (Z.min a b) l <= Z.min a b) by (apply H2; constructor).
      intros x [->|[->|Hx]%elem_of_cons]%elem_of_cons; [lia|lia|].
      apply H2. by constructor.
Qed.

(** A verdict is clear exactly when no stored kill and no later mark is about the
    work. *)
Lemma verdict_clear_iff stored s q :
  kill_fence_verdict stored s q = KF_Clear ↔
  (∀ p, p ∈ stored → policy_halts q p = false)
  ∧ (∀ e, e ∈ kf_marks s → mark_refuses q e = false).
Proof.
  unfold kill_fence_verdict.
  assert (Hp : merge_sort String.le (policy_id <$> List.filter (policy_halts q) stored)
               ≡ₚ policy_id <$> List.filter (policy_halts q) stored) by apply merge_sort_Permutation.
  destruct (merge_sort _ _) as [|id l].
  - apply Permutation_nil, fmap_nil_inv in Hp.
    assert (Hs : ∀ p, p ∈ stored → policy_halts q p = false).
    { intros p Hin. destruct (policy_halts q p) eqn:E; [|done].
      assert (p ∈ List.filter (policy_halts q) stored) as Hf by (by apply elem_of_filter_bool).
      rewrite Hp in Hf. by apply elem_of_nil in Hf. }
    destruct (List.find _ _) as [[id m]|] eqn:Ef.
    + apply find_elem_of in Ef as [Hin Hm]. split; [done|].
      intros [_ H]. by rewrite (H _ Hin) in Hm.
    + split; [|done]. intros _. split; [done|]. intros e He.
      by eapply find_none in Ef; [|by apply list_elem_of_In].
  - split; [done|]. intros [H _].
    assert (id ∈ policy_id <$> List.filter (policy_halts q) stored) as Hin
      by (rewrite <- Hp; constructor).
    apply list_elem_of_fmap in Hin as (p & _ & [Hin Hh]%elem_of_filter_bool).
    by rewrite H in Hh.
Qed.

Lemma foldl_remove_filter (dead : list string) (m : BTreeMap string KillMark) :
  foldl (λ m id, bt_remove id m) m dead
  = List.filter (λ e, negb (bool_decide (e.1 ∈ dead))) m.
Proof.
  revert m. induction dead as [|id dead IH]; intros m; simpl.
  - induction m as [|e m IH]; simpl; [done|]. by rewrite <- IH.
  - rewrite IH. unfold bt_remove. rewrite filter_filter_bool. apply List.filter_ext.
    intros e. destruct (decide (id = e.1)) as [->|Hne].
    + by rewrite kcmp_refl, (bool_decide_true (e.1 ∈ e.1 :: dead)) by constructor.
    + rewrite (bool_decide_ext (e.1 ∈ id :: dead) (e.1 ∈ dead))
        by (rewrite elem_of_cons; naive_solver).
      destruct (kcmp id e.1) eqn:E; [by apply kcmp_eq in E|done..].
Qed.

Lemma elem_of_dead id v live now :
  id ∈ dead_kill_marks (fv_fence v) (stored_kill v) live now ↔
  ∃ m, (id, m) ∈ kf_marks (fv_fence v)
     ∧ mark_is_dead (stored_kill v) (iter_min live) now (id, m) = true.
Proof.
  unfold dead_kill_marks. rewrite list_elem_of_fmap. split.
  - intros ([i m] & -> & [Hin Hd]%elem_of_filter_bool). eauto.
  - intros (m & Hin & Hd). exists (id, m). split; [done|]. by apply elem_of_filter_bool.
Qed.

(** A mark that some live admission still depends on survives garbage collection. *)
Lemma gc_keeps_mark now live v id m a :
  bt_ok (kf_marks (fv_fence v)) → a ∈ live → a < km_epoch m →
  bt_get (kf_marks (fv_fence v)) id = Some m →
  bt_get (kf_marks (fv_fence (gc_marks now live v))) id = Some m.
Proof.
  intros Hok Ha Hlt Hg. simpl. rewrite foldl_remove_filter.
  apply bt_elem_of_get; [by apply bt_filter_ok|]. apply elem_of_filter_bool.
  split; [by apply bt_get_elem_of|]. apply negb_true_iff, bool_decide_eq_false.
  intros (m' & Hin & Hd)%elem_of_dead. apply bt_elem_of_get in Hin; [|done].
  cbn in Hin. rewrite Hg in Hin. injection Hin as <-.
  unfold mark_is_dead in Hd. apply andb_true_iff in Hd as [_ Hd]. cbn in Hd.
  destruct (iter_min live) as [e|] eqn:El.
  - apply iter_min_spec in El as [_ El]. specialize (El a Ha). apply Z.leb_le in Hd.
    lia.
  - destruct live; [by apply elem_of_nil in Ha|done].
Qed.

(** The fence's representation invariant: marks are sorted by id and no mark is
    newer than the epoch, which is a [u64]. *)
Definition fence_ok (v : FenceVault) : Prop :=
  bt_ok (kf_marks (fv_fence v)) ∧ in_u64 (kf_epoch (fv_fence v))
  ∧ ∀ id m, (id, m) ∈ kf_marks (fv_fence v) → 0 <= km_epoch m <= kf_epoch (fv_fence v).

Lemma bt_above_map now k (m : BTreeMap string KillMark) :
  bt_above k m → bt_above k (prod_map id (stamp now) <$> m).
Proof. induction m as [|[k' x] m IH]; simpl; [done|]. naive_solver. Qed.

Lemma bt_map_ok now (m : BTreeMap string KillMark) :
  bt_ok m → bt_ok (prod_map id (stamp now) <$> m).
Proof.
  induction m as [|[k x] m IH]; simpl; [done|]. intros [H1 H2].
  split; [by apply bt_above_map|auto].
Qed.

Lemma bt_get_map now (m : BTreeMap string KillMark) k :
  bt_get (prod_map id (stamp now) <$> m) k = stamp now <$> bt_get m k.
Proof. induction m as [|[k' x] m IH]; simpl; [done|]. by destruct (String.compare k k'). Qed.

Lemma stamp_epoch now m : km_epoch (stamp now m) = km_epoch m.
Proof. unfold stamp. by destruct (km_stored_at m). Qed.

Lemma stamp_credential now m : km_credential_pattern (stamp now m) = km_credential_pattern m.
Proof. unfold stamp. by destruct (km_stored_at m). Qed.

Lemma stamp_principal now m : km_principal_pattern (stamp now m) = km_principal_pattern m.
Proof. unfold stamp. by destruct (km_stored_at m). Qed.

Lemma fence_step_inv v o :
  fence_ok v →
  fence_ok (fence_step v o) ∧ kill_fence_epoch v <= kill_fence_epoch (fence_step v o).
Proof.
  intros (Hok & He & Hm). unfold fence_ok, kill_fence_epoch, in_u64 in *.
  destruct o as [now p|id|now live|now]; simpl.
  - unfold record_store. destruct (kill p); simpl; [|split_and!; [done|lia|lia|done|lia]].
    unfold in_u64, u64_saturating_add, u64_max in *. split_and!; [by apply bt_insert_ok|lia|lia| |lia].
    intros i m [[= -> ->]|Hin]%bt_insert_elem_of; simpl; [lia|]. specialize (Hm _ _ Hin). lia.
  - unfold delete_policy. destruct (_ !! _); simpl; (split_and!; [done|lia|lia|done|lia]).
  - rewrite foldl_remove_filter. split_and!; [by apply bt_filter_ok|lia|lia| |lia].
    intros i m [Hin _]%elem_of_filter_bool. by eapply Hm.
  - split_and!; [by apply bt_map_ok|lia|lia| |lia].
    intros i m ([i' m'] & [= -> ->] & Hin)%list_elem_of_fmap. rewrite stamp_epoch. by eapply Hm.
Qed.

Lemma fence_steps_inv v ops :
  fence_ok v →
  fence_ok (foldl fence_step v ops)
  ∧ kill_fence_epoch v <= kill_fence_epoch (foldl fence_step v ops).
Proof.
  revert v. induction ops as [|o ops IH]; intros v Hv; simpl; [by split|].
  destruct (fence_step_inv v o Hv) as [H1 H2]. destruct (IH _ H1) as [H3 H4].
  split; [done|lia].
Qed.

(** ** Theorems *)

(** In every execution the kill epoch never decreases, every mark carries an epoch
    the fence has reached, and the marks stay sorted by policy id. *)
Theorem fence_epoch_monotone ops1 ops2 :
  let v0 := {| fv_policies := ∅; fv_fence := {| kf_epoch := 0; kf_marks := [] |} |} in
  let v1 := foldl fence_step v0 ops1 in
  let v2 := foldl fence_step v1 ops2 in
  fence_ok v1 ∧ fence_ok v2 ∧ kill_fence_epoch v1 <= kill_fence_epoch v2.
Proof.
  assert (H0 : fence_ok {| fv_policies := ∅; fv_fence := {| kf_epoch := 0; kf_marks := [] |} |}).
  { split_and!; [done|done|]. intros i m H. by apply elem_of_nil in H. }
  intros v0 v1 v2. destruct (fence_steps_inv v0 ops1 H0) as [H1 _].
  destruct (fence_steps_inv v1 ops2 H1) as [H2 H3]. done.
Qed.

(** The marked state that keeps work refused: a mark for [id] with patterns that
    match the work and an epoch after its admission. *)
Definition refused_by (id : string) (q : KillFenceQuery) (v : FenceVault) : Prop :=
  fence_ok v ∧ ∃ m, bt_get (kf_marks (fv_fence v)) id = Some m ∧ mark_refuses q (id, m) = true.

(** What later operations must respect: garbage collection counts the work among the
    live admissions, and a kill stored under the same id still matches the work. *)
Definition respects (id : string) (q : KillFenceQuery) (o : fence_op) : Prop :=
  match o with
  | FO_store _ p => kill p = true → policy_id p = id → policy_halts q p = true
  | FO_gc _ live => kq_admitted_epoch q ∈ live
  | _ => True
  end.

Lemma store_kill_refuses now v p q :
  fence_ok v → policy_halts q p = true → kq_admitted_epoch q <= kill_fence_epoch v →
  kq_admitted_epoch q < u64_max →
  refused_by (policy_id p) q (store_policy now v p).
Proof.
  intros Hv Hh Ha Hmax. split; [by apply (fence_step_inv v (FO_store now p))|].
  destruct Hv as (Hok & He & _). unfold policy_halts in Hh.
  rewrite !andb_true_iff in Hh. destruct Hh as [[Hk Hc] Hp].
  unfold store_policy, record_store. rewrite Hk. cbn -[u64_saturating_add].
  eexists. split; [by apply bt_get_insert|].
  unfold mark_refuses. cbn -[u64_saturating_add]. rewrite Hc, Hp, !andb_true_r.
  apply Z.ltb_lt. unfold u64_saturating_add, kill_fence_epoch, in_u64, u64_max in *. lia.
Qed.

Lemma refused_step id q v o :
  kq_admitted_epoch q < u64_max →
  respects id q o → refused_by id q v → refused_by id q (fence_step v o).
Proof.
  intros Hmax Hr [Hv (m & Hg & Hm)]. split; [by apply fence_step_inv|].
  assert (Hmr := Hm). unfold mark_refuses in Hmr. rewrite !andb_true_iff in Hmr.
  destruct Hmr as [[Hlt%Z.ltb_lt Hc] Hp]. simpl in Hlt.
  assert (Hle : km_epoch m <= kill_fence_epoch v) by (eapply Hv, bt_get_elem_of, Hg).
  destruct o as [now p|id'|now live|now].
  - destruct (decide (kill p = true ∧ policy_id p = id)) as [[Hk <-]|Hn].
    + by apply (store_kill_refuses now v p q); [|apply Hr|lia|].
    + simpl. unfold record_store. destruct (kill p); [|by exists m]. simpl.
      exists m. rewrite bt_get_insert_ne by naive_solver. done.
  - simpl. unfold delete_policy. destruct (_ !! _); by exists m.
  - exists m. split; [|done]. eapply gc_keeps_mark; [apply Hv|exact Hr|lia|done].
  - exists (stamp now m). simpl. rewrite bt_get_map, Hg. split; [done|].
    unfold mark_refuses in *. simpl in *. by rewrite stamp_epoch, stamp_credential, stamp_principal.
Qed.

Lemma refused_not_clear id q v : refused_by id q v → is_clear (kill_fence_check v q) = false.
Proof.
  intros [_ (m & Hg & Hm)]. destruct (kill_fence_check v q) eqn:E; try done.
  apply verdict_clear_iff in E as [_ E]. rewrite E in Hm; [done|]. by apply bt_get_elem_of.
Qed.

(** Work admitted before a matching kill is stored is never clear again: not while
    the kill is stored, not after it is deleted, not after its id is overwritten by a
    policy that is no kill, and not after garbage collection that counts the work
    among the live admissions. *)
Theorem killed_work_stays_refused v now p q ops :
  fence_ok v → policy_halts q p = true →
  kq_admitted_epoch q <= kill_fence_epoch v → kq_admitted_epoch q < u64_max →
  Forall (respects (policy_id p) q) ops →
  let v' := foldl fence_step (store_policy now v p) ops in
  is_clear (kill_fence_check v' q) = false ∧ refusal_reason (kill_fence_check v' q) ≠ None.
Proof.
  intros Hv Hh Ha Hmax Hops v'.
  assert (Hr : refused_by (policy_id p) q v').
  { subst v'. assert (H0 := store_kill_refuses now v p q Hv Hh Ha Hmax).
    revert H0. generalize (store_policy now v p). clear Hv Ha.
    induction Hops as [|o ops Ho _ IH]; intros w Hw; simpl; [done|].
    apply IH. by apply refused_step. }
  apply refused_not_clear in Hr. by destruct (kill_fence_check v' q).
Qed.

(** Garbage collection of kill marks is invisible to every live admission: the whole
    verdict is unchanged, whatever the clock says. *)
Theorem gc_preserves_live_verdicts now live v q :
  fence_ok v → kq_admitted_epoch q ∈ live →
  kill_fence_check (gc_marks now live v) q = kill_fence_check v q.
Proof.
  intros (Hok & _ & _) Ha. unfold kill_fence_check, kill_fence_verdict, gc_marks.
  cbv zeta. cbn [fv_policies fv_fence kf_marks].
  destruct (merge_sort _ _) as [|id l]; [|done].
  rewrite foldl_remove_filter, find_filter; [done|].
  intros [id m] Hin Hm. unfold mark_refuses in Hm. rewrite !andb_true_iff in Hm.
  destruct Hm as [[Hlt%Z.ltb_lt _] _].
  assert (Hg := gc_keeps_mark now live v id m _ Hok Ha Hlt (bt_elem_of_get _ _ _ Hok Hin)).
  simpl in Hg. rewrite foldl_remove_filter in Hg.
  by apply bt_get_elem_of, elem_of_filter_bool in Hg as [_ Hg].
Qed.

(** The fence keeps one mark per policy id, so a kill that is replaced by a kill with
    another scope under the same id forgets the old scope: work the first kill
    refused, admitted before it, is clear again. *)
Theorem replaced_kill_forgets_old_scope now now' k alias other :
  let v0 := {| fv_policies := ∅; fv_fence := {| kf_epoch := 0; kf_marks := [] |} |} in
  let everyone := {| policy_id := k; policy_name := "halt everyone";
                     credential_pattern := "*"; principal_pattern := None; rules := [];
                     default_action := PA_Deny; kill := true |} in
  let q := {| kq_credential_alias := alias; kq_principal := None; kq_admitted_epoch := 0 |} in
  let v1 := store_policy now v0 everyone in
  let v2 := store_policy now' v1 (kill_switch k other) in
  kill_fence_check v1 q = KF_Halted k ∧ kill_fence_check v2 q = KF_Clear.
Proof.
  intros v0 everyone q v1 v2. split.
  - unfold kill_fence_check, values, v1, v0, store_policy, q. cbn [fv_policies policy_id everyone].
    rewrite insert_empty, map_to_list_singleton. unfold kill_fence_verdict, policy_halts. simpl.
    unfold credential_matches, glob_matches. done.
  - apply verdict_clear_iff. split.
    + intros p Hp. unfold values, v2, v1, v0, store_policy in Hp.
      cbn [fv_policies policy_id everyone kill_switch] in Hp.
      rewrite insert_insert_eq, insert_empty, map_to_list_singleton in Hp. simpl in Hp.
      apply list_elem_of_singleton in Hp as ->. unfold policy_halts. simpl.
      done.
    + intros e He. unfold v2, v1, v0, store_policy, record_store in He.
      cbn -[u64_saturating_add] in He. change (String.compare k k) with (kcmp k k) in He.
      rewrite kcmp_refl in He. apply list_elem_of_singleton in He as ->.
      unfold mark_refuses. cbn -[u64_saturating_add]. by rewrite andb_false_r.
Qed.
End fence.
