(* ===== verification/Outbox.v ===== *)
(** * The event outbox

    Models the outbox state machine: [OutboxEvent] and [DeliveryState] of
    [src/src/outbox.rs], the pure model of [src/src/storage/outbox_model.rs], and the
    locked mutations of [OutboxStore] in [src/src/storage/outbox_store.rs] (append,
    deduplicated append, migration inserts, claim, delivery outcome, replay, garbage
    collection and the replay cursor).  Each mutation runs under the outbox file's
    exclusive lock, so an execution is a sequence of [outbox_op]s; the boolean that
    says whether the file is rewritten is part of the result.  Persistence and the
    loss counters of failed writes are outside the model.

    The theorems: sequence numbers are never reused and the log stays sorted; a
    poller that follows the cursor of [api_list_events] ([src/src/web/api.rs], here
    [events_page]) sees every retained event once and in order while the log changes
    between its pages; a claim takes at most one event per subject, and two claims inside a lease never
    take the same subject; delivery outcomes move an event along
    [Pending -> Delivered | DeadLettered] with a bounded backoff; garbage collection
    drops a prefix, spares protected and (below the cap) undelivered events; a
    drained intent is appended exactly once. *)

From stdpp Require Import base gmap strings list sorting.
From Stdlib Require Import Ascii ZArith Lia.
From S2P Require Import Prelude BTree Json.

Open Scope Z_scope.

(** ** Data *)

(** [DeliveryState]. *)
Inductive DeliveryState := Pending | Delivered | DeadLettered.

#[export] Instance DeliveryState_eq_dec : EqDecision DeliveryState.
Proof. solve_decision. Defined.

(** [OutboxEvent]. *)
Record OutboxEvent := {
  sequence : Z;
  subject : string;
  event_type : string;
  payload : Value;
  created_at : DateTime;
  delivery : DeliveryState;
  attempts : Z;
  leased_until : option DateTime;
  last_attempt_at : option DateTime;
  last_error : option string;
  dedup_id : option string;
}.

(** [OutboxCache]. *)
Record OutboxCache := {
  outbox : BTreeMap Z OutboxEvent;
  outbox_seq : Z;
}.

(** Field updates of an event. *)
Definition set_delivery (d : DeliveryState) (att : Z) (lease last : option DateTime)
    (err : option string) (e : OutboxEvent) : OutboxEvent :=
  {| sequence := sequence e; subject := subject e; event_type := event_type e;
     payload := payload e; created_at := created_at e; delivery := d; attempts := att;
     leased_until := lease; last_attempt_at := last; last_error := err;
     dedup_id := dedup_id e |}.

Definition set_lease (t : DateTime) (e : OutboxEvent) : OutboxEvent :=
  set_delivery (delivery e) (attempts e) (Some t) (last_attempt_at e) (last_error e) e.

(** [BTreeMap::get_mut] followed by an update of the value found. *)
Definition bt_alter {V} (f : V → V) (k : Z) (m : BTreeMap Z V) : BTreeMap Z V :=
  (λ e, if e.1 =? k then (e.1, f e.2) else e) <$> m.

(** ** The pure model *)

(** [push_event]. *)
Definition push_event (now : DateTime) (c : OutboxCache) (subj ty : string)
    (body : Value) (dedup : option string) : Z * OutboxCache :=
  let seq := (outbox_seq c + 1) mod (u64_max + 1) in
  (seq,
   {| outbox := bt_insert seq
        {| sequence := seq; subject := subj; event_type := ty; payload := body;
           created_at := now; delivery := Pending; attempts := 0; leased_until := None;
           last_attempt_at := None; last_error := None; dedup_id := dedup |} (outbox c);
      outbox_seq := seq |}).

(** Whether an event is under a lease that has not run out. *)
Definition leased (now : DateTime) (e : OutboxEvent) : bool :=
  match leased_until e with Some t => now <? t | None => false end.

(** The [for] loop of [earliest_pending_per_subject]: [seen] is the set of subjects
    met, [n] the length of [out]. *)
Fixpoint earliest_loop (limit : nat) (respect_lease : bool) (now : DateTime)
    (seen : list string) (n : nat) (es : list OutboxEvent) : list OutboxEvent :=
  match es with
  | [] => []
  | e :: es' =>
      if negb (bool_decide (delivery e = Pending)) then
        earliest_loop limit respect_lease now seen n es'
      else if bool_decide (subject e ∈ seen) then
        earliest_loop limit respect_lease now seen n es'
      else if respect_lease && leased now e then
        earliest_loop limit respect_lease now (subject e :: seen) n es'
      else if (limit <=? S n)%nat then [e]
      else e :: earliest_loop limit respect_lease now (subject e :: seen) (S n) es'
  end.

(** [earliest_pending_per_subject]. *)
Definition earliest_pending_per_subject (m : BTreeMap Z OutboxEvent) (limit : nat)
    (respect_lease : bool) (now : DateTime) : list OutboxEvent :=
  earliest_loop limit respect_lease now [] 0 (bt_values m).

(** The backoff of a failed delivery, in seconds. *)
Definition backoff (att : Z) : Z :=
  Z.min (u64_saturating_mul 10 (Z.shiftl 1 (Z.min att 5))) 300.

(** [record_delivery_transition]; [now] and [now'] are the two [Utc::now()] calls.
    The result is [(dead_lettered_this_call, mutated)]. *)
Definition record_delivery_transition (now now' : DateTime) (m : BTreeMap Z OutboxEvent)
    (seq : Z) (success : bool) (error : option string) (max_attempts : Z)
    : (bool * bool) * BTreeMap Z OutboxEvent :=
  match bt_get m seq with
  | None => ((false, false), m)
  | Some e =>
      if negb (bool_decide (delivery e = Pending)) then ((false, false), m)
      else
        let att := (attempts e + 1) mod (u32_max + 1) in
        if success then
          ((false, true),
           bt_alter (set_delivery Delivered att None (Some now) None) seq m)
        else if max_attempts <=? att then
          ((true, true),
           bt_alter (set_delivery DeadLettered att None (Some now) error) seq m)
        else
          ((false, true),
           bt_alter (set_delivery Pending att (Some (now' + seconds (backoff att)))
                       (Some now) error) seq m)
  end.

(** ** The store *)

(** [OutboxStore::append], when the write succeeds. *)
Definition append (now : DateTime) (subj ty : string) (body : Value) (c : OutboxCache)
    : Z * OutboxCache :=
  push_event now c subj ty body None.

(** [OutboxStore::append_deduped]. *)
Definition append_deduped (now : DateTime) (dedup subj ty : string) (body : Value)
    (c : OutboxCache) : (Z * bool) * OutboxCache :=
  match List.find (λ e, bool_decide (dedup_id e = Some dedup)) (bt_values (outbox c)) with
  | Some e => ((sequence e, false), c)
  | None => let '(seq, c') := push_event now c subj ty body (Some dedup) in ((seq, true), c')
  end.

(** [entry(seq).or_insert(event)]. *)
Definition or_insert (m : BTreeMap Z OutboxEvent) (e : OutboxEvent) : BTreeMap Z OutboxEvent :=
  match bt_get m (sequence e) with Some _ => m | None => bt_insert (sequence e) e m end.

(** [OutboxStore::insert_event]. *)
Definition insert_event (e : OutboxEvent) (c : OutboxCache) : OutboxCache :=
  {| outbox := or_insert (outbox c) e; outbox_seq := Z.max (outbox_seq c) (sequence e) |}.

(** [OutboxStore::insert_events_preserving_seq]. *)
Definition insert_events_preserving_seq (es : list OutboxEvent) (c : OutboxCache) : OutboxCache :=
  match es with
  | [] => c
  | _ => {| outbox := foldl or_insert (outbox c) es;
            outbox_seq := foldl (λ s e, Z.max s (sequence e)) (outbox_seq c) es |}
  end.

(** [OutboxStore::list_after]. *)
Definition list_after (after : Z) (limit : nat) (c : OutboxCache) : list OutboxEvent :=
  take limit (List.filter (λ e : Z * OutboxEvent, (after + 1) mod (u64_max + 1) <=? e.1)
                (outbox c)).*2.

(** [OutboxStore::deliverable]. *)
Definition deliverable (now : DateTime) (limit : nat) (c : OutboxCache) : list OutboxEvent :=
  earliest_pending_per_subject (outbox c) limit false now.

(** The latest instant [chrono] represents, and [checked_add_signed] and
    [checked_sub_signed] against it and the earliest one. *)
Definition datetime_max : DateTime := 8210266876799 * nanos_per_sec + 999999999.
Definition datetime_min : DateTime := -8334601228800 * nanos_per_sec.
Definition checked_shift (now : DateTime) (d : Z) : option DateTime :=
  if (datetime_min <=? now + d) && (now + d <=? datetime_max) then Some (now + d) else None.

(** The lease a claim stamps. *)
Definition lease_until (now : DateTime) (lease_secs : Z) : DateTime :=
  let secs := Z.min (Z.max lease_secs 1) 31556952 in
  default now (checked_shift now (seconds secs)).

(** [OutboxStore::claim]. *)
Definition claim (now : DateTime) (limit : nat) (lease_secs : Z) (c : OutboxCache)
    : (list OutboxEvent * bool) * OutboxCache :=
  let claimed := earliest_pending_per_subject (outbox c) limit true now in
  let until := lease_until now lease_secs in
  ((set_lease until <$> claimed, negb (bool_decide (claimed = []))),
   {| outbox := foldl (λ m e, bt_alter (set_lease until) (sequence e) m) (outbox c) claimed;
      outbox_seq := outbox_seq c |}).

(** [OutboxStore::record_delivery]. *)
Definition record_delivery (now now' : DateTime) (seq : Z) (success : bool)
    (error : option string) (max_attempts : Z) (c : OutboxCache) : (bool * bool) * OutboxCache :=
  let '(r, m) := record_delivery_transition now now' (outbox c) seq success error max_attempts in
  (r, {| outbox := m; outbox_seq := outbox_seq c |}).

(** [OutboxStore::list_dead_letter]. *)
Definition list_dead_letter (limit : nat) (c : OutboxCache) : list OutboxEvent :=
  take limit (List.filter (λ e, bool_decide (delivery e = DeadLettered)) (bt_values (outbox c))).

(** [OutboxStore::replay_dead_letter]. *)
Definition replay_dead_letter (seq : Z) (c : OutboxCache) : bool * OutboxCache :=
  match bt_get (outbox c) seq with
  | Some e =>
      if bool_decide (delivery e = DeadLettered) then
        (true, {| outbox := bt_alter (λ e, set_delivery Pending 0 None (last_attempt_at e) None e)
                              seq (outbox c);
                  outbox_seq := outbox_seq c |})
      else (false, c)
  | None => (false, c)
  end.

(** The age cutoff of [gc_capped]: [None] when [chrono] cannot represent it.
    [Duration::try_seconds] refuses more than [i64::MAX / 1000] seconds. *)
Definition gc_cutoff (now : DateTime) (retention_secs : Z) : option DateTime :=
  let secs := if retention_secs <=? i64_max then retention_secs else i64_max in
  if secs <=? i64_max / 1000 then checked_shift now (- seconds secs) else None.

(** [Iterator::take_while]. *)
Fixpoint take_while {A} (f : A → bool) (l : list A) : list A :=
  match l with [] => [] | x :: l' => if f x then x :: take_while f l' else [] end.

(** [GcOutcome], with the number of pruned events the cap counts per state. *)
Record GcOutcome := {
  age_pruned : nat;
  cap_pruned : list OutboxEvent;
  cap_blocked : bool;
}.

(** [CapPruned::undelivered]. *)
Definition undelivered (o : GcOutcome) : nat :=
  length (cap_pruned o)
  - length (List.filter (λ e, bool_decide (delivery e = Delivered)) (cap_pruned o)).

(** [is_protected] of [gc_capped]. *)
Definition is_protected (protected : list string) (e : OutboxEvent) : bool :=
  match dedup_id e with Some d => bool_decide (d ∈ protected) | None => false end.

(** The first stage of [gc_capped]. *)
Definition gc_age (cutoff : option DateTime) (protected : list string)
    (m : BTreeMap Z OutboxEvent) : BTreeMap Z OutboxEvent :=
  match cutoff with
  | None => m
  | Some t =>
      match last (take_while (λ e : Z * OutboxEvent,
                    (created_at e.2 <? t) && bool_decide (delivery e.2 = Delivered)
                    && negb (is_protected protected e.2)) m) with
      | Some (below, _) => List.filter (λ e : Z * OutboxEvent, below <? e.1) m
      | None => m
      end
  end.

(** The entries the second stage of [gc_capped] dooms. *)
Definition gc_doomed (max_retained : nat) (protected : list string)
    (m : BTreeMap Z OutboxEvent) : list (Z * OutboxEvent) :=
  take_while (λ e : Z * OutboxEvent, negb (is_protected protected e.2))
    (take (length m - max_retained) m).

(** [OutboxStore::gc_capped]. *)
Definition gc_capped (now : DateTime) (retention_secs : Z) (max_retained : nat)
    (protected : list string) (c : OutboxCache) : (GcOutcome * bool) * OutboxCache :=
  let m1 := gc_age (gc_cutoff now retention_secs) protected (outbox c) in
  let aged := (length (outbox c) - length m1)%nat in
  let doomed := gc_doomed max_retained protected m1 in
  let m2 := foldl (λ m e, bt_remove e.1 m) m1 doomed in
  let out := {| age_pruned := aged; cap_pruned := doomed.*2;
                cap_blocked := (length doomed <? length m1 - max_retained)%nat |} in
  ((out, (0 <? aged + length doomed)%nat),
   {| outbox := m2; outbox_seq := outbox_seq c |}).

(** ** Executions *)

(** The locked mutations of the store. *)
Inductive outbox_op :=
| OO_append (now : DateTime) (subj ty : string) (body : Value)
| OO_append_deduped (now : DateTime) (dedup subj ty : string) (body : Value)
| OO_insert (es : list OutboxEvent)
| OO_claim (now : DateTime) (limit : nat) (lease_secs : Z)
| OO_record (now now' : DateTime) (seq : Z) (success : bool) (error : option string)
    (max_attempts : Z)
| OO_replay (seq : Z)
| OO_gc (now : DateTime) (retention_secs : Z) (max_retained : nat) (protected : list string).

Definition outbox_step (c : OutboxCache) (o : outbox_op) : OutboxCache :=
  match o with
  | OO_append now subj ty body => (append now subj ty body c).2
  | OO_append_deduped now dedup subj ty body => (append_deduped now dedup subj ty body c).2
  | OO_insert es => insert_events_preserving_seq es c
  | OO_claim now limit lease_secs => (claim now limit lease_secs c).2
  | OO_record now now' seq success error max_attempts =>
      (record_delivery now now' seq success error max_attempts c).2
  | OO_replay seq => (replay_dead_letter seq c).2
  | OO_gc now retention_secs max_retained protected =>
      (gc_capped now retention_secs max_retained protected c).2
  end.

(** The representation invariant: the log is sorted by sequence, an event carries the
    sequence it is filed under, and no sequence is beyond the last assigned one. *)
Definition entry_ok (seq : Z) (e : Z * OutboxEvent) : Prop :=
  sequence e.2 = e.1 ∧ 0 <= e.1 <= seq.

Definition outbox_ok (c : OutboxCache) : Prop :=
  bt_ok (outbox c) ∧ in_u64 (outbox_seq c) ∧ Forall (entry_ok (outbox_seq c)) (outbox c).

(** ** Lemmas *)

Lemma bt_alter_keys (f : OutboxEvent → OutboxEvent) k m : bt_keys (bt_alter f k m) = bt_keys m.
Proof.
  unfold bt_keys, bt_alter. rewrite <- list_fmap_compose. apply list_fmap_ext.
  intros _ [k' e] _. simpl. by destruct (k' =? k).
Qed.

Lemma bt_above_keys {K V W} {OK : OrdKey K} k (m : BTreeMap K V) (m' : BTreeMap K W) :
  bt_keys m = bt_keys m' → bt_above k m → bt_above k m'.
Proof.
  revert m'. induction m as [|[k1 v] m IH]; intros [|[k2 w] m'] H; try done; simpl.
  injection H as -> H. intros [? ?]. eauto.
Qed.

Lemma bt_ok_keys {K V W} {OK : OrdKey K} (m : BTreeMap K V) (m' : BTreeMap K W) :
  bt_keys m = bt_keys m' → bt_ok m → bt_ok m'.
Proof.
  revert m'. induction m as [|[k1 v] m IH]; intros [|[k2 w] m'] H; try done; simpl.
  injection H as -> H. intros [? ?]. split; [by eapply bt_above_keys|eauto].
Qed.

Lemma bt_alter_ok (f : OutboxEvent → OutboxEvent) k m : bt_ok m → bt_ok (bt_alter f k m).
Proof. apply bt_ok_keys. symmetry. apply bt_alter_keys. Qed.

Lemma bt_get_alter {V} (f : V → V) k k' m :
  bt_get (bt_alter f k m) k' = if k' =? k then f <$> bt_get m k' else bt_get m k'.
Proof.
  induction m as [|[k2 e] m IH]; simpl; [by destruct (k' =? k)|].
  destruct (k2 =? k) eqn:E2; cbn [fst snd]; rewrite IH; simpl;
    destruct (k' ?= k2) eqn:Ec; try done; apply Z.compare_eq_iff in Ec as ->; by rewrite E2.
Qed.

Lemma bt_alter_entries seq (f : OutboxEvent → OutboxEvent) k m :
  (∀ e, sequence (f e) = sequence e) → Forall (entry_ok seq) m → Forall (entry_ok seq) (bt_alter f k m).
Proof.
  intros Hf H. apply Forall_fmap. eapply Forall_impl; [exact H|].
  intros [k' e] [H1 H2]. simpl in *. unfold entry_ok. simpl.
  destruct (k' =? k); simpl; by rewrite ?Hf.
Qed.

#[local] Hint Resolve bt_alter_ok bt_alter_entries : vul.

Lemma foldl_lease_inv seq until (l : list OutboxEvent) (m : BTreeMap Z OutboxEvent) :
  bt_ok m ∧ Forall (entry_ok seq) m →
  let m' := foldl (λ m e, bt_alter (set_lease until) (sequence e) m) m l in
  bt_ok m' ∧ Forall (entry_ok seq) m'.
Proof.
  revert m. induction l as [|e l IH]; intros m [H1 H2]; simpl; [done|].
  apply IH. split; [by apply bt_alter_ok|by apply bt_alter_entries].
Qed.

Lemma Forall_bool_filter {A} (P : A → Prop) (f : A → bool) l :
  Forall P l → Forall P (List.filter f l).
Proof. induction 1; simpl; [constructor|]. destruct (f x); auto. Qed.

Lemma entry_ok_mono seq seq' m :
  seq <= seq' → Forall (entry_ok seq) m → Forall (entry_ok seq') m.
Proof. intros Hs H. eapply Forall_impl; [exact H|]. intros [k e] [? ?]. split; [done|lia]. Qed.

Lemma Forall_bt_insert (P : Z * OutboxEvent → Prop) k e m :
  P (k, e) → Forall P m → Forall P (bt_insert k e m).
Proof.
  intros Hk Hm. apply Forall_forall. intros [k' e'] [->|Hin]%bt_insert_elem_of; [done|].
  by eapply Forall_forall in Hm.
Qed.

Lemma push_event_ok now c subj ty body dedup seq c' :
  outbox_ok c → outbox_seq c < u64_max →
  push_event now c subj ty body dedup = (seq, c') →
  outbox_ok c' ∧ seq = outbox_seq c + 1 ∧ outbox_seq c' = seq
  ∧ ∃ e, outbox c' = outbox c ++ [(seq, e)] ∧ sequence e = seq ∧ dedup_id e = dedup
       ∧ delivery e = Pending ∧ subject e = subj.
Proof.
  intros (Hok & Hu & He) Hlt. unfold push_event, in_u64 in *.
  rewrite Z.mod_small by lia. intros [= <- <-]. split_and!; [|done|done|].
  - split_and!; simpl; [by apply bt_insert_ok|unfold in_u64; lia|].
    apply Forall_bt_insert; [split; cbn; [done|lia]|]. by eapply entry_ok_mono; [|exact He]; lia.
  - simpl. rewrite bt_insert_last; [eexists; by split_and!|].
    intros k e Hin. eapply Forall_forall in He; [|exact Hin]. destruct He as [_ He].
    simpl in *. apply Z.compare_lt_iff. lia.
Qed.

Lemma or_insert_ok seq m e :
  0 <= sequence e <= seq → bt_ok m ∧ Forall (entry_ok seq) m →
  bt_ok (or_insert m e) ∧ Forall (entry_ok seq) (or_insert m e).
Proof.
  intros He [H1 H2]. unfold or_insert. destruct (bt_get m (sequence e)); [done|].
  split; [by apply bt_insert_ok|]. by apply Forall_bt_insert.
Qed.

Lemma foldl_or_insert_ok seq es m :
  Forall (λ e, 0 <= sequence e <= seq) es → bt_ok m ∧ Forall (entry_ok seq) m →
  bt_ok (foldl or_insert m es) ∧ Forall (entry_ok seq) (foldl or_insert m es).
Proof.
  intros Hes. revert m. induction Hes as [|e es He _ IH]; intros m Hm; simpl; [done|].
  apply IH. by apply or_insert_ok.
Qed.

Lemma foldl_max_bounds es s :
  s <= foldl (λ s e, Z.max s (sequence e)) s es
  ∧ Forall (λ e, sequence e <= foldl (λ s e, Z.max s (sequence e)) s es) es
  ∧ ∀ b, s <= b → Forall (λ e, sequence e <= b) es →
      foldl (λ s e, Z.max s (sequence e)) s es <= b.
Proof.
  revert s. induction es as [|e es IH]; intros s; simpl.
  { split_and!; [lia|constructor|auto]. }
  destruct (IH (Z.max s (sequence e))) as (H1 & H2 & H3). split_and!; [lia| |].
  - constructor; [lia|done].
  - intros b Hs Hb. inversion Hb; subst. apply H3; [lia|done].
Qed.

Lemma foldl_remove_keys (d m : BTreeMap Z OutboxEvent) :
  foldl (λ m e, bt_remove e.1 m) m d
  = List.filter (λ e, negb (existsb (λ x, x.1 =? e.1) d)) m.
Proof.
  revert m. induction d as [|x d IH]; intros m; simpl.
  - induction m as [|e m IH]; simpl; [done|]. by rewrite <- IH.
  - rewrite IH. unfold bt_remove. rewrite filter_filter_bool. apply List.filter_ext. intros e.
    cbn. destruct (Z.compare_spec x.1 e.1), (Z.eqb_spec x.1 e.1); try done; lia.
Qed.

Lemma gc_age_filter cutoff protected m :
  ∃ f, gc_age cutoff protected m = List.filter f m.
Proof.
  assert (Hid : ∃ f, m = List.filter f m).
  { exists (λ _, true). by induction m as [|x m IH]; simpl; [|rewrite <- IH]. }
  unfold gc_age. destruct cutoff; [|done]. destruct (last _) as [[b e]|]; [|done]. eauto.
Qed.

(** What an operation adds to the largest assigned sequence. *)
Definition inserts_below (b : Z) (o : outbox_op) : Prop :=
  match o with
  | OO_insert es => Forall (λ e, 0 <= sequence e <= b) es
  | _ => True
  end.

Lemma outbox_step_ok b c o :
  outbox_ok c → outbox_seq c <= b → inserts_below b o → b < u64_max →
  outbox_ok (outbox_step c o) ∧ outbox_seq c <= outbox_seq (outbox_step c o) <= b + 1.
Proof.
  intros Hc Hb Hi Hu. assert (Hc' := Hc). destruct Hc as (Hok & Hs & He).
  destruct o as [now subj ty body|now dd subj ty body|es|now limit ls|now now' seq ok er mx|seq|now rt mx pr]; cbn [outbox_step].
  - unfold append. destruct (push_event _ _ _ _ _ _) as [s c1] eqn:Ep.
    apply push_event_ok in Ep as (H1 & H2 & H3 & _); [|done|lia]. cbn [snd]. split; [done|lia].
  - unfold append_deduped. destruct (List.find _ _); [by split; [|cbn; lia]|].
    destruct (push_event _ _ _ _ _ _) as [s c1] eqn:Ep.
    apply push_event_ok in Ep as (H1 & H2 & H3 & _); [|done|lia]. cbn [snd]. split; [done|lia].
  - unfold insert_events_preserving_seq. destruct es as [|e es]; [by split; [|lia]|].
    destruct (foldl_max_bounds (e :: es) (outbox_seq c)) as (H1 & H2 & H3).
    unfold outbox_ok. cbn [outbox outbox_seq]. set (s' := foldl _ _ _) in *.
    assert (H4 : s' <= b).
    { apply H3; [done|]. eapply Forall_impl; [exact Hi|]. simpl. lia. }
    destruct (foldl_or_insert_ok s' (e :: es) (outbox c)) as [H5 H6].
    { apply Forall_forall. intros x Hx. eapply Forall_forall in Hi; [|exact Hx].
      eapply Forall_forall in H2; [|exact Hx]. simpl in *. lia. }
    { split; [done|]. by eapply entry_ok_mono. }
    unfold in_u64 in *. split_and!; try done; lia.
  - destruct (foldl_lease_inv (outbox_seq c) (lease_until now ls)
      (earliest_pending_per_subject (outbox c) limit true now) (outbox c)) as [H1 H2]; [done|].
    split; [by split_and!|cbn; lia].
  - unfold record_delivery, record_delivery_transition.
    repeat case_match; simplify_eq; simpl; (split; [|lia]); split_and!; simpl; auto with vul.
  - unfold replay_dead_letter.
    repeat case_match; simplify_eq; simpl; (split; [|lia]); split_and!; simpl; auto with vul.
  - unfold gc_capped. cbv zeta. cbn [snd outbox_seq]. rewrite foldl_remove_keys.
    destruct (gc_age_filter (gc_cutoff now rt) pr (outbox c)) as [f ->].
    split; [|lia]. split_and!; simpl; auto using Forall_bool_filter with vul.
Qed.

Lemma outbox_steps_ok b c ops :
  outbox_ok c → outbox_seq c <= b → Forall (inserts_below b) ops →
  b + Z.of_nat (length ops) <= u64_max →
  let c' := foldl outbox_step c ops in
  outbox_ok c' ∧ outbox_seq c <= outbox_seq c' <= b + Z.of_nat (length ops).
Proof.
  revert b c. induction ops as [|o ops IH]; intros b c Hc Hb Hi Hl; cbn [foldl length] in *.
  { split; [done|lia]. }
  inversion Hi as [|? ? Ho Hops]; subst.
  destruct (outbox_step_ok b c o Hc Hb Ho) as [H1 H2]; [lia|].
  destruct (IH (b + 1) (outbox_step c o) H1) as [H3 H4]; [lia| |lia|].
  - eapply Forall_impl; [exact Hops|]. intros [] H; try done. simpl in *.
    eapply Forall_impl; [exact H|]. simpl. lia.
  - split; [done|lia].
Qed.

(** ** Theorems *)

(** In every execution that does not exhaust the 64-bit counter the log stays sorted
    and well formed, and an append is given a sequence above every sequence handed
    out before it: no sequence is ever reused, whatever was pruned in between. *)
Theorem sequences_never_reused b c ops now now' subj subj' ty ty' body body' :
  outbox_ok c → outbox_seq c <= b → Forall (inserts_below (b + 1)) ops →
  b + Z.of_nat (length ops) + 2 <= u64_max →
  let r := append now subj ty body c in
  let c' := foldl outbox_step r.2 ops in
  let r' := append now' subj' ty' body' c' in
  outbox_ok r'.2 ∧ outbox_seq c < r.1 < r'.1
  ∧ ∀ k e, (k, e) ∈ outbox c' → k < r'.1.
Proof.
  intros Hc Hb Hi Hl. cbv zeta. unfold append.
  destruct (push_event now c subj ty body None) as [s1 c1] eqn:Ep. cbn [fst snd].
  apply push_event_ok in Ep as (H1 & H2 & H3 & _); [|done|lia].
  destruct (outbox_steps_ok (b + 1) c1 ops H1) as [H4 H5]; [lia|done|lia|].
  set (c2 := foldl outbox_step c1 ops) in *.
  destruct (push_event now' c2 subj' ty' body' None) as [s2 c3] eqn:Ep. cbn [fst snd].
  apply push_event_ok in Ep as (H6 & H7 & H8 & _); [|done|lia].
  split_and!; [done|lia|lia|].
  intros k e Hin. destruct H4 as (_ & _ & H4). eapply Forall_forall in H4; [|exact Hin].
  destruct H4 as [_ H4]. simpl in H4. lia.
Qed.

(** *** The replay cursor *)

(** The retained events beyond a cursor. *)
Definition beyond (after : Z) (m : BTreeMap Z OutboxEvent) : BTreeMap Z OutboxEvent :=
  List.filter (λ e : Z * OutboxEvent, after <? e.1) m.

Lemma filter_all {A} (f : A → bool) l : (∀ x, x ∈ l → f x = true) → List.filter f l = l.
Proof.
  induction l as [|x l IH]; simpl; [done|]. intros H. rewrite (H x) by constructor.
  f_equal. apply IH. intros y Hy. apply H. by constructor.
Qed.

Lemma bt_above_lt k k' e (m : BTreeMap Z OutboxEvent) : bt_above k m → (k', e) ∈ m → k < k'.
Proof.
  intros H Hin. apply Z.compare_lt_iff. change (kcmp k k' = Lt). by eapply bt_above_elem_of.
Qed.

Lemma beyond_above k m : bt_above k m → beyond k m = m.
Proof.
  intros H. apply filter_all. intros [k' e] Hin. apply Z.ltb_lt. by eapply bt_above_lt.
Qed.

Lemma beyond_none k (m : BTreeMap Z OutboxEvent) :
  (∀ e, e ∈ m → e.1 <= k) → beyond k m = [].
Proof.
  induction m as [|x m IH]; simpl; [done|]. intros H.
  destruct (Z.ltb_spec k x.1).
  - assert (x.1 <= k) by (apply H; constructor). lia.
  - apply IH. intros e He. apply H. by constructor.
Qed.

(** In a sorted log, what is beyond the last entry of a prefix is the rest. *)
Lemma beyond_prefix (p q : BTreeMap Z OutboxEvent) k e :
  bt_ok (p ++ q) → last p = Some (k, e) → beyond k (p ++ q) = q.
Proof.
  revert k e. induction p as [|[k1 e1] p IH]; intros k e Hok Hl; [done|].
  simpl in Hok. destruct Hok as [Ha Hok].
  destruct p as [|x p].
  - simpl in Hl. injection Hl as -> ->. simpl.
    rewrite (proj2 (Z.ltb_ge k k)) by lia. by apply beyond_above.
  - rewrite last_cons_cons in Hl. cbn [app]. unfold beyond. cbn [List.filter].
    assert (Hlt : k1 < k).
    { eapply bt_above_lt; [exact Ha|]. apply elem_of_app. left. by apply last_Some_elem_of. }
    cbn [fst]. rewrite (proj2 (Z.ltb_ge k k1)) by lia. by eapply IH.
Qed.

Lemma list_after_beyond after limit c :
  0 <= after < u64_max → list_after after limit c = (take limit (beyond after (outbox c))).*2.
Proof.
  intros H. unfold list_after, beyond. rewrite Z.mod_small by lia. rewrite fmap_take. do 2 f_equal.
  apply List.filter_ext. intros e.
  destruct (Z.leb_spec (after + 1) e.1), (Z.ltb_spec after e.1); try done; lia.
Qed.

(** *** Polling while the log changes *)

(** The page and the next cursor of [api_list_events], which caps the page size and gives the
    caller its own cursor back when there is nothing. *)
Definition page_limit (limit : option nat) : nat := Nat.min (default 100 limit)%nat 1000.
Definition events_page (after : Z) (limit : option nat) (c : OutboxCache) : list OutboxEvent * Z :=
  let events := list_after after (page_limit limit) c in
  (events, match last events with Some e => sequence e | None => after end).

(** A poller that keeps the cursor it is given; before each of its pages the store goes
    through some operations. *)
Fixpoint poll (turns : list (list outbox_op * option nat)) (after : Z) (c : OutboxCache)
    : list (list OutboxEvent) * Z * OutboxCache :=
  match turns with
  | [] => ([], after, c)
  | (ops, limit) :: rest =>
      let c := foldl outbox_step c ops in
      let '(page, next) := events_page after limit c in
      let '(pages, cursor, c') := poll rest next c in
      (page :: pages, cursor, c')
  end.

(** Every operation but the import of an older log, which runs when the store is opened; of
    these, the ones that add no event. *)
Definition serves (o : outbox_op) : Prop := match o with OO_insert _ => False | _ => True end.
Definition adds_nothing (o : outbox_op) : Prop :=
  match o with OO_insert _ | OO_append _ _ _ _ | OO_append_deduped _ _ _ _ _ => False | _ => True end.

(** What never changes of an event. *)
Definition same_content (a b : OutboxEvent) : Prop :=
  sequence a = sequence b ∧ subject a = subject b ∧ event_type a = event_type b ∧ payload a = payload b
  ∧ created_at a = created_at b.
Lemma same_content_trans a b c : same_content a b → same_content b c → same_content a c.
Proof. intros (?&?&?&?&?) (?&?&?&?&?). unfold same_content. split_and!; congruence. Qed.
Definition drawn_from (m m' : BTreeMap Z OutboxEvent) : Prop :=
  ∀ k e', (k, e') ∈ m' → ∃ e, (k, e) ∈ m ∧ same_content e e'.
Lemma drawn_refl m : drawn_from m m.
Proof. intros k e H. exists e. by split. Qed.
Lemma drawn_trans m m' m'' : drawn_from m m' → drawn_from m' m'' → drawn_from m m''.
Proof.
  intros H H' k e'' Hin. destruct (H' _ _ Hin) as (e' & Hin' & Hs'). destruct (H _ _ Hin') as (e & ? & Hs).
  exists e. split; [done|]. by eapply same_content_trans.
Qed.
Lemma drawn_filter f m : drawn_from m (List.filter f m).
Proof. intros k e [H _]%elem_of_filter_bool. exists e. by split. Qed.
Lemma drawn_alter f k0 m : (∀ e, same_content e (f e)) → drawn_from m (bt_alter f k0 m).
Proof.
  intros Hf k e' ([k1 e1] & Heq & Hin)%list_elem_of_fmap. cbn in Heq. exists e1.
  destruct (k1 =? k0); injection Heq as -> ->; (split; [done|]); [apply Hf|done].
Qed.
Lemma drawn_leases t l m : drawn_from m (foldl (λ m e, bt_alter (set_lease t) (sequence e) m) m l).
Proof.
  revert m. induction l as [|e l IH]; intros m; [apply drawn_refl|]. cbn [foldl]. eapply drawn_trans; [|apply IH]. by apply drawn_alter.
Qed.

(** A step adds events only above the last sequence, and keeps the content of the others. *)
Definition grows_above (n : Z) (m m' : BTreeMap Z OutboxEvent) : Prop :=
  ∀ k e', (k, e') ∈ m' → n < k ∨ ∃ e, (k, e) ∈ m ∧ same_content e e'.
Lemma push_grows now c subj ty body dedup :
  outbox_ok c → outbox_seq c < u64_max → grows_above (outbox_seq c) (outbox c) (outbox (push_event now c subj ty body dedup).2).
Proof.
  intros Hc Hu k e'. destruct (push_event now c subj ty body dedup) as [seq c'] eqn:Ep.
  destruct (push_event_ok _ _ _ _ _ _ _ _ Hc Hu Ep) as (_ & Hs & _ & e & Ho & _). cbn [snd]. rewrite Ho.
  intros [Hin|Hin]%elem_of_app; [right; by apply drawn_refl|]. apply list_elem_of_singleton in Hin as [= -> ->]. left. lia.
Qed.
Lemma quiet_draws c o : adds_nothing o → drawn_from (outbox c) (outbox (outbox_step c o)) ∧ outbox_seq (outbox_step c o) = outbox_seq c.
Proof.
  destruct o as [now subj ty body|now dd subj ty body|es|now limit ls|now now' seq ok er mx|seq|now rt mx pr]; try done; intros _; cbn [outbox_step].
  - split; [apply drawn_leases|done].
  - unfold record_delivery, record_delivery_transition. repeat case_match; simplify_eq; (split; [|done]); try apply drawn_refl; by apply drawn_alter.
  - unfold replay_dead_letter. repeat case_match; simplify_eq; (split; [|done]); try apply drawn_refl; by apply drawn_alter.
  - unfold gc_capped. cbv zeta. cbn [snd outbox outbox_seq]. rewrite foldl_remove_keys.
    destruct (gc_age_filter (gc_cutoff now rt) pr (outbox c)) as [f ->]. split; [|done]. eapply drawn_trans; apply drawn_filter.
Qed.
Lemma step_grows c o :
  outbox_ok c → outbox_seq c < u64_max → serves o → grows_above (outbox_seq c) (outbox c) (outbox (outbox_step c o)).
Proof.
  intros Hc Hu Hs.
  assert (Hq : adds_nothing o → grows_above (outbox_seq c) (outbox c) (outbox (outbox_step c o))).
  { intros Ha k e' Hin. right. by apply (quiet_draws c o Ha). }
  destruct o as [now subj ty body|now dd subj ty body|es| | | |]; try by apply Hq; cbn [outbox_step].
  - by apply push_grows.
  - cbn [outbox_step]. unfold append_deduped. destruct (List.find _ _); [intros k e Hin; right; by apply drawn_refl|].
    pose proof (push_grows now c subj ty body (Some dd) Hc Hu) as H. by destruct (push_event _ _ _ _ _ _).
Qed.
Lemma steps_grow c ops :
  outbox_ok c → Forall serves ops → outbox_seq c + Z.of_nat (length ops) <= u64_max →
  let c' := foldl outbox_step c ops in
  outbox_ok c' ∧ outbox_seq c <= outbox_seq c' <= outbox_seq c + Z.of_nat (length ops) ∧ grows_above (outbox_seq c) (outbox c) (outbox c').
Proof.
  revert c. induction ops as [|o ops IH]; intros c Hc Hs Hu; cbn [foldl length] in *.
  { split_and!; [done|lia|lia|]. intros k e Hin. right. by apply drawn_refl. }
  apply Forall_cons in Hs as [Ho Hs]. assert (Hi : inserts_below (outbox_seq c) o) by (by destruct o).
  destruct (outbox_step_ok (outbox_seq c) c o Hc ltac:(lia) Hi ltac:(lia)) as [Hc1 Hs1].
  destruct (IH (outbox_step c o) Hc1 Hs ltac:(lia)) as (H1 & H2 & H3). split_and!; [done|lia|lia|].
  intros k e' Hin. destruct (H3 k e' Hin) as [?|(e1 & Hin1 & Hs')]; [left; lia|].
  destruct (step_grows c o Hc ltac:(lia) Ho k e1 Hin1) as [?|(e & ? & ?)]; [by left|]. right. exists e. split; [done|]. by eapply same_content_trans.
Qed.

(** One page: it is the start of what is beyond the cursor, and the rest is beyond the next. *)
Lemma page_splits after limit c :
  outbox_ok c → 0 <= after <= outbox_seq c → outbox_seq c < u64_max →
  let '(page, next) := events_page after limit c in
  let rest := beyond after (outbox c) in
  page = (take (page_limit limit) rest).*2 ∧ beyond next (outbox c) = drop (page_limit limit) rest
  ∧ after <= next <= outbox_seq c.
Proof.
  intros (Hok & _ & He) Ha Hu. unfold events_page. rewrite list_after_beyond by lia. generalize (page_limit limit) as n. intros n.
  set (rest := beyond after (outbox c)). rewrite fmap_last. assert (Hr : bt_ok rest) by (by apply bt_filter_ok).
  destruct (last (take n rest)) as [[k e]|] eqn:El; cbn [fmap option_fmap option_map snd].
  - assert (Hin : (k, e) ∈ rest).
    { apply last_Some_elem_of in El. by apply elem_of_take in El as (? & ? & _); eapply list_elem_of_lookup_2. }
    apply elem_of_filter_bool in Hin as [Hin Hk]. apply Z.ltb_lt in Hk. cbn in Hk.
    eapply Forall_forall in He; [|exact Hin]. destruct He as [Hs Hb]. cbn in Hs, Hb. rewrite Hs. split_and!; [done| |lia|lia].
    rewrite <- (beyond_prefix (take n rest) (drop n rest) k e); rewrite ?take_drop; [|done|done].
    unfold rest, beyond. rewrite filter_filter_bool. apply List.filter_ext. intros x.
    destruct (Z.ltb_spec k x.1), (Z.ltb_spec after x.1); try done; lia.
  - split_and!; [done| |lia|lia]. apply last_None in El. change (rest = drop n rest). clearbody rest. destruct n; [done|]. by destruct rest.
Qed.

Lemma sorted_sequences n (m : BTreeMap Z OutboxEvent) :
  bt_ok m → Forall (entry_ok n) m → StronglySorted Z.lt (sequence <$> m.*2).
Proof.
  induction m as [|[k e] m IH]; [constructor|]. intros [Ha Hok] He. apply Forall_cons in He as [[Hs _] He]. cbn in Hs.
  cbn [fmap list_fmap fst snd]. constructor; [by apply IH|]. apply Forall_forall. intros x (e' & -> & ([k' e''] & -> & Hin)%list_elem_of_fmap)%list_elem_of_fmap.
  cbn [snd]. rewrite Forall_forall in He. destruct (He _ Hin) as [Hs' _]. cbn in Hs'. rewrite Hs, Hs'. by eapply bt_above_lt.
Qed.
Lemma sorted_app l1 l2 m :
  StronglySorted Z.lt l1 → StronglySorted Z.lt l2 → Forall (λ x, x <= m) l1 → Forall (λ x, m < x) l2 → StronglySorted Z.lt (l1 ++ l2).
Proof.
  intros H1 H2 Hl Hr. induction H1 as [|x l1 _ IH Hx]; [done|]. apply Forall_cons in Hl as [Hxm Hl]. cbn [app]. constructor; [by apply IH|].
  apply Forall_app. split; [done|]. eapply Forall_impl; [exact Hr|]. cbn. lia.
Qed.
Lemma beyond_elem k e after (m : BTreeMap Z OutboxEvent) : (k, e) ∈ beyond after m ↔ (k, e) ∈ m ∧ after < k.
Proof. unfold beyond. rewrite elem_of_filter_bool. cbn. by rewrite Z.ltb_lt. Qed.
Lemma take_sublist_ok n (m : BTreeMap Z OutboxEvent) : bt_ok m → bt_ok (take n m).
Proof.
  revert n. induction m as [|[k e] m IH]; intros [|n] Hok; try done. destruct Hok as [Ha Hok]. cbn [take]. split; [|by apply IH].
  assert (H : ∀ (l : BTreeMap Z OutboxEvent) j, bt_above k l → bt_above k (take j l)).
  { induction l as [|[k1 e1] l IHl]; intros [|j] H; try done. destruct H. split; [done|by apply IHl]. }
  by apply H.
Qed.

(** What a poller knows after its turns. *)
Record polled_to (after : Z) (c : OutboxCache) (pages : list (list OutboxEvent)) (cursor : Z) (c' : OutboxCache) : Prop := {
  pt_ok : outbox_ok c';
  pt_cursor : after <= cursor <= outbox_seq c';
  pt_grown : outbox_seq c <= outbox_seq c' ∧ grows_above (outbox_seq c) (outbox c) (outbox c');
  pt_order : StronglySorted Z.lt (sequence <$> concat pages);
  pt_range : Forall (λ e, after < sequence e <= cursor) (concat pages);
  pt_complete : ∀ k e, (k, e) ∈ outbox c' → after < k <= cursor → ∃ e0, e0 ∈ concat pages ∧ same_content e0 e;
}.
Definition ops_of (turns : list (list outbox_op * option nat)) : list outbox_op := concat turns.*1.
Lemma poll_polls turns after c pages cursor c' :
  outbox_ok c → 0 <= after <= outbox_seq c → Forall serves (ops_of turns) →
  outbox_seq c + Z.of_nat (length (ops_of turns)) < u64_max →
  poll turns after c = (pages, cursor, c') → polled_to after c pages cursor c'.
Proof.
  revert after c pages. induction turns as [|[ops limit] turns IH]; intros after c pages Hc Ha Hs Hu; cbn [poll].
  { intros [= <- <- <-]. split; [done|lia| |constructor|constructor|intros k e _ ?; lia]. split; [lia|]. intros k e Hin. right. by apply drawn_refl. }
  unfold ops_of in *. cbn [fmap list_fmap fst concat] in Hs, Hu. rewrite length_app in Hu. apply Forall_app in Hs as [Hs1 Hs].
  destruct (steps_grow c ops Hc Hs1 ltac:(lia)) as (Hc1 & Hq1 & Hg1). set (c1 := foldl outbox_step c ops) in *.
  pose proof (page_splits after limit c1 Hc1 ltac:(lia) ltac:(lia)) as Hp. destruct (events_page after limit c1) as [page next].
  cbv zeta in Hp. set (rest := beyond after (outbox c1)) in *. destruct Hp as (-> & Hrest & Hn).
  destruct (poll turns next c1) as [[pages1 cursor1] c2] eqn:Ep. intros [= <- <- <-].
  destruct (IH next c1 pages1 Hc1 ltac:(lia) Hs ltac:(lia) Ep) as [H1 H2 [H3 H4] H5 H6 H7].
  assert (Hpage : ∀ k e, (k, e) ∈ take (page_limit limit) rest → after < k <= next ∧ sequence e = k).
  { intros k e Hin. assert ((k, e) ∈ rest) as Hr by (rewrite <- (take_drop (page_limit limit) rest); apply elem_of_app; by left).
    apply beyond_elem in Hr as [Hin' Hk]. split; [split; [done|]|].
    - destruct (Z.le_gt_cases k next) as [|Hgt]; [done|exfalso].
      assert (Hd : (k, e) ∈ drop (page_limit limit) rest) by (rewrite <- Hrest; by apply beyond_elem).
      assert (Hnd : NoDup (bt_keys rest)) by (apply bt_keys_NoDup, bt_filter_ok, Hc1).
      unfold bt_keys in Hnd. rewrite <- (take_drop (page_limit limit) rest), fmap_app, NoDup_app in Hnd. destruct Hnd as (_ & Hnd & _).
      apply (Hnd k); apply list_elem_of_fmap; by exists (k, e).
    - destruct Hc1 as (_ & _ & He). rewrite Forall_forall in He. by apply (He _ Hin'). }
  assert (Hseq : Forall (λ e, after < sequence e <= next) (take (page_limit limit) rest).*2).
  { apply Forall_forall. intros e ([k e'] & -> & Hin)%list_elem_of_fmap. destruct (Hpage _ _ Hin) as [? Hs']. cbn in *. by rewrite Hs'. }
  split; [done|lia| | |cbn [concat]; apply Forall_app; split; eapply Forall_impl; [exact Hseq| |exact H6|]; cbn; lia|].
  - split; [lia|]. intros k e Hin. destruct (H4 k e Hin) as [?|(e1 & Hin1 & ?)]; [left; lia|].
    destruct (Hg1 k e1 Hin1) as [?|(e0 & ? & ?)]; [by left|]. right. exists e0. split; [done|]. by eapply same_content_trans.
  - cbn [concat]. rewrite fmap_app. apply (sorted_app _ _ next).
    + apply (sorted_sequences (outbox_seq c1)).
      * apply take_sublist_ok, bt_filter_ok, Hc1.
      * apply Forall_take, Forall_bool_filter, Hc1.
    + done.
    + apply Forall_fmap. eapply Forall_impl; [exact Hseq|]. cbn. lia.
    + apply Forall_fmap. eapply Forall_impl; [exact H6|]. cbn. lia.
  - intros k e Hin Hk. destruct (Z.le_gt_cases k next) as [Hle|Hgt].
    + destruct (H4 k e Hin) as [?|(e1 & Hin1 & Hsame)]; [lia|]. exists e1. split; [|done]. cbn [concat]. apply elem_of_app. left.
      assert (Hr : (k, e1) ∈ rest) by (apply beyond_elem; split; [done|lia]). rewrite <- (take_drop (page_limit limit) rest), <- Hrest in Hr.
      apply elem_of_app in Hr as [Hr|Hr]; [apply list_elem_of_fmap; by exists (k, e1)|]. apply beyond_elem in Hr as [_ ?]. lia.
    + destruct (H7 k e Hin ltac:(lia)) as (e0 & ? & ?). exists e0. split; [|done]. cbn [concat]. apply elem_of_app. by right.
Qed.

(** A page shorter than it could be was the last one. *)
Lemma short_page turns after c pages cursor c' ops limit page :
  outbox_ok c → 0 <= after <= outbox_seq c → Forall serves (ops_of turns) →
  outbox_seq c + Z.of_nat (length (ops_of turns)) < u64_max →
  poll turns after c = (pages, cursor, c') → last turns = Some (ops, limit) → last pages = Some page →
  (length page < page_limit limit)%nat → beyond cursor (outbox c') = [].
Proof.
  revert after c pages. induction turns as [|[ops1 limit1] turns IH]; intros after c pages Hc Ha Hs Hu; [done|]. cbn [poll].
  unfold ops_of in *. cbn [fmap list_fmap fst concat] in Hs, Hu. rewrite length_app in Hu. apply Forall_app in Hs as [Hs1 Hs].
  destruct (steps_grow c ops1 Hc Hs1 ltac:(lia)) as (Hc1 & Hq1 & Hg1). set (c1 := foldl outbox_step c ops1) in *.
  pose proof (page_splits after limit1 c1 Hc1 ltac:(lia) ltac:(lia)) as Hp. destruct (events_page after limit1 c1) as [page1 next].
  cbv zeta in Hp. destruct Hp as (-> & Hrest & Hn). destruct (poll turns next c1) as [[pages1 cursor1] c2] eqn:Ep. intros [= <- <- <-].
  destruct turns as [|t turns].
  - cbn [poll] in Ep. injection Ep as <- <- <-. intros [= <- <-] [= <-] Hlt. rewrite length_fmap, length_take in Hlt. rewrite Hrest.
    apply drop_ge. lia.
  - intros Hl Hlp. rewrite last_cons_cons in Hl. assert (Hne : pages1 ≠ []).
    { cbn [poll] in Ep. destruct t. destruct (events_page _ _ _), (poll turns _ _) as [[] ]. by injection Ep as <- <- <-. }
    destruct pages1 as [|pg pages1]; [done|]. rewrite last_cons_cons in Hlp. apply (IH next c1 (pg :: pages1)); [done|lia|done|lia|done..].
Qed.

(** Fewer events are left when none is added. *)
Lemma drawn_fewer after m m' : bt_ok m' → drawn_from m m' → (length (beyond after m') <= length (beyond after m))%nat.
Proof.
  intros Hok Hd. rewrite <- (length_fmap fst), <- (length_fmap fst (beyond after m)). apply submseteq_length, NoDup_submseteq.
  - apply (bt_keys_NoDup (beyond after m')). by apply bt_filter_ok.
  - intros k ([k' e] & -> & [Hin Hk]%beyond_elem)%list_elem_of_fmap. destruct (Hd _ _ Hin) as (e0 & Hin0 & _).
    apply list_elem_of_fmap. exists (k', e0). split; [done|]. by apply beyond_elem.
Qed.
Definition undisturbed (turn : list outbox_op * option nat) : Prop := Forall adds_nothing turn.1 ∧ (0 < page_limit turn.2)%nat.
Lemma quiet_steps c ops : Forall adds_nothing ops → drawn_from (outbox c) (outbox (foldl outbox_step c ops)) ∧ outbox_seq (foldl outbox_step c ops) = outbox_seq c.
Proof.
  revert c. induction ops as [|o ops IH]; intros c Hs; [split; [apply drawn_refl|done]|]. apply Forall_cons in Hs as [Ho Hs]. cbn [foldl].
  destruct (quiet_draws c o Ho) as [H1 H2], (IH (outbox_step c o) Hs) as [H3 H4]. split; [by eapply drawn_trans|congruence].
Qed.
Lemma poll_catches_up turns after c pages cursor c' :
  outbox_ok c → 0 <= after <= outbox_seq c → outbox_seq c + Z.of_nat (length (ops_of turns)) < u64_max → Forall undisturbed turns →
  poll turns after c = (pages, cursor, c') → (length (beyond after (outbox c)) <= length turns)%nat → beyond cursor (outbox c') = [].
Proof.
  revert after c pages. induction turns as [|[ops limit] turns IH]; intros after c pages Hc Ha Hu Hq; cbn [poll].
  { intros [= <- <- <-] Hl. by apply nil_length_inv; cbn in Hl; lia. }
  unfold ops_of in *. cbn [fmap list_fmap fst concat] in Hu. rewrite length_app in Hu. apply Forall_cons in Hq as [[Hq1 Hlim] Hq]. cbn [fst snd] in Hq1, Hlim.
  assert (Hs1 : Forall serves ops) by (eapply Forall_impl; [exact Hq1|]; by intros []).
  destruct (steps_grow c ops Hc Hs1 ltac:(lia)) as (Hc1 & Hr1 & _). destruct (quiet_steps c ops Hq1) as [Hd Hsame].
  set (c1 := foldl outbox_step c ops) in *. pose proof (page_splits after limit c1 Hc1 ltac:(lia) ltac:(lia)) as Hp.
  destruct (events_page after limit c1) as [page next]. cbv zeta in Hp. destruct Hp as (-> & Hrest & Hn).
  destruct (poll turns next c1) as [[pages1 cursor1] c2] eqn:Ep. intros [= <- <- <-] Hlen. cbn [length] in Hlen.
  apply (IH next c1 pages1); [done|lia|lia|done|done|]. rewrite Hrest, length_drop.
  pose proof (drawn_fewer after (outbox c) (outbox c1) (proj1 Hc1) Hd). lia.
Qed.


(** *** Claims *)

(** The event of a subject that is next in line: its earliest pending one. *)
Definition head_of (s : string) (es : list OutboxEvent) : option OutboxEvent :=
  List.find (λ e, bool_decide (delivery e = Pending) && bool_decide (subject e = s)) es.

Lemma earliest_loop_head limit rl now seen n es e :
  e ∈ earliest_loop limit rl now seen n es →
  (subject e ∉ seen) ∧ head_of (subject e) es = Some e ∧ (rl && leased now e) = false.
Proof.
  revert seen n. induction es as [|x es IH]; intros seen n; cbn [earliest_loop].
  { by intros ?%elem_of_nil. }
  unfold head_of. cbn [List.find].
  destruct (bool_decide_reflect (delivery x = Pending)) as [Hp|Hp]; cbn [negb andb]; [|apply IH].
  destruct (bool_decide_reflect (subject x ∈ seen)) as [Hs|Hs].
  { intros (H1 & H2 & H3)%IH. rewrite bool_decide_false by congruence. done. }
  destruct (rl && leased now x) eqn:El.
  { intros (H1 & H2 & H3)%IH. rewrite elem_of_cons in H1.
    rewrite bool_decide_false by naive_solver. naive_solver. }
  destruct (limit <=? S n)%nat.
  { intros ->%list_elem_of_singleton. by rewrite bool_decide_true. }
  intros [->|(H1 & H2 & H3)%IH]%elem_of_cons; [by rewrite bool_decide_true|].
  rewrite elem_of_cons in H1. rewrite bool_decide_false by naive_solver. naive_solver.
Qed.

Lemma earliest_loop_NoDup limit rl now seen n es :
  NoDup (subject <$> earliest_loop limit rl now seen n es).
Proof.
  revert seen n. induction es as [|x es IH]; intros seen n; cbn [earliest_loop]; [constructor|].
  repeat case_match; try apply IH; [apply NoDup_singleton|].
  constructor; [|apply IH]. intros (e & Hs & (Hn & _ & _)%earliest_loop_head)%list_elem_of_fmap.
  apply Hn. rewrite <- Hs. constructor.
Qed.

Lemma earliest_loop_length limit rl now seen n es :
  (n + length (earliest_loop limit rl now seen n es) <= Nat.max (S n) limit)%nat.
Proof.
  revert seen n. induction es as [|x es IH]; intros seen n; cbn [earliest_loop length]; [lia|].
  repeat case_match; try apply IH; cbn [length]; [lia|].
  specialize (IH (subject x :: seen) (S n)).
  destruct (Nat.leb_spec limit (S n)); [done|]. lia.
Qed.

(** The update a claim makes to one stored event. *)
Definition stamp_lease (until : DateTime) (claimed : list OutboxEvent) (e : OutboxEvent) : OutboxEvent :=
  if bool_decide (sequence e ∈ (sequence <$> claimed)) then set_lease until e else e.

Lemma set_lease_twice until e : set_lease until (set_lease until e) = set_lease until e.
Proof. done. Qed.

Lemma claim_values until (claimed : list OutboxEvent) (m : BTreeMap Z OutboxEvent) seq :
  Forall (entry_ok seq) m →
  bt_values (foldl (λ m e, bt_alter (set_lease until) (sequence e) m) m claimed)
  = stamp_lease until claimed <$> bt_values m.
Proof.
  unfold bt_values. intros Hm.
  assert (H : foldl (λ m e, bt_alter (set_lease until) (sequence e) m) m claimed
              = prod_map id (stamp_lease until claimed) <$> m).
  { revert m Hm. induction claimed as [|x l IH]; intros m Hm; cbn [foldl].
    - symmetry. etrans; [|apply list_fmap_id]. apply list_fmap_ext. by intros _ [k e] _.
    - rewrite IH by (by apply bt_alter_entries). unfold bt_alter.
      rewrite <- list_fmap_compose. apply list_fmap_ext. intros i [k e] Hi. simpl.
      eapply Forall_lookup_1 in Hm; [|exact Hi]. destruct Hm as [Hs _]. simpl in Hs. subst k.
      unfold stamp_lease. cbn [fmap list_fmap].
      destruct (Z.eqb_spec (sequence e) (sequence x)) as [E|E]; cbn.
      + rewrite (bool_decide_true (sequence e ∈ sequence x :: _)) by (rewrite E; constructor).
        by destruct (bool_decide _).
      + unfold prod_map. cbn. do 2 f_equal.
        by rewrite (bool_decide_ext (sequence e ∈ sequence x :: (sequence <$> l)) (sequence e ∈ sequence <$> l))
          by (rewrite elem_of_cons; naive_solver). }
  rewrite H, <- !list_fmap_compose. apply list_fmap_ext. by intros _ [k e] _.
Qed.

Lemma head_of_stamped until claimed s es :
  head_of s (stamp_lease until claimed <$> es) = stamp_lease until claimed <$> head_of s es.
Proof.
  unfold head_of. induction es as [|e es IH]; simpl; [done|].
  assert (Hd : delivery (stamp_lease until claimed e) = delivery e
             ∧ subject (stamp_lease until claimed e) = subject e)
    by (unfold stamp_lease; by destruct (bool_decide _)).
  destruct Hd as [-> ->]. by destruct (_ && _).
Qed.

Lemma head_of_app s es es' e : head_of s es = Some e → head_of s (es ++ es') = Some e.
Proof. unfold head_of. induction es as [|x es IH]; simpl; [done|]. by destruct (_ && _). Qed.

Definition is_append (o : outbox_op) : Prop :=
  match o with OO_append _ _ _ _ | OO_append_deduped _ _ _ _ _ => True | _ => False end.

Lemma appends_extend c ops :
  outbox_ok c → outbox_seq c + Z.of_nat (length ops) <= u64_max → Forall is_append ops →
  outbox_ok (foldl outbox_step c ops)
  ∧ ∃ new, outbox (foldl outbox_step c ops) = outbox c ++ new.
Proof.
  intros Hc Hl Hops. revert c Hc Hl. induction Hops as [|o ops Ho _ IH]; intros c Hc Hl; cbn [foldl].
  { split; [done|]. exists []. by rewrite app_nil_r. }
  cbn [length] in Hl.
  assert (Hstep : outbox_ok (outbox_step c o) ∧ outbox_seq (outbox_step c o) <= outbox_seq c + 1
                  ∧ ∃ new, outbox (outbox_step c o) = outbox c ++ new).
  { destruct o as [now subj ty body|now dd subj ty body| | | | |]; try done; cbn [outbox_step].
    - unfold append. destruct (push_event _ _ _ _ _ _) as [s c1] eqn:Ep.
      apply push_event_ok in Ep as (H1 & H2 & H3 & e & H4 & _); [|done|lia]. cbn [snd].
      split_and!; [done|lia|eauto].
    - unfold append_deduped. destruct (List.find _ _); cbn [snd].
      { split_and!; [done|lia|]. exists []. by rewrite app_nil_r. }
      destruct (push_event _ _ _ _ _ _) as [s c1] eqn:Ep.
      apply push_event_ok in Ep as (H1 & H2 & H3 & e & H4 & _); [|done|lia]. cbn [snd].
      split_and!; [done|lia|eauto]. }
  destruct Hstep as (H1 & H2 & new & H3). destruct (IH (outbox_step c o)) as (H4 & new' & H5);
    [done|lia|]. split; [done|]. exists (new ++ new'). by rewrite H5, H3, app_assoc.
Qed.

(** A claim takes at most one event per subject, each the earliest pending one of its
    subject; and while its lease runs, another process that claims, after any number
    of appends, gets no event of a subject that is already being delivered. *)
Theorem claims_keep_subject_order now now' limit limit' lease lease' c ops :
  outbox_ok c → outbox_seq c + Z.of_nat (length ops) <= u64_max →
  Forall is_append ops → now' < lease_until now lease →
  let '((claimed, _), c1) := claim now limit lease c in
  let '((claimed', _), _) := claim now' limit' lease' (foldl outbox_step c1 ops) in
  NoDup (subject <$> claimed)
  ∧ (length claimed <= Nat.max 1 limit)%nat
  ∧ (∀ e, e ∈ claimed → ∃ e0, head_of (subject e) (bt_values (outbox c)) = Some e0
       ∧ leased now e0 = false ∧ e = set_lease (lease_until now lease) e0)
  ∧ ∀ e e', e ∈ claimed → e' ∈ claimed' → subject e ≠ subject e'.
Proof.
  intros Hc Hl Hops Hnow. unfold claim at 1. cbv zeta.
  set (l := earliest_pending_per_subject (outbox c) limit true now).
  set (until := lease_until now lease) in *.
  set (c1 := {| outbox := _; outbox_seq := _ |}).
  assert (Hc1 : outbox_ok c1).
  { destruct Hc as (H1 & H2 & H3).
    destruct (foldl_lease_inv (outbox_seq c) until l (outbox c)) as [H4 H5]; [done|]. by split_and!. }
  assert (Hsub : subject <$> (set_lease until <$> l) = subject <$> l)
    by (rewrite <- list_fmap_compose; by apply list_fmap_ext).
  destruct (claim now' limit' lease' (foldl outbox_step c1 ops)) as [[l' d] c3] eqn:El'.
  split_and!.
  - rewrite Hsub. apply earliest_loop_NoDup.
  - rewrite length_fmap. apply (earliest_loop_length limit true now [] 0).
  - intros e (e0 & -> & Hin)%list_elem_of_fmap. exists e0.
    by apply earliest_loop_head in Hin as (_ & H2 & H3).
  - intros e e' (e0 & -> & Hin)%list_elem_of_fmap Hin' Heq.
    unfold claim in El'. injection El' as <- _ _.
    apply list_elem_of_fmap in Hin' as (e1 & -> & Hin').
    apply earliest_loop_head in Hin' as (_ & Hh' & Hle).
    assert (Hh := Hin). apply earliest_loop_head in Hh as (_ & Hh & _).
    destruct (appends_extend c1 ops Hc1 Hl Hops) as (_ & new & Hnew).
    unfold bt_values in Hh'. rewrite Hnew, fmap_app in Hh'.
    rewrite (head_of_app _ _ _ (stamp_lease until l e0)) in Hh'.
    + injection Hh' as <-. unfold stamp_lease, leased in Hle.
      rewrite bool_decide_true in Hle by (by apply list_elem_of_fmap_2).
      simpl in Hle. apply Z.ltb_ge in Hle. lia.
    + change (head_of (subject e1) (bt_values (outbox c1)) = Some (stamp_lease until l e0)).
      destruct Hc as (_ & _ & He). unfold c1. cbn [outbox].
      rewrite (claim_values until l (outbox c) (outbox_seq c) He), head_of_stamped.
      replace (subject e1) with (subject e0) by exact Heq. by rewrite Hh.
Qed.

(** *** Delivery outcomes *)

(** A run of failed deliveries of one event; the flags say which call dead-lettered. *)
Fixpoint fail_all (fs : list (DateTime * DateTime * option string)) (seq max_attempts : Z)
    (c : OutboxCache) : list bool * OutboxCache :=
  match fs with
  | [] => ([], c)
  | (now, now', err) :: fs' =>
      let '((dead, _), c1) := record_delivery now now' seq false err max_attempts c in
      let '(flags, c2) := fail_all fs' seq max_attempts c1 in (dead :: flags, c2)
  end.

Lemma backoff_bounds att : 1 <= att → 20 <= backoff att <= 300.
Proof.
  intros H. unfold backoff, u64_saturating_mul, u64_max.
  assert (att = 1 ∨ att = 2 ∨ att = 3 ∨ att = 4 ∨ 5 <= att) as [->|[->|[->|[->|H5]]]] by lia;
    [by vm_compute..|]. rewrite (Z.min_r att 5) by lia. by vm_compute.
Qed.

Lemma record_terminal now now' seq success err mx c e :
  bt_get (outbox c) seq = Some e → delivery e ≠ Pending →
  record_delivery now now' seq success err mx c = ((false, false), c).
Proof.
  intros Hg Hd. unfold record_delivery, record_delivery_transition.
  rewrite Hg, bool_decide_false by done. by destruct c.
Qed.

(** The state of a pending event that has failed [n] times of [mx]. *)
Definition failed_event (n mx : Z) (e : OutboxEvent) : Prop :=
  attempts e = Z.min n mx
  ∧ delivery e = (if mx <=? n then DeadLettered else Pending).

Lemma record_failure now now' seq err mx c e n :
  bt_get (outbox c) seq = Some e → failed_event n mx e → 0 <= n → 1 <= mx <= u32_max →
  ∃ e' c', record_delivery now now' seq false err mx c
           = ((bool_decide (n + 1 = mx), bool_decide (n < mx)), c')
    ∧ bt_get (outbox c') seq = Some e' ∧ failed_event (n + 1) mx e'
    ∧ (n + 1 < mx → ∃ b, leased_until e' = Some (now' + seconds b) ∧ 20 <= b <= 300)
    ∧ (∀ k, k ≠ seq → bt_get (outbox c') k = bt_get (outbox c) k).
Proof.
  intros Hg [Ha Hd] Hn Hm. destruct (Z.leb_spec mx n) as [Hle|Hlt].
  { exists e, c. rewrite (record_terminal _ _ _ _ _ _ _ e) by (done || congruence).
    rewrite !bool_decide_false by lia. split_and!; try done; [|lia].
    split; [lia|]. by rewrite Hd, (proj2 (Z.leb_le mx (n + 1))) by lia. }
  unfold record_delivery, record_delivery_transition.
  rewrite Hg, bool_decide_true by done. cbn [negb]. cbv zeta.
  assert (Hatt : (attempts e + 1) mod (u32_max + 1) = n + 1).
  { unfold u32_max in *. rewrite Ha, Z.mod_small; lia. }
  rewrite Hatt. destruct (Z.leb_spec mx (n + 1)).
  - rewrite !bool_decide_true by lia. do 2 eexists. split_and!; [done|..]; cbn [outbox].
    + by rewrite bt_get_alter, Z.eqb_refl, Hg.
    + split; cbn; [lia|]. by rewrite (proj2 (Z.leb_le mx (n + 1))) by lia.
    + lia.
    + intros k Hk. by rewrite bt_get_alter, (proj2 (Z.eqb_neq k seq)).
  - rewrite bool_decide_false, bool_decide_true by lia.
    do 2 eexists. split_and!; [done|..]; cbn [outbox].
    + by rewrite bt_get_alter, Z.eqb_refl, Hg.
    + split; cbn; [lia|]. by rewrite (proj2 (Z.leb_gt mx (n + 1))) by lia.
    + intros _. exists (backoff (n + 1)). split; [done|]. apply backoff_bounds. lia.
    + intros k Hk. by rewrite bt_get_alter, (proj2 (Z.eqb_neq k seq)).
Qed.

Lemma fail_all_spec fs seq mx c e n :
  bt_get (outbox c) seq = Some e → failed_event n mx e → 0 <= n → 1 <= mx <= u32_max →
  let '(flags, c') := fail_all fs seq mx c in
  flags = (λ i, bool_decide (n + 1 + Z.of_nat i = mx)) <$> List.seq 0 (length fs)
  ∧ (∃ e', bt_get (outbox c') seq = Some e' ∧ failed_event (n + Z.of_nat (length fs)) mx e')
  ∧ ∀ k, k ≠ seq → bt_get (outbox c') k = bt_get (outbox c) k.
Proof.
  revert c e n. induction fs as [|[[now now'] err] fs IH]; intros c e n Hg Hf Hn Hm; cbn [fail_all].
  { split_and!; [done| |done]. exists e. cbn [length]. by rewrite Z.add_0_r. }
  destruct (record_failure now now' seq err mx c e n Hg Hf Hn Hm)
    as (e1 & c1 & -> & Hg1 & Hf1 & _ & Ho1).
  specialize (IH c1 e1 (n + 1) Hg1 Hf1 ltac:(lia) Hm).
  destruct (fail_all fs seq mx c1) as [flags c2]. destruct IH as (-> & (e2 & He2 & Hf2) & Ho2).
  split_and!.
  - cbn [length List.seq fmap list_fmap]. rewrite Z.add_0_r. f_equal.
    rewrite <- fmap_S_seq, <- list_fmap_compose. apply list_fmap_ext.
    intros _ i _. cbn [compose]. apply bool_decide_ext. lia.
  - exists e2. split; [done|]. by replace (n + Z.of_nat _) with (n + 1 + Z.of_nat (length fs))
      by (cbn [length]; lia).
  - intros k Hk. rewrite Ho2, Ho1; done.
Qed.

(** A pending event that only fails is retried exactly [max_attempts] times: the call
    numbered [max_attempts] is the one that dead-letters it, later outcomes change
    nothing, and no other event is touched. *)
Theorem failing_event_is_dead_lettered_once fs seq max_attempts c e :
  bt_get (outbox c) seq = Some e → delivery e = Pending → attempts e = 0 →
  1 <= max_attempts <= u32_max →
  let '(flags, c') := fail_all fs seq max_attempts c in
  flags = (λ i, bool_decide (1 + Z.of_nat i = max_attempts)) <$> List.seq 0 (length fs)
  ∧ (∃ e', bt_get (outbox c') seq = Some e'
       ∧ attempts e' = Z.min (Z.of_nat (length fs)) max_attempts
       ∧ delivery e' = (if max_attempts <=? Z.of_nat (length fs) then DeadLettered else Pending))
  ∧ ∀ k, k ≠ seq → bt_get (outbox c') k = bt_get (outbox c) k.
Proof.
  intros Hg Hd Ha Hm.
  assert (Hf : failed_event 0 max_attempts e).
  { split; [lia|]. by rewrite (proj2 (Z.leb_gt max_attempts 0)) by lia. }
  exact (fail_all_spec fs seq max_attempts c e 0 Hg Hf ltac:(lia) Hm).
Qed.

(** *** Garbage collection *)

Lemma take_while_app {A} (f : A → bool) l :
  ∃ l2, l = take_while f l ++ l2 ∧ ∀ x, x ∈ take_while f l → f x = true.
Proof.
  induction l as [|x l (l2 & H1 & H2)]; simpl.
  { exists []. split; [done|]. by intros x ?%elem_of_nil. }
  destruct (f x) eqn:E.
  - exists l2. simpl. rewrite <- H1. split; [done|]. intros y [->|Hy]%elem_of_cons; auto.
  - exists (x :: l). split; [done|]. by intros y ?%elem_of_nil.
Qed.

Lemma gc_age_prefix cutoff protected m :
  bt_ok m →
  ∃ p, m = p ++ gc_age cutoff protected m
    ∧ ∀ e, e ∈ p → delivery e.2 = Delivered ∧ is_protected protected e.2 = false.
Proof.
  intros Hok. assert (Hnil : ∃ p, m = p ++ m
    ∧ ∀ e, e ∈ p → delivery e.2 = Delivered ∧ is_protected protected e.2 = false).
  { exists []. split; [done|]. by intros e ?%elem_of_nil. }
  unfold gc_age. destruct cutoff as [t|]; [|done].
  match goal with |- context [take_while ?f m] =>
    destruct (take_while_app f m) as (l2 & H1 & H2); set (p := take_while f m) in * end.
  destruct (last p) as [[below e]|] eqn:El; [|done].
  exists p. split.
  - rewrite H1 at 1. f_equal. symmetry. rewrite H1.
    apply (beyond_prefix p l2 below e); [by rewrite <- H1|done].
  - intros x Hx%H2. rewrite !andb_true_iff, negb_true_iff, bool_decide_eq_true in Hx. tauto.
Qed.

Lemma remove_prefix (p q : BTreeMap Z OutboxEvent) :
  bt_ok (p ++ q) → foldl (λ m e, bt_remove e.1 m) (p ++ q) p = q.
Proof.
  intros Hok. rewrite foldl_remove_keys, List.filter_app.
  assert (Hp : List.filter (λ e, negb (existsb (λ x, x.1 =? e.1) p)) p = []).
  { assert (H : ∀ l, (∀ x, x ∈ l → x ∈ p) →
      List.filter (λ e, negb (existsb (λ x, x.1 =? e.1) p)) l = []); [|by apply H].
    induction l as [|x l IH]; intros Hl; simpl; [done|].
    rewrite (proj2 (existsb_elem_of _ p)).
    - apply IH. intros y Hy. apply Hl. by constructor.
    - exists x. split; [apply Hl; constructor|apply Z.eqb_refl]. }
  rewrite Hp. simpl. apply filter_all. intros [k e] Hin. apply negb_true_iff, existsb_false_elem_of.
  intros [k' e'] Hin'. cbn. apply Z.eqb_neq. intros ->.
  assert (HN := bt_keys_NoDup _ Hok). unfold bt_keys in HN. rewrite fmap_app in HN.
  apply NoDup_app in HN as (_ & HN & _).
  apply (HN k); [exact (list_elem_of_fmap_2 fst _ _ Hin')|exact (list_elem_of_fmap_2 fst _ _ Hin)].
Qed.

Lemma gc_capped_prefix now retention mx protected c :
  outbox_ok c →
  let '((out, dirty), c') := gc_capped now retention mx protected c in
  ∃ aged capped, outbox c = aged ++ capped ++ outbox c'
    ∧ outbox_seq c' = outbox_seq c
    ∧ age_pruned out = length aged ∧ cap_pruned out = capped.*2
    ∧ dirty = (0 <? length aged + length capped)%nat
    ∧ (∀ e, e ∈ aged → delivery e.2 = Delivered ∧ is_protected protected e.2 = false)
    ∧ (∀ e, e ∈ capped → is_protected protected e.2 = false)
    ∧ (capped ≠ [] → mx < length (outbox c))%nat
    ∧ (mx <= length (outbox c') ∨ capped = [])%nat
    ∧ (cap_blocked out = false → (length (outbox c') <= mx)%nat).
Proof.
  intros (Hok & _ & _). unfold gc_capped. cbv zeta.
  destruct (gc_age_prefix (gc_cutoff now retention) protected (outbox c) Hok) as (aged & H1 & H2).
  set (m1 := gc_age _ _ _) in *.
  unfold gc_doomed. match goal with |- context [take_while ?f ?l] =>
    destruct (take_while_app f l) as (l2 & H3 & H4); set (capped := take_while f l) in * end.
  assert (Hm1 : m1 = capped ++ l2 ++ drop (length m1 - mx) m1).
  { rewrite <- (take_drop (length m1 - mx) m1) at 1. rewrite H3 at 1. by rewrite <- app_assoc. }
  set (q := l2 ++ drop (length m1 - mx) m1) in *.
  assert (Hok1 : bt_ok m1) by (destruct (gc_age_filter (gc_cutoff now retention) protected (outbox c)) as [f Hf];
    fold m1 in Hf; rewrite Hf; by apply bt_filter_ok).
  assert (Hq : foldl (λ m e, bt_remove e.1 m) m1 capped = q).
  { rewrite Hm1 at 1. apply remove_prefix. by rewrite <- Hm1. }
  assert (Hlen : length (outbox c) = (length aged + length m1)%nat) by (rewrite H1 at 1; apply length_app).
  assert (Hl1 : length m1 = (length capped + length q)%nat) by (rewrite Hm1 at 1; apply length_app).
  assert (Hcap : (length capped <= length m1 - mx)%nat).
  { pose proof (f_equal length H3) as HL. rewrite length_app, length_take in HL. lia. }
  exists aged, capped. rewrite Hq. cbn [outbox outbox_seq age_pruned cap_pruned cap_blocked].
  split_and!; [by rewrite <- Hm1|done|lia|done| | | | | |].
  - do 2 f_equal. lia.
  - done.
  - intros e He%H4. by apply negb_true_iff in He.
  - intros Hne. assert (length capped ≠ 0%nat) by (by destruct capped). lia.
  - destruct (decide (capped = [])) as [|Hne]; [by right|left].
    assert (length capped ≠ 0%nat) by (by destruct capped). lia.
  - intros Hb%Nat.ltb_ge. lia.
Qed.

(** Garbage collection drops a prefix of the log, so the retained suffix has no hole;
    it never drops an event whose intent is still staged; it never drops an
    undelivered event unless the log is above the cap, and then only down to the cap;
    unless it reports that it was blocked, the cap holds afterwards; and it asks for a
    file write exactly when something was dropped. *)
Theorem gc_drops_only_a_safe_prefix now retention_secs max_retained protected c :
  outbox_ok c →
  let '((out, dirty), c') := gc_capped now retention_secs max_retained protected c in
  ∃ dropped, outbox c = dropped ++ outbox c' ∧ outbox_seq c' = outbox_seq c
    ∧ length dropped = (age_pruned out + length (cap_pruned out))%nat
    ∧ (∀ e, e ∈ dropped → is_protected protected e.2 = false)
    ∧ ((∃ e, e ∈ dropped ∧ delivery e.2 ≠ Delivered) →
        max_retained < length (outbox c) ∧ max_retained <= length (outbox c'))%nat
    ∧ (cap_blocked out = false → (length (outbox c') <= max_retained)%nat)
    ∧ (dirty = true ↔ dropped ≠ []).
Proof.
  intros Hc. assert (H := gc_capped_prefix now retention_secs max_retained protected c Hc).
  destruct (gc_capped _ _ _ _ _) as [[out dirty] c'].
  destruct H as (aged & capped & H1 & H2 & H3 & H4 & H5 & H6 & H7 & H8 & H9 & H10).
  exists (aged ++ capped). rewrite <- app_assoc. split_and!; [done|done| | | |done|].
  - rewrite length_app, H3, H4, length_fmap. done.
  - intros e [He|He]%elem_of_app; [by apply H6|by apply H7].
  - intros (e & [He|He]%elem_of_app & Hd); [by apply H6 in He as [He _]|].
    assert (capped ≠ []) by (intros ->; by apply elem_of_nil in He).
    split; [by apply H8|]. by destruct H9.
  - rewrite H5, Nat.ltb_lt, <- length_app. destruct (aged ++ capped); simpl; [|by split; [|lia]].
    split; [lia|done].
Qed.

(** *** Draining a staged intent *)

(** The sequence an intent was drained to. *)
Definition drained_at (d : string) (m : BTreeMap Z OutboxEvent) : option Z :=
  sequence <$> List.find (λ e, bool_decide (dedup_id e = Some d)) (bt_values m).

(** What the other operations respect: garbage collection protects the intent while it
    is staged, and migrated events do not carry its id. *)
Definition keeps_intent (d : string) (o : outbox_op) : Prop :=
  match o with
  | OO_gc _ _ _ protected => d ∈ protected
  | OO_insert es => Forall (λ e, dedup_id e ≠ Some d) es
  | _ => True
  end.

Lemma find_app_l {A} (f : A → bool) l l' x : List.find f l = Some x → List.find f (l ++ l') = Some x.
Proof. induction l as [|y l IH]; simpl; [done|]. by destruct (f y). Qed.

Lemma find_app_r {A} (f : A → bool) l l' :
  (∀ x, x ∈ l → f x = false) → List.find f (l ++ l') = List.find f l'.
Proof.
  induction l as [|y l IH]; simpl; [done|]. intros H. rewrite (H y) by constructor.
  apply IH. intros x Hx. apply H. by constructor.
Qed.

Lemma drained_app d m m' seq : drained_at d m = Some seq → drained_at d (m ++ m') = Some seq.
Proof.
  unfold drained_at, bt_values. rewrite fmap_app. destruct (List.find _ m.*2) eqn:E; [|done].
  by rewrite (find_app_l _ _ _ _ E).
Qed.

Lemma drained_alter d (f : OutboxEvent → OutboxEvent) k m :
  (∀ e, dedup_id (f e) = dedup_id e ∧ sequence (f e) = sequence e) →
  drained_at d (bt_alter f k m) = drained_at d m.
Proof.
  intros Hf. unfold drained_at, bt_values, bt_alter.
  induction m as [|[k' e] m IH]; simpl; [done|]. destruct (Hf e) as [H1 H2].
  destruct (k' =? k); simpl; rewrite ?H1; destruct (bool_decide _); simpl; by rewrite ?H2.
Qed.

Lemma drained_leases d until l m :
  drained_at d (foldl (λ m e, bt_alter (set_lease until) (sequence e) m) m l) = drained_at d m.
Proof.
  revert m. induction l as [|e l IH]; intros m; simpl; [done|]. rewrite IH. by apply drained_alter.
Qed.

Lemma drained_insert d k e m :
  dedup_id e ≠ Some d → bt_get m k = None → drained_at d (bt_insert k e m) = drained_at d m.
Proof.
  intros He. unfold drained_at, bt_values. induction m as [|[k' e'] m IH]; intros Hg.
  { simpl. by rewrite bool_decide_false. }
  cbn [bt_insert bt_get] in *. destruct (kcmp k k'); cbn [fmap list_fmap List.find snd];
    [done|by rewrite (bool_decide_false (dedup_id e = Some d))|].
  destruct (bool_decide _); [done|]. by apply IH.
Qed.

Lemma drained_inserts d es m :
  Forall (λ e, dedup_id e ≠ Some d) es → drained_at d (foldl or_insert m es) = drained_at d m.
Proof.
  intros H. revert m. induction H as [|e es He _ IH]; intros m; simpl; [done|].
  rewrite IH. unfold or_insert. destruct (bt_get m (sequence e)) eqn:E; [done|].
  by apply drained_insert.
Qed.

Lemma drained_gc d now retention mx protected c :
  outbox_ok c → d ∈ protected →
  drained_at d (outbox (gc_capped now retention mx protected c).2) = drained_at d (outbox c).
Proof.
  intros Hc Hd. assert (H := gc_capped_prefix now retention mx protected c Hc).
  destruct (gc_capped _ _ _ _ _) as [[out dirty] c'].
  destruct H as (aged & capped & H1 & _ & _ & _ & _ & H6 & H7 & _). cbn [snd].
  unfold drained_at, bt_values. rewrite H1, app_assoc, fmap_app, find_app_r; [done|].
  intros x ([k e] & -> & He)%list_elem_of_fmap. apply bool_decide_eq_false. intros Hx. cbn in Hx.
  assert (Hp : is_protected protected e = false).
  { apply elem_of_app in He as [He|He]; [by apply H6 in He as [_ He]|by apply H7 in He]. }
  unfold is_protected in Hp. rewrite Hx, bool_decide_true in Hp by done. done.
Qed.

Lemma drained_push d now c subj ty body dedup seq0 seq c' :
  outbox_ok c → outbox_seq c < u64_max → push_event now c subj ty body dedup = (seq, c') →
  drained_at d (outbox c) = Some seq0 → drained_at d (outbox c') = Some seq0.
Proof.
  intros Hc Hu Hp Hd. apply push_event_ok in Hp as (_ & _ & _ & e & -> & _); [|done|done].
  by apply drained_app.
Qed.

Lemma drained_step d c o seq :
  outbox_ok c → outbox_seq c < u64_max → keeps_intent d o →
  drained_at d (outbox c) = Some seq → drained_at d (outbox (outbox_step c o)) = Some seq.
Proof.
  intros Hc Hu Hk Hd.
  destruct o as [now subj ty body|now dd subj ty body|es|now limit ls|now now' s ok er mx|s|now rt mx pr];
    cbn [outbox_step].
  - unfold append. destruct (push_event _ _ _ _ _ _) as [s c1] eqn:Ep. by eapply drained_push.
  - unfold append_deduped. destruct (List.find _ _); [done|].
    destruct (push_event _ _ _ _ _ _) as [s c1] eqn:Ep. by eapply drained_push.
  - unfold insert_events_preserving_seq. destruct es as [|e es]; [done|]. cbn [outbox].
    by rewrite drained_inserts.
  - unfold claim. cbn [snd outbox]. by rewrite drained_leases.
  - unfold record_delivery, record_delivery_transition.
    repeat case_match; simplify_eq; cbn [snd outbox]; by rewrite ?drained_alter.
  - unfold replay_dead_letter. repeat case_match; cbn [snd outbox]; by rewrite ?drained_alter.
  - by rewrite drained_gc.
Qed.

Lemma drained_steps d b c ops seq :
  outbox_ok c → outbox_seq c <= b → Forall (inserts_below b) ops →
  b + Z.of_nat (length ops) <= u64_max → Forall (keeps_intent d) ops →
  drained_at d (outbox c) = Some seq →
  drained_at d (outbox (foldl outbox_step c ops)) = Some seq.
Proof.
  intros Hc Hb Hi Hl Hk. revert b c Hc Hb Hi Hl.
  induction Hk as [|o ops Ho _ IH]; intros b c Hc Hb Hi Hl Hd; cbn [foldl length] in *; [done|].
  inversion Hi as [|? ? Hio Hiops]; subst.
  destruct (outbox_step_ok b c o Hc Hb Hio) as [H1 H2]; [lia|].
  apply (IH (b + 1)); [done|lia| |lia|].
  - eapply Forall_impl; [exact Hiops|]. intros [] H; try done. simpl in *.
    eapply Forall_impl; [exact H|]. simpl. lia.
  - apply drained_step; [done|lia|done|done].
Qed.

Lemma append_deduped_drained now d subj ty body c seq new c' :
  outbox_ok c → outbox_seq c < u64_max →
  append_deduped now d subj ty body c = ((seq, new), c') →
  outbox_ok c' ∧ outbox_seq c <= outbox_seq c' <= outbox_seq c + 1
  ∧ drained_at d (outbox c') = Some seq
  ∧ length (outbox c') = (length (outbox c) + if new then 1 else 0)%nat.
Proof.
  intros Hc Hu. unfold append_deduped.
  destruct (List.find _ _) as [e|] eqn:E.
  - intros [= <- <- <-]. split_and!; [done|lia|lia| |lia]. unfold drained_at. by rewrite E.
  - destruct (push_event _ _ _ _ _ _) as [s c1] eqn:Ep. intros [= <- <- <-].
    apply push_event_ok in Ep as (H1 & H2 & H3 & e & H4 & H5 & H6 & _); [|done|done].
    split_and!; [done|lia|lia| |].
    + unfold drained_at, bt_values in *. rewrite H4, fmap_app, find_app_r.
      * simpl. rewrite bool_decide_true by done. simpl. by rewrite H5.
      * intros x Hx. eapply find_none in E; [done|by apply list_elem_of_In].
    + rewrite H4, length_app. done.
Qed.

(** An intent is drained exactly once: after it was drained, a second drain, whatever
    happened in between (further events, deliveries, dead letters, migrations, and
    garbage collection that still sees the intent staged), finds the first event,
    returns its sequence and inserts nothing. *)
Theorem intent_is_drained_exactly_once b d now now' subj subj' ty ty' body body' c ops seq new c1 :
  outbox_ok c → outbox_seq c <= b → b + 1 + Z.of_nat (length ops) <= u64_max →
  Forall (inserts_below (b + 1)) ops → Forall (keeps_intent d) ops →
  append_deduped now d subj ty body c = ((seq, new), c1) →
  let c2 := foldl outbox_step c1 ops in
  append_deduped now' d subj' ty' body' c2 = ((seq, false), c2).
Proof.
  intros Hc Hb Hl Hi Hk Ha c2.
  apply append_deduped_drained in Ha as (H1 & H2 & H3 & _); [|done|lia].
  assert (Hd : drained_at d (outbox c2) = Some seq).
  { eapply (drained_steps d (b + 1)); [done|lia|done|lia|done|done]. }
  clear H3. unfold append_deduped, drained_at in *. destruct (List.find _ _); [|done].
  by injection Hd as <-.
Qed.
