(* ===== verification/Approval.v ===== *)
(** * Human approval of actions

    Models [src/src/approval/mod.rs]: the approval request and its lifecycle
    ([open], [advance_lifecycle], [approve], [deny], [expire_reauth_lapsed]), sign-off
    recording with its guards, the recipe evaluator, and the re-derivation of a grant
    from stored evidence ([grant_witness_inner]).

    The fields of [ApprovalRequest] are grouped by who writes them: [Opening] is fixed
    when the request is stored, [Progress] is written by decisions and by the clock,
    [Run] by the execution path; coercions let the operations read all of them from
    the request.  The clock reads of one operation are one instant [now]. *)

From stdpp Require Import base strings list.
From Stdlib Require Import Ascii ZArith Lia.
From S2P Require Import Prelude RustStr Json RateLimit Kernel.

Open Scope Z_scope.

(** ** Data *)

(** [ApprovalStatus]. *)
Inductive ApprovalStatus := AS_Pending | AS_Escalated | AS_Approved | AS_Denied | AS_Expired.

#[export] Instance ApprovalStatus_eq_dec : EqDecision ApprovalStatus.
Proof. solve_decision. Defined.

(** [CriticalityClass]. *)
Inductive CriticalityClass := CC_Low | CC_Medium | CC_High | CC_Critical.

(** [CapabilityAuthorityClass]. *)
Inductive CapabilityAuthorityClass :=
| CA_Reversible | CA_HumanFloor | CA_PartiallyReversible | CA_Undeclared | CA_AmbiguousCanonical.

(** [GateRuleAuthorityClass]. *)
Inductive GateRuleAuthorityClass := GA_Rule | GA_NoRule | GA_Inconclusive.

(** [CredentialType] of [lib.rs]. *)
Inductive CredentialType :=
| CT_ApiKey | CT_OAuth2 | CT_GoogleServiceAccount | CT_BasicAuth | CT_PrivateKey
| CT_Certificate | CT_HmacApiKey | CT_AwsSigV4 | CT_EcdsaKey | CT_SshPassword | CT_Postgres
| CT_UrlToken | CT_Custom (name : string).

(** [CredentialAuthority]. *)
Record CredentialAuthority := {
  cra_id : string;
  cra_credential_type : CredentialType;
  cra_created_at : DateTime;
  cra_updated_at : DateTime;
  cra_tenant : option string;
}.

(** [LifecycleChange]. *)
Inductive LifecycleChange := LC_None | LC_Escalated | LC_Expired.

(** [RequesterInfo]. *)
Record RequesterInfo := {
  rq_principal_kind : string;
  rq_principal_id : option string;
  rq_principal_name : option string;
  rq_role : option string;
  rq_owner : option string;
}.

(** [ApproverClass]. *)
Inductive ApproverClass := Senior | Teammate | AgentReviewer | UnknownClass.

#[export] Instance ApproverClass_eq_dec : EqDecision ApproverClass.
Proof. solve_decision. Defined.

(** [RecipeDecisionMode]. *)
Inductive RecipeDecisionMode := DenyOnAnyDeny | MajorityWithDissentRecorded.

#[export] Instance RecipeDecisionMode_eq_dec : EqDecision RecipeDecisionMode.
Proof. solve_decision. Defined.

(** [RecipeTerm], [Recipe] and [ApprovalRule]. *)
Record RecipeTerm := { rt_class : ApproverClass; rt_count : Z }.
Record Recipe := { terms : list RecipeTerm }.
Record ApprovalRule := {
  recipes : list Recipe;
  decision_mode : RecipeDecisionMode;
  exclude_owner : bool;
}.

(** [Signoff]. *)
Record Signoff := {
  so_approver_identity : string;
  so_channel : string;
  so_decided_at : DateTime;
  so_note : option string;
  so_approver_kind : string;
  so_delegation_grant_ref : option string;
  so_resolved_class : option ApproverClass;
  so_controller : option string;
  so_approve : bool;
}.

(** [Decision]. *)
Record Decision := {
  de_channel : string;
  de_approver_identity : string;
  de_note : option string;
  de_enforce_sod : bool;
  de_approver_kind : string;
  de_delegation_grant_ref : option string;
  de_resolved_class : option ApproverClass;
  de_controller : option string;
}.

(** [PreviewField] and [ApprovalPreview] of [capability/mod.rs]. *)
Record PreviewField := { pf_label : string; pf_value : string; pf_format : string }.
Record ApprovalPreview := { pv_title : option string; pv_fields : list PreviewField }.

(** The fields of [ApprovalRequest] that are fixed when it is stored. *)
Record Opening := {
  ap_id : string;
  ap_credential : string;
  ap_action : string;
  ap_params : Value;
  ap_summary : string;
  ap_requester : RequesterInfo;
  ap_use_token_id : option string;
  ap_principal_id : option string;
  ap_agent_label : option string;
  ap_tenant : option string;
  ap_workload_id : option string;
  ap_preview : option ApprovalPreview;
  ap_action_label : option string;
  ap_dual_control : bool;
  ap_required_approvals : Z;
  ap_approval_rule : option ApprovalRule;
  ap_authoritative_risk_tier : string;
  ap_authoritative_irreversible : bool;
  ap_criticality : CriticalityClass;
  ap_trusted_irreversible : bool;
  ap_capability_authority : option CapabilityAuthorityClass;
  ap_gate_rule_authority : option GateRuleAuthorityClass;
  ap_credential_authority : option CredentialAuthority;
  ap_trusted_spend_amount_minor : option Z;
  ap_trusted_spend_asset : option string;
  ap_created_at : DateTime;
  ap_escalate_at : DateTime;
  ap_expires_at : DateTime;
  ap_oob_identity : option string;
  ap_reauth_interval_secs : option Z;
  ap_decision_token_hash : string;
  ap_kill_epoch_at_open : option Z;
}.

(** The fields a decision or the clock writes. *)
Record Progress := {
  ap_status : ApprovalStatus;
  ap_signoffs : list Signoff;
  ap_escalated_at : option DateTime;
  ap_decided_at : option DateTime;
  ap_decided_by : option string;
  ap_approver_identity : option string;
  ap_sod_violation : option bool;
  ap_decision_note : option string;
  ap_delegate_veto_until : option DateTime;
}.

(** The fields the execution path writes. *)
Record Run := {
  ap_executing : bool;
  ap_executing_since : option DateTime;
  ap_executed : bool;
  ap_result_status : option Z;
  ap_result_body : option string;
  ap_result_error : option string;
  ap_execution_epoch : Z;
}.

(** [ApprovalRequest]. *)
Record ApprovalRequest := {
  opening :> Opening;
  progress :> Progress;
  run :> Run;
}.

(** [ApprovalError]. *)
Inductive ApprovalError :=
| AE_AlreadyDecided (s : ApprovalStatus)
| AE_Expired
| AE_NotFound
| AE_InvalidToken
| AE_MissingApproverIdentity
| AE_SeparationOfDuty
| AE_DuplicateApprover
| AE_SameAggregatorKey
| AE_MixedProvenance.

(** [ApproverProvenance]. *)
Inductive ApproverProvenance := Verified | Aggregator.

#[export] Instance ApproverProvenance_eq_dec : EqDecision ApproverProvenance.
Proof. solve_decision. Defined.

(** Field updates. *)
Definition with_progress (a : ApprovalRequest) (p : Progress) : ApprovalRequest :=
  {| opening := opening a; progress := p; run := run a |}.
Definition with_run (a : ApprovalRequest) (r : Run) : ApprovalRequest :=
  {| opening := opening a; progress := progress a; run := r |}.

(** ** Identities *)

Definition AGG_IDENTITY_PREFIX : string := "agg:".
Definition VERIFIED_IDENTITY_PREFIX : string := "verified:".

(** [bare_approver_identity]. *)
Definition bare_approver_identity (identity : string) : string :=
  match strip_prefix VERIFIED_IDENTITY_PREFIX identity with
  | Some subject => subject
  | None =>
      match strip_prefix AGG_IDENTITY_PREFIX identity with
      | None => identity
      | Some rest =>
          match split_once ":" rest with
          | Some (_, operator) => operator
          | None => identity
          end
      end
  end.

(** [aggregator_key_prefix]. *)
Definition aggregator_key_prefix (identity : string) : option string :=
  match strip_prefix AGG_IDENTITY_PREFIX identity with
  | None => None
  | Some rest =>
      match split_once ":" rest with
      | Some (key_id, _) => Some (AGG_IDENTITY_PREFIX +:+ key_id +:+ ":")
      | None => None
      end
  end.

(** [approver_provenance]. *)
Definition approver_provenance (identity : string) : option ApproverProvenance :=
  if starts_with VERIFIED_IDENTITY_PREFIX identity then Some Verified
  else match aggregator_key_prefix identity with
       | Some _ => Some Aggregator
       | None => None
       end.

(** The distinctness key of an approver: the bare identity, trimmed and folded. *)
Definition person_key (identity : string) : string :=
  to_ascii_lowercase (trim (bare_approver_identity identity)).

(** ** Recipes *)

(** [ApproverClass::is_human] and [ApproverClass::parse_wire]. *)
Definition is_human (c : ApproverClass) : bool :=
  match c with Senior | Teammate => true | _ => false end.

Definition parse_wire (s : string) : option ApproverClass :=
  let s := trim s in
  if String.eqb s "senior" then Some Senior
  else if String.eqb s "teammate" then Some Teammate
  else if String.eqb s "agent-reviewer" then Some AgentReviewer
  else None.

(** [u32::saturating_add] and an [as u32] cast of a length. *)
Definition u32_saturating_add (a b : Z) : Z := Z.min (a + b) u32_max.
Definition len_as_u32 {A} (l : list A) : Z := Z.of_nat (length l) mod (u32_max + 1).

Definition MAX_RECIPE_TERM_COUNT : Z := 64.

(** The [for] loop of [recipe_well_formed], from a running total. *)
Fixpoint terms_well_formed (total : Z) (ts : list RecipeTerm) : bool :=
  match ts with
  | [] => true
  | t :: ts' =>
      if (rt_count t =? 0) || (MAX_RECIPE_TERM_COUNT <? rt_count t) then false
      else
        let total' := u32_saturating_add total (rt_count t) in
        if MAX_RECIPE_TERM_COUNT <? total' then false
        else if bool_decide (rt_class t = UnknownClass) then false
        else terms_well_formed total' ts'
  end.

(** [recipe_well_formed]. *)
Definition recipe_well_formed (r : Recipe) : bool :=
  match terms r with [] => false | ts => terms_well_formed 0 ts end.

(** The accumulation loop of [recipe_needs]. *)
Fixpoint sum_needs (acc : Z * Z * Z) (ts : list RecipeTerm) : option (Z * Z * Z) :=
  match ts with
  | [] => Some acc
  | t :: ts' =>
      let '(s, m, a) := acc in
      match rt_class t with
      | Senior => sum_needs (u32_saturating_add s (rt_count t), m, a) ts'
      | Teammate => sum_needs (s, u32_saturating_add m (rt_count t), a) ts'
      | AgentReviewer => sum_needs (s, m, u32_saturating_add a (rt_count t)) ts'
      | UnknownClass => None
      end
  end.

(** [recipe_needs]. *)
Definition recipe_needs (r : Recipe) : option (Z * Z * Z) :=
  if negb (recipe_well_formed r) then None else sum_needs (0, 0, 0) (terms r).

(** [recipe_satisfied]. *)
Definition recipe_satisfied (r : Recipe) (avail_senior avail_teammate avail_agent : Z) : bool :=
  match recipe_needs r with
  | None => false
  | Some (need_senior, need_teammate, need_agent) =>
      if 0 <? need_agent then false
      else if avail_senior <? need_senior then false
      else
        let leftover_senior := avail_senior - need_senior in
        if u32_saturating_add leftover_senior avail_teammate <? need_teammate then false
        else need_agent <=? avail_agent
  end.

(** [class_fills_a_slot]. *)
Definition class_fills_a_slot (r : Recipe) (c : ApproverClass) : bool :=
  match recipe_needs r with
  | None => false
  | Some (need_senior, need_teammate, need_agent) =>
      if 0 <? need_agent then false
      else match c with
           | Senior => (0 <? need_senior) || (0 <? need_teammate)
           | Teammate => 0 <? need_teammate
           | AgentReviewer | UnknownClass => false
           end
  end.

(** Keeps the first element of every key: a [filter] on [HashSet::insert]. *)
Fixpoint dedupe_by {A} (key : A → string) (seen : list string) (l : list A) : list A :=
  match l with
  | [] => []
  | x :: l' =>
      if bool_decide (key x ∈ seen) then dedupe_by key seen l'
      else x :: dedupe_by key (key x :: seen) l'
  end.

(** [dedupe_by_identity]. *)
Definition dedupe_by_identity (l : list Signoff) : list Signoff :=
  dedupe_by (λ s, person_key (so_approver_identity s)) [] l.

(** [collapse_by_controller]. *)
Definition controller_key (s : Signoff) : string :=
  match so_controller s with
  | Some c => if is_blank c then String Ascii.zero "unknown-controller" else trim c
  | None => String Ascii.zero "unknown-controller"
  end.

Definition collapse_by_controller (l : list Signoff) : list Signoff :=
  dedupe_by controller_key [] l.

(** Where the [for] loop of [approval_rule_satisfied] puts a positive sign-off. *)
Inductive Bucket := B_Human | B_Agent | B_Drop.

#[export] Instance Bucket_eq_dec : EqDecision Bucket.
Proof. solve_decision. Defined.

Definition bucket (s : Signoff) : Bucket :=
  if is_blank (bare_approver_identity (so_approver_identity s)) then B_Drop
  else match so_resolved_class s with
       | None => B_Drop
       | Some class =>
           let kind := trim (so_approver_kind s) in
           if (String.eqb kind "human" && negb (is_human class))
              || (String.eqb kind "delegate-agent" && negb (bool_decide (class = AgentReviewer)))
              || negb (String.eqb kind "human" || String.eqb kind "delegate-agent")
           then B_Drop
           else match class with
                | Senior | Teammate => B_Human
                | AgentReviewer =>
                    match so_delegation_grant_ref s with
                    | Some g => if is_blank g then B_Drop else B_Agent
                    | None => B_Drop
                    end
                | UnknownClass => B_Drop
                end
       end.

(** [approval_rule_satisfied]. *)
Definition approval_rule_satisfied (rule : ApprovalRule) (signoffs : list Signoff) : bool :=
  let positives := List.filter so_approve signoffs in
  let humans := dedupe_by_identity (List.filter (λ s, bool_decide (bucket s = B_Human)) positives) in
  let agents := collapse_by_controller
    (dedupe_by_identity (List.filter (λ s, bool_decide (bucket s = B_Agent)) positives)) in
  let avail_senior :=
    len_as_u32 (List.filter (λ s, bool_decide (so_resolved_class s = Some Senior)) humans) in
  let avail_teammate :=
    len_as_u32 (List.filter (λ s, bool_decide (so_resolved_class s = Some Teammate)) humans) in
  let avail_agent := len_as_u32 agents in
  existsb (λ r, recipe_satisfied r avail_senior avail_teammate avail_agent) (recipes rule).

(** [risk_tier_forces_deny_on_any_deny]. *)
Definition risk_tier_forces_deny_on_any_deny (risk_tier : string) : bool :=
  let t := trim risk_tier in
  negb (String.eqb t "Low" || String.eqb t "Medium" || String.eqb t "High").

(** ** Reading a request *)

(** [ApprovalStatus::is_open]. *)
Definition is_open (s : ApprovalStatus) : bool :=
  match s with AS_Pending | AS_Escalated => true | _ => false end.

(** [tenant_may_act] and [ApprovalRequest::visible_to_tenant]. *)
Definition tenant_may_act (acting resource_tenant : option string) : bool :=
  match acting with
  | None => true
  | Some a => match resource_tenant with None => true | Some t => String.eqb t a end
  end.

Definition visible_to_tenant (a : ApprovalRequest) (acting : option string) : bool :=
  tenant_may_act acting (ap_tenant a).

(** [Option::or]. *)
Definition opt_or {A} (a b : option A) : option A := match a with Some _ => a | None => b end.

(** [ApprovalRequest::policy_principal]. *)
Definition policy_principal (a : ApprovalRequest) : option Principal :=
  match opt_or (ap_principal_id a) (rq_principal_id (ap_requester a)) with
  | Some id => Some {| principal_id := id; agent_label := ap_agent_label a; owner := None;
                       workload_id := ap_workload_id a |}
  | None => None
  end.

(** [ApprovalRequest::effective_required_approvals]. *)
Definition effective_required_approvals (a : ApprovalRequest) : Z :=
  if ap_dual_control a then Z.max (ap_required_approvals a) 2
  else Z.max (ap_required_approvals a) 1.

(** [ApprovalRequest::same_aggregator_key_guard_active]. *)
Definition same_aggregator_key_guard_active (a : ApprovalRequest) : bool :=
  bool_decide (is_Some (ap_approval_rule a)) || (1 <? effective_required_approvals a).

(** [ApprovalRequest::contributes_positive_slot]. *)
Definition contributes_positive_slot (a : ApprovalRequest) (approve : bool)
    (class : option ApproverClass) : bool :=
  if negb approve then false
  else match ap_approval_rule a with
       | None => true
       | Some rule =>
           match class with
           | Some c => existsb (λ r, class_fills_a_slot r c) (recipes rule)
           | None => false
           end
       end.

(** [ApprovalRequest::approvals_remaining]. *)
Definition approvals_remaining (a : ApprovalRequest) : Z :=
  Z.max 0 (effective_required_approvals a - len_as_u32 (ap_signoffs a)).

(** [ApprovalRequest::sod_for]. *)
Definition sod_for (a : ApprovalRequest) (candidate : string) : option bool :=
  let approver := trim (bare_approver_identity candidate) in
  if is_empty approver then None
  else
    let identities := [rq_principal_name (ap_requester a); ap_agent_label a;
                       ap_principal_id a; rq_principal_id (ap_requester a)] in
    let known := List.filter (λ s, negb (is_empty s)) (trim <$> omap id identities) in
    match known with
    | [] => None
    | _ => Some (existsb (λ i, eq_ignore_ascii_case i approver) known)
    end.

(** [ApprovalRequest::violates_sod]. *)
Definition violates_sod (a : ApprovalRequest) : option bool :=
  match ap_approver_identity a with Some i => sod_for a i | None => None end.

(** [ApprovalRequest::owner_excluded]. *)
Definition owner_excluded (a : ApprovalRequest) (candidate : string) : bool :=
  let excluded := match ap_approval_rule a with Some r => exclude_owner r | None => false end in
  if negb excluded then false
  else
    let approver := trim (bare_approver_identity candidate) in
    match trim <$> rq_owner (ap_requester a) with
    | Some o => if negb (is_empty o) && negb (is_empty approver)
                then eq_ignore_ascii_case o approver else false
    | None => false
    end.

(** [ApprovalRequest::recipe_forces_deny_on_any_deny]. *)
Definition recipe_forces_deny_on_any_deny (a : ApprovalRequest) : bool :=
  ap_authoritative_irreversible a || risk_tier_forces_deny_on_any_deny (ap_authoritative_risk_tier a).

Definition DEFAULT_UNRUN_GRANT_WINDOW_SECS : Z := 24 * 60 * 60.

(** The execute-by window: [reauth_interval_secs.filter(|s| s > 0).unwrap_or(..)]. *)
Definition reauth_window (a : ApprovalRequest) : Z :=
  match ap_reauth_interval_secs a with
  | Some s => if 0 <? s then s else DEFAULT_UNRUN_GRANT_WINDOW_SECS
  | None => DEFAULT_UNRUN_GRANT_WINDOW_SECS
  end.

(** A [u64 as i64] cast. *)
Definition as_i64 (n : Z) : Z := if n <=? 9223372036854775807 then n else n - (u64_max + 1).

(** [ApprovalRequest::needs_reauth]. *)
Definition needs_reauth (now : DateTime) (a : ApprovalRequest) : bool :=
  if negb (bool_decide (ap_status a = AS_Approved)) || ap_executed a then false
  else match ap_decided_at a with
       | None => false
       | Some d => as_i64 (reauth_window a) <? num_seconds (now - d)
       end.

(** [ApprovalRequest::veto_pending]. *)
Definition veto_pending (now : DateTime) (a : ApprovalRequest) : bool :=
  bool_decide (ap_status a = AS_Approved) && negb (ap_executed a)
  && match ap_delegate_veto_until a with Some t => now <? t | None => false end.

(** [ApprovalRequest::is_past_ttl]. *)
Definition is_past_ttl (now : DateTime) (a : ApprovalRequest) : bool := ap_expires_at a <=? now.

(** ** Opening a request *)

(** [NewApproval]. *)
Record NewApproval := {
  na_credential : string;
  na_action : string;
  na_params : Value;
  na_requester : RequesterInfo;
  na_use_token_id : option string;
  na_principal_id : option string;
  na_agent_label : option string;
  na_action_label : option string;
  na_dual_control : bool;
  na_criticality : CriticalityClass;
  na_trusted_irreversible : option bool;
  na_escalate_after : Z;
  na_escalate_window : Z;
  na_oob_identity : option string;
  na_reauth_interval_secs : option Z;
  na_required_approvals : Z;
  na_tenant : option string;
  na_workload_id : option string;
  na_preview : option ApprovalPreview;
  na_approval_rule : option ApprovalRule;
}.

(** [summarize]; [to_uppercase] is the Unicode mapping of the standard library. *)
Definition summarize (to_uppercase : string → string) (credential act : string)
    (params : Value) : string :=
  let method := match json_get "method" params with Some v => as_str v | None => None end in
  let url := match json_get "url" params with Some v => as_str v | None => None end in
  match method, url with
  | Some m, Some u => to_uppercase m +:+ " " +:+ u +:+ " (via " +:+ credential +:+ ")"
  | None, Some u => u +:+ " (via " +:+ credential +:+ ")"
  | _, None => act +:+ " on " +:+ credential
  end.

(** [ApprovalRequest::open]; the uuid, the decision token's hash and the clock are
    arguments. *)
Definition open_approval (to_uppercase : string → string) (now : DateTime)
    (uuid token_hash : string) (p : NewApproval) : ApprovalRequest :=
  {| opening :=
       {| ap_id := "appr_" +:+ uuid; ap_credential := na_credential p; ap_action := na_action p;
          ap_params := na_params p;
          ap_summary := summarize to_uppercase (na_credential p)
                          (default (na_action p) (na_action_label p)) (na_params p);
          ap_requester := na_requester p; ap_use_token_id := na_use_token_id p;
          ap_principal_id := na_principal_id p; ap_agent_label := na_agent_label p;
          ap_tenant := na_tenant p; ap_workload_id := na_workload_id p;
          ap_preview := na_preview p; ap_action_label := na_action_label p;
          ap_dual_control := na_dual_control p;
          ap_required_approvals := Z.max (na_required_approvals p) 1;
          ap_approval_rule := na_approval_rule p; ap_authoritative_risk_tier := "";
          ap_authoritative_irreversible := false; ap_criticality := na_criticality p;
          ap_trusted_irreversible := default false (na_trusted_irreversible p);
          ap_capability_authority := None; ap_gate_rule_authority := None;
          ap_credential_authority := None; ap_trusted_spend_amount_minor := None;
          ap_trusted_spend_asset := None; ap_created_at := now;
          ap_escalate_at := now + na_escalate_after p;
          ap_expires_at := now + na_escalate_after p + na_escalate_window p;
          ap_oob_identity := na_oob_identity p;
          ap_reauth_interval_secs := na_reauth_interval_secs p;
          ap_decision_token_hash := token_hash; ap_kill_epoch_at_open := None |};
     progress :=
       {| ap_status := AS_Pending; ap_signoffs := []; ap_escalated_at := None;
          ap_decided_at := None; ap_decided_by := None; ap_approver_identity := None;
          ap_sod_violation := None; ap_decision_note := None;
          ap_delegate_veto_until := None |};
     run :=
       {| ap_executing := false; ap_executing_since := None; ap_executed := false;
          ap_result_status := None; ap_result_body := None; ap_result_error := None;
          ap_execution_epoch := 0 |} |}.

(** ** The lifecycle *)

Definition set_expired (now : DateTime) (a : ApprovalRequest) : ApprovalRequest :=
  with_progress a
    {| ap_status := AS_Expired; ap_signoffs := ap_signoffs a;
       ap_escalated_at := ap_escalated_at a; ap_decided_at := Some now;
       ap_decided_by := Some "system (expired)"; ap_approver_identity := ap_approver_identity a;
       ap_sod_violation := ap_sod_violation a; ap_decision_note := ap_decision_note a;
       ap_delegate_veto_until := ap_delegate_veto_until a |}.

(** [ApprovalRequest::advance_lifecycle]. *)
Definition advance_lifecycle (now : DateTime) (a : ApprovalRequest)
    : LifecycleChange * ApprovalRequest :=
  if negb (is_open (ap_status a)) then (LC_None, a)
  else if ap_expires_at a <=? now then (LC_Expired, set_expired now a)
  else if bool_decide (ap_status a = AS_Pending) && (ap_escalate_at a <=? now) then
    (LC_Escalated,
     with_progress a
       {| ap_status := AS_Escalated; ap_signoffs := ap_signoffs a;
          ap_escalated_at := Some now; ap_decided_at := ap_decided_at a;
          ap_decided_by := ap_decided_by a; ap_approver_identity := ap_approver_identity a;
          ap_sod_violation := ap_sod_violation a; ap_decision_note := ap_decision_note a;
          ap_delegate_veto_until := ap_delegate_veto_until a |})
  else (LC_None, a).

(** [ApprovalRequest::expire_if_due]. *)
Definition expire_if_due (now : DateTime) (a : ApprovalRequest) : bool * ApprovalRequest :=
  if is_open (ap_status a) && is_past_ttl now a then (true, set_expired now a) else (false, a).

(** [ApprovalRequest::expire_reauth_lapsed]. *)
Definition expire_reauth_lapsed (a : ApprovalRequest) : ApprovalRequest :=
  let lapse := "re-authorization window lapsed before execution" in
  with_progress a
    {| ap_status := AS_Expired; ap_signoffs := ap_signoffs a;
       ap_escalated_at := ap_escalated_at a; ap_decided_at := ap_decided_at a;
       ap_decided_by := ap_decided_by a; ap_approver_identity := ap_approver_identity a;
       ap_sod_violation := ap_sod_violation a;
       ap_decision_note := Some (match ap_decision_note a with
                                 | Some note => if is_empty note then lapse
                                                else note +:+ " | " +:+ lapse
                                 | None => lapse
                                 end);
       ap_delegate_veto_until := ap_delegate_veto_until a |}.

(** ** Decisions *)

(** The sign-off a decision records. *)
Definition signoff_of (now : DateTime) (identity : string) (d : Decision) (approve : bool) : Signoff :=
  {| so_approver_identity := identity; so_channel := de_channel d; so_decided_at := now;
     so_note := de_note d; so_approver_kind := de_approver_kind d;
     so_delegation_grant_ref := de_delegation_grant_ref d;
     so_resolved_class := de_resolved_class d; so_controller := de_controller d;
     so_approve := approve |}.

(** The sticky separation-of-duty flag. *)
Definition sticky_sod (old new : option bool) : option bool :=
  match old, new with
  | Some true, _ | _, Some true => Some true
  | a, b => opt_or a b
  end.

(** Whether a denial ends the request ([terminal_deny]). *)
Definition terminal_deny (a : ApprovalRequest) (is_delegate_veto : bool) : bool :=
  is_delegate_veto
  || match ap_approval_rule a with
     | None => true
     | Some rule => recipe_forces_deny_on_any_deny a
                    || bool_decide (decision_mode rule = DenyOnAnyDeny)
     end.

(** The denial branch of [transition]. *)
Definition record_deny (now : DateTime) (a : ApprovalRequest) (identity : string) (d : Decision)
    (is_delegate_veto : bool) : ApprovalRequest :=
  let signoffs := ap_signoffs a ++ [signoff_of now identity d false] in
  let sod := sticky_sod (ap_sod_violation a) (sod_for a identity) in
  if terminal_deny a is_delegate_veto then
    with_progress a
      {| ap_status := AS_Denied; ap_signoffs := signoffs; ap_escalated_at := ap_escalated_at a;
         ap_decided_at := Some now; ap_decided_by := Some (de_channel d);
         ap_approver_identity := Some identity; ap_sod_violation := sod;
         ap_decision_note := de_note d; ap_delegate_veto_until := ap_delegate_veto_until a |}
  else
    with_progress a
      {| ap_status := ap_status a; ap_signoffs := signoffs; ap_escalated_at := ap_escalated_at a;
         ap_decided_at := ap_decided_at a; ap_decided_by := ap_decided_by a;
         ap_approver_identity := ap_approver_identity a; ap_sod_violation := sod;
         ap_decision_note := ap_decision_note a;
         ap_delegate_veto_until := ap_delegate_veto_until a |}.

(** The same-key guard: a contributing sign-off recorded under the same key prefix. *)
Definition same_key_conflict (a : ApprovalRequest) (identity : string) : bool :=
  match aggregator_key_prefix identity with
  | Some prefix =>
      existsb (λ s, starts_with prefix (so_approver_identity s)
                    && contributes_positive_slot a (so_approve s) (so_resolved_class s))
        (ap_signoffs a)
  | None => false
  end.

(** The mixed-provenance guard. *)
Definition mixed_provenance (a : ApprovalRequest) (identity : string) : bool :=
  match approver_provenance identity with
  | Some incoming =>
      existsb (λ s, contributes_positive_slot a (so_approve s) (so_resolved_class s)
                    && match approver_provenance (so_approver_identity s) with
                       | Some existing => negb (bool_decide (existing = incoming))
                       | None => false
                       end)
        (ap_signoffs a)
  | None => false
  end.

(** The distinctness guard. *)
Definition duplicate_approver (a : ApprovalRequest) (identity : string) : bool :=
  existsb (λ s, eq_ignore_ascii_case (trim (bare_approver_identity (so_approver_identity s)))
                  (trim (bare_approver_identity identity))) (ap_signoffs a).

(** The guards of the approval branch of [transition], in order. *)
Definition approve_guards (a : ApprovalRequest) (identity : string) (d : Decision)
    : result unit ApprovalError :=
  if de_enforce_sod d && bool_decide (sod_for a identity = Some true) then Err AE_SeparationOfDuty
  else if owner_excluded a identity then Err AE_SeparationOfDuty
  else
    let? _ :=
      (if same_aggregator_key_guard_active a
          && contributes_positive_slot a true (de_resolved_class d)
       then if same_key_conflict a identity then Err AE_SameAggregatorKey
            else if mixed_provenance a identity then Err AE_MixedProvenance
            else Ok tt
       else Ok tt) in
    if duplicate_approver a identity then Err AE_DuplicateApprover else Ok tt.

(** Whether the sign-offs grant the request. *)
Definition granted_by (a : ApprovalRequest) (signoffs : list Signoff) : bool :=
  match ap_approval_rule a with
  | None => effective_required_approvals a <=? len_as_u32 signoffs
  | Some rule => approval_rule_satisfied rule signoffs
  end.

(** Recording a positive sign-off. *)
Definition record_approve (now : DateTime) (a : ApprovalRequest) (identity : string) (d : Decision)
    : ApprovalRequest :=
  let signoffs := ap_signoffs a ++ [signoff_of now identity d true] in
  let sod := sticky_sod (ap_sod_violation a) (sod_for a identity) in
  if granted_by a signoffs then
    with_progress a
      {| ap_status := AS_Approved; ap_signoffs := signoffs; ap_escalated_at := ap_escalated_at a;
         ap_decided_at := Some now; ap_decided_by := Some (de_channel d);
         ap_approver_identity := Some identity; ap_sod_violation := sod;
         ap_decision_note := de_note d; ap_delegate_veto_until := ap_delegate_veto_until a |}
  else
    with_progress a
      {| ap_status := ap_status a; ap_signoffs := signoffs; ap_escalated_at := ap_escalated_at a;
         ap_decided_at := ap_decided_at a; ap_decided_by := ap_decided_by a;
         ap_approver_identity := Some identity; ap_sod_violation := sod;
         ap_decision_note := ap_decision_note a;
         ap_delegate_veto_until := ap_delegate_veto_until a |}.

(** Whether a denial vetoes a delegate's approval. *)
Definition delegate_veto (now : DateTime) (a : ApprovalRequest) (to : ApprovalStatus)
    (d : Decision) : bool :=
  bool_decide (to = AS_Denied) && bool_decide (ap_status a = AS_Approved)
  && negb (ap_executed a)
  && match ap_delegate_veto_until a with Some t => now <? t | None => false end
  && negb (String.eqb (de_approver_kind d) "delegate-agent").

(** [ApprovalRequest::transition]. *)
Definition transition (now : DateTime) (a : ApprovalRequest) (to : ApprovalStatus) (d : Decision)
    : result unit ApprovalError * ApprovalRequest :=
  let identity := trim (de_approver_identity d) in
  if is_blank (bare_approver_identity identity) then (Err AE_MissingApproverIdentity, a)
  else if is_past_ttl now a then (Err AE_Expired, (expire_if_due now a).2)
  else
    let veto := delegate_veto now a to d in
    if negb (is_open (ap_status a)) && negb veto then (Err (AE_AlreadyDecided (ap_status a)), a)
    else if bool_decide (to = AS_Denied) then (Ok tt, record_deny now a identity d veto)
    else match approve_guards a identity d with
         | Err e => (Err e, a)
         | Ok _ => (Ok tt, record_approve now a identity d)
         end.

(** [ApprovalRequest::approve] and [ApprovalRequest::deny]. *)
Definition approve (now : DateTime) (a : ApprovalRequest) (d : Decision) :=
  transition now a AS_Approved d.
Definition deny (now : DateTime) (a : ApprovalRequest) (d : Decision) :=
  transition now a AS_Denied d.

(** ** Re-deriving a grant *)

(** The numeric branch of [grant_witness_inner]: one pass over the positive sign-offs
    with the sets of people and of aggregator keys seen so far. *)
Fixpoint distinct_people (need : Z) (people keys : list string) (l : list Signoff) : bool :=
  match l with
  | [] => true
  | s :: l' =>
      let person := person_key (so_approver_identity s) in
      if is_empty person || bool_decide (person ∈ people) then false
      else if 1 <? need then
        match aggregator_key_prefix (so_approver_identity s) with
        | Some prefix =>
            let key := to_ascii_lowercase prefix in
            if bool_decide (key ∈ keys) then false
            else distinct_people need (person :: people) (key :: keys) l'
        | None => distinct_people need (person :: people) keys l'
        end
      else distinct_people need (person :: people) keys l'
  end.

(** The controller-separation pass of the recipe branch. *)
Fixpoint distinct_keys (a : ApprovalRequest) (keys : list string) (l : list Signoff) : bool :=
  match l with
  | [] => true
  | s :: l' =>
      if contributes_positive_slot a (so_approve s) (so_resolved_class s) then
        match aggregator_key_prefix (so_approver_identity s) with
        | Some prefix =>
            let key := to_ascii_lowercase prefix in
            if bool_decide (key ∈ keys) then false else distinct_keys a (key :: keys) l'
        | None => distinct_keys a keys l'
        end
      else distinct_keys a keys l'
  end.

(** The basis of a grant, when the stored evidence supports one. *)
Definition grant_basis (a : ApprovalRequest) : option GrantBasis :=
  let positives := List.filter so_approve (ap_signoffs a) in
  match ap_approval_rule a with
  | None =>
      let need := effective_required_approvals a in
      let have := len_as_u32 positives in
      if have <? need then None
      else if distinct_people need [] [] positives then Some (NumericThreshold need have) else None
  | Some rule =>
      if negb (approval_rule_satisfied rule (ap_signoffs a)) then None
      else if distinct_keys a [] (ap_signoffs a)
           then Some (RecipeBasis (length (recipes rule)) (length positives))
           else None
  end.

(** The derived [Serialize] of the rule types, as [serde_json::Value]s. *)
Definition class_to_value (c : ApproverClass) : Value :=
  JString (match c with
           | Senior => "senior" | Teammate => "teammate" | AgentReviewer => "agent-reviewer"
           | UnknownClass => "unknown"
           end).
Definition term_to_value (t : RecipeTerm) : Value :=
  JObject [("class", class_to_value (rt_class t)); ("count", JNumber (PosInt (rt_count t)))].
Definition rule_to_value (r : ApprovalRule) : Value :=
  JObject
    [("decision_mode", JString (match decision_mode r with
                                | DenyOnAnyDeny => "deny-on-any-deny"
                                | MajorityWithDissentRecorded => "majority-with-dissent-recorded"
                                end));
     ("exclude_owner", JBool (exclude_owner r));
     ("recipes", JArray ((λ rc, JObject [("terms", JArray (term_to_value <$> terms rc))])
                           <$> recipes r))].

Section with_crates.
Context {SJ : SerdeJson} {SH : Sha256}.

(** The rule fingerprint's JSON, as [execution_binding] builds it. *)
Definition rule_value (a : ApprovalRequest) : Value :=
  match ap_approval_rule a with
  | Some rule =>
      JObject [("approval_rule", rule_to_value rule);
               ("authoritative_irreversible", JBool (ap_authoritative_irreversible a));
               ("authoritative_risk_tier", JString (ap_authoritative_risk_tier a));
               ("mode", JString "recipe")]
  | None =>
      JObject [("mode", JString "numeric");
               ("required_approvals", JNumber (PosInt (effective_required_approvals a)))]
  end.

(** [ApprovalRequest::execution_binding]. *)
Definition execution_binding (a : ApprovalRequest) (epoch : Z) : option ExecutionBinding :=
  match json_to_vec (ap_params a), json_to_vec (rule_value a) with
  | Some params, Some rule =>
      Some {| eb_approval_id := ap_id a; eb_epoch := epoch;
              eb_tenant := default "" (ap_tenant a);
              eb_principal :=
                default "" (opt_or (ap_principal_id a) (rq_principal_id (ap_requester a)));
              eb_credential := ap_credential a; eb_action := ap_action a;
              eb_params_digest := digest_bytes params; eb_rule_digest := digest_bytes rule |}
  | _, _ => None
  end.

(** [DateTime::timestamp]. *)
Definition timestamp (t : DateTime) : Z := t / nanos_per_sec.

(** [ApprovalRequest::grant_witness_inner]. *)
Definition grant_witness_inner (now : DateTime) (a : ApprovalRequest) (epoch : Z)
    (require_live_decision : bool) : option Granted :=
  if negb (bool_decide (ap_status a = AS_Approved)) then None
  else match grant_basis a with
  | None => None
  | Some basis =>
      let issued := match ap_decided_at a with
                    | Some d => Some d
                    | None => if require_live_decision then None else Some (ap_created_at a)
                    end in
      match issued with
      | None => None
      | Some issued_at =>
          let window := reauth_window a in
          if 9223372036854775807 <? window then None
          else
            let expires_at := issued_at + seconds window in
            if require_live_decision && (expires_at <=? now) then None
            else match execution_binding a epoch with
                 | None => None
                 | Some b => Some {| gr_basis := basis; gr_binding := b;
                                     gr_issued_at := timestamp issued_at;
                                     gr_expires_at := timestamp expires_at |}
                 end
      end
  end.

(** [ApprovalRequest::grant_witness] and [ApprovalRequest::grant_witness_for_epoch]. *)
Definition grant_witness (now : DateTime) (a : ApprovalRequest) : option Granted :=
  grant_witness_inner now a (ap_execution_epoch a) false.
Definition grant_witness_for_epoch (now : DateTime) (a : ApprovalRequest) (epoch : Z)
    : option Granted := grant_witness_inner now a epoch true.

(** ** The shape of a stored record *)

(** The sign-off checks of [validate_vault_shape]. *)
Definition blank_opt (o : option string) : bool :=
  match o with Some s => is_blank s | None => true end.

Definition signoff_shape (s : Signoff) : result unit string :=
  if is_blank (bare_approver_identity (so_approver_identity s)) then
    Err "approval contains an unnamed sign-off principal"
  else if is_blank (so_channel s) then Err "approval contains a blank sign-off channel"
  else
    let kind := trim (so_approver_kind s) in
    if String.eqb kind "human" then
      match so_resolved_class s with
      | Some AgentReviewer | Some UnknownClass =>
          Err "human sign-off has an incompatible resolved class"
      | _ => Ok tt
      end
    else if String.eqb kind "delegate-agent" then
      if negb (bool_decide (so_resolved_class s = Some AgentReviewer))
         || blank_opt (so_delegation_grant_ref s)
      then Err "delegate sign-off lacks its class or delegation grant" else Ok tt
    else Err "approval contains an unknown approver kind".

Fixpoint signoffs_shape (l : list Signoff) : result unit string :=
  match l with
  | [] => Ok tt
  | s :: l' => let? _ := signoff_shape s in signoffs_shape l'
  end.

(** The final [match] of [validate_vault_shape]. *)
Definition status_shape (now : DateTime) (a : ApprovalRequest) : result unit string :=
  match ap_status a with
  | AS_Pending =>
      if bool_decide (is_Some (ap_escalated_at a)) || bool_decide (is_Some (ap_decided_at a))
      then Err "pending approval carries a later lifecycle timestamp" else Ok tt
  | AS_Escalated =>
      if negb (bool_decide (is_Some (ap_escalated_at a))) || bool_decide (is_Some (ap_decided_at a))
      then Err "escalated approval timestamps are inconsistent" else Ok tt
  | AS_Approved =>
      if negb (bool_decide (is_Some (ap_decided_at a))) || blank_opt (ap_decided_by a)
         || blank_opt (bare_approver_identity <$> ap_approver_identity a)
         || negb (bool_decide (is_Some (grant_witness now a)))
      then Err "approved status is not backed by executable grant evidence" else Ok tt
  | AS_Denied | AS_Expired =>
      if negb (bool_decide (is_Some (ap_decided_at a))) || blank_opt (ap_decided_by a)
      then Err "terminal approval lacks decision attribution" else Ok tt
  end.

(** [ApprovalRequest::validate_vault_shape]. *)
Definition validate_vault_shape (now : DateTime) (a : ApprovalRequest) : result unit string :=
  if is_blank (ap_id a) || is_blank (ap_credential a) || is_blank (ap_action a)
     || is_blank (ap_decision_token_hash a)
  then Err "approval identity/action fields must be non-blank"
  else if (ap_escalate_at a <? ap_created_at a) || (ap_expires_at a <? ap_escalate_at a)
  then Err "approval lifecycle timestamps are out of order"
  else
    let? _ := signoffs_shape (ap_signoffs a) in
    if ap_executing a && ap_executed a
    then Err "approval cannot be executing and executed simultaneously"
    else if negb (Bool.eqb (ap_executing a) (bool_decide (is_Some (ap_executing_since a))))
    then Err "approval execution claim timestamp is inconsistent"
    else if (ap_executing a || ap_executed a) && negb (bool_decide (ap_status a = AS_Approved))
    then Err "only an approved request may execute"
    else if ap_executed a && negb (bool_decide (is_Some (ap_result_status a)))
            && negb (bool_decide (is_Some (ap_result_error a)))
    then Err "executed approval has no recorded outcome"
    else status_shape now a.
End with_crates.

(** ** What may be claimed about execution *)

(** [CredentialCheck] and [ExecutionState]. *)
Inductive CredentialCheck :=
| Check_NotApplicable | Check_Usable | Check_Unusable (reason : string) | Check_Unknown.

Inductive ExecutionState :=
| ES_NotApplicable | ES_Executed | ES_Failed | ES_AwaitingExecution | ES_Blocked.

(** [execution_state_at_decision]. *)
Definition execution_state_at_decision (a : ApprovalRequest) (c : CredentialCheck)
    : ExecutionState * option string :=
  if negb (bool_decide (ap_status a = AS_Approved)) then (ES_NotApplicable, None)
  else if ap_executed a then
    match ap_result_error a with
    | Some err => (ES_Failed, Some err)
    | None => (ES_Executed, None)
    end
  else match c with
       | Check_Unusable reason => (ES_Blocked, Some reason)
       | _ => (ES_AwaitingExecution, ap_result_error a)
       end.

(** [reversibility_requires_human_floor]. *)
Definition reversibility_requires_human_floor (reversibility : string) : bool :=
  negb (String.eqb (trim reversibility) "reversible").
