(* ===== verification/ApprovalRecipe.v ===== *)
(** * Recipes are injective assignments of people to slots

    The recipe evaluator of [src/src/approval/mod.rs] decides by counting.  Here it is
    compared with the meaning of a recipe: a list of slots that distinct approvers
    fill, a senior filling a senior or a teammate slot, a teammate a teammate slot, and
    nobody an agent-reviewer slot. *)

From stdpp Require Import base strings list.
From Stdlib Require Import Ascii ZArith Lia Permutation.
From S2P Require Import Prelude RustStr Approval.

Open Scope Z_scope.

(** ** The declarative reading *)

(** Which approver may fill which slot. *)
Definition fills (approver slot : ApproverClass) : bool :=
  match slot, approver with
  | Senior, Senior | Teammate, Senior | Teammate, Teammate => true
  | _, _ => false
  end.

(** The slots of a recipe, one per required approver. *)
Definition slots (r : Recipe) : list ApproverClass :=
  terms r ≫= λ t, replicate (Z.to_nat (rt_count t)) (rt_class t).

(** How often a class occurs. *)
Fixpoint cnt (c : ApproverClass) (l : list ApproverClass) : nat :=
  match l with [] => 0 | x :: l' => (if decide (x = c) then 1 else 0) + cnt c l' end%nat.

Lemma cnt_app c l l' : cnt c (l ++ l') = (cnt c l + cnt c l')%nat.
Proof. induction l; simpl; [done|]. lia. Qed.

Lemma cnt_replicate c n d : cnt c (replicate n d) = if decide (d = c) then n else 0%nat.
Proof. induction n as [|n IH]; simpl; [by destruct (decide _)|]. rewrite IH. by destruct (decide _). Qed.

Lemma cnt_Permutation c l l' : l ≡ₚ l' → cnt c l = cnt c l'.
Proof. induction 1; simpl; lia. Qed.

Lemma cnt_submseteq c l l' : l ⊆+ l' → (cnt c l <= cnt c l')%nat.
Proof. intros (k & Hk)%submseteq_Permutation. rewrite (cnt_Permutation _ _ _ Hk), cnt_app. lia. Qed.

Lemma cnt_total l :
  length l = (cnt Senior l + cnt Teammate l + cnt AgentReviewer l + cnt UnknownClass l)%nat.
Proof. induction l as [|[] l IH]; simpl; lia. Qed.

(** A list of classes is determined by its counts, up to order. *)
Lemma cnt_sorted l :
  l ≡ₚ replicate (cnt Senior l) Senior ++ replicate (cnt Teammate l) Teammate
       ++ replicate (cnt AgentReviewer l) AgentReviewer
       ++ replicate (cnt UnknownClass l) UnknownClass.
Proof.
  induction l as [|[] l IH]; simpl; [done|by constructor| | |]; rewrite IH at 1.
  - by rewrite Permutation_middle.
  - rewrite !Permutation_middle. done.
  - rewrite !Permutation_middle. done.
Qed.

(** ** Well-formed recipes *)

(** The counts of a recipe are [u32] values. *)
Definition counts_in_u32 (ts : list RecipeTerm) : Prop := Forall (λ t, in_u32 (rt_count t)) ts.

Definition term_slots (ts : list RecipeTerm) : list ApproverClass :=
  ts ≫= λ t, replicate (Z.to_nat (rt_count t)) (rt_class t).

Lemma term_slots_cons t ts :
  term_slots (t :: ts) = replicate (Z.to_nat (rt_count t)) (rt_class t) ++ term_slots ts.
Proof. done. Qed.

Lemma terms_well_formed_bound total ts :
  counts_in_u32 ts → 0 <= total → terms_well_formed total ts = true →
  total + Z.of_nat (length (term_slots ts)) <= Z.max total MAX_RECIPE_TERM_COUNT
  ∧ cnt UnknownClass (term_slots ts) = 0%nat
  ∧ (ts ≠ [] → (0 < length (term_slots ts))%nat).
Proof.
  revert total. induction ts as [|t ts IH]; intros total Hc H0; cbn [terms_well_formed].
  { intros _. cbn. split_and!; [lia|done|done]. }
  inversion Hc as [|? ? Ht Hts]; subst.
  destruct (Z.eqb_spec (rt_count t) 0) as [|Hnz]; [done|].
  destruct (Z.ltb_spec MAX_RECIPE_TERM_COUNT (rt_count t)) as [|Hle]; [done|].
  cbn [orb]. unfold u32_saturating_add, in_u32, u32_max, MAX_RECIPE_TERM_COUNT in *.
  destruct (Z.ltb_spec 64 (Z.min (total + rt_count t) 4294967295)) as [|Htot]; [done|].
  destruct (bool_decide_reflect (rt_class t = UnknownClass)) as [|Hcl]; [done|].
  intros Hw. apply IH in Hw as (H1 & H2 & _); [|done|lia].
  rewrite term_slots_cons, length_app, length_replicate, cnt_app, cnt_replicate.
  rewrite decide_False by done. split_and!; [lia|lia|lia].
Qed.

Lemma sum_needs_counts ts acc :
  counts_in_u32 ts → cnt UnknownClass (term_slots ts) = 0%nat →
  (∀ t, t ∈ ts → 0 < rt_count t) →
  let '(s, m, a) := acc in
  0 <= s → 0 <= m → 0 <= a → s + m + a + Z.of_nat (length (term_slots ts)) <= u32_max →
  sum_needs acc ts = Some (s + Z.of_nat (cnt Senior (term_slots ts)),
                           m + Z.of_nat (cnt Teammate (term_slots ts)),
                           a + Z.of_nat (cnt AgentReviewer (term_slots ts))).
Proof.
  revert acc. induction ts as [|t ts IH]; intros [[s m] a] Hc Hu Hp Hs Hm Ha Hl; cbn [sum_needs].
  { cbn. by rewrite !Z.add_0_r. }
  inversion Hc as [|? ? Ht Hts]; subst.
  rewrite term_slots_cons in *. rewrite !cnt_app, !cnt_replicate in *.
  rewrite length_app, length_replicate in Hl. unfold in_u32, u32_saturating_add in *.
  assert (Hpos : 0 < rt_count t) by (apply Hp; constructor).
  assert (Hp' : ∀ x, x ∈ ts → 0 < rt_count x) by (intros x Hx; apply Hp; by constructor).
  destruct (rt_class t); simpl in *; [| | |lia];
    rewrite Z.min_l by lia; rewrite (IH (_, _, _)); try done; try lia; repeat (f_equal; try lia).
Qed.

Lemma well_formed_positive total ts :
  counts_in_u32 ts → terms_well_formed total ts = true → ∀ t, t ∈ ts → 0 < rt_count t.
Proof.
  revert total. induction ts as [|t ts IH]; intros total Hc; cbn [terms_well_formed].
  { by intros _ t ?%elem_of_nil. }
  inversion Hc as [|? ? Ht Hts]; subst.
  destruct (Z.eqb_spec (rt_count t) 0) as [|Hnz]; [done|].
  destruct (MAX_RECIPE_TERM_COUNT <? rt_count t); [done|]. cbn [orb].
  destruct (MAX_RECIPE_TERM_COUNT <? _); [done|]. destruct (bool_decide _); [done|].
  intros Hw x [->|Hx]%elem_of_cons; [unfold in_u32 in Ht; lia|by eapply IH].
Qed.

(** For a recipe with [u32] counts, [recipe_needs] counts its slots; a recipe it
    rejects is malformed. *)
Lemma recipe_needs_spec r :
  counts_in_u32 (terms r) →
  recipe_needs r
  = if recipe_well_formed r
    then Some (Z.of_nat (cnt Senior (slots r)), Z.of_nat (cnt Teammate (slots r)),
               Z.of_nat (cnt AgentReviewer (slots r)))
    else None.
Proof.
  intros Hc. unfold recipe_needs. destruct (recipe_well_formed r) eqn:E; [|done]. cbn [negb].
  unfold recipe_well_formed in E. destruct (terms r) as [|t ts] eqn:Et; [done|]. rewrite <- Et in *.
  destruct (terms_well_formed_bound 0 (terms r)) as (H1 & H2 & _); [done|lia|done|].
  rewrite (sum_needs_counts (terms r) (0, 0, 0)); try done; try lia.
  - by eapply well_formed_positive.
  - unfold MAX_RECIPE_TERM_COUNT, u32_max in *. lia.
Qed.

Lemma well_formed_slots r :
  counts_in_u32 (terms r) → recipe_well_formed r = true →
  (length (slots r) <= 64)%nat ∧ cnt UnknownClass (slots r) = 0%nat ∧ (0 < length (slots r))%nat.
Proof.
  intros Hc E. unfold recipe_well_formed in E.
  destruct (terms r) as [|t ts] eqn:Et; [done|]. rewrite <- Et in *.
  destruct (terms_well_formed_bound 0 (terms r)) as (H1 & H2 & H3); [done|lia|done|].
  unfold slots. fold (term_slots (terms r)). unfold MAX_RECIPE_TERM_COUNT in *.
  split_and!; [lia|done|]. apply H3. by rewrite Et.
Qed.

(** ** Greedy counting finds a matching whenever there is one *)

Lemma matching_counts l sl :
  Forall2 (λ c slot, fills c slot = true) l sl →
  (cnt Senior sl <= cnt Senior l)%nat
  ∧ (cnt Senior sl + cnt Teammate sl)%nat = (cnt Senior l + cnt Teammate l)%nat
  ∧ cnt AgentReviewer sl = 0%nat ∧ cnt UnknownClass sl = 0%nat.
Proof.
  induction 1 as [|c s l sl Hf _ IH]; simpl; [lia|].
  destruct c, s; try done; simpl; lia.
Qed.

Lemma greedy_matching ns nt s t :
  (ns <= s)%nat → (nt <= s - ns + t)%nat →
  ∃ l, l ⊆+ replicate s Senior ++ replicate t Teammate
    ∧ Forall2 (λ c slot, fills c slot = true) l (replicate ns Senior ++ replicate nt Teammate).
Proof.
  intros Hs Ht. set (k := Nat.min nt (s - ns)).
  exists (replicate ns Senior ++ replicate k Senior ++ replicate (nt - k) Teammate). split.
  - replace s with (ns + k + (s - ns - k))%nat by lia.
    replace t with ((nt - k) + (t - (nt - k)))%nat by lia.
    rewrite !replicate_add, <- !app_assoc. do 2 apply submseteq_skips_l.
    apply submseteq_inserts_l, submseteq_inserts_r. done.
  - apply Forall2_app; [by apply Forall2_replicate|].
    replace nt with (k + (nt - k))%nat at 2 by lia. rewrite replicate_add.
    apply Forall2_app; by apply Forall2_replicate.
Qed.

Lemma recipe_satisfied_matching r s t a :
  counts_in_u32 (terms r) → (Z.of_nat s <= u32_max) → (Z.of_nat t <= u32_max) → 0 <= a →
  recipe_satisfied r (Z.of_nat s) (Z.of_nat t) a = true ↔
  recipe_well_formed r = true
  ∧ ∃ l, l ⊆+ replicate s Senior ++ replicate t Teammate
       ∧ Forall2 (λ c slot, fills c slot = true) l (slots r).
Proof.
  intros Hc Hs Ht Ha. unfold recipe_satisfied. rewrite recipe_needs_spec by done.
  destruct (recipe_well_formed r) eqn:Ew; [|naive_solver].
  destruct (well_formed_slots r Hc Ew) as (Hlen & Hun & _). assert (Htot := cnt_total (slots r)).
  split.
  - destruct (Z.ltb_spec 0 (Z.of_nat (cnt AgentReviewer (slots r)))) as [|Hag]; [done|].
    destruct (Z.ltb_spec (Z.of_nat s) (Z.of_nat (cnt Senior (slots r)))) as [|Hns]; [done|].
    cbv zeta. unfold u32_saturating_add, u32_max in *.
    match goal with |- context [Z.ltb ?x ?y] => destruct (Z.ltb_spec x y) as [|Hnt]; [done|] end.
    intros _. split; [done|].
    destruct (greedy_matching (cnt Senior (slots r)) (cnt Teammate (slots r)) s t)
      as (l & Hsub & Hf); [lia|lia|].
    assert (Hp : slots r ≡ₚ replicate (cnt Senior (slots r)) Senior
                          ++ replicate (cnt Teammate (slots r)) Teammate).
    { rewrite (cnt_sorted (slots r)) at 1. rewrite Hun.
      replace (cnt AgentReviewer (slots r)) with 0%nat by lia. cbn. by rewrite app_nil_r. }
    symmetry in Hp. apply Forall2_flip in Hf.
    destruct (Permutation_Forall2 Hp Hf) as (l' & Hl' & Hf').
    exists l'. split; [by rewrite <- Hl'|]. by apply Forall2_flip in Hf'.
  - intros (_ & l & Hsub & Hf). apply matching_counts in Hf as (H1 & H2 & H3 & H4).
    assert (Hcs := cnt_submseteq Senior _ _ Hsub). assert (Hct := cnt_submseteq Teammate _ _ Hsub).
    rewrite cnt_app, !cnt_replicate in Hcs, Hct. simpl in Hcs, Hct.
    rewrite H3. cbn [Z.of_nat]. rewrite Z.ltb_irrefl.
    rewrite (proj2 (Z.ltb_ge _ _)) by lia. cbv zeta. unfold u32_saturating_add, u32_max in *.
    rewrite (proj2 (Z.ltb_ge _ _)) by lia. by apply Z.leb_le.
Qed.

(** The counting evaluator is exact: a recipe is satisfied by some numbers of seniors
    and teammates exactly when it is well formed and its slots can be filled
    injectively, whatever the order and grouping of its terms. *)
Theorem recipe_satisfied_iff_assignment r s t a :
  counts_in_u32 (terms r) → (Z.of_nat s <= u32_max) → (Z.of_nat t <= u32_max) → 0 <= a →
  recipe_satisfied r (Z.of_nat s) (Z.of_nat t) a = true ↔
  recipe_well_formed r = true
  ∧ ∃ l, l ⊆+ replicate s Senior ++ replicate t Teammate
       ∧ Forall2 (λ c slot, fills c slot = true) l (slots r).
Proof. apply recipe_satisfied_matching. Qed.

(** ** From sign-offs to distinct people *)

Lemma dedupe_by_spec {A} (key : A → string) seen l :
  NoDup (key <$> dedupe_by key seen l)
  ∧ ∀ x, x ∈ dedupe_by key seen l → x ∈ l ∧ key x ∉ seen.
Proof.
  revert seen. induction l as [|x l IH]; intros seen; cbn [dedupe_by].
  { split; [constructor|]. by intros x ?%elem_of_nil. }
  destruct (bool_decide_reflect (key x ∈ seen)) as [Hs|Hs].
  - destruct (IH seen) as [H1 H2]. split; [done|].
    intros y Hy%H2. rewrite elem_of_cons. naive_solver.
  - destruct (IH (key x :: seen)) as [H1 H2]. split.
    + constructor; [|done]. intros (y & Hk & Hy%H2)%list_elem_of_fmap.
      destruct Hy as [_ Hy]. apply Hy. rewrite <- Hk. constructor.
    + intros y [->|Hy%H2]%elem_of_cons; [split; [constructor|done]|].
      rewrite elem_of_cons in Hy. rewrite elem_of_cons. naive_solver.
Qed.

Lemma bucket_human s :
  bucket s = B_Human →
  trim (so_approver_kind s) = "human"
  ∧ is_blank (bare_approver_identity (so_approver_identity s)) = false
  ∧ (so_resolved_class s = Some Senior ∨ so_resolved_class s = Some Teammate).
Proof.
  unfold bucket. destruct (is_blank _); [done|].
  destruct (so_resolved_class s) as [c|]; [|done]. cbv zeta.
  destruct (String.eqb_spec (trim (so_approver_kind s)) "human") as [E|E];
    destruct (String.eqb_spec (trim (so_approver_kind s)) "delegate-agent");
    [congruence| | |]; destruct c; simpl; try done; try (by auto);
    destruct (so_delegation_grant_ref s) as [g|]; try done; by destruct (is_blank g).
Qed.

(** The class of a counted human sign-off. *)
Definition human_class (s : Signoff) : ApproverClass := default UnknownClass (so_resolved_class s).

Lemma humans_classes (hs : list Signoff) :
  (∀ s, s ∈ hs → so_resolved_class s = Some Senior ∨ so_resolved_class s = Some Teammate) →
  human_class <$> hs ≡ₚ
  replicate (length (List.filter (λ s, bool_decide (so_resolved_class s = Some Senior)) hs)) Senior
  ++ replicate (length (List.filter (λ s, bool_decide (so_resolved_class s = Some Teammate)) hs)) Teammate.
Proof.
  induction hs as [|s hs IH]; intros H; [done|]. cbn [List.filter fmap list_fmap].
  assert (Hs : ∀ x, x ∈ hs → so_resolved_class x = Some Senior ∨ so_resolved_class x = Some Teammate)
    by (intros x Hx; apply H; by constructor).
  specialize (IH Hs). unfold human_class at 1.
  destruct (H s) as [->| ->]; [constructor|..]; simpl; rewrite IH; [done|].
  by rewrite Permutation_middle.
Qed.

Lemma submseteq_fmap_inv {A B} (f : A → B) (l : list B) (xs : list A) :
  l ⊆+ f <$> xs → ∃ ys, ys ⊆+ xs ∧ f <$> ys = l.
Proof.
  intros (k & Hk)%submseteq_Permutation. symmetry in Hk.
  destruct (Permutation_map_inv _ _ Hk) as (zs & Hz & Hp).
  change (map f zs) with (f <$> zs) in Hz. symmetry in Hz.
  apply fmap_app_inv in Hz as (ys & ys' & Hl & _ & ->).
  exists ys. split; [|done]. rewrite Hp. by apply submseteq_inserts_r.
Qed.

Lemma len_as_u32_small {A} (l : list A) :
  Z.of_nat (length l) <= u32_max → len_as_u32 l = Z.of_nat (length l).
Proof. intros H. apply Z.mod_small. lia. Qed.

Lemma filter_length_le_trans {A} (f : A → bool) l (n : Z) :
  Z.of_nat (length l) <= n → Z.of_nat (length (List.filter f l)) <= n.
Proof. intros H. pose proof (List.filter_length_le f l). lia. Qed.

Lemma dedupe_length {A} (key : A → string) seen l : (length (dedupe_by key seen l) <= length l)%nat.
Proof.
  revert seen. induction l as [|x l IH]; intros seen; cbn [dedupe_by]; [done|].
  destruct (bool_decide _); simpl; [specialize (IH seen)|specialize (IH (key x :: seen))]; lia.
Qed.

(** The sign-offs that count as people: approvals by a named human with a class. *)
Definition counted_human (s : Signoff) : Prop :=
  so_approve s = true ∧ trim (so_approver_kind s) = "human"
  ∧ is_blank (bare_approver_identity (so_approver_identity s)) = false.

Lemma rule_satisfied_people rule signoffs :
  Z.of_nat (length signoffs) <= u32_max →
  Forall (λ r, counts_in_u32 (terms r)) (recipes rule) →
  approval_rule_satisfied rule signoffs = true →
  ∃ r picks, r ∈ recipes rule ∧ (0 < length (slots r))%nat
    ∧ NoDup ((λ s, person_key (so_approver_identity s)) <$> picks)
    ∧ (∀ s, s ∈ picks → s ∈ signoffs ∧ counted_human s)
    ∧ Forall2 (λ s slot, fills (human_class s) slot = true) picks (slots r).
Proof.
  intros Hlen Hc Hsat. unfold approval_rule_satisfied in Hsat. cbv zeta in Hsat.
  set (hs := dedupe_by_identity _) in Hsat.
  apply existsb_elem_of in Hsat as (r & Hr & Hsat).
  eapply Forall_forall in Hc; [|exact Hr].
  destruct (dedupe_by_spec (λ s, person_key (so_approver_identity s)) []
    (List.filter (λ s, bool_decide (bucket s = B_Human)) (List.filter so_approve signoffs))) as [Hnd Hin].
  fold (dedupe_by_identity (List.filter (λ s, bool_decide (bucket s = B_Human)) (List.filter so_approve signoffs))) in Hnd, Hin.
  fold hs in Hnd, Hin.
  assert (Hh : ∀ s, s ∈ hs → s ∈ signoffs ∧ counted_human s
             ∧ (so_resolved_class s = Some Senior ∨ so_resolved_class s = Some Teammate)).
  { intros s [[Hs Hb]%elem_of_filter_bool _]%Hin. apply elem_of_filter_bool in Hs as [Hs Ha].
    apply bool_decide_eq_true, bucket_human in Hb as (H1 & H2 & H3). by split_and!. }
  assert (Hl : Z.of_nat (length hs) <= u32_max).
  { etrans; [|exact Hlen]. apply Nat2Z.inj_le. etrans; [apply dedupe_length|].
    etrans; apply List.filter_length_le. }
  rewrite !len_as_u32_small in Hsat by (by apply filter_length_le_trans).
  apply recipe_satisfied_matching in Hsat as (Hwf & l & Hsub & Hf); cycle 1.
  { done. } { by apply filter_length_le_trans. } { by apply filter_length_le_trans. }
  { apply Z.mod_pos. by vm_compute. }
  rewrite <- humans_classes in Hsub by (intros s Hs; by apply Hh).
  apply submseteq_fmap_inv in Hsub as (picks & Hp & <-).
  exists r, picks. split_and!; [done|by apply well_formed_slots| | |].
  - apply submseteq_Permutation in Hp as (k & Hk).
    rewrite Hk, fmap_app in Hnd. by apply NoDup_app in Hnd as (Hnd & _ & _).
  - intros s Hs. eapply elem_of_submseteq in Hs; [|exact Hp]. by apply Hh in Hs as (? & ? & _).
  - by apply Forall2_fmap_l in Hf.
Qed.

(** A rule is satisfied only if the slots of one of its recipes, at least one, are all
    filled by approvals of pairwise distinct named humans of a sufficient class.  A
    dissent, an agent, an unnamed or unresolved sign-off fills no slot, and one person
    who signs through two keys, or in two spellings, fills one. *)
Theorem satisfied_rule_has_distinct_people rule signoffs :
  Z.of_nat (length signoffs) <= u32_max →
  Forall (λ r, counts_in_u32 (terms r)) (recipes rule) →
  approval_rule_satisfied rule signoffs = true →
  ∃ r picks, r ∈ recipes rule ∧ (0 < length (slots r))%nat
    ∧ NoDup ((λ s, person_key (so_approver_identity s)) <$> picks)
    ∧ (∀ s, s ∈ picks → s ∈ signoffs ∧ counted_human s)
    ∧ Forall2 (λ s slot, fills (human_class s) slot = true) picks (slots r).
Proof. apply rule_satisfied_people. Qed.
