(* ===== verification/ApprovalLifecycle.v ===== *)
(** * The life of an approval request

    An approval request moves by decisions, by the clock and by the execution path
    ([ap_step]).  The invariant [evidence_ok] ties its status to its recorded
    sign-offs; from it follow that every approved request is backed by enough distinct
    people, and that the grant can be re-derived from the stored record exactly when
    [transition] granted it. *)

From stdpp Require Import base strings list.
From Stdlib Require Import Ascii ZArith Lia.
From S2P Require Import Prelude RustStr Json RateLimit Kernel Approval ApprovalRecipe.

Open Scope Z_scope.

(** ** Steps *)

(** The decision of a delegate also stamps the veto window. *)
Definition set_veto_until (a : ApprovalRequest) (t : option DateTime) : ApprovalRequest :=
  with_progress a
    {| ap_status := ap_status a; ap_signoffs := ap_signoffs a;
       ap_escalated_at := ap_escalated_at a; ap_decided_at := ap_decided_at a;
       ap_decided_by := ap_decided_by a; ap_approver_identity := ap_approver_identity a;
       ap_sod_violation := ap_sod_violation a; ap_decision_note := ap_decision_note a;
       ap_delegate_veto_until := t |}.

(** The key ids of aggregator identities are lower-case (they are UUIDs). *)
Definition key_lower (identity : string) : Prop :=
  ∀ p, aggregator_key_prefix identity = Some p → to_ascii_lowercase p = p.

Inductive ap_step (a : ApprovalRequest) : ApprovalRequest → Prop :=
| step_approve now d :
    key_lower (trim (de_approver_identity d)) → ap_step a (approve now a d).2
| step_deny now d :
    ap_step a (deny now a d).2
| step_delegate now d t :
    key_lower (trim (de_approver_identity d)) → (approve now a d).1 = Ok tt →
    ap_step a (set_veto_until (approve now a d).2 t)
| step_tick now : ap_step a (advance_lifecycle now a).2
| step_reauth now : needs_reauth now a = true → ap_step a (expire_reauth_lapsed a)
| step_run r : ap_step a (with_run a r).

(** A request as it is first stored. *)
Definition fresh (a : ApprovalRequest) : Prop :=
  ap_status a = AS_Pending ∧ ap_signoffs a = [] ∧ ap_decided_at a = None.

Inductive reachable : ApprovalRequest → Prop :=
| reach_open a : fresh a → reachable a
| reach_step a a' : reachable a → ap_step a a' → reachable a'.

(** ** What a transition can do *)

(** The effect of a decision: nothing, an expiry, a recorded denial or a recorded
    approval, each with the facts its guards establish. *)
Inductive decision_effect (now : DateTime) (a : ApprovalRequest) (to : ApprovalStatus)
    (d : Decision) : ApprovalRequest → Prop :=
| eff_none : decision_effect now a to d a
| eff_expired : is_open (ap_status a) = true → decision_effect now a to d (set_expired now a)
| eff_deny veto :
    is_blank (bare_approver_identity (trim (de_approver_identity d))) = false →
    is_open (ap_status a) = true ∨ (ap_status a = AS_Approved ∧ veto = true) →
    decision_effect now a to d (record_deny now a (trim (de_approver_identity d)) d veto)
| eff_approve :
    to ≠ AS_Denied →
    is_blank (bare_approver_identity (trim (de_approver_identity d))) = false →
    is_open (ap_status a) = true →
    approve_guards a (trim (de_approver_identity d)) d = Ok tt →
    decision_effect now a to d (record_approve now a (trim (de_approver_identity d)) d).

Lemma transition_effect now a to d : decision_effect now a to d (transition now a to d).2.
Proof.
  unfold transition. cbv zeta. set (i := trim (de_approver_identity d)).
  destruct (is_blank (bare_approver_identity i)) eqn:Eb; [constructor|].
  destruct (is_past_ttl now a) eqn:Et; cbn [snd].
  { unfold expire_if_due. destruct (is_open (ap_status a)) eqn:Eo; cbn [andb]; [|constructor].
    rewrite Et. by constructor. }
  destruct (is_open (ap_status a)) eqn:Eo; cbn [negb andb].
  - destruct (bool_decide_reflect (to = AS_Denied)) as [Hto|Hto]; cbn [snd].
    + apply eff_deny; auto.
    + destruct (approve_guards a i d) as [[]|e] eqn:Eg; cbn [snd]; [|constructor].
      by apply eff_approve.
  - destruct (delegate_veto now a to d) eqn:Ev; cbn [negb]; [|constructor].
    unfold delegate_veto in Ev. rewrite !andb_true_iff, !bool_decide_eq_true in Ev.
    destruct Ev as [[[[-> Hst] _] _] _]. cbn [bool_decide decide snd].
    rewrite bool_decide_true by done. cbn [snd]. apply eff_deny; auto.
Qed.

(** ** Evidence *)

Definition contributing (a : ApprovalRequest) (s : Signoff) : bool :=
  contributes_positive_slot a (so_approve s) (so_resolved_class s).

(** The aggregator keys of contributing sign-offs. *)
Definition contributing_keys (a : ApprovalRequest) (l : list Signoff) : list string :=
  omap (λ s, if contributing a s
             then to_ascii_lowercase <$> aggregator_key_prefix (so_approver_identity s)
             else None) l.

Definition people (l : list Signoff) : list string :=
  (λ s, person_key (so_approver_identity s)) <$> List.filter so_approve l.

Definition named (s : Signoff) : Prop :=
  is_blank (bare_approver_identity (so_approver_identity s)) = false.

Definition same_provenance (a : ApprovalRequest) (l : list Signoff) : Prop :=
  ∀ s s' p p', s ∈ l → s' ∈ l → contributing a s = true → contributing a s' = true →
    approver_provenance (so_approver_identity s) = Some p →
    approver_provenance (so_approver_identity s') = Some p' → p = p'.

(** The evidence a request holds.  Its fields are facts about the sign-offs, and the
    last three tie the status to them. *)
Record evidence_ok (a : ApprovalRequest) : Prop := {
  ev_people : NoDup (people (ap_signoffs a));
  ev_named : Forall named (ap_signoffs a);
  ev_lower : Forall (λ s, so_approve s = true → key_lower (so_approver_identity s)) (ap_signoffs a);
  ev_keys : same_aggregator_key_guard_active a = true →
            NoDup (contributing_keys a (ap_signoffs a));
  ev_provenance : same_aggregator_key_guard_active a = true → same_provenance a (ap_signoffs a);
  ev_positive : terminal_deny a false = true → ap_status a ≠ AS_Denied →
                Forall (λ s, so_approve s = true) (ap_signoffs a);
  ev_granted : ap_status a = AS_Approved → granted_by a (ap_signoffs a) = true;
  ev_decided : ap_status a = AS_Approved → is_Some (ap_decided_at a);
}.

(** Requests with the same opening evaluate guards and rules alike. *)
Lemma contributing_opening a a' s : opening a = opening a' → contributing a s = contributing a' s.
Proof. intros H. unfold contributing, contributes_positive_slot. by rewrite H. Qed.

(** A change that keeps the opening and the sign-offs keeps the evidence when it does
    not approve. *)
Lemma evidence_same a a' :
  opening a' = opening a → ap_signoffs a' = ap_signoffs a →
  (ap_status a' = AS_Approved → ap_status a = AS_Approved ∧ ap_decided_at a' = ap_decided_at a) →
  (ap_status a = AS_Denied → ap_status a' = AS_Denied) →
  evidence_ok a → evidence_ok a'.
Proof.
  intros Ho Hs Hst Hd [H1 H2 H3 H4 H5 H6 H7 H8].
  unfold same_aggregator_key_guard_active, effective_required_approvals, granted_by,
    contributing_keys, same_provenance, contributing, contributes_positive_slot,
    terminal_deny, recipe_forces_deny_on_any_deny in *.
  constructor; unfold same_aggregator_key_guard_active, effective_required_approvals, granted_by,
    contributing_keys, same_provenance, contributing, contributes_positive_slot,
    effective_required_approvals, terminal_deny, recipe_forces_deny_on_any_deny; rewrite ?Hs, ?Ho; [done|done|done|done|done| | |].
  - intros Hr Hn. apply H6; [done|]. auto.
  - intros [Ha _]%Hst. auto.
  - intros [Ha ->]%Hst. auto.
Qed.

Lemma people_app l s :
  people (l ++ [s]) = people l ++ if so_approve s then [person_key (so_approver_identity s)] else [].
Proof. unfold people. rewrite List.filter_app, fmap_app. simpl. by destruct (so_approve s). Qed.

Lemma eq_ignore_ascii_case_spec x y :
  eq_ignore_ascii_case x y = true ↔ to_ascii_lowercase x = to_ascii_lowercase y.
Proof. unfold eq_ignore_ascii_case. apply String.eqb_eq. Qed.

Lemma not_duplicate_person a identity :
  duplicate_approver a identity = false → person_key identity ∉ people (ap_signoffs a).
Proof.
  unfold duplicate_approver, people. intros H (s & Hk & [Hs _]%elem_of_filter_bool)%list_elem_of_fmap.
  rewrite existsb_false_elem_of in H. specialize (H s Hs).
  assert (eq_ignore_ascii_case (trim (bare_approver_identity (so_approver_identity s)))
            (trim (bare_approver_identity identity)) = true); [|congruence].
  by apply eq_ignore_ascii_case_spec.
Qed.

Lemma aggregator_key_prefix_app identity p :
  aggregator_key_prefix identity = Some p → ∃ operator, identity = p +:+ operator.
Proof.
  unfold aggregator_key_prefix. destruct (strip_prefix _ identity) as [rest|] eqn:E; [|done].
  destruct (split_once ":" rest) as [[k op]|] eqn:E2; [|done]. intros [= <-]. exists op.
  apply strip_prefix_spec in E as ->. apply split_once_spec in E2 as ->.
  by rewrite <- !string_app_assoc.
Qed.

Lemma no_same_key a identity p :
  same_key_conflict a identity = false → key_lower identity →
  Forall (λ s, so_approve s = true → key_lower (so_approver_identity s)) (ap_signoffs a) →
  aggregator_key_prefix identity = Some p →
  to_ascii_lowercase p ∉ contributing_keys a (ap_signoffs a).
Proof.
  unfold same_key_conflict, contributing_keys. intros H Hl Hf Hp. rewrite Hp in H.
  rewrite existsb_false_elem_of in H.
  intros (s & Hs & Hk)%list_elem_of_omap. specialize (H s Hs).
  destruct (contributing a s) eqn:Ec; [|done].
  destruct (aggregator_key_prefix (so_approver_identity s)) as [p'|] eqn:Ep'; [|done].
  injection Hk as Hk. fold (contributing a s) in H. rewrite Ec, andb_true_r in H.
  eapply Forall_forall in Hf; [|exact Hs].
  assert (Hsa : so_approve s = true).
  { unfold contributing, contributes_positive_slot in Ec. by destruct (so_approve s). }
  rewrite (Hf Hsa p' Ep'), (Hl p Hp) in Hk. subst p'.
  apply aggregator_key_prefix_app in Ep' as [op Eop].
  rewrite Eop, starts_with_app in H. done.
Qed.

Lemma no_mixed a identity s p p' :
  mixed_provenance a identity = false → s ∈ ap_signoffs a → contributing a s = true →
  approver_provenance identity = Some p →
  approver_provenance (so_approver_identity s) = Some p' → p' = p.
Proof.
  unfold mixed_provenance. intros H Hs Hc Hp Hp'. rewrite Hp in H.
  rewrite existsb_false_elem_of in H. specialize (H s Hs).
  fold (contributing a s) in H. rewrite Hc, Hp' in H. cbn [andb] in H.
  by apply negb_false_iff, bool_decide_eq_true in H.
Qed.

(** What the guards of an approval establish. *)
Lemma approve_guards_ok a identity d :
  approve_guards a identity d = Ok tt →
  duplicate_approver a identity = false
  ∧ (de_enforce_sod d = true → sod_for a identity ≠ Some true)
  ∧ owner_excluded a identity = false
  ∧ (same_aggregator_key_guard_active a = true →
     contributes_positive_slot a true (de_resolved_class d) = true →
     same_key_conflict a identity = false ∧ mixed_provenance a identity = false).
Proof.
  unfold approve_guards.
  destruct (de_enforce_sod d && _) eqn:Es; [done|].
  destruct (owner_excluded a identity); [done|].
  intros H. split_and!; [| |done|].
  - destruct (_ && contributes_positive_slot _ _ _); [|by destruct (duplicate_approver a identity)].
    destruct (same_key_conflict a identity); [done|].
    destruct (mixed_provenance a identity); [done|]. by destruct (duplicate_approver a identity).
  - intros He Hs. rewrite He, bool_decide_true in Es by done. done.
  - intros Hg Hc. rewrite Hg, Hc in H. cbn [andb] in H.
    destruct (same_key_conflict a identity); [done|]. by destruct (mixed_provenance a identity).
Qed.

Lemma contributing_approve a s : contributing a s = true → so_approve s = true.
Proof. unfold contributing, contributes_positive_slot. by destruct (so_approve s). Qed.

Lemma contributing_keys_opening a a' l :
  opening a = opening a' → contributing_keys a l = contributing_keys a' l.
Proof.
  intros H. unfold contributing_keys. induction l as [|s l IH]; cbn [omap list_omap]; [done|].
  by rewrite IH, (contributing_opening a a' s H).
Qed.

(** Appending a sign-off whose guards held keeps the evidence. *)
Lemma evidence_append a a' s :
  evidence_ok a → opening a' = opening a → ap_signoffs a' = ap_signoffs a ++ [s] →
  named s →
  (so_approve s = true → duplicate_approver a (so_approver_identity s) = false
                         ∧ key_lower (so_approver_identity s)) →
  (same_aggregator_key_guard_active a = true → contributing a s = true →
   same_key_conflict a (so_approver_identity s) = false
   ∧ mixed_provenance a (so_approver_identity s) = false) →
  (terminal_deny a false = true → ap_status a' ≠ AS_Denied →
   ap_status a ≠ AS_Denied ∧ so_approve s = true) →
  (ap_status a' = AS_Approved → granted_by a (ap_signoffs a') = true ∧ is_Some (ap_decided_at a')) →
  evidence_ok a'.
Proof.
  intros [H1 H2 H3 H4 H5 H6 H7 H8] Ho Hs Hn Hdup Hguard Hpos Happ.
  assert (Hg : same_aggregator_key_guard_active a' = same_aggregator_key_guard_active a)
    by (unfold same_aggregator_key_guard_active, effective_required_approvals; by rewrite Ho).
  assert (Hc : ∀ x, contributing a' x = contributing a x)
    by (intros x; by apply contributing_opening).
  constructor; rewrite ?Hg.
  - rewrite Hs, people_app. destruct (so_approve s) eqn:Ea; [|by rewrite app_nil_r].
    apply NoDup_app. split_and!; [done| |apply NoDup_singleton].
    intros k Hk ->%list_elem_of_singleton. revert Hk. by apply not_duplicate_person, Hdup.
  - rewrite Hs. apply Forall_app. by split; [|constructor].
  - rewrite Hs. apply Forall_app. split; [done|]. constructor; [|constructor].
    intros Ha. by apply Hdup.
  - intros Hga. rewrite (contributing_keys_opening a' a) by done. rewrite Hs.
    unfold contributing_keys. rewrite omap_app. fold (contributing_keys a (ap_signoffs a)).
    cbn [omap list_omap]. destruct (contributing a s) eqn:Ec; [|by rewrite app_nil_r; auto].
    destruct (aggregator_key_prefix (so_approver_identity s)) as [p|] eqn:Ep; cbn;
      [|by rewrite app_nil_r; auto].
    apply NoDup_app. split_and!; [auto| |apply NoDup_singleton].
    intros k Hk ->%list_elem_of_singleton. revert Hk.
    eapply no_same_key; [by apply Hguard| |done|done].
    by apply Hdup, (contributing_approve a).
  - intros Hga x x' p p'. rewrite !Hc, Hs, !elem_of_app, !list_elem_of_singleton.
    intros [Hx| ->] [Hx'| ->] C1 C2 P1 P2; [by eapply (H5 Hga x x')| | |congruence].
    + by eapply no_mixed; [apply Hguard|exact Hx|..].
    + symmetry. by eapply no_mixed; [apply Hguard|exact Hx'|..].
  - intros Hr Hd. assert (Hr' : terminal_deny a false = true)
      by (unfold terminal_deny, recipe_forces_deny_on_any_deny in *; by rewrite Ho in Hr).
    destruct (Hpos Hr' Hd) as [Hd' Ha].
    rewrite Hs. apply Forall_app. split; [by apply H6|by constructor].
  - intros Hst. destruct (Happ Hst) as [Hgr _]. unfold granted_by, effective_required_approvals in *.
    by rewrite Ho.
  - intros Hst. by apply Happ.
Qed.

Lemma record_deny_evidence now a identity d veto :
  evidence_ok a → is_blank (bare_approver_identity identity) = false →
  is_open (ap_status a) = true ∨ (ap_status a = AS_Approved ∧ veto = true) →
  evidence_ok (record_deny now a identity d veto).
Proof.
  intros He Hb Hst. eapply (evidence_append a _ (signoff_of now identity d false)); try done;
    unfold record_deny; destruct (terminal_deny a veto) eqn:Et; try done.
  - intros Hr _. unfold terminal_deny in Hr, Et. cbn [orb] in Hr. by rewrite Hr, orb_true_r in Et.
  - simpl. intros Hap. destruct Hst as [Ho|[_ ->]]; [by rewrite Hap in Ho|done].
Qed.

Lemma record_approve_evidence now a d :
  let identity := trim (de_approver_identity d) in
  evidence_ok a → is_blank (bare_approver_identity identity) = false →
  is_open (ap_status a) = true → key_lower identity →
  approve_guards a identity d = Ok tt →
  evidence_ok (record_approve now a identity d).
Proof.
  intros identity He Hb Ho Hl Hg.
  apply approve_guards_ok in Hg as (Hdup & _ & _ & Hkey).
  eapply (evidence_append a _ (signoff_of now identity d true)); try done;
    unfold record_approve; cbv zeta; destruct (granted_by a _) eqn:Et; try done.
  all: first
    [ intros _ _; split; [intros Hd; by rewrite Hd in Ho|done]
    | simpl; intros _; split; [done|by eexists]
    | simpl; intros Hap; by rewrite Hap in Ho ].
Qed.

Lemma set_expired_evidence now (a : ApprovalRequest) :
  is_open (ap_status a) = true → evidence_ok a → evidence_ok (set_expired now a).
Proof.
  intros Ho. apply evidence_same; try done. simpl. intros Hd. by rewrite Hd in Ho.
Qed.

Lemma effect_evidence now a to d a' :
  (to ≠ AS_Denied → key_lower (trim (de_approver_identity d))) →
  evidence_ok a → decision_effect now a to d a' → evidence_ok a'.
Proof.
  intros Hl He [ |Ho|veto Hb Hst|Hto Hb Ho Hg]; [done| | |].
  - by apply set_expired_evidence.
  - by apply record_deny_evidence.
  - apply record_approve_evidence; auto.
Qed.

Lemma advance_evidence now a : evidence_ok a → evidence_ok (advance_lifecycle now a).2.
Proof.
  intros He. unfold advance_lifecycle.
  destruct (is_open (ap_status a)) eqn:Eo; cbn [negb]; [|done].
  destruct (ap_expires_at a <=? now); [by apply set_expired_evidence|].
  destruct (_ && _); [|done]. revert He. apply evidence_same; try done. simpl.
  intros Hd. by rewrite Hd in Eo.
Qed.

Lemma needs_reauth_approved now (a : ApprovalRequest) :
  needs_reauth now a = true → ap_status a = AS_Approved ∧ ap_executed a = false.
Proof.
  unfold needs_reauth. destruct (bool_decide_reflect (ap_status a = AS_Approved)); [|done].
  cbn [negb orb]. by destruct (ap_executed a).
Qed.

Lemma step_evidence a a' : evidence_ok a → ap_step a a' → evidence_ok a'.
Proof.
  intros He [now d Hl|now d|now d t Hl Hok|now|now Hn|r].
  - eapply effect_evidence; [|done|apply transition_effect]. done.
  - eapply effect_evidence; [|done|apply transition_effect]. done.
  - assert (evidence_ok (approve now a d).2)
      by (eapply effect_evidence; [|done|apply transition_effect]; done).
    revert H. by apply evidence_same.
  - by apply advance_evidence.
  - apply needs_reauth_approved in Hn as [Hn _]. revert He. apply evidence_same; try done.
    simpl. intros Hd. congruence.
  - revert He. by apply evidence_same.
Qed.

Lemma fresh_evidence a : fresh a → evidence_ok a.
Proof.
  intros (Hs & Hl & Hd). constructor; rewrite ?Hl, ?Hs; try done; try constructor.
  intros _ s s' p p' H. by apply elem_of_nil in H.
Qed.

Lemma reachable_evidence a : reachable a → evidence_ok a.
Proof. induction 1 as [a Ha|a a' _ IH Hs]; [by apply fresh_evidence|by eapply step_evidence]. Qed.

(** ** Theorems *)

Lemma positive_filter l : Forall (λ s, so_approve s = true) l → List.filter so_approve l = l.
Proof. induction 1 as [|s l Hs _ IH]; simpl; [done|]. by rewrite Hs, IH. Qed.

Lemma numeric_terminal (a : ApprovalRequest) : ap_approval_rule a = None → terminal_deny a false = true.
Proof. intros H. unfold terminal_deny. by rewrite H. Qed.

(** C1: In every reachable state an approved request has been approved by enough people.
    Without a rule: all its sign-offs are approvals by pairwise distinct named people,
    at least as many as required (two under dual control), no two of them asserted
    through one aggregator key when more than one is required.  With a rule: the slots
    of one of its recipes are filled by distinct named humans of sufficient class. *)
Theorem approved_means_enough_distinct_people a :
  reachable a → ap_status a = AS_Approved →
  match ap_approval_rule a with
  | None =>
      effective_required_approvals a <= len_as_u32 (ap_signoffs a)
      ∧ Forall (λ s, so_approve s = true ∧ named s) (ap_signoffs a)
      ∧ NoDup ((λ s, person_key (so_approver_identity s)) <$> ap_signoffs a)
      ∧ (1 < effective_required_approvals a →
         NoDup (contributing_keys a (ap_signoffs a)))
  | Some rule =>
      Z.of_nat (length (ap_signoffs a)) <= u32_max →
      Forall (λ r, counts_in_u32 (terms r)) (recipes rule) →
      ∃ r picks, r ∈ recipes rule ∧ (0 < length (slots r))%nat
        ∧ NoDup ((λ s, person_key (so_approver_identity s)) <$> picks)
        ∧ (∀ s, s ∈ picks → s ∈ ap_signoffs a ∧ counted_human s)
        ∧ Forall2 (λ s slot, fills (human_class s) slot = true) picks (slots r)
  end.
Proof.
  intros Hr Hst. apply reachable_evidence in Hr as [H1 H2 H3 H4 H5 H6 H7 H8].
  specialize (H7 Hst). unfold granted_by in H7.
  destruct (ap_approval_rule a) as [rule|] eqn:Er.
  - intros Hl Hc. by apply rule_satisfied_people.
  - apply numeric_terminal in Er as Ht.
    assert (Hp : Forall (λ s, so_approve s = true) (ap_signoffs a)) by (apply H6; congruence).
    unfold people in H1. rewrite positive_filter in H1 by done.
    split_and!; [by apply Z.leb_le| |done|].
    + apply Forall_and. by split.
    + intros Hn. apply H4. unfold same_aggregator_key_guard_active.
      by rewrite (proj2 (Z.ltb_lt 1 _)), orb_true_r.
Qed.

(** Deny wins: while a denial is terminal for a request (no rule, a rule in
    deny-on-any-deny mode, or an irreversible or extreme or unknown risk), a reachable
    request that was approved carries no dissent, and a recorded dissent means the
    request is denied. *)
Theorem deny_wins a :
  reachable a → terminal_deny a false = true →
  (∃ s, s ∈ ap_signoffs a ∧ so_approve s = false) → ap_status a = AS_Denied.
Proof.
  intros Hr Ht (s & Hs & Ha). apply reachable_evidence in Hr.
  destruct (decide (ap_status a = AS_Denied)) as [|Hn]; [done|].
  assert (H := ev_positive _ Hr Ht Hn). eapply Forall_forall in H; [|exact Hs]. congruence.
Qed.

(** Under M-of-N or a rule, the contributing approvals of a reachable request share
    one identity provenance and come through pairwise distinct aggregator keys. *)
Theorem contributing_signoffs_do_not_mix a :
  reachable a → same_aggregator_key_guard_active a = true →
  same_provenance a (ap_signoffs a) ∧ NoDup (contributing_keys a (ap_signoffs a)).
Proof. intros Hr Hg. apply reachable_evidence in Hr. split; [by apply Hr|by apply Hr]. Qed.

(** *** Re-deriving the grant *)

Lemma person_nonempty identity :
  is_blank (bare_approver_identity identity) = false → is_empty (person_key identity) = false.
Proof. unfold person_key. intros Hb%trim_nonblank. by destruct (trim _). Qed.

Lemma distinct_people_complete need ps ks l :
  Forall named l →
  NoDup ((λ s, person_key (so_approver_identity s)) <$> l) →
  (∀ s, s ∈ l → person_key (so_approver_identity s) ∉ ps) →
  (1 < need → NoDup (omap (λ s, to_ascii_lowercase <$> aggregator_key_prefix (so_approver_identity s)) l)
     ∧ ∀ k, k ∈ omap (λ s, to_ascii_lowercase <$> aggregator_key_prefix (so_approver_identity s)) l → k ∉ ks) →
  distinct_people need ps ks l = true.
Proof.
  revert ps ks. induction l as [|s l IH]; intros ps ks Hn Hd Hps Hk; cbn [distinct_people]; [done|].
  inversion Hn as [|? ? Hs Hl]; subst. cbn [fmap list_fmap] in Hd.
  apply NoDup_cons in Hd as [Hd1 Hd2].
  rewrite (person_nonempty _ Hs). cbn [orb]. rewrite bool_decide_false by (apply Hps; constructor).
  assert (Hps' : ∀ x, x ∈ l → person_key (so_approver_identity x) ∉ person_key (so_approver_identity s) :: ps).
  { intros x Hx [E|E]%elem_of_cons; [|by eapply Hps; [constructor 2|]].
    apply Hd1. rewrite <- E. by apply (list_elem_of_fmap_2 (λ s, person_key (so_approver_identity s))). }
  destruct (Z.ltb_spec 1 need) as [Hlt|Hge].
  - destruct (Hk Hlt) as [Hk1 Hk2]. cbn [omap list_omap] in Hk1, Hk2.
    destruct (aggregator_key_prefix (so_approver_identity s)) as [p|]; cbn in Hk1, Hk2.
    + apply NoDup_cons in Hk1 as [Hk3 Hk4]. rewrite bool_decide_false by (apply Hk2; constructor).
      apply IH; [done|done|done|]. intros _. split; [done|].
      intros k Hin [->|E]%elem_of_cons; [done|]. by eapply Hk2; [constructor 2|].
    + apply IH; [done|done|done|]. by intros _.
  - apply IH; [done|done|done|]. intros; lia.
Qed.

Lemma distinct_keys_complete a ks l :
  NoDup (contributing_keys a l) → (∀ k, k ∈ contributing_keys a l → k ∉ ks) →
  distinct_keys a ks l = true.
Proof.
  revert ks. induction l as [|s l IH]; intros ks Hd Hk; cbn [distinct_keys]; [done|].
  unfold contributing_keys in Hd, Hk. cbn [omap list_omap] in Hd, Hk.
  fold (contributing a s). destruct (contributing a s); [|by apply IH].
  destruct (aggregator_key_prefix (so_approver_identity s)) as [p|]; cbn in Hd, Hk; [|by apply IH].
  apply NoDup_cons in Hd as [Hd1 Hd2]. rewrite bool_decide_false by (apply Hk; constructor).
  apply IH; [done|]. intros k Hin [->|E]%elem_of_cons; [done|]. by eapply Hk; [constructor 2|].
Qed.

(** Every approval that [transition] grants can be re-derived from the stored record:
    in every reachable state, approved means that the execution path finds a basis for
    the grant, so no honestly approved action is refused for lack of evidence. *)
Theorem approved_grant_can_be_rederived a :
  reachable a → ap_status a = AS_Approved → is_Some (grant_basis a).
Proof.
  intros Hr Hst. apply reachable_evidence in Hr as [H1 H2 H3 H4 H5 H6 H7 H8].
  specialize (H7 Hst). unfold granted_by in H7. unfold grant_basis.
  assert (Hga : ∀ rule, ap_approval_rule a = Some rule → same_aggregator_key_guard_active a = true)
    by (intros rule E; unfold same_aggregator_key_guard_active; rewrite E; done).
  destruct (ap_approval_rule a) as [rule|] eqn:Er.
  - rewrite H7. cbn [negb]. rewrite distinct_keys_complete; [by eexists|eauto|].
    by intros k _ ?%elem_of_nil.
  - assert (Hp : Forall (λ s, so_approve s = true) (ap_signoffs a))
      by (apply H6; [by apply numeric_terminal|congruence]).
    rewrite positive_filter by done. unfold people in H1. rewrite positive_filter in H1 by done.
    apply Z.leb_le in H7. rewrite (proj2 (Z.ltb_ge _ _)) by lia.
    rewrite distinct_people_complete; [by eexists|done|done|by intros s _ ?%elem_of_nil|].
    intros Hn. assert (Hk : NoDup (contributing_keys a (ap_signoffs a))).
    { apply H4. unfold same_aggregator_key_guard_active.
      by rewrite (proj2 (Z.ltb_lt 1 _)), orb_true_r. }
    replace (omap _ (ap_signoffs a)) with (contributing_keys a (ap_signoffs a));
      [split; [done|by intros k _ ?%elem_of_nil]|].
    unfold contributing_keys. clear -Hp Er. induction Hp as [|s l Hs _ IH]; [done|].
    cbn [omap list_omap]. rewrite IH. unfold contributing, contributes_positive_slot.
    by rewrite Hs, Er.
Qed.

Lemma distinct_people_sound need ps ks l :
  distinct_people need ps ks l = true →
  NoDup ((λ s, person_key (so_approver_identity s)) <$> l)
  ∧ (∀ s, s ∈ l → is_empty (person_key (so_approver_identity s)) = false
       ∧ person_key (so_approver_identity s) ∉ ps)
  ∧ (1 < need →
     NoDup (omap (λ s, to_ascii_lowercase <$> aggregator_key_prefix (so_approver_identity s)) l)
     ∧ ∀ k, k ∈ omap (λ s, to_ascii_lowercase <$> aggregator_key_prefix (so_approver_identity s)) l
         → k ∉ ks).
Proof.
  revert ps ks. induction l as [|s l IH]; intros ps ks; cbn [distinct_people].
  { intros _. split_and!; [constructor|by intros s ?%elem_of_nil|]. intros _.
    split; [constructor|by intros k ?%elem_of_nil]. }
  destruct (is_empty (person_key (so_approver_identity s))) eqn:Ee; [done|]. cbn [orb].
  destruct (bool_decide_reflect (person_key (so_approver_identity s) ∈ ps)) as [|Hp]; [done|].
  intros H.
  assert (Hrec : ∃ ks', distinct_people need (person_key (so_approver_identity s) :: ps) ks' l = true
    ∧ (1 < need →
       match aggregator_key_prefix (so_approver_identity s) with
       | Some p => ks' = to_ascii_lowercase p :: ks ∧ to_ascii_lowercase p ∉ ks
       | None => ks' = ks
       end)).
  { destruct (Z.ltb_spec 1 need); [|exists ks; split; [done|lia]].
    destruct (aggregator_key_prefix (so_approver_identity s)) as [p|]; [|by exists ks].
    destruct (bool_decide_reflect (to_ascii_lowercase p ∈ ks)); [done|]. by eexists. }
  destruct Hrec as (ks' & Hd & Hks). apply IH in Hd as (H1 & H2 & H3). split_and!.
  - cbn [fmap list_fmap]. constructor; [|done].
    intros (x & E & Hx)%list_elem_of_fmap. apply (H2 x Hx). rewrite <- E. constructor.
  - intros x [->|Hx]%elem_of_cons; [done|]. destruct (H2 x Hx) as [? Hn]. split; [done|].
    intros ?. apply Hn. by constructor.
  - intros Hn. destruct (H3 Hn) as [H4 H5]. specialize (Hks Hn). cbn [omap list_omap].
    destruct (aggregator_key_prefix (so_approver_identity s)) as [p|]; cbn; [|by subst ks'].
    destruct Hks as [-> Hk]. split.
    + constructor; [|done]. intros Hin. apply (H5 _ Hin). constructor.
    + intros k [->|Hin]%elem_of_cons; [done|]. intros ?. apply (H5 _ Hin). by constructor.
Qed.

Lemma distinct_keys_sound a ks l :
  distinct_keys a ks l = true →
  NoDup (contributing_keys a l) ∧ ∀ k, k ∈ contributing_keys a l → k ∉ ks.
Proof.
  revert ks. induction l as [|s l IH]; intros ks; cbn [distinct_keys].
  { intros _. split; [constructor|by intros k ?%elem_of_nil]. }
  unfold contributing_keys. cbn [omap list_omap]. fold (contributing_keys a l).
  fold (contributing a s). destruct (contributing a s); [|apply IH].
  destruct (aggregator_key_prefix (so_approver_identity s)) as [p|]; cbn; [|apply IH].
  destruct (bool_decide_reflect (to_ascii_lowercase p ∈ ks)) as [|Hn]; [done|].
  intros [H1 H2]%IH. split.
  - constructor; [|done]. intros Hin. apply (H2 _ Hin). constructor.
  - intros k [->|Hin]%elem_of_cons; [done|]. intros ?. apply (H2 _ Hin). by constructor.
Qed.

Section witness.
Context {SJ : SerdeJson} {SH : Sha256}.

(** The binding of a grant is the record's, under the given epoch. *)
Lemma grant_binding now a epoch live g :
  grant_witness_inner now a epoch live = Some g →
  execution_binding a epoch = Some (gr_binding g)
  ∧ eb_approval_id (gr_binding g) = ap_id a ∧ eb_epoch (gr_binding g) = epoch.
Proof.
  unfold grant_witness_inner. destruct (negb _); [done|]. destruct (grant_basis a); [|done].
  cbv zeta. destruct (match ap_decided_at a with Some d => Some d | None => _ end); [|done].
  destruct (_ <? _); [done|]. destruct (live && _); [done|].
  destruct (execution_binding a epoch) as [b|] eqn:Eb; [|done]. intros [= <-]. split; [done|].
  unfold execution_binding in Eb. destruct (json_to_vec _); [|done]. destruct (json_to_vec _); [|done].
  by injection Eb as <-.
Qed.

(** A grant minted from a stored record, whatever wrote that record, rests on the
    record's own evidence: it is approved, its approvals are by distinct named people
    in sufficient number (or satisfy its rule), no aggregator key counts twice, the
    binding is the record's and carries the claimed epoch, and a live grant has a
    decision time and has not run out. *)
Theorem grant_rests_on_stored_evidence now a epoch live g :
  grant_witness_inner now a epoch live = Some g →
  ap_status a = AS_Approved
  ∧ match ap_approval_rule a with
    | None =>
        let positives := List.filter so_approve (ap_signoffs a) in
        effective_required_approvals a <= len_as_u32 positives
        ∧ NoDup ((λ s, person_key (so_approver_identity s)) <$> positives)
        ∧ (∀ s, s ∈ positives → is_empty (person_key (so_approver_identity s)) = false)
        ∧ (1 < effective_required_approvals a →
           NoDup (omap (λ s, to_ascii_lowercase <$> aggregator_key_prefix (so_approver_identity s))
                    positives))
    | Some rule => approval_rule_satisfied rule (ap_signoffs a) = true
                   ∧ NoDup (contributing_keys a (ap_signoffs a))
    end
  ∧ (eb_approval_id (gr_binding g) = ap_id a ∧ eb_epoch (gr_binding g) = epoch
     ∧ eb_tenant (gr_binding g) = default "" (ap_tenant a)
     ∧ eb_credential (gr_binding g) = ap_credential a ∧ eb_action (gr_binding g) = ap_action a
     ∧ Some (eb_params_digest (gr_binding g)) = digest_params (ap_params a))
  ∧ (live = true → ∃ d, ap_decided_at a = Some d ∧ gr_issued_at g = timestamp d
       ∧ gr_expires_at g = timestamp (d + seconds (reauth_window a))
       ∧ now < d + seconds (reauth_window a)).
Proof.
  unfold grant_witness_inner. destruct (bool_decide_reflect (ap_status a = AS_Approved)) as [Hst|];
    cbn [negb]; [|done].
  destruct (grant_basis a) as [basis|] eqn:Eb; [|done]. cbv zeta. intros H. split; [done|]. split.
  - unfold grant_basis in Eb. destruct (ap_approval_rule a) as [rule|].
    + destruct (approval_rule_satisfied rule (ap_signoffs a)); cbn [negb] in Eb; [|done].
      destruct (distinct_keys a [] (ap_signoffs a)) eqn:Ek; [|done].
      split; [done|]. by apply distinct_keys_sound in Ek as [? _].
    + cbv zeta in Eb. set (positives := List.filter so_approve (ap_signoffs a)) in *.
      destruct (Z.ltb_spec (len_as_u32 positives) (effective_required_approvals a)); [done|].
      destruct (distinct_people _ _ _ _) eqn:Ed; [|done].
      apply distinct_people_sound in Ed as (H1 & H2 & H3).
      split_and!; [lia|done|intros s Hs; by apply H2|intros Hn; by apply H3].
  - destruct (match ap_decided_at a with Some d => Some d | None => _ end) as [d|] eqn:Ei; [|done].
    destruct (9223372036854775807 <? reauth_window a); [done|].
    destruct (live && _) eqn:El; [done|].
    unfold execution_binding in H. unfold digest_params.
    destruct (json_to_vec (ap_params a)); [|done]. destruct (json_to_vec (rule_value a)); [|done].
    injection H as <-. split; [by split_and!|]. intros ->. cbn [andb] in El.
    destruct (ap_decided_at a) as [d'|]; [|done]. injection Ei as ->. exists d.
    apply Z.leb_gt in El. by split_and!.
Qed.
End witness.

(** *** Finality and separation of duty *)

(** A denied or expired request never changes again except for its execution fields;
    no step removes or alters a recorded sign-off, and none touches what was opened. *)
Theorem decided_is_final a a' :
  ap_step a a' →
  opening a' = opening a ∧ (∃ l, ap_signoffs a' = ap_signoffs a ++ l)
  ∧ (ap_status a = AS_Denied ∨ ap_status a = AS_Expired → progress a' = progress a)
  ∧ (ap_status a = AS_Approved → ap_status a' = AS_Approved ∨ ap_status a' = AS_Denied
                                 ∨ ap_status a' = AS_Expired).
Proof.
  assert (Hsame : ∀ l : list Signoff, ∃ l', l = l ++ l') by (intros l; exists []; by rewrite app_nil_r).
  assert (Heff : ∀ now to d b, decision_effect now a to d b →
    opening b = opening a ∧ (∃ l, ap_signoffs b = ap_signoffs a ++ l)
    ∧ (ap_status a = AS_Denied ∨ ap_status a = AS_Expired → progress b = progress a)
    ∧ (ap_status a = AS_Approved → ap_status b = AS_Approved ∨ ap_status b = AS_Denied
                                   ∨ ap_status b = AS_Expired)).
  { intros now to d b [ |Ho|veto Hb Hst|Hto Hb Ho Hg].
    - by auto.
    - split_and!; [done|auto| |by auto]. by intros [E|E]; rewrite E in Ho.
    - unfold record_deny. destruct (terminal_deny a veto) eqn:Et; cbn; split_and!;
        [done|by eexists|by intros [E|E]; destruct Hst as [Ho|[Ho _]]; rewrite E in Ho|by auto
        |done|by eexists|by intros [E|E]; destruct Hst as [Ho|[Ho _]]; rewrite E in Ho|by auto].
    - unfold record_approve. cbv zeta. destruct (granted_by a _); cbn; split_and!;
        [done|by eexists|by intros [E|E]; rewrite E in Ho|by auto
        |done|by eexists|by intros [E|E]; rewrite E in Ho|by auto]. }
  intros [now d Hl|now d|now d t Hl Hok|now|now Hn|r].
  - apply (Heff now AS_Approved d), transition_effect.
  - apply (Heff now AS_Denied d), transition_effect.
  - destruct (Heff now AS_Approved d _ (transition_effect now a AS_Approved d)) as (H1 & H2 & _ & H4).
    split_and!; [done|done| |done]. intros Hst. exfalso. unfold approve, transition in Hok.
    cbv zeta in Hok. destruct (is_blank _); [done|]. destruct (is_past_ttl now a); [done|].
    unfold delegate_veto in Hok. rewrite bool_decide_false in Hok by done. cbn [andb negb] in Hok.
    by destruct Hst as [E|E]; rewrite E in Hok.
  - unfold advance_lifecycle. destruct (is_open (ap_status a)) eqn:Eo; cbn [negb]; [|by auto].
    assert (Hx : ¬ (ap_status a = AS_Denied ∨ ap_status a = AS_Expired) ∧ ap_status a ≠ AS_Approved)
      by (split; [intros [E|E]; by rewrite E in Eo|intros E; by rewrite E in Eo]).
    destruct (ap_expires_at a <=? now); [cbn; naive_solver|]. destruct (_ && _); cbn; naive_solver.
  - apply needs_reauth_approved in Hn as [Hn _]. cbn. rewrite Hn.
    split_and!; [done|auto|by intros [|]|by auto].
  - by auto.
Qed.

(** The identities of the requesting agent that [sod_for] compares with. *)
Definition agent_identities (a : ApprovalRequest) : list string :=
  omap id [rq_principal_name (ap_requester a); ap_agent_label a; ap_principal_id a;
           rq_principal_id (ap_requester a)].

(** With separation of duty enforced, an accepted approval is never by the requesting
    agent: the approver's person key differs from that of each of the agent's names,
    whatever the case, the padding or the provenance prefix. *)
Theorem enforced_sod_refuses_self_approval now a d a' name :
  approve now a d = (Ok tt, a') → de_enforce_sod d = true →
  name ∈ agent_identities a → is_empty (trim name) = false →
  person_key (trim (de_approver_identity d)) ≠ to_ascii_lowercase (trim name).
Proof.
  unfold approve, transition. cbv zeta. set (i := trim (de_approver_identity d)).
  destruct (is_blank (bare_approver_identity i)) eqn:Eb; [done|].
  destruct (is_past_ttl now a); [done|]. destruct (_ && _); [done|].
  rewrite bool_decide_false by done.
  destruct (approve_guards a i d) as [[]|e] eqn:Eg; [|done]. intros _ He Hin Hne Heq.
  apply approve_guards_ok in Eg as (_ & Hsod & _). apply (Hsod He).
  unfold sod_for. assert (Hi : trim (bare_approver_identity i) ≠ "") by (by apply trim_nonblank).
  assert (Ee : is_empty (trim (bare_approver_identity i)) = false)
    by (by destruct (trim (bare_approver_identity i))).
  cbv zeta. rewrite Ee.
  fold (agent_identities a).
  assert (Hk : trim name ∈ List.filter (λ s, negb (is_empty s)) (trim <$> agent_identities a)).
  { apply elem_of_filter_bool. rewrite Hne. split; [by apply list_elem_of_fmap_2|done]. }
  destruct (List.filter _ _) as [|k ks] eqn:Ek; [by apply elem_of_nil in Hk|].
  f_equal. apply existsb_elem_of. exists (trim name). split; [done|].
  by apply eq_ignore_ascii_case_spec.
Qed.
