(* ===== verification/ApprovalStore.v ===== *)
(** * Approvals in the vault

    Models the approval operations of [FileStorage] in [src/src/storage/file.rs]: the
    locked read-modify-write with its commit-time validation and rollback
    ([locked_mutate]), [store_approval], [decide_approval_atomic],
    [poll_refresh_approval], [sweep_approval_lifecycle],
    [claim_approval_for_execution] with its kill fence, [finalize_execution],
    [heartbeat_approval], [delete_approval] and the kill-mark garbage collection
    ([dead_marks]).  A staged outbox event is its subject and type; its payload and
    dedup id do not influence the vault's transitions.  The other collections of the
    vault, its encryption and its log are outside the model.

    The theorems about sequences of these operations are in [ApprovalExecution]. *)

From stdpp Require Import base gmap strings list.
From Stdlib Require Import Ascii ZArith Lia.
From S2P Require Import Prelude RustStr PolicyTypes UrlCanon RateLimit BTree Json Kernel.
From S2P Require Import PolicyEngine KillFence Approval ApprovalRecipe ApprovalLifecycle.

Open Scope Z_scope.

(** ** Data *)

(** The [StorageError]s these operations return. *)
Inductive StorageError :=
| SE_ApprovalNotFound (id : string)
| SE_PolicyNotFound (id : string)
| SE_Conflict (e : ApprovalError)
| SE_DelegateBlocked
| SE_Unavailable
| SE_Serialization.

(** The collections of [StorageCache] these operations touch. *)
Record Vault := {
  v_fence : FenceVault;
  v_approvals : gmap string ApprovalRequest;
  v_pending_events : list (string * string);
}.

(** [ExecutionClaim]. *)
Record ExecutionClaim := {
  cl_approval : ApprovalRequest;
  cl_epoch : Z;
  cl_stale_retake : bool;
  cl_grant : Granted;
}.

Definition set_approval (v : Vault) (id : string) (a : ApprovalRequest) : Vault :=
  {| v_fence := v_fence v; v_approvals := <[id := a]> (v_approvals v);
     v_pending_events := v_pending_events v |}.

Definition STALE_EXECUTING_SECS : Z := 120.
Definition MAX_PENDING_EVENTS : Z := 10000.

Definition EVENT_APPROVAL_APPROVED : string := "approval.approved".
Definition EVENT_APPROVAL_DENIED : string := "approval.denied".
Definition EVENT_APPROVAL_ESCALATED : string := "approval.escalated".
Definition EVENT_APPROVAL_EXPIRED : string := "approval.expired".

(** [stage_event]. *)
Definition stage_event (v : Vault) (subj ty : string) : result Vault StorageError :=
  if MAX_PENDING_EVENTS <=? Z.of_nat (length (v_pending_events v)) then Err SE_Unavailable
  else Ok {| v_fence := v_fence v; v_approvals := v_approvals v;
             v_pending_events := v_pending_events v ++ [(subj, ty)] |}.

Fixpoint stage_events (v : Vault) (l : list (string * string)) : result Vault StorageError :=
  match l with
  | [] => Ok v
  | (subj, ty) :: l' => let? v' := stage_event v subj ty in stage_events v' l'
  end.

Section store.
Context {UC : UrlCrate} {GC : GlobCrate} {SJ : SerdeJson} {SH : Sha256}.

(** The approvals part of [validate_primary_shapes]. *)
Definition validate_primary_shapes (now : DateTime) (v : Vault) : bool :=
  forallb (λ e : string * ApprovalRequest,
             String.eqb e.1 (ap_id e.2) && is_ok (validate_vault_shape now e.2))
    (map_to_list (v_approvals v)).

(** [locked_mutate]: the closure runs on the current state; its result is committed
    only if the new state validates, and rolled back otherwise. *)
Definition locked_mutate {A} (now : DateTime) (f : Vault → result (A * Vault) StorageError)
    (v : Vault) : result A StorageError * Vault :=
  match f v with
  | Err e => (Err e, v)
  | Ok (r, v') => if validate_primary_shapes now v' then (Ok r, v') else (Err SE_Serialization, v)
  end.

(** [store_approval]. *)
Definition store_approval (now : DateTime) (a : ApprovalRequest) : Vault → result unit StorageError * Vault :=
  locked_mutate now (λ v, Ok (tt, set_approval v (ap_id a) a)).

(** [delete_approval]. *)
Definition delete_approval (now : DateTime) (id : string) : Vault → result unit StorageError * Vault :=
  locked_mutate now (λ v,
    match (v_approvals v !! id : option ApprovalRequest) with
    | None => Err (SE_ApprovalNotFound id)
    | Some _ => Ok (tt, {| v_fence := v_fence v; v_approvals := delete id (v_approvals v);
                           v_pending_events := v_pending_events v |})
    end).

(** The [Decision] that [decide_approval_atomic] builds. *)
Definition build_decision (channel identity : string) (enforce_sod : bool) (note grant_ref : option string)
    (class : option ApproverClass) (controller : option string) : Decision :=
  {| de_channel := channel; de_approver_identity := identity; de_note := note;
     de_enforce_sod := enforce_sod;
     de_approver_kind := match grant_ref with Some _ => "delegate-agent" | None => "human" end;
     de_delegation_grant_ref := grant_ref; de_resolved_class := class;
     de_controller := controller |}.

(** The terminal event of a decided request. *)
Definition decision_event (s : ApprovalStatus) : option string :=
  match s with
  | AS_Approved => Some EVENT_APPROVAL_APPROVED
  | AS_Denied => Some EVENT_APPROVAL_DENIED
  | AS_Expired => Some EVENT_APPROVAL_EXPIRED
  | AS_Pending | AS_Escalated => None
  end.

(** [decide_approval_atomic]. *)
Definition decide_approval_atomic (now : DateTime) (id : string) (to_approve : bool)
    (channel approver_identity : string) (enforce_sod : bool)
    (note delegation_grant_ref : option string) (delegate_pep_ok : option bool)
    (resolved_class : option ApproverClass) (controller : option string)
    (veto_until : option DateTime) : Vault → result ApprovalRequest StorageError * Vault :=
  locked_mutate now (λ v,
    match (v_approvals v !! id : option ApprovalRequest) with
    | None => Err (SE_ApprovalNotFound id)
    | Some a0 =>
        if String.eqb channel "delegate-agent" && to_approve
           && negb (bool_decide (delegate_pep_ok = Some true))
        then Err SE_DelegateBlocked
        else
          let a1 := (advance_lifecycle now a0).2 in
          let d := build_decision channel approver_identity enforce_sod note
                     delegation_grant_ref resolved_class controller in
          let '(r, a2) := (if to_approve then approve now a1 d else deny now a1 d) in
          match r with
          | Err e => Err (SE_Conflict e)
          | Ok _ =>
              let a3 := if to_approve && String.eqb channel "delegate-agent"
                        then set_veto_until a2 veto_until else a2 in
              let v' := set_approval v id a3 in
              match decision_event (ap_status a3) with
              | None => Ok (a3, v')
              | Some ty => let? v'' := stage_event v' (ap_id a3) ty in Ok (a3, v'')
              end
          end
    end).

(** One request's lifecycle refresh, shared by the poll and the sweep: the new record
    and the event it emits. *)
Definition refresh (now : DateTime) (a : ApprovalRequest) : ApprovalRequest * option string :=
  match advance_lifecycle now a with
  | (LC_Escalated, a') => (a', Some EVENT_APPROVAL_ESCALATED)
  | (LC_Expired, a') => (a', Some EVENT_APPROVAL_EXPIRED)
  | (LC_None, a') =>
      if needs_reauth now a' then (expire_reauth_lapsed a', Some EVENT_APPROVAL_EXPIRED)
      else (a', None)
  end.

(** [approval_is_due]. *)
Definition approval_is_due (now : DateTime) (a : ApprovalRequest) : bool :=
  (is_open (ap_status a)
   && ((ap_expires_at a <=? now)
       || (bool_decide (ap_status a = AS_Pending) && (ap_escalate_at a <=? now))))
  || needs_reauth now a.

(** [poll_refresh_approval]. *)
Definition poll_refresh_approval (now : DateTime) (id : string) (v : Vault)
    : result ApprovalRequest StorageError * Vault :=
  match (v_approvals v !! id : option ApprovalRequest) with
  | None => (Err (SE_ApprovalNotFound id), v)
  | Some a =>
      if negb (approval_is_due now a) then (Ok a, v)
      else locked_mutate now (λ v,
        match (v_approvals v !! id : option ApprovalRequest) with
        | None => Err (SE_ApprovalNotFound id)
        | Some a =>
            let '(a', ev) := refresh now a in
            let v' := set_approval v id a' in
            match ev with
            | Some ty => let? v'' := stage_event v' (ap_id a') ty in Ok (a', v'')
            | None => Ok (a', v')
            end
        end) v
  end.

(** The loop of [sweep_approval_lifecycle]: the updated approvals and the events, in
    the order of [candidates]. *)
Fixpoint sweep_loop (now : DateTime) (candidates : list string)
    (m : gmap string ApprovalRequest) : gmap string ApprovalRequest * list (string * string) :=
  match candidates with
  | [] => (m, [])
  | id :: ids =>
      match m !! id with
      | None => sweep_loop now ids m
      | Some a =>
          let '(a', ev) := refresh now a in
          let '(m', evs) := sweep_loop now ids (<[id := a']> m) in
          (m', match ev with Some ty => (ap_id a', ty) :: evs | None => evs end)
      end
  end.

(** [sweep_approval_lifecycle]; the result lists the staged events. *)
Definition sweep_approval_lifecycle (now : DateTime) (v : Vault)
    : result (list (string * string)) StorageError * Vault :=
  if negb (existsb (approval_is_due now) (map_to_list (v_approvals v)).*2) then (Ok [], v)
  else locked_mutate now (λ v,
    let candidates := (λ a : ApprovalRequest, ap_id a)
      <$> List.filter (λ a : ApprovalRequest, is_open (ap_status a) || needs_reauth now a)
            (map_to_list (v_approvals v)).*2 in
    let '(m, evs) := sweep_loop now candidates (v_approvals v) in
    let? v' := stage_events {| v_fence := v_fence v; v_approvals := m;
                               v_pending_events := v_pending_events v |} evs in
    Ok (evs, v')) v.

(** ** Execution *)

(** Whether a claim was left behind by a lost worker. *)
Definition stale_claim (now : DateTime) (a : ApprovalRequest) : bool :=
  ap_executing a && match ap_executing_since a with
                    | Some t => STALE_EXECUTING_SECS <? num_seconds (now - t)
                    | None => true
                    end.

(** The record of a claim refused by the kill fence. *)
Definition kill_finalized (a : ApprovalRequest) (reason : string) : ApprovalRequest :=
  with_run a {| ap_executing := false; ap_executing_since := None; ap_executed := true;
                ap_result_status := None; ap_result_body := None;
                ap_result_error := Some reason; ap_execution_epoch := ap_execution_epoch a |}.

(** The record of a granted claim. *)
Definition claimed_record (now : DateTime) (a : ApprovalRequest) (epoch : Z) : ApprovalRequest :=
  with_run a {| ap_executing := true; ap_executing_since := Some now;
                ap_executed := ap_executed a; ap_result_status := ap_result_status a;
                ap_result_body := ap_result_body a; ap_result_error := ap_result_error a;
                ap_execution_epoch := epoch |}.

(** The kill-fence question a claim asks. *)
Definition claim_query (a : ApprovalRequest) : KillFenceQuery :=
  {| kq_credential_alias := ap_credential a; kq_principal := policy_principal a;
     kq_admitted_epoch := default 0 (ap_kill_epoch_at_open a) |}.

(** The body of [claim_approval_for_execution] on the record found. *)
Definition claim_body (now : DateTime) (v : Vault) (id : string) (a : ApprovalRequest)
    : option ExecutionClaim * Vault :=
  let stale := stale_claim now a in
  if negb (bool_decide (ap_status a = AS_Approved)) || ap_executed a
     || (ap_executing a && negb stale) || needs_reauth now a || veto_pending now a
  then (None, v)
  else
    let fenced := if negb (ap_executing a && stale)
                  then refusal_reason (kill_fence_check (v_fence v) (claim_query a)) else None in
    match fenced with
    | Some reason => (None, set_approval v id (kill_finalized a reason))
    | None =>
        match next_epoch (ap_execution_epoch a) with
        | None => (None, v)
        | Some epoch =>
            match grant_witness_for_epoch now a epoch with
            | None => (None, v)
            | Some g =>
                let a' := claimed_record now a epoch in
                (Some {| cl_approval := a'; cl_epoch := epoch;
                         cl_stale_retake := ap_executing a && stale; cl_grant := g |},
                 set_approval v id a')
            end
        end
    end.

(** [claim_approval_for_execution]. *)
Definition claim_approval_for_execution (now : DateTime) (id : string)
    : Vault → result (option ExecutionClaim) StorageError * Vault :=
  locked_mutate now (λ v,
    match (v_approvals v !! id : option ApprovalRequest) with
    | None => Err (SE_ApprovalNotFound id)
    | Some a => Ok (claim_body now v id a)
    end).

(** [finalize_execution]; the result fields are those of [r]. *)
Definition finalize_execution (now : DateTime) (id : string) (epoch : Z) (r : Run)
    : Vault → result bool StorageError * Vault :=
  locked_mutate now (λ v,
    match (v_approvals v !! id : option ApprovalRequest) with
    | None => Err (SE_ApprovalNotFound id)
    | Some a =>
        if negb (ap_execution_epoch a =? epoch) then Ok (false, v)
        else Ok (true, set_approval v id
          (with_run a {| ap_executing := ap_executing r; ap_executing_since := ap_executing_since r;
                         ap_executed := ap_executed r; ap_result_status := ap_result_status r;
                         ap_result_body := ap_result_body r; ap_result_error := ap_result_error r;
                         ap_execution_epoch := ap_execution_epoch a |}))
    end).

(** [heartbeat_approval]. *)
Definition heartbeat_approval (now : DateTime) (id : string) : Vault → result unit StorageError * Vault :=
  locked_mutate now (λ v,
    match (v_approvals v !! id : option ApprovalRequest) with
    | Some a =>
        if ap_executing a && negb (ap_executed a)
        then Ok (tt, set_approval v id
          (with_run a {| ap_executing := ap_executing a; ap_executing_since := Some now;
                         ap_executed := ap_executed a; ap_result_status := ap_result_status a;
                         ap_result_body := ap_result_body a; ap_result_error := ap_result_error a;
                         ap_execution_epoch := ap_execution_epoch a |}))
        else Ok (tt, v)
    | None => Ok (tt, v)
    end).

(** Whether an approval can still run: the filter of [dead_marks]. *)
Definition can_still_run (a : ApprovalRequest) : bool :=
  ap_executing a
  || (negb (ap_executed a)
      && negb (bool_decide (ap_status a = AS_Denied) || bool_decide (ap_status a = AS_Expired))).

(** [dead_marks] and the kill-mark part of [gc_vault_at]. *)
Definition live_admissions (v : Vault) : list Z :=
  (λ a : ApprovalRequest, default 0 (ap_kill_epoch_at_open a))
    <$> List.filter can_still_run (map_to_list (v_approvals v)).*2.

Definition gc_vault_marks (now : DateTime) (v : Vault) : Vault :=
  {| v_fence := gc_marks now (live_admissions v) (v_fence v);
     v_approvals := v_approvals v; v_pending_events := v_pending_events v |}.

(** [store_policy] and [delete_policy] on the whole vault. *)
Definition vault_store_policy (now : DateTime) (p : Policy) : Vault → result unit StorageError * Vault :=
  locked_mutate now (λ v,
    Ok (tt, {| v_fence := store_policy now (v_fence v) p; v_approvals := v_approvals v;
               v_pending_events := v_pending_events v |})).

Definition vault_delete_policy (now : DateTime) (id : string) : Vault → result unit StorageError * Vault :=
  locked_mutate now (λ v,
    match delete_policy (v_fence v) id with
    | Err i => Err (SE_PolicyNotFound i)
    | Ok f => Ok (tt, {| v_fence := f; v_approvals := v_approvals v;
                         v_pending_events := v_pending_events v |})
    end).
End store.
