(* ===== verification/ApprovalExecution.v ===== *)
(** * Executing approved actions at most once

    Executions of the vault of [ApprovalStore] as sequences of locked operations by
    any number of processes ([vstep]), followed for one approval id, with the claims
    granted for that id as the observable trace. *)

From stdpp Require Import base gmap strings list.
From Stdlib Require Import Ascii ZArith Lia.
From S2P Require Import Prelude RustStr PolicyTypes UrlCanon RateLimit BTree Json Kernel.
From S2P Require Import PolicyEngine KillFence Approval ApprovalRecipe ApprovalLifecycle.
From S2P Require Import ApprovalStore.

Open Scope Z_scope.

Section execution.
Context {UC : UrlCrate} {GC : GlobCrate} {SJ : SerdeJson} {SH : Sha256}.

(** The record of an approval. *)
Definition record_of (id : string) (v : Vault) : option ApprovalRequest := v_approvals v !! id.

(** The claims an operation grants for [id]. *)
Definition granted_claims (id id' : string) (r : result (option ExecutionClaim) StorageError)
    : list ExecutionClaim :=
  match r with Ok (Some c) => if bool_decide (id' = id) then [c] else [] | _ => [] end.

Section steps.
Context (id : string) (may_store : Policy → Prop) (may_finalize : ApprovalRequest → Run → Prop).

(** One locked operation, seen from approval [id].  The record [id] itself is created
    before and not deleted; [may_store] restricts the policies stored, [may_finalize]
    the outcomes that workers commit for [id]. *)
Inductive vstep (v : Vault) : list ExecutionClaim → Vault → Prop :=
| vs_store now (a : ApprovalRequest) : ap_id a ≠ id → vstep v [] (store_approval now a v).2
| vs_delete now id' : id' ≠ id → vstep v [] (delete_approval now id' v).2
| vs_decide now id' yes channel who sod note grant pep cls ctrl veto :
    vstep v [] (decide_approval_atomic now id' yes channel who sod note grant pep cls ctrl veto v).2
| vs_poll now id' : vstep v [] (poll_refresh_approval now id' v).2
| vs_sweep now : vstep v [] (sweep_approval_lifecycle now v).2
| vs_claim now id' :
    vstep v (granted_claims id id' (claim_approval_for_execution now id' v).1)
      (claim_approval_for_execution now id' v).2
| vs_finalize now id' epoch r :
    (id' = id → ∀ a, record_of id v = Some a → ap_execution_epoch a = epoch → may_finalize a r) →
    vstep v [] (finalize_execution now id' epoch r v).2
| vs_heartbeat now id' : vstep v [] (heartbeat_approval now id' v).2
| vs_gc now : vstep v [] (gc_vault_marks now v)
| vs_policy now p : may_store p → vstep v [] (vault_store_policy now p v).2
| vs_unpolicy now pid : vstep v [] (vault_delete_policy now pid v).2.

Inductive vsteps : Vault → list ExecutionClaim → Vault → Prop :=
| vsteps_nil v : vsteps v [] v
| vsteps_cons v v1 v2 l l' : vstep v l v1 → vsteps v1 l' v2 → vsteps v (l ++ l') v2.
End steps.

(** ** Lemmas *)

(** A locked mutation either commits the closure's state or leaves the vault. *)
Lemma locked_mutate_cases {A} now (f : Vault → result (A * Vault) StorageError) v :
  (∃ r v', f v = Ok (r, v') ∧ validate_primary_shapes now v' = true
           ∧ locked_mutate now f v = (Ok r, v'))
  ∨ (∃ e, locked_mutate now f v = (Err e, v)).
Proof.
  unfold locked_mutate. destruct (f v) as [[r v']|e]; [|by right; eexists].
  destruct (validate_primary_shapes now v') eqn:E; [left; by exists r, v'|right; by eexists].
Qed.

(** A property of the vault that every committed closure state has is kept. *)
Lemma locked_mutate_keep {A} (P : Vault → Prop) now (f : Vault → result (A * Vault) StorageError) v :
  P v → (∀ r v', f v = Ok (r, v') → P v') → P (locked_mutate now f v).2.
Proof.
  intros Hv Hf. destruct (locked_mutate_cases now f v) as [(r & v' & H & _ & ->)|(e & ->)]; [|done].
  by eapply Hf.
Qed.

(** A denied or expired request. *)
Definition final (a : ApprovalRequest) : Prop :=
  ap_status a = AS_Denied ∨ ap_status a = AS_Expired.

(** Two records that differ in their progress only, and not there if it was final. *)
Definition same_but_progress (a a' : ApprovalRequest) : Prop :=
  run a' = run a ∧ opening a' = opening a ∧ (final a → progress a' = progress a).

Lemma same_but_progress_refl a : same_but_progress a a.
Proof. by repeat split. Qed.

Lemma same_but_progress_trans a b c :
  same_but_progress a b → same_but_progress b c → same_but_progress a c.
Proof.
  intros (H1 & H2 & H3) (H4 & H5 & H6). split_and!; [congruence|congruence|].
  intros Hf. rewrite H6; [by apply H3|]. unfold final in *. by rewrite (H3 Hf).
Qed.

Lemma final_not_open a : final a → is_open (ap_status a) = false.
Proof. by intros [E|E]; rewrite E. Qed.

Lemma transition_same now a to d : same_but_progress a (transition now a to d).2.
Proof.
  destruct (transition_effect now a to d) as [ |Ho|veto Hb Hst|Hto Hb Ho Hg].
  - apply same_but_progress_refl.
  - split_and!; [done|done|]. intros Hf%final_not_open. congruence.
  - unfold record_deny. assert (Hnf : ¬ final a).
    { intros Hf. destruct Hst as [Ho|[Ho _]]; [apply final_not_open in Hf; congruence|].
      destruct Hf as [E|E]; congruence. }
    destruct (terminal_deny a veto); by split_and!.
  - unfold record_approve. cbv zeta. assert (Hnf : ¬ final a)
      by (intros Hf%final_not_open; congruence).
    destruct (granted_by a _); by split_and!.
Qed.

Lemma advance_same now a : same_but_progress a (advance_lifecycle now a).2.
Proof.
  unfold advance_lifecycle. destruct (is_open (ap_status a)) eqn:Eo; cbn [negb];
    [|apply same_but_progress_refl].
  assert (Hnf : ¬ final a) by (intros Hf%final_not_open; congruence).
  destruct (_ <=? _); [by split_and!|]. destruct (_ && _); by split_and!.
Qed.

Lemma refresh_same now a : same_but_progress a (refresh now a).1.
Proof.
  unfold refresh. assert (H := advance_same now a).
  destruct (advance_lifecycle now a) as [[] a']; cbn [fst snd] in *; [|done|done].
  destruct (needs_reauth now a') eqn:En; [|done].
  apply (same_but_progress_trans a a'); [done|]. split_and!; [done|done|].
  apply needs_reauth_approved in En as [En _]. intros [E|E]; congruence.
Qed.

Lemma stage_event_same v subj ty v' :
  stage_event v subj ty = Ok v' → v_approvals v' = v_approvals v ∧ v_fence v' = v_fence v.
Proof. unfold stage_event. destruct (_ <=? _); [done|]. by intros [= <-]. Qed.

Lemma stage_events_same l v v' :
  stage_events v l = Ok v' → v_approvals v' = v_approvals v ∧ v_fence v' = v_fence v.
Proof.
  revert v. induction l as [|[subj ty] l IH]; intros v; simpl; [by intros [= <-]|].
  destruct (stage_event v subj ty) as [v1|] eqn:E; simpl; [|done].
  apply stage_event_same in E as [<- <-]. apply IH.
Qed.

(** What an operation other than a claim, a finalization or a heartbeat does to the
    record [id]: at most its progress changes. *)
Definition keeps_run (id : string) (v v' : Vault) : Prop :=
  ∀ a, record_of id v = Some a → ∃ a', record_of id v' = Some a' ∧ same_but_progress a a'.

Lemma keeps_run_refl id v : keeps_run id v v.
Proof. intros a Ha. exists a. split; [done|apply same_but_progress_refl]. Qed.

Lemma keeps_run_set id id' v a0 a1 :
  record_of id' v = Some a0 → same_but_progress a0 a1 → keeps_run id v (set_approval v id' a1).
Proof.
  intros H0 Hs a Ha. unfold record_of, set_approval in *. simpl. destruct (decide (id' = id)) as [->|Hne].
  - rewrite lookup_insert_eq. exists a1. split; [done|]. by simplify_eq.
  - rewrite lookup_insert_ne by done. exists a. split; [done|apply same_but_progress_refl].
Qed.

Lemma keeps_run_approvals id v v' v'' :
  v_approvals v'' = v_approvals v' → keeps_run id v v' → keeps_run id v v''.
Proof. intros E H a Ha. destruct (H a Ha) as (a' & ? & ?). exists a'. unfold record_of in *. by rewrite E. Qed.

Lemma sweep_loop_keeps now ids id v m evs :
  sweep_loop now ids (v_approvals v) = (m, evs) →
  keeps_run id v {| v_fence := v_fence v; v_approvals := m; v_pending_events := v_pending_events v |}.
Proof.
  revert v m evs. induction ids as [|i ids IH]; intros v m evs; cbn [sweep_loop].
  { intros [= <- <-]. apply (keeps_run_approvals id v v); [done|apply keeps_run_refl]. }
  destruct (v_approvals v !! i) as [a|] eqn:E; [|apply IH].
  assert (Hr := refresh_same now a).
  destruct (refresh now a) as [a' ev] eqn:Er. cbn [fst] in Hr.
  destruct (sweep_loop now ids _) as [m' evs'] eqn:El. intros [= <- <-].
  apply (IH (set_approval v i a')) in El. intros b Hb.
  destruct (keeps_run_set id i v a a' E Hr b Hb) as (b1 & Hb1 & Hs1).
  destruct (El b1 Hb1) as (b2 & Hb2 & Hs2). exists b2. split; [done|].
  by eapply same_but_progress_trans.
Qed.

(** An accepted approval was made on an open request. *)
Lemma approve_ok_open now a d : (approve now a d).1 = Ok tt → ¬ final a.
Proof.
  unfold approve, transition. cbv zeta. destruct (is_blank _); [done|].
  destruct (is_past_ttl now a); [done|].
  unfold delegate_veto. rewrite bool_decide_false by done. cbn [andb negb].
  rewrite andb_true_r. destruct (is_open (ap_status a)) eqn:Eo; cbn [negb]; [|done].
  intros _ Hf%final_not_open. congruence.
Qed.

Lemma decide_keeps now id id' yes channel who sod note grant pep cls ctrl veto v :
  keeps_run id v (decide_approval_atomic now id' yes channel who sod note grant pep cls ctrl veto v).2.
Proof.
  apply (locked_mutate_keep (keeps_run id v)); [apply keeps_run_refl|]. intros r v' H.
  destruct (v_approvals v !! id') as [a0|] eqn:E; [|done].
  destruct (_ && _); [done|]. cbv zeta in H. set (d := build_decision _ _ _ _ _ _ _) in H.
  assert (H1 := advance_same now a0). set (a1 := (advance_lifecycle now a0).2) in *.
  assert (Hs : same_but_progress a0 (if yes then approve now a1 d else deny now a1 d).2).
  { eapply same_but_progress_trans; [exact H1|]. destruct yes; apply transition_same. }
  assert (Hnf : yes = true → (approve now a1 d).1 = Ok tt → ¬ final a0).
  { intros _ Hok Hf. apply (approve_ok_open now a1 d Hok). unfold final in *.
    by rewrite (proj2 (proj2 H1) Hf). }
  destruct (if yes then approve now a1 d else deny now a1 d) as [[[]|e] a2] eqn:Ed; [|done].
  set (a3 := if yes && _ then _ else _) in *.
  assert (Hs3 : same_but_progress a0 a3).
  { unfold a3. destruct yes; cbn [andb]; [|done]. destruct (String.eqb _ _); [|done].
    destruct Hs as (Hr & Ho & _). split_and!; [done|done|].
    intros Hf. destruct Hnf; [done|by rewrite Ed|done]. }
  assert (Hk : keeps_run id v (set_approval v id' a3)) by (by eapply keeps_run_set).
  destruct (decision_event (ap_status a3)) as [ty|]; [|by injection H as _ <-].
  destruct (stage_event (set_approval v id' a3) (ap_id a3) ty) as [v''|] eqn:Es; [|done].
  injection H as _ <-. apply stage_event_same in Es as [Es _]. by eapply keeps_run_approvals.
Qed.

Lemma poll_keeps now id id' v : keeps_run id v (poll_refresh_approval now id' v).2.
Proof.
  unfold poll_refresh_approval. destruct (v_approvals v !! id') as [a0|] eqn:E; [|apply keeps_run_refl].
  destruct (approval_is_due now a0); cbn [negb]; [|apply keeps_run_refl].
  apply (locked_mutate_keep (keeps_run id v)); [apply keeps_run_refl|]. intros r v' H.
  rewrite E in H. assert (Hr := refresh_same now a0).
  destruct (refresh now a0) as [a1 ev]. cbn [fst] in Hr.
  assert (Hk : keeps_run id v (set_approval v id' a1)) by (by eapply keeps_run_set).
  destruct ev as [ty|]; [|by injection H as _ <-].
  destruct (stage_event (set_approval v id' a1) (ap_id a1) ty) as [v''|] eqn:Es; [|done].
  injection H as _ <-. apply stage_event_same in Es as [Es _]. by eapply keeps_run_approvals.
Qed.

Lemma sweep_keeps now id v : keeps_run id v (sweep_approval_lifecycle now v).2.
Proof.
  unfold sweep_approval_lifecycle. destruct (negb _); [apply keeps_run_refl|].
  apply (locked_mutate_keep (keeps_run id v)); [apply keeps_run_refl|]. intros r v' H. cbv zeta in H.
  destruct (sweep_loop now _ (v_approvals v)) as [m evs] eqn:El.
  apply (sweep_loop_keeps now _ id) in El.
  destruct (stage_events _ evs) as [v''|] eqn:Es; [|done]. injection H as _ <-.
  apply stage_events_same in Es as [Es _]. by eapply keeps_run_approvals.
Qed.

(** ** Claims *)

(** What a granted claim establishes. *)
Record claim_facts (now : DateTime) (v : Vault) (a : ApprovalRequest) (c : ExecutionClaim) : Prop := {
  cf_approved : ap_status a = AS_Approved;
  cf_unexecuted : ap_executed a = false;
  cf_fresh_reauth : needs_reauth now a = false;
  cf_no_veto : veto_pending now a = false;
  cf_epoch : next_epoch (ap_execution_epoch a) = Some (cl_epoch c);
  cf_grant : grant_witness_for_epoch now a (cl_epoch c) = Some (cl_grant c);
  cf_record : cl_approval c = claimed_record now a (cl_epoch c);
  cf_retake : cl_stale_retake c = ap_executing a;
  cf_stale : ap_executing a = true → stale_claim now a = true;
  cf_fence : ap_executing a = false →
             is_clear (kill_fence_check (v_fence v) (claim_query a)) = true;
}.

Lemma refusal_clear verdict : refusal_reason verdict = None ↔ is_clear verdict = true.
Proof. by destruct verdict. Qed.

(** The three outcomes of a claim on a record. *)
Lemma claim_body_cases now v id a r v' :
  claim_body now v id a = (r, v') →
  (r = None ∧ v' = v)
  ∨ (r = None ∧ ap_executing a = false ∧ ap_status a = AS_Approved
     ∧ ∃ reason, v' = set_approval v id (kill_finalized a reason))
  ∨ ∃ c, r = Some c ∧ claim_facts now v a c
       ∧ v' = set_approval v id (claimed_record now a (cl_epoch c)).
Proof.
  unfold claim_body. cbv zeta.
  destruct (bool_decide_reflect (ap_status a = AS_Approved)) as [Hst|]; cbn [negb orb];
    [|intros [= <- <-]; by left].
  destruct (ap_executed a) eqn:Ex; cbn [orb]; [intros [= <- <-]; by left|].
  destruct (ap_executing a && negb (stale_claim now a)) eqn:Es; cbn [orb]; [intros [= <- <-]; by left|].
  destruct (needs_reauth now a) eqn:En; cbn [orb]; [intros [= <- <-]; by left|].
  destruct (veto_pending now a) eqn:Ev; [intros [= <- <-]; by left|].
  assert (Hstale : ap_executing a = true → stale_claim now a = true).
  { intros E. rewrite E in Es. cbn [andb] in Es. by apply negb_false_iff in Es. }
  assert (Hret : ap_executing a && stale_claim now a = ap_executing a).
  { destruct (ap_executing a) eqn:E; [|done]. cbn [andb]. by apply Hstale. }
  rewrite Hret.
  destruct (if negb (ap_executing a) then _ else None) as [reason|] eqn:Ef.
  { intros [= <- <-]. right. left. destruct (ap_executing a); [done|]. eauto. }
  destruct (next_epoch (ap_execution_epoch a)) as [epoch|] eqn:Ee; [|intros [= <- <-]; by left].
  destruct (grant_witness_for_epoch now a epoch) as [g|] eqn:Eg; [|intros [= <- <-]; by left].
  intros [= <- <-]. right. right. eexists. split; [done|]. split; [|done].
  constructor; try done. cbn. intros E. rewrite E in Ef. cbn [negb] in Ef. by apply refusal_clear.
Qed.

Lemma claim_granted now id v c v' :
  claim_approval_for_execution now id v = (Ok (Some c), v') →
  ∃ a, record_of id v = Some a ∧ claim_facts now v a c
       ∧ v' = set_approval v id (claimed_record now a (cl_epoch c)).
Proof.
  unfold claim_approval_for_execution, locked_mutate, record_of.
  destruct (v_approvals v !! id) as [a|]; [|done].
  destruct (claim_body now v id a) as [r w] eqn:Ec.
  destruct (validate_primary_shapes now w); [|done]. intros [= -> ->].
  apply claim_body_cases in Ec as [[? _]|[[? _]|(c' & [= <-] & Hf & ->)]]; [done|done|]. eauto.
Qed.

(** A granted claim is an approved, unexecuted, unexpired and unvetoed request whose
    grant re-derives under the new epoch; a fresh one was not running and passed the
    kill fence; the stored record is marked as running under that epoch. *)
Theorem claim_is_fenced now id v c v' :
  claim_approval_for_execution now id v = (Ok (Some c), v') →
  ∃ a, record_of id v = Some a
    ∧ ap_status a = AS_Approved ∧ ap_executed a = false
    ∧ needs_reauth now a = false ∧ veto_pending now a = false
    ∧ cl_epoch c = ap_execution_epoch a + 1
    ∧ eb_epoch (gr_binding (cl_grant c)) = cl_epoch c
    ∧ eb_approval_id (gr_binding (cl_grant c)) = ap_id a
    ∧ (cl_stale_retake c = false → ap_executing a = false
       ∧ kill_fence_check (v_fence v) (claim_query a) = KF_Clear)
    ∧ ∃ a', record_of id v' = Some a' ∧ ap_executing a' = true
            ∧ ap_execution_epoch a' = cl_epoch c.
Proof.
  intros (a & Ha & [H1 H2 H3 H4 H5 H6 H7 H8 H9 H10] & ->)%claim_granted.
  exists a. unfold grant_witness_for_epoch in H6.
  apply grant_binding in H6 as (_ & Hid & Hep).
  apply u64_checked_add_spec in H5 as [H5 _]. split_and!; try done.
  - rewrite H8. intros E. split; [done|]. specialize (H10 E).
    by destruct (kill_fence_check (v_fence v) (claim_query a)).
  - exists (claimed_record now a (cl_epoch c)). unfold record_of. simpl.
    by rewrite lookup_insert_eq.
Qed.

(** ** Runs *)

Section runs.
Context (id : string) (may_store : Policy → Prop) (may_finalize : ApprovalRequest → Run → Prop).

(** What one step does to the execution fields of the record, with the claims it
    grants. *)
Inductive run_change (v : Vault) (a a' : ApprovalRequest) : list ExecutionClaim → Prop :=
| rc_same :
    ap_executing a' = ap_executing a → ap_executed a' = ap_executed a →
    ap_execution_epoch a' = ap_execution_epoch a → run_change v a a' []
| rc_final r :
    may_finalize a r →
    ap_executing a' = ap_executing r → ap_executed a' = ap_executed r →
    ap_execution_epoch a' = ap_execution_epoch a → run_change v a a' []
| rc_killed :
    ap_executing a = false → ap_status a = AS_Approved →
    ap_executing a' = false → ap_executed a' = true →
    ap_execution_epoch a' = ap_execution_epoch a → run_change v a a' []
| rc_claim now c :
    claim_facts now v a c →
    ap_executing a' = true → ap_executed a' = false →
    ap_execution_epoch a' = cl_epoch c → run_change v a a' [c].

(** How a step from [v] moves the record [a] of [id] to the vault [v']. *)
Definition record_moves (v : Vault) (a : ApprovalRequest) (l : list ExecutionClaim) (v' : Vault) : Prop :=
  ∃ a', record_of id v' = Some a' ∧ opening a' = opening a
        ∧ (final a → ap_status a' = ap_status a) ∧ run_change v a a' l.

Lemma keeps_run_change v v' a :
  keeps_run id v v' → record_of id v = Some a → record_moves v a [] v'.
Proof.
  intros Hk Ha. destruct (Hk a Ha) as (a' & Ha' & Hr & Ho & Hp). exists a'. split_and!; [done|done| |].
  - intros Hf. by rewrite (Hp Hf).
  - apply rc_same; by rewrite Hr.
Qed.

Lemma other_record id' v a b :
  id' ≠ id → record_of id v = Some a → record_of id (set_approval v id' b) = Some a.
Proof. intros Hne Ha. unfold record_of, set_approval. simpl. by rewrite lookup_insert_ne. Qed.

Lemma this_record v b : record_of id (set_approval v id b) = Some b.
Proof. unfold record_of, set_approval. simpl. by rewrite lookup_insert_eq. Qed.

Lemma same_record_change v v' a : record_of id v' = Some a → record_moves v a [] v'.
Proof. intros H. exists a. split_and!; [done|done|done|by apply rc_same]. Qed.

Lemma vstep_record v l v' a :
  vstep id may_store may_finalize v l v' → record_of id v = Some a → record_moves v a l v'.
Proof.
  intros Hs Ha.
  destruct Hs as [now b Hb|now id' Hne|now id' yes ch d pep veto|now id'|now|now id'
                 |now id' epoch r Hf|now id'|now|now p Hp|now pid].
  - apply (locked_mutate_keep (record_moves v a [])); [by apply same_record_change|].
    intros r w [= <- <-]. apply same_record_change. by apply other_record.
  - apply (locked_mutate_keep (record_moves v a [])); [by apply same_record_change|].
    intros r w H. destruct (v_approvals v !! id'); [|done]. injection H as _ <-.
    apply same_record_change. unfold record_of in *. simpl. by rewrite lookup_delete_ne.
  - eapply keeps_run_change; [apply decide_keeps|done].
  - eapply keeps_run_change; [apply poll_keeps|done].
  - eapply keeps_run_change; [apply sweep_keeps|done].
  - unfold claim_approval_for_execution.
    match goal with |- context [locked_mutate now ?f v] =>
      destruct (locked_mutate_cases now f v) as [(r & w & H & _ & ->)|(e & ->)] end;
      [|by apply same_record_change].
    destruct (v_approvals v !! id') as [b|] eqn:Eb; [|done]. injection H as H.
    cbn [fst snd granted_claims].
    apply claim_body_cases in H as [[-> ->]|[(-> & Hx & Hst & reason & ->)|(c & -> & Hf & ->)]];
      [by apply same_record_change| |]; destruct (decide (id' = id)) as [->|Hne].
    + unfold record_of in Ha. simplify_eq. exists (kill_finalized a reason).
      split_and!; [apply this_record|done|done|by apply rc_killed].
    + apply same_record_change. by apply other_record.
    + unfold record_of in Ha. simplify_eq. rewrite bool_decide_true by done.
      exists (claimed_record now a (cl_epoch c)). split_and!; [apply this_record|done|done|].
      eapply rc_claim; [done|done|apply Hf|done].
    + rewrite bool_decide_false by done. apply same_record_change. by apply other_record.
  - apply (locked_mutate_keep (record_moves v a [])); [by apply same_record_change|].
    intros x w H. destruct (v_approvals v !! id') as [b|] eqn:Eb; [|done].
    destruct (Z.eqb_spec (ap_execution_epoch b) epoch) as [Hep|]; cbn [negb] in H;
      injection H as _ <-; [|by apply same_record_change].
    destruct (decide (id' = id)) as [->|Hne]; [|by apply same_record_change, other_record].
    unfold record_of in Ha. simplify_eq. eexists. split_and!; [apply this_record|done|done|].
    eapply rc_final; [by apply Hf|done..].
  - apply (locked_mutate_keep (record_moves v a [])); [by apply same_record_change|].
    intros x w H. destruct (v_approvals v !! id') as [b|] eqn:Eb;
      [|injection H as _ <-; by apply same_record_change].
    destruct (_ && _); injection H as _ <-; [|by apply same_record_change].
    destruct (decide (id' = id)) as [->|Hne]; [|by apply same_record_change, other_record].
    unfold record_of in Ha. simplify_eq. eexists. split_and!; [apply this_record|done|done|by apply rc_same].
  - by apply same_record_change.
  - apply (locked_mutate_keep (record_moves v a [])); [by apply same_record_change|].
    intros r w [= <- <-]. by apply same_record_change.
  - apply (locked_mutate_keep (record_moves v a [])); [by apply same_record_change|].
    intros r w H. destruct (delete_policy _ _); [|done]. injection H as _ <-.
    by apply same_record_change.
Qed.
End runs.

(** *** At most once *)

(** The claims under which a worker runs the action; a stale re-take only finalizes. *)
Definition fresh_claims (l : list ExecutionClaim) : list ExecutionClaim :=
  List.filter (λ c, negb (cl_stale_retake c)) l.

Definition started (a : ApprovalRequest) : Prop := ap_executing a = true ∨ ap_executed a = true.

(** A worker that reports an outcome as executed. *)
Definition commits_outcome (_ : ApprovalRequest) (r : Run) : Prop := ap_executed r = true.

Lemma started_change v a a' l :
  run_change commits_outcome v a a' l → started a → started a' ∧ fresh_claims l = [].
Proof.
  unfold started. intros [H1 H2 _|r Hf H1 H2 _|H1 H2 H3 H4 _|now c Hf H1 H2 _] Hs.
  - by rewrite H1, H2.
  - rewrite H2, Hf. auto.
  - rewrite H4. auto.
  - rewrite H1. split; [auto|]. destruct Hs as [Hs|Hs]; [|by rewrite (cf_unexecuted _ _ _ _ Hf) in Hs].
    unfold fresh_claims. simpl. by rewrite (cf_retake _ _ _ _ Hf), Hs.
Qed.

Lemma any_change v a a' l :
  run_change commits_outcome v a a' l → (length (fresh_claims l) <= 1)%nat
  ∧ (fresh_claims l ≠ [] → started a').
Proof.
  unfold started. intros [H1 H2 _|r Hf H1 H2 _|H1 H2 H3 H4 _|now c Hf H1 H2 _];
    [split; [simpl; lia|done]..|].
  rewrite H1. split; [|auto]. unfold fresh_claims. simpl. destruct (negb _); simpl; lia.
Qed.

(** C4: If every worker that finalizes an approval reports an outcome, the approval's
    action is started at most once, by any number of processes polling, sweeping,
    deciding, re-taking stale claims and heartbeating in any order; once it has been
    started or finished, never again. *)
Theorem action_starts_at_most_once id may_store v l v' a :
  vsteps id may_store commits_outcome v l v' → record_of id v = Some a →
  (length (fresh_claims l) <= 1)%nat ∧ (started a → fresh_claims l = []).
Proof.
  intros Hr. revert a. induction Hr as [v|v v1 v2 l l' Hs _ IH]; intros a Ha; [split; [simpl; lia|done]|].
  apply (vstep_record id) with (a := a) in Hs as (a1 & Ha1 & _ & _ & Hc); [|done].
  destruct (IH a1 Ha1) as [IH1 IH2]. destruct (any_change _ _ _ _ Hc) as [H1 H2].
  unfold fresh_claims in *. rewrite List.filter_app, length_app.
  split.
  - destruct (List.filter _ l) as [|x xs] eqn:El; [done|].
    rewrite IH2 by (by apply H2). simpl in *. lia.
  - intros Hst. destruct (started_change _ _ _ _ Hc Hst) as [Hst' Hl].
    unfold fresh_claims in Hl. by rewrite Hl, IH2.
Qed.

(** *** The execution fence *)

Lemma epoch_change mf v a a' l :
  run_change mf v a a' l →
  ap_execution_epoch a <= ap_execution_epoch a'
  ∧ (l ≠ [] → ap_execution_epoch a < ap_execution_epoch a').
Proof.
  intros [_ _ H|r _ _ _ H|_ _ _ _ H|now c Hf _ _ H]; rewrite H; try (split; [lia|done]).
  assert (He := cf_epoch _ _ _ _ Hf). apply u64_checked_add_spec in He as [He _].
  split; [lia|intros _; lia].
Qed.

Lemma epoch_steps id ms mf v l v' a :
  vsteps id ms mf v l v' → record_of id v = Some a →
  ∃ a', record_of id v' = Some a' ∧ ap_execution_epoch a <= ap_execution_epoch a'
    ∧ (l ≠ [] → ap_execution_epoch a < ap_execution_epoch a').
Proof.
  intros Hr. revert a. induction Hr as [v|v v1 v2 l l' Hs _ IH]; intros a Ha.
  { exists a. split_and!; [done|lia|done]. }
  apply (vstep_record id) with (a := a) in Hs as (a1 & Ha1 & _ & _ & Hc); [|done].
  apply epoch_change in Hc as [H1 H2]. destruct (IH a1 Ha1) as (a2 & Ha2 & H3 & H4).
  exists a2. split_and!; [done|lia|]. intros Hne. destruct l as [|x l]; simpl in Hne.
  - specialize (H4 Hne). lia.
  - specialize (H2 ltac:(done)). lia.
Qed.

(** A worker whose claim was superseded cannot commit: once any later claim was
    granted, finalizing under the old epoch changes nothing, whatever happened since. *)
Theorem superseded_claim_cannot_commit id ms mf now0 v c v1 l v2 now r :
  claim_approval_for_execution now0 id v = (Ok (Some c), v1) →
  vsteps id ms mf v1 l v2 → l ≠ [] →
  (finalize_execution now id (cl_epoch c) r v2).2 = v2
  ∧ (finalize_execution now id (cl_epoch c) r v2).1 ≠ Ok true.
Proof.
  intros (a & Ha & Hf & ->)%claim_granted Hr Hl.
  destruct (epoch_steps id ms mf _ _ _ (claimed_record now0 a (cl_epoch c)) Hr) as (a2 & Ha2 & _ & H).
  { apply this_record. }
  specialize (H Hl). simpl in H. unfold finalize_execution, locked_mutate, record_of in *.
  rewrite Ha2. rewrite (proj2 (Z.eqb_neq _ _)) by lia. cbn [negb].
  by destruct (validate_primary_shapes now v2).
Qed.

(** *** Kills *)

(** The ways a step changes the fence. *)
Lemma locked_mutate_fence {A} now (f : Vault → result (A * Vault) StorageError) v :
  (∀ r v', f v = Ok (r, v') → v_fence v' = v_fence v) → v_fence (locked_mutate now f v).2 = v_fence v.
Proof. intros H. by apply (locked_mutate_keep (λ w, v_fence w = v_fence v)). Qed.

Lemma stage_opt_fence v a ty r w :
  (let? v'' := stage_event v a ty in Ok (r, v'')) = @Ok (ApprovalRequest * Vault) StorageError w →
  v_fence w.2 = v_fence v.
Proof.
  destruct (stage_event v a ty) as [v''|] eqn:E; simpl; [|done]. intros [= <-].
  by apply stage_event_same in E as [_ E].
Qed.

Lemma vstep_fence id ms mf v l v' :
  vstep id ms mf v l v' →
  v_fence v' = v_fence v
  ∨ (∃ now p, ms p ∧ v_fence v' = fence_step (v_fence v) (FO_store now p))
  ∨ (∃ pid, v_fence v' = fence_step (v_fence v) (FO_delete pid))
  ∨ (∃ now, v_fence v' = fence_step (v_fence v) (FO_gc now (live_admissions v))).
Proof.
  intros [now b Hb|now id' Hne|now id' yes ch d pep veto|now id'|now|now id'
         |now id' epoch r Hf|now id'|now|now p Hp|now pid].
  - left. apply locked_mutate_fence. by intros r w [= _ <-].
  - left. apply locked_mutate_fence. intros r w H. destruct (_ !! _); [|done]. by injection H as _ <-.
  - left. apply locked_mutate_fence. intros r w H. destruct (_ !! _) as [a0|]; [|done].
    destruct (_ && _); [done|]. cbv zeta in H.
    destruct (if yes then _ else _) as [[[]|e] a2]; [|done].
    destruct (decision_event _); [by apply stage_opt_fence in H|by injection H as _ <-].
  - left. unfold poll_refresh_approval. destruct (_ !! _) as [a0|]; [|done].
    destruct (negb _); [done|]. apply locked_mutate_fence. intros r w H.
    destruct (_ !! _) as [a1|]; [|done]. destruct (refresh now a1) as [a2 [ty|]];
      [by apply stage_opt_fence in H|by injection H as _ <-].
  - left. unfold sweep_approval_lifecycle. destruct (negb _); [done|].
    apply locked_mutate_fence. intros r w H. cbv zeta in H.
    destruct (sweep_loop _ _ _) as [m evs]. destruct (stage_events _ evs) as [v''|] eqn:Es; [|done].
    injection H as _ <-. by apply stage_events_same in Es as [_ Es].
  - left. apply locked_mutate_fence. intros r w H. destruct (_ !! _) as [a0|]; [|done].
    injection H as H. apply claim_body_cases in H
      as [[_ ->]|[(_ & _ & _ & reason & ->)|(c & _ & _ & ->)]]; done.
  - left. apply locked_mutate_fence. intros x w H. destruct (_ !! _) as [a0|]; [|done].
    destruct (negb _); by injection H as _ <-.
  - left. apply locked_mutate_fence. intros x w H. destruct (_ !! _) as [a0|]; [|by injection H as _ <-].
    destruct (_ && _); by injection H as _ <-.
  - right. right. right. by exists now.
  - unfold vault_store_policy, locked_mutate. destruct (validate_primary_shapes _ _); [|by left].
    right. left. by exists now, p.
  - unfold vault_delete_policy, locked_mutate. destruct (delete_policy (v_fence v) pid) as [f|e] eqn:E;
      [|by left]. destruct (validate_primary_shapes _ _); [|by left].
    right. right. left. exists pid. simpl. by rewrite E.
Qed.

(** A worker's report: it no longer holds the claim, and it reports an outcome unless it
    is the one that was running. *)
Definition honest_report (a : ApprovalRequest) (r : Run) : Prop :=
  ap_executing r = false
  ∧ (ap_executed r = true ∨ (ap_executing a = true ∧ ap_executed a = false)).

(** Later kills stored under the same id still cover the approval. *)
Definition keeps_scope (pid : string) (q : KillFenceQuery) (p : Policy) : Prop :=
  kill p = true → policy_id p = pid → policy_halts q p = true.

(** The approval can never be freshly claimed: the fence refuses it or it is over. *)
Definition doomed (pid id : string) (v : Vault) (a : ApprovalRequest) : Prop :=
  record_of id v = Some a
  ∧ (refused_by pid (claim_query a) (v_fence v) ∨ can_still_run a = false).

Lemma over_facts a :
  can_still_run a = false → ap_executing a = false ∧ (ap_executed a = true ∨ final a).
Proof.
  unfold can_still_run, final. destruct (ap_executing a); [done|]. cbn [orb]. intros H.
  split; [done|]. destruct (ap_executed a); [by left|right]. cbn [negb andb] in H.
  apply negb_false_iff, orb_true_iff in H. rewrite !bool_decide_eq_true in H. done.
Qed.

Lemma over_intro (a : ApprovalRequest) :
  ap_executing a = false → ap_executed a = true ∨ final a → can_still_run a = false.
Proof.
  intros H1 H2. unfold can_still_run. rewrite H1. cbn [orb]. destruct H2 as [->|[->| ->]]; [done|..];
    rewrite ?bool_decide_true by done; by destruct (ap_executed a).
Qed.

Lemma live_admissions_elem id v a :
  record_of id v = Some a → can_still_run a = true →
  kq_admitted_epoch (claim_query a) ∈ live_admissions v.
Proof.
  intros Ha Hc. unfold live_admissions.
  apply (list_elem_of_fmap_2 (λ a : ApprovalRequest, default 0 (ap_kill_epoch_at_open a))).
  apply elem_of_filter_bool. split; [|done]. apply list_elem_of_fmap. exists (id, a).
  split; [done|]. by apply elem_of_map_to_list.
Qed.

Lemma claim_query_opening (a a' : ApprovalRequest) : opening a' = opening a → claim_query a' = claim_query a.
Proof. intros H. unfold claim_query, policy_principal. by rewrite H. Qed.

Lemma over_step v a a' l :
  run_change honest_report v a a' l → (final a → ap_status a' = ap_status a) →
  can_still_run a = false → can_still_run a' = false ∧ fresh_claims l = [].
Proof.
  intros Hc Hfin [Hx He]%over_facts.
  assert (Hf' : final a → final a') by (intros Hf; unfold final in *; by rewrite (Hfin Hf)).
  destruct Hc as [H1 H2 _|r [Hr1 Hr2] H1 H2 _|H1 H2 H3 H4 _|now c Hf H1 H2 _].
  - split; [|done]. apply over_intro; [congruence|]. rewrite H2. tauto.
  - split; [|done]. apply over_intro; [congruence|]. rewrite H2.
    destruct Hr2 as [->|[Hr2 _]]; [by left|congruence].
  - split; [|done]. apply over_intro; auto.
  - exfalso. destruct He as [He|[He|He]]; [by rewrite (cf_unexecuted _ _ _ _ Hf) in He|..];
      by rewrite (cf_approved _ _ _ _ Hf) in He.
Qed.

Lemma doomed_step pid id v l v' a :
  kq_admitted_epoch (claim_query a) < u64_max →
  vstep id (keeps_scope pid (claim_query a)) honest_report v l v' → doomed pid id v a →
  fresh_claims l = [] ∧ ∃ a', doomed pid id v' a' ∧ opening a' = opening a.
Proof.
  intros Hmax Hs [Ha Hd]. assert (Hs' := Hs).
  apply (vstep_record id) with (a := a) in Hs as (a' & Ha' & Ho & Hfin & Hc); [|done].
  destruct (can_still_run a) eqn:Er.
  - destruct Hd as [Hd|]; [|done].
    assert (Hrf : refused_by pid (claim_query a) (v_fence v')).
    { destruct (vstep_fence _ _ _ _ _ _ Hs') as [->|[(now & p & Hp & ->)|[(x & ->)|(now & ->)]]]; [done|..];
        apply refused_step; try done. by eapply live_admissions_elem. }
    split.
    + destruct Hc as [| | |now c Hf _ _ _]; [done..|]. unfold fresh_claims. simpl.
      rewrite (cf_retake _ _ _ _ Hf). destruct (ap_executing a) eqn:Ex; [done|].
      assert (Hcl := cf_fence _ _ _ _ Hf Ex). apply refused_not_clear in Hd. congruence.
    + exists a'. split; [|done]. split; [done|]. left. by rewrite (claim_query_opening a a' Ho).
  - destruct (over_step _ _ _ _ Hc Hfin Er) as [H1 H2]. split; [done|].
    exists a'. split; [|done]. by split; [|right].
Qed.

(** C5: A kill reaches approvals: once a kill policy that matches an approval's principal
    and credential is stored, no worker ever starts the approved action again, in any
    execution, through lifts of the kill, garbage collection of kill marks, stale
    re-takes and released claims. *)
Theorem killed_approval_never_starts id p now v v1 l v2 a :
  record_of id v = Some a → fence_ok (v_fence v) →
  policy_halts (claim_query a) p = true →
  kq_admitted_epoch (claim_query a) <= kill_fence_epoch (v_fence v) →
  kq_admitted_epoch (claim_query a) < u64_max →
  vault_store_policy now p v = (Ok tt, v1) →
  vsteps id (keeps_scope (policy_id p) (claim_query a)) honest_report v1 l v2 →
  fresh_claims l = [].
Proof.
  intros Ha Hok Hh Hle Hmax Hst Hr.
  assert (Hd : doomed (policy_id p) id v1 a).
  { unfold vault_store_policy, locked_mutate in Hst.
    destruct (validate_primary_shapes _ _); [|done]. injection Hst as <-.
    split; [done|]. left. by apply store_kill_refuses. }
  clear Hst Ha Hok Hle Hh. remember (claim_query a) as q eqn:Eq. revert a Hd Eq.
  induction Hr as [w|w w1 w2 l l' Hs _ IH]; intros a Hd Eq; [done|]. subst q.
  destruct (doomed_step _ _ _ _ _ _ Hmax Hs Hd) as (Hl & a' & Hd' & Ho).
  unfold fresh_claims in *. rewrite List.filter_app, Hl. apply (IH a' Hd').
  symmetry. by apply claim_query_opening.
Qed.

(** *** A running claim past its window *)

Lemma needs_reauth_later now now' a :
  now <= now' → needs_reauth now a = true → needs_reauth now' a = true.
Proof.
  intros Hle. unfold needs_reauth. destruct (_ || _); [done|].
  destruct (ap_decided_at a) as [d|]; [|done]. rewrite !Z.ltb_lt.
  assert (num_seconds (now - d) <= num_seconds (now' - d)); [|lia].
  unfold num_seconds, nanos_per_sec. apply Z.quot_le_mono; lia.
Qed.

(** A record the commit check refuses. *)
Definition lapsed_running (a : ApprovalRequest) : Prop :=
  ap_executing a = true ∧ ap_status a = AS_Expired.

Lemma lapsed_running_invalid now a : lapsed_running a → is_ok (validate_vault_shape now a) = false.
Proof.
  intros [Hx Hst]. unfold validate_vault_shape. destruct (_ || _); [done|].
  destruct (_ || _); [done|]. destruct (signoffs_shape _); [|done]. cbn [result_bind].
  rewrite Hx. cbn [andb orb]. destruct (ap_executed a); [done|].
  destruct (negb _); [done|]. by rewrite bool_decide_false by congruence.
Qed.

Lemma lapsed_running_refuses now id v :
  (∃ a, record_of id v = Some a ∧ lapsed_running a) → validate_primary_shapes now v = false.
Proof.
  intros (a & Ha & Hl). unfold validate_primary_shapes.
  destruct (forallb _ _) eqn:E; [|done]. rewrite forallb_elem_of in E.
  specialize (E (id, a)). rewrite andb_true_iff in E. cbn in E.
  rewrite (lapsed_running_invalid now a Hl) in E. destruct E as [_ E]; [|done].
  by apply elem_of_map_to_list.
Qed.

Lemma refresh_lapsed now a :
  needs_reauth now a = true → refresh now a = (expire_reauth_lapsed a, Some EVENT_APPROVAL_EXPIRED).
Proof.
  intros Hn. assert (Hst := proj1 (needs_reauth_approved now a Hn)).
  unfold refresh, advance_lifecycle. rewrite Hst. cbn. by rewrite Hn.
Qed.

Lemma refresh_expired now (a : ApprovalRequest) : ap_status a = AS_Expired → refresh now a = (a, None).
Proof.
  intros Hst. unfold refresh, advance_lifecycle, needs_reauth. rewrite Hst. cbn.
  by rewrite bool_decide_false by congruence.
Qed.

Lemma sweep_loop_lapses now ids id m m' evs :
  sweep_loop now ids m = (m', evs) →
  (∃ a, m !! id = Some a
        ∧ (lapsed_running a ∨ (id ∈ ids ∧ ap_executing a = true ∧ needs_reauth now a = true))) →
  ∃ a, m' !! id = Some a ∧ lapsed_running a.
Proof.
  revert m m' evs. induction ids as [|i ids IH]; intros m m' evs; cbn [sweep_loop].
  { intros [= <- <-] (a & Ha & [Hl|[[]%elem_of_nil _]]). eauto. }
  intros Hs (a & Ha & Hor). destruct (decide (i = id)) as [->|Hne].
  - rewrite Ha in Hs. assert (Hb : lapsed_running (refresh now a).1).
    { destruct Hor as [Hl|(_ & Hx & Hn)]; [by rewrite refresh_expired by apply Hl|].
      rewrite refresh_lapsed by done. by split. }
    destruct (refresh now a) as [b ev]. cbn [fst] in Hb.
    destruct (sweep_loop now ids _) as [m1 evs1] eqn:El. injection Hs as <- _.
    eapply IH; [exact El|]. exists b. rewrite lookup_insert_eq. auto.
  - rewrite elem_of_cons in Hor. destruct (m !! i) as [b|].
    + destruct (refresh now b) as [b' ev]. destruct (sweep_loop now ids _) as [m1 evs1] eqn:El.
      injection Hs as <- _. eapply IH; [exact El|]. exists a. rewrite lookup_insert_ne by done.
      split; [done|]. naive_solver.
    + eapply IH; [exact Hs|]. exists a. naive_solver.
Qed.

Lemma locked_mutate_lapsed {A} now id (f : Vault → result (A * Vault) StorageError) v :
  (∀ r v', f v = Ok (r, v') → ∃ a, record_of id v' = Some a ∧ lapsed_running a) →
  is_ok (locked_mutate now f v).1 = false ∧ (locked_mutate now f v).2 = v.
Proof.
  intros Hf. unfold locked_mutate. destruct (f v) as [[r v']|e]; [|done].
  by rewrite (lapsed_running_refuses now id v' (Hf r v' eq_refl)).
Qed.

Lemma sweep_blocked id v (a : ApprovalRequest) now :
  record_of id v = Some a → ap_id a = id → ap_executing a = true → needs_reauth now a = true →
  is_ok (sweep_approval_lifecycle now v).1 = false ∧ (sweep_approval_lifecycle now v).2 = v.
Proof.
  intros Ha Hid Hx Hn. unfold record_of in Ha.
  assert (Hdue : approval_is_due now a = true) by (unfold approval_is_due; by rewrite Hn, orb_true_r).
  assert (Hin : a ∈ (map_to_list (v_approvals v)).*2).
  { apply list_elem_of_fmap. exists (id, a). split; [done|]. by apply elem_of_map_to_list. }
  unfold sweep_approval_lifecycle. rewrite (proj2 (existsb_elem_of _ _)) by eauto. cbn [negb].
  apply (locked_mutate_lapsed now id). intros r v' H. cbv zeta in H.
  destruct (sweep_loop now _ (v_approvals v)) as [m evs] eqn:El.
  destruct (stage_events _ evs) as [v''|] eqn:Es; [|done]. injection H as _ <-.
  apply stage_events_same in Es as [Es _]. unfold record_of. rewrite Es. simpl.
  eapply sweep_loop_lapses; [exact El|]. exists a. split; [done|]. right. split_and!; [|done|done].
  rewrite <- Hid. apply (list_elem_of_fmap_2 (λ a : ApprovalRequest, ap_id a)).
  apply elem_of_filter_bool. by rewrite Hn, orb_true_r.
Qed.

Lemma poll_blocked id v (a : ApprovalRequest) now :
  record_of id v = Some a → ap_executing a = true → needs_reauth now a = true →
  is_ok (poll_refresh_approval now id v).1 = false ∧ (poll_refresh_approval now id v).2 = v.
Proof.
  intros Ha Hx Hn. unfold record_of in Ha. unfold poll_refresh_approval. rewrite Ha.
  assert (Hdue : approval_is_due now a = true) by (unfold approval_is_due; by rewrite Hn, orb_true_r).
  rewrite Hdue. cbn [negb]. apply (locked_mutate_lapsed now id). intros r v'.
  rewrite Ha, refresh_lapsed by done. cbv zeta.
  destruct (stage_event _ _ _) as [v''|] eqn:Es; [|done]. cbn [result_bind]. intros [= _ <-].
  apply stage_event_same in Es as [Es _]. exists (expire_reauth_lapsed a).
  unfold record_of. rewrite Es. simpl. by rewrite lookup_insert_eq.
Qed.

Lemma claim_blocked id v (a : ApprovalRequest) now :
  record_of id v = Some a → needs_reauth now a = true →
  (∀ c, (claim_approval_for_execution now id v).1 ≠ Ok (Some c))
  ∧ (claim_approval_for_execution now id v).2 = v.
Proof.
  intros Ha Hn. unfold record_of in Ha. unfold claim_approval_for_execution, locked_mutate, claim_body.
  rewrite Ha. cbv zeta. rewrite Hn, !orb_true_r. cbn [orb].
  by destruct (validate_primary_shapes now v).
Qed.

(** An approval that is still marked as running when its re-authorization window has
    lapsed (its worker is slow, or was lost) blocks the lifecycle of the whole vault
    from then on: every sweep fails and changes nothing, so no other request is
    escalated or expired; polling the approval fails; and it can not be re-claimed, so
    nothing but its own worker's report can end the state. *)
Theorem lapsed_running_claim_blocks_the_sweep id v a now now' :
  record_of id v = Some a → ap_id a = id → ap_executing a = true →
  needs_reauth now a = true → now <= now' →
  (is_ok (sweep_approval_lifecycle now' v).1 = false ∧ (sweep_approval_lifecycle now' v).2 = v)
  ∧ (is_ok (poll_refresh_approval now' id v).1 = false ∧ (poll_refresh_approval now' id v).2 = v)
  ∧ (∀ c, (claim_approval_for_execution now' id v).1 ≠ Ok (Some c))
  ∧ (claim_approval_for_execution now' id v).2 = v.
Proof.
  intros Ha Hid Hx Hn Hle. apply (needs_reauth_later now now') in Hn; [|done].
  split; [by eapply sweep_blocked|]. split; [by eapply poll_blocked|by eapply claim_blocked].
Qed.
End execution.
