(* ===== verification/Egress.v ===== *)
(** * Egress: confining responses

    Models [src/src/egress.rs]: the spellings of a secret that are scrubbed
    ([derive_secret_forms]), the buffered pipeline ([confine_response]) with operator
    rules, and the incremental [StreamScrubber] for streamed bodies.

    A body is a list of bytes, a header value a string; [HashMap] headers are a
    [gmap].  The base64, hex, regex and URL-encoding crates and the JSON string encoder
    are parameters: nothing is assumed of them.  Zeroizing buffers has no effect on the
    bytes that are returned and is left out.

    Theorems: no declared form leaves through the buffered path, its headers, or a
    stream, whatever the chunking and the rules; a stream is safe only where no rule
    would have applied; the chunked scan equals the one-pass scan when no form is a
    prefix of another, and a secret that continues another one can be cut at a chunk
    boundary and its rest released. *)

From stdpp Require Import base gmap strings list sorting.
From Stdlib Require Import Ascii ZArith Lia.
From S2P Require Import Prelude RustStr UrlCanon.

(** ** The external crates *)

(** The encoders that spell a secret: base64 engines, hex, and
    [serde_json::to_string] of a string. *)
Class Encoders := {
  b64_standard : string → string;
  b64_standard_no_pad : string → string;
  b64_url_safe : string → string;
  b64_url_safe_no_pad : string → string;
  hex_encode : string → string;
  hex_encode_upper : string → string;
  json_string : string → option string;
}.

(** The [regex] crate: [Regex::replace_all] with a constant replacement. *)
Class RegexCrate := {
  Regex : Type;
  replace_all : Regex → string → string → string;
}.

(** ** Bytes *)

Definition bytes := list ascii.

(** [str::as_bytes] and [String::from_utf8] of bytes already known to be text. *)
Definition as_bytes : string → bytes := String.list_ascii_of_string.
Definition of_bytes : bytes → string := String.string_of_list_ascii.

(** [str::from_utf8(b).is_ok()]. *)
Definition is_utf8 (b : bytes) : bool := String.eqb (from_utf8_lossy (of_bytes b)) (of_bytes b).

Fixpoint bytes_prefix (n h : bytes) : bool :=
  match n, h with
  | [], _ => true
  | a :: n', b :: h' => Ascii.eqb a b && bytes_prefix n' h'
  | _ :: _, [] => false
  end.

(** [find_bytes]: some window of the haystack is the needle. *)
Fixpoint any_window (n h : bytes) : bool :=
  match h with
  | [] => false
  | _ :: h' => bytes_prefix n h || any_window n h'
  end.

Definition find_bytes (haystack needle : bytes) : bool :=
  match needle with [] => false | _ => any_window needle haystack end.

(** [replace_bytes]; [skip] counts the bytes of the current match still to pass. *)
Fixpoint replace_loop (skip : nat) (needle replacement h : bytes) : bytes * bool :=
  match h with
  | [] => ([], false)
  | b :: h' =>
      match skip with
      | S k => replace_loop k needle replacement h'
      | O =>
          if bytes_prefix needle h then
            let '(out, _) := replace_loop (length needle - 1) needle replacement h' in
            (replacement ++ out, true)
          else let '(out, hit) := replace_loop 0 needle replacement h' in (b :: out, hit)
      end
  end.

Definition replace_bytes (haystack needle replacement : bytes) : bytes * bool :=
  match needle with
  | [] => (haystack, false)
  | _ => if (length haystack <? length needle)%nat then (haystack, false)
         else replace_loop 0 needle replacement haystack
  end.

(** ** The spellings of a secret *)

Definition MIN_REDACT_LEN : nat := 5.
Definition BASE64_CORE_MIN_LEN : nat := 16.

(** [has_unredactable_secret]. *)
Definition has_unredactable_secret (secrets : list string) : bool :=
  existsb (λ s, String.length s <? MIN_REDACT_LEN)%nat secrets.

Definition hex_lower (d : nat) : ascii := lower_ascii (hex_upper d).

(** [percent_encode_safe]. *)
Definition percent_byte (upper : bool) (b : ascii) : string :=
  let h := if upper then hex_upper else hex_lower in
  let n := nat_of_ascii b in
  String "%" (String (h (n / 16)) (String (h (n mod 16)) "")).

Definition percent_safe (extra_safe : string) (b : ascii) : bool :=
  (nat_of_ascii b <? 128)%nat
  && (is_ascii_alphanumeric b || one_of ["-"; "_"; "."; "~"]%char b
      || contains_any (Ascii.eqb b) extra_safe).

Fixpoint percent_encode_safe (s extra_safe : string) (upper : bool) : string :=
  match s with
  | EmptyString => ""
  | String b s' =>
      (if percent_safe extra_safe b then String b "" else percent_byte upper b)
        +:+ percent_encode_safe s' extra_safe upper
  end.

(** [percent_hex_lower]; a byte pushed [as char] is the character of that code point,
    which takes two bytes from 128 on. *)
Definition byte_as_char (f : ascii → ascii) (b : ascii) (s : string) : string :=
  let n := nat_of_ascii b in
  if (n <? 128)%nat then String (f b) s
  else String (ascii_of_nat (192 + n / 64)) (String (ascii_of_nat (128 + n mod 64)) s).

Fixpoint percent_hex_lower (s : string) : string :=
  match s with
  | EmptyString => ""
  | String c s1 =>
      match s1 with
      | String h (String l s3) =>
          if Ascii.eqb c "%"
          then String "%" (byte_as_char lower_ascii h
                             (byte_as_char lower_ascii l (percent_hex_lower s3)))
          else byte_as_char id c (percent_hex_lower s1)
      | _ => byte_as_char id c (percent_hex_lower s1)
      end
  end.

(** [str::chars]: the code points of a UTF-8 string. *)
Fixpoint chars_from (skip : nat) (s : string) : list Z :=
  match s with
  | EmptyString => []
  | String a s1 =>
      match skip with
      | S k => chars_from k s1
      | O =>
          let at_ n := match String.get n s1 with
                       | Some b => (Z.of_nat (nat_of_ascii b) - 128)%Z
                       | None => 0%Z
                       end in
          let na := Z.of_nat (nat_of_ascii a) in
          match utf8_width (nat_of_ascii a) with
          | 2 => ((na - 192) * 64 + at_ 0%nat)%Z :: chars_from 1 s1
          | 3 => ((na - 224) * 4096 + at_ 0%nat * 64 + at_ 1%nat)%Z :: chars_from 2 s1
          | 4 => ((na - 240) * 262144 + at_ 0%nat * 4096 + at_ 1%nat * 64 + at_ 2%nat)%Z :: chars_from 3 s1
          | _ => na :: chars_from 0 s1
          end
      end
  end.

(** [json_unicode_escaped]: the escape of a code unit, then of a character. *)
Definition u_escape (upper : bool) (cp : Z) : string :=
  let h k := (if upper then hex_upper else hex_lower) (Z.to_nat (Z.land (Z.shiftr cp k) 15)) in
  String "\" (String "u" (String (h 12%Z) (String (h 8%Z) (String (h 4%Z) (String (h 0%Z) ""))))).

Definition json_escape_char (upper html_safe : bool) (cp : Z) : string :=
  let c := ascii_of_nat (Z.to_nat cp) in
  if (cp =? 34)%Z then String "\" (String (ascii_of_nat 34) "")
  else if (cp =? 92)%Z then "\\"
  else if (cp =? 10)%Z then "\n"
  else if (cp =? 13)%Z then "\r"
  else if (cp =? 9)%Z then "\t"
  else if html_safe && ((cp =? 60) || (cp =? 62) || (cp =? 38))%Z then u_escape upper cp
  else if ((32 <=? cp) && (cp <=? 126))%Z then String c ""
  else if (cp <=? 65535)%Z then u_escape upper cp
  else
    let v := (cp - 65536)%Z in
    u_escape upper (55296 + Z.shiftr v 10) +:+ u_escape upper (56320 + Z.land v 1023).

Definition json_unicode_escaped (s : string) (upper html_safe : bool) : string :=
  foldr (λ cp acc, json_escape_char upper html_safe cp +:+ acc) "" (chars_from 0 s).

(** [sort], [dedup] and the order of the forms. *)
Definition str_le (a b : string) : Prop := String.leb a b = true.
#[export] Instance str_le_dec : RelDecision str_le.
Proof. intros a b. unfold str_le. solve_decision. Defined.

Definition longer_first (a b : string) : Prop := (String.length b <= String.length a)%nat.
#[export] Instance longer_first_dec : RelDecision longer_first.
Proof. intros a b. unfold longer_first. solve_decision. Defined.

Fixpoint dedup (l : list string) : list string :=
  match l with
  | [] => []
  | x :: l' =>
      match l' with
      | y :: _ => if String.eqb x y then dedup l' else x :: dedup l'
      | [] => [x]
      end
  end.

Section forms.
Context {EC : UrlEncodingCrate} {EN : Encoders}.

(** [json_escaped_inner]. *)
Definition json_escaped_inner (s : string) : option string :=
  json ← json_string s;
  if (String.length json <? 2)%nat then None
  else Some (String.substring 1 (String.length json - 2) json).

(** The nested JSON spellings: two more levels of escaping. *)
Fixpoint json_levels (n : nat) (level : string) : list string :=
  match n with
  | O => []
  | S n' => match json_escaped_inner level with
            | Some next => next :: json_levels n' next
            | None => []
            end
  end.

(** The whole-group base64 cores at one alignment. *)
Definition base64_cores (raw : string) (shift : nat) : list string :=
  if (String.length raw <=? shift)%nat then []
  else
    let rest := String.substring shift (String.length raw - shift) raw in
    let core := String.substring 0 (String.length rest / 3 * 3) rest in
    if (String.length core / 3 * 4 <? BASE64_CORE_MIN_LEN)%nat then []
    else [b64_standard_no_pad core; b64_url_safe_no_pad core].

Definition percent_forms (raw : string) : list string :=
  let pct := url_encode raw in
  let pct_lower := percent_hex_lower pct in
  (if contains "%20" pct then [replace "%20" "+" pct; replace "%20" "+" pct_lower] else [])
  ++ (if negb (String.eqb pct_lower pct) then [pct_lower] else [])
  ++ [pct]
  ++ (safe ← ["!~*'()"; "/"; "$&+=:@"; "!$&'()*+,;=:@"];
      upper ← [true; false];
      [percent_encode_safe raw safe upper]).

Definition base64_forms (raw : string) : list string :=
  [b64_standard raw; b64_standard_no_pad raw; b64_url_safe raw; b64_url_safe_no_pad raw;
   hex_encode raw; hex_encode_upper raw]
  ++ (shift ← [0; 1; 2]%nat; base64_cores raw shift).

Definition json_forms (raw : string) : list string :=
  match json_escaped_inner raw with
  | Some escaped =>
      json_levels 2 escaped ++ json_levels 2 (replace "/" "\/" escaped)
      ++ (if contains "/" escaped then [replace "/" "\/" escaped] else [])
      ++ [escaped]
  | None => []
  end
  ++ (if contains "/" raw then [replace "/" "\/" raw] else []).

Definition unicode_forms (raw : string) : list string :=
  if negb (str_all (λ c, nat_of_ascii c <? 128)%nat raw)
     || contains_any (one_of ["<"; ">"; "&"]%char) raw
  then
    upper ← [false; true];
    html_safe ← [false; true];
    let esc := json_unicode_escaped raw upper html_safe in
    (if contains "/" esc then [replace "/" "\/" esc] else []) ++ [esc]
  else [].

(** The [add] closure: a form equal to the secret, or too short, adds nothing. *)
Definition worth_adding (raw candidate : string) : bool :=
  negb (String.eqb candidate raw) && (MIN_REDACT_LEN <=? String.length candidate)%nat.

Definition forms_of (raw : string) : list string :=
  if (String.length raw <? MIN_REDACT_LEN)%nat then []
  else raw :: List.filter (worth_adding raw)
                (percent_forms raw ++ base64_forms raw ++ json_forms raw ++ unicode_forms raw).

(** [derive_secret_forms]. *)
Definition derive_secret_forms (secrets : list string) : list string :=
  merge_sort longer_first (dedup (merge_sort str_le (secrets ≫= forms_of))).
End forms.

(** ** Buffered responses *)

(** [ExecuteResponse] without the refreshed credential it may carry. *)
Record ExecuteResponse := {
  resp_status : Z;
  resp_headers : gmap string string;
  resp_body : bytes;
}.

Definition set_body (r : ExecuteResponse) (b : bytes) : ExecuteResponse :=
  {| resp_status := resp_status r; resp_headers := resp_headers r; resp_body := b |}.
Definition set_headers (r : ExecuteResponse) (h : gmap string string) : ExecuteResponse :=
  {| resp_status := resp_status r; resp_headers := h; resp_body := resp_body r |}.

(** [scrub_header_values]: one value, then all. *)
Definition scrub_value (forms : list string) (marker v : string) : string * bool :=
  foldl (λ acc form, if contains form acc.1 then (replace form marker acc.1, true) else acc)
    (v, false) forms.

Definition header_values (h : gmap string string) : list string := (map_to_list h).*2.

Definition scrub_header_values (h : gmap string string) (forms : list string) (marker : string)
    : gmap string string * bool :=
  ((λ v, (scrub_value forms marker v).1) <$> h,
   existsb (λ v, (scrub_value forms marker v).2) (header_values h)).

Definition MARKER : string := "[REDACTED]".

(** [scrub_headers]. *)
Definition scrub_headers (h : gmap string string) (forms : list string)
    : gmap string string * bool := scrub_header_values h forms MARKER.

(** [confine_stream_headers]. *)
Definition confine_stream_headers (h : gmap string string) (forms : list string)
    : gmap string string * bool :=
  let '(h', modified) := scrub_headers h forms in
  let unsafe_after_scrub :=
    existsb (λ form, negb (is_empty form)
                     && existsb (λ v, find_bytes (as_bytes v) (as_bytes form)) (header_values h'))
      forms in
  if unsafe_after_scrub then (∅, true) else (h', modified).

(** [is_compression] and [headers_indicate_compression]. *)
Definition is_compression (value : string) : bool :=
  existsb (λ t, negb (is_empty t) && negb (eq_ignore_ascii_case t "identity")
                && negb (eq_ignore_ascii_case t "chunked"))
    (trim <$> split_char "," value).

Definition headers_indicate_compression (h : gmap string string) : bool :=
  existsb (λ e : string * string,
             (eq_ignore_ascii_case e.1 "content-encoding"
              || eq_ignore_ascii_case e.1 "transfer-encoding") && is_compression e.2)
    (map_to_list h).

Definition plain_text : gmap string string := {[ "Content-Type" := "text/plain" ]}.

(** [block_if_compressed]. *)
Definition block_if_compressed (r : ExecuteResponse) : bool * ExecuteResponse :=
  if headers_indicate_compression (resp_headers r) then
    (true, {| resp_status := resp_status r; resp_headers := plain_text;
              resp_body := as_bytes "[vultrino: response withheld - a compressed body could not be scrubbed for secrets]" |})
  else (false, r).

(** [strip_content_framing_headers]. *)
Definition strip_content_framing_headers (r : ExecuteResponse) : ExecuteResponse :=
  set_headers r
    (filter (λ e : string * string,
               eq_ignore_ascii_case e.1 "content-length" = false
               ∧ eq_ignore_ascii_case e.1 "transfer-encoding" = false) (resp_headers r)).

(** [withhold_unredactable]. *)
Definition withhold_unredactable (r : ExecuteResponse) : ExecuteResponse :=
  {| resp_status := resp_status r; resp_headers := ∅; resp_body := [] |}.

(** [response_contains_form]. *)
Definition response_contains_form (r : ExecuteResponse) (form : string) : bool :=
  (negb (is_empty form) && find_bytes (resp_body r) (as_bytes form))
  || existsb (λ v, negb (is_empty form) && find_bytes (as_bytes v) (as_bytes form))
       (header_values (resp_headers r)).

Section rules.
Context {RC : RegexCrate}.

(** [EgressRule]; a compiled glob is its [matches] method. *)
Record EgressRule := {
  er_credential_pattern : string → bool;
  er_action_pattern : string → bool;
  er_block : bool;
  er_redact_patterns : list Regex;
}.

(** [EgressRule::matches]. *)
Definition rule_matches (r : EgressRule) (alias act : string) : bool :=
  er_credential_pattern r alias && er_action_pattern r act.

Definition redact_all (ps : list Regex) (v : string) : string :=
  foldl (λ out re, replace_all re out "[REDACTED:egress]") v ps.

(** The header loop of [apply_egress]: whether any single replacement changed it. *)
Definition redact_value (ps : list Regex) (v : string) : string * bool :=
  foldl (λ acc re, let replaced := replace_all re acc.1 "[REDACTED:egress]" in
                   if String.eqb replaced acc.1 then acc else (replaced, true)) (v, false) ps.

(** [apply_egress]. *)
Definition apply_egress (r : ExecuteResponse) (rules : list EgressRule) (alias act : string)
    : bool * ExecuteResponse :=
  match List.find (λ rule, rule_matches rule alias act) rules with
  | None => (false, r)
  | Some rule =>
      if er_block rule then
        (true, {| resp_status := resp_status r; resp_headers := plain_text;
                  resp_body := as_bytes "[vultrino: response body withheld by egress policy (secret-bearing endpoint)]" |})
      else
        match er_redact_patterns rule with
        | [] => (false, r)
        | ps =>
            let out := as_bytes (redact_all ps (of_bytes (resp_body r))) in
            let body_changed := is_utf8 (resp_body r) && negb (bool_decide (out = resp_body r)) in
            (body_changed || existsb (λ v, (redact_value ps v).2) (header_values (resp_headers r)),
             {| resp_status := resp_status r;
                resp_headers := (λ v, (redact_value ps v).1) <$> resp_headers r;
                resp_body := if body_changed then out else resp_body r |})
        end
  end.

(** [stream_is_egress_safe]. *)
Definition stream_is_egress_safe (rules : list EgressRule) (alias act : string) : bool :=
  negb (existsb (λ r, rule_matches r alias act
                      && (er_block r || negb (bool_decide (length (er_redact_patterns r) = 0)%nat)))
          rules).

Context {EC : UrlEncodingCrate} {EN : Encoders}.

(** [redact_secret_material]. *)
Definition redact_secret_material (r : ExecuteResponse) (secrets : list string)
    : bool * ExecuteResponse :=
  let forms := derive_secret_forms secrets in
  let '(body, hit) :=
    foldl (λ acc form, let '(new_body, hit) := replace_bytes acc.1 (as_bytes form) (as_bytes MARKER) in
                       if hit then (new_body, true) else acc) (resp_body r, false) forms in
  let '(h, hit') := scrub_header_values (resp_headers r) forms MARKER in
  (hit || hit', {| resp_status := resp_status r; resp_headers := h; resp_body := body |}).

(** [scrub_response]. *)
Definition scrub_response (r : ExecuteResponse) (secrets : list string) (alias : string)
    (rules : list EgressRule) (act : string) : ExecuteResponse :=
  let '(withheld, r0) := block_if_compressed r in
  if withheld then r0
  else
    let '(redacted, r1) := redact_secret_material r0 secrets in
    let '(classified, r2) := apply_egress r1 rules alias act in
    if redacted || classified then strip_content_framing_headers r2 else r2.

(** The forms the final checks look for: the derived ones and every raw secret. *)
Definition checked_forms (secrets : list string) : list string :=
  dedup (merge_sort str_le (derive_secret_forms secrets ++ secrets)).

(** [diagnostic_may_contain_secret]. *)
Definition diagnostic_may_contain_secret (diagnostic : string) (secrets : list string) : bool :=
  if has_unredactable_secret secrets then true
  else existsb (λ form, find_bytes (as_bytes diagnostic) (as_bytes form)) (checked_forms secrets).

(** [scrub_set_with_minted]; the minted credential is its secret material. *)
Definition scrub_set_with_minted (secrets : list string) (minted : option (list string))
    : list string := match minted with Some m => secrets ++ m | None => secrets end.

(** [confine_response]. *)
Definition confine_response (r : ExecuteResponse) (secrets : list string) (alias : string)
    (rules : list EgressRule) (act : string) : ExecuteResponse :=
  if has_unredactable_secret secrets then withhold_unredactable r
  else
    let r' := scrub_response r secrets alias rules act in
    if existsb (response_contains_form r') (checked_forms secrets)
    then withhold_unredactable r' else r'.
End rules.

(** ** Streamed responses *)

(** [ScrubError]. *)
Inductive ScrubError := BufferOverflow | UnsafeOutput.

(** [StreamScrubber]. *)
Record StreamScrubber := {
  ss_forms : list bytes;
  ss_marker : bytes;
  ss_carry : bytes;
  ss_keep : nat;
  ss_released_tail : bytes;
  ss_max_buffer : nat;
  ss_failed : bool;
}.

Definition with_stream (s : StreamScrubber) (carry tail : bytes) (failed : bool) : StreamScrubber :=
  {| ss_forms := ss_forms s; ss_marker := ss_marker s; ss_carry := carry; ss_keep := ss_keep s;
     ss_released_tail := tail; ss_max_buffer := ss_max_buffer s; ss_failed := failed |}.

Definition max_len (forms : list bytes) : nat := foldr (λ f n, Nat.max (length f) n) 0%nat forms.

(** [StreamScrubber::new]. *)
Definition scrubber_new `{UrlEncodingCrate} `{Encoders} (secrets : list string) (max_buffer : nat)
    : StreamScrubber :=
  let forms := as_bytes <$> derive_secret_forms secrets in
  {| ss_forms := forms; ss_marker := as_bytes MARKER; ss_carry := [];
     ss_keep := max_len forms - 1; ss_released_tail := []; ss_max_buffer := max_buffer;
     ss_failed := false |}.

(** [StreamScrubber::is_noop]. *)
Definition is_noop (s : StreamScrubber) : bool := match ss_forms s with [] => true | _ => false end.

(** The first form, in the order of the list, that the text starts with. *)
Definition match_at (forms : list bytes) (text : bytes) : option nat :=
  find_map (λ f, if bytes_prefix f text then Some (length f) else None) forms.

(** The loop of [scrub_prefix] from index [i], with [rest] the bytes from there;
    [skip] counts the bytes of the current match still to pass.  Forms are not empty. *)
Fixpoint scrub_loop (forms : list bytes) (marker : bytes) (safe_end skip i : nat) (rest : bytes)
    : bytes * nat :=
  match rest with
  | [] => ([], i)
  | b :: rest' =>
      match skip with
      | S k => scrub_loop forms marker safe_end k (S i) rest'
      | O =>
          match match_at forms rest with
          | Some len =>
              let '(out, j) := scrub_loop forms marker safe_end (len - 1) (S i) rest' in
              (marker ++ out, j)
          | None =>
              if (safe_end <=? i)%nat then ([], i)
              else let '(out, j) := scrub_loop forms marker safe_end 0 (S i) rest' in (b :: out, j)
          end
      end
  end.

(** [scrub_prefix]. *)
Definition scrub_prefix (s : StreamScrubber) (buf : bytes) (safe_end : nat) : bytes * nat :=
  scrub_loop (ss_forms s) (ss_marker s) safe_end 0 0 buf.

(** [admit_output]. *)
Definition admit_output (s : StreamScrubber) (candidate : bytes)
    : result bytes ScrubError * StreamScrubber :=
  let boundary := ss_released_tail s ++ candidate in
  if existsb (find_bytes boundary) (ss_forms s)
  then (Err UnsafeOutput, with_stream s [] (ss_released_tail s) true)
  else (Ok candidate,
        with_stream s (ss_carry s) (drop (length boundary - ss_keep s) boundary) (ss_failed s)).

(** [push]. *)
Definition push (s : StreamScrubber) (chunk : bytes) : result bytes ScrubError * StreamScrubber :=
  if ss_failed s then (Err UnsafeOutput, s)
  else if is_noop s then (Ok chunk, s)
  else
    let working := ss_carry s ++ chunk in
    if (ss_max_buffer s <? length working)%nat
    then (Err BufferOverflow, with_stream s [] (ss_released_tail s) true)
    else
      let safe_end := (length working - ss_keep s)%nat in
      let '(out, consumed) := scrub_prefix s working safe_end in
      admit_output (with_stream s (drop consumed working) (ss_released_tail s) (ss_failed s)) out.

(** [finish]. *)
Definition finish (s : StreamScrubber) : result bytes ScrubError * StreamScrubber :=
  if ss_failed s then (Err UnsafeOutput, s)
  else if is_noop s || bool_decide (ss_carry s = []) then (Ok [], s)
  else
    let working := ss_carry s in
    let '(out, _) := scrub_prefix s working (length working) in
    admit_output (with_stream s [] (ss_released_tail s) (ss_failed s)) out.

(** [terminate_with]. *)
Definition terminate_with (s : StreamScrubber) (frame : bytes) : bytes * StreamScrubber :=
  let s' := with_stream s [] (ss_released_tail s) true in
  if is_noop s then (frame, s')
  else if existsb (find_bytes (ss_released_tail s ++ frame)) (ss_forms s) then ([], s')
  else (frame, s').

(** What a caller that follows the protocol of the server's producer loop releases,
    with every delivery succeeding: chunks until one fails; at a clean end of the
    upstream the rest of the carry; after a failure, a halt or a timeout a terminal
    frame. *)
Fixpoint push_all (s : StreamScrubber) (chunks : list bytes) : bytes * bool * StreamScrubber :=
  match chunks with
  | [] => ([], true, s)
  | c :: cs =>
      match push s c with
      | (Ok out, s') => let '(outs, ok, s'') := push_all s' cs in (out ++ outs, ok, s'')
      | (Err _, s') => ([], false, s')
      end
  end.

Definition stream (s : StreamScrubber) (chunks : list bytes) (eof : bool) (frame : bytes) : bytes :=
  let '(out, ok, s') := push_all s chunks in
  if ok && eof then
    match finish s' with
    | (Ok rest, _) => out ++ rest
    | (Err _, s'') => out ++ (terminate_with s'' frame).1
    end
  else out ++ (terminate_with s' frame).1.

(** ** Lemmas *)

(** A form occurs in a text. *)
Definition appears (f text : bytes) : Prop := ∃ a b, text = a ++ f ++ b.

Lemma bytes_prefix_spec n h : bytes_prefix n h = true ↔ ∃ b, h = n ++ b.
Proof.
  revert h. induction n as [|a n IH]; intros h; simpl.
  - split; [by exists h|done].
  - destruct h as [|b h]; [split; [done|by intros [? ?]]|].
    rewrite andb_true_iff, Ascii.eqb_eq, IH. split.
    + intros [-> [r ->]]. by exists r.
    + intros [r [= -> ->]]. split; [done|by exists r].
Qed.

Lemma find_bytes_spec h n : find_bytes h n = true ↔ n ≠ [] ∧ appears n h.
Proof.
  unfold find_bytes. destruct n as [|x n]; [by split; [|intros []]|].
  induction h as [|b h IH].
  - simpl. split; [done|]. intros [_ (a & r & H)]. by destruct a.
  - cbn [any_window]. rewrite orb_true_iff, bytes_prefix_spec, IH. split.
    + intros [[r ->]|[_ (a & r & ->)]]; (split; [done|]); [by exists [], r|by exists (b :: a), r].
    + intros [_ (a & r & H)]. destruct a as [|y a]; [left; by exists r|].
      right. injection H as -> ->. split; [done|]. by exists a, r.
Qed.

Lemma dedup_elem x l : x ∈ dedup l ↔ x ∈ l.
Proof.
  induction l as [|y l IH]; [done|]. destruct l as [|z l]; [done|].
  change (dedup (y :: z :: l)) with (if String.eqb y z then dedup (z :: l) else y :: dedup (z :: l)).
  destruct (String.eqb_spec y z) as [->|Hne].
  - rewrite IH, !elem_of_cons. naive_solver.
  - rewrite elem_of_cons, IH. by rewrite (elem_of_cons (z :: l)).
Qed.

Lemma sorted_elem R `{!RelDecision R} (x : string) l : x ∈ merge_sort R l ↔ x ∈ l.
Proof. by rewrite merge_sort_Permutation. Qed.

Lemma as_bytes_nonempty f : f ≠ "" → as_bytes f ≠ [].
Proof. by destruct f. Qed.

Lemma appears_nil f : f ≠ [] → ¬ appears f [].
Proof. intros Hf (a & b & H). destruct a; [by destruct f|done]. Qed.

Lemma header_values_elem (h : gmap string string) k v : h !! k = Some v → v ∈ header_values h.
Proof.
  intros H. apply list_elem_of_fmap. exists (k, v). split; [done|]. by apply elem_of_map_to_list.
Qed.

Lemma max_len_elem f forms : f ∈ forms → (length f <= max_len forms)%nat.
Proof.
  induction forms as [|g forms IH]; [by intros ?%elem_of_nil|].
  rewrite elem_of_cons. simpl. intros [->|Hf]; [lia|]. specialize (IH Hf). lia.
Qed.

Lemma length_as_bytes f : length (as_bytes f) = String.length f.
Proof. induction f as [|c f IH]; [done|]. simpl. by rewrite <- IH. Qed.

Section form_facts.
Context {EC : UrlEncodingCrate} {EN : Encoders}.

(** Every derived form is long enough, and every redactable secret is one of them. *)
Lemma derived_form_length secrets f :
  f ∈ derive_secret_forms secrets → (MIN_REDACT_LEN <= String.length f)%nat.
Proof.
  unfold derive_secret_forms. rewrite sorted_elem, dedup_elem, sorted_elem, list_elem_of_bind.
  intros (raw & Hf & _). unfold forms_of in Hf.
  destruct (Nat.ltb_spec (String.length raw) MIN_REDACT_LEN); [by apply elem_of_nil in Hf|].
  apply elem_of_cons in Hf as [->|Hf]; [done|].
  apply elem_of_filter_bool in Hf as [_ Hf]. unfold worth_adding in Hf.
  apply andb_true_iff in Hf as [_ Hf]. by apply Nat.leb_le.
Qed.

Lemma raw_is_derived secrets raw :
  raw ∈ secrets → (MIN_REDACT_LEN <= String.length raw)%nat → raw ∈ derive_secret_forms secrets.
Proof.
  intros Hin Hl. unfold derive_secret_forms. rewrite sorted_elem, dedup_elem, sorted_elem.
  apply list_elem_of_bind. exists raw. split; [|done]. unfold forms_of.
  destruct (Nat.ltb_spec (String.length raw) MIN_REDACT_LEN); [lia|]. constructor.
Qed.
End form_facts.

(** What has been released ends with the tail the scrubber keeps and contains no form. *)
Definition forms_ok (s : StreamScrubber) : Prop :=
  ∀ f, f ∈ ss_forms s → f ≠ [] ∧ (length f <= S (ss_keep s))%nat.

Definition stream_inv (s : StreamScrubber) (released : bytes) : Prop :=
  ss_forms s = []
  ∨ (forms_ok s
     ∧ ss_released_tail s = drop (length released - ss_keep s) released
     ∧ ∀ f, f ∈ ss_forms s → ¬ appears f released).

(** An occurrence that ends in the new bytes starts in the kept tail. *)
Lemma appears_across f keep (rel cand : bytes) :
  (length f <= S keep)%nat → ¬ appears f rel → appears f (rel ++ cand) →
  appears f (drop (length rel - keep) rel ++ cand).
Proof.
  intros Hl Hn (a & b & H).
  destruct (decide (length a + length f <= length rel)%nat) as [Hle|Hgt].
  - exfalso. apply Hn. exists a, (take (length rel - length (a ++ f)) b).
    apply (f_equal (take (length rel))) in H.
    rewrite take_app_length, (assoc_L (++)), take_app, take_ge in H by (rewrite length_app; lia).
    rewrite (assoc_L (++)). exact H.
  - exists (drop (length rel - keep) a), b.
    rewrite <- drop_app_le by lia. rewrite H. apply drop_app_le. lia.
Qed.

Lemma admit_output_inv s rel cand :
  stream_inv s rel → ss_forms s ≠ [] →
  match admit_output s cand with
  | (Ok out, s') => out = cand ∧ stream_inv s' (rel ++ out)
  | (Err _, s') => stream_inv s' rel
  end.
Proof.
  intros [?|(Hok & Ht & Hn)] Hne; [done|]. unfold admit_output. cbv zeta. rewrite Ht.
  set (tl := drop (length rel - ss_keep s) rel).
  destruct (existsb (find_bytes (tl ++ cand)) (ss_forms s)) eqn:E.
  - right. split_and!; [done|done|done].
  - split; [done|]. right. split_and!; [done| |].
    + cbn [ss_released_tail ss_keep with_stream]. unfold tl.
      rewrite <- drop_app_le, drop_drop by lia. f_equal. rewrite length_drop, !length_app. lia.
    + intros f Hf Ha. destruct (Hok f Hf) as [Hnil Hlen].
      apply (appears_across f (ss_keep s)) in Ha; [|done|by apply Hn].
      rewrite existsb_false_elem_of in E. specialize (E f Hf).
      apply not_true_iff_false in E. apply E, find_bytes_spec. done.
Qed.

Lemma stream_inv_carry s rel c b :
  stream_inv s rel → stream_inv (with_stream s c (ss_released_tail s) b) rel.
Proof. intros H. exact H. Qed.

Lemma is_noop_false s : is_noop s = false → ss_forms s ≠ [].
Proof. unfold is_noop. by destruct (ss_forms s). Qed.

Lemma push_inv s rel c :
  stream_inv s rel →
  match push s c with
  | (Ok out, s') => stream_inv s' (rel ++ out)
  | (Err _, s') => stream_inv s' rel
  end.
Proof.
  intros Hi. unfold push. destruct (ss_failed s); [done|].
  destruct (is_noop s) eqn:En.
  { left. unfold is_noop in En. by destruct (ss_forms s). }
  apply is_noop_false in En. cbv zeta.
  destruct (ss_max_buffer s <? _)%nat; [exact Hi|].
  destruct (scrub_prefix s (ss_carry s ++ c) _) as [out consumed].
  apply (stream_inv_carry s rel (drop consumed (ss_carry s ++ c)) false) in Hi.
  apply (admit_output_inv _ _ out) in Hi; [|done].
  destruct (admit_output _ out) as [[o|e] s']; [|done]. by destruct Hi as [_ Hi].
Qed.

Lemma finish_inv s rel :
  stream_inv s rel →
  match finish s with
  | (Ok out, s') => stream_inv s' (rel ++ out)
  | (Err _, s') => stream_inv s' rel
  end.
Proof.
  intros Hi. unfold finish. destruct (ss_failed s); [done|].
  destruct (is_noop s || _) eqn:En; [by rewrite app_nil_r|].
  apply orb_false_iff in En as [En _]. apply is_noop_false in En. cbv zeta.
  destruct (scrub_prefix s (ss_carry s) _) as [out consumed].
  apply (stream_inv_carry s rel [] false) in Hi. apply (admit_output_inv _ _ out) in Hi; [|done].
  destruct (admit_output _ out) as [[o|e] s']; [|done]. by destruct Hi as [_ Hi].
Qed.

Lemma push_all_inv s rel cs :
  stream_inv s rel →
  let '(out, _, s') := push_all s cs in stream_inv s' (rel ++ out).
Proof.
  revert s rel. induction cs as [|c cs IH]; intros s rel Hi; cbn [push_all]; [by rewrite app_nil_r|].
  apply (push_inv s rel c) in Hi. destruct (push s c) as [[o|e] s1]; [|by rewrite app_nil_r].
  specialize (IH s1 (rel ++ o) Hi). destruct (push_all s1 cs) as [[out ok] s'].
  by rewrite (assoc_L (++)).
Qed.

Lemma terminate_safe s rel frame f :
  stream_inv s rel → f ∈ ss_forms s → ¬ appears f (rel ++ (terminate_with s frame).1).
Proof.
  intros [Hnil|(Hok & Ht & Hn)] Hf; [rewrite Hnil in Hf; by apply elem_of_nil in Hf|].
  unfold terminate_with, is_noop. destruct (ss_forms s) as [|g gs] eqn:Ef; [by apply elem_of_nil in Hf|].
  rewrite <- Ef in *. destruct (existsb _ (ss_forms s)) eqn:E; cbn [fst].
  { rewrite app_nil_r. by apply Hn. }
  intros Ha. destruct (Hok f Hf) as [Hnn Hlen].
  apply (appears_across f (ss_keep s)) in Ha; [|done|by apply Hn].
  rewrite existsb_false_elem_of in E. specialize (E f Hf). apply not_true_iff_false in E.
  apply E, find_bytes_spec. by rewrite Ht.
Qed.

(** *** One pass over the whole text *)

(** The scan of a complete text: at every position the first form that matches is
    replaced, and scanning goes on behind it. *)
Fixpoint one_scan (forms : list bytes) (marker : bytes) (skip : nat) (text : bytes) : bytes :=
  match text with
  | [] => []
  | b :: text' =>
      match skip with
      | S k => one_scan forms marker k text'
      | O =>
          match match_at forms text with
          | Some len => marker ++ one_scan forms marker (len - 1) text'
          | None => b :: one_scan forms marker 0 text'
          end
      end
  end.

(** No form starts another one. *)
Definition prefix_free (forms : list bytes) : Prop :=
  ∀ f g r, f ∈ forms → g ∈ forms → g = f ++ r → g = f.

Lemma match_at_spec forms text len :
  match_at forms text = Some len →
  ∃ f r, f ∈ forms ∧ text = f ++ r ∧ len = length f.
Proof.
  unfold match_at. induction forms as [|f forms IH]; simpl; [done|].
  destruct (bytes_prefix f text) eqn:E.
  - intros [= <-]. apply bytes_prefix_spec in E as [r ->]. exists f, r. by repeat constructor.
  - intros H. destruct (IH H) as (g & r & Hg & H1 & H2). exists g, r. split; [by constructor|done].
Qed.

Lemma match_at_none forms text f r :
  match_at forms text = None → f ∈ forms → text ≠ f ++ r.
Proof.
  unfold match_at. induction forms as [|g forms IH]; simpl; [by intros _ ?%elem_of_nil|].
  destruct (bytes_prefix g text) eqn:E; [done|]. intros H. rewrite elem_of_cons.
  intros [->|Hf]; [|by apply IH]. intros Ht. apply not_true_iff_false in E.
  apply E, bytes_prefix_spec. by exists r.
Qed.

(** Two forms at one place are one form. *)
Lemma prefix_free_same forms f g r r' (t : bytes) :
  prefix_free forms → f ∈ forms → g ∈ forms → t = f ++ r → t = g ++ r' → f = g.
Proof.
  intros Hp Hf Hg Hr Hr'. rewrite Hr in Hr'.
  apply app_eq_inv in Hr' as [(k & -> & _)|(k & -> & _)].
  - by apply (Hp g (g ++ k) k).
  - symmetry. by apply (Hp f (f ++ k) k).
Qed.

Lemma match_at_extend forms rest more len :
  prefix_free forms → match_at forms rest = Some len → match_at forms (rest ++ more) = Some len.
Proof.
  intros Hp Hm. apply match_at_spec in Hm as (f & r & Hf & -> & ->).
  destruct (match_at forms ((f ++ r) ++ more)) as [len'|] eqn:E.
  - apply match_at_spec in E as (g & r' & Hg & Ht & ->). f_equal.
    rewrite <- (assoc_L (++)) in Ht. by rewrite (prefix_free_same forms f g _ _ _ Hp Hf Hg eq_refl Ht).
  - exfalso. eapply match_at_none; [exact E|exact Hf|]. by rewrite <- (assoc_L (++)).
Qed.

Lemma match_at_extend_none forms rest more k :
  (∀ f, f ∈ forms → (length f <= k)%nat) → (k <= length rest)%nat →
  match_at forms rest = None → match_at forms (rest ++ more) = None.
Proof.
  intros Hl Hk Hn. destruct (match_at forms (rest ++ more)) as [len|] eqn:E; [|done].
  apply match_at_spec in E as (f & r & Hf & Ht & _).
  exfalso. eapply match_at_none; [exact Hn|exact Hf|].
  specialize (Hl f Hf). apply (f_equal (take (length rest))) in Ht.
  rewrite take_app_length, take_app, take_ge in Ht by lia. exact Ht.
Qed.

Lemma one_scan_skip forms marker n (a b : bytes) :
  length a = n → one_scan forms marker n (a ++ b) = one_scan forms marker 0 b.
Proof. revert n. induction a as [|x a IH]; intros n <-; simpl; [by destruct b|]. by apply IH. Qed.

(** The chunked scan, whatever comes next, agrees with the scan of the whole text. *)
Lemma scrub_loop_one_scan forms marker keep total skip i rest out j :
  prefix_free forms → (∀ f, f ∈ forms → f ≠ [] ∧ (length f <= S keep)%nat) →
  (i + length rest = total)%nat → (skip <= length rest)%nat →
  scrub_loop forms marker (total - keep) skip i rest = (out, j) →
  (i <= j)%nat
  ∧ ∀ more, one_scan forms marker skip (rest ++ more)
            = out ++ one_scan forms marker 0 (drop (j - i) rest ++ more).
Proof.
  intros Hp Hf. revert skip i out j. induction rest as [|b rest IH]; intros skip i out j Hi Hs H.
  { simpl in *. injection H as <- <-. assert (skip = 0)%nat as -> by lia. split; [lia|].
    intros more. by rewrite Nat.sub_diag. }
  cbn [length] in Hi, Hs. cbn [scrub_loop] in H.
  assert (Hdrop : ∀ j', (S i <= j')%nat → drop (j' - i) (b :: rest) = drop (j' - S i) rest).
  { intros j' Hj. by replace (j' - i)%nat with (S (j' - S i)) by lia. }
  destruct skip as [|k]; cbn [app one_scan].
  2: { destruct (IH k (S i) out j) as [Hj Hm]; [lia|lia|done|]. split; [lia|].
       intros more. rewrite Hdrop by done. apply Hm. }
  destruct (match_at forms (b :: rest)) as [len|] eqn:Em.
  - destruct (scrub_loop forms marker (total - keep) (len - 1) (S i) rest) as [o j'] eqn:El.
    injection H as <- <-. assert (Hlen := Em). apply match_at_spec in Hlen as (f & r & _ & Ht & ->).
    assert (length f <= S (length rest))%nat.
    { apply (f_equal length) in Ht. rewrite length_app in Ht. simpl in Ht. lia. }
    destruct (IH (length f - 1)%nat (S i) o j') as [Hj Hm]; [lia|lia|done|]. split; [lia|].
    intros more. change (b :: rest ++ more) with ((b :: rest) ++ more).
    rewrite (match_at_extend forms (b :: rest) more (length f) Hp Em), Hdrop, Hm by done.
    by rewrite (assoc_L (++)).
  - destruct (Nat.leb_spec (total - keep) i) as [Hge|Hlt].
    + injection H as <- <-. split; [lia|]. intros more. rewrite Nat.sub_diag. done.
    + destruct (scrub_loop forms marker (total - keep) 0 (S i) rest) as [o j'] eqn:El.
      injection H as <- <-. destruct (IH 0%nat (S i) o j') as [Hj Hm]; [lia|lia|done|].
      split; [lia|]. intros more. change (b :: rest ++ more) with ((b :: rest) ++ more).
      rewrite (match_at_extend_none forms (b :: rest) more (S keep)), Hdrop, Hm by
        (done || (intros f Hin; by apply Hf) || (simpl; lia)). done.
Qed.

(** With everything in the buffer the loop is the one-pass scan. *)
Lemma scrub_loop_complete forms marker safe_end skip i rest :
  (i + length rest <= safe_end)%nat →
  (scrub_loop forms marker safe_end skip i rest).1 = one_scan forms marker skip rest.
Proof.
  revert skip i. induction rest as [|b rest IH]; intros skip i Hi; [done|].
  cbn [length] in Hi. cbn [scrub_loop one_scan]. destruct skip as [|k]; [|apply IH; lia].
  destruct (match_at forms (b :: rest)) as [len|].
  - rewrite <- (IH (len - 1)%nat (S i)) by lia. by destruct (scrub_loop _ _ _ _ _ _).
  - destruct (Nat.leb_spec safe_end i); [lia|]. rewrite <- (IH 0%nat (S i)) by lia.
    by destruct (scrub_loop _ _ _ _ _ _).
Qed.

Lemma one_scan_no_forms marker text : one_scan [] marker 0 text = text.
Proof. induction text as [|b text IH]; [done|]. cbn [one_scan]. simpl. by rewrite IH. Qed.

(** Two scrubbers for the same secrets. *)
Definition same_scrubber (s s' : StreamScrubber) : Prop :=
  ss_forms s' = ss_forms s ∧ ss_marker s' = ss_marker s ∧ ss_keep s' = ss_keep s
  ∧ ss_max_buffer s' = ss_max_buffer s.

Lemma admit_output_ok s cand out s' :
  admit_output s cand = (Ok out, s') →
  out = cand ∧ same_scrubber s s' ∧ ss_carry s' = ss_carry s ∧ ss_failed s' = ss_failed s.
Proof.
  unfold admit_output. cbv zeta. destruct (existsb _ _); [done|]. by intros [= <- <-].
Qed.

(** The state of a scrubber that has not failed. *)
Definition scrubber_ok (s : StreamScrubber) : Prop :=
  prefix_free (ss_forms s) ∧ forms_ok s ∧ (ss_forms s = [] → ss_carry s = []).

Lemma push_one_scan s c out s' :
  scrubber_ok s → push s c = (Ok out, s') →
  scrubber_ok s' ∧ same_scrubber s s'
  ∧ ∀ more, one_scan (ss_forms s) (ss_marker s) 0 (ss_carry s ++ c ++ more)
            = out ++ one_scan (ss_forms s) (ss_marker s) 0 (ss_carry s' ++ more).
Proof.
  intros (Hp & Hf & Hc) H. unfold push in H. destruct (ss_failed s); [done|].
  destruct (is_noop s) eqn:En.
  { injection H as <- <-. unfold is_noop in En. destruct (ss_forms s) eqn:Ef; [|done].
    split; [by split_and!; rewrite ?Ef|]. split; [done|]. intros more.
    by rewrite (Hc eq_refl), !one_scan_no_forms. }
  apply is_noop_false in En. cbv zeta in H. destruct (_ <? _)%nat; [done|].
  destruct (scrub_prefix s (ss_carry s ++ c) _) as [o consumed] eqn:Es.
  apply admit_output_ok in H as (-> & (H1 & H2 & H3 & H4) & Hcar & _). simpl in H1, H2, H3, H4, Hcar.
  unfold scrub_prefix in Es. apply (scrub_loop_one_scan _ _ (ss_keep s)) in Es as [_ Hm];
    [|done|done|done|lia].
  split; [|split; [done|]].
  - split_and!; [by rewrite H1|intros f; rewrite H1, H3; apply Hf|by rewrite H1].
  - intros more. rewrite (assoc_L (++)), Hm, Hcar, Nat.sub_0_r. done.
Qed.

Lemma push_all_one_scan s cs out s' :
  scrubber_ok s → push_all s cs = (out, true, s') →
  scrubber_ok s' ∧ same_scrubber s s'
  ∧ ∀ more, one_scan (ss_forms s) (ss_marker s) 0 (ss_carry s ++ concat cs ++ more)
            = out ++ one_scan (ss_forms s) (ss_marker s) 0 (ss_carry s' ++ more).
Proof.
  revert s out. induction cs as [|c cs IH]; intros s out Hs H; cbn [push_all] in H.
  { by injection H as <- <-. }
  destruct (push s c) as [[o|e] s1] eqn:Ep; [|done].
  destruct (push_all s1 cs) as [[outs ok] s2] eqn:Ea. injection H as <- -> ->.
  apply push_one_scan in Ep as (Hs1 & (E1 & E2 & E3 & E4) & Hm1); [|done].
  apply IH in Ea as (Hs2 & (F1 & F2 & F3 & F4) & Hm2); [|done].
  split; [done|]. split; [split_and!; congruence|].
  intros more. cbn [concat]. rewrite <- (assoc_L (++)), Hm1, <- (assoc_L (++)). f_equal.
  rewrite <- E1, <- E2. apply Hm2.
Qed.

Lemma finish_one_scan s out s' :
  scrubber_ok s → finish s = (Ok out, s') →
  out = one_scan (ss_forms s) (ss_marker s) 0 (ss_carry s).
Proof.
  intros (_ & _ & Hc) H. unfold finish in H. destruct (ss_failed s); [done|].
  destruct (is_noop s || _) eqn:En.
  - injection H as <- _. apply orb_true_iff in En as [En|En].
    + unfold is_noop in En. destruct (ss_forms s); [|done]. by rewrite Hc.
    + apply bool_decide_eq_true in En. by rewrite En.
  - cbv zeta in H. destruct (scrub_prefix s (ss_carry s) _) as [o k] eqn:Es.
    apply admit_output_ok in H as (-> & _). unfold scrub_prefix in Es.
    rewrite <- (scrub_loop_complete _ _ (length (ss_carry s)) 0 0) by lia. by rewrite Es.
Qed.

(** ** Theorems *)

Section theorems.
Context {RC : RegexCrate} {EC : UrlEncodingCrate} {EN : Encoders}.

Lemma withheld_is_empty r form :
  form ≠ "" →
  ¬ appears (as_bytes form) (resp_body (withhold_unredactable r))
  ∧ ∀ k v, resp_headers (withhold_unredactable r) !! k = Some v → ¬ appears (as_bytes form) (as_bytes v).
Proof.
  intros Hf. split; [apply appears_nil; by apply as_bytes_nonempty|].
  intros k v H. simpl in H. by rewrite lookup_empty in H.
Qed.

(** The buffered boundary blocks whatever still shows a checked form. *)
Lemma confine_shows_no_form r secrets alias rules act form :
  form ∈ derive_secret_forms secrets ∨ form ∈ secrets → form ≠ "" →
  let r' := confine_response r secrets alias rules act in
  ¬ appears (as_bytes form) (resp_body r')
  ∧ ∀ k v, resp_headers r' !! k = Some v → ¬ appears (as_bytes form) (as_bytes v).
Proof.
  intros Hin Hne. cbv zeta. unfold confine_response.
  destruct (has_unredactable_secret secrets); [by apply withheld_is_empty|]. cbv zeta.
  set (r' := scrub_response r secrets alias rules act).
  destruct (existsb (response_contains_form r') (checked_forms secrets)) eqn:E;
    [by apply withheld_is_empty|].
  rewrite existsb_false_elem_of in E. specialize (E form).
  assert (Hc : form ∈ checked_forms secrets).
  { unfold checked_forms. by rewrite dedup_elem, sorted_elem, elem_of_app. }
  specialize (E Hc). unfold response_contains_form in E.
  apply orb_false_iff in E as [Eb Eh].
  assert (He : is_empty form = false) by (by destruct form).
  rewrite He in Eb, Eh. cbn [negb andb] in Eb, Eh. apply as_bytes_nonempty in Hne. split.
  - intros Ha. apply not_true_iff_false in Eb. apply Eb, find_bytes_spec. done.
  - intros k v Hv Ha. rewrite existsb_false_elem_of in Eh.
    specialize (Eh v (header_values_elem _ k v Hv)). apply not_true_iff_false in Eh.
    apply Eh, find_bytes_spec. done.
Qed.

(** A response released through the buffered boundary shows no declared spelling of a
    secret, nor the secret itself, in its body or in any header value, whatever the
    operator's rules and the encoders and regular expressions do. *)
Theorem confined_response_shows_no_form r secrets alias rules act form :
  form ∈ derive_secret_forms secrets ∨ form ∈ secrets → form ≠ "" →
  let r' := confine_response r secrets alias rules act in
  ¬ appears (as_bytes form) (resp_body r')
  ∧ ∀ k v, resp_headers r' !! k = Some v → ¬ appears (as_bytes form) (as_bytes v).
Proof. apply confine_shows_no_form. Qed.

(** The headers of a streamed response show no form either. *)
Theorem confined_headers_show_no_form h forms form k v :
  form ∈ forms → form ≠ "" → (confine_stream_headers h forms).1 !! k = Some v →
  ¬ appears (as_bytes form) (as_bytes v).
Proof.
  intros Hin Hne. unfold confine_stream_headers. destruct (scrub_headers h forms) as [h' m].
  cbv zeta. destruct (existsb _ forms) eqn:E; cbn [fst]; [by rewrite lookup_empty|].
  intros Hv Ha. rewrite existsb_false_elem_of in E. specialize (E form Hin).
  assert (He : is_empty form = false) by (by destruct form). rewrite He in E. cbn [negb andb] in E.
  rewrite existsb_false_elem_of in E. specialize (E v (header_values_elem _ k v Hv)).
  apply not_true_iff_false in E. apply E, find_bytes_spec.
  split; [by apply as_bytes_nonempty|done].
Qed.

(** A fresh scrubber has released nothing. *)
Lemma scrubber_new_forms_ok secrets max_buffer : forms_ok (scrubber_new secrets max_buffer).
Proof.
  intros f Hf. pose proof (max_len_elem f _ Hf). unfold scrubber_new in *.
  cbn [ss_forms ss_keep] in *. split; [|lia].
  apply list_elem_of_fmap in Hf as (g & -> & Hg). apply derived_form_length in Hg.
  apply as_bytes_nonempty. intros ->. unfold MIN_REDACT_LEN in Hg. simpl in Hg. lia.
Qed.

Lemma scrubber_new_inv secrets max_buffer : stream_inv (scrubber_new secrets max_buffer) [].
Proof.
  right. split_and!; [apply scrubber_new_forms_ok|done|]. intros f Hf.
  apply appears_nil. by apply (scrubber_new_forms_ok secrets max_buffer f Hf).
Qed.

(** Whatever the scrubber does, its forms stay. *)
Lemma admit_output_forms s c : ss_forms (admit_output s c).2 = ss_forms s.
Proof. unfold admit_output. cbv zeta. by destruct (existsb _ _). Qed.

Lemma push_forms s c : ss_forms (push s c).2 = ss_forms s.
Proof.
  unfold push. destruct (ss_failed s), (is_noop s); try done. cbv zeta.
  destruct (_ <? _)%nat; [done|]. destruct (scrub_prefix _ _ _). by rewrite admit_output_forms.
Qed.

Lemma finish_forms s : ss_forms (finish s).2 = ss_forms s.
Proof.
  unfold finish. destruct (ss_failed s); [done|]. destruct (is_noop s || _); [done|]. cbv zeta.
  destruct (scrub_prefix _ _ _). by rewrite admit_output_forms.
Qed.

Lemma push_all_forms s cs : ss_forms (push_all s cs).2 = ss_forms s.
Proof.
  revert s. induction cs as [|c cs IH]; intros s; cbn [push_all]; [done|].
  pose proof (push_forms s c) as Hp. destruct (push s c) as [[o|e] s1]; [|done].
  specialize (IH s1). destruct (push_all s1 cs) as [[out ok] s2]. simpl in *. congruence.
Qed.

(** A released stream contains no form. *)
Lemma inv_shows_no_form s rel f : stream_inv s rel → f ∈ ss_forms s → ¬ appears f rel.
Proof. intros [H|(_ & _ & H)] Hf; [rewrite H in Hf; by apply elem_of_nil in Hf|by apply H]. Qed.

(** Whatever the upstream sends, however it is cut into chunks, and whether the stream
    ends by itself, fails, or is cut with a terminal frame: no declared spelling of a
    secret appears anywhere in the bytes forwarded, chunk boundaries included. *)
Theorem stream_never_releases_a_form secrets max_buffer chunks eof frame form :
  form ∈ derive_secret_forms secrets →
  ¬ appears (as_bytes form) (stream (scrubber_new secrets max_buffer) chunks eof frame).
Proof.
  intros Hin. set (s := scrubber_new secrets max_buffer).
  assert (Hf : as_bytes form ∈ ss_forms s) by (apply list_elem_of_fmap; by exists form).
  pose proof (push_all_inv s [] chunks (scrubber_new_inv secrets max_buffer)) as Hi.
  pose proof (push_all_forms s chunks) as Hs. unfold stream.
  destruct (push_all s chunks) as [[out ok] s1]. cbn [snd app] in Hs, Hi. rewrite <- Hs in Hf.
  destruct (ok && eof); [|by apply terminate_safe].
  pose proof (finish_inv s1 out Hi) as Hi2. pose proof (finish_forms s1) as Hs2.
  destruct (finish s1) as [[rest|e] s2]; simpl in Hs2; rewrite <- Hs2 in Hf.
  - by apply (inv_shows_no_form s2).
  - by apply terminate_safe.
Qed.

(** Chunking does not matter: a stream that ends without an error carries exactly the
    one-pass scan of the whole body, when no spelling is the start of another one. *)
Theorem chunking_does_not_matter secrets max_buffer chunks out rest s' s'' :
  let s := scrubber_new secrets max_buffer in
  prefix_free (ss_forms s) →
  push_all s chunks = (out, true, s') → finish s' = (Ok rest, s'') →
  out ++ rest = one_scan (ss_forms s) (as_bytes MARKER) 0 (concat chunks).
Proof.
  cbv zeta. set (s := scrubber_new secrets max_buffer). intros Hp Ha Hfin.
  assert (Hok : scrubber_ok s) by (split_and!; [done|apply scrubber_new_forms_ok|done]).
  apply push_all_one_scan in Ha as (Hok' & (E1 & E2 & _) & Hm); [|done].
  apply finish_one_scan in Hfin; [|done]. specialize (Hm []).
  rewrite !app_nil_r in Hm. rewrite E1, E2 in Hfin. rewrite Hfin. symmetry. exact Hm.
Qed.

(** A text no form occurs in is passed unchanged. *)
Lemma match_at_absent forms text :
  (∀ f, f ∈ forms → ¬ appears f text) → match_at forms text = None.
Proof.
  intros H. destruct (match_at forms text) as [n|] eqn:E; [|done].
  apply match_at_spec in E as (f & r & Hf & -> & _). exfalso. apply (H f Hf). by exists [], r.
Qed.

Lemma appears_app_r f a b : appears f b → appears f (a ++ b).
Proof. intros (x & y & ->). exists (a ++ x), y. by rewrite (assoc_L (++)). Qed.

Lemma one_scan_absent forms marker text :
  (∀ f, f ∈ forms → ¬ appears f text) → one_scan forms marker 0 text = text.
Proof.
  induction text as [|b text IH]; intros H; [done|]. cbn [one_scan].
  rewrite match_at_absent by done. rewrite IH; [done|].
  intros f Hf Ha. apply (H f Hf). by apply (appears_app_r f [b]).
Qed.

(** Output that shows no form is let through. *)
Lemma admit_output_clean s cand :
  (∀ f, f ∈ ss_forms s → ¬ appears f (ss_released_tail s ++ cand)) →
  admit_output s cand
  = (Ok cand, let b := ss_released_tail s ++ cand in
              with_stream s (ss_carry s) (drop (length b - ss_keep s) b) (ss_failed s)).
Proof.
  intros H. unfold admit_output. cbv zeta. rewrite (proj2 (existsb_false_elem_of _ _)); [done|].
  intros f Hf. apply not_true_iff_false. intros [_ Ha]%find_bytes_spec. by apply (H f Hf).
Qed.

(** The loop on a buffer that is one form, all of it in the danger zone. *)
Lemma scrub_loop_skip forms marker safe_end i (text : bytes) :
  scrub_loop forms marker safe_end (length text) i text = ([], i + length text)%nat.
Proof.
  revert i. induction text as [|b text IH]; intros i; simpl; [f_equal; lia|].
  rewrite IH. f_equal. lia.
Qed.

Lemma scrub_loop_form forms marker safe_end (f : bytes) :
  f ≠ [] → match_at forms f = Some (length f) →
  scrub_loop forms marker safe_end 0 0 f = (marker, length f).
Proof.
  intros Hne Hm. destruct f as [|b f]; [done|]. cbn [scrub_loop]. rewrite Hm.
  cbn [length]. rewrite Nat.sub_succ, Nat.sub_0_r, scrub_loop_skip. by rewrite app_nil_r.
Qed.

(** A chunk that is exactly one form is replaced at once. *)
Lemma elem_not_noop s f : f ∈ ss_forms s → is_noop s = false.
Proof. unfold is_noop. destruct (ss_forms s); [by intros ?%elem_of_nil|done]. Qed.

Lemma push_whole_form s f :
  f ≠ [] → ss_carry s = [] → ss_released_tail s = [] → ss_failed s = false →
  (length f <= ss_max_buffer s)%nat → match_at (ss_forms s) f = Some (length f) →
  (∀ g, g ∈ ss_forms s → ¬ appears g (ss_marker s)) →
  push s f = (Ok (ss_marker s),
              with_stream s [] (drop (length (ss_marker s) - ss_keep s) (ss_marker s)) false).
Proof.
  intros Hf Hc Ht Hb Hmax Hm Ha. unfold push. rewrite Hb.
  assert (En : is_noop s = false).
  { apply match_at_spec in Hm as (g & _ & Hg & _). by apply (elem_not_noop s g). }
  rewrite En, Hc. cbv zeta. cbn [app]. destruct (Nat.ltb_spec (ss_max_buffer s) (length f)); [lia|].
  unfold scrub_prefix. rewrite scrub_loop_form, drop_all by done.
  rewrite admit_output_clean; cbn [ss_forms ss_released_tail ss_carry ss_failed ss_keep with_stream];
    rewrite Ht; [done|exact Ha].
Qed.

(** The second chunk: its start is not a form, and all of it is in the danger zone. *)
Lemma push_rest s f r :
  f ≠ [] → r ≠ [] → (f ++ r) ∈ ss_forms s → forms_ok s →
  ss_carry s = [] → ss_failed s = false → (length r <= ss_max_buffer s)%nat →
  (∀ g, g ∈ ss_forms s → ¬ appears g (ss_released_tail s ++ r)) →
  ∃ s', push s r = (Ok [], s') ∧ finish s' = (Ok r, (finish s').2).
Proof.
  intros Hf Hr Hin Hok Hc Hb Hmax Ha. destruct (Hok _ Hin) as [_ Hl]. rewrite length_app in Hl.
  assert (length f ≠ 0)%nat by (by destruct f).
  pose proof (elem_not_noop s _ Hin) as En.
  assert (Hr' : ∀ g, g ∈ ss_forms s → ¬ appears g r).
  { intros g Hg Hg'. apply (Ha g Hg). by apply appears_app_r. }
  assert (Ht : ∀ g, g ∈ ss_forms s → ¬ appears g (ss_released_tail s ++ [])).
  { intros g Hg (a & b & E). rewrite app_nil_r in E. apply (Ha g Hg). exists a, (b ++ r).
    by rewrite E, <- !(assoc_L (++)). }
  unfold push. rewrite Hb, En, Hc. cbv zeta. cbn [app].
  destruct (Nat.ltb_spec (ss_max_buffer s) (length r)); [lia|].
  replace (length r - ss_keep s)%nat with 0%nat by lia.
  assert (Hs : scrub_prefix s r 0 = ([], 0%nat)).
  { unfold scrub_prefix. destruct r as [|b r]; [done|]. cbn [scrub_loop]. by rewrite match_at_absent. }
  rewrite Hs, admit_output_clean by done. eexists. split; [done|]. rewrite app_nil_r, drop_0.
  unfold finish. unfold is_noop in *. cbn [ss_failed ss_forms ss_carry with_stream].
  rewrite En, bool_decide_eq_false_2 by done. cbn [orb]. unfold scrub_prefix.
  pose proof (scrub_loop_complete (ss_forms s) (ss_marker s) (length r) 0 0 r ltac:(lia)) as Hsc.
  cbn [ss_forms ss_marker with_stream]. destruct (scrub_loop _ _ (length r) _ _ _) as [o k].
  cbn [fst] in Hsc. rewrite one_scan_absent in Hsc by done. subst o.
  rewrite admit_output_clean; [done|]. cbn [ss_forms ss_released_tail with_stream].
  intros g Hg (a & b & E). apply (Ha g Hg).
  eexists (take (length (ss_released_tail s) - ss_keep s) (ss_released_tail s) ++ a), b.
  rewrite <- (assoc_L (++)), <- E, (assoc_L (++)), take_drop. done.
Qed.

(** C38: A secret that begins with another one is cut when the chunk ends exactly where the
    shorter one does: the shorter form is replaced although the bytes are still in the
    danger zone, and the rest of the longer secret is released as it is.  The scan of
    the whole body would have replaced all of it. *)
Theorem chunk_boundary_releases_rest_of_secret s f r frame :
  f ≠ [] → r ≠ [] → (f ++ r) ∈ ss_forms s → forms_ok s →
  ss_carry s = [] → ss_released_tail s = [] → ss_failed s = false →
  (length f + length r <= ss_max_buffer s)%nat →
  match_at (ss_forms s) f = Some (length f) →
  match_at (ss_forms s) (f ++ r) = Some (length (f ++ r)) →
  (∀ g, g ∈ ss_forms s → ¬ appears g (ss_marker s ++ r)) →
  stream s [f; r] true frame = ss_marker s ++ r
  ∧ stream s [f ++ r] true frame = ss_marker s.
Proof.
  intros Hf Hr Hin Hok Hc Ht Hb Hmax Hm Hm2 Ha.
  assert (Hmk : ∀ g, g ∈ ss_forms s → ¬ appears g (ss_marker s)).
  { intros g Hg (a & b & E). apply (Ha g Hg). exists a, (b ++ r). by rewrite E, <- !(assoc_L (++)). }
  split; unfold stream; cbn [push_all].
  - rewrite push_whole_form by (done || lia).
    set (s1 := with_stream s [] _ false).
    destruct (push_rest s1 f r) as (s2 & -> & Hfin); try done; [cbn; lia| |].
    + cbn [ss_forms ss_released_tail with_stream s1]. intros g Hg (a & b & E). apply (Ha g Hg).
      exists (take (length (ss_marker s) - ss_keep s) (ss_marker s) ++ a), b.
      rewrite <- (assoc_L (++)), <- E, (assoc_L (++)), take_drop. done.
    + rewrite Hfin. cbn [andb]. rewrite !app_nil_r. by destruct (finish s2).2.
  - rewrite push_whole_form; [|by destruct f|done|done|done|rewrite length_app; lia|done|done].
    unfold finish. cbn [ss_failed ss_carry with_stream andb].
    rewrite bool_decide_eq_true_2, orb_true_r by done. by rewrite !app_nil_r.
Qed.

(** Where streaming is allowed no operator rule would have changed the body. *)
Theorem streaming_skips_no_rule r rules alias act :
  stream_is_egress_safe rules alias act = true → apply_egress r rules alias act = (false, r).
Proof.
  unfold stream_is_egress_safe. intros H. apply negb_true_iff in H. rewrite existsb_false_elem_of in H.
  unfold apply_egress. destruct (List.find _ rules) as [rule|] eqn:E; [|done].
  apply List.find_some in E as [Hin Hm]. apply list_elem_of_In in Hin. specialize (H rule Hin).
  rewrite Hm in H. cbn [andb] in H. apply orb_false_iff in H as [-> Hp].
  apply negb_false_iff, bool_decide_eq_true in Hp. by destruct (er_redact_patterns rule).
Qed.
End theorems.
