(* ===== verification/Crypto.v ===== *)
(** * Sealed data

    Models [src/src/crypto/encrypt.rs]: master keys, their derivation from a password
    with pinned Argon2 costs, and the sealing of bytes with AES-256-GCM into a pair of
    base64 texts.  The [aes-gcm], [argon2] and [base64] crates are class fields; the
    random nonce of [encrypt] and the salt are arguments, one per call.  What the
    crates promise is the class [SealLaws], which only the theorems that open sealed
    data use. *)

From stdpp Require Import base strings list.
From Stdlib Require Import Ascii ZArith Lia.
From S2P Require Import Prelude RustStr Egress.

Open Scope Z_scope.

(** [CryptoError]; a rendered message is dropped. *)
Inductive CryptoError :=
| EncryptionFailed
| DecryptionFailed
| KeyDerivationFailed
| InvalidKeyLength
| InvalidFormat.

Definition KEY_SIZE : nat := 32.
Definition NONCE_SIZE : nat := 12.

(** [MasterKey], a key of the right size. *)
Record MasterKey := { mk_bytes : bytes }.

#[export] Instance MasterKey_eq_dec : EqDecision MasterKey.
Proof. solve_decision. Defined.

(** [MasterKey::from_bytes]. *)
Definition key_from_bytes (b : bytes) : result MasterKey CryptoError :=
  if negb (Nat.eqb (length b) KEY_SIZE) then Err InvalidKeyLength else Ok {| mk_bytes := b |}.

(** The array [[u8; NONCE_SIZE]] that holds a drawn nonce. *)
Record Nonce := { nonce_bytes : bytes; nonce_size : Nat.eqb (length nonce_bytes) NONCE_SIZE = true }.

(** [EncryptedData]. *)
Record EncryptedData := { ed_nonce : string; ed_ciphertext : string }.

(** [EncryptedData::encode]. *)
Definition ed_encode (d : EncryptedData) : string := ed_nonce d +:+ ":" +:+ ed_ciphertext d.

(** [EncryptedData::decode]. *)
Definition ed_decode (s : string) : result EncryptedData CryptoError :=
  match split_once ":" s with
  | None => Err InvalidFormat
  | Some (n, c) => Ok {| ed_nonce := n; ed_ciphertext := c |}
  end.

(** [KdfParams] and its pinned default. *)
Record KdfParams := { m_cost : Z; t_cost : Z; p_cost : Z }.

Definition default_kdf : KdfParams := {| m_cost := 19 * 1024; t_cost := 2; p_cost := 1 |}.

(** The crates: the [base64] standard engine on bytes, [Aes256Gcm] with a key, and
    [Argon2::hash_password_into] with the given costs ([None] is any of its errors). *)
Class SealCrates := {
  b64_encode : bytes → string;
  b64_decode : string → option bytes;
  aead_encrypt : bytes → bytes → bytes → option bytes;
  aead_decrypt : bytes → bytes → bytes → option bytes;
  argon2 : KdfParams → string → bytes → option bytes;
}.

(** What those crates document: base64 decodes what it encoded, in an alphabet with no
    colon; opening a sealed text under the same key and nonce gives it back; Argon2
    fills the buffer it was given. *)
Class SealLaws {SC : SealCrates} : Prop := {
  b64_round_trip b : b64_decode (b64_encode b) = Some b;
  b64_no_colon b : contains_any (Ascii.eqb ":"%char) (b64_encode b) = false;
  aead_round_trip k n p c : aead_encrypt k n p = Some c → aead_decrypt k n c = Some p;
  argon2_fills p pw salt k : argon2 p pw salt = Some k → length k = KEY_SIZE;
}.

Section crypto.
Context {SC : SealCrates}.

(** [derive_key]. *)
Definition derive_key (password : string) (salt : bytes) (params : KdfParams)
    : result MasterKey CryptoError :=
  match argon2 params password salt with
  | None => Err KeyDerivationFailed
  | Some k => key_from_bytes k
  end.

(** [encrypt]; [nonce] is what the system generator produced. *)
Definition encrypt (nonce : Nonce) (plaintext : bytes) (key : MasterKey)
    : result EncryptedData CryptoError :=
  match aead_encrypt (mk_bytes key) (nonce_bytes nonce) plaintext with
  | None => Err EncryptionFailed
  | Some c => Ok {| ed_nonce := b64_encode (nonce_bytes nonce); ed_ciphertext := b64_encode c |}
  end.

(** [decrypt]. *)
Definition decrypt (d : EncryptedData) (key : MasterKey) : result bytes CryptoError :=
  match b64_decode (ed_nonce d) with
  | None => Err DecryptionFailed
  | Some nonce =>
      if negb (Nat.eqb (length nonce) NONCE_SIZE) then Err DecryptionFailed
      else
        match b64_decode (ed_ciphertext d) with
        | None => Err DecryptionFailed
        | Some c => from_option Ok (Err DecryptionFailed) (aead_decrypt (mk_bytes key) nonce c)
        end
  end.

Context {SL : SealLaws}.

Lemma decrypt_encrypt nonce p key d :
  encrypt nonce p key = Ok d → decrypt d key = Ok p.
Proof.
  unfold encrypt. destruct (aead_encrypt _ _ p) as [c|] eqn:E; [|done].
  intros [= <-]. unfold decrypt. cbn [ed_nonce ed_ciphertext].
  rewrite !b64_round_trip, (nonce_size nonce). cbn.
  by rewrite (aead_round_trip _ _ _ _ E).
Qed.

(** A text sealed here survives being flattened to one string. *)
Lemma decode_encode_sealed nonce p key d :
  encrypt nonce p key = Ok d → ed_decode (ed_encode d) = Ok d.
Proof.
  unfold encrypt. destruct (aead_encrypt _ _ p) as [c|]; [|done]. intros [= <-].
  unfold ed_decode, ed_encode. cbn [ed_nonce ed_ciphertext].
  assert (Hc := b64_no_colon (nonce_bytes nonce)). revert Hc.
  generalize (b64_encode (nonce_bytes nonce)).
  assert (G : ∀ s t, contains_any (Ascii.eqb ":"%char) s = false →
                     split_once ":" (s +:+ ":" +:+ t) = Some (s, t)).
  { intros s t. induction s as [|a s IH]; [by destruct t|].
    cbn [contains_any]. intros [Ha Hs]%orb_false_iff.
    change (String a s +:+ ":" +:+ t) with (String a (s +:+ ":" +:+ t)).
    cbn [split_once strip_prefix]. rewrite IH by done.
    destruct (ascii_dec ":" a) as [<-|Hne]; [done|].
    by rewrite (proj2 (Ascii.eqb_neq _ _) Hne). }
  intros s Hs. by rewrite G.
Qed.

Lemma derive_key_total password salt params k :
  argon2 params password salt = Some k → derive_key password salt params = Ok {| mk_bytes := k |}.
Proof.
  intros E. unfold derive_key, key_from_bytes. rewrite E, (argon2_fills _ _ _ _ E). done.
Qed.
End crypto.
