(* ===== verification/Tracked.v ===== *)
(** * Change-tracked maps

    Models [Tracked] of [src/src/storage/vault_log.rs]: a map that remembers, for every
    key touched since the last commit, what it held before, so that a commit writes
    only the changed records and an aborted mutation is undone in place.

    [tracks base t] says that [t] is [base] with recorded changes; every operation a
    mutation can call keeps it ([mutated_tracks]), rolling back returns to [base]
    ([rollback_tracks]) and the reported changes rebuild the map from [base]
    ([changes_tracks]). *)

From stdpp Require Import base gmap list.

Section tracked.
Context {K V : Type} `{Countable K}.

(** [Tracked<V>]; the key type is [String] in the source. *)
Record Tracked := { tr_map : gmap K V; tr_touched : gmap K (option V) }.

(** [Tracked::default] and [Tracked::from_map]. *)
Definition from_map (m : gmap K V) : Tracked := {| tr_map := m; tr_touched := ∅ |}.

(** [Tracked::touch]. *)
Definition tr_touch (k : K) (t : Tracked) : Tracked :=
  match tr_touched t !! k with
  | Some _ => t
  | None => {| tr_map := tr_map t; tr_touched := <[k := tr_map t !! k]> (tr_touched t) |}
  end.

Definition set_map (f : gmap K V → gmap K V) (t : Tracked) : Tracked :=
  {| tr_map := f (tr_map t); tr_touched := tr_touched t |}.

(** [Tracked::insert], [Tracked::remove]; the previous value is returned. *)
Definition tr_insert (k : K) (v : V) (t : Tracked) : option V * Tracked :=
  (tr_map t !! k, set_map <[k := v]> (tr_touch k t)).
Definition tr_remove (k : K) (t : Tracked) : option V * Tracked :=
  (tr_map t !! k, set_map (delete k) (tr_touch k t)).

(** [Tracked::get_mut] and a write through the reference it hands out. *)
Definition tr_update (k : K) (f : V → V) (t : Tracked) : Tracked :=
  match tr_map t !! k with
  | None => t
  | Some v => set_map <[k := f v]> (tr_touch k t)
  end.

(** [Tracked::retain]. *)
Definition tr_retain (keep : K → V → bool) (t : Tracked) : Tracked :=
  foldl (λ t k, (tr_remove k t).2) t
    (List.filter (λ kv : K * V, negb (keep kv.1 kv.2)) (map_to_list (tr_map t))).*1.

(** [Tracked::insert_clean], [Tracked::remove_clean]. *)
Definition insert_clean (k : K) (v : V) : Tracked → Tracked := set_map <[k := v]>.
Definition remove_clean (k : K) : Tracked → Tracked := set_map (delete k).

(** [Tracked::changes]. *)
Definition changes (t : Tracked) : list (K * option V) :=
  omap (λ kp : K * option V,
          match tr_map t !! kp.1, kp.2 with
          | None, None => None
          | cur, _ => Some (kp.1, cur)
          end) (map_to_list (tr_touched t)).

(** [Tracked::commit]. *)
Definition tr_commit (t : Tracked) : Tracked := from_map (tr_map t).

(** One entry of the loop of [Tracked::rollback]. *)
Definition restore (k : K) (pre : option V) (m : gmap K V) : gmap K V :=
  match pre with Some v => <[k := v]> m | None => delete k m end.

(** [Tracked::rollback]. *)
Definition tr_rollback (t : Tracked) : Tracked :=
  from_map (map_fold restore (tr_map t) (tr_touched t)).

(** ** What is tracked *)

Definition tracks (base : gmap K V) (t : Tracked) : Prop :=
  ∀ k, match tr_touched t !! k with
       | Some pre => pre = base !! k
       | None => tr_map t !! k = base !! k
       end.

(** One call a mutation can make, and a whole mutation. *)
Inductive mutation : Tracked → Tracked → Prop :=
| Mut_insert k v t : mutation t (tr_insert k v t).2
| Mut_remove k t : mutation t (tr_remove k t).2
| Mut_update k f t : mutation t (tr_update k f t)
| Mut_retain keep t : mutation t (tr_retain keep t).

Definition mutated : Tracked → Tracked → Prop := rtc mutation.

Lemma tracks_clean m : tracks m (from_map m).
Proof. intros k. cbn. by rewrite lookup_empty. Qed.

Lemma touch_map k t : tr_map (tr_touch k t) = tr_map t.
Proof. unfold tr_touch. by destruct (tr_touched t !! k). Qed.

Lemma touch_touched k t : is_Some (tr_touched (tr_touch k t) !! k).
Proof.
  unfold tr_touch. destruct (tr_touched t !! k) eqn:E; [by rewrite E|].
  cbn. by rewrite lookup_insert_eq.
Qed.

Lemma touch_tracks base k t : tracks base t → tracks base (tr_touch k t).
Proof.
  intros Ht k'. unfold tr_touch. destruct (tr_touched t !! k) eqn:E; [apply Ht|].
  cbn. destruct (decide (k = k')) as [<-|Hne].
  - rewrite lookup_insert_eq. specialize (Ht k). by rewrite E in Ht.
  - rewrite lookup_insert_ne by done. apply Ht.
Qed.

(** Writing a touched key keeps the record of what was there. *)
Lemma set_map_tracks base k f t :
  tracks base t → is_Some (tr_touched t !! k) →
  (∀ m k', k ≠ k' → f m !! k' = m !! k') → tracks base (set_map f t).
Proof.
  intros Ht [pre Hk] Hf k'. specialize (Ht k'). cbn.
  destruct (tr_touched t !! k') eqn:E; [done|].
  rewrite Hf; [done|]. intros <-. congruence.
Qed.

Lemma remove_tracks base k t : tracks base t → tracks base (tr_remove k t).2.
Proof.
  intros Ht. apply (set_map_tracks _ k); [by apply touch_tracks|apply touch_touched|].
  intros. by apply lookup_delete_ne.
Qed.

Lemma mutation_tracks base t t' : mutation t t' → tracks base t → tracks base t'.
Proof.
  intros []; intros Ht.
  - apply (set_map_tracks _ k); [by apply touch_tracks|apply touch_touched|].
    intros. by apply lookup_insert_ne.
  - by apply remove_tracks.
  - unfold tr_update. destruct (tr_map t0 !! k); [|done].
    apply (set_map_tracks _ k); [by apply touch_tracks|apply touch_touched|].
    intros. by apply lookup_insert_ne.
  - unfold tr_retain. generalize ((List.filter (λ kv : K * V, negb (keep kv.1 kv.2))
      (map_to_list (tr_map t0))).*1) as l. intros l. revert t0 Ht.
    induction l as [|k l IH]; intros t0 Ht; cbn [foldl]; [done|].
    by apply IH, remove_tracks.
Qed.

Lemma mutated_tracks base t t' : mutated t t' → tracks base t → tracks base t'.
Proof. induction 1; eauto using mutation_tracks. Qed.

(** Undoing returns to the committed map. *)
Lemma rollback_tracks base t : tracks base t → tr_rollback t = from_map base.
Proof.
  intros Ht. unfold tr_rollback. f_equal.
  cut (∀ k, map_fold restore (tr_map t) (tr_touched t) !! k
            = match tr_touched t !! k with Some pre => pre | None => tr_map t !! k end).
  { intros G. apply map_eq. intros k. rewrite G. specialize (Ht k).
    by destruct (tr_touched t !! k). }
  generalize (tr_touched t) as m. apply (map_fold_weak_ind
    (λ r m, ∀ k, r !! k = match m !! k with Some pre => pre | None => tr_map t !! k end)).
  - intros k. by rewrite lookup_empty.
  - intros k pre m r Hk IH k'. destruct (decide (k = k')) as [<-|Hne].
    + rewrite lookup_insert_eq. destruct pre; cbn; [apply lookup_insert_eq|apply lookup_delete_eq].
    + rewrite lookup_insert_ne by done. rewrite <- IH.
      destruct pre; cbn; [by apply lookup_insert_ne|by apply lookup_delete_ne].
Qed.

(** Writing the reported changes over the committed map gives the current one. *)
Definition put_change (m : gmap K V) (c : K * option V) : gmap K V := restore c.1 c.2 m.

Lemma changes_elem t k cur :
  (k, cur) ∈ changes t ↔
  ∃ pre, tr_touched t !! k = Some pre ∧ cur = tr_map t !! k ∧ (cur = None → pre ≠ None).
Proof.
  unfold changes. rewrite list_elem_of_omap. split.
  - intros ([k' pre] & Hin & E). apply elem_of_map_to_list in Hin. cbn in E.
    exists pre. destruct (tr_map t !! k') eqn:Em.
    + injection E as <- <-. split_and!; [done|done|done].
    + destruct pre; [|done]. injection E as <- <-. split_and!; [done|done|done].
  - intros (pre & Ht & -> & Hp). exists (k, pre).
    split; [by apply elem_of_map_to_list|]. cbn. destruct (tr_map t !! k); [done|].
    destruct pre; [done|]. by destruct Hp.
Qed.

Lemma omap_fst_sublist {A B C} (f : A * B → option (A * C)) (l : list (A * B)) :
  (∀ x y, f x = Some y → y.1 = x.1) → (omap f l).*1 `sublist_of` l.*1.
Proof.
  intros Hf. induction l as [|x l IH]; [done|]. cbn.
  destruct (f x) as [y|] eqn:E; cbn; [rewrite (Hf _ _ E)|]; by constructor.
Qed.

Lemma changes_NoDup t : NoDup (changes t).*1.
Proof.
  eapply sublist_NoDup; [apply (NoDup_fst_map_to_list (tr_touched t))|].
  apply omap_fst_sublist. intros [k pre] y. cbn. destruct (tr_map t !! k), pre; by intros [= <-].
Qed.

Lemma foldl_put_change l m k :
  NoDup l.*1 →
  (∀ cur, (k, cur) ∈ l → foldl put_change m l !! k = cur)
  ∧ ((∀ cur, (k, cur) ∉ l) → foldl put_change m l !! k = m !! k).
Proof.
  revert m. induction l as [|[k' c] l IH]; intros m HN; cbn [foldl].
  { split; [by intros ? ?%elem_of_nil|done]. }
  apply NoDup_cons in HN as [Hk' HN]. destruct (IH (put_change m (k', c)) HN) as [IH1 IH2].
  assert (Hm : ∀ x, put_change m (k', c) !! x = if decide (k' = x) then c else m !! x).
  { intros x. unfold put_change. cbn. case_decide as E; [subst x|];
      destruct c; cbn; [apply lookup_insert_eq|apply lookup_delete_eq
                       |by apply lookup_insert_ne|by apply lookup_delete_ne]. }
  split.
  - intros cur [[= -> ->]|Hin]%elem_of_cons; [|by apply IH1].
    rewrite IH2, Hm, decide_True; [done..|]. intros cur' Hin. apply Hk'.
    apply list_elem_of_fmap. by exists (k', cur').
  - intros Hn. rewrite IH2, Hm.
    + rewrite decide_False; [done|]. intros <-. apply (Hn c). constructor.
    + intros cur Hin. apply (Hn cur). by constructor.
Qed.

(** The same set of changes in any order. *)
Lemma changes_perm base t l :
  tracks base t → l ≡ₚ changes t → foldl put_change base l = tr_map t.
Proof.
  intros Ht Hl. assert (HN : NoDup l.*1) by (rewrite Hl; apply changes_NoDup).
  apply map_eq. intros k. destruct (foldl_put_change l base k HN) as [H1 H2].
  specialize (Ht k). destruct (tr_touched t !! k) as [pre|] eqn:E.
  - destruct (decide (tr_map t !! k = None ∧ pre = None)) as [[Hm ->]|Hd].
    + rewrite H2; [congruence|]. intros cur. rewrite Hl, changes_elem.
      intros (pre & Hp & -> & Hc). rewrite E in Hp. injection Hp as <-. by apply Hc.
    + apply H1. rewrite Hl, changes_elem. exists pre. split_and!; [done|done|]. naive_solver.
  - rewrite H2; [done|]. intros cur. rewrite Hl, changes_elem. intros (? & ? & _). congruence.
Qed.

Lemma changes_tracks base t : tracks base t → foldl put_change base (changes t) = tr_map t.
Proof. intros Ht. by apply changes_perm. Qed.
End tracked.

Arguments Tracked K V {_ _}.
Arguments from_map {_ _ _ _} m.
