(* ===== verification/VaultLog.v ===== *)
(** * The vault's write-ahead log

    Models the format and the reader of [src/src/storage/vault_log.rs]: one line per
    committed mutation, an envelope whose sequence is in clear and repeated inside the
    sealed text.  [parse_log] reads a region of the log: lines at or below the caller's
    sequence are skipped unopened, newer ones must be contiguous and authentic, an
    unterminated tail is a torn append.

    The serializers of [Envelope] and [Plain] are [serde_json]'s, fields of [LogSerde];
    [LogSerdeLaws] states the round trips and that a compact JSON text has no newline.
    Theorems: a written record is read back; a read splits at any line boundary; the
    sequences that a read returns are exactly the ones after the caller's. *)

From stdpp Require Import base strings list.
From Stdlib Require Import Ascii ZArith Lia.
From S2P Require Import Prelude RustStr Json Egress Crypto.

Open Scope Z_scope.

(** ** Records and errors *)

(** [Op]. *)
Inductive Op :=
| OpPut (c k : string) (v : Value)
| OpDel (c k : string)
| OpKillEpoch (epoch : Z)
| OpMisc (v : Value).

(** [Envelope] and [Plain]. *)
Record Envelope := { env_seq : Z; env_nonce : string; env_ct : string }.
Record Plain := { pl_seq : Z; pl_ops : list Op }.

(** The errors of the vault files, as values: [StorageError] with the cause that the
    source renders into its message. *)
Inductive VaultError :=
| E_Serialize
| E_Crypto (e : CryptoError)
| E_Unparseable (pos : nat)
| E_Sequence (expected found : Z)
| E_Plaintext (seq : Z)
| E_InnerSequence (outer inner : Z)
| E_UnknownCollection (c : string)
| E_BadRecord
| E_Shape
| E_UnsupportedVersion (found : Z)
| E_Io
| E_VaultFileGone
| E_LogGone (shrank : bool)
| E_LogMoved
| E_LogMissing (version : Z)
| E_StaleLog (version : Z)
| E_OldFormat (version : Z).

Class LogSerde := {
  plain_to_vec : Plain → option bytes;
  plain_from_slice : bytes → option Plain;
  envelope_to_vec : Envelope → option bytes;
  envelope_from_slice : bytes → option Envelope;
}.

Definition newline : ascii := "010"%char.

Class LogSerdeLaws {LS : LogSerde} : Prop := {
  plain_round_trip p b : plain_to_vec p = Some b → plain_from_slice b = Some p;
  envelope_round_trip e b : envelope_to_vec e = Some b → envelope_from_slice b = Some e;
  envelope_one_line e b : envelope_to_vec e = Some b → newline ∉ b;
}.

(** ** Lines *)

(** The complete lines of a region and what follows the last newline; the loop of
    [parse_log] takes them one at a time with [position]. *)
Fixpoint take_lines (r : bytes) : list bytes * bytes :=
  match r with
  | [] => ([], [])
  | b :: r' =>
      let '(ls, tail) := take_lines r' in
      if Ascii.eqb b newline then ([] :: ls, tail)
      else match ls with
           | [] => ([], b :: tail)
           | l :: ls' => ((b :: l) :: ls', tail)
           end
  end.

Fixpoint unlines (ls : list bytes) : bytes :=
  match ls with [] => [] | l :: ls' => l ++ newline :: unlines ls' end.

Lemma unlines_app a b : unlines (a ++ b) = unlines a ++ unlines b.
Proof.
  induction a as [|l a IH]; [done|]. cbn [unlines app]. rewrite IH.
  by rewrite <- app_assoc.
Qed.

Lemma take_lines_spec r :
  let '(ls, tail) := take_lines r in
  r = unlines ls ++ tail ∧ (newline ∉ tail) ∧ ∀ l, l ∈ ls → newline ∉ l.
Proof.
  induction r as [|b r IH]; cbn [take_lines].
  { split_and!; [done|apply not_elem_of_nil|by intros ? ?%elem_of_nil]. }
  destruct (take_lines r) as [ls tail]. destruct IH as (-> & Ht & Hl).
  destruct (Ascii.eqb_spec b newline) as [->|Hb].
  - split_and!; [done|done|]. intros l [->|?]%elem_of_cons; [apply not_elem_of_nil|auto].
  - destruct ls as [|l ls]; split_and!; [done| |by intros ? ?%elem_of_nil|done|done|].
    + by intros [?|?]%elem_of_cons.
    + intros l' [->|Hin]%elem_of_cons.
      * intros [?|?]%elem_of_cons; [congruence|]. apply (Hl l); [constructor|done].
      * apply Hl. by constructor.
Qed.

Lemma take_lines_tail r : newline ∉ r → take_lines r = ([], r).
Proof.
  induction r as [|b r IH]; [done|]. intros [Hb Hr]%not_elem_of_cons. cbn [take_lines].
  rewrite IH by done. destruct (Ascii.eqb_spec b newline) as [->|_]; [by destruct Hb|done].
Qed.

Lemma take_lines_cons l r :
  newline ∉ l →
  take_lines (l ++ newline :: r) = (l :: (take_lines r).1, (take_lines r).2).
Proof.
  induction l as [|b l IH]; intros Hl; cbn [app take_lines].
  - by destruct (take_lines r).
  - apply not_elem_of_cons in Hl as [Hb Hl]. rewrite IH by done.
    destruct (Ascii.eqb_spec b newline) as [->|_]; [by destruct Hb|done].
Qed.

Lemma take_lines_unlines ls r :
  (∀ l, l ∈ ls → newline ∉ l) →
  take_lines (unlines ls ++ r) = (ls ++ (take_lines r).1, (take_lines r).2).
Proof.
  induction ls as [|l ls IH]; intros Hl; cbn [unlines].
  - cbn [app]. by destruct (take_lines r).
  - rewrite <- app_assoc. cbn [app]. rewrite take_lines_cons by (apply Hl; constructor).
    rewrite IH by (intros ? ?; apply Hl; by constructor). done.
Qed.

(** ** Writing a record *)

(** [seq + 1] on a [u64], which wraps in a release build. *)
Definition u64_next (n : Z) : Z := if n =? u64_max then 0 else n + 1.

Section log.
Context {SC : SealCrates} {LS : LogSerde}.

(** [encode_record]; [nonce] is the one that [encrypt] draws. *)
Definition encode_record (nonce : Nonce) (seq : Z) (ops : list Op) (key : MasterKey)
    : result bytes VaultError :=
  match plain_to_vec {| pl_seq := seq; pl_ops := ops |} with
  | None => Err E_Serialize
  | Some plain =>
      match encrypt nonce plain key with
      | Err e => Err (E_Crypto e)
      | Ok enc =>
          match envelope_to_vec {| env_seq := seq; env_nonce := ed_nonce enc;
                                   env_ct := ed_ciphertext enc |} with
          | None => Err E_Serialize
          | Some line => Ok (line ++ [newline])
          end
      end
  end.

(** ** Reading a region *)

(** [ParsedLog]. *)
Record ParsedLog := {
  pg_records : list (Z * list Op);
  pg_consumed : nat;
  pg_torn_tail : bool;
  pg_decrypted_bytes : Z;
  pg_decrypts : Z;
}.

(** A record in front of what the rest of the region holds. *)
Definition push_record (seq : Z) (ops : list Op) (plain_len : nat) (out : ParsedLog) : ParsedLog :=
  {| pg_records := (seq, ops) :: pg_records out; pg_consumed := pg_consumed out;
     pg_torn_tail := pg_torn_tail out;
     pg_decrypted_bytes := Z.of_nat plain_len + pg_decrypted_bytes out;
     pg_decrypts := 1 + pg_decrypts out |}.

(** What opening one envelope gives: its operations and the size of its plaintext. *)
Definition open_envelope (env : Envelope) (key : MasterKey) : result (list Op * nat) VaultError :=
  match decrypt {| ed_nonce := env_nonce env; ed_ciphertext := env_ct env |} key with
  | Err e => Err (E_Crypto e)
  | Ok plain =>
      match plain_from_slice plain with
      | None => Err (E_Plaintext (env_seq env))
      | Some p =>
          if negb (pl_seq p =? env_seq env) then Err (E_InnerSequence (env_seq env) (pl_seq p))
          else Ok (pl_ops p, length plain)
      end
  end.

(** The loop of [parse_log] over the complete lines, from byte [pos]. *)
Fixpoint parse_lines (applied_seq : Z) (key : MasterKey) (pos : nat) (next : Z)
    (lines : list bytes) : result ParsedLog VaultError :=
  match lines with
  | [] => Ok {| pg_records := []; pg_consumed := pos; pg_torn_tail := false;
                pg_decrypted_bytes := 0; pg_decrypts := 0 |}
  | line :: rest =>
      match envelope_from_slice line with
      | None => Err (E_Unparseable pos)
      | Some env =>
          let pos' := (pos + length line + 1)%nat in
          if env_seq env <=? applied_seq then parse_lines applied_seq key pos' next rest
          else if negb (env_seq env =? next) then Err (E_Sequence next (env_seq env))
          else
            let? (ops, n) := open_envelope env key in
            let? out := parse_lines applied_seq key pos' (u64_next next) rest in
            Ok (push_record (env_seq env) ops n out)
      end
  end.

(** [parse_log]. *)
Definition parse_log (region : bytes) (applied_seq : Z) (key : MasterKey)
    : result ParsedLog VaultError :=
  let '(lines, tail) := take_lines region in
  let? out := parse_lines applied_seq key 0 (u64_next applied_seq) lines in
  Ok {| pg_records := pg_records out; pg_consumed := pg_consumed out;
        pg_torn_tail := match tail with [] => false | _ => true end;
        pg_decrypted_bytes := pg_decrypted_bytes out; pg_decrypts := pg_decrypts out |}.

(** ** What a read returns *)

(** The sequence the caller has reached after the records. *)
Definition reached (applied_seq : Z) (records : list (Z * list Op)) : Z :=
  foldl (λ _ r, r.1) applied_seq records.

Lemma reached_app a r1 r2 : reached a (r1 ++ r2) = reached (reached a r1) r2.
Proof. apply foldl_app. Qed.

(** Records that follow [a] one by one. *)
Fixpoint contiguous (a : Z) (records : list (Z * list Op)) : Prop :=
  match records with
  | [] => True
  | (seq, _) :: rest => seq = a + 1 ∧ contiguous seq rest
  end.

Lemma u64_next_gt a n : a < n → n = u64_next a → n = a + 1.
Proof. unfold u64_next. destruct (Z.eqb_spec a u64_max); unfold u64_max in *; lia. Qed.

Lemma u64_next_lt n : n < u64_max → u64_next n = n + 1.
Proof. unfold u64_next. intros H. destruct (Z.eqb_spec n u64_max); lia. Qed.

Lemma parse_lines_contiguous a key pos n ls out :
  0 <= a <= n → parse_lines a key pos (u64_next n) ls = Ok out →
  contiguous n (pg_records out) ∧ n <= reached n (pg_records out)
  ∧ pg_consumed out = (pos + length (unlines ls))%nat
  ∧ pg_decrypts out = Z.of_nat (length (pg_records out)).
Proof.
  revert pos n out. induction ls as [|l ls IH]; intros pos n out Hn; cbn [parse_lines].
  { intros [= <-]. cbn. split_and!; [done|lia|lia|done]. }
  destruct (envelope_from_slice l) as [env|]; [|done].
  cbn [unlines]. rewrite length_app. cbn [length].
  destruct (Z.leb_spec (env_seq env) a) as [Ha|Ha].
  { intros (H1 & H2 & H3 & H4)%IH; [|done]. split_and!; [done|done|lia|done]. }
  destruct (Z.eqb_spec (env_seq env) (u64_next n)) as [Hs|]; cbn [negb]; [|done].
  destruct (open_envelope env key) as [[ops k]|e]; cbn [result_bind]; [|done].
  destruct (Z.eq_dec n u64_max) as [->|Hmax].
  { unfold u64_next in Hs. rewrite Z.eqb_refl in Hs. lia. }
  assert (Hs' : env_seq env = n + 1).
  { rewrite Hs. unfold u64_next. by rewrite (proj2 (Z.eqb_neq _ _) Hmax). }
  rewrite <- Hs.
  destruct (parse_lines a key _ _ ls) as [out'|] eqn:E; cbn [result_bind]; [|done].
  intros [= <-]. destruct (IH _ (env_seq env) _ ltac:(lia) E) as (H1 & H2 & H3 & H4).
  cbn [push_record pg_records contiguous pg_consumed pg_decrypts length reached foldl fst].
  unfold reached in H2. split_and!; [done|done|lia|lia|lia].
Qed.

(** A read splits at any line boundary; the second half can be read by a caller that
    starts where the first half ended. *)
Lemma parse_lines_app a key pos n l1 l2 out :
  0 <= a <= n → parse_lines a key pos (u64_next n) (l1 ++ l2) = Ok out →
  ∃ o1 o2, parse_lines a key pos (u64_next n) l1 = Ok o1
    ∧ parse_lines a key (pg_consumed o1) (u64_next (reached n (pg_records o1))) l2 = Ok o2
    ∧ pg_records out = pg_records o1 ++ pg_records o2 ∧ pg_consumed out = pg_consumed o2.
Proof.
  revert pos n out. induction l1 as [|l l1 IH]; intros pos n out Hn; cbn [parse_lines app].
  { intros E. eexists _, out. split; [done|]. cbn. done. }
  destruct (envelope_from_slice l) as [env|]; [|done].
  destruct (Z.leb_spec (env_seq env) a) as [Ha|Ha]; [by apply IH|].
  destruct (Z.eqb_spec (env_seq env) (u64_next n)) as [Hs|]; cbn [negb]; [|done].
  destruct (open_envelope env key) as [[ops k]|e]; cbn [result_bind]; [|done].
  assert (Hs' : n <= env_seq env).
  { unfold u64_next in Hs. destruct (Z.eqb_spec n u64_max); lia. }
  rewrite <- Hs.
  destruct (parse_lines a key _ _ (l1 ++ l2)) as [out'|] eqn:E; cbn [result_bind]; [|done].
  intros [= <-]. destruct (IH _ (env_seq env) _ ltac:(lia) E) as (o1 & o2 & E1 & E2 & E3 & E4).
  rewrite E1. cbn [result_bind]. eexists _, o2. split; [done|].
  cbn [push_record pg_records pg_consumed reached foldl fst]. unfold reached in E2.
  split_and!; [done|by rewrite E3|done].
Qed.

Lemma parse_lines_restart a key pos pos' n ls out :
  0 <= a <= n → parse_lines a key pos (u64_next n) ls = Ok out →
  ∃ o, parse_lines n key pos' (u64_next n) ls = Ok o ∧ pg_records o = pg_records out
    ∧ (pg_consumed o + pos = pg_consumed out + pos')%nat.
Proof.
  intros Hn. cut (∀ m, n <= m → parse_lines a key pos (u64_next m) ls = Ok out →
    ∃ o, parse_lines n key pos' (u64_next m) ls = Ok o ∧ pg_records o = pg_records out
    ∧ (pg_consumed o + pos = pg_consumed out + pos')%nat).
  { intros G. apply G. lia. }
  revert pos pos' out. induction ls as [|l ls IH]; intros pos pos' out m Hm; cbn [parse_lines].
  { intros [= <-]. eexists. split; [done|]. cbn. split; [done|lia]. }
  destruct (envelope_from_slice l) as [env|]; [|done].
  destruct (Z.leb_spec (env_seq env) a) as [Ha|Ha].
  { rewrite (proj2 (Z.leb_le (env_seq env) n)) by lia. intros E.
    destruct (IH _ (pos' + length l + 1)%nat _ _ Hm E) as (o & H1 & H2 & H3).
    exists o. split_and!; [done|done|lia]. }
  destruct (Z.eqb_spec (env_seq env) (u64_next m)) as [Hs|]; cbn [negb]; [|done].
  destruct (open_envelope env key) as [[ops k]|e]; cbn [result_bind]; [|done].
  assert (Hs' : m < env_seq env).
  { unfold u64_next in Hs. destruct (Z.eqb_spec m u64_max); lia. }
  rewrite (proj2 (Z.leb_gt (env_seq env) n)) by lia.
  destruct (parse_lines a key _ _ ls) as [out'|] eqn:E; cbn [result_bind]; [|done].
  intros [= <-]. rewrite <- Hs in E.
  destruct (IH _ (pos' + length l + 1)%nat _ (env_seq env) ltac:(lia) E) as (o & H1 & H2 & H3).
  rewrite <- Hs, H1. cbn [result_bind]. eexists. split; [done|]. cbn. split; [congruence|lia].
Qed.

(** A written record is one line, and opening it gives its operations back. *)
Lemma encode_record_line {SL : SealLaws} {LL : LogSerdeLaws} nonce seq ops key line :
  encode_record nonce seq ops key = Ok line →
  ∃ l env k, line = l ++ [newline] ∧ (newline ∉ l) ∧ envelope_from_slice l = Some env
    ∧ env_seq env = seq ∧ open_envelope env key = Ok (ops, k).
Proof.
  unfold encode_record. destruct (plain_to_vec _) as [plain|] eqn:Ep; [|done].
  destruct (encrypt nonce plain key) as [enc|] eqn:Ee; [|done].
  destruct (envelope_to_vec _) as [l|] eqn:El; [|done]. intros [= <-].
  eexists l, _, (length plain). split_and!; [done|by eapply envelope_one_line|
    by apply envelope_round_trip|done|].
  unfold open_envelope. cbn [env_nonce env_ct env_seq].
  replace {| ed_nonce := ed_nonce enc; ed_ciphertext := ed_ciphertext enc |} with enc
    by (by destruct enc).
  rewrite (decrypt_encrypt _ _ _ _ Ee), (plain_round_trip _ _ Ep). cbn [pl_seq pl_ops].
  by rewrite Z.eqb_refl.
Qed.

(** Appending the next record to a log that reads up to [n] makes it read up to
    [n + 1]. *)
Lemma parse_lines_snoc {SL : SealLaws} {LL : LogSerdeLaws} nonce a key n ls out l ops :
  0 <= a → parse_lines a key 0 (u64_next a) ls = Ok out → reached a (pg_records out) = n →
  n < u64_max → (newline ∉ l) → encode_record nonce (n + 1) ops key = Ok (l ++ [newline]) →
  ∃ out', parse_lines a key 0 (u64_next a) (ls ++ [l]) = Ok out'
    ∧ pg_records out' = pg_records out ++ [(n + 1, ops)].
Proof.
  intros Ha Hout Hn Hmax Hl Henc.
  destruct (encode_record_line _ _ _ _ _ Henc) as (l' & env & k & El & Hl' & Henv & Hseq & Hop).
  apply app_inj_tail in El as [<- _].
  cut (∀ m pos o, a <= m → parse_lines a key pos (u64_next m) ls = Ok o →
    reached m (pg_records o) = n →
    ∃ o', parse_lines a key pos (u64_next m) (ls ++ [l]) = Ok o'
      ∧ pg_records o' = pg_records o ++ [(n + 1, ops)]).
  { intros G. by apply (G a 0%nat out). }
  clear Hout Hn out. induction ls as [|x ls IH]; intros m pos o Hm; cbn [app parse_lines].
  - intros [= <-]. cbn. intros ->. rewrite Henv, Hseq, (u64_next_lt n) by done.
    rewrite (proj2 (Z.leb_gt (n + 1) a)) by lia. rewrite Z.eqb_refl. cbn [negb].
    rewrite Hop. cbn [result_bind]. by eexists.
  - destruct (envelope_from_slice x) as [e|]; [|done].
    destruct (Z.leb_spec (env_seq e) a) as [He|He]; [by apply IH|].
    destruct (Z.eqb_spec (env_seq e) (u64_next m)) as [Hs|]; cbn [negb]; [|done].
    destruct (open_envelope e key) as [[ops' k']|]; cbn [result_bind]; [|done].
    rewrite <- Hs. destruct (parse_lines a key _ _ ls) as [o1|] eqn:E; cbn [result_bind]; [|done].
    intros [= <-]. cbn [push_record pg_records reached foldl fst]. intros Hr.
    assert (m <= env_seq e).
    { unfold u64_next in Hs. destruct (Z.eqb_spec m u64_max); lia. }
    destruct (IH (env_seq e) _ o1 ltac:(lia) E Hr) as (o' & H1 & H2).
    rewrite H1. cbn [result_bind]. eexists. split; [done|]. cbn. by rewrite H2.
Qed.
End log.
