(* ===== verification/VaultCache.v ===== *)
(** * The vault's contents and their changes

    Models the in-memory vault of [src/src/storage/file.rs]: [StorageCache] with its
    twelve change-tracked collections, the kill fence and the block of staged events,
    the operations a mutation leaves behind ([collect_ops]), their replay ([apply_op]),
    rolling back, shape validation and the rebuilt indexes.

    The twelve [Tracked] fields are one tracked map whose keys carry the collection;
    [Rec] is the sum of their record types.  How a record, a mark or the block of
    events becomes JSON is [serde]'s: the fields of [CacheSerde], with the round trips
    in [CacheSerdeLaws].  The main lemma is [apply_collected]: replaying what
    [collect_ops] reports on the committed contents gives the new contents. *)

From stdpp Require Import base gmap strings list countable.
From Stdlib Require Import Ascii ZArith Lia.
From S2P Require Import Prelude RustStr BTree Json KillFence Egress Crypto Tracked VaultLog.

Open Scope Z_scope.

(** ** Collections *)

(** The [Tracked] fields of [StorageCache], in the order [collect_ops] visits them. *)
Inductive Collection :=
| Credentials | Roles | ApiKeys | UseTokens | WorkloadJtis | WorkloadGrants | ApprovalTokens
| Approvals | Policies | Capabilities | Idempotency | NativeDrafts.

Definition collections : list Collection :=
  [Credentials; Roles; ApiKeys; UseTokens; WorkloadJtis; WorkloadGrants; ApprovalTokens;
   Approvals; Policies; Capabilities; Idempotency; NativeDrafts].

(** The name of a collection in the log. *)
Definition col_name (c : Collection) : string :=
  match c with
  | Credentials => "credentials" | Roles => "roles" | ApiKeys => "api_keys"
  | UseTokens => "use_tokens" | WorkloadJtis => "workload_jtis"
  | WorkloadGrants => "workload_grants" | ApprovalTokens => "approval_tokens"
  | Approvals => "approvals" | Policies => "policies" | Capabilities => "capabilities"
  | Idempotency => "idempotency" | NativeDrafts => "native_drafts"
  end.

Definition KILL_MARKS : string := "kill_marks".

(** The string match of [apply_op]. *)
Definition col_of_name (name : string) : option Collection :=
  List.find (λ c, String.eqb (col_name c) name) collections.

#[export] Instance Collection_eq_dec : EqDecision Collection.
Proof. solve_decision. Defined.
#[export] Instance Collection_countable : Countable Collection.
Proof.
  refine (inj_countable' col_name (λ s, default Credentials (col_of_name s)) _).
  by intros [].
Defined.
#[export] Instance KillMark_eq_dec : EqDecision KillMark.
Proof. solve_decision. Defined.

Lemma col_of_name_name c : col_of_name (col_name c) = Some c.
Proof. by destruct c. Qed.
Lemma col_name_not_marks c : col_name c ≠ KILL_MARKS.
Proof. by destruct c. Qed.
Lemma collections_NoDup : NoDup collections.
Proof. apply (bool_decide_unpack _). by vm_compute. Qed.
Lemma collections_all c : c ∈ collections.
Proof. apply (bool_decide_unpack _). by destruct c; vm_compute. Qed.

(** What is stored: the records, the kill fence and the block of staged events. *)
Record Contents (R M : Type) := {
  ct_recs : gmap (Collection * string) R;
  ct_kill : KillFenceState;
  ct_misc : M;
}.
Arguments ct_recs {R M} _.
Arguments ct_kill {R M} _.
Arguments ct_misc {R M} _.

(** [serde] for the stored types.  [rec_to_value c] and [rec_from_value c] are the
    (de)serializer of the record type of [c]; [rec_id], [rec_valid] and [rec_attr] are
    a record's embedded id, its own shape check, and the attribute it is indexed by. *)
Class CacheSerde := {
  Rec : Type;
  Misc : Type;
  misc_default : Misc;
  rec_to_value : Collection → Rec → option Value;
  rec_from_value : Collection → Value → option Rec;
  mark_to_value : KillMark → option Value;
  mark_from_value : Value → option KillMark;
  misc_to_vec : Misc → option bytes;
  misc_from_slice : bytes → option Misc;
  misc_from_value : Value → option Misc;
  value_from_slice : bytes → option Value;
  contents_to_vec : Contents Rec Misc → option bytes;
  contents_from_slice : bytes → option (Contents Rec Misc);
  credentials_from_slice : bytes → option (gmap string Rec);
  rec_id : Collection → Rec → string;
  rec_valid : Collection → Rec → bool;
  rec_attr : Collection → Rec → option string;
}.

Class CacheSerdeLaws {CS : CacheSerde} : Prop := {
  rec_round_trip c r v : rec_to_value c r = Some v → rec_from_value c v = Some r;
  mark_round_trip m v : mark_to_value m = Some v → mark_from_value v = Some m;
  misc_serializes m : is_Some (misc_to_vec m);
  misc_round_trip m b : misc_to_vec m = Some b → misc_from_slice b = Some m;
  misc_value_round_trip m b v :
    misc_to_vec m = Some b → value_from_slice b = Some v → misc_from_value v = Some m;
  contents_round_trip c b : contents_to_vec c = Some b → contents_from_slice b = Some c;
}.

(** [mapM] for [Result]. *)
Fixpoint try_map {A B E} (f : A → result B E) (l : list A) : result (list B) E :=
  match l with
  | [] => Ok []
  | x :: l' => let? y := f x in let? ys := try_map f l' in Ok (y :: ys)
  end.

Section cache.
Context {CS : CacheSerde}.

(** [StorageCache].  The five secondary indexes are one map from the indexed attribute
    of a collection to the id. *)
Record StorageCache := {
  sc_recs : Tracked (Collection * string) Rec;
  sc_kill : KillFenceState;
  sc_misc : Misc;
  sc_index : gmap (Collection * string) string;
}.

Definition no_kills : KillFenceState := {| kf_epoch := 0; kf_marks := [] |}.

(** [StorageCache::default]. *)
Definition default_cache : StorageCache :=
  {| sc_recs := from_map ∅; sc_kill := no_kills; sc_misc := misc_default; sc_index := ∅ |}.

Definition contents (c : StorageCache) : Contents Rec Misc :=
  {| ct_recs := tr_map (sc_recs c); ct_kill := sc_kill c; ct_misc := sc_misc c |}.

Definition map_recs (f : Tracked (Collection * string) Rec → Tracked (Collection * string) Rec)
    (c : StorageCache) : StorageCache :=
  {| sc_recs := f (sc_recs c); sc_kill := sc_kill c; sc_misc := sc_misc c; sc_index := sc_index c |}.
Definition with_kill (k : KillFenceState) (c : StorageCache) : StorageCache :=
  {| sc_recs := sc_recs c; sc_kill := k; sc_misc := sc_misc c; sc_index := sc_index c |}.
Definition with_misc (m : Misc) (c : StorageCache) : StorageCache :=
  {| sc_recs := sc_recs c; sc_kill := sc_kill c; sc_misc := m; sc_index := sc_index c |}.
Definition map_marks (f : BTreeMap string KillMark → BTreeMap string KillMark) (k : KillFenceState)
    : KillFenceState := {| kf_epoch := kf_epoch k; kf_marks := f (kf_marks k) |}.

(** [misc_bytes] and [restore_misc]. *)
Definition misc_bytes (c : StorageCache) : bytes := default [] (misc_to_vec (sc_misc c)).
Definition restore_misc (b : bytes) (c : StorageCache) : StorageCache :=
  with_misc (default misc_default (misc_from_slice b)) c.

(** [rebuild_indexes]. *)
Definition rebuild_cache_indexes (c : StorageCache) : StorageCache :=
  {| sc_recs := sc_recs c; sc_kill := sc_kill c; sc_misc := sc_misc c;
     sc_index := map_fold (λ (ck : Collection * string) r idx,
                   match rec_attr ck.1 r with Some a => <[(ck.1, a) := ck.2]> idx | None => idx end)
                   ∅ (tr_map (sc_recs c)) |}.

(** [validate_primary_shapes]: credentials, approvals and native drafts carry the id
    they are filed under and a valid shape, and no two credentials share an alias. *)
Definition shape_checked (c : Collection) : bool :=
  match c with Credentials | Approvals | NativeDrafts => true | _ => false end.
Definition shape_ok (e : (Collection * string) * Rec) : bool :=
  negb (shape_checked e.1.1) || (String.eqb e.1.2 (rec_id e.1.1 e.2) && rec_valid e.1.1 e.2).
Definition aliases (m : gmap (Collection * string) Rec) : list string :=
  omap (λ e : (Collection * string) * Rec,
          if decide (e.1.1 = Credentials) then rec_attr Credentials e.2 else None) (map_to_list m).
Definition shapes_ok (m : gmap (Collection * string) Rec) : bool :=
  forallb shape_ok (map_to_list m) && bool_decide (NoDup (aliases m)).
Definition validate_cache_shapes (c : StorageCache) : result unit VaultError :=
  if shapes_ok (tr_map (sc_recs c)) then Ok tt else Err E_Shape.

(** [rollback_all] and [commit_all]. *)
Definition rollback_all : StorageCache → StorageCache := map_recs tr_rollback.
Definition commit_all : StorageCache → StorageCache := map_recs tr_commit.

(** ** Collecting the changes *)

(** The loop body of [col!]. *)
Definition change_op (c : Collection) (e : (Collection * string) * option Rec)
    : result Op VaultError :=
  match e.2 with
  | Some r =>
      match rec_to_value c r with
      | Some v => Ok (OpPut (col_name c) e.1.2 v)
      | None => Err E_Serialize
      end
  | None => Ok (OpDel (col_name c) e.1.2)
  end.

Definition in_col (c : Collection) (e : (Collection * string) * option Rec) : bool :=
  bool_decide (e.1.1 = c).

Definition col_ops (cache : StorageCache) (c : Collection) : result (list Op) VaultError :=
  try_map (change_op c) (List.filter (in_col c) (changes (sc_recs cache))).

(** The kill fence, diffed against the committed one. *)
Definition mark_op (e : string * KillMark) : result Op VaultError :=
  match mark_to_value e.2 with
  | Some v => Ok (OpPut KILL_MARKS e.1 v)
  | None => Err E_Serialize
  end.
Definition new_marks (old new : KillFenceState) : list (string * KillMark) :=
  List.filter (λ e, negb (bool_decide (bt_get (kf_marks old) e.1 = Some e.2))) (kf_marks new).
Definition gone_marks (old new : KillFenceState) : list string :=
  List.filter (λ id, bool_decide (bt_get (kf_marks new) id = None)) (bt_keys (kf_marks old)).
Definition kill_ops (old new : KillFenceState) : result (list Op) VaultError :=
  let? puts := try_map mark_op (new_marks old new) in
  Ok ((if kf_epoch new =? kf_epoch old then [] else [OpKillEpoch (kf_epoch new)])
      ++ puts ++ (OpDel KILL_MARKS <$> gone_marks old new)).

(** [collect_ops]; [committed_kill] and [committed_misc] are the baselines that
    [LogState] keeps. *)
Definition collect_ops (committed_kill : KillFenceState) (committed_misc : bytes)
    (cache : StorageCache) : result (list Op) VaultError :=
  let? cols := try_map (col_ops cache) collections in
  let? kills := kill_ops committed_kill (sc_kill cache) in
  let misc := misc_bytes cache in
  if decide (misc = committed_misc) then Ok (concat cols ++ kills)
  else match value_from_slice misc with
       | None => Err E_Serialize
       | Some v => Ok (concat cols ++ kills ++ [OpMisc v])
       end.

(** ** Replaying them *)

(** [apply_op]. *)
Definition apply_op (op : Op) (cache : StorageCache) : result StorageCache VaultError :=
  match op with
  | OpPut c k v =>
      match col_of_name c with
      | Some col =>
          match rec_from_value col v with
          | Some r => Ok (map_recs (insert_clean (col, k) r) cache)
          | None => Err E_BadRecord
          end
      | None =>
          if String.eqb c KILL_MARKS then
            match mark_from_value v with
            | Some m => Ok (with_kill (map_marks (bt_insert k m) (sc_kill cache)) cache)
            | None => Err E_BadRecord
            end
          else Err (E_UnknownCollection c)
      end
  | OpDel c k =>
      match col_of_name c with
      | Some col => Ok (map_recs (remove_clean (col, k)) cache)
      | None =>
          if String.eqb c KILL_MARKS then
            Ok (with_kill (map_marks (bt_remove k) (sc_kill cache)) cache)
          else Err (E_UnknownCollection c)
      end
  | OpKillEpoch e => Ok (with_kill {| kf_epoch := e; kf_marks := kf_marks (sc_kill cache) |} cache)
  | OpMisc v =>
      match misc_from_value v with
      | Some m => Ok (with_misc m cache)
      | None => Err E_BadRecord
      end
  end.

Fixpoint apply_ops (ops : list Op) (cache : StorageCache) : result StorageCache VaultError :=
  match ops with
  | [] => Ok cache
  | op :: ops' => let? cache' := apply_op op cache in apply_ops ops' cache'
  end.

(** The loop over the records of a log region: the last sequence whose operations all
    applied, and the state. *)
Fixpoint apply_records (seq : Z) (records : list (Z * list Op)) (cache : StorageCache)
    : Z * result StorageCache VaultError :=
  match records with
  | [] => (seq, Ok cache)
  | (s, ops) :: rest =>
      match apply_ops ops cache with
      | Err e => (seq, Err e)
      | Ok cache' => apply_records s rest cache'
      end
  end.

(** [parse_cache]: a snapshot, or the legacy map of credentials. *)
Definition parse_cache (decrypted : bytes) : result StorageCache VaultError :=
  let? c :=
    match contents_from_slice decrypted with
    | Some c => Ok {| sc_recs := from_map (ct_recs c); sc_kill := ct_kill c;
                      sc_misc := ct_misc c; sc_index := ∅ |}
    | None =>
        match credentials_from_slice decrypted with
        | Some m => Ok (map_recs (λ _, from_map (kmap (pair Credentials) m)) default_cache)
        | None => Err E_Serialize
        end
    end in
  let? _ := validate_cache_shapes c in
  Ok (rebuild_cache_indexes c).

(** ** Lemmas *)

Lemma try_map_Ok {A B E} (f : A → result B E) l ys :
  try_map f l = Ok ys ↔ Forall2 (λ x y, f x = Ok y) l ys.
Proof.
  revert ys. induction l as [|x l IH]; intros ys; cbn [try_map].
  { split; [intros [= <-]; constructor|by inversion 1]. }
  destruct (f x) as [y|] eqn:Ex; cbn [result_bind].
  - destruct (try_map f l) as [ys'|] eqn:El; cbn [result_bind].
    + split.
      * intros [= <-]. constructor; [done|]. by apply IH.
      * inversion 1; subst. assert (ys' = l') as ->; [|congruence].
        apply IH in H4. congruence.
    + split; [done|]. inversion 1; subst. apply IH in H4. congruence.
  - split; [done|]. inversion 1; subst. congruence.
Qed.

Lemma apply_ops_app a b cache :
  apply_ops (a ++ b) cache = (let? c := apply_ops a cache in apply_ops b c).
Proof.
  revert cache. induction a as [|op a IH]; intros cache; [done|]. cbn [app apply_ops].
  destruct (apply_op op cache); cbn [result_bind]; [apply IH|done].
Qed.

Lemma apply_records_app seq r1 r2 cache :
  apply_records seq (r1 ++ r2) cache
  = match apply_records seq r1 cache with
    | (s, Ok c) => apply_records s r2 c
    | (s, Err e) => (s, Err e)
    end.
Proof.
  revert seq cache. induction r1 as [|[s ops] r1 IH]; intros seq cache; [done|].
  cbn [app apply_records]. by destruct (apply_ops ops cache).
Qed.

Lemma apply_records_reached seq rs cache c s :
  apply_records seq rs cache = (s, Ok c) → s = reached seq rs.
Proof.
  revert seq cache. induction rs as [|[s' ops] rs IH]; intros seq cache; cbn.
  { by intros [= <- _]. }
  destruct (apply_ops ops cache); [apply IH|done].
Qed.

(** Replay never records a touch and never reads an index. *)
Definition clean (c : StorageCache) : Prop := tr_touched (sc_recs c) = ∅.

Lemma apply_ops_contents ops c1 c2 c1' :
  contents c1 = contents c2 → clean c2 → apply_ops ops c1 = Ok c1' →
  ∃ c2', apply_ops ops c2 = Ok c2' ∧ contents c1' = contents c2' ∧ clean c2'.
Proof.
  revert c1 c2. induction ops as [|op ops IH]; intros c1 c2 Hc Hcl; cbn [apply_ops].
  { intros [= <-]. by exists c2. }
  injection Hc as Hr Hk Hm.
  destruct op as [c k v|c k|e|v]; cbn [apply_op].
  - destruct (col_of_name c); [destruct (rec_from_value _ v)|
      destruct (String.eqb c KILL_MARKS); [destruct (mark_from_value v)|]]; cbn [result_bind];
      intros H; try discriminate H; (eapply IH; [|exact Hcl|exact H]); unfold contents; cbn;
      by rewrite ?Hr, ?Hk, ?Hm.
  - destruct (col_of_name c); [|destruct (String.eqb c KILL_MARKS)]; cbn [result_bind];
      intros H; try discriminate H; (eapply IH; [|exact Hcl|exact H]); unfold contents; cbn;
      by rewrite ?Hr, ?Hk, ?Hm.
  - cbn [result_bind]. intros H. (eapply IH; [|exact Hcl|exact H]); unfold contents; cbn;
      by rewrite ?Hr, ?Hk, ?Hm.
  - destruct (misc_from_value v); cbn [result_bind]; intros H; [|done].
    (eapply IH; [|exact Hcl|exact H]); unfold contents; cbn;
      by rewrite ?Hr, ?Hk, ?Hm.
Qed.

Lemma apply_records_contents rs seq c1 c2 s c1' :
  contents c1 = contents c2 → clean c2 → apply_records seq rs c1 = (s, Ok c1') →
  ∃ c2', apply_records seq rs c2 = (s, Ok c2') ∧ contents c1' = contents c2' ∧ clean c2'.
Proof.
  revert seq c1 c2. induction rs as [|[s' ops] rs IH]; intros seq c1 c2 Hc Hcl; cbn [apply_records].
  { intros [= <- <-]. by exists c2. }
  destruct (apply_ops ops c1) as [c1''|] eqn:E; [|done].
  destruct (apply_ops_contents _ _ _ _ Hc Hcl E) as (c2'' & -> & Hc' & Hcl'). by apply IH.
Qed.

Lemma rebuild_contents c : contents (rebuild_cache_indexes c) = contents c.
Proof. done. Qed.
Lemma rebuild_clean c : clean c → clean (rebuild_cache_indexes c).
Proof. done. Qed.

Lemma parse_cache_clean b c : parse_cache b = Ok c → clean c.
Proof.
  unfold parse_cache. destruct (contents_from_slice b) as [ct|]; cbn [result_bind].
  - destruct (validate_cache_shapes _); cbn [result_bind]; [|done]. by intros [= <-].
  - destruct (credentials_from_slice b); cbn [result_bind]; [|done].
    destruct (validate_cache_shapes _); cbn [result_bind]; [|done]. by intros [= <-].
Qed.

(** ** Collected changes replay to the new contents *)

Context {CL : CacheSerdeLaws}.

Lemma parse_cache_contents c b :
  contents_to_vec (contents c) = Some b → shapes_ok (tr_map (sc_recs c)) = true →
  ∃ c', parse_cache b = Ok c' ∧ contents c' = contents c ∧ clean c'.
Proof.
  intros Hb Hs. unfold parse_cache. rewrite (contents_round_trip _ _ Hb). cbn [result_bind].
  unfold validate_cache_shapes. cbn [sc_recs tr_map from_map contents ct_recs]. rewrite Hs.
  cbn [result_bind]. eexists. done.
Qed.

Lemma misc_bytes_inj c c' : misc_bytes c = misc_bytes c' → sc_misc c = sc_misc c'.
Proof.
  unfold misc_bytes. destruct (misc_serializes (sc_misc c)) as [b Hb].
  destruct (misc_serializes (sc_misc c')) as [b' Hb']. rewrite Hb, Hb'. cbn. intros ->.
  apply misc_round_trip in Hb, Hb'. congruence.
Qed.

Lemma restore_misc_bytes c c' : sc_misc (restore_misc (misc_bytes c) c') = sc_misc c.
Proof.
  unfold misc_bytes, restore_misc. destruct (misc_serializes (sc_misc c)) as [b Hb].
  rewrite Hb. cbn. by rewrite (misc_round_trip _ _ Hb).
Qed.

Lemma apply_change_ops c l ops cache :
  (∀ e, e ∈ l → in_col c e = true) → try_map (change_op c) l = Ok ops →
  apply_ops ops cache = Ok (map_recs (set_map (λ m, foldl put_change m l)) cache).
Proof.
  intros Hl Hops. apply try_map_Ok in Hops. revert cache.
  induction Hops as [|[[c' k] cur] op l ops Hop _ IH]; intros cache.
  { destruct cache as [[m t] k x i]. done. }
  assert (c' = c) as ->. { specialize (Hl (c', k, cur) ltac:(constructor)). by apply bool_decide_eq_true in Hl. }
  cbn [apply_ops]. unfold change_op in Hop. cbn in Hop.
  assert (Happ : apply_op op cache = Ok (map_recs (set_map (λ m, put_change m (c, k, cur))) cache)).
  { destruct cur as [r|].
    - destruct (rec_to_value c r) as [v|] eqn:Ev; [|done]. injection Hop as <-. cbn [apply_op].
      by rewrite col_of_name_name, (rec_round_trip _ _ _ Ev).
    - injection Hop as <-. cbn [apply_op]. by rewrite col_of_name_name. }
  rewrite Happ. cbn [result_bind]. rewrite IH; [done|]. intros e He. apply Hl. by constructor.
Qed.

Lemma filter_or_split {A} (f g : A → bool) l :
  (∀ x, f x = true → g x = false) →
  List.filter (λ x, f x || g x) l ≡ₚ List.filter f l ++ List.filter g l.
Proof.
  intros Hd. induction l as [|x l IH]; [done|]. cbn [List.filter]. specialize (Hd x).
  destruct (f x), (g x); cbn [orb app]; [by specialize (Hd eq_refl)| | |done].
  - by rewrite IH.
  - rewrite IH. apply Permutation_middle.
Qed.

(** The columns together are all the changes. *)
Lemma columns_perm (l : list ((Collection * string) * option Rec)) (cs : list Collection) :
  NoDup cs →
  concat ((λ c, List.filter (in_col c) l) <$> cs)
  ≡ₚ List.filter (λ e, bool_decide (e.1.1 ∈ cs)) l.
Proof.
  induction 1 as [|c cs Hc _ IH]; cbn [fmap list_fmap concat].
  - induction l as [|e l IH]; [done|]. cbn. done.
  - rewrite IH, <- filter_or_split.
    + apply Permutation_refl', filter_ext. intros e. unfold in_col.
      rewrite <- bool_decide_or. apply bool_decide_ext. by rewrite elem_of_cons.
    + intros e He. unfold in_col in He. apply bool_decide_eq_true in He.
      apply bool_decide_eq_false. by rewrite He.
Qed.

Lemma apply_columns cs lss cache0 cache :
  Forall2 (λ c ops, col_ops cache c = Ok ops) cs lss →
  apply_ops (concat lss) cache0
  = Ok (map_recs (set_map (λ m, foldl put_change m
          (concat ((λ c, List.filter (in_col c) (changes (sc_recs cache))) <$> cs)))) cache0).
Proof.
  intros HF. revert cache0. induction HF as [|c l cs lss Hc _ IH]; intros cache0.
  { destruct cache0 as [[m t] k x i]. done. }
  cbn [concat fmap list_fmap]. rewrite apply_ops_app.
  rewrite (apply_change_ops c (List.filter (in_col c) (changes (sc_recs cache))) l); [| |exact Hc].
  - cbn [result_bind]. rewrite IH. unfold map_recs, set_map. cbn. by rewrite foldl_app.
  - intros e [_ He]%elem_of_filter_bool. done.
Qed.

(** The tracked collections: what was committed becomes what is there now. *)
Lemma apply_columns_all base cols cache :
  clean base → tracks (tr_map (sc_recs base)) (sc_recs cache) →
  try_map (col_ops cache) collections = Ok cols →
  apply_ops (concat cols) base = Ok (map_recs (λ _, from_map (tr_map (sc_recs cache))) base).
Proof.
  intros Hcl Ht Hcols%try_map_Ok. rewrite (apply_columns _ _ base cache Hcols).
  unfold map_recs, set_map, from_map. do 3 f_equal; [|exact Hcl].
  apply changes_perm; [done|]. rewrite columns_perm by apply collections_NoDup.
  rewrite (filter_ext _ (λ _, true)).
  - by induction (changes (sc_recs cache)) as [|e l IH]; cbn; rewrite ?IH.
  - intros e. apply bool_decide_eq_true. apply collections_all.
Qed.

Lemma apply_mark_puts l ops cache :
  try_map mark_op l = Ok ops →
  apply_ops ops cache
  = Ok (with_kill (map_marks (λ m, foldl (λ m e, bt_insert e.1 e.2 m) m l) (sc_kill cache)) cache).
Proof.
  intros Hops%try_map_Ok. revert cache.
  induction Hops as [|[id mark] op l ops Hop _ IH]; intros cache.
  { by destruct cache as [? [? ?] ? ?]. }
  unfold mark_op in Hop. cbn [fst snd] in Hop.
  destruct (mark_to_value mark) as [v|] eqn:Ev; [|done]. injection Hop as <-.
  cbn [apply_ops apply_op]. change (col_of_name KILL_MARKS) with (@None Collection).
  cbn beta iota. rewrite String.eqb_refl, (mark_round_trip _ _ Ev). cbn [result_bind].
  rewrite IH. done.
Qed.

Lemma apply_mark_dels l cache :
  apply_ops (OpDel KILL_MARKS <$> l) cache
  = Ok (with_kill (map_marks (λ m, foldl (λ m id, bt_remove id m) m l) (sc_kill cache)) cache).
Proof.
  revert cache. induction l as [|id l IH]; intros cache.
  { by destruct cache as [? [? ?] ? ?]. }
  cbn [fmap list_fmap apply_ops apply_op]. change (col_of_name KILL_MARKS) with (@None Collection).
  cbn beta iota. rewrite String.eqb_refl. cbn [result_bind]. rewrite IH. done.
Qed.

Lemma foldl_bt_insert_ok (l : list (string * KillMark)) m :
  bt_ok m → bt_ok (foldl (λ m e, bt_insert e.1 e.2 m) m l).
Proof. revert m. induction l as [|e l IH]; intros m Hm; cbn; auto with vul. Qed.

Lemma foldl_bt_remove_ok (l : list string) (m : BTreeMap string KillMark) :
  bt_ok m → bt_ok (foldl (λ m id, bt_remove id m) m l).
Proof. revert m. induction l as [|e l IH]; intros m Hm; cbn; auto with vul. Qed.

Lemma foldl_bt_insert_get (l : list (string * KillMark)) m k :
  bt_ok m → NoDup l.*1 →
  (∀ v, (k, v) ∈ l → bt_get (foldl (λ m e, bt_insert e.1 e.2 m) m l) k = Some v)
  ∧ (k ∉ l.*1 → bt_get (foldl (λ m e, bt_insert e.1 e.2 m) m l) k = bt_get m k).
Proof.
  revert m. induction l as [|[k' v'] l IH]; intros m Hm HN; cbn [foldl].
  { split; [by intros ? ?%elem_of_nil|done]. }
  assert (Hk := NoDup_cons_1_1 _ _ HN). apply NoDup_cons_1_2 in HN. cbn [fst snd] in *.
  destruct (IH (bt_insert k' v' m) (bt_insert_ok _ _ _ Hm) HN) as [H1 H2]. split.
  - intros v [[= -> ->]|Hin]%elem_of_cons; [|by apply H1].
    rewrite H2 by done. by apply bt_get_insert.
  - intros [Hne Hl]%not_elem_of_cons. rewrite H2 by done. apply bt_get_insert_ne. done.
Qed.

Lemma foldl_bt_remove_get (l : list string) (m : BTreeMap string KillMark) k :
  bt_get (foldl (λ m id, bt_remove id m) m l) k = if decide (k ∈ l) then None else bt_get m k.
Proof.
  revert m. induction l as [|k' l IH]; intros m; cbn [foldl].
  { by rewrite decide_False by apply not_elem_of_nil. }
  rewrite IH. destruct (decide (k = k')) as [->|Hne].
  - rewrite (decide_True _ _ (proj2 (elem_of_cons _ _ _) (or_introl eq_refl))).
    case_decide; [done|]. apply bt_get_remove.
  - rewrite bt_get_remove_ne by congruence.
    destruct (decide (k ∈ l)); [rewrite decide_True|rewrite decide_False];
      rewrite ?elem_of_cons; naive_solver.
Qed.

(** The diff of the kill fence turns the committed marks into the current ones. *)
Lemma diffed_marks old new :
  bt_ok (kf_marks old) → bt_ok (kf_marks new) →
  foldl (λ m id, bt_remove id m)
    (foldl (λ m e, bt_insert e.1 e.2 m) (kf_marks old) (new_marks old new)) (gone_marks old new)
  = kf_marks new.
Proof.
  intros Ho Hn. apply bt_ext; [by apply foldl_bt_remove_ok, foldl_bt_insert_ok|done|]. intros k.
  assert (HN : NoDup (new_marks old new).*1).
  { eapply sublist_NoDup; [apply (bt_keys_NoDup _ Hn)|].
    apply fmap_sublist. unfold new_marks. generalize (kf_marks new). intros l.
    induction l as [|x l IH]; cbn; [done|]. destruct (negb _); by constructor. }
  destruct (foldl_bt_insert_get (new_marks old new) (kf_marks old) k Ho HN) as [H1 H2].
  rewrite foldl_bt_remove_get.
  assert (Hgone : k ∈ gone_marks old new ↔
                  bt_get (kf_marks old) k ≠ None ∧ bt_get (kf_marks new) k = None).
  { unfold gone_marks. rewrite elem_of_filter_bool, bool_decide_eq_true.
    assert (Hk := bt_get_None k (kf_marks old)).
    destruct (decide (k ∈ bt_keys (kf_marks old))) as [Hin|Hin]; [|tauto].
    split; intros [_ ?]; (split; [|done]); [|done]. intros E. by apply Hk in E. }
  assert (Hnew : ∀ v, (k, v) ∈ new_marks old new ↔
                  bt_get (kf_marks new) k = Some v ∧ bt_get (kf_marks old) k ≠ Some v).
  { intros v. unfold new_marks. rewrite elem_of_filter_bool, negb_true_iff, bool_decide_eq_false.
    cbn. split; intros [? ?]; (split; [|done]); [by apply bt_elem_of_get|by apply bt_get_elem_of]. }
  case_decide as Hg; [by apply Hgone in Hg as [_ ->]|].
  destruct (bt_get (kf_marks new) k) as [v|] eqn:Ek.
  - destruct (decide (bt_get (kf_marks old) k = Some v)) as [Eo|Eo].
    + rewrite H2; [done|]. intros ([k' v'] & -> & Hin)%list_elem_of_fmap.
      cbn in *. apply Hnew in Hin as [? ?]. congruence.
    + by apply H1, Hnew.
  - rewrite H2.
    + destruct (bt_get (kf_marks old) k); [|done]. destruct Hg. by apply Hgone.
    + intros ([k' v'] & -> & Hin)%list_elem_of_fmap. cbn in *. by apply Hnew in Hin as [? _].
Qed.

Lemma apply_kill_ops old new ops cache :
  bt_ok (kf_marks old) → bt_ok (kf_marks new) → sc_kill cache = old →
  kill_ops old new = Ok ops → apply_ops ops cache = Ok (with_kill new cache).
Proof.
  intros Ho Hn Hk. unfold kill_ops.
  destruct (try_map mark_op _) as [puts|] eqn:Ep; cbn [result_bind]; [|done]. intros [= <-].
  assert (He : ∀ c, kf_marks (sc_kill c) = kf_marks old →
    apply_ops (puts ++ (OpDel KILL_MARKS <$> gone_marks old new)) c
    = Ok (with_kill {| kf_epoch := kf_epoch (sc_kill c); kf_marks := kf_marks new |} c)).
  { intros c Hc. rewrite apply_ops_app, (apply_mark_puts _ _ _ Ep). cbn [result_bind].
    rewrite apply_mark_dels. unfold map_marks, with_kill. cbn. by rewrite Hc, diffed_marks. }
  rewrite apply_ops_app. destruct (Z.eqb_spec (kf_epoch new) (kf_epoch old)) as [Eq|Ne].
  - cbn [apply_ops result_bind]. rewrite He by (by rewrite Hk). rewrite Hk, <- Eq.
    by destruct new.
  - cbn [apply_ops apply_op result_bind]. rewrite He by (cbn; by rewrite Hk). cbn. by destruct new.
Qed.

(** Replaying what was collected on the committed state gives the new contents. *)
Lemma apply_collected base cache ops :
  clean base → tracks (tr_map (sc_recs base)) (sc_recs cache) →
  bt_ok (kf_marks (sc_kill base)) → bt_ok (kf_marks (sc_kill cache)) →
  collect_ops (sc_kill base) (misc_bytes base) cache = Ok ops →
  ∃ c', apply_ops ops base = Ok c' ∧ contents c' = contents cache ∧ clean c'.
Proof.
  intros Hcl Ht Hk Hk'. unfold collect_ops.
  destruct (try_map (col_ops cache) collections) as [cols|] eqn:Ec; cbn [result_bind]; [|done].
  destruct (kill_ops _ _) as [kills|] eqn:Ekl; cbn [result_bind]; [|done].
  assert (H1 := apply_columns_all base cols cache Hcl Ht Ec).
  assert (H2 := apply_kill_ops (sc_kill base) (sc_kill cache) kills
                  (map_recs (λ _, from_map (tr_map (sc_recs cache))) base) Hk Hk' eq_refl Ekl).
  case_decide as Em.
  - intros [= <-]. rewrite apply_ops_app, H1. cbn [result_bind]. rewrite H2.
    eexists. split; [done|]. split; [|done]. unfold contents. cbn.
    f_equal. symmetry. by apply misc_bytes_inj.
  - destruct (value_from_slice (misc_bytes cache)) as [v|] eqn:Ev; [|done]. intros [= <-].
    rewrite apply_ops_app, H1. cbn [result_bind]. rewrite apply_ops_app, H2.
    cbn [result_bind apply_ops apply_op]. destruct (misc_serializes (sc_misc cache)) as [b Hb].
    assert (misc_bytes cache = b) as Eb by (unfold misc_bytes; by rewrite Hb). rewrite Eb in Ev.
    rewrite (misc_value_round_trip _ _ _ Hb Ev). cbn [result_bind].
    eexists. split; [done|]. done.
Qed.

(** Undoing a mutation returns to the committed contents. *)
Lemma rollback_contents base cache :
  clean base → tracks (tr_map (sc_recs base)) (sc_recs cache) →
  let undone := rebuild_cache_indexes (restore_misc (misc_bytes base)
                  (with_kill (sc_kill base) (rollback_all cache))) in
  contents undone = contents base ∧ clean undone.
Proof.
  intros Hcl Ht. cbv zeta. split.
  - rewrite rebuild_contents. unfold contents. f_equal.
    + change (tr_map (tr_rollback (sc_recs cache)) = tr_map (sc_recs base)).
      by rewrite (rollback_tracks _ _ Ht).
    + apply restore_misc_bytes.
  - unfold clean. cbn. done.
Qed.
End cache.
