(* ===== verification/VaultFile.v ===== *)
(** * The vault's files: snapshot, log, locked operations

    Models the file protocol of [FileStorage] in [src/src/storage/file.rs]: loading the
    snapshot and the log ([full_load_locked]), catching up with what other processes
    appended ([sync_locked], [apply_log_tail]), committing a mutation as one fsynced
    record ([append_record_locked], [commit_locked]), rolling back, compaction, the
    migration of an older vault with its backup, and the locked read-modify-write and
    read that every other operation of the vault goes through.

    An operation runs in the monad [io]: the process's [LogState] and [StorageCache],
    the directory ([Disk]) and a list of [Fate]s, one for each step that writes or
    reads a file.  A step succeeds, fails or ends the process, and a failing or ending
    step may still have had a part of its effect; an exhausted list means that the
    remaining steps succeed.  A step that returned is durable (the code fsyncs before
    it goes on), and a file is identified by a token that no later file has: these are
    the two assumptions on the file system.  The cross-process lock makes one operation
    at a time run; [VaultSystem] interleaves the operations of several processes. *)

From stdpp Require Import base gmap strings list.
From Stdlib Require Import Ascii ZArith Lia.
From S2P Require Import Prelude RustStr BTree Json KillFence Egress Crypto Tracked VaultLog.
From S2P Require Import VaultCache.

Open Scope Z_scope.

(** ** Files *)

Definition STORAGE_VERSION : Z := 10.
Definition DEFAULT_COMPACT_MIN_BYTES : nat := N.to_nat (256 * 1024).

(** [StorageFile] and its [serde_json] text. *)
Record StorageFile := {
  sf_version : Z;
  sf_salt : string;
  sf_kdf : KdfParams;
  sf_applied_seq : Z;
  sf_data : EncryptedData;
}.

Class FileSerde := {
  storage_file_to_string : StorageFile → option bytes;
  storage_file_from_str : bytes → option StorageFile;
}.

Class FileSerdeLaws {FS : FileSerde} : Prop := {
  storage_file_round_trip f b :
    storage_file_to_string f = Some b → storage_file_from_str b = Some f;
}.

(** A file with its identity ([FileToken]). *)
Record File := { fl_token : Z; fl_bytes : bytes }.

(** The vault's directory: the snapshot, the log, their temporary files, the backups of
    migrated vaults by version and suffix, and the next unused token. *)
Record Disk := {
  d_vault : option File;
  d_wal : option bytes;
  d_vault_tmp : option File;
  d_wal_tmp : option bytes;
  d_bak_tmp : option bytes;
  d_backups : gmap (Z * option Z) bytes;
  d_clock : Z;
}.

Definition set_wal (w : option bytes) (d : Disk) : Disk :=
  {| d_vault := d_vault d; d_wal := w; d_vault_tmp := d_vault_tmp d; d_wal_tmp := d_wal_tmp d;
     d_bak_tmp := d_bak_tmp d; d_backups := d_backups d; d_clock := d_clock d |}.
Definition set_wal_tmp (w : option bytes) (d : Disk) : Disk :=
  {| d_vault := d_vault d; d_wal := d_wal d; d_vault_tmp := d_vault_tmp d; d_wal_tmp := w;
     d_bak_tmp := d_bak_tmp d; d_backups := d_backups d; d_clock := d_clock d |}.
Definition set_bak_tmp (w : option bytes) (d : Disk) : Disk :=
  {| d_vault := d_vault d; d_wal := d_wal d; d_vault_tmp := d_vault_tmp d; d_wal_tmp := d_wal_tmp d;
     d_bak_tmp := w; d_backups := d_backups d; d_clock := d_clock d |}.

(** Creating the temporary snapshot, and the renames. *)
Definition create_vault_tmp (b : bytes) (d : Disk) : Disk :=
  {| d_vault := d_vault d; d_wal := d_wal d;
     d_vault_tmp := Some {| fl_token := d_clock d; fl_bytes := b |}; d_wal_tmp := d_wal_tmp d;
     d_bak_tmp := d_bak_tmp d; d_backups := d_backups d; d_clock := d_clock d + 1 |}.
Definition rename_vault (d : Disk) : Disk :=
  {| d_vault := d_vault_tmp d; d_wal := d_wal d; d_vault_tmp := None; d_wal_tmp := d_wal_tmp d;
     d_bak_tmp := d_bak_tmp d; d_backups := d_backups d; d_clock := d_clock d |}.
Definition rename_wal (d : Disk) : Disk :=
  {| d_vault := d_vault d; d_wal := d_wal_tmp d; d_vault_tmp := d_vault_tmp d; d_wal_tmp := None;
     d_bak_tmp := d_bak_tmp d; d_backups := d_backups d; d_clock := d_clock d |}.
Definition rename_bak (name : Z * option Z) (d : Disk) : Disk :=
  {| d_vault := d_vault d; d_wal := d_wal d; d_vault_tmp := d_vault_tmp d; d_wal_tmp := d_wal_tmp d;
     d_bak_tmp := None;
     d_backups := match d_bak_tmp d with Some b => <[name := b]> (d_backups d) | None => d_backups d end;
     d_clock := d_clock d |}.

(** [File::set_len]: cuts, or extends with zero bytes. *)
Definition set_len (n : nat) (w : bytes) : bytes :=
  firstn n w ++ replicate (n - length w) "000"%char.

Definition file_token (d : Disk) : option Z := fl_token <$> d_vault d.
Definition wal_len_opt (d : Disk) : option nat := length <$> d_wal d.

Section file.
Context {SC : SealCrates} {LS : LogSerde} {CS : CacheSerde} {FS : FileSerde}.

(** [LogState]. *)
Record LogState := {
  ls_loaded : bool;
  ls_snap_token : option Z;
  ls_snap_len : nat;
  ls_snapshot_version : Z;
  ls_applied_seq : Z;
  ls_wal_offset : nat;
  ls_committed_kill : KillFenceState;
  ls_misc_bytes : bytes;
}.

Definition default_log : LogState :=
  {| ls_loaded := false; ls_snap_token := None; ls_snap_len := 0; ls_snapshot_version := 0;
     ls_applied_seq := 0; ls_wal_offset := 0; ls_committed_kill := no_kills; ls_misc_bytes := [] |}.

Definition set_loaded (b : bool) (l : LogState) : LogState :=
  {| ls_loaded := b; ls_snap_token := ls_snap_token l; ls_snap_len := ls_snap_len l;
     ls_snapshot_version := ls_snapshot_version l; ls_applied_seq := ls_applied_seq l;
     ls_wal_offset := ls_wal_offset l; ls_committed_kill := ls_committed_kill l;
     ls_misc_bytes := ls_misc_bytes l |}.

(** The position in the log after reading or writing up to it. *)
Definition advance (seq : Z) (offset : nat) (l : LogState) : LogState :=
  {| ls_loaded := ls_loaded l; ls_snap_token := ls_snap_token l; ls_snap_len := ls_snap_len l;
     ls_snapshot_version := ls_snapshot_version l; ls_applied_seq := seq;
     ls_wal_offset := offset; ls_committed_kill := ls_committed_kill l;
     ls_misc_bytes := ls_misc_bytes l |}.

(** [LogState::refresh_baselines]. *)
Definition refresh_baselines (c : StorageCache) (l : LogState) : LogState :=
  {| ls_loaded := ls_loaded l; ls_snap_token := ls_snap_token l; ls_snap_len := ls_snap_len l;
     ls_snapshot_version := ls_snapshot_version l; ls_applied_seq := ls_applied_seq l;
     ls_wal_offset := ls_wal_offset l; ls_committed_kill := sc_kill c;
     ls_misc_bytes := misc_bytes c |}.

(** What is fixed when a vault is opened ([FileStorage]). *)
Record Handle := { h_key : MasterKey; h_salt : string; h_kdf : KdfParams; h_compact_min : nat }.

(** ** Running against files that can fail *)

(** What becomes of one step: it succeeds, returns an error, or the process ends in it;
    the number says how much of its effect it had. *)
Inductive Fate := F_ok | F_err (n : nat) | F_crash (n : nat).

Inductive outcome (A : Type) := Done (a : A) | Failed (e : VaultError) | Panicked | Crashed.
#[global] Arguments Done {A} a.
#[global] Arguments Failed {A} e.
#[global] Arguments Panicked {A}.
#[global] Arguments Crashed {A}.

Record World := {
  w_log : LogState;
  w_cache : StorageCache;
  w_disk : Disk;
  w_fates : list Fate;
}.

Definition io (A : Type) : Type := World → outcome A * World.

Definition io_ret {A} (a : A) : io A := λ w, (Done a, w).
Definition io_fail {A} (e : VaultError) : io A := λ w, (Failed e, w).

Definition io_bind {A B} (m : io A) (k : A → io B) : io B := λ w,
  match m w with
  | (Done a, w') => k a w'
  | (Failed e, w') => (Failed e, w')
  | (Panicked, w') => (Panicked, w')
  | (Crashed, w') => (Crashed, w')
  end.

(** Runs the handler when the computation returned an error. *)
Definition io_catch {A} (m : io A) (h : VaultError → io A) : io A := λ w,
  match m w with
  | (Failed e, w') => h e w'
  | r => r
  end.

Notation "'let~' x ':=' m 'in' k" := (io_bind m (λ x, k))
  (at level 10, x pattern, m at level 100, k at level 200).

Definition get_log : io LogState := λ w, (Done (w_log w), w).
Definition get_cache : io StorageCache := λ w, (Done (w_cache w), w).
Definition get_disk : io Disk := λ w, (Done (w_disk w), w).
Definition map_log (f : LogState → LogState) : io unit := λ w,
  (Done tt, {| w_log := f (w_log w); w_cache := w_cache w; w_disk := w_disk w; w_fates := w_fates w |}).
Definition map_cache (f : StorageCache → StorageCache) : io unit := λ w,
  (Done tt, {| w_log := w_log w; w_cache := f (w_cache w); w_disk := w_disk w; w_fates := w_fates w |}).
Definition of_result {A} (r : result A VaultError) : io A :=
  match r with Ok a => io_ret a | Err e => io_fail e end.

Definition with_disk (d : Disk) (fs : list Fate) (w : World) : World :=
  {| w_log := w_log w; w_cache := w_cache w; w_disk := d; w_fates := fs |}.

(** One step on the files: [part n] is the effect of a step that did not return
    normally, [full] the whole one. *)
Definition disk_step (part : nat → Disk → Disk) (full : Disk → Disk) : io unit := λ w,
  match w_fates w with
  | [] => (Done tt, with_disk (full (w_disk w)) [] w)
  | F_ok :: fs => (Done tt, with_disk (full (w_disk w)) fs w)
  | F_err n :: fs => (Failed E_Io, with_disk (part n (w_disk w)) fs w)
  | F_crash n :: fs => (Crashed, with_disk (part n (w_disk w)) fs w)
  end.

(** A step that has its effect or not, and a step that only reads. *)
Definition all_or_nothing (full : Disk → Disk) : nat → Disk → Disk :=
  λ n d, match n with O => d | S _ => full d end.
Definition atomic_step (full : Disk → Disk) : io unit := disk_step (all_or_nothing full) full.
Definition read_step : io unit := disk_step (λ _ d, d) (λ d, d).

(** ** Reading the files *)

(** [check_version]. *)
Definition check_version (found : Z) : result unit VaultError :=
  if STORAGE_VERSION <? found then Err (E_UnsupportedVersion found) else Ok tt.

(** The pure part of [read_snapshot]: the file's text to the sequence it contains, the
    parsed state and the version. *)
Definition decode_snapshot (h : Handle) (content : bytes) : result (Z * StorageCache * Z) VaultError :=
  match storage_file_from_str content with
  | None => Err E_Serialize
  | Some sf =>
      let? _ := check_version (sf_version sf) in
      match decrypt (sf_data sf) (h_key h) with
      | Err e => Err (E_Crypto e)
      | Ok plain =>
          let? cache := parse_cache plain in
          Ok (sf_applied_seq sf, cache, sf_version sf)
      end
  end.

(** [read_snapshot]. *)
Definition read_snapshot (h : Handle) : io (Z * StorageCache * Z) :=
  let~ _ := read_step in
  let~ d := get_disk in
  match d_vault d with
  | None => io_fail E_Io
  | Some f => of_result (decode_snapshot h (fl_bytes f))
  end.

(** [truncate_wal]. *)
Definition truncate_wal (len : nat) : io unit :=
  let~ d := get_disk in
  match d_wal d with
  | None => io_fail E_Io
  | Some w => atomic_step (set_wal (Some (set_len len w)))
  end.

(** [is_current]. *)
Definition is_current (l : LogState) (d : Disk) : bool :=
  ls_loaded l
  && match file_token d with
     | None => false
     | Some t => bool_decide (ls_snap_token l = Some t)
     end
  && bool_decide (wal_len_opt d = Some (ls_wal_offset l)).

(** [apply_log_tail]. *)
Definition apply_log_tail (h : Handle) (exclusive : bool) : io unit :=
  let~ _ := read_step in
  let~ d := get_disk in
  let~ l := get_log in
  match d_wal d with
  | None => io_fail E_Io
  | Some wal =>
      let region := skipn (ls_wal_offset l) wal in
      let~ parsed := of_result (parse_log region (ls_applied_seq l) (h_key h)) in
      let~ _ :=
        match pg_records parsed with
        | [] => io_ret tt
        | records =>
            let~ cache := get_cache in
            let '(seq, applied) := apply_records (ls_applied_seq l) records cache in
            let~ _ := map_log (advance seq (ls_wal_offset l)) in
            match (let? c := applied in let? _ := validate_cache_shapes c in Ok c) with
            | Err e =>
                let~ _ := map_cache (λ _, default_cache) in
                let~ _ := map_log (set_loaded false) in
                io_fail e
            | Ok c =>
                let~ _ := map_cache (λ _, rebuild_cache_indexes c) in
                map_log (refresh_baselines (rebuild_cache_indexes c))
            end
        end in
      let offset := (ls_wal_offset l + pg_consumed parsed)%nat in
      let~ _ := map_log (λ l', advance (ls_applied_seq l') offset l') in
      if pg_torn_tail parsed && exclusive then truncate_wal offset else io_ret tt
  end.

(** The log position and identity of a full load. *)
Definition loaded_log (seq : Z) (offset : nat) (tok : option Z) (len : nat) (version : Z)
    (c : StorageCache) : LogState :=
  {| ls_loaded := true; ls_snap_token := tok; ls_snap_len := len; ls_snapshot_version := version;
     ls_applied_seq := seq; ls_wal_offset := offset; ls_committed_kill := sc_kill c;
     ls_misc_bytes := misc_bytes c |}.

(** [full_load_locked]. *)
Definition full_load_locked (h : Handle) (exclusive : bool) : io unit :=
  let~ _ := map_log (set_loaded false) in
  let~ d := get_disk in
  let~ l := get_log in
  let snap_tok := file_token d in
  match snap_tok, ls_snap_token l with
  | None, Some _ => io_fail E_VaultFileGone
  | _, _ =>
      let~ (applied, fresh, version) :=
        match snap_tok with
        | Some _ => read_snapshot h
        | None => io_ret (0, default_cache, STORAGE_VERSION)
        end in
      let~ _ := read_step in
      let~ bytes :=
        match d_wal d with
        | Some b => io_ret b
        | None =>
            match snap_tok with
            | Some _ => if STORAGE_VERSION <=? version then io_fail (E_LogMissing version) else io_ret []
            | None => io_ret []
            end
        end in
      if (version <? STORAGE_VERSION) && negb (bool_decide (bytes = [])) then
        io_fail (E_StaleLog version)
      else
        let~ parsed := of_result (parse_log bytes applied (h_key h)) in
        let '(seq_now, replayed) := apply_records applied (pg_records parsed) fresh in
        let~ c := of_result replayed in
        let~ _ := of_result (validate_cache_shapes c) in
        let c := rebuild_cache_indexes c in
        let~ _ := if pg_torn_tail parsed && exclusive then truncate_wal (pg_consumed parsed)
                  else io_ret tt in
        let~ _ := map_cache (λ _, c) in
        map_log (λ _, loaded_log seq_now (pg_consumed parsed) snap_tok
                        (default O (length ∘ fl_bytes <$> d_vault d)) version c)
  end.

(** [sync_locked]. *)
Definition sync_locked (h : Handle) (exclusive : bool) : io unit :=
  let~ l := get_log in
  let~ d := get_disk in
  let full :=
    let~ _ := full_load_locked h exclusive in
    let~ l := get_log in
    if ls_snapshot_version l <? STORAGE_VERSION then
      let~ _ := map_log (set_loaded false) in
      io_fail (E_OldFormat (ls_snapshot_version l))
    else io_ret tt in
  if ls_loaded l
     && match file_token d with Some t => bool_decide (ls_snap_token l = Some t) | None => false end
  then
    match wal_len_opt d with
    | None => io_fail (E_LogGone false)
    | Some wal_len =>
        if (wal_len =? ls_wal_offset l)%nat then io_ret tt
        else if (ls_wal_offset l <? wal_len)%nat then
          io_catch (apply_log_tail h exclusive)
            (λ e, let~ _ := map_log (set_loaded false) in io_fail e)
        else io_fail (E_LogGone true)
    end
  else full.

(** ** Writing the files *)

(** [reset_wal]. *)
Definition reset_wal : io unit :=
  let~ _ := atomic_step (set_wal_tmp (Some [])) in
  atomic_step rename_wal.

(** [write_snapshot_tmp]; [nonce] is the one [encrypt] draws. *)
Definition write_snapshot_tmp (h : Handle) (nonce : Nonce) (cache : StorageCache) (applied_seq : Z)
    : io nat :=
  match contents_to_vec (contents cache) with
  | None => io_fail E_Serialize
  | Some data =>
      match encrypt nonce data (h_key h) with
      | Err e => io_fail (E_Crypto e)
      | Ok enc =>
          match storage_file_to_string
                  {| sf_version := STORAGE_VERSION; sf_salt := h_salt h; sf_kdf := h_kdf h;
                     sf_applied_seq := applied_seq; sf_data := enc |} with
          | None => io_fail E_Serialize
          | Some content =>
              let~ _ := disk_step (λ n, create_vault_tmp (firstn n content))
                                  (create_vault_tmp content) in
              io_ret (length content)
          end
      end
  end.

(** [compact_locked]. *)
Definition compact_locked (h : Handle) (nonce : Nonce) : io unit :=
  let~ cache := get_cache in
  let~ _ := of_result (validate_cache_shapes cache) in
  let~ _ := map_log (set_loaded false) in
  let~ d := get_disk in
  let~ _ := match d_wal d with None => reset_wal | Some _ => io_ret tt end in
  let~ l := get_log in
  let~ len := write_snapshot_tmp h nonce cache (ls_applied_seq l) in
  let~ _ := atomic_step rename_vault in
  let~ _ := reset_wal in
  let~ d := get_disk in
  match file_token d with
  | None => io_fail E_VaultFileGone
  | Some new_token =>
      map_log (λ l, {| ls_loaded := true; ls_snap_token := Some new_token; ls_snap_len := len;
                       ls_snapshot_version := STORAGE_VERSION; ls_applied_seq := ls_applied_seq l;
                       ls_wal_offset := 0; ls_committed_kill := ls_committed_kill l;
                       ls_misc_bytes := ls_misc_bytes l |})
  end.

(** The end of the log with [extra] after it; a missing log is created. *)
Definition extend_wal (extra : bytes) (d : Disk) : Disk :=
  set_wal (Some (default [] (d_wal d) ++ extra)) d.

(** [append_record_locked]. *)
Definition append_record_locked (h : Handle) (nonce : Nonce) (ops : list Op) : io unit :=
  let~ l := get_log in
  let seq := u64_next (ls_applied_seq l) in
  let~ line := of_result (encode_record nonce seq ops (h_key h)) in
  let~ d := get_disk in
  let created := bool_decide (d_wal d = None) in
  let~ _ := atomic_step (extend_wal []) in
  let~ d := get_disk in
  if negb (bool_decide (length (default [] (d_wal d)) = ls_wal_offset l)) then io_fail E_LogMoved
  else
    let~ _ :=
      io_catch (disk_step (λ n, extend_wal (firstn n line)) (extend_wal line))
        (λ e, let~ _ := io_catch (truncate_wal (ls_wal_offset l)) (λ _, io_ret tt) in io_fail e) in
    let~ _ := if created then read_step else io_ret tt in
    map_log (advance seq (ls_wal_offset l + length line)).

(** [commit_locked]. *)
Definition commit_locked (h : Handle) (nonce : Nonce) : io unit :=
  let~ cache := get_cache in
  let~ l := get_log in
  let~ _ := of_result (validate_cache_shapes cache) in
  let~ ops := of_result (collect_ops (ls_committed_kill l) (ls_misc_bytes l) cache) in
  let~ _ := match ops with [] => io_ret tt | _ => append_record_locked h nonce ops end in
  let~ _ := map_cache commit_all in
  map_log (refresh_baselines (commit_all cache)).

(** [rollback_locked]. *)
Definition rollback_locked : io unit :=
  let~ l := get_log in
  map_cache (λ c, rebuild_cache_indexes (restore_misc (ls_misc_bytes l)
                    (with_kill (ls_committed_kill l) (rollback_all c)))).

(** ** The locked operations *)

(** What the closure of a mutation does: it returns, fails or panics, having changed the
    state. *)
Inductive closure_verdict (A : Type) := V_ok (a : A) | V_err (e : VaultError) | V_panic.
#[global] Arguments V_ok {A} a.
#[global] Arguments V_err {A} e.
#[global] Arguments V_panic {A}.

Definition closure (A : Type) : Type := StorageCache → closure_verdict A * StorageCache.

(** [locked_mutate_blocking]; [n1] and [n2] are the nonces of the record and of the
    snapshot. *)
Definition locked_mutate_blocking {A} (h : Handle) (n1 n2 : Nonce) (f : closure A)
    (force_compact : bool) : io A :=
  let~ _ := sync_locked h true in
  let~ cache := get_cache in
  let '(v, cache') := f cache in
  let~ _ := map_cache (λ _, cache') in
  match v with
  | V_err e => let~ _ := rollback_locked in io_fail e
  | V_panic =>
      let~ _ := rollback_locked in
      let~ _ := map_log (set_loaded false) in
      (λ w, (Panicked, w))
  | V_ok r =>
      let~ _ :=
        io_catch (commit_locked h n1)
          (λ e, let~ _ := rollback_locked in
                let~ _ := map_log (set_loaded false) in
                io_fail e) in
      let~ l := get_log in
      let over := (Nat.max (h_compact_min h) (ls_snap_len l) <? ls_wal_offset l)%nat in
      let~ _ :=
        if over || force_compact then
          io_catch (compact_locked h n2)
            (λ e, if force_compact then io_fail e else map_log (set_loaded false))
        else io_ret tt in
      io_ret r
  end.

(** [locked_read_blocking]. *)
Definition locked_read_blocking {A} (h : Handle) (f : StorageCache → A) : io A :=
  let~ l := get_log in
  let~ d := get_disk in
  let~ _ := if is_current l d then io_ret tt else sync_locked h false in
  let~ cache := get_cache in
  io_ret (f cache).

(** [reload_blocking]. *)
Definition reload_blocking (h : Handle) : io unit := sync_locked h false.

(** ** Opening *)

(** [backup_before_migration]; [nanos] is the clock reading that names a second backup
    of the same version. *)
Definition backup_before_migration (from_version nanos : Z) : io unit :=
  let~ _ := read_step in
  let~ d := get_disk in
  match d_vault d with
  | None => io_fail E_Io
  | Some f =>
      let copy name :=
        let~ _ := disk_step (λ n, set_bak_tmp (Some (firstn n (fl_bytes f))))
                            (set_bak_tmp (Some (fl_bytes f))) in
        atomic_step (rename_bak name) in
      match d_backups d !! (from_version, None) with
      | None => copy (from_version, None)
      | Some b =>
          if bool_decide (b = fl_bytes f) then io_ret tt else copy (from_version, Some nanos)
      end
  end.

(** [bootstrap_locked]. *)
Definition bootstrap_locked (h : Handle) (nonce : Nonce) (now : DateTime) (nanos : Z) : io unit :=
  let~ _ := full_load_locked h true in
  let~ l := get_log in
  if ls_snapshot_version l <? STORAGE_VERSION then
    let~ _ := backup_before_migration (ls_snapshot_version l) nanos in
    let~ _ := map_cache (λ c, with_kill (stamp_unstamped now (sc_kill c)).2 c) in
    let~ _ := compact_locked h nonce in
    let~ cache := get_cache in
    map_log (refresh_baselines cache)
  else io_ret tt.

(** The locked part of [create]: [true] when another process created the vault first. *)
Definition create_locked (h : Handle) (nonce : Nonce) : io bool :=
  let~ d := get_disk in
  match d_vault d with
  | Some _ => io_ret true
  | None =>
      let~ _ := compact_locked h nonce in
      let~ cache := get_cache in
      let~ _ := map_log (refresh_baselines cache) in
      io_ret false
  end.
End file.
