(* ===== verification/VaultFileFacts.v ===== *)
(** * What the vault's files hold, and what each operation does to it

    [loads h vault log n c] says that a snapshot and a log, read from scratch, give the
    contents [c] after the record with sequence [n]; [good] says it of a directory.
    [in_step] is the invariant that ties a process's view to the directory: if its
    snapshot is still the current one, what it has read is a prefix of the log and its
    cache is what that prefix loads to.  [later] is how a directory can change under a
    process without breaking its view.

    For every operation of [VaultFile], and for every fate of its steps, a lemma states
    what it leaves on disk and in memory. *)

From stdpp Require Import base gmap strings list.
From Stdlib Require Import Ascii ZArith Lia.
From S2P Require Import Prelude RustStr BTree Json KillFence Egress Crypto Tracked VaultLog.
From S2P Require Import VaultCache VaultFile.

Open Scope Z_scope.

(** ** Reasoning about [io] *)

Section post.
Context {CS : CacheSerde}.

(** The outcome and the world after running satisfy [Q]. *)
Definition post {A} (m : io A) (w : World) (Q : outcome A → World → Prop) : Prop :=
  Q (m w).1 (m w).2.

Lemma post_mono {A} (m : io A) w (P Q : outcome A → World → Prop) :
  post m w P → (∀ o w', P o w' → Q o w') → post m w Q.
Proof. unfold post. auto. Qed.

Lemma post_bind {A B} (m : io A) (k : A → io B) w Q :
  post m w (λ o w', match o with
                    | Done a => post (k a) w' Q
                    | Failed e => Q (Failed e) w'
                    | Panicked => Q Panicked w'
                    | Crashed => Q Crashed w'
                    end) →
  post (io_bind m k) w Q.
Proof. unfold post, io_bind. destruct (m w) as [[] w']; cbn; done. Qed.

Lemma post_catch {A} (m : io A) h w Q :
  post m w (λ o w', match o with Failed e => post (h e) w' Q | o => Q o w' end) →
  post (io_catch m h) w Q.
Proof. unfold post, io_catch. destruct (m w) as [[] w']; cbn; done. Qed.

(** A step either has its whole effect, or some part of it and is the end of the
    operation or of the process; the latter only if a fate says so. *)
Lemma post_disk_step part full w (Q : outcome unit → World → Prop) :
  (∀ fs, (w_fates w = [] → fs = []) → Q (Done tt) (with_disk (full (w_disk w)) fs w)) →
  (w_fates w ≠ [] → ∀ n fs, Q (Failed E_Io) (with_disk (part n (w_disk w)) fs w)
                            ∧ Q Crashed (with_disk (part n (w_disk w)) fs w)) →
  post (disk_step part full) w Q.
Proof.
  intros H1 H2. unfold post, disk_step. destruct (w_fates w) as [|[|n|n] fs] eqn:E; cbn.
  - by apply H1.
  - by apply H1.
  - by apply H2.
  - by apply H2.
Qed.

(** The world with another log state or cache. *)
Definition upd_log (f : LogState → LogState) (w : World) : World :=
  {| w_log := f (w_log w); w_cache := w_cache w; w_disk := w_disk w; w_fates := w_fates w |}.
Definition upd_cache (f : StorageCache → StorageCache) (w : World) : World :=
  {| w_log := w_log w; w_cache := f (w_cache w); w_disk := w_disk w; w_fates := w_fates w |}.
End post.

(** Runs the steps that only look at or replace the process's own state. *)
Ltac io_pure :=
  repeat (cbv beta iota zeta;
  match goal with
  | |- post (io_bind get_log ?k) ?w ?Q => change (post (k (w_log w)) w Q)
  | |- post (io_bind get_cache ?k) ?w ?Q => change (post (k (w_cache w)) w Q)
  | |- post (io_bind get_disk ?k) ?w ?Q => change (post (k (w_disk w)) w Q)
  | |- post (io_bind (map_log ?f) ?k) ?w ?Q => change (post (k tt) (upd_log f w) Q)
  | |- post (io_bind (map_cache ?f) ?k) ?w ?Q => change (post (k tt) (upd_cache f w) Q)
  | |- post (io_bind (io_ret ?a) ?k) ?w ?Q => change (post (k a) w Q)
  | |- post (io_bind (of_result (Ok ?a)) ?k) ?w ?Q => change (post (k a) w Q)
  | |- post (io_bind (of_result (Err ?e)) ?k) ?w ?Q => change (Q (Failed e) w)
  | |- post (io_bind (io_fail ?e) ?k) ?w ?Q => change (Q (Failed e) w)
  | |- post (map_log ?f) ?w ?Q => change (Q (Done tt) (upd_log f w))
  | |- post (map_cache ?f) ?w ?Q => change (Q (Done tt) (upd_cache f w))
  | |- post (io_ret ?a) ?w ?Q => change (Q (Done a) w)
  | |- post (io_fail ?e) ?w ?Q => change (Q (Failed e) w)
  end); cbv beta iota zeta.

Lemma take_lines_eta r : take_lines r = ((take_lines r).1, (take_lines r).2).
Proof. by destruct (take_lines r). Qed.

(** A log that ends at a line boundary. *)
Definition complete (w : bytes) : Prop := (take_lines w).2 = [].

Lemma complete_unlines w : complete w → w = unlines (take_lines w).1.
Proof.
  intros H. assert (S := take_lines_spec w). rewrite take_lines_eta in S.
  destruct S as [S _]. by rewrite H, app_nil_r in S.
Qed.

Lemma take_lines_complete pre rest :
  complete pre →
  take_lines (pre ++ rest) = ((take_lines pre).1 ++ (take_lines rest).1, (take_lines rest).2).
Proof.
  intros H. rewrite (complete_unlines pre H) at 1. apply take_lines_unlines.
  assert (S := take_lines_spec pre). rewrite take_lines_eta in S. apply S.
Qed.

(** Cutting off the torn tail. *)
Definition whole_lines (w : bytes) : bytes := unlines (take_lines w).1.

Lemma whole_lines_tail w : w = whole_lines w ++ (take_lines w).2.
Proof. assert (S := take_lines_spec w). rewrite take_lines_eta in S. apply S. Qed.

Lemma take_lines_whole w : take_lines (whole_lines w) = ((take_lines w).1, []).
Proof.
  unfold whole_lines. rewrite <- (app_nil_r (unlines _)), take_lines_unlines; cbn.
  - by rewrite app_nil_r.
  - assert (S := take_lines_spec w). rewrite take_lines_eta in S. apply S.
Qed.

Lemma whole_lines_complete w : complete (whole_lines w).
Proof. unfold complete. by rewrite take_lines_whole. Qed.

Lemma whole_lines_prefix w pre rest :
  w = pre ++ rest → complete pre → ∃ rest', whole_lines w = pre ++ rest'.
Proof.
  intros -> H. unfold whole_lines. rewrite (take_lines_complete _ _ H). cbn [fst].
  rewrite unlines_app, <- (complete_unlines pre H). eauto.
Qed.

Lemma set_len_app a b : set_len (length a) (a ++ b) = a.
Proof.
  unfold set_len. rewrite take_app_length, length_app.
  replace (length a - (length a + length b))%nat with 0%nat by lia. apply app_nil_r.
Qed.

Section clean.
Context {CS : CacheSerde}.

(** Replay keeps a clean cache clean. *)
Lemma apply_records_clean seq rs cache s c :
  clean cache → apply_records seq rs cache = (s, Ok c) → clean c.
Proof.
  intros Hcl E. destruct (apply_records_contents _ _ cache cache _ _ eq_refl Hcl E) as (c' & E' & _ & H).
  rewrite E in E'. by injection E' as <-.
Qed.
End clean.

Section facts.
Context {SC : SealCrates} {LS : LogSerde} {CS : CacheSerde} {FS : FileSerde}.

Lemma decode_clean h content a c v : decode_snapshot h content = Ok (a, c, v) → clean c.
Proof.
  unfold decode_snapshot. destruct (storage_file_from_str content); [|done].
  destruct (check_version _); cbn [result_bind]; [|done]. destruct (decrypt _ _); [|done].
  destruct (parse_cache _) as [c'|] eqn:E; cbn [result_bind]; [|done].
  intros [= _ <- _]. by eapply parse_cache_clean.
Qed.

(** ** What is on disk *)

(** Read from scratch, the snapshot and the log give [c] at sequence [n]. *)
Definition loads (h : Handle) (vault log : bytes) (n : Z) (c : Contents Rec Misc) : Prop :=
  ∃ a c0 out c1,
    decode_snapshot h vault = Ok (a, c0, STORAGE_VERSION) ∧ 0 <= a
    ∧ parse_lines a (h_key h) 0 (u64_next a) (take_lines log).1 = Ok out
    ∧ apply_records a (pg_records out) c0 = (n, Ok c1)
    ∧ contents c1 = c ∧ shapes_ok (ct_recs c) = true ∧ bt_ok (kf_marks (ct_kill c)).

Definition good (h : Handle) (d : Disk) (n : Z) (c : Contents Rec Misc) : Prop :=
  ∃ f w, d_vault d = Some f ∧ d_wal d = Some w ∧ loads h (fl_bytes f) w n c
         ∧ fl_token f < d_clock d.

(** ** What a process knows *)

(** The process has read the prefix [pre] of the log, and its cache is what it loads
    to. *)
Definition has_read (h : Handle) (vault pre : bytes) (l : LogState) (cache : StorageCache) : Prop :=
  length pre = ls_wal_offset l ∧ complete pre
  ∧ loads h vault pre (ls_applied_seq l) (contents cache) ∧ clean cache
  ∧ ls_committed_kill l = sc_kill cache ∧ ls_misc_bytes l = misc_bytes cache.

Definition in_step (h : Handle) (d : Disk) (l : LogState) (cache : StorageCache) : Prop :=
  (∀ t, ls_snap_token l = Some t → t < d_clock d)
  ∧ (ls_loaded l = true → ∀ f, d_vault d = Some f → ls_snap_token l = Some (fl_token f) →
     ∃ pre rest, d_wal d = Some (pre ++ rest) ∧ has_read h (fl_bytes f) pre l cache).

(** The process is up to date; after an exclusive look, nothing follows what it read. *)
Definition synced (h : Handle) (exclusive : bool) (w : World) (n : Z) (c : Contents Rec Misc) : Prop :=
  ls_loaded (w_log w) = true ∧ ls_applied_seq (w_log w) = n ∧ contents (w_cache w) = c
  ∧ ∃ f pre rest, d_vault (w_disk w) = Some f ∧ ls_snap_token (w_log w) = Some (fl_token f)
      ∧ d_wal (w_disk w) = Some (pre ++ rest)
      ∧ has_read h (fl_bytes f) pre (w_log w) (w_cache w) ∧ (exclusive = true → rest = []).

(** ** How a directory changes *)

(** Complete prefixes of the log survive, or the snapshot is a new file. *)
Definition later (d d' : Disk) : Prop :=
  d_clock d <= d_clock d'
  ∧ ((d_vault d' = d_vault d
      ∧ ∀ pre rest, d_wal d = Some (pre ++ rest) → complete pre →
          ∃ rest', d_wal d' = Some (pre ++ rest'))
     ∨ ∃ f, d_vault d' = Some f ∧ d_clock d <= fl_token f).

Lemma later_refl d : later d d.
Proof. split; [lia|]. left. split; [done|]. eauto. Qed.

Lemma later_trans d1 d2 d3 : later d1 d2 → later d2 d3 → later d1 d3.
Proof.
  intros [Hc1 H1] [Hc2 H2]. split; [lia|].
  destruct H2 as [[Hv2 Hw2]|(f & Hf & Ht)]; [|right; exists f; split; [done|lia]].
  destruct H1 as [[Hv1 Hw1]|(f & Hf & Ht)].
  - left. split; [congruence|]. intros pre rest Hw Hpre.
    destruct (Hw1 _ _ Hw Hpre) as [rest' Hw']. by apply (Hw2 _ rest').
  - right. exists f. split; [congruence|done].
Qed.

(** A view that is in step stays in step. *)
Lemma in_step_later h d d' l cache : later d d' → in_step h d l cache → in_step h d' l cache.
Proof.
  intros [Hc Hl] [H1 H2]. split; [intros t Ht; specialize (H1 t Ht); lia|].
  intros Hload f Hf Ht. destruct Hl as [[Hv Hw]|(f' & Hf' & Ht')].
  - rewrite Hv in Hf. destruct (H2 Hload f Hf Ht) as (pre & rest & Hwal & Hr).
    destruct (Hw pre rest Hwal) as [rest' ->]; [apply Hr|]. eauto.
  - rewrite Hf in Hf'. injection Hf' as <-. specialize (H1 _ Ht). lia.
Qed.

Lemma in_step_unloaded h d l cache cache' :
  in_step h d l cache → in_step h d (set_loaded false l) cache'.
Proof. intros [H1 _]. split; [done|]. intros ?. done. Qed.

Lemma synced_in_step h ex w n c :
  (∃ f, d_vault (w_disk w) = Some f ∧ fl_token f < d_clock (w_disk w)) →
  synced h ex w n c → in_step h (w_disk w) (w_log w) (w_cache w).
Proof.
  intros (f & Hf & Hc) (Hl & Hn & Hcc & f' & pre & rest & Hf' & Ht & Hw & Hr & _).
  rewrite Hf in Hf'. injection Hf' as <-. split.
  - intros t Ht'. rewrite Ht in Ht'. by injection Ht' as <-.
  - intros _ f' Hf'' _. rewrite Hf in Hf''. injection Hf'' as <-. eauto.
Qed.

(** Cutting the torn tail changes nothing that was read. *)
Definition cut_tail (w : bytes) (d : Disk) : Disk := set_wal (Some (whole_lines w)) d.

Lemma cut_tail_later w d : d_wal d = Some w → later d (cut_tail w d).
Proof.
  intros Hw. split; [cbn; lia|]. left. split; [done|]. intros pre rest Hw' Hpre.
  rewrite Hw in Hw'. injection Hw' as ->. cbn.
  destruct (whole_lines_prefix (pre ++ rest) pre rest eq_refl Hpre) as [rest' ->]. eauto.
Qed.

Lemma loads_whole h vault w n c : loads h vault w n c → loads h vault (whole_lines w) n c.
Proof.
  intros (a & c0 & out & c1 & H). exists a, c0, out, c1. by rewrite take_lines_whole.
Qed.

Lemma cut_tail_good h w d n c : d_wal d = Some w → good h d n c → good h (cut_tail w d) n c.
Proof.
  intros Hw (f & w' & Hf & Hw' & Hl & Ht). rewrite Hw in Hw'. injection Hw' as <-.
  exists f, (whole_lines w). split_and!; [done|done|by apply loads_whole|done].
Qed.

Lemma loads_fun h vault w n c n' c' : loads h vault w n c → loads h vault w n' c' → n = n' ∧ c = c'.
Proof.
  intros (a & c0 & out & c1 & E1 & _ & E2 & E3 & E4 & _)
         (a' & c0' & out' & c1' & E1' & _ & E2' & E3' & E4' & _).
  rewrite E1 in E1'. injection E1' as <- <-. rewrite E2 in E2'. injection E2' as <-.
  rewrite E3 in E3'. injection E3' as <- <-. split; [done|congruence].
Qed.

(** ** Reading the rest of a log *)

(** Having read a complete prefix, reading the rest gives what the whole log loads to. *)
Lemma loads_rest h vault pre rest l cache n c :
  has_read h vault pre l cache → loads h vault (pre ++ rest) n c →
  ∃ out c1,
    parse_log rest (ls_applied_seq l) (h_key h) = Ok out
    ∧ apply_records (ls_applied_seq l) (pg_records out) cache = (n, Ok c1)
    ∧ contents c1 = c ∧ clean c1
    ∧ pg_consumed out = length (whole_lines rest)
    ∧ pg_torn_tail out = negb (bool_decide ((take_lines rest).2 = [])).
Proof.
  intros (_ & Hpre & (a & c0 & o1 & c1 & E1 & Ha & E2 & E3 & E4 & _) & Hcl & _)
         (a' & c0' & out & c2 & E1' & _ & E2' & E3' & E4' & _).
  rewrite E1 in E1'. injection E1' as <- <-.
  rewrite (take_lines_complete _ _ Hpre) in E2'. cbn [fst] in E2'.
  destruct (parse_lines_app a _ _ a _ _ _ ltac:(lia) E2') as (o1' & o2 & P1 & P2 & P3 & P4).
  rewrite E2 in P1. injection P1 as <-.
  assert (Hs := apply_records_reached _ _ _ _ _ E3).
  destruct (parse_lines_contiguous a _ _ a _ _ ltac:(lia) E2) as (_ & Hle & _).
  rewrite <- Hs in P2, Hle.
  rewrite P3, apply_records_app, E3 in E3'.
  destruct (apply_records_contents _ _ _ cache _ _ E4 Hcl E3') as (c2' & E5 & E6 & E7).
  destruct (parse_lines_restart _ _ _ 0 _ _ _ ltac:(split; [exact Ha|exact Hle]) P2)
    as (o & R1 & R2 & _).
  destruct (parse_lines_contiguous (ls_applied_seq l) _ _ (ls_applied_seq l) _ _ ltac:(lia) R1)
    as (_ & _ & R3 & _).
  unfold parse_log. rewrite (take_lines_eta rest). rewrite R1. cbn [result_bind].
  eexists _, c2'. split; [done|]. cbn [pg_records pg_consumed pg_torn_tail].
  rewrite R2. split_and!; [done|congruence|done|done|].
  destruct (take_lines rest).2; [by rewrite bool_decide_true|by rewrite bool_decide_false].
Qed.

Lemma loads_nonneg h vault w n c : loads h vault w n c → 0 <= n.
Proof.
  intros (a & c0 & out & c1 & _ & Ha & E2 & E3 & _).
  destruct (parse_lines_contiguous a _ _ a _ _ ltac:(lia) E2) as (_ & Hle & _).
  rewrite (apply_records_reached _ _ _ _ _ E3). lia.
Qed.

Lemma whole_lines_app pre rest : complete pre → whole_lines (pre ++ rest) = pre ++ whole_lines rest.
Proof.
  intros H. unfold whole_lines. rewrite (take_lines_complete _ _ H). cbn [fst].
  by rewrite unlines_app, <- (complete_unlines pre H).
Qed.

Lemma complete_app pre rest : complete pre → complete rest → complete (pre ++ rest).
Proof. intros H H'. unfold complete. by rewrite (take_lines_complete _ _ H). Qed.

(** ** Catching up *)

(** What an attempt to catch up leaves behind. *)
Definition sync_post (h : Handle) (ex : bool) (w : World) (n : Z) (c : Contents Rec Misc)
    (o : outcome unit) (w' : World) : Prop :=
  good h (w_disk w') n c ∧ later (w_disk w) (w_disk w') ∧ (w_fates w = [] → w_fates w' = [])
  ∧ match o with
    | Done _ => synced h ex w' n c
    | Failed _ => in_step h (w_disk w') (w_log w') (w_cache w') ∧ w_fates w ≠ []
    | Panicked => False
    | Crashed => w_fates w ≠ []
    end.

(** Cutting the tail after everything was read. *)
Lemma post_truncate wal len w (Q : outcome unit → World → Prop) :
  d_wal (w_disk w) = Some wal → len = length (whole_lines wal) →
  (∀ d fs, d = cut_tail wal (w_disk w) → (w_fates w = [] → fs = []) → Q (Done tt) (with_disk d fs w)) →
  (∀ d fs, d = w_disk w ∨ d = cut_tail wal (w_disk w) → w_fates w ≠ [] →
     Q (Failed E_Io) (with_disk d fs w) ∧ Q Crashed (with_disk d fs w)) →
  post (truncate_wal len) w Q.
Proof.
  intros Hw -> H1 H2. unfold truncate_wal. io_pure. rewrite Hw.
  assert (Hcut : set_len (length (whole_lines wal)) wal = whole_lines wal).
  { rewrite (whole_lines_tail wal) at 2. apply set_len_app. }
  rewrite Hcut. apply post_disk_step.
  - intros fs Hfs. by apply H1.
  - intros Hf [|k] fs; apply H2; auto.
Qed.

(** The record of what a process has read after it caught up. *)
Lemma has_read_refresh h vault pre l cache c1 n c :
  complete pre → loads h vault pre n c → contents c1 = c → clean c1 →
  ls_applied_seq l = n → ls_wal_offset l = length pre →
  cache = rebuild_cache_indexes c1 → ls_committed_kill l = sc_kill cache →
  ls_misc_bytes l = misc_bytes cache → has_read h vault pre l cache.
Proof.
  intros Hpre Hl Hc Hcl Hn Ho -> Hk Hm. split_and!; [done|done|by rewrite Hn, rebuild_contents, Hc
    |done|done|done].
Qed.

(** A process that read the whole lines of the log, and set its position there, is up to
    date, on the log as it was or with its tail cut. *)
Lemma read_all_synced h ex f wal n c w d :
  d_vault d = Some f → ls_snap_token (w_log w) = Some (fl_token f) → ls_loaded (w_log w) = true →
  loads h (fl_bytes f) wal n c →
  ls_applied_seq (w_log w) = n → ls_wal_offset (w_log w) = length (whole_lines wal) →
  contents (w_cache w) = c → clean (w_cache w) →
  ls_committed_kill (w_log w) = sc_kill (w_cache w) →
  ls_misc_bytes (w_log w) = misc_bytes (w_cache w) →
  w_disk w = d →
  d_wal d = Some (whole_lines wal) ∨ d_wal d = Some wal ∧ (ex = true → (take_lines wal).2 = []) →
  synced h ex w n c.
Proof.
  intros Hf Ht Hld Hl Hn Ho Hc Hcl Hk Hm Hd Hw.
  assert (Hr : has_read h (fl_bytes f) (whole_lines wal) (w_log w) (w_cache w)).
  { split_and!; [done|apply whole_lines_complete|rewrite Hn, Hc; by apply loads_whole|done..]. }
  split_and!; [done|done|done|]. rewrite Hd. destruct Hw as [Hw|[Hw Hex]].
  - exists f, (whole_lines wal), []. rewrite app_nil_r. done.
  - exists f, (whole_lines wal), (take_lines wal).2. rewrite <- whole_lines_tail. done.
Qed.

(** The end of [apply_log_tail] and of [full_load_locked]: cut the torn tail if allowed. *)
Lemma post_cut (torn ex : bool) wal len w (Q : outcome unit → World → Prop) :
  d_wal (w_disk w) = Some wal → len = length (whole_lines wal) →
  torn = negb (bool_decide ((take_lines wal).2 = [])) →
  (∀ d fs, d = cut_tail wal (w_disk w) ∨ d = w_disk w ∧ (ex = true → (take_lines wal).2 = []) →
     (w_fates w = [] → fs = []) → Q (Done tt) (with_disk d fs w)) →
  (∀ d fs, d = w_disk w ∨ d = cut_tail wal (w_disk w) → w_fates w ≠ [] →
     Q (Failed E_Io) (with_disk d fs w) ∧ Q Crashed (with_disk d fs w)) →
  post (if torn && ex then truncate_wal len else io_ret tt) w Q.
Proof.
  intros Hw Hlen Ht H1 H2. destruct (torn && ex) eqn:E.
  - apply (post_truncate wal); [done|done| |done]. intros d fs Hd. by apply H1; left.
  - change (Q (Done tt) w). specialize (H1 (w_disk w) (w_fates w)). destruct w as [l c d fs].
    apply H1; [right; split; [done|]|done]. intros ->. rewrite andb_true_r in E. subst torn.
    apply negb_false_iff in E. by apply bool_decide_eq_true in E.
Qed.

Lemma take_lines_tail_app pre rest : complete pre → (take_lines (pre ++ rest)).2 = (take_lines rest).2.
Proof. intros H. by rewrite (take_lines_complete _ _ H). Qed.

(** What [apply_log_tail] leaves behind. *)
Definition tail_post (h : Handle) (ex : bool) (w : World) (wal : bytes) (n : Z)
    (c : Contents Rec Misc) (o : outcome unit) (w' : World) : Prop :=
  (w_disk w' = w_disk w ∨ w_disk w' = cut_tail wal (w_disk w))
  ∧ ls_snap_token (w_log w') = ls_snap_token (w_log w)
  ∧ (w_fates w = [] → w_fates w' = [])
  ∧ match o with
    | Done _ => synced h ex w' n c
    | Panicked => False
    | Failed _ | Crashed => w_fates w ≠ []
    end.

Lemma finish_tail_spec h ex w w1 f wal n c torn off :
  d_vault (w_disk w) = Some f → ls_snap_token (w_log w) = Some (fl_token f) →
  d_wal (w_disk w) = Some wal → loads h (fl_bytes f) wal n c →
  off = length (whole_lines wal) → torn = negb (bool_decide ((take_lines wal).2 = [])) →
  w_disk w1 = w_disk w → (w_fates w = [] → w_fates w1 = []) →
  ls_snap_token (w_log w1) = ls_snap_token (w_log w) → ls_loaded (w_log w1) = true →
  ls_applied_seq (w_log w1) = n → contents (w_cache w1) = c → clean (w_cache w1) →
  ls_committed_kill (w_log w1) = sc_kill (w_cache w1) →
  ls_misc_bytes (w_log w1) = misc_bytes (w_cache w1) →
  post (io_bind (map_log (λ l', advance (ls_applied_seq l') off l'))
          (λ _, if torn && ex then truncate_wal off else io_ret tt)) w1
    (tail_post h ex w wal n c).
Proof.
  intros Hf Ht Hw Hl Ho Htorn D1 F1 T1 L1 S1 C1 Cl1 K1 M1. io_pure.
  apply (post_cut _ _ wal); [by cbn; rewrite D1|done|done|..].
  - intros d fs Hd Hfs. cbn [upd_log w_disk w_fates] in Hd, Hfs. rewrite D1 in Hd. split_and!.
    + destruct Hd as [->|[-> _]]; auto.
    + done.
    + auto.
    + apply (read_all_synced _ _ f wal _ _ _ d); try done; cbn; [..|by destruct Hd as [->|[-> ?]]; auto].
      * by destruct Hd as [->|[-> _]].
      * by rewrite T1.
  - intros d fs Hd Hne. cbn [upd_log w_disk w_fates] in Hd, Hne. rewrite D1 in Hd.
    assert (w_fates w ≠ []) by auto. split; (split_and!; [done|done|done|done]).
Qed.

Lemma apply_log_tail_spec h ex w f pre rest n c :
  d_vault (w_disk w) = Some f → ls_snap_token (w_log w) = Some (fl_token f) →
  ls_loaded (w_log w) = true → d_wal (w_disk w) = Some (pre ++ rest) →
  has_read h (fl_bytes f) pre (w_log w) (w_cache w) → loads h (fl_bytes f) (pre ++ rest) n c →
  post (apply_log_tail h ex) w (tail_post h ex w (pre ++ rest) n c).
Proof.
  intros Hf Ht Hld Hw Hr Hloads.
  assert (Hpre : complete pre) by apply Hr. assert (Hoff : length pre = ls_wal_offset (w_log w)) by apply Hr.
  destruct (loads_rest _ _ _ _ _ _ _ _ Hr Hloads) as (out & c1 & P1 & P2 & P3 & P4 & P5 & P6).
  assert (Hlen : (ls_wal_offset (w_log w) + pg_consumed out)%nat = length (whole_lines (pre ++ rest))).
  { rewrite (whole_lines_app _ _ Hpre), length_app. lia. }
  rewrite <- (take_lines_tail_app pre rest Hpre) in P6.
  unfold apply_log_tail. apply post_bind. apply post_disk_step.
  2: { intros Hfs k fs. split; (split_and!; [by left|done|by intros ?|done]). }
  intros fs Hfs. io_pure. cbn [with_disk w_disk w_log w_cache]. rewrite Hw.
  rewrite <- Hoff, drop_app_length, Hoff, P1. io_pure.
  apply post_bind. destruct (pg_records out) as [|r rs] eqn:Erec.
  - io_pure. cbn [apply_records] in P2. injection P2 as P2 <-.
    apply (finish_tail_spec _ _ _ _ f); try done; cbn; apply Hr.
  - io_pure. cbn [with_disk w_cache]. rewrite P2. io_pure. cbn [result_bind].
    unfold validate_cache_shapes.
    assert (Hsh : shapes_ok (tr_map (sc_recs c1)) = true).
    { destruct Hloads as (? & ? & ? & ? & _ & _ & _ & _ & _ & Hs & _). by rewrite <- P3 in Hs. }
    rewrite Hsh. cbn [result_bind]. io_pure. by apply (finish_tail_spec _ _ _ _ f).
Qed.

Lemma tail_good h w wal d n c :
  d_wal (w_disk w) = Some wal → good h (w_disk w) n c →
  d = w_disk w ∨ d = cut_tail wal (w_disk w) → good h d n c ∧ later (w_disk w) d.
Proof.
  intros Hw Hg [->| ->]; [split; [done|apply later_refl]|].
  split; [by apply cut_tail_good|by apply cut_tail_later].
Qed.

(** An operation that stopped before it trusted its view again. *)
Lemma stopped h w n c o (w' : World) :
  good h (w_disk w') n c → later (w_disk w) (w_disk w') → w_fates w ≠ [] →
  o = Failed E_Io ∧ ls_loaded (w_log w') = false
    ∧ (∀ t, ls_snap_token (w_log w') = Some t → t < d_clock (w_disk w')) ∨ o = Crashed →
  ∀ ex, sync_post h ex w n c o w'.
Proof.
  intros Hg Hl Hf Ho ex. split_and!; [done|done|done|].
  destruct Ho as [(-> & Hld & Ht)| ->]; [|done]. split; [|done]. split; [done|].
  intros Hld'. congruence.
Qed.

Lemma full_load_spec h ex w n c :
  good h (w_disk w) n c → (∀ t, ls_snap_token (w_log w) = Some t → t < d_clock (w_disk w)) →
  post (full_load_locked h ex) w (λ o w', sync_post h ex w n c o w'
    ∧ (o = Done tt → ls_snapshot_version (w_log w') = STORAGE_VERSION)).
Proof.
  intros Hg Htok. assert (Hg' := Hg). destruct Hg' as (f & wal & Hf & Hw & Hl & Hft).
  assert (Hl' := Hl). destruct Hl' as (a & c0 & out & c1 & E1 & Ha & E2 & E3 & E4 & E5 & E6).
  destruct (parse_lines_contiguous a _ _ a _ _ ltac:(lia) E2) as (_ & _ & Hcons & _).
  cbn in Hcons.
  assert (Hstop : ∀ d o fs, d = w_disk w ∨ d = cut_tail wal (w_disk w) → w_fates w ≠ [] →
    o = Failed E_Io ∨ o = Crashed →
    sync_post h ex w n c o (with_disk d fs (upd_log (set_loaded false) w))
    ∧ (o = Done tt → ls_snapshot_version (w_log w) = STORAGE_VERSION)).
  { intros d o fs Hd Hne Ho. destruct (tail_good h w wal d n c Hw Hg Hd) as [G1 G2].
    split; [|by destruct Ho as [->| ->]]. apply stopped; [done|done|done|].
    destruct Ho as [->| ->]; [left|by right]. split_and!; [done|done|].
    intros t Ht. specialize (Htok t Ht). destruct G2 as [G2 _]. cbn. lia. }
  unfold full_load_locked. io_pure. cbn [upd_log w_disk w_log]. unfold file_token. rewrite Hf.
  cbn [fmap option_fmap option_map]. cbv zeta.
  apply post_bind. unfold read_snapshot. apply post_bind, post_disk_step.
  2: { intros Hne k fs. split; (apply Hstop; [by left|done|]); auto. }
  intros fs Hfs. io_pure. cbn [with_disk upd_log w_disk]. rewrite Hf, E1. io_pure.
  apply post_bind, post_disk_step.
  2: { cbn. intros Hne k fs'. split; (apply (Hstop (w_disk w)); [by left|auto|]); auto. }
  intros fs' Hfs'. cbn in Hfs'. io_pure. rewrite Hw. io_pure.
  change (STORAGE_VERSION <? STORAGE_VERSION) with false. cbn [andb].
  unfold parse_log. rewrite (take_lines_eta wal), E2. cbn [result_bind]. io_pure.
  cbn [pg_records]. rewrite E3. io_pure. unfold validate_cache_shapes.
  rewrite <- E4 in E5. cbn [contents ct_recs] in E5. rewrite E5. io_pure.
  cbn [pg_torn_tail pg_consumed]. apply post_bind.
  apply (post_cut _ _ wal); [done|done|by destruct (take_lines wal).2|..].
  - intros d fs2 Hd Hfs2. io_pure. cbn in Hfs2, Hd. split; [|done].
    destruct (tail_good h w wal d n c Hw Hg) as [G1 G2]; [destruct Hd as [->|[-> _]]; auto|].
    split_and!; [done|done|by auto|].
    apply (read_all_synced _ _ f wal _ _ _ d); try done; cbn.
    + by destruct Hd as [->|[-> _]].
    + by apply rebuild_clean, (apply_records_clean _ _ _ _ _ (decode_clean _ _ _ _ _ E1) E3).
    + by destruct Hd as [->|[-> ?]]; auto.
  - cbn. intros d fs2 Hd Hne. split; (apply (Hstop d); [done|auto|]); auto.
Qed.

Lemma sync_spec h ex w n c :
  good h (w_disk w) n c → in_step h (w_disk w) (w_log w) (w_cache w) →
  post (sync_locked h ex) w (sync_post h ex w n c).
Proof.
  intros Hg [Htok Hview]. assert (Hg' := Hg). destruct Hg' as (f & wal & Hf & Hw & Hl & Hft).
  unfold sync_locked. io_pure. unfold file_token, wal_len_opt. rewrite Hf, Hw.
  cbn [fmap option_fmap option_map].
  destruct (ls_loaded (w_log w) && bool_decide (ls_snap_token (w_log w) = Some (fl_token f))) eqn:E.
  2: { apply post_bind. eapply post_mono; [by apply full_load_spec|].
       intros [[]|e| |] w' [H Hv]; [|exact H..]. io_pure. by rewrite (Hv eq_refl). }
  apply andb_true_iff in E as [Hld Ht]. apply bool_decide_eq_true in Ht.
  destruct (Hview Hld f Hf Ht) as (pre & rest & Hwal & Hr).
  rewrite Hw in Hwal. injection Hwal as ->. assert (Hoff : length pre = ls_wal_offset (w_log w)) by apply Hr.
  rewrite length_app, <- Hoff. destruct (Nat.eqb_spec (length pre + length rest) (length pre)) as [El|El].
  - assert (rest = []) as -> by (apply nil_length_inv; lia). rewrite app_nil_r in *. io_pure.
    destruct (loads_fun _ _ _ _ _ _ _ Hl (proj1 (proj2 (proj2 Hr)))) as [En Ec].
    split_and!; [done|apply later_refl|done|]. split_and!; [done|done|done|].
    exists f, pre, []. by rewrite app_nil_r.
  - rewrite (proj2 (Nat.ltb_lt (length pre) (length pre + length rest))) by lia.
    apply post_catch. eapply post_mono; [by apply (apply_log_tail_spec _ _ _ f)|].
    intros o w' (Hd & Ht' & Hfs & Ho).
    destruct (tail_good h w _ _ n c Hw Hg Hd) as [G1 G2].
    destruct o as [[]|e| |]; [by split_and!| |done|by split_and!].
    io_pure. split; [done|]. split; [done|]. split; [done|]. split; [|done]. split; [|done].
    cbn. rewrite Ht'. intros t Ht2. specialize (Htok t Ht2). destruct G2 as [G2 _]. lia.
Qed.
End facts.
