(* ===== verification/VaultCommit.v ===== *)
(** * Committing to the vault

    What [VaultFile]'s writing operations leave on disk and in memory, for every fate of
    their steps: appending a record, committing or undoing a mutation, compacting, and
    the locked mutation and read composed of them.  The lemmas feed the theorems of
    [VaultSystem]. *)

From stdpp Require Import base gmap strings list.
From Stdlib Require Import Ascii ZArith Lia.
From S2P Require Import Prelude RustStr BTree Json KillFence Egress Crypto Tracked VaultLog.
From S2P Require Import VaultCache VaultFile VaultFileFacts.

Open Scope Z_scope.

Lemma set_wal_same d w : d_wal d = w → set_wal w d = d.
Proof. intros <-. by destruct d. Qed.

(** A part of a line has no newline, or is all of it. *)
Lemma firstn_line k l :
  newline ∉ l → firstn k (l ++ [newline]) = l ++ [newline] ∨ (newline ∉ firstn k (l ++ [newline])).
Proof.
  intros Hl. destruct (decide (k <= length l)%nat) as [Hk|Hk].
  - right. rewrite take_app_le by done. intros H. apply Hl.
    rewrite <- (take_drop k l). apply elem_of_app. by left.
  - left. apply take_ge. rewrite length_app. cbn. lia.
Qed.

(** What the serializers and the cipher document of writing: a value of the vault's own types
    is written, its text is JSON again, and a text is sealed under a master key. *)
Class WriteLaws {SC : SealCrates} {LS : LogSerde} {CS : CacheSerde} {FS : FileSerde} : Prop := {
  rec_is_written c r : is_Some (rec_to_value c r);
  mark_is_written m : is_Some (mark_to_value m);
  misc_is_json m b : misc_to_vec m = Some b → is_Some (value_from_slice b);
  plain_is_written p : is_Some (plain_to_vec p);
  envelope_is_written e : is_Some (envelope_to_vec e);
  contents_are_written c : is_Some (contents_to_vec c);
  file_is_written f : is_Some (storage_file_to_string f);
  text_is_sealed (key : MasterKey) (nonce : Nonce) b : is_Some (aead_encrypt (mk_bytes key) (nonce_bytes nonce) b);
}.

Section commit.
Context {SC : SealCrates} {LS : LogSerde} {CS : CacheSerde} {FS : FileSerde}.
Context {SL : SealLaws} {LL : LogSerdeLaws} {CL : CacheSerdeLaws} {FL : FileSerdeLaws}.

(** ** The log grows *)

Lemma loads_torn h vault pre torn n c :
  complete pre → newline ∉ torn → loads h vault pre n c → loads h vault (pre ++ torn) n c.
Proof.
  intros Hp Ht (a & c0 & out & c1 & H). exists a, c0, out, c1.
  by rewrite (take_lines_complete _ _ Hp), (take_lines_tail _ Ht), app_nil_r.
Qed.

Lemma loads_snoc h vault pre l n ops base c c' nonce :
  complete pre → newline ∉ l → loads h vault pre n c → contents base = c → clean base →
  n < u64_max → encode_record nonce (n + 1) ops (h_key h) = Ok (l ++ [newline]) →
  apply_ops ops base = Ok c' → shapes_ok (ct_recs (contents c')) = true →
  bt_ok (kf_marks (sc_kill c')) →
  complete (pre ++ l ++ [newline]) ∧ loads h vault (pre ++ l ++ [newline]) (n + 1) (contents c').
Proof.
  intros Hp Hl (a & c0 & out & c1 & E1 & Ha & E2 & E3 & E4 & _) Hb Hcl Hn Henc Hap Hs Hk.
  assert (Hline : take_lines (l ++ [newline]) = ([l], [])) by (by rewrite take_lines_cons).
  assert (Hr := apply_records_reached _ _ _ _ _ E3).
  destruct (parse_lines_snoc nonce a (h_key h) n _ out l ops Ha E2 (eq_sym Hr) Hn Hl Henc)
    as (out' & P1 & P2).
  split; [unfold complete; by rewrite (take_lines_complete _ _ Hp), Hline|].
  rewrite <- E4 in Hb.
  assert (Hcl1 : clean c1) by (eapply apply_records_clean; [by eapply decode_clean|done]).
  destruct (apply_ops_contents _ _ _ _ Hb Hcl1 Hap) as (c1' & Q1 & Q2 & Q3).
  exists a, c0, out', c1'. rewrite (take_lines_complete _ _ Hp), Hline. cbn [fst].
  split_and!; [done|done|done| |done|done|done].
  rewrite P2, apply_records_app, E3. cbn [apply_records]. by rewrite Q1.
Qed.

Lemma extend_later d pre x :
  d_wal d = Some pre → later d (set_wal (Some (pre ++ x)) d).
Proof.
  intros Hw. split; [cbn; lia|]. left. split; [done|]. intros p r Hp _.
  rewrite Hw in Hp. injection Hp as ->. cbn. rewrite <- app_assoc. eauto.
Qed.

(** [append_record_locked] adds the line, or leaves a part of it and the position as it
    was. *)
Lemma append_spec h nonce ops w pre line :
  d_wal (w_disk w) = Some pre → ls_wal_offset (w_log w) = length pre →
  encode_record nonce (u64_next (ls_applied_seq (w_log w))) ops (h_key h) = Ok line →
  post (append_record_locked h nonce ops) w (λ o w',
    w_cache w' = w_cache w ∧ (w_fates w = [] → w_fates w' = [])
    ∧ match o with
      | Done _ => w_disk w' = set_wal (Some (pre ++ line)) (w_disk w)
          ∧ w_log w' = advance (u64_next (ls_applied_seq (w_log w))) (length (pre ++ line)) (w_log w)
      | Panicked => False
      | Failed _ | Crashed => w_log w' = w_log w ∧ w_fates w ≠ []
          ∧ ∃ k, w_disk w' = set_wal (Some (pre ++ firstn k line)) (w_disk w)
      end).
Proof.
  intros Hw Ho Henc. unfold append_record_locked. io_pure. rewrite Henc. io_pure. rewrite Hw.
  rewrite bool_decide_false by done.
  assert (Hsame : extend_wal [] (w_disk w) = w_disk w).
  { unfold extend_wal. rewrite Hw. cbn. rewrite app_nil_r. by apply set_wal_same. }
  assert (H0 : w_disk w = set_wal (Some (pre ++ firstn 0 line)) (w_disk w)).
  { cbn. rewrite app_nil_r. by rewrite set_wal_same. }
  apply post_bind, post_disk_step.
  2: { intros Hne k fs. split; (split_and!; [done|done|done|done|exists 0%nat]);
       rewrite <- H0; cbn; destruct k; done. }
  intros fs Hfs. io_pure. rewrite Hsame. cbn [with_disk w_disk w_log]. rewrite Hw. cbn [default].
  rewrite Ho, bool_decide_true by done. cbn [negb].
  apply post_bind, post_catch, post_disk_step.
  - intros fs' Hfs'. cbn in Hfs'. io_pure. cbn. unfold extend_wal. rewrite Hw, length_app. cbn.
    split_and!; [done|by auto|done|done].
  - cbn. intros Hne k fs'. unfold extend_wal. rewrite Hw. cbn [default].
    assert (Hne' : w_fates w ≠ []) by auto. split; [|split_and!; [done|done|done|done|by exists k]].
    apply post_bind, post_catch. unfold truncate_wal. io_pure. cbn [with_disk w_disk set_wal d_wal].
    rewrite set_len_app. apply post_disk_step.
    + intros fs2 _. io_pure. split_and!; [done|done|done|done|]. exists 0%nat. cbn. by rewrite app_nil_r.
    + intros _ m fs2. io_pure. split.
      * split_and!; [done|done|done|done|]. destruct m; [by exists k|].
        exists 0%nat. cbn. by rewrite app_nil_r.
      * split_and!; [done|done|done|done|]. destruct m; [by exists k|].
        exists 0%nat. cbn. by rewrite app_nil_r.
Qed.

(** ** Committing a mutation *)

(** The process is up to date with [base], holds the exclusive view, and has run a
    mutation on it. *)
Definition ready (h : Handle) (w : World) (base : StorageCache) (n : Z) : Prop :=
  ls_loaded (w_log w) = true ∧ ls_applied_seq (w_log w) = n
  ∧ tracks (tr_map (sc_recs base)) (sc_recs (w_cache w))
  ∧ bt_ok (kf_marks (sc_kill (w_cache w)))
  ∧ ∃ f pre, d_vault (w_disk w) = Some f ∧ fl_token f < d_clock (w_disk w)
      ∧ ls_snap_token (w_log w) = Some (fl_token f) ∧ d_wal (w_disk w) = Some pre
      ∧ has_read h (fl_bytes f) pre (w_log w) base.

(** Nothing but a fault can stop the commit of this state. *)
Definition serializable (h : Handle) (nonce : Nonce) (l : LogState) (cache : StorageCache) : Prop :=
  shapes_ok (tr_map (sc_recs cache)) = true
  ∧ ∃ ops, collect_ops (ls_committed_kill l) (ls_misc_bytes l) cache = Ok ops
     ∧ (ops = [] ∨ ∃ line, encode_record nonce (u64_next (ls_applied_seq l)) ops (h_key h) = Ok line).

Lemma try_map_ok {A B E} (f : A → result B E) l : (∀ x, x ∈ l → ∃ y, f x = Ok y) → ∃ ys, try_map f l = Ok ys.
Proof.
  induction l as [|x l IH]; intros H; [by exists []|]. cbn. destruct (H x) as [y ->]; [by left|]. cbn.
  destruct IH as [ys ->]; [|by exists (y :: ys)]. intros z Hz. apply H. by right.
Qed.
Lemma encodes `{WL : !WriteLaws} nonce seq ops key : ∃ line, encode_record nonce seq ops key = Ok line.
Proof.
  unfold encode_record, encrypt. destruct (plain_is_written {| pl_seq := seq; pl_ops := ops |}) as [plain ->].
  destruct (text_is_sealed key nonce plain) as [ct ->]. destruct (envelope_is_written {| env_seq := seq;
    env_nonce := b64_encode (nonce_bytes nonce); env_ct := b64_encode ct |}) as [line E]. cbn [ed_nonce ed_ciphertext]. rewrite E. by eexists.
Qed.
(** Of the state of a mutation only its shape can be refused. *)
Lemma shaped_serializes `{WL : !WriteLaws} h nonce l cache :
  shapes_ok (tr_map (sc_recs cache)) = true → serializable h nonce l cache.
Proof.
  intros Hs. split; [done|].
  assert (∃ ops, collect_ops (ls_committed_kill l) (ls_misc_bytes l) cache = Ok ops) as [ops Hops].
  { unfold collect_ops. destruct (try_map_ok (col_ops cache) collections) as [cols ->]; cbn [result_bind].
    { intros c _. apply try_map_ok. intros [k [r|]] _; unfold change_op; cbn [snd]; [|by eexists].
      destruct (rec_is_written c r) as [v ->]. by eexists. }
    unfold kill_ops. destruct (try_map_ok mark_op (new_marks (ls_committed_kill l) (sc_kill cache))) as [puts ->]; cbn [result_bind].
    { intros [id m] _. unfold mark_op. cbn [snd fst]. destruct (mark_is_written m) as [v ->]. by eexists. }
    destruct (decide _); [by eexists|]. unfold misc_bytes. destruct (misc_serializes (sc_misc cache)) as [b Hb]. rewrite Hb. cbn [default from_option]. unfold id.
    destruct (misc_is_json _ _ Hb) as [v ->]. by eexists. }
  exists ops. split; [done|]. right. apply encodes.
Qed.

Definition commit_post (h : Handle) (nonce : Nonce) (w : World) (base : StorageCache) (n : Z)
    (o : outcome unit) (w' : World) : Prop :=
  later (w_disk w) (w_disk w') ∧ (w_fates w = [] → w_fates w' = [])
  ∧ match o with
    | Done _ => ∃ n', n <= n' <= n + 1 ∧ good h (w_disk w') n' (contents (w_cache w))
        ∧ synced h true w' n' (contents (w_cache w))
    | Panicked => False
    | Failed _ => w_log w' = w_log w ∧ w_cache w' = w_cache w
        ∧ (w_fates w ≠ [] ∨ ¬ serializable h nonce (w_log w) (w_cache w))
        ∧ (good h (w_disk w') n (contents base) ∨ good h (w_disk w') (n + 1) (contents (w_cache w)))
    | Crashed => w_fates w ≠ []
        ∧ (good h (w_disk w') n (contents base) ∨ good h (w_disk w') (n + 1) (contents (w_cache w)))
    end.

Lemma ready_good h w base n : ready h w base n → good h (w_disk w) n (contents base).
Proof.
  intros (_ & <- & _ & _ & f & pre & Hf & Ht & _ & Hw & Hr). exists f, pre.
  split_and!; [done|done|apply Hr|done].
Qed.

Lemma ready_bt_ok h w base n : ready h w base n → bt_ok (kf_marks (sc_kill base)).
Proof.
  intros H. destruct (ready_good _ _ _ _ H) as (f & pre & _ & _ & Hl & _).
  destruct Hl as (? & ? & ? & ? & _ & _ & _ & _ & _ & _ & Hk). exact Hk.
Qed.

(** A commit that stopped before it reached the files. *)
Lemma commit_refused h nonce w base n e :
  ready h w base n → ¬ serializable h nonce (w_log w) (w_cache w) →
  commit_post h nonce w base n (Failed e) w.
Proof.
  intros Hr Hs. split_and!; [apply later_refl|done|done|done|by right|].
  left. by apply ready_good.
Qed.

(** The marked-durable cache holds the same contents. *)
Lemma commit_all_contents c : contents (commit_all c) = contents c ∧ clean (commit_all c).
Proof. done. Qed.

Lemma commit_spec h nonce w base n :
  ready h w base n → n < u64_max → post (commit_locked h nonce) w (commit_post h nonce w base n).
Proof.
  intros Hr Hmax. assert (Hr' := Hr). assert (Hbk := ready_bt_ok _ _ _ _ Hr).
  destruct Hr' as (Hld & Hn & Htr & Hbt & f & pre & Hf & Hft & Htok & Hw & Hread).
  destruct Hread as (Hoff & Hpre & Hloads & Hcl & Hck & Hmb).
  unfold commit_locked. io_pure. unfold validate_cache_shapes.
  destruct (shapes_ok _) eqn:Hsh; cbn [negb]; io_pure.
  2: { apply commit_refused; [done|]. intros [? _]. congruence. }
  rewrite Hck, Hmb. destruct (collect_ops (sc_kill base) (misc_bytes base) (w_cache w)) as [ops|] eqn:Eops.
  2: { io_pure. apply commit_refused; [done|]. intros (_ & ops & E & _). rewrite Hck, Hmb in E. congruence. }
  io_pure. destruct (apply_collected base (w_cache w) ops Hcl Htr Hbk Hbt Eops) as (c' & Hap & Hc' & Hcl').
  apply post_bind. destruct ops as [|op ops].
  - cbn [apply_ops] in Hap. injection Hap as <-. io_pure. rewrite Hn in *.
    split_and!; [apply later_refl|done|]. exists n. split; [lia|].
    split; [rewrite <- Hc'; exact (ready_good _ w _ _ Hr)|]. split_and!; [done|done|done|].
    exists f, pre, []. rewrite app_nil_r. split_and!; try done. split_and!; try done.
    cbn. rewrite Hn. change (contents (commit_all (w_cache w))) with (contents (w_cache w)).
    by rewrite <- Hc'.
  - destruct (encode_record nonce (u64_next (ls_applied_seq (w_log w))) (op :: ops) (h_key h))
      as [line|e] eqn:Eenc.
    2: { unfold append_record_locked. io_pure. rewrite Eenc. io_pure. apply commit_refused; [done|].
         intros (_ & ops' & E & [->|[line E']]); rewrite Hck, Hmb in E; [congruence|].
         rewrite Eops in E. injection E as <-. congruence. }
    destruct (encode_record_line _ _ _ _ _ Eenc) as (l & env & k & -> & Hl & _).
    rewrite Hn, (u64_next_lt n Hmax) in Eenc.
    destruct (loads_snoc h (fl_bytes f) pre l n (op :: ops) base (contents base) c' nonce)
      as [Hcomp Hnew]; try done; [by rewrite <- Hn|by rewrite Hc'|
      change (sc_kill c') with (ct_kill (contents c')); by rewrite Hc'|].
    rewrite Hc' in Hnew.
    eapply post_mono; [apply (append_spec _ _ _ _ pre (l ++ [newline])); [done|done|
      by rewrite Hn, (u64_next_lt n Hmax)]|].
    intros o w' (Hca & Hfa & Ho).
    assert (Hpart : ∀ k, w_disk w' = set_wal (Some (pre ++ firstn k (l ++ [newline]))) (w_disk w) →
      later (w_disk w) (w_disk w') ∧ (good h (w_disk w') n (contents base)
        ∨ good h (w_disk w') (n + 1) (contents (w_cache w)))).
    { intros j ->. split; [by apply extend_later|].
      destruct (firstn_line j l Hl) as [->|Htorn]; [right|left]; exists f; eexists;
        (split_and!; [done|done| |done]); [exact Hnew|]. apply loads_torn; [done|done|]. by rewrite <- Hn. }
    destruct o as [[]|e| |]; [| |done|].
    + io_pure. destruct Ho as [Hd Hlog]. split_and!; [cbn; rewrite Hd; by apply extend_later|done|].
      exists (n + 1). split; [lia|]. cbn [upd_log upd_cache w_disk]. rewrite Hd. split.
      * exists f, (pre ++ l ++ [newline]). done.
      * rewrite Hn, (u64_next_lt n Hmax) in Hlog. split_and!; cbn; rewrite ?Hlog, ?Hca; try done.
        exists f, (pre ++ l ++ [newline]), []. rewrite app_nil_r. rewrite Hd. split_and!; try done.
    + destruct Ho as (H1 & H2 & j & H3). destruct (Hpart j H3) as [? ?].
      split_and!; try done. by left.
    + destruct Ho as (H1 & H2 & j & H3). destruct (Hpart j H3) as [? ?]. by split_and!.
Qed.

(** ** Compaction *)

(** A reader that has reached the end of a log skips all of it, unopened. *)
Lemma parse_lines_skip a key pos pos' m ls out N nx :
  0 <= a <= m → parse_lines a key pos (u64_next m) ls = Ok out → reached m (pg_records out) <= N →
  ∃ o, parse_lines N key pos' nx ls = Ok o ∧ pg_records o = [] ∧ pg_decrypts o = 0.
Proof.
  revert pos pos' m out. induction ls as [|l ls IH]; intros pos pos' m out Hm; cbn [parse_lines].
  { intros _ _. by eexists. }
  destruct (envelope_from_slice l) as [env|]; [|done].
  destruct (Z.leb_spec (env_seq env) a) as [Ha|Ha].
  { intros E Hr.
    destruct (parse_lines_contiguous a _ _ m _ _ ltac:(lia) E) as (_ & Hle & _).
    rewrite (proj2 (Z.leb_le (env_seq env) N)) by lia.
    apply (IH (pos + length l + 1)%nat _ m out); [lia|exact E|exact Hr]. }
  destruct (Z.eqb_spec (env_seq env) (u64_next m)) as [Hs|]; cbn [negb]; [|done].
  destruct (open_envelope env key) as [[ops k]|e]; cbn [result_bind]; [|done].
  assert (Hs' : m < env_seq env).
  { unfold u64_next in Hs. destruct (Z.eqb_spec m u64_max); lia. }
  rewrite <- Hs. destruct (parse_lines a key _ _ ls) as [out'|] eqn:E; cbn [result_bind]; [|done].
  intros [= <-]. cbn [push_record pg_records reached foldl fst]. intros Hr.
  destruct (parse_lines_contiguous a _ _ (env_seq env) _ _ ltac:(lia) E) as (_ & Hle & _).
  unfold reached in Hle. rewrite (proj2 (Z.leb_le (env_seq env) N)) by lia.
  apply (IH (pos + length l + 1)%nat _ (env_seq env) out'); [lia|exact E|exact Hr].
Qed.

(** The text of a new snapshot. *)
Definition snapshot_text (h : Handle) (nonce : Nonce) (cache : StorageCache) (seq : Z)
    : result bytes VaultError :=
  match contents_to_vec (contents cache) with
  | None => Err E_Serialize
  | Some data =>
      match encrypt nonce data (h_key h) with
      | Err e => Err (E_Crypto e)
      | Ok enc => ok_or (storage_file_to_string
                           {| sf_version := STORAGE_VERSION; sf_salt := h_salt h; sf_kdf := h_kdf h;
                              sf_applied_seq := seq; sf_data := enc |}) E_Serialize
      end
  end.

Lemma post_write_snapshot h nonce cache seq w (Q : outcome nat → World → Prop) :
  (∀ content fs, snapshot_text h nonce cache seq = Ok content → (w_fates w = [] → fs = []) →
     Q (Done (length content)) (with_disk (create_vault_tmp content (w_disk w)) fs w)) →
  (∀ b fs, w_fates w ≠ [] → Q (Failed E_Io) (with_disk (create_vault_tmp b (w_disk w)) fs w)
                          ∧ Q Crashed (with_disk (create_vault_tmp b (w_disk w)) fs w)) →
  (∀ e e', snapshot_text h nonce cache seq = Err e' → Q (Failed e) w) → post (write_snapshot_tmp h nonce cache seq) w Q.
Proof.
  intros H1 H2 H3. unfold write_snapshot_tmp. unfold snapshot_text in H1, H3.
  destruct (contents_to_vec _); [|by eapply H3]. destruct (encrypt _ _ _); [|by eapply H3].
  destruct (storage_file_to_string _) as [content|]; [|by eapply H3].
  apply post_bind, post_disk_step; [intros fs Hfs; by apply H1|intros Hne k fs; by apply H2].
Qed.

Lemma snapshot_is_written `{WL : !WriteLaws} h nonce cache seq : ∃ content, snapshot_text h nonce cache seq = Ok content.
Proof.
  unfold snapshot_text, encrypt. destruct (contents_are_written (contents cache)) as [data ->].
  destruct (text_is_sealed (h_key h) nonce data) as [ct ->].
  destruct (file_is_written {| sf_version := STORAGE_VERSION; sf_salt := h_salt h; sf_kdf := h_kdf h; sf_applied_seq := seq;
    sf_data := {| ed_nonce := b64_encode (nonce_bytes nonce); ed_ciphertext := b64_encode ct |} |}) as [content ->]. by exists content.
Qed.

(** A new snapshot loads to the contents it was made of, whatever is left in the log. *)
Lemma snapshot_loads h nonce cache seq content log :
  snapshot_text h nonce cache seq = Ok content → 0 <= seq →
  shapes_ok (tr_map (sc_recs cache)) = true → bt_ok (kf_marks (sc_kill cache)) →
  (∃ o, parse_lines seq (h_key h) 0 (u64_next seq) (take_lines log).1 = Ok o ∧ pg_records o = []) →
  loads h content log seq (contents cache).
Proof.
  unfold snapshot_text. destruct (contents_to_vec _) as [data|] eqn:Ed; [|done].
  destruct (encrypt nonce data (h_key h)) as [enc|] eqn:Ee; [|done].
  destruct (storage_file_to_string _) as [t|] eqn:Et; [|done]. intros [= <-] Hseq Hs Hk (o & Ho & Hr).
  destruct (parse_cache_contents _ _ Ed Hs) as (c' & Hp & Hc & Hcl).
  exists seq, c', o, c'. split_and!; [|done|done|by rewrite Hr|done|done|done].
  unfold decode_snapshot. rewrite (storage_file_round_trip _ _ Et). cbn [sf_version sf_data sf_applied_seq].
  change (check_version STORAGE_VERSION) with (@Ok unit VaultError tt). cbn [result_bind].
  by rewrite (decrypt_encrypt _ _ _ _ Ee), Hp.
Qed.

(** The states a compaction passes through: a temporary file beside the old snapshot,
    the new snapshot with the old log, the new snapshot with an empty log. *)
Definition compacting (h : Handle) (d : Disk) (n : Z) (c : Contents Rec Misc) (d' : Disk) : Prop :=
  good h d' n c ∧ later d d'.

Definition compact_post (h : Handle) (nonce : Nonce) (w : World) (n : Z) (c : Contents Rec Misc)
    (o : outcome unit) (w' : World) : Prop :=
  compacting h (w_disk w) n c (w_disk w') ∧ (w_fates w = [] → w_fates w' = [])
  ∧ w_cache w' = w_cache w
  ∧ match o with
    | Done _ => synced h true w' n c
    | Failed _ => w_log w' = set_loaded false (w_log w)
        ∧ (w_fates w ≠ [] ∨ ∃ e, snapshot_text h nonce (w_cache w) n = Err e)
    | Panicked => False
    | Crashed => w_fates w ≠ []
    end.

Lemma same_files_compacting h d d0 d' n c :
  compacting h d n c d0 → d_vault d' = d_vault d0 → d_wal d' = d_wal d0 → d_clock d0 <= d_clock d' →
  compacting h d n c d'.
Proof.
  intros [(f & wal & Hf & Hw & Hl & Ht) Hlater] Hv Hwal Hc. split.
  - exists f, wal. split_and!; [congruence|congruence|done|lia].
  - eapply later_trans; [exact Hlater|]. split; [done|]. left. split; [done|].
    rewrite Hwal. eauto.
Qed.

(** The part of a compaction after the new snapshot is in place. *)
Lemma reset_spec h w n c content tok :
  d_vault (w_disk w) = Some {| fl_token := tok; fl_bytes := content |} → tok < d_clock (w_disk w) →
  loads h content [] n c → good h (w_disk w) n c →
  post reset_wal w (λ o w',
    w_cache w' = w_cache w ∧ w_log w' = w_log w ∧ (w_fates w = [] → w_fates w' = [])
    ∧ good h (w_disk w') n c ∧ d_vault (w_disk w') = d_vault (w_disk w)
    ∧ d_clock (w_disk w') = d_clock (w_disk w)
    ∧ match o with Done _ => d_wal (w_disk w') = Some [] | Panicked => False
      | _ => w_fates w ≠ [] end).
Proof.
  intros Hv Ht Hl Hg.
  assert (Hg0 : ∀ d, d_vault d = d_vault (w_disk w) → d_clock d = d_clock (w_disk w) →
                d_wal d = d_wal (w_disk w) ∨ d_wal d = Some [] → good h d n c).
  { intros d Hdv Hdc [Hw|Hw].
    - destruct Hg as (f & wal & Hf & Hwal & H). exists f, wal. rewrite Hdv, Hw, Hdc. done.
    - eexists _, _. rewrite Hdv, Hdc. done. }
  unfold reset_wal. apply post_bind, post_disk_step.
  2: { intros Hne k fs. split; (split_and!; [done|done|done|..|done]); destruct k; by try apply Hg0; auto. }
  intros fs Hfs. apply post_disk_step.
  - intros fs' Hfs'. cbn in Hfs'. split_and!; [done|done|by auto|apply Hg0; by auto|done|done|done].
  - cbn. intros Hne k fs'. assert (w_fates w ≠ []) by auto.
    split; (split_and!; [done|done|done|..|done]); destruct k; by try apply Hg0; auto.
Qed.

Lemma compact_spec h nonce w n c :
  good h (w_disk w) n c → synced h true w n c → post (compact_locked h nonce) w (compact_post h nonce w n c).
Proof.
  intros Hg (Hld & Hn & Hc & f & pre & rest & Hf & Ht & Hw & Hr & Hrest).
  specialize (Hrest eq_refl). subst rest. rewrite app_nil_r in Hw.
  destruct Hr as (Hoff & Hpre & Hl & Hcl & Hck & Hmb).
  assert (Hl' := Hl). destruct Hl' as (a & c0 & out & c1 & _ & Ha & E2 & E3 & _ & Hs & Hk).
  rewrite Hn in E3, Hl. assert (Hreach := apply_records_reached _ _ _ _ _ E3).
  assert (Hn0 := loads_nonneg _ _ _ _ _ Hl).
  unfold compact_locked. io_pure. unfold validate_cache_shapes. cbn [contents ct_recs ct_kill] in Hs, Hk.
  rewrite Hs. io_pure. cbn [upd_log w_disk w_log set_loaded ls_applied_seq]. rewrite Hw. io_pure.
  apply post_bind, post_write_snapshot.
  2: { intros b fs Hne. assert (Hcp : compacting h (w_disk w) n c (create_vault_tmp b (w_disk w))).
       { apply (same_files_compacting _ _ (w_disk w)); [split; [done|apply later_refl]|done|done|cbn; lia]. }
       split; [by split_and!; auto|by split_and!]. }
  2: { cbn [upd_log w_cache w_log set_loaded ls_applied_seq]. rewrite Hn. intros e e' He.
       split_and!; [split; [done|apply later_refl]|done|done|done|eauto]. }
  intros content fs Hcontent Hfs. cbn in Hfs. cbn [upd_log w_cache w_log set_loaded ls_applied_seq] in Hcontent. rewrite Hn in Hcontent.
  set (d1 := create_vault_tmp content (w_disk w)).
  assert (Hnew : ∀ log, log = pre ∨ log = [] → loads h content log n c).
  { intros log Hlog. rewrite <- Hc. apply (snapshot_loads _ nonce); try done.
    destruct Hlog as [->| ->]; [|by eexists].
    destruct (parse_lines_skip a _ _ 0 a _ _ n (u64_next n) ltac:(lia) E2) as (o & ? & ? & _); [lia|eauto]. }
  assert (C2 : compacting h (w_disk w) n c (rename_vault d1)).
  { split.
    - eexists _, pre. split_and!; [done|done|by apply Hnew; left|cbn; lia].
    - split; [cbn; lia|]. right. eexists. split; [done|]. cbn. lia. }
  assert (C1 : compacting h (w_disk w) n c d1).
  { apply (same_files_compacting _ _ (w_disk w)); [split; [done|apply later_refl]|done|done|cbn; lia]. }
  apply post_bind, post_disk_step.
  2: { cbn. intros Hne k fs2. assert (w_fates w ≠ []) by auto.
       split; (split_and!; [by destruct k|done|done|..]); auto. }
  intros fs2 Hfs2. cbn in Hfs2. apply post_bind. eapply post_mono.
  { apply (reset_spec h _ n c content (d_clock (w_disk w))); [done|cbn; lia|by apply Hnew; right|apply C2]. }
  intros o w' (Hca & Hlog & Hfa & Hgood & Hvault & Hclock & Ho). cbn in Hlog, Hca, Hvault, Hclock, Hfa.
  assert (C3 : compacting h (w_disk w) n c (w_disk w')).
  { split; [done|]. split; [rewrite Hclock; cbn; lia|]. right. eexists. split; [exact Hvault|]. cbn. lia. }
  destruct o as [[]|e| |]; [|split_and!; auto; left; intros ?; apply Ho; cbn; auto|done|split_and!; auto; intros ?; apply Ho; cbn; auto].
  io_pure. unfold file_token. rewrite Hvault. cbn [fmap option_fmap option_map fl_token]. io_pure.
  split_and!; [done|by cbn; auto|done|].
  split_and!; [done|cbn; by rewrite Hlog|cbn; by rewrite Hca|].
  eexists _, [], []. cbn. rewrite Hvault, Ho. split_and!; try done.
  rewrite Hlog, Hca. split_and!; try done. cbn [ls_applied_seq set_loaded upd_log w_log].
  rewrite Hn, Hc. by apply Hnew; right.
Qed.

(** ** The locked operations *)

(** A closure changes the records through the tracked maps only (their fields are
    private to them), and keeps the marks a [BTreeMap]. *)
Definition tracked_only {A} (f : closure A) : Prop :=
  ∀ c, mutated (sc_recs c) (sc_recs (f c).2)
       ∧ (bt_ok (kf_marks (sc_kill c)) → bt_ok (kf_marks (sc_kill (f c).2))).

(** [f], run on contents [c], returns [r] and leaves [c']. *)
Definition effect {A} (f : closure A) (c : Contents Rec Misc) (r : A) (c' : Contents Rec Misc) : Prop :=
  ∃ base, clean base ∧ contents base = c ∧ (f base).1 = V_ok r ∧ contents (f base).2 = c'.

Lemma clean_tracks c : clean c → tracks (tr_map (sc_recs c)) (sc_recs c).
Proof. intros Hc k. by rewrite Hc, lookup_empty. Qed.

Lemma synced_ready {A} h (f : closure A) w n c :
  tracked_only f → good h (w_disk w) n c → synced h true w n c →
  ready h (upd_cache (λ _, (f (w_cache w)).2) w) (w_cache w) n.
Proof.
  intros Hf (f0 & wal & Hv & Hw & _ & Ht)
    (Hld & Hn & Hc & f' & pre & rest & Hv' & Htok & Hw' & Hr & Hrest).
  specialize (Hrest eq_refl). subst rest. rewrite app_nil_r in Hw'.
  rewrite Hv in Hv'. injection Hv' as <-. destruct (Hf (w_cache w)) as [H1 H2].
  assert (Hr' := Hr). destruct Hr' as (_ & _ & Hl & Hcl & _).
  split_and!; [done|done| | |].
  - cbn. eapply mutated_tracks; [exact H1|by apply clean_tracks].
  - apply H2. destruct Hl as (? & ? & ? & ? & _ & _ & _ & _ & _ & _ & Hk). exact Hk.
  - by exists f0, pre.
Qed.

(** After a rollback the process sees the committed contents again. *)
Lemma rollback_spec {A} h (f : closure A) w n c :
  tracked_only f → good h (w_disk w) n c → synced h true w n c →
  post rollback_locked (upd_cache (λ _, (f (w_cache w)).2) w)
    (λ o w', o = Done tt ∧ w_disk w' = w_disk w ∧ w_log w' = w_log w ∧ w_fates w' = w_fates w
             ∧ synced h true w' n c).
Proof.
  intros Hf Hg Hs. assert (Hr := synced_ready h f w n c Hf Hg Hs).
  destruct Hr as (_ & _ & Htr & _). cbn in Htr.
  destruct Hs as (Hld & Hn & Hc & f' & pre & rest & Hv & Htok & Hw & Hr & Hrest).
  assert (Hr' := Hr). destruct Hr' as (Ho & Hp & Hl & Hcl & Hck & Hmb).
  destruct (rollback_contents (w_cache w) (f (w_cache w)).2 Hcl Htr) as [R1 R2].
  unfold rollback_locked. io_pure. cbn [upd_cache w_log w_cache w_disk w_fates].
  split_and!; [done|done|done|done|]. rewrite Hck, Hmb.
  split_and!; [done|done|by rewrite <- Hc, <- R1|].
  exists f', pre, rest. split_and!; try done. split_and!; try done.
  - cbn [upd_cache w_cache]. by rewrite R1.
  - cbn [upd_cache w_cache w_log]. rewrite Hmb. unfold misc_bytes. do 2 f_equal. symmetry.
    apply (restore_misc_bytes (w_cache w)).
Qed.

Definition mutate_post {A} (h : Handle) (f : closure A) (w : World) (n : Z) (c : Contents Rec Misc)
    (o : outcome A) (w' : World) : Prop :=
  later (w_disk w) (w_disk w')
  ∧ (o = Crashed ∨ in_step h (w_disk w') (w_log w') (w_cache w'))
  ∧ ∃ n' c', good h (w_disk w') n' c' ∧ n <= n' <= n + 1
     ∧ match o with
       | Done r => effect f c r c'
       | Panicked => c' = c
       | Failed _ | Crashed => c' = c ∨ ∃ r, effect f c r c'
       end.

Lemma good_token h d n c : good h d n c → ∃ f, d_vault d = Some f ∧ fl_token f < d_clock d.
Proof. intros (f & w & Hf & _ & _ & Ht). eauto. Qed.

(** The part of a mutation after the commit: compaction when the log has grown. *)
Lemma compaction_spec {A} h nonce (r : A) force w0 w n c n' c' (f : closure A) :
  later (w_disk w0) (w_disk w) → n <= n' <= n + 1 → effect f c r c' →
  good h (w_disk w) n' c' → synced h true w n' c' →
  post (io_bind (if (Nat.max (h_compact_min h) (ls_snap_len (w_log w)) <? ls_wal_offset (w_log w))%nat
                    || force
                 then io_catch (compact_locked h nonce)
                        (λ e, if force then io_fail e else map_log (set_loaded false))
                 else io_ret tt) (λ _, io_ret r)) w (mutate_post h f w0 n c).
Proof.
  intros Hlat Hn Heff Hg Hs.
  assert (Hin : in_step h (w_disk w) (w_log w) (w_cache w))
    by (eapply synced_in_step; [by eapply good_token|exact Hs]).
  apply post_bind. destruct (_ || force); io_pure.
  2: { split_and!; [done|by right|]. eauto. }
  apply post_catch. eapply post_mono; [by apply compact_spec|].
  intros o w' ([Cg Cl] & Hfs & Hca & Ho).
  assert (Hlat' : later (w_disk w0) (w_disk w')) by (by eapply later_trans).
  destruct o as [[]|e| |]; [| |done|].
  - io_pure. split_and!; [done|right|by eauto].
    eapply synced_in_step; [by eapply good_token|exact Ho].
  - destruct Ho as [Ho _]. assert (Hin' : in_step h (w_disk w') (set_loaded false (w_log w')) (w_cache w')).
    { apply (in_step_unloaded _ _ _ (w_cache w)). apply (in_step_later _ (w_disk w)); [done|].
      rewrite Ho. by apply (in_step_unloaded _ _ _ (w_cache w)). }
    destruct force; io_pure.
    + split_and!; [done| |]; [right; by rewrite Ho in *|eauto 7].
    + split_and!; [done|by right|]. eauto.
  - split_and!; [done|by left|]. eauto 7.
Qed.

Lemma mutate_spec {A} h n1 n2 (f : closure A) force w n c :
  tracked_only f → n < u64_max → good h (w_disk w) n c → in_step h (w_disk w) (w_log w) (w_cache w) →
  post (locked_mutate_blocking h n1 n2 f force) w (mutate_post h f w n c).
Proof.
  intros Hf Hmax Hg Hin. unfold locked_mutate_blocking. apply post_bind.
  eapply post_mono; [by apply sync_spec|]. intros o w1 (Hg1 & Hl1 & Hfs1 & Ho).
  destruct o as [[]|e| |]; [| |done|].
  2: { split_and!; [done|right; apply Ho|]. exists n, c. split_and!; [done|lia|lia|by left]. }
  2: { split_and!; [done|by left|]. exists n, c. split_and!; [done|lia|lia|by left]. }
  io_pure. destruct (f (w_cache w1)) as [v cache'] eqn:Ef.
  assert (Hc' : (f (w_cache w1)).2 = cache') by (by rewrite Ef).
  assert (Hrb := rollback_spec h f w1 n c Hf Hg1 Ho). rewrite Hc' in Hrb.
  assert (Hrd := synced_ready h f w1 n c Hf Hg1 Ho). rewrite Hc' in Hrd.
  destruct v as [r|e|]; io_pure.
  - apply post_bind, post_catch. eapply post_mono; [by apply (commit_spec _ _ _ (w_cache w1) n)|].
    assert (Heff : effect f c r (contents cache')).
    { exists (w_cache w1). destruct Ho as (_ & _ & Hcc & ? & ? & ? & _ & _ & _ & Hr & _).
      rewrite Ef. split_and!; [apply Hr|done|done|done]. }
    assert (Hcc : contents (w_cache w1) = c) by apply Ho.
    intros o w2 (Hl2 & Hfs2 & H2). cbn [upd_cache w_disk] in Hl2.
    assert (Hl : later (w_disk w) (w_disk w2)) by (by eapply later_trans).
    destruct o as [[]|e| |]; [| |done|].
    + destruct H2 as (n' & Hn' & Hg2 & Hs2). io_pure. by apply (compaction_spec _ _ _ _ _ _ _ _ n' (contents cache')).
    + destruct H2 as (Hlog & Hca & _ & Hd). io_pure. cbn [upd_log upd_cache w_disk w_log w_cache] in *.
      split_and!; [done| |].
      * right. cbn. apply (in_step_unloaded _ _ _ (w_cache w1)). rewrite Hlog.
        apply (in_step_later _ (w_disk w1)); [done|].
        eapply synced_in_step; [by eapply good_token|exact Ho].
      * rewrite Hcc in Hd. destruct Hd as [Hd|Hd]; [exists n, c|exists (n + 1), (contents cache')];
          (split_and!; [done|lia|lia|]); [by left|right; by exists r].
    + split_and!; [done|by left|]. rewrite Hcc in H2.
      destruct H2 as [_ [Hd|Hd]]; [exists n, c|exists (n + 1), (contents cache')];
        (split_and!; [done|lia|lia|]); [by left|right; by exists r].
  - apply post_bind. eapply post_mono; [exact Hrb|]. intros o w2 (-> & Hd & Hlog & _ & Hs). io_pure.
    split_and!; [by rewrite Hd|right|].
    + eapply synced_in_step; [|exact Hs]. rewrite Hd. by eapply good_token.
    + exists n, c. rewrite Hd. split_and!; [done|lia|lia|by left].
  - apply post_bind. eapply post_mono; [exact Hrb|]. intros o w2 (-> & Hd & Hlog & _ & Hs). io_pure.
    change (mutate_post h f w n c Panicked (upd_log (set_loaded false) w2)).
    split_and!; [by cbn; rewrite Hd|right|].
    + cbn. apply (in_step_unloaded _ _ _ (w_cache w2)). rewrite Hd.
      eapply synced_in_step in Hs; [|rewrite Hd; by eapply good_token]. by rewrite Hd in Hs.
    + exists n, c. cbn. rewrite Hd. split_and!; [done|lia|lia|done].
Qed.

(** [locked_read_blocking] shows exactly the committed contents. *)
Lemma read_spec {A} h (f : StorageCache → A) w n c :
  good h (w_disk w) n c → in_step h (w_disk w) (w_log w) (w_cache w) →
  post (locked_read_blocking h f) w (λ o w',
    good h (w_disk w') n c ∧ later (w_disk w) (w_disk w')
    ∧ (o = Crashed ∨ in_step h (w_disk w') (w_log w') (w_cache w'))
    ∧ match o with
      | Done a => ∃ cache, contents cache = c ∧ clean cache ∧ a = f cache
      | Panicked => False
      | _ => w_fates w ≠ []
      end).
Proof.
  intros Hg Hin. unfold locked_read_blocking. io_pure.
  destruct (is_current (w_log w) (w_disk w)) eqn:Ecur.
  - io_pure. split_and!; [done|apply later_refl|by right|]. exists (w_cache w).
    unfold is_current in Ecur. apply andb_true_iff in Ecur as [E12 E3].
    apply andb_true_iff in E12 as [E1 E2]. apply bool_decide_eq_true in E3.
    destruct Hg as (f0 & wal & Hf & Hw & Hl & Ht). unfold file_token, wal_len_opt in *.
    rewrite Hf in E2. rewrite Hw in E3. cbn in E2, E3. apply bool_decide_eq_true in E2.
    injection E3 as E3. destruct Hin as [_ Hview].
    destruct (Hview E1 f0 Hf E2) as (pre & rest & Hw' & Hr).
    rewrite Hw in Hw'. injection Hw' as ->. assert (Hoff := proj1 Hr).
    rewrite length_app in E3. assert (rest = []) as -> by (apply nil_length_inv; lia).
    rewrite app_nil_r in Hl.
    destruct (loads_fun _ _ _ _ _ _ _ Hl (proj1 (proj2 (proj2 Hr)))) as [_ ->].
    split_and!; [done|apply Hr|done].
  - apply post_bind. eapply post_mono; [by apply sync_spec|].
    intros o w1 (Hg1 & Hl1 & Hfs1 & Ho). destruct o as [[]|e| |]; [| |done|].
    + io_pure. split_and!; [done|done| |].
      * right. eapply synced_in_step; [by eapply good_token|exact Ho].
      * exists (w_cache w1). destruct Ho as (_ & _ & Hc & ? & ? & ? & _ & _ & _ & Hr & _).
        split_and!; [done|apply Hr|done].
    + split_and!; [done|done|right; apply Ho|apply Ho].
    + split_and!; [done|done|by left|done].
Qed.
End commit.
