(* ===== verification/VaultSystem.v ===== *)
(** * Several processes on one vault

    The web server and the MCP server share a vault file.  Each has its own view of it;
    the lock makes their operations happen one after another, in any order, with any
    step of any of them failing or ending the process.  A [run] is such a sequence.

    The specification is a store that is changed atomically: [spec_step] on the contents
    alone.  The theorems show that the files implement it ([vault_refines_atomic_store]),
    that a mutation cut short anywhere leaves the old or the new contents
    ([crash_leaves_old_or_new]), that without faults the vault can always be read
    ([healthy_vault_is_readable]), and that damaged files are refused: a log with a gap
    ([log_reader_is_contiguous]), one that lost records ([shrunk_log_is_refused]), a
    vanished vault ([vanished_vault_is_refused]). *)

From stdpp Require Import base gmap strings list.
From Stdlib Require Import Ascii ZArith Lia.
From S2P Require Import Prelude RustStr BTree Json KillFence Egress Crypto Tracked VaultLog.
From S2P Require Import VaultCache VaultFile VaultFileFacts VaultCommit.

Open Scope Z_scope.

Section system.
Context {SC : SealCrates} {LS : LogSerde} {CS : CacheSerde} {FS : FileSerde}.

(** ** Runs *)

(** The directory, and the view of each running process. *)
Record System := {
  y_disk : Disk;
  y_procs : gmap nat (LogState * StorageCache);
}.

(** What an operation was and how it ended. *)
Inductive label :=
| L_mutate {A : Type} (f : closure A) (o : outcome A)
| L_read {A : Type} (f : StorageCache → A) (o : outcome A)
| L_open (o : outcome unit).

Definition world (s : System) (p : LogState * StorageCache) (fs : list Fate) : World :=
  {| w_log := p.1; w_cache := p.2; w_disk := y_disk s; w_fates := fs |}.

(** The process is gone if it crashed, and otherwise keeps its view. *)
Definition after {A} (s : System) (pid : nat) (o : outcome A) (w : World) : System :=
  {| y_disk := w_disk w;
     y_procs := match o with
                | Crashed => delete pid (y_procs s)
                | _ => <[pid := (w_log w, w_cache w)]> (y_procs s)
                end |}.

Definition is_done {A} (o : outcome A) : bool := match o with Done _ => true | _ => false end.

Inductive sys_step (h : Handle) (s : System) : label → System → Prop :=
| S_mutate A pid p (f : closure A) n1 n2 force fs :
    y_procs s !! pid = Some p → tracked_only f →
    let r := locked_mutate_blocking h n1 n2 f force (world s p fs) in
    sys_step h s (L_mutate f r.1) (after s pid r.1 r.2)
| S_read A pid p (f : StorageCache → A) fs :
    y_procs s !! pid = Some p →
    let r := locked_read_blocking h f (world s p fs) in
    sys_step h s (L_read f r.1) (after s pid r.1 r.2)
| S_open pid nonce now nanos fs :
    y_procs s !! pid = None →
    let r := bootstrap_locked h nonce now nanos (world s (default_log, default_cache) fs) in
    sys_step h s (L_open r.1) (if is_done r.1 then after s pid r.1 r.2
                               else {| y_disk := w_disk r.2; y_procs := y_procs s |}).

Inductive run (h : Handle) : System → list label → System → Prop :=
| R_nil s : run h s [] s
| R_cons s l s' ls s'' : sys_step h s l s' → run h s' ls s'' → run h s (l :: ls) s''.

(** ** The specification *)

Definition maybe_lost {A} (o : outcome A) : bool :=
  match o with Failed _ | Crashed => true | _ => false end.

(** A store that changes atomically: a mutation that returned has happened, one that
    failed or crashed has happened or not, one that panicked has not; a read that
    returned saw the contents. *)
Inductive spec_step (c : Contents Rec Misc) : label → Contents Rec Misc → Prop :=
| Sp_done A (f : closure A) r c' : effect f c r c' → spec_step c (L_mutate f (Done r)) c'
| Sp_lost A (f : closure A) o r c' :
    maybe_lost o = true → effect f c r c' → spec_step c (L_mutate f o) c'
| Sp_not A (f : closure A) o : is_done o = false → spec_step c (L_mutate f o) c
| Sp_read A (f : StorageCache → A) cache :
    contents cache = c → clean cache → spec_step c (L_read f (Done (f cache))) c
| Sp_unread A (f : StorageCache → A) o : is_done o = false → spec_step c (L_read f o) c
| Sp_open o : spec_step c (L_open o) c.

Inductive spec_run : Contents Rec Misc → list label → Contents Rec Misc → Prop :=
| SR_nil c : spec_run c [] c
| SR_cons c l c' ls c'' : spec_step c l c' → spec_run c' ls c'' → spec_run c (l :: ls) c''.

(** ** The refinement *)

(** The files hold [c] at sequence [n], and every process can catch up. *)
Definition holds (h : Handle) (s : System) (n : Z) (c : Contents Rec Misc) : Prop :=
  good h (y_disk s) n c
  ∧ ∀ pid p, y_procs s !! pid = Some p → in_step h (y_disk s) p.1 p.2.

Lemma holds_after {A} h s pid (o : outcome A) w n c :
  (∀ q p, y_procs s !! q = Some p → in_step h (y_disk s) p.1 p.2) →
  good h (w_disk w) n c → later (y_disk s) (w_disk w) →
  (o = Crashed ∨ in_step h (w_disk w) (w_log w) (w_cache w)) → holds h (after s pid o w) n c.
Proof.
  intros Hp Hg Hl Ho. split; [done|]. intros q p Hq. cbn in *.
  assert (Hq' : q = pid ∧ p = (w_log w, w_cache w) ∧ o ≠ Crashed ∨ y_procs s !! q = Some p).
  { destruct (decide (q = pid)) as [->|Hne].
    - destruct o; rewrite ?lookup_insert_eq, ?lookup_delete_eq in Hq; try discriminate Hq;
        injection Hq as <-; by left.
    - right. destruct o; [rewrite lookup_insert_ne in Hq by done..|rewrite lookup_delete_ne in Hq by done]; done. }
  destruct Hq' as [(-> & -> & Hc)|Hq']; [by destruct Ho|].
  eapply in_step_later; [done|by eapply Hp].
Qed.

Context {SL : SealLaws} {LL : LogSerdeLaws} {CL : CacheSerdeLaws} {FL : FileSerdeLaws}.

Lemma step_refines h s l s' n c :
  holds h s n c → n < u64_max → sys_step h s l s' →
  ∃ n' c', holds h s' n' c' ∧ n <= n' <= n + 1 ∧ spec_step c l c'.
Proof.
  intros [Hg Hp] Hn Hstep.
  destruct Hstep as [A pid p f n1 n2 force fs Hpid Hf r|A pid p f fs Hpid r|pid nonce now nanos fs Hpid r].
  - destruct (mutate_spec h n1 n2 f force (world s p fs) n c Hf Hn Hg (Hp _ _ Hpid))
      as (Hl & Hin & n' & c' & Hg' & Hn' & Ho).
    exists n', c'. split_and!; [by apply holds_after|lia|lia|]. subst r.
    destruct (locked_mutate_blocking _ _ _ _ _ _) as [[r|e| |] w']; cbn in *.
    + by apply Sp_done.
    + destruct Ho as [->|[r Ho]]; [by apply Sp_not|by eapply Sp_lost].
    + subst c'. by apply Sp_not.
    + destruct Ho as [->|[r Ho]]; [by apply Sp_not|by eapply Sp_lost].
  - destruct (read_spec h f (world s p fs) n c Hg (Hp _ _ Hpid)) as (Hg' & Hl & Hin & Ho).
    exists n, c. split_and!; [by apply holds_after|lia|lia|]. subst r.
    destruct (locked_read_blocking _ _ _) as [[a|e| |] w']; cbn in *; [|by apply Sp_unread..].
    destruct Ho as (cache & Hc & Hcl & ->). by apply Sp_read.
  - exists n, c. split_and!; [|lia|lia|apply Sp_open]. subst r.
    assert (Hb : post (bootstrap_locked h nonce now nanos) (world s (default_log, default_cache) fs)
                   (sync_post h true (world s (default_log, default_cache) fs) n c)).
    { unfold bootstrap_locked. apply post_bind. eapply post_mono; [by apply full_load_spec|].
      intros [[]|e| |] w' [H Hv]; [|exact H..]. io_pure. by rewrite (Hv eq_refl). }
    destruct Hb as (Hg' & Hl & _ & Ho).
    destruct (bootstrap_locked _ _ _ _ _) as [[[]|e| |] w']; cbn in *.
    + apply holds_after; [done|done|done|right]. eapply synced_in_step; [by eapply good_token|done].
    + split; [done|]. intros q p Hq. eapply in_step_later; [done|by eapply Hp].
    + done.
    + split; [done|]. intros q p Hq. eapply in_step_later; [done|by eapply Hp].
Qed.

(** C2: The vault's files implement a store that changes atomically: whatever processes
    interleave, and wherever their file operations fail or the processes die, every
    mutation that returned took effect whole and in order, one that failed or crashed
    took effect whole or not at all, one that panicked not at all, every read that
    returned saw exactly the contents at that moment, and the files hold the contents
    of the specification at the end. *)
Theorem vault_refines_atomic_store h s ls s' n c :
  holds h s n c → n + Z.of_nat (length ls) <= u64_max → run h s ls s' →
  ∃ n' c', spec_run c ls c' ∧ holds h s' n' c' ∧ n' <= n + Z.of_nat (length ls).
Proof.
  intros Hh Hn Hrun. revert n c Hh Hn. induction Hrun as [s|s l s1 ls s2 Hstep _ IH]; intros n c Hh Hn.
  { exists n, c. split_and!; [constructor|done|cbn; lia]. }
  cbn [length] in *. destruct (step_refines h s l s1 n c Hh ltac:(lia) Hstep) as (n1 & c1 & H1 & Hn1 & Hs).
  destruct (IH n1 c1 H1 ltac:(lia)) as (n' & c' & Hr & H' & Hle).
  exists n', c'. split_and!; [by econstructor|done|lia].
Qed.

(** A process started on files that hold [c] opens them, and sees [c]. *)
Lemma reopening_sees h d n c nonce now nanos :
  good h d n c →
  let r := bootstrap_locked h nonce now nanos {| w_log := default_log; w_cache := default_cache; w_disk := d; w_fates := [] |} in
  r.1 = Done tt ∧ contents (w_cache r.2) = c.
Proof.
  intros Hg. cut (post (bootstrap_locked h nonce now nanos)
    {| w_log := default_log; w_cache := default_cache; w_disk := d; w_fates := [] |}
    (λ o w', o = Done tt ∧ contents (w_cache w') = c)); [done|].
  unfold bootstrap_locked. apply post_bind. eapply post_mono; [by apply (full_load_spec h true _ n c)|].
  intros o w' [(_ & _ & _ & H) Hv]. destruct o as [[]|e| |]; [|by destruct H|done|done].
  io_pure. rewrite (Hv eq_refl). io_pure. split; [done|]. apply H.
Qed.

(** A mutation cut short by a failure or a crash at any of its steps leaves files that
    a process started afterwards opens without error, on the contents before the
    mutation or on those after it. *)
Theorem crash_leaves_old_or_new {A} h n1 n2 (f : closure A) force w n c nonce now nanos :
  tracked_only f → n < u64_max → good h (w_disk w) n c →
  in_step h (w_disk w) (w_log w) (w_cache w) →
  let d := w_disk (locked_mutate_blocking h n1 n2 f force w).2 in
  let r := bootstrap_locked h nonce now nanos
             {| w_log := default_log; w_cache := default_cache; w_disk := d; w_fates := [] |} in
  r.1 = Done tt
  ∧ (contents (w_cache r.2) = c ∨ ∃ a, effect f c a (contents (w_cache r.2))).
Proof.
  intros Hf Hn Hg Hin d r. destruct (mutate_spec h n1 n2 f force w n c Hf Hn Hg Hin)
    as (_ & _ & n' & c' & Hg' & _ & Ho).
  destruct (reopening_sees h d n' c' nonce now nanos Hg') as [H1 H2]. fold r in H1, H2.
  split; [exact H1|]. rewrite H2.
  destruct (locked_mutate_blocking h n1 n2 f force w) as [[a|e| |] w']; cbn in Ho;
    [by right; exists a|done|by left|done].
Qed.

(** While no file operation fails, a process that is in step reads the committed
    contents: no file left behind by others, torn line or foreign snapshot makes it
    refuse. *)
Theorem healthy_vault_is_readable {A} h (f : StorageCache → A) w n c :
  good h (w_disk w) n c → in_step h (w_disk w) (w_log w) (w_cache w) → w_fates w = [] →
  ∃ cache, (locked_read_blocking h f w).1 = Done (f cache) ∧ contents cache = c.
Proof.
  intros Hg Hin Hf. destruct (read_spec h f w n c Hg Hin) as (_ & _ & _ & Ho).
  destruct (locked_read_blocking h f w) as [[a|e| |] w']; cbn in *; [|done..].
  destruct Ho as (cache & Hc & _ & ->). eauto.
Qed.

(** Without faults a mutation whose new state has the shape that is checked returns. *)
Lemma healthy_mutation_returns `{WL : !WriteLaws} {A} h n1 n2 (f : closure A) force w n c :
  tracked_only f → n < u64_max → good h (w_disk w) n c → in_step h (w_disk w) (w_log w) (w_cache w) → w_fates w = [] →
  (∀ base, clean base → contents base = c → (∃ r, (f base).1 = V_ok r) ∧ shapes_ok (tr_map (sc_recs (f base).2)) = true) →
  post (locked_mutate_blocking h n1 n2 f force) w (λ o _, ∃ r, o = Done r).
Proof.
  intros Hf Hn Hg Hin Hfa Hbase. unfold locked_mutate_blocking. apply post_bind.
  eapply post_mono; [by apply sync_spec|]. intros o w1 (Hg1 & _ & Hfs1 & Ho).
  destruct o as [[]|e| |]; [|by destruct Ho|done|done]. io_pure. assert (Hrd := synced_ready h f w1 n c Hf Hg1 Ho).
  assert (Hb : clean (w_cache w1) ∧ contents (w_cache w1) = c).
  { destruct Ho as (_ & _ & ? & ? & ? & ? & _ & _ & _ & Hr & _). split; [apply Hr|done]. }
  destruct (Hbase _ (proj1 Hb) (proj2 Hb)) as [[r Hr] Hshape].
  destruct (f (w_cache w1)) as [v cache']. cbn [fst snd] in *. subst v. io_pure.
  apply post_bind, post_catch. eapply post_mono; [by apply (commit_spec _ _ _ (w_cache w1) n)|].
  intros o w2 (_ & Hf2 & H2). cbn in Hf2. specialize (Hf2 (Hfs1 Hfa)). destruct o as [[]|e| |]; [| |done|].
  - destruct H2 as (n' & _ & Hg2 & Hs2). io_pure. apply post_bind. destruct (_ || force); io_pure; [|by exists r].
    apply post_catch. eapply post_mono; [by apply compact_spec|]. intros o w3 (_ & _ & _ & H3).
    destruct o as [[]|e| |]; [io_pure; by exists r| |done|done]. exfalso. destruct H3 as [_ [H3|[e' H3]]]; [done|].
    destruct (snapshot_is_written h n2 (w_cache w2) n') as [content Hc]. congruence.
  - exfalso. destruct H2 as (_ & _ & [H2|H2] & _); [apply H2; cbn; auto|]. by apply H2, shaped_serializes.
  - exfalso. apply H2. cbn. auto.
Qed.

(** C32: While no file operation fails, every mutation commits.  The serializers and the cipher
    write what they are given ([WriteLaws]); the sequence is not exhausted; the files hold
    contents [c] and the process is in step with them, up to date or not; and the closure
    changes the records through the tracked maps only, returns, and leaves records of the
    shape the commit checks.  Then the mutation, forced to compact or not, returns the
    closure's result; the files hold the contents the closure left, one sequence further at
    most, and the process is in step with them; and a process started afterwards opens the
    files and sees exactly these contents. *)
Theorem healthy_mutation_commits `{WL : !WriteLaws} {A} h n1 n2 (f : closure A) force w n c nonce now nanos :
  tracked_only f → n < u64_max → good h (w_disk w) n c → in_step h (w_disk w) (w_log w) (w_cache w) → w_fates w = [] →
  (∀ base, clean base → contents base = c → (∃ r, (f base).1 = V_ok r) ∧ shapes_ok (tr_map (sc_recs (f base).2)) = true) →
  ∃ r w' n' c', locked_mutate_blocking h n1 n2 f force w = (Done r, w') ∧ effect f c r c'
  ∧ good h (w_disk w') n' c' ∧ n <= n' <= n + 1 ∧ in_step h (w_disk w') (w_log w') (w_cache w')
  ∧ let opened := bootstrap_locked h nonce now nanos
                    {| w_log := default_log; w_cache := default_cache; w_disk := w_disk w'; w_fates := [] |} in
    opened.1 = Done tt ∧ contents (w_cache opened.2) = c'.
Proof.
  intros Hf Hn Hg Hin Hfa Hbase. destruct (mutate_spec h n1 n2 f force w n c Hf Hn Hg Hin) as (_ & Hin' & n' & c' & Hg' & Hn' & Ho).
  destruct (healthy_mutation_returns h n1 n2 f force w n c Hf Hn Hg Hin Hfa Hbase) as [r Hr].
  destruct (locked_mutate_blocking h n1 n2 f force w) as [o w']. cbn [fst snd] in *. subst o.
  exists r, w', n', c'. split_and!; [done|done|done|lia|lia|by destruct Hin'|..]; by eapply reopening_sees.
Qed.

(** ** Damaged files *)

(** The log reader returns records only if they follow the caller's sequence one by one
    without gap, repetition or reordering, opens no other record, and consumes exactly
    the terminated lines. *)
Theorem log_reader_is_contiguous region a key out :
  0 <= a → parse_log region a key = Ok out →
  contiguous a (pg_records out) ∧ pg_decrypts out = Z.of_nat (length (pg_records out))
  ∧ pg_consumed out = length (whole_lines region)
  ∧ (pg_torn_tail out = false ↔ region = whole_lines region).
Proof.
  intros Ha. unfold parse_log. rewrite (take_lines_eta region).
  destruct (parse_lines a key 0 (u64_next a) (take_lines region).1) as [o|] eqn:E;
    cbn [result_bind]; [|done].
  intros [= <-]. destruct (parse_lines_contiguous a _ _ a _ _ ltac:(lia) E) as (H1 & _ & H3 & H4).
  cbn [pg_records pg_decrypts pg_consumed pg_torn_tail]. split_and!; [done|done|done|].
  assert (Ht := whole_lines_tail region). destruct (take_lines region).2 as [|b t] eqn:Et.
  - split; [|done]. intros _. by rewrite app_nil_r in Ht.
  - split; [done|]. intros Hr. rewrite <- Hr in Ht.
    apply (f_equal length) in Ht. rewrite length_app in Ht. cbn in Ht. lia.
Qed.

(** One look after another on files that do not change. *)
Fixpoint looks (h : Handle) (ex : bool) (k : nat) (w : World) : World :=
  match k with O => w | S k' => (sync_locked h ex (looks h ex k' w)).2 end.

(** A process whose snapshot is unchanged and whose log has lost records it already
    read, or is missing, refuses every look: it never falls back to the shorter
    state, and its view stays as it was. *)
Theorem shrunk_log_is_refused h ex w f k :
  d_vault (w_disk w) = Some f → ls_loaded (w_log w) = true →
  ls_snap_token (w_log w) = Some (fl_token f) →
  (∀ wal, d_wal (w_disk w) = Some wal → (length wal < ls_wal_offset (w_log w))%nat) →
  ∃ e, (sync_locked h ex (looks h ex k w)).1 = Failed e ∧ looks h ex k w = w.
Proof.
  intros Hf Hld Ht Hw.
  assert (Hstep : ∃ e, sync_locked h ex w = (Failed e, w)).
  { unfold sync_locked, io_bind, get_log, get_disk, file_token, wal_len_opt.
    rewrite Hf, Hld, Ht. cbn [fmap option_fmap option_map andb]. rewrite bool_decide_true by done.
    destruct (d_wal (w_disk w)) as [wal|]; cbn [fmap option_fmap option_map]; [|by eexists].
    specialize (Hw wal eq_refl). rewrite (proj2 (Nat.eqb_neq _ _)) by lia.
    rewrite (proj2 (Nat.ltb_ge _ _)) by lia. by eexists. }
  destruct Hstep as [e He]. exists e.
  assert (Hk : looks h ex k w = w).
  { induction k as [|k IH]; [done|]. cbn [looks]. by rewrite IH, He. }
  by rewrite Hk, He.
Qed.

(** A process that has seen the vault file and finds it gone refuses every look, and
    never takes the empty directory for a fresh vault. *)
Theorem vanished_vault_is_refused h ex w k :
  d_vault (w_disk w) = None → ls_snap_token (w_log w) ≠ None →
  (sync_locked h ex (looks h ex k w)).1 = Failed E_VaultFileGone.
Proof.
  intros Hv Ht.
  assert (Hinv : d_vault (w_disk (looks h ex k w)) = None
                 ∧ ls_snap_token (w_log (looks h ex k w)) ≠ None).
  { induction k as [|k [IH1 IH2]]; [done|]. cbn [looks].
    unfold sync_locked, io_bind, get_log, get_disk, file_token. rewrite IH1. cbn.
    rewrite andb_false_r. unfold full_load_locked, io_bind, map_log, get_disk, get_log, file_token. cbn.
    rewrite IH1. cbn. destruct (ls_snap_token (w_log (looks h ex k w))) eqn:E; [|done]. cbn. by rewrite E. }
  destruct Hinv as [H1 H2]. unfold sync_locked, io_bind, get_log, get_disk, file_token.
  rewrite H1. cbn. rewrite andb_false_r.
  unfold full_load_locked, io_bind, map_log, get_disk, get_log, file_token. cbn. rewrite H1. cbn.
  by destruct (ls_snap_token (w_log (looks h ex k w))).
Qed.
End system.
