(* ===== verification/Indexed.v ===== *)
(** * Tables with a secondary index

    Several components keep records in a map by one string key and an index from a
    second unique attribute to that key: tokens by id with an index by hash, roles by
    id with an index by name, keys by hash with an index by id.  This file states when
    the two agree and which updates keep them so. *)

From stdpp Require Import base gmap strings list.

Lemma filter_bool_sublist {A} (f : A → bool) l : List.filter f l `sublist_of` l.
Proof.
  induction l as [|x l IH]; [done|]. cbn [List.filter]. destruct (f x); by constructor.
Qed.

Section indexed.
Context {A : Type} (key attr : A → string).

(** The records are filed under their key and the index names exactly them. *)
Definition indexed (m : gmap string A) (i : gmap string string) : Prop :=
  (∀ k a, m !! k = Some a → key a = k ∧ i !! attr a = Some k)
  ∧ ∀ x k, i !! x = Some k → ∃ a, m !! k = Some a ∧ attr a = x.

Lemma indexed_empty : indexed ∅ ∅.
Proof. split; by intros ? ? ?. Qed.

Lemma indexed_update m i k a a' :
  indexed m i → m !! k = Some a → key a' = key a → attr a' = attr a → indexed (<[k := a']> m) i.
Proof.
  intros [H1 H2] Ha Hk Hx. destruct (H1 k a Ha) as [Hka Hi]. split.
  - intros k' u. destruct (decide (k = k')) as [<-|Hne].
    + rewrite lookup_insert_eq. intros [= <-]. by rewrite Hk, Hx.
    + rewrite lookup_insert_ne by done. apply H1.
  - intros x k' Hx'. destruct (H2 x k' Hx') as (u & Hu & <-).
    destruct (decide (k = k')) as [<-|Hne]; [|exists u; by rewrite lookup_insert_ne].
    exists a'. rewrite lookup_insert_eq. split; [done|]. congruence.
Qed.

Lemma indexed_delete m i k a :
  indexed m i → m !! k = Some a → indexed (delete k m) (delete (attr a) i).
Proof.
  intros [H1 H2] Ha. destruct (H1 k a Ha) as [Hka Hi]. split.
  - intros k' u Hu. apply lookup_delete_Some in Hu as [Hne Hu]. destruct (H1 k' u Hu) as [? Hu'].
    split; [done|]. rewrite lookup_delete_ne; [done|]. intros E. rewrite E in Hi. congruence.
  - intros x k' Hx. apply lookup_delete_Some in Hx as [Hne Hx].
    destruct (H2 x k' Hx) as (u & Hu & <-). exists u. split; [|done].
    rewrite lookup_delete_ne; [done|]. intros <-. congruence.
Qed.

Lemma indexed_insert m i a :
  indexed m i → m !! key a = None → i !! attr a = None →
  indexed (<[key a := a]> m) (<[attr a := key a]> i).
Proof.
  intros [H1 H2] Hm Hi. split.
  - intros k u. destruct (decide (key a = k)) as [<-|Hne].
    + rewrite lookup_insert_eq. intros [= <-]. split; [done|apply lookup_insert_eq].
    + rewrite lookup_insert_ne by done. intros Hu. destruct (H1 k u Hu) as [? Hu'].
      split; [done|]. rewrite lookup_insert_ne; [done|]. congruence.
  - intros x k. destruct (decide (attr a = x)) as [<-|Hne].
    + rewrite lookup_insert_eq. intros [= <-]. exists a. by rewrite lookup_insert_eq.
    + rewrite lookup_insert_ne by done. intros Hx. destruct (H2 x k Hx) as (u & Hu & <-).
      exists u. rewrite lookup_insert_ne; [done|]. congruence.
Qed.

(** Filing a record over an older one with the same attribute, or a new one. *)
Lemma indexed_put m i a :
  indexed m i → (∀ k, i !! attr a = Some k → k = key a) → (∀ b, m !! key a = Some b → attr b = attr a) →
  indexed (<[key a := a]> m) (<[attr a := key a]> i).
Proof.
  intros Hok Hi Hm. destruct (m !! key a) as [b|] eqn:Eb.
  - destruct (proj1 Hok _ _ Eb) as [Hkb Hib]. rewrite (Hm b eq_refl) in Hib.
    rewrite (insert_id i) by done. apply (indexed_update m i (key a) b a); auto. symmetry; auto.
  - apply indexed_insert; [done|done|]. destruct (i !! attr a) as [k|] eqn:Ei; [|done].
    destruct (proj2 Hok _ _ Ei) as (b & Hb & _). rewrite (Hi k eq_refl), Eb in Hb. done.
Qed.

(** Filing a record under a new attribute. *)
Lemma indexed_rename m i a b :
  indexed m i → m !! key a = Some b → i !! attr a = None →
  indexed (<[key a := a]> m) (<[attr a := key a]> (delete (attr b) i)).
Proof.
  intros Hok Hb Hi. rewrite <- insert_delete_eq. apply indexed_insert.
  - by apply indexed_delete.
  - apply lookup_delete_eq.
  - by apply lookup_delete_None; right.
Qed.

(** Looking a record up through the index. *)
Lemma indexed_lookup m i x a :
  indexed m i →
  (k ← i !! x; m !! k) = Some a ↔ m !! key a = Some a ∧ attr a = x.
Proof.
  intros [H1 H2]. split.
  - destruct (i !! x) as [k|] eqn:E; [|done]. cbn. intros Ha.
    destruct (H2 x k E) as (u & Hu & <-). destruct (H1 k a Ha) as [-> _].
    split; [done|]. rewrite Ha in Hu. by injection Hu as ->.
  - intros [Ha <-]. destruct (H1 _ _ Ha) as [_ ->]. exact Ha.
Qed.

(** A key that is taken and an attribute that is taken name the same record, if any. *)
Lemma indexed_attr_inj m i a b :
  indexed m i → m !! key a = Some a → m !! key b = Some b → attr a = attr b → key a = key b.
Proof.
  intros [H1 _] Ha Hb E. destruct (H1 _ _ Ha) as [_ Ha']. destruct (H1 _ _ Hb) as [_ Hb'].
  rewrite E in Ha'. congruence.
Qed.

(** Filing a list of records with distinct keys and attributes, none taken yet. *)
Definition file (acc : gmap string A * gmap string string) (a : A)
    : gmap string A * gmap string string :=
  (<[key a := a]> acc.1, <[attr a := key a]> acc.2).

Lemma indexed_file l acc :
  indexed acc.1 acc.2 → NoDup (key <$> l) → NoDup (attr <$> l) →
  (∀ a, a ∈ l → acc.1 !! key a = None ∧ acc.2 !! attr a = None) →
  let r := foldl file acc l in
  indexed r.1 r.2
  ∧ ∀ k a, r.1 !! k = Some a ↔ acc.1 !! k = Some a ∨ a ∈ l ∧ key a = k.
Proof.
  revert acc. induction l as [|b l IH]; intros acc Hok Hk Hx Hf.
  { cbv zeta. cbn [foldl]. split; [done|]. intros k a. split; [by left|].
    intros [?|[?%elem_of_nil _]]; done. }
  cbv zeta. cbn [foldl]. apply NoDup_cons in Hk as [Hkb Hk]. apply NoDup_cons in Hx as [Hxb Hx].
  destruct (Hf b) as [Hb1 Hb2]; [constructor|].
  destruct (IH (file acc b)) as [H1 H2]; [by apply indexed_insert|done|done| |].
  - intros a Ha. destruct (Hf a) as [Ha1 Ha2]; [by constructor|]. cbn. split.
    + rewrite lookup_insert_ne; [done|]. intros E. apply Hkb. rewrite E. by apply list_elem_of_fmap_2.
    + rewrite lookup_insert_ne; [done|]. intros E. apply Hxb. rewrite E. by apply list_elem_of_fmap_2.
  - split; [exact H1|]. intros k a. rewrite H2. cbn. rewrite elem_of_cons.
    destruct (decide (key b = k)) as [<-|Hne].
    + rewrite lookup_insert_eq. split.
      * intros [[= <-]|[Ha E]]; [by auto|]. auto.
      * intros [E|[[->|Ha] E]]; [congruence|by left|by right].
    + rewrite lookup_insert_ne by done. naive_solver.
Qed.

(** The attributes, and the keys, of the records of a table are distinct. *)
Lemma indexed_attrs_nodup m i (f : A → bool) :
  indexed m i → NoDup (attr <$> List.filter f (map_to_list m).*2).
Proof.
  intros Hok. apply (sublist_NoDup _ (attr <$> (map_to_list m).*2));
    [|apply fmap_sublist, filter_bool_sublist].
  rewrite <- list_fmap_compose. apply NoDup_fmap_2_strong; [|apply NoDup_map_to_list].
  intros [k a] [k' a'] H1 H2 E. apply elem_of_map_to_list in H1, H2. cbn in E.
  destruct (proj1 Hok _ _ H1) as [_ I1]. destruct (proj1 Hok _ _ H2) as [_ I2].
  rewrite E, I2 in I1. injection I1 as ->. congruence.
Qed.

Lemma indexed_keys_nodup m i (f : A → bool) :
  indexed m i → NoDup (key <$> List.filter f (map_to_list m).*2).
Proof.
  intros Hok. apply (sublist_NoDup _ (key <$> (map_to_list m).*2));
    [|apply fmap_sublist, filter_bool_sublist].
  rewrite <- list_fmap_compose. apply NoDup_fmap_2_strong; [|apply NoDup_map_to_list].
  intros [k a] [k' a'] H1 H2 E. apply elem_of_map_to_list in H1, H2. cbn in E.
  destruct (proj1 Hok _ _ H1) as [I1 _]. destruct (proj1 Hok _ _ H2) as [I2 _].
  rewrite I1, I2 in E. subst. congruence.
Qed.
End indexed.
