(* ===== verification/Tokens.v ===== *)
(** * Use tokens and approval tokens

    Models [src/src/auth/tokens.rs] and [src/src/auth/approval_tokens.rs] (minting,
    validity, scopes), the grant scope of [src/src/delegation/mod.rs], and the token
    operations of [FileStorage] in [src/src/storage/file.rs]: store, look up by hash,
    consume, revoke, retire generations, replay protection of workload exchanges,
    workload grants, and the collection of dead tokens.

    A mutation runs under the vault's lock; its [Commit] says how the write of the vault
    as a whole ended: done, not done (the tokens are as they were), or durable although the
    caller was given an error.  Random bytes and fresh ids are arguments.

    Theorems: over any sequence of operations a token drives at most [max_uses]
    executions and hands out increasing sequence numbers, none of them twice and, when
    every write was reported, none skipped; a revoked or expired token
    is never usable again; only tokens that can never be used again are collected; the
    hash index agrees with the tokens; an exchange id is accepted once; retiring a
    workload's generations leaves only the kept ones alive. *)

From stdpp Require Import base gmap strings list.
From Stdlib Require Import Ascii ZArith Lia.
From S2P Require Import Prelude RustStr UrlCanon Json Approval Egress Indexed.

Open Scope Z_scope.

(** ** Delegation grants *)

Module Delegation.

(** [DelegationGrantScope]. *)
Record DelegationGrantScope := {
  max_risk_tier : string;
  action_classes : list string;
}.

Definition default_scope : DelegationGrantScope :=
  {| max_risk_tier := "Low"; action_classes := [] |}.

(** [DelegationGrantScope::validate]. *)
Inductive ScopeError := TierRequired | TierNotPermitted (tier : string).

Definition validate_scope (s : DelegationGrantScope) : result unit ScopeError :=
  let tier := trim (max_risk_tier s) in
  if is_empty tier then Err TierRequired
  else if negb (String.eqb tier "Low") && negb (String.eqb tier "Medium")
  then Err (TierNotPermitted tier)
  else Ok tt.

(** [DelegateEvalInput] and the reason of a [DelegateEvalResult]. *)
Record DelegateEvalInput := {
  grant_scope : DelegationGrantScope;
  delegate_agent_id : string;
  action_class : string;
  risk_tier : string;
  irreversible : bool;
  approve_verdict : bool;
}.

Inductive DelegateReason :=
| IdentityRequired | IrreversibleFloor | RiskTierRequired | UnknownRiskTier (tier : string)
| InvalidCap (tier : string) | ExceedsCap (risk cap : string) | HighRiskFloor
| ActionClassRequired | ActionClassNotInScope (action : string) | VerdictDenied
| WithinCaps.

Record DelegateEvalResult := {
  permitted : bool;
  reason : DelegateReason;
  veto_window_secs : Z;
}.

Definition risk_strength (tier : string) : option Z :=
  if String.eqb tier "Low" then Some 1
  else if String.eqb tier "Medium" then Some 2
  else if String.eqb tier "High" then Some 3
  else if String.eqb tier "Extreme" then Some 4
  else None.

Definition cap_strength (tier : string) : option Z :=
  if String.eqb tier "Low" then Some 1
  else if String.eqb tier "Medium" then Some 2
  else None.

Definition refuse (r : DelegateReason) : DelegateEvalResult :=
  {| permitted := false; reason := r; veto_window_secs := 0 |}.

(** The action-class check and the verdict, behind the risk floors. *)
Definition evaluate_action (i : DelegateEvalInput) : DelegateEvalResult :=
  let verdict :=
    if negb (approve_verdict i) then refuse VerdictDenied
    else {| permitted := true; reason := WithinCaps; veto_window_secs := 0 |} in
  match action_classes (grant_scope i) with
  | [] => verdict
  | classes =>
      let act := trim (action_class i) in
      if is_empty act then refuse ActionClassRequired
      else if negb (existsb (λ a, String.eqb (trim a) act) classes)
      then refuse (ActionClassNotInScope act)
      else verdict
  end.

(** [evaluate_delegate_decision]. *)
Definition evaluate_delegate_decision (i : DelegateEvalInput) : DelegateEvalResult :=
  if is_empty (trim (delegate_agent_id i)) then refuse IdentityRequired
  else if irreversible i then refuse IrreversibleFloor
  else
    let risk := trim (risk_tier i) in
    if is_empty risk then refuse RiskTierRequired
    else
      match risk_strength risk with
      | None => refuse (UnknownRiskTier risk)
      | Some rs =>
          let cap := trim (max_risk_tier (grant_scope i)) in
          match cap_strength cap with
          | None => refuse (InvalidCap cap)
          | Some cs =>
              if cs <? rs then refuse (ExceedsCap risk cap)
              else if String.eqb risk "High" || String.eqb risk "Extreme" then refuse HighRiskFloor
              else evaluate_action i
          end
      end.
End Delegation.

(** ** Tokens *)

(** SHA-256 as bytes. *)
Class Sha256Digest := { sha256 : string → string }.

Section tokens.
Context {GC : GlobCrate} {EN : Encoders} {SD : Sha256Digest}.

Definition USE_TOKEN_PREFIX : string := "vut_".
Definition APPROVAL_TOKEN_PREFIX : string := "vap_".
Definition TOKEN_RANDOM_LENGTH : nat := 32.

(** [UseToken]. *)
Record UseToken := {
  ut_id : string;
  ut_token_prefix : string;
  ut_token_hash : string;
  ut_name : string;
  ut_credential_scope : string;
  ut_action_scope : option string;
  ut_max_uses : option Z;
  ut_uses : Z;
  ut_require_approval : bool;
  ut_expires_at : option DateTime;
  ut_created_at : DateTime;
  ut_last_used_at : option DateTime;
  ut_revoked : bool;
  ut_agent_label : option string;
  ut_dual_control : bool;
  ut_owner_identity : option string;
  ut_tenant : option string;
}.

(** [UseTokenInvalid]. *)
Inductive UseTokenInvalid := UT_Revoked | UT_Expired | UT_Exhausted.

(** [NewUseToken]; a lifetime is in nanoseconds. *)
Record NewUseToken := {
  nu_name : string;
  nu_credential_scope : string;
  nu_action_scope : option string;
  nu_max_uses : option Z;
  nu_require_approval : bool;
  nu_expires_in : option Z;
}.

Inductive TokenParamError :=
| EmptyCredentialScope | ZeroMaxUses | NonPositiveExpiry
| BadCredentialScope (pattern : string) | BadActionScope (pattern : string)
| EmptyGrantRef | BadGrantScope (e : Delegation.ScopeError) | EmptyDelegator
| EmptyAgentLabel | AgentLabelTooLong | BadAgentLabel.

Definition non_positive (d : option Z) : bool :=
  match d with Some n => n <=? 0 | None => false end.

Definition glob_compiles (p : string) : bool := match glob_new p with Some _ => true | None => false end.

(** [NewUseToken::validate]. *)
Definition validate_use_token (n : NewUseToken) : result unit TokenParamError :=
  if is_empty (trim (nu_credential_scope n)) then Err EmptyCredentialScope
  else if match nu_max_uses n with Some m => m =? 0 | None => false end then Err ZeroMaxUses
  else if non_positive (nu_expires_in n) then Err NonPositiveExpiry
  else if negb (glob_compiles (nu_credential_scope n)) then Err (BadCredentialScope (nu_credential_scope n))
  else match nu_action_scope n with
       | Some act => if negb (glob_compiles act) then Err (BadActionScope act) else Ok tt
       | None => Ok tt
       end.

(** [generate_token] for a prefix; slicing fewer than eight characters panics. *)
Fixpoint keep_chars (P : ascii → bool) (s : string) : string :=
  match s with
  | EmptyString => ""
  | String c s' => if P c then String c (keep_chars P s') else keep_chars P s'
  end.

Definition generate_token (prefix random_bytes : string) : option (string * string) :=
  let random_part :=
    str_take TOKEN_RANDOM_LENGTH (keep_chars is_ascii_alphanumeric (b64_standard random_bytes)) in
  if (String.length random_part <? 8)%nat then None
  else Some (prefix +:+ random_part, prefix +:+ str_take 8 random_part).

(** [hash_token]. *)
Definition hash_token (token : string) : string := b64_standard (sha256 token).

(** [UseToken::create]. *)
Definition create_use_token (random_bytes uuid : string) (now : DateTime) (n : NewUseToken)
    : option (string * UseToken) :=
  '(full_token, prefix) ← generate_token USE_TOKEN_PREFIX random_bytes;
  Some (full_token,
    {| ut_id := "ut_" +:+ uuid; ut_token_prefix := prefix; ut_token_hash := hash_token full_token;
       ut_name := nu_name n; ut_credential_scope := nu_credential_scope n;
       ut_action_scope := nu_action_scope n; ut_max_uses := nu_max_uses n; ut_uses := 0;
       ut_require_approval := nu_require_approval n;
       ut_expires_at := (λ d, now + d) <$> nu_expires_in n; ut_created_at := now;
       ut_last_used_at := None; ut_revoked := false; ut_agent_label := None;
       ut_dual_control := false; ut_owner_identity := None; ut_tenant := None |}).

(** [looks_like_token]. *)
Definition looks_like_use_token (token : string) : bool := starts_with USE_TOKEN_PREFIX token.
Definition looks_like_approval_token (token : string) : bool := starts_with APPROVAL_TOKEN_PREFIX token.

(** [remaining_uses], [is_exhausted], [is_expired], [check_usable]. *)
Definition remaining_uses (t : UseToken) : option Z := (λ m, Z.max 0 (m - ut_uses t)) <$> ut_max_uses t.

Definition is_exhausted (t : UseToken) : bool :=
  match ut_max_uses t with Some max => max <=? ut_uses t | None => false end.

Definition past (expires_at : option DateTime) (now : DateTime) : bool :=
  match expires_at with Some e => e <=? now | None => false end.

Definition use_token_expired (now : DateTime) (t : UseToken) : bool := past (ut_expires_at t) now.

Definition check_usable (now : DateTime) (t : UseToken) : result unit UseTokenInvalid :=
  if ut_revoked t then Err UT_Revoked
  else if use_token_expired now t then Err UT_Expired
  else if is_exhausted t then Err UT_Exhausted
  else Ok tt.

(** [pattern_matches], [allows_credential], [allows_action]. *)
Definition pattern_matches (pattern value : string) : bool :=
  if String.eqb pattern "*" then true
  else match glob_new pattern with
       | Some m => m value
       | None => String.eqb pattern value
       end.

Definition allows_credential (t : UseToken) (alias : string) : bool :=
  pattern_matches (ut_credential_scope t) alias.

Definition allows_action (t : UseToken) (act : string) : bool :=
  match ut_action_scope t with None => true | Some scope => pattern_matches scope act end.

(** [validate_agent_label]. *)
Definition MAX_AGENT_LABEL_LEN : nat := 128.

Definition validate_agent_label (label : string) : result unit TokenParamError :=
  if is_empty label then Err EmptyAgentLabel
  else if (MAX_AGENT_LABEL_LEN <? String.length label)%nat then Err AgentLabelTooLong
  else if negb (str_all (λ c, is_ascii_alphanumeric c || one_of ["."; "_"; "-"]%char c) label)
  then Err BadAgentLabel
  else Ok tt.

(** [ApprovalToken]. *)
Record ApprovalToken := {
  at_id : string;
  at_token_prefix : string;
  at_token_hash : string;
  at_delegation_grant_ref : string;
  at_grant_scope : Delegation.DelegationGrantScope;
  at_agent_label : option string;
  at_delegator_identity : string;
  at_tenant : option string;
  at_revoked : bool;
  at_expires_at : option DateTime;
  at_created_at : DateTime;
}.

Inductive ApprovalTokenInvalid := AT_Revoked | AT_Expired.

Record NewApprovalToken := {
  nt_delegation_grant_ref : string;
  nt_grant_scope : Delegation.DelegationGrantScope;
  nt_agent_label : option string;
  nt_delegator_identity : string;
  nt_tenant : option string;
  nt_expires_in : option Z;
}.

(** [NewApprovalToken::validate]. *)
Definition validate_approval_token (n : NewApprovalToken) : result unit TokenParamError :=
  if is_empty (trim (nt_delegation_grant_ref n)) then Err EmptyGrantRef
  else match Delegation.validate_scope (nt_grant_scope n) with
  | Err e => Err (BadGrantScope e)
  | Ok _ =>
      if is_empty (trim (nt_delegator_identity n)) then Err EmptyDelegator
      else
        let? _ := match nt_agent_label n with
                  | Some label => validate_agent_label label
                  | None => Ok tt
                  end in
        if non_positive (nt_expires_in n) then Err NonPositiveExpiry else Ok tt
  end.

(** [ApprovalToken::create], [check_usable], [approver_identity]. *)
Definition create_approval_token (random_bytes uuid : string) (now : DateTime) (n : NewApprovalToken)
    : option (string * ApprovalToken) :=
  '(full_token, prefix) ← generate_token APPROVAL_TOKEN_PREFIX random_bytes;
  Some (full_token,
    {| at_id := "apt_" +:+ uuid; at_token_prefix := prefix; at_token_hash := hash_token full_token;
       at_delegation_grant_ref := nt_delegation_grant_ref n; at_grant_scope := nt_grant_scope n;
       at_agent_label := nt_agent_label n; at_delegator_identity := nt_delegator_identity n;
       at_tenant := nt_tenant n; at_revoked := false;
       at_expires_at := (λ d, now + d) <$> nt_expires_in n; at_created_at := now |}).

Definition check_approval_token (now : DateTime) (t : ApprovalToken) : result unit ApprovalTokenInvalid :=
  if at_revoked t then Err AT_Revoked
  else if past (at_expires_at t) now then Err AT_Expired
  else Ok tt.

Definition approver_identity (t : ApprovalToken) : string :=
  match at_agent_label t with
  | Some l => if is_empty (trim l) then "vap:" +:+ at_id t else l
  | None => "vap:" +:+ at_id t
  end.

(** ** Tokens in the vault *)

(** The [StorageError]s of these operations; [TE_Storage] is a vault that did not
    validate or was not written. *)
Inductive TokenError :=
| TE_UseTokenNotFound (id : string)
| TE_UseTokenUnusable (e : UseTokenInvalid)
| TE_ApprovalTokenNotFound (id : string)
| TE_Storage.

(** The token collections and hash indexes of [StorageCache]. *)
Record TokenVault := {
  tv_use_tokens : gmap string UseToken;
  tv_use_token_hash_index : gmap string string;
  tv_workload_jtis : gmap string Z;
  tv_workload_grants : gmap string Value;
  tv_approval_tokens : gmap string ApprovalToken;
  tv_approval_token_hash_index : gmap string string;
}.

Definition set_use_tokens (v : TokenVault) (m : gmap string UseToken) (i : gmap string string)
    : TokenVault :=
  {| tv_use_tokens := m; tv_use_token_hash_index := i; tv_workload_jtis := tv_workload_jtis v;
     tv_workload_grants := tv_workload_grants v; tv_approval_tokens := tv_approval_tokens v;
     tv_approval_token_hash_index := tv_approval_token_hash_index v |}.

Definition set_approval_tokens (v : TokenVault) (m : gmap string ApprovalToken) (i : gmap string string)
    : TokenVault :=
  {| tv_use_tokens := tv_use_tokens v; tv_use_token_hash_index := tv_use_token_hash_index v;
     tv_workload_jtis := tv_workload_jtis v; tv_workload_grants := tv_workload_grants v;
     tv_approval_tokens := m; tv_approval_token_hash_index := i |}.

Definition set_workload (v : TokenVault) (j : gmap string Z) (g : gmap string Value) : TokenVault :=
  {| tv_use_tokens := tv_use_tokens v; tv_use_token_hash_index := tv_use_token_hash_index v;
     tv_workload_jtis := j; tv_workload_grants := g;
     tv_approval_tokens := tv_approval_tokens v;
     tv_approval_token_hash_index := tv_approval_token_hash_index v |}.

(** How the commit of a locked mutation ends: written and reported, not written, or written
    although an error was reported (a sync that failed behind the record, a lost
    acknowledgement). *)
Inductive Commit := Written | Unwritten | Unreported.

(** [locked_mutate] on the token collections. *)
Definition token_mutate {A} (committed : Commit) (f : TokenVault → result (A * TokenVault) TokenError)
    (v : TokenVault) : result A TokenError * TokenVault :=
  match f v with
  | Err e => (Err e, v)
  | Ok (r, v') =>
      match committed with
      | Written => (Ok r, v')
      | Unwritten => (Err TE_Storage, v)
      | Unreported => (Err TE_Storage, v')
      end
  end.

(** [rebuild_indexes]: the hash indexes, from the records. *)
Definition rebuild_use_index (m : gmap string UseToken) : gmap string string :=
  foldl (λ i (e : string * UseToken), <[ut_token_hash e.2 := e.1]> i) ∅ (map_to_list m).
Definition rebuild_approval_index (m : gmap string ApprovalToken) : gmap string string :=
  foldl (λ i (e : string * ApprovalToken), <[at_token_hash e.2 := e.1]> i) ∅ (map_to_list m).

Definition rebuild_indexes (v : TokenVault) : TokenVault :=
  set_approval_tokens
    (set_use_tokens v (tv_use_tokens v) (rebuild_use_index (tv_use_tokens v)))
    (tv_approval_tokens v) (rebuild_approval_index (tv_approval_tokens v)).

(** [store_use_token]. *)
Definition store_use_token (committed : Commit) (t : UseToken)
    : TokenVault → result unit TokenError * TokenVault :=
  token_mutate committed (λ v,
    Ok (tt, set_use_tokens v (<[ut_id t := t]> (tv_use_tokens v))
              (<[ut_token_hash t := ut_id t]> (tv_use_token_hash_index v)))).

(** [get_use_token], [get_use_token_by_hash], [list_use_tokens]. *)
Definition get_use_token (v : TokenVault) (id : string) : option UseToken := tv_use_tokens v !! id.

Definition get_use_token_by_hash (v : TokenVault) (hash : string) : option UseToken :=
  id ← tv_use_token_hash_index v !! hash; tv_use_tokens v !! id.

Definition list_use_tokens (v : TokenVault) : list UseToken := (map_to_list (tv_use_tokens v)).*2.

(** [delete_use_token]. *)
Definition delete_use_token (committed : Commit) (id : string)
    : TokenVault → result unit TokenError * TokenVault :=
  token_mutate committed (λ v,
    match tv_use_tokens v !! id with
    | Some t => Ok (tt, set_use_tokens v (delete id (tv_use_tokens v))
                          (delete (ut_token_hash t) (tv_use_token_hash_index v)))
    | None => Err (TE_UseTokenNotFound id)
    end).

(** The record after one use; [uses] is a [u32]. *)
Definition used (now : DateTime) (t : UseToken) : UseToken :=
  {| ut_id := ut_id t; ut_token_prefix := ut_token_prefix t; ut_token_hash := ut_token_hash t;
     ut_name := ut_name t; ut_credential_scope := ut_credential_scope t;
     ut_action_scope := ut_action_scope t; ut_max_uses := ut_max_uses t;
     ut_uses := (ut_uses t + 1) mod 4294967296; ut_require_approval := ut_require_approval t;
     ut_expires_at := ut_expires_at t; ut_created_at := ut_created_at t;
     ut_last_used_at := Some now; ut_revoked := ut_revoked t; ut_agent_label := ut_agent_label t;
     ut_dual_control := ut_dual_control t; ut_owner_identity := ut_owner_identity t;
     ut_tenant := ut_tenant t |}.

Definition revoked_token (t : UseToken) : UseToken :=
  {| ut_id := ut_id t; ut_token_prefix := ut_token_prefix t; ut_token_hash := ut_token_hash t;
     ut_name := ut_name t; ut_credential_scope := ut_credential_scope t;
     ut_action_scope := ut_action_scope t; ut_max_uses := ut_max_uses t; ut_uses := ut_uses t;
     ut_require_approval := ut_require_approval t; ut_expires_at := ut_expires_at t;
     ut_created_at := ut_created_at t; ut_last_used_at := ut_last_used_at t; ut_revoked := true;
     ut_agent_label := ut_agent_label t; ut_dual_control := ut_dual_control t;
     ut_owner_identity := ut_owner_identity t; ut_tenant := ut_tenant t |}.

Definition put_use_token (v : TokenVault) (id : string) (t : UseToken) : TokenVault :=
  set_use_tokens v (<[id := t]> (tv_use_tokens v)) (tv_use_token_hash_index v).

(** [consume_use_token]. *)
Definition consume_use_token (committed : Commit) (now : DateTime) (id : string)
    : TokenVault → result UseToken TokenError * TokenVault :=
  token_mutate committed (λ v,
    match tv_use_tokens v !! id with
    | None => Err (TE_UseTokenNotFound id)
    | Some t =>
        match check_usable now t with
        | Err e => Err (TE_UseTokenUnusable e)
        | Ok _ => Ok (used now t, put_use_token v id (used now t))
        end
    end).

(** [set_use_token_revoked]. *)
Definition set_use_token_revoked (committed : Commit) (id : string)
    : TokenVault → result UseToken TokenError * TokenVault :=
  token_mutate committed (λ v,
    match tv_use_tokens v !! id with
    | None => Err (TE_UseTokenNotFound id)
    | Some t => Ok (revoked_token t, put_use_token v id (revoked_token t))
    end).

(** A tenant tag, trimmed, blank meaning none. *)
Definition tenant_tag (tenant : option string) : option string :=
  match tenant with
  | Some t => if is_empty (trim t) then None else Some (trim t)
  | None => None
  end.

(** [set_use_token_revoked_scoped]. *)
Definition set_use_token_revoked_scoped (committed : Commit) (id : string) (acting_tenant : option string)
    : TokenVault → result UseToken TokenError * TokenVault :=
  token_mutate committed (λ v,
    match tv_use_tokens v !! id with
    | None => Err (TE_UseTokenNotFound id)
    | Some t =>
        if negb (tenant_may_act acting_tenant (tenant_tag (ut_tenant t)))
        then Err (TE_UseTokenNotFound id)
        else Ok (revoked_token t, put_use_token v id (revoked_token t))
    end).

(** The selection of [retire_workload_generations] and [count_live_workload_tokens]. *)
Definition live_for (now : DateTime) (tenant label : string) (t : UseToken) : bool :=
  bool_decide (ut_tenant t = Some tenant) && bool_decide (ut_agent_label t = Some label)
  && negb (ut_revoked t) && negb (use_token_expired now t).

(** [retire_workload_generations]. *)
Definition to_retire (now : DateTime) (tenant label : string) (keep : list string)
    (m : gmap string UseToken) : list string :=
  ut_id <$> List.filter (λ t, live_for now tenant label t && negb (bool_decide (ut_id t ∈ keep)))
              (map_to_list m).*2.

Definition retire_one (acc : nat * gmap string UseToken) (id : string) : nat * gmap string UseToken :=
  match acc.2 !! id with
  | Some t => (S acc.1, <[id := revoked_token t]> acc.2)
  | None => acc
  end.

Definition retire_workload_generations (committed : Commit) (now : DateTime) (tenant label : string)
    (keep : list string) : TokenVault → result (nat * nat) TokenError * TokenVault :=
  token_mutate committed (λ v,
    let live_before := length (List.filter (live_for now tenant label) (list_use_tokens v)) in
    let r := foldl retire_one (0%nat, tv_use_tokens v)
               (to_retire now tenant label keep (tv_use_tokens v)) in
    Ok ((live_before, r.1), set_use_tokens v r.2 (tv_use_token_hash_index v))).

(** [count_live_workload_tokens]. *)
Definition count_live_workload_tokens (now : DateTime) (tenant label : string) (v : TokenVault) : nat :=
  length (List.filter (live_for now tenant label) (list_use_tokens v)).

(** [consume_workload_jti]; times are Unix seconds. *)
Definition consume_workload_jti (committed : Commit) (jti : string) (expires_at now : Z)
    : TokenVault → result bool TokenError * TokenVault :=
  token_mutate committed (λ v,
    let kept := filter (λ e : string * Z, now < e.2) (tv_workload_jtis v) in
    match kept !! jti with
    | Some _ => Ok (false, set_workload v kept (tv_workload_grants v))
    | None => Ok (true, set_workload v (<[jti := expires_at]> kept) (tv_workload_grants v))
    end).

(** [store_workload_grant], [get_workload_grant], [delete_workload_grant]. *)
Definition store_workload_grant (committed : Commit) (key : string) (grant : Value)
    : TokenVault → result unit TokenError * TokenVault :=
  token_mutate committed (λ v,
    Ok (tt, set_workload v (tv_workload_jtis v) (<[key := grant]> (tv_workload_grants v)))).

Definition get_workload_grant (v : TokenVault) (key : string) : option Value :=
  tv_workload_grants v !! key.

Definition delete_workload_grant (committed : Commit) (key : string)
    : TokenVault → result bool TokenError * TokenVault :=
  token_mutate committed (λ v,
    Ok (match tv_workload_grants v !! key with Some _ => true | None => false end,
        set_workload v (tv_workload_jtis v) (delete key (tv_workload_grants v)))).

(** [store_approval_token], [get_approval_token_by_hash], [set_approval_token_revoked]
    and its scoped form. *)
Definition store_approval_token (committed : Commit) (t : ApprovalToken)
    : TokenVault → result unit TokenError * TokenVault :=
  token_mutate committed (λ v,
    Ok (tt, set_approval_tokens v (<[at_id t := t]> (tv_approval_tokens v))
              (<[at_token_hash t := at_id t]> (tv_approval_token_hash_index v)))).

Definition get_approval_token_by_hash (v : TokenVault) (hash : string) : option ApprovalToken :=
  id ← tv_approval_token_hash_index v !! hash; tv_approval_tokens v !! id.

Definition revoked_approval_token (t : ApprovalToken) : ApprovalToken :=
  {| at_id := at_id t; at_token_prefix := at_token_prefix t; at_token_hash := at_token_hash t;
     at_delegation_grant_ref := at_delegation_grant_ref t; at_grant_scope := at_grant_scope t;
     at_agent_label := at_agent_label t; at_delegator_identity := at_delegator_identity t;
     at_tenant := at_tenant t; at_revoked := true; at_expires_at := at_expires_at t;
     at_created_at := at_created_at t |}.

Definition set_approval_token_revoked (committed : Commit) (id : string)
    : TokenVault → result ApprovalToken TokenError * TokenVault :=
  token_mutate committed (λ v,
    match tv_approval_tokens v !! id with
    | None => Err (TE_ApprovalTokenNotFound id)
    | Some t => Ok (revoked_approval_token t,
                    set_approval_tokens v (<[id := revoked_approval_token t]> (tv_approval_tokens v))
                      (tv_approval_token_hash_index v))
    end).

Definition set_approval_token_revoked_scoped (committed : Commit) (id : string)
    (acting_tenant : option string) : TokenVault → result ApprovalToken TokenError * TokenVault :=
  token_mutate committed (λ v,
    match tv_approval_tokens v !! id with
    | None => Err (TE_ApprovalTokenNotFound id)
    | Some t =>
        if negb (tenant_may_act acting_tenant (tenant_tag (at_tenant t)))
        then Err (TE_ApprovalTokenNotFound id)
        else Ok (revoked_approval_token t,
                 set_approval_tokens v (<[id := revoked_approval_token t]> (tv_approval_tokens v))
                   (tv_approval_token_hash_index v))
    end).

(** [use_token_prunable]: [clock] is the reading inside [check_usable], [now] the time
    the collection was called with. *)
Definition DEAD_USE_TOKEN_GRACE_SECS : Z := 24 * 60 * 60.

Definition use_token_prunable (clock now : DateTime) (t : UseToken) : bool :=
  if is_ok (check_usable clock t) then false
  else
    let reference :=
      Z.max (match ut_last_used_at t with Some u => u | None => ut_created_at t end) (ut_created_at t) in
    let reference :=
      match ut_expires_at t with
      | Some exp => if exp <=? now then Z.max reference exp else reference
      | None => reference
      end in
    DEAD_USE_TOKEN_GRACE_SECS <? num_seconds (now - reference).

(** The use-token part of [gc_vault_at]. *)
Definition drop_token (v : TokenVault) (e : string * string) : TokenVault :=
  set_use_tokens v (delete e.1 (tv_use_tokens v)) (delete e.2 (tv_use_token_hash_index v)).

Definition gc_use_tokens (committed : Commit) (clock now : DateTime)
    : TokenVault → result nat TokenError * TokenVault :=
  token_mutate committed (λ v,
    let dead := (λ t, (ut_id t, ut_token_hash t))
                <$> List.filter (use_token_prunable clock now) (list_use_tokens v) in
    Ok (length dead, foldl drop_token v dead)).

(** ** Sequences of operations *)

Inductive TokenOp :=
| TO_store (committed : Commit) (t : UseToken)
| TO_delete (committed : Commit) (id : string)
| TO_consume (committed : Commit) (now : DateTime) (id : string)
| TO_revoke (committed : Commit) (id : string)
| TO_revoke_scoped (committed : Commit) (id : string) (acting : option string)
| TO_retire (committed : Commit) (now : DateTime) (tenant label : string) (keep : list string)
| TO_jti (committed : Commit) (jti : string) (expires_at now : Z)
| TO_store_grant (committed : Commit) (key : string) (grant : Value)
| TO_delete_grant (committed : Commit) (key : string)
| TO_store_approval_token (committed : Commit) (t : ApprovalToken)
| TO_revoke_approval_token (committed : Commit) (id : string)
| TO_revoke_approval_token_scoped (committed : Commit) (id : string) (acting : option string)
| TO_gc (committed : Commit) (clock now : DateTime)
| TO_reload.

Definition token_step (v : TokenVault) (op : TokenOp) : TokenVault :=
  match op with
  | TO_store c t => (store_use_token c t v).2
  | TO_delete c id => (delete_use_token c id v).2
  | TO_consume c now id => (consume_use_token c now id v).2
  | TO_revoke c id => (set_use_token_revoked c id v).2
  | TO_revoke_scoped c id acting => (set_use_token_revoked_scoped c id acting v).2
  | TO_retire c now tenant label keep => (retire_workload_generations c now tenant label keep v).2
  | TO_jti c jti expires_at now => (consume_workload_jti c jti expires_at now v).2
  | TO_store_grant c key grant => (store_workload_grant c key grant v).2
  | TO_delete_grant c key => (delete_workload_grant c key v).2
  | TO_store_approval_token c t => (store_approval_token c t v).2
  | TO_revoke_approval_token c id => (set_approval_token_revoked c id v).2
  | TO_revoke_approval_token_scoped c id acting => (set_approval_token_revoked_scoped c id acting v).2
  | TO_gc c clock now => (gc_use_tokens c clock now v).2
  | TO_reload => rebuild_indexes v
  end.

Definition run_tokens (v : TokenVault) (ops : list TokenOp) : TokenVault := foldl token_step v ops.

(** The sequence number a step hands out for a use of [id]. *)
Definition handed_out (id : string) (v : TokenVault) (op : TokenOp) : list Z :=
  match op with
  | TO_consume c now id' =>
      if String.eqb id' id
      then match (consume_use_token c now id' v).1 with Ok t => [ut_uses t] | Err _ => [] end
      else []
  | _ => []
  end.

Fixpoint uses_handed_out (id : string) (v : TokenVault) (ops : list TokenOp) : list Z :=
  match ops with
  | [] => []
  | op :: ops' => handed_out id v op ++ uses_handed_out id (token_step v op) ops'
  end.

(** No operation mints a token under an id already taken. *)
Definition mints_not (id : string) (op : TokenOp) : Prop :=
  match op with TO_store _ t => ut_id t ≠ id | _ => True end.

(** ** Lemmas *)

Lemma token_mutate_cases {A} c (f : TokenVault → result (A * TokenVault) TokenError) v :
  (∃ e, token_mutate c f v = (Err e, v))
  ∨ ∃ r v', f v = Ok (r, v') ∧ c ≠ Unwritten
      ∧ token_mutate c f v = (match c with Written => Ok r | _ => Err TE_Storage end, v').
Proof.
  unfold token_mutate. destruct (f v) as [[r v']|e]; [|left; by exists e].
  destruct c; [right; by exists r, v'|left; by exists TE_Storage|right; by exists r, v'].
Qed.

Lemma retire_fold_lookup ids n m id :
  (foldl retire_one (n, m) ids).2 !! id = m !! id
  ∨ (foldl retire_one (n, m) ids).2 !! id = revoked_token <$> m !! id.
Proof.
  revert n m. induction ids as [|i ids IH]; intros n m; [by left|]. cbn [foldl].
  unfold retire_one at 2 4. cbn [fst snd]. destruct (m !! i) as [t|] eqn:E; [|apply IH].
  destruct (IH (S n) (<[i := revoked_token t]> m)) as [->| ->];
    (destruct (decide (id = i)) as [->|Hne];
     [rewrite lookup_insert_eq, E; by right|rewrite lookup_insert_ne by done; by auto]).
Qed.

Lemma gc_fold_lookup dead v id :
  tv_use_tokens (foldl drop_token v dead) !! id = tv_use_tokens v !! id
  ∨ tv_use_tokens (foldl drop_token v dead) !! id = None.
Proof.
  revert v. induction dead as [|e dead IH]; intros v; [by left|]. cbn [foldl].
  destruct (IH (drop_token v e)) as [->| ->]; [|by right]. unfold drop_token. cbn.
  destruct (decide (e.1 = id)) as [<-|Hne]; [right; apply lookup_delete_eq|].
  left. by apply lookup_delete_ne.
Qed.

(** A step that was not written changes nothing; one that was has the effect of its closure,
    reported or not. *)
Ltac mutate_cases :=
  unfold store_use_token, delete_use_token, consume_use_token, set_use_token_revoked,
    set_use_token_revoked_scoped, retire_workload_generations, consume_workload_jti,
    store_workload_grant, delete_workload_grant, store_approval_token, set_approval_token_revoked,
    set_approval_token_revoked_scoped, gc_use_tokens in *;
  match goal with
  | |- context [token_mutate ?c ?f ?v] =>
      let Hf := fresh "Hf" in
      let Hmut := fresh "Hmut" in
      let Hc := fresh "Hc" in
      destruct (token_mutate_cases c f v) as [[? Hmut]|(? & ? & Hf & Hc & Hmut)];
      rewrite Hmut; clear Hmut; cbn [fst snd]
  end.

(** What one operation can do to the record of a token that is not minted again. *)
Lemma token_step_lookup v op id :
  mints_not id op →
  tv_use_tokens (token_step v op) !! id = tv_use_tokens v !! id
  ∨ tv_use_tokens (token_step v op) !! id = None
  ∨ tv_use_tokens (token_step v op) !! id = revoked_token <$> tv_use_tokens v !! id
  ∨ ∃ c now t, op = TO_consume c now id ∧ c ≠ Unwritten ∧ tv_use_tokens v !! id = Some t
      ∧ check_usable now t = Ok tt ∧ tv_use_tokens (token_step v op) !! id = Some (used now t).
Proof.
  intros Hm.
  destruct op as [c t|c i|c now i|c i|c i a|c now te la k|c j e now|c k g|c k|c t|c i|c i a|c cl now|];
    cbn [token_step mints_not] in *; try (mutate_cases; [by left|]); try (by left).
  - injection Hf as <- <-. left. by apply lookup_insert_ne.
  - destruct (tv_use_tokens v !! i) as [t|]; [|done]. injection Hf as <- <-. cbn.
    destruct (decide (i = id)) as [->|]; [right; left; apply lookup_delete_eq|left; by apply lookup_delete_ne].
  - destruct (tv_use_tokens v !! i) as [t|] eqn:E; [|done].
    destruct (check_usable now t) as [[]|] eqn:Eu; [|done]. injection Hf as <- <-. cbn.
    destruct (decide (i = id)) as [->|]; [|left; by apply lookup_insert_ne].
    right; right; right. exists c, now, t. split_and!; [done|done|done|done|apply lookup_insert_eq].
  - destruct (tv_use_tokens v !! i) as [t|] eqn:E; [|done]. injection Hf as <- <-. cbn.
    destruct (decide (i = id)) as [->|]; [|left; by apply lookup_insert_ne].
    right; right; left. by rewrite lookup_insert_eq, E.
  - destruct (tv_use_tokens v !! i) as [t|] eqn:E; [|done].
    destruct (negb (tenant_may_act _ _)); [done|]. injection Hf as <- <-. cbn.
    destruct (decide (i = id)) as [->|]; [|left; by apply lookup_insert_ne].
    right; right; left. by rewrite lookup_insert_eq, E.
  - injection Hf as <- <-. cbn [tv_use_tokens set_use_tokens].
    destruct (retire_fold_lookup (to_retire now te la k (tv_use_tokens v)) 0 (tv_use_tokens v) id); auto.
  - destruct (filter _ _ !! j); injection Hf as <- <-; by left.
  - injection Hf as <- <-. by left.
  - injection Hf as <- <-. by left.
  - injection Hf as <- <-. by left.
  - destruct (tv_approval_tokens v !! i) as [t|]; [|done]. injection Hf as <- <-. by left.
  - destruct (tv_approval_tokens v !! i) as [t|]; [|done].
    destruct (negb (tenant_may_act _ _)); [done|]. injection Hf as <- <-. by left.
  - injection Hf as <- <-. edestruct gc_fold_lookup as [H|H]; [left; exact H|right; left; exact H].
Qed.

(** A use is handed out exactly when the record was usable. *)
Lemma handed_out_spec id v op :
  handed_out id v op = []
  ∨ ∃ now t, op = TO_consume Written now id ∧ tv_use_tokens v !! id = Some t
      ∧ check_usable now t = Ok tt ∧ handed_out id v op = [ut_uses (used now t)]
      ∧ tv_use_tokens (token_step v op) !! id = Some (used now t).
Proof.
  destruct op as [| |c now i| | | | | | | | | | |]; try (by left). cbn [handed_out token_step].
  destruct (String.eqb_spec i id) as [->|]; [|by left]. mutate_cases; [by left|].
  destruct (tv_use_tokens v !! id) as [t|] eqn:E; [|done].
  destruct (check_usable now t) as [[]|] eqn:Eu; [|done]. injection Hf as <- <-.
  destruct c; [|done|by left]. right. exists now, t. split_and!; try done. apply lookup_insert_eq.
Qed.

Lemma check_usable_ok now t :
  check_usable now t = Ok tt ↔ ut_revoked t = false ∧ use_token_expired now t = false ∧ is_exhausted t = false.
Proof.
  unfold check_usable.
  destruct (ut_revoked t), (use_token_expired now t), (is_exhausted t); naive_solver.
Qed.

(** One step, seen from one token: a use, whose number is handed out when its write was
    reported; or no use, and the record kept, dropped or revoked. *)
Definition reported (op : TokenOp) : Prop := match op with TO_consume c _ _ => c ≠ Unreported | _ => True end.
Lemma token_step_cases v op id t :
  mints_not id op → tv_use_tokens v !! id = Some t →
  (∃ c now, op = TO_consume c now id ∧ check_usable now t = Ok tt
     ∧ (handed_out id v op = [ut_uses (used now t)] ∨ handed_out id v op = [] ∧ ¬ reported op)
     ∧ tv_use_tokens (token_step v op) !! id = Some (used now t))
  ∨ handed_out id v op = []
    ∧ (tv_use_tokens (token_step v op) !! id = Some t
       ∨ tv_use_tokens (token_step v op) !! id = None
       ∨ tv_use_tokens (token_step v op) !! id = Some (revoked_token t)).
Proof.
  intros Hm Ht. destruct (handed_out_spec id v op) as [Hn|(now & t' & -> & E & H)].
  - destruct (token_step_lookup v op id Hm) as [H|[H|[H|(c & now & t' & -> & Hc & E & Hu & H)]]];
      rewrite ?Ht in *; try (right; by auto).
    injection E as <-. left. exists c, now. split_and!; [done|done| |done]. right. split; [done|].
    destruct c; [|done|by intros []]. exfalso. cbn [handed_out] in Hn. rewrite String.eqb_refl in Hn.
    unfold consume_use_token, token_mutate in Hn. by rewrite Ht, Hu in Hn.
  - rewrite Ht in E. injection E as <-. left. exists Written, now. destruct H as (? & ? & ?). auto.
Qed.

(** A missing token hands out nothing. *)
Lemma absent_hands_out_nothing id ops v :
  tv_use_tokens v !! id = None → Forall (mints_not id) ops → uses_handed_out id v ops = [].
Proof.
  revert v. induction ops as [|op ops IH]; intros v Hv Hm; [done|]. cbn [uses_handed_out].
  apply Forall_cons in Hm as [Hop Hm].
  destruct (handed_out_spec id v op) as [->|(now & t & _ & E & _)]; [|congruence].
  apply IH; [|done]. destruct (token_step_lookup v op id Hop) as [H|[H|[H|(? & ? & ? & _ & _ & H & _)]]];
    rewrite ?Hv in H; try done; by rewrite H.
Qed.

(** A record that can no longer be used. *)
Definition dead_from (now : DateTime) (t : UseToken) : Prop :=
  ut_revoked t = true ∨ use_token_expired now t = true ∨ is_exhausted t = true.

Lemma dead_from_later now later t : now <= later → dead_from now t → check_usable later t ≠ Ok tt.
Proof.
  intros Hl Hd H. apply check_usable_ok in H as (H1 & H2 & H3).
  destruct Hd as [Hd|[Hd|Hd]]; [congruence| |congruence].
  unfold use_token_expired, past in *. destruct (ut_expires_at t) as [e|]; [|done].
  apply Z.leb_le in Hd. apply Z.leb_gt in H2. lia.
Qed.

Lemma unusable_is_dead now t : check_usable now t ≠ Ok tt → dead_from now t.
Proof.
  unfold dead_from. intros H.
  destruct (ut_revoked t) eqn:E1; [by left|]. destruct (use_token_expired now t) eqn:E2; [auto|].
  destruct (is_exhausted t) eqn:E3; [auto|]. exfalso. apply H. by apply check_usable_ok.
Qed.

(** Clock readings at or after a time. *)
Definition uses_after (now : DateTime) (op : TokenOp) : Prop :=
  match op with TO_consume _ n _ => now <= n | _ => True end.

Lemma dead_hands_out_nothing id now ops v t :
  tv_use_tokens v !! id = Some t → dead_from now t →
  Forall (mints_not id) ops → Forall (uses_after now) ops → uses_handed_out id v ops = [].
Proof.
  revert v t. induction ops as [|op ops IH]; intros v t Ht Hd Hm Ha; [done|].
  cbn [uses_handed_out]. apply Forall_cons in Hm as [Hop Hm]. apply Forall_cons in Ha as [Hao Ha].
  destruct (token_step_cases v op id t Hop Ht) as [(c & n & -> & Hu & _)|[-> [H|[H|H]]]].
  - exfalso. exact (dead_from_later now n t Hao Hd Hu).
  - by apply (IH _ t).
  - by apply absent_hands_out_nothing.
  - apply (IH _ (revoked_token t)); [done|by left|done|done].
Qed.

(** *** The hash index *)

Lemma retire_fold_index ids n m i : indexed ut_id ut_token_hash m i → indexed ut_id ut_token_hash (foldl retire_one (n, m) ids).2 i.
Proof.
  revert n m. induction ids as [|id ids IH]; intros n m H; [done|]. cbn [foldl].
  unfold retire_one at 2. cbn [fst snd]. destruct (m !! id) as [t|] eqn:E; [|by apply IH].
  apply IH. by apply (indexed_update _ _ m i id t).
Qed.

(** The ids of the listed tokens are the keys. *)
Lemma listed_token v t : t ∈ list_use_tokens v ↔ ∃ id, tv_use_tokens v !! id = Some t.
Proof.
  unfold list_use_tokens. rewrite list_elem_of_fmap. split.
  - intros ([id u] & -> & H). exists id. by apply elem_of_map_to_list in H.
  - intros [id H]. exists (id, t). split; [done|]. by apply elem_of_map_to_list.
Qed.

Lemma listed_ids_nodup v i (f : UseToken → bool) :
  indexed ut_id ut_token_hash (tv_use_tokens v) i → NoDup (ut_id <$> List.filter f (list_use_tokens v)).
Proof.
  apply indexed_keys_nodup.
Qed.

(** Dropping a list of distinct tokens. *)
Lemma gc_fold_drops (ts : list UseToken) v :
  indexed ut_id ut_token_hash (tv_use_tokens v) (tv_use_token_hash_index v) → NoDup (ut_id <$> ts) →
  (∀ t, t ∈ ts → tv_use_tokens v !! ut_id t = Some t) →
  let v' := foldl drop_token v ((λ t, (ut_id t, ut_token_hash t)) <$> ts) in
  indexed ut_id ut_token_hash (tv_use_tokens v') (tv_use_token_hash_index v')
  ∧ ∀ id, tv_use_tokens v' !! id
          = if bool_decide (id ∈ ut_id <$> ts) then None else tv_use_tokens v !! id.
Proof.
  revert v. induction ts as [|t ts IH]; intros v Hok Hnd Hin; [done|].
  cbn [fmap list_fmap foldl]. apply NoDup_cons in Hnd as [Hni Hnd].
  assert (Ht : tv_use_tokens v !! ut_id t = Some t) by (apply Hin; constructor).
  destruct (IH (drop_token v (ut_id t, ut_token_hash t))) as [Hok' Hl].
  - by apply (indexed_delete _ _ _ _ (ut_id t) t).
  - done.
  - intros u Hu. cbn. rewrite lookup_delete_ne; [by apply Hin; constructor|].
    intros E. apply Hni. rewrite E. by apply list_elem_of_fmap_2.
  - cbv zeta. split; [exact Hok'|]. intros id. rewrite Hl. cbn.
    destruct (decide (ut_id t = id)) as [<-|Hne].
    + rewrite lookup_delete_eq, (bool_decide_eq_true_2 (ut_id t ∈ ut_id t :: _)) by constructor.
      by destruct (bool_decide _).
    + rewrite lookup_delete_ne by done.
      rewrite (bool_decide_ext (id ∈ ut_id t :: (ut_id <$> ts)) (id ∈ ut_id <$> ts)); [done|].
      rewrite elem_of_cons. naive_solver.
Qed.

(** Rebuilding gives the index that was there. *)
Lemma rebuild_fold (l : list (string * UseToken)) (acc i : gmap string string) :
  acc ⊆ i → (∀ e, e ∈ l → i !! ut_token_hash e.2 = Some e.1) →
  let r := foldl (λ (i : gmap string string) (e : string * UseToken), <[ut_token_hash e.2 := e.1]> i) acc l in
  r ⊆ i ∧ ∀ e, e ∈ l → r !! ut_token_hash e.2 = Some e.1.
Proof.
  revert acc. induction l as [|e l IH]; intros acc Hs Hl; [split; [done|by intros ? ?%elem_of_nil]|].
  cbn [foldl]. assert (He : <[ut_token_hash e.2 := e.1]> acc ⊆ i).
  { apply map_subseteq_spec. intros h x. destruct (decide (ut_token_hash e.2 = h)) as [<-|Hne].
    - rewrite lookup_insert_eq. intros [= <-]. apply Hl. constructor.
    - rewrite lookup_insert_ne by done. by apply map_subseteq_spec. }
  destruct (IH _ He) as [Hr Hin]; [intros; by apply Hl; constructor|]. split; [done|].
  intros e' [->|H]%elem_of_cons; [|by apply Hin].
  destruct (foldl _ _ l !! ut_token_hash e.2) as [x|] eqn:E.
  - rewrite <- (proj1 (map_subseteq_spec _ _) Hr _ _ E). apply Hl. constructor.
  - exfalso. revert E. apply not_eq_None_Some. clear -e. revert acc. induction l as [|a l IHl] using rev_ind; intros acc.
    + cbn. rewrite lookup_insert_eq. done.
    + rewrite foldl_app. cbn [foldl]. destruct (decide (ut_token_hash a.2 = ut_token_hash e.2)) as [->|].
      * rewrite lookup_insert_eq. done.
      * by rewrite lookup_insert_ne.
Qed.

Lemma rebuild_index_same m i : indexed ut_id ut_token_hash m i → rebuild_use_index m = i.
Proof.
  intros [H1 H2]. unfold rebuild_use_index.
  destruct (rebuild_fold (map_to_list m) ∅ i) as [Hs Hl].
  - apply map_empty_subseteq.
  - intros [id t] He. apply elem_of_map_to_list in He. by apply H1.
  - apply map_eq. intros h. destruct (i !! h) as [id|] eqn:E.
    + destruct (H2 h id E) as (t & Ht & <-). apply (Hl (id, t)). by apply elem_of_map_to_list.
    + destruct (foldl _ _ _ !! h) as [x|] eqn:E'; [|done].
      rewrite (proj1 (map_subseteq_spec _ _) Hs _ _ E') in E. done.
Qed.

(** Tokens are minted under fresh ids and with fresh hashes. *)
Definition mint_fresh (v : TokenVault) (op : TokenOp) : Prop :=
  match op with
  | TO_store _ t => tv_use_tokens v !! ut_id t = None ∧ tv_use_token_hash_index v !! ut_token_hash t = None
  | _ => True
  end.

Definition no_tokens : TokenVault :=
  {| tv_use_tokens := ∅; tv_use_token_hash_index := ∅; tv_workload_jtis := ∅;
     tv_workload_grants := ∅; tv_approval_tokens := ∅; tv_approval_token_hash_index := ∅ |}.

Inductive token_reachable : TokenVault → Prop :=
| TR_empty : token_reachable no_tokens
| TR_step v op : token_reachable v → mint_fresh v op → token_reachable (token_step v op).

Lemma token_step_index v op :
  indexed ut_id ut_token_hash (tv_use_tokens v) (tv_use_token_hash_index v) → mint_fresh v op →
  indexed ut_id ut_token_hash (tv_use_tokens (token_step v op)) (tv_use_token_hash_index (token_step v op)).
Proof.
  intros Hok Hf0.
  destruct op as [c t|c i|c now i|c i|c i a|c now te la k|c j e now|c k g|c k|c t|c i|c i a|c cl now|];
    cbn [token_step mint_fresh] in *; try (mutate_cases; [done|]).
  - injection Hf as <- <-. destruct Hf0. by apply indexed_insert.
  - destruct (tv_use_tokens v !! i) as [t|] eqn:E; [|done]. injection Hf as <- <-.
    by apply (indexed_delete _ _ _ _ i t).
  - destruct (tv_use_tokens v !! i) as [t|] eqn:E; [|done].
    destruct (check_usable now t); [|done]. injection Hf as <- <-. by apply (indexed_update _ _ _ _ i t).
  - destruct (tv_use_tokens v !! i) as [t|] eqn:E; [|done]. injection Hf as <- <-.
    by apply (indexed_update _ _ _ _ i t).
  - destruct (tv_use_tokens v !! i) as [t|] eqn:E; [|done].
    destruct (negb (tenant_may_act _ _)); [done|]. injection Hf as <- <-. by apply (indexed_update _ _ _ _ i t).
  - injection Hf as <- <-. by apply retire_fold_index.
  - destruct (filter _ _ !! j); injection Hf as <- <-; done.
  - by injection Hf as <- <-.
  - by injection Hf as <- <-.
  - by injection Hf as <- <-.
  - destruct (tv_approval_tokens v !! i) as [t|]; [|done]. by injection Hf as <- <-.
  - destruct (tv_approval_tokens v !! i) as [t|]; [|done].
    destruct (negb (tenant_may_act _ _)); [done|]. by injection Hf as <- <-.
  - injection Hf as <- <-. apply gc_fold_drops; [done|by eapply listed_ids_nodup|].
    intros t [Ht _]%elem_of_filter_bool. apply listed_token in Ht as [id Ht].
    by rewrite (proj1 (proj1 Hok id t Ht)).
  - cbn. by rewrite rebuild_index_same with (i := tv_use_token_hash_index v).
Qed.

Lemma reachable_index v :
  token_reachable v → indexed ut_id ut_token_hash (tv_use_tokens v) (tv_use_token_hash_index v).
Proof.
  induction 1 as [|v op _ IH Hf]; [apply indexed_empty|].
  by apply token_step_index.
Qed.

(** *** Retired generations *)

(** Retiring distinct stored tokens revokes exactly them. *)
Lemma retire_fold ids n m :
  NoDup ids → (∀ id, id ∈ ids → is_Some (m !! id)) →
  (foldl retire_one (n, m) ids).1 = (n + length ids)%nat
  ∧ ∀ id, (foldl retire_one (n, m) ids).2 !! id
          = if bool_decide (id ∈ ids) then revoked_token <$> m !! id else m !! id.
Proof.
  revert n m. induction ids as [|i ids IH]; intros n m Hnd Hin; [by rewrite Nat.add_0_r|].
  apply NoDup_cons in Hnd as [Hni Hnd]. cbn [foldl]. unfold retire_one at 2 4. cbn [fst snd].
  destruct (Hin i) as [t Ht]; [constructor|]. rewrite Ht.
  destruct (IH (S n) (<[i := revoked_token t]> m) Hnd) as [H1 H2].
  - intros id Hid. destruct (decide (i = id)) as [<-|]; [by rewrite lookup_insert_eq|].
    rewrite lookup_insert_ne by done. apply Hin. by constructor.
  - split; [rewrite H1; cbn; lia|]. intros id. rewrite H2.
    destruct (decide (i = id)) as [<-|Hne].
    + rewrite (bool_decide_eq_false_2 (i ∈ ids)), bool_decide_eq_true_2 by (done || constructor).
      by rewrite lookup_insert_eq, Ht.
    + rewrite lookup_insert_ne by done.
      rewrite (bool_decide_ext (id ∈ i :: ids) (id ∈ ids)); [done|]. rewrite elem_of_cons. naive_solver.
Qed.

(** The map after retiring, as a function of the record alone. *)
Definition retire_record (now : DateTime) (tenant label : string) (keep : list string) (t : UseToken)
    : UseToken :=
  if live_for now tenant label t && negb (bool_decide (ut_id t ∈ keep)) then revoked_token t else t.

Lemma retire_is_fmap now tenant label keep v i :
  indexed ut_id ut_token_hash (tv_use_tokens v) i →
  let r := foldl retire_one (0%nat, tv_use_tokens v) (to_retire now tenant label keep (tv_use_tokens v)) in
  r.2 = retire_record now tenant label keep <$> tv_use_tokens v
  ∧ r.1 = length (to_retire now tenant label keep (tv_use_tokens v)).
Proof.
  intros Hok. cbv zeta. pose proof (listed_ids_nodup v i
    (λ t, live_for now tenant label t && negb (bool_decide (ut_id t ∈ keep))) Hok) as Hnd.
  destruct Hok as [Hid _].
  destruct (retire_fold _ 0 (tv_use_tokens v) Hnd) as [H1 H2].
  { intros id Hin. apply list_elem_of_fmap in Hin as (t & -> & Ht).
    apply elem_of_filter_bool in Ht as [Ht _]. apply listed_token in Ht as [id Ht].
    rewrite (proj1 (Hid id t Ht)). by exists t. }
  split; [|exact H1]. apply map_eq. intros id. unfold to_retire. unfold list_use_tokens in H2. rewrite H2.
  rewrite lookup_fmap. destruct (tv_use_tokens v !! id) as [t|] eqn:E; [|by destruct (bool_decide _)].
  cbn. destruct (Hid id t E) as [Hi _]. unfold retire_record.
  destruct (live_for now tenant label t && _) eqn:Es.
  - rewrite bool_decide_eq_true_2; [done|]. apply list_elem_of_fmap. exists t. split; [done|].
    apply elem_of_filter_bool. split; [|done]. apply list_elem_of_fmap. exists (id, t).
    split; [done|]. by apply elem_of_map_to_list.
  - rewrite bool_decide_eq_false_2; [done|]. intros Hin.
    apply list_elem_of_fmap in Hin as (u & Hu & Hin). apply elem_of_filter_bool in Hin as [Hin Hs].
    apply list_elem_of_fmap in Hin as ([id' u'] & -> & Hin). apply elem_of_map_to_list in Hin.
    destruct (Hid id' u' Hin) as [Hi' _]. cbn [snd] in *.
    assert (id = id') as -> by (rewrite <- Hi'; exact Hu).
    rewrite Hin in E. injection E as ->. by rewrite Hs in Es.
Qed.

(** Retired records are not live; the others are unchanged. *)
Lemma live_after_retire now tenant label keep t :
  live_for now tenant label (retire_record now tenant label keep t)
  = live_for now tenant label t && bool_decide (ut_id t ∈ keep).
Proof.
  unfold retire_record.
  destruct (live_for now tenant label t) eqn:E; cbn [andb]; [|done].
  destruct (bool_decide (ut_id t ∈ keep)); cbn [negb andb]; [done|].
  unfold live_for. cbn. rewrite andb_false_r. done.
Qed.

Lemma count_split (l : list UseToken) (f g : UseToken → bool) :
  (length (List.filter (λ t, f t && g t) l) + length (List.filter (λ t, f t && negb (g t)) l)
   = length (List.filter f l))%nat.
Proof.
  induction l as [|t l IH]; [done|]. cbn [List.filter].
  destruct (f t), (g t); cbn [andb negb length]; rewrite <- IH; lia.
Qed.

Lemma filter_fmap_bool {A B} (f : B → bool) (g : A → B) (l : list A) :
  List.filter f (g <$> l) = g <$> List.filter (λ x, f (g x)) l.
Proof.
  induction l as [|x l IH]; [done|]. rewrite fmap_cons. cbn [List.filter]. rewrite IH.
  by destruct (f (g x)).
Qed.

Lemma filter_ext_bool {A} (f g : A → bool) (l : list A) :
  (∀ x, f x = g x) → List.filter f l = List.filter g l.
Proof. intros H. induction l as [|x l IH]; [done|]. cbn [List.filter]. by rewrite H, IH. Qed.

(** *** Replay of workload exchanges *)

(** Readings of the exchange clock before a time. *)
Definition jti_before (e : Z) (op : TokenOp) : Prop :=
  match op with TO_jti _ _ _ now => now < e | _ => True end.

Lemma gc_fold_jtis l v jti e :
  tv_workload_jtis v !! jti = Some e → tv_workload_jtis (foldl drop_token v l) !! jti = Some e.
Proof. revert v. induction l as [|d l IH]; intros v Hj; [done|]. by apply IH. Qed.

Lemma jti_step v op jti e :
  tv_workload_jtis v !! jti = Some e → jti_before e op →
  tv_workload_jtis (token_step v op) !! jti = Some e.
Proof.
  intros Hj Hb.
  destruct op as [c t|c i|c now i|c i|c i a|c now te la k|c j ex now|c k g|c k|c t|c i|c i a|c cl now|];
    cbn [token_step jti_before] in *; try (mutate_cases; [done|]); try done.
  - by injection Hf as <- <-.
  - destruct (tv_use_tokens v !! i); [|done]. by injection Hf as <- <-.
  - destruct (tv_use_tokens v !! i) as [t|]; [|done].
    destruct (check_usable now t); [|done]. by injection Hf as <- <-.
  - destruct (tv_use_tokens v !! i); [|done]. by injection Hf as <- <-.
  - destruct (tv_use_tokens v !! i); [|done]. destruct (negb _); [done|]. by injection Hf as <- <-.
  - by injection Hf as <- <-.
  - assert (Hk : filter (λ e0 : string * Z, now < e0.2) (tv_workload_jtis v) !! jti = Some e)
      by (by apply map_lookup_filter_Some).
    destruct (decide (j = jti)) as [->|Hne].
    + rewrite Hk in Hf. by injection Hf as <- <-.
    + destruct (filter _ _ !! j); injection Hf as <- <-; [exact Hk|].
      cbn. by rewrite lookup_insert_ne.
  - by injection Hf as <- <-.
  - by injection Hf as <- <-.
  - by injection Hf as <- <-.
  - destruct (tv_approval_tokens v !! i); [|done]. by injection Hf as <- <-.
  - destruct (tv_approval_tokens v !! i); [|done]. destruct (negb _); [done|]. by injection Hf as <- <-.
  - injection Hf as <- <-. by apply gc_fold_jtis.
Qed.

Lemma generate_token_prefix prefix r f p :
  generate_token prefix r = Some (f, p) → starts_with prefix f = true.
Proof.
  unfold generate_token. cbv zeta. generalize (str_take TOKEN_RANDOM_LENGTH
    (keep_chars is_ascii_alphanumeric (b64_standard r))). intros part.
  destruct (_ <? 8)%nat; [done|]. intros [= <- _]. apply starts_with_app.
Qed.

(** ** Theorems *)

(** C26: Whatever is done to the vault (other workers, writes that fail, writes that are
    durable although they were reported as failed, reloads, collection), the sequence numbers
    a token with a use limit hands out are some of those that are left, in increasing order
    and none of them twice: it drives at most the uses it has left.  When no use was written
    without its caller hearing of it, none of the numbers is skipped. *)
Theorem bounded_token_is_used_at_most_max_uses id ops v t max :
  tv_use_tokens v !! id = Some t → ut_max_uses t = Some max → in_u32 max → 0 <= ut_uses t →
  Forall (mints_not id) ops →
  uses_handed_out id v ops `sublist_of` seqZ (ut_uses t + 1) (max - ut_uses t)
  ∧ (Forall reported ops → ∃ k, uses_handed_out id v ops = seqZ (ut_uses t + 1) k).
Proof.
  revert v t. induction ops as [|op ops IH]; intros v t Ht Hx Hb Hu Hm.
  { split; [apply sublist_nil_l|]. intros _. by exists 0. }
  apply Forall_cons in Hm as [Hop Hm]. cbn [uses_handed_out].
  destruct (token_step_cases v op id t Hop Ht) as [(c & n & -> & Hok & Hout & H)|[-> [H|[H|H]]]].
  - apply check_usable_ok in Hok as (_ & _ & Hex). unfold is_exhausted in Hex. rewrite Hx in Hex.
    apply Z.leb_gt in Hex. unfold in_u32, u32_max in Hb.
    assert (E : ut_uses (used n t) = ut_uses t + 1) by (cbn; apply Z.mod_small; lia).
    destruct (IH _ (used n t) H Hx) as [IH1 IH2]; [done|lia|done|]. rewrite E in *.
    rewrite (seqZ_cons _ (max - ut_uses t)) by lia.
    replace (Z.succ (ut_uses t + 1)) with (ut_uses t + 1 + 1) by lia.
    replace (Z.pred (max - ut_uses t)) with (max - (ut_uses t + 1)) by lia.
    destruct Hout as [->|[-> Hr]]; (split; [by constructor|]); intros Hrep; apply Forall_cons in Hrep as [Hrep1 Hrep]; [|done].
    destruct (IH2 Hrep) as [k ->]. exists (1 + Z.max 0 k). rewrite (seqZ_cons _ (1 + Z.max 0 k)) by lia. cbn [app]. f_equal.
    replace (Z.pred (1 + Z.max 0 k)) with (Z.max 0 k) by lia. replace (Z.succ (ut_uses t + 1)) with (ut_uses t + 1 + 1) by lia.
    destruct (Z.max_spec 0 k) as [[_ ->]|[Hk ->]]; [done|]. unfold seqZ. by replace (Z.to_nat k) with 0%nat by lia.
  - destruct (IH _ t H Hx Hb Hu Hm) as [? IH2]. split; [done|]. intros [_ Hrep]%Forall_cons. by apply IH2.
  - rewrite absent_hands_out_nothing by done. split; [apply sublist_nil_l|]. intros _. by exists 0.
  - destruct (IH _ (revoked_token t) H Hx Hb Hu Hm) as [? IH2]. split; [done|]. intros [_ Hrep]%Forall_cons. by apply IH2.
Qed.

(** A token that was revoked, or that had expired or been used up at some time, drives
    nothing from that time on, through any further operations. *)
Theorem unusable_token_stays_unusable id now ops v t :
  tv_use_tokens v !! id = Some t → check_usable now t ≠ Ok tt →
  Forall (mints_not id) ops → Forall (uses_after now) ops → uses_handed_out id v ops = [].
Proof. intros Ht Hu. apply (dead_hands_out_nothing id now ops v t Ht). by apply unusable_is_dead. Qed.

(** Revocation is final, also against a clock that runs backwards. *)
Theorem revoked_token_is_never_used id c v t v' ops :
  set_use_token_revoked c id v = (Ok t, v') → Forall (mints_not id) ops →
  uses_handed_out id v' ops = [].
Proof.
  intros Hr Hm. unfold set_use_token_revoked, token_mutate in Hr.
  destruct (tv_use_tokens v !! id) as [t0|] eqn:E; [|done]. destruct c; [|done..].
  injection Hr as <- <-. revert Hm.
  assert (H : tv_use_tokens (put_use_token v id (revoked_token t0)) !! id = Some (revoked_token t0))
    by apply lookup_insert_eq.
  revert H. generalize (put_use_token v id (revoked_token t0)). clear. intros v Ht Hm.
  revert v Ht. induction Hm as [|op ops Hop Hm IH]; intros v Ht; [done|]. cbn [uses_handed_out].
  destruct (token_step_cases v op id _ Hop Ht) as [(c & n & -> & Hu & _)|[-> [H|[H|H]]]]; [done| | |].
  - by apply IH.
  - by apply absent_hands_out_nothing.
  - by apply IH.
Qed.

(** In every vault reached by minting under fresh ids, looking a token up by the hash of
    the presented secret finds exactly the stored token with that hash. *)
Theorem hash_lookup_is_exact v h t :
  token_reachable v →
  get_use_token_by_hash v h = Some t ↔ get_use_token v (ut_id t) = Some t ∧ ut_token_hash t = h.
Proof.
  intros Hr. apply reachable_index in Hr. by apply (indexed_lookup ut_id ut_token_hash).
Qed.

(** Collecting dead tokens keeps every other record as it is, and what it drops could
    not have been used at the time of the collection or at any later time. *)
Theorem gc_drops_only_dead_tokens c clock now v n v' id t :
  token_reachable v → gc_use_tokens c clock now v = (Ok n, v') → get_use_token v id = Some t →
  get_use_token v' id = Some t
  ∨ get_use_token v' id = None ∧ DEAD_USE_TOKEN_GRACE_SECS < num_seconds (now - ut_created_at t)
    ∧ ∀ later, clock <= later → check_usable later t ≠ Ok tt.
Proof.
  intros Hr Hgc Ht. apply reachable_index in Hr as Hok. unfold gc_use_tokens, token_mutate in Hgc.
  destruct c; [|done..]. injection Hgc as _ <-. unfold get_use_token in *.
  destruct (gc_fold_drops (List.filter (use_token_prunable clock now) (list_use_tokens v)) v) as [_ Hl];
    [done|by eapply listed_ids_nodup| |].
  { intros u [Hu _]%elem_of_filter_bool. apply listed_token in Hu as [i Hu].
    by rewrite (proj1 (proj1 Hok i u Hu)). }
  rewrite Hl. case_bool_decide as Hin; [|by left]. right. split; [done|].
  apply list_elem_of_fmap in Hin as (u & -> & Hu). apply elem_of_filter_bool in Hu as [Hu Hp].
  apply listed_token in Hu as [i Hu]. rewrite (proj1 (proj1 Hok i u Hu)), Hu in Ht. injection Ht as ->.
  unfold use_token_prunable in Hp. destruct (is_ok (check_usable clock t)) eqn:Eu; [done|].
  apply Z.ltb_lt in Hp. split.
  - eapply Z.lt_le_trans; [exact Hp|]. unfold num_seconds. apply Z.quot_le_mono; [by unfold nanos_per_sec|].
    destruct (ut_expires_at t) as [e|]; [destruct (e <=? now)|]; lia.
  - intros later Hl'. apply (dead_from_later clock); [done|]. apply unusable_is_dead. intros E.
    by rewrite E in Eu.
Qed.

(** After a workload's generations are retired, its live tokens are exactly those kept;
    other tokens are untouched, and the counts reported are right. *)
Theorem retire_leaves_only_kept_generations c now tenant label keep v live retired v' :
  token_reachable v →
  retire_workload_generations c now tenant label keep v = (Ok (live, retired), v') →
  live = count_live_workload_tokens now tenant label v
  ∧ live = (count_live_workload_tokens now tenant label v' + retired)%nat
  ∧ ∀ id t, get_use_token v id = Some t →
      get_use_token v' id
      = Some (if live_for now tenant label t && negb (bool_decide (id ∈ keep)) then revoked_token t else t).
Proof.
  intros Hr H. apply reachable_index in Hr as Hok. unfold retire_workload_generations, token_mutate in H.
  destruct c; [|done..]. injection H as <- <- <-.
  destruct (retire_is_fmap now tenant label keep v _ Hok) as [Em En].
  split; [done|]. split.
  - rewrite En. unfold count_live_workload_tokens, list_use_tokens. cbn [tv_use_tokens set_use_tokens].
    rewrite Em, map_to_list_fmap. rewrite <- list_fmap_compose.
    rewrite (list_fmap_ext (snd ∘ prod_map id (retire_record now tenant label keep))
      (retire_record now tenant label keep ∘ snd)) by (by intros ? [] ?).
    rewrite list_fmap_compose, (filter_fmap_bool _ (retire_record now tenant label keep)), length_fmap.
    rewrite (filter_ext_bool (λ t, live_for now tenant label (retire_record now tenant label keep t)) _ _
      (live_after_retire now tenant label keep)).
    unfold to_retire. rewrite length_fmap. symmetry. apply count_split.
  - intros id t Ht. unfold get_use_token in *. cbn [tv_use_tokens set_use_tokens].
    rewrite Em, lookup_fmap, Ht. cbn. unfold retire_record. by rewrite (proj1 (proj1 Hok id t Ht)).
Qed.

(** An exchange id that was accepted is refused until it expires, whatever else happens
    to the vault in between. *)
Theorem exchange_id_is_accepted_once c jti e now v v' ops c' e' now' :
  consume_workload_jti c jti e now v = (Ok true, v') →
  Forall (jti_before e) ops → now' < e →
  (consume_workload_jti c' jti e' now' (run_tokens v' ops)).1 ≠ Ok true.
Proof.
  intros H Hops Hn. assert (Hj : tv_workload_jtis v' !! jti = Some e).
  { unfold consume_workload_jti, token_mutate in H. destruct (filter _ _ !! jti), c; try done.
    injection H as <-. apply lookup_insert_eq. }
  clear H. unfold run_tokens. revert v' Hj. induction Hops as [|op ops Hop Hops IH]; intros v' Hj.
  - cbn [foldl]. unfold consume_workload_jti, token_mutate.
    rewrite (proj2 (map_lookup_filter_Some _ _ jti e)) by done. by destruct c'.
  - cbn [foldl]. apply IH. by apply jti_step.
Qed.

(** A minted token authenticates: stored, it is found by the hash of the secret shown
    once, and it is usable until it expires. *)
Theorem minted_token_authenticates random_bytes uuid now n full t v later :
  validate_use_token n = Ok tt → create_use_token random_bytes uuid now n = Some (full, t) →
  match nu_max_uses n with Some m => in_u32 m | None => True end →
  match nu_expires_in n with Some d => later < now + d | None => True end →
  looks_like_use_token full = true
  ∧ get_use_token_by_hash (store_use_token Written t v).2 (hash_token full) = Some t
  ∧ check_usable later t = Ok tt
  ∧ remaining_uses t = nu_max_uses n.
Proof.
  intros Hv Hc Hm He. unfold create_use_token in Hc.
  destruct (generate_token _ _) as [[f p]|] eqn:Eg; [|done]. apply generate_token_prefix in Eg.
  cbn in Hc. injection Hc as <- <-. unfold validate_use_token in Hv.
  destruct (is_empty _); [done|].
  assert (Hx : match nu_max_uses n with Some m => 0 < m | None => True end).
  { destruct (nu_max_uses n) as [m|]; [|done]. unfold in_u32 in Hm. cbn in Hv.
    destruct (Z.eqb_spec m 0); [done|lia]. }
  split_and!.
  - exact Eg.
  - unfold get_use_token_by_hash. cbn. rewrite lookup_insert_eq. cbn. by rewrite lookup_insert_eq.
  - apply check_usable_ok. unfold use_token_expired, is_exhausted. cbn. split_and!; [done| |].
    + destruct (nu_expires_in n); cbn; [apply Z.leb_gt; lia|done].
    + destruct (nu_max_uses n); [apply Z.leb_gt; lia|done].
  - unfold remaining_uses. cbn. destruct (nu_max_uses n); cbn; [f_equal; lia|done].
Qed.
End tokens.

(** *** Delegate verdicts *)

Lemma is_empty_true s : is_empty s = true ↔ s = "".
Proof. by destruct s. Qed.

Lemma is_empty_false s : is_empty s = false ↔ s ≠ "".
Proof. by destruct s. Qed.

Lemma cap_at_most_two tier cs : Delegation.cap_strength tier = Some cs → cs <= 2.
Proof.
  unfold Delegation.cap_strength. repeat destruct (String.eqb _ _); intros [= <-]; lia.
Qed.

Lemma action_permitted i :
  Delegation.permitted (Delegation.evaluate_action i) = true ↔
  (Delegation.action_classes (Delegation.grant_scope i) = []
   ∨ trim (Delegation.action_class i) ≠ ""
     ∧ ∃ a, a ∈ Delegation.action_classes (Delegation.grant_scope i)
            ∧ trim a = trim (Delegation.action_class i))
  ∧ Delegation.approve_verdict i = true.
Proof.
  unfold Delegation.evaluate_action. cbv zeta.
  destruct (Delegation.action_classes _) as [|c cs].
  { destruct (Delegation.approve_verdict i); naive_solver. }
  set (l := c :: cs). destruct (is_empty (trim (Delegation.action_class i))) eqn:E1.
  { apply is_empty_true in E1. split; [done|]. intros [[H|[H _]] _]; done. }
  apply is_empty_false in E1.
  destruct (existsb (λ a, String.eqb (trim a) (trim (Delegation.action_class i))) l) eqn:E2;
    cbn [negb].
  - apply existsb_elem_of in E2 as (a & Ha & E%String.eqb_eq).
    destruct (Delegation.approve_verdict i); naive_solver.
  - rewrite existsb_false_elem_of in E2. split; [done|]. intros [[H|(_ & a & Ha & E)] _]; [done|].
    specialize (E2 a Ha). by rewrite E, String.eqb_refl in E2.
Qed.

(** The floors before the action class; a tier above the cap covers High and Extreme. *)
Lemma evaluate_permitted i :
  Delegation.permitted (Delegation.evaluate_delegate_decision i) = true ↔
  trim (Delegation.delegate_agent_id i) ≠ "" ∧ Delegation.irreversible i = false
  ∧ ∃ rs cs, Delegation.risk_strength (trim (Delegation.risk_tier i)) = Some rs
      ∧ Delegation.cap_strength (trim (Delegation.max_risk_tier (Delegation.grant_scope i))) = Some cs
      ∧ rs <= cs ∧ Delegation.permitted (Delegation.evaluate_action i) = true.
Proof.
  unfold Delegation.evaluate_delegate_decision. cbv zeta.
  destruct (is_empty (trim (Delegation.delegate_agent_id i))) eqn:E1.
  { apply is_empty_true in E1. naive_solver. }
  apply is_empty_false in E1. destruct (Delegation.irreversible i); [naive_solver|].
  set (risk := trim (Delegation.risk_tier i)). destruct (is_empty risk) eqn:E2.
  { apply is_empty_true in E2. rewrite E2. naive_solver. }
  destruct (Delegation.risk_strength risk) as [rs|] eqn:Er; [|naive_solver].
  destruct (Delegation.cap_strength _) as [cs|] eqn:Ec; [|naive_solver].
  destruct (Z.ltb_spec cs rs) as [Hlt|Hle].
  { split; [done|]. intros (_ & _ & rs' & cs' & [= <-] & [= <-] & Hle & _). lia. }
  assert (Hlow : String.eqb risk "High" || String.eqb risk "Extreme" = false).
  { apply cap_at_most_two in Ec. unfold Delegation.risk_strength in Er.
    destruct (String.eqb_spec risk "High") as [Eh|_];
      [rewrite Eh in Er; cbn in Er; injection Er as <-; lia|].
    destruct (String.eqb_spec risk "Extreme") as [Eh|_];
      [rewrite Eh in Er; cbn in Er; injection Er as <-; lia|done]. }
  rewrite Hlow. split.
  - intros H. split_and!; try done. by exists rs, cs.
  - by intros (_ & _ & _ & _ & _ & _ & _ & H).
Qed.

(** A delegate verdict is permitted exactly when it approves a reversible action of a
    known tier within a valid cap (never above Medium), by a named delegate, and in one
    of the granted action classes if the grant names any. *)
Theorem delegate_verdict_within_floors (i : Delegation.DelegateEvalInput) :
  Delegation.permitted (Delegation.evaluate_delegate_decision i) = true ↔
  trim (Delegation.delegate_agent_id i) ≠ "" ∧ Delegation.irreversible i = false
  ∧ Delegation.approve_verdict i = true
  ∧ (∃ rs cs, Delegation.risk_strength (trim (Delegation.risk_tier i)) = Some rs
       ∧ Delegation.cap_strength (trim (Delegation.max_risk_tier (Delegation.grant_scope i))) = Some cs
       ∧ rs <= cs <= 2)
  ∧ (Delegation.action_classes (Delegation.grant_scope i) = []
     ∨ trim (Delegation.action_class i) ≠ ""
       ∧ ∃ a, a ∈ Delegation.action_classes (Delegation.grant_scope i)
              ∧ trim a = trim (Delegation.action_class i)).
Proof.
  rewrite evaluate_permitted. split.
  - intros (H1 & H2 & rs & cs & Hr & Hc & Hle & [Ha Hv]%action_permitted).
    split_and!; try done. exists rs, cs. split_and!; try done. by apply cap_at_most_two in Hc.
  - intros (H1 & H2 & Hv & (rs & cs & Hr & Hc & Hle) & Ha). split_and!; try done.
    exists rs, cs. split_and!; [done|done|lia|by apply action_permitted].
Qed.
