(* ===== verification/Auth.v ===== *)
(** * Roles and API keys

    Models [src/src/auth/types.rs] (permissions, roles, scopes, keys) and the
    [AuthManager] of [src/src/auth/manager.rs]: its four maps, their construction from
    stored data, role and key management, and the validation of a presented key.

    Each operation is one step on the four maps: the locks a method takes one after
    the other are not interleaved with another method's.  Random bytes, fresh ids and
    the clock are arguments.  [parse] compares without case; no character outside
    ASCII lowers to a letter of a permission's name, so folding ASCII is enough.

    Theorems: the built-in roles survive any stored data and any operation; the maps
    agree with each other; a created key validates with its role; a revoked key never
    validates again; the keys of a deleted role are refused; stored data loads back to
    the same keys and roles. *)

From stdpp Require Import base gmap strings list.
From Stdlib Require Import Ascii ZArith Lia.
From S2P Require Import Prelude RustStr UrlCanon Egress Indexed Tokens.

Open Scope Z_scope.

(** ** Permissions *)

Inductive Permission := P_Read | P_Write | P_Update | P_Delete | P_Execute | P_Admin.

#[export] Instance Permission_eq_dec : EqDecision Permission.
Proof. solve_decision. Defined.

(** [Permission::all]. *)
Definition all_permissions : list Permission := [P_Read; P_Write; P_Update; P_Delete; P_Execute; P_Admin].

(** [Display for Permission]. *)
Definition permission_name (p : Permission) : string :=
  match p with
  | P_Read => "read" | P_Write => "write" | P_Update => "update"
  | P_Delete => "delete" | P_Execute => "execute" | P_Admin => "admin"
  end.

(** [Permission::parse]. *)
Definition parse_permission (s : string) : option Permission :=
  let l := to_ascii_lowercase s in
  if String.eqb l "read" then Some P_Read
  else if String.eqb l "write" then Some P_Write
  else if String.eqb l "update" then Some P_Update
  else if String.eqb l "delete" then Some P_Delete
  else if String.eqb l "execute" then Some P_Execute
  else if String.eqb l "admin" then Some P_Admin
  else None.

(** [Permission::parse_many]; a set is a list without order, the error the unknown part. *)
Fixpoint parse_parts (parts : list string) (acc : list Permission) : result (list Permission) string :=
  match parts with
  | [] => Ok acc
  | part :: parts' =>
      let part := trim part in
      if is_empty part then parse_parts parts' acc
      else match parse_permission part with
           | Some p => parse_parts parts' (p :: acc)
           | None => Err part
           end
  end.

Definition parse_many (s : string) : result (list Permission) string :=
  parse_parts (split_char "," s) [].

(** ** Roles *)

Record Role := {
  role_id : string;
  role_name : string;
  role_description : option string;
  role_permissions : list Permission;
  role_credential_scopes : list string;
  role_created_at : DateTime;
}.

(** [Role::new], [with_id], [with_description], [with_scopes]. *)
Definition role_new (uuid : string) (now : DateTime) (name : string) (ps : list Permission) : Role :=
  {| role_id := uuid; role_name := name; role_description := None; role_permissions := ps;
     role_credential_scopes := []; role_created_at := now |}.

Definition with_id (r : Role) (id : string) : Role :=
  {| role_id := id; role_name := role_name r; role_description := role_description r;
     role_permissions := role_permissions r; role_credential_scopes := role_credential_scopes r;
     role_created_at := role_created_at r |}.

Definition with_description (r : Role) (d : string) : Role :=
  {| role_id := role_id r; role_name := role_name r; role_description := Some d;
     role_permissions := role_permissions r; role_credential_scopes := role_credential_scopes r;
     role_created_at := role_created_at r |}.

Definition with_scopes (r : Role) (scopes : list string) : Role :=
  {| role_id := role_id r; role_name := role_name r; role_description := role_description r;
     role_permissions := role_permissions r; role_credential_scopes := scopes;
     role_created_at := role_created_at r |}.

(** [has_permission], [can_access_credential]. *)
Definition has_permission (r : Role) (p : Permission) : bool := bool_decide (p ∈ role_permissions r).

Definition can_access_credential `{GlobCrate} (r : Role) (alias : string) : bool :=
  match role_credential_scopes r with
  | [] => true
  | scopes => existsb (λ pattern, pattern_matches pattern alias) scopes
  end.

(** The built-in roles. *)
Definition ROLE_ADMIN : string := "admin".
Definition ROLE_READ_ONLY : string := "read-only".
Definition ROLE_EXECUTOR : string := "executor".
Definition BUILTIN_ROLES : list string := [ROLE_ADMIN; ROLE_READ_ONLY; ROLE_EXECUTOR].

Definition admin_role (now : DateTime) : Role :=
  with_description (with_id (role_new "" now ROLE_ADMIN all_permissions) ROLE_ADMIN)
    "Full administrative access to all credentials".
Definition read_only_role (now : DateTime) : Role :=
  with_description (with_id (role_new "" now ROLE_READ_ONLY [P_Read]) ROLE_READ_ONLY)
    "Read-only access to credential metadata".
Definition executor_role (now : DateTime) : Role :=
  with_description (with_id (role_new "" now ROLE_EXECUTOR [P_Read; P_Execute]) ROLE_EXECUTOR)
    "Execute credentials without management access".

(** ** Keys *)

Record ApiKey := {
  ak_id : string;
  ak_key_prefix : string;
  ak_key_hash : string;
  ak_name : string;
  ak_role_id : string;
  ak_expires_at : option DateTime;
  ak_created_at : DateTime;
  ak_last_used_at : option DateTime;
  ak_agent_label : option string;
  ak_owner_identity : option string;
  ak_tenant : option string;
  ak_workload_id : option string;
}.

(** [ApiKey::is_expired]. *)
Definition key_expired (now : DateTime) (k : ApiKey) : bool := past (ak_expires_at k) now.

(** ** The manager *)

Inductive AuthManagerError :=
| AE_RoleNotFound (name : string)
| AE_RoleAlreadyExists (name : string)
| AE_CannotDeletePredefined (name : string)
| AE_KeyNotFound (id : string)
| AE_InvalidKey
| AE_KeyExpired
| AE_PermissionDenied.

Record AuthManager := {
  am_roles : gmap string Role;
  am_roles_by_name : gmap string string;
  am_keys_by_hash : gmap string ApiKey;
  am_keys_by_id : gmap string string;
}.

Section manager.
Context {GC : GlobCrate} {EN : Encoders} {SD : Sha256Digest}.

Definition KEY_PREFIX : string := "vk_".

(** [add_role_internal], [add_key_internal]. *)
Definition add_role_internal (m : AuthManager) (r : Role) : AuthManager :=
  {| am_roles := <[role_id r := r]> (am_roles m);
     am_roles_by_name := <[role_name r := role_id r]> (am_roles_by_name m);
     am_keys_by_hash := am_keys_by_hash m; am_keys_by_id := am_keys_by_id m |}.

Definition add_key_internal (m : AuthManager) (k : ApiKey) : AuthManager :=
  {| am_roles := am_roles m; am_roles_by_name := am_roles_by_name m;
     am_keys_by_hash := <[ak_key_hash k := k]> (am_keys_by_hash m);
     am_keys_by_id := <[ak_id k := ak_key_hash k]> (am_keys_by_id m) |}.

(** [is_predefined_role]. *)
Definition is_predefined_role (name : string) : bool :=
  String.eqb name ROLE_ADMIN || String.eqb name ROLE_READ_ONLY || String.eqb name ROLE_EXECUTOR.

(** [AuthManager::new], [from_data]. *)
Definition manager_new (now : DateTime) : AuthManager :=
  add_role_internal
    (add_role_internal
       (add_role_internal {| am_roles := ∅; am_roles_by_name := ∅; am_keys_by_hash := ∅; am_keys_by_id := ∅ |}
          (admin_role now))
       (read_only_role now))
    (executor_role now).

Definition from_data (now : DateTime) (roles : list Role) (keys : list ApiKey) : AuthManager :=
  foldl add_key_internal
    (foldl (λ m r, if is_predefined_role (role_name r) then m else add_role_internal m r)
       (manager_new now) roles)
    keys.

(** [create_role]. *)
Definition create_role (uuid : string) (now : DateTime) (name : string) (ps : list Permission)
    (scopes : list string) (description : option string) (m : AuthManager)
    : result Role AuthManagerError * AuthManager :=
  match am_roles_by_name m !! name with
  | Some _ => (Err (AE_RoleAlreadyExists name), m)
  | None =>
      let r := with_scopes (role_new uuid now name ps) scopes in
      let r := match description with Some d => with_description r d | None => r end in
      (Ok r, add_role_internal m r)
  end.

(** [get_role], [get_role_by_name], [list_roles]. *)
Definition get_role (m : AuthManager) (id_or_name : string) : option Role :=
  match am_roles m !! id_or_name with
  | Some r => Some r
  | None => id ← am_roles_by_name m !! id_or_name; am_roles m !! id
  end.

Definition get_role_by_name (m : AuthManager) (name : string) : option Role :=
  id ← am_roles_by_name m !! name; am_roles m !! id.

Definition list_roles (m : AuthManager) : list Role := (map_to_list (am_roles m)).*2.

(** [delete_role]. *)
Definition delete_role (id_or_name : string) (m : AuthManager) : result unit AuthManagerError * AuthManager :=
  match get_role m id_or_name with
  | None => (Err (AE_RoleNotFound id_or_name), m)
  | Some r =>
      if is_predefined_role (role_name r) then (Err (AE_CannotDeletePredefined (role_name r)), m)
      else (Ok tt, {| am_roles := delete (role_id r) (am_roles m);
                      am_roles_by_name := delete (role_name r) (am_roles_by_name m);
                      am_keys_by_hash := am_keys_by_hash m; am_keys_by_id := am_keys_by_id m |})
  end.

(** [hash_key], [create_api_key_scoped]; a failed slice of the random part panics. *)
Definition hash_key (key : string) : string := b64_standard (sha256 key).

Definition create_api_key_scoped (random_bytes uuid : string) (now : DateTime) (name role : string)
    (expires_in : option Z) (tenant : option string) (m : AuthManager)
    : option (result (string * ApiKey) AuthManagerError * AuthManager) :=
  match get_role m role with
  | None => Some (Err (AE_RoleNotFound role), m)
  | Some r =>
      '(full_key, prefix) ← generate_token KEY_PREFIX random_bytes;
      let k := {| ak_id := uuid; ak_key_prefix := prefix; ak_key_hash := hash_key full_key;
                  ak_name := name; ak_role_id := role_id r;
                  ak_expires_at := (λ d, now + d) <$> expires_in; ak_created_at := now;
                  ak_last_used_at := None; ak_agent_label := None; ak_owner_identity := None;
                  ak_tenant := tenant_tag tenant; ak_workload_id := None |} in
      Some (Ok (full_key, k), add_key_internal m k)
  end.

(** [validate_key]. *)
Definition validate_key (now : DateTime) (key : string) (m : AuthManager)
    : result (ApiKey * Role) AuthManagerError :=
  if negb (starts_with KEY_PREFIX key) then Err AE_InvalidKey
  else match am_keys_by_hash m !! hash_key key with
  | None => Err AE_InvalidKey
  | Some k =>
      if key_expired now k then Err AE_KeyExpired
      else match get_role m (ak_role_id k) with
           | None => Err (AE_RoleNotFound (ak_role_id k))
           | Some r => Ok (k, r)
           end
  end.

(** [update_key_last_used]. *)
Definition touch (now : DateTime) (k : ApiKey) : ApiKey :=
  {| ak_id := ak_id k; ak_key_prefix := ak_key_prefix k; ak_key_hash := ak_key_hash k;
     ak_name := ak_name k; ak_role_id := ak_role_id k; ak_expires_at := ak_expires_at k;
     ak_created_at := ak_created_at k; ak_last_used_at := Some now;
     ak_agent_label := ak_agent_label k; ak_owner_identity := ak_owner_identity k;
     ak_tenant := ak_tenant k; ak_workload_id := ak_workload_id k |}.

Definition update_key_last_used (now : DateTime) (key_hash : string) (m : AuthManager) : AuthManager :=
  match am_keys_by_hash m !! key_hash with
  | Some k => {| am_roles := am_roles m; am_roles_by_name := am_roles_by_name m;
                 am_keys_by_hash := <[key_hash := touch now k]> (am_keys_by_hash m);
                 am_keys_by_id := am_keys_by_id m |}
  | None => m
  end.

(** [revoke_api_key]. *)
Definition revoke_api_key (id : string) (m : AuthManager) : result unit AuthManagerError * AuthManager :=
  match am_keys_by_id m !! id with
  | None => (Err (AE_KeyNotFound id), m)
  | Some hash =>
      (Ok tt, {| am_roles := am_roles m; am_roles_by_name := am_roles_by_name m;
                 am_keys_by_hash := delete hash (am_keys_by_hash m);
                 am_keys_by_id := delete id (am_keys_by_id m) |})
  end.

(** [check_permission]. *)
Definition check_permission (r : Role) (p : Permission) (alias : option string) : result unit AuthManagerError :=
  if negb (has_permission r p) then Err AE_PermissionDenied
  else match alias with
       | Some a => if can_access_credential r a then Ok tt else Err AE_PermissionDenied
       | None => Ok tt
       end.

(** [export_roles], [export_keys]. *)
Definition export_roles (m : AuthManager) : list Role :=
  List.filter (λ r, negb (is_predefined_role (role_name r))) (list_roles m).
Definition export_keys (m : AuthManager) : list ApiKey := (map_to_list (am_keys_by_hash m)).*2.

(** ** Sequences of operations *)

Inductive AuthOp :=
| AO_create_role (uuid : string) (now : DateTime) (name : string) (ps : list Permission)
    (scopes : list string) (description : option string)
| AO_delete_role (id_or_name : string)
| AO_create_key (random_bytes uuid : string) (now : DateTime) (name role : string)
    (expires_in : option Z) (tenant : option string)
| AO_touch (now : DateTime) (key_hash : string)
| AO_revoke (id : string).

Definition auth_step (m : AuthManager) (op : AuthOp) : AuthManager :=
  match op with
  | AO_create_role uuid now name ps scopes d => (create_role uuid now name ps scopes d m).2
  | AO_delete_role x => (delete_role x m).2
  | AO_create_key rb uuid now name role e t =>
      match create_api_key_scoped rb uuid now name role e t m with Some r => r.2 | None => m end
  | AO_touch now h => update_key_last_used now h m
  | AO_revoke id => (revoke_api_key id m).2
  end.

Definition run_auth (m : AuthManager) (ops : list AuthOp) : AuthManager := foldl auth_step m ops.

(** Fresh ids and keys. *)
Definition minted_hash (random_bytes : string) : option string :=
  (λ fp, hash_key fp.1) <$> generate_token KEY_PREFIX random_bytes.

Definition auth_fresh (m : AuthManager) (op : AuthOp) : Prop :=
  match op with
  | AO_create_role uuid _ _ _ _ _ => am_roles m !! uuid = None
  | AO_create_key rb uuid _ _ _ _ _ =>
      am_keys_by_id m !! uuid = None
      ∧ ∀ h, minted_hash rb = Some h → am_keys_by_hash m !! h = None
  | _ => True
  end.

(** Stored data: distinct ids, names and hashes, and no stored role with a built-in id. *)
Definition stored_ok (roles : list Role) (keys : list ApiKey) : Prop :=
  NoDup (role_id <$> roles) ∧ NoDup (role_name <$> roles)
  ∧ (∀ r, r ∈ roles → role_id r ∉ BUILTIN_ROLES)
  ∧ NoDup (ak_key_hash <$> keys) ∧ NoDup (ak_id <$> keys).

Inductive manager_reachable : AuthManager → Prop :=
| MR_load now roles keys : stored_ok roles keys → manager_reachable (from_data now roles keys)
| MR_step m op : manager_reachable m → auth_fresh m op → manager_reachable (auth_step m op).

(** ** Lemmas *)

Definition builtin_permissions (b : string) : list Permission :=
  if String.eqb b ROLE_ADMIN then all_permissions
  else if String.eqb b ROLE_READ_ONLY then [P_Read] else [P_Read; P_Execute].

Definition builtins_ok (m : AuthManager) : Prop :=
  ∀ b, b ∈ BUILTIN_ROLES →
    ∃ r, am_roles m !! b = Some r ∧ role_name r = b ∧ role_permissions r = builtin_permissions b.

Definition auth_ok (m : AuthManager) : Prop :=
  indexed role_id role_name (am_roles m) (am_roles_by_name m)
  ∧ indexed ak_key_hash ak_id (am_keys_by_hash m) (am_keys_by_id m)
  ∧ builtins_ok m.

Lemma predefined_builtin name : is_predefined_role name = true ↔ name ∈ BUILTIN_ROLES.
Proof.
  unfold is_predefined_role, BUILTIN_ROLES. rewrite !orb_true_iff, !String.eqb_eq, !elem_of_cons, elem_of_nil.
  naive_solver.
Qed.

(** A built-in name belongs to the built-in id only. *)
Lemma builtin_name_id m id r :
  auth_ok m → am_roles m !! id = Some r → is_predefined_role (role_name r) = true ↔ id ∈ BUILTIN_ROLES.
Proof.
  intros (Hr & _ & Hb) Hid. rewrite predefined_builtin. split.
  - intros Hn. destruct (Hb _ Hn) as (r' & Hr' & Hn' & _).
    destruct Hr as [H1 _]. destruct (H1 _ _ Hid) as [_ Hi]. destruct (H1 _ _ Hr') as [_ Hi'].
    rewrite Hn' in Hi'. rewrite Hi in Hi'. by injection Hi' as ->.
  - intros Hb'. destruct (Hb id Hb') as (r' & Hr' & Hn' & _). rewrite Hid in Hr'. injection Hr' as ->.
    by rewrite Hn'.
Qed.

Lemma get_role_stored m x r :
  auth_ok m → get_role m x = Some r → am_roles m !! role_id r = Some r ∧ (role_id r = x ∨ role_name r = x).
Proof.
  intros (Hr & _) H. unfold get_role in H. destruct (am_roles m !! x) as [r'|] eqn:E.
  - injection H as ->. destruct Hr as [H1 _]. destruct (H1 _ _ E) as [Hx _]. rewrite Hx. auto.
  - apply (indexed_lookup role_id role_name) in H; [|done]. naive_solver.
Qed.

Lemma get_role_by_id m r : am_roles m !! role_id r = Some r → get_role m (role_id r) = Some r.
Proof. unfold get_role. by intros ->. Qed.

(** The folds of [from_data] file records. *)
Lemma keys_fold keys m :
  let m' := foldl add_key_internal m keys in
  am_roles m' = am_roles m ∧ am_roles_by_name m' = am_roles_by_name m
  ∧ (am_keys_by_hash m', am_keys_by_id m')
    = foldl (file ak_key_hash ak_id) (am_keys_by_hash m, am_keys_by_id m) keys.
Proof. revert m. induction keys as [|k keys IH]; intros m; [done|]. apply (IH (add_key_internal m k)). Qed.

Lemma roles_fold roles m :
  let m' := foldl (λ m r, if is_predefined_role (role_name r) then m else add_role_internal m r) m roles in
  am_keys_by_hash m' = am_keys_by_hash m ∧ am_keys_by_id m' = am_keys_by_id m
  ∧ (am_roles m', am_roles_by_name m')
    = foldl (file role_id role_name) (am_roles m, am_roles_by_name m)
        (List.filter (λ r, negb (is_predefined_role (role_name r))) roles).
Proof.
  revert m. induction roles as [|r roles IH]; intros m; [done|]. cbn [foldl List.filter].
  destruct (is_predefined_role (role_name r)); cbn [negb]; [apply IH|].
  apply (IH (add_role_internal m r)).
Qed.

Lemma manager_new_ok now : auth_ok (manager_new now).
Proof.
  split_and!.
  - unfold manager_new, add_role_internal. cbn [am_roles am_roles_by_name].
    repeat (apply (indexed_insert role_id role_name); [|by vm_compute|by vm_compute]).
    apply indexed_empty.
  - apply indexed_empty.
  - intros b Hb. unfold BUILTIN_ROLES in Hb.
    repeat (apply elem_of_cons in Hb as [->|Hb];
            [eexists; split_and!; [vm_compute; reflexivity|reflexivity|reflexivity]|]).
    by apply elem_of_nil in Hb.
Qed.

Lemma manager_new_ids now id r : am_roles (manager_new now) !! id = Some r → id ∈ BUILTIN_ROLES.
Proof.
  unfold manager_new, add_role_internal. cbn [am_roles]. rewrite !lookup_insert_Some, lookup_empty.
  unfold BUILTIN_ROLES. intros [[<- _]|[_ [[<- _]|[_ [[<- _]|[_ ?]]]]]];
    rewrite !elem_of_cons; by auto.
Qed.

Lemma manager_new_names now n id : am_roles_by_name (manager_new now) !! n = Some id → n ∈ BUILTIN_ROLES.
Proof.
  unfold manager_new, add_role_internal. cbn [am_roles_by_name]. rewrite !lookup_insert_Some, lookup_empty.
  unfold BUILTIN_ROLES. intros [[<- _]|[_ [[<- _]|[_ [[<- _]|[_ ?]]]]]];
    rewrite !elem_of_cons; by auto.
Qed.

(** The roles of [from_data]: the built-in ones and the stored ones without a built-in name. *)
Lemma from_data_roles now roles keys :
  stored_ok roles keys →
  let m := from_data now roles keys in
  indexed role_id role_name (am_roles m) (am_roles_by_name m)
  ∧ ∀ id r, am_roles m !! id = Some r ↔
      am_roles (manager_new now) !! id = Some r
      ∨ (r ∈ roles ∧ is_predefined_role (role_name r) = false) ∧ role_id r = id.
Proof.
  intros (Hid & Hnm & Hbi & _). cbv zeta. unfold from_data.
  destruct (keys_fold keys (foldl (λ m r, if is_predefined_role (role_name r) then m
                                          else add_role_internal m r) (manager_new now) roles))
    as (-> & -> & _).
  pose proof (roles_fold roles (manager_new now)) as (_ & _ & R3). cbv zeta in R3.
  set (custom := List.filter (λ r, negb (is_predefined_role (role_name r))) roles) in *.
  assert (Hsub : custom `sublist_of` roles) by apply filter_bool_sublist.
  assert (Hc : ∀ r, r ∈ custom ↔ r ∈ roles ∧ is_predefined_role (role_name r) = false).
  { intros r. unfold custom. rewrite elem_of_filter_bool, negb_true_iff. done. }
  destruct (indexed_file role_id role_name custom
              (am_roles (manager_new now), am_roles_by_name (manager_new now))) as [F1 F2].
  - apply manager_new_ok.
  - eapply sublist_NoDup; [exact Hid|]. by apply fmap_sublist.
  - eapply sublist_NoDup; [exact Hnm|]. by apply fmap_sublist.
  - intros r Hr. apply Hc in Hr as [Hr Hp]. cbn [fst snd]. split.
    + destruct (am_roles (manager_new now) !! role_id r) as [r'|] eqn:E; [|done]. exfalso.
      apply (Hbi r Hr). eapply manager_new_ids; exact E.
    + destruct (am_roles_by_name (manager_new now) !! role_name r) as [x|] eqn:E; [|done]. exfalso.
      apply manager_new_names in E. apply predefined_builtin in E. congruence.
  - rewrite <- R3 in F1, F2. cbn [fst snd] in F1, F2. split; [exact F1|].
    intros id r. by rewrite F2, Hc.
Qed.

Lemma from_data_keys now roles keys :
  stored_ok roles keys →
  let m := from_data now roles keys in
  indexed ak_key_hash ak_id (am_keys_by_hash m) (am_keys_by_id m)
  ∧ ∀ h k, am_keys_by_hash m !! h = Some k ↔ k ∈ keys ∧ ak_key_hash k = h.
Proof.
  intros (_ & _ & _ & Hkh & Hki). cbv zeta. unfold from_data.
  set (m1 := foldl _ (manager_new now) roles).
  assert (E1 : am_keys_by_hash m1 = ∅ ∧ am_keys_by_id m1 = ∅)
    by (unfold m1; destruct (roles_fold roles (manager_new now)) as (-> & -> & _); done).
  pose proof (keys_fold keys m1) as (_ & _ & K3). cbv zeta in K3.
  rewrite (proj1 E1), (proj2 E1) in K3.
  destruct (indexed_file ak_key_hash ak_id keys (∅, ∅)) as [F1 F2]; [apply indexed_empty|done|done|done|].
  rewrite <- K3 in F1, F2. cbn [fst snd] in F1, F2. split; [exact F1|].
  intros h k. rewrite F2, lookup_empty. naive_solver.
Qed.

Lemma from_data_ok now roles keys : stored_ok roles keys → auth_ok (from_data now roles keys).
Proof.
  intros Hs. destruct (from_data_roles now roles keys Hs) as [H1 H2].
  destruct (from_data_keys now roles keys Hs) as [H3 _]. split_and!; [done|done|].
  intros b Hb. destruct (manager_new_ok now) as (_ & _ & H0). destruct (H0 b Hb) as (r & Hr & Hx).
  exists r. split; [apply H2; by left|done].
Qed.

(** Every operation keeps the maps in agreement and the built-in roles in place. *)
Lemma auth_step_ok m op : auth_ok m → auth_fresh m op → auth_ok (auth_step m op).
Proof.
  intros Hok Hf. pose proof Hok as (Hr & Hk & Hb).
  destruct op as [uuid now name ps scopes d|x|rb uuid now name role e t|now h|id];
    cbn [auth_step auth_fresh] in *.
  - unfold create_role. destruct (am_roles_by_name m !! name) eqn:En; [done|]. cbv zeta. cbn [snd].
    set (r := match d with Some _ => _ | None => _ end).
    assert (Er : role_id r = uuid ∧ role_name r = name) by (by destruct d). destruct Er as [Ei Em].
    split_and!; [|done|].
    + apply (indexed_insert role_id role_name); [done|by rewrite Ei|by rewrite Em].
    + intros b Hb'. destruct (Hb b Hb') as (r' & Hr' & Hx). exists r'. split; [|done].
      cbn [am_roles add_role_internal]. rewrite lookup_insert_ne; [done|]. rewrite Ei. congruence.
  - unfold delete_role. destruct (get_role m x) as [r|] eqn:Eg; [|done].
    destruct (is_predefined_role (role_name r)) eqn:Ep; [done|]. cbn [snd].
    apply get_role_stored in Eg as [Hst _]; [|done]. split_and!; [|done|].
    + by apply (indexed_delete role_id role_name).
    + intros b Hb'. destruct (Hb b Hb') as (r' & Hr' & Hn & Hx). exists r'. split; [|done].
      cbn [am_roles]. rewrite lookup_delete_ne; [done|]. intros E.
      rewrite <- E in Hb'. apply (builtin_name_id m _ r Hok Hst) in Hb'. congruence.
  - unfold create_api_key_scoped. destruct (get_role m role) as [r|]; [|done].
    destruct (generate_token KEY_PREFIX rb) as [[full pre]|] eqn:Eg; [|done]. cbn [mbind option_bind snd].
    destruct Hf as [Hi Hh]. split_and!; [done| |done].
    apply (indexed_insert ak_key_hash ak_id); [done| |done]. apply Hh. unfold minted_hash. by rewrite Eg.
  - unfold update_key_last_used. destruct (am_keys_by_hash m !! h) as [k|] eqn:E; [|done].
    split_and!; [done| |done]. by apply (indexed_update ak_key_hash ak_id _ _ h k).
  - unfold revoke_api_key. destruct (am_keys_by_id m !! id) as [h|] eqn:E; [|done]. cbn [snd].
    split_and!; [done| |done]. destruct (proj2 Hk id h E) as (k & Hk' & <-).
    by apply (indexed_delete ak_key_hash ak_id).
Qed.

Lemma reachable_ok m : manager_reachable m → auth_ok m.
Proof. induction 1; [by apply from_data_ok|by apply auth_step_ok]. Qed.

(** An operation does not mint the key with a given hash. *)
Definition mints_other (h : string) (op : AuthOp) : Prop :=
  match op with AO_create_key rb _ _ _ _ _ _ => minted_hash rb ≠ Some h | _ => True end.

Lemma absent_hash_stays m op h :
  am_keys_by_hash m !! h = None → mints_other h op → am_keys_by_hash (auth_step m op) !! h = None.
Proof.
  intros Hn Ho. destruct op as [uuid now name ps scopes d|x|rb uuid now name role e t|now h'|id];
    cbn [auth_step mints_other] in *.
  - unfold create_role. by destruct (am_roles_by_name m !! name).
  - unfold delete_role. destruct (get_role m x) as [r|]; [|done]. by destruct (is_predefined_role _).
  - unfold create_api_key_scoped. destruct (get_role m role) as [r|]; [|done].
    unfold minted_hash in Ho. destruct (generate_token KEY_PREFIX rb) as [[full pre]|]; [|done].
    cbn in Ho |- *. rewrite lookup_insert_ne; [done|]. congruence.
  - unfold update_key_last_used. destruct (am_keys_by_hash m !! h') as [k|] eqn:E; [|done]. cbn.
    rewrite lookup_insert_ne; [done|]. congruence.
  - unfold revoke_api_key. destruct (am_keys_by_id m !! id) as [h'|]; [|done]. cbn.
    by rewrite lookup_delete_None; auto.
Qed.

Lemma absent_hash_stays_run ops m h :
  am_keys_by_hash m !! h = None → Forall (mints_other h) ops →
  am_keys_by_hash (run_auth m ops) !! h = None.
Proof.
  intros Hn Hf. revert m Hn. induction Hf as [|op ops Ho _ IH]; intros m Hn; [done|].
  cbn. apply IH. by apply absent_hash_stays.
Qed.

(** An operation leaves a key and a role alone. *)
Definition spares (id x : string) (m : AuthManager) (op : AuthOp) : Prop :=
  match op with
  | AO_revoke id' => id' ≠ id
  | AO_delete_role y => match get_role m y with Some r => role_id r ≠ x | None => True end
  | _ => True
  end.

Fixpoint all_spare (id x : string) (m : AuthManager) (ops : list AuthOp) : Prop :=
  match ops with
  | [] => True
  | op :: ops' => auth_fresh m op ∧ spares id x m op ∧ all_spare id x (auth_step m op) ops'
  end.

(** A key survives, but for the time of its last use. *)
Definition same_key (k k' : ApiKey) : Prop := k' = k ∨ ∃ t, k' = touch t k.

Lemma key_stays m op h k :
  auth_ok m → auth_fresh m op → am_keys_by_hash m !! h = Some k → spares (ak_id k) (ak_role_id k) m op →
  ∃ k', am_keys_by_hash (auth_step m op) !! h = Some k' ∧ same_key k k'.
Proof.
  intros (_ & Hk & _) Hf He Hs.
  destruct op as [uuid now name ps scopes d|x|rb uuid now name role e t|now h'|id];
    cbn [auth_step auth_fresh spares] in *.
  - exists k. split; [|by left]. unfold create_role. by destruct (am_roles_by_name m !! name).
  - exists k. split; [|by left]. unfold delete_role. destruct (get_role m x) as [r|]; [|done].
    by destruct (is_predefined_role _).
  - exists k. split; [|by left]. unfold create_api_key_scoped. destruct (get_role m role) as [r|]; [|done].
    destruct Hf as [_ Hh]. unfold minted_hash in Hh.
    destruct (generate_token KEY_PREFIX rb) as [[full pre]|]; [|done]. cbn in Hh |- *.
    rewrite lookup_insert_ne; [done|]. intros <-. rewrite (Hh _ eq_refl) in He. done.
  - unfold update_key_last_used. destruct (decide (h' = h)) as [->|Hne].
    + rewrite He. exists (touch now k). cbn. rewrite lookup_insert_eq. split; [done|]. right. by exists now.
    + exists k. split; [|by left]. destruct (am_keys_by_hash m !! h'); [|done].
      cbn. by rewrite lookup_insert_ne.
  - exists k. split; [|by left]. unfold revoke_api_key.
    destruct (am_keys_by_id m !! id) as [h'|] eqn:E; [|done]. cbn. rewrite lookup_delete_ne; [done|].
    intros ->. destruct (proj2 Hk id h E) as (k' & Hk' & <-). congruence.
Qed.

Lemma role_stays m op r id :
  auth_ok m → auth_fresh m op → am_roles m !! role_id r = Some r → spares id (role_id r) m op →
  am_roles (auth_step m op) !! role_id r = Some r.
Proof.
  intros Hok Hf He Hs.
  destruct op as [uuid now name ps scopes d|x|rb uuid now name role e t|now h'|id'];
    cbn [auth_step auth_fresh spares] in *.
  - unfold create_role. destruct (am_roles_by_name m !! name); [done|]. cbv zeta. cbn [snd am_roles add_role_internal].
    rewrite lookup_insert_ne; [done|]. destruct d; cbn; congruence.
  - unfold delete_role. destruct (get_role m x) as [r'|]; [|done].
    destruct (is_predefined_role _); [done|]. cbn. by rewrite lookup_delete_ne.
  - unfold create_api_key_scoped. destruct (get_role m role); [|done].
    by destruct (generate_token KEY_PREFIX rb) as [[]|].
  - unfold update_key_last_used. by destruct (am_keys_by_hash m !! h').
  - unfold revoke_api_key. by destruct (am_keys_by_id m !! id').
Qed.

Lemma key_and_role_stay ops m h k r :
  auth_ok m → am_keys_by_hash m !! h = Some k → ak_role_id k = role_id r →
  am_roles m !! role_id r = Some r → all_spare (ak_id k) (role_id r) m ops →
  ∃ k', am_keys_by_hash (run_auth m ops) !! h = Some k' ∧ ak_id k' = ak_id k
        ∧ ak_role_id k' = role_id r ∧ ak_expires_at k' = ak_expires_at k
        ∧ am_roles (run_auth m ops) !! role_id r = Some r.
Proof.
  revert m k. induction ops as [|op ops IH]; intros m k Hok Hk Hr He Hs; [by exists k|].
  destruct Hs as (Hf & Hsp & Hs). cbn.
  destruct (key_stays m op h k Hok Hf Hk) as (k1 & Hk1 & Hsame); [by rewrite Hr|].
  assert (E : ak_id k1 = ak_id k ∧ ak_role_id k1 = ak_role_id k ∧ ak_expires_at k1 = ak_expires_at k)
    by (destruct Hsame as [->|[t ->]]; done). destruct E as (E1 & E2 & E3).
  destruct (IH (auth_step m op) k1) as (k' & H1 & H2 & H3 & H4 & H5);
    [by apply auth_step_ok|done|by rewrite E2|by apply (role_stays m op r (ak_id k))|by rewrite E1|].
  exists k'. rewrite <- E1, <- E3. done.
Qed.

(** What is exported satisfies the conditions on stored data. *)
Lemma exported_role m r :
  r ∈ export_roles m ↔ (∃ id, am_roles m !! id = Some r) ∧ is_predefined_role (role_name r) = false.
Proof.
  unfold export_roles, list_roles. rewrite elem_of_filter_bool, negb_true_iff, list_elem_of_fmap.
  split; intros [H Hp]; (split; [|done]).
  - destruct H as ([id r'] & -> & H). exists id. by apply elem_of_map_to_list in H.
  - destruct H as [id H]. exists (id, r). split; [done|]. by apply elem_of_map_to_list.
Qed.

Lemma filter_keep_all {A} (l : list A) : List.filter (λ _, true) l = l.
Proof. induction l as [|x l IH]; [done|]. cbn. by rewrite IH. Qed.

Lemma export_stored_ok m : auth_ok m → stored_ok (export_roles m) (export_keys m).
Proof.
  intros Hok. pose proof Hok as (Hr & Hk & _). split_and!.
  - by eapply indexed_keys_nodup.
  - by eapply indexed_attrs_nodup.
  - intros r [[id Hid] Hp]%exported_role Hb. destruct (proj1 Hr _ _ Hid) as [Hi _].
    rewrite Hi in Hb. apply (builtin_name_id m id r Hok Hid) in Hb. congruence.
  - unfold export_keys. rewrite <- (filter_keep_all (map_to_list _).*2). by eapply indexed_keys_nodup.
  - unfold export_keys. rewrite <- (filter_keep_all (map_to_list _).*2). by eapply indexed_attrs_nodup.
Qed.

(** ** Theorems *)

(** The built-in roles are there with their permissions, whatever was stored (a stored
    role named like one of them is ignored) and whatever is done to the manager. *)
Theorem builtin_roles_are_permanent m b :
  manager_reachable m → b ∈ BUILTIN_ROLES →
  ∃ r, get_role m b = Some r ∧ get_role_by_name m b = Some r
       ∧ role_name r = b ∧ role_permissions r = builtin_permissions b
       ∧ (delete_role b m).2 = m.
Proof.
  intros Hm Hb. apply reachable_ok in Hm as (Hr & _ & Hbi). destruct (Hbi b Hb) as (r & Hr' & Hn & Hp).
  destruct (proj1 Hr _ _ Hr') as [Hid Hx]. exists r.
  assert (Hg : get_role m b = Some r) by (unfold get_role; by rewrite Hr').
  split_and!; try done.
  - unfold get_role_by_name. rewrite <- Hn, Hx. exact Hr'.
  - unfold delete_role. rewrite Hg, Hn. apply predefined_builtin in Hb. by rewrite Hb.
Qed.

(** A key that was revoked never validates again, through any operations that do not
    mint a key with the same hash. *)
Theorem revoked_key_never_validates m id secret k m' ops now :
  manager_reachable m → am_keys_by_hash m !! hash_key secret = Some k → ak_id k = id →
  revoke_api_key id m = (Ok tt, m') → Forall (mints_other (hash_key secret)) ops →
  validate_key now secret (run_auth m' ops) = Err AE_InvalidKey.
Proof.
  intros Hm Hk Hid Hr Ho. apply reachable_ok in Hm as (_ & Hks & _).
  destruct (proj1 Hks _ _ Hk) as [_ Hi]. unfold revoke_api_key in Hr.
  rewrite <- Hid, Hi in Hr. injection Hr as <-. unfold validate_key.
  rewrite absent_hash_stays_run; [by destruct (negb _)|apply lookup_delete_eq|done].
Qed.

(** A created key validates with the role it was created for until it expires, through
    any operations that neither revoke it nor delete that role. *)
Theorem created_key_validates m rb uuid now name role e t full k m' ops later :
  manager_reachable m → auth_fresh m (AO_create_key rb uuid now name role e t) →
  create_api_key_scoped rb uuid now name role e t m = Some (Ok (full, k), m') →
  all_spare (ak_id k) (ak_role_id k) m' ops →
  match e with Some d => later < now + d | None => True end →
  ∃ k' r, validate_key later full (run_auth m' ops) = Ok (k', r)
          ∧ ak_id k' = uuid ∧ get_role m role = Some r.
Proof.
  intros Hm Hf Hc Hs He. apply reachable_ok in Hm as Hok.
  assert (Hok' : auth_ok m').
  { pose proof (auth_step_ok m _ Hok Hf) as H. cbn [auth_step] in H. by rewrite Hc in H. }
  unfold create_api_key_scoped in Hc. destruct (get_role m role) as [r|] eqn:Eg; [|done].
  destruct (generate_token KEY_PREFIX rb) as [[f p]|] eqn:Et; [|done]. apply generate_token_prefix in Et.
  cbn in Hc. injection Hc as <- <- <-. apply get_role_stored in Eg as Hst; [|done]. destruct Hst as [Hst _].
  destruct (key_and_role_stay ops _ (hash_key f) _ r Hok' (lookup_insert_eq _ _ _) eq_refl Hst Hs)
    as (k' & Hk' & Hid & Hrole & Hexp & Hr').
  exists k', r. split_and!; [|done|done]. unfold validate_key. rewrite Et, Hk'. cbn [negb].
  unfold key_expired. rewrite Hexp. cbn [ak_expires_at].
  assert (Hp : past ((λ d, now + d) <$> e) later = false)
    by (destruct e; cbn; [apply Z.leb_gt; lia|done]).
  rewrite Hp, Hrole. by rewrite get_role_by_id.
Qed.

(** Deleting a role cuts off its keys: unless another role carries the deleted id as its
    name, every key of the role is refused. *)
Theorem deleted_role_refuses_its_keys m x r m' secret k now :
  manager_reachable m → get_role m x = Some r → delete_role x m = (Ok tt, m') →
  am_roles_by_name m !! role_id r = None →
  am_keys_by_hash m !! hash_key secret = Some k → ak_role_id k = role_id r →
  is_ok (validate_key now secret m') = false.
Proof.
  intros Hm Hg Hd Hn Hk Hr. unfold delete_role in Hd. rewrite Hg in Hd.
  destruct (is_predefined_role (role_name r)); [done|]. injection Hd as <-.
  unfold validate_key. cbn [am_keys_by_hash]. rewrite Hk.
  destruct (negb _); [done|]. destruct (key_expired now k); [done|].
  unfold get_role. cbn [am_roles am_roles_by_name]. rewrite Hr, lookup_delete_eq.
  by rewrite (proj2 (lookup_delete_None _ _ _)) by auto.
Qed.

(** What is stored loads back: the exported roles and keys give a manager with the same
    keys, and the same roles but for the built-in ones, which are created anew. *)
Theorem stored_data_loads_back m now :
  manager_reachable m →
  let m' := from_data now (export_roles m) (export_keys m) in
  am_keys_by_hash m' = am_keys_by_hash m
  ∧ ∀ id, id ∉ BUILTIN_ROLES → am_roles m' !! id = am_roles m !! id.
Proof.
  intros Hm. cbv zeta. apply reachable_ok in Hm as Hok. pose proof (export_stored_ok m Hok) as Hs.
  destruct (from_data_roles now _ _ Hs) as [_ Hr]. destruct (from_data_keys now _ _ Hs) as [_ Hk].
  pose proof Hok as (Hro & Hke & _). split.
  - apply map_eq. intros h. apply option_eq. intros k. rewrite Hk. split.
    + intros [Hin <-]. apply list_elem_of_fmap in Hin as ([h k'] & -> & Hin).
      apply elem_of_map_to_list in Hin. cbn. by rewrite (proj1 (proj1 Hke _ _ Hin)).
    + intros Hh. destruct (proj1 Hke _ _ Hh) as [Hkh _]. split; [|done].
      apply list_elem_of_fmap. exists (h, k). split; [done|]. by apply elem_of_map_to_list.
  - intros id Hid. apply option_eq. intros r. rewrite Hr. rewrite exported_role. split.
    + intros [Hn|[[[Hin _] _] <-]]; [by apply manager_new_ids in Hn|].
      destruct Hin as [id Hin]. by rewrite (proj1 (proj1 Hro _ _ Hin)).
    + intros Hin. right. destruct (proj1 Hro _ _ Hin) as [Hi _].
      assert (Hp : is_predefined_role (role_name r) = false).
      { apply not_true_iff_false. intros Hp. apply Hid. by apply (builtin_name_id m id r). }
      split; [|done]. split; [|done]. split; [by exists id|done].
Qed.
End manager.
