(* ===== verification/Ssrf.v ===== *)
(** * The outbound address guard

    Models the address classifier of [src/src/plugins/http.rs] (the tables of blocked
    ranges, the prefix tests, the decoded IPv6 forms), the filter of connect-time
    resolutions and the request-time URL checks, and the independent specification in
    [src/src/plugins/http/ssrf_spec.rs] that the repository compares the classifier
    with.  An IPv4 or IPv6 address is its big-endian integer.

    The main theorem is that the classifier equals that specification on every address.
    URL parsing, address literals and name resolution are parameters. *)

From stdpp Require Import base strings list.
From Stdlib Require Import Ascii ZArith Lia.
From S2P Require Import Prelude RustStr UrlCanon.

Open Scope Z_scope.

(** ** Addresses *)

Definition u128_max : Z := 2 ^ 128 - 1.

(** [IpAddr]: the integer of [u32::from] or [u128::from]. *)
Inductive IpAddr := V4 (a : Z) | V6 (a : Z).

Definition valid_ip (ip : IpAddr) : Prop :=
  match ip with V4 a => 0 <= a < 2 ^ 32 | V6 a => 0 <= a < 2 ^ 128 end.

(** [Ipv6Addr::segments], the [i]th of eight 16-bit groups. *)
Definition segment (a : Z) (i : Z) : Z := Z.land (Z.shiftr a (112 - 16 * i)) 0xffff.

(** [u32::from(Ipv4Addr::new(a, b, c, d))]. *)
Definition ipv4_new (a b c d : Z) : Z := a * 2 ^ 24 + b * 2 ^ 16 + c * 2 ^ 8 + d.

(** [embedded_v4]. *)
Definition embedded_v4 (hi lo : Z) : Z :=
  ipv4_new (Z.shiftr hi 8) (Z.land hi 0xff) (Z.shiftr lo 8) (Z.land lo 0xff).

(** [Ipv6Addr::to_ipv4_mapped] and [Ipv6Addr::to_ipv4]. *)
Definition zero_segments (a : Z) (is_ : list Z) : bool := forallb (λ i, segment a i =? 0) is_.
Definition to_ipv4_mapped (a : Z) : option Z :=
  if zero_segments a [0; 1; 2; 3; 4] && (segment a 5 =? 0xffff)
  then Some (embedded_v4 (segment a 6) (segment a 7)) else None.
Definition to_ipv4 (a : Z) : option Z :=
  if zero_segments a [0; 1; 2; 3; 4] && ((segment a 5 =? 0xffff) || (segment a 5 =? 0))
  then Some (embedded_v4 (segment a 6) (segment a 7)) else None.

(** ** The classifier *)

(** [IPV4_BLOCKED] and [IPV6_BLOCKED]. *)
Definition IPV4_BLOCKED : list (Z * Z) :=
  [ (0x00000000, 8); (0x0A000000, 8); (0x64400000, 10); (0x7F000000, 8); (0xA9FE0000, 16);
    (0xAC100000, 12); (0xC0000000, 24); (0xC0000200, 24); (0xC0A80000, 16); (0xC6120000, 15);
    (0xC6336400, 24); (0xCB007100, 24); (0xE0000000, 4); (0xF0000000, 4); (0xC0586300, 24) ].
Definition IPV6_BLOCKED : list (Z * Z) :=
  [ (0x0, 96);
    (0x0064ff9b000100000000000000000000, 48);
    (0x01000000000000000000000000000000, 64);
    (0x01000000000000010000000000000000, 64);
    (0x20010000000000000000000000000000, 23);
    (0x20010db8000000000000000000000000, 32);
    (0x3fff0000000000000000000000000000, 20);
    (0x5f000000000000000000000000000000, 16);
    (0xfc000000000000000000000000000000, 7);
    (0xfe800000000000000000000000000000, 10);
    (0xfec00000000000000000000000000000, 10);
    (0xff000000000000000000000000000000, 8) ].

(** The mask of [len] leading ones in a [w]-bit word: [MAX << (w - len)], truncated. *)
Definition prefix_mask (w len : Z) : Z :=
  if len =? 0 then 0 else Z.land (Z.shiftl (2 ^ w - 1) (w - len)) (2 ^ w - 1).

(** [v4_in_prefix] and [v6_in_prefix]. *)
Definition v4_in_prefix (addr net len : Z) : bool :=
  let mask := prefix_mask 32 len in Z.land addr mask =? Z.land net mask.
Definition v6_in_prefix (addr net len : Z) : bool :=
  let mask := prefix_mask 128 len in Z.land addr mask =? Z.land net mask.

(** [ipv4_is_special_purpose] and [ipv6_is_special_purpose]. *)
Definition ipv4_is_special_purpose (addr : Z) : bool :=
  existsb (λ e : Z * Z, v4_in_prefix addr e.1 e.2) IPV4_BLOCKED.
Definition ipv6_is_special_purpose (addr : Z) : bool :=
  existsb (λ e : Z * Z, v6_in_prefix addr e.1 e.2) IPV6_BLOCKED.

(** [is_ipv4_mapped_private]; the recursive call is on an IPv4 address. *)
Definition is_ipv4_mapped_private (a : Z) : bool :=
  match to_ipv4_mapped a with Some v4 => ipv4_is_special_purpose v4 | None => false end.

(** [HttpPlugin::is_private_ip]. *)
Definition is_private_ip (ip : IpAddr) : bool :=
  match ip with
  | V4 a => ipv4_is_special_purpose a
  | V6 a =>
      ipv6_is_special_purpose a || is_ipv4_mapped_private a
      || ((segment a 0 =? 0x0064) && (segment a 1 =? 0xff9b)
          && ipv4_is_special_purpose (embedded_v4 (segment a 6) (segment a 7)))
      || ((segment a 0 =? 0x2002) && ipv4_is_special_purpose (embedded_v4 (segment a 1) (segment a 2)))
  end.

(** [is_link_local_or_metadata_ip]. *)
Definition metadata_v4 (a : Z) : bool := v4_in_prefix a 0xa9fe0000 16.
Definition is_link_local_or_metadata_ip (ip : IpAddr) : bool :=
  match ip with
  | V4 a => metadata_v4 a
  | V6 a =>
      v6_in_prefix a 0xfe800000000000000000000000000000 10
      || v6_in_prefix a 0xfd000ec2000000000000000000000254 128
      || match to_ipv4 a with Some v4 => metadata_v4 v4 | None => false end
      || ((segment a 0 =? 0x0064) && (segment a 1 =? 0xff9b) && zero_segments a [2; 3; 4; 5]
          && metadata_v4 (embedded_v4 (segment a 6) (segment a 7)))
      || ((segment a 0 =? 0x2002) && metadata_v4 (embedded_v4 (segment a 1) (segment a 2)))
  end.

(** ** The specification *)

(** [u32::from_be_bytes] and the fold of [in6]. *)
Definition be_int (bits : Z) (digits : list Z) : Z :=
  foldl (λ n d, Z.lor (Z.shiftl n bits) d) 0 digits.

(** [in4] and [in6]. *)
Definition in4 (a : Z) (o : list Z) (len : Z) : bool :=
  (len =? 0) || (Z.shiftr (Z.lxor a (be_int 8 o)) (32 - len) =? 0).
Definition in6 (a : Z) (g : list Z) (len : Z) : bool :=
  (len =? 0) || (Z.shiftr (Z.lxor a (be_int 16 g)) (128 - len) =? 0).

Definition REGISTRY_V4 : list (list Z * Z) :=
  [ ([0; 0; 0; 0], 8); ([10; 0; 0; 0], 8); ([100; 64; 0; 0], 10); ([127; 0; 0; 0], 8);
    ([169; 254; 0; 0], 16); ([172; 16; 0; 0], 12); ([192; 0; 0; 0], 24); ([192; 0; 2; 0], 24);
    ([192; 168; 0; 0], 16); ([198; 18; 0; 0], 15); ([198; 51; 100; 0], 24); ([203; 0; 113; 0], 24);
    ([240; 0; 0; 0], 4) ].
Definition POLICY_V4 : list (list Z * Z) := [ ([224; 0; 0; 0], 4); ([192; 88; 99; 0], 24) ].
Definition REGISTRY_V6 : list (list Z * Z) :=
  [ ([0; 0; 0; 0; 0; 0; 0; 1], 128); ([0; 0; 0; 0; 0; 0; 0; 0], 128);
    ([0x64; 0xff9b; 1; 0; 0; 0; 0; 0], 48); ([0x100; 0; 0; 0; 0; 0; 0; 0], 64);
    ([0x100; 0; 0; 1; 0; 0; 0; 0], 64); ([0x2001; 0; 0; 0; 0; 0; 0; 0], 23);
    ([0x2001; 0xdb8; 0; 0; 0; 0; 0; 0], 32); ([0x3fff; 0; 0; 0; 0; 0; 0; 0], 20);
    ([0x5f00; 0; 0; 0; 0; 0; 0; 0], 16); ([0xfc00; 0; 0; 0; 0; 0; 0; 0], 7);
    ([0xfe80; 0; 0; 0; 0; 0; 0; 0], 10) ].
Definition POLICY_V6 : list (list Z * Z) :=
  [ ([0; 0; 0; 0; 0; 0; 0; 0], 96); ([0xfec0; 0; 0; 0; 0; 0; 0; 0], 10);
    ([0xff00; 0; 0; 0; 0; 0; 0; 0], 8) ].

(** [spec_v4]. *)
Definition spec_v4 (a : Z) : bool :=
  existsb (λ e : list Z * Z, in4 a e.1 e.2) REGISTRY_V4
  || existsb (λ e : list Z * Z, in4 a e.1 e.2) POLICY_V4.

(** [spec_v6]; [a as u32] and [(a >> 80) as u32] truncate. *)
Definition as_u32 (a : Z) : Z := Z.land a (2 ^ 32 - 1).
Definition spec_v6 (a : Z) : bool :=
  if existsb (λ e : list Z * Z, in6 a e.1 e.2) REGISTRY_V6 then true
  else if existsb (λ e : list Z * Z, in6 a e.1 e.2) POLICY_V6 then true
  else if in6 a [0x2001; 0; 0; 0; 0; 0; 0; 0] 32 || in6 a [0x64; 0xff9b; 1; 0; 0; 0; 0; 0] 48 then true
  else if in6 a [0; 0; 0; 0; 0; 0xffff; 0; 0] 96 then spec_v4 (as_u32 a)
  else if in6 a [0x64; 0xff9b; 0; 0; 0; 0; 0; 0] 32 then spec_v4 (as_u32 a)
  else if in6 a [0x2002; 0; 0; 0; 0; 0; 0; 0] 16 then spec_v4 (as_u32 (Z.shiftr a 80))
  else false.

Definition spec_ip (ip : IpAddr) : bool := match ip with V4 a => spec_v4 a | V6 a => spec_v6 a end.

(** ** Both prefix tests are a comparison of leading bits *)

Lemma testbit_ones w i : 0 <= w → Z.testbit (2 ^ w - 1) i = (0 <=? i) && (i <? w).
Proof.
  intros Hw. replace (2 ^ w - 1) with (Z.ones w) by (rewrite Z.ones_equiv; lia).
  destruct (Z.leb_spec 0 i); [|by rewrite Z.testbit_neg_r].
  destruct (Z.ltb_spec i w); cbn [andb]; [by apply Z.ones_spec_low|by apply Z.ones_spec_high].
Qed.

Lemma prefix_mask_bit w len i :
  0 < len <= w → Z.testbit (prefix_mask w len) i = (w - len <=? i) && (i <? w).
Proof.
  intros Hl. unfold prefix_mask. rewrite (proj2 (Z.eqb_neq len 0)) by lia.
  rewrite Z.land_spec, testbit_ones by lia.
  destruct (Z.ltb_spec i 0) as [Hi|Hi].
  { rewrite Z.testbit_neg_r by lia. destruct (Z.leb_spec (w - len) i); [lia|done]. }
  rewrite Z.shiftl_spec, testbit_ones by lia. rewrite (proj2 (Z.leb_le 0 i)) by lia.
  destruct (Z.leb_spec (w - len) i), (Z.leb_spec 0 (i - (w - len))), (Z.ltb_spec (i - (w - len)) w),
    (Z.ltb_spec i w); cbn; lia || done.
Qed.

Lemma testbit_high a w i : 0 <= a < 2 ^ w → w <= i → Z.testbit a i = false.
Proof.
  intros Ha Hi. destruct (Z.eq_dec a 0) as [->|]; [apply Z.bits_0|].
  apply Z.bits_above_log2; [lia|]. apply Z.log2_lt_pow2; [lia|].
  apply Z.lt_le_trans with (2 ^ w); [lia|]. apply Z.pow_le_mono_r; [lia|].
  destruct (Z.ltb_spec w 0); [|lia]. rewrite Z.pow_neg_r in Ha by lia. lia.
Qed.

(** The leading [w - k] bits agree. *)
Definition same_prefix (k a b : Z) : bool := Z.shiftr (Z.lxor a b) k =? 0.

Lemma same_prefix_spec k a b :
  0 <= k → same_prefix k a b = true ↔ Z.shiftr a k = Z.shiftr b k.
Proof.
  intros Hk. unfold same_prefix. rewrite Z.eqb_eq, Z.shiftr_lxor. apply Z.lxor_eq_0_iff.
Qed.

Lemma mask_same_prefix w len a net :
  0 <= len <= w → 0 <= a < 2 ^ w → 0 <= net < 2 ^ w →
  (Z.land a (prefix_mask w len) =? Z.land net (prefix_mask w len))
  = (len =? 0) || same_prefix (w - len) a net.
Proof.
  intros Hl Ha Hn. destruct (Z.eqb_spec len 0) as [->|Hne].
  { cbn [orb]. unfold prefix_mask. cbn. by rewrite !Z.land_0_r. }
  cbn [orb]. apply eq_true_iff_eq. rewrite Z.eqb_eq, same_prefix_spec by lia.
  assert (Hbit : ∀ x i, 0 <= x < 2 ^ w → 0 <= i →
            Z.testbit (Z.land x (prefix_mask w len)) i = (w - len <=? i) && Z.testbit x i).
  { intros x i Hx Hi. rewrite Z.land_spec, prefix_mask_bit by lia.
    destruct (Z.leb_spec (w - len) i); cbn [andb]; [|by rewrite andb_false_r].
    destruct (Z.ltb_spec i w); [by rewrite andb_true_r|].
    by rewrite (testbit_high x w i Hx) by lia. }
  split; intros E; apply Z.bits_inj'; intros i Hi.
  - rewrite !Z.shiftr_spec by done. apply (f_equal (λ z, Z.testbit z (i + (w - len)))) in E.
    rewrite !Hbit in E by lia. by rewrite (proj2 (Z.leb_le _ _)) in E by lia.
  - rewrite !Hbit by lia. destruct (Z.leb_spec (w - len) i); [|done]. cbn [andb].
    apply (f_equal (λ z, Z.testbit z (i - (w - len)))) in E. rewrite !Z.shiftr_spec in E by lia.
    by replace (i - (w - len) + (w - len)) with i in E by lia.
Qed.

Lemma v4_in_prefix_spec a net len :
  0 <= len <= 32 → 0 <= a < 2 ^ 32 → 0 <= net < 2 ^ 32 →
  v4_in_prefix a net len = (len =? 0) || same_prefix (32 - len) a net.
Proof. apply mask_same_prefix. Qed.
Lemma v6_in_prefix_spec a net len :
  0 <= len <= 128 → 0 <= a < 2 ^ 128 → 0 <= net < 2 ^ 128 →
  v6_in_prefix a net len = (len =? 0) || same_prefix (128 - len) a net.
Proof. apply mask_same_prefix. Qed.

(** A longer prefix lies inside a shorter one. *)
Lemma same_prefix_shorter k k' a b :
  0 <= k <= k' → same_prefix k a b = true → same_prefix k' a b = true.
Proof.
  intros Hk. rewrite !same_prefix_spec by lia. intros E.
  replace k' with (k + (k' - k)) by lia. rewrite <- !Z.shiftr_shiftr by lia. by rewrite E.
Qed.

Lemma same_prefix_trans k a b c :
  0 <= k → same_prefix k a b = true → same_prefix k b c = same_prefix k a c.
Proof.
  intros Hk Hab. apply eq_true_iff_eq. rewrite same_prefix_spec in Hab by done.
  rewrite !same_prefix_spec by done. by rewrite Hab.
Qed.

(** ** Segments as prefixes *)

Lemma segment_range a i : 0 <= segment a i < 2 ^ 16.
Proof.
  unfold segment. change 0xffff with (Z.ones 16). rewrite Z.land_ones by lia.
  apply Z.mod_pos_bound. lia.
Qed.

(** The bits of an embedded IPv4 address. *)
Lemma embedded_v4_arith hi lo :
  0 <= hi < 2 ^ 16 → 0 <= lo < 2 ^ 16 → embedded_v4 hi lo = hi * 2 ^ 16 + lo.
Proof.
  intros Hh Hl. unfold embedded_v4, ipv4_new. change 0xff with (Z.ones 8).
  rewrite !Z.land_ones, !Z.shiftr_div_pow2 by lia.
  assert (Eh := Z.div_mod hi (2 ^ 8) ltac:(lia)). assert (El := Z.div_mod lo (2 ^ 8) ltac:(lia)).
  lia.
Qed.

Lemma segment_arith a i : 0 <= i <= 7 → segment a i = a / 2 ^ (112 - 16 * i) mod 2 ^ 16.
Proof.
  intros Hi. unfold segment. change 0xffff with (Z.ones 16).
  by rewrite Z.land_ones, Z.shiftr_div_pow2 by lia.
Qed.

(** Each group extends the prefix before it. *)
Lemma prefix_step a i :
  0 <= a < 2 ^ 128 → 1 <= i <= 7 →
  a / 2 ^ (112 - 16 * i) = a / 2 ^ (112 - 16 * (i - 1)) * 2 ^ 16 + segment a i.
Proof.
  intros Ha Hi. rewrite segment_arith by lia.
  replace (2 ^ (112 - 16 * (i - 1))) with (2 ^ (112 - 16 * i) * 2 ^ 16)
    by (rewrite <- Z.pow_add_r by lia; f_equal; lia).
  rewrite <- Z.div_div by (try apply Z.pow_nonzero; lia).
  assert (E := Z.div_mod (a / 2 ^ (112 - 16 * i)) (2 ^ 16) ltac:(lia)). lia.
Qed.

Lemma prefix_first a : 0 <= a < 2 ^ 128 → a / 2 ^ 112 = segment a 0.
Proof.
  intros Ha. rewrite segment_arith by lia. change (112 - 16 * 0) with 112.
  symmetry. apply Z.mod_small. split; [apply Z.div_pos; lia|]. apply Z.div_lt_upper_bound; lia.
Qed.

(** The leading groups, as one number. *)
Lemma groups a :
  0 <= a < 2 ^ 128 →
  a / 2 ^ 96 = segment a 0 * 2 ^ 16 + segment a 1
  ∧ a / 2 ^ 80 = (segment a 0 * 2 ^ 16 + segment a 1) * 2 ^ 16 + segment a 2
  ∧ a / 2 ^ 32 = ((((segment a 0 * 2 ^ 16 + segment a 1) * 2 ^ 16 + segment a 2) * 2 ^ 16
                   + segment a 3) * 2 ^ 16 + segment a 4) * 2 ^ 16 + segment a 5
  ∧ a = a / 2 ^ 32 * 2 ^ 32 + (segment a 6 * 2 ^ 16 + segment a 7).
Proof.
  intros Ha. assert (H0 := prefix_first a Ha).
  assert (H1 := prefix_step a 1 Ha ltac:(lia)). assert (H2 := prefix_step a 2 Ha ltac:(lia)).
  assert (H3 := prefix_step a 3 Ha ltac:(lia)). assert (H4 := prefix_step a 4 Ha ltac:(lia)).
  assert (H5 := prefix_step a 5 Ha ltac:(lia)). assert (H6 := prefix_step a 6 Ha ltac:(lia)).
  assert (H7 := prefix_step a 7 Ha ltac:(lia)).
  change (112 - 16 * (1 - 1)) with 112 in H1. change (112 - 16 * 1) with 96 in H1.
  change (112 - 16 * (2 - 1)) with 96 in H2. change (112 - 16 * 2) with 80 in H2.
  change (112 - 16 * (3 - 1)) with 80 in H3. change (112 - 16 * 3) with 64 in H3.
  change (112 - 16 * (4 - 1)) with 64 in H4. change (112 - 16 * 4) with 48 in H4.
  change (112 - 16 * (5 - 1)) with 48 in H5. change (112 - 16 * 5) with 32 in H5.
  change (112 - 16 * (6 - 1)) with 32 in H6. change (112 - 16 * 6) with 16 in H6.
  change (112 - 16 * (7 - 1)) with 16 in H7. change (112 - 16 * 7) with 0 in H7.
  rewrite Z.pow_0_r, Z.div_1_r in H7. rewrite H0 in H1. rewrite H1 in H2. rewrite H2 in H3.
  rewrite H3 in H4. rewrite H4 in H5. split_and!; [done|done|done|]. rewrite H6 in H7. lia.
Qed.

Lemma same_prefix_div k a b : 0 <= k → same_prefix k a b = (a / 2 ^ k =? b / 2 ^ k).
Proof.
  intros Hk. apply eq_true_iff_eq. rewrite same_prefix_spec, Z.eqb_eq by done.
  by rewrite !Z.shiftr_div_pow2.
Qed.

(** The decoded forms are prefixes, and what they embed is a slice of the address. *)
Lemma nat64_prefix a :
  0 <= a < 2 ^ 128 →
  (segment a 0 =? 0x0064) && (segment a 1 =? 0xff9b) = in6 a [0x64; 0xff9b; 0; 0; 0; 0; 0; 0] 32.
Proof.
  intros Ha. unfold in6. cbn [orb Z.eqb]. change (_ =? 0) with (same_prefix (128 - 32) a
    (be_int 16 [0x64; 0xff9b; 0; 0; 0; 0; 0; 0])). rewrite same_prefix_div by lia.
  change (128 - 32) with 96. destruct (groups a Ha) as (-> & _).
  change (be_int 16 [0x64; 0xff9b; 0; 0; 0; 0; 0; 0] / 2 ^ 96) with (0x64 * 2 ^ 16 + 0xff9b).
  assert (H0 := segment_range a 0). assert (H1 := segment_range a 1).
  apply eq_true_iff_eq. rewrite andb_true_iff, !Z.eqb_eq. lia.
Qed.

Lemma sixtofour_prefix a :
  0 <= a < 2 ^ 128 → (segment a 0 =? 0x2002) = in6 a [0x2002; 0; 0; 0; 0; 0; 0; 0] 16.
Proof.
  intros Ha. unfold in6. cbn [orb Z.eqb]. change (_ =? 0) with (same_prefix (128 - 16) a
    (be_int 16 [0x2002; 0; 0; 0; 0; 0; 0; 0])). rewrite same_prefix_div by lia.
  change (128 - 16) with 112. by rewrite prefix_first.
Qed.

Lemma mapped_prefix a :
  0 <= a < 2 ^ 128 →
  zero_segments a [0; 1; 2; 3; 4] && (segment a 5 =? 0xffff) = in6 a [0; 0; 0; 0; 0; 0xffff; 0; 0] 96.
Proof.
  intros Ha. unfold in6. cbn [orb Z.eqb]. change (_ =? 0) with (same_prefix (128 - 96) a
    (be_int 16 [0; 0; 0; 0; 0; 0xffff; 0; 0])). rewrite same_prefix_div by lia.
  change (128 - 96) with 32. destruct (groups a Ha) as (_ & _ & -> & _).
  change (be_int 16 [0; 0; 0; 0; 0; 0xffff; 0; 0] / 2 ^ 32) with 0xffff.
  unfold zero_segments. cbn [forallb].
  assert (H0 := segment_range a 0). assert (H1 := segment_range a 1). assert (H2 := segment_range a 2).
  assert (H3 := segment_range a 3). assert (H4 := segment_range a 4). assert (H5 := segment_range a 5).
  apply eq_true_iff_eq. rewrite !andb_true_iff, !Z.eqb_eq. lia.
Qed.

Lemma low_embedded a :
  0 <= a < 2 ^ 128 → embedded_v4 (segment a 6) (segment a 7) = as_u32 a.
Proof.
  intros Ha. assert (H6 := segment_range a 6). assert (H7 := segment_range a 7).
  rewrite embedded_v4_arith by done. unfold as_u32. change (2 ^ 32 - 1) with (Z.ones 32).
  rewrite Z.land_ones by lia. destruct (groups a Ha) as (_ & _ & _ & E).
  apply (Z.mod_unique_pos _ _ (a / 2 ^ 32)); lia.
Qed.

Lemma high_embedded a :
  0 <= a < 2 ^ 128 → embedded_v4 (segment a 1) (segment a 2) = as_u32 (Z.shiftr a 80).
Proof.
  intros Ha. assert (H1 := segment_range a 1). assert (H2 := segment_range a 2).
  rewrite embedded_v4_arith by done. unfold as_u32. change (2 ^ 32 - 1) with (Z.ones 32).
  rewrite Z.land_ones, Z.shiftr_div_pow2 by lia. destruct (groups a Ha) as (_ & -> & _).
  replace ((segment a 0 * 2 ^ 16 + segment a 1) * 2 ^ 16 + segment a 2)
    with (segment a 1 * 2 ^ 16 + segment a 2 + segment a 0 * 2 ^ 32) by lia.
  rewrite Z_mod_plus_full. symmetry. apply Z.mod_small. lia.
Qed.

Lemma as_u32_range a : 0 <= as_u32 a < 2 ^ 32.
Proof.
  unfold as_u32. change (2 ^ 32 - 1) with (Z.ones 32). rewrite Z.land_ones by lia.
  apply Z.mod_pos_bound. lia.
Qed.

(** ** The classifier is the specification *)

(** The address is in the range [net/len]. *)
Definition hit (w a : Z) (e : Z * Z) : bool := (e.2 =? 0) || same_prefix (w - e.2) a e.1.

Definition in_range (w : Z) (e : Z * Z) : bool :=
  (0 <=? e.2) && (e.2 <=? w) && (0 <=? e.1) && (e.1 <? 2 ^ w).

(** A table of masks is the table of the same prefixes. *)
Lemma table_hits (test : Z → Z → Z → bool) w a (t : list (Z * Z)) :
  (∀ net len, 0 <= len <= w → 0 <= net < 2 ^ w → test a net len = hit w a (net, len)) →
  forallb (in_range w) t = true →
  existsb (λ e : Z * Z, test a e.1 e.2) t = existsb (hit w a) t.
Proof.
  intros Ht. induction t as [|[net len] t IH]; [done|]. cbn [existsb forallb fst snd].
  rewrite andb_true_iff. intros [H1 H2]. rewrite IH by done. f_equal.
  unfold in_range in H1. cbn in H1. rewrite !andb_true_iff in H1. apply Ht; lia.
Qed.

(** The specification's tables, packed. *)
Definition pack (bits : Z) (t : list (list Z * Z)) : list (Z * Z) := (λ e, (be_int bits e.1, e.2)) <$> t.

Lemma pack_hits w bits (test : Z → list Z → Z → bool) a t :
  (∀ o len, test a o len = hit w a (be_int bits o, len)) →
  existsb (λ e : list Z * Z, test a e.1 e.2) t = existsb (hit w a) (pack bits t).
Proof. intros Ht. induction t as [|[o len] t IH]; [done|]. cbn. by rewrite IH, Ht. Qed.

Lemma v4_classifier a : 0 <= a < 2 ^ 32 → ipv4_is_special_purpose a = spec_v4 a.
Proof.
  intros Ha. unfold ipv4_is_special_purpose.
  rewrite (table_hits _ 32) by (try (intros; by apply v4_in_prefix_spec); done).
  unfold spec_v4. rewrite !(pack_hits 32 8 in4) by done. rewrite <- existsb_app.
  apply existsb_Permutation. apply (bool_decide_unpack _). vm_compute. exact I.
Qed.

(** A range inside another one adds nothing to the table. *)
Lemma hit_inside w a n l n' l' :
  0 < l' <= l → l <= w → same_prefix (w - l') n n' = true →
  hit w a (n, l) = true → hit w a (n', l') = true.
Proof.
  intros Hl Hw Hn. unfold hit. cbn [fst snd]. rewrite (proj2 (Z.eqb_neq l 0)), (proj2 (Z.eqb_neq l' 0)) by lia.
  cbn [orb]. intros H. apply (same_prefix_shorter _ (w - l')) in H; [|lia].
  rewrite <- (same_prefix_trans _ a n n') by (done || lia). exact Hn.
Qed.

(** Distinct prefixes of the decoded forms exclude each other. *)
Lemma hit_disjoint w a n l n' l' :
  0 < l' <= l → l <= w → same_prefix (w - l') n n' = false →
  hit w a (n, l) = true → hit w a (n', l') = false.
Proof.
  intros Hl Hw Hn. unfold hit. cbn [fst snd]. rewrite (proj2 (Z.eqb_neq l 0)), (proj2 (Z.eqb_neq l' 0)) by lia.
  cbn [orb]. intros H. apply (same_prefix_shorter _ (w - l')) in H; [|lia].
  rewrite <- (same_prefix_trans _ a n n') by (done || lia). exact Hn.
Qed.

(** The blocked IPv6 ranges are those of the registry and the policy rows, the outright
    rules of the specification included. *)
Lemma v6_table a :
  0 <= a < 2 ^ 128 →
  ipv6_is_special_purpose a
  = existsb (λ e : list Z * Z, in6 a e.1 e.2) REGISTRY_V6
    || existsb (λ e : list Z * Z, in6 a e.1 e.2) POLICY_V6
    || (in6 a [0x2001; 0; 0; 0; 0; 0; 0; 0] 32 || in6 a [0x64; 0xff9b; 1; 0; 0; 0; 0; 0] 48).
Proof.
  intros Ha. unfold ipv6_is_special_purpose.
  rewrite (table_hits _ 128) by (try (intros; by apply v6_in_prefix_spec); done).
  rewrite !(pack_hits 128 16 in6) by done.
  set (teredo := in6 a _ 32). set (local := in6 a _ 48).
  assert (Ht : teredo = true → hit 128 a (0x20010000000000000000000000000000, 23) = true).
  { apply (hit_inside 128 a 0x20010000000000000000000000000000 32); [lia|lia|reflexivity]. }
  assert (H1 : hit 128 a (1, 128) = true → hit 128 a (0, 96) = true).
  { apply hit_inside; [lia|lia|reflexivity]. }
  assert (H0 : hit 128 a (0, 128) = true → hit 128 a (0, 96) = true).
  { apply hit_inside; [lia|lia|reflexivity]. }
  change local with (hit 128 a (0x0064ff9b000100000000000000000000, 48)). clearbody teredo. clear local.
  change (pack 16 REGISTRY_V6) with [ (1, 128); (0, 128);
    (0x0064ff9b000100000000000000000000, 48); (0x01000000000000000000000000000000, 64);
    (0x01000000000000010000000000000000, 64); (0x20010000000000000000000000000000, 23);
    (0x20010db8000000000000000000000000, 32); (0x3fff0000000000000000000000000000, 20);
    (0x5f000000000000000000000000000000, 16); (0xfc000000000000000000000000000000, 7);
    (0xfe800000000000000000000000000000, 10) ].
  change (pack 16 POLICY_V6) with [ (0, 96); (0xfec00000000000000000000000000000, 10);
    (0xff000000000000000000000000000000, 8) ].
  unfold IPV6_BLOCKED. cbn [existsb]. revert Ht H1 H0. clear Ha.
  generalize (hit 128 a (0, 128)) (hit 128 a (1, 128)) (hit 128 a (0, 96))
    (hit 128 a (0x20010000000000000000000000000000, 23)). intros b1 b2 b3 b4 H1 H2 H3.
  destruct b3; [by rewrite ?orb_true_r|]. destruct b2; [by specialize (H2 eq_refl)|].
  destruct b1; [by specialize (H3 eq_refl)|].
  destruct b4; [by rewrite ?orb_true_r|]. destruct teredo; [by specialize (H1 eq_refl)|].
  clear. cbn [orb]. rewrite ?orb_false_r. 
  repeat match goal with |- context [hit 128 a ?e] => destruct (hit 128 a e) end; reflexivity.
Qed.

Lemma mapped_private a :
  0 <= a < 2 ^ 128 →
  is_ipv4_mapped_private a = in6 a [0; 0; 0; 0; 0; 0xffff; 0; 0] 96 && spec_v4 (as_u32 a).
Proof.
  intros Ha. unfold is_ipv4_mapped_private, to_ipv4_mapped. rewrite (mapped_prefix a Ha).
  destruct (in6 _ _ _); cbn [andb]; [|done].
  by rewrite low_embedded, v4_classifier by (done || apply as_u32_range).
Qed.

(** C27: On every IPv4 and IPv6 address the guard's classifier equals the independent
    specification written from the IANA registries: the masked table lookups are the
    registry and policy rows, and an IPv6 address that carries an IPv4 address
    (mapped, NAT64, 6to4) is blocked exactly when that one is. *)
Theorem classifier_equals_specification ip : valid_ip ip → is_private_ip ip = spec_ip ip.
Proof.
  destruct ip as [a|a]; intros Ha; [by apply v4_classifier|]. cbn [valid_ip] in Ha.
  unfold is_private_ip, spec_ip, spec_v6.
  rewrite (v6_table a Ha), (mapped_private a Ha), (nat64_prefix a Ha), (sixtofour_prefix a Ha).
  rewrite (low_embedded a Ha), (high_embedded a Ha), !v4_classifier by apply as_u32_range.
  destruct (existsb _ REGISTRY_V6); [done|]. destruct (existsb _ POLICY_V6); [done|]. cbn [orb].
  destruct (in6 a _ 32 || in6 a _ 48) in |- * at 1 2; [done|]. cbn [orb].
  assert (Hd : ∀ n l n' l', 0 < l' <= l → l <= 128 → same_prefix (128 - l') n n' = false →
            hit 128 a (n, l) = true → hit 128 a (n', l') = false) by (intros; by eapply hit_disjoint).
  assert (D1 : in6 a [0; 0; 0; 0; 0; 0xffff; 0; 0] 96 = true →
               in6 a [0x64; 0xff9b; 0; 0; 0; 0; 0; 0] 32 = false).
  { apply (Hd (be_int 16 [0; 0; 0; 0; 0; 0xffff; 0; 0]) 96); [lia|lia|reflexivity]. }
  assert (D2 : in6 a [0; 0; 0; 0; 0; 0xffff; 0; 0] 96 = true →
               in6 a [0x2002; 0; 0; 0; 0; 0; 0; 0] 16 = false).
  { apply (Hd (be_int 16 [0; 0; 0; 0; 0; 0xffff; 0; 0]) 96); [lia|lia|reflexivity]. }
  assert (D3 : in6 a [0x64; 0xff9b; 0; 0; 0; 0; 0; 0] 32 = true →
               in6 a [0x2002; 0; 0; 0; 0; 0; 0; 0] 16 = false).
  { apply (Hd (be_int 16 [0x64; 0xff9b; 0; 0; 0; 0; 0; 0]) 32); [lia|lia|reflexivity]. }
  destruct (in6 a [0; 0; 0; 0; 0; 0xffff; 0; 0] 96).
  { rewrite D1, D2 by done. cbn [andb orb]. by rewrite !orb_false_r. }
  destruct (in6 a [0x64; 0xff9b; 0; 0; 0; 0; 0; 0] 32).
  { rewrite D3 by done. cbn [andb orb]. by rewrite !orb_false_r. }
  cbn [andb orb]. by destruct (in6 a [0x2002; 0; 0; 0; 0; 0; 0; 0] 16).
Qed.

(** A metadata or link-local address, in any spelling the metadata check decodes, is
    refused by the classifier as well. *)
Lemma metadata_v4_private a : 0 <= a < 2 ^ 32 → metadata_v4 a = true → ipv4_is_special_purpose a = true.
Proof.
  intros Ha Hm. unfold ipv4_is_special_purpose. apply existsb_exists.
  exists (0xA9FE0000, 16). split; [|exact Hm]. cbn. tauto.
Qed.

Lemma unique_local_metadata a :
  0 <= a < 2 ^ 128 → v6_in_prefix a 0xfd000ec2000000000000000000000254 128 = true →
  v6_in_prefix a 0xfc000000000000000000000000000000 7 = true.
Proof.
  intros Ha. rewrite !v6_in_prefix_spec by lia.
  apply (hit_inside 128 a 0xfd000ec2000000000000000000000254 128); [lia|lia|reflexivity].
Qed.

Lemma compatible_blocked a :
  0 <= a < 2 ^ 128 → zero_segments a [0; 1; 2; 3; 4] = true → segment a 5 = 0 →
  v6_in_prefix a 0 96 = true.
Proof.
  intros Ha Hz H5. rewrite v6_in_prefix_spec by lia. cbn [orb Z.eqb].
  rewrite same_prefix_div by lia. change (128 - 96) with 32. destruct (groups a Ha) as (_ & _ & -> & _).
  unfold zero_segments in Hz. cbn [forallb] in Hz. rewrite !andb_true_iff, !Z.eqb_eq in Hz.
  destruct Hz as (-> & -> & -> & -> & -> & _). by rewrite H5.
Qed.

(** Whatever the configuration-time check calls a link-local or metadata address is
    refused by the request-time classifier too: the narrower check never allows what
    the broader one is relied on to stop. *)
Theorem metadata_is_private ip :
  valid_ip ip → is_link_local_or_metadata_ip ip = true → is_private_ip ip = true.
Proof.
  destruct ip as [a|a]; intros Ha; cbn [valid_ip] in Ha; [by apply metadata_v4_private|].
  unfold is_link_local_or_metadata_ip, is_private_ip. rewrite !orb_true_iff, !andb_true_iff.
  assert (Hin : ∀ e, e ∈ IPV6_BLOCKED → v6_in_prefix a e.1 e.2 = true → ipv6_is_special_purpose a = true).
  { intros e He Hp. apply existsb_elem_of. eauto. }
  assert (Hemb : ∀ i j, metadata_v4 (embedded_v4 (segment a i) (segment a j)) = true →
    ipv4_is_special_purpose (embedded_v4 (segment a i) (segment a j)) = true).
  { intros i j. apply metadata_v4_private. assert (H1 := segment_range a i).
    assert (H2 := segment_range a j). rewrite embedded_v4_arith by done. lia. }
  intros [[[[H|H]|H]|[[[H1 H2] _] H]]|[H1 H]].
  - left. left. left. apply (Hin (0xfe800000000000000000000000000000, 10)); [|done].
    apply (bool_decide_unpack _). by vm_compute.
  - left. left. left. apply (Hin (0xfc000000000000000000000000000000, 7)).
    + apply (bool_decide_unpack _). by vm_compute.
    + by apply unique_local_metadata.
  - unfold to_ipv4 in H. destruct (zero_segments a [0; 1; 2; 3; 4]) eqn:Hz; cbn [andb] in H; [|done].
    destruct (Z.eqb_spec (segment a 5) 0xffff) as [H5|_]; cbn [orb] in H.
    + left. left. right. unfold is_ipv4_mapped_private, to_ipv4_mapped. rewrite Hz, H5. cbn. by apply Hemb.
    + destruct (Z.eqb_spec (segment a 5) 0) as [H5|_]; [|done]. left. left. left.
      apply (Hin (0, 96)); [apply (bool_decide_unpack _); by vm_compute|]. by apply compatible_blocked.
  - left. right. auto.
  - right. auto.
Qed.

(** ** Connect-time and request-time checks *)

(** [SocketAddr]. *)
Definition SocketAddr : Type := IpAddr * Z.

(** [filter_public_addrs], the filter of [SsrfGuardResolver]; [None] is the refusal. *)
Definition is_public (a : SocketAddr) : bool := negb (is_private_ip a.1).
Definition filter_public_addrs (addrs : list SocketAddr) : option (list SocketAddr) :=
  match List.filter is_public addrs with
  | [] => None
  | public => Some public
  end.

(** The parts of the [url] crate, of address parsing and of name resolution that the
    URL checks use; [resolve] is [to_socket_addrs], [None] on failure. *)
Class NetStd {UC : UrlCrate} := {
  url_scheme : Url → string;
  url_port_or_known_default : Url → option Z;
  parse_ip : string → option IpAddr;
  resolve : string → Z → option (list SocketAddr);
}.

(** The refusals of the URL checks. *)
Inductive UrlRefusal :=
| UR_Invalid | UR_Scheme (scheme : string) | UR_NoHost | UR_PrivateLiteral | UR_PrivateHost
| UR_Unresolved | UR_PlainHttp | UR_NotHttps.

Section urls.
Context {UC : UrlCrate} {NS : NetStd}.

(** [proxy_needs_resolution]; [proxied] is [upstream_proxy_configured()]. *)
Definition proxy_needs_resolution (proxied resolved_any : bool) : result unit UrlRefusal :=
  if proxied && negb resolved_any then Err UR_Unresolved else Ok tt.

(** The checks that both URL validators share: the literal, then every resolved
    address. *)
Definition check_destination (proxied : bool) (default_port : Z) (url : Url) : result unit UrlRefusal :=
  match url_host_str url with
  | None => Err UR_NoHost
  | Some host =>
      let? _ := match parse_ip host with
                | Some ip => if is_private_ip ip then Err UR_PrivateLiteral else Ok tt
                | None => Ok tt
                end in
      match resolve host (default default_port (url_port_or_known_default url)) with
      | Some addrs =>
          if existsb (λ a : SocketAddr, is_private_ip a.1) addrs then Err UR_PrivateHost
          else proxy_needs_resolution proxied (match addrs with [] => false | _ => true end)
      | None => proxy_needs_resolution proxied false
      end
  end.

(** [HttpPlugin::validate_url_ssrf]. *)
Definition validate_url_ssrf (proxied : bool) (s : string) : result Url UrlRefusal :=
  match url_parse s with
  | None => Err UR_Invalid
  | Some url =>
      if negb (String.eqb (url_scheme url) "http" || String.eqb (url_scheme url) "https")
      then Err (UR_Scheme (url_scheme url))
      else
        let? _ := check_destination proxied 80 url in
        if String.eqb (url_scheme url) "http" then Err UR_PlainHttp else Ok url
  end.

(** [HttpPlugin::validate_token_url_ssrf]. *)
Definition validate_token_url_ssrf (proxied : bool) (s : string) : result Url UrlRefusal :=
  match url_parse s with
  | None => Err UR_Invalid
  | Some url =>
      if negb (String.eqb (url_scheme url) "https") then Err UR_NotHttps
      else let? _ := check_destination proxied 443 url in Ok url
  end.

Lemma check_destination_ok proxied port url :
  check_destination proxied port url = Ok tt →
  ∃ host, url_host_str url = Some host
    ∧ (∀ ip, parse_ip host = Some ip → is_private_ip ip = false)
    ∧ (∀ addrs a, resolve host (default port (url_port_or_known_default url)) = Some addrs →
         a ∈ addrs → is_private_ip a.1 = false)
    ∧ (proxied = true → ∃ a addrs,
         resolve host (default port (url_port_or_known_default url)) = Some (a :: addrs)).
Proof.
  unfold check_destination. destruct (url_host_str url) as [host|]; [|done].
  intros H. exists host. split; [done|]. revert H.
  assert (Hip : ∀ r : result unit UrlRefusal,
    (let? _ := match parse_ip host with
               | Some ip => if is_private_ip ip then Err UR_PrivateLiteral else Ok tt
               | None => Ok tt end in r) = Ok tt →
    (∀ ip, parse_ip host = Some ip → is_private_ip ip = false) ∧ r = Ok tt).
  { intros r. destruct (parse_ip host) as [ip|]; [|by split].
    destruct (is_private_ip ip) eqn:E; [done|]. intros Hr. split; [by intros ? [= <-]|exact Hr]. }
  intros [H1 H2]%Hip. split; [exact H1|]. unfold proxy_needs_resolution in H2.
  destruct (resolve host _) as [addrs|] eqn:Er.
  - destruct (existsb _ addrs) eqn:Ee; [done|]. split.
    + intros addrs' a [= <-] Ha. apply (proj1 (existsb_false_elem_of _ _) Ee a Ha).
    + intros ->. destruct addrs as [|a addrs]; [done|]. eauto.
  - split; [done|]. intros ->. done.
Qed.

(** A URL that either validator accepts uses https, names a host, and no address it
    is spelled as or resolves to at that moment is private; behind an upstream proxy
    the host did resolve. *)
Theorem accepted_url_is_public proxied s url port :
  validate_url_ssrf proxied s = Ok url ∧ port = 80
    ∨ validate_token_url_ssrf proxied s = Ok url ∧ port = 443 →
  url_parse s = Some url ∧ url_scheme url = "https"
  ∧ ∃ host, url_host_str url = Some host
    ∧ (∀ ip, parse_ip host = Some ip → is_private_ip ip = false)
    ∧ (∀ addrs a, resolve host (default port (url_port_or_known_default url)) = Some addrs →
         a ∈ addrs → is_private_ip a.1 = false)
    ∧ (proxied = true → ∃ a addrs,
         resolve host (default port (url_port_or_known_default url)) = Some (a :: addrs)).
Proof.
  intros [[H ->]|[H ->]]; unfold validate_url_ssrf, validate_token_url_ssrf in H;
    destruct (url_parse s) as [u|]; try done.
  - destruct (String.eqb_spec (url_scheme u) "http") as [Eh|Eh];
      destruct (String.eqb_spec (url_scheme u) "https") as [Es|Es]; cbn [orb negb] in H; try done;
      destruct (check_destination proxied 80 u) as [[]|] eqn:E; cbn [result_bind] in H; try done.
    injection H as <-. split_and!; [done|done|by apply check_destination_ok].
  - destruct (String.eqb_spec (url_scheme u) "https") as [Es|Es]; cbn [negb] in H; [|done].
    destruct (check_destination proxied 443 u) as [[]|] eqn:E; cbn [result_bind] in H; [|done].
    injection H as <-. split_and!; [done|done|by apply check_destination_ok].
Qed.
End urls.

(** The connect-time filter hands the client only public addresses, all of those the
    resolver gave, in order, and refuses when none is left: a name that was public
    when checked and private when connected reaches no private address. *)
Theorem resolver_connects_only_to_public addrs :
  match filter_public_addrs addrs with
  | Some l => l ≠ [] ∧ l `sublist_of` addrs
              ∧ ∀ a, a ∈ l ↔ a ∈ addrs ∧ is_private_ip a.1 = false
  | None => ∀ a, a ∈ addrs → is_private_ip a.1 = true
  end.
Proof.
  unfold filter_public_addrs.
  assert (Hin : ∀ a, a ∈ List.filter is_public addrs
                ↔ a ∈ addrs ∧ is_private_ip a.1 = false).
  { intros a. rewrite elem_of_filter_bool. unfold is_public. by rewrite negb_true_iff. }
  assert (Hsub : List.filter is_public addrs `sublist_of` addrs).
  { clear. induction addrs as [|a l IH]; cbn; [done|]. destruct (is_public a); by constructor. }
  destruct (List.filter is_public addrs) as [|b l].
  - intros a Ha. destruct (is_private_ip a.1) eqn:E; [done|].
    exfalso. apply (not_elem_of_nil a). by apply Hin.
  - done.
Qed.
