(* ===== verification/Credential.v ===== *)
(** * Credentials

    Models the credential types of [src/src/lib.rs]: [CredentialData] (with the
    [CredentialType] that [Approval] declares),
    [Credential], the shape check a stored credential must pass, the secrets it
    declares for egress redaction ([secret_material]) and the format contracts of
    operator-owned metadata and of secrets placed in a URL.

    [Secret] is its exposed text; the restriction of its serialization to the vault and
    the zeroizing of copies have no effect on values. *)

From stdpp Require Import base gmap strings list.
From Stdlib Require Import Ascii ZArith Lia.
From S2P Require Import Prelude RustStr Egress Approval.

Open Scope Z_scope.

Definition Secret : Type := string.

#[export] Instance CredentialType_eq_dec : EqDecision CredentialType.
Proof. solve_decision. Defined.

(** [Display for CredentialType]. *)
Definition type_name (t : CredentialType) : string :=
  match t with
  | CT_ApiKey => "api_key" | CT_OAuth2 => "oauth2"
  | CT_GoogleServiceAccount => "google_service_account" | CT_BasicAuth => "basic_auth"
  | CT_PrivateKey => "private_key" | CT_Certificate => "certificate"
  | CT_HmacApiKey => "hmac_api_key" | CT_AwsSigV4 => "aws_sigv4" | CT_EcdsaKey => "ecdsa_key"
  | CT_SshPassword => "ssh_password" | CT_Postgres => "postgres" | CT_UrlToken => "url_token"
  | CT_Custom name => "custom:" +:+ name
  end.

(** [CredentialData]. *)
Inductive CredentialData :=
| CD_ApiKey (key : Secret) (header_name header_prefix : string)
| CD_OAuth2 (client_id : string) (client_secret : Secret) (refresh_token access_token : option Secret)
    (expires_at : option DateTime) (token_url : string) (scopes : list string)
| CD_GoogleServiceAccount (client_email : string) (private_key : Secret) (private_key_id : string)
    (token_uri : string) (scopes : list string) (access_token : option Secret)
    (expires_at : option DateTime)
| CD_BasicAuth (username : string) (password : Secret)
| CD_PrivateKey (key_pem : Secret) (passphrase : option Secret)
| CD_Certificate (cert_pem : string) (key_pem : Secret)
| CD_HmacApiKey (api_key api_secret : Secret) (header_name : string) (recv_window : Z)
| CD_AwsSigV4 (access_key_id : string) (secret_access_key : Secret) (session_token : option Secret)
    (region service : string)
| CD_EcdsaKey (private_key : Secret) (api_address : option string) (testnet : bool)
| CD_SshPassword (host : string) (port : Z) (user : string) (password : Secret)
| CD_Postgres (host : string) (port : Z) (database user : string) (password : Secret) (sslmode : string)
| CD_UrlToken (token : Secret)
| CD_Custom (values : gmap string Secret).

(** The serde defaults of the fields that have one. *)
Definition default_auth_header : string := "Authorization".
Definition default_bearer_prefix : string := "Bearer ".
Definition default_hmac_header : string := "X-MBX-APIKEY".
Definition default_recv_window : Z := 5000.
Definition default_bedrock_service : string := "bedrock-runtime".
Definition default_ssh_port : Z := 22.
Definition default_postgres_port : Z := 5432.
Definition default_postgres_sslmode : string := "prefer".

(** [CredentialData::credential_type]. *)
Definition data_type (d : CredentialData) : CredentialType :=
  match d with
  | CD_ApiKey _ _ _ => CT_ApiKey
  | CD_OAuth2 _ _ _ _ _ _ _ => CT_OAuth2
  | CD_GoogleServiceAccount _ _ _ _ _ _ _ => CT_GoogleServiceAccount
  | CD_BasicAuth _ _ => CT_BasicAuth
  | CD_PrivateKey _ _ => CT_PrivateKey
  | CD_Certificate _ _ => CT_Certificate
  | CD_HmacApiKey _ _ _ _ => CT_HmacApiKey
  | CD_AwsSigV4 _ _ _ _ _ => CT_AwsSigV4
  | CD_EcdsaKey _ _ _ => CT_EcdsaKey
  | CD_SshPassword _ _ _ _ => CT_SshPassword
  | CD_Postgres _ _ _ _ _ _ => CT_Postgres
  | CD_UrlToken _ => CT_UrlToken
  | CD_Custom _ => CT_Custom "custom"
  end.

(** The closures of [CredentialData::validate_vault_shape]. *)
Definition secret_ok (s : Secret) : bool := negb (is_empty s).
Definition text_ok (s : string) : bool := negb (is_empty (trim s)).
Definition optional_secret_ok (o : option Secret) : bool :=
  match o with None => true | Some s => secret_ok s end.

(** [CredentialData::validate_vault_shape]. *)
Definition data_shape_ok (d : CredentialData) : bool :=
  match d with
  | CD_ApiKey key header_name _ => secret_ok key && text_ok header_name
  | CD_OAuth2 client_id client_secret refresh access _ token_url _ =>
      text_ok client_id && secret_ok client_secret && optional_secret_ok refresh
      && optional_secret_ok access && text_ok token_url
  | CD_GoogleServiceAccount email key key_id token_uri scopes access _ =>
      text_ok email && secret_ok key && text_ok key_id && text_ok token_uri
      && negb (bool_decide (scopes = [])) && forallb text_ok scopes && optional_secret_ok access
  | CD_BasicAuth username password => text_ok username && secret_ok password
  | CD_PrivateKey key_pem passphrase => secret_ok key_pem && optional_secret_ok passphrase
  | CD_Certificate cert_pem key_pem => text_ok cert_pem && secret_ok key_pem
  | CD_HmacApiKey key secret header_name _ => secret_ok key && secret_ok secret && text_ok header_name
  | CD_AwsSigV4 key_id secret session region service =>
      text_ok key_id && secret_ok secret && optional_secret_ok session && text_ok region && text_ok service
  | CD_EcdsaKey key _ _ => secret_ok key
  | CD_SshPassword host _ user password => text_ok host && text_ok user && secret_ok password
  | CD_Postgres host _ database user password sslmode =>
      text_ok host && text_ok database && text_ok user && secret_ok password && text_ok sslmode
  | CD_UrlToken token => secret_ok token
  | CD_Custom values =>
      negb (bool_decide (values = ∅))
      && forallb (λ e : string * Secret, text_ok e.1 && secret_ok e.2) (map_to_list values)
  end.

(** [Credential]. *)
Record Credential := {
  cr_id : string;
  cr_alias : string;
  cr_type : CredentialType;
  cr_data : CredentialData;
  cr_metadata : gmap string string;
  cr_created_at : DateTime;
  cr_updated_at : DateTime;
}.

(** [Credential::new] with the drawn id and the clock, and [with_metadata]. *)
Definition new_credential (id : string) (now : DateTime) (alias : string) (d : CredentialData) : Credential :=
  {| cr_id := id; cr_alias := alias; cr_type := data_type d; cr_data := d; cr_metadata := ∅;
     cr_created_at := now; cr_updated_at := now |}.
Definition with_metadata (key value : string) (c : Credential) : Credential :=
  {| cr_id := cr_id c; cr_alias := cr_alias c; cr_type := cr_type c; cr_data := cr_data c;
     cr_metadata := <[key := value]> (cr_metadata c); cr_created_at := cr_created_at c;
     cr_updated_at := cr_updated_at c |}.

(** The reasons of [Credential::validate_vault_shape]. *)
Inductive ShapeError := SH_Blank | SH_Type | SH_Times | SH_Data.

(** [Credential::validate_vault_shape]. *)
Definition type_matches (declared actual : CredentialType) : bool :=
  match declared, actual with
  | CT_Custom _, CT_Custom _ => true
  | _, _ => bool_decide (declared = actual)
  end.
Definition credential_shape (c : Credential) : result unit ShapeError :=
  if is_empty (trim (cr_id c)) || is_empty (trim (cr_alias c)) then Err SH_Blank
  else if negb (type_matches (cr_type c) (data_type (cr_data c))) then Err SH_Type
  else if cr_updated_at c <? cr_created_at c then Err SH_Times
  else if data_shape_ok (cr_data c) then Ok tt else Err SH_Data.

(** ** Metadata owned by the operator *)

Definition ANTHROPIC_WORKSPACE_META : string := "anthropic_workspace_id".
Definition OPENAI_ORGANIZATION_META : string := "openai_organization_id".
Definition OPENAI_PROJECT_META : string := "openai_project_id".

(** [is_prefixed_alnum_id], and the three formats. *)
Definition is_prefixed_alnum_id (id prefix : string) : bool :=
  match strip_prefix prefix id with
  | Some rest => (8 <=? String.length rest)%nat && (String.length rest <=? 64)%nat
                 && str_all is_ascii_alphanumeric rest
  | None => false
  end.
Definition is_valid_anthropic_workspace_id (id : string) : bool := is_prefixed_alnum_id id "wrkspc_".
Definition is_valid_openai_organization_id (id : string) : bool := is_prefixed_alnum_id id "org-".
Definition is_valid_openai_project_id (id : string) : bool := is_prefixed_alnum_id id "proj_".

(** [validate_credential_metadata_entry], through [metadata_format_error]. *)
Definition metadata_entry_ok (key value : string) : bool :=
  if String.eqb key ANTHROPIC_WORKSPACE_META then is_valid_anthropic_workspace_id value
  else if String.eqb key OPENAI_ORGANIZATION_META then is_valid_openai_organization_id value
  else if String.eqb key OPENAI_PROJECT_META then is_valid_openai_project_id value
  else true.

(** ** Secrets in a URL *)

(** [char::is_control] on UTF-8 text: the ASCII controls, and U+0080 to U+009F, which are
    the byte C2 followed by a byte from 80 to 9F. *)
Fixpoint has_control (s : string) : bool :=
  match s with
  | EmptyString => false
  | String a s' =>
      let n := nat_of_ascii a in
      (n <? 32)%nat || (n =? 127)%nat
      || ((n =? 194)%nat && match s' with
                            | String b _ => (128 <=? nat_of_ascii b)%nat && (nat_of_ascii b <? 160)%nat
                            | EmptyString => false
                            end)
      || has_control s'
  end.

(** [url_token_secret_is_path_safe]. *)
Definition path_breaking : list ascii := ["/"; "?"; "#"; "\"; "%"; " "]%char.
Definition url_token_secret_is_path_safe (s : Secret) : bool :=
  negb (is_empty s) && negb (String.eqb s ".") && negb (String.eqb s "..")
  && negb (contains_any (one_of path_breaking) s || has_control s).

(** ** What a credential declares as secret *)

(** [str::lines]: the lines without their terminators; a final empty line is dropped. *)
Definition strip_cr (l : string) : string :=
  match strip_suffix (String "013"%char "") l with Some l' => l' | None => l end.
Definition str_lines (s : string) : list string :=
  let ls := split_char "010"%char s in
  strip_cr <$> match List.rev ls with "" :: init => List.rev init | _ => ls end.

(** The body of a PEM text: its lines without the frame. *)
Definition pem_body (pem : string) : string :=
  join "" (List.filter (λ l, negb (starts_with "-----" l)) (str_lines pem)).

Section material.
Context {EN : Encoders}.

(** [CredentialData::secret_material]. *)
Definition opt_list {A} (o : option A) : list A := match o with Some a => [a] | None => [] end.
Definition secret_material (d : CredentialData) : list string :=
  match d with
  | CD_ApiKey key _ _ => [key]
  | CD_BasicAuth username password =>
      let raw := username +:+ ":" +:+ password in [password; b64_standard raw; raw]
  | CD_OAuth2 client_id client_secret refresh access _ _ _ =>
      let basic := client_id +:+ ":" +:+ client_secret in
      [client_secret; b64_standard basic; basic] ++ opt_list access ++ opt_list refresh
  | CD_GoogleServiceAccount _ pem _ _ _ access _ =>
      [pem] ++ (if is_empty (pem_body pem) then [] else [pem_body pem]) ++ opt_list access
  | CD_HmacApiKey key secret _ _ => [key; secret]
  | CD_AwsSigV4 _ secret session _ _ => secret :: opt_list session
  | CD_EcdsaKey key _ _ => [key]
  | CD_SshPassword _ _ _ password => [password]
  | CD_Postgres _ _ _ _ password _ => [password]
  | CD_UrlToken token => [token]
  | CD_PrivateKey key_pem passphrase => key_pem :: opt_list passphrase
  | CD_Certificate _ key_pem => [key_pem]
  | CD_Custom values => (map_to_list values).*2
  end.

(** Every field of a credential that holds a secret. *)
Definition secrets_of (d : CredentialData) : list Secret :=
  match d with
  | CD_ApiKey key _ _ => [key]
  | CD_OAuth2 _ client_secret refresh access _ _ _ => client_secret :: opt_list refresh ++ opt_list access
  | CD_GoogleServiceAccount _ key _ _ _ access _ => key :: opt_list access
  | CD_BasicAuth _ password => [password]
  | CD_PrivateKey key_pem passphrase => key_pem :: opt_list passphrase
  | CD_Certificate _ key_pem => [key_pem]
  | CD_HmacApiKey key secret _ _ => [key; secret]
  | CD_AwsSigV4 _ secret session _ _ => secret :: opt_list session
  | CD_EcdsaKey key _ _ => [key]
  | CD_SshPassword _ _ _ password => [password]
  | CD_Postgres _ _ _ _ password _ => [password]
  | CD_UrlToken token => [token]
  | CD_Custom values => (map_to_list values).*2
  end.

Lemma opt_list_ok o s : optional_secret_ok o = true → s ∈ opt_list o → s ≠ "".
Proof.
  destruct o as [x|]; cbn; [|by intros _ ?%elem_of_nil].
  intros Hx Hs. apply list_elem_of_singleton in Hs as ->. by destruct x.
Qed.

Lemma secret_ok_ne s : secret_ok s = true → s ≠ "".
Proof. by destruct s. Qed.

(** Every secret field is declared, and a stored credential has no empty one. *)
Lemma secrets_declared d s : s ∈ secrets_of d → s ∈ secret_material d.
Proof.
  destruct d; cbn [secrets_of secret_material]; rewrite ?elem_of_cons, ?elem_of_app, ?elem_of_cons,
    ?elem_of_nil; tauto.
Qed.

Lemma stored_secrets_nonempty d s : data_shape_ok d = true → s ∈ secrets_of d → s ≠ "".
Proof.
  destruct d; cbn [secrets_of data_shape_ok]; rewrite ?andb_true_iff, ?elem_of_cons, ?elem_of_app, ?elem_of_nil;
    intros H Hs; repeat match goal with H : _ ∧ _ |- _ => destruct H end;
    repeat match goal with H : _ ∨ _ |- _ => destruct H end; subst;
    eauto using opt_list_ok, secret_ok_ne; try done.
  apply list_elem_of_fmap in Hs as ([n v] & -> & Hin).
  match goal with H : forallb _ _ = true |- _ => rewrite forallb_elem_of in H; specialize (H _ Hin);
    cbn in H; apply andb_true_iff in H as [_ H]; by apply secret_ok_ne end.
Qed.
End material.
