(* ===== verification/HttpPlugin.v ===== *)
(** * The HTTP plugin

    Models the outbound half of [src/src/plugins/http.rs] and the gateway-owned headers of
    [src/src/plugins/mod.rs]: how caller headers are filtered, how a credential is injected,
    how a URL token is put into the judged URL, how an OAuth2 token is kept fresh, how a
    request is signed for AWS, and how [prepare_request] composes them.  A header map is
    a [gmap] with case-sensitive keys, as the [HashMap] of the code; a request builder is
    what was put into it; a posted token form is part of the result, so that a theorem
    can say where a client secret was sent. *)

From stdpp Require Import base gmap strings list sorting pretty.
From Stdlib Require Import Ascii ZArith Lia.
From S2P Require Import Prelude RustStr UrlCanon Json Egress Ssrf Credential.

Open Scope Z_scope.

Abbreviation Headers := (gmap string string).

(** The errors of the plugin: the reasons of [InvalidParams], and [PluginError]. *)
Inductive ParamsRefusal :=
| PR_Shape | PR_Url (r : UrlRefusal) | PR_Uncanonical | PR_NoPlaceholder | PR_OtherSpelling
| PR_BadUrl | PR_UnsafeSecret | PR_BadAfter | PR_AlteredOrigin | PR_Method | PR_Aws | PR_AwsHost
| PR_Body | PR_Missing (field : string).

Inductive ExecRefusal := EX_Status (code : Z) | EX_TokenJson | EX_NoAccessToken.
Inductive HttpRefusal := HT_Token | HT_Send | HT_Declared | HT_Cap | HT_Chunk.

Inductive PluginError :=
| PE_UnsupportedAction (action : string)
| PE_UnsupportedCredentialType
| PE_InvalidParams (r : ParamsRefusal)
| PE_CredentialConfig (meta : string)
| PE_ExecutionFailed (r : ExecRefusal)
| PE_Http (r : HttpRefusal).

Abbreviation invalid r := (Err (PE_InvalidParams r)).

(** ** Headers *)

(** [HashMap::retain] on the names of a header map. *)
Definition retain_headers (keep : string → bool) (h : Headers) : Headers :=
  filter (λ kv, keep kv.1 = true) h.

(** [remove_header_ci]. *)
Definition remove_header_ci (name : string) (h : Headers) : Headers :=
  retain_headers (λ k, negb (eq_ignore_ascii_case k name)) h.

(** [force_client_managed_encoding]. *)
Definition force_client_managed_encoding (h : Headers) : Headers :=
  retain_headers (λ k, negb (eq_ignore_ascii_case k "accept-encoding")) h.

(** [strip_unsafe_request_headers]. *)
Definition UNSAFE : list string :=
  ["host"; "content-length"; "transfer-encoding"; "connection"; "content-encoding"].
Definition is_unsafe_header (k : string) : bool := existsb (eq_ignore_ascii_case k) UNSAFE.
Definition strip_unsafe_request_headers (h : Headers) : Headers :=
  retain_headers (λ k, negb (is_unsafe_header k)) h.

(** The headers the operator owns, with the metadata key and format of each. *)
Record GatewayOwnedScope := { gs_header : string; gs_meta : string; gs_valid : string → bool }.

Definition ANTHROPIC_WORKSPACE_HEADER : string := "anthropic-workspace-id".
Definition OPENAI_ORGANIZATION_HEADER : string := "openai-organization".
Definition OPENAI_PROJECT_HEADER : string := "openai-project".

Definition GATEWAY_OWNED_SCOPES : list GatewayOwnedScope :=
  [ {| gs_header := ANTHROPIC_WORKSPACE_HEADER; gs_meta := ANTHROPIC_WORKSPACE_META;
       gs_valid := is_valid_anthropic_workspace_id |};
    {| gs_header := OPENAI_ORGANIZATION_HEADER; gs_meta := OPENAI_ORGANIZATION_META;
       gs_valid := is_valid_openai_organization_id |};
    {| gs_header := OPENAI_PROJECT_HEADER; gs_meta := OPENAI_PROJECT_META;
       gs_valid := is_valid_openai_project_id |} ].

(** [is_gateway_owned_header]. *)
Definition is_gateway_owned_header (name : string) : bool :=
  existsb (λ s, eq_ignore_ascii_case name (gs_header s)) GATEWAY_OWNED_SCOPES.

(** The loop of [apply_workspace_scope]. *)
Fixpoint write_scopes (scopes : list GatewayOwnedScope) (metadata : gmap string string) (h : Headers)
    : result Headers PluginError :=
  match scopes with
  | [] => Ok h
  | s :: rest =>
      match metadata !! gs_meta s with
      | Some v => if gs_valid s v then write_scopes rest metadata (<[gs_header s := v]> h)
                  else Err (PE_CredentialConfig (gs_meta s))
      | None => write_scopes rest metadata h
      end
  end.

(** [apply_workspace_scope]. *)
Definition apply_workspace_scope (h : Headers) (metadata : gmap string string)
    : result Headers PluginError :=
  write_scopes GATEWAY_OWNED_SCOPES metadata (retain_headers (λ k, negb (is_gateway_owned_header k)) h).

(** [apply_workspace_scope_to_params]. *)
Definition drop_owned (v : Value) : Value :=
  match v with
  | JObject h => JObject (List.filter (λ kv, negb (is_gateway_owned_header kv.1)) h)
  | _ => v
  end.
Definition apply_workspace_scope_to_params (params : Value) (metadata : gmap string string)
    : result Value PluginError :=
  match params with
  | JObject obj =>
      let obj := (λ kv : string * Value,
                    if String.eqb kv.1 "headers" then (kv.1, drop_owned kv.2) else kv) <$> obj in
      let? ours := apply_workspace_scope ∅ metadata in
      if bool_decide (ours = ∅) then Ok (JObject obj)
      else
        match json_get "headers" (JObject obj) with
        | None =>
            Ok (JObject (obj_insert "headers"
                  (JObject (map_fold (λ k v m, obj_insert k (JString v) m) [] ours)) obj))
        | Some (JObject h) =>
            Ok (JObject (obj_insert "headers"
                  (JObject (map_fold (λ k v m, obj_insert k (JString v) m) h ours)) obj))
        | Some _ => Ok (JObject obj)
        end
  | _ => Ok params
  end.

(** ** What the crates give *)

(** [TokenResponse], and the outcomes of posting a token form. *)
Record TokenResponse := {
  tk_access_token : string;
  tk_expires_in : option Z;
  tk_refresh_token : option string;
}.
Inductive TokenReply := TR_Transport | TR_Status (code : Z) | TR_BadJson | TR_Token (t : TokenResponse).

(** [HttpRequestParams]. *)
Record HttpRequestParams := {
  hp_method : string;
  hp_url : string;
  hp_headers : Headers;
  hp_body : option Value;
  hp_query : gmap string string;
}.

Definition Form : Type := list (string * string).

(** The functions outside the repository: the rest of the [url] crate, the [http] crate's
    methods, HMAC-SHA256, [chrono]'s formats and checked addition, Unicode upper case,
    the derived deserializer of the parameters, and the token endpoint. *)
Class HttpCrates {UC : UrlCrate} := {
  url_query_pairs : Url → list (string * string);
  url_set_pairs : Url → list (string * string) → Url;
  url_host_is_ip : Url → bool;
  method_from_str : string → option string;
  to_uppercase : string → string;
  hmac_bytes : string → string → string;
  format_amz_date : DateTime → string;
  format_date : DateTime → string;
  checked_add_signed : DateTime → Z → option DateTime;
  params_from_value : Value → option HttpRequestParams;
  token_post : Url → Form → TokenReply;
}.

Section plugin.
Context {UC : UrlCrate} {GC : GlobCrate} {UE : UrlEncodingCrate} {NS : NetStd}.
Context {EN : Encoders} {SJ : SerdeJson} {SH : Sha256} {HC : HttpCrates}.

(** [upstream_proxy_from]; the argument is the value of the variable, if set. *)
Inductive ProxyRefusal := PX_NotUrl | PX_Scheme | PX_HostName.
Definition upstream_proxy_from (raw : option string) : result (option Url) ProxyRefusal :=
  match raw with
  | None => Ok None
  | Some v =>
      if is_empty (trim v) then Ok None
      else
        match url_parse (trim v) with
        | None => Err PX_NotUrl
        | Some u =>
            if negb (String.eqb (url_scheme u) "http" || String.eqb (url_scheme u) "https")
               || bool_decide (url_host_str u = None) then Err PX_Scheme
            else if negb (url_host_is_ip u) then Err PX_HostName
            else Ok (Some u)
        end
  end.

(** [upstream_proxy_configured]. *)
Definition upstream_proxy_configured (raw : option string) : bool :=
  match raw with Some v => negb (is_empty (trim v)) | None => false end.

(** ** OAuth2 tokens *)

Definition TOKEN_REFRESH_BUFFER_SECS : Z := 300.

(** [needs_refresh]. *)
Definition needs_refresh (now : DateTime) (expires_at : option DateTime) : bool :=
  match expires_at with
  | Some expires => expires <=? now + seconds TOKEN_REFRESH_BUFFER_SECS
  | None => false
  end.

(** One post to the token endpoint, as both flows do it; the first component is what was
    posted and where. *)
Definition Posts : Type := list (Url * Form).
Definition post_token (proxied : bool) (token_url : string) (form : Form)
    : Posts * result TokenResponse PluginError :=
  match validate_token_url_ssrf proxied token_url with
  | Err r => ([], invalid (PR_Url r))
  | Ok url =>
      ([(url, form)],
       match token_post url form with
       | TR_Transport => Err (PE_Http HT_Token)
       | TR_Status code => Err (PE_ExecutionFailed (EX_Status code))
       | TR_BadJson => Err (PE_ExecutionFailed EX_TokenJson)
       | TR_Token t => Ok t
       end)
  end.

Definition scope_field (scopes : list string) : Form :=
  match scopes with [] => [] | _ => [("scope", join " " scopes)] end.

(** [fetch_client_credentials_token]. *)
Definition fetch_client_credentials_token (proxied : bool) (client_id : string) (client_secret : Secret)
    (token_url : string) (scopes : list string) : Posts * result TokenResponse PluginError :=
  post_token proxied token_url
    ([("grant_type", "client_credentials"); ("client_id", client_id); ("client_secret", client_secret)]
     ++ scope_field scopes).

(** [refresh_access_token]. *)
Definition refresh_access_token (proxied : bool) (client_id : string) (client_secret refresh_token : Secret)
    (token_url : string) (scopes : list string) : Posts * result TokenResponse PluginError :=
  post_token proxied token_url
    ([("grant_type", "refresh_token"); ("refresh_token", refresh_token); ("client_id", client_id);
      ("client_secret", client_secret)] ++ scope_field scopes).

(** The expiry of a new token: [i64::try_from], [Duration::try_seconds] (milliseconds in
    an [i64]) and the checked addition each may give up. *)
Definition new_expires_at (now : DateTime) (expires_in : option Z) : option DateTime :=
  secs ← expires_in;
  if (secs <=? i64_max) && (secs <=? i64_max `div` 1000) then checked_add_signed now (seconds secs) else None.

(** [ensure_valid_token]. *)
Definition ensure_valid_token (proxied : bool) (now : DateTime) (d : CredentialData)
    : Posts * result (string * option CredentialData) PluginError :=
  match d with
  | CD_OAuth2 client_id client_secret refresh_token access_token expires_at token_url scopes =>
      match access_token, needs_refresh now expires_at with
      | Some token, false => ([], Ok (token, None))
      | _, _ =>
          let fetch := fetch_client_credentials_token proxied client_id client_secret token_url scopes in
          let '(posts, reply) :=
            match refresh_token with
            | Some rt =>
                match refresh_access_token proxied client_id client_secret rt token_url scopes with
                | (p, Ok resp) => (p, Ok resp)
                | (p, Err _) => (p ++ fetch.1, fetch.2)
                end
            | None => fetch
            end in
          (posts,
           let? resp := reply in
           Ok (tk_access_token resp,
               Some (CD_OAuth2 client_id client_secret
                       (match tk_refresh_token resp with Some r => Some r | None => refresh_token end)
                       (Some (tk_access_token resp)) (new_expires_at now (tk_expires_in resp))
                       token_url scopes)))
      end
  | _ => ([], Err PE_UnsupportedCredentialType)
  end.

(** ** Credential injection *)

(** [inject_credentials]. *)
Definition inject_credentials (h : Headers) (d : CredentialData) : result Headers PluginError :=
  match d with
  | CD_ApiKey key header_name header_prefix =>
      Ok (<[header_name := header_prefix +:+ key]> (remove_header_ci header_name h))
  | CD_BasicAuth username password =>
      Ok (<["Authorization" := "Basic " +:+ b64_standard (username +:+ ":" +:+ password)]>
            (remove_header_ci "Authorization" h))
  | CD_OAuth2 _ _ _ access_token _ _ _ =>
      match access_token with
      | Some token => Ok (<["Authorization" := "Bearer " +:+ token]> (remove_header_ci "Authorization" h))
      | None => Err (PE_ExecutionFailed EX_NoAccessToken)
      end
  | _ => Err PE_UnsupportedCredentialType
  end.

(** The headers [sign_aws_sigv4] signs, sorted by name. *)
Definition name_le (a b : string * string) : Prop := String.leb a.1 b.1 = true.
#[local] Instance name_le_dec a b : Decision (name_le a b).
Proof. unfold name_le. apply _. Defined.

Definition signed_fields (host amz_date : string) (session_token : option Secret) : list (string * string) :=
  merge_sort name_le ([("host", host); ("x-amz-date", amz_date)]
                      ++ match session_token with Some t => [("x-amz-security-token", t)] | None => [] end).

Definition NL : string := String "010"%char "".

(** [sign_aws_sigv4]. *)
Definition sign_aws_sigv4 (h : Headers) (method : string) (url : Url) (body : string)
    (access_key_id secret_access_key : string) (session_token : option Secret)
    (region service : string) (now : DateTime) : result Headers PluginError :=
  if is_empty (trim access_key_id) || is_empty secret_access_key || is_empty (trim region)
     || is_empty (trim service) then invalid PR_Aws
  else
    let amz_date := format_amz_date now in
    let date := format_date now in
    match url_host_str url with
    | None => invalid PR_AwsHost
    | Some host =>
        let host := match url_port url with Some p => host +:+ ":" +:+ pretty p | None => host end in
        let h := remove_header_ci "authorization" h in
        let h := remove_header_ci "x-amz-date" h in
        let h := remove_header_ci "x-amz-security-token" h in
        let h := <["host" := host]> h in
        let h := <["x-amz-date" := amz_date]> h in
        let h := match session_token with Some t => <["x-amz-security-token" := t]> h | None => h end in
        let signed := signed_fields host amz_date session_token in
        let canonical_headers := join "" ((λ kv, kv.1 +:+ ":" +:+ trim kv.2 +:+ NL) <$> signed) in
        let signed_headers := join ";" signed.*1 in
        let payload_hash := sha256_hex body in
        let canonical_uri := if is_empty (url_path url) then "/" else url_path url in
        let canonical_query := default "" (url_query url) in
        let canonical_request :=
          join NL [method; canonical_uri; canonical_query; canonical_headers; signed_headers; payload_hash] in
        let scope := join "/" [date; region; service; "aws4_request"] in
        let string_to_sign := join NL ["AWS4-HMAC-SHA256"; amz_date; scope; sha256_hex canonical_request] in
        let k_date := hmac_bytes ("AWS4" +:+ secret_access_key) date in
        let k_region := hmac_bytes k_date region in
        let k_service := hmac_bytes k_region service in
        let k_signing := hmac_bytes k_service "aws4_request" in
        let signature := hex_encode (hmac_bytes k_signing string_to_sign) in
        Ok (<["Authorization" := "AWS4-HMAC-SHA256 Credential=" +:+ access_key_id +:+ "/" +:+ scope
                +:+ ", SignedHeaders=" +:+ signed_headers +:+ ", Signature=" +:+ signature]> h)
    end.

(** ** The URL token *)

(** [substitute_url_token]. *)
Definition substitute_url_token (url_str : string) (token : Secret) : result string PluginError :=
  if negb (contains PLACEHOLDER url_str) then invalid PR_NoPlaceholder
  else
    match url_parse url_str with
    | None => invalid PR_BadUrl
    | Some before =>
        if negb (url_token_secret_is_path_safe token) then invalid PR_UnsafeSecret
        else
          let substituted := replace PLACEHOLDER token url_str in
          match url_parse substituted with
          | None => invalid PR_BadAfter
          | Some after =>
              if negb (String.eqb (url_scheme after) (url_scheme before))
                 || negb (bool_decide (url_host_str after = url_host_str before))
              then invalid PR_AlteredOrigin
              else Ok substituted
          end
    end.

Definition PLACEHOLDER_IN_PATH : string := "%7Bcredential%7D".
Definition placeholder_spellings : list string :=
  ["%7bcredential%7d"; "%7bcredential}"; "{credential%7d"; "{credential}"].

(** [url_token_send_url]. *)
Definition url_token_send_url (raw_url : string) (query : gmap string string) (token : Secret)
    : result string PluginError :=
  if negb (contains PLACEHOLDER raw_url) then invalid PR_NoPlaceholder
  else
    let? bare := ok_or (canonical_url (replace PLACEHOLDER "-" raw_url)) (PE_InvalidParams PR_Uncanonical) in
    let without_literal := to_ascii_lowercase bare in
    if existsb (λ spelling, contains spelling without_literal) placeholder_spellings
    then invalid PR_OtherSpelling
    else
      let? base := ok_or (canonical_url raw_url) (PE_InvalidParams PR_Uncanonical) in
      let? judged := ok_or (effective_url raw_url (map_to_list query)) (PE_InvalidParams PR_Uncanonical) in
      let? merged_query := ok_or (strip_prefix base judged) (PE_InvalidParams PR_Uncanonical) in
      let? substituted := substitute_url_token (replace PLACEHOLDER_IN_PATH PLACEHOLDER base) token in
      Ok (substituted +:+ merged_query).

(** ** Requests *)

(** What was put into the request builder: the method, the URL, the headers and the body;
    [RB_Signed] is the serialized body with its own [content-type], [RB_Json] the value
    given to [json]. *)
Inductive RequestBody := RB_None | RB_Signed (bytes : string) | RB_Json (v : Value).
Record Request := {
  rq_method : string;
  rq_url : Url;
  rq_headers : Headers;
  rq_body : RequestBody;
}.

(** [scoped_params]. *)
Definition scoped_params (metadata : gmap string string) (params : Value)
    : result HttpRequestParams PluginError :=
  let? p := ok_or (params_from_value params) (PE_InvalidParams PR_Shape) in
  let? h := apply_workspace_scope (hp_headers p) metadata in
  Ok {| hp_method := hp_method p; hp_url := hp_url p; hp_headers := h; hp_body := hp_body p;
        hp_query := hp_query p |}.

(** The URL a request is sent to. *)
Definition send_url (p : HttpRequestParams) (d : CredentialData) : result string PluginError :=
  match d with
  | CD_UrlToken token => url_token_send_url (hp_url p) (hp_query p) token
  | _ => ok_or (effective_url (hp_url p) (map_to_list (hp_query p))) (PE_InvalidParams PR_Uncanonical)
  end.

(** The credential in force after an OAuth2 token was ensured, and its update. *)
Definition effective_credential (proxied : bool) (now : DateTime) (d : CredentialData)
    : Posts * result (CredentialData * option CredentialData) PluginError :=
  match d with
  | CD_OAuth2 _ _ _ _ _ _ _ =>
      let '(posts, r) := ensure_valid_token proxied now d in
      (posts, let? tu := r in Ok (default d tu.2, tu.2))
  | _ => ([], Ok (d, None))
  end.

Definition uses_aws_sigv4 (d : CredentialData) : bool :=
  match d with CD_AwsSigV4 _ _ _ _ _ => true | _ => false end.

(** The query pairs re-sorted for SigV4. *)
Definition sort_query (d : CredentialData) (url : Url) : Url :=
  if uses_aws_sigv4 d && bool_decide (url_query url ≠ None)
  then url_set_pairs url (merge_sort pair_le (url_query_pairs url)) else url.

(** The headers with the credential in them. *)
Definition authorize_request (d : CredentialData) (method : string) (url : Url) (body : string) (now : DateTime)
    (h : Headers) : result Headers PluginError :=
  match d with
  | CD_AwsSigV4 key_id secret session region service =>
      sign_aws_sigv4 h method url body key_id secret session region service now
  | CD_UrlToken _ => Ok h
  | _ => inject_credentials h d
  end.

Definition aws_body (body : option Value) : result string PluginError :=
  match body with
  | Some v => ok_or (json_to_vec v) (PE_InvalidParams PR_Body)
  | None => Ok ""
  end.

Definition request_body (d : CredentialData) (body : option Value) (bytes : string) : RequestBody :=
  match body with
  | None => RB_None
  | Some v => if uses_aws_sigv4 d then RB_Signed bytes else RB_Json v
  end.

(** [prepare_request]; [proxied] is [upstream_proxy_configured()] and [now] the clock. *)
Definition prepare_request (proxied : bool) (now : DateTime) (p : HttpRequestParams) (d : CredentialData)
    : Posts * result (Request * option CredentialData) PluginError :=
  match
    (let? target := send_url p d in
     let? url := match validate_url_ssrf proxied target with
                 | Ok u => Ok u | Err r => invalid (PR_Url r) end in
     let? method := ok_or (method_from_str (to_uppercase (hp_method p))) (PE_InvalidParams PR_Method) in
     Ok (url, method))
  with
  | Err e => ([], Err e)
  | Ok (url, method) =>
      let '(posts, r) := effective_credential proxied now d in
      (posts,
       let? eu := r in
       let '(effective, updated) := eu in
       let url := sort_query effective url in
       let h := strip_unsafe_request_headers (hp_headers p) in
       let? bytes := aws_body (hp_body p) in
       let? h := authorize_request effective method url bytes now h in
       let h := force_client_managed_encoding h in
       Ok ({| rq_method := method; rq_url := url; rq_headers := h;
              rq_body := request_body effective (hp_body p) bytes |}, updated))
  end.

(** ** Responses *)

Definition MAX_RESPONSE_BYTES : Z := 10 * 1024 * 1024.

(** [read_body_capped]: the declared length, then the chunks; [None] is a transport
    error. *)
Fixpoint read_chunks (buf : string) (chunks : list (option string)) : result string PluginError :=
  match chunks with
  | [] => Ok buf
  | None :: _ => Err (PE_Http HT_Chunk)
  | Some c :: rest =>
      if MAX_RESPONSE_BYTES <? Z.of_nat (String.length buf) + Z.of_nat (String.length c)
      then Err (PE_Http HT_Cap) else read_chunks (buf +:+ c) rest
  end.
Definition read_body_capped (declared : option Z) (chunks : list (option string))
    : result string PluginError :=
  match declared with
  | Some len => if MAX_RESPONSE_BYTES <? len then Err (PE_Http HT_Declared) else read_chunks "" chunks
  | None => read_chunks "" chunks
  end.

(** [collect_response_headers]: the last value of a name wins; [None] is a value that is
    not text. *)
Definition collect_response_headers (headers : list (string * option string)) : Headers :=
  foldl (λ m kv, match kv.2 with Some v => <[kv.1 := v]> m | None => m end) ∅ headers.

(** The upstream response. *)
Record Upstream := {
  up_status : Z;
  up_headers : list (string * option string);
  up_declared : option Z;
  up_chunks : list (option string);
}.

(** [execute_request]; [send] is the client.  The second component of the outcome is the
    [updated_credential] of the response. *)
Definition execute_request (send : Request → option Upstream) (proxied : bool) (now : DateTime)
    (p : HttpRequestParams) (d : CredentialData)
    : Posts * result (ExecuteResponse * option CredentialData) PluginError :=
  let '(posts, r) := prepare_request proxied now p d in
  (posts,
   let? ru := r in
   let? up := ok_or (send ru.1) (PE_Http HT_Send) in
   let? body := read_body_capped (up_declared up) (up_chunks up) in
   Ok ({| resp_status := up_status up; resp_headers := collect_response_headers (up_headers up);
          resp_body := as_bytes body |}, ru.2)).

(** [StreamingResponse], and [execute_request_streaming]: a chunk error becomes an error
    item of the stream. *)
Record StreamingResponse := {
  sr_status : Z;
  sr_headers : Headers;
  sr_body : list (result string PluginError);
  sr_updated : option CredentialData;
}.
Definition execute_request_streaming (send : Request → option Upstream) (proxied : bool) (now : DateTime)
    (p : HttpRequestParams) (d : CredentialData) : Posts * result StreamingResponse PluginError :=
  let '(posts, r) := prepare_request proxied now p d in
  (posts,
   let? ru := r in
   let? up := ok_or (send ru.1) (PE_Http HT_Send) in
   Ok {| sr_status := up_status up; sr_headers := collect_response_headers (up_headers up);
         sr_body := (λ c, match c with Some b => Ok b | None => Err (PE_Http HT_Chunk) end) <$> up_chunks up;
         sr_updated := ru.2 |}).

(** [HttpPlugin::execute] and [execute_streaming]. *)
Definition plugin_execute (send : Request → option Upstream) (proxied : bool) (now : DateTime)
    (action : string) (c : Credential) (params : Value)
    : Posts * result (ExecuteResponse * option CredentialData) PluginError :=
  if String.eqb action "request" then
    match scoped_params (cr_metadata c) params with
    | Err e => ([], Err e)
    | Ok p => execute_request send proxied now p (cr_data c)
    end
  else ([], Err (PE_UnsupportedAction action)).
Definition plugin_execute_streaming (send : Request → option Upstream) (proxied : bool) (now : DateTime)
    (action : string) (c : Credential) (params : Value) : Posts * result StreamingResponse PluginError :=
  if String.eqb action "request" then
    match scoped_params (cr_metadata c) params with
    | Err e => ([], Err e)
    | Ok p => execute_request_streaming send proxied now p (cr_data c)
    end
  else ([], Err (PE_UnsupportedAction action)).

(** [HttpPlugin::validate_params]. *)
Definition validate_params (proxied : bool) (action : string) (params : Value) : result unit PluginError :=
  if String.eqb action "request" then
    match params with
    | JObject _ =>
        let? m := ok_or (json_get "method" params) (PE_InvalidParams (PR_Missing "method")) in
        let? u := ok_or (json_get "url" params) (PE_InvalidParams (PR_Missing "url")) in
        let? method := ok_or (as_str m) (PE_InvalidParams PR_Shape) in
        let? _ := ok_or (method_from_str (to_uppercase method)) (PE_InvalidParams PR_Method) in
        let? url := ok_or (as_str u) (PE_InvalidParams PR_Shape) in
        match validate_url_ssrf proxied url with Ok _ => Ok tt | Err r => invalid (PR_Url r) end
    | _ => invalid PR_Shape
    end
  else Err (PE_UnsupportedAction action).

End plugin.
