(* ===== verification/HttpFacts.v ===== *)
(** * What an outbound request carries

    Theorems about [HttpPlugin]: where every header of a request comes from, that the
    credential's header is its only copy, that a URL token changes nothing of the judged
    URL but the placeholder, that client secrets are posted only to accepted token URLs,
    and that a buffered body stays under its cap. *)

From stdpp Require Import base gmap strings list sorting pretty.
From Stdlib Require Import Ascii ZArith Lia.
From S2P Require Import Prelude RustStr UrlCanon Json Egress Ssrf Credential HttpPlugin.

Open Scope Z_scope.

(** ** Header maps *)

Lemma eq_ignore_refl a : eq_ignore_ascii_case a a = true.
Proof. apply String.eqb_refl. Qed.

Lemma eq_ignore_trans a b c :
  eq_ignore_ascii_case a b = true → eq_ignore_ascii_case a c = eq_ignore_ascii_case b c.
Proof. unfold eq_ignore_ascii_case. by intros ->%String.eqb_eq. Qed.

Lemma retain_lookup keep h k v :
  retain_headers keep h !! k = Some v ↔ h !! k = Some v ∧ keep k = true.
Proof. exact (map_lookup_filter_Some _ h k v). Qed.

Lemma remove_ci_lookup n h k v :
  remove_header_ci n h !! k = Some v ↔ h !! k = Some v ∧ eq_ignore_ascii_case k n = false.
Proof. unfold remove_header_ci. by rewrite retain_lookup, negb_true_iff. Qed.

Lemma strip_unsafe_lookup h k v :
  strip_unsafe_request_headers h !! k = Some v ↔ h !! k = Some v ∧ is_unsafe_header k = false.
Proof. unfold strip_unsafe_request_headers. by rewrite retain_lookup, negb_true_iff. Qed.

Lemma force_encoding_lookup h k v :
  force_client_managed_encoding h !! k = Some v
  ↔ h !! k = Some v ∧ eq_ignore_ascii_case k "accept-encoding" = false.
Proof. unfold force_client_managed_encoding. by rewrite retain_lookup, negb_true_iff. Qed.

(** [write_scopes] writes the operator's values and leaves every other name alone. *)
Lemma write_scopes_lookup scopes metadata h h' k v :
  write_scopes scopes metadata h = Ok h' → h' !! k = Some v →
  h !! k = Some v
  ∨ ∃ s, s ∈ scopes ∧ k = gs_header s ∧ metadata !! gs_meta s = Some v ∧ gs_valid s v = true.
Proof.
  revert h. induction scopes as [|s rest IH]; intros h; cbn; [by intros [= ->]; left|].
  destruct (metadata !! gs_meta s) as [w|] eqn:Em.
  - destruct (gs_valid s w) eqn:Ev; [|done]. intros Hw Hk.
    destruct (IH _ Hw Hk) as [H|(s' & Hs & H)].
    + destruct (decide (gs_header s = k)) as [<-|Hne].
      * rewrite lookup_insert_eq in H. simplify_eq. right. exists s. split_and!; [left|done..].
      * rewrite lookup_insert_ne in H by done. by left.
    + right. exists s'. split; [by right|done].
  - intros Hw Hk. destruct (IH _ Hw Hk) as [H|(s' & Hs & H)]; [by left|].
    right. exists s'. split; [by right|done].
Qed.

Lemma apply_workspace_scope_lookup h metadata h' k v :
  apply_workspace_scope h metadata = Ok h' → h' !! k = Some v →
  (h !! k = Some v ∧ is_gateway_owned_header k = false)
  ∨ ∃ s, s ∈ GATEWAY_OWNED_SCOPES ∧ k = gs_header s ∧ metadata !! gs_meta s = Some v ∧ gs_valid s v = true.
Proof.
  intros Hw Hk. destruct (write_scopes_lookup _ _ _ _ _ _ Hw Hk) as [H|H]; [left|by right].
  apply retain_lookup in H as [? H]. split; [done|by apply negb_true_iff].
Qed.

(** ** Injection *)

(** The names a credential reserves for itself, and the values it sends under them. *)
Definition reserved_names (d : CredentialData) : list string :=
  match d with
  | CD_ApiKey _ header_name _ => [header_name]
  | CD_BasicAuth _ _ | CD_OAuth2 _ _ _ _ _ _ _ => ["Authorization"]
  | CD_AwsSigV4 _ _ _ _ _ => ["Authorization"; "host"; "x-amz-date"; "x-amz-security-token"]
  | _ => []
  end.

Section facts.
Context {UC : UrlCrate} {GC : GlobCrate} {UE : UrlEncodingCrate} {NS : NetStd}.
Context {EN : Encoders} {SJ : SerdeJson} {SH : Sha256} {HC : HttpCrates}.

Definition own_value (d : CredentialData) (k v : string) : Prop :=
  match d with
  | CD_ApiKey key _ prefix => v = prefix +:+ key
  | CD_BasicAuth username password => v = "Basic " +:+ b64_standard (username +:+ ":" +:+ password)
  | CD_OAuth2 _ _ _ access _ _ _ => ∃ token, access = Some token ∧ v = "Bearer " +:+ token
  | CD_AwsSigV4 key_id _ session _ _ =>
      if String.eqb k "x-amz-security-token" then session = Some v
      else if String.eqb k "Authorization"
      then ∃ r, v = "AWS4-HMAC-SHA256 Credential=" +:+ key_id +:+ "/" +:+ r
      else True
  | _ => False
  end.

(** A header with one reserved name: replaced under every spelling. *)
Lemma sole_insert n w h k v :
  <[n := w]> (remove_header_ci n h) !! k = Some v →
  (k = n ∧ v = w) ∨ (h !! k = Some v ∧ eq_ignore_ascii_case k n = false).
Proof.
  destruct (decide (n = k)) as [<-|Hne].
  - rewrite lookup_insert_eq. intros [= <-]. by left.
  - rewrite lookup_insert_ne by done. intros H%remove_ci_lookup. by right.
Qed.

Lemma inject_lookup h d h' k v :
  inject_credentials h d = Ok h' → h' !! k = Some v →
  (k ∈ reserved_names d ∧ own_value d k v)
  ∨ (h !! k = Some v ∧ ∀ n, n ∈ reserved_names d → eq_ignore_ascii_case k n = false).
Proof.
  destruct d; cbn [inject_credentials reserved_names own_value]; try done.
  all: try (destruct access_token as [t|]; [|done]).
  all: intros [= <-] [[-> ->]|[? ?]]%sole_insert; [left|right];
    split; try done; try (by left); try eauto.
  all: by intros n ->%list_elem_of_singleton.
Qed.

Lemma insert_case n w (h : Headers) k v :
  <[n := w]> h !! k = Some v → (k = n ∧ v = w) ∨ (k ≠ n ∧ h !! k = Some v).
Proof. rewrite lookup_insert_Some. naive_solver. Qed.

Lemma sign_lookup h method url body key_id secret session region service now h' k v :
  sign_aws_sigv4 (strip_unsafe_request_headers h) method url body key_id secret session region service now
    = Ok h' →
  h' !! k = Some v →
  let d := CD_AwsSigV4 key_id secret session region service in
  (k ∈ reserved_names d ∧ own_value d k v)
  ∨ (h !! k = Some v ∧ is_unsafe_header k = false
     ∧ ∀ n, n ∈ reserved_names d → eq_ignore_ascii_case k n = false).
Proof.
  unfold sign_aws_sigv4. destruct (_ || _); [done|]. destruct (url_host_str url) as [host|]; [|done].
  set (hs := match url_port url with Some _ => _ | None => _ end). clearbody hs.
  cbn zeta. match goal with |- context [<["Authorization" := ?w]> _] => set (auth := w) end.
  assert (Ha : ∃ r, auth = "AWS4-HMAC-SHA256 Credential=" +:+ key_id +:+ "/" +:+ r) by (by eexists).
  clearbody auth. intros [= <-] H. cbn [own_value reserved_names].
  apply insert_case in H as [[-> ->]|[Hn1 H]]; [left; split; [by left|done]|].
  assert (Hrest : ∀ w, <["x-amz-date" := format_amz_date now]> (<["host" := hs]>
      (remove_header_ci "x-amz-security-token" (remove_header_ci "x-amz-date"
        (remove_header_ci "authorization" (strip_unsafe_request_headers h))))) !! k = Some w →
    (k ∈ ["Authorization"; "host"; "x-amz-date"; "x-amz-security-token"]
       ∧ k ≠ "x-amz-security-token")
    ∨ (h !! k = Some w ∧ is_unsafe_header k = false
       ∧ ∀ n, n ∈ ["Authorization"; "host"; "x-amz-date"; "x-amz-security-token"] →
           eq_ignore_ascii_case k n = false)).
  { intros w [[-> _]|[_ H']]%insert_case; [left; split; [|done]; set_solver|].
    apply insert_case in H' as [[-> _]|[_ H']]; [left; split; [|done]; set_solver|].
    apply remove_ci_lookup in H' as [[[[? Hu]%strip_unsafe_lookup Ha1]%remove_ci_lookup Ha2]%remove_ci_lookup Ha3].
    right. split_and!; [done|done|]. intros n Hin. rewrite !elem_of_cons, elem_of_nil in Hin.
    destruct Hin as [->|[->|[->|[->|[]]]]]; [done| |done|done].
    unfold is_unsafe_header, UNSAFE in Hu. cbn [existsb] in Hu. by apply orb_false_iff in Hu as [? _]. }
  assert (Hdone : ∀ w, k ≠ "x-amz-security-token" →
      if String.eqb k "x-amz-security-token" then session = Some w
      else if String.eqb k "Authorization" then ∃ r, w = "AWS4-HMAC-SHA256 Credential=" +:+ key_id +:+ "/" +:+ r
      else True).
  { intros w Hk. destruct (String.eqb_spec k "x-amz-security-token"); [done|].
    by destruct (String.eqb_spec k "Authorization"). }
  destruct session as [t|].
  - apply insert_case in H as [[-> ->]|[_ H]]; [left; split; [set_solver|done]|].
    destruct (Hrest _ H) as [[? ?]|?]; [left; split; [done|by apply Hdone]|by right].
  - destruct (Hrest _ H) as [[? ?]|?]; [left; split; [done|by apply Hdone]|by right].
Qed.

Lemma authorize_lookup d method url body now h h' k v :
  authorize_request d method url body now (strip_unsafe_request_headers h) = Ok h' → h' !! k = Some v →
  (k ∈ reserved_names d ∧ own_value d k v)
  ∨ (h !! k = Some v ∧ is_unsafe_header k = false
     ∧ ∀ n, n ∈ reserved_names d → eq_ignore_ascii_case k n = false).
Proof.
  assert (Hinj : inject_credentials (strip_unsafe_request_headers h) d = Ok h' → h' !! k = Some v →
    (k ∈ reserved_names d ∧ own_value d k v)
    ∨ (h !! k = Some v ∧ is_unsafe_header k = false
       ∧ ∀ n, n ∈ reserved_names d → eq_ignore_ascii_case k n = false)).
  { intros Hi Hk. destruct (inject_lookup _ _ _ _ _ Hi Hk) as [?|[[? ?]%strip_unsafe_lookup ?]]; auto. }
  destruct d; cbn [authorize_request]; try exact Hinj.
  - apply sign_lookup.
  - intros [= <-] [? ?]%strip_unsafe_lookup. right. split_and!; [done|done|].
    by intros n ?%elem_of_nil.
Qed.

(** What a prepared request consists of. *)
Lemma prepare_request_ok proxied now p d posts rq updated :
  prepare_request proxied now p d = (posts, Ok (rq, updated)) →
  ∃ target url bytes h,
    send_url p d = Ok target ∧ validate_url_ssrf proxied target = Ok url
    ∧ method_from_str (to_uppercase (hp_method p)) = Some (rq_method rq)
    ∧ effective_credential proxied now d = (posts, Ok (default d updated, updated))
    ∧ rq_url rq = sort_query (default d updated) url
    ∧ authorize_request (default d updated) (rq_method rq) (rq_url rq) bytes now
        (strip_unsafe_request_headers (hp_headers p)) = Ok h
    ∧ rq_headers rq = force_client_managed_encoding h.
Proof.
  unfold prepare_request. destruct (send_url p d) as [target|]; [|done]. cbn [result_bind].
  destruct (validate_url_ssrf proxied target) as [url|] eqn:Ev; [|done]. cbn [result_bind].
  destruct (method_from_str _) as [m|] eqn:Em; [|done]. cbn [ok_or result_bind].
  destruct (effective_credential proxied now d) as [ps r] eqn:Ee. intros [= -> H].
  assert (Hd : ∀ e u, r = Ok (e, u) → e = default d u).
  { unfold effective_credential in Ee. intros e u ->. destruct d; simplify_eq; try done.
    destruct (ensure_valid_token _ _ _) as [? [[? ?]|]]; cbn in Ee; by simplify_eq. }
  destruct r as [[e u]|]; [|done]. cbn [result_bind] in H.
  destruct (aws_body (hp_body p)) as [bytes|]; [|done]. cbn [result_bind] in H.
  destruct (authorize_request _ _ _ _ _ _) as [h|] eqn:Ea; [|done]. cbn [result_bind] in H. simplify_eq.
  rewrite (Hd e updated eq_refl) in *. exists target, url, bytes, h. by split_and!.
Qed.

(** C11: Every header of an outgoing request has a known author: the credential, under a name
    it reserves and with its own value; the operator, for a gateway-owned name, with
    the valid value stored on the credential; or the caller, for a name that is neither
    gateway-owned, nor a routing or framing header, nor any spelling of a name the
    credential reserves.  None is [accept-encoding]. *)
Theorem sent_headers_have_an_author proxied now metadata params p0 p d posts rq updated k v :
  params_from_value params = Some p0 →
  scoped_params metadata params = Ok p →
  prepare_request proxied now p d = (posts, Ok (rq, updated)) →
  rq_headers rq !! k = Some v →
  eq_ignore_ascii_case k "accept-encoding" = false
  ∧ ((k ∈ reserved_names (default d updated) ∧ own_value (default d updated) k v)
     ∨ (∃ s, s ∈ GATEWAY_OWNED_SCOPES ∧ k = gs_header s ∧ metadata !! gs_meta s = Some v ∧ gs_valid s v = true)
     ∨ (hp_headers p0 !! k = Some v ∧ is_gateway_owned_header k = false ∧ is_unsafe_header k = false
        ∧ ∀ n, n ∈ reserved_names (default d updated) → eq_ignore_ascii_case k n = false)).
Proof.
  intros Hp Hs Hr Hk. apply prepare_request_ok in Hr as (target & url & bytes & h & _ & _ & _ & _ & _ & Ha & Hh).
  rewrite Hh in Hk. apply force_encoding_lookup in Hk as [Hk Hae]. split; [done|].
  destruct (authorize_lookup _ _ _ _ _ _ _ _ _ Ha Hk) as [?|(Hc & Hu & Hn)]; [by left|].
  unfold scoped_params in Hs. rewrite Hp in Hs. cbn [ok_or result_bind] in Hs.
  destruct (apply_workspace_scope (hp_headers p0) metadata) as [h0|] eqn:Ew; [|done].
  cbn [result_bind] in Hs. injection Hs as <-. cbn [hp_headers] in Hc.
  destruct (apply_workspace_scope_lookup _ _ _ _ _ Ew Hc) as [[? ?]|?]; right;
    [right; by split_and!|by left].
Qed.

(** A name the credential reserves is not another spelling of one. *)
Lemma reserved_distinct d k n :
  k ∈ reserved_names d → n ∈ reserved_names d → eq_ignore_ascii_case k n = true → k = n.
Proof.
  destruct d; cbn [reserved_names]; rewrite ?elem_of_cons, ?elem_of_nil; intros Hk Hn;
    repeat match goal with H : _ ∨ _ |- _ => destruct H end; subst; done.
Qed.

(** What injection puts under a reserved name. *)
Lemma inject_present h d h' n :
  inject_credentials h d = Ok h' → n ∈ reserved_names d → ∃ v, h' !! n = Some v ∧ own_value d n v.
Proof.
  destruct d; cbn [inject_credentials reserved_names own_value]; try done.
  all: try (destruct access_token as [t|]; [|done]).
  all: intros [= <-] ->%list_elem_of_singleton; rewrite lookup_insert_eq; eauto.
Qed.

(** A header the credential reserves is sent in one copy only, under the credential's
    spelling: no other case variant of it survives.  For every credential type but
    AWS the header is present, with the credential's value. *)
Theorem credential_header_is_sole_copy proxied now p d posts rq updated n :
  prepare_request proxied now p d = (posts, Ok (rq, updated)) →
  n ∈ reserved_names (default d updated) →
  (∀ k, is_Some (rq_headers rq !! k) → eq_ignore_ascii_case k n = true → k = n)
  ∧ (uses_aws_sigv4 (default d updated) = false → eq_ignore_ascii_case n "accept-encoding" = false →
     ∃ v, rq_headers rq !! n = Some v ∧ own_value (default d updated) n v).
Proof.
  intros Hr Hn. apply prepare_request_ok in Hr as (target & url & bytes & h & _ & _ & _ & _ & _ & Ha & Hh).
  rewrite Hh. split.
  - intros k [v [Hk _]%force_encoding_lookup] Hc.
    destruct (authorize_lookup _ _ _ _ _ _ _ _ _ Ha Hk) as [[? _]|(_ & _ & Hno)].
    + by apply (reserved_distinct (default d updated)).
    + by rewrite (Hno n Hn) in Hc.
  - intros Haws Hae.
    assert (Hinj : inject_credentials (strip_unsafe_request_headers (hp_headers p)) (default d updated) = Ok h).
    { destruct (default d updated); try done. by apply not_elem_of_nil in Hn. }
    destruct (inject_present _ _ _ _ Hinj Hn) as (v & Hv & Ho). exists v. split; [|done].
    by apply force_encoding_lookup.
Qed.

(** ** The token endpoint *)

Lemma post_token_posts proxied token_url form posts r u f :
  post_token proxied token_url form = (posts, r) → (u, f) ∈ posts →
  f = form ∧ validate_token_url_ssrf proxied token_url = Ok u.
Proof.
  unfold post_token. destruct (validate_token_url_ssrf proxied token_url); intros [= <- <-] Hin.
  - apply list_elem_of_singleton in Hin. by simplify_eq.
  - by apply elem_of_nil in Hin.
Qed.

Lemma token_url_https proxied s u : validate_token_url_ssrf proxied s = Ok u → url_scheme u = "https".
Proof.
  unfold validate_token_url_ssrf. destruct (url_parse s) as [v|]; [|done].
  destruct (String.eqb_spec (url_scheme v) "https"); [|done]. cbn [negb].
  destruct (check_destination proxied 443 v); [|done]. by intros [= <-].
Qed.

(** A stored OAuth2 token is used as it is while it is more than five minutes from
    expiry, with nothing sent to the token endpoint; otherwise at most two forms are
    posted, each to the credential's own token URL after it passed the https and
    address checks; and a renewed credential keeps its identity, its refresh token
    when none was issued, and holds the token that the request will carry. *)
Theorem oauth_secrets_reach_only_the_token_url proxied now cid sec refresh access expires token_url scopes posts r :
  ensure_valid_token proxied now (CD_OAuth2 cid sec refresh access expires token_url scopes) = (posts, r) →
  (∀ token, access = Some token → needs_refresh now expires = false → posts = [] ∧ r = Ok (token, None))
  ∧ (length posts <= 2)%nat
  ∧ (∀ u f, (u, f) ∈ posts → validate_token_url_ssrf proxied token_url = Ok u ∧ url_scheme u = "https")
  ∧ (∀ token d', r = Ok (token, Some d') →
       ∃ refresh' expires', d' = CD_OAuth2 cid sec refresh' (Some token) expires' token_url scopes
         ∧ (∀ rt, refresh = Some rt → is_Some refresh')).
Proof.
  intros H. unfold ensure_valid_token in H.
  set (fetch := fetch_client_credentials_token proxied cid sec token_url scopes) in H.
  assert (Hf : (length fetch.1 <= 1)%nat ∧ ∀ u f, (u, f) ∈ fetch.1 →
    validate_token_url_ssrf proxied token_url = Ok u ∧ url_scheme u = "https").
  { unfold fetch, fetch_client_credentials_token. split.
    - unfold post_token. destruct (validate_token_url_ssrf _ _); cbn; lia.
    - intros u f Hin. destruct (post_token _ _ _) as [ps x] eqn:E.
      destruct (post_token_posts _ _ _ _ _ _ _ E Hin) as [_ Hv]. eauto using token_url_https. }
  set (reply := match refresh with Some _ => _ | None => _ end) in H.
  assert (Hr : (length reply.1 <= 2)%nat ∧ ∀ u f, (u, f) ∈ reply.1 →
    validate_token_url_ssrf proxied token_url = Ok u ∧ url_scheme u = "https").
  { unfold reply. destruct refresh as [rt|]; [|split; [lia|apply Hf]].
    unfold refresh_access_token. destruct (post_token _ _ _) as [ps x] eqn:E.
    assert (Hl : (length ps <= 1)%nat).
    { unfold post_token in E. destruct (validate_token_url_ssrf _ _); injection E as <- _; cbn; lia. }
    destruct x; cbn [fst]; (split; [rewrite ?length_app; lia|]); intros u f Hin;
      [|apply elem_of_app in Hin as [Hin|Hin]; [|by apply Hf in Hin]];
      destruct (post_token_posts _ _ _ _ _ _ _ E Hin) as [_ Hv]; eauto using token_url_https. }
  clearbody reply.
  destruct access as [tok|]; destruct (needs_refresh now expires) eqn:En.
  2: { injection H as <- <-. split_and!; [by intros ? [= ->] _|cbn; lia|by intros ?? ?%elem_of_nil|done]. }
  all: destruct reply as [ps x]; injection H as <- <-; split_and!; try done; try apply Hr.
  all: intros token d' E; destruct x as [resp|]; [|done]; cbn [result_bind] in E; injection E as <- <-;
    eexists _, _; split; [done|]; intros rt ->; destruct (tk_refresh_token resp); by eexists.
Qed.

(** ** Secrets sent and received *)

(** The secret inside a header the credential sends. *)
Lemma own_value_secret d k v :
  own_value d k v → uses_aws_sigv4 d = false ∨ k = "x-amz-security-token" →
  ∃ pre s, v = pre +:+ s ∧ s ∈ secret_material d.
Proof.
  destruct d; cbn [own_value uses_aws_sigv4 secret_material]; try (intros []; done).
  - intros -> _. exists header_prefix, key. split; [done|by left].
  - intros (t & -> & ->) _. exists "Bearer ", t. split; [done|]. set_solver.
  - intros -> _. exists "Basic ", (b64_standard (username +:+ ":" +:+ password)). split; [done|]. set_solver.
  - intros Hv [?| ->]; [done|]. cbn in Hv. subst. exists "", v. split; [done|]. set_solver.
Qed.

Lemma scrub_set_elem d updated s :
  s ∈ secret_material (default d updated) →
  s ∈ scrub_set_with_minted (secret_material d) (secret_material <$> updated).
Proof. destruct updated; cbn; [rewrite elem_of_app|]; auto. Qed.

Lemma execute_request_ok send proxied now p d posts r updated :
  execute_request send proxied now p d = (posts, Ok (r, updated)) →
  ∃ rq up, prepare_request proxied now p d = (posts, Ok (rq, updated)) ∧ send rq = Some up
    ∧ read_body_capped (up_declared up) (up_chunks up) = Ok (of_bytes (resp_body r)).
Proof.
  unfold execute_request. destruct (prepare_request proxied now p d) as [ps [[rq u]|]]; [|done].
  cbn [result_bind fst snd]. destruct (send rq) as [up|] eqn:Es; [|done]. cbn [ok_or result_bind].
  destruct (read_body_capped _ _) as [b|] eqn:Eb; [|done]. cbn [result_bind]. intros [= -> <- ->].
  exists rq, up. split_and!; [done|done|]. rewrite Eb. cbn. unfold of_bytes, as_bytes.
  by rewrite String.string_of_list_ascii_of_string.
Qed.

(** C9: The secret a request carries does not come back to the caller: whatever the upstream
    answers, the response released through the egress boundary, with the scrub set of
    the credential and of the one minted on the way, shows the secret of no header that
    was sent, even when the token was refreshed during this very request. *)
Theorem sent_secret_is_not_returned `{RegexCrate} send proxied now p d posts r updated alias rules act :
  execute_request send proxied now p d = (posts, Ok (r, updated)) →
  ∃ rq up, prepare_request proxied now p d = (posts, Ok (rq, updated)) ∧ send rq = Some up
    ∧ ∀ k v, rq_headers rq !! k = Some v → k ∈ reserved_names (default d updated) →
        uses_aws_sigv4 (default d updated) = false ∨ k = "x-amz-security-token" →
        ∃ pre s, v = pre +:+ s ∧ s ∈ secret_material (default d updated)
          ∧ (s ≠ "" →
             let secrets := scrub_set_with_minted (secret_material d) (secret_material <$> updated) in
             let out := confine_response r secrets alias rules act in
             ¬ appears (as_bytes s) (resp_body out)
             ∧ ∀ k' v', resp_headers out !! k' = Some v' → ¬ appears (as_bytes s) (as_bytes v')).
Proof.
  intros (rq & up & Hr & Hs & _)%execute_request_ok. exists rq, up. split_and!; [done|done|].
  intros k v Hk Hn Ht.
  apply prepare_request_ok in Hr as (target & url & bytes & h & _ & _ & _ & _ & _ & Ha & Hh).
  rewrite Hh in Hk. apply force_encoding_lookup in Hk as [Hk _].
  destruct (authorize_lookup _ _ _ _ _ _ _ _ _ Ha Hk) as [[_ Ho]|(_ & _ & Hno)].
  - destruct (own_value_secret _ _ _ Ho Ht) as (pre & s & -> & Hin).
    exists pre, s. split_and!; [done|done|]. intros Hne. apply confine_shows_no_form; [right|done].
    by apply scrub_set_elem.
  - specialize (Hno k Hn). by rewrite eq_ignore_refl in Hno.
Qed.

(** ** The URL token *)

(** The bytes that give a URL its structure. *)
Definition delimiters : list ascii := ["/"; "?"; "#"; "\"; " "]%char.
Fixpoint structure (s : string) : list ascii :=
  match s with
  | EmptyString => []
  | String c s' => if one_of delimiters c then c :: structure s' else structure s'
  end.

Lemma structure_app a b : structure (a +:+ b) = structure a ++ structure b.
Proof. induction a as [|c a IH]; cbn -[one_of]; [done|]. rewrite IH. by destruct (one_of delimiters c). Qed.

(** Replacing text without delimiters by text without delimiters keeps the structure. *)
Lemma structure_replace_from pat to skip s :
  pat ≠ "" → structure pat = structure to →
  structure (replace_from skip pat to s) = structure (str_drop skip s).
Proof.
  intros Hne Hd. revert skip. induction s as [|c s IH]; intros skip; [by destruct skip|].
  destruct skip as [|k]; cbn [replace_from str_drop]; [|apply IH].
  destruct (starts_with pat (String c s)) eqn:E.
  - apply starts_with_spec in E as [r E]. rewrite structure_app, IH, <- Hd, E, structure_app. f_equal.
    destruct pat as [|c' pat]; [done|]. injection E as -> ->.
    cbn [String.length]. rewrite Nat.sub_succ, Nat.sub_0_r. apply f_equal, str_drop_app.
  - cbn [structure]. rewrite IH. by destruct s.
Qed.

Lemma structure_replace pat to s :
  pat ≠ "" → structure pat = structure to → structure (replace pat to s) = structure s.
Proof. intros ? ?. unfold replace. rewrite structure_replace_from by done. by destruct s. Qed.

Lemma path_safe_no_structure s : url_token_secret_is_path_safe s = true → structure s = [].
Proof.
  unfold url_token_secret_is_path_safe. rewrite !andb_true_iff. intros [_ H].
  rewrite negb_true_iff, orb_false_iff in H. destruct H as [H _]. revert H. induction s as [|c s IH]; cbn [structure contains_any]; [done|].
  rewrite orb_false_iff. intros [Hc Hs]. rewrite (IH Hs).
  destruct (one_of delimiters c) eqn:E; [|done]. exfalso.
  apply one_of_true in E. apply not_true_iff_false in Hc. apply Hc, one_of_true.
  unfold delimiters, path_breaking in *. rewrite !elem_of_cons, elem_of_nil in *. tauto.
Qed.

Lemma substitute_ok url token s :
  substitute_url_token url token = Ok s →
  s = replace PLACEHOLDER token url ∧ url_token_secret_is_path_safe token = true
  ∧ ∃ before after, url_parse url = Some before ∧ url_parse s = Some after
    ∧ url_scheme after = url_scheme before ∧ url_host_str after = url_host_str before.
Proof.
  unfold substitute_url_token. destruct (contains PLACEHOLDER url); [|done]. cbn [negb].
  destruct (url_parse url) as [before|]; [|done].
  destruct (url_token_secret_is_path_safe token); [|done]. cbn [negb].
  destruct (url_parse (replace _ _ _)) as [after|] eqn:Ea; [|done].
  destruct (String.eqb_spec (url_scheme after) (url_scheme before)); [|done]. cbn [negb orb].
  case_bool_decide; [|done]. intros [= <-]. split_and!; [done..|]. by exists before, after.
Qed.

(** The URL sent for a URL token is the string policy judged with the secret in the place
    of the placeholder and nothing else changed: the part that came from the request's
    URL keeps its scheme, its host and its whole sequence of delimiters (so the secret
    adds no segment, query or fragment), the merged query is untouched, and the URL is
    refused when any other spelling of the placeholder would receive the secret. *)
Theorem url_token_changes_only_the_placeholder raw query token s :
  url_token_send_url raw query token = Ok s →
  ∃ base merged part bare,
    canonical_url raw = Some base
    ∧ effective_url raw (map_to_list query) = Some (base +:+ merged)
    ∧ s = part +:+ merged
    ∧ part = replace PLACEHOLDER token (replace PLACEHOLDER_IN_PATH PLACEHOLDER base)
    ∧ structure s = structure (base +:+ merged)
    ∧ (∃ before after, url_parse (replace PLACEHOLDER_IN_PATH PLACEHOLDER base) = Some before
        ∧ url_parse part = Some after ∧ url_scheme after = url_scheme before
        ∧ url_host_str after = url_host_str before)
    ∧ canonical_url (replace PLACEHOLDER "-" raw) = Some bare
    ∧ ∀ sp, sp ∈ placeholder_spellings → contains sp (to_ascii_lowercase bare) = false.
Proof.
  unfold url_token_send_url. destruct (contains PLACEHOLDER raw); [|done]. cbn [negb].
  destruct (canonical_url (replace PLACEHOLDER "-" raw)) as [bare|] eqn:Eb; [|done]. cbn [ok_or result_bind].
  destruct (existsb _ placeholder_spellings) eqn:Ee; [done|]. rewrite existsb_false_elem_of in Ee.
  destruct (canonical_url raw) as [base|]; [|done]. cbn [ok_or result_bind].
  destruct (effective_url _ _) as [judged|]; [|done]. cbn [ok_or result_bind].
  destruct (strip_prefix base judged) as [merged|] eqn:Es; [|done]. cbn [ok_or result_bind].
  apply strip_prefix_spec in Es as ->.
  destruct (substitute_url_token _ token) as [part|] eqn:Ep; [|done]. cbn [result_bind]. intros [= <-].
  apply substitute_ok in Ep as (-> & Hsafe & Hp). eexists base, merged, _, bare.
  split_and!; [done|done|done|done| |exact Hp|done|exact Ee].
  assert (Ht : structure PLACEHOLDER = structure token) by (rewrite (path_safe_no_structure token Hsafe); reflexivity).
  rewrite !structure_app, (structure_replace PLACEHOLDER) by done. by rewrite structure_replace.
Qed.

(** ** The cap on a buffered body *)

Lemma read_chunks_spec buf chunks :
  Z.of_nat (String.length buf) <= MAX_RESPONSE_BYTES →
  match read_chunks buf chunks with
  | Ok b => ∃ cs, chunks = Some <$> cs ∧ b = buf +:+ join "" cs
      ∧ Z.of_nat (String.length b) <= MAX_RESPONSE_BYTES
  | Err e => e = PE_Http HT_Chunk ∧ None ∈ chunks
      ∨ e = PE_Http HT_Cap ∧ ∃ cs rest, chunks = (Some <$> cs) ++ rest
          ∧ MAX_RESPONSE_BYTES < Z.of_nat (String.length (buf +:+ join "" cs))
  end.
Proof.
  assert (Hj : ∀ (c : string) cs, join "" (c :: cs) = c +:+ join "" cs).
  { intros c [|d cs]; [by rewrite string_app_nil_r|done]. }
  revert buf. induction chunks as [|[c|] chunks IH]; intros buf Hb; cbn [read_chunks].
  - exists []. by rewrite string_app_nil_r.
  - destruct (Z.ltb_spec MAX_RESPONSE_BYTES (Z.of_nat (String.length buf) + Z.of_nat (String.length c))).
    + right. split; [done|]. exists [c], chunks. split; [done|].
      rewrite Hj, string_app_nil_r, length_app_string. lia.
    + specialize (IH (buf +:+ c)). rewrite length_app_string, Nat2Z.inj_add in IH. specialize (IH ltac:(lia)).
      destruct (read_chunks (buf +:+ c) chunks).
      * destruct IH as (cs & -> & -> & Hl). exists (c :: cs). split; [done|].
        rewrite Hj, <- string_app_assoc. done.
      * destruct IH as [[? ?]|(? & cs & rest & -> & Hl)]; [left; split; [done|by right]|].
        right. split; [done|]. exists (c :: cs), rest. split; [done|].
        by rewrite Hj, <- string_app_assoc.
  - left. split; [done|by left].
Qed.

(** A buffered response body is exactly the concatenation of the upstream's chunks and
    never exceeds ten mebibytes; a body is refused only when its declared length or a
    prefix of its chunks exceeds the cap, or a chunk failed. *)
Theorem buffered_body_is_capped declared chunks :
  match read_body_capped declared chunks with
  | Ok b => ∃ cs, chunks = Some <$> cs ∧ b = join "" cs ∧ Z.of_nat (String.length b) <= MAX_RESPONSE_BYTES
  | Err e => (e = PE_Http HT_Declared ∧ ∃ len, declared = Some len ∧ MAX_RESPONSE_BYTES < len)
      ∨ (e = PE_Http HT_Chunk ∧ None ∈ chunks)
      ∨ (e = PE_Http HT_Cap ∧ ∃ cs rest, chunks = (Some <$> cs) ++ rest
          ∧ MAX_RESPONSE_BYTES < Z.of_nat (String.length (join "" cs)))
  end.
Proof.
  assert (H := read_chunks_spec "" chunks ltac:(done)). unfold read_body_capped.
  destruct declared as [len|]; [destruct (Z.ltb_spec MAX_RESPONSE_BYTES len)|].
  - left. eauto.
  - by destruct (read_chunks "" chunks); [|right].
  - by destruct (read_chunks "" chunks); [|right].
Qed.
End facts.
