(* ===== verification/Idempotency.v ===== *)
(** * Idempotent admin writes

    Models the idempotency records of [src/src/storage/file.rs] and the wrapper
    [idempotent] of [src/src/web/api.rs]: a request reserves its key, runs its operation,
    and records the response to replay, or releases the key when the operation failed.
    The three storage calls are separate locked mutations, so requests interleave
    between them: [Sys] holds the records and the requests whose operation is running,
    and [step] is one arrival or one end of an operation.

    The wrapper's answer to a failing storage call is not modelled: a locked mutation
    that fails leaves the records as they were. *)

From stdpp Require Import base gmap strings list.
From Stdlib Require Import ZArith Lia.
From S2P Require Import Prelude RustStr Json.

Open Scope Z_scope.

(** ** The records *)

(** [IdempotencyRecord]. *)
Record IdempotencyRecord := {
  ir_done : bool;
  ir_body_hash : string;
  ir_status : Z;
  ir_response : string;
  ir_created_at : DateTime;
}.

(** [IdempotencyState]. *)
Inductive IdempotencyState :=
| IS_Fresh | IS_Pending | IS_Mismatch | IS_Done (status : Z) (body : string).

Abbreviation Records := (gmap string IdempotencyRecord).

Definition STALE_IDEMPOTENCY_RESERVATION_SECS : Z := 60.
Definition IDEMPOTENCY_RETENTION_SECS : Z := 24 * 60 * 60.

(** [gc_idempotency]. *)
Definition worth_keeping (now : DateTime) (rec : IdempotencyRecord) : bool :=
  let age := num_seconds (now - ir_created_at rec) in
  if ir_done rec then age <? IDEMPOTENCY_RETENTION_SECS else age <? STALE_IDEMPOTENCY_RESERVATION_SECS.
Definition gc_idempotency (now : DateTime) (m : Records) : Records :=
  filter (λ kr, worth_keeping now kr.2 = true) m.

(** The reservation of a key. *)
Definition reservation (body_hash : string) (now : DateTime) : IdempotencyRecord :=
  {| ir_done := false; ir_body_hash := body_hash; ir_status := 0; ir_response := "";
     ir_created_at := now |}.

Definition stale (now : DateTime) (rec : IdempotencyRecord) : bool :=
  negb (ir_done rec) && (STALE_IDEMPOTENCY_RESERVATION_SECS <? num_seconds (now - ir_created_at rec)).

(** [idempotency_check_or_reserve]; [gc_now] is the clock that the sweep reads. *)
Definition idempotency_check_or_reserve (now gc_now : DateTime) (key body_hash : string) (m : Records)
    : IdempotencyState * Records :=
  let reserve := (IS_Fresh, <[key := reservation body_hash now]> (gc_idempotency gc_now m)) in
  match m !! key with
  | None => reserve
  | Some rec =>
      if stale now rec then reserve
      else if negb (String.eqb (ir_body_hash rec) body_hash) then (IS_Mismatch, m)
      else if ir_done rec then (IS_Done (ir_status rec) (ir_response rec), m)
      else (IS_Pending, m)
  end.

(** [idempotency_complete]. *)
Definition completed (rec : IdempotencyRecord) (status : Z) (body : string) : IdempotencyRecord :=
  {| ir_done := true; ir_body_hash := ir_body_hash rec; ir_status := status; ir_response := body;
     ir_created_at := ir_created_at rec |}.
Definition idempotency_complete (now : DateTime) (key body_hash : string) (status : Z) (body : string)
    (m : Records) : Records :=
  match m !! key with
  | Some rec =>
      if String.eqb (ir_body_hash rec) body_hash then <[key := completed rec status body]> m else m
  | None => <[key := completed (reservation body_hash now) status body]> m
  end.

(** [idempotency_release]. *)
Definition idempotency_release (key : string) (m : Records) : Records :=
  match m !! key with
  | Some rec => if ir_done rec then m else delete key m
  | None => m
  end.

(** ** The wrapper *)

(** [IdempotencyClass]. *)
Inductive IdempotencyClass := AtMostOnce | Convergent.

(** [redact_for_replay]: a minted token is not retained. *)
Definition TOKEN_NOTE : string :=
  "The plaintext token is only returned on the original request and is not retained. If you lost it, revoke this token and mint a new one.".
Definition redact_for_replay (body : Value) : Value :=
  match body with
  | JObject obj =>
      match json_get "token" body with
      | Some _ =>
          JObject (obj_insert "token_note" (JString TOKEN_NOTE)
            (obj_remove "warning" (obj_insert "token" JNull (obj_remove "token" obj))))
      | None => body
      end
  | _ => body
  end.

(** What [idempotent] does before the operation: run it, or answer at once. *)
Inductive Answer :=
| AN_Run | AN_Replay (status : Z) (body : string) | AN_InProgress | AN_KeyReused.

Definition begin_idempotent (class : IdempotencyClass) (now gc_now : DateTime) (key body_hash : string)
    (m : Records) : Answer * Records :=
  let '(state, m') := idempotency_check_or_reserve now gc_now key body_hash m in
  (match state with
   | IS_Done status body => match class with AtMostOnce => AN_Replay status body | Convergent => AN_Run end
   | IS_Pending => AN_InProgress
   | IS_Mismatch => AN_KeyReused
   | IS_Fresh => AN_Run
   end, m').

Definition is_success (status : Z) : bool := (200 <=? status) && (status <? 300).

(** What it does after: record the response, or release the key. *)
Definition finish_idempotent `{SerdeJson} (now : DateTime) (key body_hash : string) (status : Z)
    (body : Value) (m : Records) : Records :=
  if is_success status
  then idempotency_complete now key body_hash status (json_to_string (redact_for_replay body)) m
  else idempotency_release key m.

(** ** Requests in flight *)

Record InFlight := { run_key : string; run_hash : string; run_start : DateTime }.
Record Sys := { sys_records : Records; sys_runs : list InFlight }.

Inductive Event :=
| Arrive (class : IdempotencyClass) (key body_hash : string) (now gc_now : DateTime)
| Finish (i : nat) (status : Z) (body : Value) (now : DateTime).

Section system.
Context {SJ : SerdeJson}.

Definition step (s : Sys) (e : Event) : option Answer * Sys :=
  match e with
  | Arrive class key h now gc_now =>
      let '(a, m) := begin_idempotent class now gc_now key h (sys_records s) in
      (Some a,
       {| sys_records := m;
          sys_runs := match a with
                      | AN_Run => sys_runs s ++ [{| run_key := key; run_hash := h; run_start := now |}]
                      | _ => sys_runs s
                      end |})
  | Finish i status body now =>
      match sys_runs s !! i with
      | Some r =>
          (None,
           {| sys_records := finish_idempotent now (run_key r) (run_hash r) status body (sys_records s);
              sys_runs := delete i (sys_runs s) |})
      | None => (None, s)
      end
  end.

Definition exec (s : Sys) (es : list Event) : Sys := foldl (λ s e, (step s e).2) s es.

Definition idle_sys : Sys := {| sys_records := ∅; sys_runs := [] |}.

(** ** The conditions on a schedule *)

(** At every event, every operation in flight started less than the stale window ago. *)
Definition within (bound : Z) (t start : DateTime) : Prop := num_seconds (t - start) < bound.
Definition prompt (s : Sys) (e : Event) : Prop :=
  match e with
  | Arrive _ _ _ now gc_now =>
      ∀ r, r ∈ sys_runs s → within STALE_IDEMPOTENCY_RESERVATION_SECS now (run_start r)
        ∧ within STALE_IDEMPOTENCY_RESERVATION_SECS gc_now (run_start r)
  | Finish _ _ _ _ => True
  end.
Fixpoint prompt_trace (s : Sys) (es : list Event) : Prop :=
  match es with
  | [] => True
  | e :: es' => prompt s e ∧ prompt_trace (step s e).2 es'
  end.

(** Every request for [k] is of the at-most-once class. *)
Definition once_only (k : string) (e : Event) : Prop :=
  match e with Arrive class k' _ _ _ => k' = k → class = AtMostOnce | Finish _ _ _ _ => True end.

(** An arrival sweeps before [start] plus the retention window. *)
Definition retained (start : DateTime) (e : Event) : Prop :=
  match e with
  | Arrive _ _ _ _ gc_now => within IDEMPOTENCY_RETENTION_SECS gc_now start
  | Finish _ _ _ _ => True
  end.

(** A run of [k] owns the reservation of [k], and there is one such run at most. *)
Definition owned (k : string) (s : Sys) : Prop :=
  ∀ i r, sys_runs s !! i = Some r → run_key r = k →
    sys_records s !! k = Some (reservation (run_hash r) (run_start r))
    ∧ ∀ j r', sys_runs s !! j = Some r' → run_key r' = k → j = i.

(** [k] is completed with [rec] and no run of it is in flight. *)
Definition settled (k : string) (rec : IdempotencyRecord) (s : Sys) : Prop :=
  sys_records s !! k = Some rec ∧ ∀ r, r ∈ sys_runs s → run_key r ≠ k.

(** ** Lemmas *)

Lemma gc_lookup now m k rec :
  m !! k = Some rec → worth_keeping now rec = true → gc_idempotency now m !! k = Some rec.
Proof. intros H1 H2. apply map_lookup_filter_Some. by split. Qed.

Lemma reserve_other now gc_now key h m a m' k rec :
  idempotency_check_or_reserve now gc_now key h m = (a, m') → key ≠ k →
  m !! k = Some rec → worth_keeping gc_now rec = true → m' !! k = Some rec.
Proof.
  intros H Hne Hk Hw. unfold idempotency_check_or_reserve in H.
  assert (Hr : <[key := reservation h now]> (gc_idempotency gc_now m) !! k = Some rec).
  { rewrite lookup_insert_ne by done. by apply gc_lookup. }
  destruct (m !! key) as [r|]; [|by injection H as <- <-].
  destruct (stale now r); [by injection H as <- <-|].
  destruct (negb _); [by injection H as <- <-|]. destruct (ir_done r); by injection H as <- <-.
Qed.

Lemma finish_other now key h status body m k :
  key ≠ k → finish_idempotent now key h status body m !! k = m !! k.
Proof.
  intros Hne. unfold finish_idempotent, idempotency_complete, idempotency_release.
  destruct (is_success status); destruct (m !! key) as [r|]; try done.
  - destruct (String.eqb _ _); [by rewrite lookup_insert_ne|done].
  - by rewrite lookup_insert_ne.
  - destruct (ir_done r); [done|by rewrite lookup_delete_ne].
Qed.

Lemma reservation_kept now h start :
  within STALE_IDEMPOTENCY_RESERVATION_SECS now start → worth_keeping now (reservation h start) = true.
Proof. unfold worth_keeping, within. cbn. by rewrite Z.ltb_lt. Qed.

Lemma delete_lookup_elem {A} (l : list A) i j x :
  delete i l !! j = Some x → l !! (if (j <? i)%nat then j else S j) = Some x.
Proof.
  destruct (Nat.ltb_spec j i).
  - by rewrite list_lookup_delete_lt.
  - by rewrite list_lookup_delete_ge.
Qed.

(** An arrival for [k] while a run of [k] owns the key starts nothing. *)
Lemma arrive_owned now gc_now k h r m :
  m !! k = Some (reservation (run_hash r) (run_start r)) →
  within STALE_IDEMPOTENCY_RESERVATION_SECS now (run_start r) →
  (idempotency_check_or_reserve now gc_now k h m).1 ≠ IS_Fresh
  ∧ (begin_idempotent AtMostOnce now gc_now k h m).1 ≠ AN_Run
  ∧ (begin_idempotent AtMostOnce now gc_now k h m).2 = m.
Proof.
  intros Hk Hp. unfold begin_idempotent, idempotency_check_or_reserve. rewrite Hk.
  assert (Hs : stale now (reservation (run_hash r) (run_start r)) = false).
  { unfold stale, within in *. cbn. apply Z.ltb_ge. lia. }
  rewrite Hs. cbn [ir_done reservation]. by destruct (negb _).
Qed.

Lemma begin_once_run now gc_now k h m m' :
  begin_idempotent AtMostOnce now gc_now k h m = (AN_Run, m') →
  m' = <[k := reservation h now]> (gc_idempotency gc_now m).
Proof.
  unfold begin_idempotent, idempotency_check_or_reserve.
  destruct (m !! k) as [r|]; [|by intros [= <-]].
  destruct (stale now r); [by intros [= <-]|]. destruct (negb _); [done|]. by destruct (ir_done r).
Qed.

Lemma begin_records class now gc_now k h m :
  (begin_idempotent class now gc_now k h m).2 = (idempotency_check_or_reserve now gc_now k h m).2.
Proof. unfold begin_idempotent. by destruct (idempotency_check_or_reserve now gc_now k h m). Qed.

Lemma begin_other class now gc_now key h m k rec :
  key ≠ k → m !! k = Some rec → worth_keeping gc_now rec = true →
  (begin_idempotent class now gc_now key h m).2 !! k = Some rec.
Proof.
  intros Hne Hk Hw. rewrite begin_records.
  destruct (idempotency_check_or_reserve now gc_now key h m) as [a m'] eqn:E.
  by apply (reserve_other _ _ _ _ _ _ _ _ _ E).
Qed.

Lemma arrive_step s class key h now gc_now :
  (step s (Arrive class key h now gc_now)).2 =
  {| sys_records := (begin_idempotent class now gc_now key h (sys_records s)).2;
     sys_runs := match (begin_idempotent class now gc_now key h (sys_records s)).1 with
                 | AN_Run => sys_runs s ++ [{| run_key := key; run_hash := h; run_start := now |}]
                 | _ => sys_runs s end |}.
Proof. cbn. by destruct (begin_idempotent class now gc_now key h (sys_records s)). Qed.

(** A run of [k] after an arrival is an old one, or the one just started. *)
Lemma arrive_runs s class key h now gc_now i r :
  sys_runs (step s (Arrive class key h now gc_now)).2 !! i = Some r →
  sys_runs s !! i = Some r
  ∨ (i = length (sys_runs s) ∧ r = {| run_key := key; run_hash := h; run_start := now |}
     ∧ (begin_idempotent class now gc_now key h (sys_records s)).1 = AN_Run).
Proof.
  rewrite arrive_step. cbn [sys_runs].
  destruct (begin_idempotent class now gc_now key h (sys_records s)).1; auto.
  intros [?|[Hi Hr]]%lookup_app_Some; [by left|]. right. apply list_lookup_singleton_Some in Hr as [? <-].
  split_and!; [lia|done|done].
Qed.

Lemma owned_step k s e : owned k s → prompt s e → once_only k e → owned k (step s e).2.
Proof.
  intros Ho Hp Honce. destruct e as [class key h now gc_now|i status body now].
  - cbn [prompt once_only] in *. intros i r Hi Hk.
    destruct (arrive_runs _ _ _ _ _ _ _ _ Hi) as [Hold|(-> & -> & Hrun)].
    + destruct (Ho i r Hold Hk) as [Hrec Huniq].
      destruct (Hp r (list_elem_of_lookup_2 _ _ _ Hold)) as [Hnow Hgc].
      destruct (decide (key = k)) as [->|Hne].
      * rewrite (Honce eq_refl) in *. destruct (arrive_owned now gc_now k h r _ Hrec Hnow) as (_ & Ha & Hm).
        split; [rewrite arrive_step; cbn [sys_records]; by rewrite Hm|]. intros j r' Hj Hk'.
        destruct (arrive_runs _ _ _ _ _ _ _ _ Hj) as [?|(_ & _ & ?)]; [by apply (Huniq j r')|done].
      * split; [rewrite arrive_step; cbn [sys_records]; apply begin_other; [done|done|by apply reservation_kept]|].
        intros j r' Hj Hk'. destruct (arrive_runs _ _ _ _ _ _ _ _ Hj) as [?|(_ & -> & _)];
          [by apply (Huniq j r')|done].
    + cbn [run_key] in Hk. subst key. rewrite (Honce eq_refl) in *.
      destruct (begin_idempotent AtMostOnce now gc_now k h (sys_records s)) as [a m'] eqn:E. cbn in Hrun. subst a.
      split.
      { rewrite arrive_step, E. cbn. by rewrite (begin_once_run _ _ _ _ _ _ E), lookup_insert_eq. }
      intros j r' Hj Hk'. destruct (arrive_runs _ _ _ _ _ _ _ _ Hj) as [Hold|(-> & _ & _)]; [|done].
      exfalso. destruct (Ho j r' Hold Hk') as [Hrec _].
      destruct (Hp r' (list_elem_of_lookup_2 _ _ _ Hold)) as [Hnow _].
      destruct (arrive_owned now gc_now k h r' _ Hrec Hnow) as (_ & Hn & _). by rewrite E in Hn.
  - cbn [step]. destruct (sys_runs s !! i) as [r|] eqn:Er; [|done]. cbn [snd]. intros j r' Hj Hk.
    cbn [sys_runs sys_records] in *. apply delete_lookup_elem in Hj as Hj'.
    destruct (Ho _ r' Hj' Hk) as [Hrec Huniq].
    assert (Hne : run_key r ≠ k).
    { intros Hr. specialize (Huniq i r Er Hr). revert Huniq. destruct (Nat.ltb_spec j i); lia. }
    split; [by rewrite finish_other|]. intros j' r'' Hj2 Hk2. apply delete_lookup_elem in Hj2.
    specialize (Huniq _ _ Hj2 Hk2). revert Huniq.
    destruct (Nat.ltb_spec j i), (Nat.ltb_spec j' i); lia.
Qed.

Lemma owned_exec k es s :
  owned k s → prompt_trace s es → Forall (once_only k) es → owned k (exec s es).
Proof.
  revert s. induction es as [|e es IH]; intros s Ho Hp Hf; [done|].
  destruct Hp as [He Hp]. apply Forall_cons in Hf as [Hfe Hf]. apply IH; [|done|done].
  by apply owned_step.
Qed.

Lemma settled_step k rec s e :
  ir_done rec = true → settled k rec s → once_only k e → retained (ir_created_at rec) e →
  settled k rec (step s e).2.
Proof.
  intros Hd [Hk Hno] Honce Hr. destruct e as [class key h now gc_now|i status body now].
  - cbn [once_only retained] in *.
    assert (Hw : worth_keeping gc_now rec = true) by (unfold worth_keeping; rewrite Hd; by apply Z.ltb_lt).
    destruct (decide (key = k)) as [->|Hne].
    + rewrite (Honce eq_refl). rewrite arrive_step. unfold begin_idempotent, idempotency_check_or_reserve.
      rewrite Hk. unfold stale. rewrite Hd. cbn [negb andb]. destruct (negb _); by split.
    + split; [rewrite arrive_step; cbn [sys_records]; by apply begin_other|].
      intros r Hin. apply list_elem_of_lookup in Hin as [j Hj].
      destruct (arrive_runs _ _ _ _ _ _ _ _ Hj) as [?|(_ & -> & _)]; [|done].
      apply Hno. by apply (list_elem_of_lookup_2 _ j).
  - cbn [step]. destruct (sys_runs s !! i) as [r|] eqn:Er; [|by split]. cbn [snd]. split.
    + cbn [sys_records]. rewrite finish_other; [done|]. apply Hno. by apply (list_elem_of_lookup_2 _ i).
    + intros r' Hin. cbn [sys_runs] in Hin. apply list_elem_of_lookup in Hin as [j Hj%delete_lookup_elem].
      apply Hno. by apply (list_elem_of_lookup_2 _ _ _ Hj).
Qed.

Lemma settled_exec k rec es s :
  ir_done rec = true → settled k rec s → Forall (once_only k) es → Forall (retained (ir_created_at rec)) es →
  settled k rec (exec s es).
Proof.
  intros Hd. revert s. induction es as [|e es IH]; intros s Hs Hf Hr; [done|].
  apply Forall_cons in Hf as [Hfe Hf]. apply Forall_cons in Hr as [Hre Hr]. apply IH; [|done|done].
  by apply settled_step.
Qed.

(** A successful end of the one run of [k] settles it. *)
Lemma finish_settles k s i r status body now :
  owned k s → sys_runs s !! i = Some r → run_key r = k → is_success status = true →
  settled k (completed (reservation (run_hash r) (run_start r)) status (json_to_string (redact_for_replay body)))
    (step s (Finish i status body now)).2.
Proof.
  intros Ho Hi Hk Hs. destruct (Ho i r Hi Hk) as [Hrec Huniq]. cbn [step]. rewrite Hi. cbn [snd]. split.
  - cbn [sys_records]. unfold finish_idempotent, idempotency_complete. rewrite Hs, Hk, Hrec. cbn.
    by rewrite String.eqb_refl, lookup_insert_eq.
  - intros r' Hin Hk'. cbn [sys_runs] in Hin. apply list_elem_of_lookup in Hin as [j Hj%delete_lookup_elem].
    specialize (Huniq _ _ Hj Hk'). revert Huniq. destruct (Nat.ltb_spec j i); lia.
Qed.

Lemma idle_owned k : owned k idle_sys.
Proof. by intros [|i] r H. Qed.

(** As long as operations end within the stale window, an at-most-once operation is in
    flight at most once per key; and after it succeeded, every later request with the
    key, for a day from the reservation, runs nothing: the same body gets the recorded
    response, another body a conflict. *)
Theorem idempotent_operation_runs_once k es i r status body now es' class h now' gc_now' :
  let before := exec idle_sys es in
  let after := exec before (Finish i status body now :: es') in
  prompt_trace idle_sys es → Forall (once_only k) es →
  sys_runs before !! i = Some r → run_key r = k → is_success status = true →
  Forall (once_only k) (es' ++ [Arrive class k h now' gc_now']) → Forall (retained (run_start r)) es' →
  (∀ j r', sys_runs before !! j = Some r' → run_key r' = k → j = i)
  ∧ (step after (Arrive class k h now' gc_now')).1
    = Some (if String.eqb (run_hash r) h
            then AN_Replay status (json_to_string (redact_for_replay body)) else AN_KeyReused)
  ∧ ∀ r', r' ∈ sys_runs (step after (Arrive class k h now' gc_now')).2 → run_key r' ≠ k.
Proof.
  intros before after Hp Hf Hi Hk Hs Hf' Hr.
  assert (Ho : owned k before) by (apply owned_exec; [apply idle_owned|done|done]).
  apply Forall_app in Hf' as [Hf' Hlast]. apply Forall_cons in Hlast as [Hlast _]. cbn in Hlast. specialize (Hlast eq_refl). subst class.
  split; [by apply (Ho i r)|].
  assert (Hset : settled k (completed (reservation (run_hash r) (run_start r)) status
                              (json_to_string (redact_for_replay body))) after).
  { unfold after. cbn [exec foldl]. apply (settled_exec _ _ es'); [done|by apply finish_settles|done|done]. }
  destruct Hset as [Hrec Hno]. cbn [step]. unfold begin_idempotent, idempotency_check_or_reserve.
  rewrite Hrec. cbn. by destruct (String.eqb (run_hash r) h).
Qed.

(** The end of a run that failed releases its key. *)
Lemma failed_finish s r rest status body now :
  sys_runs s = r :: rest → is_success status = false →
  step s (Finish 0 status body now) =
  (None, {| sys_records := idempotency_release (run_key r) (sys_records s); sys_runs := rest |}).
Proof. intros Hr Hs. unfold step, finish_idempotent. by rewrite Hr, Hs. Qed.

(** An arrival for a free or stale key starts the operation. *)
Lemma arrive_reserves s k h now gc_now :
  (∀ rec, sys_records s !! k = Some rec → stale now rec = true) →
  step s (Arrive AtMostOnce k h now gc_now) =
  (Some AN_Run,
   {| sys_records := <[k := reservation h now]> (gc_idempotency gc_now (sys_records s));
      sys_runs := sys_runs s ++ [{| run_key := k; run_hash := h; run_start := now |}] |}).
Proof.
  intros H. unfold step, begin_idempotent, idempotency_check_or_reserve.
  destruct (sys_records s !! k) as [rec|] eqn:E; [by rewrite H|done].
Qed.

(** A request that outlived the stale window releases whatever reservation holds its key:
    after its key was taken over by a second request, its failure frees the key, and a
    third request starts the operation while the second, well within its own window, is
    still running it. *)
Theorem stale_release_frees_a_live_reservation k h t body status :
  is_success status = false →
  let start := exec idle_sys
    [ Arrive AtMostOnce k h t t; Arrive AtMostOnce k h (t + seconds 61) (t + seconds 61);
      Finish 0 status body (t + seconds 62) ] in
  let third := step start (Arrive AtMostOnce k h (t + seconds 63) (t + seconds 63)) in
  third.1 = Some AN_Run
  ∧ sys_runs third.2 = [ {| run_key := k; run_hash := h; run_start := t + seconds 61 |};
                         {| run_key := k; run_hash := h; run_start := t + seconds 63 |} ].
Proof.
  intros Hs. unfold exec. cbn [foldl]. rewrite (arrive_reserves idle_sys)
    by (intros rec; cbn [sys_records idle_sys]; by rewrite lookup_empty).
  cbn [snd].
  rewrite (arrive_reserves _ k h (t + seconds 61)); cbn [snd sys_records sys_runs app].
  2: { intros rec. rewrite lookup_insert_eq. intros [= <-]. unfold stale. cbn [ir_created_at reservation].
       rewrite Z.add_simpl_l. reflexivity. }
  rewrite (failed_finish _ {| run_key := k; run_hash := h; run_start := t |}
    [{| run_key := k; run_hash := h; run_start := t + seconds 61 |}]) by done.
  cbn [snd sys_records run_key]. rewrite arrive_reserves; [done|].
  unfold idempotency_release. cbn [sys_records]. rewrite lookup_insert_eq. cbn [ir_done reservation].
  intros rec. by rewrite lookup_delete_eq.
Qed.
End system.
