(* ===== verification/NativeDraft.v ===== *)
(** * Native draft handoffs

    Models [src/src/storage/social.rs] and the native-draft operations of
    [src/src/storage/file.rs]: a draft at a provider is created under a reservation; the
    holder of its token ends it with one outcome, or releases it while nothing was sent.
    The checks of keys, records and receipts are written out with their messages.

    An operation is a function of the stored records; a locked mutation that returns an
    error rolls back, so the records are unchanged then ([dr_op]).  [storage_key] is the
    JSON of the key, from [serde_json]; that it is injective is [DraftSerdeLaws]. *)

From stdpp Require Import base gmap strings list.
From Stdlib Require Import Ascii ZArith Lia.
From S2P Require Import Prelude RustStr.

Open Scope Z_scope.

(** ** Keys, receipts and records *)

Definition MAX_IDENTITY_LEN : nat := 256.
Definition MAX_PROJECT_LEN : nat := 512.
Definition MAX_HASH_LEN : nat := 128.
Definition MAX_TOKEN_LEN : nat := 128.
Definition MAX_URL_LEN : nat := 2048.
Definition MAX_ERROR_LEN : nat := 4096.

(** [chars().count()] of UTF-8 text: the bytes that do not continue a character. *)
Fixpoint chars_count (s : string) : nat :=
  match s with
  | EmptyString => 0
  | String c s' =>
      let n := nat_of_ascii c in
      if (128 <=? n)%nat && (n <? 192)%nat then chars_count s' else S (chars_count s')
  end.

(** [bounded]. *)
Definition bounded (value : string) (max : nat) (field : string) : result unit string :=
  if is_empty (trim value) then Err field
  else if (max <? chars_count value)%nat then Err field else Ok tt.

(** [NativeDraftKey]. *)
Record NativeDraftKey := {
  nk_tenant : string;
  nk_project_ref : string;
  nk_provider : string;
  nk_target_alias : string;
  nk_credential_alias : string;
  nk_campaign_id : string;
  nk_variant_id : string;
  nk_row_version : Z;
}.
#[export] Instance NativeDraftKey_eq_dec : EqDecision NativeDraftKey.
Proof. solve_decision. Defined.

(** One field of [NativeDraftKey::validate], then the whole. *)
Definition key_field (name value : string) : result unit string :=
  if is_empty (trim value) then Err ("native draft " +:+ name +:+ " is blank")
  else if ((if String.eqb name "project_ref" then MAX_PROJECT_LEN else MAX_IDENTITY_LEN)
           <? chars_count value)%nat
  then Err ("native draft " +:+ name +:+ " is too long") else Ok tt.
Definition validate_key_shape (k : NativeDraftKey) : result unit string :=
  let? _ := key_field "tenant" (nk_tenant k) in
  let? _ := key_field "project_ref" (nk_project_ref k) in
  let? _ := key_field "provider" (nk_provider k) in
  let? _ := key_field "target_alias" (nk_target_alias k) in
  let? _ := key_field "credential_alias" (nk_credential_alias k) in
  let? _ := key_field "campaign_id" (nk_campaign_id k) in
  let? _ := key_field "variant_id" (nk_variant_id k) in
  if nk_row_version k =? 0 then Err "native draft row_version must be positive" else Ok tt.

(** [NativeDraftMetadata]. *)
Record NativeDraftMetadata := {
  nm_approval_id : string;
  nm_execution_epoch : Z;
  nm_principal_id : option string;
  nm_agent_label : option string;
  nm_content_hash : string;
  nm_credential_id : string;
}.
#[export] Instance NativeDraftMetadata_eq_dec : EqDecision NativeDraftMetadata.
Proof. solve_decision. Defined.

(** [DraftSyncStatus]. *)
Inductive DraftSyncStatus := DS_Reserved | DS_Succeeded | DS_Failed | DS_Unknown | DS_Drift.
#[export] Instance DraftSyncStatus_eq_dec : EqDecision DraftSyncStatus.
Proof. solve_decision. Defined.

(** [DraftReceipt]. *)
Record DraftReceipt := {
  dr_provider : string;
  dr_campaign_id : string;
  dr_variant_id : string;
  dr_row_version : Z;
  dr_content_hash : string;
  dr_channel_ref : string;
  dr_external_content_hash : option string;
  dr_external_id : option string;
  dr_external_status : option string;
  dr_review_url : option string;
  dr_sync_status : DraftSyncStatus;
}.
#[export] Instance DraftReceipt_eq_dec : EqDecision DraftReceipt.
Proof. solve_decision. Defined.

(** [NativeDraftRecord]. *)
Record NativeDraftRecord := {
  nr_key : NativeDraftKey;
  nr_payload_hash : string;
  nr_metadata : NativeDraftMetadata;
  nr_reservation_token : string;
  nr_status : DraftSyncStatus;
  nr_receipt : option DraftReceipt;
  nr_original_receipt : option DraftReceipt;
  nr_error : option string;
  nr_created_at : DateTime;
  nr_updated_at : DateTime;
}.

(** [NativeDraftOutcome] and [NativeDraftReservation]. *)
Record NativeDraftOutcome := {
  no_status : DraftSyncStatus;
  no_receipt : option DraftReceipt;
  no_error : option string;
}.
Inductive NativeDraftReservation := NR_Fresh (r : NativeDraftRecord) | NR_Existing (r : NativeDraftRecord).

(** ** Validation *)

(** [len() == 64] and every byte [is_ascii_hexdigit]. *)
Definition is_ascii_hexdigit (c : ascii) : bool :=
  let n := nat_of_ascii c in
  (48 <=? n)%nat && (n <=? 57)%nat || (65 <=? n)%nat && (n <=? 70)%nat || (97 <=? n)%nat && (n <=? 102)%nat.
Definition is_sha256_hex (s : string) : bool := (String.length s =? 64)%nat && str_all is_ascii_hexdigit s.

Definition opt_bounded (o : option string) (max : nat) (field : string) : result unit string :=
  match o with Some v => bounded v max field | None => Ok tt end.

Definition confirmed (s : DraftSyncStatus) : bool :=
  bool_decide (s = DS_Succeeded) || bool_decide (s = DS_Drift).

Definition is_missing (o : option string) : bool :=
  match o with Some v => is_empty (trim v) | None => true end.

(** [validate_receipt]. *)
Definition validate_receipt (key : NativeDraftKey) (content_hash : string) (outcome : DraftSyncStatus)
    (r : DraftReceipt) : result unit string :=
  let? _ := bounded (dr_provider r) MAX_IDENTITY_LEN "native draft receipt provider is invalid" in
  let? _ := bounded (dr_campaign_id r) MAX_IDENTITY_LEN "native draft receipt campaign is invalid" in
  let? _ := bounded (dr_variant_id r) MAX_IDENTITY_LEN "native draft receipt variant is invalid" in
  let? _ := bounded (dr_channel_ref r) MAX_IDENTITY_LEN "native draft receipt target is invalid" in
  let? _ := bounded (dr_content_hash r) MAX_HASH_LEN "native draft receipt content hash is invalid" in
  if negb (String.eqb (dr_provider r) (nk_provider key)) || negb (String.eqb (dr_campaign_id r) (nk_campaign_id key))
     || negb (String.eqb (dr_variant_id r) (nk_variant_id key)) || negb (dr_row_version r =? nk_row_version key)
     || negb (String.eqb (dr_channel_ref r) (nk_target_alias key)) || negb (String.eqb (dr_content_hash r) content_hash)
  then Err "native draft receipt identity does not match its key"
  else if negb (bool_decide (dr_sync_status r = outcome))
  then Err "native draft receipt status does not match record status"
  else
    let? _ := opt_bounded (dr_external_id r) MAX_IDENTITY_LEN "native draft external id is invalid" in
    let? _ := match dr_external_content_hash r with
              | Some h =>
                  let? _ := bounded h MAX_HASH_LEN "native draft external content hash is invalid" in
                  if is_sha256_hex h then Ok tt else Err "native draft external content hash is not SHA-256 hex"
              | None => Ok tt
              end in
    let? _ := opt_bounded (dr_external_status r) MAX_IDENTITY_LEN "native draft external status is invalid" in
    let? _ := opt_bounded (dr_review_url r) MAX_URL_LEN "native draft review URL is invalid" in
    if confirmed outcome && (is_missing (dr_external_id r) || is_missing (dr_external_status r))
    then Err "successful/drift native draft receipt lacks provider identity/status"
    else if confirmed outcome && is_missing (dr_external_content_hash r)
    then Err "successful/drift native draft receipt lacks provider content digest"
    else Ok tt.

(** [NativeDraftRecord::validate]. *)
Definition validate_record (r : NativeDraftRecord) : result unit string :=
  let md := nr_metadata r in
  let? _ := validate_key_shape (nr_key r) in
  let? _ := bounded (nr_payload_hash r) MAX_HASH_LEN "native draft payload_hash is invalid" in
  let? _ := bounded (nm_approval_id md) MAX_IDENTITY_LEN "native draft approval identity is invalid" in
  if nm_execution_epoch md =? 0 then Err "native draft execution_epoch must be positive"
  else
    let? _ := match nm_principal_id md with
              | Some p => bounded p MAX_IDENTITY_LEN "native draft principal is invalid"
              | None => Err "native draft principal identity is missing"
              end in
    let? _ := opt_bounded (nm_agent_label md) MAX_IDENTITY_LEN "native draft agent label is invalid" in
    let? _ := bounded (nm_credential_id md) MAX_IDENTITY_LEN "native draft credential identity is invalid" in
    if negb (is_sha256_hex (nm_content_hash md))
    then Err "native draft canonical content hash is not SHA-256 hex"
    else
      let? _ := bounded (nr_reservation_token r) MAX_TOKEN_LEN "native draft reservation token is invalid" in
      let? _ := match nr_error r with
                | Some e => if (MAX_ERROR_LEN <? chars_count e)%nat
                            then Err "native draft error is too long" else Ok tt
                | None => Ok tt
                end in
      if bool_decide (nr_status r = DS_Reserved) && bool_decide (is_Some (nr_receipt r))
      then Err "reserved native draft cannot carry a receipt"
      else
        let? _ := match nr_receipt r with
                  | Some rc => validate_receipt (nr_key r) (nm_content_hash md) (nr_status r) rc
                  | None => Ok tt
                  end in
        let? _ := match nr_original_receipt r with
                  | Some rc => validate_receipt (nr_key r) (nm_content_hash md) (dr_sync_status rc) rc
                  | None => Ok tt
                  end in
        if confirmed (nr_status r) && bool_decide (nr_receipt r = None)
        then Err "successful/drift native draft lacks a receipt"
        else if nr_updated_at r <? nr_created_at r then Err "native draft timestamps are out of order"
        else Ok tt.

(** ** What a valid record is *)

(** A text that says something, in at most so many characters. *)
Definition text_within (max : nat) (s : string) : Prop := trim s ≠ "" ∧ (chars_count s <= max)%nat.
Definition opt_within (max : nat) (o : option string) : Prop := ∀ s, o = Some s → text_within max s.
Record key_wf (k : NativeDraftKey) : Prop := {
  kw_tenant : text_within 256 (nk_tenant k);
  kw_project : text_within 512 (nk_project_ref k);
  kw_provider : text_within 256 (nk_provider k);
  kw_target : text_within 256 (nk_target_alias k);
  kw_credential : text_within 256 (nk_credential_alias k);
  kw_campaign : text_within 256 (nk_campaign_id k);
  kw_variant : text_within 256 (nk_variant_id k);
  kw_version : nk_row_version k ≠ 0;
}.
(** A receipt is about the key's draft and the content that was approved; one that a provider
    confirmed carries the provider's identity, status and content digest. *)
Definition present (o : option string) : Prop := ∃ s, o = Some s ∧ trim s ≠ "".
Record receipt_wf (k : NativeDraftKey) (content : string) (status : DraftSyncStatus) (r : DraftReceipt) : Prop := {
  rw_identity : dr_provider r = nk_provider k ∧ dr_campaign_id r = nk_campaign_id k ∧ dr_variant_id r = nk_variant_id k
    ∧ dr_row_version r = nk_row_version k ∧ dr_channel_ref r = nk_target_alias k ∧ dr_content_hash r = content;
  rw_status : dr_sync_status r = status;
  rw_content : text_within 128 (dr_content_hash r);
  rw_external : opt_within 256 (dr_external_id r) ∧ opt_within 256 (dr_external_status r) ∧ opt_within 2048 (dr_review_url r);
  rw_digest : ∀ h, dr_external_content_hash r = Some h → is_sha256_hex h = true;
  rw_confirmed : status = DS_Succeeded ∨ status = DS_Drift →
    present (dr_external_id r) ∧ present (dr_external_status r) ∧ present (dr_external_content_hash r);
}.
Record record_wf (r : NativeDraftRecord) : Prop := {
  dw_key : key_wf (nr_key r);
  dw_payload : text_within 128 (nr_payload_hash r);
  dw_approval : text_within 256 (nm_approval_id (nr_metadata r)) ∧ nm_execution_epoch (nr_metadata r) ≠ 0;
  dw_principal : ∃ p, nm_principal_id (nr_metadata r) = Some p ∧ text_within 256 p;
  dw_agent : opt_within 256 (nm_agent_label (nr_metadata r));
  dw_credential : text_within 256 (nm_credential_id (nr_metadata r));
  dw_content : is_sha256_hex (nm_content_hash (nr_metadata r)) = true;
  dw_token : text_within 128 (nr_reservation_token r);
  dw_error : ∀ e, nr_error r = Some e → (chars_count e <= 4096)%nat;
  dw_reserved : nr_status r = DS_Reserved → nr_receipt r = None;
  dw_receipt : ∀ rc, nr_receipt r = Some rc → receipt_wf (nr_key r) (nm_content_hash (nr_metadata r)) (nr_status r) rc;
  dw_original : ∀ rc, nr_original_receipt r = Some rc →
    receipt_wf (nr_key r) (nm_content_hash (nr_metadata r)) (dr_sync_status rc) rc;
  dw_confirmed : nr_status r = DS_Succeeded ∨ nr_status r = DS_Drift → is_Some (nr_receipt r);
  dw_times : nr_created_at r <= nr_updated_at r;
}.

Lemma is_empty_ne s : is_empty s = false ↔ s ≠ "".
Proof. by destruct s. Qed.
Lemma bounded_wf v max field : bounded v max field = Ok tt → text_within max v.
Proof.
  unfold bounded, text_within. rewrite <- is_empty_ne. destruct (is_empty (trim v)); [done|]. destruct (Nat.ltb_spec max (chars_count v)); [done|]. by split.
Qed.
Lemma opt_bounded_wf o max field : opt_bounded o max field = Ok tt → opt_within max o.
Proof. destruct o as [v|]; [|by intros _ s]. intros H%bounded_wf s [= <-]. done. Qed.
Lemma key_field_wf name v :
  key_field name v = Ok tt → text_within (if String.eqb name "project_ref" then 512 else 256) v.
Proof.
  unfold key_field, text_within. rewrite <- is_empty_ne. destruct (is_empty (trim v)); [done|].
  destruct (Nat.ltb_spec (if String.eqb name "project_ref" then MAX_PROJECT_LEN else MAX_IDENTITY_LEN) (chars_count v)); [done|].
  intros _. by split.
Qed.
Lemma is_missing_present o : is_missing o = false → present o.
Proof. destruct o as [s|]; [|done]. cbn. intros H%is_empty_ne. by exists s. Qed.

(** Peels one check off a validation that succeeded. *)
Lemma result_bind_ok {A B E} (x : result A E) (k : A → result B E) b : result_bind x k = Ok b → ∃ a, x = Ok a ∧ k a = Ok b.
Proof. destruct x as [a|e]; [|done]. cbn. eauto. Qed.
Ltac peel H :=
  let E := fresh "E" in
  let u := fresh "u" in
  first [ apply result_bind_ok in H as ([] & E & H)
        | match type of H with (if ?b then Err _ else _) = _ => destruct b eqn:E; [discriminate H|] end ].

Lemma key_validated k : validate_key_shape k = Ok tt → key_wf k.
Proof.
  unfold validate_key_shape. intros H. repeat peel H.
  repeat match goal with E : key_field _ _ = _ |- _ => apply key_field_wf in E; cbn in E end. split; try done. by apply Z.eqb_neq.
Qed.
Lemma receipt_validated k content status r : validate_receipt k content status r = Ok tt → receipt_wf k content status r.
Proof.
  unfold validate_receipt. intros H. repeat peel H.
  repeat match goal with E : bounded _ _ _ = _ |- _ => apply bounded_wf in E | E : opt_bounded _ _ _ = _ |- _ => apply opt_bounded_wf in E end.
  repeat match goal with E : _ || _ = false |- _ => apply orb_false_iff in E as [E ?] end.
  repeat match goal with E : negb _ = false |- _ => apply negb_false_iff in E end.
  repeat match goal with E : String.eqb _ _ = true |- _ => apply String.eqb_eq in E | E : (_ =? _) = true |- _ => apply Z.eqb_eq in E
    | E : bool_decide _ = true |- _ => apply bool_decide_eq_true in E end.
  split; try done.
  - intros h Hh. match goal with E : match dr_external_content_hash r with Some _ => _ | None => _ end = _ |- _ => rewrite Hh in E; peel E;
      destruct (is_sha256_hex h); [done|discriminate E] end.
  - intros Hs. assert (Hc : confirmed status = true) by (unfold confirmed; destruct Hs as [-> | ->]; done).
    rewrite Hc in *. cbn [andb] in *. match goal with E : _ || _ = false |- _ => apply orb_false_iff in E as [? ?] end.
    split_and!; by apply is_missing_present.
Qed.
Lemma record_validated r : validate_record r = Ok tt → record_wf r.
Proof.
  unfold validate_record. cbv zeta. intros H. repeat peel H.
  repeat match goal with E : bounded _ _ _ = _ |- _ => apply bounded_wf in E | E : opt_bounded _ _ _ = _ |- _ => apply opt_bounded_wf in E end.
  split; try done.
  - by apply key_validated.
  - split; [done|]. by apply Z.eqb_neq.
  - destruct (nm_principal_id (nr_metadata r)) as [p|]; [|done]. exists p. split; [done|]. by eapply bounded_wf.
  - by apply negb_false_iff.
  - intros e He. rewrite He in *. destruct (Nat.ltb_spec MAX_ERROR_LEN (chars_count e)); [done|]. by unfold MAX_ERROR_LEN in *.
  - intros Hs. rewrite bool_decide_true in * by done. cbn [andb] in *. destruct (nr_receipt r); [|done].
    match goal with E : bool_decide _ = false |- _ => apply bool_decide_eq_false in E; exfalso; apply E; eauto end.
  - intros rc Hrc. rewrite Hrc in *. by apply receipt_validated.
  - intros rc Hrc. rewrite Hrc in *. by apply receipt_validated.
  - intros Hs. assert (Hc : confirmed (nr_status r) = true) by (unfold confirmed; destruct Hs as [-> | ->]; done).
    rewrite Hc in *. cbn [andb] in *. destruct (nr_receipt r); [by eexists|]. by rewrite bool_decide_true in * by done.
  - by apply Z.ltb_ge.
Qed.

(** ** Operations *)

Class DraftSerde := { storage_key : NativeDraftKey → string }.
Class DraftSerdeLaws `{DraftSerde} := { storage_key_inj : ∀ k k', storage_key k = storage_key k' → k = k' }.

Abbreviation Drafts := (gmap string NativeDraftRecord).

(** The refusals of the operations. *)
Inductive DraftError :=
| DE_InvalidConfig (reason : string) | DE_Serialization (reason : string)
| DE_Conflict (reason : string) | DE_NotFound.

Section operations.
Context {DS : DraftSerde}.

(** [reserve_native_draft]; [token] is the drawn reservation token. *)
Definition reserve_native_draft (token : string) (now : DateTime) (key : NativeDraftKey)
    (payload_hash : string) (metadata : NativeDraftMetadata) (m : Drafts)
    : result NativeDraftReservation DraftError * Drafts :=
  match validate_key_shape key with
  | Err reason => (Err (DE_InvalidConfig reason), m)
  | Ok _ =>
      if is_empty (trim payload_hash)
      then (Err (DE_InvalidConfig "native draft payload_hash is blank"), m)
      else
        match m !! storage_key key with
        | Some existing =>
            if negb (String.eqb (nr_payload_hash existing) payload_hash)
               || negb (String.eqb (nm_content_hash (nr_metadata existing)) (nm_content_hash metadata))
            then (Err (DE_Conflict "native draft key is already bound to different content"), m)
            else (Ok (NR_Existing existing), m)
        | None =>
            let record :=
              {| nr_key := key; nr_payload_hash := payload_hash; nr_metadata := metadata;
                 nr_reservation_token := token; nr_status := DS_Reserved; nr_receipt := None;
                 nr_original_receipt := None; nr_error := None; nr_created_at := now;
                 nr_updated_at := now |} in
            match validate_record record with
            | Err reason => (Err (DE_Serialization reason), m)
            | Ok _ => (Ok (NR_Fresh record), <[storage_key key := record]> m)
            end
        end
  end.

(** [release_native_draft]. *)
Definition releasable (token : string) (o : option NativeDraftRecord) : bool :=
  match o with
  | Some r => bool_decide (nr_status r = DS_Reserved) && String.eqb (nr_reservation_token r) token
  | None => false
  end.
Definition release_native_draft (key : NativeDraftKey) (token : string) (m : Drafts)
    : result bool DraftError * Drafts :=
  match validate_key_shape key with
  | Err reason => (Err (DE_InvalidConfig reason), m)
  | Ok _ =>
      if is_empty (trim token) then (Err (DE_InvalidConfig "native draft release token is blank"), m)
      else if releasable token (m !! storage_key key) then (Ok true, delete (storage_key key) m)
      else (Ok false, m)
  end.

(** The record after [finalize_native_draft]. *)
Definition finalized (now : DateTime) (r : NativeDraftRecord) (o : NativeDraftOutcome) : NativeDraftRecord :=
  {| nr_key := nr_key r; nr_payload_hash := nr_payload_hash r; nr_metadata := nr_metadata r;
     nr_reservation_token := nr_reservation_token r; nr_status := no_status o; nr_receipt := no_receipt o;
     nr_original_receipt := match nr_original_receipt r with Some x => Some x | None => no_receipt o end;
     nr_error := no_error o; nr_created_at := nr_created_at r; nr_updated_at := now |}.

(** [finalize_native_draft]. *)
Definition finalize_native_draft (now : DateTime) (key : NativeDraftKey) (token payload_hash : string)
    (o : NativeDraftOutcome) (m : Drafts) : result NativeDraftRecord DraftError * Drafts :=
  match validate_key_shape key with
  | Err reason => (Err (DE_InvalidConfig reason), m)
  | Ok _ =>
      if is_empty (trim token) || is_empty (trim payload_hash)
      then (Err (DE_InvalidConfig "native draft finalize token/hash is blank"), m)
      else
        match m !! storage_key key with
        | None => (Err DE_NotFound, m)
        | Some r =>
            if negb (String.eqb (nr_payload_hash r) payload_hash)
            then (Err (DE_Conflict "native draft finalize payload does not match reservation"), m)
            else if negb (String.eqb (nr_reservation_token r) token)
            then (Err (DE_Conflict "native draft finalize token is not the reservation owner"), m)
            else if negb (bool_decide (nr_status r = DS_Reserved)) then
              if bool_decide (nr_status r = no_status o) && bool_decide (nr_receipt r = no_receipt o)
                 && bool_decide (nr_error r = no_error o)
              then (Ok r, m)
              else (Err (DE_Conflict "native draft operation already has a different terminal outcome"), m)
            else if bool_decide (no_status o = DS_Reserved)
            then (Err (DE_Conflict "native draft cannot finalize back to reserved"), m)
            else
              match validate_record (finalized now r o) with
              | Err reason => (Err (DE_Serialization reason), m)
              | Ok _ => (Ok (finalized now r o), <[storage_key key := finalized now r o]> m)
              end
        end
  end.

(** [get_native_draft], after the reload. *)
Definition get_native_draft (key : NativeDraftKey) (m : Drafts) : result (option NativeDraftRecord) DraftError :=
  match validate_key_shape key with
  | Err reason => Err (DE_InvalidConfig reason)
  | Ok _ => Ok (m !! storage_key key)
  end.

(** ** Sequences of operations *)

Inductive DraftOp :=
| DO_Reserve (token : string) (now : DateTime) (key : NativeDraftKey) (payload_hash : string)
    (metadata : NativeDraftMetadata)
| DO_Release (key : NativeDraftKey) (token : string)
| DO_Finalize (now : DateTime) (key : NativeDraftKey) (token payload_hash : string) (o : NativeDraftOutcome).

Definition draft_step (m : Drafts) (op : DraftOp) : Drafts :=
  match op with
  | DO_Reserve token now key h md => (reserve_native_draft token now key h md m).2
  | DO_Release key token => (release_native_draft key token m).2
  | DO_Finalize now key token h o => (finalize_native_draft now key token h o m).2
  end.
Definition run_drafts (m : Drafts) (ops : list DraftOp) : Drafts := foldl draft_step m ops.

(** Every record is filed under its key and is valid. *)
Definition drafts_ok (m : Drafts) : Prop :=
  ∀ sk r, m !! sk = Some r → sk = storage_key (nr_key r) ∧ validate_record r = Ok tt.

(** The release that the holder of [token] makes for [key]. *)
Definition is_release (sk token : string) (op : DraftOp) : bool :=
  match op with
  | DO_Release key t => String.eqb (storage_key key) sk && String.eqb t token
  | _ => false
  end.

(** ** Theorems *)

Lemma reserve_cases token now key h md m x m' :
  reserve_native_draft token now key h md m = (x, m') →
  (m' = m ∧ ∀ r, x ≠ Ok (NR_Fresh r))
  ∨ ∃ r, x = Ok (NR_Fresh r) ∧ m !! storage_key key = None ∧ m' = <[storage_key key := r]> m
         ∧ nr_key r = key ∧ nr_reservation_token r = token ∧ nr_status r = DS_Reserved
         ∧ validate_record r = Ok tt.
Proof.
  unfold reserve_native_draft. destruct (validate_key_shape key) as [[]|]; [|intros [= <- <-]; by left].
  destruct (is_empty (trim h)); [intros [= <- <-]; by left|].
  destruct (m !! storage_key key) as [e|] eqn:E.
  - destruct (_ || _); intros [= <- <-]; by left.
  - destruct (validate_record _) as [[]|] eqn:Ev; intros [= <- <-]; [right|by left].
    eexists. by split_and!.
Qed.

Lemma release_cases key token m x m' :
  release_native_draft key token m = (x, m') →
  (m' = m ∧ x ≠ Ok true)
  ∨ ∃ r, x = Ok true ∧ m !! storage_key key = Some r ∧ m' = delete (storage_key key) m
         ∧ nr_status r = DS_Reserved ∧ nr_reservation_token r = token.
Proof.
  unfold release_native_draft. destruct (validate_key_shape key) as [[]|]; [|intros [= <- <-]; by left].
  destruct (is_empty (trim token)); [intros [= <- <-]; by left|].
  destruct (m !! storage_key key) as [r|] eqn:E; cbn [releasable]; [|intros [= <- <-]; by left].
  case_bool_decide as Hs; cbn [andb]; [|intros [= <- <-]; by left].
  destruct (String.eqb_spec (nr_reservation_token r) token); intros [= <- <-]; [right; eauto 10|by left].
Qed.

Lemma finalize_cases now key token h o m x m' :
  finalize_native_draft now key token h o m = (x, m') →
  m' = m
  ∨ ∃ r, x = Ok (finalized now r o) ∧ m !! storage_key key = Some r
         ∧ m' = <[storage_key key := finalized now r o]> m
         ∧ nr_status r = DS_Reserved ∧ no_status o ≠ DS_Reserved ∧ nr_reservation_token r = token
         ∧ validate_record (finalized now r o) = Ok tt.
Proof.
  unfold finalize_native_draft. destruct (validate_key_shape key) as [[]|]; [|intros [= <- <-]; by left].
  destruct (_ || _); [intros [= <- <-]; by left|].
  destruct (m !! storage_key key) as [r|] eqn:E; [|intros [= <- <-]; by left].
  destruct (negb (String.eqb (nr_payload_hash r) h)); [intros [= <- <-]; by left|].
  destruct (String.eqb_spec (nr_reservation_token r) token); cbn [negb]; [|intros [= <- <-]; by left].
  case_bool_decide as Hs; cbn [negb].
  - case_bool_decide as Ho; [intros [= <- <-]; by left|].
    destruct (validate_record (finalized now r o)) as [[]|] eqn:Ev; intros [= <- <-]; [right|by left].
    exists r. by split_and!.
  - destruct (_ && _); intros [= <- <-]; by left.
Qed.

(** A step leaves a filed record, changes it from reserved to its outcome, or removes it
    while reserved. *)
Lemma draft_step_record m op sk r :
  m !! sk = Some r →
  draft_step m op !! sk = Some r
  ∨ (∃ now o, nr_status r = DS_Reserved ∧ no_status o ≠ DS_Reserved
       ∧ validate_record (finalized now r o) = Ok tt ∧ draft_step m op !! sk = Some (finalized now r o))
  ∨ (nr_status r = DS_Reserved ∧ is_release sk (nr_reservation_token r) op = true
     ∧ draft_step m op !! sk = None).
Proof.
  intros Hr. destruct op as [token now key h md|key token|now key token h o]; cbn [draft_step is_release].
  - destruct (reserve_native_draft token now key h md m) as [x m'] eqn:E. cbn [snd].
    destruct (reserve_cases _ _ _ _ _ _ _ _ E) as [[-> _]|(r' & _ & Hn & -> & _)]; [by left|].
    left. rewrite lookup_insert_ne; [done|]. congruence.
  - destruct (release_native_draft key token m) as [x m'] eqn:E. cbn [snd].
    destruct (release_cases _ _ _ _ _ E) as [[-> _]|(r' & _ & Hn & -> & Hs & Ht)]; [by left|].
    destruct (decide (storage_key key = sk)) as [<-|Hne]; [|left; by rewrite lookup_delete_ne].
    right; right. rewrite Hr in Hn. injection Hn as ->. rewrite Ht, !String.eqb_refl, lookup_delete_eq. done.
  - destruct (finalize_native_draft now key token h o m) as [x m'] eqn:E. cbn [snd].
    destruct (finalize_cases _ _ _ _ _ _ _ _ E) as [->|(r' & _ & Hn & -> & Hs & Ho & _ & Hv)]; [by left|].
    destruct (decide (storage_key key = sk)) as [<-|Hne]; [|left; by rewrite lookup_insert_ne].
    right; left. rewrite Hr in Hn. injection Hn as ->. exists now, o. by rewrite lookup_insert_eq.
Qed.

Lemma draft_step_ok m op : drafts_ok m → drafts_ok (draft_step m op).
Proof.
  intros Hok. destruct op as [token now key h md|key token|now key token h o]; cbn [draft_step].
  - destruct (reserve_native_draft token now key h md m) as [x m'] eqn:E. cbn [snd].
    destruct (reserve_cases _ _ _ _ _ _ _ _ E) as [[-> _]|(r' & _ & Hn & -> & Hk & _ & _ & Hv)]; [done|].
    intros sk r [[<- <-]|[_ H]]%lookup_insert_Some; [by rewrite Hk|by apply Hok].
  - destruct (release_native_draft key token m) as [x m'] eqn:E. cbn [snd].
    destruct (release_cases _ _ _ _ _ E) as [[-> _]|(r' & _ & Hn & -> & _)]; [done|].
    intros sk r [_ H]%lookup_delete_Some. by apply Hok.
  - destruct (finalize_native_draft now key token h o m) as [x m'] eqn:E. cbn [snd].
    destruct (finalize_cases _ _ _ _ _ _ _ _ E) as [->|(r' & _ & Hn & -> & _ & _ & _ & Hv)]; [done|].
    intros sk r [[<- <-]|[_ H]]%lookup_insert_Some; [|by apply Hok].
    split; [apply (Hok _ _ Hn)|done].
Qed.


(** A record keeps its token until the holder of the token releases it. *)
Lemma reservation_stays sk token ops m r :
  m !! sk = Some r → nr_reservation_token r = token →
  forallb (λ op, negb (is_release sk token op)) ops = true →
  ∃ r', run_drafts m ops !! sk = Some r' ∧ nr_reservation_token r' = token
    ∧ (nr_status r ≠ DS_Reserved → r' = r).
Proof.
  revert m r. induction ops as [|op ops IH]; intros m r Hr Ht Hf; [by exists r|].
  cbn [forallb] in Hf. apply andb_true_iff in Hf as [Hop Hf]. apply negb_true_iff in Hop.
  destruct (draft_step_record m op sk r Hr) as [H|[(now & o & Hs & Ho & _ & H)|(_ & Hrel & _)]].
  - exact (IH _ _ H Ht Hf).
  - destruct (IH _ _ H Ht Hf) as (r' & ? & ? & _). by exists r'.
  - by rewrite Ht, Hop in Hrel.
Qed.

(** A draft is handed out for creation once: after a reservation was granted, no other
    reservation of the key is granted until the holder of its token releases it, which
    only works before an outcome was recorded. *)
Theorem draft_is_granted_once m token now key h md r m1 ops token' now' h' md' r' m2 :
  reserve_native_draft token now key h md m = (Ok (NR_Fresh r), m1) →
  reserve_native_draft token' now' key h' md' (run_drafts m1 ops) = (Ok (NR_Fresh r'), m2) →
  existsb (is_release (storage_key key) token) ops = true.
Proof.
  intros H1 H2. destruct (existsb _ ops) eqn:E; [done|exfalso].
  destruct (reserve_cases _ _ _ _ _ _ _ _ H1) as [[_ Hno]|(r1 & [= <-] & _ & -> & _ & Ht & _)]; [by apply (Hno r)|].
  destruct (reserve_cases _ _ _ _ _ _ _ _ H2) as [[_ Hno]|(r2 & _ & Hnone & _)]; [by apply (Hno r')|].
  destruct (reservation_stays (storage_key key) token ops (<[storage_key key := r]> m) r) as (r3 & H3 & _).
  - apply lookup_insert_eq.
  - done.
  - apply forallb_elem_of. intros op Hin. rewrite existsb_false_elem_of in E. by rewrite E.
  - congruence.
Qed.

(** A recorded outcome is final: once a draft has left the reserved state, no sequence of
    reservations, releases or finalizations changes or removes its record. *)
Theorem finalized_draft_is_final m sk r ops :
  m !! sk = Some r → nr_status r ≠ DS_Reserved → run_drafts m ops !! sk = Some r.
Proof.
  intros Hr Hs. revert m Hr. induction ops as [|op ops IH]; intros m Hr; [done|]. apply IH.
  destruct (draft_step_record m op sk r Hr) as [H|[(? & ? & ? & _)|(? & _)]]; done.
Qed.
End operations.
