(* ===== verification/VaultCollections.v ===== *)
(** * Credentials, roles and keys in the vault

    Models the credential, role and API-key operations of the storage backend in
    [src/src/storage/file.rs].  [Collections] holds the maps by id with their derived
    indexes, as [StorageCache] does; every operation is the closure of one locked
    mutation, which leaves the collections alone when it fails. *)

From stdpp Require Import base gmap strings list.
From Stdlib Require Import Ascii ZArith Lia.
From S2P Require Import Prelude RustStr Approval Indexed Tokens Auth Credential.

Open Scope Z_scope.

(** ** State *)

Record Collections := {
  vc_credentials : gmap string Credential;
  vc_alias_index : gmap string string;
  vc_roles : gmap string Role;
  vc_role_name_index : gmap string string;
  vc_api_keys : gmap string ApiKey;
  vc_key_hash_index : gmap string string;
}.

Definition no_collections : Collections :=
  {| vc_credentials := ∅; vc_alias_index := ∅; vc_roles := ∅; vc_role_name_index := ∅;
     vc_api_keys := ∅; vc_key_hash_index := ∅ |}.

Definition with_credentials (m : gmap string Credential) (i : gmap string string) (v : Collections) : Collections :=
  {| vc_credentials := m; vc_alias_index := i; vc_roles := vc_roles v;
     vc_role_name_index := vc_role_name_index v; vc_api_keys := vc_api_keys v;
     vc_key_hash_index := vc_key_hash_index v |}.
Definition with_roles (m : gmap string Role) (i : gmap string string) (v : Collections) : Collections :=
  {| vc_credentials := vc_credentials v; vc_alias_index := vc_alias_index v; vc_roles := m;
     vc_role_name_index := i; vc_api_keys := vc_api_keys v; vc_key_hash_index := vc_key_hash_index v |}.
Definition with_api_keys (m : gmap string ApiKey) (i : gmap string string) (v : Collections) : Collections :=
  {| vc_credentials := vc_credentials v; vc_alias_index := vc_alias_index v; vc_roles := vc_roles v;
     vc_role_name_index := vc_role_name_index v; vc_api_keys := m; vc_key_hash_index := i |}.

(** The refusals of these operations. *)
Inductive CollectionError :=
| CE_InvalidConfig | CE_AlreadyExists (alias : string) | CE_NotFound (id : string)
| CE_RoleAlreadyExists (name : string) | CE_RoleNotFound (id : string) | CE_ApiKeyNotFound (id : string)
| CE_RoleReferenced (id : string).

Definition vault_mutation : Type := Collections → result Collections CollectionError.

(** Another record holds this attribute. *)
Definition taken (i : gmap string string) (attr id : string) : bool :=
  match i !! attr with Some existing => negb (String.eqb existing id) | None => false end.

(** ** Credentials *)

(** [store]. *)
Definition store_credential (c : Credential) : vault_mutation := λ v,
  if match cr_data c with CD_UrlToken token => negb (url_token_secret_is_path_safe token) | _ => false end
  then Err CE_InvalidConfig
  else if taken (vc_alias_index v) (cr_alias c) (cr_id c) then Err (CE_AlreadyExists (cr_alias c))
  else Ok (with_credentials (<[cr_id c := c]> (vc_credentials v))
             (<[cr_alias c := cr_id c]> (vc_alias_index v)) v).

(** [get], [get_by_alias]. *)
Definition get_credential (id : string) (v : Collections) : option Credential := vc_credentials v !! id.
Definition get_by_alias (alias : string) (v : Collections) : option Credential :=
  id ← vc_alias_index v !! alias; vc_credentials v !! id.

(** [CredentialMetadata], and [list]. *)
Record CredentialMetadata := {
  cm_id : string;
  cm_alias : string;
  cm_type : CredentialType;
  cm_metadata : gmap string string;
  cm_created_at : DateTime;
  cm_updated_at : DateTime;
}.
Definition metadata_of (c : Credential) : CredentialMetadata :=
  {| cm_id := cr_id c; cm_alias := cr_alias c; cm_type := cr_type c; cm_metadata := cr_metadata c;
     cm_created_at := cr_created_at c; cm_updated_at := cr_updated_at c |}.
Definition list_credentials (v : Collections) : list CredentialMetadata :=
  metadata_of <$> (map_to_list (vc_credentials v)).*2.

(** [delete]. *)
Definition delete_credential (id : string) : vault_mutation := λ v,
  match vc_credentials v !! id with
  | Some c => Ok (with_credentials (delete id (vc_credentials v)) (delete (cr_alias c) (vc_alias_index v)) v)
  | None => Err (CE_NotFound id)
  end.

(** [delete_scoped]: a credential's tenant is its trimmed [tenant] metadata. *)
Definition credential_tenant (c : Credential) : option string :=
  match cr_metadata c !! "tenant" with
  | Some t => if is_empty (trim t) then None else Some (trim t)
  | None => None
  end.
Definition delete_scoped (id : string) (acting_tenant : option string) : vault_mutation := λ v,
  match vc_credentials v !! id with
  | None => Err (CE_NotFound id)
  | Some c =>
      if negb (tenant_may_act acting_tenant (credential_tenant c)) then Err (CE_NotFound id)
      else Ok (with_credentials (delete id (vc_credentials v)) (delete (cr_alias c) (vc_alias_index v)) v)
  end.

(** [update]. *)
Definition update_credential (c : Credential) : vault_mutation := λ v,
  match vc_credentials v !! cr_id c with
  | None => Err (CE_NotFound (cr_id c))
  | Some old =>
      if taken (vc_alias_index v) (cr_alias c) (cr_id c) then Err (CE_AlreadyExists (cr_alias c))
      else
        let i := if String.eqb (cr_alias old) (cr_alias c) then vc_alias_index v
                 else <[cr_alias c := cr_id c]> (delete (cr_alias old) (vc_alias_index v)) in
        Ok (with_credentials (<[cr_id c := c]> (vc_credentials v)) i v)
  end.

(** ** Roles *)

(** [store_role], [get_role_by_name]. *)
Definition store_role (r : Role) : vault_mutation := λ v,
  if taken (vc_role_name_index v) (role_name r) (role_id r) then Err (CE_RoleAlreadyExists (role_name r))
  else Ok (with_roles (<[role_id r := r]> (vc_roles v)) (<[role_name r := role_id r]> (vc_role_name_index v)) v).
Definition role_by_name (name : string) (v : Collections) : option Role :=
  id ← vc_role_name_index v !! name; vc_roles v !! id.

(** [StorageBackend::delete_role] and [delete_role_if_unreferenced]. *)
Definition delete_stored_role (id : string) : vault_mutation := λ v,
  match vc_roles v !! id with
  | Some r => Ok (with_roles (delete id (vc_roles v)) (delete (role_name r) (vc_role_name_index v)) v)
  | None => Err (CE_RoleNotFound id)
  end.
Definition delete_role_if_unreferenced (id : string) : vault_mutation := λ v,
  if existsb (λ k, String.eqb (ak_role_id k) id) (map_to_list (vc_api_keys v)).*2
  then Err (CE_RoleReferenced id) else delete_stored_role id v.

(** ** Keys *)

(** [store_api_key], [get_api_key_by_hash], [delete_api_key], [update_api_key_last_used]. *)
Definition store_api_key (k : ApiKey) : vault_mutation := λ v,
  Ok (with_api_keys (<[ak_id k := k]> (vc_api_keys v)) (<[ak_key_hash k := ak_id k]> (vc_key_hash_index v)) v).
Definition api_key_by_hash (hash : string) (v : Collections) : option ApiKey :=
  id ← vc_key_hash_index v !! hash; vc_api_keys v !! id.
Definition delete_api_key (id : string) : vault_mutation := λ v,
  match vc_api_keys v !! id with
  | Some k => Ok (with_api_keys (delete id (vc_api_keys v)) (delete (ak_key_hash k) (vc_key_hash_index v)) v)
  | None => Err (CE_ApiKeyNotFound id)
  end.
Definition update_api_key_last_used (now : DateTime) (id : string) : vault_mutation := λ v,
  match vc_api_keys v !! id with
  | Some k => Ok (with_api_keys (<[id := touch now k]> (vc_api_keys v)) (vc_key_hash_index v) v)
  | None => Err (CE_ApiKeyNotFound id)
  end.

(** ** Sequences of operations *)

Inductive CollectionOp :=
| CO_Store (c : Credential) | CO_Update (c : Credential) | CO_Delete (id : string)
| CO_DeleteScoped (id : string) (tenant : option string)
| CO_StoreRole (r : Role) | CO_DeleteRole (id : string) | CO_DeleteRoleSafe (id : string)
| CO_StoreKey (k : ApiKey) | CO_DeleteKey (id : string) | CO_TouchKey (now : DateTime) (id : string).

Definition perform (op : CollectionOp) : vault_mutation :=
  match op with
  | CO_Store c => store_credential c
  | CO_Update c => update_credential c
  | CO_Delete id => delete_credential id
  | CO_DeleteScoped id t => delete_scoped id t
  | CO_StoreRole r => store_role r
  | CO_DeleteRole id => delete_stored_role id
  | CO_DeleteRoleSafe id => delete_role_if_unreferenced id
  | CO_StoreKey k => store_api_key k
  | CO_DeleteKey id => delete_api_key id
  | CO_TouchKey now id => update_api_key_last_used now id
  end.
Definition collection_step (v : Collections) (op : CollectionOp) : Collections :=
  match perform op v with Ok v' => v' | Err _ => v end.
Definition run_collections (v : Collections) (ops : list CollectionOp) : Collections :=
  foldl collection_step v ops.

(** How the callers use the three [store] operations: a record is new, or keeps its alias,
    name or hash (renames go through [update]); the hash of a new key is not in use. *)
Definition disciplined (v : Collections) (op : CollectionOp) : Prop :=
  match op with
  | CO_Store c => ∀ b, vc_credentials v !! cr_id c = Some b → cr_alias b = cr_alias c
  | CO_StoreRole r => ∀ b, vc_roles v !! role_id r = Some b → role_name b = role_name r
  | CO_StoreKey k => (∀ b, vc_api_keys v !! ak_id k = Some b → ak_key_hash b = ak_key_hash k)
                     ∧ ∀ id, vc_key_hash_index v !! ak_key_hash k = Some id → id = ak_id k
  | _ => True
  end.
Fixpoint disciplined_trace (v : Collections) (ops : list CollectionOp) : Prop :=
  match ops with
  | [] => True
  | op :: ops' => disciplined v op ∧ disciplined_trace (collection_step v op) ops'
  end.

(** The three indexes agree with their maps. *)
Definition collections_ok (v : Collections) : Prop :=
  indexed cr_id cr_alias (vc_credentials v) (vc_alias_index v)
  ∧ indexed role_id role_name (vc_roles v) (vc_role_name_index v)
  ∧ indexed ak_id ak_key_hash (vc_api_keys v) (vc_key_hash_index v).

(** ** Theorems *)

Lemma taken_false i attr id : taken i attr id = false → ∀ k, i !! attr = Some k → k = id.
Proof.
  unfold taken. destruct (i !! attr) as [k|]; [|done]. rewrite negb_false_iff.
  by intros ->%String.eqb_eq k' [= <-].
Qed.

Lemma credential_removed v id c :
  collections_ok v → vc_credentials v !! id = Some c →
  collections_ok (with_credentials (delete id (vc_credentials v)) (delete (cr_alias c) (vc_alias_index v)) v).
Proof. intros (H1 & H2 & H3) Hc. split_and!; [by apply indexed_delete|done|done]. Qed.

Lemma role_removed v id v' :
  collections_ok v → delete_stored_role id v = Ok v' → collections_ok v'.
Proof.
  intros (H1 & H2 & H3). unfold delete_stored_role. destruct (vc_roles v !! id) eqn:E; [|done].
  intros [= <-]. split_and!; [done|by apply indexed_delete|done].
Qed.

Lemma perform_ok op v v' : collections_ok v → disciplined v op → perform op v = Ok v' → collections_ok v'.
Proof.
  intros Hok Hd. destruct op as [c|c|id|id t|r|id|id|k|id|now id]; cbn [perform disciplined] in *.
  - unfold store_credential. destruct (match cr_data c with CD_UrlToken _ => _ | _ => _ end); [done|].
    destruct (taken _ _ _) eqn:Et; [done|]. intros [= <-]. destruct Hok as (H1 & H2 & H3).
    split_and!; [|done|done]. apply indexed_put; [done|by apply taken_false|done].
  - unfold update_credential. destruct (vc_credentials v !! cr_id c) as [old|] eqn:Eo; [|done].
    destruct (taken _ _ _) eqn:Et; [done|]. intros [= <-]. destruct Hok as (H1 & H2 & H3).
    split_and!; [|done|done]. cbn. destruct (String.eqb_spec (cr_alias old) (cr_alias c)) as [He|Hne].
    + apply (indexed_update _ _ _ _ _ old); try done. symmetry. apply (proj1 H1 _ _ Eo).
    + apply indexed_rename; [done|done|]. destruct (vc_alias_index v !! cr_alias c) as [k|] eqn:Ei; [|done].
      exfalso. apply Hne. rewrite (taken_false _ _ _ Et k Ei) in Ei.
      destruct (proj2 H1 _ _ Ei) as (b & Hb & <-). congruence.
  - unfold delete_credential. destruct (vc_credentials v !! id) eqn:E; [|done].
    intros [= <-]. by apply credential_removed.
  - unfold delete_scoped. destruct (vc_credentials v !! id) eqn:E; [|done]. destruct (negb _); [done|].
    intros [= <-]. by apply credential_removed.
  - unfold store_role. destruct (taken _ _ _) eqn:Et; [done|]. intros [= <-]. destruct Hok as (H1 & H2 & H3).
    split_and!; [done| |done]. apply indexed_put; [done|by apply taken_false|done].
  - by apply role_removed.
  - unfold delete_role_if_unreferenced. destruct (existsb _ _); [done|]. by apply role_removed.
  - intros [= <-]. destruct Hok as (H1 & H2 & H3). destruct Hd as [Hd1 Hd2].
    split_and!; [done|done|]. by apply indexed_put.
  - unfold delete_api_key. destruct (vc_api_keys v !! id) eqn:E; [|done]. intros [= <-].
    destruct Hok as (H1 & H2 & H3). split_and!; [done|done|]. by apply indexed_delete.
  - unfold update_api_key_last_used. destruct (vc_api_keys v !! id) as [k|] eqn:E; [|done]. intros [= <-].
    destruct Hok as (H1 & H2 & H3). split_and!; [done|done|]. by apply (indexed_update _ _ _ _ _ k).
Qed.

Lemma run_collections_ok ops v :
  collections_ok v → disciplined_trace v ops → collections_ok (run_collections v ops).
Proof.
  revert v. induction ops as [|op ops IH]; intros v Hok Hd; [done|]. destruct Hd as [Hd Ht].
  apply IH; [|done]. unfold collection_step in *. destruct (perform op v) eqn:E; [by eapply perform_ok|done].
Qed.

Lemma empty_collections_ok : collections_ok no_collections.
Proof. split_and!; apply indexed_empty. Qed.

(** However credentials, roles and keys are stored, renamed, touched and deleted, a lookup
    by alias, by role name or by key hash returns exactly the stored record that has it:
    no lookup misses a record, finds a deleted one, or finds another one. *)
Theorem vault_lookups_agree ops alias c name r hash k :
  disciplined_trace no_collections ops →
  let v := run_collections no_collections ops in
  (get_by_alias alias v = Some c ↔ vc_credentials v !! cr_id c = Some c ∧ cr_alias c = alias)
  ∧ (role_by_name name v = Some r ↔ vc_roles v !! role_id r = Some r ∧ role_name r = name)
  ∧ (api_key_by_hash hash v = Some k ↔ vc_api_keys v !! ak_id k = Some k ∧ ak_key_hash k = hash).
Proof.
  intros Hd v. destruct (run_collections_ok ops no_collections empty_collections_ok Hd) as (H1 & H2 & H3).
  split_and!; by apply indexed_lookup.
Qed.

(** Every key refers to a stored role. *)
Definition keys_have_roles (v : Collections) : Prop :=
  ∀ id k, vc_api_keys v !! id = Some k → is_Some (vc_roles v !! ak_role_id k).

(** A key is minted for a role that exists, and roles are deleted only when unreferenced. *)
Definition referential (v : Collections) (op : CollectionOp) : Prop :=
  match op with
  | CO_StoreKey k => is_Some (vc_roles v !! ak_role_id k)
  | CO_DeleteRole _ => False
  | _ => True
  end.

Lemma unreferenced_deletion id v v' :
  keys_have_roles v → delete_role_if_unreferenced id v = Ok v' → keys_have_roles v'.
Proof.
  intros Hk. unfold delete_role_if_unreferenced. destruct (existsb _ _) eqn:E; [done|].
  rewrite existsb_false_elem_of in E. unfold delete_stored_role.
  destruct (vc_roles v !! id); [|done]. intros [= <-] kid k Hkk. cbn in *.
  rewrite lookup_delete_ne; [by apply (Hk kid)|]. intros ->.
  specialize (E k). rewrite String.eqb_refl in E. assert (true = false); [|done]. apply E.
  apply list_elem_of_fmap. exists (kid, k). split; [done|]. by apply elem_of_map_to_list.
Qed.

(** As long as roles are deleted through the unreferenced check and keys are minted for
    stored roles, no key is ever left without its role, whatever else happens between. *)
Theorem no_key_is_orphaned v ops :
  keys_have_roles v →
  (∀ ops1 op ops2, ops = ops1 ++ op :: ops2 → referential (run_collections v ops1) op) →
  keys_have_roles (run_collections v ops).
Proof.
  revert v. induction ops as [|op ops IH]; intros v Hk Hr; [done|].
  apply (IH (collection_step v op)).
  - specialize (Hr [] op ops eq_refl). cbn in Hr. unfold collection_step.
    destruct op as [c|c|id|id t|r|id|id|k|id|now id]; cbn [perform referential] in *; try done.
    + unfold store_credential. destruct (match cr_data c with CD_UrlToken _ => _ | _ => _ end); [done|].
      by destruct (taken _ _ _).
    + unfold update_credential. destruct (vc_credentials v !! _); [|done]. by destruct (taken _ _ _).
    + unfold delete_credential. by destruct (vc_credentials v !! _).
    + unfold delete_scoped. destruct (vc_credentials v !! _); [|done]. by destruct (negb _).
    + unfold store_role. destruct (taken _ _ _); [done|]. intros kid k Hkk. cbn in *.
      rewrite lookup_insert_is_Some. destruct (decide (role_id r = ak_role_id k)); [by left|right].
      split; [done|by apply (Hk kid)].
    + destruct (delete_role_if_unreferenced id v) eqn:E; [|done]. by eapply unreferenced_deletion.
    + intros kid k'. cbn. intros [[_ <-]|[_ H]]%lookup_insert_Some; [done|by apply (Hk kid)].
    + unfold delete_api_key. destruct (vc_api_keys v !! id); [|done].
      intros kid k'. cbn. intros [_ H]%lookup_delete_Some. by apply (Hk kid).
    + unfold update_api_key_last_used. destruct (vc_api_keys v !! id) as [k|] eqn:E; [|done].
      intros kid k'. cbn. intros [[_ <-]|[_ H]]%lookup_insert_Some; [exact (Hk id k E)|by apply (Hk kid)].
  - intros ops1 op' ops2 ->. by apply (Hr (op :: ops1) op' ops2).
Qed.

(** A tenant's administrator deletes a credential only if it is in that tenant or in none;
    for any other credential the answer is the one for a missing id, and nothing
    changes.  What is deleted is that credential and its alias alone. *)
Theorem scoped_delete_stays_in_its_tenant v id tenant :
  match delete_scoped id (Some tenant) v with
  | Ok v' => ∃ c, vc_credentials v !! id = Some c
      ∧ (credential_tenant c = Some tenant ∨ credential_tenant c = None)
      ∧ vc_credentials v' = delete id (vc_credentials v)
      ∧ vc_alias_index v' = delete (cr_alias c) (vc_alias_index v)
      ∧ vc_roles v' = vc_roles v ∧ vc_api_keys v' = vc_api_keys v
  | Err e => e = CE_NotFound id
      ∧ ∀ c, vc_credentials v !! id = Some c → ∃ t, credential_tenant c = Some t ∧ t ≠ tenant
  end.
Proof.
  unfold delete_scoped. destruct (vc_credentials v !! id) as [c|]; [|done].
  destruct (credential_tenant c) as [t|] eqn:Et; cbn [tenant_may_act].
  - destruct (String.eqb_spec t tenant) as [->|Hne]; cbn.
    + exists c. split_and!; auto.
    + split; [done|]. intros c' [= <-]. eauto.
  - cbn. exists c. split_and!; auto.
Qed.
