(* ===== verification/Capability.v ===== *)
(** * Capabilities

    Models [src/src/capability/mod.rs]: the named tools an operator declares, the checks at
    registration, the subset of JSON Schema that caller arguments must meet, the
    parameters built from them for a plugin, the URL of an LLM channel, and the preview
    an approver sees.

    An error message is the value it renders; a path inside a document is the text of
    the code.  The depth counter of the two schema functions is the fuel of their
    recursion: [S MAX_INPUT_SCHEMA_DEPTH] levels, the refusal being the end of the fuel,
    as in the code. *)

From stdpp Require Import base strings list pretty.
From Stdlib Require Import Ascii ZArith Lia.
From S2P Require Import Prelude RustStr UrlCanon Json Approval Ssrf NativeDraft HttpPlugin.

Open Scope Z_scope.

(** ** Data *)

Definition MAX_INPUT_SCHEMA_DEPTH : nat := 32.

Abbreviation Object := (list (string * Value)).

(** [CapabilityTarget], [LlmProxy]. *)
Record CapabilityTarget := {
  ct_url_glob : option string;
  ct_methods : list string;
  ct_plugin_params : Object;
}.
Record LlmProxy := {
  lp_protocol : string;
  lp_provider : option string;
  lp_region : option string;
  lp_provider_base : string;
  lp_allowed_models : list string;
  lp_max_output_tokens : option Z;
  lp_reasoning_effort : option string;
}.

(** [PreviewFieldSpec], [ApprovalPreviewSpec]. *)
Record PreviewFieldSpec := { fs_label : string; fs_path : string; fs_format : option string }.
Record ApprovalPreviewSpec := { ps_title : option string; ps_fields : list PreviewFieldSpec }.

(** [Capability]. *)
Record Capability := {
  cap_id : string;
  cap_tool_name : string;
  cap_description : string;
  cap_action : string;
  cap_plugin : option string;
  cap_target : CapabilityTarget;
  cap_credential_ref : string;
  cap_input_schema : Value;
  cap_reversibility : string;
  cap_llm : option LlmProxy;
  cap_approval_preview : option ApprovalPreviewSpec;
}.

Definition LLM_REASONING_EFFORTS : list string := ["none"; "minimal"; "low"; "medium"; "high"].
Definition LLM_REASONING_EFFORT_PROTOCOLS : list string := ["openai-chat"; "openai-responses"].
Definition INTERNAL_HTTP_PLUGIN : string := "internal_http".
Definition INTERNAL_HTTP_VERBS : list string := ["GET"; "HEAD"; "POST"; "PUT"; "PATCH"; "DELETE"; "OPTIONS"].
Definition RESERVED_TOOL_NAMES : list string :=
  ["list_credentials"; "http_request"; "get_credential_info"; "check_approval"].

Definition str_in (s : string) (l : list string) : bool := existsb (String.eqb s) l.

(** ** Approval previews *)

(** [str::parse::<usize>]: decimal digits after an optional plus sign, within 64 bits. *)
Fixpoint digits_value (s : string) (acc : Z) : option Z :=
  match s with
  | EmptyString => Some acc
  | String c s' =>
      if is_ascii_digit c
      then let acc' := acc * 10 + Z.of_nat (nat_of_ascii c - 48) in
           if acc' <=? u64_max then digits_value s' acc' else None
      else None
  end.
Definition parse_usize (s : string) : option Z :=
  let digits := match s with String "+" (String c r) => String c r | _ => s end in
  if is_empty digits then None else digits_value digits 0.

(** [dot_path_get]. *)
Definition path_step (segment : string) (v : Value) : option Value :=
  if is_empty segment then None
  else
    match v with
    | JObject _ => json_get segment v
    | JArray l => i ← parse_usize segment; l !! Z.to_nat i
    | _ => None
    end.
Fixpoint walk (segments : list string) (v : Value) : option Value :=
  match segments with
  | [] => Some v
  | s :: rest => match path_step s v with Some v' => walk rest v' | None => None end
  end.
Definition dot_path_get (v : Value) (path : string) : option Value := walk (split_char "." path) v.

(** [coerce_preview_value]; [show_number] is [Number::to_string]. *)
Definition show_number (n : JsonNumber) : string :=
  match n with PosInt z | NegInt z => pretty z | Float r => r end.
Definition coerce_preview_value (v : Value) : option string :=
  match v with
  | JString s => Some s
  | JNumber n => Some (show_number n)
  | JBool b => Some (if b then "true" else "false")
  | JNull | JObject _ | JArray _ => None
  end.

(** [extract_preview]. *)
Definition preview_field (params : Value) (f : PreviewFieldSpec) : option PreviewField :=
  v ← dot_path_get params (fs_path f);
  display ← coerce_preview_value v;
  Some {| pf_label := fs_label f; pf_value := display; pf_format := default "inline" (fs_format f) |}.
Definition extract_preview (spec : ApprovalPreviewSpec) (params : Value) : ApprovalPreview :=
  {| pv_title := ps_title spec; pv_fields := omap (preview_field params) (ps_fields spec) |}.

(** ** Schemas *)

(** The loops that stop at the first error. *)
Fixpoint try_all {A E} (f : A → result unit E) (l : list A) : result unit E :=
  match l with
  | [] => Ok tt
  | x :: l' => match f x with Ok _ => try_all f l' | Err e => Err e end
  end.

Inductive ShapeRefusal :=
| SS_TooDeep (path : string) | SS_NotObject (path : string) | SS_Type (path : string)
| SS_Required (path : string) | SS_Properties (path : string) | SS_Additional (path : string)
| SS_Enum (path : string) | SS_Bound (keyword path : string).

(** [validate_schema_type]. *)
Definition JSON_TYPES : list string := ["object"; "array"; "string"; "number"; "integer"; "boolean"; "null"].
Definition valid_type (v : Value) : bool :=
  match as_str v with Some t => str_in t JSON_TYPES | None => false end.
Definition schema_type_ok (v : Value) : bool :=
  match as_str v with
  | Some t => str_in t JSON_TYPES
  | None => match as_array v with Some (x :: l) => forallb valid_type (x :: l) | _ => false end
  end.

Definition check {E} (b : bool) (e : E) : result unit E := if b then Ok tt else Err e.
Definition on {A E} (o : option A) (f : A → result unit E) : result unit E :=
  match o with Some a => f a | None => Ok tt end.

(** [validate_schema_shape]. *)
Fixpoint validate_schema_shape (fuel : nat) (schema : Value) (path : string) : result unit ShapeRefusal :=
  match fuel with
  | O => Err (SS_TooDeep path)
  | S fuel' =>
      match schema with
      | JObject _ =>
          let? _ := on (json_get "type" schema) (λ t, check (schema_type_ok t) (SS_Type path)) in
          let? _ := on (json_get "required" schema) (λ r,
            match as_array r with
            | None => Err (SS_Required path)
            | Some items => try_all (λ i, check (bool_decide (is_Some (as_str i))) (SS_Required path)) items
            end) in
          let? _ := on (json_get "properties" schema) (λ p,
            match as_object p with
            | None => Err (SS_Properties path)
            | Some ps => try_all (λ kv, validate_schema_shape fuel' kv.2 (path +:+ ".properties." +:+ kv.1)) ps
            end) in
          let? _ := on (json_get "additionalProperties" schema) (λ a,
            match a with
            | JBool _ => Ok tt
            | JObject _ => validate_schema_shape fuel' a (path +:+ ".additionalProperties")
            | _ => Err (SS_Additional path)
            end) in
          let? _ := on (json_get "items" schema) (λ i, validate_schema_shape fuel' i (path +:+ ".items")) in
          let? _ := on (json_get "enum" schema) (λ e, check (bool_decide (is_Some (as_array e))) (SS_Enum path)) in
          try_all (λ kw, on (json_get kw schema) (λ v,
                     check (bool_decide (is_Some (as_u64 v))) (SS_Bound kw path)))
            ["minLength"; "maxLength"; "minItems"; "maxItems"]
      | _ => Err (SS_NotObject path)
      end
  end.

(** [validate_input_schema_definition]. *)
Definition validate_input_schema_definition (schema : Value) : result unit ShapeRefusal :=
  match schema with
  | JNull => Ok tt
  | JObject _ => validate_schema_shape (S MAX_INPUT_SCHEMA_DEPTH) schema "$"
  | _ => Err (SS_NotObject "$")
  end.

(** [json_type_matches]. *)
Definition json_type_matches (kind : string) (v : Value) : bool :=
  match v with
  | JObject _ => String.eqb kind "object"
  | JArray _ => String.eqb kind "array"
  | JString _ => String.eqb kind "string"
  | JNumber (Float _) => String.eqb kind "number"
  | JNumber _ => String.eqb kind "number" || String.eqb kind "integer"
  | JBool _ => String.eqb kind "boolean"
  | JNull => String.eqb kind "null"
  end.

Inductive InputRefusal :=
| IR_TooDeep (path : string) | IR_SchemaNotObject (path : string) | IR_Const (path : string)
| IR_Enum (path : string) | IR_Type (path : string) | IR_TooShort (path : string) | IR_TooLong (path : string)
| IR_TooFew (path : string) | IR_TooMany (path : string) | IR_Missing (name path : string)
| IR_Unknown (name path : string).

(** The type keyword: one name, or any of several. *)
Definition type_allows (t v : Value) : bool :=
  match as_str t with
  | Some kind => json_type_matches kind v
  | None =>
      match as_array t with
      | Some kinds => existsb (λ k, match as_str k with Some kind => json_type_matches kind v | None => false end) kinds
      | None => false
      end
  end.

(** [minLength] and the like; [None] when the keyword is absent or not a [u64]. *)
Definition schema_bound (kw : string) (schema : Value) : option Z := v ← json_get kw schema; as_u64 v.

Definition obj_get (k : string) (m : Object) : option Value := json_get k (JObject m).

(** [validate_json_schema]. *)
Fixpoint validate_json_schema (fuel : nat) (schema value : Value) (path : string) : result unit InputRefusal :=
  match fuel with
  | O => Err (IR_TooDeep path)
  | S fuel' =>
      match schema with
      | JObject _ =>
          let? _ := on (json_get "const" schema) (λ e, check (json_eqb value e) (IR_Const path)) in
          let? _ := on (json_get "enum" schema ≫= as_array) (λ vs,
                      check (existsb (λ c, json_eqb c value) vs) (IR_Enum path)) in
          let? _ := on (json_get "type" schema) (λ t, check (type_allows t value) (IR_Type path)) in
          let? _ := on (as_str value) (λ text,
            let n := Z.of_nat (chars_count text) in
            let? _ := on (schema_bound "minLength" schema) (λ min, check (min <=? n) (IR_TooShort path)) in
            on (schema_bound "maxLength" schema) (λ max, check (n <=? max) (IR_TooLong path))) in
          let? _ := on (as_array value) (λ items,
            let n := Z.of_nat (length items) in
            let? _ := on (schema_bound "minItems" schema) (λ min, check (min <=? n) (IR_TooFew path)) in
            let? _ := on (schema_bound "maxItems" schema) (λ max, check (n <=? max) (IR_TooMany path)) in
            on (json_get "items" schema) (λ s,
              try_all (λ ix, validate_json_schema fuel' s ix.2 (path +:+ "[" +:+ pretty ix.1 +:+ "]"))
                (imap (λ i x, (i, x)) items))) in
          on (as_object value) (λ props,
            let? _ := on (json_get "required" schema ≫= as_array) (λ names,
              try_all (λ name, on (as_str name) (λ n,
                         check (bool_decide (is_Some (obj_get n props))) (IR_Missing n path))) names) in
            try_all (λ kv,
              match (json_get "properties" schema ≫= as_object) ≫= obj_get kv.1 with
              | Some s => validate_json_schema fuel' s kv.2 (path +:+ "." +:+ kv.1)
              | None =>
                  match json_get "additionalProperties" schema with
                  | Some (JBool false) => Err (IR_Unknown kv.1 path)
                  | Some (JObject m) => validate_json_schema fuel' (JObject m) kv.2 (path +:+ "." +:+ kv.1)
                  | _ => Ok tt
                  end
              end) props)
      | _ => Err (IR_SchemaNotObject path)
      end
  end.

(** [Capability::validate_input]. *)
Definition EMPTY_SCHEMA : Value := JObject [("properties", JObject []); ("type", JString "object")].
Definition enforced_schema (c : Capability) : Value :=
  if is_object (cap_input_schema c) then cap_input_schema c else EMPTY_SCHEMA.
Definition validate_input (c : Capability) (args : Value) : result unit InputRefusal :=
  validate_json_schema (S MAX_INPUT_SCHEMA_DEPTH) (enforced_schema c) args "$".

(** ** Registration *)

Inductive CapabilityRefusal :=
| CR_NoToolName | CR_ToolName (name : string) | CR_ReservedName (name : string) | CR_NoAction | CR_NoCredential
| CR_Schema (r : ShapeRefusal) | CR_Reversibility (r : string) | CR_Glob | CR_Protocol (p : string)
| CR_Effort (e : string) | CR_EffortProtocol (p : string) | CR_NoBase | CR_BadBase | CR_BaseScheme
| CR_Metadata | CR_NotNvidia | CR_MethodType | CR_Disagree (pin : string) (declared : list string)
| CR_NoMethod | CR_ManyMethods (declared : list string) | CR_NotVerb (method : string).

(** [str::trim_start_matches] of a character. *)
Fixpoint trim_start_matches (c : ascii) (s : string) : string :=
  match s with
  | EmptyString => ""
  | String x s' => if Ascii.eqb x c then trim_start_matches c s' else s
  end.

(** [declares_internal_http]. *)
Definition declares_internal_http (c : Capability) : bool :=
  match cap_plugin c with Some p => String.eqb (trim p) INTERNAL_HTTP_PLUGIN | None => false end
  || String.eqb (trim (cap_action c)) "internal_http.request".

(** [resolve_pinned_http_method]. *)
Definition declared_methods (c : Capability) : list string :=
  List.filter (λ m, negb (is_empty m)) ((λ m, to_ascii_uppercase (trim m)) <$> ct_methods (cap_target c)).
Definition resolve_pinned_http_method (c : Capability) : result string CapabilityRefusal :=
  let declared := declared_methods c in
  let? pinned := match obj_get "method" (ct_plugin_params (cap_target c)) with
                 | Some v => match as_str v with
                             | Some s => Ok (Some (to_ascii_uppercase (trim s)))
                             | None => Err CR_MethodType
                             end
                 | None => Ok None
                 end in
  let? method := match pinned, declared with
                 | Some p, [] => Ok p
                 | Some p, [one] => if String.eqb p one then Ok p else Err (CR_Disagree p [one])
                 | Some p, many => Err (CR_Disagree p many)
                 | None, [one] => Ok one
                 | None, [] => Err CR_NoMethod
                 | None, many => Err (CR_ManyMethods many)
                 end in
  if str_in method INTERNAL_HTTP_VERBS then Ok method else Err (CR_NotVerb method).

(** [effective_http_method]. *)
Definition effective_http_method (c : Capability) : option string :=
  match declares_internal_http c, resolve_pinned_http_method c with
  | true, Ok m => Some m
  | _, _ => head (ct_methods (cap_target c))
  end.

Definition tool_char (a : ascii) : bool :=
  let n := nat_of_ascii a in
  (97 <=? n)%nat && (n <=? 122)%nat || is_ascii_digit a || Ascii.eqb a "_".

Definition LLM_PROTOCOLS : list string :=
  ["openai-chat"; "openai-responses"; "azure-openai"; "anthropic-messages"; "bedrock-converse";
   "bedrock-invoke"; "gemini"; "vertex-ai"; "nvidia"; "observed-only"].
Definition REVERSIBILITIES : list string := ["reversible"; "partially-reversible"; "irreversible"].

(** [Url::host] when it is an address. *)
Class UrlHost {UC : UrlCrate} := { url_host_addr : Url → option IpAddr }.

Section capabilities.
Context {UC : UrlCrate} {GC : GlobCrate} {NS : NetStd} {UH : UrlHost} {HC : HttpCrates}.

(** The part of [validate] about an LLM channel. *)
Definition validate_llm (l : LlmProxy) : result unit CapabilityRefusal :=
  if negb (str_in (lp_protocol l) LLM_PROTOCOLS) then Err (CR_Protocol (lp_protocol l))
  else
    let? _ := on (lp_reasoning_effort l) (λ e,
      if negb (str_in e LLM_REASONING_EFFORTS) then Err (CR_Effort e)
      else check (str_in (lp_protocol l) LLM_REASONING_EFFORT_PROTOCOLS) (CR_EffortProtocol (lp_protocol l))) in
    let base := trim (lp_provider_base l) in
    if is_empty base then Err CR_NoBase
    else
      match url_parse base with
      | None => Err CR_BadBase
      | Some parsed =>
          if negb (String.eqb (url_scheme parsed) "http") && negb (String.eqb (url_scheme parsed) "https")
          then Err CR_BaseScheme
          else on (url_host_str parsed) (λ host,
            let h := to_ascii_lowercase (trim_end_matches "]" (trim_start_matches "[" host)) in
            let link_local := match url_host_addr parsed with
                              | Some ip => is_link_local_or_metadata_ip ip
                              | None => starts_with "169.254." h
                              end in
            if link_local then Err CR_Metadata
            else check (negb (String.eqb (lp_protocol l) "nvidia")
                        || String.eqb h "nvidia.com" || ends_with ".nvidia.com" h) CR_NotNvidia)
      end.

(** [Capability::validate]. *)
Definition validate_capability (c : Capability) : result unit CapabilityRefusal :=
  let name := trim (cap_tool_name c) in
  if is_empty name then Err CR_NoToolName
  else if negb (str_all tool_char name) then Err (CR_ToolName name)
  else if str_in name RESERVED_TOOL_NAMES then Err (CR_ReservedName name)
  else if is_empty (trim (cap_action c)) then Err CR_NoAction
  else if is_empty (trim (cap_credential_ref c)) then Err CR_NoCredential
  else
    let? _ := match validate_input_schema_definition (cap_input_schema c) with
              | Ok _ => Ok tt | Err r => Err (CR_Schema r) end in
    if negb (str_in (trim (cap_reversibility c)) REVERSIBILITIES)
    then Err (CR_Reversibility (trim (cap_reversibility c)))
    else
      let? _ := on (ct_url_glob (cap_target c)) (λ g, check (bool_decide (is_Some (glob_new g))) CR_Glob) in
      let? _ := on (cap_llm c) validate_llm in
      if declares_internal_http c then let? _ := resolve_pinned_http_method c in Ok tt else Ok tt.

(** ** LLM channels *)

(** [is_llm_proxy], [llm_model_allowed], [llm_max_output_tokens], [llm_reasoning_effort]. *)
Definition is_llm_proxy (c : Capability) : bool := bool_decide (is_Some (cap_llm c)).
Definition llm_model_allowed (c : Capability) (requested : option string) : bool :=
  match cap_llm c with
  | None => true
  | Some l =>
      match lp_allowed_models l with
      | [] => true
      | allow => match requested with Some m => str_in m allow | None => false end
      end
  end.
Definition llm_max_output_tokens (c : Capability) : option Z := cap_llm c ≫= lp_max_output_tokens.
Definition llm_reasoning_effort (c : Capability) : option string := cap_llm c ≫= lp_reasoning_effort.

(** [llm_upstream_url]. *)
Definition llm_upstream_url (c : Capability) (path : string) : option string :=
  llm ← cap_llm c;
  let base_str := trim_end_matches "/" (lp_provider_base llm) in
  base ← url_parse base_str;
  let suffix := trim_start_matches "/" path in
  let lower := to_ascii_lowercase suffix in
  if contains "%2f" lower || contains "%5c" lower then None
  else
    let joined := if is_empty suffix then base_str else base_str +:+ "/" +:+ suffix in
    parsed ← url_parse joined;
    if negb (String.eqb (url_scheme parsed) "http") && negb (String.eqb (url_scheme parsed) "https") then None
    else if negb (String.eqb (url_scheme parsed) (url_scheme base))
            || negb (bool_decide (url_host_str parsed = url_host_str base))
            || negb (bool_decide (url_port_or_known_default parsed = url_port_or_known_default base))
    then None
    else
      let base_path := trim_end_matches "/" (url_path base) in
      let up_path := url_path parsed in
      let contained := if is_empty base_path then starts_with "/" up_path
                       else String.eqb up_path base_path || starts_with (base_path +:+ "/") up_path in
      if contained then Some joined else None.

(** ** Tools *)

(** [Map::entry(k).or_insert_with]. *)
Definition insert_absent (k : string) (v : Value) (m : Object) : Object :=
  match obj_get k m with Some _ => m | None => obj_insert k v m end.
Definition API_KEY_FIELD : Value :=
  JObject [("description", JString "Your vultrino use token (starts with 'vut_') or API key (starts with 'vk_') for authentication");
           ("type", JString "string")].

(** [mcp_input_schema]. *)
Definition mcp_input_schema (c : Capability) : Value :=
  let obj := match cap_input_schema c with
             | JObject m => m
             | _ => [("properties", JObject []); ("type", JString "object")]
             end in
  let obj := insert_absent "properties" (JObject []) (insert_absent "type" (JString "object") obj) in
  let obj := match obj_get "properties" obj with
             | Some (JObject props) => obj_insert "properties" (JObject (obj_insert "api_key" API_KEY_FIELD props)) obj
             | _ => obj
             end in
  let obj := insert_absent "required" (JArray []) obj in
  JObject match obj_get "required" obj with
          | Some (JArray arr) =>
              if existsb (λ v, match as_str v with Some s => String.eqb s "api_key" | None => false end) arr then obj
              else obj_insert "required" (JArray (JString "api_key" :: arr)) obj
          | _ => obj
          end.

(** The refusals of [build_action_params]. *)
Inductive ParamsError := BE_NotObject | BE_Input (r : InputRefusal) | BE_CallerMethod | BE_Method (r : CapabilityRefusal).

(** [for (k, v) in src { dst.insert(k, v) }]. *)
Definition overlay (src dst : Object) : Object := foldl (λ m kv, obj_insert kv.1 kv.2 m) dst src.

(** The headers of an http call: the caller's, without those the operator pins in any
    spelling, the pinned ones, and Notion's version when nothing set it. *)
Definition pinned_headers (c : Capability) : option Object :=
  obj_get "headers" (ct_plugin_params (cap_target c)) ≫= as_object.
Definition http_headers (c : Capability) (args : Object) (url : option string) : Object :=
  let headers := match obj_get "headers" args ≫= as_object with Some h => overlay h [] | None => [] end in
  let headers := match pinned_headers c with
                 | Some h =>
                     overlay h (List.filter (λ kv, negb (existsb (λ p : string * Value, eq_ignore_ascii_case kv.1 p.1) h))
                                  headers)
                 | None => headers
                 end in
  if contains "api.notion.com" (default "" url)
     && negb (existsb (λ kv : string * Value, eq_ignore_ascii_case kv.1 "Notion-Version") headers)
  then obj_insert "Notion-Version" (JString "2022-06-28") headers else headers.

Definition http_params (c : Capability) (args : Object) : Value :=
  let method := match obj_get "method" args ≫= as_str with
                | Some m => to_uppercase m
                | None => match head (ct_methods (cap_target c)) with Some m => to_uppercase m | None => "GET" end
                end in
  let url := match obj_get "url" args ≫= as_str with Some u => Some u | None => ct_url_glob (cap_target c) end in
  let params := obj_insert "method" (JString method) [] in
  let params := match url with Some u => obj_insert "url" (JString u) params | None => params end in
  let headers := http_headers c args url in
  let params := match headers with [] => params | _ => obj_insert "headers" (JObject headers) params end in
  let params := match obj_get "body" args with Some b => obj_insert "body" b params | None => params end in
  JObject match obj_get "query" args with Some q => obj_insert "query" q params | None => params end.

(** [build_internal_http_params]. *)
Definition build_internal_http_params (c : Capability) (args : Object) : result Value ParamsError :=
  match obj_get "method" args with
  | Some _ => Err BE_CallerMethod
  | None =>
      match resolve_pinned_http_method c with
      | Err r => Err (BE_Method r)
      | Ok method =>
          Ok (JObject (obj_insert "method" (JString method) (overlay (ct_plugin_params (cap_target c)) args)))
      end
  end.

(** [build_action_params]. *)
Definition build_action_params (c : Capability) (plugin_name : string) (args : Value) : result Value ParamsError :=
  match args with
  | JObject args_obj =>
      match validate_input c args with
      | Err r => Err (BE_Input r)
      | Ok _ =>
          if String.eqb plugin_name "http" then Ok (http_params c args_obj)
          else if String.eqb plugin_name INTERNAL_HTTP_PLUGIN then build_internal_http_params c args_obj
          else Ok (JObject (overlay (ct_plugin_params (cap_target c)) args_obj))
      end
  | _ => Err BE_NotObject
  end.
End capabilities.
