(* ===== verification/CapabilityFacts.v ===== *)
(** * What a capability guarantees

    Theorems about [Capability]: the schema check against a declarative reading of the
    schema, registered schemas that never fail a call by themselves, operator-pinned
    verbs, parameters and headers, the containment of LLM channels, and previews that
    show only declared scalars. *)

From stdpp Require Import base strings list pretty.
From Stdlib Require Import Ascii ZArith Lia.
From S2P Require Import Prelude RustStr UrlCanon Json Approval Ssrf NativeDraft HttpPlugin HttpFacts Capability.

Open Scope Z_scope.

(** ** Small steps *)

Lemma try_all_ok {A E} (f : A → result unit E) l :
  try_all f l = Ok tt ↔ ∀ x, x ∈ l → f x = Ok tt.
Proof.
  induction l as [|x l IH]; cbn [try_all]; [split; [by intros _ ? ?%elem_of_nil|done]|].
  destruct (f x) as [[]|e] eqn:E1; [rewrite IH|]; split.
  - intros H y [->|?]%elem_of_cons; auto.
  - intros H y Hy. apply H. by right.
  - done.
  - intros H. specialize (H x ltac:(left)). congruence.
Qed.

Lemma try_all_err {A E} (f : A → result unit E) l e :
  try_all f l = Err e → ∃ x, x ∈ l ∧ f x = Err e.
Proof.
  induction l as [|x l IH]; cbn [try_all]; [done|].
  destruct (f x) as [[]|e'] eqn:E1.
  - intros (y & Hy & He)%IH. exists y. split; [by right|done].
  - intros [= ->]. exists x. split; [by left|done].
Qed.

Lemma check_ok {E} b (e : E) : check b e = Ok tt ↔ b = true.
Proof. by destruct b. Qed.

Lemma on_ok {A E} (o : option A) (f : A → result unit E) : on o f = Ok tt ↔ ∀ a, o = Some a → f a = Ok tt.
Proof. destruct o as [a|]; cbn; naive_solver. Qed.

Lemma bind_unit_ok {E} (r k : result unit E) : (let? _ := r in k) = Ok tt ↔ r = Ok tt ∧ k = Ok tt.
Proof. destruct r as [[]|]; cbn; naive_solver. Qed.

Lemma bind_unit_err {E} (r k : result unit E) e :
  (let? _ := r in k) = Err e → r = Err e ∨ (r = Ok tt ∧ k = Err e).
Proof. destruct r as [[]|]; cbn; naive_solver. Qed.

Lemma imap_pair_elem {A} (l : list A) i x : (i, x) ∈ imap (λ i x, (i, x)) l ↔ l !! i = Some x.
Proof.
  rewrite list_elem_of_lookup. split.
  - intros [j Hj]. rewrite list_lookup_imap in Hj. destruct (l !! j) eqn:E; cbn in Hj; by simplify_eq.
  - intros H. exists i. by rewrite list_lookup_imap, H.
Qed.

(** ** Objects *)

Lemma obj_get_insert_eq k v m : obj_get k (obj_insert k v m) = Some v.
Proof.
  induction m as [|[k' v'] m IH]; cbn [obj_insert].
  - cbn. by rewrite String.eqb_refl.
  - destruct (String.compare k k') eqn:E; cbn; try (by rewrite String.eqb_refl).
    destruct (String.eqb_spec k' k) as [->|Hne]; [|exact IH].
    pose proof (String.compare_antisym k k) as Ha. by rewrite E in Ha.
Qed.

Lemma obj_get_insert_ne k j v m : j ≠ k → obj_get j (obj_insert k v m) = obj_get j m.
Proof.
  intros Hne. assert (Hf : String.eqb k j = false) by (apply String.eqb_neq; congruence).
  induction m as [|[k' v'] m IH]; cbn [obj_insert].
  - cbn. by rewrite Hf.
  - destruct (String.compare k k') eqn:E; cbn; rewrite ?Hf; [|done|].
    + apply String.compare_eq_iff in E as ->. by rewrite Hf.
    + destruct (String.eqb k' j); [done|exact IH].
Qed.

Lemma obj_get_cons k k' v m :
  obj_get k ((k', v) :: m) = if String.eqb k' k then Some v else obj_get k m.
Proof. unfold obj_get. cbn. by destruct (String.eqb k' k). Qed.

Lemma obj_get_elem k v m : obj_get k m = Some v → (k, v) ∈ m.
Proof.
  induction m as [|[j w] m IH]; [done|]. rewrite obj_get_cons.
  destruct (String.eqb_spec j k) as [->|]; [intros [= ->]; by left|right; auto].
Qed.

(** What an overlay holds: the overlaid values, then what was there. *)
Lemma obj_get_overlay src dst k :
  NoDup src.*1 →
  obj_get k (overlay src dst) = match obj_get k src with Some v => Some v | None => obj_get k dst end.
Proof.
  revert dst. induction src as [|[k' v'] src IH]; intros dst Hd; [done|].
  cbn [fmap list_fmap fst] in Hd. apply NoDup_cons_1_1 in Hd as Hk. apply NoDup_cons_1_2 in Hd.
  change (overlay ((k', v') :: src) dst) with (overlay src (obj_insert k' v' dst)). rewrite IH by done.
  rewrite obj_get_cons.
  destruct (String.eqb_spec k' k) as [->|Hne].
  - assert (Hn : obj_get k src = None); [|by rewrite Hn, obj_get_insert_eq].
    clear -Hk. induction src as [|[j w] src IH]; [done|].
    rewrite obj_get_cons.
    destruct (String.eqb_spec j k) as [->|]; [exfalso; apply Hk; by left|]. apply IH. intros H. apply Hk. by right.
  - destruct (obj_get k src); [done|]. apply obj_get_insert_ne. congruence.
Qed.

(** ** Schemas, declaratively *)

Definition length_between (n : Z) (lo hi : option Z) : Prop :=
  (∀ m, lo = Some m → m <= n) ∧ (∀ m, hi = Some m → n <= m).

(** [conforms n schema v]: [v] meets every keyword of [schema], which nests at most [n]
    levels of schemas. *)
Fixpoint conforms (n : nat) (schema v : Value) : Prop :=
  match n with
  | O => False
  | S n' =>
      is_object schema = true
      ∧ (∀ e, json_get "const" schema = Some e → json_eqb v e = true)
      ∧ (∀ vs, json_get "enum" schema = Some (JArray vs) → ∃ c, c ∈ vs ∧ json_eqb c v = true)
      ∧ (∀ t, json_get "type" schema = Some t → type_allows t v = true)
      ∧ (∀ text, v = JString text →
           length_between (Z.of_nat (chars_count text)) (schema_bound "minLength" schema) (schema_bound "maxLength" schema))
      ∧ (∀ items, v = JArray items →
           length_between (Z.of_nat (length items)) (schema_bound "minItems" schema) (schema_bound "maxItems" schema)
           ∧ ∀ s x, json_get "items" schema = Some s → x ∈ items → conforms n' s x)
      ∧ (∀ props, v = JObject props →
           (∀ names k, json_get "required" schema = Some (JArray names) → JString k ∈ names →
              is_Some (obj_get k props))
           ∧ ∀ k x, (k, x) ∈ props →
               match (json_get "properties" schema ≫= as_object) ≫= obj_get k with
               | Some s => conforms n' s x
               | None => json_get "additionalProperties" schema ≠ Some (JBool false)
                         ∧ ∀ m, json_get "additionalProperties" schema = Some (JObject m) →
                                conforms n' (JObject m) x
               end)
  end.

Lemma as_array_some v l : as_array v = Some l ↔ v = JArray l.
Proof. destruct v; cbn; naive_solver. Qed.
Lemma as_str_some v s : as_str v = Some s ↔ v = JString s.
Proof. destruct v; cbn; naive_solver. Qed.
Lemma as_object_some v m : as_object v = Some m ↔ v = JObject m.
Proof. destruct v; cbn; naive_solver. Qed.

Lemma bounds_ok {E} n lo hi (e1 e2 : E) :
  (let? _ := on lo (λ m, check (m <=? n) e1) in on hi (λ m, check (n <=? m) e2)) = Ok tt
  ↔ length_between n lo hi.
Proof.
  rewrite bind_unit_ok, !on_ok. unfold length_between.
  setoid_rewrite check_ok. setoid_rewrite Z.leb_le. done.
Qed.

(** The property step of the validator. *)
Lemma property_ok n s k x path e (IH : ∀ s v path, validate_json_schema n s v path = Ok tt ↔ conforms n s v) :
  match (json_get "properties" s ≫= as_object) ≫= obj_get k with
  | Some s' => validate_json_schema n s' x path
  | None =>
      match json_get "additionalProperties" s with
      | Some (JBool false) => Err e
      | Some (JObject m) => validate_json_schema n (JObject m) x path
      | _ => Ok tt
      end
  end = Ok tt
  ↔ match (json_get "properties" s ≫= as_object) ≫= obj_get k with
    | Some s' => conforms n s' x
    | None => json_get "additionalProperties" s ≠ Some (JBool false)
              ∧ ∀ m, json_get "additionalProperties" s = Some (JObject m) → conforms n (JObject m) x
    end.
Proof.
  destruct ((json_get "properties" s ≫= as_object) ≫= obj_get k) as [s'|]; [apply IH|].
  destruct (json_get "additionalProperties" s) as [[| [] | | | |m]|]; naive_solver.
Qed.

(** The item step, and the object step. *)
Lemma items_ok n s items path (IH : ∀ s v path, validate_json_schema n s v path = Ok tt ↔ conforms n s v) :
  on (json_get "items" s) (λ s',
    try_all (λ ix, validate_json_schema n s' ix.2 (path +:+ "[" +:+ pretty ix.1 +:+ "]"))
      (imap (λ i x, (i, x)) items)) = Ok tt
  ↔ ∀ s' x, json_get "items" s = Some s' → x ∈ items → conforms n s' x.
Proof.
  rewrite on_ok. setoid_rewrite try_all_ok. split.
  - intros H s' x Hs Hx. apply list_elem_of_lookup in Hx as [i Hi].
    apply imap_pair_elem in Hi. exact (proj1 (IH _ _ _) (H s' Hs (i, x) Hi)).
  - intros H s' Hs [i x] Hix%imap_pair_elem. apply IH, (H s'); [done|]. by apply (list_elem_of_lookup_2 _ i).
Qed.

Lemma required_ok (s : Value) (props : Object) path :
  on (json_get "required" s ≫= as_array) (λ names,
    try_all (λ name, on (as_str name) (λ n,
               check (bool_decide (is_Some (obj_get n props))) (IR_Missing n path))) names) = Ok tt
  ↔ ∀ names k, json_get "required" s = Some (JArray names) → JString k ∈ names → is_Some (obj_get k props).
Proof.
  rewrite on_ok. setoid_rewrite try_all_ok. setoid_rewrite on_ok. setoid_rewrite check_ok.
  setoid_rewrite bool_decide_eq_true. split.
  - intros H names k Hn Hk. apply (H names) with (JString k); [by rewrite Hn|done|done].
  - intros H names Hn name Hin k ->%as_str_some. destruct (json_get "required" s) as [r|]; [|done].
    apply as_array_some in Hn as ->. by apply (H names k).
Qed.

Lemma enum_ok (s v : Value) path :
  on (json_get "enum" s ≫= as_array) (λ vs, check (existsb (λ c, json_eqb c v) vs) (IR_Enum path)) = Ok tt
  ↔ ∀ vs, json_get "enum" s = Some (JArray vs) → ∃ c, c ∈ vs ∧ json_eqb c v = true.
Proof.
  rewrite on_ok. setoid_rewrite check_ok. setoid_rewrite existsb_exists. split.
  - intros H vs Hvs. destruct (H vs) as (c & Hc & ?); [by rewrite Hvs|]. exists c. by rewrite list_elem_of_In.
  - intros H vs Hvs. destruct (json_get "enum" s) as [e|]; [|done]. apply as_array_some in Hvs as ->.
    destruct (H vs eq_refl) as (c & Hc & ?). exists c. by rewrite <- list_elem_of_In.
Qed.

(** The validator decides conformance. *)
Lemma validate_json_schema_ok n s v path : validate_json_schema n s v path = Ok tt ↔ conforms n s v.
Proof.
  revert s v path. induction n as [|n IH]; intros s v path; [done|]. cbn [validate_json_schema conforms].
  destruct s as [| | | | |m] eqn:Es; try (split; [done|by intros [? _]]). rewrite <- Es.
  assert (Hobj : is_object s = true) by (by rewrite Es). clear Es m.
  rewrite !bind_unit_ok, enum_ok, !on_ok.
  setoid_rewrite as_str_some. setoid_rewrite as_array_some. setoid_rewrite as_object_some.
  setoid_rewrite bounds_ok. setoid_rewrite check_ok. setoid_rewrite bind_unit_ok.
  setoid_rewrite required_ok. setoid_rewrite try_all_ok.
  assert (Hitems : (∀ items, v = JArray items →
      on (schema_bound "minItems" s) (λ min, check (min <=? Z.of_nat (length items)) (IR_TooFew path)) = Ok tt
      ∧ (let? _ := on (schema_bound "maxItems" s) (λ max, check (Z.of_nat (length items) <=? max) (IR_TooMany path)) in
         on (json_get "items" s) (λ s',
           try_all (λ ix, validate_json_schema n s' ix.2 (path +:+ "[" +:+ pretty ix.1 +:+ "]"))
             (imap (λ i x, (i, x)) items))) = Ok tt)
    ↔ ∀ items, v = JArray items →
        length_between (Z.of_nat (length items)) (schema_bound "minItems" s) (schema_bound "maxItems" s)
        ∧ ∀ s' x, json_get "items" s = Some s' → x ∈ items → conforms n s' x).
  { setoid_rewrite bind_unit_ok. setoid_rewrite (items_ok n s _ path IH). setoid_rewrite on_ok.
    setoid_rewrite check_ok. setoid_rewrite Z.leb_le. unfold length_between. naive_solver. }
  rewrite Hitems. clear Hitems. split.
  - intros (H1 & H2 & H3 & H4 & H5 & H6). split_and!; try done.
    intros props Hp. destruct (H6 props Hp) as [Hr Hall]. split; [done|]. intros k x Hin.
    exact (proj1 (property_ok n s k x _ _ IH) (Hall (k, x) Hin)).
  - intros (_ & H1 & H2 & H3 & H4 & H5 & H6). split_and!; try done.
    intros props Hp. destruct (H6 props Hp) as [Hr Hall]. split; [done|]. intros [k x] Hin.
    exact (proj2 (property_ok n s k x _ _ IH) (Hall k x Hin)).
Qed.

(** C28: The arguments of a tool call are accepted exactly when they meet the operator's schema
    as it is read declaratively: constants, enumerations, types and length bounds hold at
    every level, required fields are there, and with [additionalProperties] false no
    field is there that the schema does not name.  Nothing is built from others. *)
Theorem accepted_arguments_meet_schema `{UrlCrate, NetStd, HttpCrates} c plugin args :
  is_object args = true →
  (conforms (S MAX_INPUT_SCHEMA_DEPTH) (enforced_schema c) args
   ↔ ∀ r, build_action_params c plugin args ≠ Err (BE_Input r))
  ∧ (¬ conforms (S MAX_INPUT_SCHEMA_DEPTH) (enforced_schema c) args →
     ∃ r, build_action_params c plugin args = Err (BE_Input r)).
Proof.
  destruct args as [| | | | |m]; try done. intros _. unfold build_action_params, validate_input.
  destruct (validate_json_schema _ _ _ _) as [[]|r] eqn:E.
  - apply validate_json_schema_ok in E. split; [|done]. split; [|done]. intros _ r.
    destruct (String.eqb plugin "http"); [done|]. destruct (String.eqb plugin INTERNAL_HTTP_PLUGIN); [|done].
    unfold build_internal_http_params. destruct (obj_get "method" m); [done|].
    by destruct (resolve_pinned_http_method c).
  - split; [|eauto]. split; [|intros H'; by destruct (H' r)].
    intros Hc%(validate_json_schema_ok _ _ _ "$"). rewrite E in Hc. done.
Qed.

(** ** Registered capabilities *)

(** A refusal that blames the schema, not the arguments. *)
Definition blames_schema (r : InputRefusal) : bool :=
  match r with IR_TooDeep _ | IR_SchemaNotObject _ => true | _ => false end.

Lemma bind_blame (r k : result unit InputRefusal) e :
  (let? _ := r in k) = Err e →
  (r = Err e → blames_schema e = false) → (k = Err e → blames_schema e = false) → blames_schema e = false.
Proof. intros [?|[_ ?]]%bind_unit_err; auto. Qed.

Lemma on_err {A E} (o : option A) (f : A → result unit E) e : on o f = Err e → ∃ a, o = Some a ∧ f a = Err e.
Proof. destruct o; cbn; [eauto|done]. Qed.

Lemma check_err {E} b (e e' : E) : check b e = Err e' → e' = e.
Proof. destruct b; cbn; [done|]. by intros [= ->]. Qed.

(** A keyword whose check only compares. *)
Lemma on_check_blame {A} (o : option A) (b : A → bool) (mk : A → InputRefusal) e :
  (∀ a, blames_schema (mk a) = false) → on o (λ a, check (b a) (mk a)) = Err e → blames_schema e = false.
Proof. intros Hm (a & _ & ->%check_err)%on_err. apply Hm. Qed.

Lemma shape_children n m path :
  validate_schema_shape (S n) (JObject m) path = Ok tt →
  (∀ s, json_get "items" (JObject m) = Some s → ∃ p, validate_schema_shape n s p = Ok tt)
  ∧ (∀ k s, (json_get "properties" (JObject m) ≫= as_object) ≫= obj_get k = Some s →
       ∃ p, validate_schema_shape n s p = Ok tt)
  ∧ (∀ a, json_get "additionalProperties" (JObject m) = Some (JObject a) →
       ∃ p, validate_schema_shape n (JObject a) p = Ok tt).
Proof.
  cbn [validate_schema_shape]. rewrite !bind_unit_ok, !on_ok.
  intros (_ & _ & Hp & Ha & Hi & _). split_and!.
  - intros s Hs. eexists. by apply Hi.
  - intros k s. destruct (json_get "properties" (JObject m)) as [p|]; [|done]. cbn.
    specialize (Hp p eq_refl). destruct (as_object p) as [ps|]; [|done]. cbn. rewrite try_all_ok in Hp.
    intros Hk. eexists. exact (Hp _ (obj_get_elem k s ps Hk)).
  - intros a Hs. eexists. exact (Ha _ Hs).
Qed.

Lemma shaped_schema_blameless n s :
  (∃ p, validate_schema_shape n s p = Ok tt) →
  ∀ v path e, validate_json_schema n s v path = Err e → blames_schema e = false.
Proof.
  revert s. induction n as [|n IH]; intros s [p Hs] v path e; [done|].
  destruct s as [| | | | |m]; try done.
  destruct (shape_children n m p Hs) as (Hi & Hp & Ha). cbn [validate_json_schema].
  intros H. apply (bind_blame _ _ _ H); clear H; [by apply on_check_blame|]. intros H.
  apply (bind_blame _ _ _ H); clear H; [by apply on_check_blame|]. intros H.
  apply (bind_blame _ _ _ H); clear H; [by apply on_check_blame|]. intros H.
  apply (bind_blame _ _ _ H); clear H.
  { intros (text & _ & H)%on_err. apply (bind_blame _ _ _ H); clear H; by apply on_check_blame. }
  intros H. apply (bind_blame _ _ _ H); clear H.
  { intros (items & _ & H)%on_err. apply (bind_blame _ _ _ H); clear H; [by apply on_check_blame|]. intros H.
    apply (bind_blame _ _ _ H); clear H; [by apply on_check_blame|].
    intros (s & Hs' & ((i & x) & _ & H)%try_all_err)%on_err. by apply (IH s (Hi s Hs')) in H. }
  intros (props & _ & H)%on_err. apply (bind_blame _ _ _ H); clear H.
  { intros (names & _ & (name & _ & H)%try_all_err)%on_err. revert H. by apply on_check_blame. }
  intros ((k & x) & _ & H)%try_all_err. cbn [fst snd] in H.
  destruct ((json_get "properties" (JObject m) ≫= as_object) ≫= obj_get k) as [s|] eqn:Ek.
  - by apply (IH s (Hp k s Ek)) in H.
  - destruct (json_get "additionalProperties" (JObject m)) as [[| [] | | | |a]|] eqn:Ea; try done.
    + by injection H as <-.
    + by apply (IH (JObject a) (Ha a eq_refl)) in H.
Qed.

Section registered.
Context {UC : UrlCrate} {GC : GlobCrate} {NS : NetStd} {UH : UrlHost} {HC : HttpCrates}.

Lemma validate_capability_ok c :
  validate_capability c = Ok tt →
  validate_input_schema_definition (cap_input_schema c) = Ok tt
  ∧ (declares_internal_http c = true → ∃ m, resolve_pinned_http_method c = Ok m).
Proof.
  unfold validate_capability. destruct (is_empty (trim (cap_tool_name c))); [done|].
  destruct (negb (str_all _ _)); [done|]. destruct (str_in _ RESERVED_TOOL_NAMES); [done|].
  destruct (is_empty (trim (cap_action c))); [done|]. destruct (is_empty (trim (cap_credential_ref c))); [done|].
  rewrite bind_unit_ok. intros [Hs H].
  destruct (validate_input_schema_definition (cap_input_schema c)) as [[]|]; [|done]. split; [done|].
  destruct (negb (str_in _ REVERSIBILITIES)); [done|]. rewrite !bind_unit_ok in H. destruct H as (_ & _ & H).
  intros Hd. rewrite Hd in H. destruct (resolve_pinned_http_method c) as [m|]; [by exists m|done].
Qed.

Lemma enforced_schema_shaped c :
  validate_input_schema_definition (cap_input_schema c) = Ok tt →
  ∃ p, validate_schema_shape (S MAX_INPUT_SCHEMA_DEPTH) (enforced_schema c) p = Ok tt.
Proof.
  unfold enforced_schema, validate_input_schema_definition.
  destruct (cap_input_schema c); cbn [is_object]; intros Hs; try discriminate Hs.
  - exists "$". vm_compute. reflexivity.
  - exists "$". exact Hs.
Qed.

Lemma resolved_verb c m : resolve_pinned_http_method c = Ok m → m ∈ INTERNAL_HTTP_VERBS.
Proof.
  unfold resolve_pinned_http_method. intros H.
  destruct (match obj_get "method" _ with Some _ => _ | None => _ end) as [p|]; [|done]. cbn [result_bind] in H.
  destruct (match p, declared_methods c with Some _, _ => _ | None, _ => _ end) as [x|]; [|done].
  cbn [result_bind] in H. destruct (str_in x INTERNAL_HTTP_VERBS) eqn:E; [|done]. injection H as <-.
  unfold str_in in E. apply existsb_exists in E as (y & Hy & ->%String.eqb_eq). by apply list_elem_of_In.
Qed.

(** A registered capability is callable and under the operator's control: its schema never
    fails a call by itself; on the internal transport a caller that conforms and names no
    method always gets parameters, whose method is the one verb the operator declared;
    every other parameter the operator pinned has the pinned value, and the rest is the
    caller's.  A caller that names a method is refused. *)
Theorem registered_tool_runs_under_operator_pins c args :
  validate_capability c = Ok tt → declares_internal_http c = true → NoDup (ct_plugin_params (cap_target c)).*1 →
  (∀ r, build_action_params c INTERNAL_HTTP_PLUGIN (JObject args) = Err (BE_Input r) → blames_schema r = false)
  ∧ (is_Some (obj_get "method" args) →
     ∃ e, build_action_params c INTERNAL_HTTP_PLUGIN (JObject args) = Err e)
  ∧ (obj_get "method" args = None →
     conforms (S MAX_INPUT_SCHEMA_DEPTH) (enforced_schema c) (JObject args) →
     ∃ verb p, resolve_pinned_http_method c = Ok verb ∧ verb ∈ INTERNAL_HTTP_VERBS
       ∧ build_action_params c INTERNAL_HTTP_PLUGIN (JObject args) = Ok (JObject p)
       ∧ obj_get "method" p = Some (JString verb)
       ∧ ∀ k, k ≠ "method" →
           obj_get k p = match obj_get k (ct_plugin_params (cap_target c)) with
                         | Some v => Some v | None => obj_get k args end).
Proof.
  intros (Hs & Hm)%validate_capability_ok Hd Hn. destruct (Hm Hd) as [verb Hv].
  unfold build_action_params, validate_input. change (String.eqb INTERNAL_HTTP_PLUGIN "http") with false.
  rewrite String.eqb_refl. cbv beta iota.
  destruct (validate_json_schema _ (enforced_schema c) (JObject args) "$") as [[]|r] eqn:E; split_and!.
  - intros r H. exfalso. unfold build_internal_http_params in H.
    destruct (obj_get "method" args); [done|]. by rewrite Hv in H.
  - intros [v Hm']. unfold build_internal_http_params. rewrite Hm'. eauto.
  - intros Hno _. unfold build_internal_http_params. rewrite Hno, Hv. exists verb. eexists.
    split_and!; [done|by apply resolved_verb with c|done|apply obj_get_insert_eq|].
    intros k Hk. rewrite obj_get_insert_ne by done. by apply obj_get_overlay.
  - intros r' [= <-]. exact (shaped_schema_blameless _ _ (enforced_schema_shaped c Hs) _ _ _ E).
  - eauto.
  - intros _ Hc%(validate_json_schema_ok _ _ _ "$"). rewrite E in Hc. done.
Qed.

(** ** Headers and channels *)

Lemma obj_get_filter (f : string → bool) m k v :
  obj_get k (List.filter (λ kv : string * Value, f kv.1) m) = Some v → obj_get k m = Some v ∧ f k = true.
Proof.
  induction m as [|[j w] m IH]; [done|]. cbn [List.filter fst]. destruct (f j) eqn:Ef; rewrite !obj_get_cons.
  - destruct (String.eqb_spec j k) as [->|]; [by intros [= ->]|done].
  - destruct (String.eqb_spec j k) as [->|]; [|done]. intros [_ H]%IH. congruence.
Qed.

(** A header of an http call is pinned by the operator, or the caller's under a name that
    no pinned header spells, or Notion's version. *)
Theorem pinned_headers_win c args url k v :
  (∀ h, pinned_headers c = Some h → NoDup h.*1) →
  (∀ h, obj_get "headers" args = Some (JObject h) → NoDup h.*1) →
  obj_get k (http_headers c args url) = Some v →
  (∃ h, pinned_headers c = Some h ∧ obj_get k h = Some v)
  ∨ ((∃ h, obj_get "headers" args = Some (JObject h) ∧ obj_get k h = Some v)
     ∧ ∀ h, pinned_headers c = Some h → existsb (λ p : string * Value, eq_ignore_ascii_case k p.1) h = false)
  ∨ (k = "Notion-Version" ∧ v = JString "2022-06-28").
Proof.
  intros Hpin Hcall. unfold http_headers.
  set (caller := match obj_get "headers" args ≫= as_object with Some h => overlay h [] | None => [] end).
  assert (Hcaller : obj_get k caller = Some v → ∃ h, obj_get "headers" args = Some (JObject h) ∧ obj_get k h = Some v).
  { unfold caller. destruct (obj_get "headers" args) as [o|] eqn:Eo; [|done].
    destruct o as [| | | | |h]; try done. cbn [mbind option_bind as_object]. rewrite obj_get_overlay by (by apply Hcall).
    destruct (obj_get k h) eqn:Ek; [|done]. intros [= ->]. by exists h. }
  set (merged := match pinned_headers c with Some h => _ | None => _ end).
  assert (Hmerged : obj_get k merged = Some v →
    (∃ h, pinned_headers c = Some h ∧ obj_get k h = Some v)
    ∨ ((∃ h, obj_get "headers" args = Some (JObject h) ∧ obj_get k h = Some v)
       ∧ ∀ h, pinned_headers c = Some h → existsb (λ p : string * Value, eq_ignore_ascii_case k p.1) h = false)).
  { unfold merged. destruct (pinned_headers c) as [h|]; [|intros ?; right; split; [auto|done]].
    rewrite obj_get_overlay by auto. destruct (obj_get k h) eqn:Ek; [intros [= ->]; left; eauto|].
    intros [H1 H2]%(obj_get_filter (λ j, negb (existsb (λ p : string * Value, eq_ignore_ascii_case j p.1) h))).
    right. split; [auto|]. intros h' [= <-]. by apply negb_true_iff. }
  clearbody merged. destruct (_ && _).
  - destruct (decide (k = "Notion-Version")) as [->|Hne].
    + rewrite obj_get_insert_eq. intros [= <-]. auto.
    + rewrite obj_get_insert_ne by done. intros [?|?]%Hmerged; auto.
  - intros [?|?]%Hmerged; auto.
Qed.

(** The upstream URL of an LLM channel stays on the operator's scheme, host and port and
    under the operator's path, whatever path the agent asked for. *)
Theorem llm_channel_is_contained c path u :
  llm_upstream_url c path = Some u →
  ∃ l base parsed, cap_llm c = Some l
    ∧ url_parse (trim_end_matches "/" (lp_provider_base l)) = Some base ∧ url_parse u = Some parsed
    ∧ url_scheme parsed = url_scheme base ∧ url_host_str parsed = url_host_str base
    ∧ url_port_or_known_default parsed = url_port_or_known_default base
    ∧ (url_path parsed = trim_end_matches "/" (url_path base)
       ∨ ∃ rest, url_path parsed = trim_end_matches "/" (url_path base) +:+ "/" +:+ rest).
Proof.
  unfold llm_upstream_url. destruct (cap_llm c) as [l|]; [|done]. cbn.
  destruct (url_parse (trim_end_matches "/" (lp_provider_base l))) as [base|] eqn:Eb; [|done]. cbn.
  destruct (_ || _); [done|]. set (joined := if is_empty _ then _ else _). clearbody joined.
  destruct (url_parse joined) as [parsed|] eqn:Ep; [|done]. cbn. destruct (_ && _); [done|].
  destruct (String.eqb_spec (url_scheme parsed) (url_scheme base)); [|done]. cbn.
  case_bool_decide; [|done]. cbn. case_bool_decide; [|done]. cbn.
  set (bp := trim_end_matches "/" (url_path base)).
  assert (Hc : (if is_empty bp then starts_with "/" (url_path parsed)
     else String.eqb (url_path parsed) bp || starts_with (bp +:+ "/") (url_path parsed)) = true →
     url_path parsed = bp ∨ ∃ rest, url_path parsed = bp +:+ "/" +:+ rest).
  { destruct bp as [|a bp]; cbn [is_empty].
    - intros (r & Hr)%starts_with_spec. right. exists r. exact Hr.
    - intros [->%String.eqb_eq|(r & Hr)%starts_with_spec]%orb_true_iff; [by left|right].
      exists r. by rewrite Hr, string_app_assoc. }
  destruct (if is_empty bp then _ else _); [|done]. intros [= <-]. exists l, base, parsed. split_and!; auto.
Qed.

(** ** Previews *)

(** What an approver sees is scalars at the declared paths of the very parameters that
    will run, in the declared order; nothing else of the parameters is shown. *)
Theorem preview_shows_only_declared_scalars spec params f :
  f ∈ pv_fields (extract_preview spec params) →
  ∃ s v, s ∈ ps_fields spec ∧ pf_label f = fs_label s ∧ dot_path_get params (fs_path s) = Some v
    ∧ coerce_preview_value v = Some (pf_value f) ∧ is_object v = false ∧ as_array v = None.
Proof.
  cbn [extract_preview pv_fields]. intros (s & Hs & H)%list_elem_of_omap. unfold preview_field in H.
  destruct (dot_path_get params (fs_path s)) as [v|] eqn:Ev; [|done]. cbn in H.
  destruct (coerce_preview_value v) as [d|] eqn:Ed; [|done]. cbn in H. injection H as <-.
  exists s, v. by destruct v; split_and!.
Qed.
End registered.
