(* ===== verification/Catalog.v ===== *)
(** * What the gateway knows about an action

    Models the pure decisions of [src/src/server/mod.rs] that a request meets on its way:
    the configured action labels and tenant modes of [config/mod.rs], the spend
    extractors of [policy/mod.rs], the criticality classes and deadlines of
    [approval/mod.rs], the names in a refusal record of [refusal.rs], the capability
    catalog's answer on reversibility and preview, the lookup of an approval recipe, and
    who owns an approval.

    The catalog is the list of capabilities that was read; the govder client is the
    function that answers one lookup. *)

From stdpp Require Import base gmap strings list.
From Stdlib Require Import Ascii ZArith Lia.
From S2P Require Import Prelude RustStr PolicyTypes UrlCanon RateLimit Json Kernel PolicyEngine Approval.
From S2P Require Import Tokens Auth Credential VaultCollections Capability.

Open Scope Z_scope.

(** ** Spend *)

(** [SpendExtractor], [matches], [extract], [extract_spend]. *)
Record SpendExtractor := {
  sx_action_pattern : string;
  sx_credential_pattern : string;
  sx_amount_pointer : string;
  sx_asset : option string;
  sx_asset_pointer : option string;
}.

Section spend.
Context {GC : GlobCrate} {SJ : SerdeJson}.

Definition extractor_matches (x : SpendExtractor) (act alias : string) : bool :=
  glob_matches (sx_action_pattern x) act && glob_matches (sx_credential_pattern x) alias.
Definition extract (x : SpendExtractor) (params : Value) : option SpendAttempt :=
  amount ← json_pointer params (sx_amount_pointer x) ≫= as_u64;
  asset ← (match sx_asset_pointer x, sx_asset x with
           | Some ptr, _ => json_pointer params ptr ≫= as_str
           | None, Some lit => Some lit
           | None, None => None
           end);
  Some {| sp_asset := asset; sp_amount := amount |}.
Definition extract_spend (xs : list SpendExtractor) (act alias : string) (params : Value) : option SpendAttempt :=
  x ← List.find (λ x, extractor_matches x act alias) xs; extract x params.
End spend.

(** ** Configuration *)

(** [TenantMode]. *)
Inductive TenantMode := TM_Enforce | TM_Observe.

(** The parts of [Config] the gateway reads: labels, tenants, strictness, extractors and
    the averin switches of the evidence floor. *)
Record GatewayConfig := {
  gc_action_labels : gmap string string;
  gc_tenants : gmap string TenantMode;
  gc_require_declared : bool;
  gc_spend_extractors : list SpendExtractor;
  gc_policies : list Policy;
  gc_averin_enabled : bool;
  gc_d8_complete_evidence : bool;
  gc_d8_money_and_irreversible : bool;
}.

(** [tenant_mode], [resolve_action], [canonical_action_has_labels]. *)
Definition tenant_mode (c : GatewayConfig) (tenant : option string) : TenantMode :=
  match tenant with Some t => default TM_Enforce (gc_tenants c !! t) | None => TM_Enforce end.
Definition resolve_action (c : GatewayConfig) (presented : string) : string * option string :=
  match gc_action_labels c !! presented with
  | Some canonical => (canonical, Some presented)
  | None => (presented, None)
  end.
Definition canonical_action_has_labels (c : GatewayConfig) (canonical : string) : bool :=
  existsb (λ e : string * string, String.eqb e.2 canonical) (map_to_list (gc_action_labels c)).

(** [parse_action]. *)
Definition parse_action (act : string) : string * string :=
  match split_once "." act with Some p => p | None => ("http", act) end.

(** ** Loading stored policies *)

Section load.
Context {UC : UrlCrate} {EC : UrlEncodingCrate}.

(** [first_warned_url_pattern], [first_negated_warned_url_pattern]. *)
Definition exact_url_warning (w : PatternWarning) : bool :=
  match w with ExactUrlMissesQuery | QueryInPattern => true | _ => false end.
Fixpoint first_warned_url_pattern (c : PolicyCondition) (exact_ok : bool) : option (string * CanonPattern) :=
  match c with
  | UrlMatch p =>
      let canon := canonical_pattern p in
      let ws := if exact_ok then List.filter (λ w, negb (exact_url_warning w)) (cp_warnings canon) else cp_warnings canon in
      match ws with [] => None | _ => Some (p, {| cp_text := cp_text canon; cp_warnings := ws |}) end
  | And v | Or v => find_map (λ c, first_warned_url_pattern c exact_ok) v
  | Not b => first_warned_url_pattern b exact_ok
  | _ => None
  end.
Fixpoint first_negated_warned_url_pattern (c : PolicyCondition) (negated : bool) : option (string * CanonPattern) :=
  match c with
  | UrlMatch p =>
      if negated
      then match cp_warnings (canonical_pattern p) with [] => None | _ => Some (p, canonical_pattern p) end
      else None
  | And v | Or v => find_map (λ x, first_negated_warned_url_pattern x negated) v
  | Not b => first_negated_warned_url_pattern b (negb negated)
  | _ => None
  end.

(** [refuse_warned_url_patterns]: the first refused rule, with its pattern. *)
Definition warned_rule (p : Policy) (r : PolicyRule) : option (string * CanonPattern) :=
  match action r with
  | PA_Deny => first_warned_url_pattern (condition r) false
  | PA_Prompt => first_warned_url_pattern (condition r) (bool_decide (default_action p = PA_Deny))
  | PA_Allow => first_negated_warned_url_pattern (condition r) false
  end.
Definition refuse_warned_url_patterns (p : Policy) : option (string * CanonPattern) :=
  find_map (warned_rule p) (rules p).

(** [stored_load_refusal], [stored_policy_refusals], [refuse_unloadable_stored_policies]. *)
Inductive LoadRefusal := LR_Url (id : string) (pattern : string) | LR_RateLimit (id : string).
Definition stored_load_refusal (p : Policy) : option LoadRefusal :=
  match refuse_warned_url_patterns p with
  | Some (pattern, _) => Some (LR_Url (policy_id p) pattern)
  | None => if rate_limit_default_not_deny p then Some (LR_RateLimit (policy_id p)) else None
  end.
Definition stored_policy_refusals (stored : list Policy) : list LoadRefusal := omap stored_load_refusal stored.
Definition refuse_unloadable_stored_policies (stored : list Policy) : result unit (list LoadRefusal) :=
  match stored_policy_refusals stored with [] => Ok tt | refusals => Err refusals end.
End load.

(** [merge_policies]. *)
Definition merge_policies (config_policies stored : list Policy) : list Policy := config_policies ++ stored.

(** ** Reversibility *)

(** [IrreversibilityResolution], [EffectiveEvidenceFloor]. *)
Inductive IrreversibilityResolution :=
| IR_Reversible | IR_HumanFloor | IR_PartiallyReversible | IR_Undeclared | IR_AmbiguousCanonical | IR_Unavailable.
Inductive EffectiveEvidenceFloor := EF_MoneyAndIrreversible | EF_HumanFloor.

(** [EffectiveEvidenceFloor::from_config]. *)
Definition floor_from_config (c : GatewayConfig) (client_present : bool) : EffectiveEvidenceFloor :=
  if client_present && gc_averin_enabled c && gc_d8_complete_evidence c && gc_d8_money_and_irreversible c
  then EF_MoneyAndIrreversible else EF_HumanFloor.

(** [is_money_action]. *)
Definition is_money_action (names : list (option string)) : bool :=
  existsb (λ n, match n with Some n => starts_with "money." (to_ascii_lowercase (trim n)) | None => false end) names.

(** [automatically_requires_approval], [trusted_human_floor], [requires_committed_evidence],
    [d8_fallback_ok], [authority_class]. *)
Definition automatically_requires_approval (r : IrreversibilityResolution) : bool :=
  match r with IR_HumanFloor | IR_PartiallyReversible | IR_AmbiguousCanonical => true | _ => false end.
Definition trusted_human_floor (r : IrreversibilityResolution) : bool :=
  match r with IR_Reversible => false | _ => true end.
Definition is_human_floor (f : EffectiveEvidenceFloor) : bool :=
  match f with EF_HumanFloor => true | EF_MoneyAndIrreversible => false end.
Definition requires_committed_evidence (r : IrreversibilityResolution) (f : EffectiveEvidenceFloor) (money : bool) : bool :=
  match r with
  | IR_HumanFloor | IR_AmbiguousCanonical => true
  | IR_PartiallyReversible => money || is_human_floor f
  | _ => false
  end.
Definition d8_fallback_ok (r : IrreversibilityResolution) (money : bool) : bool :=
  match r with IR_Reversible | IR_PartiallyReversible => negb money | _ => false end.
Definition authority_class (r : IrreversibilityResolution) : option CapabilityAuthorityClass :=
  match r with
  | IR_Reversible => Some CA_Reversible
  | IR_HumanFloor => Some CA_HumanFloor
  | IR_PartiallyReversible => Some CA_PartiallyReversible
  | IR_Undeclared => Some CA_Undeclared
  | IR_AmbiguousCanonical => Some CA_AmbiguousCanonical
  | IR_Unavailable => None
  end.

#[export] Instance IrreversibilityResolution_eq_dec : EqDecision IrreversibilityResolution.
Proof. solve_decision. Defined.
#[export] Instance CapabilityAuthorityClass_eq_dec : EqDecision CapabilityAuthorityClass.
Proof. solve_decision. Defined.

(** ** The catalog *)

(** The closures of [resolve_irreversibility_for_action]: a declaration stricter than
    partially reversible, and the class of the declarations that matched. *)
Definition declares_floor (cap : Capability) : bool :=
  negb (str_in (trim (cap_reversibility cap)) ["reversible"; "partially-reversible"])
  || String.eqb (trim (cap_reversibility cap)) "partially-reversible" && is_money_action [Some (cap_action cap)].
Definition classify (c : GatewayConfig) (alias : string) (matching : list Capability) : IrreversibilityResolution :=
  let matching :=
    List.filter (λ cap, negb (gc_require_declared c) || String.eqb (trim (cap_credential_ref cap)) (trim alias)) matching in
  match matching with
  | [] => IR_Undeclared
  | _ =>
      if existsb declares_floor matching then IR_HumanFloor
      else if existsb (λ cap, reversibility_requires_human_floor (cap_reversibility cap)) matching
      then IR_PartiallyReversible else IR_Reversible
  end.

(** [non_blank]. *)
Definition non_blank (o : option string) : option string :=
  match o with Some s => if is_empty (trim s) then None else Some (trim s) | None => None end.

(** The capabilities that answer to a label or, for a canonical verb, resolve to it. *)
Definition has_label (c : GatewayConfig) (label : string) (cap : Capability) : bool :=
  String.eqb (trim (cap_action cap)) label
  || bool_decide ((resolve_action c (cap_action cap)).2 = Some label).
Definition has_canonical (c : GatewayConfig) (canonical : string) (cap : Capability) : bool :=
  String.eqb (resolve_action c (cap_action cap)).1 canonical.

(** [resolve_irreversibility_for_action], after the catalog was read. *)
Definition resolve_irreversibility (c : GatewayConfig) (caps : list Capability) (alias canonical : string)
    (label : option string) : IrreversibilityResolution :=
  match non_blank label with
  | Some l =>
      match List.filter (has_label c l) caps with
      | [] => IR_Undeclared
      | exact => classify c alias exact
      end
  | None =>
      if canonical_action_has_labels c canonical then IR_AmbiguousCanonical
      else match List.filter (has_canonical c canonical) caps with
           | [] => IR_Undeclared
           | found => classify c alias found
           end
  end.

(** [approval_preview_for_action], after the catalog was read: only an unambiguous
    capability gives a preview. *)
Definition sole_preview (found : list Capability) (params : Value) : option ApprovalPreview :=
  match found with
  | [cap] => (λ spec, extract_preview spec params) <$> cap_approval_preview cap
  | _ => None
  end.
Definition approval_preview_for_action (c : GatewayConfig) (caps : list Capability) (canonical : string)
    (label : option string) (params : Value) : option ApprovalPreview :=
  match non_blank label with
  | Some l => sole_preview (List.filter (has_label c l) caps) params
  | None =>
      if canonical_action_has_labels c canonical then None
      else sole_preview (List.filter (has_canonical c canonical) caps) params
  end.

(** ** Approval recipes *)

(** [FetchedGateRule], [GateRuleAnswer]. *)
Record FetchedGateRule := { fg_rule : ApprovalRule; fg_risk_tier : string; fg_irreversible : bool }.
Inductive GateRuleAnswer := GR_Rule (r : FetchedGateRule) | GR_NoRule | GR_Inconclusive (reason : string).

(** [fetch_gate_rule] of the govder client: tenant, agent and action class; [None] when
    govder cannot be reached or understood. *)
Abbreviation Govder := (string → string → string → option GateRuleAnswer).

(** The refusals of the lookup. *)
Inductive GateRefusal := GF_NoEngine | GF_Unreachable | GF_Ambiguous.
Definition NO_ENGINE : string := "this vultrino has no policy engine wired".

(** The loop over the names of an action, and [fetch_gate_rule_for_action]. *)
Fixpoint ask_gate_rule (fetch : string → option GateRuleAnswer) (classes : list string) (pending : option string)
    : result (option FetchedGateRule * option string) GateRefusal :=
  match classes with
  | [] => Ok (None, pending)
  | class :: rest =>
      match fetch class with
      | None => Err GF_Unreachable
      | Some (GR_Rule r) => Ok (Some r, pending)
      | Some GR_NoRule => ask_gate_rule fetch rest pending
      | Some (GR_Inconclusive reason) =>
          ask_gate_rule fetch rest (match pending with Some p => Some p | None => Some reason end)
      end
  end.
Definition trimmed (o : option string) : string := match o with Some s => trim s | None => "" end.
Definition fetch_gate_rule_for_action (c : GatewayConfig) (govder : option Govder) (tenant agent_id : option string)
    (action_class : string) (label : option string) : result GateRuleAnswer GateRefusal :=
  let ambiguous := bool_decide (label = None) && canonical_action_has_labels c action_class in
  match govder with
  | None => if ambiguous then Err GF_NoEngine else Ok (GR_Inconclusive NO_ENGINE)
  | Some g =>
      let named := match non_blank label with
                   | Some l => if String.eqb l action_class then [] else [l]
                   | None => []
                   end in
      match ask_gate_rule (g (trimmed tenant) (trimmed agent_id)) (named ++ [action_class]) None with
      | Err e => Err e
      | Ok (Some r, _) => Ok (GR_Rule r)
      | Ok (None, pending) =>
          if ambiguous then Err GF_Ambiguous
          else Ok match pending with Some reason => GR_Inconclusive reason | None => GR_NoRule end
      end
  end.

(** ** Approval settings *)

(** [CriticalitySla], [escalate_after], [escalate_window]. *)
Record CriticalitySla := { sla_escalate_after_secs : Z; sla_escalate_window_secs : Z }.
Definition escalate_after (s : CriticalitySla) : Z := seconds (as_i64 (Z.max (sla_escalate_after_secs s) 1)).
Definition escalate_window (s : CriticalitySla) : Z := seconds (as_i64 (Z.max (sla_escalate_window_secs s) 1)).

(** [CriticalityRule]; the patterns are compiled globs. *)
Record CriticalityRule := { ck_credential : string → bool; ck_action : string → bool; ck_class : CriticalityClass }.

#[export] Instance CriticalityClass_eq_dec : EqDecision CriticalityClass.
Proof. solve_decision. Defined.

(** The parts of [ApprovalConfig] that opening a request reads. *)
Record ApprovalConfig := {
  ac_enabled : bool;
  ac_ttl_secs : Z;
  ac_sla_overrides : list (CriticalityClass * CriticalitySla);
  ac_criticality_rules : list CriticalityRule;
  ac_oob_approver_identity : option string;
  ac_reauth_interval_secs : option Z;
  ac_dual_control_approvers : Z;
}.

(** [default_sla], [sla_for], [criticality_for]. *)
Definition default_sla (a : ApprovalConfig) (class : CriticalityClass) : CriticalitySla :=
  match class with
  | CC_Low => {| sla_escalate_after_secs := 4 * 3600; sla_escalate_window_secs := 4 * 3600 |}
  | CC_Medium =>
      let total := if ac_ttl_secs a =? 0 then 3600 else Z.max (ac_ttl_secs a) 2 in
      let half := Z.max (total / 2) 1 in
      {| sla_escalate_after_secs := half; sla_escalate_window_secs := Z.max 0 (total - half) |}
  | CC_High => {| sla_escalate_after_secs := 15 * 60; sla_escalate_window_secs := 15 * 60 |}
  | CC_Critical => {| sla_escalate_after_secs := 5 * 60; sla_escalate_window_secs := 5 * 60 |}
  end.
Definition sla_for (a : ApprovalConfig) (class : CriticalityClass) : CriticalitySla :=
  match List.find (λ e : CriticalityClass * CriticalitySla, bool_decide (e.1 = class)) (ac_sla_overrides a) with
  | Some e => e.2
  | None => default_sla a class
  end.
Definition criticality_for (a : ApprovalConfig) (credential act : string) : CriticalityClass :=
  match List.find (λ r, ck_credential r credential && ck_action r act) (ac_criticality_rules a) with
  | Some r => ck_class r
  | None => CC_Medium
  end.

(** ** Credentials and callers *)

(** [CredentialAuthority::from_credential]. *)
Definition authority_of (c : Credential) : CredentialAuthority :=
  {| cra_id := cr_id c; cra_credential_type := cr_type c; cra_created_at := cr_created_at c;
     cra_updated_at := cr_updated_at c; cra_tenant := credential_tenant c |}.

(** [AuthResult], [for_use_token]. *)
Record AuthResult := { ar_api_key : ApiKey; ar_role : Role }.
Definition auth_for_use_token (t : UseToken) : AuthResult :=
  let role := {| role_id := "use-token-role:" +:+ ut_id t; role_name := "use-token:" +:+ ut_name t;
                 role_description := Some "Ephemeral grant backing a use token";
                 role_permissions := [P_Read; P_Execute];
                 role_credential_scopes := [ut_credential_scope t]; role_created_at := ut_created_at t |} in
  {| ar_api_key :=
       {| ak_id := ut_id t; ak_key_prefix := ut_token_prefix t; ak_key_hash := ut_token_hash t;
          ak_name := ut_name t; ak_role_id := role_id role; ak_expires_at := ut_expires_at t;
          ak_created_at := ut_created_at t; ak_last_used_at := ut_last_used_at t;
          ak_agent_label := ut_agent_label t; ak_owner_identity := ut_owner_identity t;
          ak_tenant := ut_tenant t; ak_workload_id := None |};
     ar_role := role |}.

(** [RequesterInfo::local], [describe]. *)
Definition local_requester : RequesterInfo :=
  {| rq_principal_kind := "local"; rq_principal_id := None; rq_principal_name := None; rq_role := None;
     rq_owner := None |}.
Definition QUOTE : string := String "034"%char "".
Definition describe (r : RequesterInfo) : string :=
  let kind := replace "_" " " (rq_principal_kind r) in
  match rq_principal_name r with
  | Some name => kind +:+ " " +:+ QUOTE +:+ name +:+ QUOTE
  | None => kind
  end.

(** [ExecAuth], [default], [from_api_key], [from_use_token]. *)
Record ExecAuth := {
  ea_auth : option AuthResult;
  ea_use_token : option UseToken;
  ea_force_approval : bool;
  ea_requester : RequesterInfo;
}.
Definition exec_auth_local : ExecAuth :=
  {| ea_auth := None; ea_use_token := None; ea_force_approval := false; ea_requester := local_requester |}.
Definition from_api_key (a : AuthResult) : ExecAuth :=
  {| ea_auth := Some a; ea_use_token := None; ea_force_approval := false;
     ea_requester :=
       {| rq_principal_kind := "api_key"; rq_principal_id := Some (ak_id (ar_api_key a));
          rq_principal_name := Some (ak_name (ar_api_key a)); rq_role := Some (role_name (ar_role a));
          rq_owner := ak_owner_identity (ar_api_key a) |} |}.
Definition from_use_token (t : UseToken) : ExecAuth :=
  {| ea_auth := Some (auth_for_use_token t); ea_use_token := Some t; ea_force_approval := ut_require_approval t;
     ea_requester :=
       {| rq_principal_kind := "use_token"; rq_principal_id := Some (ut_id t);
          rq_principal_name := Some (ut_name t); rq_role := None; rq_owner := ut_owner_identity t |} |}.

(** The [Principal] built from an authenticated caller. *)
Definition principal_of (a : AuthResult) : Principal :=
  {| principal_id := ak_id (ar_api_key a); agent_label := ak_agent_label (ar_api_key a);
     owner := ak_owner_identity (ar_api_key a); workload_id := ak_workload_id (ar_api_key a) |}.

(** [ApprovalCaller], [from_auth], [id_only], [owns]. *)
Record ApprovalCaller := { ca_principal_id : string; ca_agent_label : option string; ca_tenant : option string }.
Definition caller_from_auth (a : AuthResult) : ApprovalCaller :=
  {| ca_principal_id := ak_id (ar_api_key a); ca_agent_label := ak_agent_label (ar_api_key a);
     ca_tenant := ak_tenant (ar_api_key a) |}.
Definition id_only (principal_id : string) : ApprovalCaller :=
  {| ca_principal_id := principal_id; ca_agent_label := None; ca_tenant := None |}.
Definition owns (c : ApprovalCaller) (a : ApprovalRequest) : bool :=
  if bool_decide (rq_principal_id (ap_requester a) = Some (ca_principal_id c)) then true
  else match non_blank (ca_agent_label c), non_blank (ap_agent_label a) with
       | Some caller, Some requester =>
           String.eqb caller requester && bool_decide (non_blank (ca_tenant c) = non_blank (ap_tenant a))
       | _, _ => false
       end.

(** ** Refusal records *)

(** [RefusalEntry], [RefusalCtx], [sanitize_name], [agent_name], [new], [resolved], [sanitized]. *)
Inductive RefusalEntry := RE_Mcp | RE_Execute | RE_Llm | RE_ApprovalResume.
Record RefusalCtx := {
  rx_entry : RefusalEntry;
  rx_agent : option string;
  rx_credential : option string;
  rx_action : string;
}.
Definition MAX_NAME_LEN : nat := 128.
Definition INVALID_NAME : string := "invalid_name".
Definition name_char (c : ascii) : bool := is_ascii_alphanumeric c || one_of ["."; "_"; ":"; "-"]%char c.
Definition sanitize_name (name : string) : string :=
  let plain := negb (is_empty name) && (Nat.leb (String.length name) MAX_NAME_LEN) && str_all name_char name in
  let looks_like_secret := contains "vk_" name || contains "vut_" name in
  if plain && negb looks_like_secret then name else INVALID_NAME.
Definition agent_name (id : string) (label : option string) : string :=
  match non_blank label with
  | Some l => if String.eqb (sanitize_name l) INVALID_NAME then "vultrino:" +:+ id else l
  | None => "vultrino:" +:+ id
  end.
Definition refusal_ctx (entry : RefusalEntry) (principal : option (string * option string)) (act : string) : RefusalCtx :=
  {| rx_entry := entry; rx_agent := (λ p, agent_name p.1 p.2) <$> principal; rx_credential := None; rx_action := act |}.
Definition refusal_resolved (credential act : string) (r : RefusalCtx) : RefusalCtx :=
  {| rx_entry := rx_entry r; rx_agent := rx_agent r; rx_credential := Some credential; rx_action := act |}.
Definition sanitized (r : RefusalCtx) : option (string * string * option string) :=
  agent ← rx_agent r;
  Some (sanitize_name agent, sanitize_name (rx_action r), sanitize_name <$> rx_credential r).
(** [resume_refusal_ctx]. *)
Definition resume_refusal_ctx (a : ApprovalRequest) : RefusalCtx :=
  let principal := match opt_or (ap_principal_id a) (rq_principal_id (ap_requester a)), ap_agent_label a with
                   | Some id, label => Some (id, label)
                   | None, Some label => Some ("unknown", Some label)
                   | None, None => None
                   end in
  refusal_resolved (ap_credential a) (ap_action a) (refusal_ctx RE_ApprovalResume principal (ap_action a)).
