(* ===== verification/Sessions.v ===== *)
(** * Sessions in flight, and credential resolution

    Models [src/src/session.rs], the registry of the executions a process is running and
    the halt that wakes them, and [src/src/router], the resolver that turns a presented
    name into a credential.

    A [Notify] is its handle: [notify_one] stores a permit for it, which the session's
    next wait consumes.  A session's guard is its id; dropping the guard removes the
    session. *)

From stdpp Require Import base gmap strings list.
From Stdlib Require Import Ascii ZArith Lia.
From S2P Require Import Prelude RustStr UrlCanon Credential VaultCollections.

Open Scope Z_scope.

(** ** The registry *)

(** [SessionEntry]. *)
Record SessionEntry := {
  se_session_id : string;
  se_agent_label : option string;
  se_principal_id : option string;
  se_token_id : option string;
  se_credential : string;
  se_action : string;
  se_started_at : DateTime;
}.

(** [SessionRegistry]: the sessions, the abort handle of each, the handles that hold a
    permit, and the next handle. *)
Record SessionRegistry := {
  sr_sessions : gmap string SessionEntry;
  sr_aborts : gmap string nat;
  sr_permits : gset nat;
  sr_next : nat;
}.
Definition no_sessions : SessionRegistry :=
  {| sr_sessions := ∅; sr_aborts := ∅; sr_permits := ∅; sr_next := 0 |}.

(** [begin], and [drop] of the guard. *)
Definition begin_session (e : SessionEntry) (r : SessionRegistry) : nat * SessionRegistry :=
  (sr_next r,
   {| sr_sessions := <[se_session_id e := e]> (sr_sessions r);
      sr_aborts := <[se_session_id e := sr_next r]> (sr_aborts r);
      sr_permits := sr_permits r; sr_next := S (sr_next r) |}).
Definition end_session (id : string) (r : SessionRegistry) : SessionRegistry :=
  {| sr_sessions := delete id (sr_sessions r); sr_aborts := delete id (sr_aborts r);
     sr_permits := sr_permits r; sr_next := sr_next r |}.

(** [Notify::notify_one], and the wait that takes the permit. *)
Definition notify_one (h : nat) (r : SessionRegistry) : SessionRegistry :=
  {| sr_sessions := sr_sessions r; sr_aborts := sr_aborts r; sr_permits := {[h]} ∪ sr_permits r;
     sr_next := sr_next r |}.
Definition take_permit (h : nat) (r : SessionRegistry) : bool * SessionRegistry :=
  (bool_decide (h ∈ sr_permits r),
   {| sr_sessions := sr_sessions r; sr_aborts := sr_aborts r; sr_permits := sr_permits r ∖ {[h]};
      sr_next := sr_next r |}).

(** [list], [for_agent], [for_halt_target]. *)
Definition list_sessions (r : SessionRegistry) : list SessionEntry := (map_to_list (sr_sessions r)).*2.
Definition for_agent (label : string) (r : SessionRegistry) : list SessionEntry :=
  List.filter (λ s, bool_decide (se_agent_label s = Some label)) (list_sessions r).
Definition is_target (target : string) (s : SessionEntry) : bool :=
  bool_decide (se_agent_label s = Some target) || bool_decide (se_principal_id s = Some target)
  || bool_decide (se_token_id s = Some target).
Definition for_halt_target (target : string) (r : SessionRegistry) : list SessionEntry :=
  List.filter (is_target target) (list_sessions r).

(** [signal_halt]: the number of sessions woken. *)
Definition signal_one (acc : nat * SessionRegistry) (id : string) : nat * SessionRegistry :=
  match sr_aborts acc.2 !! id with
  | Some h => (S acc.1, notify_one h acc.2)
  | None => acc
  end.
Definition signal_halt (target : string) (r : SessionRegistry) : nat * SessionRegistry :=
  foldl signal_one (0%nat, r) (se_session_id <$> for_halt_target target r).

(** ** Executions of the registry *)

(** What tasks do to the registry; a new session's id is a fresh uuid. *)
Inductive SessionOp :=
| Begin (e : SessionEntry) | End (id : string) | Wait (h : nat) | Signal (target : string).
Definition session_step (r : SessionRegistry) (op : SessionOp) : SessionRegistry :=
  match op with
  | Begin e => (begin_session e r).2
  | End id => end_session id r
  | Wait h => (take_permit h r).2
  | Signal t => (signal_halt t r).2
  end.

(** Every session is stored under its own id, has an abort handle of its own, and there is
    no other handle. *)
Definition registry_ok (r : SessionRegistry) : Prop :=
  (∀ id e, sr_sessions r !! id = Some e → se_session_id e = id)
  ∧ dom (sr_sessions r) = dom (sr_aborts r)
  ∧ (∀ i j h, sr_aborts r !! i = Some h → sr_aborts r !! j = Some h → i = j)
  ∧ (∀ i h, sr_aborts r !! i = Some h → (h < sr_next r)%nat)
  ∧ (∀ h, h ∈ sr_permits r → (h < sr_next r)%nat).

Lemma signal_loop ids r :
  NoDup ids → (∀ id, id ∈ ids → is_Some (sr_aborts r !! id)) →
  ∀ n, let o := foldl signal_one (n, r) ids in
  o.1 = (n + length ids)%nat ∧ sr_sessions o.2 = sr_sessions r ∧ sr_aborts o.2 = sr_aborts r
  ∧ sr_next o.2 = sr_next r
  ∧ ∀ h, h ∈ sr_permits o.2 ↔ h ∈ sr_permits r ∨ ∃ id, id ∈ ids ∧ sr_aborts r !! id = Some h.
Proof.
  revert r. induction ids as [|id ids IH]; intros r Hn Ha n; cbn zeta.
  { split; [simpl; lia|]. do 3 (split; [done|]). intros h. split; [tauto|].
    intros [?|(i & Hi & _)]; [done|by apply elem_of_nil in Hi]. }
  apply NoDup_cons in Hn as [Hni Hn]. destruct (Ha id ltac:(by left)) as [h Hh].
  cbn [foldl]. assert (Es : signal_one (n, r) id = (S n, notify_one h r)) by (unfold signal_one; cbn [snd fst]; by rewrite Hh).
  rewrite Es.
  destruct (IH (notify_one h r) Hn ltac:(intros i Hi; apply Ha; by right) (S n)) as (H1 & H2 & H3 & H4 & H5).
  split_and!; [rewrite H1; simpl; lia|done..|]. intros k. rewrite (H5 k). cbn [notify_one sr_permits sr_aborts].
  rewrite elem_of_union, elem_of_singleton. split.
  - intros [[->|?]|(i & Hi & Hk)]; [right; exists id; split; [by left|done]|by left|].
    right. exists i. split; [by right|done].
  - intros [?|(i & [->|Hi]%elem_of_cons & Hk)]; [auto|left; left; congruence|right; eauto].
Qed.

Lemma target_ids r target id :
  registry_ok r →
  id ∈ (se_session_id <$> for_halt_target target r)
  ↔ ∃ e, sr_sessions r !! id = Some e ∧ is_target target e = true.
Proof.
  intros (Hid & _). rewrite list_elem_of_fmap. unfold for_halt_target, list_sessions. split.
  - intros (e & -> & [He Ht]%list_elem_of_In%filter_In). apply list_elem_of_In, list_elem_of_fmap in He as ([k e'] & -> & He).
    apply elem_of_map_to_list in He. cbn in *. exists e'. by rewrite (Hid _ _ He).
  - intros (e & He & Ht). exists e. rewrite (Hid _ _ He). split; [done|].
    apply list_elem_of_In, filter_In. split; [|done]. apply list_elem_of_In, list_elem_of_fmap.
    exists (id, e). split; [done|]. by apply elem_of_map_to_list.
Qed.

Lemma target_ids_nodup r target : registry_ok r → NoDup (se_session_id <$> for_halt_target target r).
Proof.
  intros (Hid & _). unfold for_halt_target, list_sessions.
  assert (Hall : ∀ x, x ∈ map_to_list (sr_sessions r) → se_session_id x.2 = x.1).
  { intros [k e] He%elem_of_map_to_list. by apply Hid. }
  assert (Hk := NoDup_fst_map_to_list (sr_sessions r)). revert Hall Hk.
  induction (map_to_list (sr_sessions r)) as [|[k e] l IH]; intros Hall Hk; [constructor|].
  rewrite fmap_cons in Hk. apply NoDup_cons in Hk as [Hk1 Hk2]. specialize (IH ltac:(intros x Hx; apply Hall; by right) Hk2).
  cbn [fmap list_fmap List.filter snd]. destruct (is_target target e); [|done].
  rewrite fmap_cons. apply NoDup_cons. split; [|done].
  intros (e' & He & [H1 _]%list_elem_of_In%filter_In)%list_elem_of_fmap.
  apply list_elem_of_In, list_elem_of_fmap in H1 as ([k' e''] & -> & H1). apply Hk1.
  specialize (Hall (k, e) ltac:(by left)) as H2. specialize (Hall (k', e'') ltac:(by right)) as H3. cbn in *.
  apply list_elem_of_fmap. exists (k', e''). split; [cbn; congruence|done].
Qed.

Lemma signal_halt_facts r target :
  registry_ok r → let o := signal_halt target r in
  o.1 = length (for_halt_target target r) ∧ sr_sessions o.2 = sr_sessions r ∧ sr_aborts o.2 = sr_aborts r
  ∧ sr_next o.2 = sr_next r
  ∧ ∀ h, h ∈ sr_permits o.2 ↔ h ∈ sr_permits r
      ∨ ∃ id e, sr_sessions r !! id = Some e ∧ is_target target e = true ∧ sr_aborts r !! id = Some h.
Proof.
  intros Hok. cbn zeta. unfold signal_halt.
  destruct (signal_loop (se_session_id <$> for_halt_target target r) r) with (n := 0%nat) as (H1 & H2 & H3 & H4 & H5).
  - by apply target_ids_nodup.
  - intros id (e & He & _)%(target_ids r target id Hok). apply elem_of_dom. destruct Hok as (_ & <- & _).
    by apply elem_of_dom_2 in He.
  - split_and!; [rewrite H1, length_fmap; done|done..|]. intros h. rewrite (H5 h). split.
    + intros [?|(id & (e & He & Ht)%(target_ids r target id Hok) & Hh)]; [by left|right; eauto 10].
    + intros [?|(id & e & He & Ht & Hh)]; [by left|]. right. exists id. split; [|done].
      apply target_ids; eauto.
Qed.

(** A begun session's id is fresh. *)
Definition fresh_begin (r : SessionRegistry) (op : SessionOp) : Prop :=
  match op with Begin e => sr_sessions r !! se_session_id e = None | _ => True end.

Lemma session_step_ok r op : registry_ok r → fresh_begin r op → registry_ok (session_step r op).
Proof.
  intros Hok Hf. destruct op as [e|id|h|t]; cbn [session_step].
  - destruct Hok as (H1 & H2 & H3 & H4 & H5). cbn in Hf.
    assert (Hna : sr_aborts r !! se_session_id e = None) by (apply not_elem_of_dom; rewrite <-H2; by apply not_elem_of_dom).
    unfold begin_session; split_and!; cbn [snd sr_sessions sr_aborts sr_permits sr_next].
    + intros id e' [[<- <-]|[_ ?]]%lookup_insert_Some; [done|by apply H1].
    + by rewrite !dom_insert_L, H2.
    + intros i j h [[<- <-]|[? Hi]]%lookup_insert_Some [[<- Hj]|[? Hj]]%lookup_insert_Some; try done;
        [apply H4 in Hj; lia|subst; apply H4 in Hi; lia|by eapply H3].
    + intros i h [[<- <-]|[? Hi]]%lookup_insert_Some; [lia|apply H4 in Hi; lia].
    + intros h ?%H5. lia.
  - destruct Hok as (H1 & H2 & H3 & H4 & H5).
    unfold end_session; split_and!; cbn [sr_sessions sr_aborts sr_permits sr_next]; [| | | |done].
    + intros i e [_ ?]%lookup_delete_Some. by apply H1.
    + by rewrite !dom_delete_L, H2.
    + intros i j h [_ ?]%lookup_delete_Some [_ ?]%lookup_delete_Some. by eapply H3.
    + intros i h [_ ?]%lookup_delete_Some. by eapply H4.
  - destruct Hok as (H1 & H2 & H3 & H4 & H5). unfold take_permit; split_and!; cbn [snd sr_sessions sr_aborts sr_permits sr_next]; try done.
    intros k [? _]%elem_of_difference. by apply H5.
  - destruct (signal_halt_facts r t Hok) as (_ & E1 & E2 & E3 & E4). destruct Hok as (H1 & H2 & H3 & H4 & H5).
    split_and!; rewrite ?E1, ?E2, ?E3; try done. intros h [?%H5|(id & e & _ & _ & Hh)]%E4; [done|by eapply H4].
Qed.

(** Executions from the empty registry. *)
Inductive registry_reachable : SessionRegistry → Prop :=
| rr_empty : registry_reachable no_sessions
| rr_step r op : registry_reachable r → fresh_begin r op → registry_reachable (session_step r op).

Lemma reachable_registry_ok r : registry_reachable r → registry_ok r.
Proof.
  induction 1 as [|r op _ IH Hf]; [|by apply session_step_ok].
  split_and!; cbn; try done; intros; try (by rewrite lookup_empty in *); set_solver.
Qed.

(** A halt wakes exactly the sessions of its target, in whatever order sessions began,
    ended, waited and were halted before: the count it reports is the number of
    sessions it lists, every one of them finds its permit at its next wait even if it
    was not waiting yet, and no other session is woken. *)
Theorem halt_wakes_exactly_its_target r target id e h :
  registry_reachable r → sr_sessions r !! id = Some e → sr_aborts r !! id = Some h →
  (signal_halt target r).1 = length (for_halt_target target r)
  ∧ (take_permit h (signal_halt target r).2).1 = is_target target e || (take_permit h r).1
  ∧ (signal_halt target r).2 = {| sr_sessions := sr_sessions r; sr_aborts := sr_aborts r;
                                 sr_permits := sr_permits (signal_halt target r).2; sr_next := sr_next r |}.
Proof.
  intros Hok%reachable_registry_ok He Hh. destruct (signal_halt_facts r target Hok) as (H1 & H2 & H3 & H4 & H5).
  split; [done|]. split.
  - cbn [take_permit fst]. apply eq_true_iff_eq. rewrite orb_true_iff, !bool_decide_eq_true, (H5 h). split.
    + intros [?|(id' & e' & He' & Ht & Hh')]; [by right|]. left.
      assert (id' = id) as -> by (destruct Hok as (_ & _ & Hi & _); by eapply Hi). congruence.
    + intros [?|?]; [right; eauto 10|by left].
  - destruct (signal_halt target r).2. cbn in *. by subst.
Qed.

(** ** Routing *)

Section routing.
Context {GC : GlobCrate}.

(** [UrlMatcher]: compiled patterns with their aliases, in order; [new], [add_pattern],
    [match_url], [load_patterns]. *)
Record UrlMatcher := { um_patterns : list ((string → bool) * string) }.
Definition matcher_new : UrlMatcher := {| um_patterns := [] |}.
Definition add_pattern (pattern alias : string) (m : UrlMatcher) : option UrlMatcher :=
  g ← glob_new pattern; Some {| um_patterns := um_patterns m ++ [(g, alias)] |}.
Definition match_url (m : UrlMatcher) (url : string) : option string :=
  e ← List.find (λ e : (string → bool) * string, e.1 url) (um_patterns m); Some e.2.
Definition load_patterns (patterns : list (string * string)) (m : UrlMatcher) : UrlMatcher :=
  {| um_patterns := um_patterns m ++ omap (λ p : string * string, g ← glob_new p.1; Some (g, p.2)) patterns |}.

(** [CredentialResolver::resolve], [resolve_for_url]. *)
Definition resolve_credential (alias_or_id : string) (v : Collections) : option Credential :=
  match get_by_alias alias_or_id v with Some c => Some c | None => get_credential alias_or_id v end.
Definition resolve_for_url (m : UrlMatcher) (url : string) (v : Collections) : result (option Credential) string :=
  match match_url m url with
  | Some alias => match resolve_credential alias v with Some c => Ok (Some c) | None => Err alias end
  | None => Ok None
  end.

Lemma find_app {A} (f : A → bool) l1 l2 :
  List.find f (l1 ++ l2) = match List.find f l1 with Some x => Some x | None => List.find f l2 end.
Proof. induction l1 as [|x l1 IH]; cbn; [done|]. by destruct (f x). Qed.

(** A pattern that is added never takes a URL away from an earlier one. *)
Lemma earlier_pattern_wins pattern alias g m m' url :
  glob_new pattern = Some g → add_pattern pattern alias m = Some m' →
  match_url m' url = match match_url m url with Some a => Some a | None => if g url then Some alias else None end.
Proof.
  unfold add_pattern, match_url. intros Hg. rewrite Hg. intros [= <-]. cbn [um_patterns].
  rewrite find_app. destruct (List.find _ (um_patterns m)); cbn; [done|]. by destruct (g url).
Qed.

(** Loading patterns adds them one after the other and leaves out those that do not compile. *)
Lemma load_patterns_adds patterns m :
  load_patterns patterns m = foldl (λ m p, default m (add_pattern p.1 p.2 m)) m patterns.
Proof.
  revert m. induction patterns as [|[p a] ps IH]; intros [l]; cbn [foldl].
  - unfold load_patterns. cbn. by rewrite app_nil_r.
  - rewrite <- IH. unfold load_patterns, add_pattern. cbn. destruct (glob_new p); cbn; [|done].
    by rewrite <- app_assoc.
Qed.
End routing.
