(* ===== verification/Refusals.v ===== *)
(** * The refusal recorder

    Models the recorder of [src/src/refusal.rs]: a refusal is noted at once, coalesced with
    the others of its window, admitted as a record by a token bucket or merged into a
    summary, handed to the drain, and sealed or turned into a gap.

    The bucket computes in [f64]; it is modelled with the executable IEEE 754 arithmetic
    of the Standard Library.  Counters are unbounded: a [u64] would wrap after 2^64
    refusals of one process.  Instants are nanoseconds. *)

From stdpp Require Import base gmap strings list.
From Stdlib Require Import ZArith Lia SpecFloat.
From S2P Require Import Prelude RustStr PolicyEngine Json Approval Catalog.

Open Scope Z_scope.

(** ** Vocabularies *)

#[export] Instance RefusalClass_eq_dec : EqDecision RefusalClass.
Proof. solve_decision. Defined.
#[export] Instance RefusalEntry_eq_dec : EqDecision RefusalEntry.
Proof. solve_decision. Defined.

(** [RefusalClass::ALL], [as_str]. *)
Definition refusal_classes : list RefusalClass :=
  [RC_NotGranted; RC_PolicyDeny; RC_KillFence; RC_RateLimit; RC_SpendCap; RC_CrossTenant; RC_TokenUnusable;
   RC_LlmChannelOnly; RC_ModelUnpriced; RC_ModifierUnpriced; RC_ProviderDisabled; RC_CapabilityUndeclared;
   RC_ApprovalUnavailable; RC_DecisionUnavailable].
Definition class_str (c : RefusalClass) : string :=
  match c with
  | RC_NotGranted => "not_granted" | RC_PolicyDeny => "policy_deny" | RC_KillFence => "kill_fence"
  | RC_RateLimit => "rate_limit" | RC_SpendCap => "spend_cap" | RC_CrossTenant => "cross_tenant"
  | RC_TokenUnusable => "token_unusable" | RC_LlmChannelOnly => "llm_channel_only"
  | RC_ModelUnpriced => "model_unpriced" | RC_ModifierUnpriced => "modifier_unpriced"
  | RC_ProviderDisabled => "provider_disabled" | RC_CapabilityUndeclared => "capability_undeclared"
  | RC_ApprovalUnavailable => "approval_unavailable" | RC_DecisionUnavailable => "decision_unavailable"
  end.
Definition entry_str (e : RefusalEntry) : string :=
  match e with RE_Mcp => "mcp" | RE_Execute => "execute" | RE_Llm => "llm" | RE_ApprovalResume => "approval_resume" end.

Lemma class_in_all c : c ∈ refusal_classes.
Proof. destruct c; vm_compute; repeat constructor. Qed.
#[export] Instance class_str_inj : Inj (=) (=) class_str.
Proof. intros [] []; by cbn. Qed.
#[export] Instance entry_str_inj : Inj (=) (=) entry_str.
Proof. intros [] []; by cbn. Qed.

(** ** Settings *)

(** [RefusalSettings] with its default, and the ceilings. *)
Record RefusalSettings := { rs_enabled : bool; rs_window : Z; rs_burst : Z; rs_per_hour : Z }.
Definition default_refusal_settings : RefusalSettings :=
  {| rs_enabled := true; rs_window := seconds 10; rs_burst := 60; rs_per_hour := 20 |}.
Definition MAX_OPEN_WINDOWS : nat := 1024.
Definition MAX_READY : nat := 512.

(** ** The token bucket *)

(** [f64]: conversion of an integer, and the operations used. *)
Definition f64 : Type := spec_float.
Definition f64_of (z : Z) : f64 := binary_normalize 53 1024 z 0 false.
Definition f64_add : f64 → f64 → f64 := SFadd 53 1024.
Definition f64_sub : f64 → f64 → f64 := SFsub 53 1024.
Definition f64_mul : f64 → f64 → f64 := SFmul 53 1024.
Definition f64_div : f64 → f64 → f64 := SFdiv 53 1024.
Definition f64_min (a b : f64) : f64 := if SFltb b a then b else a.

(** [Duration::as_secs_f64]. *)
Definition as_secs_f64 (d : Z) : f64 :=
  f64_add (f64_of (d / nanos_per_sec)) (f64_div (f64_of (d mod nanos_per_sec)) (f64_of nanos_per_sec)).

Record TokenBucket := { bk_tokens : f64; bk_burst : f64; bk_per_sec : f64; bk_last : Z }.
Definition bucket_new (burst per_hour now : Z) : TokenBucket :=
  {| bk_tokens := f64_of burst; bk_burst := f64_of burst; bk_per_sec := f64_div (f64_of per_hour) (f64_of 3600);
     bk_last := now |}.
Definition bucket_refill (now : Z) (b : TokenBucket) : TokenBucket :=
  let dt := as_secs_f64 (Z.max 0 (now - bk_last b)) in
  {| bk_tokens := f64_min (f64_add (bk_tokens b) (f64_mul dt (bk_per_sec b))) (bk_burst b); bk_burst := bk_burst b;
     bk_per_sec := bk_per_sec b; bk_last := Z.max now (bk_last b) |}.
Definition bucket_take (now : Z) (b : TokenBucket) : bool * TokenBucket :=
  let b := bucket_refill now b in
  if SFleb (f64_of 1) (bk_tokens b)
  then (true, {| bk_tokens := f64_sub (bk_tokens b) (f64_of 1); bk_burst := bk_burst b; bk_per_sec := bk_per_sec b;
                 bk_last := bk_last b |})
  else (false, b).

(** ** Records *)

(** [Key] is its four fields; [Window]; [Outgoing]; [Summary]. *)
Definition RefusalKey : Type := string * string * string * string.
Definition refusal_key (agent act : string) (c : RefusalClass) (e : RefusalEntry) : RefusalKey :=
  (agent, act, class_str c, entry_str e).
Record RefusalWindow := {
  wn_agent : string;
  wn_action : string;
  wn_class : RefusalClass;
  wn_entry : RefusalEntry;
  wn_started : Z;
  wn_credential : option string;
  wn_credential_mixed : bool;
  wn_tail_attempts : Z;
  wn_tail_first_at : option DateTime;
  wn_tail_last_at : option DateTime;
}.
Record Outgoing := {
  og_idem : string;
  og_agent : string;
  og_action : string;
  og_entry : option RefusalEntry;
  og_class : option RefusalClass;
  og_credential : option string;
  og_attempts : Z;
  og_first_at : DateTime;
  og_last_at : DateTime;
  og_by_class : option (gmap string Z);
  og_tries : Z;
}.
Record Summary := {
  su_by_class : gmap string Z;
  su_attempts : Z;
  su_agents : list string;
  su_first_at : option DateTime;
  su_last_at : option DateTime;
}.
Definition no_summary : Summary :=
  {| su_by_class := ∅; su_attempts := 0; su_agents := []; su_first_at := None; su_last_at := None |}.
Definition summary_is_empty (s : Summary) : bool := su_attempts s =? 0.
Definition summary_merge (c : RefusalClass) (attempts : Z) (agent : string) (first last : DateTime) (s : Summary) : Summary :=
  {| su_by_class := <[class_str c := default 0 (su_by_class s !! class_str c) + attempts]> (su_by_class s);
     su_attempts := su_attempts s + attempts;
     su_agents := if Nat.ltb (length (su_agents s)) 2 && negb (bool_decide (agent ∈ su_agents s))
                  then su_agents s ++ [agent] else su_agents s;
     su_first_at := Some (match su_first_at s with Some f => Z.min f first | None => first end);
     su_last_at := Some (match su_last_at s with Some l => Z.max l last | None => last end) |}.

(** [RefusalCounters], and the recorder: its locked state, counters and records in
    flight.  [rr_ids] counts the identifiers drawn. *)
Record RefusalCounters := { rc_noted : Z; rc_sealed : Z; rc_coalesced : Z; rc_summarized : Z; rc_unsealed : Z }.
Record RefusalRecorder := {
  rr_settings : RefusalSettings;
  rr_open : gmap RefusalKey RefusalWindow;
  rr_ready : list Outgoing;
  rr_summary : Summary;
  rr_bucket : TokenBucket;
  rr_overflow : list (RefusalClass * Z * string);
  rr_counters : RefusalCounters;
  rr_in_flight : gmap string Outgoing;
  rr_ids : nat;
}.

(** Updates of one field. *)
Definition rr_set_open (x : gmap RefusalKey RefusalWindow) (r : RefusalRecorder) : RefusalRecorder :=
  {| rr_settings := rr_settings r; rr_open := x; rr_ready := rr_ready r; rr_summary := rr_summary r; rr_bucket := rr_bucket r; rr_overflow := rr_overflow r; rr_counters := rr_counters r; rr_in_flight := rr_in_flight r; rr_ids := rr_ids r |}.
Definition rr_set_ready (x : list Outgoing) (r : RefusalRecorder) : RefusalRecorder :=
  {| rr_settings := rr_settings r; rr_open := rr_open r; rr_ready := x; rr_summary := rr_summary r; rr_bucket := rr_bucket r; rr_overflow := rr_overflow r; rr_counters := rr_counters r; rr_in_flight := rr_in_flight r; rr_ids := rr_ids r |}.
Definition rr_set_summary (x : Summary) (r : RefusalRecorder) : RefusalRecorder :=
  {| rr_settings := rr_settings r; rr_open := rr_open r; rr_ready := rr_ready r; rr_summary := x; rr_bucket := rr_bucket r; rr_overflow := rr_overflow r; rr_counters := rr_counters r; rr_in_flight := rr_in_flight r; rr_ids := rr_ids r |}.
Definition rr_set_bucket (x : TokenBucket) (r : RefusalRecorder) : RefusalRecorder :=
  {| rr_settings := rr_settings r; rr_open := rr_open r; rr_ready := rr_ready r; rr_summary := rr_summary r; rr_bucket := x; rr_overflow := rr_overflow r; rr_counters := rr_counters r; rr_in_flight := rr_in_flight r; rr_ids := rr_ids r |}.
Definition rr_set_overflow (x : list (RefusalClass * Z * string)) (r : RefusalRecorder) : RefusalRecorder :=
  {| rr_settings := rr_settings r; rr_open := rr_open r; rr_ready := rr_ready r; rr_summary := rr_summary r; rr_bucket := rr_bucket r; rr_overflow := x; rr_counters := rr_counters r; rr_in_flight := rr_in_flight r; rr_ids := rr_ids r |}.
Definition rr_set_counters (x : RefusalCounters) (r : RefusalRecorder) : RefusalRecorder :=
  {| rr_settings := rr_settings r; rr_open := rr_open r; rr_ready := rr_ready r; rr_summary := rr_summary r; rr_bucket := rr_bucket r; rr_overflow := rr_overflow r; rr_counters := x; rr_in_flight := rr_in_flight r; rr_ids := rr_ids r |}.
Definition rr_set_in_flight (x : gmap string Outgoing) (r : RefusalRecorder) : RefusalRecorder :=
  {| rr_settings := rr_settings r; rr_open := rr_open r; rr_ready := rr_ready r; rr_summary := rr_summary r; rr_bucket := rr_bucket r; rr_overflow := rr_overflow r; rr_counters := rr_counters r; rr_in_flight := x; rr_ids := rr_ids r |}.
Definition rr_set_ids (x : nat) (r : RefusalRecorder) : RefusalRecorder :=
  {| rr_settings := rr_settings r; rr_open := rr_open r; rr_ready := rr_ready r; rr_summary := rr_summary r; rr_bucket := rr_bucket r; rr_overflow := rr_overflow r; rr_counters := rr_counters r; rr_in_flight := rr_in_flight r; rr_ids := x |}.
Definition bump (n s c m u : Z) (r : RefusalRecorder) : RefusalRecorder :=
  let k := rr_counters r in
  rr_set_counters {| rc_noted := rc_noted k + n; rc_sealed := rc_sealed k + s; rc_coalesced := rc_coalesced k + c;
                     rc_summarized := rc_summarized k + m; rc_unsealed := rc_unsealed k + u |} r.

Section recorder.
Context (uuid : nat → string).

(** ** Operations *)

(** [new_at], [new_idem]. *)
Definition recorder_new (s : RefusalSettings) (now : Z) : RefusalRecorder :=
  {| rr_settings := s; rr_open := ∅; rr_ready := []; rr_summary := no_summary;
     rr_bucket := bucket_new (rs_burst s) (rs_per_hour s) now; rr_overflow := [];
     rr_counters := {| rc_noted := 0; rc_sealed := 0; rc_coalesced := 0; rc_summarized := 0; rc_unsealed := 0 |};
     rr_in_flight := ∅; rr_ids := 0 |}.
Definition new_idem (r : RefusalRecorder) : string * RefusalRecorder :=
  ("vultrino-refusal-" +:+ uuid (rr_ids r), rr_set_ids (S (rr_ids r)) r).

(** [to_summary], [push_ready], [admit]. *)
Definition to_summary (c : RefusalClass) (attempts : Z) (agent : string) (first last : DateTime) (r : RefusalRecorder)
    : RefusalRecorder :=
  bump 0 0 0 attempts 0 (rr_set_summary (summary_merge c attempts agent first last (rr_summary r)) r).
Definition overflow_of (o : Outgoing) : list (RefusalClass * Z * string) :=
  match og_class o, og_by_class o with
  | Some c, _ => [(c, og_attempts o, og_agent o)]
  | None, Some by_ => omap (λ c, (λ n, (c, n, og_agent o)) <$> by_ !! class_str c) refusal_classes
  | None, None => []
  end.
Definition push_ready (o : Outgoing) (r : RefusalRecorder) : RefusalRecorder :=
  if Nat.leb MAX_READY (length (rr_ready r)) then rr_set_overflow (rr_overflow r ++ overflow_of o) r
  else rr_set_ready (rr_ready r ++ [o]) r.
Definition admit_record (c : RefusalClass) (o : Outgoing) (now : Z) (r : RefusalRecorder) : RefusalRecorder :=
  let merged := to_summary c (og_attempts o) (og_agent o) (og_first_at o) (og_last_at o) in
  if summary_is_empty (rr_summary r)
  then let '(ok, b) := bucket_take now (rr_bucket r) in
       let r := rr_set_bucket b r in
       if ok then push_ready o r else merged r
  else merged r.

(** An individual record, and [close_window]. *)
Definition record_of_window (idem : string) (w : RefusalWindow) (credential : option string) (attempts : Z)
    (first last : DateTime) : Outgoing :=
  {| og_idem := idem; og_agent := wn_agent w; og_action := wn_action w; og_entry := Some (wn_entry w);
     og_class := Some (wn_class w); og_credential := credential; og_attempts := attempts; og_first_at := first;
     og_last_at := last; og_by_class := None; og_tries := 0 |}.
Definition close_window (now : Z) (utc : DateTime) (key : RefusalKey) (r : RefusalRecorder) : RefusalRecorder :=
  match rr_open r !! key with
  | None => r
  | Some w =>
      let r := rr_set_open (delete key (rr_open r)) r in
      if wn_tail_attempts w =? 0 then r
      else
        let '(idem, r) := new_idem r in
        admit_record (wn_class w)
          (record_of_window idem w (if wn_credential_mixed w then None else wn_credential w) (wn_tail_attempts w)
             (default utc (wn_tail_first_at w)) (default utc (wn_tail_last_at w))) now r
  end.
Definition ran_its_length (s : RefusalSettings) (now : Z) (w : RefusalWindow) : bool :=
  rs_window s <=? Z.max 0 (now - wn_started w).

(** [note_at]. *)
Definition fold_into (wall : DateTime) (credential : option string) (w : RefusalWindow) : RefusalWindow :=
  {| wn_agent := wn_agent w; wn_action := wn_action w; wn_class := wn_class w; wn_entry := wn_entry w;
     wn_started := wn_started w; wn_credential := wn_credential w;
     wn_credential_mixed := wn_credential_mixed w || negb (bool_decide (wn_credential w = credential));
     wn_tail_attempts := wn_tail_attempts w + 1; wn_tail_first_at := Some (default wall (wn_tail_first_at w));
     wn_tail_last_at := Some wall |}.
Definition note_at (ctx : RefusalCtx) (c : RefusalClass) (now : Z) (wall utc : DateTime) (r : RefusalRecorder)
    : RefusalRecorder :=
  match sanitized ctx with
  | None => r
  | Some (agent, act, credential) =>
      let r := bump 1 0 0 0 0 r in
      if negb (rs_enabled (rr_settings r)) then r
      else
        let key := refusal_key agent act c (rx_entry ctx) in
        let expired := match rr_open r !! key with Some w => ran_its_length (rr_settings r) now w | None => false end in
        let r := if expired then close_window now utc key r else r in
        match rr_open r !! key with
        | Some w => bump 0 0 1 0 0 (rr_set_open (<[key := fold_into wall credential w]> (rr_open r)) r)
        | None =>
            if Nat.leb MAX_OPEN_WINDOWS (size (rr_open r)) then to_summary c 1 agent wall wall r
            else
              let w := {| wn_agent := agent; wn_action := act; wn_class := c; wn_entry := rx_entry ctx; wn_started := now;
                          wn_credential := credential; wn_credential_mixed := false; wn_tail_attempts := 0;
                          wn_tail_first_at := None; wn_tail_last_at := None |} in
              let '(idem, r) := new_idem (rr_set_open (<[key := w]> (rr_open r)) r) in
              admit_record c (record_of_window idem w credential 1 wall wall) now r
        end
  end.

(** The record of a summary; [take_due_at]. *)
Definition summary_agent (s : Summary) : string :=
  match su_agents s with [a] => a | _ => "vultrino:multiple" end.
Definition summary_record (idem : string) (utc : DateTime) (s : Summary) : Outgoing :=
  {| og_idem := idem; og_agent := summary_agent s; og_action := "*"; og_entry := None; og_class := None;
     og_credential := None; og_attempts := su_attempts s; og_first_at := default utc (su_first_at s);
     og_last_at := default utc (su_last_at s); og_by_class := Some (su_by_class s); og_tries := 0 |}.
Definition close_windows (now : Z) (utc : DateTime) (keys : list RefusalKey) (r : RefusalRecorder) : RefusalRecorder :=
  foldl (λ r k, close_window now utc k r) r keys.
Definition release_summary (now : Z) (utc : DateTime) (r : RefusalRecorder) : RefusalRecorder :=
  if summary_is_empty (rr_summary r) then r
  else
    let '(ok, b) := bucket_take now (rr_bucket r) in
    let r := rr_set_bucket b r in
    if ok
    then let s := rr_summary r in
         let '(idem, r) := new_idem (rr_set_summary no_summary r) in
         push_ready (summary_record idem utc s) r
    else r.
Definition take_due_at (max : nat) (now : Z) (utc : DateTime) (r : RefusalRecorder)
    : list Outgoing * list (RefusalClass * Z * string) * RefusalRecorder :=
  let expired := (List.filter (λ e : RefusalKey * RefusalWindow, ran_its_length (rr_settings r) now e.2)
                    (map_to_list (rr_open r))).*1 in
  let r := release_summary now utc (close_windows now utc expired r) in
  let n := Nat.min max (length (rr_ready r)) in
  let batch := take n (rr_ready r) in
  let r' := rr_set_in_flight (foldl (λ m o, <[og_idem o := o]> m) (rr_in_flight r) batch) (rr_set_ready (drop n (rr_ready r)) r) in
  (batch, rr_overflow r, rr_set_overflow [] r').

(** [finish_flight], [requeue_in_flight], [count_sealed], [count_unsealed]. *)
Definition finish_flight (idem : string) (r : RefusalRecorder) : bool * RefusalRecorder :=
  (bool_decide (is_Some (rr_in_flight r !! idem)), rr_set_in_flight (delete idem (rr_in_flight r)) r).
Definition requeue_one (acc : list Outgoing * RefusalRecorder) (o : Outgoing) : list Outgoing * RefusalRecorder :=
  let '(dropped, r) := acc in
  match rr_in_flight r !! og_idem o with
  | None => (dropped, r)
  | Some _ =>
      let r := rr_set_in_flight (delete (og_idem o) (rr_in_flight r)) r in
      if Nat.leb MAX_READY (length (rr_ready r)) then (dropped ++ [o], r)
      else (dropped, rr_set_ready (o :: rr_ready r) r)
  end.
Definition requeue_in_flight (recs : list Outgoing) (r : RefusalRecorder) : list Outgoing * RefusalRecorder :=
  foldl requeue_one ([], r) (rev recs).
Definition count_sealed (r : RefusalRecorder) : RefusalRecorder := bump 0 1 0 0 0 r.
Definition count_unsealed (r : RefusalRecorder) : RefusalRecorder := bump 0 0 0 0 1 r.

(** [close_all_windows_at], [take_all_pending], [has_pending]. *)
Definition close_all_windows_at (now : Z) (utc : DateTime) (r : RefusalRecorder) : RefusalRecorder :=
  close_windows now utc (map_to_list (rr_open r)).*1 r.
Definition take_all_pending (utc : DateTime) (r : RefusalRecorder) : list Outgoing * RefusalRecorder :=
  let out := rr_ready r ++ (map_to_list (rr_in_flight r)).*2 in
  let r := rr_set_in_flight ∅ (rr_set_ready [] r) in
  if summary_is_empty (rr_summary r) then (out, r)
  else
    let s := rr_summary r in
    let '(idem, r) := new_idem (rr_set_summary no_summary r) in
    (out ++ [summary_record idem utc s], r).
Definition has_pending (r : RefusalRecorder) : bool :=
  negb (Nat.eqb (length (rr_ready r)) 0) || negb (summary_is_empty (rr_summary r))
  || existsb (λ e : RefusalKey * RefusalWindow, 0 <? wn_tail_attempts e.2) (map_to_list (rr_open r)).
End recorder.
