(* ===== verification/RefusalDrain.v ===== *)
(** * Sealing refusals

    Models the averin client's handling of refusal records in [src/src/averin/mod.rs] and the
    flush of its gaps in [src/src/server/mod.rs]: a drain posts the due records, retries
    or gives up the failed ones, and every record that is not sealed becomes a gap in a
    bounded buffer that is appended to the outbox; a stopping process closes the open
    windows, drains, and turns what is left into gaps.

    A drain waits for its seal tasks; the order they finish in, their results and whether
    the shutdown budget cancels it are inputs. *)

From stdpp Require Import base gmap strings list pretty.
From Stdlib Require Import ZArith.
From S2P Require Import Prelude RustStr PolicyEngine Json Approval Catalog Refusals.

Open Scope Z_scope.

(** ** Gaps *)

(** [GapKind] with [as_str] and [outcome]; [ReceiptGap]. *)
Inductive GapKind := GK_Receipt | GK_Refusal.
Definition gap_kind_str (k : GapKind) : string := match k with GK_Receipt => "receipt" | GK_Refusal => "refusal" end.
Definition gap_outcome (k : GapKind) : string :=
  match k with GK_Receipt => "action_ran_without_receipt" | GK_Refusal => "refused_not_sealed" end.
Record ReceiptGap := {
  gp_kind : GapKind;
  gp_token_id : string;
  gp_project_id : string;
  gp_request_id : option string;
  gp_use_sequence_number : option Z;
  gp_reason : string;
  gp_detail : string;
  gp_at : DateTime;
}.
Definition MAX_PENDING_RECEIPT_GAPS : nat := 4096.
Definition MAX_GAP_DETAIL_CHARS : nat := 200.

(** [s.chars().take(n).collect()] on UTF-8: a continuation byte belongs to the character
    before it. *)
Definition utf8_tail (c : Ascii.ascii) : bool :=
  let n := Ascii.nat_of_ascii c in Nat.leb 128 n && Nat.ltb n 192.
Fixpoint take_chars (n : nat) (s : string) : string :=
  match s with
  | EmptyString => EmptyString
  | String c rest =>
      if utf8_tail c then String c (take_chars n rest)
      else match n with O => EmptyString | S n' => String c (take_chars n' rest) end
  end.

(** What a failed post reports: [AverinError] with [is_unavailable] and [Display]. *)
Inductive SealError :=
| SE_Request
| SE_Status (endpoint : string) (status : Z)
| SE_Other (text : string).
Definition is_unavailable (e : SealError) : bool :=
  match e with SE_Request => true | SE_Status _ status => (500 <=? status) || (status =? 429) | SE_Other _ => false end.
Definition seal_error_str (e : SealError) : string :=
  match e with
  | SE_Request => "averin unreachable"
  | SE_Status endpoint status => "averin " +:+ endpoint +:+ " returned " +:+ pretty status
  | SE_Other text => text
  end.

(** ** The client *)

(** The client's state: the recorder, the pending gaps and their counters. *)
Record SealClient := {
  sc_refusals : RefusalRecorder;
  sc_pending_gaps : list ReceiptGap;
  sc_receipt_gaps : Z;
  sc_receipt_gaps_overflowed : Z;
}.
Definition sc_on_refusals (f : RefusalRecorder → RefusalRecorder) (s : SealClient) : SealClient :=
  {| sc_refusals := f (sc_refusals s); sc_pending_gaps := sc_pending_gaps s; sc_receipt_gaps := sc_receipt_gaps s;
     sc_receipt_gaps_overflowed := sc_receipt_gaps_overflowed s |}.

(** [enqueue_gap]. *)
Definition enqueue_gap (g : ReceiptGap) (s : SealClient) : SealClient :=
  if Nat.leb MAX_PENDING_RECEIPT_GAPS (length (sc_pending_gaps s))
  then {| sc_refusals := sc_refusals s; sc_pending_gaps := sc_pending_gaps s; sc_receipt_gaps := sc_receipt_gaps s + 1;
          sc_receipt_gaps_overflowed := sc_receipt_gaps_overflowed s + 1 |}
  else {| sc_refusals := sc_refusals s; sc_pending_gaps := sc_pending_gaps s ++ [g]; sc_receipt_gaps := sc_receipt_gaps s + 1;
          sc_receipt_gaps_overflowed := sc_receipt_gaps_overflowed s |}.

(** [take_receipt_gaps], [requeue_receipt_gaps]. *)
Definition take_receipt_gaps (s : SealClient) : list ReceiptGap * SealClient :=
  (sc_pending_gaps s,
   {| sc_refusals := sc_refusals s; sc_pending_gaps := []; sc_receipt_gaps := sc_receipt_gaps s;
      sc_receipt_gaps_overflowed := sc_receipt_gaps_overflowed s |}).
Definition requeue_gap (s : SealClient) (g : ReceiptGap) : SealClient :=
  if Nat.leb MAX_PENDING_RECEIPT_GAPS (length (sc_pending_gaps s))
  then {| sc_refusals := sc_refusals s; sc_pending_gaps := sc_pending_gaps s; sc_receipt_gaps := sc_receipt_gaps s;
          sc_receipt_gaps_overflowed := sc_receipt_gaps_overflowed s + 1 |}
  else {| sc_refusals := sc_refusals s; sc_pending_gaps := g :: sc_pending_gaps s; sc_receipt_gaps := sc_receipt_gaps s;
          sc_receipt_gaps_overflowed := sc_receipt_gaps_overflowed s |}.
Definition requeue_receipt_gaps (gaps : list ReceiptGap) (s : SealClient) : SealClient := foldl requeue_gap s (rev gaps).

Section client.
Context (uuid : nat → string) (project session : string).

(** [record_receipt_gap], [record_refusal_gap]. *)
Definition record_receipt_gap (token_id : string) (request_id : option string) (seq : option Z) (reason detail : string)
    (utc : DateTime) (s : SealClient) : SealClient :=
  enqueue_gap {| gp_kind := GK_Receipt; gp_token_id := token_id; gp_project_id := project; gp_request_id := request_id;
                 gp_use_sequence_number := seq; gp_reason := reason; gp_detail := take_chars MAX_GAP_DETAIL_CHARS detail;
                 gp_at := utc |} s.
Definition record_refusal_gap (agent reason detail : string) (utc : DateTime) (s : SealClient) : SealClient :=
  enqueue_gap {| gp_kind := GK_Refusal; gp_token_id := agent; gp_project_id := project; gp_request_id := None;
                 gp_use_sequence_number := None; gp_reason := reason; gp_detail := take_chars MAX_GAP_DETAIL_CHARS detail;
                 gp_at := utc |} s.

(** [refusal_detail], [refusal_unsealed], [refusal_unsealed_overflow]. *)
Definition refusal_detail (o : Outgoing) : string :=
  "class=" +:+ match og_class o with Some c => class_str c | None => "summary" end
  +:+ " entry=" +:+ match og_entry o with Some e => entry_str e | None => "-" end
  +:+ " attempts=" +:+ pretty (og_attempts o).
Definition refusal_unsealed (o : Outgoing) (e : SealError) (utc : DateTime) (s : SealClient) : SealClient :=
  record_refusal_gap (og_agent o) "refusal_seal_failed" (refusal_detail o +:+ ": " +:+ seal_error_str e) utc
    (sc_on_refusals count_unsealed s).
Definition refusal_unsealed_overflow (utc : DateTime) (s : SealClient) (o : Outgoing) : SealClient :=
  record_refusal_gap (og_agent o) "refusal_budget_overflow" (refusal_detail o) utc (sc_on_refusals count_unsealed s).

(** The body [seal_refusal] posts. *)
Definition json_object (fields : list (string * Value)) : Value :=
  JObject (foldl (λ m kv, obj_insert kv.1 kv.2 m) [] fields).
Definition refusal_body (rfc3339 : DateTime → string) (o : Outgoing) : Value :=
  json_object
    ([("project_id", JString project); ("session_id", JString session); ("idempotency_key", JString (og_idem o));
      ("agent_id", JString (og_agent o)); ("action", JString (og_action o)); ("attempts", JNumber (PosInt (og_attempts o)));
      ("first_at", JString (rfc3339 (og_first_at o))); ("last_at", JString (rfc3339 (og_last_at o)))]
     ++ match og_entry o with Some e => [("entry_point", JString (entry_str e))] | None => [] end
     ++ match og_class o with Some c => [("reason_class", JString (class_str c))] | None => [] end
     ++ match og_credential o with Some c => [("credential", JString c)] | None => [] end
     ++ match og_by_class o with
        | Some by_ => [("summary", JBool true);
                       ("by_class", json_object ((λ kv, (kv.1, JNumber (PosInt kv.2))) <$> map_to_list by_))]
        | None => []
        end).

(** ** Draining *)

Definition REFUSAL_BATCH : nat := 64.
Definition REFUSAL_MAX_TRIES : nat := 3.

(** What a seal task ends with: the record sealed, the post failed, or the task lost. *)
Inductive TaskEnd := TE_Sealed | TE_Failed (e : SealError) | TE_Lost.

(** One finished task; the records to retry and the count of sealed ones are carried. *)
Definition with_tries (t : Z) (o : Outgoing) : Outgoing :=
  {| og_idem := og_idem o; og_agent := og_agent o; og_action := og_action o; og_entry := og_entry o; og_class := og_class o;
     og_credential := og_credential o; og_attempts := og_attempts o; og_first_at := og_first_at o; og_last_at := og_last_at o;
     og_by_class := og_by_class o; og_tries := t |}.
Record Draining := { dg_client : SealClient; dg_retry : list Outgoing; dg_sealed : Z }.
Definition task_finished (utc : DateTime) (d : Draining) (o : Outgoing) (res : TaskEnd) : Draining :=
  let '(claimed, r) := finish_flight (og_idem o) (sc_refusals (dg_client d)) in
  let s := sc_on_refusals (λ _, r) (dg_client d) in
  match res with
  | TE_Sealed =>
      if claimed
      then {| dg_client := sc_on_refusals count_sealed s; dg_retry := dg_retry d; dg_sealed := dg_sealed d + 1 |}
      else d
  | TE_Failed e =>
      if is_unavailable e && (og_tries o + 1 <? Z.of_nat REFUSAL_MAX_TRIES)
      then {| dg_client := dg_client d; dg_retry := dg_retry d ++ [with_tries (og_tries o + 1) o]; dg_sealed := dg_sealed d |}
      else if claimed
      then {| dg_client := refusal_unsealed o e utc s; dg_retry := dg_retry d; dg_sealed := dg_sealed d |}
      else d
  | TE_Lost =>
      if claimed
      then {| dg_client := record_refusal_gap "vultrino:multiple" "refusal_seal_failed"
                             "the refusal seal task panicked or was cancelled" utc (sc_on_refusals count_unsealed s);
              dg_retry := dg_retry d; dg_sealed := dg_sealed d |}
      else d
  end.

(** [drain_refusals_counted]: [ends] names tasks of the batch in the order they finish; a
    drain whose tasks did not all finish was cancelled while waiting.  The result says
    whether it completed. *)
Definition overflow_gap (utc : DateTime) (s : SealClient) (g : RefusalClass * Z * string) : SealClient :=
  record_refusal_gap g.2 "refusal_budget_overflow" ("class=" +:+ class_str g.1.1 +:+ " attempts=" +:+ pretty g.1.2) utc
    (sc_on_refusals count_unsealed s).
Definition finish_tasks (utc : DateTime) (batch : list Outgoing) (ends : list (nat * TaskEnd)) (d : Draining) : Draining :=
  foldl (λ d e, match batch !! e.1 with Some o => task_finished utc d o e.2 | None => d end) d ends.
Definition all_finished (batch : list Outgoing) (ends : list (nat * TaskEnd)) : bool :=
  forallb (λ i, existsb (λ e, Nat.eqb e.1 i) ends) (seq 0 (length batch)).
Definition drain_refusals_counted (now : Z) (utc : DateTime) (ends : list (nat * TaskEnd)) (sealed : Z) (s : SealClient)
    : bool * Z * SealClient :=
  let '(batch, overflow, r) := take_due_at uuid REFUSAL_BATCH now utc (sc_refusals s) in
  let s := foldl (overflow_gap utc) (sc_on_refusals (λ _, r) s) overflow in
  let d := finish_tasks utc batch ends {| dg_client := s; dg_retry := []; dg_sealed := sealed |} in
  if all_finished batch ends
  then let '(dropped, r) := requeue_in_flight (dg_retry d) (sc_refusals (dg_client d)) in
       (true, dg_sealed d, foldl (refusal_unsealed_overflow utc) (sc_on_refusals (λ _, r) (dg_client d)) dropped)
  else (false, dg_sealed d, dg_client d).

(** [flush_refusals_on_shutdown] of the client: the drain with [n] left after it has
    [inputs n], its instant and its task ends; a cancelled one was stopped by the budget. *)
Definition DrainInput : Type := Z * DateTime * list (nat * TaskEnd).
Fixpoint shutdown_drains (tries : nat) (inputs : nat → DrainInput) (sealed : Z) (s : SealClient) : Z * SealClient :=
  match tries with
  | O => (sealed, s)
  | S tries' =>
      let '(now, utc, ends) := inputs tries' in
      let '(completed, sealed', s') := drain_refusals_counted now utc ends sealed s in
      if completed && has_pending (sc_refusals s') then shutdown_drains tries' inputs sealed' s' else (sealed', s')
  end.
Definition collected_gap (utc : DateTime) (s : SealClient) (o : Outgoing) : SealClient :=
  record_refusal_gap (og_agent o) "refusal_seal_failed"
    (refusal_detail o +:+ ": the process stopped before the record could be sealed") utc (sc_on_refusals count_unsealed s).
Definition flush_refusals_on_shutdown (now : Z) (utc : DateTime) (inputs : nat → DrainInput) (s : SealClient)
    : Z * SealClient :=
  let s := sc_on_refusals (close_all_windows_at uuid now utc) s in
  let '(sealed, s) := shutdown_drains REFUSAL_MAX_TRIES inputs 0 s in
  let '(rest, r) := take_all_pending uuid utc (sc_refusals s) in
  (sealed, foldl (collected_gap utc) (sc_on_refusals (λ _, r) s) rest).

(** ** Appending gaps to the outbox *)

(** [flush_receipt_gaps_once] over the storage's [append_event]. *)
Definition gap_payload (rfc3339 : DateTime → string) (g : ReceiptGap) : Value :=
  let text o := match o with Some x => JString x | None => JNull end in
  json_object
    ([("project_id", JString (gp_project_id g)); ("request_id", text (gp_request_id g)); ("reason", JString (gp_reason g));
      ("detail", JString (gp_detail g)); ("at", JString (rfc3339 (gp_at g))); ("kind", JString (gap_kind_str (gp_kind g)));
      ("outcome", JString (gap_outcome (gp_kind g)))]
     ++ match gp_kind g with
        | GK_Receipt =>
            [("token_id", JString (gp_token_id g));
             ("use_sequence_number", match gp_use_sequence_number g with Some n => JNumber (PosInt n) | None => JNull end)]
        | GK_Refusal => [("agent_id", JString (gp_token_id g))]
        end).
Section flush.
Context {W : Type} (append_event : string → string → Value → W → option W) (rfc3339 : DateTime → string).
Fixpoint append_gaps (gaps : list ReceiptGap) (recorded : nat) (w : W) (s : SealClient) : nat * W * SealClient :=
  match gaps with
  | [] => (recorded, w, s)
  | g :: rest =>
      match append_event (gp_token_id g) "evidence.receipt_gap" (gap_payload rfc3339 g) w with
      | Some w' => append_gaps rest (S recorded) w' s
      | None => (recorded, w, requeue_receipt_gaps (g :: rest) s)
      end
  end.
Definition flush_receipt_gaps_once (w : W) (s : SealClient) : nat * W * SealClient :=
  let '(gaps, s) := take_receipt_gaps s in append_gaps gaps 0 w s.
End flush.
End client.
