(* ===== verification/RefusalFacts.v ===== *)
(** * Refusals are counted exactly

    Over any sequence of notes, drains, retries and the shutdown collection, the refusals
    noted of a class are those the recorder still holds plus those in the records and
    overflow gaps that left it, and what it holds in memory is bounded. *)

From stdpp Require Import base gmap strings list.
From Stdlib Require Import ZArith Lia.
From S2P Require Import Prelude RustStr PolicyEngine Json Approval Catalog Refusals RefusalDrain.

Open Scope Z_scope.

(** ** Sums *)

Definition total {A} (f : A → Z) (l : list A) : Z := foldr (λ x acc, f x + acc) 0 l.
Arguments total : simpl never.
Lemma total_cons {A} (f : A → Z) x l : total f (x :: l) = f x + total f l.
Proof. done. Qed.
Lemma total_app {A} (f : A → Z) a b : total f (a ++ b) = total f a + total f b.
Proof. induction a as [|x a IH]; [done|]. cbn [app]. rewrite !total_cons, IH. lia. Qed.
Lemma total_perm {A} (f : A → Z) a b : a ≡ₚ b → total f a = total f b.
Proof. induction 1; rewrite ?total_cons; lia. Qed.

(** The sum over a map. *)
Definition mtotal {K V} `{Countable K} (f : V → Z) (m : gmap K V) : Z := total (λ e, f e.2) (map_to_list m).
Section mtotal.
Context {K V : Type} `{Countable K} (f : V → Z).
Implicit Types m : gmap K V.
Lemma mtotal_empty : mtotal f (∅ : gmap K V) = 0.
Proof. unfold mtotal. by rewrite map_to_list_empty. Qed.
Lemma mtotal_insert_new m k v : m !! k = None → mtotal f (<[k := v]> m) = f v + mtotal f m.
Proof. intros Hm. unfold mtotal. by rewrite (total_perm _ _ _ (map_to_list_insert m k v Hm)), total_cons. Qed.
Lemma mtotal_delete m k v : m !! k = Some v → mtotal f m = f v + mtotal f (delete k m).
Proof.
  intros Hm. rewrite <- (insert_delete_id m k v Hm) at 1. rewrite mtotal_insert_new; [done|]. apply lookup_delete_eq.
Qed.
Lemma mtotal_replace m k v v' : m !! k = Some v → mtotal f (<[k := v']> m) + f v = mtotal f m + f v'.
Proof.
  intros Hm. rewrite (mtotal_delete m k v Hm), <- insert_delete_eq, mtotal_insert_new; [lia|].
  apply lookup_delete_eq.
Qed.
End mtotal.

(** ** What the recorder holds *)

Definition weight (c : RefusalClass) (o : Outgoing) : Z :=
  match og_class o, og_by_class o with
  | Some k, _ => if decide (k = c) then og_attempts o else 0
  | None, Some by_ => default 0 (by_ !! class_str c)
  | None, None => 0
  end.
Definition tail_weight (c : RefusalClass) (w : RefusalWindow) : Z :=
  if decide (wn_class w = c) then wn_tail_attempts w else 0.
Definition gap_weight (c : RefusalClass) (g : RefusalClass * Z * string) : Z := if decide (g.1.1 = c) then g.1.2 else 0.
Definition held (c : RefusalClass) (r : RefusalRecorder) : Z :=
  mtotal (tail_weight c) (rr_open r) + total (weight c) (rr_ready r) + default 0 (su_by_class (rr_summary r) !! class_str c)
  + total (gap_weight c) (rr_overflow r) + mtotal (weight c) (rr_in_flight r).

Section facts.
Context (uuid : nat → string) `{!Inj (=) (=) uuid}.

Abbreviation idem_of n := ("vultrino-refusal-" +:+ uuid n).

(** Identifiers: drawn ones only, each record in one place, and the map is keyed by them. *)
Definition drawn (r : RefusalRecorder) (i : string) : Prop := ∃ n, i = idem_of n ∧ (n < rr_ids r)%nat.
Definition windows_ok (m : gmap RefusalKey RefusalWindow) : Prop :=
  (size m ≤ MAX_OPEN_WINDOWS)%nat
  ∧ ∀ key w, m !! key = Some w →
      key = refusal_key (wn_agent w) (wn_action w) (wn_class w) (wn_entry w) ∧ 0 ≤ wn_tail_attempts w.
Definition summary_ok (s : Summary) : Prop :=
  ∀ c, 0 ≤ default 0 (su_by_class s !! class_str c) ≤ su_attempts s.
Definition recorder_ok (r : RefusalRecorder) : Prop :=
  (length (rr_ready r) ≤ MAX_READY)%nat ∧ windows_ok (rr_open r)
  ∧ NoDup (og_idem <$> rr_ready r) ∧ (∀ o, o ∈ rr_ready r → drawn r (og_idem o) ∧ rr_in_flight r !! og_idem o = None)
  ∧ (∀ i o, rr_in_flight r !! i = Some o → og_idem o = i ∧ drawn r i)
  ∧ summary_ok (rr_summary r).

Lemma idem_inj n m : idem_of n = idem_of m → n = m.
Proof. cbn. intros H. injection H as H. by apply (inj uuid). Qed.

(** A record whose identifier is new. *)
Definition fresh_idem (i : string) (r : RefusalRecorder) : Prop :=
  drawn r i ∧ ¬ (i ∈ og_idem <$> rr_ready r) ∧ rr_in_flight r !! i = None.

Lemma weight_overflow c o : total (gap_weight c) (overflow_of o) = weight c o.
Proof.
  unfold overflow_of, weight. destruct (og_class o) as [k|]; [rewrite total_cons; unfold gap_weight, total; cbn; lia|].
  destruct (og_by_class o) as [by_|]; [|done].
  assert (H : ∀ l, NoDup l → total (gap_weight c) (omap (λ k, (λ n, (k, n, og_agent o)) <$> by_ !! class_str k) l)
                = if decide (c ∈ l) then default 0 (by_ !! class_str c) else 0).
  { induction 1 as [|k l Hk _ IH]; [by rewrite decide_False by (apply not_elem_of_nil)|].
    change (omap ?g (k :: l)) with (match g k with Some y => y :: omap g l | None => omap g l end). cbn beta.
    assert (Hg : ∀ n l', total (gap_weight c) ((k, n, og_agent o) :: l') = (if decide (k = c) then n else 0) + total (gap_weight c) l')
      by done.
    destruct (decide (k = c)) as [->|Hne].
    - rewrite (decide_False (P := c ∈ l)) in IH by done. rewrite decide_True by (by left).
      destruct (by_ !! class_str c); cbn [fmap option_fmap option_map]; [rewrite Hg|]; rewrite IH; cbn; lia.
    - assert (Hin : c ∈ k :: l ↔ c ∈ l) by (rewrite elem_of_cons; naive_solver). rewrite (decide_ext _ _ _ _ Hin).
      destruct (by_ !! class_str k); cbn [fmap option_fmap option_map]; [rewrite Hg|]; rewrite IH; lia. }
  rewrite H; [by rewrite decide_True by apply class_in_all|]. by apply (bool_decide_unpack _).
Qed.

(** ** Preservation and balance *)

(** Steps that leave the queue and the flight alone. *)
Lemma ok_frame r r' :
  recorder_ok r → rr_ready r' = rr_ready r → rr_in_flight r' = rr_in_flight r → (rr_ids r ≤ rr_ids r')%nat →
  windows_ok (rr_open r') → summary_ok (rr_summary r') → recorder_ok r'.
Proof.
  intros (H1 & H2 & H3 & H4 & H5 & H6) Er Ef Hids Hopen Hsum. unfold recorder_ok, drawn. rewrite Er, Ef.
  split_and!; [done|done|done| | |done].
  - intros o Ho. destruct (H4 o Ho) as [(n & ? & ?) ?]. split; [|done]. exists n. split; [done|lia].
  - intros i o Ho. destruct (H5 i o Ho) as [? (n & ? & ?)]. split; [done|]. exists n. split; [done|lia].
Qed.
Lemma fresh_new r : recorder_ok r → fresh_idem (new_idem uuid r).1 (new_idem uuid r).2.
Proof.
  intros (_ & _ & _ & H4 & H5 & _). unfold fresh_idem, drawn, new_idem. cbn [fst snd rr_set_ids rr_ids rr_ready rr_in_flight].
  split_and!.
  - exists (rr_ids r). split; [done|lia].
  - intros (o & Ho & Hin)%list_elem_of_fmap. destruct (H4 o Hin) as [(n & Hn & Hlt) _].
    rewrite Hn in Ho. apply idem_inj in Ho. lia.
  - destruct (rr_in_flight r !! _) as [o|] eqn:E; [|done]. destruct (H5 _ _ E) as [_ (n & Hn & Hlt)].
    apply idem_inj in Hn. lia.
Qed.
Lemma new_idem_frame r :
  rr_open (new_idem uuid r).2 = rr_open r ∧ recorder_ok r → recorder_ok (new_idem uuid r).2.
Proof. intros [_ H]. eapply ok_frame; [exact H|done|done|cbn; lia|apply H|apply H]. Qed.

Lemma push_ready_facts c o r :
  recorder_ok r → fresh_idem (og_idem o) r →
  recorder_ok (push_ready o r) ∧ held c (push_ready o r) = held c r + weight c o.
Proof.
  intros Hok (Hd & Hn & Hf). unfold push_ready. destruct (Nat.leb_spec MAX_READY (length (rr_ready r))) as [Hl|Hl].
  - split; [eapply ok_frame; [exact Hok|done..|apply Hok|apply Hok]|]. unfold held. cbn -[total mtotal].
    rewrite total_app, weight_overflow. lia.
  - split.
    + destruct Hok as (H1 & H2 & H3 & H4 & H5 & H6). unfold recorder_ok. cbn -[MAX_READY windows_ok summary_ok].
      rewrite length_app, fmap_app. split_and!; [cbn; lia|done| | |done|done].
      * apply NoDup_app. split_and!; [done| |apply NoDup_singleton]. intros i Hi ->%list_elem_of_singleton. done.
      * intros o' [Ho'| ->%list_elem_of_singleton]%elem_of_app; [by apply H4|done].
    + unfold held. cbn -[total mtotal]. rewrite total_app, total_cons. change (total _ []) with 0. lia.
Qed.
Lemma to_summary_facts c k n agent first last r :
  recorder_ok r → 0 ≤ n →
  recorder_ok (to_summary k n agent first last r)
  ∧ held c (to_summary k n agent first last r) = held c r + (if decide (k = c) then n else 0).
Proof.
  intros Hok Hn. split.
  { eapply ok_frame; [exact Hok|done..|apply Hok|]. intros c'. pose proof (proj2 (proj2 (proj2 (proj2 (proj2 Hok)))) c') as Hs.
    pose proof (proj2 (proj2 (proj2 (proj2 (proj2 Hok)))) k) as Hk. cbn.
    destruct (decide (k = c')) as [->|Hne]; [rewrite lookup_insert_eq|rewrite lookup_insert_ne by (intros ?%(inj class_str); done)];
      cbn; lia. }
  unfold held. cbn -[total mtotal].
  destruct (decide (k = c)) as [->|Hne]; [rewrite lookup_insert_eq|rewrite lookup_insert_ne by (intros ?%(inj class_str); done)];
    cbn -[total mtotal]; lia.
Qed.
Lemma admit_facts c k o now r :
  recorder_ok r → fresh_idem (og_idem o) r → og_class o = Some k → 0 ≤ og_attempts o →
  recorder_ok (admit_record k o now r)
  ∧ held c (admit_record k o now r) = held c r + (if decide (k = c) then og_attempts o else 0).
Proof.
  intros Hok Hf Hk Hn. unfold admit_record. cbv zeta. destruct (summary_is_empty _); [|by apply to_summary_facts].
  destruct (bucket_take now (rr_bucket r)) as [ok b].
  assert (Hok' : recorder_ok (rr_set_bucket b r)) by (eapply ok_frame; [exact Hok|done..|apply Hok|apply Hok]).
  destruct ok; [|exact (to_summary_facts c k (og_attempts o) (og_agent o) (og_first_at o) (og_last_at o) _ Hok' Hn)].
  destruct (push_ready_facts c o (rr_set_bucket b r) Hok' Hf) as [H1 H2]. split; [done|]. rewrite H2.
  unfold weight. by rewrite Hk.
Qed.
Lemma open_frame c m r :
  recorder_ok r → windows_ok m →
  recorder_ok (rr_set_open m r)
  ∧ held c (rr_set_open m r) = held c r - mtotal (tail_weight c) (rr_open r) + mtotal (tail_weight c) m.
Proof. intros Hok Hm. split; [eapply ok_frame; [exact Hok|done..|apply Hok]|]. unfold held. cbn -[total mtotal]. lia. Qed.

(** Admitting a record under a new identifier. *)
Lemma admit_new c k now r (f : string → Outgoing) :
  recorder_ok r → (∀ i, og_idem (f i) = i ∧ og_class (f i) = Some k ∧ 0 ≤ og_attempts (f i)) →
  let r' := admit_record k (f (new_idem uuid r).1) now (new_idem uuid r).2 in
  recorder_ok r' ∧ held c r' = held c r + (if decide (k = c) then og_attempts (f (new_idem uuid r).1) else 0).
Proof.
  intros Hok Hf r'. destruct (Hf (new_idem uuid r).1) as (Hi & Hk & Hn).
  assert (Hok' : recorder_ok (new_idem uuid r).2) by (by apply new_idem_frame).
  destruct (admit_facts c k (f (new_idem uuid r).1) now (new_idem uuid r).2 Hok') as [H1 H2];
    [rewrite Hi; by apply fresh_new|done|done|]. split; [done|]. unfold r'. rewrite H2. done.
Qed.
Lemma close_window_facts c now utc key r :
  recorder_ok r →
  recorder_ok (close_window uuid now utc key r) ∧ held c (close_window uuid now utc key r) = held c r.
Proof.
  intros Hok. unfold close_window. destruct (rr_open r !! key) as [w|] eqn:E; [|done].
  assert (Hsz : windows_ok (delete key (rr_open r))).
  { destruct Hok as (_ & [H2 H3] & _). split; [rewrite map_size_delete_Some by eauto; lia|].
    intros k' w' [_ Hw']%lookup_delete_Some. by apply H3. }
  assert (Hpos : 0 ≤ wn_tail_attempts w) by (by apply (proj2 (proj1 (proj2 Hok)) key w)).
  destruct (open_frame c _ r Hok Hsz) as [H1 H2]. set (r1 := rr_set_open _ r) in *.
  assert (H3 : held c r1 = held c r - tail_weight c w) by (rewrite H2, (mtotal_delete _ _ _ _ E); lia).
  unfold tail_weight in H3. cbv zeta. destruct (Z.eqb_spec (wn_tail_attempts w) 0) as [H0|H0].
  - split; [done|]. rewrite H3, H0. destruct (decide _); lia.
  - destruct (admit_new c (wn_class w) now r1 (λ i, record_of_window i w
      (if wn_credential_mixed w then None else wn_credential w) (wn_tail_attempts w)
      (default utc (wn_tail_first_at w)) (default utc (wn_tail_last_at w))) H1 ltac:(done)) as [H4 H5].
    cbn [new_idem fst snd] in *. split; [done|]. rewrite H5, H3. cbn [record_of_window og_attempts]. lia.
Qed.
Lemma close_windows_facts c now utc keys r :
  recorder_ok r →
  recorder_ok (close_windows uuid now utc keys r) ∧ held c (close_windows uuid now utc keys r) = held c r.
Proof.
  revert r. induction keys as [|k keys IH]; intros r Hok; [done|]. unfold close_windows. cbn [foldl].
  destruct (close_window_facts c now utc k r Hok) as [H1 H2]. destruct (IH _ H1) as [H3 H4]. split; [done|].
  unfold close_windows in H4. by rewrite H4.
Qed.

(** Whether a refusal can be attributed. *)
Definition attributable (ctx : RefusalCtx) : bool := bool_decide (is_Some (sanitized ctx)).

Lemma bump_facts c a1 a2 a3 a4 a5 r :
  recorder_ok r → recorder_ok (bump a1 a2 a3 a4 a5 r) ∧ held c (bump a1 a2 a3 a4 a5 r) = held c r.
Proof. intros Hok. split; [eapply ok_frame; [exact Hok|done..|apply Hok|apply Hok]|done]. Qed.
Lemma settings_close now utc key r : rr_settings (close_window uuid now utc key r) = rr_settings r.
Proof.
  unfold close_window. destruct (rr_open r !! key) as [w|]; [|done]. cbv zeta. destruct (_ =? _); [done|].
  cbn [new_idem]. unfold admit_record. cbv zeta. destruct (summary_is_empty _); [|done].
  destruct (bucket_take _ _) as [[] b]; [|done]. unfold push_ready. by destruct (Nat.leb _ _).
Qed.
Lemma note_facts c ctx k now wall utc r :
  recorder_ok r → rs_enabled (rr_settings r) = true →
  recorder_ok (note_at uuid ctx k now wall utc r)
  ∧ held c (note_at uuid ctx k now wall utc r)
    = held c r + (if attributable ctx then if decide (k = c) then 1 else 0 else 0).
Proof.
  intros Hok Hen. unfold note_at, attributable.
  destruct (sanitized ctx) as [[[agent act] credential]|]; [rewrite bool_decide_true by eauto|cbn; split; [done|lia]].
  cbv zeta. destruct (bump_facts c 1 0 0 0 0 r Hok) as [Hok1 H1]. set (r1 := bump 1 0 0 0 0 r) in *.
  change (rs_enabled (rr_settings r1)) with (rs_enabled (rr_settings r)). rewrite Hen. cbn [negb].
  set (key := refusal_key agent act k (rx_entry ctx)). set (expired := match _ with Some w => _ | None => false end).
  assert (H2 : recorder_ok (if expired then close_window uuid now utc key r1 else r1)
    ∧ held c (if expired then close_window uuid now utc key r1 else r1) = held c r).
  { destruct expired; [|done]. rewrite <- H1. by apply close_window_facts. }
  set (r2 := if expired then _ else r1) in *. destruct H2 as [Hok2 H2]. rewrite <- H2. clearbody r2. clear H1 H2.
  destruct (rr_open r2 !! key) as [w|] eqn:E.
  - destruct (Hok2) as (_ & [Hsz Hkey] & _). assert (Hw : wn_class w = k).
    { destruct (Hkey _ _ E) as [Hk _]. subst key. injection Hk as _ _ Hk _. by apply (inj class_str) in Hk. }
    destruct (open_frame c (<[key := fold_into wall credential w]> (rr_open r2)) r2 Hok2) as [H3 H4].
    { split; [by rewrite map_size_insert_Some by eauto|]. intros k' w' [[<- <-]|[_ ?]]%lookup_insert_Some; [|by apply Hkey].
      apply Hkey in E. cbn. split; [apply E|lia]. }
    destruct (bump_facts c 0 0 1 0 0 _ H3) as [H5 H6]. split; [done|]. rewrite H6, H4.
    pose proof (mtotal_replace (tail_weight c) (rr_open r2) key w (fold_into wall credential w) E) as H7.
    unfold tail_weight at 2 4 in H7. cbn [fold_into wn_class wn_tail_attempts] in H7. rewrite Hw in H7.
    destruct (decide (k = c)); lia.
  - destruct (Nat.leb_spec MAX_OPEN_WINDOWS (size (rr_open r2))) as [Hl|Hl]; [by apply to_summary_facts; [|lia]|].
    destruct (Hok2) as (_ & [Hsz Hkey] & _).
    set (w := {| wn_agent := agent; wn_action := act; wn_class := k |}).
    destruct (open_frame c (<[key := w]> (rr_open r2)) r2 Hok2) as [H3 H4].
    { split; [rewrite map_size_insert_None by done; lia|]. intros k' w' [[<- <-]|[_ ?]]%lookup_insert_Some; [split; [done|cbn; lia]|by apply Hkey]. }
    destruct (admit_new c k now _ (λ i, record_of_window i w credential 1 wall wall) H3 ltac:(done)) as [H5 H6].
    cbn [new_idem fst snd] in *. split; [done|]. rewrite H6, H4, mtotal_insert_new by done.
    unfold tail_weight at 2. cbn [w wn_class wn_tail_attempts record_of_window og_attempts].
    destruct (decide (k = c)); lia.
Qed.

Lemma release_summary_facts c now utc r :
  recorder_ok r →
  recorder_ok (release_summary uuid now utc r) ∧ held c (release_summary uuid now utc r) = held c r.
Proof.
  intros Hok. unfold release_summary. destruct (summary_is_empty _); [done|].
  destruct (bucket_take now (rr_bucket r)) as [[] b]; cbv zeta;
    [|split; [eapply ok_frame; [exact Hok|done..|apply Hok|apply Hok]|done]].
  set (r1 := rr_set_summary no_summary (rr_set_bucket b r)).
  assert (Hok1 : recorder_ok r1) by (eapply ok_frame; [exact Hok|done..|apply Hok|intros c'; cbn; rewrite lookup_empty; cbn; lia]).
  assert (Hh : held c r1 + default 0 (su_by_class (rr_summary r) !! class_str c) = held c r).
  { unfold held, r1. cbn -[total mtotal]. rewrite lookup_empty. cbn -[total mtotal]. lia. }
  pose proof (fresh_new r1 Hok1) as Hf. pose proof (new_idem_frame r1 (conj eq_refl Hok1)) as Hok2.
  destruct (push_ready_facts c (summary_record (new_idem uuid r1).1 utc (rr_summary r)) (new_idem uuid r1).2 Hok2 Hf) as [H1 H2].
  split; [exact H1|]. etransitivity; [exact H2|]. rewrite <- Hh. done.
Qed.

(** Handing a batch over to the flight. *)
Definition launch (m : gmap string Outgoing) (batch : list Outgoing) : gmap string Outgoing :=
  foldl (λ m o, <[og_idem o := o]> m) m batch.
Lemma launch_facts f batch m :
  NoDup (og_idem <$> batch) → (∀ o, o ∈ batch → m !! og_idem o = None) →
  mtotal f (launch m batch) = mtotal f m + total f batch
  ∧ ∀ i o, launch m batch !! i = Some o → m !! i = Some o ∨ (o ∈ batch ∧ og_idem o = i).
Proof.
  revert m. induction batch as [|b batch IH]; intros m Hn Hm; [cbn; split; [change (total f []) with 0; lia|auto]|].
  cbn in Hn. apply NoDup_cons in Hn as [Hb Hn].
  destruct (IH (<[og_idem b := b]> m)) as [H1 H2]; [done| |].
  { intros o Ho. rewrite lookup_insert_ne; [apply Hm; by right|]. intros Heq. apply Hb. rewrite Heq. by apply list_elem_of_fmap_2. }
  unfold launch in *. cbn [foldl]. rewrite total_cons. split.
  - rewrite H1, mtotal_insert_new by (apply Hm; by left). lia.
  - intros i o Ho. destruct (H2 i o Ho) as [[[<- <-]|[_ ?]]%lookup_insert_Some|[? ?]]; [right; split; [by left|done]|by left|].
    right. split; [by right|done].
Qed.
Lemma take_due_facts c max now utc r :
  recorder_ok r →
  let o := take_due_at uuid max now utc r in
  recorder_ok o.2 ∧ held c o.2 + total (gap_weight c) o.1.2 = held c r.
Proof.
  intros Hok. unfold take_due_at. set (expired := (List.filter _ _).*1).
  destruct (close_windows_facts c now utc expired r Hok) as [Hok1 H1].
  destruct (release_summary_facts c now utc _ Hok1) as [Hok2 H2].
  set (r2 := release_summary _ _ _ _) in *. rewrite <- H1, <- H2. clearbody r2. clear Hok Hok1 H1 H2.
  cbn -[take drop held total]. set (n := Nat.min max (length (rr_ready r2))).
  destruct Hok2 as (H1 & H2 & H3 & H4 & H5 & H6).
  assert (Hsplit : rr_ready r2 = take n (rr_ready r2) ++ drop n (rr_ready r2)) by (by rewrite take_drop).
  set (batch := take n (rr_ready r2)) in *. set (rest := drop n (rr_ready r2)) in *.
  rewrite Hsplit, fmap_app in H3. apply NoDup_app in H3 as (Hnb & Hdis & Hnr).
  destruct (launch_facts (weight c) batch (rr_in_flight r2)) as [Hl1 Hl2]; [done| |].
  { intros o Ho. apply H4. rewrite Hsplit. set_solver. }
  split.
  - unfold recorder_ok, drawn. cbn -[take drop MAX_READY windows_ok summary_ok]. split_and!.
    + rewrite Hsplit, length_app in H1. lia.
    + done.
    + done.
    + intros o Ho. destruct (H4 o) as [Hd Hnone]; [rewrite Hsplit; set_solver|]. split; [done|].
      fold (launch (rr_in_flight r2) batch).
      destruct (launch (rr_in_flight r2) batch !! og_idem o) as [o'|] eqn:E; [|done]. destruct (Hl2 _ _ E) as [?|[Hb Heq]]; [congruence|].
      exfalso. apply (Hdis (og_idem o)); [rewrite <- Heq|]; by apply list_elem_of_fmap_2.
    + intros i o Ho. destruct (Hl2 i o Ho) as [?|[Hb <-]]; [by apply H5|]. split; [done|]. apply H4. rewrite Hsplit. set_solver.
    + done.
  - unfold held. cbn -[take drop total mtotal]. fold (launch (rr_in_flight r2) batch). rewrite Hl1, Hsplit, total_app.
    change (total _ []) with 0. lia.
Qed.

(** The record a finished flight takes away. *)
Definition landed (idem : string) (r : RefusalRecorder) : list Outgoing :=
  match rr_in_flight r !! idem with Some o => [o] | None => [] end.
Lemma finish_facts c idem r :
  recorder_ok r →
  recorder_ok (finish_flight idem r).2 ∧ held c (finish_flight idem r).2 + total (weight c) (landed idem r) = held c r.
Proof.
  intros (H1 & H2 & H3 & H4 & H5 & H6). unfold finish_flight, landed. split.
  - split_and!; [done|done|done| | |done]; cbn.
    + intros o Ho. destruct (H4 o Ho) as [? Hn]. split; [done|]. apply lookup_delete_None. by right.
    + intros i o [_ Ho]%lookup_delete_Some. by apply H5.
  - unfold held. cbn -[total mtotal]. destruct (rr_in_flight r !! idem) as [o|] eqn:E.
    + rewrite (mtotal_delete _ _ _ _ E). unfold total at 3. cbn -[total mtotal]. lia.
    + rewrite delete_id by done. unfold total at 3. cbn -[total mtotal]. lia.
Qed.

(** A record handed back: the one in flight with another count of tries. *)
Definition handed_back (m : gmap string Outgoing) (o : Outgoing) : Prop :=
  ∀ o', m !! og_idem o = Some o' → ∃ t, o = with_tries t o'.

Lemma requeue_one_facts c o dropped r :
  recorder_ok r → handed_back (rr_in_flight r) o →
  let a := requeue_one (dropped, r) o in
  recorder_ok a.2 ∧ held c a.2 + total (weight c) a.1 = held c r + total (weight c) dropped
  ∧ rr_in_flight a.2 ⊆ rr_in_flight r.
Proof.
  intros Hok Hb. unfold requeue_one. destruct (rr_in_flight r !! og_idem o) as [o'|] eqn:E; [|done].
  destruct (Hb o' E) as [t Ht]. assert (Hw : weight c o = weight c o') by (by rewrite Ht).
  pose proof Hok as (_ & _ & _ & _ & H5' & _). destruct (H5' _ _ E) as [_ Hd].
  destruct (finish_facts c (og_idem o) r Hok) as [Hok1 Hh]. unfold landed in Hh. rewrite E, total_cons in Hh.
  change (total (weight c) []) with 0 in Hh. cbn [finish_flight snd] in Hok1, Hh. cbv zeta.
  set (r1 := rr_set_in_flight _ r) in *.
  assert (Hsub : rr_in_flight r1 ⊆ rr_in_flight r) by apply delete_subseteq.
  destruct (Nat.leb_spec MAX_READY (length (rr_ready r1))) as [Hl|Hl]; cbn [fst snd].
  - split_and!; [done| |done]. rewrite total_app, total_cons. change (total (weight c) []) with 0. lia.
  - split_and!; [| |done].
    + destruct Hok as (H1 & H2 & H3 & H4 & H5 & H6). destruct Hok1 as (K1 & K2 & K3 & K4 & K5 & K6). unfold recorder_ok.
      cbn -[MAX_READY windows_ok summary_ok]. split_and!; [cbn in Hl |- *; lia|done| | |done|done].
      * apply NoDup_cons. split; [|done]. intros (o2 & Ho2 & Hin)%list_elem_of_fmap. destruct (H4 _ Hin) as [_ Hn].
        rewrite <- Ho2, E in Hn. done.
      * intros o2 [->|Hin]%elem_of_cons; [|by apply K4]. split; [done|]. apply lookup_delete_eq.
    + unfold held in Hh |- *. cbn -[total mtotal] in Hh |- *. rewrite total_cons. lia.
Qed.
Lemma requeue_facts c recs r :
  recorder_ok r → Forall (handed_back (rr_in_flight r)) recs →
  let a := requeue_in_flight recs r in
  recorder_ok a.2 ∧ held c a.2 + total (weight c) a.1 = held c r.
Proof.
  intros Hok HF. unfold requeue_in_flight. apply Forall_rev in HF.
  assert (H : ∀ l dropped r, recorder_ok r → Forall (handed_back (rr_in_flight r)) l →
            let a := foldl requeue_one (dropped, r) l in
            recorder_ok a.2 ∧ held c a.2 + total (weight c) a.1 = held c r + total (weight c) dropped).
  { clear. induction l as [|o l IH]; intros dropped r Hok HF; [done|]. apply Forall_cons in HF as [Ho HF].
    destruct (requeue_one_facts c o dropped r Hok Ho) as (H1 & H2 & H3). cbn [foldl].
    destruct (requeue_one (dropped, r) o) as [d' r']. cbn [fst snd] in *.
    destruct (IH d' r' H1) as [H4 H5]; [|split; [done|lia]].
    eapply Forall_impl; [exact HF|]. intros o2 Hb o3 Ho3. apply Hb. by eapply lookup_weaken. }
  destruct (H (rev recs) [] r Hok HF) as [H1 H2]. split; [done|]. rewrite H2. change (total (weight c) []) with 0. lia.
Qed.

Lemma total_fmap {A B} (f : B → Z) (g : A → B) l : total f (g <$> l) = total (λ x, f (g x)) l.
Proof. induction l as [|x l IH]; [done|]. cbn [fmap list_fmap]. by rewrite !total_cons, <- IH. Qed.
Lemma take_all_facts c utc r :
  recorder_ok r →
  let a := take_all_pending uuid utc r in
  recorder_ok a.2 ∧ held c a.2 + total (weight c) a.1 = held c r.
Proof.
  intros Hok. unfold take_all_pending. cbv zeta.
  assert (Hfl : total (weight c) (map_to_list (rr_in_flight r)).*2 = mtotal (weight c) (rr_in_flight r))
    by (unfold mtotal; by rewrite total_fmap).
  set (r1 := rr_set_in_flight ∅ (rr_set_ready [] r)).
  assert (Hok1 : recorder_ok r1).
  { destruct Hok as (H1 & H2 & H3 & H4 & H5 & H6). unfold recorder_ok. cbn -[MAX_READY windows_ok summary_ok].
    split_and!; [lia|done|constructor| | |done]; [intros o Ho; by apply not_elem_of_nil in Ho|intros i o Ho; by rewrite lookup_empty in Ho]. }
  assert (Hh : held c r1 + total (weight c) (rr_ready r ++ (map_to_list (rr_in_flight r)).*2) = held c r).
  { unfold held, r1. cbn -[total mtotal]. rewrite mtotal_empty, total_app, Hfl. change (total (weight c) []) with 0. lia. }
  destruct (summary_is_empty (rr_summary r1)); [done|].
  set (r2 := rr_set_summary no_summary r1).
  assert (Hok2 : recorder_ok r2) by (eapply ok_frame; [exact Hok1|done..|apply Hok1|intros c'; cbn; rewrite lookup_empty; cbn; lia]).
  cbn [new_idem]. split; [exact (new_idem_frame r2 (conj eq_refl Hok2))|]. cbn [fst snd].
  rewrite total_app, total_cons. change (total (weight c) []) with 0.
  unfold held in Hh |- *. cbn -[total mtotal] in Hh |- *. rewrite lookup_empty. cbn -[total mtotal]. lia.
Qed.

(** ** Runs *)

(** The recorder's life: what was noted so far, the records that left it (sealed, given
    up, or collected at shutdown) and the overflow handed out to be logged. *)
Inductive recorder_run (s : RefusalSettings) (t0 : Z)
    : RefusalRecorder → list (RefusalCtx * RefusalClass) → list Outgoing → list (RefusalClass * Z * string) → Prop :=
  | run_new : recorder_run s t0 (recorder_new s t0) [] [] []
  | run_note r noted gone over ctx k now wall utc :
      recorder_run s t0 r noted gone over →
      recorder_run s t0 (note_at uuid ctx k now wall utc r) ((ctx, k) :: noted) gone over
  | run_take_due r noted gone over max now utc :
      recorder_run s t0 r noted gone over →
      recorder_run s t0 (take_due_at uuid max now utc r).2 noted gone ((take_due_at uuid max now utc r).1.2 ++ over)
  | run_finish r noted gone over idem :
      recorder_run s t0 r noted gone over →
      recorder_run s t0 (finish_flight idem r).2 noted (landed idem r ++ gone) over
  | run_requeue r noted gone over recs :
      recorder_run s t0 r noted gone over → Forall (handed_back (rr_in_flight r)) recs →
      recorder_run s t0 (requeue_in_flight recs r).2 noted ((requeue_in_flight recs r).1 ++ gone) over
  | run_count_sealed r noted gone over :
      recorder_run s t0 r noted gone over → recorder_run s t0 (count_sealed r) noted gone over
  | run_count_unsealed r noted gone over :
      recorder_run s t0 r noted gone over → recorder_run s t0 (count_unsealed r) noted gone over
  | run_close_all r noted gone over now utc :
      recorder_run s t0 r noted gone over →
      recorder_run s t0 (close_all_windows_at uuid now utc r) noted gone over
  | run_take_all r noted gone over utc :
      recorder_run s t0 r noted gone over →
      recorder_run s t0 (take_all_pending uuid utc r).2 noted ((take_all_pending uuid utc r).1 ++ gone) over.

Definition noted_weight (c : RefusalClass) (e : RefusalCtx * RefusalClass) : Z :=
  if attributable e.1 then if decide (e.2 = c) then 1 else 0 else 0.

(** *** The settings never change *)
Lemma settings_admit k o now r : rr_settings (admit_record k o now r) = rr_settings r.
Proof.
  unfold admit_record. cbv zeta. destruct (summary_is_empty _); [|done].
  destruct (bucket_take _ _) as [[] b]; [|done]. unfold push_ready. by destruct (Nat.leb _ _).
Qed.
Lemma settings_close_windows now utc keys r : rr_settings (close_windows uuid now utc keys r) = rr_settings r.
Proof.
  revert r. induction keys as [|k keys IH]; intros r; [done|]. unfold close_windows in *. cbn [foldl].
  by rewrite IH, settings_close.
Qed.
Lemma settings_note ctx k now wall utc r : rr_settings (note_at uuid ctx k now wall utc r) = rr_settings r.
Proof.
  unfold note_at. destruct (sanitized ctx) as [[[agent act] credential]|]; [|done]. cbv zeta.
  destruct (negb _); [done|]. generalize (match rr_open (bump 1 0 0 0 0 r) !! refusal_key agent act k (rx_entry ctx) with
    Some w => ran_its_length (rr_settings (bump 1 0 0 0 0 r)) now w | None => false end). intros expired.
  set (r2 := if expired then _ else _).
  assert (H : rr_settings r2 = rr_settings r) by (unfold r2; destruct expired; [by rewrite settings_close|done]).
  rewrite <- H. clearbody r2. destruct (rr_open r2 !! _); [done|]. destruct (Nat.leb _ _); [done|]. cbn [new_idem]. by rewrite settings_admit.
Qed.
Lemma settings_release now utc r : rr_settings (release_summary uuid now utc r) = rr_settings r.
Proof.
  unfold release_summary. destruct (summary_is_empty _); [done|]. destruct (bucket_take _ _) as [[] b]; [|done].
  cbn [new_idem]. unfold push_ready. by destruct (Nat.leb _ _).
Qed.
Lemma settings_requeue recs r : rr_settings (requeue_in_flight recs r).2 = rr_settings r.
Proof.
  unfold requeue_in_flight. generalize (@nil Outgoing) as dropped. generalize (rev recs) as l. intros l. revert r.
  induction l as [|o l IH]; intros r dropped; [done|]. cbn [foldl].
  assert (H : rr_settings (requeue_one (dropped, r) o).2 = rr_settings r)
    by (unfold requeue_one; destruct (rr_in_flight r !! _); [|done]; by destruct (Nat.leb _ _)).
  destruct (requeue_one (dropped, r) o) as [d' r']. rewrite IH. exact H.
Qed.
Lemma settings_take_all utc r : rr_settings (take_all_pending uuid utc r).2 = rr_settings r.
Proof. unfold take_all_pending. cbv zeta. by destruct (summary_is_empty _). Qed.

(** A reachable recorder is well formed and its books balance. *)
Lemma run_facts s t0 r noted gone over :
  recorder_run s t0 r noted gone over → rs_enabled s = true →
  recorder_ok r ∧ rr_settings r = s
  ∧ ∀ c, total (noted_weight c) noted = held c r + total (weight c) gone + total (gap_weight c) over.
Proof.
  intros Hrun Hen. induction Hrun as [|r noted gone over ctx k now wall utc _ IH|r noted gone over max now utc _ IH
    |r noted gone over idem _ IH|r noted gone over recs _ IH Hb|r noted gone over _ IH|r noted gone over _ IH
    |r noted gone over now utc _ IH|r noted gone over utc _ IH].
  - split_and!; [|done|done]. unfold recorder_ok. cbn -[MAX_READY windows_ok summary_ok]. split_and!; [lia| |constructor| | |].
    + split; [rewrite map_size_empty; lia|]. intros key w Hw. by rewrite lookup_empty in Hw.
    + intros o Ho. by apply not_elem_of_nil in Ho.
    + intros i o Ho. by rewrite lookup_empty in Ho.
    + intros c. cbn. rewrite lookup_empty. cbn. lia.
  - destruct IH as (Hok & Hs & Hb). rewrite <- Hs in Hen.
    split_and!; [by apply (note_facts RC_NotGranted)|by rewrite settings_note|]. intros c.
    destruct (note_facts c ctx k now wall utc r Hok Hen) as [_ H]. rewrite H, total_cons, Hb. unfold noted_weight at 1.
    cbn [fst snd]. lia.
  - destruct IH as (Hok & Hs & Hb). split_and!; [by apply (take_due_facts RC_NotGranted)| |].
    + unfold take_due_at. cbn. by rewrite settings_release, settings_close_windows.
    + intros c. destruct (take_due_facts c max now utc r Hok) as [_ H]. rewrite total_app, Hb. lia.
  - destruct IH as (Hok & Hs & Hb). split_and!; [by apply (finish_facts RC_NotGranted)|done|].
    intros c. destruct (finish_facts c idem r Hok) as [_ H]. rewrite total_app, Hb. lia.
  - destruct IH as (Hok & Hs & Hbal). split_and!; [by apply (requeue_facts RC_NotGranted)|by rewrite settings_requeue|].
    intros c. destruct (requeue_facts c recs r Hok Hb) as [_ H]. rewrite total_app, Hbal. lia.
  - destruct IH as (Hok & Hs & Hb). split_and!; [by apply (bump_facts RC_NotGranted)|done|done].
  - destruct IH as (Hok & Hs & Hb). split_and!; [by apply (bump_facts RC_NotGranted)|done|done].
  - destruct IH as (Hok & Hs & Hb). split_and!; [by apply (close_windows_facts RC_NotGranted)|by unfold close_all_windows_at; rewrite settings_close_windows|].
    intros c. unfold close_all_windows_at. by rewrite (proj2 (close_windows_facts c now utc _ r Hok)).
  - destruct IH as (Hok & Hs & Hb). split_and!; [by apply (take_all_facts RC_NotGranted)|by rewrite settings_take_all|].
    intros c. destruct (take_all_facts c utc r Hok) as [_ H]. rewrite total_app, Hb. lia.
Qed.
End facts.
