(* ===== verification/RefusalShutdown.v ===== *)
(** * No refusal is lost when the process stops

    Each step of the averin client that moves a refusal record keeps the recorder's books
    and pairs every record that leaves with a sealed receipt or a counted gap; the
    shutdown flush leaves nothing behind. *)

From stdpp Require Import base gmap strings list.
From Stdlib Require Import ZArith Lia.
From S2P Require Import Prelude RustStr PolicyEngine Json Approval Catalog Refusals RefusalDrain RefusalFacts.

Open Scope Z_scope.

Section shutdown.
Context (uuid : nat → string) `{!Inj (=) (=) uuid} (project : string) (cfg : RefusalSettings) (t0 : Z).
Hypothesis enabled : rs_enabled cfg = true.

Abbreviation reached := (recorder_run uuid cfg t0).

(** From [a] to [b], [d] more records left the recorder than gaps were counted. *)
Definition advances (d : Z) (a b : SealClient) : Prop :=
  ∀ noted gone over, reached (sc_refusals a) noted gone over →
    ∃ gone' over', reached (sc_refusals b) noted (gone' ++ gone) (over' ++ over)
      ∧ Z.of_nat (length gone' + length over') = sc_receipt_gaps b - sc_receipt_gaps a + d.

Lemma advances_refl a : advances 0 a a.
Proof. intros noted gone over H. exists [], []. split; [done|cbn; lia]. Qed.
Lemma advances_trans d e a b c : advances d a b → advances e b c → advances (d + e) a c.
Proof.
  intros H1 H2 noted gone over H. destruct (H1 _ _ _ H) as (g1 & o1 & Hb & E1). destruct (H2 _ _ _ Hb) as (g2 & o2 & Hc & E2).
  exists (g2 ++ g1), (o2 ++ o1). rewrite <- !app_assoc. split; [done|]. rewrite !length_app. lia.
Qed.

(** ** The steps *)

Lemma advances_gap agent reason detail utc a :
  advances (-1) a (record_refusal_gap project agent reason detail utc (sc_on_refusals count_unsealed a)).
Proof.
  intros noted gone over H. exists [], []. unfold record_refusal_gap, enqueue_gap. destruct (Nat.leb _ _); cbn;
    (split; [by apply run_count_unsealed|lia]).
Qed.
Lemma advances_gaps {A} (f : SealClient → A → SealClient) l a :
  (∀ a x, advances (-1) a (f a x)) → advances (- Z.of_nat (length l)) a (foldl f a l).
Proof.
  intros Hf. revert a. induction l as [|x l IH]; intros a; [apply advances_refl|]. cbn [foldl length].
  replace (- Z.of_nat (S (length l))) with (-1 + - Z.of_nat (length l)) by lia. eapply advances_trans; [apply Hf|apply IH].
Qed.
Lemma advances_take_due max now utc a :
  let t := take_due_at uuid max now utc (sc_refusals a) in
  advances (Z.of_nat (length t.1.2)) a (sc_on_refusals (λ _, t.2) a).
Proof.
  intros t noted gone over H. exists [], t.1.2. split; [by apply run_take_due|]. cbn. lia.
Qed.
Lemma advances_finish idem a :
  is_Some (rr_in_flight (sc_refusals a) !! idem) →
  advances 1 a (sc_on_refusals (λ _, (finish_flight idem (sc_refusals a)).2) a).
Proof.
  intros [o E] noted gone over H. exists (landed idem (sc_refusals a)), []. split; [by apply run_finish|].
  unfold landed. rewrite E. cbn. lia.
Qed.
Lemma advances_sealed a : advances 0 a (sc_on_refusals count_sealed a).
Proof. intros noted gone over H. exists [], []. split; [by apply run_count_sealed|cbn; lia]. Qed.
Lemma advances_requeue recs a :
  Forall (handed_back (rr_in_flight (sc_refusals a))) recs →
  let q := requeue_in_flight recs (sc_refusals a) in
  advances (Z.of_nat (length q.1)) a (sc_on_refusals (λ _, q.2) a).
Proof.
  intros Hb q noted gone over H. exists q.1, []. split; [by apply run_requeue|]. cbn. lia.
Qed.
Lemma advances_close_all now utc a : advances 0 a (sc_on_refusals (close_all_windows_at uuid now utc) a).
Proof. intros noted gone over H. exists [], []. split; [by apply run_close_all|cbn; lia]. Qed.
Lemma advances_take_all utc a :
  let q := take_all_pending uuid utc (sc_refusals a) in
  advances (Z.of_nat (length q.1)) a (sc_on_refusals (λ _, q.2) a).
Proof. intros q noted gone over H. exists q.1, []. split; [by apply run_take_all|]. cbn. lia. Qed.

(** ** A drain *)

(** What is in flight only shrinks while tasks finish; a record to retry is one in flight. *)
Definition drain_ok (batch : list Outgoing) (d : Draining) : Prop :=
  (∀ o o', o ∈ batch → rr_in_flight (sc_refusals (dg_client d)) !! og_idem o = Some o' → o' = o)
  ∧ Forall (handed_back (rr_in_flight (sc_refusals (dg_client d)))) (dg_retry d).
Lemma drain_ok_shrink batch d d' :
  drain_ok batch d → rr_in_flight (sc_refusals (dg_client d')) ⊆ rr_in_flight (sc_refusals (dg_client d)) →
  dg_retry d' = dg_retry d → drain_ok batch d'.
Proof.
  intros [H1 H2] Hsub Hr. unfold drain_ok. rewrite Hr. split; [intros o o' Ho E; apply (H1 o o' Ho); by eapply lookup_weaken|].
  eapply Forall_impl; [exact H2|]. intros o Hb o' E. apply Hb. by eapply lookup_weaken.
Qed.
Lemma gap_keeps_flight agent reason detail utc a :
  sc_refusals (record_refusal_gap project agent reason detail utc a) = sc_refusals a.
Proof. unfold record_refusal_gap, enqueue_gap. by destruct (Nat.leb _ _). Qed.

Lemma task_finished_facts utc batch d o res :
  o ∈ batch → drain_ok batch d →
  let d' := task_finished project utc d o res in
  drain_ok batch d' ∧ advances (dg_sealed d' - dg_sealed d) (dg_client d) (dg_client d').
Proof.
  intros Ho Hd. unfold task_finished, finish_flight.
  pose proof (advances_finish (og_idem o) (dg_client d)) as Hfin. unfold finish_flight in Hfin. cbn [snd] in Hfin.
  set (s := sc_on_refusals _ (dg_client d)) in *.
  assert (Hsub : rr_in_flight (sc_refusals s) ⊆ rr_in_flight (sc_refusals (dg_client d))) by apply delete_subseteq.
  assert (Hsame : drain_ok batch d ∧ advances (dg_sealed d - dg_sealed d) (dg_client d) (dg_client d))
    by (rewrite Z.sub_diag; split; [done|apply advances_refl]).
  destruct res as [|e|]; [| |].
  - destruct (bool_decide_reflect (is_Some (rr_in_flight (sc_refusals (dg_client d)) !! og_idem o))) as [Hc|]; [|done].
    split; [by eapply drain_ok_shrink|]. cbn [dg_sealed dg_client]. replace (dg_sealed d + 1 - dg_sealed d) with (1 + 0) by lia.
    eapply advances_trans; [by apply Hfin|apply advances_sealed].
  - destruct (is_unavailable e && _).
    + split; [|cbn [dg_sealed dg_client]; rewrite Z.sub_diag; apply advances_refl]. destruct Hd as [H1 H2].
      split; [done|]. cbn [dg_retry dg_client]. apply Forall_app. split; [done|]. apply Forall_singleton. intros o' E.
      rewrite (H1 o o' Ho E). by eexists.
    + destruct (bool_decide_reflect (is_Some (rr_in_flight (sc_refusals (dg_client d)) !! og_idem o))) as [Hc|]; [|done].
      split; [eapply drain_ok_shrink; [done| |done]; unfold refusal_unsealed; cbn [dg_client]; by rewrite gap_keeps_flight|].
      cbn [dg_sealed dg_client]. replace (dg_sealed d - dg_sealed d) with (1 + -1) by lia.
      eapply advances_trans; [by apply Hfin|apply advances_gap].
  - destruct (bool_decide_reflect (is_Some (rr_in_flight (sc_refusals (dg_client d)) !! og_idem o))) as [Hc|]; [|done].
    split; [eapply drain_ok_shrink; [done| |done]; cbn [dg_client]; by rewrite gap_keeps_flight|].
    cbn [dg_sealed dg_client]. replace (dg_sealed d - dg_sealed d) with (1 + -1) by lia.
    eapply advances_trans; [by apply Hfin|apply advances_gap].
Qed.
Lemma finish_tasks_cons utc batch i res ends d :
  finish_tasks project utc batch ((i, res) :: ends) d
  = finish_tasks project utc batch ends (match batch !! i with Some o => task_finished project utc d o res | None => d end).
Proof. done. Qed.
Lemma finish_tasks_facts utc batch ends d :
  drain_ok batch d →
  let d' := finish_tasks project utc batch ends d in
  drain_ok batch d' ∧ advances (dg_sealed d' - dg_sealed d) (dg_client d) (dg_client d').
Proof.
  revert d. induction ends as [|[i res] ends IH]; intros d Hd.
  - cbv zeta. change (finish_tasks _ _ _ [] d) with d. rewrite Z.sub_diag. split; [done|apply advances_refl].
  - rewrite finish_tasks_cons. destruct (batch !! i) as [o|] eqn:E; [|by apply IH].
    destruct (task_finished_facts utc batch d o res (list_elem_of_lookup_2 _ _ _ E) Hd) as [H1 H2].
    set (d1 := task_finished project utc d o res) in *. destruct (IH d1 H1) as [H3 H4]. cbv zeta. split; [done|].
    set (d2 := finish_tasks project utc batch ends d1) in *.
    replace (dg_sealed d2 - dg_sealed d) with ((dg_sealed d1 - dg_sealed d) + (dg_sealed d2 - dg_sealed d1)) by lia.
    eapply advances_trans; [exact H2|exact H4].
Qed.

Lemma same_key_same {A B} (f : A → B) (l : list A) x y : NoDup (f <$> l) → x ∈ l → y ∈ l → f x = f y → x = y.
Proof.
  intros Hn [i Hi]%list_elem_of_lookup [j Hj]%list_elem_of_lookup Hf.
  assert (i = j); [|subst; congruence]. eapply (NoDup_lookup (f <$> l)); [done|by rewrite list_lookup_fmap, Hi|].
  by rewrite list_lookup_fmap, Hj, Hf.
Qed.
Lemma take_due_flight max now utc r o o' :
  recorder_ok uuid r → o ∈ (take_due_at uuid max now utc r).1.1 →
  rr_in_flight (take_due_at uuid max now utc r).2 !! og_idem o = Some o' → o' = o.
Proof.
  intros Hok. unfold take_due_at. set (expired := (List.filter _ _).*1). cbn -[take drop].
  destruct (close_windows_facts uuid RC_NotGranted now utc expired r Hok) as [Hok1 _].
  destruct (release_summary_facts uuid RC_NotGranted now utc _ Hok1) as [(_ & _ & Hn & Hfl & _) _].
  set (r2 := release_summary _ _ _ _) in *. set (n := Nat.min _ _).
  intros Ho E. assert (Hin : ∀ o, o ∈ take n (rr_ready r2) → o ∈ rr_ready r2) by (intros x Hx; rewrite <- (take_drop n (rr_ready r2)); apply elem_of_app; by left).
  destruct (launch_facts (weight RC_NotGranted) (take n (rr_ready r2)) (rr_in_flight r2)) as [_ Hl].
  { rewrite <- (take_drop n (rr_ready r2)), fmap_app in Hn. by apply NoDup_app in Hn as [? _]. }
  { intros o2 Ho2. apply Hfl. by apply Hin. }
  destruct (Hl _ _ E) as [Hold|[Hb Heq]]; [by rewrite (proj2 (Hfl o (Hin o Ho))) in Hold|].
  eapply (same_key_same og_idem); [exact Hn|by apply Hin|by apply Hin|done].
Qed.

Lemma gaps_keep_flight {A} (f : SealClient → A → SealClient) l a :
  (∀ a x, sc_refusals (f a x) = count_unsealed (sc_refusals a)) →
  rr_in_flight (sc_refusals (foldl f a l)) = rr_in_flight (sc_refusals a).
Proof. intros Hf. revert a. induction l as [|x l IH]; intros a; [done|]. cbn [foldl]. by rewrite IH, Hf. Qed.

Lemma gaps_keep_held {A} c (f : SealClient → A → SealClient) l a :
  (∀ a x, sc_refusals (f a x) = count_unsealed (sc_refusals a)) →
  held c (sc_refusals (foldl f a l)) = held c (sc_refusals a).
Proof. intros Hf. revert a. induction l as [|x l IH]; intros a; [done|]. cbn [foldl]. by rewrite IH, Hf. Qed.
Lemma drain_facts now utc ends sealed s :
  let o := drain_refusals_counted uuid project now utc ends sealed s in
  advances (o.1.2 - sealed) s o.2.
Proof.
  intros o noted gone over Hrun. destruct (run_facts uuid cfg t0 _ _ _ _ Hrun enabled) as (Hok & _ & _).
  cut (advances (o.1.2 - sealed) s o.2); [by eauto|]. clear Hrun noted gone over. unfold o, drain_refusals_counted. clear o.
  pose proof (advances_take_due REFUSAL_BATCH now utc s) as Htake. pose proof (λ a b, take_due_flight REFUSAL_BATCH now utc _ a b Hok) as Hfl.
  destruct (take_due_at uuid REFUSAL_BATCH now utc (sc_refusals s)) as [[batch overflow] r]. cbn [fst snd] in Htake, Hfl.
  set (s1 := foldl (overflow_gap project utc) _ overflow).
  assert (H1 : advances 0 s s1).
  { replace 0 with (Z.of_nat (length overflow) + - Z.of_nat (length overflow)) by lia. eapply advances_trans; [exact Htake|].
    apply advances_gaps. intros a x. apply advances_gap. }
  set (d0 := {| dg_client := s1; dg_retry := []; dg_sealed := sealed |}).
  assert (Hd0 : drain_ok batch d0).
  { split; [|constructor]. intros x x' Hx E. apply (Hfl x x' Hx). cbn [d0 dg_client] in E. unfold s1 in E.
    rewrite gaps_keep_flight in E; [done|]. intros a g. apply gap_keeps_flight. }
  destruct (finish_tasks_facts utc batch ends d0 Hd0) as [H2 H3]. set (d := finish_tasks _ _ _ _ _) in *. cbn [d0 dg_sealed dg_client] in H3.
  assert (H4 : advances (dg_sealed d - sealed) s (dg_client d)).
  { replace (dg_sealed d - sealed) with (0 + (dg_sealed d - sealed)) by lia. by eapply advances_trans; [exact H1|]. }
  destruct (all_finished batch ends); [|done].
  pose proof (advances_requeue (dg_retry d) (dg_client d) (proj2 H2)) as H5. cbv zeta in H5.
  destruct (requeue_in_flight (dg_retry d) (sc_refusals (dg_client d))) as [dropped r']. cbn [fst snd] in *.
  replace (dg_sealed d - sealed) with ((dg_sealed d - sealed) + (Z.of_nat (length dropped) + - Z.of_nat (length dropped))) by lia.
  eapply advances_trans; [exact H4|]. eapply advances_trans; [exact H5|]. apply advances_gaps. intros a x. apply advances_gap.
Qed.
Lemma shutdown_drains_facts tries inputs sealed s :
  let o := shutdown_drains uuid project tries inputs sealed s in advances (o.1 - sealed) s o.2.
Proof.
  revert sealed s. induction tries as [|tries IH]; intros sealed s; cbn [shutdown_drains]; cbv zeta.
  - cbn [fst snd]. rewrite Z.sub_diag. apply advances_refl.
  - destruct (inputs tries) as [[now utc] ends]. pose proof (drain_facts now utc ends sealed s) as H1.
    cbv zeta in H1.
    destruct (drain_refusals_counted _ _ _ _ _ _ _) as [[completed sealed'] s']. cbn [fst snd] in H1.
    destruct (completed && has_pending (sc_refusals s')); [|exact H1]. specialize (IH sealed' s'). cbv zeta in IH.
    set (o := shutdown_drains _ _ _ _ _ _) in *. replace (o.1 - sealed) with ((sealed' - sealed) + (o.1 - sealed')) by lia.
    by eapply advances_trans; [exact H1|].
Qed.

End shutdown.

Section at_rest.
Context (uuid : nat → string) (project : string).

(** ** Nothing is left *)

(** No window is open and no overflow waits. *)
Definition at_rest (r : RefusalRecorder) : Prop := rr_open r = ∅ ∧ rr_overflow r = [].

Lemma close_window_open now utc key r : rr_open (close_window uuid now utc key r) = delete key (rr_open r).
Proof.
  unfold close_window. destruct (rr_open r !! key) as [w|] eqn:E; [|by rewrite delete_id]. cbv zeta.
  destruct (_ =? _); [done|]. cbn [new_idem]. unfold admit_record. cbv zeta. destruct (summary_is_empty _); [|done].
  destruct (bucket_take _ _) as [[] b]; [|done]. unfold push_ready. by destruct (Nat.leb _ _).
Qed.
Lemma close_windows_lookup now utc keys r k :
  rr_open (close_windows uuid now utc keys r) !! k = if decide (k ∈ keys) then None else rr_open r !! k.
Proof.
  revert r. induction keys as [|k' keys IH]; intros r; [done|]. unfold close_windows in *. cbn [foldl].
  rewrite IH, close_window_open. destruct (decide (k ∈ keys)); [by rewrite decide_True by (by right)|].
  destruct (decide (k' = k)) as [->|Hne]; [rewrite lookup_delete_eq, decide_True by (by left); done|].
  rewrite lookup_delete_ne, decide_False by set_solver. done.
Qed.
Lemma close_all_open now utc r : rr_open (close_all_windows_at uuid now utc r) = ∅.
Proof.
  apply map_eq. intros k. unfold close_all_windows_at. rewrite close_windows_lookup, lookup_empty.
  destruct (decide _) as [|Hn]; [done|]. destruct (rr_open r !! k) as [w|] eqn:E; [|done]. exfalso. apply Hn.
  apply list_elem_of_fmap. exists (k, w). split; [done|]. by apply elem_of_map_to_list.
Qed.
Lemma take_due_quiet max now utc r : rr_open r = ∅ → at_rest (take_due_at uuid max now utc r).2.
Proof.
  intros E. unfold take_due_at. rewrite E, map_to_list_empty. cbn. split; [|done]. cbn. unfold release_summary.
  destruct (summary_is_empty _); [done|]. destruct (bucket_take _ _) as [[] b]; [|done]. cbn [new_idem]. unfold push_ready.
  by destruct (Nat.leb _ _).
Qed.
Lemma gaps_quiet {A} (f : SealClient → A → SealClient) l a :
  (∀ a x, sc_refusals (f a x) = count_unsealed (sc_refusals a)) →
  at_rest (sc_refusals a) → at_rest (sc_refusals (foldl f a l)).
Proof. intros Hf. revert a. induction l as [|x l IH]; intros a Ha; [done|]. cbn [foldl]. apply IH. by rewrite Hf. Qed.
Lemma task_finished_quiet utc d o res :
  at_rest (sc_refusals (dg_client d)) → at_rest (sc_refusals (dg_client (task_finished project utc d o res))).
Proof.
  intros H. unfold task_finished, finish_flight, refusal_unsealed. destruct res as [|e|]; cbn.
  - by destruct (bool_decide _).
  - destruct (is_unavailable e && _); [done|]. destruct (bool_decide _); [|done]. cbn [dg_client]. by rewrite gap_keeps_flight.
  - destruct (bool_decide _); [|done]. cbn [dg_client]. by rewrite gap_keeps_flight.
Qed.
Lemma finish_tasks_quiet utc batch ends d :
  at_rest (sc_refusals (dg_client d)) → at_rest (sc_refusals (dg_client (finish_tasks project utc batch ends d))).
Proof.
  revert d. induction ends as [|[i res] ends IH]; intros d Hd; [done|]. rewrite finish_tasks_cons. apply IH.
  destruct (batch !! i); [by apply task_finished_quiet|done].
Qed.
Lemma requeue_quiet recs r : at_rest r → at_rest (requeue_in_flight recs r).2.
Proof.
  unfold requeue_in_flight. generalize (@nil Outgoing) as dropped. generalize (rev recs) as l. intros l. revert r.
  induction l as [|o l IH]; intros r dropped Hr; [done|]. cbn [foldl].
  assert (H : at_rest (requeue_one (dropped, r) o).2)
    by (unfold requeue_one; destruct (rr_in_flight r !! _); [|done]; by destruct (Nat.leb _ _)).
  destruct (requeue_one (dropped, r) o) as [d' r']. by apply IH.
Qed.
Lemma drain_quiet now utc ends sealed s :
  rr_open (sc_refusals s) = ∅ → at_rest (sc_refusals (drain_refusals_counted uuid project now utc ends sealed s).2).
Proof.
  intros E. unfold drain_refusals_counted. pose proof (take_due_quiet REFUSAL_BATCH now utc _ E) as H0.
  destruct (take_due_at _ _ _ _ _) as [[batch overflow] r]. cbn [snd] in H0.
  set (s1 := foldl (overflow_gap project utc) _ overflow).
  assert (H1 : at_rest (sc_refusals s1)) by (apply gaps_quiet; [intros a g; apply gap_keeps_flight|done]).
  pose proof (finish_tasks_quiet utc batch ends {| dg_client := s1; dg_retry := []; dg_sealed := sealed |} H1) as H2.
  destruct (all_finished batch ends); [|done]. set (d := finish_tasks _ _ _ _ _) in *.
  pose proof (requeue_quiet (dg_retry d) _ H2) as H3. destruct (requeue_in_flight _ _) as [dropped r']. cbn [snd] in *.
  apply gaps_quiet; [intros a g; apply gap_keeps_flight|done].
Qed.
Lemma shutdown_drains_quiet tries inputs sealed s :
  tries ≠ O → rr_open (sc_refusals s) = ∅ → at_rest (sc_refusals (shutdown_drains uuid project tries inputs sealed s).2).
Proof.
  revert sealed s. induction tries as [|tries IH]; intros sealed s Hne E; [done|]. cbn [shutdown_drains].
  destruct (inputs tries) as [[now utc] ends]. pose proof (drain_quiet now utc ends sealed s E) as H1.
  destruct (drain_refusals_counted _ _ _ _ _ _ _) as [[completed sealed'] s']. cbn [snd] in H1.
  destruct (completed && has_pending (sc_refusals s')); [|done]. destruct tries as [|tries]; [done|]. apply IH; [done|apply H1].
Qed.
Lemma take_all_holds_nothing c utc r :
  recorder_ok uuid r → at_rest r → held c (take_all_pending uuid utc r).2 = 0.
Proof.
  intros (_ & _ & _ & _ & _ & Hs) [Eo Ev]. unfold take_all_pending. cbv zeta. cbn [rr_set_in_flight rr_set_ready rr_summary].
  unfold summary_is_empty. destruct (Z.eqb_spec (su_attempts (rr_summary r)) 0) as [H0|H0]; unfold held; cbn -[total mtotal];
    rewrite Eo, Ev, !mtotal_empty; change (total (weight c) []) with 0; change (total (gap_weight c) []) with 0.
  - specialize (Hs c). rewrite H0 in Hs. lia.
  - rewrite lookup_empty. cbn. lia.
Qed.
End at_rest.

(** C23: stopping the process loses no refusal.  From any reachable recorder, whatever the
    seal tasks answer, in whatever order they finish and wherever the budget cuts the
    drains, the flush leaves the recorder holding nothing; for every class the refusals
    noted over the recorder's life are exactly those in the records that left it and in
    the overflow that was logged; and each record or overflow entry that left during the
    flush was sealed or counted as a gap. *)
Theorem shutdown_loses_no_refusal (uuid : nat → string) `{!Inj (=) (=) uuid} project cfg t0 s noted gone over now utc inputs :
  rs_enabled cfg = true → recorder_run uuid cfg t0 (sc_refusals s) noted gone over →
  let '(sealed, s') := flush_refusals_on_shutdown uuid project now utc inputs s in
  ∃ gone' over', recorder_run uuid cfg t0 (sc_refusals s') noted (gone' ++ gone) (over' ++ over)
    ∧ (∀ c, held c (sc_refusals s') = 0
            ∧ total (noted_weight c) noted = total (weight c) (gone' ++ gone) + total (gap_weight c) (over' ++ over))
    ∧ Z.of_nat (length gone' + length over') = sealed + (sc_receipt_gaps s' - sc_receipt_gaps s).
Proof.
  intros Hen Hrun. unfold flush_refusals_on_shutdown.
  pose proof (advances_close_all uuid cfg t0 now utc s) as H1. pose proof (close_all_open uuid now utc (sc_refusals s)) as Ho.
  set (s1 := sc_on_refusals _ s) in *.
  pose proof (shutdown_drains_facts uuid project cfg t0 Hen REFUSAL_MAX_TRIES inputs 0 s1) as H2. cbv zeta in H2.
  pose proof (shutdown_drains_quiet uuid project REFUSAL_MAX_TRIES inputs 0 s1 ltac:(done) Ho) as Hq.
  destruct (shutdown_drains _ _ _ _ _ _) as [sealed s2]. cbn [fst snd] in *.
  pose proof (advances_take_all uuid cfg t0 utc s2) as H3.
  assert (H12 : advances uuid cfg t0 sealed s s2).
  { replace sealed with (0 + (sealed - 0)) by lia. by eapply advances_trans; [exact H1|]. }
  destruct (H12 _ _ _ Hrun) as (g1 & o1 & Hrun2 & _). destruct (run_facts uuid cfg t0 _ _ _ _ Hrun2 Hen) as (Hok2 & _ & _).
  pose proof (λ c, take_all_holds_nothing uuid c utc _ Hok2 Hq) as Hz. cbv zeta in H3.
  destruct (take_all_pending _ _ _) as [rest r]. cbn [fst snd] in *.
  set (s3 := foldl _ _ rest).
  assert (H : advances uuid cfg t0 sealed s s3).
  { replace sealed with (sealed + (Z.of_nat (length rest) + - Z.of_nat (length rest))) by lia.
    eapply advances_trans; [exact H12|]. eapply advances_trans; [exact H3|]. apply advances_gaps. intros a x. apply advances_gap. }
  destruct (H _ _ _ Hrun) as (gone' & over' & Hrun' & Hlen). exists gone', over'. split; [done|]. split; [|lia].
  intros c. assert (Hh : held c (sc_refusals s3) = 0).
  { rewrite <- (Hz c). unfold s3. rewrite gaps_keep_held; [done|]. intros a x. apply gap_keeps_flight. }
  split; [done|]. destruct (run_facts uuid cfg t0 _ _ _ _ Hrun' Hen) as (_ & _ & Hb). rewrite Hb. lia.
Qed.
