(* ===== verification/QueueJournal.v ===== *)
(** * The journal of the receipt queue

    Models the on-disk format of [src/src/storage/averin_queue.rs]: deltas, the frames that
    carry them sealed one by one, the reader of a segment, the replay of a delta, segment
    names and snapshots.  [serde_json] and the crypto crates are class fields. *)

From stdpp Require Import base gmap strings list pretty.
From Stdlib Require Import Ascii ZArith Lia.
From S2P Require Import Prelude RustStr BTree Json Egress Crypto Outbox Capability.

Open Scope Z_scope.

(** ** Deltas *)

(** [Delta]. *)
Inductive Delta :=
| D_Append (e : OutboxEvent)
| D_Lease (seq : Z) (until : option DateTime)
| D_Attempt (seq att : Z) (backoff_until attempted_at : DateTime) (error : option string)
| D_Delivered (seq : Z)
| D_DeadLetter (seq : Z)
| D_Prune (upto_seq : Z)
| D_Reclaimed (seq : Z)
| D_GrantResolved (token_id grant_id capability : string).

(** [ResolvedGrant], [QueueSnapshot], [SnapshotFile]. *)
Record ResolvedGrant := { rg_grant_id : string; rg_capability : string }.
Record QueueSnapshot := { qs_cache : OutboxCache; qs_resolved : gmap string ResolvedGrant }.
Record SnapshotFile := { sf_version : Z; sf_data : EncryptedData }.
Definition SNAPSHOT_FILE_VERSION : Z := 1.
Definition empty_queue : QueueSnapshot := {| qs_cache := {| outbox := []; outbox_seq := 0 |}; qs_resolved := ∅ |}.

(** [apply_delta]. *)
Definition on_outbox (f : BTreeMap Z OutboxEvent → BTreeMap Z OutboxEvent) (q : QueueSnapshot) : QueueSnapshot :=
  {| qs_cache := {| outbox := f (outbox (qs_cache q)); outbox_seq := outbox_seq (qs_cache q) |}; qs_resolved := qs_resolved q |}.
Definition apply_delta (q : QueueSnapshot) (d : Delta) : QueueSnapshot :=
  match d with
  | D_Append e =>
      {| qs_cache := {| outbox := bt_insert (sequence e) e (outbox (qs_cache q));
                        outbox_seq := Z.max (outbox_seq (qs_cache q)) (sequence e) |};
         qs_resolved := qs_resolved q |}
  | D_Lease seq until =>
      on_outbox (bt_alter (λ e, set_delivery (delivery e) (attempts e) until (last_attempt_at e) (last_error e) e) seq) q
  | D_Attempt seq att backoff_until attempted_at error =>
      on_outbox (bt_alter (λ e, set_delivery (delivery e) att (Some backoff_until) (Some attempted_at) error e) seq) q
  | D_Delivered seq =>
      on_outbox (bt_alter (λ e, set_delivery Delivered (attempts e) None (last_attempt_at e) None e) seq) q
  | D_DeadLetter seq =>
      on_outbox (bt_alter (λ e, set_delivery DeadLettered (attempts e) None (last_attempt_at e) (last_error e) e) seq) q
  | D_Prune upto => on_outbox (List.filter (λ e : Z * OutboxEvent, upto <? e.1)) q
  | D_Reclaimed seq => on_outbox (bt_remove seq) q
  | D_GrantResolved token grant capability =>
      {| qs_cache := qs_cache q;
         qs_resolved := <[token := {| rg_grant_id := grant; rg_capability := capability |}]> (qs_resolved q) |}
  end.
Definition apply_deltas (q : QueueSnapshot) (ds : list Delta) : QueueSnapshot := foldl apply_delta q ds.

(** ** Frames *)

Definition FRAME_MAGIC : bytes := as_bytes "AVQ1".
Definition FRAME_HEADER_LEN : nat := 12.

(** [u32::to_be_bytes], [u32::from_be_bytes]. *)
Definition u32_to_be (n : Z) : bytes :=
  (λ s, ascii_of_nat (Z.to_nat (Z.land (Z.shiftr n s) 255))) <$> [24; 16; 8; 0].
Definition u32_from_be (b : bytes) : Z := foldl (λ n c, n * 256 + Z.of_nat (nat_of_ascii c)) 0 b.

(** [crc32_ieee]. *)
Definition crc_bit (crc : Z) : Z :=
  Z.lxor (Z.shiftr crc 1) (if Z.testbit crc 0 then 0xEDB88320 else 0).
Definition crc32_ieee (b : bytes) : Z :=
  Z.lxor 0xFFFFFFFF
    (foldl (λ crc c, Nat.iter 8 crc_bit (Z.lxor crc (Z.of_nat (nat_of_ascii c)))) 0xFFFFFFFF b).

(** Errors, with the cause that the source renders. *)
Inductive QueueError :=
| QE_Serialization
| QE_Crypto (e : CryptoError)
| QE_FrameLimit
| QE_BadMagic (pos : nat)
| QE_BadLength (pos : nat)
| QE_BadRecord (pos : nat)
| QE_UnsupportedVersion (found : Z)
| QE_Io
| QE_Busy.

(** [serde_json] on deltas, sealed data, snapshots and snapshot files. *)
Class QueueSerde := {
  delta_to_vec : Delta → option bytes;
  delta_from_slice : bytes → option Delta;
  sealed_to_vec : EncryptedData → option bytes;
  sealed_from_slice : bytes → option EncryptedData;
  snapshot_to_vec : QueueSnapshot → option bytes;
  snapshot_from_slice : bytes → option QueueSnapshot;
  snapfile_to_string : SnapshotFile → option bytes;
  snapfile_from_str : bytes → option SnapshotFile;
}.
Class QueueSerdeLaws {QS : QueueSerde} : Prop := {
  delta_round_trip d b : delta_to_vec d = Some b → delta_from_slice b = Some d;
  sealed_round_trip d b : sealed_to_vec d = Some b → sealed_from_slice b = Some d;
  snapshot_round_trip s b : snapshot_to_vec s = Some b → snapshot_from_slice b = Some s;
  snapfile_round_trip f b : snapfile_to_string f = Some b → snapfile_from_str b = Some f;
}.

Section journal.
Context {SC : SealCrates} {QS : QueueSerde}.

(** [seal_delta]; the frame around a sealed body. *)
Definition frame_of (body : bytes) : bytes :=
  let len_bytes := u32_to_be (Z.of_nat (length body)) in
  FRAME_MAGIC ++ len_bytes ++ u32_to_be (crc32_ieee len_bytes) ++ body.
Definition seal_delta (nonce : Nonce) (d : Delta) (key : MasterKey) : result bytes QueueError :=
  match delta_to_vec d with
  | None => Err QE_Serialization
  | Some plaintext =>
      match encrypt nonce plaintext key with
      | Err e => Err (QE_Crypto e)
      | Ok sealed =>
          match sealed_to_vec sealed with
          | None => Err QE_Serialization
          | Some body => if u32_max <? Z.of_nat (length body) then Err QE_FrameLimit else Ok (frame_of body)
          end
      end
  end.

(** [parse_and_decrypt_delta]. *)
Definition parse_and_decrypt_delta (body : bytes) (key : MasterKey) : result Delta QueueError :=
  match sealed_from_slice body with
  | None => Err QE_Serialization
  | Some sealed =>
      match decrypt sealed key with
      | Err e => Err (QE_Crypto e)
      | Ok plaintext => from_option Ok (Err QE_Serialization) (delta_from_slice plaintext)
      end
  end.

(** [replay_segment]: [rest] is the buffer from [pos] on; a round of the loop consumes at
    least a header, so the length of the buffer is fuel enough. *)
Fixpoint replay_loop (fuel : nat) (key : MasterKey) (pos : nat) (rest : bytes) : result (list Delta) QueueError :=
  match fuel with
  | O => Ok []
  | S fuel' =>
      if Nat.ltb (length rest) FRAME_HEADER_LEN then Ok []
      else if negb (bool_decide (take 4 rest = FRAME_MAGIC)) then Err (QE_BadMagic pos)
      else
        let len_bytes := take 4 (drop 4 rest) in
        let len := Z.to_nat (u32_from_be len_bytes) in
        let claimed_crc := u32_from_be (take 4 (drop 8 rest)) in
        if negb (crc32_ieee len_bytes =? claimed_crc) then Err (QE_BadLength pos)
        else if Nat.ltb (length rest) (FRAME_HEADER_LEN + len) then Ok []
        else
          match parse_and_decrypt_delta (take len (drop FRAME_HEADER_LEN rest)) key with
          | Err _ => Err (QE_BadRecord pos)
          | Ok d =>
              match replay_loop fuel' key (pos + (FRAME_HEADER_LEN + len)) (drop (FRAME_HEADER_LEN + len) rest) with
              | Err e => Err e
              | Ok ds => Ok (d :: ds)
              end
          end
  end.
Definition replay_segment (buf : bytes) (key : MasterKey) : result (list Delta) QueueError :=
  replay_loop (S (length buf)) key 0 buf.

(** ** Segment names *)

(** [segment_name], [parse_segment_name]. *)
Definition pad20 (s : string) : string := String.string_of_list_ascii (replicate (20 - String.length s) "0"%char) +:+ s.
Definition segment_name (index : Z) (is_snapshot : bool) : string :=
  pad20 (pretty index) +:+ "." +:+ (if is_snapshot then "snapshot" else "delta").
Definition parse_segment_name (name : string) : option (Z * bool) :=
  match rsplit_once_char "."%char name with
  | None => None
  | Some (stem, ext) =>
      let kind := if String.eqb ext "snapshot" then Some true else if String.eqb ext "delta" then Some false else None in
      match kind, parse_usize stem with
      | Some k, Some index => Some (index, k)
      | _, _ => None
      end
  end.

(** ** Snapshots *)

(** The document [write_snapshot] writes, and [read_snapshot]. *)
Definition snapshot_content (nonce : Nonce) (key : MasterKey) (s : QueueSnapshot) : result bytes QueueError :=
  match snapshot_to_vec s with
  | None => Err QE_Serialization
  | Some data =>
      match encrypt nonce data key with
      | Err e => Err (QE_Crypto e)
      | Ok sealed =>
          from_option Ok (Err QE_Serialization) (snapfile_to_string {| sf_version := SNAPSHOT_FILE_VERSION; sf_data := sealed |})
      end
  end.
Definition read_snapshot (content : bytes) (key : MasterKey) : result QueueSnapshot QueueError :=
  match snapfile_from_str content with
  | None => Err QE_Serialization
  | Some f =>
      if SNAPSHOT_FILE_VERSION <? sf_version f then Err (QE_UnsupportedVersion (sf_version f))
      else
        match decrypt (sf_data f) key with
        | Err e => Err (QE_Crypto e)
        | Ok plaintext => from_option Ok (Err QE_Serialization) (snapshot_from_slice plaintext)
        end
  end.
End journal.
