(* ===== verification/QueueJournalFacts.v ===== *)
(** * Reading a segment back

    A segment is a run of whole frames and perhaps the beginning of one more.  Reading it
    gives the deltas of the whole frames, and cutting it anywhere gives a prefix of them. *)

From stdpp Require Import base gmap strings list.
From Stdlib Require Import Ascii ZArith Lia.
From S2P Require Import Prelude RustStr BTree Json Egress Crypto Outbox QueueJournal.

Open Scope Z_scope.

(** ** Machine words *)

Lemma nat_of_ascii_of_byte z : 0 <= z < 256 → Z.of_nat (nat_of_ascii (ascii_of_nat (Z.to_nat z))) = z.
Proof. intros H. rewrite nat_ascii_embedding by lia. lia. Qed.
Lemma u32_to_be_length n : length (u32_to_be n) = 4%nat.
Proof. done. Qed.
Lemma u32_round_trip n : 0 <= n <= u32_max → u32_from_be (u32_to_be n) = n.
Proof.
  intros H. unfold u32_max in H. unfold u32_from_be, u32_to_be. cbn [fmap list_fmap foldl].
  assert (Hb : ∀ s, 0 <= Z.land (Z.shiftr n s) 255 < 256).
  { intros s. change 255 with (Z.ones 8). rewrite Z.land_ones by lia. apply Z.mod_pos_bound. lia. }
  rewrite !nat_of_ascii_of_byte by apply Hb.
  assert (Hl : ∀ s, 0 <= s → Z.land (Z.shiftr n s) 255 = (n / 2 ^ s) mod 256).
  { intros s Hs. change 255 with (Z.ones 8). rewrite Z.land_ones, Z.shiftr_div_pow2 by lia. done. }
  rewrite !Hl by lia. change (2 ^ 24) with 16777216. change (2 ^ 16) with 65536. change (2 ^ 8) with 256. change (2 ^ 0) with 1.
  rewrite Z.div_1_r. Z.div_mod_to_equations. lia.
Qed.
Lemma lxor_range n a b : 0 <= n → 0 <= a < 2 ^ n → 0 <= b < 2 ^ n → 0 <= Z.lxor a b < 2 ^ n.
Proof.
  intros Hn Ha Hb. assert (Hnn : 0 <= Z.lxor a b) by (apply Z.lxor_nonneg; lia). split; [done|].
  destruct (Z.eq_dec (Z.lxor a b) 0) as [->|Hne]; [lia|].
  apply Z.log2_lt_pow2; [lia|]. eapply Z.le_lt_trans; [apply Z.log2_lxor; lia|].
  destruct (Z.eq_dec n 0) as [->|Hn0].
  { assert (a = 0) by lia. assert (b = 0) by lia. subst. by destruct Hne. }
  apply Z.max_lub_lt.
  - destruct (Z.eq_dec a 0) as [->|?]; [cbn; lia|]. apply Z.log2_lt_pow2; lia.
  - destruct (Z.eq_dec b 0) as [->|?]; [cbn; lia|]. apply Z.log2_lt_pow2; lia.
Qed.
Lemma crc_bit_range c : 0 <= c < 2 ^ 32 → 0 <= crc_bit c < 2 ^ 32.
Proof.
  intros H. unfold crc_bit. apply lxor_range; [lia| |by destruct (Z.testbit c 0)].
  rewrite Z.shiftr_div_pow2 by lia. change (2 ^ 1) with 2. Z.div_mod_to_equations. lia.
Qed.
Lemma crc32_range b : 0 <= crc32_ieee b <= u32_max.
Proof.
  unfold crc32_ieee. assert (H : ∀ c, 0 <= c < 2 ^ 32 →
    0 <= foldl (λ crc c, Nat.iter 8 crc_bit (Z.lxor crc (Z.of_nat (nat_of_ascii c)))) c b < 2 ^ 32).
  { induction b as [|x b IH]; intros c Hc; [done|]. cbn [foldl]. apply IH. cbn [Nat.iter nat_rect].
    do 8 apply crc_bit_range. apply lxor_range; [lia|done|]. pose proof (nat_ascii_bounded x). lia. }
  pose proof (lxor_range 32 0xFFFFFFFF _ ltac:(lia) ltac:(lia) (H 0xFFFFFFFF ltac:(lia))) as Hr. unfold u32_max. lia.
Qed.

(** ** Frames *)

Section frames.
Context {SC : SealCrates} {QS : QueueSerde} (key : MasterKey).

Lemma frame_length body : length (frame_of body) = (12 + length body)%nat.
Proof. unfold frame_of. rewrite !length_app. cbn. lia. Qed.
Lemma frame_header body rest :
  take 4 (frame_of body ++ rest) = FRAME_MAGIC
  ∧ take 4 (drop 4 (frame_of body ++ rest)) = u32_to_be (Z.of_nat (length body))
  ∧ take 4 (drop 8 (frame_of body ++ rest)) = u32_to_be (crc32_ieee (u32_to_be (Z.of_nat (length body))))
  ∧ drop 12 (frame_of body ++ rest) = body ++ rest.
Proof.
  unfold frame_of. cbv zeta. rewrite <- !app_assoc.
  assert (H : ∀ l2 l1 : bytes, length l2 = 4%nat → length l1 = 4%nat →
    take 4 (FRAME_MAGIC ++ l2 ++ l1 ++ body ++ rest) = FRAME_MAGIC
    ∧ take 4 (drop 4 (FRAME_MAGIC ++ l2 ++ l1 ++ body ++ rest)) = l2
    ∧ take 4 (drop 8 (FRAME_MAGIC ++ l2 ++ l1 ++ body ++ rest)) = l1
    ∧ drop 12 (FRAME_MAGIC ++ l2 ++ l1 ++ body ++ rest) = body ++ rest); [|by apply H].
  intros [|b1 [|b2 [|b3 [|b4 [|? ?]]]]] [|a1 [|a2 [|a3 [|a4 [|? ?]]]]] H2 H1; try discriminate. done.
Qed.

(** A body that fits a frame and opens to a delta. *)
Definition holds (body : bytes) (d : Delta) : Prop :=
  Z.of_nat (length body) <= u32_max ∧ parse_and_decrypt_delta body key = Ok d.

Lemma replay_whole fuel pos body d rest :
  holds body d →
  replay_loop (S fuel) key pos (frame_of body ++ rest)
  = match replay_loop fuel key (pos + (12 + length body)) rest with Err e => Err e | Ok ds => Ok (d :: ds) end.
Proof.
  intros [Hlen Hd]. destruct (frame_header body rest) as (H1 & H2 & H3 & H4). cbn [replay_loop].
  assert (Hl : length (frame_of body ++ rest) = (12 + length body + length rest)%nat)
    by (rewrite length_app, frame_length; done).
  rewrite H1, H2, H3, Hl. unfold FRAME_HEADER_LEN.
  rewrite (proj2 (Nat.ltb_ge _ _)) by lia. rewrite bool_decide_true by done. cbn [negb].
  rewrite !u32_round_trip by (try apply crc32_range; lia). rewrite Z.eqb_refl. cbn [negb]. rewrite Nat2Z.id.
  rewrite (proj2 (Nat.ltb_ge _ _)) by lia. rewrite H4, take_app_length, Hd.
  replace (drop (12 + length body) (frame_of body ++ rest)) with rest; [done|].
  rewrite <- frame_length, drop_app_length. done.
Qed.
Lemma replay_torn fuel pos body n :
  Z.of_nat (length body) <= u32_max → (n < length (frame_of body))%nat →
  replay_loop (S fuel) key pos (take n (frame_of body)) = Ok [].
Proof.
  intros Hlen Hn. cbn [replay_loop]. unfold FRAME_HEADER_LEN. rewrite length_take, Nat.min_l by lia.
  destruct (Nat.ltb_spec n 12) as [|Hge]; [done|].
  destruct (frame_header body []) as (H1 & H2 & H3 & H4). rewrite app_nil_r in *.
  rewrite frame_length in Hn.
  assert (T : ∀ k j, (k + j <= n)%nat → take k (drop j (take n (frame_of body))) = take k (drop j (frame_of body))).
  { intros k j Hk. rewrite !firstn_skipn_comm. rewrite take_take, Nat.min_l by lia. done. }
  rewrite (T 4%nat 4%nat), (T 4%nat 8%nat) by lia. rewrite take_take, Nat.min_l by lia. rewrite H1, H2, H3.
  rewrite bool_decide_true by done. cbn [negb]. rewrite !u32_round_trip by (try apply crc32_range; lia).
  rewrite Z.eqb_refl. cbn [negb]. rewrite Nat2Z.id. by rewrite (proj2 (Nat.ltb_lt _ _)) by lia.
Qed.

(** A record that the beginning of a longer one swallows. *)
Lemma replay_swallowed fuel pos body n x :
  Z.of_nat (length body) <= u32_max → (12 <= n)%nat → (n + length x < length (frame_of body))%nat →
  replay_loop (S fuel) key pos (take n (frame_of body) ++ x) = Ok [].
Proof.
  intros Hlen Hn Hx. cbn [replay_loop]. unfold FRAME_HEADER_LEN. rewrite length_app, length_take, Nat.min_l by lia.
  rewrite (proj2 (Nat.ltb_ge _ _)) by lia. destruct (frame_header body []) as (H1 & H2 & H3 & H4). rewrite app_nil_r in *.
  rewrite frame_length in Hx.
  assert (T : ∀ k j, (k + j <= 12)%nat → take k (drop j (take n (frame_of body) ++ x)) = take k (drop j (frame_of body))).
  { intros k j Hk. rewrite !firstn_skipn_comm, take_app_le by (rewrite length_take, frame_length; lia).
    rewrite take_take, Nat.min_l by lia. done. }
  change (take 4 (take n (frame_of body) ++ x)) with (take 4 (drop 0 (take n (frame_of body) ++ x))).
  rewrite (T 4%nat 0%nat), (T 4%nat 4%nat), (T 4%nat 8%nat) by lia. rewrite drop_0, H1, H2, H3.
  rewrite bool_decide_true by done. cbn [negb]. rewrite !u32_round_trip by (try apply crc32_range; lia).
  rewrite Z.eqb_refl. cbn [negb]. rewrite Nat2Z.id. by rewrite (proj2 (Nat.ltb_lt _ _)) by lia.
Qed.

(** ** Segments *)

Definition frames (bodies : list bytes) : bytes := concat (frame_of <$> bodies).
(** The beginning of a frame, possibly nothing. *)
Definition torn (t : bytes) : Prop :=
  ∃ body n, t = take n (frame_of body) ∧ (n < length (frame_of body))%nat ∧ Z.of_nat (length body) <= u32_max.
(** The bytes of a segment: the frames of [ds], and a torn tail. *)
Definition segment_of (b : bytes) (ds : list Delta) (bodies : list bytes) (t : bytes) : Prop :=
  b = frames bodies ++ t ∧ Forall2 holds bodies ds ∧ torn t.

Lemma torn_nil : torn [].
Proof. exists [], 0%nat. split_and!; [done|rewrite frame_length; lia|done]. Qed.
Lemma frames_app a b : frames (a ++ b) = frames a ++ frames b.
Proof. unfold frames. by rewrite fmap_app, concat_app. Qed.
Lemma frames_snoc bodies body : frames (bodies ++ [body]) = frames bodies ++ frame_of body.
Proof. rewrite frames_app. unfold frames at 2. cbn [fmap list_fmap concat]. by rewrite app_nil_r. Qed.
Lemma frames_cons body bodies : frames (body :: bodies) = frame_of body ++ frames bodies.
Proof. done. Qed.

Lemma replay_frames bodies ds rest :
  Forall2 holds bodies ds → (∀ fuel pos, replay_loop (S fuel) key pos rest = Ok []) →
  replay_segment (frames bodies ++ rest) key = Ok ds.
Proof.
  intros HF Hr. unfold replay_segment.
  assert (H : ∀ fuel pos, (length (frames bodies ++ rest) < fuel)%nat → replay_loop fuel key pos (frames bodies ++ rest) = Ok ds); [|apply H; lia].
  induction HF as [|body' d bodies ds Hh HF IH]; intros fuel pos Hf; (destruct fuel as [|fuel]; [lia|]); [apply Hr|].
  rewrite frames_cons, <- app_assoc. rewrite (replay_whole fuel pos body' d _ Hh).
  rewrite frames_cons, <- app_assoc, length_app, frame_length in Hf. rewrite IH by lia. done.
Qed.
Lemma replay_segment_of b ds bodies t : segment_of b ds bodies t → replay_segment b key = Ok ds.
Proof. intros (-> & HF & (body & n & -> & Hn & Hlen)). apply replay_frames; [done|]. intros. by apply replay_torn. Qed.

(** Cutting a segment. *)
Lemma segment_cut b ds bodies t n :
  segment_of b ds bodies t → (n <= length b)%nat →
  ∃ j t', segment_of (take n b) (take j ds) (take j bodies) t' ∧ (j <= length ds)%nat
    ∧ ∀ k, (length (frames (take k bodies)) <= n)%nat → (k <= length bodies)%nat → (k <= j)%nat.
Proof.
  intros (-> & HF & Ht). revert n. induction HF as [|body d bodies ds Hh HF IH]; intros n Hn.
  - exists 0%nat, (take n t). cbn in Hn |- *. split_and!; [|done|intros; lia]. split_and!; [done|constructor|].
    destruct Ht as (body & m & -> & Hm & Hlen). exists body, (Nat.min n m). rewrite take_take. split_and!; [done|lia|done].
  - rewrite frames_cons, <- app_assoc in Hn |- *. destruct (Nat.lt_ge_cases n (length (frame_of body))) as [Hlt|Hge].
    + exists 0%nat, (take n (frame_of body)). rewrite take_app_le by lia. split_and!; [|lia|].
      * split_and!; [done|constructor|]. exists body, n. split_and!; [done|done|apply Hh].
      * intros [|k] Hk _; [lia|]. cbn [take] in Hk. rewrite frames_cons, length_app in Hk. lia.
    + rewrite length_app in Hn. destruct (IH (n - length (frame_of body))%nat ltac:(lia)) as (j & t' & (H1 & H2 & H3) & H4 & H5).
      exists (S j), t'. rewrite take_app_ge by done. cbn [take]. split_and!.
      * split_and!; [by rewrite frames_cons, <- app_assoc, <- H1|by constructor|done].
      * cbn. lia.
      * intros [|k] Hk Hkl; [lia|]. cbn [take] in Hk. rewrite frames_cons, length_app in Hk. cbn in Hkl.
        apply le_n_S, H5; lia.
Qed.

Context {SL : SealLaws} {QL : QueueSerdeLaws}.

(** What [seal_delta] makes is a frame that holds the delta. *)
Lemma seal_holds nonce d frame :
  seal_delta nonce d key = Ok frame → ∃ body, frame = frame_of body ∧ holds body d.
Proof.
  unfold seal_delta. destruct (delta_to_vec d) as [p|] eqn:E1; [|done].
  destruct (encrypt nonce p key) as [sealed|] eqn:E2; [|done].
  destruct (sealed_to_vec sealed) as [body|] eqn:E3; [|done].
  destruct (Z.ltb_spec u32_max (Z.of_nat (length body))); [done|]. intros [= <-]. exists body. split; [done|].
  split; [done|]. unfold parse_and_decrypt_delta. rewrite (sealed_round_trip _ _ E3).
  rewrite (decrypt_encrypt _ _ _ _ E2), (delta_round_trip _ _ E1). done.
Qed.
Lemma snapshot_reads_back nonce s content :
  snapshot_content nonce key s = Ok content → read_snapshot content key = Ok s.
Proof.
  unfold snapshot_content. destruct (snapshot_to_vec s) as [data|] eqn:E1; [|done].
  destruct (encrypt nonce data key) as [sealed|] eqn:E2; [|done].
  destruct (snapfile_to_string _) as [c|] eqn:E3; [|done]. intros [= <-]. unfold read_snapshot.
  rewrite (snapfile_round_trip _ _ E3). cbn. by rewrite (decrypt_encrypt _ _ _ _ E2), (snapshot_round_trip _ _ E1).
Qed.
End frames.
