(* ===== verification/AverinQueue.v ===== *)
(** * The receipt queue

    Models [AverinQueue] of [src/src/storage/averin_queue.rs]: the writer thread with its
    batches and segments, the queue's operations, opening and compaction.

    Every call to the file system consumes one [Io] answer, so a write may fail, fall short
    or be lost.  An append runs outside the lock of the queue's memory: reserving its
    sequence, handing its frame to the writer and learning the result are separate steps.
    An operation that holds the lock while its frame is committed meets, in the same batch,
    the appends that were queued or arrive meanwhile ([CommitInput]).  The lock of the
    owning process and the bounded wait for in-flight appends are taken as their outcomes. *)

From stdpp Require Import base gmap strings list.
From Stdlib Require Import Ascii ZArith Lia.
From S2P Require Import Prelude RustStr BTree Json Egress Crypto Outbox QueueJournal.

Open Scope Z_scope.

(** ** Files *)

(** A delta segment with the length that was last synced; the directory. *)
Record SegmentData := { sg_bytes : bytes; sg_synced : nat }.
Record QueueDir := { qd_deltas : BTreeMap Z SegmentData; qd_snapshots : BTreeMap Z bytes }.
Definition set_deltas (m : BTreeMap Z SegmentData) (d : QueueDir) : QueueDir :=
  {| qd_deltas := m; qd_snapshots := qd_snapshots d |}.
Definition on_segment (f : SegmentData → SegmentData) (k : Z) (d : QueueDir) : QueueDir :=
  set_deltas (bt_alter f k (qd_deltas d)) d.

(** The answer of one file-system call; a short write takes some of the bytes. *)
Inductive Io := IO_Ok | IO_Err | IO_Short (n : nat).

(** ** The writer *)

Definition SEGMENT_ROLL_BYTES : Z := 8 * 1024 * 1024.

(** [SegmentWriter] and the state of a batch: the directory, the current segment, the
    [dirty_since_fsync] flag and the answers to come. *)
Record BatchState := { bs_dir : QueueDir; bs_index : Z; bs_size : Z; bs_dirty : bool; bs_io : list Io }.
Definition next_io (s : BatchState) : Io * BatchState :=
  match bs_io s with
  | [] => (IO_Ok, s)
  | a :: rest => (a, {| bs_dir := bs_dir s; bs_index := bs_index s; bs_size := bs_size s; bs_dirty := bs_dirty s; bs_io := rest |})
  end.
Definition set_batch_dir (d : QueueDir) (s : BatchState) : BatchState :=
  {| bs_dir := d; bs_index := bs_index s; bs_size := bs_size s; bs_dirty := bs_dirty s; bs_io := bs_io s |}.

(** [sync_all] of the current segment. *)
Definition sync_segment (s : BatchState) : bool * BatchState :=
  let '(a, s) := next_io s in
  match a with
  | IO_Ok =>
      (true, {| bs_dir := on_segment (λ g, {| sg_bytes := sg_bytes g; sg_synced := length (sg_bytes g) |}) (bs_index s) (bs_dir s);
                bs_index := bs_index s; bs_size := bs_size s; bs_dirty := false; bs_io := bs_io s |})
  | _ => (false, s)
  end.

(** [SegmentWriter::create] of the next segment, the switch to it and the sync of the
    directory, whose failure leaves the writer on the new segment. *)
Definition next_segment (s : BatchState) : bool * BatchState :=
  let '(a, s) := next_io s in
  match a with
  | IO_Ok =>
      let index := bs_index s + 1 in
      let d := set_deltas (bt_insert index {| sg_bytes := []; sg_synced := 0 |} (qd_deltas (bs_dir s))) (bs_dir s) in
      let s := {| bs_dir := d; bs_index := index; bs_size := 0; bs_dirty := bs_dirty s; bs_io := bs_io s |} in
      let '(a, s) := next_io s in
      (match a with IO_Ok => true | _ => false end, s)
  | _ => (false, s)
  end.

(** [write_and_maybe_roll], [force_roll]. *)
Definition append_bytes (b : bytes) (s : BatchState) : BatchState :=
  set_batch_dir (on_segment (λ g, {| sg_bytes := sg_bytes g ++ b; sg_synced := sg_synced g |}) (bs_index s) (bs_dir s)) s.
Definition write_and_maybe_roll (frame : bytes) (s : BatchState) : bool * BatchState :=
  let '(a, s) := next_io s in
  match a with
  | IO_Err => (false, s)
  | IO_Short n => (false, append_bytes (take (Nat.min n (length frame - 1)) frame) s)
  | IO_Ok =>
      let s := append_bytes frame s in
      let s := {| bs_dir := bs_dir s; bs_index := bs_index s; bs_size := bs_size s + Z.of_nat (length frame);
                  bs_dirty := true; bs_io := bs_io s |} in
      if SEGMENT_ROLL_BYTES <=? bs_size s
      then let '(ok, s) := sync_segment s in if ok then next_segment s else (false, s)
      else (true, s)
  end.
Definition force_roll (s : BatchState) : bool * BatchState :=
  let '(ok, s) := if bs_dirty s then sync_segment s else (true, s) in
  if ok then next_segment s else (false, s).

(** [WriteJob]; the loop of [run_batch] over the jobs, which does no more after a failure. *)
Inductive WriteJob := WJ_Data (frame : bytes) | WJ_Roll.
Fixpoint run_jobs (jobs : list WriteJob) (s : BatchState) : bool * BatchState :=
  match jobs with
  | [] => (true, s)
  | j :: rest =>
      let '(ok, s) := match j with WJ_Data frame => write_and_maybe_roll frame s | WJ_Roll => force_roll s end in
      if ok then run_jobs rest s else (false, s)
  end.

(** [run_batch]: one outcome for every job of the batch, the index of the segment the
    batch ended on. *)
Definition run_batch (jobs : list WriteJob) (s : BatchState) : option Z * BatchState :=
  let s := {| bs_dir := bs_dir s; bs_index := bs_index s; bs_size := bs_size s; bs_dirty := false; bs_io := bs_io s |} in
  let '(ok, s) := run_jobs jobs s in
  let '(ok, s) := if ok && bs_dirty s then sync_segment s else (ok, s) in
  (if ok then Some (bs_index s) else None, s).

(** ** The queue *)

(** [QueueMemory]; the queue, with the appends on their way: reserved but not handed over,
    waiting for the writer, and finished without having heard of it.  [aq_staged] holds the
    snapshots that a compaction has captured and not yet written. *)
Record QueueMemory := { qm_state : QueueSnapshot; qm_committing : list Z }.
Record AverinQueue := {
  aq_mem : QueueMemory;
  aq_dir : QueueDir;
  aq_index : Z;
  aq_size : Z;
  aq_reserved : list OutboxEvent;
  aq_jobs : list (OutboxEvent * bytes);
  aq_results : list (OutboxEvent * bool);
  aq_staged : list (Z * QueueSnapshot);
}.
Definition aq_outbox (q : AverinQueue) : BTreeMap Z OutboxEvent := outbox (qs_cache (qm_state (aq_mem q))).
Definition set_mem (m : QueueMemory) (q : AverinQueue) : AverinQueue :=
  {| aq_mem := m; aq_dir := aq_dir q; aq_index := aq_index q; aq_size := aq_size q; aq_reserved := aq_reserved q;
     aq_jobs := aq_jobs q; aq_results := aq_results q; aq_staged := aq_staged q |}.
Definition on_state (f : QueueSnapshot → QueueSnapshot) (q : AverinQueue) : AverinQueue :=
  set_mem {| qm_state := f (qm_state (aq_mem q)); qm_committing := qm_committing (aq_mem q) |} q.
Definition set_appends (reserved : list OutboxEvent) (jobs : list (OutboxEvent * bytes)) (results : list (OutboxEvent * bool))
    (q : AverinQueue) : AverinQueue :=
  {| aq_mem := aq_mem q; aq_dir := aq_dir q; aq_index := aq_index q; aq_size := aq_size q; aq_reserved := reserved;
     aq_jobs := jobs; aq_results := results; aq_staged := aq_staged q |}.
Definition set_staged (st : list (Z * QueueSnapshot)) (q : AverinQueue) : AverinQueue :=
  {| aq_mem := aq_mem q; aq_dir := aq_dir q; aq_index := aq_index q; aq_size := aq_size q; aq_reserved := aq_reserved q;
     aq_jobs := aq_jobs q; aq_results := aq_results q; aq_staged := st |}.
Definition set_dir (d : QueueDir) (q : AverinQueue) : AverinQueue :=
  {| aq_mem := aq_mem q; aq_dir := d; aq_index := aq_index q; aq_size := aq_size q; aq_reserved := aq_reserved q;
     aq_jobs := aq_jobs q; aq_results := aq_results q; aq_staged := aq_staged q |}.

(** The first element that satisfies a test, and the others. *)
Fixpoint take_first {A} (f : A → bool) (l : list A) : option (A * list A) :=
  match l with
  | [] => None
  | x :: l' => if f x then Some (x, l') else (λ r, (r.1, x :: r.2)) <$> take_first f l'
  end.

Section queue.
Context {SC : SealCrates} {QS : QueueSerde} (key : MasterKey).

(** ** Appending *)

(** [reserve_for_append]. *)
Definition reserve_for_append (now : DateTime) (subj ty : string) (body : Value) (q : AverinQueue) : OutboxEvent * AverinQueue :=
  let st := qm_state (aq_mem q) in
  let '(seq, cache) := push_event now (qs_cache st) subj ty body None in
  let e := {| sequence := seq; subject := subj; event_type := ty; payload := body; created_at := now; delivery := Pending;
              attempts := 0; leased_until := None; last_attempt_at := None; last_error := None; dedup_id := None |} in
  (e, set_appends (aq_reserved q ++ [e]) (aq_jobs q) (aq_results q)
        (set_mem {| qm_state := {| qs_cache := cache; qs_resolved := qs_resolved st |};
                    qm_committing := seq :: qm_committing (aq_mem q) |} q)).

(** The first half of [finish_append]: the event is sealed and its frame joins the
    writer's queue; a failed seal is a failed commit. *)
Definition hand_over (q : AverinQueue) (a : Z * Nonce) : AverinQueue :=
  match take_first (λ e, sequence e =? a.1) (aq_reserved q) with
  | None => q
  | Some (e, rest) =>
      match seal_delta a.2 (D_Append e) key with
      | Err _ => set_appends rest (aq_jobs q) (aq_results q ++ [(e, false)]) q
      | Ok frame => set_appends rest (aq_jobs q ++ [(e, frame)]) (aq_results q) q
      end
  end.

(** A batch of the writer: the waiting appends before and after the job of an operation. *)
Definition write_batch (before : list (OutboxEvent * bytes)) (own : list WriteJob) (after : list (OutboxEvent * bytes))
    (io : list Io) (q : AverinQueue) : option Z * AverinQueue :=
  let jobs := ((λ j, WJ_Data j.2) <$> before) ++ own ++ ((λ j, WJ_Data j.2) <$> after) in
  let '(res, s) := run_batch jobs {| bs_dir := aq_dir q; bs_index := aq_index q; bs_size := aq_size q; bs_dirty := false; bs_io := io |} in
  let ok := bool_decide (is_Some res) in
  (res, {| aq_mem := aq_mem q; aq_dir := bs_dir s; aq_index := bs_index s; aq_size := bs_size s; aq_reserved := aq_reserved q;
           aq_jobs := []; aq_results := aq_results q ++ ((λ j, (j.1, ok)) <$> before ++ after); aq_staged := aq_staged q |}).

(** The writer thread takes what waits. *)
Definition writer_runs (io : list Io) (q : AverinQueue) : AverinQueue := (write_batch (aq_jobs q) [] [] io q).2.

(** The second half of [finish_append]: [publish_committed] or [abort_committing]. *)
Definition drop_committing (seq : Z) (l : list Z) : list Z := List.filter (λ s, negb (s =? seq)) l.
Definition publish_committed (seq : Z) (q : AverinQueue) : AverinQueue :=
  set_mem {| qm_state := qm_state (aq_mem q); qm_committing := drop_committing seq (qm_committing (aq_mem q)) |} q.
Definition abort_committing (seq : Z) (q : AverinQueue) : AverinQueue :=
  set_mem {| qm_state := on_outbox (bt_remove seq) (qm_state (aq_mem q));
             qm_committing := drop_committing seq (qm_committing (aq_mem q)) |} q.
Definition finish_append (seq : Z) (q : AverinQueue) : option bool * AverinQueue :=
  match take_first (λ r : OutboxEvent * bool, sequence r.1 =? seq) (aq_results q) with
  | Some ((e, ok), rest) =>
      let q := set_appends (aq_reserved q) (aq_jobs q) rest q in
      (Some ok, if ok then publish_committed seq q else abort_committing seq q)
  | None => (None, q)
  end.

(** ** Operations under the lock *)

(** What happens around a commit made under the lock: the appends that are handed over
    before and after its frame, the nonce of the frame, the answers of the file system. *)
Record CommitInput := { ci_before : list (Z * Nonce); ci_after : list (Z * Nonce); ci_nonce : Nonce; ci_io : list Io }.
Definition commit_delta (d : Delta) (i : CommitInput) (q : AverinQueue) : result unit QueueError * AverinQueue :=
  match seal_delta (ci_nonce i) d key with
  | Err e => (Err e, q)
  | Ok frame =>
      let q := foldl hand_over q (ci_before i) in
      let n := length (aq_jobs q) in
      let q := foldl hand_over q (ci_after i) in
      let '(res, q) := write_batch (take n (aq_jobs q)) [WJ_Data frame] (drop n (aq_jobs q)) (ci_io i) q in
      (match res with Some _ => Ok tt | None => Err QE_Io end, q)
  end.

(** [earliest_pending_per_subject_skipping_committing]. *)
Fixpoint earliest_skipping (committing : list Z) (limit : nat) (respect_lease : bool) (now : DateTime)
    (seen : list string) (n : nat) (es : list (Z * OutboxEvent)) : list OutboxEvent :=
  match es with
  | [] => []
  | (seq, e) :: es' =>
      if bool_decide (seq ∈ committing) then earliest_skipping committing limit respect_lease now (subject e :: seen) n es'
      else if negb (bool_decide (delivery e = Pending)) then earliest_skipping committing limit respect_lease now seen n es'
      else if bool_decide (subject e ∈ seen) then earliest_skipping committing limit respect_lease now seen n es'
      else if respect_lease && leased now e
      then earliest_skipping committing limit respect_lease now (subject e :: seen) n es'
      else if (limit <=? S n)%nat then [e]
      else e :: earliest_skipping committing limit respect_lease now (subject e :: seen) (S n) es'
  end.
Definition earliest_pending_skipping_committing (m : BTreeMap Z OutboxEvent) (committing : list Z) (limit : nat)
    (respect_lease : bool) (now : DateTime) : list OutboxEvent :=
  match committing with
  | [] => earliest_pending_per_subject m limit respect_lease now
  | _ => earliest_skipping committing limit respect_lease now [] 0 m
  end.

(** [claim]: a lease is committed for each event; a failed commit takes back the leases of
    this call. *)
Definition stamp (until : option DateTime) (seq : Z) (q : AverinQueue) : AverinQueue :=
  on_state (on_outbox (bt_alter (λ e, set_delivery (delivery e) (attempts e) until (last_attempt_at e) (last_error e) e) seq)) q.
Fixpoint claim_loop (until : DateTime) (previous : list (Z * option DateTime)) (es : list OutboxEvent)
    (inputs : nat → CommitInput) (q : AverinQueue) : result unit QueueError * AverinQueue :=
  match es with
  | [] => (Ok tt, q)
  | e :: es' =>
      let d := D_Lease (sequence e) (Some until) in
      let i := inputs (length es') in
      match seal_delta (ci_nonce i) d key with
      | Err err => (Err err, q)
      | Ok _ =>
          let '(r, q) := commit_delta d i q in
          match r with
          | Err err => (Err err, foldl (λ q p, stamp p.2 p.1 q) q previous)
          | Ok _ => claim_loop until (previous ++ [(sequence e, leased_until e)]) es' inputs (stamp (Some until) (sequence e) q)
          end
      end
  end.
Definition queue_claim (limit : nat) (lease_secs : Z) (now : DateTime) (inputs : nat → CommitInput) (q : AverinQueue)
    : result (list OutboxEvent) QueueError * AverinQueue :=
  let claimed := earliest_pending_skipping_committing (aq_outbox q) (qm_committing (aq_mem q)) limit true now in
  let until := lease_until now lease_secs in
  let '(r, q) := claim_loop until [] claimed inputs q in
  (match r with Ok _ => Ok (set_lease until <$> claimed) | Err e => Err e end, q).

(** [record_delivery]. *)
Definition outcome_delta (seq : Z) (after : OutboxEvent) : Delta :=
  match delivery after with
  | Delivered => D_Delivered seq
  | DeadLettered => D_DeadLetter seq
  | Pending => D_Attempt seq (attempts after) (default 0 (leased_until after)) (default 0 (last_attempt_at after))
                 (last_error after)
  end.
Definition queue_record_delivery (seq : Z) (success : bool) (error : option string) (max_attempts : Z) (now now' : DateTime)
    (i : CommitInput) (q : AverinQueue) : result bool QueueError * AverinQueue :=
  if bool_decide (seq ∈ qm_committing (aq_mem q)) then (Ok false, q)
  else
    match bt_get (aq_outbox q) seq with
    | None => (Ok false, q)
    | Some before =>
        if negb (bool_decide (delivery before = Pending)) then (Ok false, q)
        else
          let '((dead_lettered, _), m) := record_delivery_transition now now' (aq_outbox q) seq success error max_attempts in
          let q := on_state (on_outbox (λ _, m)) q in
          match bt_get m seq with
          | None => (Err QE_Io, q)
          | Some after =>
              let '(r, q) := commit_delta (outcome_delta seq after) i q in
              match r with
              | Ok _ => (Ok dead_lettered, q)
              | Err e => (Err e, on_state (on_outbox (bt_insert seq before)) q)
              end
          end
    end.

(** [deliverable], [resolve_grant], [resolved_grant]. *)
Definition queue_deliverable (limit : nat) (now : DateTime) (q : AverinQueue) : list OutboxEvent :=
  earliest_pending_skipping_committing (aq_outbox q) (qm_committing (aq_mem q)) limit false now.
Definition resolve_grant (token_id grant_id capability : string) (i : CommitInput) (q : AverinQueue)
    : result unit QueueError * AverinQueue :=
  let '(r, q) := commit_delta (D_GrantResolved token_id grant_id capability) i q in
  match r with
  | Err e => (Err e, q)
  | Ok _ => (Ok tt, on_state (λ s, apply_delta s (D_GrantResolved token_id grant_id capability)) q)
  end.
Definition resolved_grant (token_id : string) (q : AverinQueue) : option (string * string) :=
  (λ g, (rg_grant_id g, rg_capability g)) <$> qs_resolved (qm_state (aq_mem q)) !! token_id.

(** ** Collection *)

(** [compact] up to the captured snapshot; while appends are in flight the pass is
    skipped. *)
Definition compact (io : list Io) (q : AverinQueue) : result unit QueueError * AverinQueue :=
  match qm_committing (aq_mem q) with
  | _ :: _ => (Ok tt, q)
  | [] =>
      let '(res, q) := write_batch (aq_jobs q) [WJ_Roll] [] io q in
      match res with
      | None => (Err QE_Io, q)
      | Some new_index => (Ok tt, set_staged ((new_index - 1, qm_state (aq_mem q)) :: aq_staged q) q)
      end
  end.

(** The rest of [compact], without the lock: [write_snapshot] of a captured one, which may
    fail before or after its rename, then the removal of what it supersedes; a removal may
    fail. *)
Inductive SnapshotWrite := SW_Failed | SW_Renamed | SW_Durable.
Definition superseded (index : Z) (kept : Z → bool → bool) (d : QueueDir) : QueueDir :=
  {| qd_deltas := List.filter (λ e : Z * SegmentData, (index <? e.1) || kept e.1 false) (qd_deltas d);
     qd_snapshots := List.filter (λ e : Z * bytes, (index <=? e.1) || kept e.1 true) (qd_snapshots d) |}.
Definition finish_compact (index : Z) (nonce : Nonce) (w : SnapshotWrite) (kept : Z → bool → bool) (q : AverinQueue)
    : result unit QueueError * AverinQueue :=
  match take_first (λ s : Z * QueueSnapshot, s.1 =? index) (aq_staged q) with
  | Some ((_, snap), rest) =>
      let q := set_staged rest q in
      match snapshot_content nonce key snap with
      | Err e => (Err e, q)
      | Ok content =>
          let written := {| qd_deltas := qd_deltas (aq_dir q); qd_snapshots := bt_insert index content (qd_snapshots (aq_dir q)) |} in
          match w with
          | SW_Failed => (Err QE_Io, q)
          | SW_Renamed => (Err QE_Io, set_dir written q)
          | SW_Durable => (Ok tt, set_dir (superseded index kept written) q)
          end
      end
  | None => (Ok tt, q)
  end.

(** [prune_delivered_prefix], [stuck_undelivered_count], [reclaim_dead_letter]. *)
Fixpoint delivered_prefix (cutoff : DateTime) (m : BTreeMap Z OutboxEvent) : option Z :=
  match m with
  | (seq, e) :: rest =>
      if (created_at e <? cutoff) && bool_decide (delivery e = Delivered)
      then Some (default seq (delivered_prefix cutoff rest)) else None
  | [] => None
  end.
Definition prune_delivered_prefix (retention_secs : Z) (now : DateTime) (i : CommitInput) (q : AverinQueue)
    : result nat QueueError * AverinQueue :=
  match gc_cutoff now retention_secs with
  | None => (Ok 0%nat, q)
  | Some cutoff =>
      match qm_committing (aq_mem q) with
      | _ :: _ => (Ok 0%nat, q)
      | [] =>
          match delivered_prefix cutoff (aq_outbox q) with
          | None => (Ok 0%nat, q)
          | Some upto =>
              let '(r, q) := commit_delta (D_Prune upto) i q in
              match r with
              | Err e => (Err e, q)
              | Ok _ =>
                  let q' := on_state (λ s, apply_delta s (D_Prune upto)) q in
                  (Ok (length (aq_outbox q) - length (aq_outbox q'))%nat, q')
              end
          end
      end
  end.
Definition stuck_undelivered_count (retention_secs : Z) (now : DateTime) (q : AverinQueue) : nat :=
  match gc_cutoff now retention_secs with
  | None => 0%nat
  | Some cutoff =>
      length (List.filter (λ e, (created_at e <? cutoff) && negb (bool_decide (delivery e = Delivered))) (bt_values (aq_outbox q)))
  end.
Definition reclaim_dead_letter (seq : Z) (i : CommitInput) (q : AverinQueue) : result unit QueueError * AverinQueue :=
  match bt_get (aq_outbox q) seq with
  | Some e =>
      if bool_decide (delivery e = DeadLettered)
      then
        let '(r, q) := commit_delta (D_Reclaimed seq) i q in
        match r with
        | Err err => (Err err, q)
        | Ok _ => (Ok tt, on_state (λ s, apply_delta s (D_Reclaimed seq)) q)
        end
      else (Ok tt, q)
  | None => (Ok tt, q)
  end.

(** [get], [has_pending_for_subject], [dead_lettered_events]. *)
Definition queue_get (seq : Z) (q : AverinQueue) : option OutboxEvent := bt_get (aq_outbox q) seq.
Definition has_pending_for_subject (subj : string) (q : AverinQueue) : bool :=
  existsb (λ e, String.eqb (subject e) subj && bool_decide (delivery e = Pending)) (bt_values (aq_outbox q)).
Definition dead_lettered_events (q : AverinQueue) : list OutboxEvent :=
  List.filter (λ e, bool_decide (delivery e = DeadLettered)) (bt_values (aq_outbox q)).

(** ** Opening *)

(** [open], when the owner lock is free. *)
Fixpoint replay_segments (base_index : Z) (segs : BTreeMap Z SegmentData) (st : QueueSnapshot)
    : result QueueSnapshot QueueError :=
  match segs with
  | [] => Ok st
  | (index, g) :: rest =>
      if index <=? base_index then replay_segments base_index rest st
      else
        match replay_segment (sg_bytes g) key with
        | Err e => Err e
        | Ok ds => replay_segments base_index rest (apply_deltas st ds)
        end
  end.
Definition cleaned (base_index : Z) (kept : Z → bool → bool) (d : QueueDir) : QueueDir :=
  {| qd_deltas := List.filter (λ e : Z * SegmentData, (base_index <=? e.1) || kept e.1 false) (qd_deltas d);
     qd_snapshots := List.filter (λ e : Z * bytes, (base_index <=? e.1) || kept e.1 true) (qd_snapshots d) |}.
Definition replay_base (d : QueueDir) : result (Z * QueueSnapshot) QueueError :=
  match last (qd_snapshots d) with
  | None => Ok (0, empty_queue)
  | Some (index, content) =>
      match read_snapshot content key with Err e => Err e | Ok st => Ok (index, st) end
  end.
Definition queue_open (kept : Z → bool → bool) (io : list Io) (d : QueueDir) : result AverinQueue QueueError * QueueDir :=
  match replay_base d with
  | Err e => (Err e, d)
  | Ok (base_index, st0) =>
      match replay_segments base_index (qd_deltas d) st0 with
      | Err e => (Err e, d)
      | Ok st =>
          let max_index := foldl Z.max base_index (bt_keys (qd_deltas d)) in
          let '(ok, s) := next_segment {| bs_dir := cleaned base_index kept d; bs_index := max_index; bs_size := 0;
                                          bs_dirty := false; bs_io := io |} in
          (if ok
           then Ok {| aq_mem := {| qm_state := st; qm_committing := [] |}; aq_dir := bs_dir s; aq_index := bs_index s; aq_size := 0;
                      aq_reserved := []; aq_jobs := []; aq_results := []; aq_staged := [] |}
           else Err QE_Io, bs_dir s)
      end
  end.
End queue.
