(* ===== verification/QueueWriterFacts.v ===== *)
(** * What the writer leaves on disk

    The ghost of a directory lists, for every segment, the deltas written to it and how
    many of them are synced.  A crash keeps of each segment at least the synced ones; a
    batch that is reported as committed is among what every crash keeps. *)

From stdpp Require Import base gmap strings list.
From Stdlib Require Import Ascii ZArith Lia.
From S2P Require Import Prelude RustStr BTree Json Egress Crypto Outbox QueueJournal QueueJournalFacts AverinQueue.

Open Scope Z_scope.

(** ** Ghosts *)

Record SegGhost := { gh_index : Z; gh_deltas : list Delta; gh_synced : nat }.
Definition Ghost : Type := list SegGhost.

(** The deltas of the segments above [b] that a crash may leave. *)
Fixpoint survivors (b : Z) (G : Ghost) (J : list Delta) : Prop :=
  match G with
  | [] => J = []
  | g :: G' =>
      if gh_index g <=? b then survivors b G' J
      else ∃ j J', (gh_synced g <= j <= length (gh_deltas g))%nat ∧ J = take j (gh_deltas g) ++ J' ∧ survivors b G' J'
  end.

Lemma survivors_app b G1 G2 J :
  survivors b (G1 ++ G2) J ↔ ∃ J1 J2, J = J1 ++ J2 ∧ survivors b G1 J1 ∧ survivors b G2 J2.
Proof.
  revert J. induction G1 as [|g G1 IH]; intros J; cbn [app survivors].
  { split; [intros H; by exists [], J|intros (J1 & J2 & -> & -> & H); done]. }
  destruct (gh_index g <=? b); [apply IH|]. setoid_rewrite IH. split.
  - intros (j & J' & Hj & -> & J1 & J2 & -> & H1 & H2). exists (take j (gh_deltas g) ++ J1), J2.
    split_and!; [by rewrite app_assoc|by exists j, J1|done].
  - intros (J1 & J2 & -> & (j & J' & Hj & -> & H1) & H2). exists j, (J' ++ J2).
    split; [done|]. split; [by rewrite <- app_assoc|]. by exists J', J2.
Qed.

(** ** Ghost steps *)

Definition gadd (d : Delta) (g : SegGhost) : SegGhost :=
  {| gh_index := gh_index g; gh_deltas := gh_deltas g ++ [d]; gh_synced := gh_synced g |}.
Definition gsync (g : SegGhost) : SegGhost :=
  {| gh_index := gh_index g; gh_deltas := gh_deltas g; gh_synced := length (gh_deltas g) |}.
Definition gnew (i : Z) : SegGhost := {| gh_index := i; gh_deltas := []; gh_synced := 0 |}.

Lemma survivors_last b g J :
  b < gh_index g → survivors b [g] J ↔ ∃ j, (gh_synced g <= j <= length (gh_deltas g))%nat ∧ J = take j (gh_deltas g).
Proof.
  intros Hb. cbn. rewrite (proj2 (Z.leb_gt _ _)) by lia. split.
  - intros (j & J' & Hj & -> & ->). exists j. by rewrite app_nil_r.
  - intros (j & Hj & ->). exists j, []. by rewrite app_nil_r.
Qed.
Lemma survivors_new b G i J : b < i → survivors b (G ++ [gnew i]) J ↔ survivors b G J.
Proof.
  intros Hb. rewrite survivors_app. split.
  - intros (J1 & J2 & -> & H1 & H2). apply survivors_last in H2 as (j & _ & ->); [|done]. cbn. rewrite take_nil, app_nil_r. done.
  - intros H. exists J, []. rewrite app_nil_r. split_and!; [done|done|]. apply survivors_last; [done|]. by exists 0%nat.
Qed.
Lemma survivors_sync b G g J :
  (gh_synced g <= length (gh_deltas g))%nat → survivors b (G ++ [gsync g]) J → survivors b (G ++ [g]) J.
Proof.
  intros Hk. rewrite !survivors_app. intros (J1 & J2 & -> & H1 & H2). exists J1, J2. split_and!; [done..|].
  destruct (Z.leb_spec (gh_index g) b) as [Hle|Hlt]; [by cbn in *; rewrite (proj2 (Z.leb_le _ _)) in * by lia|].
  apply (survivors_last b (gsync g)) in H2 as (j & Hj & ->); [|done]. apply survivors_last; [done|].
  exists j. cbn in Hj |- *. split; [lia|done].
Qed.
Lemma survivors_add b G g d J :
  b < gh_index g → (gh_synced g <= length (gh_deltas g))%nat →
  survivors b (G ++ [gadd d g]) J →
  survivors b (G ++ [g]) J ∨ ∃ J0, survivors b (G ++ [gsync g]) J0 ∧ J = J0 ++ [d].
Proof.
  intros Hb Hk. rewrite !survivors_app. intros (J1 & J2 & -> & H1 & H2).
  apply (survivors_last b (gadd d g)) in H2 as (j & Hj & ->); [|done]. cbn in Hj |- *. rewrite length_app in Hj. cbn in Hj.
  destruct (Nat.le_gt_cases j (length (gh_deltas g))) as [Hle|Hgt].
  - left. exists J1, (take j (gh_deltas g)). rewrite take_app_le by done. split_and!; [done|done|].
    apply (survivors_last b g); [done|]. exists j. split; [lia|done].
  - right. exists (J1 ++ gh_deltas g). rewrite take_ge by (rewrite length_app; cbn; lia). split; [|by rewrite <- app_assoc].
    apply survivors_app. exists J1, (gh_deltas g). split_and!; [done..|]. apply (survivors_last b (gsync g)); [done|].
    exists (length (gh_deltas g)). cbn. rewrite take_ge by lia. done.
Qed.
Lemma survivors_add_sync b G g d J :
  b < gh_index g → survivors b (G ++ [gsync (gadd d g)]) J →
  ∃ J0, survivors b (G ++ [gsync g]) J0 ∧ J = J0 ++ [d].
Proof.
  intros Hb. rewrite survivors_app. intros (J1 & J2 & -> & H1 & H2).
  apply (survivors_last b (gsync (gadd d g))) in H2 as (j & Hj & ->); [|done]. cbn in Hj |- *.
  rewrite take_ge by lia. exists (J1 ++ gh_deltas g). split; [|by rewrite <- app_assoc]. apply survivors_app.
  exists J1, (gh_deltas g). split_and!; [done..|]. apply (survivors_last b (gsync g)); [done|].
  exists (length (gh_deltas g)). cbn. rewrite take_ge by lia. done.
Qed.

(** ** Segments and their ghosts *)

Section writer.
Context {SC : SealCrates} {QS : QueueSerde} (key : MasterKey).

Definition seg_ok (s : SegmentData) (g : SegGhost) (t : bytes) : Prop :=
  ∃ bodies, segment_of key (sg_bytes s) (gh_deltas g) bodies t
    ∧ (length (frames (take (gh_synced g) bodies)) <= sg_synced s)%nat ∧ (sg_synced s <= length (sg_bytes s))%nat
    ∧ (gh_synced g <= length (gh_deltas g))%nat.
Definition file_ok (e : Z * SegmentData) (g : SegGhost) : Prop := e.1 = gh_index g ∧ ∃ t, seg_ok e.2 g t.
(** A directory and its ghost; its last segment is the one being written, without a torn
    tail. *)
Definition files_ok (m : BTreeMap Z SegmentData) (G : Ghost) : Prop := bt_ok m ∧ Forall2 file_ok m G.
Definition writing (m : BTreeMap Z SegmentData) (cur : Z) (G : Ghost) (g : SegGhost) : Prop :=
  ∃ m0 s, m = m0 ++ [(cur, s)] ∧ bt_ok m ∧ Forall2 file_ok m0 G ∧ gh_index g = cur ∧ seg_ok s g [].

Lemma writing_files m cur G g : writing m cur G g → files_ok m (G ++ [g]).
Proof.
  intros (m0 & s & -> & Hok & HF & Hg & Hs). split; [done|]. apply Forall2_app; [done|]. constructor; [|constructor].
  split; [done|]. by exists [].
Qed.
Lemma bt_last_above {V} (m : BTreeMap Z V) k v : bt_ok (m ++ [(k, v)]) → ∀ k', k' ∈ bt_keys m → k' < k.
Proof.
  induction m as [|[k1 v1] m IH]; [by intros _ k' ?%elem_of_nil|]. cbn [app bt_ok]. intros [Ha Hok] k' Hin.
  cbn [bt_keys fmap list_fmap] in Hin. apply elem_of_cons in Hin as [->|Hin]; [|by apply IH].
  pose proof (bt_above_elem_of k1 k v (m ++ [(k, v)]) Ha ltac:(set_solver)) as Hc. cbn in Hc. by apply Z.compare_lt_iff.
Qed.
Lemma bt_alter_last {V} (f : V → V) (m : BTreeMap Z V) k v :
  bt_ok (m ++ [(k, v)]) → bt_alter f k (m ++ [(k, v)]) = m ++ [(k, f v)].
Proof.
  intros Hok. unfold bt_alter. rewrite fmap_app. cbn [fmap list_fmap fst snd]. rewrite Z.eqb_refl. f_equal.
  rewrite <- (list_fmap_id m) at 2. apply list_fmap_ext. intros i [k' v'] Hi. cbn [fst snd id].
  rewrite (proj2 (Z.eqb_neq k' k)); [done|]. pose proof (bt_last_above _ _ _ Hok k') as H.
  assert (k' ∈ bt_keys m); [|apply H in H0; lia]. unfold bt_keys. apply list_elem_of_fmap. exists (k', v').
  split; [done|]. by eapply list_elem_of_lookup_2.
Qed.
Lemma bt_ok_last_value {V} (m : BTreeMap Z V) k v v' : bt_ok (m ++ [(k, v)]) → bt_ok (m ++ [(k, v')]).
Proof. apply bt_ok_keys. unfold bt_keys. by rewrite !fmap_app. Qed.

(** ** The steps of a batch *)

Lemma seg_ok_synced s g t : seg_ok s g t → (gh_synced g <= length (gh_deltas g))%nat.
Proof. intros (? & _ & _ & _ & ?). done. Qed.

Lemma seg_append s g body d :
  seg_ok s g [] → holds key body d →
  seg_ok {| sg_bytes := sg_bytes s ++ frame_of body; sg_synced := sg_synced s |} (gadd d g) [].
Proof.
  intros (bodies & (E & HF & Ht) & Hs & Hl & Hk) Hh. exists (bodies ++ [body]). cbn. split_and!.
  - split_and!; [by rewrite E, frames_snoc, !app_nil_r|by apply Forall2_app; [|constructor]|done].
  - rewrite take_app_le; [done|]. apply Forall2_length in HF. rewrite HF. done.
  - rewrite length_app. lia.
  - rewrite length_app. lia.
Qed.
Lemma seg_sync s g t :
  seg_ok s g t → seg_ok {| sg_bytes := sg_bytes s; sg_synced := length (sg_bytes s) |} (gsync g) t.
Proof.
  intros (bodies & (E & HF & Ht) & Hs & Hl & Hk). exists bodies. cbn. split_and!; [by split_and!| |done|done].
  apply Forall2_length in HF as HL. rewrite take_ge by lia. rewrite E, length_app. unfold frames. lia.
Qed.

(** The progress of a batch: from the ghost [G0], the deltas [done] were handed to the
    writer.  [W_some] is what a crash keeps of them now, [W_all] what it keeps once the
    current segment is synced, [W_clean] that they are all kept when nothing is dirty. *)
Definition kept_of (exact : bool) (G0 : Ghost) (G : Ghost) (ds : list Delta) (cur0 : Z) : Prop :=
  ∀ b J, b < cur0 → survivors b G J →
    ∃ J0 p, survivors b G0 J0 ∧ J = J0 ++ p ∧ p `sublist_of` ds ∧ (exact = true → p = ds).
(** No write falls short. *)
Definition no_short (io : list Io) : Prop := Forall (λ a, ∀ n, a ≠ IO_Short n) io.
Record batch_ok (G0 : Ghost) (cur0 : Z) (s : BatchState) (ds : list Delta) (G : Ghost) (g : SegGhost) : Prop := {
  W_files : writing (qd_deltas (bs_dir s)) (bs_index s) G g;
  W_cur : cur0 <= bs_index s;
  W_some : kept_of (negb (bs_dirty s)) G0 (G ++ [g]) ds cur0;
  W_all : kept_of true G0 (G ++ [gsync g]) ds cur0;
  W_io : no_short (bs_io s);
}.

Lemma next_io_frame s a s' :
  next_io s = (a, s') →
  bs_dir s' = bs_dir s ∧ bs_index s' = bs_index s ∧ bs_dirty s' = bs_dirty s
  ∧ (no_short (bs_io s) → no_short (bs_io s') ∧ ∀ n, a ≠ IO_Short n).
Proof.
  unfold next_io. destruct (bs_io s) as [|a' io] eqn:E; intros [= <- <-]; split_and!; try done; rewrite ?E; [done|].
  cbn. by intros [? ?]%Forall_cons.
Qed.

Lemma sync_ok G0 cur0 s ds G g ok s' :
  batch_ok G0 cur0 s ds G g → sync_segment s = (ok, s') →
  qd_snapshots (bs_dir s') = qd_snapshots (bs_dir s)
  ∧ ∃ g', batch_ok G0 cur0 s' ds G g' ∧ (ok = true → bs_dirty s' = false).
Proof.
  intros [(m0 & sg & Em & Hbt & HF & Hg & Hs) Hc H1 H2 Hio]. unfold sync_segment. destruct (next_io s) as [a s1] eqn:E.
  destruct (next_io_frame _ _ _ E) as (Ed & Ei & Ey & Hsh). destruct (Hsh Hio) as [Hio1 Hno].
  assert (Hsame : batch_ok G0 cur0 s1 ds G g).
  { constructor; [|by rewrite Ei|by rewrite Ey|done|done]. rewrite Ed, Ei. by exists m0, sg. }
  destruct a; intros [= <- <-]; [|by rewrite Ed; split; [done|exists g]..].
  split; [by cbn; rewrite Ed|]. exists (gsync g). split; [|done]. constructor; cbn; [|by rewrite Ei| | |done].
  - rewrite Ed, Ei, Em, bt_alter_last by (by rewrite <- Em). eexists m0, _. split_and!; [done| |done|done|by apply seg_sync].
    rewrite Em in Hbt. by eapply bt_ok_last_value.
  - exact H2.
  - exact H2.
Qed.
Lemma next_segment_ok G0 cur0 s ds G g ok s' :
  batch_ok G0 cur0 s ds G g → bs_dirty s = false → next_segment s = (ok, s') →
  qd_snapshots (bs_dir s') = qd_snapshots (bs_dir s)
  ∧ ∃ G' g', batch_ok G0 cur0 s' ds G' g' ∧ bs_dirty s' = false
    ∧ (ok = true → bs_index s' = bs_index s + 1 ∧ G' = G ++ [g] ∧ g' = gnew (bs_index s')).
Proof.
  intros [(m0 & sg & Em & Hbt & HF & Hg & Hs) Hc H1 H2 Hio] Hy. unfold next_segment. destruct (next_io s) as [a s1] eqn:E.
  destruct (next_io_frame _ _ _ E) as (Ed & Ei & Ey & Hsh). destruct (Hsh Hio) as [Hio1 Hno].
  assert (Hsame : batch_ok G0 cur0 s1 ds G g).
  { constructor; [|by rewrite Ei|by rewrite Ey|done|done]. rewrite Ed, Ei. by exists m0, sg. }
  destruct a; [|intros [= <- <-]; rewrite Ed; (split; [done|]); exists G, g; rewrite Ey; done..].
  set (s2 := {| bs_dir := _; bs_index := _; bs_size := _; bs_dirty := _; bs_io := _ |}).
  destruct (next_io s2) as [a2 s3] eqn:E2. destruct (next_io_frame _ _ _ E2) as (Ed2 & Ei2 & Ey2 & Hsh2). destruct (Hsh2 Hio1) as [Hio2 _]. intros [= <- <-].
  rewrite Ed2. split; [by cbn; rewrite Ed|]. exists (G ++ [g]), (gnew (bs_index s + 1)).
  assert (Hkeep : ∀ G', kept_of true G0 (G ++ [g]) ds cur0 → G' = G ++ [g] ++ [gnew (bs_index s + 1)] → kept_of true G0 G' ds cur0).
  { intros G' Hk -> b J Hb HJ. rewrite app_assoc in HJ. apply survivors_new in HJ; [|lia]. by apply Hk. }
  rewrite Hy in H1. split; [|split; [by rewrite Ey2; cbn; rewrite Ey|by rewrite Ei2; cbn; rewrite Ei]].
  constructor.
  - rewrite Ed2, Ei2. cbn. rewrite Ed, Ei, Em. exists (m0 ++ [(bs_index s, sg)]), {| sg_bytes := []; sg_synced := 0 |}. split_and!.
    + rewrite bt_insert_last; [done|]. intros k v Hin. cbn. apply Z.compare_lt_iff. apply elem_of_app in Hin as [Hin|Hin].
      * pose proof (bt_last_above m0 (bs_index s) sg ltac:(by rewrite <- Em) k) as Hlt.
        assert (k ∈ bt_keys m0); [|apply Hlt in H; lia]. apply list_elem_of_fmap. by exists (k, v).
      * apply list_elem_of_singleton in Hin. injection Hin as -> _. lia.
    + apply bt_insert_ok. by rewrite <- Em.
    + apply Forall2_app; [done|]. constructor; [|constructor]. split; [done|]. by exists [].
    + done.
    + exists []. cbn. split_and!; [|lia..]. split_and!; [done|constructor|apply torn_nil].
  - rewrite Ei2. cbn. lia.
  - rewrite Ey2. cbn. rewrite Ey, Hy. cbn. eapply Hkeep; [exact H1|]. by rewrite <- app_assoc.
  - change (gsync (gnew (bs_index s + 1))) with (gnew (bs_index s + 1)). eapply Hkeep; [exact H1|]. by rewrite <- app_assoc.
  - done.
Qed.

Lemma append_ok G0 cur0 s ds G g body d size io :
  batch_ok G0 cur0 s ds G g → holds key body d → no_short io →
  let s1 := append_bytes (frame_of body) s in
  batch_ok G0 cur0 {| bs_dir := bs_dir s1; bs_index := bs_index s1; bs_size := size; bs_dirty := true; bs_io := io |}
    (ds ++ [d]) G (gadd d g).
Proof.
  intros [(m0 & sg & Em & Hbt & HF & Hg & Hs) Hc H1 H2 _] Hh Hio s1. unfold s1. constructor; cbn; [|done| | |done].
  - rewrite Em, bt_alter_last by (by rewrite <- Em). eexists m0, _. split_and!; [done| |done|done|by apply seg_append].
    rewrite Em in Hbt. by eapply bt_ok_last_value.
  - intros b J Hb HJ. apply survivors_add in HJ as [HJ|(J1 & HJ & ->)]; [| |lia|by eapply seg_ok_synced].
    + destruct (H1 b J Hb HJ) as (J0 & p & Hs0 & -> & Hp & _). exists J0, p. split_and!; [done..| |done].
      etransitivity; [exact Hp|]. apply sublist_inserts_r. done.
    + destruct (H2 b J1 Hb HJ) as (J0 & p & Hs0 & -> & Hp & He). exists J0, (p ++ [d]). rewrite (He eq_refl).
      split_and!; [done|by rewrite app_assoc|done|done].
  - intros b J Hb HJ. apply survivors_add_sync in HJ as (J1 & HJ & ->); [|lia].
    destruct (H2 b J1 Hb HJ) as (J0 & p & Hs0 & -> & Hp & He). exists J0, (p ++ [d]). rewrite (He eq_refl).
    split_and!; [done|by rewrite app_assoc|done|done].
Qed.
Lemma write_ok G0 cur0 s ds G g body d ok s' :
  batch_ok G0 cur0 s ds G g → holds key body d → write_and_maybe_roll (frame_of body) s = (ok, s') →
  qd_snapshots (bs_dir s') = qd_snapshots (bs_dir s)
  ∧ ∃ G' g' ds', batch_ok G0 cur0 s' ds' G' g' ∧ ds' `sublist_of` ds ++ [d] ∧ (ok = true → ds' = ds ++ [d]).
Proof.
  intros Hb Hh. unfold write_and_maybe_roll. destruct (next_io s) as [a s1] eqn:E.
  destruct (next_io_frame _ _ _ E) as (Ed & Ei & Ey & Hsh). destruct (Hsh (W_io _ _ _ _ _ _ Hb)) as [Hio1 Hno].
  assert (Hsame : batch_ok G0 cur0 s1 ds G g).
  { destruct Hb as [H1 H2 H3 H4 H5]. constructor; [by rewrite Ed, Ei|by rewrite Ei|by rewrite Ey|done|done]. }
  destruct a as [| |n]; [|intros [= <- <-]; rewrite Ed; split; [done|]; exists G, g, ds; split_and!;
    [done|by apply sublist_inserts_r|done]|by destruct (Hno n)].
  pose proof (append_ok _ _ _ _ _ _ _ _ (bs_size s1 + Z.of_nat (length (frame_of body))) (bs_io s1) Hsame Hh Hio1) as Ha.
  cbv zeta in Ha. cbn [append_bytes set_batch_dir bs_dir bs_index bs_size bs_dirty bs_io] in Ha |- *.
  set (s2 := {| bs_dir := _; bs_index := _; bs_size := _; bs_dirty := true; bs_io := _ |}) in *.
  assert (Es : qd_snapshots (bs_dir s2) = qd_snapshots (bs_dir s)) by (cbn; by rewrite Ed).
  destruct (SEGMENT_ROLL_BYTES <=? _).
  - destruct (sync_segment s2) as [ok1 s3] eqn:E3. destruct (sync_ok _ _ _ _ _ _ _ _ Ha E3) as [Es3 (g3 & Hb3 & Hy3)].
    destruct ok1; [|intros [= <- <-]; rewrite Es3, Es; split; [done|]; by exists G, g3, (ds ++ [d])].
    intros E4. destruct (next_segment_ok _ _ _ _ _ _ _ _ Hb3 (Hy3 eq_refl) E4) as [Es4 (G4 & g4 & Hb4 & _)].
    rewrite Es4, Es3, Es. split; [done|]. by exists G4, g4, (ds ++ [d]).
  - intros [= <- <-]. split; [done|]. by exists G, (gadd d g), (ds ++ [d]).
Qed.
Lemma force_roll_ok G0 cur0 s ds G g ok s' :
  batch_ok G0 cur0 s ds G g → force_roll s = (ok, s') →
  qd_snapshots (bs_dir s') = qd_snapshots (bs_dir s)
  ∧ ∃ G' g', batch_ok G0 cur0 s' ds G' g'
    ∧ (ok = true → bs_dirty s' = false ∧ ∃ i, bs_index s' = i + 1 ∧ bs_index s <= i ∧ g' = gnew (i + 1)).
Proof.
  intros Hb. unfold force_roll.
  assert (Hroll : ∀ s1 G1 g1, batch_ok G0 cur0 s1 ds G1 g1 → bs_dirty s1 = false → next_segment s1 = (ok, s') →
    qd_snapshots (bs_dir s') = qd_snapshots (bs_dir s1) ∧ ∃ G' g', batch_ok G0 cur0 s' ds G' g'
    ∧ (ok = true → bs_dirty s' = false ∧ ∃ i, bs_index s' = i + 1 ∧ bs_index s1 <= i ∧ g' = gnew (i + 1))).
  { intros s1 G1 g1 Hb1 Hy E. destruct (next_segment_ok _ _ _ _ _ _ _ _ Hb1 Hy E) as [Es (G2 & g2 & Hb2 & Hy2 & H)].
    split; [done|]. exists G2, g2. split; [done|]. intros Hok. destruct (H Hok) as (Hi & _ & ->). split; [done|].
    exists (bs_index s1). split_and!; [done|lia|by rewrite Hi]. }
  destruct (bs_dirty s) eqn:Hy; [|by apply (Hroll s G g)].
  destruct (sync_segment s) as [ok1 s1] eqn:E1. destruct (sync_ok _ _ _ _ _ _ _ _ Hb E1) as [Es1 (g1 & Hb1 & Hy1)].
  assert (Ei : bs_index s1 = bs_index s).
  { revert E1. unfold sync_segment. destruct (next_io s) as [a s2] eqn:E2. destruct (next_io_frame _ _ _ E2) as (_ & Ei & _).
    destruct a; intros [= <- <-]; done. }
  destruct ok1; [|intros [= <- <-]; rewrite Es1; split; [done|]; by exists G, g1].
  intros E2. rewrite <- Es1, <- Ei. by eapply Hroll; [exact Hb1|apply Hy1|].
Qed.
Lemma run_frames_ok G0 cur0 s ds G g frs news ok s' :
  batch_ok G0 cur0 s ds G g →
  Forall2 (λ frame d, ∃ body, frame = frame_of body ∧ holds key body d) frs news → run_jobs (WJ_Data <$> frs) s = (ok, s') →
  qd_snapshots (bs_dir s') = qd_snapshots (bs_dir s)
  ∧ ∃ G' g' ds', batch_ok G0 cur0 s' ds' G' g' ∧ ds' `sublist_of` ds ++ news ∧ (ok = true → ds' = ds ++ news).
Proof.
  intros Hb HF. revert s ds G g Hb. induction HF as [|frame d frs news (body & -> & Hh) HF IH]; intros s ds G g Hb; cbn [fmap list_fmap run_jobs].
  - intros [= <- <-]. split; [done|]. exists G, g, ds. rewrite app_nil_r. done.
  - destruct (write_and_maybe_roll (frame_of body) s) as [ok1 s1] eqn:E1.
    destruct (write_ok _ _ _ _ _ _ _ _ _ _ Hb Hh E1) as [Es1 (G1 & g1 & ds1 & Hb1 & Hsub & Heq)].
    destruct ok1.
    + intros E2. rewrite (Heq eq_refl) in Hb1. destruct (IH s1 (ds ++ [d]) G1 g1 Hb1 E2) as [Es2 (G2 & g2 & ds2 & Hb2 & H2 & H3)].
      rewrite Es2, Es1. split; [done|]. exists G2, g2, ds2. by rewrite <- app_assoc in H2, H3.
    + intros [= <- <-]. split; [done|]. exists G1, g1, ds1. split_and!; [done| |done]. etransitivity; [exact Hsub|].
      apply sublist_app; [done|]. apply sublist_skip, sublist_nil_l.
Qed.
Lemma batch_start G g m snaps cur size io dirty :
  writing m cur G g → no_short io →
  batch_ok (G ++ [g]) cur {| bs_dir := {| qd_deltas := m; qd_snapshots := snaps |}; bs_index := cur; bs_size := size;
                             bs_dirty := dirty; bs_io := io |} [] G g.
Proof.
  intros Hw Hio. constructor; cbn; [done|lia| | |done].
  - intros b J Hb HJ. exists J, []. rewrite app_nil_r. done.
  - intros b J Hb HJ. exists J, []. rewrite app_nil_r. split_and!; [|done..]. apply survivors_sync; [|done].
    destruct Hw as (? & ? & _ & _ & _ & _ & Hs). by eapply seg_ok_synced.
Qed.

(** ** Whole batches *)

Definition sealed_as (frame : bytes) (d : Delta) : Prop := ∃ body, frame = frame_of body ∧ holds key body d.

Lemma kept_weaken exact G0 G ds ds' cur :
  ds `sublist_of` ds' → kept_of exact G0 G ds cur → kept_of false G0 G ds' cur.
Proof.
  intros Hs Hk b J Hb HJ. destruct (Hk b J Hb HJ) as (J0 & p & H1 & H2 & H3 & _). exists J0, p. split_and!; [done..| |done].
  by etransitivity.
Qed.
Lemma run_batch_frames m snaps cur G g size io frs news res s' :
  writing m cur G g → no_short io → Forall2 sealed_as frs news →
  run_batch (WJ_Data <$> frs) {| bs_dir := {| qd_deltas := m; qd_snapshots := snaps |}; bs_index := cur; bs_size := size;
                                 bs_dirty := false; bs_io := io |} = (res, s') →
  qd_snapshots (bs_dir s') = snaps
  ∧ ∃ G' g', writing (qd_deltas (bs_dir s')) (bs_index s') G' g' ∧ cur <= bs_index s'
    ∧ kept_of (bool_decide (is_Some res)) (G ++ [g]) (G' ++ [g']) news cur.
Proof.
  intros Hw Hio HF. unfold run_batch. cbn [bs_dir bs_index bs_size bs_io].
  pose proof (batch_start G g m snaps cur size io false Hw Hio) as H0.
  set (s0 := {| bs_dir := _; bs_index := _; bs_size := _; bs_dirty := _; bs_io := _ |}) in *.
  destruct (run_jobs (WJ_Data <$> frs) s0) as [ok s1] eqn:E1.
  destruct (run_frames_ok _ _ _ _ _ _ _ _ _ _ H0 HF E1) as [Es1 (G1 & g1 & ds1 & Hb1 & Hsub & Heq)]. cbn [app] in Hsub, Heq.
  destruct (ok && bs_dirty s1) eqn:E2.
  - apply andb_true_iff in E2 as [-> Hy]. rewrite (Heq eq_refl) in Hb1. destruct (sync_segment s1) as [ok2 s2] eqn:E3.
    destruct (sync_ok _ _ _ _ _ _ _ _ Hb1 E3) as [Es2 (g2 & Hb2 & Hy2)]. intros [= <- <-]. rewrite Es2, Es1. split; [done|].
    exists G1, g2. split_and!; [apply Hb2|apply Hb2|]. destruct ok2; cbn.
    + pose proof (W_some _ _ _ _ _ _ Hb2) as Hk. by rewrite (Hy2 eq_refl) in Hk.
    + by eapply (kept_weaken _ _ _ news), Hb2.
  - intros [= <- <-]. rewrite Es1. split; [done|]. exists G1, g1. split_and!; [apply Hb1|apply Hb1|]. destruct ok; cbn in *.
    + rewrite (Heq eq_refl) in Hb1. pose proof (W_some _ _ _ _ _ _ Hb1) as Hk. by rewrite E2 in Hk.
    + eapply kept_weaken; [exact Hsub|apply Hb1].
Qed.
Lemma run_batch_roll m snaps cur G g size io res s' :
  writing m cur G g → no_short io →
  run_batch [WJ_Roll] {| bs_dir := {| qd_deltas := m; qd_snapshots := snaps |}; bs_index := cur; bs_size := size;
                         bs_dirty := false; bs_io := io |} = (res, s') →
  qd_snapshots (bs_dir s') = snaps
  ∧ ∃ G' g', writing (qd_deltas (bs_dir s')) (bs_index s') G' g' ∧ cur <= bs_index s'
    ∧ kept_of false (G ++ [g]) (G' ++ [g']) [] cur
    ∧ (∀ i, res = Some i → i = bs_index s' ∧ cur <= i - 1 ∧ g' = gnew i).
Proof.
  intros Hw Hio. unfold run_batch. cbn [bs_dir bs_index bs_size bs_io run_jobs].
  pose proof (batch_start G g m snaps cur size io false Hw Hio) as H0.
  set (s0 := {| bs_dir := _; bs_index := _; bs_size := _; bs_dirty := _; bs_io := _ |}) in *.
  destruct (force_roll s0) as [ok s1] eqn:E1.
  destruct (force_roll_ok _ _ _ _ _ _ _ _ H0 E1) as [Es1 (G1 & g1 & Hb1 & Hok)].
  destruct ok.
  - destruct (Hok eq_refl) as (Hy & i & Hi & Hc & ->). rewrite Hy. cbn. intros [= <- <-]. split; [done|].
    exists G1, (gnew (i + 1)). split_and!; [apply Hb1|apply Hb1|by eapply (kept_weaken _ _ _ []), Hb1|].
    intros i' [= <-]. rewrite Hi. cbn in Hc. split_and!; [done|lia|done].
  - cbn. intros [= <- <-]. split; [done|]. exists G1, g1.
    split_and!; [apply Hb1|apply Hb1|by eapply (kept_weaken _ _ _ []), Hb1|done].
Qed.
Lemma ghost_below m cur G g : writing m cur G g → ∀ g0, g0 ∈ G → gh_index g0 < cur.
Proof.
  intros (m0 & s & -> & Hok & HF & _ & _) g0 Hin. apply list_elem_of_lookup in Hin as [i Hi].
  destruct (Forall2_lookup_r _ _ _ _ _ HF Hi) as ([k v] & Hk & [Hkey _]). cbn in Hkey. rewrite <- Hkey.
  apply (bt_last_above m0 cur s Hok). apply list_elem_of_fmap. exists (k, v). split; [done|]. by eapply list_elem_of_lookup_2.
Qed.
Lemma survivors_below b G J : (∀ g, g ∈ G → gh_index g <= b) → survivors b G J → J = [].
Proof.
  revert J. induction G as [|g G IH]; intros J HG; [done|]. cbn. rewrite (proj2 (Z.leb_le _ _)) by (apply HG; by left).
  apply IH. intros g' Hg'. apply HG. by right.
Qed.
End writer.
