(* ===== verification/QueueDurability.v ===== *)
(** * Acknowledged receipts survive

    Over any interleaving of appends, claims, delivery reports, prunes, compactions, failing
    file operations, crashes and restarts of the receipt queue: an event whose append was
    acknowledged is found again after every restart until its delivery has ended, and one
    whose end was acknowledged never becomes pending again. *)

From stdpp Require Import base gmap strings list.
From Stdlib Require Import Ascii ZArith Lia.
From S2P Require Import Prelude RustStr BTree Json Egress Crypto Outbox QueueJournal QueueJournalFacts AverinQueue QueueWriterFacts.

Open Scope Z_scope.

(** ** Events *)

(** The same event, in whatever state of delivery. *)
Definition same_event (a b : OutboxEvent) : Prop :=
  sequence a = sequence b ∧ subject a = subject b ∧ event_type a = event_type b ∧ payload a = payload b
  ∧ created_at a = created_at b ∧ dedup_id a = dedup_id b.
Lemma same_event_refl a : same_event a a.
Proof. done. Qed.
Lemma same_event_set a d at_ l la er e : same_event a e → same_event a (set_delivery d at_ l la er e).
Proof. by intros (? & ? & ? & ? & ? & ?). Qed.

Lemma bt_get_filter_key {V} (f : Z → bool) k (m : BTreeMap Z V) :
  bt_get (List.filter (λ e : Z * V, f e.1) m) k = if f k then bt_get m k else None.
Proof.
  induction m as [|[k1 v] m IH]; [by destruct (f k)|]. cbn [List.filter fst bt_get].
  destruct (f k1) eqn:E1; cbn [bt_get]; rewrite IH; destruct (kcmp k k1) eqn:E; try done;
    apply Z.compare_eq in E as ->; by rewrite E1.
Qed.
Lemma bt_get_insert_cases {V} k k' (v v' : V) (m : BTreeMap Z V) :
  bt_ok m → bt_get (bt_insert k v m) k' = Some v' → k' = k ∧ v' = v ∨ k' ≠ k ∧ bt_get m k' = Some v'.
Proof.
  intros Hok. destruct (Z.eq_dec k' k) as [->|Hne]; [rewrite bt_get_insert by done|rewrite bt_get_insert_ne by done].
  - intros [= ->]. by left.
  - by right.
Qed.

(** ** What a replayed state promises *)

(** [A] are the events whose append was committed, [E] the sequences whose delivery was
    reported as over, [F] the events whose end was committed. *)
Record keeps (A : list OutboxEvent) (E : list Z) (F : list OutboxEvent) (st : QueueSnapshot) : Prop := {
  K_sorted : bt_ok (outbox (qs_cache st));
  K_kept e : e ∈ A → sequence e ∉ E → ∃ e', bt_get (outbox (qs_cache st)) (sequence e) = Some e' ∧ same_event e e';
  K_over e e' : e ∈ A → e ∈ F → bt_get (outbox (qs_cache st)) (sequence e) = Some e' → delivery e' ≠ Pending;
  K_ended s e' : bt_get (outbox (qs_cache st)) s = Some e' → delivery e' ≠ Pending → s ∈ E;
  K_seq e : e ∈ A → sequence e <= outbox_seq (qs_cache st);
  K_nat : 0 <= outbox_seq (qs_cache st);
}.

Definition seqs (A : list OutboxEvent) : list Z := sequence <$> A.

(** Deltas that break no promise. *)
Definition harmless (A : list OutboxEvent) (E : list Z) (d : Delta) : Prop :=
  match d with
  | D_Append e => (sequence e ∉ seqs A) ∧ delivery e = Pending
  | D_Lease _ _ | D_Attempt _ _ _ _ _ | D_GrantResolved _ _ _ => True
  | D_Delivered s | D_DeadLetter s | D_Reclaimed s => s ∈ E
  | D_Prune upto => ∀ e, e ∈ A → sequence e <= upto → sequence e ∈ E
  end.

Lemma alter_same_delivery A E F st k f :
  (∀ a e, same_event a e → same_event a (f e)) →
  (∀ e, bt_get (outbox (qs_cache st)) k = Some e → delivery (f e) = delivery e ∨ (delivery (f e) ≠ Pending ∧ k ∈ E)) →
  keeps A E F st → keeps A E F (on_outbox (bt_alter f k) st).
Proof.
  intros Hsame Hdel [H1 H2 H3 H4 H5 H6]. constructor; cbn; [by apply bt_alter_ok| | | |done|done].
  - intros e He Hn. destruct (H2 e He Hn) as (e' & Hg & Hs). rewrite bt_get_alter, Hg. destruct (_ =? _); [|by exists e'].
    exists (f e'). split; [done|]. by apply Hsame.
  - intros e e' He HF. rewrite bt_get_alter. destruct (Z.eqb_spec (sequence e) k) as [Heq|]; [|by apply H3].
    destruct (bt_get _ (sequence e)) as [e0|] eqn:Hg; [|done]. cbn. intros [= <-].
    pose proof (H3 e e0 He HF Hg). rewrite Heq in Hg. destruct (Hdel e0 Hg) as [->|[? _]]; done.
  - intros s e'. rewrite bt_get_alter. destruct (Z.eqb_spec s k) as [->|]; [|by apply H4].
    destruct (bt_get _ k) as [e0|] eqn:Hg; [|done]. cbn. intros [= <-] Hp. destruct (Hdel e0 eq_refl) as [Hd|[_ ?]]; [|done].
    rewrite Hd in Hp. by eapply H4.
Qed.
Lemma filter_keeps A E F st (f : Z → bool) :
  (∀ e, e ∈ A → f (sequence e) = false → sequence e ∈ E) →
  keeps A E F st → keeps A E F (on_outbox (List.filter (λ e : Z * OutboxEvent, f e.1)) st).
Proof.
  intros Hf [H1 H2 H3 H4 H5 H6]. constructor; cbn; [by apply bt_filter_ok| | | |done|done].
  - intros e He Hn. rewrite bt_get_filter_key. destruct (f (sequence e)) eqn:Ef; [by apply H2|]. by destruct Hn; apply Hf.
  - intros e e' He HF. rewrite bt_get_filter_key. destruct (f _); [by apply H3|done].
  - intros s e'. rewrite bt_get_filter_key. destruct (f s); [by apply H4|done].
Qed.
Lemma seqs_elem e A : e ∈ A → sequence e ∈ seqs A.
Proof. apply list_elem_of_fmap_2. Qed.

Lemma keeps_step A E F st d : harmless A E d → keeps A E F st → keeps A E F (apply_delta st d).
Proof.
  intros Hd HK. destruct d as [e|s u|s a b c x|s|s|u|s|t g c]; cbn [apply_delta] in *.
  - destruct Hd as [Hn Hp]. destruct HK as [H1 H2 H3 H4 H5 H6].
    assert (Hne : ∀ e0, e0 ∈ A → sequence e0 ≠ sequence e) by (intros e0 He0 Heq; apply Hn; rewrite <- Heq; by apply seqs_elem).
    constructor; cbn; [by apply bt_insert_ok| | | | |lia].
    + intros e0 He0 Hn0. rewrite bt_get_insert_ne by (intros Heq; by apply (Hne e0)). by apply H2.
    + intros e0 e' He0 HF0. rewrite bt_get_insert_ne by (intros Heq; by apply (Hne e0)). by apply H3.
    + intros s e' Hg Hq. apply bt_get_insert_cases in Hg as [[-> ->]|[_ Hg]]; [done| |done]. by eapply H4.
    + intros e0 He0. pose proof (H5 e0 He0). lia.
  - apply alter_same_delivery; [intros ? ?; apply same_event_set|by left|done].
  - apply alter_same_delivery; [intros ? ?; apply same_event_set|by left|done].
  - apply alter_same_delivery; [intros ? ?; apply same_event_set|by right|done].
  - apply alter_same_delivery; [intros ? ?; apply same_event_set|by right|done].
  - apply (filter_keeps A E F st (λ k, u <? k)); [|done]. intros e He Hf. apply Hd; [done|]. by apply Z.ltb_ge.
  - unfold bt_remove. apply (filter_keeps A E F st (λ k, match kcmp s k with Eq => false | _ => true end)); [|done].
    intros e He Hf. destruct (kcmp s (sequence e)) eqn:Ek; try done. by apply Z.compare_eq in Ek as <-.
  - by destruct HK.
Qed.
Lemma keeps_append A E F st e :
  sequence e ∉ seqs A → delivery e = Pending → (∀ x, x ∈ F → x ∈ A) →
  keeps A E F st → keeps (e :: A) E F (apply_delta st (D_Append e)).
Proof.
  intros Hn Hp HFA HK. pose proof (keeps_step A E F st (D_Append e) (conj Hn Hp) HK) as HK'. destruct HK as [H1 _ _ _ _ _].
  destruct HK' as [K1 K2 K3 K4 K5 K6]. constructor; [done| | |done| |done].
  - intros e0 [->|He0]%elem_of_cons Hn0; [|by apply K2]. exists e. split; [|done]. cbn. by rewrite bt_get_insert.
  - intros e0 e' [->|He0]%elem_of_cons HF0; [|by apply K3]. by destruct Hn; apply seqs_elem, HFA.
  - intros e0 [->|He0]%elem_of_cons; [cbn; lia|by apply K5].
Qed.
Lemma keeps_appends A E F st es :
  NoDup (seqs es) → (∀ e, e ∈ es → (sequence e ∉ seqs A) ∧ delivery e = Pending) → (∀ x, x ∈ F → x ∈ A) →
  keeps A E F st → keeps (reverse es ++ A) E F (apply_deltas st (D_Append <$> es)).
Proof.
  revert A st. induction es as [|e es IH]; intros A st Hnd Hes HFA HK; [done|]. cbn [seqs fmap list_fmap] in *.
  apply NoDup_cons in Hnd as [Hne Hnd]. rewrite reverse_cons, <- app_assoc. cbn [app].
  change (apply_deltas st (D_Append e :: (D_Append <$> es))) with (apply_deltas (apply_delta st (D_Append e)) (D_Append <$> es)).
  destruct (Hes e ltac:(by left)) as [Hn Hp]. apply IH; [done| |set_solver|by apply keeps_append].
  intros e' He'. destruct (Hes e' ltac:(by right)) as [Hn' Hp']. split; [|done].
  cbn [seqs fmap list_fmap]. intros [Heq|?]%elem_of_cons; [|done]. apply Hne. rewrite <- Heq. by apply seqs_elem.
Qed.
Lemma keeps_sublist A E F st ds p :
  Forall (harmless A E) ds → p `sublist_of` ds → keeps A E F st → keeps A E F (apply_deltas st p).
Proof.
  intros Hh Hp. assert (H : Forall (harmless A E) p).
  { rewrite Forall_forall in Hh |- *. intros d Hd. apply Hh. by eapply elem_of_submseteq, sublist_submseteq. }
  clear Hh Hp. revert st. induction H as [|d p Hd _ IH]; intros st HK; [done|]. apply IH. by apply keeps_step.
Qed.
Lemma keeps_ended A E E' F st : (∀ s, s ∈ E → s ∈ E') → keeps A E F st → keeps A E' F st.
Proof. intros HE [H1 H2 H3 H4 H5 H6]. constructor; [done| |done| |done|done]; eauto. Qed.
Lemma keeps_perm A A' E F F' st :
  (∀ e, e ∈ A' → e ∈ A) → (∀ e, e ∈ F' → e ∈ F) → keeps A E F st → keeps A' E F' st.
Proof. intros HA HF [H1 H2 H3 H4 H5 H6]. constructor; eauto. Qed.

(** ** The queue's invariant *)

Section queue_invariant.
Context {SC : SealCrates} {QS : QueueSerde} {SL : SealLaws} {QL : QueueSerdeLaws} (key : MasterKey).

Definition view (X : QueueSnapshot → Prop) (base : QueueSnapshot) (b : Z) (G : Ghost) : Prop :=
  ∀ J, survivors b G J → X (apply_deltas base J).
Definition disk_ok (d : QueueDir) (cur : Z) (staged : list (Z * QueueSnapshot)) (G : Ghost) (g : SegGhost)
    (X : QueueSnapshot → Prop) : Prop :=
  writing key (qd_deltas d) cur G g ∧ bt_ok (qd_snapshots d)
  ∧ ∃ b base, replay_base key d = Ok (b, base) ∧ 0 <= b < cur ∧ view X base b (G ++ [g])
    ∧ ∀ i s, (i, s) ∈ staged → 0 < i < cur ∧ (b <= i → view X s i (G ++ [g])).

Definition waiting (q : AverinQueue) : list OutboxEvent := aq_reserved q ++ (aq_jobs q).*1.
Definition pending (q : AverinQueue) : list OutboxEvent := waiting q ++ (aq_results q).*1.

Record queue_ok (q : AverinQueue) (A : list OutboxEvent) (E : list Z) (F : list OutboxEvent) : Prop := {
  Q_disk : ∃ G g, disk_ok (aq_dir q) (aq_index q) (aq_staged q) G g (keeps A E F);
  Q_mem : keeps A E F (qm_state (aq_mem q));
  Q_over e : e ∈ F → e ∈ A;
  Q_nodup : NoDup (seqs (pending q));
  Q_committing e : e ∈ pending q → sequence e ∈ qm_committing (aq_mem q);
  Q_bound e : e ∈ pending q → sequence e <= outbox_seq (qs_cache (qm_state (aq_mem q))) ∧ delivery e = Pending;
  Q_fresh e : e ∈ waiting q → (sequence e ∉ seqs A)
                ∧ ∃ e', bt_get (aq_outbox q) (sequence e) = Some e' ∧ same_event e e' ∧ delivery e' = Pending;
  Q_failed e : (e, false) ∈ aq_results q → sequence e ∉ seqs A;
  Q_acked e : (e, true) ∈ aq_results q → e ∈ A;
  Q_jobs e f : (e, f) ∈ aq_jobs q → sealed_as key f (D_Append e);
}.

Lemma take_first_spec {B} (f : B → bool) l x rest :
  take_first f l = Some (x, rest) → f x = true ∧ l ≡ₚ x :: rest.
Proof.
  revert rest. induction l as [|y l IH]; intros rest; cbn; [done|]. destruct (f y) eqn:Ef; [by intros [= -> ->]|].
  destruct (take_first f l) as [[z r]|]; [|done]. cbn. intros [= -> <-]. destruct (IH r eq_refl) as [H1 H2]. split; [done|].
  rewrite H2. by constructor.
Qed.

(** Moving appends along. *)
Lemma set_appends_ok q A E F r j res :
  queue_ok q A E F → r ++ j.*1 ++ res.*1 ≡ₚ pending q → (∀ e, e ∈ r ++ j.*1 → e ∈ waiting q) →
  (∀ e, (e, false) ∈ res → sequence e ∉ seqs A) → (∀ e, (e, true) ∈ res → e ∈ A) →
  (∀ e f, (e, f) ∈ j → sealed_as key f (D_Append e)) → queue_ok (set_appends r j res q) A E F.
Proof.
  intros HQ Hp Hw Hf Ht Hj. assert (Hp' : pending (set_appends r j res q) ≡ₚ pending q).
  { unfold pending at 1, waiting. cbn. by rewrite <- app_assoc. }
  destruct HQ as [H1 H2 H3 H4 H5 H6 H7 H8 H9 H10]. constructor; cbn; [done|done|done| | | | |done|done|done].
  - unfold seqs. by rewrite Hp'.
  - intros e. rewrite Hp'. apply H5.
  - intros e. rewrite Hp'. apply H6.
  - intros e He. apply H7, Hw, He.
Qed.
Lemma hand_over_ok q A E F a :
  queue_ok q A E F → queue_ok (hand_over key q a) A E F
  ∧ aq_mem (hand_over key q a) = aq_mem q ∧ (∃ more, aq_jobs (hand_over key q a) = aq_jobs q ++ more)
  ∧ ∀ e, e ∈ waiting (hand_over key q a) → e ∈ waiting q.
Proof.
  intros HQ. unfold hand_over. destruct (take_first _ _) as [[e rest]|] eqn:E1;
    [|split_and!; [done|done|exists []; by rewrite app_nil_r|done]].
  apply take_first_spec in E1 as [_ Hr]. pose proof HQ as [_ _ _ _ _ _ H7 H8 H9 H10].
  assert (He : e ∈ waiting q) by (unfold waiting; rewrite Hr; set_solver).
  assert (Hw : ∀ x, x ∈ rest ++ (aq_jobs q).*1 → x ∈ waiting q) by (unfold waiting; intros x; rewrite Hr; set_solver).
  destruct (seal_delta a.2 (D_Append e) key) as [frame|err] eqn:E2.
  - split_and!; [|done|by exists [(e, frame)]|intros x; unfold waiting at 1; cbn; rewrite fmap_app; cbn; set_solver].
    apply set_appends_ok; [done| | |done|done|].
    + rewrite fmap_app. unfold pending, waiting. rewrite Hr. cbn. solve_Permutation.
    + intros x. rewrite fmap_app. cbn. set_solver.
    + intros x f [?|[= -> ->]%list_elem_of_singleton]%elem_of_app; [by apply H10|]. by eapply seal_holds.
  - split_and!; [|done|exists []; by rewrite app_nil_r|exact Hw]. apply set_appends_ok; [done| |done| | |done].
    + rewrite fmap_app. unfold pending, waiting. rewrite Hr. cbn. solve_Permutation.
    + intros x [?|[= ->]%list_elem_of_singleton]%elem_of_app; [by apply H8|]. by apply H7.
    + intros x [?|?%list_elem_of_singleton]%elem_of_app; [by apply H9|done].
Qed.
Lemma hand_overs_ok q A E F l :
  queue_ok q A E F → queue_ok (foldl (hand_over key) q l) A E F
  ∧ aq_mem (foldl (hand_over key) q l) = aq_mem q ∧ (∃ more, aq_jobs (foldl (hand_over key) q l) = aq_jobs q ++ more)
  ∧ ∀ e, e ∈ waiting (foldl (hand_over key) q l) → e ∈ waiting q.
Proof.
  revert q. induction l as [|a l IH]; intros q HQ; cbn [foldl]; [split_and!; [done|done|exists []; by rewrite app_nil_r|done]|].
  destruct (hand_over_ok q A E F a HQ) as (H1 & H2 & (m1 & H3) & H7). destruct (IH _ H1) as (H4 & H5 & (m2 & H6) & H8).
  split_and!; [done|by rewrite H5| |intros e He; by apply H7, H8]. exists (m1 ++ m2). by rewrite H6, H3, app_assoc.
Qed.

(** A batch moves every view forward. *)
Lemma disk_batch d d' cur cur' staged G g G' g' X Y exact news :
  disk_ok d cur staged G g X → qd_snapshots d' = qd_snapshots d → writing key (qd_deltas d') cur' G' g' → cur <= cur' →
  kept_of exact (G ++ [g]) (G' ++ [g']) news cur →
  (∀ st p, X st → p `sublist_of` news → (exact = true → p = news) → Y (apply_deltas st p)) →
  disk_ok d' cur' staged G' g' Y.
Proof.
  intros (Hw & Hs & b & base & Hb & Hlt & Hv & Hst) Es Hw' Hc Hk HXY.
  assert (Hview : ∀ b0 base0, b0 < cur → view X base0 b0 (G ++ [g]) → view Y base0 b0 (G' ++ [g'])).
  { intros b0 base0 Hb0 Hv0 J HJ. destruct (Hk b0 J Hb0 HJ) as (J0 & p & H1 & -> & H2 & H3).
    unfold apply_deltas. rewrite foldl_app. apply HXY; [by apply Hv0|done|done]. }
  split_and!; [done|by rewrite Es|]. exists b, base. split_and!; [|lia|lia|apply Hview; [lia|done]|].
  - unfold replay_base in Hb |- *. by rewrite Es.
  - intros i s0 Hin. destruct (Hst i s0 Hin) as [Hi Hv0]. split; [lia|]. intros Hbi. apply Hview; [lia|]. by apply Hv0.
Qed.

Lemma list_fmap_pair_fst {B C} (l : list (B * C)) (c : bool) : ((λ j : B * C, (j.1, c)) <$> l).*1 = l.*1.
Proof. rewrite <- list_fmap_compose. done. Qed.

Lemma Permutation_in_elem {B} (l l' : list B) x : l ≡ₚ l' → x ∈ l → x ∈ l'.
Proof. by intros ->. Qed.
Lemma seqs_apart l1 l2 e x : NoDup (seqs (l1 ++ l2)) → e ∈ l1 → x ∈ l2 → sequence e ≠ sequence x.
Proof.
  unfold seqs. rewrite fmap_app. intros (_ & Hd & _)%NoDup_app He Hx Heq. apply (Hd (sequence e)); [by apply list_elem_of_fmap_2|].
  rewrite Heq. by apply list_elem_of_fmap_2.
Qed.
(** A batch of the writer with the frames of an operation in it.  [owns] are the
    operation's deltas; committing them may end the delivery of [F']. *)
Lemma write_batch_ok q A E F F' before after frs owns io res q' :
  queue_ok q A E F → aq_jobs q = before ++ after → no_short io → Forall2 (sealed_as key) frs owns →
  Forall (harmless A E) owns → (∀ e, e ∈ F' → e ∈ A) → keeps A E F' (qm_state (aq_mem q)) →
  (∀ A1 st, (∀ e, e ∈ A1 → e ∈ A ∨ e ∈ (aq_jobs q).*1) → (∀ e, e ∈ A → e ∈ A1) → keeps A1 E F st →
     keeps A1 E F' (apply_deltas st owns)) →
  write_batch before (WJ_Data <$> frs) after io q = (res, q') →
  aq_mem q' = aq_mem q ∧ aq_reserved q' = aq_reserved q
  ∧ ∃ A', (∀ e, e ∈ A → e ∈ A') ∧ (∀ e, e ∈ A' → e ∈ A ∨ e ∈ (aq_jobs q).*1)
    ∧ queue_ok q' A' E (if bool_decide (is_Some res) then F' else F).
Proof.
  intros HQ Hj Hio Hfr Hown HFA HmF Hstep. unfold write_batch.
  set (jobs := ((λ j, WJ_Data j.2) <$> before) ++ _). pose (news := (D_Append <$> before.*1) ++ owns ++ (D_Append <$> after.*1)).
  destruct (run_batch jobs _) as [res' s'] eqn:Erun. intros [= <- <-]. pose proof HQ as [(G & g & Hd) H2 H3 H4 H5 H6 H7 H8 H9 H10].
  assert (Hjobs : jobs = WJ_Data <$> (before.*2 ++ frs ++ after.*2)).
  { unfold jobs. rewrite !fmap_app, <- !list_fmap_compose. done. }
  assert (Hsealed : Forall2 (sealed_as key) (before.*2 ++ frs ++ after.*2) news).
  { assert (Hall : ∀ l, (∀ x, x ∈ l → x ∈ aq_jobs q) → Forall2 (sealed_as key) l.*2 (D_Append <$> l.*1)).
    { intros l Hl. rewrite <- list_fmap_compose. apply Forall2_fmap, Forall_Forall2_diag, Forall_forall. intros [e f] Hin. cbn.
      by apply H10, Hl. }
    apply Forall2_app; [apply Hall; rewrite Hj; set_solver|]. apply Forall2_app; [done|apply Hall; rewrite Hj; set_solver]. }
  rewrite Hjobs in Erun. destruct (aq_dir q) as [deltas snaps] eqn:Edir.
  destruct (run_batch_frames key _ _ _ _ _ _ _ _ _ _ _ (proj1 Hd) Hio Hsealed Erun) as [Es (G' & g' & Hw' & Hc & Hk)].
  split; [done|]. split; [done|].
  assert (Hnd : NoDup (seqs (before.*1 ++ after.*1))).
  { pose proof H4 as Hn. unfold pending, waiting, seqs in Hn |- *. rewrite Hj, !fmap_app in Hn. rewrite fmap_app.
    apply NoDup_app in Hn as [Hn _]. by apply NoDup_app in Hn as (_ & _ & Hn). }
  assert (Hin : ∀ e, e ∈ before.*1 ++ after.*1 → e ∈ waiting q) by (intros e He; unfold waiting; rewrite Hj, fmap_app; set_solver).
  assert (Hjf : (aq_jobs q).*1 = before.*1 ++ after.*1) by (by rewrite Hj, fmap_app).
  assert (HP : ∀ c : bool, (aq_reserved q ++ []) ++ (aq_results q ++ ((λ j, (j.1, c)) <$> before ++ after)).*1 ≡ₚ pending q).
  { intros c. rewrite fmap_app, (list_fmap_pair_fst (before ++ after)). unfold pending, waiting. rewrite Hjf, fmap_app. solve_Permutation. }
  destruct (bool_decide_reflect (is_Some res')) as [Hok|Hno].
  - pose (A1 := reverse before.*1 ++ A). pose (A' := reverse after.*1 ++ A1). exists A'.
    assert (HA' : ∀ e, e ∈ A' ↔ e ∈ A ∨ e ∈ before.*1 ++ after.*1) by (intros e; unfold A', A1; rewrite !elem_of_app, !elem_of_reverse; tauto).
    split_and!; [intros e; rewrite HA'; tauto|intros e; rewrite HA', Hjf; tauto|].
    assert (Hkeep : ∀ st p, keeps A E F st → p `sublist_of` news → (true = true → p = news) → keeps A' E F' (apply_deltas st p)).
    { intros st p HK _ Hp. rewrite (Hp eq_refl). unfold news, apply_deltas. rewrite !foldl_app.
      unfold seqs in Hnd. rewrite fmap_app in Hnd. apply NoDup_app in Hnd as (Hnb & Hdis & Hna).
      assert (HK1 : keeps A1 E F (foldl apply_delta st (D_Append <$> before.*1))).
      { apply keeps_appends; [done| |done|done]. intros e He. split; [apply H7, Hin; set_solver|apply H6; unfold pending; set_solver]. }
      apply keeps_appends; [done| | |].
      - intros e He. split; [|apply H6; unfold pending; set_solver]. unfold A1, seqs. rewrite fmap_app, fmap_reverse. intros [Hx|Hx]%elem_of_app.
        + rewrite elem_of_reverse in Hx. apply (Hdis _ Hx). by apply list_elem_of_fmap_2.
        + revert Hx. apply (H7 e), Hin. set_solver.
      - intros e He. unfold A1. apply elem_of_app. right. by apply HFA.
      - apply Hstep; [| |exact HK1]; unfold A1; intros e; rewrite ?Hjf, elem_of_app, ?elem_of_reverse; [|tauto].
        intros [?|?]; [right; set_solver|by left]. }
    constructor; cbn.
    + exists G', g'. eapply (disk_batch {| qd_deltas := deltas; qd_snapshots := snaps |}); [exact Hd|done|exact Hw'|done|exact Hk|exact Hkeep].
    + destruct HmF as [M1 M2 M3 M4 M5 M6]. constructor; [done| | |done| |done].
      * intros e [He|He]%HA' Hn; [by apply M2|]. destruct (H7 e (Hin e He)) as (_ & e' & Hg & Hs & _). by exists e'.
      * intros e e' [He|He]%HA' HF0; [by apply M3|]. destruct (H7 e (Hin e He)) as [Hn _]. destruct Hn. by apply seqs_elem, HFA.
      * intros e [He|He]%HA'; [by apply M5|]. apply H6. unfold pending. set_solver.
    + intros e He. apply HA'. left. by apply HFA.
    + eapply NoDup_Permutation_proper; [apply fmap_Permutation, HP|exact H4].
    + intros e He. apply H5. eapply Permutation_in_elem; [apply HP|exact He].
    + intros e He. apply H6. eapply Permutation_in_elem; [apply HP|exact He].
    + intros e He. unfold waiting in He. cbn in He. rewrite app_nil_r in He.
      destruct (H7 e ltac:(unfold waiting; set_solver)) as [Hn Hg]. split; [|done].
      intros (x & Hx & Hxa)%list_elem_of_fmap. apply HA' in Hxa as [Hxa|Hxa]; [apply Hn; rewrite Hx; by apply seqs_elem|].
      revert Hx. unfold pending, waiting in H4. rewrite <- app_assoc in H4.
      eapply (seqs_apart _ _ e x H4); [done|]. rewrite Hjf. set_solver.
    + intros e [He|He]%elem_of_app.
      * intros (x & Hx & Hxa)%list_elem_of_fmap. apply HA' in Hxa as [Hxa|Hxa]; [apply (H8 e He); rewrite Hx; by apply seqs_elem|].
        symmetry in Hx. revert Hx. unfold pending in H4. apply (seqs_apart _ _ x e H4); [by apply Hin|].
        apply list_elem_of_fmap. by exists (e, false).
      * apply list_elem_of_fmap in He as (? & [=] & _).
    + intros e [He|He]%elem_of_app; apply HA'; [left; by apply H9|right].
      apply list_elem_of_fmap in He as ([e0 f0] & [= ->] & He). rewrite <- fmap_app. apply list_elem_of_fmap. by exists (e0, f0).
    + intros e f He. by apply elem_of_nil in He.
  - exists A. split_and!; [done|tauto|]. constructor; cbn; [|done|done| | | | | | |].
    + exists G', g'. eapply (disk_batch {| qd_deltas := deltas; qd_snapshots := snaps |}); [exact Hd|done|exact Hw'|done|exact Hk|].
      intros st p HK Hp _. eapply keeps_sublist; [|exact Hp|done]. unfold news. rewrite !Forall_app. split_and!; [|done|].
      all: apply Forall_fmap, Forall_forall; intros e He; (split; [apply H7, Hin|apply H6; unfold pending; apply elem_of_app; left; apply Hin]); set_solver.
    + eapply NoDup_Permutation_proper; [apply fmap_Permutation, HP|exact H4].
    + intros e He. apply H5. eapply Permutation_in_elem; [apply HP|exact He].
    + intros e He. apply H6. eapply Permutation_in_elem; [apply HP|exact He].
    + intros e He. unfold waiting in He. cbn in He. rewrite app_nil_r in He. apply H7. unfold waiting. set_solver.
    + intros e [He|He]%elem_of_app; [by apply H8|]. apply list_elem_of_fmap in He as ([e0 f0] & [= ->] & He).
      apply H7, Hin. rewrite <- fmap_app. apply list_elem_of_fmap. by exists (e0, f0).
    + intros e [He|He]%elem_of_app; [by apply H9|]. apply list_elem_of_fmap in He as (? & [=] & _).
    + intros e f He. by apply elem_of_nil in He.
Qed.

Definition result_ok {B C} (r : result B C) : bool := match r with Ok _ => true | Err _ => false end.

(** Committing one delta under the lock. *)
Lemma commit_ok q A E F F' d i r q' :
  queue_ok q A E F → no_short (ci_io i) →
  (∀ A1, (∀ e, e ∈ A1 → e ∈ A ∨ e ∈ waiting q) → harmless A1 E d) → (∀ e, e ∈ F' → e ∈ A) →
  keeps A E F' (qm_state (aq_mem q)) →
  (∀ A1 st, (∀ e, e ∈ A1 → e ∈ A ∨ e ∈ waiting q) → (∀ e, e ∈ A → e ∈ A1) → keeps A1 E F st →
     keeps A1 E F' (apply_delta st d)) →
  commit_delta key d i q = (r, q') →
  aq_mem q' = aq_mem q ∧ ∃ A', (∀ e, e ∈ A → e ∈ A') ∧ queue_ok q' A' E (if result_ok r then F' else F).
Proof.
  intros HQ Hio Hh HFA HmF Hstep. unfold commit_delta. destruct (seal_delta (ci_nonce i) d key) as [frame|err] eqn:Eseal.
  2:{ intros [= <- <-]. split; [done|]. by exists A. }
  destruct (hand_overs_ok q A E F (ci_before i) HQ) as (HQ1 & Hm1 & _ & Hw1). set (q1 := foldl _ q (ci_before i)) in *.
  destruct (hand_overs_ok q1 A E F (ci_after i) HQ1) as (HQ2 & Hm2 & _ & Hw2). set (q2 := foldl _ q1 (ci_after i)) in *.
  destruct (write_batch _ _ _ _ q2) as [res q3] eqn:Ew. intros [= <- <-].
  assert (Hjw : ∀ e, e ∈ (aq_jobs q2).*1 → e ∈ waiting q).
  { intros e He. apply Hw1, Hw2. unfold waiting. set_solver. }
  destruct (write_batch_ok q2 A E F F' (take (length (aq_jobs q1)) (aq_jobs q2)) (drop (length (aq_jobs q1)) (aq_jobs q2))
    [frame] [d] (ci_io i) res q3) as (H1 & H2 & A' & H3 & H4 & H5); [done|by rewrite take_drop|done| | |done|by rewrite Hm2, Hm1| |exact Ew|].
  - constructor; [|constructor]. by eapply seal_holds.
  - constructor; [|constructor]. apply Hh. tauto.
  - intros A1 st HA1 HA2 HK. cbn. apply Hstep; [|done|done]. intros e He. destruct (HA1 e He); [by left|right; by apply Hjw].
  - split; [by rewrite H1, Hm2, Hm1|]. exists A'. split; [done|]. by destruct res.
Qed.
Lemma commit_plain q A E F d i r q' :
  queue_ok q A E F → no_short (ci_io i) → (∀ A1, (∀ e, e ∈ A1 → e ∈ A ∨ e ∈ waiting q) → harmless A1 E d) →
  commit_delta key d i q = (r, q') →
  aq_mem q' = aq_mem q ∧ ∃ A', (∀ e, e ∈ A → e ∈ A') ∧ queue_ok q' A' E F.
Proof.
  intros HQ Hio Hh Ec. destruct (commit_ok q A E F F d i r q' HQ Hio Hh (Q_over _ _ _ _ HQ) (Q_mem _ _ _ _ HQ)) as (H1 & A' & H2 & H3); [|done|].
  - intros A1 st HA1 _ HK. apply keeps_step; [by apply Hh|done].
  - split; [done|]. exists A'. split; [done|]. by destruct (result_ok r).
Qed.

(** Changing the state in memory. *)
Lemma on_state_ok q A E F f :
  queue_ok q A E F → keeps A E F (f (qm_state (aq_mem q))) →
  outbox_seq (qs_cache (f (qm_state (aq_mem q)))) = outbox_seq (qs_cache (qm_state (aq_mem q))) →
  (∀ e e', e ∈ waiting q → bt_get (aq_outbox q) (sequence e) = Some e' → same_event e e' → delivery e' = Pending →
     ∃ e'', bt_get (outbox (qs_cache (f (qm_state (aq_mem q))))) (sequence e) = Some e'' ∧ same_event e e'' ∧ delivery e'' = Pending) →
  queue_ok (on_state f q) A E F.
Proof.
  intros [H1 H2 H3 H4 H5 H6 H7 H8 H9 H10] HK Hs Hw. constructor; [exact H1|exact HK|exact H3|exact H4|exact H5| | |exact H8|exact H9|exact H10].
  - intros e He. cbn. rewrite Hs. by apply H6.
  - intros e He. destruct (H7 e He) as (Hn & e' & Hg & Hse & Hd). split; [done|]. by eapply Hw.
Qed.
Lemma stamp_ok q A E F until seq : queue_ok q A E F → queue_ok (stamp until seq q) A E F.
Proof.
  intros HQ. apply on_state_ok; [done| |done|].
  - apply alter_same_delivery; [intros ? ?; apply same_event_set|by left|apply HQ].
  - intros e e' _ Hg Hs Hd. cbn. rewrite bt_get_alter. unfold aq_outbox in Hg. rewrite Hg.
    destruct (_ =? _); [|by exists e']. eexists. split; [done|]. split; [by apply same_event_set|done].
Qed.
Lemma stamps_ok q A E F (l : list (Z * option DateTime)) :
  queue_ok q A E F → queue_ok (foldl (λ q p, stamp p.2 p.1 q) q l) A E F.
Proof. revert q. induction l as [|p l IH]; intros q HQ; [done|]. cbn [foldl]. apply IH. by apply stamp_ok. Qed.
Lemma claim_loop_ok until es inputs q A E F previous r q' :
  queue_ok q A E F → (∀ n, no_short (ci_io (inputs n))) → claim_loop key until previous es inputs q = (r, q') →
  ∃ A', (∀ e, e ∈ A → e ∈ A') ∧ queue_ok q' A' E F.
Proof.
  intros HQ Hio. revert q A HQ previous. induction es as [|e es IH]; intros q A HQ previous; cbn [claim_loop].
  - intros [= <- <-]. by exists A.
  - destruct (seal_delta _ _ _); [|intros [= <- <-]; by exists A].
    destruct (commit_delta _ _ _ _) as [r1 q1] eqn:Ec.
    destruct (commit_plain q A E F (D_Lease (sequence e) (Some until)) _ _ _ HQ (Hio _) (λ _ _, I) Ec) as (_ & A1 & HA1 & HQ1). destruct r1.
    + intros Hc. destruct (IH _ A1 (stamp_ok _ _ _ _ _ _ HQ1) _ Hc) as (A2 & HA2 & HQ2). exists A2. split; [|done]. eauto.
    + intros [= <- <-]. exists A1. split; [done|]. by apply stamps_ok.
Qed.

(** ** Appending *)

Lemma queue_ok_ended q A E E' F : (∀ s, s ∈ E → s ∈ E') → queue_ok q A E F → queue_ok q A E' F.
Proof.
  intros HE [(G & g & Hw & Hs & b & base & Hb & Hlt & Hv & Hst) H2 H3 H4 H5 H6 H7 H8 H9 H10].
  constructor; [|by eapply keeps_ended|done..]. exists G, g. split_and!; [done|done|]. exists b, base.
  split_and!; [done|lia|lia|intros J HJ; eapply keeps_ended; [done|by apply Hv]|]. intros i s0 Hin. destruct (Hst i s0 Hin) as [Hi Hv0].
  split; [done|]. intros Hbi J HJ. eapply keeps_ended; [done|by apply Hv0].
Qed.

Lemma reserve_ok q A E F now subj ty body :
  queue_ok q A E F → outbox_seq (qs_cache (qm_state (aq_mem q))) < u64_max →
  queue_ok (reserve_for_append now subj ty body q).2 A E F.
Proof.
  intros HQ Hmax. pose proof HQ as [H1 H2 H3 H4 H5 H6 H7 H8 H9 H10]. unfold reserve_for_append, push_event.
  destruct (aq_mem q) as [st comm] eqn:Em. cbn [qm_state qm_committing] in *. destruct st as [[ob seq] rg]. cbn in Hmax |- *.
  assert (H0 : 0 <= seq) by apply H2. rewrite Z.mod_small by lia. set (e := {| sequence := seq + 1 |}).
  assert (Hlt : ∀ x, x ∈ pending q → sequence x ≤ seq) by (intros x Hx; apply (H6 x Hx)).
  assert (HnA : ∀ x, x ∈ A → sequence x ≤ seq) by (intros x Hx; apply (K_seq _ _ _ _ H2 x Hx)).
  assert (HeA : sequence e ∉ seqs A).
  { intros (x & Hx & Hin)%list_elem_of_fmap. apply HnA in Hin. cbn in Hx. lia. }
  assert (Hpe : ∀ x, x ∈ (aq_reserved q ++ [e]) ++ (aq_jobs q).*1 → x = e ∨ x ∈ waiting q) by (unfold waiting; set_solver).
  constructor; cbn.
  - exact H1.
  - pose proof (keeps_step A E F _ (D_Append e) (conj HeA eq_refl) H2) as HK. cbn in HK.
    replace (Z.max seq (seq + 1)) with (seq + 1) in HK by lia. exact HK.
  - exact H3.
  - eapply NoDup_Permutation_proper; [apply (fmap_Permutation sequence (pending (set_appends (aq_reserved q ++ [e]) (aq_jobs q) (aq_results q) q)) (e :: pending q))|].
    { unfold pending, waiting. cbn. solve_Permutation. }
    cbn. apply NoDup_cons. split; [|done]. intros (x & Hx & Hin)%list_elem_of_fmap. apply Hlt in Hin. lia.
  - intros x Hx. unfold pending, waiting in Hx. cbn in Hx. apply elem_of_app in Hx as [[->|Hx]%Hpe|Hx]; [by left|right; apply H5..].
    + unfold pending. set_solver.
    + unfold pending. set_solver.
  - intros x Hx. unfold pending, waiting in Hx. cbn in Hx. apply elem_of_app in Hx as [[->|Hx]%Hpe|Hx]; [cbn; split; [lia|done]|..].
    + destruct (H6 x ltac:(unfold pending; set_solver)). cbn in *. split; [lia|done].
    + destruct (H6 x ltac:(unfold pending; set_solver)). cbn in *. split; [lia|done].
  - intros x Hx. unfold waiting in Hx. cbn in Hx. unfold aq_outbox. cbn. apply Hpe in Hx as [->|Hx].
    + split; [done|]. exists e. split; [|done]. apply bt_get_insert, H2.
    + destruct (H7 x Hx) as (Hn & e' & Hg & Hs). split; [done|]. exists e'. split; [|done]. rewrite bt_get_insert_ne.
      * unfold aq_outbox in Hg. by rewrite Em in Hg.
      * specialize (Hlt x ltac:(unfold pending; set_solver)). lia.
  - exact H8.
  - exact H9.
  - exact H10.
Qed.
Lemma drop_committing_spec s seq l : s ∈ drop_committing seq l ↔ s ∈ l ∧ s ≠ seq.
Proof.
  unfold drop_committing. rewrite !list_elem_of_In, filter_In. split; intros [H1 H2]; (split; [done|]).
  - by apply negb_true_iff, Z.eqb_neq in H2.
  - by apply negb_true_iff, Z.eqb_neq.
Qed.
Lemma finish_append_ok q A E F e ok q' :
  queue_ok q A E F → (e, ok) ∈ aq_results q → finish_append (sequence e) q = (Some ok, q') →
  queue_ok q' A E F ∧ (ok = true → e ∈ A).
Proof.
  intros HQ Hin. unfold finish_append. destruct (take_first _ _) as [[[e0 ok0] rest]|] eqn:Et; [|done].
  apply take_first_spec in Et as [He Hperm]. cbn in He. apply Z.eqb_eq in He. intros [= -> <-].
  pose proof HQ as [H1 H2 H3 H4 H5 H6 H7 H8 H9 H10]. split; [|by intros ->; apply H9].
  assert (Hp : pending q ≡ₚ e0 :: waiting q ++ rest.*1) by (unfold pending; rewrite Hperm; cbn; solve_Permutation).
  assert (Hnd : NoDup (seqs (e0 :: waiting q ++ rest.*1))) by (unfold seqs; by rewrite <- Hp).
  assert (Hne : ∀ x, x ∈ waiting q ++ rest.*1 → sequence x ≠ sequence e).
  { intros x Hx. rewrite <- He. intros Heq. apply NoDup_cons in Hnd as [Hn _]. apply Hn. rewrite <- Heq. by apply seqs_elem. }
  assert (Hsub : ∀ x, x ∈ waiting q ++ rest.*1 → x ∈ pending q) by (intros x Hx; rewrite Hp; by right).
  assert (Hres : ∀ x, x ∈ rest → x ∈ aq_results q) by (intros x Hx; rewrite Hperm; by right).
  apply NoDup_cons in Hnd as [_ Hnd]. destruct ok; (constructor; cbn).
  - exact H1.
  - exact H2.
  - exact H3.
  - exact Hnd.
  - intros x Hx. apply drop_committing_spec. split; [apply H5; by apply Hsub|by apply Hne].
  - intros x Hx. apply H6. by apply Hsub.
  - exact H7.
  - intros x Hx. by apply H8, Hres.
  - intros x Hx. by apply H9, Hres.
  - exact H10.
  - exact H1.
  - apply (filter_keeps A E F _ (λ k, match kcmp (sequence e) k with Eq => false | _ => true end)); [|done].
    intros x Hx Hf. destruct (kcmp (sequence e) (sequence x)) eqn:Ek; try done. apply Z.compare_eq in Ek.
    destruct (H8 e Hin). rewrite Ek. by apply seqs_elem.
  - exact H3.
  - exact Hnd.
  - intros x Hx. apply drop_committing_spec. split; [apply H5; by apply Hsub|by apply Hne].
  - intros x Hx. apply H6. by apply Hsub.
  - intros x Hx. destruct (H7 x Hx) as (Hn & e' & Hg & Hs). split; [done|]. exists e'. split; [|done]. unfold aq_outbox. cbn.
    rewrite bt_get_remove_ne; [exact Hg|]. intros Heq. apply (Hne x); [set_solver|done].
  - intros x Hx. by apply H8, Hres.
  - intros x Hx. by apply H9, Hres.
  - exact H10.
Qed.
End queue_invariant.
