(* ===== verification/QueueRuns.v ===== *)
(** * Runs of the receipt queue

    Every operation of the queue keeps the invariant of [QueueDurability], a crash leaves a
    directory that can be opened again, and opening it restores the invariant. *)

From stdpp Require Import base gmap strings list.
From Stdlib Require Import Ascii ZArith Lia.
From S2P Require Import Prelude RustStr BTree Json Egress Crypto Outbox QueueJournal QueueJournalFacts AverinQueue QueueWriterFacts.
From S2P Require Import QueueDurability.

Open Scope Z_scope.

Section runs.
Context {SC : SealCrates} {QS : QueueSerde} {SL : SealLaws} {QL : QueueSerdeLaws} (key : MasterKey).
Abbreviation ok := (queue_ok key).

(** ** Delivery reports *)

(** Whether a report ends the delivery of [seq]. *)
Definition reports_end (now now' : DateTime) (seq : Z) (success : bool) (error : option string) (max_attempts : Z) (q : AverinQueue)
    : bool :=
  let '((_, mutated), m) := record_delivery_transition now now' (aq_outbox q) seq success error max_attempts in
  negb (bool_decide (seq ∈ qm_committing (aq_mem q))) && mutated
  && match bt_get m seq with Some e => negb (bool_decide (delivery e = Pending)) | None => false end.
Definition of_sequence (seq : Z) (l : list OutboxEvent) : list OutboxEvent := List.filter (λ e, sequence e =? seq) l.
Lemma of_sequence_spec seq l e : e ∈ of_sequence seq l ↔ e ∈ l ∧ sequence e = seq.
Proof. unfold of_sequence. rewrite !list_elem_of_In, filter_In, Z.eqb_eq. done. Qed.

(** The transition of a pending event is one update of it. *)
Lemma transition_spec now now' m seq success error max before :
  bt_get m seq = Some before → delivery before = Pending →
  ∃ dl d at_ l la er, record_delivery_transition now now' m seq success error max = ((dl, true), bt_alter (set_delivery d at_ l la er) seq m).
Proof.
  intros Hg Hp. unfold record_delivery_transition. rewrite Hg, bool_decide_true by done. cbn [negb].
  destruct success; [by repeat eexists|]. destruct (max <=? _); by repeat eexists.
Qed.
Lemma outcome_harmless A E seq after : (delivery after ≠ Pending → seq ∈ E) → harmless A E (outcome_delta seq after).
Proof. intros H. unfold outcome_delta. destruct (delivery after); [done|by apply H|by apply H]. Qed.
Lemma outcome_over A E F F0 st seq after :
  delivery after ≠ Pending → seq ∈ E → (∀ e, e ∈ F0 → sequence e = seq) →
  keeps A E F st → keeps A E (F0 ++ F) (apply_delta st (outcome_delta seq after)).
Proof.
  intros Hd HE HF0 HK. pose proof (keeps_step A E F st _ (outcome_harmless A E seq after (λ _, HE)) HK) as [H1 H2 H3 H4 H5 H6].
  constructor; [done|done| |done|done|done]. intros e e' He [Hf|Hf]%elem_of_app; [|by apply H3]. apply HF0 in Hf as ->.
  unfold outcome_delta. destruct (delivery after); [done|..]; cbn; rewrite bt_get_alter, Z.eqb_refl;
    (destruct (bt_get _ seq); [|done]); cbn; by intros [= <-].
Qed.
Lemma on_outbox_const f st : on_outbox (λ _, f (outbox (qs_cache st))) st = on_outbox f st.
Proof. done. Qed.

(** Taking a transition back. *)
Lemma restore_ok q A E F seq before after :
  ok q A E F → bt_get (aq_outbox q) seq = Some after → (∀ e, same_event e after → same_event e before) →
  delivery before = Pending → (∀ e, e ∈ A → e ∈ F → sequence e ≠ seq) → (∀ e, e ∈ waiting q → sequence e ≠ seq) →
  ok (on_state (on_outbox (bt_insert seq before)) q) A E F.
Proof.
  intros HQ Hg Hs Hp HF Hw. destruct (Q_mem _ _ _ _ _ HQ) as [M1 M2 M3 M4 M5 M6]. unfold aq_outbox in *.
  apply on_state_ok; [done| |done|].
  - constructor; cbn; [by apply bt_insert_ok| | | |done|done].
    + intros e He Hn. destruct (M2 e He Hn) as (e' & Hg' & Hs'). destruct (Z.eq_dec (sequence e) seq) as [Heq|Hne].
      * rewrite Heq, bt_get_insert by done. exists before. split; [done|]. apply Hs. rewrite Heq, Hg in Hg'. by injection Hg' as ->.
      * rewrite bt_get_insert_ne by done. by exists e'.
    + intros e e' He Hf Hge. apply bt_get_insert_cases in Hge as [[Heq ->]|[_ Hge]]; [by destruct (HF e He Hf)|by eapply M3|done].
    + intros s e' Hge Hq. apply bt_get_insert_cases in Hge as [[-> ->]|[_ Hge]]; [done|by eapply M4|done].
  - intros e e' He Hge Hse Hd. cbn. exists e'. split; [|done]. rewrite bt_get_insert_ne; [done|]. intros Heq. by apply (Hw e He).
Qed.
Lemma record_delivery_ok q A E F acked now now' seq success error max i r q' :
  ok q A E F → (∀ e, e ∈ acked → e ∈ A) → no_short (ci_io i) →
  queue_record_delivery key seq success error max now now' i q = (r, q') →
  let over := reports_end now now' seq success error max q in
  ∃ A', (∀ e, e ∈ A → e ∈ A')
    ∧ ok q' A' (if over then seq :: E else E) (if over && result_ok r then of_sequence seq acked ++ F else F).
Proof.
  intros HQ Hack Hio. unfold queue_record_delivery, reports_end. cbv zeta.
  destruct (bool_decide_reflect (seq ∈ qm_committing (aq_mem q))) as [Hc|Hc].
  { intros [= <- <-]. destruct (record_delivery_transition _ _ _ _ _ _ _) as [[? ?] ?]. cbn. by exists A. }
  destruct (bt_get (aq_outbox q) seq) as [before|] eqn:Hg.
  2:{ intros [= <- <-]. unfold record_delivery_transition. rewrite Hg. cbn. by exists A. }
  destruct (bool_decide_reflect (delivery before = Pending)) as [Hp|Hp]; cbn [negb].
  2:{ intros [= <- <-]. unfold record_delivery_transition. rewrite Hg, bool_decide_false by done. cbn. by exists A. }
  destruct (transition_spec now now' _ seq success error max before Hg Hp) as (dl & d & at_ & l & la & er & ->).
  rewrite bt_get_alter, Z.eqb_refl, Hg. cbn [fmap option_fmap option_map negb andb].
  set (f := set_delivery d at_ l la er) in *. set (after := f before).
  assert (Hda : delivery after = d) by done. set (over := negb (bool_decide (delivery after = Pending))).
  set (E' := if over then seq :: E else E). assert (HE' : ∀ s, s ∈ E → s ∈ E') by (intros s; unfold E'; destruct over; set_solver).
  assert (HsE : d ≠ Pending → seq ∈ E') by (intros Hd; unfold E', over; rewrite Hda, bool_decide_false by done; cbn; by left).
  assert (Hws : ∀ e, e ∈ waiting q → sequence e ≠ seq).
  { intros e He Heq. apply Hc. rewrite <- Heq. apply (Q_committing _ _ _ _ _ HQ). unfold pending. set_solver. }
  set (q1 := on_state (on_outbox (λ _, bt_alter f seq (aq_outbox q))) q).
  assert (HK1 : keeps A E' F (qm_state (aq_mem q1))).
  { apply (alter_same_delivery A E' F (qm_state (aq_mem q)) seq f); [intros ? ?; apply same_event_set| |].
    - intros e He. unfold aq_outbox in Hg. rewrite Hg in He. injection He as <-. fold after. rewrite Hda.
      destruct (decide (d = Pending)) as [->|Hd]; [left; by rewrite Hp|right; auto].
    - eapply keeps_ended; [done|apply HQ]. }
  assert (HQ1 : ok q1 A E' F).
  { apply on_state_ok; [by eapply queue_ok_ended|exact HK1|done|]. intros e e' He Hge Hs Hd. cbn. rewrite bt_get_alter.
    rewrite (proj2 (Z.eqb_neq _ _)) by (by apply Hws). by exists e'. }
  assert (Hg1 : bt_get (aq_outbox q1) seq = Some after) by (cbn; by rewrite bt_get_alter, Z.eqb_refl, Hg).
  destruct (commit_delta key (outcome_delta seq after) i q1) as [r1 q2] eqn:Ec.
  set (F' := if over then of_sequence seq acked ++ F else F).
  destruct (commit_ok key q1 A E' F F' (outcome_delta seq after) i r1 q2 HQ1 Hio) as (Hm & A' & HA' & HQ2); [| | | |exact Ec|].
  - intros A1 _. by apply outcome_harmless.
  - intros e. unfold F'. destruct over; [|apply (Q_over _ _ _ _ _ HQ)].
    intros [[He _]%of_sequence_spec|He]%elem_of_app; [by apply Hack|by apply (Q_over _ _ _ _ _ HQ)].
  - unfold F', over. destruct (bool_decide_reflect (delivery after = Pending)) as [Hd|Hd]; cbn [negb]; [done|].
    destruct HK1 as [K1 K2 K3 K4 K5 K6]. constructor; [done|done| |done|done|done].
    intros e e' He [[_ Hf]%of_sequence_spec|Hf]%elem_of_app; [|by apply K3]. rewrite Hf. unfold aq_outbox in Hg1. rewrite Hg1.
    by intros [= <-].
  - intros A1 st _ _ HK. unfold F', over. destruct (bool_decide_reflect (delivery after = Pending)) as [Hd|Hd]; cbn [negb].
    + apply keeps_step; [by apply outcome_harmless|done].
    + apply outcome_over; [done|by apply HsE|by intros e [_ ?]%of_sequence_spec|done].
  - unfold F'. destruct r1 as [u|err]; intros [= <- <-]; exists A'; (split; [done|]); cbn [result_ok] in *.
    + by rewrite andb_true_r.
    + rewrite andb_false_r. eapply (restore_ok _ _ _ _ _ _ after); [exact HQ2| | |done| |].
      * unfold aq_outbox. rewrite Hm. exact Hg1.
      * intros e (? & ? & ? & ? & ? & ?). done.
      * intros e _ Hf Heq. apply (K_over _ _ _ _ (Q_mem _ _ _ _ _ HQ) e before); [by apply (Q_over _ _ _ _ _ HQ)|done| |done].
        rewrite Heq. exact Hg.
      * intros e He. pose proof (Q_committing _ _ _ _ _ HQ2 e ltac:(unfold pending; set_solver)) as Hce. rewrite Hm in Hce.
        intros Heq. apply Hc. by rewrite <- Heq.
Qed.

(** ** Grants, pruning, reclaiming *)

Lemma resolve_grant_ok q A E F t gr c i r q' :
  ok q A E F → no_short (ci_io i) → resolve_grant key t gr c i q = (r, q') → ∃ A', (∀ e, e ∈ A → e ∈ A') ∧ ok q' A' E F.
Proof.
  intros HQ Hio. unfold resolve_grant. destruct (commit_delta _ _ _ _) as [r1 q1] eqn:Ec.
  destruct (commit_plain key q A E F (D_GrantResolved t gr c) i r1 q1 HQ Hio (λ _ _, I) Ec) as (_ & A' & HA' & HQ1).
  destruct r1 as [u|err]; intros [= <- <-]; exists A'; (split; [done|]); [|done]. apply on_state_ok; [done| |done|].
  - apply (keeps_step A' E F _ (D_GrantResolved t gr c)); [done|apply HQ1].
  - intros e e' _ Hg Hs Hd. by exists e'.
Qed.
Lemma delivered_prefix_spec cutoff m upto :
  bt_ok m → delivered_prefix cutoff m = Some upto → ∀ k e, bt_get m k = Some e → k <= upto → delivery e = Delivered.
Proof.
  revert upto. induction m as [|[k0 e0] m IH]; intros upto Hok; cbn [delivered_prefix]; [done|].
  destruct Hok as [Ha Hok]. destruct (created_at e0 <? cutoff); [|done]. destruct (bool_decide_reflect (delivery e0 = Delivered)) as [Hd|]; [|done].
  cbn [andb]. intros [= <-] k e. cbn [bt_get]. destruct (kcmp k k0) eqn:Ek; [by intros [= <-]|..]; intros Hg Hle.
  all: assert (Hk0 : k0 < k) by (apply Z.compare_lt_iff; apply bt_get_elem_of in Hg; by eapply bt_above_elem_of in Hg).
  all: destruct (delivered_prefix cutoff m) as [u|]; [|cbn in Hle; lia]; by eapply IH.
Qed.
Lemma quiet_waiting q A E F : ok q A E F → qm_committing (aq_mem q) = [] → pending q = [].
Proof.
  intros HQ Hc. destruct (pending q) as [|e l] eqn:Ep; [done|]. pose proof (Q_committing _ _ _ _ _ HQ e) as H. rewrite Ep, Hc in H.
  specialize (H ltac:(by left)). by apply elem_of_nil in H.
Qed.
Lemma prune_ok q A E F secs now i r q' :
  ok q A E F → no_short (ci_io i) → prune_delivered_prefix key secs now i q = (r, q') → ∃ A', (∀ e, e ∈ A → e ∈ A') ∧ ok q' A' E F.
Proof.
  intros HQ Hio. unfold prune_delivered_prefix. destruct (gc_cutoff now secs) as [cutoff|]; [|intros [= <- <-]; by exists A].
  destruct (qm_committing (aq_mem q)) eqn:Hc; [|intros [= <- <-]; by exists A].
  destruct (delivered_prefix cutoff (aq_outbox q)) as [upto|] eqn:Hd; [|intros [= <- <-]; by exists A].
  destruct (commit_delta _ _ _ _) as [r1 q1] eqn:Ec. pose proof (quiet_waiting q A E F HQ Hc) as Hq.
  assert (Hends : ∀ A0 st, keeps A0 E F st → outbox (qs_cache st) = aq_outbox q → ∀ e, e ∈ A0 → sequence e <= upto → sequence e ∈ E).
  { intros A0 st HK Ho e He Hle. destruct (decide (sequence e ∈ E)) as [|Hn]; [done|]. destruct (K_kept _ _ _ _ HK e He Hn) as (e' & Hg & _).
    apply (K_ended _ _ _ _ HK _ e' Hg). rewrite Ho in Hg.
    assert (Hbt : bt_ok (aq_outbox q)) by (rewrite <- Ho; apply HK). by rewrite (delivered_prefix_spec _ _ _ Hbt Hd _ _ Hg Hle). }
  destruct (commit_plain key q A E F (D_Prune upto) i r1 q1 HQ Hio) as (Hm & A' & HA' & HQ1); [|done|].
  { intros A1 HA1 e He Hle. apply (Hends A (qm_state (aq_mem q)) (Q_mem _ _ _ _ _ HQ) eq_refl); [|done].
    destruct (HA1 e He) as [|Hw]; [done|]. unfold pending in Hq. apply app_eq_nil in Hq as [Hq _]. rewrite Hq in Hw. by apply elem_of_nil in Hw. }
  destruct r1 as [u|err]; intros [= <- <-]; exists A'; (split; [done|]); [|done]. apply on_state_ok; [done| |done|].
  - apply (keeps_step A' E F _ (D_Prune upto)); [|apply HQ1]. intros e He Hle.
    eapply Hends; [apply HQ1|by rewrite Hm|done|done].
  - intros e e' He. assert (Hc1 : qm_committing (aq_mem q1) = []) by (by rewrite Hm). pose proof (quiet_waiting _ _ _ _ HQ1 Hc1) as Hq1.
    unfold pending in Hq1. apply app_eq_nil in Hq1 as [Hq1 _]. rewrite Hq1 in He. by apply elem_of_nil in He.
Qed.
Lemma reclaim_ok q A E F seq i r q' :
  ok q A E F → no_short (ci_io i) → reclaim_dead_letter key seq i q = (r, q') → ∃ A', (∀ e, e ∈ A → e ∈ A') ∧ ok q' A' E F.
Proof.
  intros HQ Hio. unfold reclaim_dead_letter. destruct (bt_get (aq_outbox q) seq) as [e0|] eqn:Hg; [|intros [= <- <-]; by exists A].
  destruct (bool_decide_reflect (delivery e0 = DeadLettered)) as [Hd|]; [|intros [= <- <-]; by exists A].
  destruct (commit_delta _ _ _ _) as [r1 q1] eqn:Ec.
  assert (HsE : seq ∈ E) by (apply (K_ended _ _ _ _ (Q_mem _ _ _ _ _ HQ) seq e0 Hg); by rewrite Hd).
  destruct (commit_plain key q A E F (D_Reclaimed seq) i r1 q1 HQ Hio (λ _ _, HsE) Ec) as (Hm & A' & HA' & HQ1).
  destruct r1 as [u|err]; intros [= <- <-]; exists A'; (split; [done|]); [|done]. apply on_state_ok; [done| |done|].
  - apply (keeps_step A' E F _ (D_Reclaimed seq)); [exact HsE|apply HQ1].
  - intros e e' He Hge Hs Hp. cbn. exists e'. split; [|done]. rewrite bt_get_remove_ne; [done|]. intros Heq.
    unfold aq_outbox in Hge, Hg. rewrite <- Heq, Hm, Hg in Hge. injection Hge as ->. congruence.
Qed.

(** ** Compaction *)

Lemma compact_ok q A E F io r q' :
  ok q A E F → no_short io → compact io q = (r, q') → ok q' A E F.
Proof.
  intros HQ Hio. unfold compact. destruct (qm_committing (aq_mem q)) eqn:Hc; [|by intros [= <- <-]].
  pose proof (quiet_waiting q A E F HQ Hc) as Hq. unfold pending, waiting in Hq.
  apply app_eq_nil in Hq as [[Hres Hjobs%fmap_nil_inv]%app_eq_nil Hresults%fmap_nil_inv].
  pose proof HQ as [(G & g & Hd) H2 H3 H4 H5 H6 H7 H8 H9 H10]. unfold write_batch. rewrite Hjobs. cbn [fmap list_fmap app].
  destruct (aq_dir q) as [deltas snaps] eqn:Edir. destruct (run_batch [WJ_Roll] _) as [res s'] eqn:Er.
  destruct (run_batch_roll key _ _ _ _ _ _ _ _ _ (proj1 Hd) Hio Er) as [Es (G' & g' & Hw' & Hcur & Hk & Hi)].
  assert (Hdisk : disk_ok key (bs_dir s') (bs_index s') (aq_staged q) G' g' (keeps A E F)).
  { eapply (disk_batch key {| qd_deltas := deltas; qd_snapshots := snaps |}); [exact Hd|done|done|done|exact Hk|].
    intros st p HK Hp _. apply sublist_nil_r in Hp as ->. done. }
  set (q1 := {| aq_mem := _; aq_dir := _; aq_index := _ |}).
  assert (HQ1 : ok q1 A E F).
  { constructor; cbn; [by exists G', g'|done|done|..]; unfold pending, waiting; cbn; rewrite ?Hres, ?Hresults; cbn.
    - constructor.
    - by intros e ?%elem_of_nil.
    - by intros e ?%elem_of_nil.
    - by intros e ?%elem_of_nil.
    - by intros e ?%elem_of_nil.
    - by intros e ?%elem_of_nil.
    - by intros e f ?%elem_of_nil. }
  destruct res as [i|]; intros [= <- <-]; [|done]. destruct (Hi i eq_refl) as (Hii & Hci & Hg'). subst g'.
  destruct HQ1 as [_ K2 K3 K4 K5 K6 K7 K8 K9 K10]. constructor; [|exact K2|exact K3|exact K4|exact K5|exact K6|exact K7|exact K8|exact K9|exact K10].
  exists G', (gnew i). destruct Hdisk as (Hw & Hs & b & base & Hb & Hlt & Hv & Hst). split_and!; [done|done|]. exists b, base.
  split_and!; [done|apply Hlt|apply Hlt|done|]. intros i0 s0 [[= -> ->]|Hin]%elem_of_cons; [|by apply Hst].
  pose proof (proj2 (proj2 Hd)) as (b0 & base0 & _ & Hb0 & _). cbn. split; [lia|]. intros _ J HJ.
  assert (J = []) as ->; [|done]. apply survivors_app in HJ as (J1 & J2 & -> & HJ1 & HJ2).
  rewrite (survivors_below (i - 1) G' J1); [|intros g0 Hg0; pose proof (ghost_below key _ _ _ _ Hw g0 Hg0); lia|done].
  apply survivors_last in HJ2 as (j & _ & ->); [|cbn; lia]. cbn. by rewrite take_nil.
Qed.

(** Maps that lose their smaller keys. *)
Lemma last_filter {V} (f : Z * V → bool) (m : list (Z * V)) x : last m = Some x → f x = true → last (List.filter f m) = Some x.
Proof.
  intros Hl Hf. destruct (exists_last (l := m)) as (m0 & y & ->); [by intros ->|]. rewrite last_snoc in Hl. injection Hl as ->.
  rewrite List.filter_app. cbn. rewrite Hf. by rewrite last_snoc.
Qed.
Lemma last_key {V} (m : BTreeMap Z V) k v : bt_ok m → last m = Some (k, v) → ∀ k' v', (k', v') ∈ m → k' <= k.
Proof.
  intros Hok Hl k' v' Hin. destruct (exists_last (l := m)) as (m0 & y & ->); [by intros ->|]. rewrite last_snoc in Hl. injection Hl as ->.
  apply elem_of_app in Hin as [Hin|Hin]; [|apply list_elem_of_singleton in Hin; injection Hin as -> _; lia].
  apply Z.lt_le_incl, (bt_last_above m0 k v Hok). apply list_elem_of_fmap. by exists (k', v').
Qed.
Lemma last_insert {V} (m : BTreeMap Z V) k v :
  bt_ok m → (∀ k' v', (k', v') ∈ m → k' <= k) → last (bt_insert k v m) = Some (k, v).
Proof.
  induction m as [|[k1 v1] m IH]; intros Hok Hm; [done|]. cbn [bt_insert]. destruct Hok as [Ha Hok].
  assert (Hle : k1 <= k) by (apply (Hm k1 v1); by left). destruct (kcmp k k1) eqn:Ek.
  - apply Z.compare_eq in Ek as ->. destruct m as [|[k2 v2] m]; [done|]. destruct Ha as [Ha _].
    specialize (Hm k2 v2 ltac:(right; by left)). change (k1 < k2) in Ha. lia.
  - change (k < k1) in Ek. lia.
  - assert (H : last (bt_insert k v m) = Some (k, v)) by (apply IH; [done|]; intros k' v' Hin; apply (Hm k' v'); by right).
    destruct (bt_insert k v m) as [|x l] eqn:E; [done|]. exact H.
Qed.
Lemma last_insert_below {V} (m : BTreeMap Z V) k v x : bt_ok m → last m = Some x → k < x.1 → last (bt_insert k v m) = Some x.
Proof.
  induction m as [|[k1 v1] m IH]; intros Hok Hl Hlt; [done|]. cbn [bt_insert]. destruct Hok as [Ha Hok]. destruct (kcmp k k1) eqn:Ek.
  - apply Z.compare_eq in Ek as ->. destruct m as [|y m]; [|exact Hl]. cbn in Hl. injection Hl as <-. cbn in Hlt. lia.
  - done.
  - destruct m as [|y m]; [cbn in Hl; injection Hl as <-; cbn in Hlt; change (k > k1) in Ek; lia|].
    specialize (IH Hok Hl Hlt). destruct (bt_insert k v (y :: m)) as [|z l] eqn:E; [done|]. exact IH.
Qed.

(** Segments at or below the base may be gone. *)
Lemma survivors_filter b (f : SegGhost → bool) G J :
  (∀ g, f g = false → gh_index g <= b) → survivors b (List.filter f G) J ↔ survivors b G J.
Proof.
  intros Hf. revert J. induction G as [|g G IH]; intros J; [done|]. cbn [List.filter survivors]. destruct (f g) eqn:Ef; cbn [survivors].
  - destruct (gh_index g <=? b); [apply IH|]. by setoid_rewrite IH.
  - rewrite (proj2 (Z.leb_le _ _)) by (by apply Hf). apply IH.
Qed.
Lemma files_filter (f : Z → bool) m G :
  Forall2 (file_ok key) m G →
  Forall2 (file_ok key) (List.filter (λ e, f e.1) m) (List.filter (λ g, f (gh_index g)) G).
Proof.
  induction 1 as [|e g m G [He Hg] _ IH]; [done|]. cbn [List.filter]. rewrite He. destruct (f (gh_index g)); [|done].
  constructor; [|done]. by split.
Qed.
Lemma writing_filter (f : Z → bool) m cur G g :
  writing key m cur G g → f cur = true →
  writing key (List.filter (λ e, f e.1) m) cur (List.filter (λ g, f (gh_index g)) G) g.
Proof.
  intros (m0 & s & -> & Hok & HF & Hg & Hs) Hf. exists (List.filter (λ e, f e.1) m0), s. split_and!; [|by apply bt_filter_ok|by apply files_filter|done|done].
  rewrite List.filter_app. cbn. by rewrite Hf.
Qed.
Lemma finish_compact_ok q A E F index nonce w kept r q' :
  ok q A E F → finish_compact key index nonce w kept q = (r, q') → ok q' A E F.
Proof.
  intros HQ. unfold finish_compact. destruct (take_first _ _) as [[[i snap] rest]|] eqn:Et; [|by intros [= <- <-]].
  apply take_first_spec in Et as [Hi Hperm]. cbn in Hi. apply Z.eqb_eq in Hi as ->.
  pose proof HQ as [(G & g & Hw & Hs & b & base & Hb & Hlt & Hv & Hst) H2 H3 H4 H5 H6 H7 H8 H9 H10].
  destruct (Hst index snap) as [Hidx Hview]; [rewrite Hperm; by left|].
  assert (Hrest : ∀ i s0, (i, s0) ∈ rest → (i, s0) ∈ aq_staged q) by (intros i s0 Hin; rewrite Hperm; by right).
  assert (Hfin : ∀ d G', (∃ b base, bt_ok (qd_snapshots d) ∧ writing key (qd_deltas d) (aq_index q) G' g ∧ replay_base key d = Ok (b, base)
      ∧ 0 <= b < aq_index q ∧ view (keeps A E F) base b (G' ++ [g])
      ∧ ∀ i s0, (i, s0) ∈ rest → b <= i → view (keeps A E F) s0 i (G' ++ [g])) → ok (set_dir d (set_staged rest q)) A E F).
  { intros d G' (b' & base' & Hs' & Hw' & Hb' & Hlt' & Hv' & Hst').
    constructor; [|exact H2|exact H3|exact H4|exact H5|exact H6|exact H7|exact H8|exact H9|exact H10].
    exists G', g. split_and!; [done|done|]. exists b', base'. split_and!; [done|apply Hlt'|apply Hlt'|done|]. intros i s0 Hin.
    destruct (Hst i s0 (Hrest i s0 Hin)) as [? _]. split; [done|]. by apply Hst'. }
  assert (Hsame : ok (set_staged rest q) A E F).
  { apply (Hfin (aq_dir q) G). exists b, base. split_and!; [done|done|done|lia|lia|done|]. intros i s0 Hin. by apply Hst, Hrest. }
  destruct (snapshot_content nonce key snap) as [content|err] eqn:Esnap; [|by intros [= <- <-]].
  apply (snapshot_reads_back key nonce snap content) in Esnap. set (snaps' := bt_insert index content (qd_snapshots (aq_dir q))).
  assert (Hsn : bt_ok snaps') by (by apply bt_insert_ok).
  (* the base after the snapshot is in place *)
  assert (Hbase : ∃ b' base', (∀ d, qd_snapshots d = snaps' → replay_base key d = Ok (b', base')) ∧ index <= b' < aq_index q
    ∧ view (keeps A E F) base' b' (G ++ [g]) ∧ b <= b' ∧ (∃ c, last snaps' = Some (b', c))).
  { unfold replay_base in Hb. destruct (last (qd_snapshots (aq_dir q))) as [[k c]|] eqn:El.
    - destruct (read_snapshot c key) as [st|] eqn:Er; [|done]. injection Hb as -> ->. destruct (Z.lt_ge_cases index b) as [Hlt'|Hge].
      + assert (Hl : last snaps' = Some (b, c)) by (apply last_insert_below; done).
        exists b, base. split_and!; [|lia|lia|done|lia|by exists c]. intros d Ed. unfold replay_base. rewrite Ed, Hl. by rewrite Er.
      + assert (Hl : last snaps' = Some (index, content)).
        { apply last_insert; [done|]. intros k' v' Hin. pose proof (last_key _ _ _ Hs El k' v' Hin). lia. }
        exists index, snap. split_and!; [|lia|lia|apply Hview; lia|lia|by exists content]. intros d Ed. unfold replay_base. rewrite Ed, Hl. by rewrite Esnap.
    - injection Hb as <- <-. apply last_None in El. unfold snaps'. rewrite El. cbn.
      exists index, snap. split_and!; [|lia|lia|apply Hview; lia|lia|by exists content]. intros d Ed. unfold replay_base. rewrite Ed. cbn. by rewrite Esnap. }
  destruct Hbase as (b' & base' & Hrep & Hb' & Hv' & Hbb & c & Hlast).
  destruct w; [by intros [= <- <-]|..]; intros [= <- <-].
  - apply (Hfin _ G). exists b', base'. split_and!; [done|done|by apply Hrep|lia|lia|done|]. intros i s0 Hin Hbi. apply Hst; [by apply Hrest|lia].
  - set (f := λ k, (index <? k) || kept k false). apply (Hfin _ (List.filter (λ g, f (gh_index g)) G)). exists b', base'.
    assert (Hf : ∀ g0 i, index <= i → (f (gh_index g0)) = false → gh_index g0 <= i).
    { intros g0 i Hi Hf. unfold f in Hf. apply orb_false_iff in Hf as [Hf _]. apply Z.ltb_ge in Hf. lia. }
    assert (Hcur : f (aq_index q) = true) by (unfold f; rewrite (proj2 (Z.ltb_lt _ _)) by lia; done).
    assert (Hfv : ∀ i base0, index <= i → view (keeps A E F) base0 i (G ++ [g]) →
              view (keeps A E F) base0 i (List.filter (λ g, f (gh_index g)) G ++ [g])).
    { intros i base0 Hi Hv0 J HJ. apply Hv0. apply survivors_app in HJ as (J1 & J2 & -> & HJ1 & HJ2). apply survivors_app.
      exists J1, J2. split_and!; [done| |done]. exact (proj1 (survivors_filter i (λ g, f (gh_index g)) G J1 (λ g0, Hf g0 i Hi)) HJ1). }
    split_and!; cbn.
    + by apply bt_filter_ok.
    + by apply (writing_filter f).
    + specialize (Hrep {| qd_deltas := []; qd_snapshots := snaps' |} eq_refl). unfold replay_base in Hrep |- *. cbn in Hrep |- *.
      rewrite (last_filter _ _ _ Hlast); [by rewrite Hlast in Hrep|]. cbn. by rewrite (proj2 (Z.leb_le _ _)) by lia.
    + lia.
    + lia.
    + apply Hfv; [lia|done].
    + intros i s0 Hin Hbi. apply Hfv; [lia|]. apply Hst; [by apply Hrest|lia].
Qed.
End runs.
