(* ===== verification/QueueRecovery.v ===== *)
(** * Crashes and restarts of the receipt queue

    A crash cuts every segment anywhere behind what was synced.  Opening what it leaves
    succeeds, and what was acknowledged is there. *)

From stdpp Require Import base gmap strings list.
From Stdlib Require Import Ascii ZArith Lia.
From S2P Require Import Prelude RustStr BTree Json Egress Crypto Outbox QueueJournal QueueJournalFacts AverinQueue QueueWriterFacts.
From S2P Require Import QueueDurability QueueRuns.

Open Scope Z_scope.

(** What a crash leaves: of each segment some of the bytes, at least the synced ones, and every
    file that was created.  A segment whose directory could not be synced after its creation
    may in truth be lost with its entry; the writer goes on appending to it all the same. *)
Definition truncated (e e' : Z * SegmentData) : Prop :=
  e'.1 = e.1 ∧ ∃ n, (sg_synced e.2 <= n <= length (sg_bytes e.2))%nat ∧ sg_bytes e'.2 = take n (sg_bytes e.2)
    ∧ (sg_synced e.2 <= sg_synced e'.2 <= n)%nat.
Definition crashed (d d' : QueueDir) : Prop :=
  Forall2 truncated (qd_deltas d) (qd_deltas d') ∧ qd_snapshots d' = qd_snapshots d.

Section recovery.
Context {SC : SealCrates} {QS : QueueSerde} {SL : SealLaws} {QL : QueueSerdeLaws} (key : MasterKey).

(** ** Crashes *)

Definition down_ok (d : QueueDir) (A : list OutboxEvent) (E : list Z) (F : list OutboxEvent) : Prop :=
  (∀ e, e ∈ F → e ∈ A) ∧ bt_ok (qd_snapshots d)
  ∧ ∃ G b base, files_ok key (qd_deltas d) G ∧ replay_base key d = Ok (b, base) ∧ 0 <= b ∧ view (keeps A E F) base b G.

Definition cut_ghost (g g' : SegGhost) : Prop :=
  gh_index g' = gh_index g ∧ gh_synced g' = gh_synced g
  ∧ ∃ j, gh_deltas g' = take j (gh_deltas g) ∧ (gh_synced g <= j)%nat.
Lemma file_cut e e' g : file_ok key e g → truncated e e' → ∃ g', cut_ghost g g' ∧ file_ok key e' g'.
Proof.
  intros [He (t & bodies & Hseg & Hsyn & Hlen & Hk)] [He' (n & Hn & Hb & Hs)].
  destruct (segment_cut key _ _ _ _ n Hseg ltac:(lia)) as (j & t' & Hseg' & Hj & Hall).
  assert (Hkj : (gh_synced g <= j)%nat).
  { apply Hall; [lia|]. destruct Hseg as (_ & HF & _). apply Forall2_length in HF. lia. }
  exists {| gh_index := gh_index g; gh_deltas := take j (gh_deltas g); gh_synced := gh_synced g |}.
  split; [split_and!; [done..|by exists j]|]. split; [by rewrite He', He|]. exists t', (take j bodies). cbn [gh_deltas gh_synced]. rewrite Hb. split_and!.
  - done.
  - rewrite take_take, Nat.min_l by lia. lia.
  - rewrite length_take. lia.
  - rewrite length_take. lia.
Qed.
Lemma survivors_cut b G G' J : Forall2 cut_ghost G G' → survivors b G' J → survivors b G J.
Proof.
  intros HF. revert J. induction HF as [|g g' G G' (Hi & Hk & j & Hd & Hj) _ IH]; intros J; [done|]. cbn [survivors]. rewrite Hi.
  destruct (gh_index g <=? b); [apply IH|]. intros (j' & J' & Hj' & -> & HJ). rewrite Hk, Hd, length_take in Hj'.
  exists (Nat.min j' j), J'. split; [lia|]. split; [by rewrite Hd, take_take|by apply IH].
Qed.
Lemma truncated_keys m m' : Forall2 truncated m m' → bt_keys m = bt_keys m'.
Proof. induction 1 as [|e e' m m' [He _] _ IH]; [done|]. cbn. unfold bt_keys in IH. by rewrite He, IH. Qed.
Lemma files_cut m m' G :
  files_ok key m G → Forall2 truncated m m' → ∃ G', files_ok key m' G' ∧ Forall2 cut_ghost G G'.
Proof.
  intros [Hok HF] Ht. assert (Hok' : bt_ok m') by (eapply bt_ok_keys; [by apply truncated_keys|done]).
  assert (H : ∃ G', Forall2 (file_ok key) m' G' ∧ Forall2 cut_ghost G G').
  { clear Hok Hok'. revert m' Ht. induction HF as [|e g m G Hg _ IH]; intros m' Ht; inversion Ht as [|? e' ? m1 He Ht']; subst; [by exists []|].
    destruct (IH m1 Ht') as (G' & H1 & H2). destruct (file_cut e e' g Hg He) as (g' & H3 & H4).
    exists (g' :: G'). split; by constructor. }
  destruct H as (G' & H1 & H2). exists G'. by split.
Qed.
Lemma crash_down d d' A E F : down_ok d A E F → crashed d d' → down_ok d' A E F.
Proof.
  intros (HF & Hs & G & b & base & Hf & Hb & Hb0 & Hv) [Ht Es]. destruct (files_cut _ _ _ Hf Ht) as (G' & Hf' & Hc).
  split; [done|]. split; [by rewrite Es|]. exists G', b, base. split_and!; [done| |done|].
  - unfold replay_base in Hb |- *. by rewrite Es.
  - intros J HJ. apply Hv. by eapply survivors_cut.
Qed.
Lemma live_down q A E F : queue_ok key q A E F → down_ok (aq_dir q) A E F.
Proof.
  intros [(G & g & Hw & Hs & b & base & Hb & Hlt & Hv & _) _ HF _ _ _ _ _ _ _]. split; [done|]. split; [done|].
  exists (G ++ [g]), b, base. split_and!; [by eapply writing_files|done|lia|done].
Qed.

(** ** Opening *)

Lemma replay_all b m G :
  Forall2 (file_ok key) m G → ∃ J, survivors b G J ∧ ∀ st, replay_segments key b m st = Ok (apply_deltas st J).
Proof.
  induction 1 as [|[i s] g m G [Hi (t & bodies & Hseg & _ & _ & Hk)] _ (J & HJ & Hr)]; [by exists []|]. cbn in Hi. subst i. cbn [survivors replay_segments].
  destruct (gh_index g <=? b); [by exists J|]. exists (gh_deltas g ++ J). split.
  - exists (length (gh_deltas g)), J. split; [lia|]. split; [by rewrite take_ge by lia|done].
  - intros st. cbn in Hseg. rewrite (replay_segment_of key _ _ _ _ Hseg), Hr. unfold apply_deltas. by rewrite foldl_app.
Qed.
Lemma foldl_max b l : b <= foldl Z.max b l ∧ ∀ k, k ∈ l → k <= foldl Z.max b l.
Proof.
  revert b. induction l as [|x l IH]; intros b; cbn [foldl]; [split; [lia|by intros k ?%elem_of_nil]|].
  destruct (IH (Z.max b x)) as [H1 H2]. split; [lia|]. intros k [->|Hk]%elem_of_cons; [lia|by apply H2].
Qed.

Lemma cleaned_ok d A E F G b base kept :
  files_ok key (qd_deltas d) G → replay_base key d = Ok (b, base) → bt_ok (qd_snapshots d) → view (keeps A E F) base b G →
  ∃ G', files_ok key (qd_deltas (cleaned b kept d)) G' ∧ replay_base key (cleaned b kept d) = Ok (b, base)
    ∧ bt_ok (qd_snapshots (cleaned b kept d)) ∧ view (keeps A E F) base b G'.
Proof.
  intros [Hok HF] Hb Hs Hv. set (f := λ k, (b <=? k) || kept k false).
  exists (List.filter (λ g, f (gh_index g)) G). split_and!; cbn.
  - split; [by apply bt_filter_ok|by apply (files_filter key f)].
  - unfold replay_base in Hb |- *. cbn. destruct (last (qd_snapshots d)) as [[k c]|] eqn:El.
    + destruct (read_snapshot c key) as [st|] eqn:Er; [|done]. injection Hb as -> ->.
      rewrite (last_filter _ _ _ El); [by rewrite Er|]. cbn. by rewrite Z.leb_refl.
    + apply last_None in El. by rewrite El.
  - by apply bt_filter_ok.
  - intros J HJ. apply Hv. eapply survivors_filter; [|exact HJ]. intros g Hf. unfold f in Hf. apply orb_false_iff in Hf as [Hf _].
    apply Z.leb_gt in Hf. lia.
Qed.
Lemma fresh_segment d G b base A E F cur io ok s :
  files_ok key (qd_deltas d) G → bt_ok (qd_snapshots d) → replay_base key d = Ok (b, base) → 0 <= b <= cur → view (keeps A E F) base b G →
  (∀ k, k ∈ bt_keys (qd_deltas d) → k <= cur) → (∀ e, e ∈ F → e ∈ A) →
  next_segment {| bs_dir := d; bs_index := cur; bs_size := 0; bs_dirty := false; bs_io := io |} = (ok, s) →
  down_ok (bs_dir s) A E F ∧ (ok = true → ∃ G' g', disk_ok key (bs_dir s) (bs_index s) [] G' g' (keeps A E F)).
Proof.
  intros Hf Hs Hb Hlt Hv Hk HF. unfold next_segment. destruct (next_io _) as [a s1] eqn:E1.
  destruct (next_io_frame _ _ _ E1) as (Ed & Ei & _). cbn in Ed, Ei.
  assert (Hd : down_ok d A E F) by (split; [done|]; split; [done|]; by exists G, b, base; split_and!; [..|lia|]).
  destruct a; [|intros [= <- <-]; rewrite Ed; done..].
  set (s2 := {| bs_dir := _; bs_index := _; bs_size := _; bs_dirty := _; bs_io := _ |}).
  destruct (next_io s2) as [a2 s3] eqn:E2. destruct (next_io_frame _ _ _ E2) as (Ed2 & Ei2 & _). intros [= <- <-]. cbn in Ed2, Ei2.
  rewrite Ed2, Ei2. rewrite Ed, Ei. clear E1 E2. cbn.
  assert (Hdisk : disk_ok key (set_deltas (bt_insert (cur + 1) {| sg_bytes := []; sg_synced := 0 |} (qd_deltas d)) d) (cur + 1) [] G (gnew (cur + 1)) (keeps A E F)).
  { split_and!; [|done|].
    - cbn. destruct Hf as [Hok HF2]. exists (qd_deltas d), {| sg_bytes := []; sg_synced := 0 |}. split_and!; [|by apply bt_insert_ok|done|done|].
      + apply bt_insert_last. intros k v Hin. apply Z.compare_lt_iff. assert (k <= cur); [|lia]. apply Hk. apply list_elem_of_fmap. by exists (k, v).
      + exists []. cbn. split_and!; [|lia..]. split_and!; [done|constructor|apply torn_nil].
    - exists b, base. split_and!; [done|lia|lia| |by intros i s0 ?%elem_of_nil]. intros J HJ. apply Hv. by apply survivors_new in HJ; [|lia]. }
  split; [|intros _; by exists G, (gnew (cur + 1))].
  destruct Hdisk as (Hw & Hs' & b' & base' & Hb' & Hlt' & Hv' & _). split; [done|]. split; [done|].
  exists (G ++ [gnew (cur + 1)]), b', base'. split_and!; [by eapply writing_files|done|lia|done].
Qed.
Lemma open_ok d A E F kept io r d' :
  down_ok d A E F → queue_open key kept io d = (r, d') →
  down_ok d' A E F ∧ (∀ q, r = Ok q → queue_ok key q A E F) ∧ (io = [] → ∃ q, r = Ok q).
Proof.
  intros (HF & Hs & G & b & base & Hf & Hb & Hb0 & Hv). unfold queue_open. rewrite Hb.
  destruct (replay_all b _ _ (proj2 Hf)) as (J & HJ & Hr). rewrite Hr. cbv zeta.
  destruct (cleaned_ok d A E F G b base kept Hf Hb Hs Hv) as (G' & Hf' & Hb' & Hs' & Hv').
  destruct (foldl_max b (bt_keys (qd_deltas d))) as [Hm1 Hm2].
  destruct (next_segment _) as [okb s] eqn:En. intros [= <- <-].
  assert (Hkeys : ∀ k, k ∈ bt_keys (qd_deltas (cleaned b kept d)) → k <= foldl Z.max b (bt_keys (qd_deltas d))).
  { intros k ([k0 v0] & -> & Hin)%list_elem_of_fmap. apply Hm2. apply list_elem_of_fmap. exists (k0, v0). split; [done|].
    cbn in Hin. apply list_elem_of_In, List.filter_In in Hin as [Hin _]. by apply list_elem_of_In. }
  destruct (fresh_segment _ G' b base A E F _ io okb s Hf' Hs' Hb' (conj Hb0 Hm1) Hv' Hkeys HF En) as [H1 H2].
  split; [done|]. split.
  - intros q. destruct okb; [|done]. intros [= <-]. destruct (H2 eq_refl) as (G2 & g2 & Hd). constructor; cbn.
    + by exists G2, g2.
    + by apply Hv.
    + done.
    + constructor.
    + by intros e ?%elem_of_nil.
    + by intros e ?%elem_of_nil.
    + by intros e ?%elem_of_nil.
    + by intros e ?%elem_of_nil.
    + by intros e ?%elem_of_nil.
    + by intros e f ?%elem_of_nil.
  - intros ->. cbn in En. injection En as <- _. by eexists.
Qed.
End recovery.

(** ** Runs *)

Inductive QueueWorld := Live (q : AverinQueue) | Down (d : QueueDir).

Section run.
Context {SC : SealCrates} {QS : QueueSerde} (key : MasterKey).

(** The life of a queue over its directory: what was acknowledged to the callers of
    [append], the sequences whose delivery a report ended, and the acknowledged events for
    which such a report was itself acknowledged.  File operations may fail, but no write falls
    short ([short_write_hides_a_committed_record] is what happens then), and the sequence
    counter stays below the top of [u64]. *)
Inductive queue_run : QueueWorld → list OutboxEvent → list Z → list OutboxEvent → Prop :=
| QR_start : queue_run (Down {| qd_deltas := []; qd_snapshots := [] |}) [] [] []
| QR_open d acked ended over kept io q d' :
    queue_run (Down d) acked ended over → queue_open key kept io d = (Ok q, d') → queue_run (Live q) acked ended over
| QR_open_fails d acked ended over kept io e d' :
    queue_run (Down d) acked ended over → queue_open key kept io d = (Err e, d') → queue_run (Down d') acked ended over
| QR_crash q acked ended over d :
    queue_run (Live q) acked ended over → crashed (aq_dir q) d → queue_run (Down d) acked ended over
| QR_crash_again d acked ended over d' :
    queue_run (Down d) acked ended over → crashed d d' → queue_run (Down d') acked ended over
| QR_reserve q acked ended over now subj ty body :
    queue_run (Live q) acked ended over → outbox_seq (qs_cache (qm_state (aq_mem q))) < u64_max →
    queue_run (Live (reserve_for_append now subj ty body q).2) acked ended over
| QR_hand_over q acked ended over a :
    queue_run (Live q) acked ended over → queue_run (Live (hand_over key q a)) acked ended over
| QR_writer q acked ended over io :
    queue_run (Live q) acked ended over → no_short io → queue_run (Live (writer_runs io q)) acked ended over
| QR_finish q acked ended over e ok q' :
    queue_run (Live q) acked ended over → (e, ok) ∈ aq_results q → finish_append (sequence e) q = (Some ok, q') →
    queue_run (Live q') (if ok then e :: acked else acked) ended over
| QR_claim q acked ended over limit secs now inputs :
    queue_run (Live q) acked ended over → (∀ n, no_short (ci_io (inputs n))) →
    queue_run (Live (queue_claim key limit secs now inputs q).2) acked ended over
| QR_record q acked ended over seq success error max now now' i r q' :
    queue_run (Live q) acked ended over → no_short (ci_io i) →
    queue_record_delivery key seq success error max now now' i q = (r, q') →
    let ends := reports_end now now' seq success error max q in
    queue_run (Live q') acked (if ends then seq :: ended else ended)
      (if ends && result_ok r then of_sequence seq acked ++ over else over)
| QR_resolve q acked ended over t g c i :
    queue_run (Live q) acked ended over → no_short (ci_io i) → queue_run (Live (resolve_grant key t g c i q).2) acked ended over
| QR_compact q acked ended over io :
    queue_run (Live q) acked ended over → no_short io → queue_run (Live (compact io q).2) acked ended over
| QR_finish_compact q acked ended over index nonce w kept :
    queue_run (Live q) acked ended over → queue_run (Live (finish_compact key index nonce w kept q).2) acked ended over
| QR_prune q acked ended over secs now i :
    queue_run (Live q) acked ended over → no_short (ci_io i) →
    queue_run (Live (prune_delivered_prefix key secs now i q).2) acked ended over
| QR_reclaim q acked ended over seq i :
    queue_run (Live q) acked ended over → no_short (ci_io i) → queue_run (Live (reclaim_dead_letter key seq i q).2) acked ended over.

Definition world_dir (w : QueueWorld) : QueueDir := match w with Live q => aq_dir q | Down d => d end.

Context {SL : SealLaws} {QL : QueueSerdeLaws}.

Definition world_ok (w : QueueWorld) (A : list OutboxEvent) (E : list Z) (F : list OutboxEvent) : Prop :=
  match w with Live q => queue_ok key q A E F | Down d => down_ok key d A E F end.
Lemma world_down w A E F : world_ok w A E F → down_ok key (world_dir w) A E F.
Proof. destruct w; [apply live_down|done]. Qed.

Lemma run_ok w acked ended over :
  queue_run w acked ended over → ∃ A, (∀ e, e ∈ acked → e ∈ A) ∧ world_ok w A ended over.
Proof.
  induction 1 as [|d acked ended over kept io q d' _ (A & HA & HW) Ho|d acked ended over kept io e d' _ (A & HA & HW) Ho
    |q acked ended over d _ (A & HA & HW) Hc|d acked ended over d' _ (A & HA & HW) Hc
    |q acked ended over now subj ty body _ (A & HA & HW) Hmax|q acked ended over a _ (A & HA & HW)
    |q acked ended over io _ (A & HA & HW) Hio|q acked ended over e ok q' _ (A & HA & HW) Hin Hf
    |q acked ended over limit secs now inputs _ (A & HA & HW) Hio
    |q acked ended over seq success error max now now' i r q' _ (A & HA & HW) Hio Hr ends
    |q acked ended over t g c i _ (A & HA & HW) Hio|q acked ended over io _ (A & HA & HW) Hio
    |q acked ended over index nonce w kept _ (A & HA & HW)|q acked ended over secs now i _ (A & HA & HW) Hio
    |q acked ended over seq i _ (A & HA & HW) Hio]; cbn [world_ok] in *.
  - exists []. split; [done|]. split; [done|]. split; [done|]. exists [], 0, empty_queue. split_and!; [by split|done|lia|].
    intros J ->. constructor; [done|by intros e ?%elem_of_nil|by intros e e' ?%elem_of_nil|done|by intros e ?%elem_of_nil|done].
  - destruct (open_ok key _ _ _ _ _ _ _ _ HW Ho) as (_ & H & _). exists A. split; [done|]. by apply H.
  - destruct (open_ok key _ _ _ _ _ _ _ _ HW Ho) as (H & _ & _). by exists A.
  - exists A. split; [done|]. eapply crash_down; [by apply live_down|done].
  - exists A. split; [done|]. by eapply crash_down.
  - exists A. split; [done|]. by apply reserve_ok.
  - exists A. split; [done|]. by apply hand_over_ok.
  - unfold writer_runs. destruct (write_batch _ _ _ _ _) as [res q1] eqn:Ew.
    destruct (write_batch_ok key q A ended over over (aq_jobs q) [] [] [] io res q1) as (_ & _ & A' & H1 & _ & H2);
      [done|by rewrite app_nil_r|done|constructor|constructor|apply HW|apply HW|done|done|].
    exists A'. split; [eauto|]. by destruct (bool_decide _).
  - destruct (finish_append_ok key q A ended over e ok q' HW Hin Hf) as [H1 H2]. exists A. split; [|done].
    destruct ok; [|done]. intros x [->|Hx]%elem_of_cons; [by apply H2|by apply HA].
  - unfold queue_claim. destruct (claim_loop _ _ _ _ _ _) as [r q'] eqn:Ec.
    destruct (claim_loop_ok key _ _ _ _ _ _ _ _ _ _ HW Hio Ec) as (A' & H1 & H2). exists A'. eauto.
  - destruct (record_delivery_ok key q A ended over acked _ _ _ _ _ _ _ _ _ HW HA Hio Hr) as (A' & H1 & H2). exists A'. eauto.
  - destruct (resolve_grant _ _ _ _ _ _) as [r q'] eqn:E1. destruct (resolve_grant_ok key _ _ _ _ _ _ _ _ _ _ HW Hio E1) as (A' & H1 & H2). exists A'. eauto.
  - destruct (compact _ _) as [r q'] eqn:E1. exists A. split; [done|]. by eapply compact_ok.
  - destruct (finish_compact _ _ _ _ _ _) as [r q'] eqn:E1. exists A. split; [done|]. by eapply finish_compact_ok.
  - destruct (prune_delivered_prefix _ _ _ _ _) as [r q'] eqn:E1. destruct (prune_ok key _ _ _ _ _ _ _ _ _ HW Hio E1) as (A' & H1 & H2). exists A'. eauto.
  - destruct (reclaim_dead_letter _ _ _ _) as [r q'] eqn:E1. destruct (reclaim_ok key _ _ _ _ _ _ _ _ HW Hio E1) as (A' & H1 & H2). exists A'. eauto.
Qed.
End run.

(** C24: an acknowledged receipt survives, if no write falls short and no created file is lost.
    Take any run of the queue (appends in any order relative to the writer's batches, claims,
    reports, grants, prunes, reclaims and compactions, writes and syncs that fail as a whole,
    crashes that cut unsynced bytes, restarts); a write that fails after some of its bytes is
    left out, because the queue then loses records, as [short_write_hides_a_committed_record]
    shows.  Let it crash once more and open the directory with nothing failing: the queue opens, every event
    whose append was acknowledged and whose delivery no report has ended is there, unchanged and
    pending, and no event whose end was acknowledged is pending. *)
Theorem acknowledged_receipts_survive {SC : SealCrates} {QS : QueueSerde} {SL : SealLaws} {QL : QueueSerdeLaws}
    key w acked ended over d kept :
  queue_run key w acked ended over → crashed (world_dir w) d →
  ∃ q, (queue_open key kept [] d).1 = Ok q
    ∧ ∀ e, e ∈ acked →
        (sequence e ∉ ended → ∃ e', queue_get (sequence e) q = Some e' ∧ same_event e e' ∧ delivery e' = Pending)
        ∧ (e ∈ over → ∀ e', queue_get (sequence e) q = Some e' → delivery e' ≠ Pending).
Proof.
  intros Hrun Hc. destruct (run_ok key w acked ended over Hrun) as (A & HA & HW).
  pose proof (crash_down key _ _ _ _ _ (world_down key w A ended over HW) Hc) as Hd.
  destruct (queue_open key kept [] d) as [r d'] eqn:Eo. destruct (open_ok key _ _ _ _ _ _ _ _ Hd Eo) as (_ & Hq & Hex).
  destruct (Hex eq_refl) as [q ->]. exists q. split; [done|]. pose proof (Q_mem _ _ _ _ _ (Hq q eq_refl)) as [M1 M2 M3 M4 M5 M6].
  intros e He. split.
  - intros Hn. destruct (M2 e (HA e He) Hn) as (e' & Hg & Hs). exists e'. split_and!; [done|done|].
    destruct (decide (delivery e' = Pending)) as [|Hp]; [done|]. by destruct Hn; eapply M4.
  - intros Ho e' Hg. by apply (M3 e e' (HA e He) Ho).
Qed.

(** a short write hides a record that is acknowledged later.  The writer leaves the
    bytes of a short write in the segment.  When the next frame is small enough to lie within
    the length that the torn header announces, its batch is written, synced and reported as
    durable, and reading the segment back stops in front of it. *)
Theorem short_write_hides_a_committed_record {SC : SealCrates} {QS : QueueSerde} {SL : SealLaws} {QL : QueueSerdeLaws}
    key s g bodies ds nonce0 d0 frame0 nonce d frame m :
  bt_get (qd_deltas (bs_dir s)) (bs_index s) = Some g → sg_bytes g = frames bodies → Forall2 (holds key) bodies ds →
  bs_io s = [IO_Short m] → bs_size s + Z.of_nat (length frame) < SEGMENT_ROLL_BYTES →
  seal_delta nonce0 d0 key = Ok frame0 → seal_delta nonce d key = Ok frame →
  (12 <= m)%nat → (m + length frame < length frame0)%nat →
  let '(r0, s1) := run_batch [WJ_Data frame0] s in
  let '(r, s2) := run_batch [WJ_Data frame] s1 in
  r0 = None ∧ r = Some (bs_index s)
  ∧ ∃ g', bt_get (qd_deltas (bs_dir s2)) (bs_index s) = Some g' ∧ sg_synced g' = length (sg_bytes g')
    ∧ replay_segment (sg_bytes g') key = Ok ds.
Proof.
  intros Hg Hb HF Hio Hsz H0 H1 Hm Hlen. destruct (seal_holds key _ _ _ H0) as (body0 & -> & Hh0).
  destruct s as [dir cur size dirty io]. cbn in Hg, Hio, Hsz. subst io. cbn -[replay_segment SEGMENT_ROLL_BYTES bt_get bt_alter frame_of Nat.sub].
  rewrite Nat.min_l by lia. unfold run_batch, append_bytes, set_batch_dir. cbn -[replay_segment SEGMENT_ROLL_BYTES bt_get bt_alter frame_of Z.leb].
  destruct (Z.leb_spec SEGMENT_ROLL_BYTES (size + Z.of_nat (length frame))); [lia|]. cbn -[replay_segment bt_get bt_alter frame_of].
  split; [done|]. split; [done|]. rewrite !bt_get_alter, !Z.eqb_refl, Hg. eexists. split; [done|]. split; [done|].
  cbn [sg_bytes]. rewrite Hb, <- app_assoc. apply replay_frames; [done|]. intros fuel pos. by apply replay_swallowed; [apply Hh0|..].
Qed.

(** The journal does not carry the outcome that dead-letters an event: what a restart
    replays keeps the attempt count and the error of the attempt before. *)
Lemma dead_letter_replays_without_its_error now now' st seq error max e :
  bt_get (outbox (qs_cache st)) seq = Some e → delivery e = Pending → max <= (attempts e + 1) mod (u32_max + 1) →
  let '((dead, _), m) := record_delivery_transition now now' (outbox (qs_cache st)) seq false error max in
  dead = true
  ∧ ∃ live replayed, bt_get m seq = Some live
    ∧ bt_get (outbox (qs_cache (apply_delta st (outcome_delta seq live)))) seq = Some replayed
    ∧ attempts live = (attempts e + 1) mod (u32_max + 1) ∧ last_error live = error
    ∧ attempts replayed = attempts e ∧ last_error replayed = last_error e ∧ delivery replayed = DeadLettered.
Proof.
  intros Hg Hp Hm. unfold record_delivery_transition. rewrite Hg, bool_decide_true by done. cbn [negb].
  rewrite (proj2 (Z.leb_le _ _) Hm). split; [done|]. rewrite bt_get_alter, Z.eqb_refl, Hg. eexists _, _. split; [done|].
  cbn. rewrite bt_get_alter, Z.eqb_refl, Hg. done.
Qed.
