(* ===== verification/RateCard.v ===== *)
(** * Rate cards

    Models [src/src/ratecard.rs]: the priced-model set read from a rate-card file, the
    refusals of its parser, the handle that re-reads the file when it changes, and the model
    a meter event is booked under.  [serde_json]'s reader, SHA-256 and RFC 3339 parsing are
    parameters; the derived deserializers are written out.

    The theorems: a parsed card covers exactly the models that a token-priced entry of the
    file names, all of whose prices are positive ([parsed_card_covers_exactly]); through any
    re-reads what is served covers exactly what both the card read at start and the latest
    good file cover ([coverage_only_narrows]). *)

From stdpp Require Import base gmap strings list sorting.
From Stdlib Require Import Ascii ZArith Lia.
From S2P Require Import Prelude RustStr BTree Json UrlCanon Egress.

Open Scope Z_scope.

(** [serde_json::from_str] and [from_slice] into a [Value]. *)
Class JsonReader := { json_from_str : string → option Value }.
(** [DateTime::parse_from_rfc3339(s).is_ok()]. *)
Class Rfc3339 := { rfc3339_valid : string → bool }.

(** ** The file *)

(** [WireEntry], [WireCard]. *)
Record WireEntry := {
  we_model_ref : option string;
  we_model_ref_prefix : option string;
  we_asset : option string;
  we_price : option Z;
  we_input_price : option Z;
  we_output_price : option Z;
}.
Record WireCard := {
  wc_version : string;
  wc_provider : option string;
  wc_entries : list WireEntry;
  wc_created_at : option string;
  wc_stale_after_s : option Z;
}.
Definition CARD_FIELDS : list string := ["rate_card_version"; "provider"; "entries"; "created_at"; "stale_after_s"].
Definition ENTRY_FIELDS : list string :=
  ["model_ref"; "model_ref_prefix"; "asset"; "price_micros_per_unit"; "input_price_micros_per_unit"; "output_price_micros_per_unit"].

(** [RateCardError], with the cause that the source renders. *)
Inductive RateCardError :=
| RCE_NotUtf8 | RCE_Empty | RCE_BadJson
| RCE_UnknownCardField (k : string) | RCE_UnknownEntryField (k : string) | RCE_BadCard
| RCE_NoVersion | RCE_VersionTwice (version : string) | RCE_NoEntries (version : string)
| RCE_CreatedAt (version created : string)
| RCE_NeedsName | RCE_Duplicate (version name : string) | RCE_TokensOnly (version name asset : string)
| RCE_NeedsBoth (version name : string) | RCE_NeedsPrice (version name : string) | RCE_NotPositive (name : string)
| RCE_NothingPriced | RCE_CannotRead.

(** [refuse_unknown_fields]. *)
Definition unknown_field (allowed : list string) (m : list (string * Value)) : option string :=
  List.find (λ k, negb (bool_decide (k ∈ allowed))) m.*1.
Definition refuse_unknown_fields (card : Value) : option RateCardError :=
  match as_object card with
  | None => None
  | Some m =>
      match unknown_field CARD_FIELDS m with
      | Some k => Some (RCE_UnknownCardField k)
      | None =>
          find_map (λ e, fields ← as_object e; RCE_UnknownEntryField <$> unknown_field ENTRY_FIELDS fields)
            (default [] (json_get "entries" card ≫= as_array))
      end
  end.

(** The derived [Deserialize] of a struct whose fields all have a default: from an object by
    name, from an array by position. *)
Definition de_struct (n : nat) (v : Value) : option (nat → string → option Value) :=
  match v with
  | JObject m => Some (λ _ name, json_get name v)
  | JArray l => if (length l <=? n)%nat then Some (λ i _, l !! i) else None
  | _ => None
  end.
Definition de_default {A} (d : A) (f : Value → option A) (o : option Value) : option A :=
  match o with None => Some d | Some v => f v end.
Definition de_opt_string (v : Value) : option (option string) :=
  match v with JNull => Some None | JString s => Some (Some s) | _ => None end.
Definition de_opt_i64 (v : Value) : option (option Z) :=
  match v with
  | JNull => Some None
  | JNumber (PosInt n) => if n <=? i64_max then Some (Some n) else None
  | JNumber (NegInt n) => Some (Some n)
  | _ => None
  end.
Definition de_entry (v : Value) : option WireEntry :=
  f ← de_struct 6 v;
  m ← de_default None de_opt_string (f 0%nat "model_ref");
  p ← de_default None de_opt_string (f 1%nat "model_ref_prefix");
  a ← de_default None de_opt_string (f 2%nat "asset");
  x ← de_default None de_opt_i64 (f 3%nat "price_micros_per_unit");
  i ← de_default None de_opt_i64 (f 4%nat "input_price_micros_per_unit");
  o ← de_default None de_opt_i64 (f 5%nat "output_price_micros_per_unit");
  Some {| we_model_ref := m; we_model_ref_prefix := p; we_asset := a; we_price := x; we_input_price := i; we_output_price := o |}.
Definition de_card (v : Value) : option WireCard :=
  f ← de_struct 5 v;
  version ← de_default "" as_str (f 0%nat "rate_card_version");
  provider ← de_default None de_opt_string (f 1%nat "provider");
  entries ← de_default [] (λ v, as_array v ≫= mapM de_entry) (f 2%nat "entries");
  created ← de_default None de_opt_string (f 3%nat "created_at");
  stale ← de_default None de_opt_i64 (f 4%nat "stale_after_s");
  Some {| wc_version := version; wc_provider := provider; wc_entries := entries; wc_created_at := created; wc_stale_after_s := stale |}.

(** ** Cards *)

(** [RateCard]; [rc_limit] is the card it is narrowed by. *)
Inductive RateCard := MkCard (exact prefixes : list string) (sha256 : string) (limit : option RateCard).
Definition rc_exact (c : RateCard) : list string := let '(MkCard e _ _ _) := c in e.
Definition rc_prefixes (c : RateCard) : list string := let '(MkCard _ p _ _) := c in p.
Definition rc_sha256 (c : RateCard) : string := let '(MkCard _ _ s _) := c in s.
Definition rc_limit (c : RateCard) : option RateCard := let '(MkCard _ _ _ l) := c in l.

(** [dated_under]. *)
Definition dated_under (pre model : string) : bool :=
  match strip_prefix pre model with
  | Some (String c (String _ _)) => one_of ["-"; "@"]%char c
  | _ => false
  end.

(** [covers], [narrowed_by], [entries]. *)
Fixpoint covers (c : RateCard) (model : string) : bool :=
  let '(MkCard ex pres _ limit) := c in
  match limit with Some l => covers l model | None => true end
  && (bool_decide (model ∈ ex) || existsb (λ p, dated_under p model) pres).
Definition narrowed_by (latest start : RateCard) : RateCard :=
  MkCard (rc_exact latest) (rc_prefixes latest) (rc_sha256 start) (Some start).
Fixpoint card_entries (c : RateCard) : nat :=
  let '(MkCard ex pres _ limit) := c in
  match limit with Some start => card_entries start | None => (length ex + length pres)%nat end.

(** ** Parsing *)

Definition non_empty (o : option string) : option string := o ≫= λ s, if is_empty s then None else Some s.
Definition entry_name (e : WireEntry) : option (bool * string) :=
  match non_empty (we_model_ref e), non_empty (we_model_ref_prefix e) with
  | Some m, None => Some (false, m)
  | None, Some p => Some (true, p)
  | _, _ => None
  end.
Definition is_tokens (e : WireEntry) : bool :=
  match we_asset e with None => true | Some a => String.eqb a "tokens" || is_empty a end.
Definition entry_prices (e : WireEntry) : list Z :=
  omap id [we_price e; we_input_price e; we_output_price e].
Definition given {A} (o : option A) : bool := match o with Some _ => true | None => false end.

(** [add]: the card so far and the names seen in this version. *)
Definition card_add (version : string) (per_direction : bool) (e : WireEntry)
    (acc : list string * list string * list (bool * string))
    : result (list string * list string * list (bool * string)) RateCardError :=
  let '(ex, pres, seen) := acc in
  match entry_name e with
  | None => Err RCE_NeedsName
  | Some (is_prefix, name) =>
      if bool_decide ((is_prefix, name) ∈ seen) then Err (RCE_Duplicate version name)
      else
        let seen := (is_prefix, name) :: seen in
        let both := given (we_input_price e) && given (we_output_price e) in
        let single := given (we_price e) && negb (given (we_input_price e)) && negb (given (we_output_price e)) in
        if per_direction && negb (is_tokens e) then Err (RCE_TokensOnly version name (default "" (we_asset e)))
        else if per_direction && negb both && negb single then Err (RCE_NeedsBoth version name)
        else if negb per_direction && negb (given (we_price e)) then Err (RCE_NeedsPrice version name)
        else if negb (is_tokens e) then Ok (ex, pres, seen)
        else if existsb (λ p, p <=? 0) (entry_prices e) then Err (RCE_NotPositive name)
        else if is_prefix then Ok (ex, pres ++ [name], seen) else Ok (ex ++ [name], pres, seen)
  end.
Fixpoint card_add_all (version : string) (per_direction : bool) (es : list WireEntry)
    (acc : list string * list string * list (bool * string))
    : result (list string * list string * list (bool * string)) RateCardError :=
  match es with
  | [] => Ok acc
  | e :: es' =>
      match card_add version per_direction e acc with
      | Err err => Err err
      | Ok acc => card_add_all version per_direction es' acc
      end
  end.

Section parse.
Context {JR : JsonReader} {RF : Rfc3339} {SH : Sha256}.

(** The loop of [parse] over the cards. *)
Definition is_per_direction (w : WireCard) : bool :=
  existsb (λ e, given (we_input_price e) || given (we_output_price e) || given (non_empty (we_model_ref_prefix e))) (wc_entries w).
Definition bad_created_at (w : WireCard) : option string :=
  match wc_created_at w with
  | Some s => let created := trim s in
              if negb (is_empty created) && negb (rfc3339_valid created) then Some created else None
  | None => None
  end.
Fixpoint add_cards (ws : list WireCard) (versions : list string) (acc : list string * list string)
    : result (list string * list string) RateCardError :=
  match ws with
  | [] => Ok acc
  | w :: ws' =>
      let version := wc_version w in
      if is_empty version then Err RCE_NoVersion
      else if bool_decide (version ∈ versions) then Err (RCE_VersionTwice version)
      else
        match wc_entries w with
        | [] => Err (RCE_NoEntries version)
        | es =>
            match bad_created_at w with
            | Some created => Err (RCE_CreatedAt version created)
            | None =>
                match card_add_all version (is_per_direction w) es (acc, []) with
                | Err err => Err err
                | Ok (acc, _) => add_cards ws' (version :: versions) acc
                end
            end
        end
  end.

(** The cards of a file: [refuse_unknown_fields] and [from_value] of each. *)
Fixpoint decode_cards (vs : list Value) : result (list WireCard) RateCardError :=
  match vs with
  | [] => Ok []
  | v :: vs' =>
      match refuse_unknown_fields v with
      | Some err => Err err
      | None =>
          match de_card v with
          | None => Err RCE_BadCard
          | Some w => match decode_cards vs' with Err err => Err err | Ok ws => Ok (w :: ws) end
          end
      end
  end.
Definition file_values (b : bytes) : result (list Value) RateCardError :=
  if negb (is_utf8 b) then Err RCE_NotUtf8
  else
    let text := trim (of_bytes b) in
    if is_empty text then Err RCE_Empty
    else
      match json_from_str text with
      | None => Err RCE_BadJson
      | Some v => if starts_with "[" text then ok_or (as_array v) RCE_BadJson else Ok [v]
      end.
Definition file_cards (b : bytes) : result (list WireCard) RateCardError :=
  match file_values b with Err e => Err e | Ok vs => decode_cards vs end.

(** [parse]. *)
Definition parse_card (b : bytes) : result RateCard RateCardError :=
  match file_cards b with
  | Err e => Err e
  | Ok ws =>
      match add_cards ws [] ([], []) with
      | Err e => Err e
      | Ok ([], []) => Err RCE_NothingPriced
      | Ok (ex, pres) => Ok (MkCard (merge_sort str_le ex) (merge_sort str_le pres) (sha256_hex (of_bytes b)) None)
      end
  end.

(** ** The handle *)

(** [HandleState], once a card is configured: the stamp is the file's time and length. *)
Definition Stamp : Type := Z * Z.
Record HandleState := {
  hs_start : option RateCard;
  hs_card : option RateCard;
  hs_file_sha256 : option string;
  hs_stamp : option Stamp;
  hs_last_error : option RateCardError;
}.

(** [read_card]: the stamp and the bytes that its two calls find. *)
Definition read_card (stamp : option Stamp) (content : option bytes) : result (RateCard * option Stamp) RateCardError :=
  match content with
  | None => Err RCE_CannotRead
  | Some b => match parse_card b with Err e => Err e | Ok c => Ok (c, stamp) end
  end.

(** [RateCardHandle::open]. *)
Definition card_open (stamp : option Stamp) (content : option bytes) : result HandleState RateCardError :=
  match read_card stamp content with
  | Err e => Err e
  | Ok (c, stamp) =>
      Ok {| hs_start := Some c; hs_card := Some c; hs_file_sha256 := Some (rc_sha256 c); hs_stamp := stamp; hs_last_error := None |}
  end.

(** [current]: its read under the shared lock, and its update under the exclusive one.
    [now] is the stamp read first; [stamp] and [content] are what [read_card] finds. *)
Definition current_read (now : option Stamp) (h : HandleState) : option (option RateCard) :=
  if bool_decide (hs_stamp h = now) then Some (hs_card h) else None.
Definition current_write (now stamp : option Stamp) (content : option bytes) (h : HandleState) : option RateCard * HandleState :=
  if bool_decide (hs_stamp h = now) then (hs_card h, h)
  else
    let h :=
      match read_card stamp content with
      | Ok (latest, stamp) =>
          {| hs_start := hs_start h;
             hs_card := Some (match hs_start h with
                              | Some start => if String.eqb (rc_sha256 start) (rc_sha256 latest) then start else narrowed_by latest start
                              | None => latest
                              end);
             hs_file_sha256 := Some (rc_sha256 latest); hs_stamp := stamp; hs_last_error := None |}
      | Err e =>
          {| hs_start := hs_start h; hs_card := hs_card h; hs_file_sha256 := hs_file_sha256 h; hs_stamp := now; hs_last_error := Some e |}
      end in
    (hs_card h, h).
Definition handle_covers (card : option RateCard) (model : string) : bool :=
  match card with Some c => covers c model | None => false end.

(** [RateCardHandle::status], of the state after [current]. *)
Record RateCardStatus := {
  rs_configured : bool; rs_sha256 : option string; rs_file_sha256 : option string; rs_entries : nat; rs_last_error : option RateCardError }.
Definition card_status (card : option RateCard) (h : HandleState) : RateCardStatus :=
  {| rs_configured := true; rs_sha256 := rc_sha256 <$> card; rs_file_sha256 := hs_file_sha256 h;
     rs_entries := from_option card_entries 0%nat card; rs_last_error := hs_last_error h |}.
End parse.

(** [pick_meter_model]. *)
Definition pick_meter_model (card : option RateCard) (served requested : option string) : option string :=
  match card, served with
  | Some card, Some served =>
      if covers card served then Some served
      else
        match requested with
        | Some req => if dated_under req served && covers card req then Some req else Some served
        | None => Some served
        end
  | _, _ => match served with Some s => Some s | None => requested end
  end.

(** ** What a parsed card covers *)

(** A model that an entry prices. *)
Definition entry_covers (e : WireEntry) (m : string) : Prop :=
  is_tokens e = true
  ∧ match entry_name e with Some (false, n) => n = m | Some (true, p) => dated_under p m = true | None => False end.
Definition names_model (acc : list string * list string) (m : string) : Prop :=
  m ∈ acc.1 ∨ ∃ p, p ∈ acc.2 ∧ dated_under p m = true.
Definition priced (e : WireEntry) : Prop := entry_prices e ≠ [] ∧ Forall (λ p, 0 < p) (entry_prices e).

Lemma covers_names ex pres sha m : covers (MkCard ex pres sha None) m = true ↔ names_model (ex, pres) m.
Proof.
  cbn. rewrite orb_true_iff, bool_decide_eq_true, existsb_elem_of. done.
Qed.
Lemma prices_given e : (given (we_price e) || given (we_input_price e) || given (we_output_price e)) = true → entry_prices e ≠ [].
Proof. destruct e as [? ? ? [] [] []]; done. Qed.

Lemma card_add_spec version pd e ex pres seen ex' pres' seen' :
  card_add version pd e (ex, pres, seen) = Ok (ex', pres', seen') →
  (∀ m, names_model (ex', pres') m ↔ names_model (ex, pres) m ∨ entry_covers e m) ∧ (is_tokens e = true → priced e).
Proof.
  unfold card_add, entry_covers. destruct (entry_name e) as [[k n]|]; [|done]. destruct (bool_decide _); [done|].
  destruct (pd && negb (is_tokens e)); [done|].
  destruct (pd && _ && _) eqn:Eb; [done|]. destruct (negb pd && _) eqn:Es; [done|].
  assert (Hg : (given (we_price e) || given (we_input_price e) || given (we_output_price e)) = true)
    by (destruct pd, (given (we_price e)), (given (we_input_price e)), (given (we_output_price e)); done).
  destruct (is_tokens e); cbn [negb].
  - destruct (existsb _ _) eqn:Ep; [done|]. intros H. split.
    + intros m. destruct k; injection H as <- <- <-; unfold names_model; cbn [fst snd]; [|set_solver]. setoid_rewrite elem_of_app.
      setoid_rewrite list_elem_of_singleton. naive_solver.
    + intros _. split; [by apply prices_given|]. rewrite existsb_false_elem_of in Ep. apply Forall_forall. intros p Hp.
      apply Ep in Hp. lia.
  - intros [= <- <- <-]. split; [naive_solver|done].
Qed.
Lemma card_add_all_spec version pd es ex pres seen ex' pres' seen' :
  card_add_all version pd es (ex, pres, seen) = Ok (ex', pres', seen') →
  (∀ m, names_model (ex', pres') m ↔ names_model (ex, pres) m ∨ ∃ e, e ∈ es ∧ entry_covers e m) ∧ (∀ e, e ∈ es → is_tokens e = true → priced e).
Proof.
  revert ex pres seen. induction es as [|e es IH]; cbn [card_add_all]; intros ex pres seen.
  - intros [= <- <- <-]. split; [set_solver|set_solver].
  - destruct (card_add version pd e (ex, pres, seen)) as [[[ex1 pres1] seen1]|] eqn:E1; [|done].
    destruct (card_add_spec _ _ _ _ _ _ _ _ _ E1) as [H1 H2]. intros H. destruct (IH _ _ _ H) as [H3 H4]. split.
    + intros m. rewrite H3, H1. setoid_rewrite elem_of_cons. naive_solver.
    + intros e' [->|He]%elem_of_cons; [done|by apply H4].
Qed.

Section covered.
Context {JR : JsonReader} {RF : Rfc3339} {SH : Sha256}.

Lemma add_cards_spec ws versions acc acc' :
  add_cards ws versions acc = Ok acc' →
  (∀ m, names_model acc' m ↔ names_model acc m ∨ ∃ w e, w ∈ ws ∧ e ∈ wc_entries w ∧ entry_covers e m)
  ∧ (∀ w e, w ∈ ws → e ∈ wc_entries w → is_tokens e = true → priced e).
Proof.
  revert versions acc. induction ws as [|w ws IH]; cbn [add_cards]; intros versions acc.
  - intros [= <-]. split; [set_solver|set_solver].
  - destruct (is_empty _); [done|]. destruct (bool_decide _); [done|]. destruct (wc_entries w) as [|e0 es] eqn:Ee; [done|].
    destruct (bad_created_at w); [done|]. destruct acc as [ex pres].
    destruct (card_add_all _ _ _ _) as [[[ex1 pres1] seen1]|] eqn:E1; [|done].
    destruct (card_add_all_spec _ _ _ _ _ _ _ _ _ E1) as [H1 H2]. intros H. destruct (IH _ _ H) as [H3 H4]. split.
    + intros m. rewrite H3, H1. setoid_rewrite (elem_of_cons ws). rewrite <- Ee. naive_solver.
    + intros w' e [->|Hw]%elem_of_cons He; [apply H2; by rewrite <- Ee|by eapply H4].
Qed.
Lemma parse_shape b c :
  parse_card b = Ok c → ∃ ws acc, file_cards b = Ok ws ∧ add_cards ws [] ([], []) = Ok acc
    ∧ c = MkCard (merge_sort str_le acc.1) (merge_sort str_le acc.2) (sha256_hex (of_bytes b)) None.
Proof.
  unfold parse_card. destruct (file_cards b) as [ws|]; [|done]. destruct (add_cards ws [] _) as [[ex pres]|] eqn:Ea; [|done].
  intros H. exists ws, (ex, pres). split_and!; [done|done|]. destruct ex, pres; [done|injection H as <-; done..].
Qed.
Lemma parse_unlimited b c : parse_card b = Ok c → rc_limit c = None.
Proof. intros (ws & acc & _ & _ & ->)%parse_shape. done. Qed.

(** C31: a parsed card covers exactly what the file prices.  A model is covered if and only if
    some card of the file has a token entry for it, exactly or as the undated form of a dated
    id, and every token entry of the file has a price and no price that is zero or less. *)
Theorem parsed_card_covers_exactly b c :
  parse_card b = Ok c →
  ∃ ws, file_cards b = Ok ws
    ∧ (∀ m, covers c m = true ↔ ∃ w e, w ∈ ws ∧ e ∈ wc_entries w ∧ entry_covers e m)
    ∧ (∀ w e, w ∈ ws → e ∈ wc_entries w → is_tokens e = true → priced e).
Proof.
  intros (ws & [ex pres] & Hf & Ha & ->)%parse_shape. destruct (add_cards_spec _ _ _ _ Ha) as [H1 H2]. exists ws. split; [done|].
  split; [|done]. intros m. rewrite covers_names. transitivity (names_model (ex, pres) m).
  - unfold names_model. cbn [fst snd]. setoid_rewrite (sorted_elem str_le). done.
  - rewrite H1. unfold names_model. cbn. set_solver.
Qed.

(** ** Re-reading *)

(** Re-reads of a handle by any threads: each finds what it finds.  [latest] is the card of
    the last file that could be used. *)
Definition latest_good (now stamp : option Stamp) (content : option bytes) (h : HandleState) (latest : RateCard) : RateCard :=
  if bool_decide (hs_stamp h = now) then latest
  else match read_card stamp content with Ok (c, _) => c | Err _ => latest end.
Inductive card_run (start : RateCard) : HandleState → RateCard → Prop :=
| run_open stamp content h : card_open stamp content = Ok h → hs_start h = Some start → card_run start h start
| run_current now stamp content h latest :
    card_run start h latest → card_run start (current_write now stamp content h).2 (latest_good now stamp content h latest).

(** a change of the file can only narrow what is covered.  Through any re-reads by any
    threads, with files that cannot be read or parsed among them, the served card covers
    exactly the models that the card read at start and the last usable file both cover (a
    file with the fingerprint of the first one is taken for it), and it reports the fingerprint of the card read at start. *)
Theorem coverage_only_narrows start h latest :
  card_run start h latest →
  hs_start h = Some start ∧ hs_file_sha256 h = Some (rc_sha256 latest)
  ∧ ∃ c, hs_card h = Some c ∧ rc_sha256 c = rc_sha256 start
    ∧ ∀ m, covers c m = true ↔ covers start m = true ∧ (rc_sha256 latest = rc_sha256 start ∨ covers latest m = true).
Proof.
  induction 1 as [stamp content h Ho Hs|now stamp content h latest _ (IH1 & IH2 & c & IH3 & IH4 & IH5)].
  - unfold card_open in Ho. destruct (read_card _ _) as [[c st]|]; [|done]. injection Ho as <-. cbn in *. injection Hs as ->.
    split_and!; [done|done|]. exists start. split_and!; [done|done|]. naive_solver.
  - unfold current_write, latest_good. destruct (bool_decide _); [by split_and!; [..|exists c]|].
    destruct (read_card stamp content) as [[l st]|e] eqn:Er; cbn; [|by split_and!; [..|exists c]].
    split_and!; [done|done|]. rewrite IH1. unfold read_card in Er. destruct content as [b|]; [|done].
    destruct (parse_card b) as [l0|] eqn:Ep; [|done]. injection Er as <- <-. destruct (String.eqb_spec (rc_sha256 start) (rc_sha256 l0)) as [E|E].
    + exists start. split_and!; [done|done|]. naive_solver.
    + eexists. split_and!; [done|done|]. intros m. pose proof (parse_unlimited _ _ Ep) as Hl. destruct l0 as [ex pres sha lim]. cbn in Hl. subst lim.
      cbn [covers narrowed_by rc_exact rc_prefixes rc_sha256 andb] in *. rewrite andb_true_iff. naive_solver.
Qed.
End covered.
