(* ===== verification/Metering.v ===== *)
(** * Metering of model calls

    Models the token accounting of [src/src/outbox.rs] (the usage block of a buffered
    response, the accumulator fed with the raw bytes of a stream, the estimate for a stream
    that ends without its trailer, the meter payloads) and what [src/src/server/mod.rs] makes
    of it: the charge of a stream, the finalizer that emits it, [emit_meter].  The JSON
    reader and the date format are parameters.

    The theorem: how a stream is cut into chunks does not change what is counted, and the
    buffer for a line is bounded ([chunking_does_not_change_the_count]). *)

From stdpp Require Import base gmap strings list.
From Stdlib Require Import Ascii ZArith Lia.
From S2P Require Import Prelude RustStr BTree Json UrlCanon Egress RateCard.

Open Scope Z_scope.

(** ** Counts *)

(** [TokenUsage]. *)
Record TokenUsage := { tu_input : Z; tu_output : Z }.

(** [obj.get(k).and_then(Value::as_u64)] on the entries of an object. *)
Definition reported (k : string) (obj : list (string * Value)) : option Z := json_get k (JObject obj) ≫= as_u64.
Definition get2 (k1 k2 : string) (v : Value) : option Value := json_get k1 v ≫= json_get k2.
Definition reported0 (k : string) (obj : list (string * Value)) : Z := default 0 (reported k obj).

Definition CACHE_WRITE_WEIGHT : Z := 2.

(** [cache_input_tokens]. *)
Definition cache_input_tokens (usage : list (string * Value)) : Z :=
  let reads := u64_saturating_add (reported0 "cache_read_input_tokens" usage) (reported0 "cacheReadInputTokens" usage) in
  let writes := u64_saturating_add (reported0 "cache_creation_input_tokens" usage) (reported0 "cacheWriteInputTokens" usage) in
  u64_saturating_add reads (u64_saturating_mul writes CACHE_WRITE_WEIGHT).

(** [iterations_total]. *)
Definition iteration_input (entry : list (string * Value)) (input : Z) : Z :=
  u64_saturating_add
    (u64_saturating_add (u64_saturating_add input (reported0 "input_tokens" entry)) (reported0 "inputTokens" entry))
    (cache_input_tokens entry).
Definition iteration_output (entry : list (string * Value)) (output : Z) : Z :=
  u64_saturating_add (u64_saturating_add output (reported0 "output_tokens" entry)) (reported0 "outputTokens" entry).
Definition iterations_total (usage : list (string * Value)) : Z * Z :=
  let entries := omap as_object (default [] (json_get "iterations" (JObject usage) ≫= as_array)) in
  foldl (λ acc entry, (iteration_input entry acc.1, iteration_output entry acc.2)) (0, 0) entries.

(** The pair of counts under two names of an Anthropic-style block. *)
Definition native_usage (usage : list (string * Value)) (ki ko : string) : option TokenUsage :=
  input ← reported ki usage;
  output ← reported ko usage;
  let '(iter_input, iter_output) := iterations_total usage in
  Some {| tu_input := Z.max (u64_saturating_add input (cache_input_tokens usage)) iter_input; tu_output := Z.max output iter_output |}.

(** The Gemini block and the others, by the order [parse_token_usage] tries them. *)
Definition gemini_usage (json : Value) : option TokenUsage :=
  usage ← json_get "usageMetadata" json ≫= as_object;
  prompt ← reported "promptTokenCount" usage;
  Some {| tu_input := u64_saturating_add prompt (reported0 "toolUsePromptTokenCount" usage);
          tu_output := u64_saturating_add (reported0 "candidatesTokenCount" usage) (reported0 "thoughtsTokenCount" usage) |}.
Definition openai_usage (usage : list (string * Value)) : option TokenUsage :=
  input ← reported "prompt_tokens" usage;
  output ← reported "completion_tokens" usage;
  Some {| tu_input := input; tu_output := output |}.
Definition block_usage (json : Value) : option TokenUsage :=
  usage ← json_get "usage" json ≫= as_object;
  match openai_usage usage with
  | Some u => Some u
  | None =>
      match native_usage usage "input_tokens" "output_tokens" with
      | Some u => Some u
      | None => native_usage usage "inputTokens" "outputTokens"
      end
  end.

Section metering.
Context {JR : JsonReader}.

(** [parse_token_usage], [extract_model]. *)
Definition parse_token_usage (raw_body : bytes) : option TokenUsage :=
  json ← json_from_str (of_bytes raw_body);
  match gemini_usage json with Some u => Some u | None => block_usage json end.
Definition extract_model (raw_body : bytes) (request_params : Value) : option string :=
  let from_response :=
    v ← json_from_str (of_bytes raw_body);
    match json_get "model" v with Some m => Some m | None => json_get "modelVersion" v end ≫= as_str in
  match from_response with Some m => Some m | None => json_get "model" request_params ≫= as_str end.

(** [maybe_inject_stream_usage]: whether it changed the body, and the body. *)
Definition maybe_inject_stream_usage (body : Value) : bool * Value :=
  match body with
  | JObject obj =>
      if negb (bool_decide (json_get "stream" body ≫= as_bool = Some true)) then (false, body)
      else
        match default (JObject []) (json_get "stream_options" body) with
        | JObject so =>
            let already_true := bool_decide (json_get "include_usage" (JObject so) ≫= as_bool = Some true) in
            (negb already_true,
             JObject (obj_insert "stream_options" (JObject (obj_insert "include_usage" (JBool true) so)) obj))
        | _ => (true, JObject (obj_insert "stream_options" (JObject [("include_usage", JBool true)]) obj))
        end
  | _ => (false, body)
  end.

(** ** Streams *)

(** [UsageAccumulator]. *)
Record UsageAccumulator := {
  ua_input_tokens : option Z;
  ua_cache_input_tokens : Z;
  ua_tool_prompt_tokens : Z;
  ua_thoughts_tokens : Z;
  ua_iter_input : Z;
  ua_iter_output : Z;
  ua_output_tokens : option Z;
  ua_model : option string;
  ua_line_buf : bytes;
  ua_max_line : nat;
  ua_capped : bool;
  ua_final_usage : bool;
  ua_delta_bytes : Z;
  ua_raw_bytes : Z;
}.
Definition accumulator_new (max_line : nat) : UsageAccumulator :=
  {| ua_input_tokens := None; ua_cache_input_tokens := 0; ua_tool_prompt_tokens := 0; ua_thoughts_tokens := 0; ua_iter_input := 0;
     ua_iter_output := 0; ua_output_tokens := None; ua_model := None; ua_line_buf := []; ua_max_line := max_line; ua_capped := false;
     ua_final_usage := false; ua_delta_bytes := 0; ua_raw_bytes := 0 |}.

(** [is_complete], [input_total], [output_total], [stream_model], [snapshot]. *)
Definition is_complete (a : UsageAccumulator) : bool :=
  ua_final_usage a && bool_decide (is_Some (ua_input_tokens a)) && bool_decide (is_Some (ua_output_tokens a)).
Definition input_total (a : UsageAccumulator) : option Z :=
  (λ i, Z.max (u64_saturating_add (u64_saturating_add i (ua_cache_input_tokens a)) (ua_tool_prompt_tokens a)) (ua_iter_input a))
    <$> ua_input_tokens a.
Definition output_total (a : UsageAccumulator) : option Z :=
  (λ o, Z.max (u64_saturating_add o (ua_thoughts_tokens a)) (ua_iter_output a)) <$> ua_output_tokens a.
Definition snapshot_usage (a : UsageAccumulator) : option TokenUsage :=
  i ← input_total a; o ← output_total a; Some {| tu_input := i; tu_output := o |}.
Definition snapshot (a : UsageAccumulator) : option (TokenUsage * option string) := (λ u, (u, ua_model a)) <$> snapshot_usage a.

(** [delta_string_bytes]. *)
Fixpoint delta_string_bytes (v : Value) (inside_delta : bool) : Z :=
  match v with
  | JString s => if inside_delta then Z.of_nat (String.length s) else 0
  | JObject m =>
      foldl u64_saturating_add 0
        ((fix go (m : list (string * Value)) : list Z :=
            match m with
            | [] => []
            | (k, x) :: m' => delta_string_bytes x (inside_delta || String.eqb k "delta") :: go m'
            end) m)
  | JArray l =>
      foldl u64_saturating_add 0
        ((fix go (l : list Value) : list Z :=
            match l with [] => [] | x :: l' => delta_string_bytes x inside_delta :: go l' end) l)
  | _ => 0
  end.

(** [absorb]: the model, then each carrier of usage in turn. *)
Definition event_model (v : Value) : option string :=
  match json_get "model" v ≫= as_str with
  | Some m => Some m
  | None =>
      match get2 "message" "model" v ≫= as_str with
      | Some m => Some m
      | None =>
          match get2 "response" "model" v ≫= as_str with
          | Some m => Some m
          | None => json_get "modelVersion" v ≫= as_str
          end
      end
  end.
Definition OUTPUT_COUNTS : list string := ["completion_tokens"; "output_tokens"; "outputTokens"; "candidatesTokenCount"].
Definition INPUT_COUNTS : list string := ["prompt_tokens"; "input_tokens"; "inputTokens"; "promptTokenCount"].
Definition absorb_usage (provisional : bool) (usage : option Value) (a : UsageAccumulator) : UsageAccumulator :=
  match usage ≫= as_object with
  | None => a
  | Some obj =>
      let carries_final_counts := negb provisional && existsb (λ k, bool_decide (is_Some (reported k obj))) OUTPUT_COUNTS in
      let '(iter_input, iter_output) := iterations_total obj in
      {| ua_input_tokens := match ua_input_tokens a with Some i => Some i | None => find_map (λ k, reported k obj) INPUT_COUNTS end;
         ua_cache_input_tokens := Z.max (ua_cache_input_tokens a) (cache_input_tokens obj);
         ua_tool_prompt_tokens := Z.max (ua_tool_prompt_tokens a) (reported0 "toolUsePromptTokenCount" obj);
         ua_thoughts_tokens := Z.max (ua_thoughts_tokens a) (reported0 "thoughtsTokenCount" obj);
         ua_iter_input := Z.max (ua_iter_input a) iter_input;
         ua_iter_output := Z.max (ua_iter_output a) iter_output;
         ua_output_tokens := foldl (λ o k, match reported k obj with Some c => Some c | None => o end) (ua_output_tokens a) OUTPUT_COUNTS;
         ua_model := ua_model a; ua_line_buf := ua_line_buf a; ua_max_line := ua_max_line a; ua_capped := ua_capped a;
         ua_final_usage := ua_final_usage a || carries_final_counts;
         ua_delta_bytes := ua_delta_bytes a; ua_raw_bytes := ua_raw_bytes a |}
  end.
Definition set_stream_model (m : option string) (a : UsageAccumulator) : UsageAccumulator :=
  {| ua_input_tokens := ua_input_tokens a; ua_cache_input_tokens := ua_cache_input_tokens a; ua_tool_prompt_tokens := ua_tool_prompt_tokens a;
     ua_thoughts_tokens := ua_thoughts_tokens a; ua_iter_input := ua_iter_input a; ua_iter_output := ua_iter_output a;
     ua_output_tokens := ua_output_tokens a; ua_model := m; ua_line_buf := ua_line_buf a; ua_max_line := ua_max_line a;
     ua_capped := ua_capped a; ua_final_usage := ua_final_usage a; ua_delta_bytes := ua_delta_bytes a; ua_raw_bytes := ua_raw_bytes a |}.
Definition absorb (v : Value) (a : UsageAccumulator) : UsageAccumulator :=
  let a := match ua_model a with Some _ => a | None => set_stream_model (event_model v) a end in
  absorb_usage false (json_get "usageMetadata" v)
    (absorb_usage false (get2 "response" "usage" v)
       (absorb_usage true (get2 "message" "usage" v)
          (absorb_usage false (json_get "usage" v) a))).

(** [process_line]. *)
Definition set_delta_bytes (n : Z) (a : UsageAccumulator) : UsageAccumulator :=
  {| ua_input_tokens := ua_input_tokens a; ua_cache_input_tokens := ua_cache_input_tokens a; ua_tool_prompt_tokens := ua_tool_prompt_tokens a;
     ua_thoughts_tokens := ua_thoughts_tokens a; ua_iter_input := ua_iter_input a; ua_iter_output := ua_iter_output a;
     ua_output_tokens := ua_output_tokens a; ua_model := ua_model a; ua_line_buf := ua_line_buf a; ua_max_line := ua_max_line a;
     ua_capped := ua_capped a; ua_final_usage := ua_final_usage a; ua_delta_bytes := n; ua_raw_bytes := ua_raw_bytes a |}.
Definition carriage_return : ascii := "013"%char.
Definition process_line (line : bytes) (a : UsageAccumulator) : UsageAccumulator :=
  if negb (is_utf8 line) then a
  else
    match strip_prefix "data:" (trim (trim_end_matches carriage_return (of_bytes line))) with
    | None => a
    | Some rest =>
        let rest := trim rest in
        if is_empty rest || String.eqb rest "[DONE]" then a
        else
          match json_from_str rest with
          | None => set_delta_bytes (u64_saturating_add (ua_delta_bytes a) (Z.of_nat (String.length rest))) a
          | Some v => absorb v (set_delta_bytes (u64_saturating_add (ua_delta_bytes a) (delta_string_bytes v false)) a)
          end
    end.

(** [push], [flush], [finish]. *)
Definition set_line (buf : bytes) (capped : bool) (raw : Z) (a : UsageAccumulator) : UsageAccumulator :=
  {| ua_input_tokens := ua_input_tokens a; ua_cache_input_tokens := ua_cache_input_tokens a; ua_tool_prompt_tokens := ua_tool_prompt_tokens a;
     ua_thoughts_tokens := ua_thoughts_tokens a; ua_iter_input := ua_iter_input a; ua_iter_output := ua_iter_output a;
     ua_output_tokens := ua_output_tokens a; ua_model := ua_model a; ua_line_buf := buf; ua_max_line := ua_max_line a;
     ua_capped := capped; ua_final_usage := ua_final_usage a; ua_delta_bytes := ua_delta_bytes a; ua_raw_bytes := raw |}.
Definition line_feed : ascii := "010"%char.
Fixpoint push_bytes (chunk : bytes) (a : UsageAccumulator) : UsageAccumulator :=
  match chunk with
  | [] => a
  | b :: rest =>
      if Ascii.eqb b line_feed
      then push_bytes rest (process_line (ua_line_buf a) (set_line [] (ua_capped a) (ua_raw_bytes a) a))
      else
        let buf := ua_line_buf a ++ [b] in
        if (ua_max_line a <? length buf)%nat then set_line [] true (ua_raw_bytes a) a
        else push_bytes rest (set_line buf (ua_capped a) (ua_raw_bytes a) a)
  end.
Definition acc_push (chunk : bytes) (a : UsageAccumulator) : UsageAccumulator :=
  let a := set_line (ua_line_buf a) (ua_capped a) (u64_saturating_add (ua_raw_bytes a) (Z.of_nat (length chunk))) a in
  if ua_capped a then a else push_bytes chunk a.
Definition acc_flush (a : UsageAccumulator) : UsageAccumulator :=
  match ua_line_buf a with
  | [] => a
  | line => process_line line (set_line [] (ua_capped a) (ua_raw_bytes a) a)
  end.
Definition acc_finish (a : UsageAccumulator) : (option TokenUsage * option string) * UsageAccumulator :=
  let a := acc_flush a in
  ((snapshot_usage a, ua_model a), set_stream_model None a).

(** [u64::div_ceil], [estimate_stream_usage], [request_max_output_tokens]. *)
Definition div_ceil (a b : Z) : Z := a / b + (if a mod b =? 0 then 0 else 1).
Definition ESTIMATE_BYTES_PER_TOKEN : Z := 3.
Definition estimate_stream_usage (a : UsageAccumulator) (prompt_bytes : Z) (max_output_tokens : option Z) : TokenUsage :=
  let input :=
    match input_total a with
    | Some i => i
    | None =>
        Z.max (u64_saturating_add (u64_saturating_add (div_ceil prompt_bytes ESTIMATE_BYTES_PER_TOKEN) (ua_cache_input_tokens a))
                 (ua_tool_prompt_tokens a)) (ua_iter_input a)
    end in
  let generated := if ua_capped a then ua_raw_bytes a else ua_delta_bytes a in
  let output := Z.max (div_ceil generated ESTIMATE_BYTES_PER_TOKEN) 1 in
  let output := match max_output_tokens with Some cap => Z.min output (Z.max cap 1) | None => output end in
  {| tu_input := input;
     tu_output := Z.max output (Z.max (u64_saturating_add (default 0 (ua_output_tokens a)) (ua_thoughts_tokens a)) (ua_iter_output a)) |}.
Definition request_max_output_tokens (body : Value) : option Z :=
  match find_map (λ k, json_get k body ≫= as_u64) ["max_tokens"; "max_completion_tokens"; "max_output_tokens"] with
  | Some n => Some n
  | None => get2 "generationConfig" "maxOutputTokens" body ≫= as_u64
  end.

(** ** Meter events *)

Section payloads.
Context (rfc3339 : DateTime → string).

Definition opt_dim (k : string) (v : option string) (dims : list (string * Value)) : list (string * Value) :=
  match v with Some s => obj_insert k (JString s) dims | None => dims end.

(** [meter_observed_payload], [meter_tokens_payload_marked]; objects in key order. *)
Definition meter_observed_payload (request_id principal : string) (occurred_at : DateTime) (tenant : option string)
    (credential_alias : string) (model : option string) : Value :=
  let dims := opt_dim "model" model (obj_insert "credential" (JString credential_alias) (opt_dim "tenant" tenant [])) in
  JObject [("amount", JNumber (PosInt 1)); ("asset", JString "api-calls"); ("confidence", JString "low");
           ("correlation_id", JString request_id); ("cost_source", JString "gateway-observed"); ("dims", JObject dims);
           ("event_id", JString request_id); ("occurred_at", JString (rfc3339 occurred_at)); ("principal", JString principal)].
Definition meter_tokens_payload_marked (request_id principal : string) (occurred_at : DateTime) (tenant : option string)
    (credential_alias : string) (model : option string) (usage : TokenUsage) (estimated : bool) : Value :=
  let dims := opt_dim "model_ref" model (obj_insert "credential" (JString credential_alias)
                (opt_dim "tenant" tenant (opt_dim "estimated" (if estimated then Some "true" else None) []))) in
  JObject [("asset", JString "usd"); ("confidence", JString "low"); ("correlation_id", JString request_id);
           ("cost_source", JString "gateway-observed"); ("dims", JObject dims); ("event_id", JString (request_id +:+ ":tokens"));
           ("occurred_at", JString (rfc3339 occurred_at)); ("principal", JString principal);
           ("tokens", JObject [("input_tokens", JNumber (PosInt (tu_input usage))); ("output_tokens", JNumber (PosInt (tu_output usage)))])].

(** [MeterAttribution]. *)
Record MeterAttribution := {
  ma_request_id : string;
  ma_principal : string;
  ma_occurred_at : DateTime;
  ma_tenant : option string;
  ma_credential_alias : string;
  ma_provider : option string;
  ma_region : option string;
  ma_channel : option string;
}.

(** [emit_meter]: the events it appends, in order; an append that fails is logged. *)
Definition EVENT_METER_OBSERVED : string := "meter.observed".
Definition add_dimensions (attr : MeterAttribution) (payload : Value) : Value :=
  match payload, json_get "dims" payload with
  | JObject m, Some (JObject dims) =>
      JObject (obj_insert "dims"
        (JObject (opt_dim "channel" (ma_channel attr) (opt_dim "region" (ma_region attr) (opt_dim "provider" (ma_provider attr) dims)))) m)
  | _, _ => payload
  end.
Definition emit_meter (attr : MeterAttribution) (usage : option TokenUsage) (model : option string) (estimated : bool)
    : list (string * string * Value) :=
  (ma_principal attr, EVENT_METER_OBSERVED,
   add_dimensions attr
     (meter_observed_payload (ma_request_id attr) (ma_principal attr) (ma_occurred_at attr) (ma_tenant attr) (ma_credential_alias attr) None))
  :: match usage with
     | None => []
     | Some u =>
         [(ma_principal attr, EVENT_METER_OBSERVED,
           add_dimensions attr
             (meter_tokens_payload_marked (ma_request_id attr) (ma_principal attr) (ma_occurred_at attr) (ma_tenant attr)
                (ma_credential_alias attr) model u estimated))]
     end.
End payloads.

(** ** The charge of a stream *)

(** [StreamMeterState], [StreamEstimateContext] and its [state]. *)
Record StreamMeterState := { sm_usage : TokenUsage; sm_model : option string; sm_estimated : bool }.
Record StreamEstimateContext := {
  ec_prompt_bytes : Z; ec_max_output_tokens : option Z; ec_request_model : option string; ec_card : option RateCard }.
Definition charge (c : StreamEstimateContext) (a : UsageAccumulator) : option StreamMeterState :=
  let model := pick_meter_model (ec_card c) (ua_model a) (ec_request_model c) in
  if is_complete a
  then (λ s : TokenUsage * option string, {| sm_usage := s.1; sm_model := model; sm_estimated := false |}) <$> snapshot a
  else (λ m, {| sm_usage := estimate_stream_usage a (ec_prompt_bytes c) (ec_max_output_tokens c); sm_model := Some m; sm_estimated := true |})
         <$> model.

(** [request_model_of]. *)
Definition request_model_of (params : Value) : option string :=
  match json_get "_feir_request_model" params with
  | Some m => Some m
  | None => match json_get "body" params ≫= json_get "model" with Some m => Some m | None => json_get "model" params end
  end ≫= as_str.

(** [StreamFinalizer]: the flag, the carried charge and what was emitted. *)
Record StreamFinalizer := { sf_emitted : bool; sf_carried : option StreamMeterState; sf_events : list (option StreamMeterState) }.
Definition finalizer_new : StreamFinalizer := {| sf_emitted := false; sf_carried := None; sf_events := [] |}.
Definition record_state (s : option StreamMeterState) (f : StreamFinalizer) : StreamFinalizer :=
  {| sf_emitted := sf_emitted f; sf_carried := s; sf_events := sf_events f |}.
Definition finalize (s : option StreamMeterState) (f : StreamFinalizer) : StreamFinalizer :=
  if sf_emitted f then f else {| sf_emitted := true; sf_carried := sf_carried f; sf_events := sf_events f ++ [s] |}.
(** [Drop]: a live runtime hosts the emission. *)
Definition drop_finalizer (runtime : bool) (f : StreamFinalizer) : StreamFinalizer :=
  if sf_emitted f then f
  else if runtime then {| sf_emitted := true; sf_carried := None; sf_events := sf_events f ++ [sf_carried f] |}
  else {| sf_emitted := true; sf_carried := sf_carried f; sf_events := sf_events f |}.
(** [emit_stream_meter]. *)
Definition emit_stream_meter (rfc3339 : DateTime → string) (attr : MeterAttribution) (s : option StreamMeterState)
    : list (string * string * Value) :=
  match s with
  | Some s => emit_meter rfc3339 attr (Some (sm_usage s)) (sm_model s) (sm_estimated s)
  | None => emit_meter rfc3339 attr None None false
  end.
End metering.

(** ** Chunks *)

Section chunks.
Context {JR : JsonReader}.

Definition with_raw (r : Z) (a : UsageAccumulator) : UsageAccumulator := set_line (ua_line_buf a) (ua_capped a) r a.
(** The fields that reading a line leaves alone. *)
Definition same_line (a b : UsageAccumulator) : Prop :=
  ua_line_buf a = ua_line_buf b ∧ ua_max_line a = ua_max_line b ∧ ua_capped a = ua_capped b ∧ ua_raw_bytes a = ua_raw_bytes b.

Lemma absorb_usage_set p u b c r a : absorb_usage p u (set_line b c r a) = set_line b c r (absorb_usage p u a).
Proof. unfold absorb_usage. destruct (u ≫= as_object) as [obj|]; [|done]. by destruct (iterations_total obj). Qed.
Lemma absorb_usage_line p u a : same_line (absorb_usage p u a) a.
Proof. unfold absorb_usage, same_line. destruct (u ≫= as_object) as [obj|]; [|done]. by destruct (iterations_total obj). Qed.
Lemma absorb_set v b c r a : absorb v (set_line b c r a) = set_line b c r (absorb v a).
Proof.
  unfold absorb.
  replace (match ua_model (set_line b c r a) with Some _ => set_line b c r a | None => set_stream_model (event_model v) (set_line b c r a) end)
    with (set_line b c r (match ua_model a with Some _ => a | None => set_stream_model (event_model v) a end)) by (cbn; by destruct (ua_model a)).
  cbv zeta. by rewrite !absorb_usage_set.
Qed.
Lemma absorb_line v a : same_line (absorb v a) a.
Proof.
  unfold absorb. cbv zeta. set (a0 := match ua_model a with Some _ => a | None => _ end).
  assert (H0 : same_line a0 a) by (subst a0; by destruct (ua_model a)).
  assert (T : ∀ x y z, same_line x y → same_line y z → same_line x z) by (intros x y z (?&?&?&?) (?&?&?&?); unfold same_line; split_and!; congruence).
  do 4 (eapply T; [apply absorb_usage_line|]). done.
Qed.
Lemma process_line_set line b c r a : process_line line (set_line b c r a) = set_line b c r (process_line line a).
Proof.
  unfold process_line. destruct (negb _); [done|]. destruct (strip_prefix _ _) as [rest|]; [|done]. destruct (_ || _); [done|].
  destruct (json_from_str _) as [v|]; [|done]. by rewrite <- absorb_set.
Qed.
Lemma process_line_line line a : same_line (process_line line a) a.
Proof.
  unfold process_line. destruct (negb _); [done|]. destruct (strip_prefix _ _) as [rest|]; [|done]. destruct (_ || _); [done|].
  destruct (json_from_str _) as [v|]; [|done]. set (a1 := set_delta_bytes _ a). pose proof (absorb_line v a1). by destruct a.
Qed.
Lemma process_line_raw line r a : process_line line (with_raw r a) = with_raw r (process_line line a).
Proof. unfold with_raw. rewrite process_line_set. by destruct (process_line_line line a) as (-> & _ & -> & _). Qed.

Lemma push_bytes_raw x r a : push_bytes x (with_raw r a) = with_raw r (push_bytes x a).
Proof.
  revert a. induction x as [|b x IH]; intros a; cbn [push_bytes]; [done|]. destruct (Ascii.eqb b line_feed).
  - rewrite <- IH. f_equal. change (set_line [] (ua_capped (with_raw r a)) (ua_raw_bytes (with_raw r a)) (with_raw r a))
      with (with_raw r (set_line [] (ua_capped a) (ua_raw_bytes a) a)). by rewrite process_line_raw.
  - change (ua_line_buf (with_raw r a)) with (ua_line_buf a). change (ua_max_line (with_raw r a)) with (ua_max_line a). cbv zeta.
    destruct (_ <? _)%nat; [done|]. apply (IH (set_line (ua_line_buf a ++ [b]) (ua_capped a) (ua_raw_bytes a) a)).
Qed.
Lemma push_bytes_app x y a :
  ua_capped a = false →
  push_bytes (x ++ y) a = let a' := push_bytes x a in if ua_capped a' then a' else push_bytes y a'.
Proof.
  revert a. induction x as [|b x IH]; intros a Hc; cbn [push_bytes app]; [cbn; by rewrite Hc|]. destruct (Ascii.eqb b line_feed).
  - apply IH. destruct (process_line_line (ua_line_buf a) (set_line [] (ua_capped a) (ua_raw_bytes a) a)) as (_ & _ & -> & _). done.
  - cbv zeta. destruct (_ <? _)%nat; [done|]. by apply IH.
Qed.
Lemma push_bytes_keeps x a : ua_max_line (push_bytes x a) = ua_max_line a ∧ ua_raw_bytes (push_bytes x a) = ua_raw_bytes a.
Proof.
  revert a. induction x as [|b x IH]; intros a; cbn [push_bytes]; [done|]. destruct (Ascii.eqb b line_feed).
  - destruct (IH (process_line (ua_line_buf a) (set_line [] (ua_capped a) (ua_raw_bytes a) a))) as [-> ->].
    destruct (process_line_line (ua_line_buf a) (set_line [] (ua_capped a) (ua_raw_bytes a) a)) as (_ & -> & _ & ->). done.
  - cbv zeta. destruct (_ <? _)%nat; [done|]. apply (IH (set_line _ _ _ _)).
Qed.
Lemma saturating_add_add a b c : 0 <= b → 0 <= c → u64_saturating_add (u64_saturating_add a b) c = u64_saturating_add a (b + c).
Proof. unfold u64_saturating_add. lia. Qed.
Lemma acc_push_app x y a : acc_push (x ++ y) a = acc_push y (acc_push x a).
Proof.
  unfold acc_push. cbv zeta. cbn [ua_capped set_line]. set (r := u64_saturating_add (ua_raw_bytes a) (Z.of_nat (length x))).
  set (r' := u64_saturating_add (ua_raw_bytes a) (Z.of_nat (length (x ++ y)))).
  assert (Hr : u64_saturating_add r (Z.of_nat (length y)) = r')
    by (unfold r, r'; rewrite saturating_add_add by lia; f_equal; rewrite length_app; lia).
  change (set_line (ua_line_buf a) (ua_capped a) r' a) with (with_raw r' a). change (set_line (ua_line_buf a) (ua_capped a) r a) with (with_raw r a).
  destruct (ua_capped a) eqn:Ec.
  - cbn. rewrite Ec, Hr. unfold with_raw. by rewrite Ec.
  - rewrite !push_bytes_raw, push_bytes_app by done. cbv zeta. cbn [with_raw set_line ua_raw_bytes ua_line_buf ua_capped]. rewrite Hr.
    change (set_line (ua_line_buf (push_bytes x a)) (ua_capped (push_bytes x a)) r' (with_raw r (push_bytes x a)))
      with (with_raw r' (push_bytes x a)).
    destruct (ua_capped (push_bytes x a)); [done|]. by rewrite push_bytes_raw.
Qed.
Lemma acc_push_nil a : ua_raw_bytes a <= u64_max → acc_push [] a = a.
Proof.
  intros H. unfold acc_push. cbv zeta.
  replace (u64_saturating_add (ua_raw_bytes a) (Z.of_nat (@length ascii []))) with (ua_raw_bytes a) by (unfold u64_saturating_add; cbn; lia).
  cbn [push_bytes]. destruct a as [? ? ? ? ? ? ? ? ? ? c ? ? ?]. cbn. by destruct c.
Qed.

Lemma acc_push_raw_bound x a : ua_raw_bytes (acc_push x a) <= u64_max.
Proof.
  unfold acc_push. cbv zeta. set (a0 := set_line _ _ _ a).
  assert (H : ua_raw_bytes a0 <= u64_max) by (cbn; unfold u64_saturating_add; lia). destruct (ua_capped a0); [done|].
  by rewrite (proj2 (push_bytes_keeps x a0)).
Qed.
Lemma push_bytes_buf x a : (length (ua_line_buf a) <= ua_max_line a)%nat → (length (ua_line_buf (push_bytes x a)) <= ua_max_line a)%nat.
Proof.
  revert a. induction x as [|b x IH]; intros a Ha; cbn [push_bytes]; [done|]. destruct (Ascii.eqb b line_feed).
  - set (a1 := process_line _ _). destruct (process_line_line (ua_line_buf a) (set_line [] (ua_capped a) (ua_raw_bytes a) a)) as (H1 & H2 & _).
    fold a1 in H1, H2. cbn in H1, H2. rewrite <- H2. apply IH. rewrite H1. cbn. lia.
  - cbv zeta. destruct (Nat.ltb_spec (ua_max_line a) (length (ua_line_buf a ++ [b]))); [cbn; lia|]. by apply (IH (set_line _ _ _ _)).
Qed.

(** The lines of a text, and what comes behind the last line feed. *)
Fixpoint split_lines (text : bytes) : list bytes * bytes :=
  match text with
  | [] => ([], [])
  | b :: rest =>
      let '(ls, tail) := split_lines rest in
      if Ascii.eqb b line_feed then ([] :: ls, tail)
      else match ls with [] => ([], b :: tail) | l :: ls' => ((b :: l) :: ls', tail) end
  end.
Definition prepend (buf : bytes) (s : list bytes * bytes) : list bytes * bytes :=
  match s with ([], tail) => ([], buf ++ tail) | (l :: ls, tail) => ((buf ++ l) :: ls, tail) end.
Lemma split_lines_cons b rest :
  split_lines (b :: rest) = if Ascii.eqb b line_feed then ([] :: (split_lines rest).1, (split_lines rest).2) else prepend [b] (split_lines rest).
Proof. cbn. destruct (split_lines rest) as [[|l ls] tail]; by destruct (Ascii.eqb b line_feed). Qed.
Definition lines_fit (n : nat) (s : list bytes * bytes) : Prop := Forall (λ l, (length l <= n)%nat) s.1 ∧ (length s.2 <= n)%nat.

Lemma push_bytes_lines x a :
  lines_fit (ua_max_line a) (prepend (ua_line_buf a) (split_lines x)) →
  push_bytes x a
  = let '(ls, tail) := prepend (ua_line_buf a) (split_lines x) in
    set_line tail (ua_capped a) (ua_raw_bytes a) (foldl (λ a l, process_line l a) (set_line [] (ua_capped a) (ua_raw_bytes a) a) ls).
Proof.
  revert a. induction x as [|b x IH]; intros a Hfit.
  - cbn. rewrite app_nil_r. by destruct a.
  - rewrite split_lines_cons in *. cbn [push_bytes]. destruct (Ascii.eqb b line_feed).
    + cbn [prepend] in *. rewrite app_nil_r in *. set (a0 := set_line [] _ _ a) in *. set (a1 := process_line (ua_line_buf a) a0).
      destruct (process_line_line (ua_line_buf a) a0) as (H1 & H2 & H3 & H4). fold a1 in H1, H2, H3, H4.
      assert (Hp : prepend (ua_line_buf a1) (split_lines x) = split_lines x) by (rewrite H1; by destruct (split_lines x) as [[] ]).
      rewrite IH; rewrite Hp; [|rewrite H2; split; [by apply Forall_inv_tail with (1 := proj1 Hfit)|apply Hfit]].
      destruct (split_lines x) as [ls tail]. cbn [fst snd foldl]. rewrite H3, H4. fold a1. cbn [ua_capped ua_raw_bytes a0 set_line].
      f_equal. f_equal. destruct a1 eqn:E1. cbn in *. subst. done.
    + cbv zeta. assert (Hpp : prepend (ua_line_buf a) (prepend [b] (split_lines x)) = prepend (ua_line_buf a ++ [b]) (split_lines x)).
      { destruct (split_lines x) as [[|l ls] tail]; cbn; by rewrite <- app_assoc. }
      rewrite Hpp in *. destruct (Nat.ltb_spec (ua_max_line a) (length (ua_line_buf a ++ [b]))) as [Hlt|Hge].
      * exfalso. destruct Hfit as [H1 H2]. destruct (split_lines x) as [[|l ls] tail]; cbn in *; [rewrite length_app in H2; lia|].
        apply Forall_inv in H1. rewrite length_app in H1. lia.
      * rewrite IH; [done|]. done.
Qed.

Lemma fold_lines_set ls b c r a :
  foldl (λ a l, process_line l a) (set_line b c r a) ls = set_line b c r (foldl (λ a l, process_line l a) a ls).
Proof. revert a. induction ls as [|l ls IH]; intros a; cbn [foldl]; [done|]. by rewrite process_line_set, IH. Qed.

(** C30: how a stream is cut into chunks does not change what is counted.  Feeding the
    accumulator chunk by chunk gives the same state as feeding it the whole text; when no
    line is over the limit, that is the state of reading the text line by line; and the
    carried part of a line never exceeds the limit. *)
Theorem chunking_does_not_change_the_count max_line chunks :
  let whole := acc_push (concat chunks) (accumulator_new max_line) in
  let '(ls, tail) := split_lines (concat chunks) in
  foldl (λ a c, acc_push c a) (accumulator_new max_line) chunks = whole
  ∧ (length (ua_line_buf whole) <= max_line)%nat
  ∧ (lines_fit max_line (ls, tail) →
     snapshot (acc_flush whole)
     = snapshot (foldl (λ a l, process_line l a) (accumulator_new max_line) (ls ++ match tail with [] => [] | _ => [tail] end))).
Proof.
  cbv zeta. destruct (split_lines (concat chunks)) as [ls tail] eqn:Es. split_and!.
  - assert (H : ∀ a, ua_raw_bytes a <= u64_max → foldl (λ a c, acc_push c a) a chunks = acc_push (concat chunks) a).
    { clear. induction chunks as [|c chunks IH]; intros a Ha; cbn [foldl concat]; [by rewrite acc_push_nil|].
      rewrite acc_push_app. apply IH. apply acc_push_raw_bound. }
    apply H. cbn. unfold u64_max. lia.
  - unfold acc_push. cbn [ua_capped accumulator_new set_line]. set (a := set_line _ _ _ _). apply (push_bytes_buf _ a). cbn. lia.
  - intros Hfit. unfold acc_push. cbn [ua_capped accumulator_new set_line]. set (a := set_line _ _ _ _).
    rewrite push_bytes_lines; [|cbn; rewrite Es; by destruct ls]. cbn [ua_line_buf a set_line accumulator_new]. rewrite Es.
    replace (prepend [] (ls, tail)) with (ls, tail) by (by destruct ls). unfold a. rewrite !fold_lines_set. unfold acc_flush.
    rewrite foldl_app. destruct tail as [|b tail]; [done|]. cbn [ua_line_buf set_line foldl]. by rewrite !process_line_set.
Qed.
End chunks.
