(* ===== verification/StreamTail.v ===== *)
(** * The tail of a streamed call

    Models the task of [run_action_streaming] in [src/src/server/mod.rs] that reads the
    upstream, scrubs, forwards and accounts: its loop, the drain after the client left, the
    terminal frames and both finalizers.  What each wait of the loop ends with (a chunk, the
    end, a halt, a timeout, a client that left) is an input, so a theorem holds for every
    race; inputs that run out are the task being dropped where it waits.

    [pd_read] and [pd_lost] are not fields of the task: they keep the bytes it counted
    and a released chunk that no one received.

    The theorems: whatever happens, no declared spelling of a secret is in what was
    forwarded; the call is metered and its evidence completed exactly once, from the chunks
    that were read within the byte limit and under the reason the loop ended with ([tail_confined],
    [stream_tail_accounts_once]). *)

From stdpp Require Import base gmap strings list.
From Stdlib Require Import Ascii ZArith Lia.
From S2P Require Import Prelude RustStr BTree Json UrlCanon Egress RateCard Metering.

Open Scope Z_scope.

(** [StreamStep], [StreamDelivery]. *)
Inductive StreamStep :=
| SS_Chunk (c : bytes) | SS_CleanEof | SS_UpstreamError | SS_DownstreamGone | SS_Halted | SS_IdleTimeout | SS_TotalTimeout.
Inductive StreamDelivery := SD_Delivered | SD_DownstreamGone | SD_Halted | SD_IdleTimeout | SD_TotalTimeout.

(** What one round finds: whether the receiver is gone, what the wait for the upstream and
    the wait for room end with, and whether the channel has room for a last frame. *)
Record ProducerInput := { pi_closed : bool; pi_step : StreamStep; pi_delivery : StreamDelivery; pi_room : bool }.

Definition DQUOTE : string := String "034"%char "".
Definition LF : string := String "010"%char "".
Definition sse_frame (message : string) : bytes :=
  as_bytes ("event: error" +:+ LF +:+ "data: {" +:+ DQUOTE +:+ "error" +:+ DQUOTE +:+ ":{" +:+ DQUOTE +:+ "type" +:+ DQUOTE +:+ ":" +:+ DQUOTE
            +:+ "api_error" +:+ DQUOTE +:+ "," +:+ DQUOTE +:+ "message" +:+ DQUOTE +:+ ":" +:+ DQUOTE +:+ message +:+ DQUOTE +:+ "}}" +:+ LF +:+ LF).
Definition SSE_ERROR_FRAME : bytes := sse_frame "vultrino: upstream stream failed".
Definition SSE_HALT_FRAME : bytes := sse_frame "vultrino: request halted".

(** The task. *)
Record Producer := {
  pd_scrubber : StreamScrubber;
  pd_usage : UsageAccumulator;
  pd_total : Z;
  pd_finalizer : StreamFinalizer;
  pd_sent : list bytes;
  pd_frame : bytes;
  pd_read : bytes;
  pd_lost : bytes;
}.
Definition set_scrubber (s : StreamScrubber) (p : Producer) : Producer :=
  {| pd_scrubber := s; pd_usage := pd_usage p; pd_total := pd_total p; pd_finalizer := pd_finalizer p; pd_sent := pd_sent p;
     pd_frame := pd_frame p; pd_read := pd_read p; pd_lost := pd_lost p |}.
Definition set_total (n : Z) (p : Producer) : Producer :=
  {| pd_scrubber := pd_scrubber p; pd_usage := pd_usage p; pd_total := n; pd_finalizer := pd_finalizer p; pd_sent := pd_sent p;
     pd_frame := pd_frame p; pd_read := pd_read p; pd_lost := pd_lost p |}.
Definition forwarded (out : bytes) (p : Producer) : Producer :=
  {| pd_scrubber := pd_scrubber p; pd_usage := pd_usage p; pd_total := pd_total p; pd_finalizer := pd_finalizer p; pd_sent := pd_sent p ++ [out];
     pd_frame := pd_frame p; pd_read := pd_read p; pd_lost := pd_lost p |}.
Definition not_received (out : bytes) (p : Producer) : Producer :=
  {| pd_scrubber := pd_scrubber p; pd_usage := pd_usage p; pd_total := pd_total p; pd_finalizer := pd_finalizer p; pd_sent := pd_sent p;
     pd_frame := pd_frame p; pd_read := pd_read p; pd_lost := out |}.
Definition set_frame (f : bytes) (p : Producer) : Producer :=
  {| pd_scrubber := pd_scrubber p; pd_usage := pd_usage p; pd_total := pd_total p; pd_finalizer := pd_finalizer p; pd_sent := pd_sent p;
     pd_frame := f; pd_read := pd_read p; pd_lost := pd_lost p |}.

Inductive ProducerStop := PS_Clean | PS_Failed | PS_Drain.

Section tail.
Context {EC : UrlEncodingCrate} {EN : Encoders} {JR : JsonReader}.
Context (ctx : StreamEstimateContext) (max_bytes : Z).

(** A raw chunk is counted before it is scrubbed. *)
Definition tee (chunk : bytes) (p : Producer) : Producer :=
  let usage := acc_push chunk (pd_usage p) in
  {| pd_scrubber := pd_scrubber p; pd_usage := usage; pd_total := pd_total p;
     pd_finalizer := record_state (charge ctx usage) (pd_finalizer p); pd_sent := pd_sent p; pd_frame := pd_frame p;
     pd_read := pd_read p ++ chunk; pd_lost := pd_lost p |}.
(** The terminal frame, sent when there is room. *)
Definition terminal (room : bool) (frame : bytes) (p : Producer) : ProducerStop * Producer :=
  let '(out, s) := terminate_with (pd_scrubber p) frame in
  let p := set_scrubber s p in
  (PS_Failed, match out with [] => p | _ => if room then set_frame out p else p end).
Definition over_limit (total : Z) : bool := (0 <? max_bytes) && (max_bytes <? total).

(** One round of the loop: go on, or stop. *)
Definition produce_step (i : ProducerInput) (p : Producer) : option ProducerStop * Producer :=
  if pi_closed i then (Some PS_Drain, p)
  else
    let stop (r : ProducerStop * Producer) := (Some r.1, r.2) in
    match pi_step i with
    | SS_CleanEof =>
        let '(r, s) := finish (pd_scrubber p) in
        let p := set_scrubber s p in
        match r with
        | Ok [] => (Some PS_Clean, p)
        | Ok out => match pi_delivery i with
                    | SD_Delivered => (Some PS_Clean, forwarded out p)
                    | _ => (Some PS_Failed, not_received out p)
                    end
        | Err _ => stop (terminal (pi_room i) SSE_ERROR_FRAME p)
        end
    | SS_Halted => stop (terminal (pi_room i) SSE_HALT_FRAME p)
    | SS_DownstreamGone => (Some PS_Drain, p)
    | SS_IdleTimeout | SS_TotalTimeout | SS_UpstreamError => stop (terminal (pi_room i) SSE_ERROR_FRAME p)
    | SS_Chunk chunk =>
        let total := u64_saturating_add (pd_total p) (Z.of_nat (length chunk)) in
        let p := set_total total p in
        if over_limit total then stop (terminal (pi_room i) SSE_ERROR_FRAME p)
        else
          let p := tee chunk p in
          let '(r, s) := push (pd_scrubber p) chunk in
          let p := set_scrubber s p in
          match r with
          | Ok [] => (None, p)
          | Ok out =>
              match pi_delivery i with
              | SD_Delivered => (None, forwarded out p)
              | SD_DownstreamGone => (Some PS_Drain, not_received out p)
              | SD_Halted => stop (terminal (pi_room i) SSE_HALT_FRAME (not_received out p))
              | SD_IdleTimeout | SD_TotalTimeout => stop (terminal (pi_room i) SSE_ERROR_FRAME (not_received out p))
              end
          | Err _ => stop (terminal (pi_room i) SSE_ERROR_FRAME p)
          end
    end.
Fixpoint produce (inputs : list ProducerInput) (p : Producer) : option ProducerStop * Producer :=
  match inputs with
  | [] => (None, p)
  | i :: rest =>
      let '(stop, p) := produce_step i p in
      match stop with Some _ => (stop, p) | None => produce rest p end
  end.

(** [drain_upstream_for_usage]: an item is a chunk, or an end of any kind.  [false] when
    the task is dropped. *)
Fixpoint drain_upstream_for_usage (items : list (option bytes)) (p : Producer) : bool * Producer :=
  if is_complete (pd_usage p) then (true, p)
  else
    match items with
    | [] => (false, p)
    | None :: _ => (true, p)
    | Some chunk :: rest =>
        let total := u64_saturating_add (pd_total p) (Z.of_nat (length chunk)) in
        let p := set_total total p in
        if over_limit total then (true, p) else drain_upstream_for_usage rest (tee chunk p)
    end.

(** [ExactUseFinalizer]: the outcomes it completed the evidence with. *)
Record ExactUseFinalizer := { xu_evidence : option string; xu_completed : bool; xu_outcomes : list (string * string) }.
Definition exact_new (evidence : option string) : ExactUseFinalizer := {| xu_evidence := evidence; xu_completed := false; xu_outcomes := [] |}.
Definition exact_finalize (status : string) (x : ExactUseFinalizer) : ExactUseFinalizer :=
  if xu_completed x then x
  else {| xu_evidence := xu_evidence x; xu_completed := true;
          xu_outcomes := xu_outcomes x ++ match xu_evidence x with Some e => [(e, status)] | None => [] end |}.
Definition exact_drop (runtime : bool) (x : ExactUseFinalizer) : ExactUseFinalizer :=
  if xu_completed x then x
  else {| xu_evidence := xu_evidence x; xu_completed := true;
          xu_outcomes := xu_outcomes x ++ match xu_evidence x with Some e => if runtime then [(e, "error")] else [] | None => [] end |}.

(** The task from its start to its end; [runtime] is whether the runtime is alive when a
    dropped task's finalizers run. *)
Definition producer_new (secrets : list string) (max_line : nat) : Producer :=
  {| pd_scrubber := scrubber_new secrets max_line; pd_usage := accumulator_new max_line; pd_total := 0; pd_finalizer := finalizer_new;
     pd_sent := []; pd_frame := []; pd_read := []; pd_lost := [] |}.
Record StreamEnd := {
  st_producer : Producer;
  st_stop : option ProducerStop;
  st_charges : list (option StreamMeterState);
  st_outcomes : list (string * string);
}.
Definition stream_tail (secrets : list string) (max_line : nat) (evidence : option string) (inputs : list ProducerInput)
    (drained : list (option bytes)) (runtime : bool) : StreamEnd :=
  let '(stop, p) := produce inputs (producer_new secrets max_line) in
  let '(stop, p) :=
    match stop with
    | Some PS_Drain => let '(ended, p) := drain_upstream_for_usage drained p in (if ended then stop else None, p)
    | _ => (stop, p)
    end in
  match stop with
  | None =>
      {| st_producer := p; st_stop := None; st_charges := sf_events (drop_finalizer runtime (pd_finalizer p));
         st_outcomes := xu_outcomes (exact_drop runtime (exact_new evidence)) |}
  | Some s =>
      let f := drop_finalizer runtime (finalize (charge ctx (acc_flush (pd_usage p))) (pd_finalizer p)) in
      let x := exact_drop runtime (exact_finalize (match s with PS_Clean => "ok" | _ => "error" end) (exact_new evidence)) in
      {| st_producer := p; st_stop := Some s; st_charges := sf_events f; st_outcomes := xu_outcomes x |}
  end.

(** ** Facts *)

Section facts.
Context (secrets : list string) (max_line : nat).
Let forms := ss_forms (scrubber_new secrets max_line).

(** What was counted, and that nothing was emitted yet. *)
Definition accounted (p : Producer) : Prop :=
  pd_usage p = acc_push (pd_read p) (accumulator_new max_line)
  ∧ (0 < max_bytes < u64_max → Z.of_nat (length (pd_read p)) <= max_bytes)
  ∧ sf_emitted (pd_finalizer p) = false ∧ sf_events (pd_finalizer p) = [].
Definition shows_nothing (p : Producer) : Prop :=
  ∀ f, f ∈ forms → ¬ appears f (concat (pd_sent p) ++ pd_lost p ++ pd_frame p).
Definition counts_up (p : Producer) : Prop := pd_total p = Z.min (Z.of_nat (length (pd_read p))) u64_max.
Definition running (p : Producer) : Prop :=
  accounted p ∧ counts_up p ∧ pd_lost p = [] ∧ pd_frame p = []
  ∧ stream_inv (pd_scrubber p) (concat (pd_sent p)) ∧ ss_forms (pd_scrubber p) = forms.
Definition producer_stopped (s : ProducerStop) (p : Producer) : Prop :=
  accounted p ∧ shows_nothing p ∧ (s = PS_Drain → counts_up p) ∧ (s = PS_Clean → pd_lost p = [] ∧ pd_frame p = []).

Lemma running_shows p : running p → shows_nothing p.
Proof.
  intros (_ & _ & Hl & Hfr & Hi & Hf) f Hin. rewrite Hl, Hfr, !app_nil_r. eapply inv_shows_no_form; [exact Hi|]. by rewrite Hf.
Qed.
Lemma new_running : running (producer_new secrets max_line).
Proof.
  split_and!; try done.
  - split_and!; [|cbn; lia|done|done]. symmetry. apply acc_push_nil. cbn. unfold u64_max. lia.
  - apply scrubber_new_inv.
Qed.
Lemma tee_accounted chunk p :
  accounted p → counts_up p → over_limit (u64_saturating_add (pd_total p) (Z.of_nat (length chunk))) = false →
  accounted (tee chunk (set_total (u64_saturating_add (pd_total p) (Z.of_nat (length chunk))) p))
  ∧ counts_up (tee chunk (set_total (u64_saturating_add (pd_total p) (Z.of_nat (length chunk))) p)).
Proof.
  intros (Hu & Hb & He & Hv) Hc Ho. unfold counts_up in *. cbn [pd_total pd_read tee set_total pd_usage pd_finalizer record_state sf_emitted sf_events].
  assert (Ht : u64_saturating_add (pd_total p) (Z.of_nat (length chunk)) = Z.min (Z.of_nat (length (pd_read p ++ chunk))) u64_max).
  { rewrite Hc, length_app. unfold u64_saturating_add. lia. }
  split; [|done]. split_and!; [|intros Hm|done|done]; cbn [pd_read pd_usage tee set_total].
  - by rewrite Hu, <- acc_push_app.
  - rewrite Ht in Ho. unfold over_limit in Ho. lia.
Qed.

(** A terminal frame behind what was released. *)
Lemma terminal_producer_stopped room frame p rel :
  accounted p → pd_frame p = [] → stream_inv (pd_scrubber p) rel → ss_forms (pd_scrubber p) = forms →
  concat (pd_sent p) ++ pd_lost p = rel → producer_stopped PS_Failed (terminal room frame p).2.
Proof.
  intros Ha Hf Hi Hfo Hrel. unfold terminal. pose proof (λ f, terminate_safe (pd_scrubber p) rel frame f Hi) as Hs. rewrite Hfo in Hs.
  destruct (terminate_with (pd_scrubber p) frame) as [out s']. cbn in Hs. cbn [snd].
  assert (Hq : shows_nothing (set_scrubber s' p)).
  { intros f Hin. cbn. rewrite Hf, app_nil_r, Hrel. eapply inv_shows_no_form; [exact Hi|by rewrite Hfo]. }
  assert (Hst : ∀ p', shows_nothing p' → accounted p' → producer_stopped PS_Failed p') by done.
  destruct out as [|b out]; [by apply Hst|]. destruct room; [|by apply Hst]. apply Hst; [|done].
  intros f Hin. cbn. rewrite app_assoc, Hrel. by apply Hs.
Qed.

Lemma step_ok i p s p' :
  running p → produce_step i p = (s, p') → match s with None => running p' | Some s => producer_stopped s p' end.
Proof.
  intros Hr. pose proof (running_shows _ Hr) as Hsh. destruct Hr as (Ha & Hc & Hl & Hfr & Hi & Hf). unfold produce_step.
  assert (Hrel : concat (pd_sent p) ++ pd_lost p = concat (pd_sent p)) by (by rewrite Hl, app_nil_r).
  assert (Hterm : ∀ room frame, producer_stopped PS_Failed (terminal room frame p).2) by (intros; by eapply terminal_producer_stopped).
  assert (Hfst : ∀ room frame q, (terminal room frame q).1 = PS_Failed) by (intros; unfold terminal; by destruct (terminate_with _ _)).
  assert (Hdrain : producer_stopped PS_Drain p) by (split_and!; done).
  destruct (pi_closed i); [intros [= <- <-]; done|].
  destruct (pi_step i) as [chunk| | | | | |].
  - set (total := u64_saturating_add _ _). destruct (over_limit total) eqn:Eo.
    + rewrite Hfst. intros [= <- <-]. by eapply terminal_producer_stopped.
    + destruct (tee_accounted chunk p Ha Hc Eo) as [Ha' Hc']. fold total in Ha', Hc'. set (p1 := tee chunk (set_total total p)) in *.
      pose proof (push_inv (pd_scrubber p) (concat (pd_sent p)) chunk Hi) as Hpush. pose proof (push_forms (pd_scrubber p) chunk) as Hpf.
      change (pd_scrubber p1) with (pd_scrubber p). destruct (push (pd_scrubber p) chunk) as [[out|e] s'] eqn:Ep; cbn [snd] in Hpf; rewrite Hf in Hpf.
      * destruct out as [|b out]; [intros [= <- <-]; rewrite app_nil_r in Hpush; by split_and!|].
        assert (Hlost : producer_stopped PS_Drain (not_received (b :: out) (set_scrubber s' p1))).
        { split_and!; [done| |done|done]. intros f Hin. cbn. rewrite Hfr, app_nil_r. eapply inv_shows_no_form; [exact Hpush|by rewrite Hpf]. }
        destruct (pi_delivery i); rewrite ?Hfst; intros [= <- <-]; [|done|by eapply terminal_producer_stopped..].
        split_and!; [done|done|done|done| |done]. cbn. by rewrite concat_app, !concat_cons, concat_nil, app_nil_r.
      * rewrite Hfst. intros [= <- <-]. by eapply terminal_producer_stopped.
  - pose proof (finish_inv (pd_scrubber p) (concat (pd_sent p)) Hi) as Hfin. pose proof (finish_forms (pd_scrubber p)) as Hff.
    destruct (finish (pd_scrubber p)) as [[out|e] s'] eqn:Ep; cbn [snd] in Hff; rewrite Hf in Hff.
    + destruct out as [|b out]; [intros [= <- <-]; split_and!; done|].
      assert (Hclean : producer_stopped PS_Clean (forwarded (b :: out) (set_scrubber s' p))).
      { split_and!; [done| |done|done]. intros f Hin. cbn. rewrite Hl, Hfr, !app_nil_r, concat_app, !concat_cons, concat_nil, app_nil_r.
        eapply inv_shows_no_form; [exact Hfin|by rewrite Hff]. }
      assert (Hnot : producer_stopped PS_Failed (not_received (b :: out) (set_scrubber s' p))).
      { split_and!; [done| |done|done]. intros f Hin. cbn. rewrite Hfr, app_nil_r. eapply inv_shows_no_form; [exact Hfin|by rewrite Hff]. }
      destruct (pi_delivery i); intros [= <- <-]; done.
    + rewrite Hfst. intros [= <- <-]. by eapply terminal_producer_stopped.
  - rewrite Hfst. intros [= <- <-]. apply Hterm.
  - intros [= <- <-]. done.
  - rewrite Hfst. intros [= <- <-]. apply Hterm.
  - rewrite Hfst. intros [= <- <-]. apply Hterm.
  - rewrite Hfst. intros [= <- <-]. apply Hterm.
Qed.
Lemma produce_ok inputs p s p' :
  running p → produce inputs p = (s, p') → match s with None => running p' | Some s => producer_stopped s p' end.
Proof.
  revert p. induction inputs as [|i inputs IH]; cbn [produce]; intros p Hr; [by intros [= <- <-]|].
  destruct (produce_step i p) as [s1 p1] eqn:E1. pose proof (step_ok _ _ _ _ Hr E1) as H1.
  destruct s1; [by intros [= <- <-]|by apply IH].
Qed.
Lemma drained_ok items p ended p' :
  accounted p → shows_nothing p → counts_up p → drain_upstream_for_usage items p = (ended, p') → accounted p' ∧ shows_nothing p'.
Proof.
  revert p. induction items as [|[chunk|] items IH]; cbn [drain_upstream_for_usage]; intros p Ha Hs Hc;
    (destruct (is_complete _); [by intros [= <- <-]|]); [by intros [= <- <-]| |by intros [= <- <-]].
  destruct (over_limit _) eqn:Eo; [by intros [= <- <-]|]. destruct (tee_accounted chunk p Ha Hc Eo) as [Ha' Hc']. by apply IH.
Qed.
End facts.

(** The shape of every end. *)
Lemma tail_ok secrets max_line evidence inputs drained runtime :
  let e := stream_tail secrets max_line evidence inputs drained runtime in
  accounted max_line (st_producer e) ∧ shows_nothing secrets max_line (st_producer e)
  ∧ (st_stop e = Some PS_Clean → pd_lost (st_producer e) = [] ∧ pd_frame (st_producer e) = []).
Proof.
  unfold stream_tail. cbv zeta. destruct (produce inputs _) as [s p] eqn:Ep.
  pose proof (produce_ok secrets max_line _ _ _ _ (new_running secrets max_line) Ep) as Hp. destruct s as [[]|].
  - cbn. destruct Hp as (H1 & H2 & _ & H3). split_and!; [done..|]. intros _. by apply H3.
  - cbn. destruct Hp as (H1 & H2 & _ & H3). by split_and!.
  - destruct Hp as (H1 & H2 & H3 & _). destruct (drain_upstream_for_usage drained p) as [ended p'] eqn:Ed.
    destruct (drained_ok secrets max_line _ _ _ _ H1 H2 (H3 eq_refl) Ed) as [H4 H5]. destruct ended; cbn; by split_and!.
  - cbn. split_and!; [apply Hp|by apply running_shows|done].
Qed.
Lemma appears_in_prefix f a b : appears f a → appears f (a ++ b).
Proof. intros (x & y & ->). exists x, (y ++ b). by rewrite <- !app_assoc. Qed.
Lemma form_bytes secrets max_line form : form ∈ derive_secret_forms secrets → as_bytes form ∈ ss_forms (scrubber_new secrets max_line).
Proof. intros H. apply list_elem_of_fmap. by exists form. Qed.
End tail.

Lemma tail_confined {EC : UrlEncodingCrate} {EN : Encoders} {JR : JsonReader}
    ctx max_bytes secrets max_line evidence inputs drained runtime form :
  form ∈ derive_secret_forms secrets →
  let p := st_producer (stream_tail ctx max_bytes secrets max_line evidence inputs drained runtime) in
  ¬ appears (as_bytes form) (concat (pd_sent p)) ∧ ¬ appears (as_bytes form) (pd_frame p)
  ∧ (pd_lost p = [] → ¬ appears (as_bytes form) (concat (pd_sent p) ++ pd_frame p)).
Proof.
  intros Hform. cbv zeta. destruct (tail_ok ctx max_bytes secrets max_line evidence inputs drained runtime) as (_ & Hs & _). cbv zeta in Hs.
  specialize (Hs _ (form_bytes secrets max_line form Hform)). set (p := st_producer _) in *. split_and!.
  - intros H. by apply Hs, appears_in_prefix.
  - intros H. apply Hs. by do 2 apply appears_app_r.
  - intros Hl H. apply Hs. by rewrite Hl.
Qed.

(** ** What a stream read, and what ended it *)

Section ends.
Context {EC : UrlEncodingCrate} {EN : Encoders} {JR : JsonReader}.
Context (ctx : StreamEstimateContext) (max_bytes : Z).

(** The chunk a round took off the upstream. *)
Definition chunk_of (i : ProducerInput) : option bytes :=
  if pi_closed i then None else match pi_step i with SS_Chunk c => Some c | _ => None end.
Definition taken (i : ProducerInput) : list bytes := match chunk_of i with Some c => [c] | None => [] end.
(** The chunks up to the one that crosses the limit. *)
Definition add_chunk (total : Z) (c : bytes) : Z := u64_saturating_add total (Z.of_nat (length c)).
Fixpoint within (total : Z) (chunks : list bytes) : list bytes :=
  match chunks with
  | [] => []
  | c :: rest => if over_limit max_bytes (add_chunk total c) then [] else c :: within (add_chunk total c) rest
  end.

(** What ends the loop in a round, and with what: the upstream ended and the rest was taken;
    the receiver is gone; or something failed. *)
Definition stops_with (q : Producer) (i : ProducerInput) (s : ProducerStop) : Prop :=
  let rest := (finish (pd_scrubber q)).1 in
  match s with
  | PS_Clean => pi_closed i = false ∧ pi_step i = SS_CleanEof ∧ ∃ out, rest = Ok out ∧ (out = [] ∨ pi_delivery i = SD_Delivered)
  | PS_Drain =>
      pi_closed i = true ∨ pi_step i = SS_DownstreamGone
      ∨ ∃ c out, pi_step i = SS_Chunk c ∧ over_limit max_bytes (add_chunk (pd_total q) c) = false
          ∧ (push (pd_scrubber q) c).1 = Ok out ∧ out ≠ [] ∧ pi_delivery i = SD_DownstreamGone
  | PS_Failed =>
      pi_closed i = false
      ∧ (pi_step i = SS_UpstreamError ∨ pi_step i = SS_IdleTimeout ∨ pi_step i = SS_TotalTimeout ∨ pi_step i = SS_Halted
         ∨ pi_step i = SS_CleanEof ∧ (∀ out, rest = Ok out → out ≠ [] ∧ pi_delivery i ≠ SD_Delivered)
         ∨ ∃ c, pi_step i = SS_Chunk c
             ∧ (over_limit max_bytes (add_chunk (pd_total q) c) = true
                ∨ (∀ out, (push (pd_scrubber q) c).1 = Ok out →
                     out ≠ [] ∧ (pi_delivery i = SD_Halted ∨ pi_delivery i = SD_IdleTimeout ∨ pi_delivery i = SD_TotalTimeout))))
  end.

(** A producer that has counted exactly these chunks. *)
Definition has_counted (q : Producer) (chunks : list bytes) : Prop :=
  pd_read q = concat chunks ∧ pd_total q = foldl add_chunk 0 chunks ∧ within 0 chunks = chunks.
Lemma within_app t a b : within t a = a → within t (a ++ b) = a ++ within (foldl add_chunk t a) b.
Proof.
  revert t. induction a as [|c a IH]; intros t; [done|]. cbn [within app foldl]. destruct (over_limit _ _); [done|].
  intros [= H]. by rewrite IH.
Qed.
Lemma count_more q chunks c q' :
  has_counted q chunks → over_limit max_bytes (add_chunk (pd_total q) c) = false →
  pd_read q' = pd_read q ++ c → pd_total q' = add_chunk (pd_total q) c → has_counted q' (chunks ++ [c]).
Proof.
  intros (Hr & Ht & Hw) Ho Hr' Ht'. rewrite Ht in Ho, Ht'. split_and!.
  - by rewrite Hr', Hr, concat_app, concat_cons, concat_nil, app_nil_r.
  - by rewrite foldl_app.
  - rewrite within_app by done. cbn [within]. by rewrite Ho.
Qed.
Lemma count_over q chunks c :
  has_counted q chunks → over_limit max_bytes (add_chunk (pd_total q) c) = true → within 0 (chunks ++ [c]) = chunks.
Proof. intros (_ & Ht & Hw) Ho. rewrite Ht in Ho. rewrite within_app by done. cbn [within]. by rewrite Ho, app_nil_r. Qed.
Lemma within_counted q chunks : has_counted q chunks → pd_read q = concat (within 0 chunks).
Proof. intros (Hr & _ & Hw). by rewrite Hw. Qed.

Lemma terminal_fields room frame q :
  (terminal room frame q).1 = PS_Failed ∧ pd_read (terminal room frame q).2 = pd_read q ∧ pd_total (terminal room frame q).2 = pd_total q
  ∧ pd_usage (terminal room frame q).2 = pd_usage q.
Proof. unfold terminal. destruct (terminate_with _ _) as [[|b out] sc]; [done|]. by destruct room. Qed.

(** One round: it counts the chunk it brought and goes on, or it stops for its reason. *)
Lemma step_goes_on i q q' chunks :
  has_counted q chunks → produce_step ctx max_bytes i q = (None, q') → ∃ c, chunk_of i = Some c ∧ has_counted q' (chunks ++ [c]).
Proof.
  intros Hq. unfold produce_step, chunk_of. destruct (pi_closed i); [done|]. destruct (pi_step i) as [c| | | | | |]; try done.
  - fold (add_chunk (pd_total q) c). destruct (over_limit _ _) eqn:Eo; [done|].
    destruct (push _ c) as [[[|b out]|e] sc]; [..|done]; [|destruct (pi_delivery i); try done]; intros [= <-]; exists c; (split; [done|]);
      by apply (count_more q).
  - destruct (finish _) as [[[|b out]|e] sc]; [done| |done]. by destruct (pi_delivery i).
Qed.
Lemma step_stops i q s q' chunks :
  has_counted q chunks → produce_step ctx max_bytes i q = (Some s, q') →
  stops_with q i s ∧ pd_read q' = concat (within 0 (chunks ++ taken i))
  ∧ (s = PS_Drain → has_counted q' (chunks ++ taken i)).
Proof.
  intros Hq. pose proof (within_counted _ _ Hq) as Hw. unfold produce_step, taken, chunk_of, stops_with. cbv zeta.
  destruct (pi_closed i); [intros [= <- <-]; rewrite app_nil_r; split_and!; auto|].
  assert (Hterm : ∀ room frame, pd_read (terminal room frame q).2 = concat (within 0 (chunks ++ []))).
  { intros room frame. destruct (terminal_fields room frame q) as (_ & -> & _). by rewrite app_nil_r. }
  assert (Hfst : ∀ room frame p, (terminal room frame p).1 = PS_Failed) by (intros; apply terminal_fields).
  destruct (pi_step i) as [c| | | | | |] eqn:Ei; rewrite ?Hfst; try (intros [= <- <-]; split; [naive_solver|split; [apply Hterm|done]]).
  - fold (add_chunk (pd_total q) c). destruct (over_limit _ _) eqn:Eo.
    { rewrite ?Hfst. intros [= <- <-]. split; [naive_solver|]. split; [|done].
      destruct (terminal_fields (pi_room i) SSE_ERROR_FRAME (set_total (add_chunk (pd_total q) c) q)) as (_ & -> & _).
      rewrite (count_over q chunks c Hq Eo). apply Hq. }
    set (q1 := tee _ _ _). assert (Hmore : ∀ q2, pd_read q2 = pd_read q1 → pd_total q2 = pd_total q1 → has_counted q2 (chunks ++ [c])).
    { intros q2 H1 H2. apply (count_more q); [done|done|by rewrite H1|by rewrite H2]. }
    assert (Hread : ∀ q2, pd_read q2 = pd_read q1 → pd_total q2 = pd_total q1 → pd_read q2 = concat (within 0 (chunks ++ [c]))).
    { intros q2 H1 H2. apply within_counted. by apply Hmore. }
    change (pd_scrubber q1) with (pd_scrubber q). destruct (push (pd_scrubber q) c) as [[[|b out]|e] sc] eqn:Ep; cbn [fst]; [done| |].
    + destruct (pi_delivery i) eqn:Ed; rewrite ?Hfst; intros [= <- <-]; (split; [|split; [apply Hread; (done || (etrans; [apply terminal_fields|done]))|]]); try done.
      * right. right. exists c, (b :: out). rewrite Ep. by split_and!.
      * intros _. by apply Hmore.
      * split; [done|]. do 5 right. exists c. split; [done|]. right. rewrite Ep. intros o [= <-]. split; [done|]. by left.
      * split; [done|]. do 5 right. exists c. split; [done|]. right. rewrite Ep. intros o [= <-]. split; [done|]. right. by left.
      * split; [done|]. do 5 right. exists c. split; [done|]. right. rewrite Ep. intros o [= <-]. split; [done|]. by do 2 right.
    + rewrite ?Hfst. intros [= <- <-]. split; [|split; [apply Hread; (etrans; [apply terminal_fields|done])|done]]. split; [done|]. do 5 right. exists c. split; [done|]. right. by rewrite Ep.
  - rewrite app_nil_r. destruct (finish (pd_scrubber q)) as [[[|b out]|e] sc]; cbn [fst].
    + intros [= <- <-]. split_and!; [done|done| |exact Hw|done]. exists []. split; [done|by left].
    + destruct (pi_delivery i) eqn:Ed; intros [= <- <-]; (split; [|split; [exact Hw|done]]); split; try done;
        try (do 4 right; left; split; [done|]; by intros o [= <-]). split; [done|]. exists (b :: out). split; [done|by right].
    + rewrite ?Hfst. intros [= <- <-]. split; [|split; [destruct (terminal_fields (pi_room i) SSE_ERROR_FRAME (set_scrubber sc q)) as (_ & -> & _); exact Hw|done]].
      split; [done|]. do 4 right. left. split; [done|]. by intros o [=].
  - intros [= <- <-]. rewrite app_nil_r. split_and!; [by right; left|done|done].
Qed.

(** The loop: rounds that each brought a chunk, and then the round that ended it, if any. *)
Lemma produce_reads inputs p s p' chunks :
  has_counted p chunks → produce ctx max_bytes inputs p = (s, p') →
  ∃ rounds q, produce ctx max_bytes rounds p = (None, q)
  ∧ has_counted q (chunks ++ omap chunk_of rounds) ∧ length (omap chunk_of rounds) = length rounds
  ∧ match s with
    | None => inputs = rounds ∧ p' = q
    | Some s => ∃ i later, inputs = rounds ++ i :: later ∧ stops_with q i s
        ∧ pd_read p' = concat (within 0 (chunks ++ omap chunk_of (rounds ++ [i])))
        ∧ (s = PS_Drain → has_counted p' (chunks ++ omap chunk_of (rounds ++ [i])))
    end.
Proof.
  revert p chunks. induction inputs as [|i inputs IH]; intros p chunks Hp; cbn [produce].
  { intros [= <- <-]. exists [], p. cbn. by rewrite app_nil_r. }
  destruct (produce_step ctx max_bytes i p) as [[s1|] p1] eqn:E1.
  - intros [= <- <-]. exists [], p. cbn [produce omap list_omap app length]. rewrite app_nil_r. split_and!; [done..|]. exists i, inputs.
    destruct (step_stops i p s1 p1 chunks Hp E1) as (H1 & H2 & H3). unfold taken in *. split_and!; [done|done| |]; by destruct (chunk_of i).
  - intros E. destruct (step_goes_on i p p1 chunks Hp E1) as (c & Hc & Hp1). destruct (IH p1 _ Hp1 E) as (rounds & q & Hq & Hn & Hl & Hs).
    exists (i :: rounds), q. cbn [produce omap list_omap app length]. rewrite E1, Hc. cbn [length].
    replace (chunks ++ c :: omap chunk_of rounds) with ((chunks ++ [c]) ++ omap chunk_of rounds) by (by rewrite <- app_assoc).
    split_and!; [done|done|lia|]. destruct s as [s|]; [|destruct Hs as [-> ->]; by split].
    destruct Hs as (j & later & -> & Hst & Hrd & Hd). exists j, later. rewrite <- !app_assoc in *. cbn [app] in *. by split_and!.
Qed.

(** The drain: it reads on until the usage is known, the upstream ends or the limit is crossed. *)
Lemma drain_reads items p ended p' chunks :
  has_counted p chunks → drain_upstream_for_usage ctx max_bytes items p = (ended, p') →
  ∃ more later, items = (Some <$> more) ++ later ∧ pd_read p' = concat (within 0 (chunks ++ more))
  ∧ (ended = true → is_complete (pd_usage p') = true ∨ (∃ t, later = None :: t) ∨ within 0 (chunks ++ more) ≠ chunks ++ more)
  ∧ (ended = false → later = []).
Proof.
  assert (Hstay : ∀ (l : list (option bytes)) p chunks, has_counted p chunks → l = (Some <$> []) ++ l ∧ pd_read p = concat (within 0 (chunks ++ []))).
  { intros l p0 chunks0 H. rewrite app_nil_r. split; [done|by apply within_counted]. }
  revert p chunks. induction items as [|item items IH]; intros p chunks Hp; cbn [drain_upstream_for_usage];
    (destruct (is_complete (pd_usage p)) eqn:Ec;
     [intros [= <- <-]; match goal with |- ∃ _ _, ?l = _ ∧ _ => exists [], l; destruct (Hstay l p chunks Hp) end; split_and!; auto; done|]).
  { intros [= <- <-]. exists [], []. destruct (Hstay [] p chunks Hp). by split_and!. }
  destruct item as [c|]; [|intros [= <- <-]; exists [], (None :: items); destruct (Hstay (None :: items) p chunks Hp); split_and!; eauto; done].
  fold (add_chunk (pd_total p) c). destruct (over_limit max_bytes (add_chunk (pd_total p) c)) eqn:Eo.
  - intros [= <- <-]. exists [c], items. rewrite (count_over p chunks c Hp Eo). split_and!; [done|apply Hp| |done].
    intros _. right. right. intros H. apply (f_equal length) in H. rewrite length_app in H. cbn in H. lia.
  - intros E. destruct (IH (tee ctx c (set_total (add_chunk (pd_total p) c) p)) (chunks ++ [c])) as (more & later & -> & Hr & H1 & H2); [|done|].
    { by apply (count_more p). }
    exists (c :: more), later. rewrite <- app_assoc in *. cbn [app] in *. by split_and!.
Qed.
Lemma within_bound total chunks :
  0 < max_bytes < u64_max → 0 <= total <= max_bytes → total + Z.of_nat (length (concat (within total chunks))) <= max_bytes.
Proof.
  intros Hm. revert total. induction chunks as [|c chunks IH]; intros total Ht; cbn [within]; [cbn; lia|].
  destruct (over_limit max_bytes (add_chunk total c)) eqn:Eo; [cbn; lia|]. cbn [concat]. rewrite length_app.
  unfold over_limit, add_chunk, u64_saturating_add in Eo. assert (Hc : total + Z.of_nat (length c) <= max_bytes) by lia.
  assert (Ha : add_chunk total c = total + Z.of_nat (length c)) by (unfold add_chunk, u64_saturating_add; lia).
  specialize (IH (add_chunk total c) ltac:(lia)). lia.
Qed.
End ends.

(** C29: a stream is accounted for exactly once, from what it read, under the reason it ended.
    The loop took some rounds, each with a chunk, and ended with the reason of the round that
    stopped it: cleanly only when the upstream ended and the scrubber gave out the rest and the
    client took it, as a failure when the upstream broke off, timed out or was halted, the
    limit was crossed or what was released could not be handed over; when the client had left,
    the task read on for the usage.  If the task was not dropped, one charge is emitted, for all
    the chunks it read up to the one that crosses the limit, as if they had come in one piece,
    and the evidence is completed once, with [ok] exactly for a clean end; a dropped task emits
    what it carried last and completes the evidence with [error], if the runtime is alive to
    host that, and nothing otherwise.  What is counted is within the limit, where one is set (zero is none). *)
Theorem stream_tail_accounts_once {EC : UrlEncodingCrate} {EN : Encoders} {JR : JsonReader}
    ctx max_bytes secrets max_line evidence inputs drained runtime :
  let start := producer_new secrets max_line in
  let e := stream_tail ctx max_bytes secrets max_line evidence inputs drained runtime in
  let outcome (status : string) := match evidence with Some x => [(x, status)] | None => [] end in
  ∃ rounds q read, produce ctx max_bytes rounds start = (None, q) ∧ length (omap chunk_of rounds) = length rounds
  ∧ (inputs = rounds ∧ st_stop e = None ∧ read = omap chunk_of rounds
     ∨ ∃ i later s more rest, inputs = rounds ++ i :: later ∧ stops_with max_bytes q i s
         ∧ drained = (Some <$> more) ++ rest ∧ read = omap chunk_of (rounds ++ [i]) ++ more
         ∧ (s ≠ PS_Drain → st_stop e = Some s ∧ more = [])
         ∧ (s = PS_Drain → st_stop e = None ∧ rest = []
              ∨ st_stop e = Some PS_Drain
                ∧ (is_complete (pd_usage (st_producer e)) = true ∨ (∃ t, rest = None :: t) ∨ within max_bytes 0 read ≠ read)))
  ∧ (0 < max_bytes < u64_max → Z.of_nat (length (concat (within max_bytes 0 read))) <= max_bytes)
  ∧ match st_stop e with
    | Some s => st_charges e = [charge ctx (acc_flush (acc_push (concat (within max_bytes 0 read)) (accumulator_new max_line)))]
                ∧ st_outcomes e = outcome (match s with PS_Clean => "ok" | _ => "error" end)
    | None => st_charges e = (if runtime then [sf_carried (pd_finalizer (st_producer e))] else [])
              ∧ st_outcomes e = (if runtime then outcome "error" else [])
    end.
Proof.
  cbv zeta. destruct (tail_ok ctx max_bytes secrets max_line evidence inputs drained runtime) as ((Hu & _ & He & Hv) & _). revert Hu He Hv.
  assert (H0 : has_counted max_bytes (producer_new secrets max_line) []) by done.
  destruct (produce ctx max_bytes inputs (producer_new secrets max_line)) as [s p] eqn:Ep.
  destruct (produce_reads ctx max_bytes _ _ _ _ _ H0 Ep) as (rounds & q & Hq & Hn & Hl & Hs). cbn [app] in Hn, Hs.
  unfold stream_tail. rewrite Ep.
  assert (Hend : ∀ st p' read, pd_read p' = concat (within max_bytes 0 read) →
    pd_usage p' = acc_push (pd_read p') (accumulator_new max_line) → sf_emitted (pd_finalizer p') = false → sf_events (pd_finalizer p') = [] →
    (0 < max_bytes < u64_max → Z.of_nat (length (concat (within max_bytes 0 read))) <= max_bytes)
    ∧ sf_events (drop_finalizer runtime (finalize (charge ctx (acc_flush (pd_usage p'))) (pd_finalizer p')))
      = [charge ctx (acc_flush (acc_push (concat (within max_bytes 0 read)) (accumulator_new max_line)))]
    ∧ xu_outcomes (exact_drop runtime (exact_finalize st (exact_new evidence)))
      = match evidence with Some x => [(x, st)] | None => [] end).
  { intros st p' read Hr Hu' He' Hv'. split; [intros Hm; pose proof (within_bound max_bytes 0 read Hm); lia|].
    unfold finalize, drop_finalizer. rewrite He'. cbn. rewrite Hv', Hu', Hr. split; [done|]. by destruct evidence. }
  assert (Hdrop : ∀ p', sf_emitted (pd_finalizer p') = false → sf_events (pd_finalizer p') = [] →
    sf_events (drop_finalizer runtime (pd_finalizer p')) = (if runtime then [sf_carried (pd_finalizer p')] else [])
    ∧ xu_outcomes (exact_drop runtime (exact_new evidence))
      = (if runtime then match evidence with Some x => [(x, "error")] | None => [] end else [])).
  { intros p' He' Hv'. unfold drop_finalizer. rewrite He'. split; [destruct runtime; cbn; by rewrite Hv'|]. by destruct runtime, evidence. }
  destruct s as [s|]; [destruct Hs as (i & later & -> & Hst & Hrd & Hd)|destruct Hs as [-> ->]].
  - destruct s; cbn [st_producer st_stop st_charges st_outcomes].
    1,2: intros Hu He Hv; edestruct Hend as (H1 & H2 & H3); [exact Hrd|done..|]; eexists rounds, q, _; split_and!; [done|done| |exact H1|exact H2|exact H3];
      right; eexists i, later, _, [], drained; rewrite app_nil_r; split_and!; [done|exact Hst|done|done|done|done].
    destruct (drain_upstream_for_usage ctx max_bytes drained p) as [ended p'] eqn:Ed.
    destruct (drain_reads ctx max_bytes _ _ _ _ _ (Hd eq_refl) Ed) as (more & rest & -> & Hr & Ht & Hf).
    destruct ended; cbn [st_producer st_stop st_charges st_outcomes]; intros Hu He Hv;
      destruct (Hend "error" p' _ Hr Hu He Hv) as (H1 & H2 & H3); eexists rounds, q, _.
    + split_and!; [done|done| |exact H1|exact H2|exact H3]. right. eexists i, later, _, more, rest. split_and!; [done|exact Hst|done|done|done|]. intros _. right. split; [done|]. by apply Ht.
    + split_and!; [done|done| |exact H1|exact (proj1 (Hdrop _ He Hv))|exact (proj2 (Hdrop p' He Hv))].
      right. eexists i, later, _, more, rest. split_and!; [done|exact Hst|done|done|done|]. intros _. left. split; [done|]. by apply Hf.
  - cbn [st_producer st_stop st_charges st_outcomes]. intros Hu He Hv.
    destruct (Hend "error" q _ (within_counted _ _ _ Hn) Hu He Hv) as (H1 & _ & _).
    eexists rounds, q, _. split_and!; [done|done| |exact H1|exact (proj1 (Hdrop _ He Hv))|exact (proj2 (Hdrop q He Hv))]. by left.
Qed.
