(* ===== verification/LlmGate.v ===== *)
(** * The gate of the LLM proxy

    Models the request checks and rewrites of [src/src/web/llm_proxy.rs] that come between
    the resolved channel and the call: which model the upstream will serve, the allowlist of
    request fields and tools per protocol, nested media, the output ceiling, the reasoning
    effort, the stream flags, the headers that are forwarded.  Where the source renders a
    refusal the model keeps what it renders. *)

From stdpp Require Import base gmap strings list.
From Stdlib Require Import Ascii ZArith Lia.
From S2P Require Import Prelude RustStr BTree Json UrlCanon Egress Capability RateCard Metering.

Open Scope Z_scope.

(** ** Headers *)

(** [HeaderMap]: lower-case names with the bytes of each value, in order; [HeaderValue::to_str]. *)
Definition HeaderMap : Type := list (string * string).
Definition visible_ascii (c : ascii) : bool :=
  let n := nat_of_ascii c in ((32 <=? n) && (n <? 127) || (n =? 9))%nat.
Definition header_to_str (v : string) : option string := if str_all visible_ascii v then Some v else None.
Definition header_all (name : string) (h : HeaderMap) : list string := (List.filter (λ kv, String.eqb kv.1 name) h).*2.
Definition header_get (name : string) (h : HeaderMap) : option string := head (header_all name h).

(** [extract_bearer]. *)
Definition extract_bearer (headers : HeaderMap) : option string :=
  v ← header_get "authorization" headers;
  s ← header_to_str v;
  rest ← strip_prefix "Bearer " s;
  let secret := trim rest in if is_empty secret then None else Some secret.

(** ** Tables *)

(** [Kind], [Dialect]. *)
Inductive Kind := K_Plain | K_Tools | K_LegacyFunctions | K_ConverseToolConfig | K_GeminiToolConfig | K_Betas.
Inductive Dialect := DL_Anthropic | DL_OpenAiChat | DL_OpenAiResponses | DL_Azure | DL_Gemini | DL_Converse.

Definition ANTHROPIC_FIELDS : list (string * Kind) :=
  [("model", K_Plain); ("messages", K_Plain); ("system", K_Plain); ("max_tokens", K_Plain); ("temperature", K_Plain);
   ("top_p", K_Plain); ("top_k", K_Plain); ("stop_sequences", K_Plain); ("stream", K_Plain); ("metadata", K_Plain);
   ("thinking", K_Plain); ("cache_control", K_Plain); ("tool_choice", K_Plain); ("tools", K_Tools)].
Definition ANTHROPIC_HOSTED_EXTRA : list (string * Kind) :=
  [("anthropic_version", K_Plain); ("anthropic_beta", K_Betas)].
Definition BEDROCK_INVOKE_OTHER : list (string * Kind) :=
  [("prompt", K_Plain); ("max_gen_len", K_Plain); ("inputText", K_Plain); ("textGenerationConfig", K_Plain)].
Definition OPENAI_CHAT_FIELDS : list (string * Kind) :=
  [("model", K_Plain); ("messages", K_Plain); ("max_tokens", K_Plain); ("max_completion_tokens", K_Plain);
   ("temperature", K_Plain); ("top_p", K_Plain); ("n", K_Plain); ("stop", K_Plain); ("stream", K_Plain);
   ("stream_options", K_Plain); ("frequency_penalty", K_Plain); ("presence_penalty", K_Plain); ("logit_bias", K_Plain);
   ("logprobs", K_Plain); ("top_logprobs", K_Plain); ("seed", K_Plain); ("response_format", K_Plain); ("tool_choice", K_Plain); ("parallel_tool_calls", K_Plain); ("function_call", K_Plain); ("user", K_Plain); ("reasoning_effort", K_Plain); ("verbosity", K_Plain); ("store", K_Plain); ("metadata", K_Plain); ("prediction", K_Plain);
   ("prompt_cache_key", K_Plain); ("safety_identifier", K_Plain); ("tools", K_Tools); ("functions", K_LegacyFunctions)].
Definition NVIDIA_EXTRA : list (string * Kind) :=
  [("top_k", K_Plain); ("min_p", K_Plain); ("repetition_penalty", K_Plain); ("chat_template_kwargs", K_Plain)].
Definition OPENAI_RESPONSES_FIELDS : list (string * Kind) :=
  [("model", K_Plain); ("input", K_Plain); ("instructions", K_Plain); ("max_output_tokens", K_Plain); ("max_tool_calls", K_Plain); ("temperature", K_Plain); ("top_p", K_Plain); ("stream", K_Plain); ("stream_options", K_Plain);
   ("tool_choice", K_Plain); ("parallel_tool_calls", K_Plain); ("reasoning", K_Plain); ("text", K_Plain); ("metadata", K_Plain); ("store", K_Plain); ("previous_response_id", K_Plain); ("truncation", K_Plain); ("include", K_Plain);
   ("user", K_Plain); ("prompt_cache_key", K_Plain); ("safety_identifier", K_Plain); ("tools", K_Tools)].
Definition GEMINI_FIELDS : list (string * Kind) :=
  [("model", K_Plain); ("contents", K_Plain); ("systemInstruction", K_Plain); ("system_instruction", K_Plain);
   ("generationConfig", K_Plain); ("generation_config", K_Plain); ("safetySettings", K_Plain); ("safety_settings", K_Plain); ("cachedContent", K_Plain); ("cached_content", K_Plain); ("labels", K_Plain); ("toolConfig", K_GeminiToolConfig); ("tool_config", K_GeminiToolConfig); ("tools", K_Tools)].
Definition CONVERSE_FIELDS : list (string * Kind) :=
  [("model", K_Plain); ("messages", K_Plain); ("system", K_Plain); ("inferenceConfig", K_Plain); ("requestMetadata", K_Plain); ("toolConfig", K_ConverseToolConfig)].
Definition FORWARDED_PROVIDER_HEADERS : list string :=
  ["anthropic-version"; "anthropic-beta"; "openai-beta"; "x-goog-api-client"; "x-ms-client-request-id"].
Definition PRICED_BETAS : list string :=
  ["prompt-caching-2024-07-31"; "extended-cache-ttl-2025-04-11"; "interleaved-thinking-2025-05-14"; "fine-grained-tool-streaming-2025-05-14"; "token-efficient-tools-2025-02-19"; "output-128k-2025-02-19"; "structured-outputs-2025-11-13";
   "effort-2025-11-24"; "computer-use-2024-10-22"; "computer-use-2025-01-24"; "computer-use-2025-11-24";
   "pdf-2024-09-25"; "claude-code-20250219"].
Definition ANTHROPIC_CLIENT_TOOL_TYPES : list string :=
  ["bash_20241022"; "bash_20250124"; "text_editor_20241022"; "text_editor_20250124"; "text_editor_20250429";
   "text_editor_20250728"; "memory_20250818"; "computer_20241022"; "computer_20250124"; "computer_20251124"].
Definition PRICED_MEDIA_TYPES : list string :=
  ["image/png"; "image/jpeg"; "image/webp"; "image/heic"; "image/heif"; "image/gif"; "application/pdf"].
Definition OPENAI_PRICED_PART_TYPES : list string :=
  ["text"; "image_url"; "input_text"; "input_image"; "output_text"; "refusal"].
Definition OPENAI_PRICED_ITEM_TYPES : list string :=
  ["message"; "function_call"; "function_call_output"; "custom_tool_call"; "custom_tool_call_output"; "reasoning";
   "item_reference"].

(** [forward_provider_headers]. *)
Definition forward_header (inbound : HeaderMap) (fwd : gmap string string) (name : string) : gmap string string :=
  match header_get name inbound ≫= header_to_str with
  | Some v => let v := trim v in if is_empty v then fwd else <[name := v]> fwd
  | None => fwd
  end.
Definition forward_provider_headers (inbound : HeaderMap) (fwd : gmap string string) : gmap string string :=
  foldl (forward_header inbound) fwd FORWARDED_PROVIDER_HEADERS.

(** [provider_feature_enabled]; [env] is the process environment. *)
Definition provider_flag (protocol : string) : option string :=
  if str_in protocol ["openai-chat"; "openai-responses"] then Some "VULTRINO_PROVIDER_OPENAI_ENABLED"
  else if String.eqb protocol "nvidia" then Some "VULTRINO_PROVIDER_NVIDIA_ENABLED"
  else if String.eqb protocol "azure-openai" then Some "VULTRINO_PROVIDER_AZURE_OPENAI_ENABLED"
  else if String.eqb protocol "anthropic-messages" then Some "VULTRINO_PROVIDER_ANTHROPIC_ENABLED"
  else if str_in protocol ["bedrock-converse"; "bedrock-invoke"] then Some "VULTRINO_PROVIDER_BEDROCK_ENABLED"
  else if String.eqb protocol "gemini" then Some "VULTRINO_PROVIDER_GEMINI_ENABLED"
  else if String.eqb protocol "vertex-ai" then Some "VULTRINO_PROVIDER_VERTEX_AI_ENABLED"
  else None.
Definition provider_feature_enabled (env : string → option string) (protocol : string) : bool :=
  match provider_flag protocol with
  | None => false
  | Some flag => match env flag with Some v => String.eqb v "1" || eq_ignore_ascii_case v "true" | None => false end
  end.

(** ** Endpoints *)

(** The path of a URL text without query, fragment and trailing slashes. *)
Definition endpoint_path (upstream : string) : string :=
  trim_end_matches "/" (break_at (one_of ["?"; "#"]%char) upstream).1.
(** [is_openai_chat_endpoint]. *)
Definition is_openai_chat_endpoint (upstream : string) : bool := ends_with "/completions" (endpoint_path upstream).

(** [normalize_nvidia_tool_stream_options]. *)
Definition normalize_nvidia_tool_stream_options (provider : string) (body : Value) : bool * Value :=
  if negb (String.eqb provider "nvidia") then (false, body)
  else
    match body with
    | JObject obj =>
        match json_get "tools" body ≫= as_array with
        | Some (_ :: _) => (true, JObject (obj_remove "stream_options" obj))
        | _ => (false, body)
        end
    | _ => (false, body)
    end.

(** [UrlModel]. *)
Inductive Unroutable :=
| UR_NoModels | UR_NoModel | UR_SeveralModels | UR_NoDeployment | UR_SeveralDeployments | UR_Unmapped (name : string).
Inductive UrlModel := UM_BodyPicks | UM_Names (model : string) (body_ok : option string) | UM_Unresolvable (why : Unroutable).

Section endpoints.
Context {UC : UrlCrate} {EC : UrlEncodingCrate}.

(** [Url::path_segments], [urlencoding::decode]. *)
Definition path_segments (u : Url) : list string :=
  match strip_prefix "/" (url_path u) with Some rest => split_char "/" rest | None => [] end.
Definition urlencoding_decode (s : string) : option string :=
  let d := decode_binary s in if is_utf8 (as_bytes d) then Some d else None.

(** [id_after_segment]. *)
Fixpoint segment_loop (key : string) (segments : list string) (found : option string) : result (option string) unit :=
  match segments with
  | [] => Ok found
  | seg :: rest =>
      if negb (String.eqb seg key) then segment_loop key rest found
      else
        match rest with
        | [] => Err tt
        | id :: _ =>
            match urlencoding_decode id with
            | None => Err tt
            | Some id => if is_empty id || bool_decide (is_Some found) then Err tt else segment_loop key rest (Some id)
            end
        end
  end.
Definition id_after_segment (upstream key : string) : result (option string) unit :=
  match url_parse upstream with
  | None => Err tt
  | Some u => segment_loop key (path_segments u) None
  end.

(** [url_model]. *)
Definition url_model (protocol upstream : string) (body_model : option string) (azure_deployments : gmap string string) : UrlModel :=
  if str_in protocol ["gemini"; "vertex-ai"]
  then match id_after_segment upstream "models" with
       | Ok (Some id) => UM_Names (default id (head (split_char ":" id))) None
       | Ok None => if is_openai_chat_endpoint upstream then UM_BodyPicks else UM_Unresolvable UR_NoModels
       | Err _ => UM_Unresolvable UR_SeveralModels
       end
  else if str_in protocol ["bedrock-converse"; "bedrock-invoke"]
  then match id_after_segment upstream "model" with
       | Ok (Some id) => UM_Names id None
       | Ok None => UM_Unresolvable UR_NoModel
       | Err _ => UM_Unresolvable UR_SeveralModels
       end
  else if String.eqb protocol "azure-openai"
  then
    let mapped (name : string) :=
      match azure_deployments !! name with
      | Some model => UM_Names model (Some name)
      | None => UM_Unresolvable (UR_Unmapped name)
      end in
    match id_after_segment upstream "deployments", body_model with
    | Ok (Some name), _ => mapped name
    | Ok None, Some m => mapped m
    | Ok None, None => UM_Unresolvable UR_NoDeployment
    | Err _, _ => UM_Unresolvable UR_SeveralDeployments
    end
  else UM_BodyPicks.
End endpoints.

(** [request_tables]. *)
Definition request_tables (protocol upstream : string) : list (string * Kind) * Dialect :=
  let google := str_in protocol ["gemini"; "vertex-ai"] in
  if String.eqb protocol "anthropic-messages" then (ANTHROPIC_FIELDS, DL_Anthropic)
  else if String.eqb protocol "openai-chat" then (OPENAI_CHAT_FIELDS, DL_OpenAiChat)
  else if String.eqb protocol "nvidia" then (OPENAI_CHAT_FIELDS ++ NVIDIA_EXTRA, DL_OpenAiChat)
  else if String.eqb protocol "openai-responses" then (OPENAI_RESPONSES_FIELDS, DL_OpenAiResponses)
  else if String.eqb protocol "azure-openai" then (OPENAI_CHAT_FIELDS ++ OPENAI_RESPONSES_FIELDS, DL_Azure)
  else if google && contains "/publishers/anthropic/" upstream then (ANTHROPIC_FIELDS ++ ANTHROPIC_HOSTED_EXTRA, DL_Anthropic)
  else if google && is_openai_chat_endpoint upstream then (OPENAI_CHAT_FIELDS, DL_OpenAiChat)
  else if google then (GEMINI_FIELDS, DL_Gemini)
  else if String.eqb protocol "bedrock-converse" then (CONVERSE_FIELDS, DL_Converse)
  else if String.eqb protocol "bedrock-invoke"
  then (ANTHROPIC_FIELDS ++ ANTHROPIC_HOSTED_EXTRA ++ BEDROCK_INVOKE_OTHER, DL_Anthropic)
  else ([], DL_Anthropic).

(** ** Tools *)

(** [only_keys], [has_name], [sub_object]. *)
Definition only_keys (obj : list (string * Value)) (allowed : list string) : bool := forallb (λ kv, str_in kv.1 allowed) obj.
Definition is_string (v : Value) : bool := match v with JString _ => true | _ => false end.
Definition has_name (obj : list (string * Value)) : bool :=
  match json_get "name" (JObject obj) with Some v => is_string v | None => false end.
Definition sub_object (obj : list (string * Value)) (key : string) : option (list (string * Value)) :=
  json_get key (JObject obj) ≫= as_object.
Definition holds_some {A} (f : A → bool) (o : option A) : bool := match o with Some x => f x | None => false end.

(** [openai_chat_tool], [openai_responses_tool]; [kind] is the [type] of the entry, read as
    a string. *)
Definition openai_chat_tool (obj : list (string * Value)) (kind : option (option string)) : bool :=
  match kind with
  | Some (Some t) =>
      if String.eqb t "function"
      then (length obj =? 2)%nat
           && holds_some (λ f, has_name f && only_keys f ["name"; "description"; "parameters"; "strict"]) (sub_object obj "function")
      else if String.eqb t "custom"
      then (length obj =? 2)%nat && holds_some (λ c, has_name c && only_keys c ["name"; "description"; "format"]) (sub_object obj "custom")
      else false
  | _ => false
  end.
Definition openai_responses_tool (obj : list (string * Value)) (kind : option (option string)) : bool :=
  match kind with
  | Some (Some t) =>
      if String.eqb t "function" then has_name obj && only_keys obj ["type"; "name"; "description"; "parameters"; "strict"]
      else if String.eqb t "custom" then has_name obj && only_keys obj ["type"; "name"; "description"; "format"]
      else false
  | _ => false
  end.

(** [tool_is_plain]. *)
Definition anthropic_tool (obj : list (string * Value)) (kind : option (option string)) : bool :=
  let custom :=
    only_keys obj ["type"; "name"; "description"; "input_schema"; "cache_control"; "strict"] && has_name obj
    && holds_some is_object (json_get "input_schema" (JObject obj)) in
  match kind with
  | None => custom
  | Some (Some t) =>
      if String.eqb t "custom" then custom
      else if str_in t ANTHROPIC_CLIENT_TOOL_TYPES
      then only_keys obj ["type"; "name"; "cache_control"; "display_width_px"; "display_height_px"; "display_number"; "max_characters";
                          "enable_zoom"] && has_name obj
      else false
  | Some None => false
  end.
Definition gemini_declaration (d : Value) : bool :=
  holds_some (λ d, has_name d && only_keys d ["name"; "description"; "parameters"; "parametersJsonSchema"; "parameters_json_schema";
                                              "response"; "responseJsonSchema"; "response_json_schema"; "behavior"]) (as_object d).
Definition gemini_tool (obj : list (string * Value)) : bool :=
  negb (bool_decide (obj = [])) && only_keys obj ["functionDeclarations"; "function_declarations"]
  && forallb (λ kv, holds_some (forallb gemini_declaration) (as_array kv.2)) obj.
Definition converse_tool (obj : list (string * Value)) : bool :=
  (length obj =? 1)%nat
  && match sub_object obj "toolSpec" with
     | Some spec => has_name spec && only_keys spec ["name"; "description"; "inputSchema"; "strict"]
     | None => holds_some (λ c, only_keys c ["type"]) (sub_object obj "cachePoint")
     end.
Definition tool_is_plain (dialect : Dialect) (tool : Value) : bool :=
  match as_object tool with
  | None => false
  | Some obj =>
      let kind := as_str <$> json_get "type" tool in
      match dialect with
      | DL_Anthropic => anthropic_tool obj kind
      | DL_OpenAiChat => openai_chat_tool obj kind
      | DL_OpenAiResponses => openai_responses_tool obj kind
      | DL_Azure => openai_chat_tool obj kind || openai_responses_tool obj kind
      | DL_Gemini => gemini_tool obj
      | DL_Converse => converse_tool obj
      end
  end.

(** [betas_priced], [field_is_priced]. *)
Definition beta_values (s : string) : list string := List.filter (λ b, negb (is_empty b)) (trim <$> split_char "," s).
Definition betas_priced (s : string) : bool := forallb (λ b, str_in b PRICED_BETAS) (beta_values s).
Definition field_is_priced (kind : Kind) (dialect : Dialect) (value : Value) : bool :=
  match kind with
  | K_Plain => true
  | K_Tools => holds_some (forallb (tool_is_plain dialect)) (as_array value)
  | K_LegacyFunctions =>
      holds_some (forallb (λ f, holds_some (λ f, has_name f && only_keys f ["name"; "description"; "parameters"]) (as_object f))) (as_array value)
  | K_ConverseToolConfig =>
      holds_some (λ c, only_keys c ["tools"; "toolChoice"]
        && match json_get "tools" value with
           | None => true
           | Some t => holds_some (forallb (tool_is_plain DL_Converse)) (as_array t)
           end) (as_object value)
  | K_GeminiToolConfig =>
      holds_some (λ c, only_keys c ["functionCallingConfig"; "function_calling_config"; "retrievalConfig"; "retrieval_config"]) (as_object value)
  | K_Betas =>
      match value with
      | JString s => betas_priced s
      | JArray l => forallb (λ b, holds_some betas_priced (as_str b)) l
      | _ => false
      end
  end.

(** ** Media *)

(** [is_priced_mime_str], [is_priced_mime], [image_url_priced]. *)
Definition is_priced_mime_str (m : string) : bool :=
  let m := to_ascii_lowercase m in str_in m PRICED_MEDIA_TYPES || starts_with "text/" m.
Definition is_priced_mime (v : option Value) : bool := holds_some is_priced_mime_str (v ≫= as_str).
(** [&str::get(..5)]: the cut has to lie between characters. *)
Definition str_get5 (s : string) : option (string * string) :=
  if (String.length s <? 5)%nat then None
  else
    let rest := String.substring 5 (String.length s - 5) s in
    match rest with
    | String c _ => if (Nat.land (nat_of_ascii c) 192 =? 128)%nat then None else Some (String.substring 0 5 s, rest)
    | EmptyString => Some (s, "")
    end.
Definition image_url_priced (url : string) : bool :=
  match str_get5 (trim_start url) with
  | None => true
  | Some (h, rest) =>
      if negb (eq_ignore_ascii_case h "data:") then true
      else is_priced_mime_str (trim (break_at (one_of [";"; ","]%char) rest).1)
  end.

(** What was found, of [modality_marker] and [unpriced_modifier]. *)
Inductive Marker :=
| MK_ImageType | MK_TooDeep | MK_Media (key : string) | MK_Modality (key : string)
| MK_NotObject (key : string) | MK_Audio | MK_ItemType (key : string) (t : Value) | MK_Part.
Inductive Modifier :=
| MO_BodyNotObject | MO_Field (key protocol : string) | MO_Value (key protocol : string) | MO_Marker (m : Marker) (protocol : string)
| MO_BetaNotText | MO_Beta (bad : string).

(** [image_part_marker]. *)
Definition image_part_marker (part : list (string * Value)) : option Marker :=
  let url := match json_get "image_url" (JObject part) with
             | Some (JString u) => Some u
             | Some (JObject o) => json_get "url" (JObject o) ≫= as_str
             | _ => None
             end in
  match url with Some u => if image_url_priced u then None else Some MK_ImageType | None => None end.

Definition MODALITY_WALK_MAX_DEPTH : nat := 64.
Definition MEDIA_KEYS : list string := ["inlineData"; "inline_data"; "fileData"; "file_data"].
Definition MODALITY_KEYS : list string := ["responseModalities"; "response_modalities"].
Definition is_null (v : Value) : bool := match v with JNull => true | _ => false end.
Definition is_container (v : Value) : bool := match v with JArray _ | JObject _ => true | _ => false end.
Definition media_priced (v : Value) : bool :=
  holds_some (λ media,
    let types := omap (λ k, json_get k (JObject media)) ["mimeType"; "mime_type"] in
    negb (bool_decide (length types = 0%nat)) && forallb (λ t, is_priced_mime (Some t)) types) (as_object v).
Definition text_only (v : Value) : bool :=
  holds_some (λ l, negb (bool_decide (length l = 0%nat)) && forallb (λ m, bool_decide (as_str m = Some "TEXT")) l) (as_array v).
(** One entry of [gemini_map_marker], before the walk goes into it. *)
Definition entry_marker (key : string) (v : Value) : option Marker :=
  if is_null v then None
  else if str_in key MEDIA_KEYS then if media_priced v then None else Some (MK_Media key)
  else if str_in key MODALITY_KEYS then if text_only v then None else Some (MK_Modality key)
  else None.

(** [gemini_media_marker]; on an object it is [gemini_map_marker]. *)
Fixpoint gemini_media_marker (v : Value) (depth : nat) {struct v} : option Marker :=
  let too_deep := if (MODALITY_WALK_MAX_DEPTH <? depth)%nat then Some MK_TooDeep else None in
  match v with
  | JArray items =>
      match (fix go (l : list Value) : option Marker :=
               match l with
               | [] => None
               | x :: l' => match gemini_media_marker x (S depth) with Some m => Some m | None => go l' end
               end) items with
      | Some m => Some m
      | None => too_deep
      end
  | JObject entries =>
      match too_deep with
      | Some m => Some m
      | None =>
          (fix go (l : list (string * Value)) : option Marker :=
             match l with
             | [] => None
             | (k, x) :: l' =>
                 match entry_marker k x with
                 | Some m => Some m
                 | None =>
                     match (if is_container x then gemini_media_marker x (S depth) else None) with Some m => Some m | None => go l' end
                 end
             end) entries
      end
  | _ => too_deep
  end.
Definition gemini_map_marker (entries : list (string * Value)) (depth : nat) : option Marker := gemini_media_marker (JObject entries) depth.

(** [openai_items], [openai_content_marker]. *)
Definition openai_items (v : Value) : list Value :=
  match v with JArray items => items | JObject _ => [v] | _ => [] end.
Definition part_marker (part : Value) : option Marker :=
  if is_string part then None
  else if holds_some (λ t, str_in t OPENAI_PRICED_PART_TYPES) (json_get "type" part ≫= as_str)
  then as_object part ≫= image_part_marker
  else Some MK_Part.
Definition item_marker (key : string) (item : Value) : option Marker :=
  match item with
  | JString _ => None
  | JObject obj =>
      if holds_some (λ a, negb (is_null a)) (json_get "audio" item) then Some MK_Audio
      else
        match image_part_marker obj with
        | Some m => Some m
        | None =>
            match json_get "type" item with
            | Some t =>
                if negb (is_null t)
                   && negb (holds_some (λ t, str_in t OPENAI_PRICED_ITEM_TYPES || str_in t OPENAI_PRICED_PART_TYPES) (as_str t))
                then Some (MK_ItemType key t)
                else find_map part_marker (match json_get "content" item with Some c => openai_items c | None => [] end)
            | None => find_map part_marker (match json_get "content" item with Some c => openai_items c | None => [] end)
            end
        end
  | _ => Some (MK_NotObject key)
  end.
Definition openai_content_marker (obj : list (string * Value)) : option Marker :=
  find_map (λ key, match json_get key (JObject obj) with
                   | None => None
                   | Some v => find_map (item_marker key) (openai_items v)
                   end) ["messages"; "input"].

(** [modality_marker], [unpriced_modifier], [unpriced_beta_header]. *)
Definition modality_marker (dialect : Dialect) (obj : list (string * Value)) : option Marker :=
  match dialect with
  | DL_Gemini => gemini_map_marker obj 0
  | DL_OpenAiChat | DL_OpenAiResponses | DL_Azure => openai_content_marker obj
  | DL_Anthropic | DL_Converse => None
  end.
Definition field_kind (table : list (string * Kind)) (key : string) : option Kind :=
  snd <$> List.find (λ e : string * Kind, String.eqb e.1 key) table.
Definition field_modifier (protocol : string) (table : list (string * Kind)) (dialect : Dialect) (kv : string * Value) : option Modifier :=
  match field_kind table kv.1 with
  | None => Some (MO_Field kv.1 protocol)
  | Some kind => if field_is_priced kind dialect kv.2 then None else Some (MO_Value kv.1 protocol)
  end.
Definition unpriced_modifier (protocol upstream : string) (body : Value) : option Modifier :=
  match as_object body with
  | None => Some MO_BodyNotObject
  | Some obj =>
      let '(table, dialect) := request_tables protocol upstream in
      match find_map (field_modifier protocol table dialect) obj with
      | Some m => Some m
      | None => (λ m, MO_Marker m protocol) <$> modality_marker dialect obj
      end
  end.
Definition unpriced_beta_header (headers : HeaderMap) : option Modifier :=
  find_map (λ v, match header_to_str v with
                 | None => Some MO_BetaNotText
                 | Some text => MO_Beta <$> List.find (λ b, negb (str_in b PRICED_BETAS)) (beta_values text)
                 end) (header_all "anthropic-beta" headers).

(** ** Rewrites *)

Section rewrites.
Context {UC : UrlCrate}.

(** [upstream_host_is], [default_output_token_field]. *)
Definition upstream_host_is (upstream host : string) : bool :=
  holds_some (λ h, eq_ignore_ascii_case h host) (url_parse upstream ≫= url_host_str).
Definition default_output_token_field (protocol upstream : string) : string :=
  let path := endpoint_path upstream in
  if String.eqb protocol "openai-responses" || ends_with "/responses" path then "max_output_tokens"
  else if String.eqb protocol "openai-chat" && ends_with "/chat/completions" path && upstream_host_is upstream "api.openai.com"
  then "max_completion_tokens"
  else "max_tokens".
End rewrites.

(** [ReasoningEffortShape], [reasoning_effort_shape], [apply_reasoning_effort]. *)
Inductive ReasoningEffortShape := RE_ChatTopLevel | RE_ResponsesNested.
Definition reasoning_effort_shape (protocol upstream : string) : option ReasoningEffortShape :=
  let path := endpoint_path upstream in
  if ends_with "/chat/completions" path then Some RE_ChatTopLevel
  else if ends_with "/responses" path then Some RE_ResponsesNested
  else if String.eqb protocol "openai-chat" then Some RE_ChatTopLevel
  else if String.eqb protocol "openai-responses" then Some RE_ResponsesNested
  else None.
Definition apply_reasoning_effort (body : Value) (effort : string) (shape : ReasoningEffortShape) : Value :=
  match body with
  | JObject obj =>
      match shape with
      | RE_ChatTopLevel => JObject (obj_insert "reasoning_effort" (JString effort) obj)
      | RE_ResponsesNested =>
          let inner := default [] (json_get "reasoning" body ≫= as_object) in
          JObject (obj_insert "reasoning" (JObject (obj_insert "effort" (JString effort) inner)) obj)
      end
  | _ => body
  end.

(** [clamp_max_output_tokens]. *)
Definition OUTPUT_TOKEN_FIELDS : list string := ["max_tokens"; "max_completion_tokens"; "max_output_tokens"].
Definition has_key (k : string) (obj : list (string * Value)) : bool := bool_decide (is_Some (json_get k (JObject obj))).
Definition pin_to_one (obj : list (string * Value)) (mult : string) : list (string * Value) :=
  if bool_decide (json_get mult (JObject obj) ≫= as_u64 = Some 1) then obj
  else if has_key mult obj then obj_insert mult (JNumber (PosInt 1)) obj else obj.
Definition prompt_units (obj : list (string * Value)) : Z :=
  match json_get "prompt" (JObject obj) ≫= as_array with Some l => Z.max (Z.of_nat (length l)) 1 | None => 1 end.
Definition per_unit_budget (ceiling units : Z) : Z := Z.max (ceiling / units) 1.
Definition clamp_field (per_unit : Z) (obj : list (string * Value)) (field : string) : list (string * Value) :=
  if has_key field obj
  then obj_insert field (JNumber (PosInt (match json_get field (JObject obj) ≫= as_u64 with Some req => Z.min req per_unit | None => per_unit end))) obj
  else obj.
Definition clamp_max_output_tokens (body : Value) (ceiling : Z) (default_field : string) : Value :=
  match body with
  | JObject obj =>
      let obj := foldl pin_to_one obj ["n"; "best_of"] in
      let per_unit := per_unit_budget ceiling (prompt_units obj) in
      let any_present := existsb (λ f, has_key f obj) OUTPUT_TOKEN_FIELDS in
      let obj := foldl (clamp_field per_unit) obj OUTPUT_TOKEN_FIELDS in
      JObject (if any_present then obj else obj_insert default_field (JNumber (PosInt per_unit)) obj)
  | _ => body
  end.
