(* ===== verification/Identity.v ===== *)
(** * Workload identities

    Models [src/src/identity.rs], [resolve_identity] of [src/src/server/mod.rs] and
    [resolve_inbound_principal] of [src/src/web/api.rs]: a document in a request header
    refines who the request runs as, and it is believed only under a signature of the edge
    over the document, an expiry and the very bearer of the request.

    [believed_identity_is_signed] says what a believed document rests on,
    [identity_payload_inj] that what is signed determines document, expiry and bearer
    digest, and [signed_identity_verifies] that what the edge signs is accepted. *)

From stdpp Require Import base gmap strings list pretty.
From Stdlib Require Import Ascii ZArith Lia.
From S2P Require Import Prelude RustStr PolicyTypes UrlCanon RateLimit Json PolicyEngine Egress Tokens Auth Capability Catalog RateCard LlmGate.

Open Scope Z_scope.

(** HMAC-SHA-256 under a key, and [URL_SAFE_NO_PAD.decode]. *)
Class MacCrates := {
  mac_sha256 : string → string → string;
  b64_url_decode : string → option string;
}.

(** [IdentityKind], [WorkloadIdentity], [IdentityError] with its cause. *)
Inductive IdentityKind := IK_Spiffe | IK_AwsIam | IK_GcpWorkload | IK_EntraWorkload | IK_Oidc.
Record WorkloadIdentity := {
  wi_kind : IdentityKind;
  wi_subject : string;
  wi_trust_domain : option string;
  wi_owner : option string;
}.
Inductive IdentityError :=
| IE_Malformed (kind : IdentityKind) (detail : string)
| IE_UntrustedDomain (domain : string)
| IE_MissingClaim (claim : string)
| IE_BadSignature (why : string).

(** ** Signatures *)

Definition IDENTITY_MAX_TTL_SECS : Z := 300.
Definition signature_header_name (header : string) : string := header +:+ "-signature".

(** [verification_key_from_env]: the variables and the file are arguments. *)
Definition non_blank_text (s : string) : option string := let t := trim s in if is_empty t then None else Some t.
Definition verification_key_from_env (file var : option string) (read_to_string : string → option string) : option string :=
  match file with
  | Some path => if is_empty (trim path) then var ≫= non_blank_text else read_to_string path ≫= non_blank_text
  | None => var ≫= non_blank_text
  end.

Definition NEWLINE : string := String "010" "".

Section identity.
Context {EN : Encoders} {SD : Sha256Digest} {MC : MacCrates} {JR : JsonReader}.

(** What [identity_mac] authenticates. *)
Definition identity_payload (document : string) (exp : Z) (bearer : string) : string :=
  "vultrino-identity-v1" +:+ NEWLINE +:+ document +:+ NEWLINE +:+ pretty exp +:+ NEWLINE +:+ hex_encode (sha256 bearer).
Definition identity_mac (key document : string) (exp : Z) (bearer : string) : string :=
  mac_sha256 key (identity_payload document exp bearer).

(** [sign_identity], [verify_identity_signature] at a given time. *)
Definition sign_identity (key document bearer : string) (exp : Z) : string :=
  "v1." +:+ pretty exp +:+ "." +:+ b64_url_safe_no_pad (identity_mac key document exp bearer).
Definition parse_i64_digits (s : string) : option Z :=
  if is_empty s || negb (str_all is_ascii_digit s) then None
  else n ← digits_value s 0; if n <=? i64_max then Some n else None.
Definition verify_identity_signature (key document bearer signature : string) (now : Z) : result unit IdentityError :=
  match split_char "." signature with
  | [version; exp; mac] =>
      if negb (String.eqb version "v1") then Err (IE_BadSignature "malformed")
      else
        match parse_i64_digits exp with
        | None => Err (IE_BadSignature "malformed expiry")
        | Some exp =>
            match b64_url_decode mac with
            | None => Err (IE_BadSignature "malformed mac")
            | Some supplied =>
                if negb (String.eqb (identity_mac key document exp bearer) supplied) then Err (IE_BadSignature "mac mismatch")
                else if exp <? now then Err (IE_BadSignature "expired")
                else if IDENTITY_MAX_TTL_SECS <? exp - now then Err (IE_BadSignature "expiry beyond the maximum lifetime")
                else Ok tt
            end
        end
  | _ => Err (IE_BadSignature "malformed")
  end.

(** ** Documents *)

(** [SpiffeResolver]. *)
Definition parse_spiffe_id (id : string) : result (string * string) IdentityError :=
  match strip_prefix "spiffe://" id with
  | None => Err (IE_Malformed IK_Spiffe "must start with spiffe://")
  | Some rest =>
      match split_once "/" rest with
      | None => Err (IE_Malformed IK_Spiffe "missing workload path after the trust domain")
      | Some (trust_domain, path) =>
          if is_empty trust_domain then Err (IE_Malformed IK_Spiffe "empty trust domain")
          else if is_empty path then Err (IE_Malformed IK_Spiffe "empty workload path")
          else Ok (trust_domain, "/" +:+ path)
      end
  end.
Definition spiffe_resolve (allowed_trust_domains : list string) (document : string) : result WorkloadIdentity IdentityError :=
  match parse_spiffe_id (trim document) with
  | Err e => Err e
  | Ok (trust_domain, _) =>
      if negb (bool_decide (allowed_trust_domains = [])) && negb (existsb (λ d, eq_ignore_ascii_case d trust_domain) allowed_trust_domains)
      then Err (IE_UntrustedDomain trust_domain)
      else Ok {| wi_kind := IK_Spiffe; wi_subject := trim document; wi_trust_domain := Some trust_domain; wi_owner := None |}
  end.

(** [require_str_claim], [OidcResolver]. *)
Definition str_claim (claims : Value) (key : string) : option string := json_get key claims ≫= as_str.
Definition require_str_claim (claims : Value) (key : string) : result string IdentityError :=
  match str_claim claims key with
  | Some s => if is_empty s then Err (IE_MissingClaim key) else Ok s
  | None => Err (IE_MissingClaim key)
  end.
Definition issuer_allowed (allowed : list string) (iss : option string) : result unit IdentityError :=
  match allowed with
  | [] => Ok tt
  | _ =>
      match iss with
      | None => Err (IE_MissingClaim "iss")
      | Some issuer => if existsb (λ i, String.eqb i issuer) allowed then Ok tt else Err (IE_UntrustedDomain issuer)
      end
  end.
Definition human_owner (claims : Value) : option string :=
  v ← match json_get "email" claims with Some v => Some v | None => json_get "preferred_username" claims end;
  s ← as_str v;
  if is_empty s then None else Some s.
Definition oidc_resolve (allowed_issuers : list string) (claims_json : string) : result WorkloadIdentity IdentityError :=
  match json_from_str claims_json with
  | None => Err (IE_Malformed IK_Oidc "claims are not valid JSON")
  | Some claims =>
      let? sub := require_str_claim claims "sub" in
      let iss := str_claim claims "iss" in
      let? _ := issuer_allowed allowed_issuers iss in
      Ok {| wi_kind := IK_Oidc; wi_subject := sub; wi_trust_domain := iss; wi_owner := human_owner claims |}
  end.

(** [resolve_cloud_iam]: the claims of a token another party verified. *)
Definition resolve_cloud_iam (kind : IdentityKind) (claims_json : string) : result WorkloadIdentity IdentityError :=
  match json_from_str claims_json with
  | None => Err (IE_Malformed kind "claims are not valid JSON")
  | Some claims =>
      let? (subject, trust_domain) :=
        match kind with
        | IK_AwsIam => let? arn := require_str_claim claims "arn" in Ok (arn, Some "aws")
        | IK_GcpWorkload => let? email := require_str_claim claims "email" in Ok (email, str_claim claims "iss")
        | IK_EntraWorkload => let? oid := require_str_claim claims "oid" in Ok (oid, str_claim claims "tid")
        | other => Err (IE_Malformed other "resolve_cloud_iam supports aws_iam/gcp_workload/entra_workload only")
        end in
      Ok {| wi_kind := kind; wi_subject := subject; wi_trust_domain := trust_domain; wi_owner := None |}
  end.

(** ** The request path *)

(** The resolvers that can be wired, [InboundIdentity], [resolve_identity]. *)
Inductive IdentityResolver := IR_Spiffe (allowed : list string) | IR_Oidc (allowed : list string).
Definition resolve_document (r : IdentityResolver) (document : string) : result WorkloadIdentity IdentityError :=
  match r with IR_Spiffe allowed => spiffe_resolve allowed document | IR_Oidc allowed => oidc_resolve allowed document end.
Record InboundIdentity := { ii_header : string; ii_key : option string; ii_resolver : IdentityResolver }.
Definition resolve_identity (inbound : option InboundIdentity) (now : Z) (document : string) (signature : option string)
    (bearer : string) : option WorkloadIdentity :=
  i ← inbound;
  let verified :=
    match ii_key i, signature with
    | Some key, Some sig => verify_identity_signature key document bearer sig now
    | None, _ => Err (IE_BadSignature "no verification key configured")
    | _, None => Err (IE_BadSignature "no signature header")
    end in
  match verified with
  | Err _ => None
  | Ok _ => match resolve_document (ii_resolver i) document with Ok id => Some id | Err _ => None end
  end.

(** [resolve_inbound_principal]. *)
Definition resolve_inbound_principal (inbound : option InboundIdentity) (now : Z) (headers : HeaderMap) (bearer : string)
    : option WorkloadIdentity :=
  name ← ii_header <$> inbound;
  value ← header_get name headers ≫= header_to_str;
  let signature := header_get (signature_header_name name) headers ≫= header_to_str in
  resolve_identity inbound now value signature bearer.

(** What [api_execute] does with it: the subject becomes one more name of the principal, an
    owner the owner of the key. *)
Definition identified (i : WorkloadIdentity) (k : ApiKey) : ApiKey :=
  {| ak_id := ak_id k; ak_key_prefix := ak_key_prefix k; ak_key_hash := ak_key_hash k; ak_name := ak_name k;
     ak_role_id := ak_role_id k; ak_expires_at := ak_expires_at k; ak_created_at := ak_created_at k;
     ak_last_used_at := ak_last_used_at k; ak_agent_label := ak_agent_label k;
     ak_owner_identity := match wi_owner i with Some o => Some o | None => ak_owner_identity k end;
     ak_tenant := ak_tenant k; ak_workload_id := Some (wi_subject i) |}.
Definition refine_exec_auth (identity : option WorkloadIdentity) (e : ExecAuth) : ExecAuth :=
  match identity, ea_auth e with
  | Some i, Some a =>
      {| ea_auth := Some {| ar_api_key := identified i (ar_api_key a); ar_role := ar_role a |};
         ea_use_token := ea_use_token e; ea_force_approval := ea_force_approval e; ea_requester := ea_requester e |}
  | _, _ => e
  end.

(** ** What is signed *)

Lemma newline_free_pretty (z : Z) : contains_any (Ascii.eqb "010") (pretty z) = false.
Proof.
  assert (H : ∀ n : N, contains_any (Ascii.eqb "010") (pretty n) = false)
    by (intros n; apply pretty_N_free; intros d; unfold pretty_N_char; by repeat case_match).
  destruct z as [|p|p]; [done|apply (H (Npos p))|]. unfold pretty, pretty_Z. cbn [contains_any String.append]. apply (H (Npos p)).
Qed.
Lemma rsplit_none c b : contains_any (Ascii.eqb c) b = false → rsplit_once_char c b = None.
Proof.
  induction b as [|x b IH]; [done|]. cbn. intros [Hx Hb]%orb_false_iff. rewrite (IH Hb). rewrite Ascii.eqb_sym in Hx. by rewrite Hx.
Qed.
Lemma rsplit_found c a b : contains_any (Ascii.eqb c) b = false → rsplit_once_char c (a +:+ String c b) = Some (a, b).
Proof.
  intros Hb. induction a as [|x a IH]; cbn; [by rewrite rsplit_none, Ascii.eqb_refl|]. by rewrite IH.
Qed.

(** What is signed determines the document, the expiry and the digest of the bearer, also
    when the document holds line breaks. *)
Lemma identity_payload_inj d e b d' e' b' :
  (∀ x, contains_any (Ascii.eqb "010") (hex_encode x) = false) →
  identity_payload d e b = identity_payload d' e' b' → d = d' ∧ e = e' ∧ hex_encode (sha256 b) = hex_encode (sha256 b').
Proof.
  intros Hx H. unfold identity_payload in H. do 2 apply string_app_inj_l in H. unfold NEWLINE in H. cbn [String.append] in H.
  assert (Hcut : ∀ d p h, d +:+ String "010" (p +:+ String "010" h) = (d +:+ String "010" p) +:+ String "010" h)
    by (intros; by rewrite string_app_assoc).
  rewrite !Hcut in H. apply (f_equal (rsplit_once_char "010")) in H. rewrite !rsplit_found in H by apply Hx. injection H as H Hh.
  apply (f_equal (rsplit_once_char "010")) in H. rewrite !rsplit_found in H by apply newline_free_pretty. injection H as -> H.
  by apply (inj pretty) in H.
Qed.

(** ** What is believed *)

(** Whom a resolver accepts. *)
Definition accepted_by (r : IdentityResolver) (i : WorkloadIdentity) : Prop :=
  match r with
  | IR_Spiffe allowed => allowed = [] ∨ ∃ d td, wi_trust_domain i = Some td ∧ d ∈ allowed ∧ eq_ignore_ascii_case d td = true
  | IR_Oidc allowed => allowed = [] ∨ ∃ iss, wi_trust_domain i = Some iss ∧ iss ∈ allowed
  end.
Lemma resolved_is_accepted r document i : resolve_document r document = Ok i → accepted_by r i ∧ wi_subject i ≠ "".
Proof.
  destruct r as [allowed|allowed]; cbn [resolve_document accepted_by].
  - unfold spiffe_resolve. destruct (parse_spiffe_id (trim document)) as [[td path]|] eqn:Ep; [|done].
    assert (Hne : trim document ≠ "") by (intros E; by rewrite E in Ep).
    destruct (negb (bool_decide _) && _) eqn:Ea; [done|]. intros [= <-]. cbn. split; [|done].
    apply andb_false_iff in Ea as [H|H]; apply negb_false_iff in H; [left; by apply bool_decide_eq_true in H|right].
    apply existsb_exists in H as (d & Hin%list_elem_of_In & Hd). by exists d, td.
  - unfold oidc_resolve. destruct (json_from_str document) as [claims|]; [|done]. unfold require_str_claim.
    destruct (str_claim claims "sub") as [sub|]; [|done]. destruct (is_empty sub) eqn:Es; [done|]. cbn [result_bind].
    destruct (issuer_allowed allowed _) as [[]|] eqn:Ei; [|done]. intros [= <-]. cbn. split; [|by apply is_empty_false].
    unfold issuer_allowed in Ei. destruct allowed as [|a l]; [by left|right]. destruct (str_claim claims "iss") as [iss|]; [|done].
    destruct (existsb _ (a :: l)) eqn:Ex; [|done]. apply existsb_exists in Ex as (x & Hin%list_elem_of_In & ->%String.eqb_eq). by exists iss.
Qed.

(** a document is believed only under the edge's signature for this very request.  If a
    header refines the principal, the feature is on with a key, the request carries a signature
    whose authentication code under that key is over this document, an expiry that is not past
    and at most five minutes away, and the digest of the bearer the request authenticates
    with; and the resolver's list accepts who vouches for it. *)
Theorem believed_identity_is_signed inbound now headers bearer i :
  resolve_inbound_principal inbound now headers bearer = Some i →
  ∃ cfg key document signature exp mac,
    inbound = Some cfg ∧ ii_key cfg = Some key
    ∧ header_get (ii_header cfg) headers ≫= header_to_str = Some document
    ∧ header_get (signature_header_name (ii_header cfg)) headers ≫= header_to_str = Some signature
    ∧ split_char "." signature = ["v1"; exp; mac]
    ∧ (∃ e, parse_i64_digits exp = Some e ∧ now <= e <= now + IDENTITY_MAX_TTL_SECS
        ∧ b64_url_decode mac = Some (mac_sha256 key (identity_payload document e bearer)))
    ∧ resolve_document (ii_resolver cfg) document = Ok i ∧ accepted_by (ii_resolver cfg) i ∧ wi_subject i ≠ "".
Proof.
  unfold resolve_inbound_principal. destruct inbound as [cfg|]; [cbn|done].
  destruct (header_get (ii_header cfg) headers ≫= header_to_str) as [document|] eqn:Ed; [cbn|done].
  destruct (ii_key cfg) as [key|] eqn:Ek; [|by destruct (_ ≫= _)].
  destruct (header_get (signature_header_name _) _ ≫= _) as [signature|] eqn:Es; [|done].
  unfold verify_identity_signature. destruct (split_char "." signature) as [|v [|exp [|mac [|]]]] eqn:Ec; try done.
  destruct (String.eqb_spec v "v1") as [->|]; [cbn [negb]|done]. destruct (parse_i64_digits exp) as [e|] eqn:Ee; [|done].
  destruct (b64_url_decode mac) as [supplied|] eqn:Em; [|done]. destruct (String.eqb_spec (identity_mac key document e bearer) supplied) as [<-|]; [cbn [negb]|done].
  destruct (Z.ltb_spec e now); [done|]. destruct (Z.ltb_spec IDENTITY_MAX_TTL_SECS (e - now)); [done|].
  destruct (resolve_document _ document) as [j|] eqn:Er; [|done]. intros [= ->]. destruct (resolved_is_accepted _ _ _ Er) as [Ha Hs].
  exists cfg, key, document, signature, exp, mac. split_and!; try done. exists e. split_and!; [done|lia|lia|done].
Qed.

(** C20: a document can only add to a principal.  However a request is refined, it keeps the
    id, label, tenant, role and token it authenticated with, so it owns the same approvals and
    counts against the same limits, and every policy that applied to it still applies: a kill
    cannot be escaped by presenting an identity. *)
Theorem identity_cannot_escape {GC : GlobCrate} inbound now headers bearer e a :
  ea_auth e = Some a → ak_workload_id (ar_api_key a) = None →
  ∃ a', ea_auth (refine_exec_auth (resolve_inbound_principal inbound now headers bearer) e) = Some a'
    ∧ ar_role a' = ar_role a ∧ caller_from_auth a' = caller_from_auth a
    ∧ rate_limit_principal (principal_of a') = rate_limit_principal (principal_of a)
    ∧ (∀ pattern, principal_matches pattern (Some (principal_of a)) = true → principal_matches pattern (Some (principal_of a')) = true)
    ∧ (∀ ps, is_principal_halted ps (principal_of a) = true → is_principal_halted ps (principal_of a') = true).
Proof.
  intros Ha Hw. destruct (resolve_inbound_principal inbound now headers bearer) as [i|]; cbn [refine_exec_auth]; [rewrite Ha; cbn [ea_auth]|].
  2: { by exists a. }
  eexists. split; [reflexivity|].
  assert (Hm : ∀ pattern, principal_matches pattern (Some (principal_of a)) = true →
    principal_matches pattern (Some (principal_of {| ar_api_key := identified i (ar_api_key a); ar_role := ar_role a |})) = true).
  { intros [pat|]; [|done]. cbn. rewrite Hw, orb_false_r. intros ->. done. }
  split_and!; try done. intros ps (p & Hin & Hp)%existsb_exists. apply existsb_exists. exists p. split; [done|].
  apply andb_true_iff in Hp as [-> Hp]. by rewrite Hm.
Qed.

(** ** What the edge signs is accepted *)

Lemma pretty_char_digit d :
  (d < 10)%N → is_ascii_digit (pretty_N_char d) = true ∧ Z.of_nat (nat_of_ascii (pretty_N_char d) - 48) = Z.of_N d.
Proof. intros Hd. do 10 (destruct d as [|d] using N.peano_ind; [done|clear IHd]). lia. Qed.
Lemma pretty_digits_value n s : Z.of_N n <= u64_max → digits_value (pretty_N_go n s) 0 = digits_value s (Z.of_N n).
Proof.
  revert s. induction (N.lt_wf_0 n) as [n _ IH]; intros s Hn. assert (n = 0 ∨ 0 < n)%N as [->|Hpos] by lia; [by rewrite pretty_N_go_0|].
  assert (Hdiv : Z.of_N (n / 10) * 10 + Z.of_N (n `mod` 10) = Z.of_N n).
  { pose proof (N.div_mod' n 10). lia. }
  rewrite pretty_N_go_step by done. rewrite IH; [|by apply N.div_lt|pose proof (N2Z.is_nonneg (n / 10)); pose proof (N2Z.is_nonneg (n `mod` 10)); nia]. cbn [digits_value].
  destruct (pretty_char_digit (n `mod` 10) (N.mod_lt n 10 ltac:(done))) as [-> ->]. rewrite Hdiv. by rewrite (proj2 (Z.leb_le _ _) Hn).
Qed.
Lemma pretty_go_digits n s : str_all is_ascii_digit s = true → str_all is_ascii_digit (pretty_N_go n s) = true.
Proof.
  revert s. induction (N.lt_wf_0 n) as [n _ IH]; intros s Hs. assert (n = 0 ∨ 0 < n)%N as [->|Hpos] by lia; [by rewrite pretty_N_go_0|].
  rewrite pretty_N_go_step by done. apply IH; [by apply N.div_lt|]. cbn.
  by rewrite (proj1 (pretty_char_digit (n `mod` 10) (N.mod_lt n 10 ltac:(done)))), Hs.
Qed.
Lemma parse_pretty exp : 0 <= exp <= i64_max → parse_i64_digits (pretty exp) = Some exp.
Proof.
  intros [H0 H1]. destruct exp as [|p|p]; [done| |lia]. change (pretty (Z.pos p)) with (pretty (N.pos p)).
  unfold pretty, pretty_N. rewrite decide_False by done. unfold parse_i64_digits. rewrite pretty_go_digits by done.
  rewrite pretty_digits_value by (unfold u64_max, i64_max in *; lia). destruct (is_empty (pretty_N_go (N.pos p) "")) eqn:Ee.
  - exfalso. rewrite pretty_N_go_step in Ee by done. revert Ee. assert (Hne : ∀ n c s, is_empty (pretty_N_go n (String c s)) = false).
    { intros n. induction (N.lt_wf_0 n) as [n _ IH]. intros c s. assert (n = 0 ∨ 0 < n)%N as [->|Hpos] by lia; [by rewrite pretty_N_go_0|].
      rewrite pretty_N_go_step by done. apply IH. by apply N.div_lt. }
    by rewrite Hne.
  - cbn. by rewrite (proj2 (Z.leb_le _ _) H1).
Qed.
Lemma split_char_free c a : contains_any (Ascii.eqb c) a = false → split_char c a = [a].
Proof. induction a as [|x a IH]; [done|]. cbn. intros [Hx Ha]%orb_false_iff. rewrite Ascii.eqb_sym in Hx. by rewrite Hx, (IH Ha). Qed.
Lemma split_char_app c a b : contains_any (Ascii.eqb c) a = false → split_char c (a +:+ String c b) = a :: split_char c b.
Proof.
  induction a as [|x a IH]; cbn; [by rewrite Ascii.eqb_refl|]. intros [Hx Ha]%orb_false_iff. rewrite Ascii.eqb_sym in Hx. by rewrite Hx, (IH Ha).
Qed.

(** what the edge signs is accepted.  If base64 reads back what it wrote and writes no
    dot, the signature of a document for a bearer verifies for them at any time from five
    minutes before its expiry up to it. *)
Theorem signed_identity_verifies key document bearer exp now :
  (∀ x, b64_url_decode (b64_url_safe_no_pad x) = Some x) →
  (∀ x, contains_any (Ascii.eqb ".") (b64_url_safe_no_pad x) = false) →
  0 <= exp <= i64_max → now <= exp <= now + IDENTITY_MAX_TTL_SECS →
  verify_identity_signature key document bearer (sign_identity key document bearer exp) now = Ok tt.
Proof.
  intros Hdec Hdot He Hn. unfold verify_identity_signature, sign_identity.
  change ("v1." +:+ ?x) with ("v1" +:+ String "." x). rewrite split_char_app by done.
  change ("." +:+ ?x) with (String "." x). rewrite split_char_app, split_char_free; [|apply Hdot|].
  - cbn [String.eqb Ascii.eqb Bool.eqb negb]. rewrite parse_pretty, Hdec, String.eqb_refl by done. cbn [negb].
    rewrite (proj2 (Z.ltb_ge _ _)), (proj2 (Z.ltb_ge _ _)) by lia. done.
  - destruct exp as [|p|p]; [done| |lia]. apply (pretty_N_free "." (N.pos p)). intros d. unfold pretty_N_char. by repeat case_match.
Qed.
End identity.
