(* ===== verification/GatewayBase.v ===== *)
(** * The gateway's world

    The state the server of [src/src/server/mod.rs] works on, the monad its handlers are
    written in, and a logic of traces for them.

    - A [Store] is what the vault holds: credentials, capabilities, tokens, and policies
      with approvals.  The shared one is on disk; a process reads its own cache, which
      [reload] and every locked operation bring up to date.
    - An [await] lets everything else happen: [env_others] is what other tasks and other
      processes did to the disk and to this process's shared state before the handler
      went on.  It is unconstrained, so a theorem about a handler holds for every
      interleaving.
    - A storage call may fail ([env_fault]); the clocks, fresh identifiers, the govder
      client and the averin client are read from the environment too.
    - The trace records what the handler did, in order, with the facts each step saw. *)

From stdpp Require Import base gmap strings list.
From Stdlib Require Import Ascii ZArith Lia.
From S2P Require Import Prelude RustStr PolicyTypes UrlCanon RateLimit Json Kernel PolicyEngine KillFence.
From S2P Require Import Outbox Approval ApprovalStore Egress Tokens Auth Credential VaultCollections.
From S2P Require Import Capability Catalog Sessions.

Open Scope Z_scope.

(** ** Requests and plugins *)

(** [RequestContext]; the source address and the user agent are never set on these paths. *)
Record RequestContext := {
  cx_request_id : string;
  cx_timestamp : DateTime;
  cx_api_key_id : option string;
  cx_api_key_name : option string;
  cx_role_name : option string;
  cx_agent_label : option string;
  cx_tenant : option string;
  cx_approval_id : option string;
  cx_approval_execution_epoch : option Z;
}.

(** [RequestContext::new], [with_auth], [bind_approved_execution], and the two fields a
    resume sets. *)
Definition context_new (uuid : string) (now : DateTime) : RequestContext :=
  {| cx_request_id := uuid; cx_timestamp := now; cx_api_key_id := None; cx_api_key_name := None;
     cx_role_name := None; cx_agent_label := None; cx_tenant := None; cx_approval_id := None;
     cx_approval_execution_epoch := None |}.
Definition with_auth (a : AuthResult) (c : RequestContext) : RequestContext :=
  {| cx_request_id := cx_request_id c; cx_timestamp := cx_timestamp c;
     cx_api_key_id := Some (ak_id (ar_api_key a)); cx_api_key_name := Some (ak_name (ar_api_key a));
     cx_role_name := Some (role_name (ar_role a)); cx_agent_label := ak_agent_label (ar_api_key a);
     cx_tenant := ak_tenant (ar_api_key a); cx_approval_id := cx_approval_id c;
     cx_approval_execution_epoch := cx_approval_execution_epoch c |}.
Definition resume_identity (label id : option string) (c : RequestContext) : RequestContext :=
  {| cx_request_id := cx_request_id c; cx_timestamp := cx_timestamp c; cx_api_key_id := id;
     cx_api_key_name := cx_api_key_name c; cx_role_name := cx_role_name c; cx_agent_label := label;
     cx_tenant := cx_tenant c; cx_approval_id := cx_approval_id c;
     cx_approval_execution_epoch := cx_approval_execution_epoch c |}.
Definition bind_approved_execution (approval_id : string) (epoch : Z) (tenant : option string)
    (c : RequestContext) : RequestContext :=
  {| cx_request_id := cx_request_id c; cx_timestamp := cx_timestamp c; cx_api_key_id := cx_api_key_id c;
     cx_api_key_name := cx_api_key_name c; cx_role_name := cx_role_name c;
     cx_agent_label := cx_agent_label c; cx_tenant := tenant; cx_approval_id := Some approval_id;
     cx_approval_execution_epoch := Some epoch |}.

(** [ExecuteRequest], [PluginRequest]. *)
Record ExecuteRequest := { er_credential : string; er_action : string; er_params : Value }.
Record PluginRequest := {
  pr_credential : Credential;
  pr_action : string;
  pr_params : Value;
  pr_context : RequestContext;
}.

(** The head of a [StreamingResponse]; its body is read by the task the server starts. *)
Record StreamHead := { sh_status : Z; sh_headers : gmap string string; sh_updated : option CredentialData }.

(** The [Plugin] trait: an error is its message, an answer carries the credential data the
    plugin minted, if any. *)
Record Plugin := {
  pl_validate : string → Value → result unit string;
  pl_execute : PluginRequest → result (ExecuteResponse * option CredentialData) string;
  pl_execute_streaming : PluginRequest → result StreamHead string;
}.

(** ** State *)

Record Store := {
  sto_collections : Collections;
  sto_capabilities : gmap string Capability;
  sto_tokens : TokenVault;
  sto_vault : Vault;
}.
Definition set_collections (c : Collections) (s : Store) : Store :=
  {| sto_collections := c; sto_capabilities := sto_capabilities s; sto_tokens := sto_tokens s; sto_vault := sto_vault s |}.
Definition set_capabilities (c : gmap string Capability) (s : Store) : Store :=
  {| sto_collections := sto_collections s; sto_capabilities := c; sto_tokens := sto_tokens s; sto_vault := sto_vault s |}.
Definition set_tokens (t : TokenVault) (s : Store) : Store :=
  {| sto_collections := sto_collections s; sto_capabilities := sto_capabilities s; sto_tokens := t; sto_vault := sto_vault s |}.
Definition set_vault (v : Vault) (s : Store) : Store :=
  {| sto_collections := sto_collections s; sto_capabilities := sto_capabilities s; sto_tokens := sto_tokens s; sto_vault := v |}.

(** The fields of [VultrinoServer] that change. *)
Record Process := {
  p_cache : Store;
  p_engine : PolicyEngine;
  p_plugins : gmap string Plugin;
  p_sessions : SessionRegistry;
  p_detect_gate : gmap string Z;
  p_unauthorized : Z;
}.
Definition set_cache (s : Store) (p : Process) : Process :=
  {| p_cache := s; p_engine := p_engine p; p_plugins := p_plugins p; p_sessions := p_sessions p;
     p_detect_gate := p_detect_gate p; p_unauthorized := p_unauthorized p |}.
Definition with_engine (e : PolicyEngine) (p : Process) : Process :=
  {| p_cache := p_cache p; p_engine := e; p_plugins := p_plugins p; p_sessions := p_sessions p;
     p_detect_gate := p_detect_gate p; p_unauthorized := p_unauthorized p |}.
Definition set_sessions (r : SessionRegistry) (p : Process) : Process :=
  {| p_cache := p_cache p; p_engine := p_engine p; p_plugins := p_plugins p; p_sessions := r;
     p_detect_gate := p_detect_gate p; p_unauthorized := p_unauthorized p |}.
Definition set_detect_gate (g : gmap string Z) (p : Process) : Process :=
  {| p_cache := p_cache p; p_engine := p_engine p; p_plugins := p_plugins p; p_sessions := p_sessions p;
     p_detect_gate := g; p_unauthorized := p_unauthorized p |}.
Definition bump_unauthorized (p : Process) : Process :=
  {| p_cache := p_cache p; p_engine := p_engine p; p_plugins := p_plugins p; p_sessions := p_sessions p;
     p_detect_gate := p_detect_gate p; p_unauthorized := (p_unauthorized p + 1) mod (u64_max + 1) |}.

(** What a handler does, with what it saw: the record a name resolved to, the engine and
    the query of an evaluation, the catalog it read, the tokens before a use and the one
    used, the fence it consulted and the plugin calls are the ones the theorems speak about.
    [FX_Token] to [FX_Polled] are reads: the tokens and the time a presented token was looked
    up and judged at, the time a key was, the credential and the engine a capability was
    weighed with for a caller, the capabilities listed, and the records a poll found.  The
    last six are the steps of a workload exchange. *)
Inductive Effect :=
| FX_Resolved (presented : string) (c : Credential)
| FX_Judged (e : PolicyEngine) (q : AdmissionQuery) (observe : bool)
| FX_Rejudged (e : PolicyEngine) (q : AdmissionQuery)
| FX_Catalog (caps : list Capability)
| FX_Consumed (v : TokenVault) (id : string) (t : UseToken)
| FX_Fence (v : FenceVault) (q : KillFenceQuery)
| FX_Execute (plugin : string) (r : PluginRequest)
| FX_Evidence (subject : string) (committed : bool)
| FX_Outcome (evidence status : string)
| FX_Event (subject kind : string) (payload : Value)
| FX_Refused (entry : RefusalEntry) (names : string * string * option string) (class : RefusalClass)
| FX_Opened (a : ApprovalRequest)
| FX_Notified (a : ApprovalRequest)
| FX_Metered (subject : string)
| FX_Claimed (c : ExecutionClaim)
| FX_Killed (p : Policy) (v : FenceVault)
| FX_Signalled (n : nat)
| FX_Token (v : TokenVault) (now : DateTime)
| FX_Key (now : DateTime)
| FX_Weighed (credential_ref : string) (c : Credential) (e : PolicyEngine)
| FX_Listed (caps : list Capability)
| FX_Polled (v : Vault)
| FX_Granted (v : TokenVault) (key : string)
| FX_Exchanged (v : TokenVault) (jti : string) (expires_at now : Z)
| FX_Counted (v : TokenVault) (now : DateTime)
| FX_Minted (t : UseToken)
| FX_Revoked (id : string) (done : bool)
| FX_Retired (keep : list string).

Record ServerWorld := { w_disk : Store; w_proc : Process; w_trace : list Effect; w_tick : nat }.

(** ** The environment *)

(** [AverinConfig], and what the averin client and its durable queue answer. *)
Record AverinConfig := {
  av_durable : bool;
  av_d8_complete_evidence : bool;
  av_max_seal_params_bytes : Z;
  av_require_evidence : bool;
}.
Inductive AverinError := AV_Unavailable | AV_Refused.
Inductive PopKeyEntry := PK_Sealed | PK_Unsealed | PK_Missing.
Record AverinClient := {
  ac_begin_exact_use : string → string → string → string → string → result string AverinError;
  ac_complete_exact_use : string → string → bool;
  ac_has_in_memory_grant : string → bool;
  ac_popkeys : option (string → option PopKeyEntry);
  ac_owns_queue : bool;
  ac_queue_append : string → string → option Z;
  ac_queue_get : Z → option DeliveryState;
  ac_deliver_use : Z → bool;
  ac_durable_use_oversize_drop : string → Z → bool;
  ac_seal_use_required : string → string → Z → string → bool;
  ac_on_execute : string → string → Z → string → bool;
}.

(** What a handler reads from outside at its [n]-th step. *)
Class Environment := {
  env_others : nat → Store * Process → Store * Process;
  env_fault : nat → bool;
  env_now : nat → DateTime;
  env_instant : nat → Z;
  env_uuid : nat → string;
  env_secret : nat → string;
  env_govder : nat → option Govder;
  env_averin : nat → AverinClient;
}.

(** ** The monad *)

Definition M (E A : Type) : Type := ServerWorld → result A E * ServerWorld.

Definition m_ret {E A} (a : A) : M E A := λ w, (Ok a, w).
Definition m_fail {E A} (e : E) : M E A := λ w, (Err e, w).
Definition m_bind {E A B} (m : M E A) (k : A → M E B) : M E B := λ w,
  match m w with
  | (Ok a, w') => k a w'
  | (Err e, w') => (Err e, w')
  end.
Notation "'let*' x ':=' m 'in' k" := (m_bind m (λ x, k))
  (at level 10, x pattern, m at level 100, k at level 200).

(** [map_err], [ok()]-like handling of an error, and lifting a pure result. *)
Definition m_map_err {E E' A} (f : E → E') (m : M E A) : M E' A := λ w,
  match m w with (Ok a, w') => (Ok a, w') | (Err e, w') => (Err (f e), w') end.
Definition m_try {E E' A} (m : M E A) : M E' (result A E) := λ w, let '(r, w') := m w in (Ok r, w').
Definition m_lift {E A} (r : result A E) : M E A := λ w, (r, w).
Definition m_if {E} (b : bool) (m : M E unit) : M E unit := if b then m else m_ret tt.

(** State and trace. *)
Definition emit {E} (f : Effect) : M E unit := λ w,
  (Ok tt, {| w_disk := w_disk w; w_proc := w_proc w; w_trace := w_trace w ++ [f]; w_tick := w_tick w |}).
Definition get {E A} (f : ServerWorld → A) : M E A := λ w, (Ok (f w), w).
Definition update {E} (f : Process → Process) : M E unit := λ w,
  (Ok tt, {| w_disk := w_disk w; w_proc := f (w_proc w); w_trace := w_trace w; w_tick := w_tick w |}).
Definition tick {E} : M E nat := λ w,
  (Ok (w_tick w), {| w_disk := w_disk w; w_proc := w_proc w; w_trace := w_trace w; w_tick := S (w_tick w) |}).

Section storage.
Context `{Environment}.

Definition await {E} : M E unit := λ w,
  let '(d, p) := env_others (w_tick w) (w_disk w, w_proc w) in
  (Ok tt, {| w_disk := d; w_proc := p; w_trace := w_trace w; w_tick := S (w_tick w) |}).

(** The [StorageError]s that reach the server. *)
Inductive StorageFailure :=
| SF_Io | SF_Token (e : TokenError) | SF_Approval (e : StorageError) | SF_Collection (e : CollectionError)
| SF_CapabilityNotFound (id : string).

(** A read of the cache; [reload]; [locked_read]; [locked_mutate].  A call that fails although
    its record is durable is a fault here, and what it left on disk is one of the changes
    others make at the next await. *)
Definition cache_read {A} (f : Store → A) : M StorageFailure A :=
  let* _ := await in
  let* n := tick in
  if env_fault n then m_fail SF_Io else get (λ w, f (p_cache (w_proc w))).
Definition sync : M StorageFailure Store := λ w,
  (Ok (w_disk w), {| w_disk := w_disk w; w_proc := set_cache (w_disk w) (w_proc w);
                     w_trace := w_trace w; w_tick := w_tick w |}).
Definition locked_read {A} (f : Store → A) : M StorageFailure A :=
  let* _ := await in
  let* n := tick in
  if env_fault n then m_fail SF_Io else let* s := sync in m_ret (f s).
Definition reload : M StorageFailure unit := locked_read (λ _, tt).
Definition locked_store_mutate {A} (f : DateTime → Store → result A StorageFailure * Store) : M StorageFailure A :=
  let* _ := await in
  let* n := tick in
  if env_fault n then m_fail SF_Io
  else λ w, let '(r, s) := f (env_now n) (w_disk w) in
            (r, {| w_disk := s; w_proc := set_cache s (w_proc w); w_trace := w_trace w; w_tick := w_tick w |}).

(** The operations of the backend on one part of the store. *)
Definition on_tokens {A} (f : DateTime → TokenVault → result A TokenError * TokenVault) : M StorageFailure A :=
  locked_store_mutate (λ now s,
    let '(r, t) := f now (sto_tokens s) in
    (match r with Ok a => Ok a | Err e => Err (SF_Token e) end, set_tokens t s)).
Definition on_vault {A} (f : DateTime → Vault → result A StorageError * Vault) : M StorageFailure A :=
  locked_store_mutate (λ now s,
    let '(r, v) := f now (sto_vault s) in
    (match r with Ok a => Ok a | Err e => Err (SF_Approval e) end, set_vault v s)).
Definition on_collections (f : vault_mutation) : M StorageFailure unit :=
  locked_store_mutate (λ _ s,
    match f (sto_collections s) with
    | Ok c => (Ok tt, set_collections c s)
    | Err e => (Err (SF_Collection e), s)
    end).

(** [store_capability], [get_capability], [list_capabilities], [delete_capability]. *)
Definition store_capability (c : Capability) : M StorageFailure unit :=
  locked_store_mutate (λ _ s, (Ok tt, set_capabilities (<[cap_id c := c]> (sto_capabilities s)) s)).
Definition get_capability (id : string) : M StorageFailure (option Capability) :=
  cache_read (λ s, sto_capabilities s !! id).
Definition capabilities_of (s : Store) : list Capability := (map_to_list (sto_capabilities s)).*2.
Definition list_capabilities : M StorageFailure (list Capability) := cache_read capabilities_of.
Definition delete_capability (id : string) : M StorageFailure unit :=
  locked_store_mutate (λ _ s,
    match sto_capabilities s !! id with
    | Some _ => (Ok tt, set_capabilities (delete id (sto_capabilities s)) s)
    | None => (Err (SF_CapabilityNotFound id), s)
    end).
End storage.

(** ** A logic of traces *)

(** [m ⊨ Q]: whatever the world, [m] only extends the trace, and [Q] holds of its result
    and of what it added. *)
Definition traces {E A} (m : M E A) (Q : result A E → list Effect → Prop) : Prop :=
  ∀ w, ∃ tr, w_trace (m w).2 = w_trace w ++ tr ∧ Q (m w).1 tr.
Notation "m ⊨ Q" := (traces m Q) (at level 80, no associativity).

Lemma tr_weaken {E A} (m : M E A) (P Q : result A E → list Effect → Prop) :
  m ⊨ P → (∀ r tr, P r tr → Q r tr) → m ⊨ Q.
Proof. intros Hm HQ w. destruct (Hm w) as (tr & ? & ?). eauto. Qed.

Lemma tr_and {E A} (m : M E A) (P Q : result A E → list Effect → Prop) :
  m ⊨ P → m ⊨ Q → m ⊨ (λ r tr, P r tr ∧ Q r tr).
Proof.
  intros H1 H2 w. destruct (H1 w) as (t1 & E1 & ?), (H2 w) as (t2 & E2 & ?). exists t1. split; [done|].
  rewrite E1 in E2. apply app_inv_head in E2 as ->. done.
Qed.

Lemma tr_ret {E A} (a : A) (Q : result A E → list Effect → Prop) : Q (Ok a) [] → m_ret a ⊨ Q.
Proof. intros ? w. exists []. by rewrite app_nil_r. Qed.
Lemma tr_fail {E A} (e : E) (Q : result A E → list Effect → Prop) : Q (Err e) [] → m_fail e ⊨ Q.
Proof. intros ? w. exists []. by rewrite app_nil_r. Qed.
Lemma tr_lift {E A} (r : result A E) (Q : result A E → list Effect → Prop) : Q r [] → m_lift r ⊨ Q.
Proof. intros ? w. exists []. by rewrite app_nil_r. Qed.
Lemma tr_emit {E} f (Q : result unit E → list Effect → Prop) : Q (Ok tt) [f] → emit f ⊨ Q.
Proof. intros ? w. by exists [f]. Qed.
Lemma tr_get {E A} (f : ServerWorld → A) (Q : result A E → list Effect → Prop) : (∀ a, Q (Ok a) []) → get f ⊨ Q.
Proof. intros HQ w. exists []. split; [cbn; by rewrite app_nil_r|]. apply HQ. Qed.
Lemma tr_set {E} f (Q : result unit E → list Effect → Prop) : Q (Ok tt) [] → update f ⊨ Q.
Proof. intros ? w. exists []. by rewrite app_nil_r. Qed.
Lemma tr_tick {E} (Q : result nat E → list Effect → Prop) : (∀ n, Q (Ok n) []) → tick ⊨ Q.
Proof. intros HQ w. exists []. split; [cbn; by rewrite app_nil_r|]. apply HQ. Qed.

Lemma tr_bind {E A B} (m : M E A) (k : A → M E B) P (Q : result B E → list Effect → Prop) :
  m ⊨ P → (∀ e tr, P (Err e) tr → Q (Err e) tr) →
  (∀ a tr, P (Ok a) tr → k a ⊨ (λ r tr', Q r (tr ++ tr'))) →
  (let* x := m in k x) ⊨ Q.
Proof.
  intros Hm He Hk w. unfold m_bind. destruct (Hm w) as (tr & Htr & HP). destruct (m w) as [[a|e] w']; cbn in *.
  - destruct (Hk a tr HP w') as (tr' & Htr' & HQ). exists (tr ++ tr'). by rewrite Htr', Htr, app_assoc.
  - eauto.
Qed.
Lemma tr_map_err {E E' A} (f : E → E') (m : M E A) P (Q : result A E' → list Effect → Prop) :
  m ⊨ P → (∀ a tr, P (Ok a) tr → Q (Ok a) tr) → (∀ e tr, P (Err e) tr → Q (Err (f e)) tr) →
  m_map_err f m ⊨ Q.
Proof.
  intros Hm Ha He w. unfold m_map_err. destruct (Hm w) as (tr & Htr & HP). exists tr.
  destruct (m w) as [[a|e] w']; cbn in *; eauto.
Qed.
Lemma tr_try {E E' A} (m : M E A) P (Q : result (result A E) E' → list Effect → Prop) :
  m ⊨ P → (∀ r tr, P r tr → Q (Ok r) tr) → m_try m ⊨ Q.
Proof.
  intros Hm HQ w. unfold m_try. destruct (Hm w) as (tr & Htr & HP). exists tr. destruct (m w) as [r w'].
  cbn in *. eauto.
Qed.
Lemma tr_if {E} b (m : M E unit) P (Q : result unit E → list Effect → Prop) :
  m ⊨ P → (b = true → ∀ r tr, P r tr → Q r tr) → (b = false → Q (Ok tt) []) → m_if b m ⊨ Q.
Proof. intros Hm H1 H2. destruct b; cbn; [eapply tr_weaken; [exact Hm|auto]|apply tr_ret; auto]. Qed.

(** A storage call adds nothing to the trace. *)
Definition silent {E A} (m : M E A) : Prop := m ⊨ (λ _ tr, tr = []).

Section silent.
Context `{Environment}.

Lemma tr_silent {E A} (m : M E A) (Q : result A E → list Effect → Prop) : silent m → (∀ r, Q r []) → m ⊨ Q.
Proof. intros Hm HQ. eapply tr_weaken; [exact Hm|]. intros r tr ->. apply HQ. Qed.
Lemma await_silent {E} : silent (E := E) await.
Proof. intros w. exists []. unfold await. destruct (env_others _ _). cbn. by rewrite app_nil_r. Qed.
Lemma silent_bind {E A B} (m : M E A) (k : A → M E B) : silent m → (∀ a, silent (k a)) → silent (let* x := m in k x).
Proof. intros Hm Hk. eapply tr_bind; [exact Hm|done|]. intros a tr ->. apply Hk. Qed.
Lemma silent_try {E E' A} (m : M E A) : silent m → silent (E := E') (m_try m).
Proof. intros Hm. by eapply tr_try; [exact Hm|]. Qed.
Lemma silent_map_err {E E' A} (f : E → E') (m : M E A) : silent m → silent (m_map_err f m).
Proof. intros Hm. by eapply tr_map_err; [exact Hm| |]. Qed.

(** A silent step, or one effect, in front of a computation. *)
Lemma tr_quiet {E A B} (m : M E A) (k : A → M E B) (Q : result B E → list Effect → Prop) :
  silent m → (∀ e, Q (Err e) []) → (∀ a, k a ⊨ Q) → (let* x := m in k x) ⊨ Q.
Proof. intros Hm He Hk. eapply tr_bind; [exact Hm|by intros e tr ->|]. intros a tr ->. apply Hk. Qed.
Lemma tr_try_then {E E' A B} (m : M E A) (k : result A E → M E' B) (P : result A E → list Effect → Prop)
    (Q : result B E' → list Effect → Prop) :
  m ⊨ P → (∀ r tr, P r tr → k r ⊨ (λ r' tr', Q r' (tr ++ tr'))) → (let* x := m_try m in k x) ⊨ Q.
Proof.
  intros Hm Hk. eapply tr_bind with (P := λ r tr, match r with Ok a => P a tr | Err _ => False end).
  - by eapply tr_try; [exact Hm|].
  - done.
  - intros r tr H'. by apply Hk.
Qed.
Lemma tr_try_quiet {E E' A B} (m : M E A) (k : result A E → M E' B) (Q : result B E' → list Effect → Prop) :
  silent m → (∀ r, k r ⊨ Q) → (let* x := m_try m in k x) ⊨ Q.
Proof. intros Hm Hk. eapply tr_try_then; [exact Hm|]. intros r tr ->. apply Hk. Qed.
Lemma tr_emit_then {E B} f (k : unit → M E B) (Q : result B E → list Effect → Prop) :
  k tt ⊨ (λ r tr, Q r (f :: tr)) → (let* x := emit f in k x) ⊨ Q.
Proof. intros Hk. eapply tr_bind; [by apply (tr_emit f (λ r tr, r = Ok tt ∧ tr = [f]))|by intros e tr [[=] _]|].
  intros [] tr [_ ->]. apply Hk. Qed.
Lemma tick_silent {E} : silent (E := E) tick.
Proof. by apply tr_tick. Qed.
Lemma get_silent {E A} (f : ServerWorld → A) : silent (E := E) (get f).
Proof. by apply tr_get. Qed.
Lemma fail_silent {E A} (e : E) : silent (A := A) (m_fail e).
Proof. by apply tr_fail. Qed.

Lemma cache_read_silent {A} (f : Store → A) : silent (cache_read f).
Proof.
  apply silent_bind; [apply await_silent|]. intros _. apply silent_bind; [apply tick_silent|]. intros n.
  destruct (env_fault n); [apply fail_silent|apply get_silent].
Qed.
Lemma locked_read_silent {A} (f : Store → A) : silent (locked_read f).
Proof.
  apply silent_bind; [apply await_silent|]. intros _. apply silent_bind; [apply tick_silent|]. intros n.
  destruct (env_fault n); [apply fail_silent|]. apply silent_bind; [|intros s; by apply tr_ret].
  intros w. exists []. cbn. by rewrite app_nil_r.
Qed.
Lemma locked_store_mutate_silent {A} (f : DateTime → Store → result A StorageFailure * Store) :
  silent (locked_store_mutate f).
Proof.
  apply silent_bind; [apply await_silent|]. intros _. apply silent_bind; [apply tick_silent|]. intros n.
  destruct (env_fault n); [apply fail_silent|]. intros w. exists []. destruct (f _ _). cbn. by rewrite app_nil_r.
Qed.
End silent.
