(* ===== verification/Gateway.v ===== *)
(** * The gateway

    Models the request path of [src/src/server/mod.rs]: [prepare_execution], the gate a
    request passes before anything runs; [run_action], the tail that reserves the use
    token, seals evidence, asks the kill fence, calls the plugin and confines its answer;
    and [execute_gated], which is one after the other.

    Every function is written in the monad of [GatewayBase], one call of the code per
    step, in the code's order.  An error message is the value it renders.  Metering is
    one effect; logging and metrics counters other than the refused attempts are left
    out. *)

From stdpp Require Import base gmap strings list.
From Stdlib Require Import Ascii ZArith Lia.
From S2P Require Import Prelude RustStr PolicyTypes Precedence UrlCanon RateLimit Json Kernel PolicyEngine KillFence.
From S2P Require Import Outbox Approval ApprovalStore Egress Tokens Auth Credential HttpPlugin VaultCollections.
From S2P Require Import Capability Catalog Sessions GatewayBase.

Open Scope Z_scope.

(** ** Errors *)

Inductive Denial :=
| DN_MissingExecute | DN_CredentialAccess (presented : string) | DN_TokenCredential (alias : string)
| DN_TokenAction (presented canonical : string) | DN_CrossTenant (reason : string) | DN_Policy (reason : string)
| DN_Undeclared | DN_ApprovalsOff | DN_Kill (reason : string) | DN_TokenReserve (e : StorageFailure)
| DN_TokenUse (e : StorageFailure) | DN_Permit (e : PermitError) | DN_Payload | DN_EvidenceBytes
| DN_EvidenceBound | DN_NoEvidenceClient | DN_NoEvidenceSubject | DN_NoGrant | DN_BeginEvidence (e : AverinError)
| DN_Seal | DN_CredentialChanged | DN_CatalogChanged | DN_RecipeChanged | DN_NotOwner.
Inductive Unavailability :=
| UN_Catalog | UN_LlmCatalog | UN_Recipe (e : GateRefusal) | UN_Inconclusive (reason : string) | UN_Fence
| UN_Grant | UN_GrantRead | UN_Outcome.
Inductive PluginFailure := PF_NotFound (name : string) | PF_Message (m : string) | PF_Scope (e : PluginError) | PF_Withheld.

(** [VultrinoError]. *)
Inductive VultrinoError :=
| VE_Storage (e : StorageFailure) | VE_Plugin (e : PluginFailure) | VE_Policy (refusals : list LoadRefusal)
| VE_CredentialNotFound (name : string) | VE_PolicyDenied (d : Denial) | VE_PolicyUnavailable (u : Unavailability)
| VE_InvalidRequest (what : string) | VE_LlmChannelOnly (alias : string).

(** [RunError], [retryable], [refused], [refused_retryable], [terminal], [committed]. *)
Record RunError := {
  re_retryable : bool;
  re_committed : bool;
  re_class : option RefusalClass;
  re_error : VultrinoError;
}.
Definition run_retryable (e : VultrinoError) : RunError :=
  {| re_retryable := true; re_committed := false; re_class := None; re_error := e |}.
Definition run_refused (class : RefusalClass) (e : VultrinoError) : RunError :=
  {| re_retryable := false; re_committed := false; re_class := Some class; re_error := e |}.
Definition run_refused_retryable (class : RefusalClass) (e : VultrinoError) : RunError :=
  {| re_retryable := true; re_committed := false; re_class := Some class; re_error := e |}.
Definition run_terminal (e : VultrinoError) : RunError :=
  {| re_retryable := false; re_committed := false; re_class := None; re_error := e |}.
Definition run_committed (e : VultrinoError) : RunError :=
  {| re_retryable := false; re_committed := true; re_class := None; re_error := e |}.

(** ** Payloads *)

(** [KillFenceSubject], [ActionPayload]. *)
Record KillFenceSubject := { ks_principal : option Principal; ks_admitted_epoch : Z; ks_tenant : option string }.
Record ActionPayload := {
  ay_credential : Credential;
  ay_plugin_name : string;
  ay_action_name : string;
  ay_params : Value;
  ay_context : RequestContext;
  ay_use_token_id : option string;
  ay_evidence_subject_id : option string;
  ay_approved_execution : bool;
  ay_evidence_action : string;
  ay_evidence_required : bool;
  ay_d8_fallback_ok : bool;
  ay_kill_fence : KillFenceSubject;
  ay_refusal : RefusalCtx;
}.
Definition full_action_of (plugin act : string) : string := plugin +:+ "." +:+ act.

(** [PreparedAction], [ExecutionOutcome]. *)
Inductive PreparedAction := Prepared_Pending (a : ApprovalRequest) | Prepared_Ready (r : Authorized ActionPayload).
Inductive ExecutionOutcome := EO_Pending (a : ApprovalRequest) | EO_Completed (r : ExecuteResponse).

(** JSON objects of events. *)
Definition jobject (l : list (string * Value)) : Value := JObject (foldr (λ kv m, obj_insert kv.1 kv.2 m) [] l).
Definition jopt (o : option string) : Value := match o with Some s => JString s | None => JNull end.
Definition criticality_name (c : CriticalityClass) : string :=
  match c with CC_Low => "low" | CC_Medium => "medium" | CC_High => "high" | CC_Critical => "critical" end.

Section gateway.
Context {UC : UrlCrate} {GC : GlobCrate} {EC : UrlEncodingCrate} {SJ : SerdeJson} {SH : Sha256}.
Context {RC : RegexCrate} {EN : Encoders} {HC : HttpCrates} {EV : Environment}.

(** The configuration of one server: its clock, settings, egress rules, averin settings
    when a client was built, and whether there is a notifier. *)
Context (clk : Clock) (cfg : GatewayConfig) (acfg : ApprovalConfig) (egress : list EgressRule).
Context (averin : option AverinConfig) (has_notifiers : bool).

(** [dispatched_binding] of a payload. *)
#[export] Instance payload_dispatch : Dispatch ActionPayload := λ p,
  let cx := ay_context p in
  ids ← (if ay_approved_execution p
         then id ← cx_approval_id cx; epoch ← cx_approval_execution_epoch cx; Some (id, epoch)
         else match cx_approval_id cx, cx_approval_execution_epoch cx with
              | None, None => Some ("direct:" +:+ cx_request_id cx, 0)
              | _, _ => None
              end);
  digest ← digest_params (ay_params p);
  Some {| db_approved := ay_approved_execution p; db_approval_id := ids.1; db_epoch := ids.2;
          db_tenant := default "" (cx_tenant cx); db_principal := default "" (cx_api_key_id cx);
          db_credential := cr_alias (ay_credential p);
          db_action := full_action_of (ay_plugin_name p) (ay_action_name p);
          db_params_digest := digest |}.

(** ** Refusals and events *)

(** [note_gateway_refusal], [refuse], [note_run_refusal], [record_unauthorized_attempt]. *)
Definition note_gateway_refusal {E} (ctx : RefusalCtx) (class : RefusalClass) : M E unit :=
  match averin, sanitized ctx with
  | Some _, Some names => emit (FX_Refused (rx_entry ctx) names class)
  | _, _ => m_ret tt
  end.
Definition gateway_refuse {A} (ctx : RefusalCtx) (class : RefusalClass) (e : VultrinoError) : M VultrinoError A :=
  let* _ := note_gateway_refusal ctx class in m_fail e.
Definition note_run_refusal {E} (ctx : RefusalCtx) (e : RunError) : M E RunError :=
  match re_class e with
  | Some class =>
      let* _ := note_gateway_refusal ctx class in
      m_ret {| re_retryable := re_retryable e; re_committed := re_committed e; re_class := None; re_error := re_error e |}
  | None => m_ret e
  end.
Definition record_unauthorized_attempt {E} : M E unit := update bump_unauthorized.

(** [emit_event]: the event is lost when the append fails. *)
Definition emit_event {E} (subject kind : string) (payload : Value) : M E unit :=
  let* _ := await in
  let* n := tick in
  if env_fault n then m_ret tt else emit (FX_Event subject kind payload).

(** [emit_policy_denied], once per subject and window of ten seconds. *)
Definition DETECT_EMIT_WINDOW : Z := seconds 10.
Definition emit_policy_denied {E} (label pid : option string) (alias full_action : string) (tenant : option string)
    (reason kind : string) : M E unit :=
  let subject := default alias (opt_or label pid) in
  let* n := tick in
  let* gate := get (λ w, p_detect_gate (w_proc w)) in
  let live := filter (λ e : string * Z, Z.max 0 (env_instant n - e.2) < DETECT_EMIT_WINDOW) gate in
  let* _ := update (set_detect_gate live) in
  match live !! subject with
  | Some _ => m_ret tt
  | None =>
      let* _ := update (set_detect_gate (<[subject := env_instant n]> live)) in
      emit_event subject "policy.denied"
        (jobject [("credential", JString alias); ("action", JString full_action); ("tenant", jopt tenant);
                  ("agent_label", jopt label); ("principal_id", jopt pid); ("reason", JString reason);
                  ("kind", JString kind); ("outcome", JString "denied")])
  end.

(** ** Resolving the request *)

(** [CredentialResolver::resolve]: two reads of the cache. *)
Definition resolve (name : string) : M VultrinoError Credential :=
  let* by_alias := m_map_err VE_Storage (cache_read (λ s, get_by_alias name (sto_collections s))) in
  match by_alias with
  | Some c => m_ret c
  | None =>
      let* by_id := m_map_err VE_Storage (cache_read (λ s, get_credential name (sto_collections s))) in
      match by_id with
      | Some c => m_ret c
      | None => m_fail (VE_CredentialNotFound name)
      end
  end.
Definition resolve_noted (name : string) : M VultrinoError Credential :=
  let* c := resolve name in
  let* _ := emit (FX_Resolved name c) in
  m_ret c.

(** The permission and scope checks of an authenticated caller. *)
Definition check_caller (rctx : RefusalCtx) (auth : option AuthResult) (presented : string) : M VultrinoError unit :=
  match auth with
  | None => m_ret tt
  | Some a =>
      if negb (has_permission (ar_role a) P_Execute)
      then gateway_refuse rctx RC_NotGranted (VE_PolicyDenied DN_MissingExecute)
      else if negb (can_access_credential (ar_role a) presented)
      then gateway_refuse rctx RC_NotGranted (VE_PolicyDenied (DN_CredentialAccess presented))
      else m_ret tt
  end.

(** The scope of the use token that drives the request. *)
Definition check_use_token (rctx : RefusalCtx) (token : option UseToken) (alias presented full_action : string)
    : M VultrinoError unit :=
  match token with
  | None => m_ret tt
  | Some t =>
      if negb (allows_credential t alias)
      then gateway_refuse rctx RC_NotGranted (VE_PolicyDenied (DN_TokenCredential alias))
      else if negb (allows_action t presented) && negb (allows_action t full_action)
      then gateway_refuse rctx RC_NotGranted (VE_PolicyDenied (DN_TokenAction presented full_action))
      else m_ret tt
  end.

(** Tenant isolation. *)
Definition check_tenant (rctx : RefusalCtx) (auth : option AuthResult) (c : Credential) (full_action : string)
    : M VultrinoError unit :=
  let principal_tenant := a ← auth; ak_tenant (ar_api_key a) in
  match credential_tenant c with
  | None => m_ret tt
  | Some cred_tenant =>
      if bool_decide (principal_tenant = Some cred_tenant) then m_ret tt
      else
        let* _ := record_unauthorized_attempt in
        let reason := "credential '" +:+ cr_alias c +:+ "' belongs to tenant '" +:+ cred_tenant
                      +:+ "' and is not accessible to this principal" in
        let* _ := emit_policy_denied (a ← auth; ak_agent_label (ar_api_key a))
                    ((λ a, ak_id (ar_api_key a)) <$> auth) (cr_alias c) full_action principal_tenant reason
                    "cross_tenant_isolation" in
        gateway_refuse rctx RC_CrossTenant (VE_PolicyDenied (DN_CrossTenant reason))
  end.

(** The loop and [refuse_llm_credential_off_channel]. *)
Fixpoint backs_llm_channel (caps : list Capability) (c : Credential) (presented : string) : M VultrinoError bool :=
  match caps with
  | [] => m_ret false
  | cap :: rest =>
      if negb (is_llm_proxy cap) then backs_llm_channel rest c presented
      else
        let name := trim (cap_credential_ref cap) in
        if String.eqb name (trim (cr_alias c)) || String.eqb name (trim presented) then m_ret true
        else
          let* found := m_try (resolve name) in
          match found with
          | Ok referenced =>
              if String.eqb (cr_id referenced) (cr_id c) then m_ret true else backs_llm_channel rest c presented
          | Err (VE_CredentialNotFound _) => backs_llm_channel rest c presented
          | Err e => m_fail e
          end
  end.
Definition refuse_llm_credential_off_channel (c : Credential) (presented : string) (rctx : RefusalCtx)
    : M VultrinoError unit :=
  let unavailable := gateway_refuse rctx RC_DecisionUnavailable (VE_PolicyUnavailable UN_LlmCatalog) in
  let* reloaded := m_try reload in
  match reloaded with
  | Err _ => unavailable
  | Ok _ =>
      let* listed := m_try list_capabilities in
      match listed with
      | Err _ => unavailable
      | Ok caps =>
          let* is_llm := m_try (backs_llm_channel caps c presented) in
          match is_llm with
          | Err _ => unavailable
          | Ok true => gateway_refuse rctx RC_LlmChannelOnly (VE_LlmChannelOnly (cr_alias c))
          | Ok false => m_ret tt
          end
      end
  end.

(** ** Judging the request *)

(** [evaluate_for_admission] and its read-only form on the process's engine. *)
Definition judge (q : AdmissionQuery) (observe : bool) : M VultrinoError Evaluation :=
  let* e := get (λ w, p_engine (w_proc w)) in
  let* _ := emit (FX_Judged e q observe) in
  let '(ev, e') := evaluate_for_admission clk e q observe in
  let* _ := update (with_engine e') in
  m_ret ev.
Definition rejudge {E} (q : AdmissionQuery) : M E Evaluation :=
  let* e := get (λ w, p_engine (w_proc w)) in
  let* _ := emit (FX_Rejudged e q) in
  let '(ev, e') := evaluate_readonly_for_admission clk e q in
  let* _ := update (with_engine e') in
  m_ret ev.

(** The decision: an allow and a prompt go on, with approval needed for a prompt; a deny
    goes on only when observe mode downgraded it. *)
Definition on_decision (rctx : RefusalCtx) (ev : Evaluation) (principal : option Principal) (tenant : option string)
    (alias full_action : string) : M VultrinoError bool :=
  let label := p ← principal; agent_label p in
  let pid := principal_id <$> principal in
  match ev_decision ev with
  | PD_Allow => m_ret false
  | PD_Prompt => m_ret true
  | PD_Deny reason =>
      let* _ := record_unauthorized_attempt in
      if ev_observe_downgrade ev
      then
        let* _ := emit_event (default "-" tenant) "policy.observed_denial"
                    (jobject [("tenant", jopt tenant); ("credential", JString alias); ("action", JString full_action);
                              ("reason", JString reason); ("would_have", JString "deny");
                              ("outcome", JString "allowed_observe_mode"); ("agent_label", jopt label);
                              ("principal_id", jopt pid)]) in
        m_ret false
      else
        let* _ := emit_policy_denied label pid alias full_action tenant reason "policy" in
        gateway_refuse rctx (match ev_deny_cause ev with Some c => refusal_class c | None => RC_PolicyDeny end)
          (VE_PolicyDenied (DN_Policy reason))
  end.

(** [resolve_irreversibility_for_action]. *)
Definition resolve_irreversibility_for_action {E} (alias canonical : string) (label : option string)
    : M E IrreversibilityResolution :=
  let* reloaded := m_try reload in
  match reloaded with
  | Err _ => m_ret IR_Unavailable
  | Ok _ =>
      let* listed := m_try list_capabilities in
      match listed with
      | Err _ => m_ret IR_Unavailable
      | Ok caps =>
          let* _ := emit (FX_Catalog caps) in
          m_ret (resolve_irreversibility cfg caps alias canonical label)
      end
  end.

(** [approval_preview_for_action]. *)
Definition preview_for_action {E} (canonical : string) (label : option string) (params : Value)
    : M E (option ApprovalPreview) :=
  let* _ := m_try reload in
  let* listed := m_try list_capabilities in
  m_ret match listed with
        | Err _ => None
        | Ok caps => approval_preview_for_action cfg caps canonical label params
        end.

(** [fetch_gate_rule_for_action]. *)
Definition fetch_gate_rule {E} (tenant agent_id : option string) (action_class : string) (label : option string)
    : M E (result GateRuleAnswer GateRefusal) :=
  let* _ := await in
  let* n := tick in
  m_ret (fetch_gate_rule_for_action cfg (env_govder n) tenant agent_id action_class label).

(** ** Opening an approval *)

(** The recipe, its risk facts and its class, from govder's answer. *)
Definition stamped_rule (answer : GateRuleAnswer) (trusted_irreversible : bool)
    : result (option ApprovalRule * string * bool * GateRuleAuthorityClass) string :=
  match answer with
  | GR_Rule r => Ok (Some (fg_rule r), fg_risk_tier r, fg_irreversible r, GA_Rule)
  | GR_NoRule => Ok (None, "", false, GA_NoRule)
  | GR_Inconclusive reason =>
      if gc_require_declared cfg || trusted_irreversible then Err reason else Ok (None, "", false, GA_Inconclusive)
  end.

(** The fields stamped on an opened request; an amount is clamped to [i64]. *)
Definition stamp_authority (class : option CapabilityAuthorityClass) (gate : GateRuleAuthorityClass)
    (authority : CredentialAuthority) (spend : option SpendAttempt) (risk_tier : string) (irreversible : bool)
    (epoch : Z) (a : ApprovalRequest) : ApprovalRequest :=
  {| opening :=
       {| ap_id := ap_id a; ap_credential := ap_credential a; ap_action := ap_action a; ap_params := ap_params a;
          ap_summary := ap_summary a; ap_requester := ap_requester a; ap_use_token_id := ap_use_token_id a;
          ap_principal_id := ap_principal_id a; ap_agent_label := ap_agent_label a; ap_tenant := ap_tenant a;
          ap_workload_id := ap_workload_id a; ap_preview := ap_preview a; ap_action_label := ap_action_label a;
          ap_dual_control := ap_dual_control a; ap_required_approvals := ap_required_approvals a;
          ap_approval_rule := ap_approval_rule a; ap_authoritative_risk_tier := risk_tier;
          ap_authoritative_irreversible := irreversible; ap_criticality := ap_criticality a;
          ap_trusted_irreversible := ap_trusted_irreversible a; ap_capability_authority := class;
          ap_gate_rule_authority := Some gate; ap_credential_authority := Some authority;
          ap_trusted_spend_amount_minor := (λ s, Z.min (sp_amount s) i64_max) <$> spend;
          ap_trusted_spend_asset := sp_asset <$> spend; ap_created_at := ap_created_at a;
          ap_escalate_at := ap_escalate_at a; ap_expires_at := ap_expires_at a;
          ap_oob_identity := ap_oob_identity a; ap_reauth_interval_secs := ap_reauth_interval_secs a;
          ap_decision_token_hash := ap_decision_token_hash a; ap_kill_epoch_at_open := Some epoch |};
     progress := progress a; run := run a |}.

(** [kill_fence_check] under the vault's lock. *)
Definition fence_check (q : KillFenceQuery) : M StorageFailure KillFenceVerdict :=
  let* v := locked_read (λ s, v_fence (sto_vault s)) in
  let* _ := emit (FX_Fence v q) in
  m_ret (kill_fence_check v q).

(** [kill_fence_refuses_open]. *)
Definition kill_fence_refuses_open (alias full_action : string) (principal : option Principal) (tenant : option string)
    (epoch : Z) (rctx : RefusalCtx) : M VultrinoError unit :=
  let* checked := m_try (fence_check {| kq_credential_alias := alias; kq_principal := principal;
                                        kq_admitted_epoch := epoch |}) in
  match checked with
  | Err _ => gateway_refuse rctx RC_DecisionUnavailable (VE_PolicyUnavailable UN_Fence)
  | Ok v =>
      match refusal_reason v with
      | None => m_ret tt
      | Some reason =>
          let* _ := record_unauthorized_attempt in
          let* _ := emit_policy_denied (p ← principal; agent_label p) (principal_id <$> principal) alias full_action
                      tenant reason "kill_fence" in
          gateway_refuse rctx RC_KillFence (VE_PolicyDenied (DN_Kill reason))
      end
  end.

(** [consume_use_token], noting the tokens it read. *)
Definition consume (id : string) : M StorageFailure UseToken :=
  let* vt := on_tokens (λ now v,
               let '(r, v') := consume_use_token Written now id v in
               (match r with Ok t => Ok (v, t) | Err e => Err e end, v')) in
  let* _ := emit (FX_Consumed vt.1 id vt.2) in
  m_ret vt.2.

(** [dispatch_notifications]. *)
Definition dispatch_notifications {E} (a : ApprovalRequest) : M E unit := m_if has_notifiers (emit (FX_Notified a)).

(** What a gated request knows when it opens its approval. *)
Record Gated := {
  g_request : ExecuteRequest;
  g_auth : ExecAuth;
  g_credential : Credential;
  g_plugin : string;
  g_action : string;
  g_label : option string;
  g_principal : option Principal;
  g_tenant : option string;
  g_spend : option SpendAttempt;
  g_epoch : Z;
  g_resolution : IrreversibilityResolution;
  g_dual_control : bool;
}.
Definition g_full_action (g : Gated) : string := full_action_of (g_plugin g) (g_action g).

(** The approval branch of [prepare_execution]. *)
Definition open_for_approval (g : Gated) (rctx : RefusalCtx) : M VultrinoError ApprovalRequest :=
  let c := g_credential g in
  let params := er_params (g_request g) in
  let full_action := g_full_action g in
  if negb (ac_enabled acfg)
  then gateway_refuse rctx RC_ApprovalUnavailable (VE_PolicyDenied DN_ApprovalsOff)
  else
    let* plugin := get (λ w, p_plugins (w_proc w) !! g_plugin g) in
    let* _ := (match plugin with
               | Some p => m_map_err (λ m, VE_Plugin (PF_Message m)) (m_lift (pl_validate p (g_action g) params))
               | None => m_ret tt
               end) in
    let* _ := m_map_err (λ e, VE_Plugin (PF_Scope e)) (m_lift (apply_workspace_scope_to_params params (cr_metadata c))) in
    let criticality := criticality_for acfg (cr_alias c) full_action in
    let sla := sla_for acfg criticality in
    let requester := ea_requester (g_auth g) in
    let requester := {| rq_principal_kind := rq_principal_kind requester; rq_principal_id := rq_principal_id requester;
                        rq_principal_name := rq_principal_name requester; rq_role := rq_role requester;
                        rq_owner := opt_or (rq_owner requester) (p ← g_principal g; owner p) |} in
    let* preview := preview_for_action full_action (g_label g) params in
    let agent := p ← g_principal g; agent_label p in
    let* answer := fetch_gate_rule (g_tenant g) agent full_action (g_label g) in
    let* answer := (match answer with
                    | Ok a => m_ret a
                    | Err e => gateway_refuse rctx RC_DecisionUnavailable (VE_PolicyUnavailable (UN_Recipe e))
                    end) in
    let trusted := trusted_human_floor (g_resolution g) in
    let* stamped :=
      (match stamped_rule answer trusted with
       | Ok s => m_ret s
       | Err reason => gateway_refuse rctx RC_DecisionUnavailable (VE_PolicyUnavailable (UN_Inconclusive reason))
       end) in
    let '(rule, risk_tier, irreversible, gate) := stamped in
    let* n := tick in
    let approval := open_approval to_uppercase (env_now n) (env_uuid n) (env_secret n)
      {| na_credential := cr_alias c; na_action := full_action; na_params := params; na_requester := requester;
         na_use_token_id := ut_id <$> ea_use_token (g_auth g); na_principal_id := principal_id <$> g_principal g;
         na_agent_label := agent; na_action_label := g_label g; na_dual_control := g_dual_control g;
         na_criticality := criticality; na_trusted_irreversible := Some trusted;
         na_escalate_after := escalate_after sla; na_escalate_window := escalate_window sla;
         na_oob_identity := ac_oob_approver_identity acfg;
         na_reauth_interval_secs := ac_reauth_interval_secs acfg;
         na_required_approvals := if g_dual_control g then Z.max (ac_dual_control_approvers acfg) 2 else 1;
         na_tenant := g_tenant g; na_workload_id := p ← g_principal g; workload_id p; na_preview := preview;
         na_approval_rule := rule |} in
    let approval := stamp_authority (authority_class (g_resolution g)) gate (authority_of c) (g_spend g) risk_tier
                      irreversible (g_epoch g) approval in
    let* _ := kill_fence_refuses_open (cr_alias c) full_action (g_principal g) (g_tenant g) (g_epoch g) rctx in
    let* _ := (match ea_use_token (g_auth g) with
               | None => m_ret tt
               | Some t =>
                   let* consumed := m_try (consume (ut_id t)) in
                   match consumed with
                   | Ok _ => m_ret tt
                   | Err e => gateway_refuse rctx RC_TokenUnusable (VE_PolicyDenied (DN_TokenReserve e))
                   end
               end) in
    let* _ := m_map_err VE_Storage (on_vault (λ now, store_approval now approval)) in
    let* _ := emit (FX_Opened approval) in
    let* _ := dispatch_notifications approval in
    let* _ := emit_event (ap_id approval) "approval.requested"
                (jobject [("approval_id", JString (ap_id approval)); ("credential", JString (ap_credential approval));
                          ("action", JString (ap_action approval)); ("summary", JString (ap_summary approval));
                          ("requested_by", JString (describe (ap_requester approval)));
                          ("criticality", JString (criticality_name (ap_criticality approval)));
                          ("tenant", jopt (ap_tenant approval))]) in
    m_ret approval.

(** ** [prepare_execution] *)

(** Whether the token or the request itself asks for approval; a read verb does not. *)
Definition is_read_verb (params : Value) : bool :=
  match json_get "method" params ≫= as_str with
  | Some m => eq_ignore_ascii_case m "GET" || eq_ignore_ascii_case m "HEAD"
  | None => false
  end.
Definition dual_control (a : ExecAuth) : bool := match ea_use_token a with Some t => ut_dual_control t | None => false end.
Definition asks_approval (a : ExecAuth) (params : Value) : bool :=
  ea_force_approval a && negb (is_read_verb params) || dual_control a.
Definition credential_asks_approval (c : Credential) : bool :=
  bool_decide (cr_metadata c !! "require_approval" = Some "true").

Definition prepare_execution (req : ExecuteRequest) (auth : ExecAuth) (via_llm_channel : bool) (entry : RefusalEntry)
    : M VultrinoError PreparedAction :=
  let* n := tick in
  let cx := context_new (env_uuid n) (env_now n) in
  let rctx := refusal_ctx entry ((λ a, (ak_id (ar_api_key a), ak_agent_label (ar_api_key a))) <$> ea_auth auth)
                (er_action req) in
  let cx := match ea_auth auth with Some a => with_auth a cx | None => cx end in
  let* _ := check_caller rctx (ea_auth auth) (er_credential req) in
  let* c := resolve_noted (er_credential req) in
  let '(canonical, label) := resolve_action cfg (er_action req) in
  let '(plugin, act) := parse_action canonical in
  let full_action := full_action_of plugin act in
  let rctx := refusal_resolved (cr_alias c) full_action rctx in
  let* _ := check_use_token rctx (ea_use_token auth) (cr_alias c) (er_action req) full_action in
  let* _ := check_tenant rctx (ea_auth auth) c full_action in
  let tenant := a ← ea_auth auth; ak_tenant (ar_api_key a) in
  let* _ := m_if (negb via_llm_channel) (refuse_llm_credential_off_channel c (er_credential req) rctx) in
  let principal := principal_of <$> ea_auth auth in
  let spend := extract_spend (gc_spend_extractors cfg) full_action (cr_alias c) (er_params req) in
  let* _ := await in
  let* epoch := get (λ w, kill_fence_epoch (v_fence (sto_vault (p_cache (w_proc w))))) in
  let q := {| q_credential_alias := cr_alias c; q_action := er_action req; q_params := er_params req;
              q_principal := principal; q_spend := spend |} in
  let* ev := judge q (match tenant_mode cfg tenant with TM_Observe => true | TM_Enforce => false end) in
  let* prompted := on_decision rctx ev principal tenant (cr_alias c) full_action in
  let* resolution := resolve_irreversibility_for_action (cr_alias c) full_action label in
  let* _ := m_if (bool_decide (resolution = IR_Unavailable))
              (gateway_refuse rctx RC_DecisionUnavailable (VE_PolicyUnavailable UN_Catalog)) in
  let* _ := m_if (gc_require_declared cfg && bool_decide (resolution = IR_Undeclared))
              (gateway_refuse rctx RC_CapabilityUndeclared (VE_PolicyDenied DN_Undeclared)) in
  let needs_approval := asks_approval auth (er_params req) || prompted || credential_asks_approval c
                        || automatically_requires_approval resolution in
  let money := is_money_action [Some (er_action req); Some full_action; label] in
  let floor := floor_from_config cfg (bool_decide (is_Some averin)) in
  match kernel_admit ev needs_approval with
  | Err ApprovalRequired =>
      let* a := open_for_approval
        {| g_request := req; g_auth := auth; g_credential := c; g_plugin := plugin; g_action := act; g_label := label;
           g_principal := principal; g_tenant := tenant; g_spend := spend; g_epoch := epoch;
           g_resolution := resolution; g_dual_control := dual_control auth |} rctx in
      m_ret (Prepared_Pending a)
  | Err e => gateway_refuse rctx RC_DecisionUnavailable (VE_PolicyDenied (DN_Permit e))
  | Ok witness =>
      let permit := direct witness (cx_request_id cx) (default "" tenant) full_action in
      let payload :=
        {| ay_credential := c; ay_plugin_name := plugin; ay_action_name := act; ay_params := er_params req;
           ay_context := cx; ay_use_token_id := ut_id <$> ea_use_token auth;
           ay_evidence_subject_id := ut_id <$> ea_use_token auth; ay_approved_execution := false;
           ay_evidence_action := er_action req;
           ay_evidence_required := requires_committed_evidence resolution floor money;
           ay_d8_fallback_ok := d8_fallback_ok resolution money;
           ay_kill_fence := {| ks_principal := principal; ks_admitted_epoch := epoch; ks_tenant := tenant |};
           ay_refusal := rctx |} in
      match authorize permit payload with
      | Ok ready => m_ret (Prepared_Ready ready)
      | Err _ => gateway_refuse rctx RC_DecisionUnavailable (VE_PolicyDenied DN_Payload)
      end
  end.

(** ** Evidence *)

Definition evidence_refused {A} (d : Denial) : M RunError A := m_fail (run_refused RC_DecisionUnavailable (VE_PolicyDenied d)).

(** [validate_required_evidence_preflight]. *)
Definition validate_required_evidence_preflight (required : bool) (subject : option string) (approved_execution : bool)
    (params_len : Z) : M RunError unit :=
  if negb required
  then
    match averin with
    | Some av =>
        if av_d8_complete_evidence av && bool_decide (is_Some subject) && (av_max_seal_params_bytes av <? params_len)
        then evidence_refused DN_EvidenceBound else m_ret tt
    | None => m_ret tt
    end
  else
    match averin, subject with
    | None, _ => evidence_refused DN_NoEvidenceClient
    | Some _, None => evidence_refused DN_NoEvidenceSubject
    | Some av, Some sid =>
        if av_max_seal_params_bytes av <? params_len then evidence_refused DN_EvidenceBound
        else if approved_execution || av_d8_complete_evidence av then m_ret tt
        else
          let* n := tick in
          let from_memory := if ac_has_in_memory_grant (env_averin n) sid then m_ret tt else evidence_refused DN_NoGrant in
          if av_durable av
          then
            match ac_popkeys (env_averin n) with
            | Some popkeys =>
                let* _ := await in
                match popkeys sid with
                | None => m_fail (run_refused_retryable RC_DecisionUnavailable (VE_PolicyUnavailable UN_GrantRead))
                | Some PK_Sealed => m_ret tt
                | Some PK_Unsealed => m_fail (run_refused_retryable RC_DecisionUnavailable (VE_PolicyUnavailable UN_Grant))
                | Some PK_Missing => evidence_refused DN_NoGrant
                end
            | None => from_memory
            end
          else from_memory
    end.

(** [seal_durable_use_required]: queued, delivered, and only then committed. *)
Definition seal_durable_use_required (sid params_bytes : string) : M RunError unit :=
  let* n := tick in
  let av := env_averin n in
  match ac_queue_append av sid params_bytes with
  | None => evidence_refused DN_Seal
  | Some sequence =>
      match ac_queue_get av sequence with
      | None => evidence_refused DN_Seal
      | Some _ =>
          let* _ := await in
          let* m := tick in
          if ac_deliver_use (env_averin m) sequence then emit (FX_Evidence sid true)
          else if bool_decide (ac_queue_get (env_averin m) sequence = Some Delivered) then emit (FX_Evidence sid true)
          else evidence_refused DN_Seal
      end
  end.

(** [seal_after_consume]: in observe mode the seal is queued or sent without waiting and
    its failure is only counted. *)
Definition seal_after_consume (av : AverinConfig) (sid params_bytes : string) (uses : Z) (request_id : string)
    (required : bool) : M RunError unit :=
  let* n := tick in
  let client := env_averin n in
  if required
  then
    if av_durable av && ac_owns_queue client && bool_decide (is_Some (ac_popkeys client))
    then seal_durable_use_required sid params_bytes
    else
      let* _ := await in
      if ac_seal_use_required client sid params_bytes uses request_id then emit (FX_Evidence sid true)
      else evidence_refused DN_Seal
  else if av_require_evidence av
  then
    let* _ := await in
    if ac_on_execute client sid params_bytes uses request_id then emit (FX_Evidence sid true)
    else evidence_refused DN_Seal
  else if av_durable av && ac_owns_queue client
  then
    if ac_durable_use_oversize_drop client sid (Z.of_nat (String.length params_bytes)) then m_ret tt
    else match ac_queue_append client sid params_bytes with
         | Some _ => emit (FX_Evidence sid false)
         | None => m_ret tt
         end
  else emit (FX_Evidence sid false).

(** [begin_exact_or_degrade]. *)
Definition begin_exact_or_degrade (av : AverinConfig) (sid alias evidence_action params_bytes : string) (uses : Z)
    (request_id : string) (required fallback_ok : bool) : M RunError (option string) :=
  let* _ := await in
  let* n := tick in
  match ac_begin_exact_use (env_averin n) sid alias evidence_action params_bytes request_id with
  | Ok evidence => let* _ := emit (FX_Evidence sid true) in m_ret (Some evidence)
  | Err AV_Unavailable =>
      if fallback_ok && negb required
      then let* _ := seal_after_consume av sid params_bytes uses request_id required in m_ret None
      else evidence_refused (DN_BeginEvidence AV_Unavailable)
  | Err e => evidence_refused (DN_BeginEvidence e)
  end.

(** [complete_exact_use]. *)
Definition complete_exact_use {E} (evidence status : string) : M E bool :=
  let* _ := await in
  let* n := tick in
  let* _ := emit (FX_Outcome evidence status) in
  m_ret (ac_complete_exact_use (env_averin n) evidence status).

(** ** [run_action] *)

(** [kill_fence_before_dispatch]. *)
Definition kill_fence_before_dispatch (alias full_action : string) (subject : KillFenceSubject) (evidence : option string)
    : M RunError unit :=
  let refused (r : RunError) : M RunError unit :=
    let* _ := (match evidence with
               | Some e => let* _ := complete_exact_use e "error" in m_ret tt
               | None => m_ret tt
               end) in
    let* _ := m_if (negb (re_retryable r))
                (let* _ := record_unauthorized_attempt in
                 emit_policy_denied (p ← ks_principal subject; agent_label p) (principal_id <$> ks_principal subject)
                   alias full_action (ks_tenant subject)
                   (match re_error r with
                    | VE_PolicyDenied (DN_Kill reason) => "Request denied by policy: " +:+ reason
                    | _ => ""
                    end) "kill_fence") in
    m_fail r in
  let* checked := m_try (fence_check {| kq_credential_alias := alias; kq_principal := ks_principal subject;
                                        kq_admitted_epoch := ks_admitted_epoch subject |}) in
  match checked with
  | Ok v =>
      match refusal_reason v with
      | None => m_ret tt
      | Some reason => refused (run_refused RC_KillFence (VE_PolicyDenied (DN_Kill reason)))
      end
  | Err _ => refused (run_refused_retryable RC_DecisionUnavailable (VE_PolicyUnavailable UN_Fence))
  end.

(** The preflight: the plugin, the params it will get, and the bytes evidence binds. *)
Definition preflight (p : ActionPayload) : M RunError (Plugin * Value * option string) :=
  let* found := get (λ w, p_plugins (w_proc w) !! ay_plugin_name p) in
  match found with
  | None => m_fail (run_retryable (VE_Plugin (PF_NotFound (ay_plugin_name p))))
  | Some plugin =>
      let* _ := m_map_err (λ m, run_terminal (VE_Plugin (PF_Message m)))
                  (m_lift (pl_validate plugin (ay_action_name p) (ay_params p))) in
      let* params := m_map_err (λ e, run_terminal (VE_Plugin (PF_Scope e)))
                       (m_lift (apply_workspace_scope_to_params (ay_params p) (cr_metadata (ay_credential p)))) in
      let* bytes :=
        (if ay_evidence_required p || bool_decide (is_Some averin) && bool_decide (is_Some (ay_evidence_subject_id p))
         then match json_to_vec params with
              | Some b => m_ret (Some b)
              | None => evidence_refused DN_EvidenceBytes
              end
         else m_ret None) in
      let* _ := validate_required_evidence_preflight (ay_evidence_required p) (ay_evidence_subject_id p)
                  (ay_approved_execution p)
                  (match bytes with Some b => Z.of_nat (String.length b) | None => 0 end) in
      m_ret (plugin, params, bytes)
  end.

(** The use token, reserved just before the side effect; the number of its use. *)
Definition reserve (id : option string) : M RunError Z :=
  match id with
  | None => m_ret 0
  | Some tid =>
      let* t := m_map_err (λ e, run_refused RC_TokenUnusable (VE_PolicyDenied (DN_TokenUse e))) (consume tid) in
      m_ret (ut_uses t)
  end.

(** [confine_plugin_execution_error]. *)
Definition confine_plugin_execution_error (message : string) (secrets : list string) : VultrinoError :=
  if diagnostic_may_contain_secret message secrets then VE_Plugin PF_Withheld else VE_Plugin (PF_Message message).

(** The evidence step between the reservation and the fence. *)
Definition seal_evidence (p : ActionPayload) (bytes : option string) (uses : Z) : M RunError (option string) :=
  match averin, ay_evidence_subject_id p, bytes with
  | Some av, Some sid, Some b =>
      let request_id := cx_request_id (ay_context p) in
      if av_d8_complete_evidence av || ay_approved_execution p && ay_evidence_required p
      then begin_exact_or_degrade av sid (cr_alias (ay_credential p)) (ay_evidence_action p) b uses request_id
             (ay_evidence_required p) (ay_d8_fallback_ok p)
      else let* _ := seal_after_consume av sid b uses request_id (ay_evidence_required p) in m_ret None
  | _, _, _ => m_ret None
  end.

(** The plugin call and the outcome of its evidence. *)
Definition call_plugin (name : string) (plugin : Plugin) (r : PluginRequest) (evidence : option string)
    (secrets : list string) : M RunError (ExecuteResponse * option CredentialData) :=
  let* _ := emit (FX_Execute name r) in
  let* _ := await in
  match pl_execute plugin r with
  | Ok answer =>
      match evidence with
      | None => m_ret answer
      | Some e =>
          let* sealed := complete_exact_use e "ok" in
          if sealed then m_ret answer else m_fail (run_committed (VE_PolicyUnavailable UN_Outcome))
      end
  | Err message =>
      let* _ := (match evidence with
                 | Some e => let* _ := complete_exact_use e "error" in m_ret tt
                 | None => m_ret tt
                 end) in
      m_fail (run_committed (confine_plugin_execution_error message secrets))
  end.

(** Storing what the plugin minted, and announcing it. *)
Definition persist_updated (c : Credential) (minted : option CredentialData) : M RunError unit :=
  match minted with
  | None => m_ret tt
  | Some d =>
      let* n := tick in
      let* _ := m_try (on_collections (store_credential
        {| cr_id := cr_id c; cr_alias := cr_alias c; cr_type := data_type d; cr_data := d;
           cr_metadata := cr_metadata c; cr_created_at := cr_created_at c; cr_updated_at := env_now n |})) in
      emit_event (cr_alias c) "credential.rotated"
        (jobject [("credential", JString (cr_alias c)); ("credential_type", JString (type_name (data_type d)))])
  end.

(** From the session on: evidence, fence, call, confinement, persistence, metering. *)
Definition dispatch (p : ActionPayload) (plugin : Plugin) (params : Value) (bytes : option string) (uses : Z)
    : M RunError ExecuteResponse :=
  let c := ay_credential p in
  let full_action := full_action_of (ay_plugin_name p) (ay_action_name p) in
  let secrets := secret_material (cr_data c) in
  let* evidence := seal_evidence p bytes uses in
  let* _ := kill_fence_before_dispatch (cr_alias c) full_action (ay_kill_fence p) evidence in
  let* answer := call_plugin (ay_plugin_name p) plugin
                   {| pr_credential := c; pr_action := ay_action_name p; pr_params := params; pr_context := ay_context p |}
                   evidence secrets in
  let confined := confine_response answer.1
                    (scrub_set_with_minted secrets (secret_material <$> answer.2)) (cr_alias c) egress full_action in
  let* _ := persist_updated c answer.2 in
  let* _ := emit (FX_Metered (default (cr_alias c)
              (opt_or (cx_agent_label (ay_context p)) (cx_api_key_id (ay_context p))))) in
  m_ret confined.

(** The guard of a session: dropped whichever way the body ends. *)
Definition in_session {E A} (e : SessionEntry) (body : M E A) : M E A :=
  let* _ := update (λ pr, set_sessions (begin_session e (p_sessions pr)).2 pr) in
  let* r := m_try body in
  let* _ := update (λ pr, set_sessions (end_session (se_session_id e) (p_sessions pr)) pr) in
  m_lift r.

Definition run_action (authorized : Authorized ActionPayload) : M RunError ExecuteResponse :=
  let p := au_payload authorized in
  let cx := ay_context p in
  let* ready := preflight p in
  let '(plugin, params, bytes) := ready in
  let* uses := reserve (ay_use_token_id p) in
  let* n := tick in
  in_session {| se_session_id := cx_request_id cx; se_agent_label := cx_agent_label cx;
                se_principal_id := cx_api_key_id cx; se_token_id := ay_use_token_id p;
                se_credential := cr_alias (ay_credential p);
                se_action := full_action_of (ay_plugin_name p) (ay_action_name p); se_started_at := env_now n |}
    (dispatch p plugin params bytes uses).

(** [execute_gated_inner]. *)
Definition execute_gated_inner (req : ExecuteRequest) (auth : ExecAuth) (via_llm_channel : bool) (entry : RefusalEntry)
    : M VultrinoError ExecutionOutcome :=
  let* prepared := prepare_execution req auth via_llm_channel entry in
  match prepared with
  | Prepared_Pending a => m_ret (EO_Pending a)
  | Prepared_Ready ready =>
      let rctx := ay_refusal (au_payload ready) in
      let* r := m_try (run_action ready) in
      match r with
      | Ok resp => m_ret (EO_Completed resp)
      | Err re => let* re' := note_run_refusal rctx re in m_fail (re_error re')
      end
  end.

(** [execute_gated_via], [execute_gated], [execute_gated_llm_channel]. *)
Definition execute_gated_via (entry : RefusalEntry) (req : ExecuteRequest) (auth : ExecAuth) :=
  execute_gated_inner req auth false entry.
Definition execute_gated (req : ExecuteRequest) (auth : ExecAuth) := execute_gated_via RE_Execute req auth.
Definition execute_gated_llm_channel (req : ExecuteRequest) (auth : ExecAuth) := execute_gated_inner req auth true RE_Llm.
End gateway.
