(* ===== verification/GatewayResume.v ===== *)
(** * Running an approved request

    Models [resume_approved] and [check_and_resume_approval] of [src/src/server/mod.rs]:
    a poll finds an approved record, claims it, judges it again against everything that
    may have changed since it was opened, runs it, and commits the outcome under the
    claim's epoch.  The heartbeat that runs beside the action is one of the environment's
    steps. *)

From stdpp Require Import base gmap strings list pretty.
From Stdlib Require Import Ascii ZArith Lia.
From S2P Require Import Prelude RustStr PolicyTypes Precedence UrlCanon RateLimit Json Kernel PolicyEngine KillFence.
From S2P Require Import Outbox Approval ApprovalStore Egress Tokens Auth Credential HttpPlugin VaultCollections.
From S2P Require Import Capability Catalog Sessions GatewayBase Gateway.

Open Scope Z_scope.

#[export] Instance CredentialAuthority_eq_dec : EqDecision CredentialAuthority.
Proof. solve_decision. Defined.
#[export] Instance RecipeTerm_eq_dec : EqDecision RecipeTerm.
Proof. solve_decision. Defined.
#[export] Instance Recipe_eq_dec : EqDecision Recipe.
Proof. solve_decision. Defined.
#[export] Instance ApprovalRule_eq_dec : EqDecision ApprovalRule.
Proof. solve_decision. Defined.
#[export] Instance GateRuleAuthorityClass_eq_dec : EqDecision GateRuleAuthorityClass.
Proof. solve_decision. Defined.

(** ** The result of a run *)

(** [cap_result_body]: cut at a character boundary. *)
Definition MAX_STORED_RESULT_BODY : nat := 64 * 1024.
Definition is_continuation (c : ascii) : bool := (128 <=? Z.of_nat (nat_of_ascii c)) && (Z.of_nat (nat_of_ascii c) <? 192).
Definition is_char_boundary (s : string) (i : nat) : bool :=
  Nat.eqb i 0 || match String.get i s with
                 | Some c => negb (is_continuation c)
                 | None => Nat.eqb i (String.length s)
                 end.
Fixpoint boundary_before (s : string) (n : nat) : nat :=
  match n with
  | O => O
  | S m => if is_char_boundary s n then n else boundary_before s m
  end.
Definition cap_result_body (body : bytes) : string :=
  let text := from_utf8_lossy (of_bytes body) in
  if Nat.leb (String.length text) MAX_STORED_RESULT_BODY then text
  else
    let n := boundary_before text MAX_STORED_RESULT_BODY in
    String.substring 0 n text +:+ NL +:+ "…[truncated " +:+ pretty (String.length text - n)%nat +:+ " bytes]".

(** How the record of a claim ends: an answer, a terminal error, a failure to start. *)
Definition lost_run (r : Run) : Run :=
  {| ap_executing := false; ap_executing_since := None; ap_executed := true; ap_result_status := None;
     ap_result_body := None;
     ap_result_error := Some "outcome unknown — original worker lost mid-execution; re-approve to retry";
     ap_execution_epoch := ap_execution_epoch r |}.
Definition answered_run (resp : ExecuteResponse) (r : Run) : Run :=
  {| ap_executing := false; ap_executing_since := None; ap_executed := true;
     ap_result_status := Some (resp_status resp); ap_result_body := Some (cap_result_body (resp_body resp));
     ap_result_error := None; ap_execution_epoch := ap_execution_epoch r |}.
Definition failed_run (show : VultrinoError → string) (e : RunError) (r : Run) : Run :=
  {| ap_executing := false; ap_executing_since := None; ap_executed := negb (re_retryable e);
     ap_result_status := ap_result_status r; ap_result_body := ap_result_body r;
     ap_result_error := Some (if negb (re_retryable e)
       then if re_committed e
            then "outcome unknown — the action may have completed; check the connected service before retrying: " +:+ show (re_error e)
            else show (re_error e)
       else "could not start the approved action (will retry on next check): " +:+ show (re_error e));
     ap_execution_epoch := ap_execution_epoch r |}.
Definition run_after (show : VultrinoError → string) (outcome : result ExecuteResponse RunError) (r : Run) : Run :=
  match outcome with Ok resp => answered_run resp r | Err e => failed_run show e r end.

Section resume.
Context {UC : UrlCrate} {GC : GlobCrate} {EC : UrlEncodingCrate} {SJ : SerdeJson} {SH : Sha256}.
Context {RC : RegexCrate} {EN : Encoders} {HC : HttpCrates} {EV : Environment}.
Context (clk : Clock) (cfg : GatewayConfig) (egress : list EgressRule) (averin : option AverinConfig).
Context (show : VultrinoError → string).

(** The recipe answer against the one stamped at opening. *)
Definition gate_rule_current (a : ApprovalRequest) (answer : GateRuleAnswer) : bool :=
  match answer with
  | GR_Rule f =>
      bool_decide (ap_gate_rule_authority a = Some GA_Rule) && bool_decide (ap_approval_rule a = Some (fg_rule f))
      && String.eqb (ap_authoritative_risk_tier a) (fg_risk_tier f)
      && Bool.eqb (ap_authoritative_irreversible a) (fg_irreversible f)
  | GR_NoRule =>
      bool_decide (ap_gate_rule_authority a = Some GA_NoRule) && bool_decide (ap_approval_rule a = None)
      && is_empty (ap_authoritative_risk_tier a) && negb (ap_authoritative_irreversible a)
  | GR_Inconclusive _ =>
      negb (gc_require_declared cfg) && bool_decide (ap_gate_rule_authority a = Some GA_Inconclusive)
      && bool_decide (ap_approval_rule a = None)
  end.
Definition legacy_unbound_recipe (a : ApprovalRequest) : bool :=
  bool_decide (ap_gate_rule_authority a = None) && negb (gc_require_declared cfg).

(** The capability class now against the one stamped at opening. *)
Definition catalog_current (a : ApprovalRequest) (now_class : option CapabilityAuthorityClass) : bool :=
  bool_decide (is_Some now_class)
  && match ap_capability_authority a with
     | Some opened => bool_decide (now_class = Some opened)
     | None => negb (gc_require_declared cfg)
     end.

(** Whether the class of an approved request needs committed evidence, and may degrade. *)
Definition approved_evidence_required (a : ApprovalRequest) (floor : EffectiveEvidenceFloor) (money : bool) : bool :=
  match ap_capability_authority a with
  | Some CA_HumanFloor | Some CA_AmbiguousCanonical => true
  | Some CA_PartiallyReversible => money || is_human_floor floor
  | Some _ => false
  | None => ap_trusted_irreversible a
  end.
Definition approved_fallback_ok (a : ApprovalRequest) (money : bool) : bool :=
  negb money && match ap_capability_authority a with
                | Some CA_Reversible | Some CA_PartiallyReversible => true
                | _ => false
                end.

(** The three authorities an approved request is checked against before policy. *)
Definition check_credential_authority (a : ApprovalRequest) (c : Credential) : M RunError unit :=
  let same_record := bool_decide (ap_credential_authority a = Some (authority_of c)) in
  let tenant_ok := tenant_may_act (ap_tenant a) (credential_tenant c) in
  if same_record && tenant_ok then m_ret tt
  else m_fail (run_refused (if tenant_ok then RC_DecisionUnavailable else RC_CrossTenant)
                 (VE_PolicyDenied DN_CredentialChanged)).
Definition check_catalog_authority (a : ApprovalRequest) : M RunError unit :=
  let* resolution := resolve_irreversibility_for_action cfg (ap_credential a) (ap_action a) (ap_action_label a) in
  if catalog_current a (authority_class resolution) then m_ret tt
  else m_fail (run_refused RC_DecisionUnavailable (VE_PolicyDenied DN_CatalogChanged)).
Definition check_recipe_authority (a : ApprovalRequest) : M RunError unit :=
  let* answer := fetch_gate_rule cfg (ap_tenant a) (ap_agent_label a) (ap_action a) (ap_action_label a) in
  match answer with
  | Err e => m_fail (run_refused RC_DecisionUnavailable (VE_PolicyUnavailable (UN_Recipe e)))
  | Ok answer =>
      if legacy_unbound_recipe a || gate_rule_current a answer then m_ret tt
      else m_fail (run_refused RC_DecisionUnavailable (VE_PolicyDenied DN_RecipeChanged))
  end.

(** The read-only evaluation; only a deny blocks. *)
Definition resume_query (a : ApprovalRequest) (c : Credential) : AdmissionQuery :=
  {| q_credential_alias := cr_alias c; q_action := default (ap_action a) (ap_action_label a);
     q_params := ap_params a; q_principal := policy_principal a; q_spend := None |}.
Definition resume_judge (a : ApprovalRequest) (c : Credential) : M RunError Evaluation :=
  let principal := policy_principal a in
  let* ev := rejudge clk (resume_query a c) in
  match ev_decision ev with
  | PD_Deny reason =>
      let* _ := record_unauthorized_attempt in
      let* _ := emit_policy_denied (p ← principal; agent_label p) (principal_id <$> principal) (cr_alias c) (ap_action a)
                  (ap_tenant a) reason "policy_resume" in
      m_fail (run_refused (match ev_deny_cause ev with Some cause => refusal_class cause | None => RC_PolicyDeny end)
                (VE_PolicyDenied (DN_Policy reason)))
  | _ => m_ret ev
  end.

(** The payload an approved request dispatches. *)
Definition resume_payload (a : ApprovalRequest) (c : Credential) (cx : RequestContext) (epoch : Z) : ActionPayload :=
  let '(plugin, act) := parse_action (ap_action a) in
  let money := is_money_action [Some (ap_action a); ap_action_label a] in
  let floor := floor_from_config cfg (bool_decide (is_Some averin)) in
  {| ay_credential := c; ay_plugin_name := plugin; ay_action_name := act; ay_params := ap_params a;
     ay_context := bind_approved_execution (ap_id a) epoch (ap_tenant a)
       (resume_identity (ap_agent_label a) (opt_or (ap_principal_id a) (rq_principal_id (ap_requester a))) cx);
     ay_use_token_id := None;
     ay_evidence_subject_id := Some ("approval:" +:+ ap_id a +:+ ":" +:+ pretty epoch);
     ay_approved_execution := true; ay_evidence_action := default (ap_action a) (ap_action_label a);
     ay_evidence_required := approved_evidence_required a floor money;
     ay_d8_fallback_ok := approved_fallback_ok a money;
     ay_kill_fence := {| ks_principal := policy_principal a;
                         ks_admitted_epoch := default 0 (ap_kill_epoch_at_open a); ks_tenant := ap_tenant a |};
     ay_refusal := resume_refusal_ctx a |}.

(** [resume_approved]. *)
Definition resume_approved (a : ApprovalRequest) (grant : Granted) : M RunError ExecuteResponse :=
  let rctx := resume_refusal_ctx a in
  let* c := m_map_err run_terminal (resolve_noted (ap_credential a)) in
  let* n := tick in
  let cx := context_new (env_uuid n) (env_now n) in
  let* _ := m_map_err run_terminal (refuse_llm_credential_off_channel averin c (ap_credential a) rctx) in
  let* _ := check_credential_authority a c in
  let* _ := check_catalog_authority a in
  let* _ := check_recipe_authority a in
  let* ev := resume_judge a c in
  let* n := tick in
  match approved grant ev (timestamp (env_now n)) with
  | Err e => m_fail (run_refused RC_DecisionUnavailable (VE_PolicyDenied (DN_Permit e)))
  | Ok permit =>
      match authorize permit (resume_payload a c cx (eb_epoch (gr_binding grant))) with
      | Err e => m_fail (run_refused RC_DecisionUnavailable (VE_PolicyDenied (DN_Permit e)))
      | Ok ready => run_action egress averin ready
      end
  end.

(** Committing the outcome of a claim, or the stored record when the claim was
    superseded. *)
Definition commit_claim (id : string) (claim : ExecutionClaim) (r : Run) : M VultrinoError ApprovalRequest :=
  let claimed := with_run (cl_approval claim) r in
  let* committed := m_map_err VE_Storage (on_vault (λ now, finalize_execution now id (cl_epoch claim) r)) in
  if committed then m_ret claimed
  else
    let* stored := m_map_err VE_Storage (cache_read (λ s, v_approvals (sto_vault s) !! id)) in
    m_ret (default claimed stored).

(** [check_and_resume_approval]. *)
Definition check_and_resume_approval (id : string) (caller : option ApprovalCaller) : M VultrinoError ApprovalRequest :=
  let* _ := m_try reload in
  let* v := m_map_err VE_Storage (cache_read sto_vault) in
  let* _ := emit (FX_Polled v) in
  match v_approvals v !! id with
  | None => m_fail (VE_InvalidRequest id)
  | Some a =>
      let* _ := (match caller with
                 | Some ca =>
                     if owns ca a then m_ret tt
                     else gateway_refuse averin
                            (refusal_resolved (ap_credential a) (ap_action a)
                               (refusal_ctx RE_ApprovalResume (Some (ca_principal_id ca, ca_agent_label ca)) (ap_action a)))
                            RC_NotGranted (VE_PolicyDenied DN_NotOwner)
                 | None => m_ret tt
                 end) in
      let* a := m_map_err VE_Storage (on_vault (λ now, poll_refresh_approval now id)) in
      if negb (bool_decide (ap_status a = AS_Approved)) || ap_executed a then m_ret a
      else
        let* claimed := m_map_err VE_Storage (on_vault (λ now, claim_approval_for_execution now id)) in
        match claimed with
        | None =>
            let* stored := m_map_err VE_Storage (cache_read (λ s, v_approvals (sto_vault s) !! id)) in
            m_ret (default a stored)
        | Some claim =>
            let* _ := emit (FX_Claimed claim) in
            if cl_stale_retake claim then commit_claim id claim (lost_run (cl_approval claim))
            else
              let* outcome := m_try (resume_approved (cl_approval claim) (cl_grant claim)) in
              let* outcome := (match outcome with
                               | Ok resp => m_ret (Ok resp)
                               | Err e =>
                                   let* e' := note_run_refusal averin (resume_refusal_ctx (cl_approval claim)) e in
                                   m_ret (Err e')
                               end) in
              commit_claim id claim (run_after show outcome (cl_approval claim))
        end
  end.
End resume.
