(* ===== verification/GatewayHalt.v ===== *)
(** * Halting an agent, reloading policies, listing tools

    Models [halt_agent], [unhalt_agent], [reload_policies],
    [load_stored_policies_at_startup], [capability_allowed_for] and the lookups built on
    it, and [list_approvals_for_tenant], of [src/src/server/mod.rs].

    The cycle lock of a load serialises loads of one process and adds nothing the load
    tickets do not already give; it is left out.  Abort callbacks have no result. *)

From stdpp Require Import base gmap strings list pretty.
From Stdlib Require Import Ascii ZArith Lia.
From S2P Require Import Prelude RustStr PolicyTypes Precedence UrlCanon RateLimit Json Kernel PolicyEngine KillFence.
From S2P Require Import Outbox Approval ApprovalStore Egress Tokens Auth Credential HttpPlugin VaultCollections.
From S2P Require Import Capability Catalog Sessions GatewayBase Gateway.

Open Scope Z_scope.

(** [KillFenceAck], [HaltOutcome], [LlmChannelRefusal]. *)
Record KillFenceAck := { ka_live : bool; ka_epoch : Z }.
Record HaltOutcome := {
  ho_agent_label : string;
  ho_revoked_tokens : list string;
  ho_deny_policy_id : string;
  ho_policy_active : bool;
  ho_in_flight : list SessionEntry;
  ho_callbacks_fired : nat;
  ho_kill_fence : KillFenceAck;
}.
Inductive LlmChannelRefusal := LC_Unread | LC_NotGranted (name : option string) | LC_Several.

(** The refusal class of a channel refusal. *)
Definition llm_refusal_class (r : LlmChannelRefusal) : option RefusalClass :=
  match r with
  | LC_Unread => Some RC_DecisionUnavailable
  | LC_NotGranted _ => Some RC_NotGranted
  | LC_Several => None
  end.

Section halt.
Context {UC : UrlCrate} {GC : GlobCrate} {EC : UrlEncodingCrate} {SJ : SerdeJson} {SH : Sha256}.
Context {EV : Environment}.
Context (clk : Clock) (cfg : GatewayConfig) (callbacks : nat).

(** ** Policies *)

Definition next_ticket {E} : M E Z := λ w,
  let '(t, e) := begin_load (p_engine (w_proc w)) in
  (Ok t, {| w_disk := w_disk w; w_proc := with_engine e (w_proc w); w_trace := w_trace w; w_tick := w_tick w |}).

(** [reload_policies]. *)
Definition stored_policies (s : Store) : list Policy := values (fv_policies (v_fence (sto_vault s))).
Definition reload_policies : M VultrinoError unit :=
  let* _ := await in
  let* ticket := next_ticket in
  let* stored := m_map_err VE_Storage (cache_read stored_policies) in
  match refuse_unloadable_stored_policies stored with
  | Err refusals => m_fail (VE_Policy refusals)
  | Ok _ => update (λ p, with_engine (load_policies_if_newer (p_engine p) ticket (merge_policies (gc_policies cfg) stored)).2 p)
  end.

(** [load_stored_policies_at_startup]. *)
Definition load_stored_policies_at_startup : M VultrinoError unit :=
  let* r := m_try reload_policies in
  match r with
  | Err (VE_Policy refusals) => m_fail (VE_Policy refusals)
  | _ => m_ret tt
  end.

(** ** Halts *)

Definition halt_id (label : string) : string := "halt:" +:+ label.

(** Leg 1: the tokens of the target, revoked one by one. *)
Definition is_halted_token (label : string) (t : UseToken) : bool :=
  negb (ut_revoked t) && (bool_decide (ut_agent_label t = Some label) || String.eqb (ut_id t) label).
Fixpoint revoke_tokens (ids : list string) : M VultrinoError unit :=
  match ids with
  | [] => m_ret tt
  | id :: rest =>
      let* _ := m_map_err VE_Storage (on_tokens (λ _, set_use_token_revoked Written id)) in
      revoke_tokens rest
  end.

(** Leg 2: the kill policy, and [KillFenceAck::read]. *)
Definition store_kill (p : Policy) : M VultrinoError unit :=
  let* v := m_map_err VE_Storage (on_vault (λ now v,
              let '(r, v') := vault_store_policy now p v in
              (match r with Ok _ => Ok (v_fence v') | Err e => Err e end, v'))) in
  emit (FX_Killed p v).
Definition read_ack {E} (policy_id : string) : M E KillFenceAck :=
  let* r := m_try (locked_read (λ s, kill_fence_ack (v_fence (sto_vault s)) policy_id)) in
  m_ret match r with
        | Ok (Some epoch) => {| ka_live := true; ka_epoch := epoch |}
        | _ => {| ka_live := false; ka_epoch := 0 |}
        end.

(** Leg 3: the sessions of this process. *)
Definition signal_sessions {E} (label : string) : M E (list SessionEntry) :=
  let* in_flight := get (λ w, for_halt_target label (p_sessions (w_proc w))) in
  let* n := get (λ w, (signal_halt label (p_sessions (w_proc w))).1) in
  let* _ := update (λ p, set_sessions (signal_halt label (p_sessions p)).2 p) in
  let* _ := emit (FX_Signalled n) in
  m_ret in_flight.

(** [halt_agent]. *)
Definition halt_agent (raw : string) : M VultrinoError HaltOutcome :=
  let label := trim raw in
  match validate_agent_label label with
  | Err _ => m_fail (VE_InvalidRequest label)
  | Ok _ =>
      let* tokens := m_map_err VE_Storage (cache_read (λ s, list_use_tokens (sto_tokens s))) in
      let ids := ut_id <$> List.filter (is_halted_token label) tokens in
      let* _ := revoke_tokens ids in
      let* _ := store_kill (kill_switch (halt_id label) label) in
      let* ack := read_ack (halt_id label) in
      let* reloaded := m_try reload_policies in
      let* in_flight := signal_sessions label in
      let* _ := emit_event label "agent.halted"
                  (jobject [("agent_label", JString label);
                            ("revoked_tokens", JNumber (PosInt (Z.of_nat (length ids))));
                            ("deny_policy_id", JString (halt_id label));
                            ("in_flight", JNumber (PosInt (Z.of_nat (length in_flight))))]) in
      m_ret {| ho_agent_label := label; ho_revoked_tokens := ids; ho_deny_policy_id := halt_id label;
               ho_policy_active := is_ok reloaded; ho_in_flight := in_flight; ho_callbacks_fired := callbacks;
               ho_kill_fence := ack |}
  end.

(** [unhalt_agent]. *)
Definition unhalt_agent (raw : string) : M VultrinoError bool :=
  let label := trim raw in
  match validate_agent_label label with
  | Err _ => m_fail (VE_InvalidRequest label)
  | Ok _ =>
      let* deleted := m_try (on_vault (λ now, vault_delete_policy now (halt_id label))) in
      let* removed := (match deleted with
                       | Ok _ => m_ret true
                       | Err (SF_Approval (SE_PolicyNotFound _)) => m_ret false
                       | Err e => m_fail (VE_Storage e)
                       end) in
      let* _ := reload_policies in
      m_ret removed
  end.

(** ** Tools *)

(** [capability_allowed_for]. *)
Definition may_use (a : AuthResult) (c : Credential) : bool :=
  has_permission (ar_role a) P_Execute && can_access_credential (ar_role a) (cr_alias c)
  && match credential_tenant c with
     | Some t => bool_decide (ak_tenant (ar_api_key a) = Some t)
     | None => true
     end.
Definition capability_allowed_for {E} (auth : option AuthResult) (cap : Capability) : M E bool :=
  let* found := m_try (resolve (cap_credential_ref cap)) in
  match found with
  | Err _ => m_ret false
  | Ok c =>
      if negb (match auth with Some a => may_use a c | None => true end) then m_ret false
      else
        let* e := get (λ w, p_engine (w_proc w)) in
        let* _ := emit (FX_Weighed (cap_credential_ref cap) c e) in
        let '(d, e') := evaluate_readonly_full clk e
          {| in_credential_alias := cr_alias c; in_url := ct_url_glob (cap_target cap);
             in_method := effective_http_method cap; in_action := Some (cap_action cap);
             in_principal := principal_of <$> auth; in_spend := None |} in
        let* _ := update (with_engine e') in
        m_ret (negb (is_deny d))
  end.

(** The loop over the catalog, and [list_capabilities_for], [resolve_llm_proxy_for],
    [resolve_llm_proxy_channel_for], [capability_by_tool_name]. *)
Fixpoint allowed_among {E} (auth : option AuthResult) (caps : list Capability) : M E (list Capability) :=
  match caps with
  | [] => m_ret []
  | cap :: rest =>
      let* ok := capability_allowed_for auth cap in
      let* others := allowed_among auth rest in
      m_ret (if ok then cap :: others else others)
  end.
Definition all_capabilities {E} : M E (list Capability) :=
  let* _ := m_try reload in
  let* listed := m_try list_capabilities in
  let caps := match listed with Ok caps => caps | Err _ => [] end in
  let* _ := emit (FX_Listed caps) in
  m_ret caps.
Definition list_capabilities_for {E} (auth : option AuthResult) : M E (list Capability) :=
  let* caps := all_capabilities in allowed_among auth caps.
Definition resolve_llm_proxy_for {E} (auth : option AuthResult) : M E (option Capability) :=
  let* caps := all_capabilities in
  let* allowed := allowed_among auth (List.filter is_llm_proxy caps) in
  m_ret match allowed with [c] => Some c | _ => None end.
Definition resolve_llm_proxy_channel_for (auth : option AuthResult) (channel : option string)
    : M LlmChannelRefusal Capability :=
  let* _ := m_try reload in
  let* listed := m_try list_capabilities in
  match listed with
  | Err _ => m_fail LC_Unread
  | Ok caps =>
      let* _ := emit (FX_Listed caps) in
      let* allowed := allowed_among auth (List.filter is_llm_proxy caps) in
      match channel, allowed with
      | Some name, _ =>
          match List.find (λ c, String.eqb (cap_id c) name || String.eqb (cap_tool_name c) name) allowed with
          | Some c => m_ret c
          | None => m_fail (LC_NotGranted (Some name))
          end
      | None, [c] => m_ret c
      | None, [] => m_fail (LC_NotGranted None)
      | None, _ => m_fail LC_Several
      end
  end.
Definition capability_by_tool_name {E} (tool_name : string) : M E (option Capability) :=
  let* caps := all_capabilities in
  m_ret (List.find (λ c, String.eqb (cap_tool_name c) tool_name) caps).

(** [list_approvals_for_tenant]. *)
Definition list_approvals_for_tenant (acting : option string) : M VultrinoError (list ApprovalRequest) :=
  let* all := m_map_err VE_Storage (cache_read (λ s, (map_to_list (v_approvals (sto_vault s))).*2)) in
  m_ret (List.filter (λ a, visible_to_tenant a acting) all).
End halt.
