(* ===== verification/GatewayFacts.v ===== *)
(** * What the gateway does before it dispatches

    One triple of the trace logic per function of [Gateway], composed into the theorems:
    nothing reaches a plugin that was not resolved, judged, classified, paid for and
    fenced in that order ([dispatch_is_authorized]); an error says truthfully whether the
    plugin was called, and it is called at most once ([error_says_whether_it_ran]); one
    request spends at most one use of its token ([request_spends_one_use]); what is
    returned is confined ([answer_is_confined]). *)

From stdpp Require Import base gmap strings list.
From Stdlib Require Import Ascii ZArith Lia.
From S2P Require Import Prelude RustStr PolicyTypes Precedence UrlCanon RateLimit Json Kernel PolicyEngine KillFence.
From S2P Require Import Outbox Approval ApprovalStore Egress Tokens Auth Credential HttpPlugin VaultCollections.
From S2P Require Import Capability Catalog Sessions GatewayBase Gateway.

Open Scope Z_scope.

(** ** Effects *)

(** Effects that give nothing away: events, refusals, evidence, notifications, metering, and
    reads. *)
Definition benign (f : Effect) : bool :=
  match f with
  | FX_Evidence _ _ | FX_Outcome _ _ | FX_Event _ _ _ | FX_Refused _ _ _ | FX_Notified _ | FX_Metered _
  | FX_Signalled _ | FX_Token _ _ | FX_Key _ | FX_Weighed _ _ _ | FX_Listed _ | FX_Polled _ => true
  | _ => false
  end.
Definition all_benign (tr : list Effect) : Prop := Forall (λ f, benign f = true) tr.
Definition is_execute (f : Effect) : bool := match f with FX_Execute _ _ => true | _ => false end.
Definition is_consumed (f : Effect) : bool := match f with FX_Consumed _ _ _ => true | _ => false end.
Definition count (P : Effect → bool) (tr : list Effect) : nat := length (List.filter P tr).

Lemma count_app P a b : count P (a ++ b) = (count P a + count P b)%nat.
Proof. unfold count. by rewrite List.filter_app, length_app. Qed.
Lemma count_cons P f tr : count P (f :: tr) = ((if P f then 1 else 0) + count P tr)%nat.
Proof. unfold count. cbn. by destruct (P f). Qed.
Lemma count_nil P : count P [] = 0%nat.
Proof. done. Qed.
Lemma benign_count P tr : (∀ f, benign f = true → P f = false) → all_benign tr → count P tr = 0%nat.
Proof. intros HP. induction 1 as [|f tr Hf _ IH]; [done|]. by rewrite count_cons, IH, (HP f Hf). Qed.
Lemma benign_execute tr : all_benign tr → count is_execute tr = 0%nat.
Proof. apply benign_count. by intros []. Qed.
Lemma benign_consumed tr : all_benign tr → count is_consumed tr = 0%nat.
Proof. apply benign_count. by intros []. Qed.
Lemma count_elem P f tr : f ∈ tr → P f = true → (0 < count P tr)%nat.
Proof. induction 1 as [|g tr ? _ IH]; intros Hf; rewrite count_cons; [rewrite Hf; lia|specialize (IH Hf); lia]. Qed.
Lemma all_benign_nil : all_benign [].
Proof. constructor. Qed.
Lemma all_benign_app a b : all_benign a → all_benign b → all_benign (a ++ b).
Proof. unfold all_benign. by rewrite Forall_app. Qed.
Lemma all_benign_one f : benign f = true → all_benign [f].
Proof. by repeat constructor. Qed.
Create HintDb gateway.
#[export] Hint Resolve all_benign_nil all_benign_app all_benign_one : gateway.

(** A computation that adds only benign effects; [P] of its answer, [R] of its error. *)
Definition gentle {E A} (m : M E A) (P : A → Prop) (R : E → Prop) : Prop :=
  m ⊨ (λ r tr, all_benign tr ∧ match r with Ok a => P a | Err e => R e end).
Abbreviation mild m P := (gentle m P (λ _, True)).

Lemma mild_ret {E A} (a : A) (P : A → Prop) (R : E → Prop) : P a → gentle (m_ret a) P R.
Proof. intros H. apply tr_ret. split; [apply all_benign_nil|done]. Qed.
Lemma mild_fail {E A} (e : E) (P : A → Prop) (R : E → Prop) : R e → gentle (m_fail e) P R.
Proof. intros H. apply tr_fail. split; [apply all_benign_nil|done]. Qed.
Lemma mild_bind {E A B} (m : M E A) (k : A → M E B) P Q (R : E → Prop) :
  gentle m P R → (∀ a, P a → gentle (k a) Q R) → gentle (let* x := m in k x) Q R.
Proof.
  intros Hm Hk. eapply tr_bind; [exact Hm|intros e tr [? ?]; done|]. intros a tr [Htr Ha].
  eapply tr_weaken; [apply (Hk a Ha)|]. intros r tr' [? ?]. split; [by apply all_benign_app|done].
Qed.
Lemma mild_silent {E A} (m : M E A) : silent m → mild m (λ _, True).
Proof. intros H. eapply tr_weaken; [exact H|]. intros [] tr ->; split; try done; apply all_benign_nil. Qed.
Lemma mild_weaken {E A} (m : M E A) (P Q : A → Prop) (R S : E → Prop) :
  gentle m P R → (∀ a, P a → Q a) → (∀ e, R e → S e) → gentle m Q S.
Proof. intros H HQ HS. eapply tr_weaken; [exact H|]. intros [] tr [? ?]; auto. Qed.
Lemma mild_emit {E} f (R : E → Prop) : benign f = true → gentle (emit f) (λ _, True) R.
Proof. intros H. apply tr_emit. split; [by apply all_benign_one|done]. Qed.
Lemma mild_map_err {E E' A} (f : E → E') (m : M E A) P (R : E' → Prop) :
  gentle m P (λ e, R (f e)) → gentle (m_map_err f m) P R.
Proof. intros H. eapply tr_map_err; [exact H|naive_solver|naive_solver]. Qed.
Lemma mild_try {E E' A} (m : M E A) P R (R' : E' → Prop) :
  gentle m P R → gentle (m_try m) (λ r, match r with Ok a => P a | Err e => R e end) R'.
Proof. intros H. eapply tr_try; [exact H|naive_solver]. Qed.
Lemma mild_update {E} f (R : E → Prop) : gentle (update f) (λ _, True) R.
Proof. apply tr_set. split; [apply all_benign_nil|done]. Qed.
Lemma mild_get {E A} (f : ServerWorld → A) (R : E → Prop) : gentle (get f) (λ _, True) R.
Proof. apply tr_get. intros a. split; [apply all_benign_nil|done]. Qed.
Lemma mild_tick {E} (R : E → Prop) : gentle tick (λ _, True) R.
Proof. apply tr_tick. intros a. split; [apply all_benign_nil|done]. Qed.
Lemma mild_lift {E A} (r : result A E) (R : E → Prop) :
  (∀ e, r = Err e → R e) → gentle (m_lift r) (λ a, r = Ok a) R.
Proof. intros H. apply tr_lift. split; [apply all_benign_nil|]. destruct r; auto. Qed.
Lemma mild_if {E} b (m : M E unit) (P : unit → Prop) (R : E → Prop) :
  (b = true → gentle m P R) → (b = false → P tt) → gentle (m_if b m) P R.
Proof. destruct b; intros H1 H2; cbn; [by apply H1|by apply mild_ret, H2]. Qed.

(** The steps every handler is made of. *)
Ltac mild_step :=
  lazymatch goal with
  | |- gentle (m_ret _) _ _ => apply mild_ret
  | |- gentle (m_fail _) _ _ => apply mild_fail
  | |- gentle (emit _) _ _ => apply mild_emit
  | |- gentle (update _) _ _ => apply mild_update
  | |- gentle (get _) _ _ => apply mild_get
  | |- gentle tick _ _ => apply mild_tick
  end.

(** A benign step in front of a computation. *)
Lemma tr_mild {E A B} (m : M E A) (k : A → M E B) P R (Q : result B E → list Effect → Prop) :
  gentle m P R → (∀ e tr, all_benign tr → R e → Q (Err e) tr) →
  (∀ a tr, all_benign tr → P a → k a ⊨ (λ r tr', Q r (tr ++ tr'))) → (let* x := m in k x) ⊨ Q.
Proof. intros Hm He Hk. eapply tr_bind; [exact Hm|intros e tr [? ?]; auto|intros a tr [? Ha]; auto]. Qed.

(** A step that cannot fail in front of a computation. *)
Lemma tr_update_then {E B} f (k : unit → M E B) (Q : result B E → list Effect → Prop) :
  k tt ⊨ Q → (let* x := update f in k x) ⊨ Q.
Proof. intros Hk w. exact (Hk _). Qed.
Lemma tr_get_then {E A B} (f : ServerWorld → A) (k : A → M E B) (Q : result B E → list Effect → Prop) :
  (∀ a, k a ⊨ Q) → (let* x := get f in k x) ⊨ Q.
Proof. intros Hk w. exact (Hk _ _). Qed.
Lemma tr_tick_then {E B} (k : nat → M E B) (Q : result B E → list Effect → Prop) :
  (∀ n, k n ⊨ Q) → (let* x := tick in k x) ⊨ Q.
Proof. intros Hk w. exact (Hk _ _). Qed.
Lemma tr_await_then `{Environment} {E B} (k : unit → M E B) (Q : result B E → list Effect → Prop) :
  k tt ⊨ Q → (let* x := await in k x) ⊨ Q.
Proof. intros Hk w. unfold m_bind, await. destruct (env_others _ _). exact (Hk _). Qed.

Section gateway.
Context {UC : UrlCrate} {GC : GlobCrate} {EC : UrlEncodingCrate} {SJ : SerdeJson} {SH : Sha256}.
Context {RC : RegexCrate} {EN : Encoders} {HC : HttpCrates} {EV : Environment}.
Context (clk : Clock) (cfg : GatewayConfig) (acfg : ApprovalConfig) (egress : list EgressRule).
Context (averin : option AverinConfig) (has_notifiers : bool).

(** ** Refusals, events, reads *)

Lemma mild_await {E} (R : E → Prop) : gentle await (λ _, True) R.
Proof. intros w. exists []. unfold await. destruct (env_others _ _). cbn. rewrite app_nil_r. split_and!; auto with gateway. Qed.
Lemma mild_cache_read {A} (f : Store → A) : mild (cache_read f) (λ _, True).
Proof. apply mild_silent, cache_read_silent. Qed.
Lemma mild_reload : mild reload (λ _, True).
Proof. apply mild_silent, locked_read_silent. Qed.
Lemma mild_note {E} ctx class (R : E → Prop) : gentle (note_gateway_refusal averin ctx class) (λ _, True) R.
Proof. unfold note_gateway_refusal. destruct averin, (sanitized ctx); try (by apply mild_ret). by apply mild_emit. Qed.
Lemma mild_refuse {A} ctx class e (P : A → Prop) : mild (gateway_refuse averin ctx class e) P.
Proof. eapply mild_bind; [apply mild_note|]. intros _ _. by apply mild_fail. Qed.
Lemma mild_emit_event {E} s k p (R : E → Prop) : gentle (emit_event s k p) (λ _, True) R.
Proof.
  eapply mild_bind; [apply mild_await|]. intros _ _. eapply mild_bind; [apply mild_tick|]. intros n _.
  destruct (env_fault n); [by apply mild_ret|by apply mild_emit].
Qed.
Lemma mild_emit_policy_denied {E} l p a f t r k (R : E → Prop) : gentle (emit_policy_denied l p a f t r k) (λ _, True) R.
Proof.
  eapply mild_bind; [apply mild_tick|]. intros n _. eapply mild_bind; [apply mild_get|]. intros gate _.
  eapply mild_bind; [apply mild_update|]. intros _ _. destruct (_ !! _); [by apply mild_ret|].
  eapply mild_bind; [apply mild_update|]. intros _ _. apply mild_emit_event.
Qed.
Lemma resolve_silent name : silent (resolve name).
Proof.
  apply silent_bind; [apply silent_map_err, cache_read_silent|]. intros [c|]; [by apply tr_ret|].
  apply silent_bind; [apply silent_map_err, cache_read_silent|]. intros [c|]; [by apply tr_ret|by apply tr_fail].
Qed.
Lemma mild_resolve name : mild (resolve name) (λ _, True).
Proof. apply mild_silent, resolve_silent. Qed.

(** ** The checks in front of the evaluation *)

(** What an authenticated caller, its token and its tenant must satisfy. *)
Definition caller_may (auth : option AuthResult) (presented : string) : Prop :=
  ∀ a, auth = Some a → has_permission (ar_role a) P_Execute = true ∧ can_access_credential (ar_role a) presented = true.
Definition token_covers (token : option UseToken) (alias presented full_action : string) : Prop :=
  ∀ t, token = Some t →
    allows_credential t alias = true ∧ (allows_action t presented = true ∨ allows_action t full_action = true).
Definition tenant_admits (auth : option AuthResult) (c : Credential) : Prop :=
  ∀ t, credential_tenant c = Some t → ∃ a, auth = Some a ∧ ak_tenant (ar_api_key a) = Some t.

Lemma mild_check_caller rctx auth presented :
  mild (check_caller averin rctx auth presented) (λ _, caller_may auth presented).
Proof.
  unfold check_caller. destruct auth as [a|]; [|apply mild_ret; intros ? [=]].
  destruct (has_permission _ _) eqn:E1; [|apply mild_refuse].
  destruct (can_access_credential _ _) eqn:E2; [|apply mild_refuse]. apply mild_ret. intros ? [= <-]. done.
Qed.
Lemma mild_check_use_token rctx token alias presented full_action :
  mild (check_use_token averin rctx token alias presented full_action) (λ _, token_covers token alias presented full_action).
Proof.
  unfold check_use_token. destruct token as [t|]; [|apply mild_ret; intros ? [=]].
  destruct (allows_credential _ _) eqn:E1; [|apply mild_refuse].
  destruct (allows_action t presented) eqn:E2, (allows_action t full_action) eqn:E3; cbn [negb andb];
    try apply mild_refuse; apply mild_ret; intros ? [= <-]; auto.
Qed.
Lemma mild_check_tenant rctx auth c full_action :
  mild (check_tenant averin rctx auth c full_action) (λ _, tenant_admits auth c).
Proof.
  unfold check_tenant. destruct (credential_tenant c) as [t|] eqn:E; [|apply mild_ret; intros ?; congruence].
  case_bool_decide as Hd.
  - apply mild_ret. intros t' Ht. assert (t' = t) as -> by congruence. destruct auth as [a|]; [|done]. by exists a.
  - eapply mild_bind; [apply mild_update|]. intros _ _.
    eapply mild_bind; [apply mild_emit_policy_denied|]. intros _ _. apply mild_refuse.
Qed.
Lemma mild_backs_llm caps c presented : mild (backs_llm_channel caps c presented) (λ _, True).
Proof.
  induction caps as [|cap caps IH]; cbn [backs_llm_channel]; [by apply mild_ret|].
  destruct (negb _); [done|]. destruct (_ || _); [by apply mild_ret|].
  eapply mild_bind; [eapply mild_try, mild_resolve|]. intros [r|[]] _; try (by apply mild_fail); [|done].
  destruct (String.eqb _ _); [by apply mild_ret|done].
Qed.
Lemma mild_off_channel c presented rctx :
  mild (refuse_llm_credential_off_channel averin c presented rctx) (λ _, True).
Proof.
  eapply mild_bind; [apply mild_try, mild_reload|]. intros [[]|] _; [|apply mild_refuse].
  eapply mild_bind; [apply mild_try, mild_cache_read|]. intros [caps|] _; [|apply mild_refuse].
  eapply mild_bind; [apply mild_try, mild_backs_llm|]. intros [[]|] _; try apply mild_refuse. by apply mild_ret.
Qed.

(** ** The evaluation and the catalog *)

(** What lets an evaluated request go on without asking people. *)
Definition lets_through (ev : Evaluation) : Prop :=
  ev_decision ev = PD_Allow ∨ (∃ reason, ev_decision ev = PD_Deny reason ∧ ev_observe_downgrade ev = true).

Lemma tr_judge q observe :
  judge clk q observe ⊨ (λ r tr, ∃ e, r = Ok (evaluate_for_admission clk e q observe).1 ∧ tr = [FX_Judged e q observe]).
Proof.
  intros w. exists [FX_Judged (p_engine (w_proc w)) q observe]. unfold judge, m_bind, get, emit, update, m_ret. cbn.
  destruct (evaluate_for_admission clk (p_engine (w_proc w)) q observe) as [ev e'] eqn:E. cbn.
  split; [done|]. exists (p_engine (w_proc w)). by rewrite E.
Qed.
Lemma mild_on_decision rctx ev principal tenant alias full_action :
  mild (on_decision averin rctx ev principal tenant alias full_action)
    (λ prompted, prompted = false → lets_through ev).
Proof.
  unfold on_decision, lets_through. destruct (ev_decision ev) as [|reason|] eqn:E; [apply mild_ret; auto| |by apply mild_ret].
  eapply mild_bind; [apply mild_update|]. intros _ _. destruct (ev_observe_downgrade ev) eqn:Eo.
  - eapply mild_bind; [apply mild_emit_event|]. intros _ _. apply mild_ret. eauto.
  - eapply mild_bind; [apply mild_emit_policy_denied|]. intros _ _. apply mild_refuse.
Qed.
Lemma tr_catalog {E} alias canonical label :
  resolve_irreversibility_for_action (E := E) cfg alias canonical label ⊨ (λ r tr,
    (r = Ok IR_Unavailable ∧ tr = [])
    ∨ ∃ caps, r = Ok (resolve_irreversibility cfg caps alias canonical label) ∧ tr = [FX_Catalog caps]).
Proof.
  apply tr_try_quiet; [apply locked_read_silent|]. intros [[]|]; [|apply tr_ret; by left].
  apply tr_try_quiet; [apply cache_read_silent|]. intros [caps|]; [|apply tr_ret; by left].
  apply tr_emit_then, tr_ret. right. by exists caps.
Qed.

Lemma tr_resolve_noted name :
  resolve_noted name ⊨ (λ r tr, match r with Ok c => tr = [FX_Resolved name c] | Err _ => tr = [] end).
Proof. apply tr_quiet; [apply resolve_silent|done|]. intros c. by apply tr_emit_then, tr_ret. Qed.

(** ** The fence and the token *)

Lemma tr_fence_check q :
  fence_check q ⊨ (λ r tr, match r with
                           | Ok verdict => ∃ v, tr = [FX_Fence v q] ∧ verdict = kill_fence_check v q
                           | Err _ => tr = []
                           end).
Proof.
  apply tr_quiet; [apply locked_read_silent|done|]. intros v. apply tr_emit_then, tr_ret. eauto.
Qed.

(** A use of [id] was spent on the tokens [v]: the record was usable at that moment and
    counts one use more. *)
Definition spent (v : TokenVault) (id : string) (t : UseToken) : Prop :=
  ∃ now t0, tv_use_tokens v !! id = Some t0 ∧ check_usable now t0 = Ok tt ∧ t = used now t0.

(** A read of the cache answers what its function answers on some store. *)
Lemma tr_cache_read {A} (f : Store → A) : cache_read f ⊨ (λ r tr, tr = [] ∧ ∀ a, r = Ok a → ∃ s, a = f s).
Proof.
  intros w. exists []. unfold cache_read, m_bind, await, tick. destruct (env_others _ _) as [d p]. cbn.
  destruct (env_fault _); cbn; rewrite app_nil_r; (split; [done|]); (split; [done|]); intros a [= <-]; eauto.
Qed.
(** A locked mutation answers what its function answers on some store, or a failure of
    the storage. *)
Lemma tr_locked {A} (f : DateTime → Store → result A StorageFailure * Store) (P : result A StorageFailure → Prop) :
  P (Err SF_Io) → (∀ now s, P (f now s).1) → locked_store_mutate f ⊨ (λ r tr, tr = [] ∧ P r).
Proof.
  intros He Hf w. exists []. unfold locked_store_mutate, m_bind, await, tick. destruct (env_others _ _) as [d p]. cbn.
  destruct (env_fault _); cbn; [by rewrite app_nil_r|]. specialize (Hf (env_now (S (w_tick w))) d).
  destruct (f _ d) as [r s]. cbn. by rewrite app_nil_r.
Qed.

Lemma tr_consume id :
  consume id ⊨ (λ r tr, match r with
                        | Ok t => ∃ v, tr = [FX_Consumed v id t] ∧ spent v id t
                        | Err _ => tr = []
                        end).
Proof.
  eapply tr_bind.
  - apply (tr_locked _ (λ r, ∀ vt, r = Ok vt → spent vt.1 id vt.2)); [done|]. intros now s vt.
    unfold consume_use_token, token_mutate. cbn. destruct (tv_use_tokens (sto_tokens s) !! id) as [t0|] eqn:E0; [|done].
    destruct (check_usable _ t0) as [[]|] eqn:Eu; [|done]. cbn. intros [= <-]. by eexists _, t0.
  - by intros e tr [-> _].
  - intros vt tr [-> Ht]. apply tr_emit_then, tr_ret. eauto.
Qed.

(** ** The tail of a request *)

(** An error before the plugin was called. *)
Abbreviation uncommitted := (λ e : RunError, re_committed e = false).
Abbreviation unsent m := (gentle m (λ _, True) uncommitted).

Lemma unsent_refused {A} d : unsent (evidence_refused (A := A) d).
Proof. by apply mild_fail. Qed.
Lemma unsent_preflight_evidence required subject approved_execution len :
  unsent (validate_required_evidence_preflight averin required subject approved_execution len).
Proof.
  unfold validate_required_evidence_preflight. destruct (negb required).
  { destruct averin; [destruct (_ && _)|]; first [apply unsent_refused|by apply mild_ret]. }
  destruct averin as [av|]; [|apply unsent_refused]. destruct subject as [sid|]; [|apply unsent_refused].
  destruct (_ <? _); [apply unsent_refused|]. destruct (_ || _); [by apply mild_ret|].
  eapply mild_bind; [apply mild_tick|]. intros n _. cbv zeta.
  assert (Hm : unsent (if ac_has_in_memory_grant (env_averin n) sid then m_ret tt else evidence_refused DN_NoGrant))
    by (destruct (ac_has_in_memory_grant _ _); [by apply mild_ret|apply unsent_refused]).
  destruct (av_durable av); [|done]. destruct (ac_popkeys _) as [popkeys|]; [|done].
  eapply mild_bind; [apply mild_await|]. intros _ _.
  destruct (popkeys sid) as [[]|]; first [by apply mild_ret|by apply mild_fail|apply unsent_refused].
Qed.
Lemma unsent_seal_durable sid b : unsent (seal_durable_use_required sid b).
Proof.
  eapply mild_bind; [apply mild_tick|]. intros n _. cbv zeta. destruct (ac_queue_append _ _ _); [|apply unsent_refused].
  destruct (ac_queue_get _ _); [|apply unsent_refused]. eapply mild_bind; [apply mild_await|]. intros _ _.
  eapply mild_bind; [apply mild_tick|]. intros m _. destruct (ac_deliver_use _ _); [by apply mild_emit|].
  case_bool_decide; [by apply mild_emit|apply unsent_refused].
Qed.
Lemma unsent_seal_after av sid b uses rid required : unsent (seal_after_consume av sid b uses rid required).
Proof.
  eapply mild_bind; [apply mild_tick|]. intros n _. cbv zeta. destruct required.
  - destruct (_ && _ && _); [apply unsent_seal_durable|]. eapply mild_bind; [apply mild_await|]. intros _ _.
    destruct (ac_seal_use_required _ _ _ _ _); [by apply mild_emit|apply unsent_refused].
  - destruct (av_require_evidence av).
    + eapply mild_bind; [apply mild_await|]. intros _ _.
      destruct (ac_on_execute _ _ _ _ _); [by apply mild_emit|apply unsent_refused].
    + destruct (_ && _); [|by apply mild_emit]. destruct (ac_durable_use_oversize_drop _ _ _); [by apply mild_ret|].
      destruct (ac_queue_append _ _ _); [by apply mild_emit|by apply mild_ret].
Qed.
Lemma unsent_begin_exact av sid alias act b uses rid required fallback :
  unsent (begin_exact_or_degrade av sid alias act b uses rid required fallback).
Proof.
  eapply mild_bind; [apply mild_await|]. intros _ _. eapply mild_bind; [apply mild_tick|]. intros n _.
  destruct (ac_begin_exact_use _ _ _ _ _ _) as [ev|[]]; [| |apply unsent_refused].
  - eapply mild_bind; [by apply mild_emit|]. intros _ _. by apply mild_ret.
  - destruct (_ && _); [|apply unsent_refused]. eapply mild_bind; [apply unsent_seal_after|]. intros _ _. by apply mild_ret.
Qed.
Lemma unsent_seal_evidence p b uses : unsent (seal_evidence averin p b uses).
Proof.
  unfold seal_evidence. destruct averin as [av|], (ay_evidence_subject_id p), b; try (by apply mild_ret). cbv zeta.
  destruct (_ || _); [apply unsent_begin_exact|]. eapply mild_bind; [apply unsent_seal_after|]. intros _ _. by apply mild_ret.
Qed.
Lemma mild_complete {E} ev status (R : E → Prop) : gentle (complete_exact_use ev status) (λ _, True) R.
Proof.
  eapply mild_bind; [apply mild_await|]. intros _ _. eapply mild_bind; [apply mild_tick|]. intros n _.
  eapply mild_bind; [by apply mild_emit|]. intros _ _. by apply mild_ret.
Qed.
Lemma mild_close {E} evidence status (R : E → Prop) :
  gentle (match evidence with
          | Some e => let* _ := complete_exact_use e status in m_ret tt
          | None => m_ret tt
          end) (λ _, True) R.
Proof.
  destruct evidence; [|by apply mild_ret]. eapply mild_bind; [apply mild_complete|]. intros _ _. by apply mild_ret.
Qed.

(** What the plugin was handed is what the preflight returned. *)
Definition readied (p : ActionPayload) (ready : Plugin * Value * option string) : Prop :=
  pl_validate ready.1.1 (ay_action_name p) (ay_params p) = Ok tt
  ∧ apply_workspace_scope_to_params (ay_params p) (cr_metadata (ay_credential p)) = Ok ready.1.2.
Lemma unsent_preflight p : gentle (preflight averin p) (readied p) uncommitted.
Proof.
  eapply mild_bind; [apply mild_get|]. intros [plugin|] _; [|by apply mild_fail].
  eapply mild_bind; [apply mild_map_err, mild_lift; done|]. intros [] Hv.
  eapply mild_bind; [apply mild_map_err, mild_lift; done|]. intros params Hp.
  eapply mild_bind with (P := λ _, True).
  { destruct (_ || _); [|by apply mild_ret]. destruct (json_to_vec params); [by apply mild_ret|apply unsent_refused]. }
  intros b _. eapply mild_bind; [apply unsent_preflight_evidence|]. intros _ _. by apply mild_ret.
Qed.

(** Neither a call of a plugin nor a use of a token. *)
Definition plain (f : Effect) : bool := negb (is_execute f) && negb (is_consumed f).
Definition all_plain (tr : list Effect) : Prop := Forall (λ f, plain f = true) tr.
Lemma benign_plain tr : all_benign tr → all_plain tr.
Proof. intros H. eapply Forall_impl; [exact H|]. by intros []. Qed.
Lemma all_plain_app a b : all_plain a → all_plain b → all_plain (a ++ b).
Proof. unfold all_plain. by rewrite Forall_app. Qed.
Lemma all_plain_cons f a : plain f = true → all_plain a → all_plain (f :: a).
Proof. by constructor. Qed.
Lemma all_plain_nil : all_plain [].
Proof. constructor. Qed.
#[local] Hint Resolve benign_plain all_plain_app all_plain_cons all_plain_nil : gateway.
#[local] Hint Extern 1 (plain _ = true) => reflexivity : gateway.

(** The fence: it is clear, or the request ends here. *)
Definition fence_query (p : ActionPayload) : KillFenceQuery :=
  {| kq_credential_alias := cr_alias (ay_credential p); kq_principal := ks_principal (ay_kill_fence p);
     kq_admitted_epoch := ks_admitted_epoch (ay_kill_fence p) |}.
Lemma tr_refused {A} b evidence re l pid alias f t reason (Q : result A RunError → list Effect → Prop) :
  re_committed re = false → (∀ tr, all_benign tr → Q (Err re) tr) →
  (let* _ := (match evidence with
              | Some e => let* _ := complete_exact_use e "error" in m_ret tt
              | None => m_ret tt
              end) in
   let* _ := m_if b (let* _ := record_unauthorized_attempt in
                     emit_policy_denied l pid alias f t reason "kill_fence") in
   m_fail re) ⊨ Q.
Proof.
  intros Hre HQ. eapply (tr_mild _ _ _ (λ _, False)); [apply mild_close|done|]. intros _ t1 H1 _.
  eapply (tr_mild _ _ (λ _, True) (λ _, False)); [|done|].
  - apply mild_if; [|done]. intros _. eapply mild_bind; [apply mild_update|]. intros _ _. apply mild_emit_policy_denied.
  - intros _ t2 H2 _. apply tr_fail. rewrite app_nil_r. auto with gateway.
Qed.
Lemma tr_fence p full_action evidence :
  kill_fence_before_dispatch (cr_alias (ay_credential p)) full_action (ay_kill_fence p) evidence ⊨ (λ r tr,
    match r with
    | Ok _ => ∃ v, tr = [FX_Fence v (fence_query p)] ∧ kill_fence_check v (fence_query p) = KF_Clear
    | Err e => all_plain tr ∧ re_committed e = false
    end).
Proof.
  unfold kill_fence_before_dispatch.
  eapply tr_try_then; [apply tr_fence_check|]. intros [verdict|] tr.
  - intros (v & -> & ->). destruct (refusal_reason _) eqn:E.
    + apply tr_refused; [done|]. cbn. auto with gateway.
    + apply tr_ret. exists v. split; [done|]. by destruct (kill_fence_check v _).
  - intros ->. apply tr_refused; [done|]. auto with gateway.
Qed.

(** The call: one, and an error after it says so. *)
Lemma tr_call name plugin rq evidence secrets :
  call_plugin name plugin rq evidence secrets ⊨ (λ r tr, ∃ b, tr = FX_Execute name rq :: b ∧ all_benign b
    ∧ match r with Ok a => pl_execute plugin rq = Ok a | Err e => re_committed e = true ∧ re_retryable e = false end).
Proof.
  apply tr_emit_then. apply (tr_weaken _ (λ r b, all_benign b
    ∧ match r with Ok a => pl_execute plugin rq = Ok a | Err e => re_committed e = true ∧ re_retryable e = false end)); [|eauto].
  apply (mild_bind _ _ (λ _, True)); [apply mild_await|]. intros _ _. destruct (pl_execute plugin rq) as [a|m].
  - destruct evidence; [|by apply mild_ret]. eapply mild_bind; [apply mild_complete|]. intros [] _;
      [by apply mild_ret|by apply mild_fail].
  - eapply mild_bind; [apply mild_close|]. intros _ _. by apply mild_fail.
Qed.
Lemma mild_persist c minted : gentle (persist_updated c minted) (λ _, True) (λ _, False).
Proof.
  destruct minted as [d|]; [|by apply mild_ret]. eapply mild_bind; [apply mild_tick|]. intros n _.
  eapply mild_bind; [eapply mild_try, mild_silent, locked_store_mutate_silent|]. intros _ _. apply mild_emit_event.
Qed.

(** What happened once the plugin was called with the request [rq]. *)
Definition confined_answer (p : ActionPayload) (plugin : Plugin) (rq : PluginRequest) (resp : ExecuteResponse) : Prop :=
  ∃ answer, pl_execute plugin rq = Ok answer
  ∧ resp = confine_response answer.1
             (scrub_set_with_minted (secret_material (cr_data (ay_credential p))) (secret_material <$> answer.2))
             (cr_alias (ay_credential p)) egress (full_action_of (ay_plugin_name p) (ay_action_name p)).
Definition plugin_request (p : ActionPayload) (params : Value) : PluginRequest :=
  {| pr_credential := ay_credential p; pr_action := ay_action_name p; pr_params := params; pr_context := ay_context p |}.
Definition dispatched_as {A} (Q : A → Prop) (p : ActionPayload) (params : Value) (r : result A RunError) (tr : list Effect) : Prop :=
  ∃ b v a, tr = b ++ FX_Fence v (fence_query p) :: FX_Execute (ay_plugin_name p) (plugin_request p params) :: a
  ∧ all_benign b ∧ all_benign a ∧ kill_fence_check v (fence_query p) = KF_Clear
  ∧ match r with Ok x => Q x | Err e => re_committed e = true ∧ re_retryable e = false end.
Definition dispatched (p : ActionPayload) (plugin : Plugin) (params : Value) (r : result ExecuteResponse RunError)
    (tr : list Effect) : Prop := dispatched_as (confined_answer p plugin (plugin_request p params)) p params r tr.
Definition ended_unsent {A} (r : result A RunError) (tr : list Effect) : Prop :=
  all_plain tr ∧ ∃ e, r = Err e ∧ re_committed e = false.

Lemma tr_dispatch p plugin params bytes uses :
  dispatch egress averin p plugin params bytes uses ⊨ (λ r tr, dispatched p plugin params r tr ∨ ended_unsent r tr).
Proof.
  eapply tr_mild; [apply unsent_seal_evidence|intros e tr ? ?; right; split; eauto with gateway|].
  intros evidence b Hb _. eapply tr_bind; [apply (tr_fence p)|intros e tr [? ?]; right; split; eauto with gateway|].
  intros [] fe (v & -> & Hv). eapply tr_bind; [apply (tr_call _ plugin (plugin_request p params))| |].
  { intros e tr (a & -> & Ha & He). left. exists b, v, a. done. }
  intros answer tr (a & -> & Ha & Hx).
  eapply tr_mild; [apply mild_persist|done|]. intros _ a' Ha' _. apply tr_emit_then, tr_ret. left.
  exists b, v, (a ++ a' ++ [FX_Metered (default (cr_alias (ay_credential p))
    (opt_or (cx_agent_label (ay_context p)) (cx_api_key_id (ay_context p))))]).
  split; [done|]. split_and!; auto with gateway. by exists answer.
Qed.

(** A session adds nothing to the trace. *)
Lemma tr_in_session {E A} e (body : M E A) Q : body ⊨ Q → in_session e body ⊨ Q.
Proof.
  intros H. apply tr_update_then. eapply tr_try_then; [exact H|]. intros r tr Hr.
  apply tr_update_then, tr_lift. by rewrite app_nil_r.
Qed.

(** The token the call was paid with. *)
Definition reserved (id : option string) (tr : list Effect) : Prop :=
  match id with
  | None => tr = []
  | Some i => ∃ v t, tr = [FX_Consumed v i t] ∧ spent v i t
  end.
Lemma tr_reserve id :
  reserve id ⊨ (λ r tr, match r with Ok _ => reserved id tr | Err e => tr = [] ∧ re_committed e = false end).
Proof.
  destruct id as [i|]; [|by apply tr_ret].
  eapply tr_bind with (P := λ r tr, match r with
    | Ok _ => reserved (Some i) tr | Err e => tr = [] ∧ re_committed e = false end).
  - eapply tr_map_err; [apply tr_consume| |]; [|done]. intros t tr (v & -> & ?). by exists v, t.
  - done.
  - intros t tr Ht. apply tr_ret. by rewrite app_nil_r.
Qed.

(** A run: a plain end, or the payment, the fence and one call. *)
Definition paid_run {A} (Q : Plugin → Value → A → Prop) (p : ActionPayload) (r : result A RunError) (tr : list Effect) : Prop :=
  ended_unsent r tr
  ∨ ∃ b pay a, tr = b ++ pay ++ a ∧ all_benign b ∧ reserved (ay_use_token_id p) pay
    ∧ (ended_unsent r a ∨ ∃ ready, readied p ready ∧ dispatched_as (Q ready.1.1 ready.1.2) p ready.1.2 r a).
Definition confined (p : ActionPayload) (plugin : Plugin) (params : Value) : ExecuteResponse → Prop :=
  confined_answer p plugin (plugin_request p params).
Lemma tr_run_action authorized :
  run_action egress averin authorized ⊨ paid_run (confined (au_payload authorized)) (au_payload authorized).
Proof.
  eapply tr_mild; [apply unsent_preflight|intros e tr ? ?; left; split; eauto with gateway|].
  intros [[plugin params] bytes] b Hb Hready. eapply tr_bind; [apply tr_reserve| |].
  { intros e tr [-> He]. left. rewrite app_nil_r. split; eauto with gateway. }
  intros uses pay Hpay. apply tr_tick_then. intros n. apply tr_in_session.
  eapply tr_weaken; [apply tr_dispatch|]. intros r a Ha. right. exists b, pay, a. split_and!; [done..|].
  destruct Ha; [right|by left]. by exists (plugin, params, bytes).
Qed.

(** ** Opening an approval *)

Lemma tr_refuses_open alias full_action principal tenant epoch rctx :
  let q := {| kq_credential_alias := alias; kq_principal := principal; kq_admitted_epoch := epoch |} in
  kill_fence_refuses_open averin alias full_action principal tenant epoch rctx ⊨ (λ r tr,
    match r with
    | Ok _ => ∃ v, tr = [FX_Fence v q] ∧ kill_fence_check v q = KF_Clear
    | Err _ => all_plain tr
    end).
Proof.
  eapply tr_try_then; [apply tr_fence_check|]. intros [verdict|] tr.
  - intros (v & -> & ->). destruct (refusal_reason _) eqn:E.
    + apply tr_update_then. eapply tr_mild; [apply (mild_emit_policy_denied _ _ _ _ _ _ _ (λ _, True))| |].
      { cbn. auto with gateway. }
      intros _ t1 H1 _. eapply tr_weaken; [apply (mild_refuse _ _ _ (λ _, False))|]. cbn.
      intros [] t2 [H2 ?]; [done|]. auto 10 with gateway.
    + apply tr_ret. exists v. split; [done|]. by destruct (kill_fence_check v _).
  - intros ->. eapply tr_weaken; [apply (mild_refuse _ _ _ (λ _, False))|]. intros [] t2 [H2 ?]; [done|]. auto with gateway.
Qed.

(** What an opened approval carries of the request that asked for it. *)
Definition asks_for (g : Gated) (a : ApprovalRequest) : Prop :=
  ap_credential a = cr_alias (g_credential g) ∧ ap_action a = g_full_action g ∧ ap_params a = er_params (g_request g)
  ∧ ap_tenant a = g_tenant g ∧ ap_principal_id a = (principal_id <$> g_principal g)
  ∧ ap_use_token_id a = (ut_id <$> ea_use_token (g_auth g))
  ∧ ap_credential_authority a = Some (authority_of (g_credential g)) ∧ ap_kill_epoch_at_open a = Some (g_epoch g).
Definition opening_query (g : Gated) : KillFenceQuery :=
  {| kq_credential_alias := cr_alias (g_credential g); kq_principal := g_principal g; kq_admitted_epoch := g_epoch g |}.
Definition opened (token : option string) (a : ApprovalRequest) (tr : list Effect) : Prop :=
  ∃ b v q pay after, tr = b ++ FX_Fence v q :: pay ++ FX_Opened a :: after ∧ all_plain b ∧ all_plain after
  ∧ reserved token pay ∧ kill_fence_check v q = KF_Clear.
Definition abandoned (token : option string) (tr : list Effect) : Prop :=
  ∃ b pay after, tr = b ++ pay ++ after ∧ all_plain b ∧ all_plain after ∧ (pay = [] ∨ reserved token pay).
Lemma opened_after token a b tr : all_plain b → opened token a tr → opened token a (b ++ tr).
Proof.
  intros Hb (b' & v & q & pay & c & -> & ? & ? & ? & ?). exists (b ++ b'), v, q, pay, c. rewrite <- app_assoc.
  auto 10 with gateway.
Qed.
Lemma plain_abandoned token tr : all_plain tr → abandoned token tr.
Proof. intros H. exists tr, [], []. rewrite !app_nil_r. auto with gateway. Qed.
Lemma abandoned_after token b tr : all_plain b → abandoned token tr → abandoned token (b ++ tr).
Proof. intros Hb (b' & pay & a & -> & ? & ? & ?). exists (b ++ b'), pay, a. rewrite <- app_assoc. auto with gateway. Qed.

(** The end of the approval branch: the payment, the record and its announcement. *)
Lemma tr_take_token rctx (token : option UseToken) :
  (match token with
   | None => m_ret tt
   | Some t =>
       let* consumed := m_try (consume (ut_id t)) in
       match consumed with
       | Ok _ => m_ret tt
       | Err e => gateway_refuse averin rctx RC_TokenUnusable (VE_PolicyDenied (DN_TokenReserve e))
       end
   end) ⊨ (λ r tr, match r with Ok _ => reserved (ut_id <$> token) tr | Err _ => all_plain tr end).
Proof.
  destruct token as [t|]; [|by apply tr_ret]. eapply tr_try_then; [apply tr_consume|]. intros [t'|e] tr.
  - intros (v & -> & ?). apply tr_ret. by exists v, t'.
  - intros ->. eapply tr_weaken; [apply (mild_refuse _ _ _ (λ _, False))|]. intros [] t2 [H2 ?]; [done|]. auto with gateway.
Qed.
Lemma mild_preview {E} canonical label params (R : E → Prop) :
  gentle (preview_for_action cfg canonical label params) (λ _, True) R.
Proof.
  eapply mild_bind; [apply mild_try, mild_reload|]. intros _ _.
  eapply mild_bind; [apply mild_try, mild_cache_read|]. intros listed _. by apply mild_ret.
Qed.
Lemma mild_fetch {E} tenant agent class label (R : E → Prop) :
  gentle (fetch_gate_rule cfg tenant agent class label) (λ _, True) R.
Proof.
  eapply mild_bind; [apply mild_await|]. intros _ _. eapply mild_bind; [apply mild_tick|]. intros n _. by apply mild_ret.
Qed.

Lemma mild_checked {E E' A} (f : E → E') (r : result A E) : mild (m_map_err f (m_lift r)) (λ _, True).
Proof. apply mild_map_err. eapply mild_weaken; [by apply (mild_lift r (λ _, True))|done..]. Qed.

Lemma tr_refuse {A} rctx c e (Q : result A VultrinoError → list Effect → Prop) :
  (∀ tr, all_benign tr → Q (Err e) tr) → gateway_refuse averin rctx c e ⊨ Q.
Proof.
  intros HQ. eapply (tr_mild _ _ _ (λ _, False)); [apply mild_note|done|]. intros _ tr Htr _. apply tr_fail.
  rewrite app_nil_r. auto.
Qed.

(** An error here has spent nothing. *)
Ltac stop := intros; apply plain_abandoned; auto 20 with gateway.

Lemma tr_open g rctx :
  open_for_approval cfg acfg averin has_notifiers g rctx ⊨ (λ r tr,
    match r with
    | Ok a => opened (ut_id <$> ea_use_token (g_auth g)) a tr ∧ asks_for g a
    | Err _ => abandoned (ut_id <$> ea_use_token (g_auth g)) tr
    end).
Proof.
  unfold open_for_approval. cbv zeta.
  destruct (negb (ac_enabled acfg)); [eapply tr_weaken; [apply (mild_refuse _ _ _ (λ _, False))|];
    intros [] tr [? ?]; [done|by apply plain_abandoned, benign_plain]|].
  apply tr_get_then. intros plugin.
  eapply (tr_mild _ _ (λ _, True) (λ _, True)); [|stop|].
  { destruct plugin as [p|]; [apply mild_checked|by apply mild_ret]. }
  intros _ t2 H2 _. eapply tr_mild; [apply mild_checked|stop|].
  intros _ t3 H3 _. eapply (tr_mild _ _ (λ _, True) (λ _, False)); [apply mild_preview|done|].
  intros preview t4 H4 _. eapply (tr_mild _ _ (λ _, True) (λ _, False)); [apply mild_fetch|done|].
  intros answer t5 H5 _. eapply (tr_mild _ _ (λ _, True) (λ _, True)); [|stop|].
  { destruct answer; [by apply mild_ret|apply mild_refuse]. }
  intros answer' t6 H6 _. eapply (tr_mild _ _ (λ _, True) (λ _, True)); [|stop|].
  { destruct (stamped_rule _ _ _); [by apply mild_ret|apply mild_refuse]. }
  intros [[[rule tier] irreversible] gate] t7 H7 _. apply tr_tick_then. intros n.
  lazymatch goal with |- context [FX_Opened ?x] => set (a := x); assert (Ha : asks_for g a) by done; clearbody a end.
  eapply tr_bind; [apply tr_refuses_open|stop|]. intros [] fe (v & -> & Hv).
  eapply tr_bind; [apply tr_take_token|stop|]. intros [] pay Hpay.
  eapply tr_bind; [apply silent_map_err, locked_store_mutate_silent| |].
  { intros e tr ->. do 6 (apply abandoned_after; [auto with gateway|]).
    exists [FX_Fence v (opening_query g)], pay, []. auto with gateway. }
  intros [] tr ->. apply tr_emit_then. eapply (tr_mild _ _ (λ _, True) (λ _, False)); [|done|].
  { apply mild_if; [intros _; by apply mild_emit|done]. }
  intros _ t8 H8 _. eapply (tr_mild _ _ (λ _, True) (λ _, False)); [apply mild_emit_event|done|].
  intros _ t9 H9 _. apply tr_ret. split; [|done].
  exists (t2 ++ t3 ++ t4 ++ t5 ++ t6 ++ t7), v, (opening_query g), pay, (t8 ++ t9 ++ []).
  rewrite <- !app_assoc. auto 15 with gateway.
Qed.

(** ** The gate *)

(** What the request asks for, canonically: the plugin, its action and the label. *)
Definition asked_plugin (req : ExecuteRequest) : string := (parse_action (resolve_action cfg (er_action req)).1).1.
Definition asked_action (req : ExecuteRequest) : string := (parse_action (resolve_action cfg (er_action req)).1).2.
Definition asked_full (req : ExecuteRequest) : string := full_action_of (asked_plugin req) (asked_action req).
Definition asked_label (req : ExecuteRequest) : option string := (resolve_action cfg (er_action req)).2.

(** The query its evaluation must get, and whether the tenant is only observed. *)
Definition asked_query (req : ExecuteRequest) (auth : ExecAuth) (c : Credential) : AdmissionQuery :=
  {| q_credential_alias := cr_alias c; q_action := er_action req; q_params := er_params req;
     q_principal := principal_of <$> ea_auth auth;
     q_spend := extract_spend (gc_spend_extractors cfg) (asked_full req) (cr_alias c) (er_params req) |}.
Definition observed (auth : ExecAuth) : bool :=
  match tenant_mode cfg (a ← ea_auth auth; ak_tenant (ar_api_key a)) with TM_Observe => true | TM_Enforce => false end.

(** The payload is the request's. *)
Definition carries (req : ExecuteRequest) (auth : ExecAuth) (p : ActionPayload) : Prop :=
  ay_plugin_name p = asked_plugin req ∧ ay_action_name p = asked_action req ∧ ay_params p = er_params req
  ∧ ay_use_token_id p = (ut_id <$> ea_use_token auth) ∧ ks_principal (ay_kill_fence p) = (principal_of <$> ea_auth auth).

(** Every check of the gate held, on the record the name resolved to, the engine that
    judged the request and the catalog that was read. *)
Definition passes (req : ExecuteRequest) (auth : ExecAuth) (c : Credential) (e : PolicyEngine) (caps : list Capability)
    : Prop :=
  caller_may (ea_auth auth) (er_credential req)
  ∧ token_covers (ea_use_token auth) (cr_alias c) (er_action req) (asked_full req)
  ∧ tenant_admits (ea_auth auth) c
  ∧ lets_through (evaluate_for_admission clk e (asked_query req auth c) (observed auth)).1
  ∧ asks_approval auth (er_params req) = false ∧ credential_asks_approval c = false
  ∧ (let resolution := resolve_irreversibility cfg caps (cr_alias c) (asked_full req) (asked_label req) in
     automatically_requires_approval resolution = false ∧ resolution ≠ IR_Unavailable
     ∧ (gc_require_declared cfg = true → resolution ≠ IR_Undeclared)).

(** The trace of a request that may run. *)
Definition admitted (req : ExecuteRequest) (auth : ExecAuth) (p : ActionPayload) (tr : list Effect) : Prop :=
  ∃ b1 b2 b3 b4 e caps,
    tr = b1 ++ FX_Resolved (er_credential req) (ay_credential p)
         :: b2 ++ FX_Judged e (asked_query req auth (ay_credential p)) (observed auth) :: b3 ++ FX_Catalog caps :: b4
    ∧ all_benign b1 ∧ all_benign b2 ∧ all_benign b3 ∧ all_benign b4
    ∧ passes req auth (ay_credential p) e caps ∧ carries req auth p.

Lemma authorize_payload permit p ready : authorize permit p = Ok ready → au_payload ready = p.
Proof. unfold authorize. destruct (ok_or _ _); cbn; [|done]. destruct (_ || _); [done|]. by intros [= <-]. Qed.

Lemma tr_prepare req auth via entry :
  prepare_execution clk cfg acfg averin has_notifiers req auth via entry ⊨ (λ r tr,
    let token := ut_id <$> ea_use_token auth in
    match r with
    | Ok (Prepared_Ready ready) => admitted req auth (au_payload ready) tr
    | Ok (Prepared_Pending a) => opened token a tr
    | Err _ => abandoned token tr
    end).
Proof.
  unfold prepare_execution. apply tr_tick_then. intros n. cbv zeta.
  eapply tr_mild; [apply mild_check_caller|stop|]. intros u1 b1 Hb1 Hcaller.
  eapply tr_bind; [apply tr_resolve_noted|intros e tr ->; stop|]. intros c tr ->.
  destruct (resolve_action cfg (er_action req)) as [canonical label] eqn:Era.
  destruct (parse_action canonical) as [plugin act] eqn:Epa.
  assert (Hfull : full_action_of plugin act = asked_full req) 
    by (unfold asked_full, asked_plugin, asked_action; by rewrite Era; cbn; rewrite Epa).
  rewrite Hfull.
  eapply tr_mild; [apply mild_check_use_token|stop|]. intros u2 b2 Hb2 Htoken.
  eapply tr_mild; [apply mild_check_tenant|stop|]. intros u3 b3 Hb3 Htenant.
  eapply (tr_mild _ _ (λ _, True) (λ _, True)); [|stop|].
  { apply mild_if; [intros _; apply mild_off_channel|done]. }
  intros _ b4 Hb4 _. apply tr_await_then, tr_get_then. intros epoch.
  eapply tr_bind; [apply tr_judge|intros e tr (? & [=] & _)|]. intros ev tr (e & [= ->] & ->).
  eapply tr_mild; [apply mild_on_decision|stop|]. intros prompted b5 Hb5 Hdecision.
  eapply tr_bind; [apply tr_catalog|intros x tr [([=] & _)|(? & [=] & _)]|]. intros resolution tr Hres.
  eapply (tr_mild _ _ (λ _, resolution ≠ IR_Unavailable) (λ _, True)); [| |].
  { apply mild_if; [intros _; apply mild_refuse|]. by intros ?%bool_decide_eq_false. }
  { destruct Hres as [[_ ->]|(? & _ & ->)]; stop. }
  intros [] b6 Hb6 Havail. destruct Hres as [[[=] _]|(caps & [= ->] & ->)]; [done|].
  eapply (tr_mild _ _ (λ _, gc_require_declared cfg = true →
    resolve_irreversibility cfg caps (cr_alias c) (asked_full req) label ≠ IR_Undeclared) (λ _, True)); [|stop|].
  { apply mild_if; [intros _; apply mild_refuse|]. intros Hd Hreq. rewrite Hreq in Hd. by apply bool_decide_eq_false in Hd. }
  intros [] b7 Hb7 Hdecl. change (match tenant_mode _ _ with TM_Enforce => false | TM_Observe => true end) with (observed auth).
  fold (asked_query req auth c). destruct (kernel_admit _ _) as [witness|[]] eqn:Eadmit; try (apply tr_refuse; stop).
  - destruct (authorize _ _) as [ready|] eqn:Eauth; [|apply tr_refuse; stop]. apply authorize_payload in Eauth.
    apply admit_iff in Eadmit as ([[[Hasks ->]%orb_false_iff Hcred]%orb_false_iff Hauto]%orb_false_iff & _).
    apply tr_ret. exists b1, (b2 ++ b3 ++ b4), b5, (b6 ++ b7 ++ []), e, caps. rewrite Eauth. cbn [ay_credential].
    unfold passes, carries, asked_plugin, asked_action, asked_label. rewrite Era. cbn [fst snd]. rewrite Epa.
    split; [by rewrite <- !app_assoc|]. split_and!; auto with gateway.
  - eapply tr_bind; [apply tr_open| |].
    { intros x tr Hx. cbn [g_auth] in Hx. repeat (apply abandoned_after; [auto with gateway|]). done. }
    intros approval tr [Ha _]. apply tr_ret. cbn [g_auth] in Ha.
    rewrite app_nil_r. repeat (apply opened_after; [auto with gateway|]). done.
Qed.

(** ** The whole request *)

Lemma admitted_plain req auth p tr : admitted req auth p tr → all_plain tr.
Proof. intros (b1 & b2 & b3 & b4 & e & caps & -> & ? & ? & ? & ? & _). auto 20 with gateway. Qed.
Lemma mild_note_run {E} rctx re (R : E → Prop) : gentle (note_run_refusal averin rctx re) (λ _, True) R.
Proof.
  unfold note_run_refusal. destruct (re_class re); [|by apply mild_ret].
  eapply mild_bind; [apply mild_note|]. intros _ _. by apply mild_ret.
Qed.

(** The trace of a request that ran: admission, payment, fence, call. *)
Definition ran_as {A B} (Q : ActionPayload → Plugin → Value → A → Prop) (completed : A → B) (req : ExecuteRequest) (auth : ExecAuth)
    (r : result B VultrinoError) (tr : list Effect) : Prop :=
  ∃ p ready adm b pay a c r0, tr = adm ++ b ++ pay ++ a ++ c ∧ all_benign b ∧ all_benign c
  ∧ admitted req auth p adm ∧ reserved (ut_id <$> ea_use_token auth) pay
  ∧ readied p ready ∧ dispatched_as (Q p ready.1.1 ready.1.2) p ready.1.2 r0 a
  ∧ match r0 with Ok x => r = Ok (completed x) | Err _ => is_Some (match r with Err e => Some e | Ok _ => None end) end.

(** How a gated request ends, whatever runs behind the gate. *)
Definition gated_as {A B} (Q : ActionPayload → Plugin → Value → A → Prop) (waits : ApprovalRequest → B) (completed : A → B)
    (req : ExecuteRequest) (auth : ExecAuth) (r : result B VultrinoError) (tr : list Effect) : Prop :=
  let token := ut_id <$> ea_use_token auth in
  (∃ a, r = Ok (waits a) ∧ opened token a tr) ∨ (∃ e, r = Err e ∧ abandoned token tr) ∨ ran_as Q completed req auth r tr.

Lemma tr_gated_as {A B} (Q : ActionPayload → Plugin → Value → A → Prop) (run : Authorized ActionPayload → M RunError A)
    (waits : ApprovalRequest → B) (completed : A → B) req auth via entry :
  (∀ ready, run ready ⊨ paid_run (Q (au_payload ready)) (au_payload ready)) →
  (let* prepared := prepare_execution clk cfg acfg averin has_notifiers req auth via entry in
   match prepared with
   | Prepared_Pending a => m_ret (waits a)
   | Prepared_Ready ready =>
       let* r := m_try (run ready) in
       match r with
       | Ok x => m_ret (completed x)
       | Err re => let* re' := note_run_refusal averin (ay_refusal (au_payload ready)) re in m_fail (re_error re')
       end
   end) ⊨ gated_as Q waits completed req auth.
Proof.
  intros Hrun. eapply tr_bind; [apply tr_prepare|right; left; eauto|]. intros [a|ready] adm Hadm.
  { apply tr_ret. left. rewrite app_nil_r. eauto. }
  destruct (Hadm) as (b1 & b2 & b3 & b4 & e & caps & _ & _ & _ & _ & _ & _ & Hcarry).
  assert (Hplain := admitted_plain _ _ _ _ Hadm).
  assert (Hid : ay_use_token_id (au_payload ready) = (ut_id <$> ea_use_token auth)) by apply Hcarry.
  eapply tr_try_then; [apply Hrun|]. unfold paid_run. rewrite Hid. intros r0 tr Htr.
  apply (tr_weaken _ (λ r c, all_benign c ∧ match r0 with
           | Ok x => r = Ok (completed x)
           | Err _ => is_Some (match r with Err e => Some e | Ok _ => None end)
           end)).
  { destruct r0 as [resp|re]; [apply tr_ret; auto with gateway|].
    eapply tr_mild; [apply (mild_note_run _ _ (λ _, False))|done|]. intros re' c Hc _. apply tr_fail.
    rewrite app_nil_r. eauto. }
  intros r c [Hc Hr]. right.
  destruct Htr as [[Hp (x & -> & _)]|(b & pay & a & -> & Hb & Hpay & [[Hp (x & -> & _)]|(rd & Hrd & Hd)])].
  - left. destruct r as [|y]; [by destruct Hr|]. exists y. split; [done|]. apply plain_abandoned. auto with gateway.
  - left. destruct r as [|y]; [by destruct Hr|]. exists y. split; [done|]. exists (adm ++ b), pay, (a ++ c).
    rewrite <- !app_assoc. auto 10 with gateway.
  - right. exists (au_payload ready), rd, adm, b, pay, a, c, r0. rewrite <- !app_assoc. auto 10 with gateway.
Qed.
Lemma tr_gated req auth via entry :
  execute_gated_inner clk cfg acfg egress averin has_notifiers req auth via entry ⊨ gated_as confined EO_Pending EO_Completed req auth.
Proof. apply tr_gated_as. apply tr_run_action. Qed.

(** ** Counting calls and uses *)

Lemma plain_execute tr : all_plain tr → count is_execute tr = 0%nat.
Proof. induction 1 as [|f tr Hf _ IH]; [done|]. rewrite count_cons, IH. by destruct f. Qed.
Lemma plain_consumed tr : all_plain tr → count is_consumed tr = 0%nat.
Proof. induction 1 as [|f tr Hf _ IH]; [done|]. rewrite count_cons, IH. by destruct f. Qed.
Lemma plain_not_in f tr : all_plain tr → plain f = false → f ∉ tr.
Proof. intros Htr Hf Hin. eapply Forall_forall in Htr; [|exact Hin]. congruence. Qed.

(** [n] calls of plugins, and [k] uses, all of the token [id]. *)
Definition ledger (id : option string) (n k : nat) (tr : list Effect) : Prop :=
  count is_execute tr = n ∧ count is_consumed tr = k
  ∧ ∀ v i t, FX_Consumed v i t ∈ tr → id = Some i ∧ spent v i t.
Lemma ledger_plain id tr : all_plain tr → ledger id 0 0 tr.
Proof.
  intros H. split_and!; [by apply plain_execute|by apply plain_consumed|].
  intros v i t Hin. exfalso. by apply (plain_not_in (FX_Consumed v i t) tr).
Qed.
Lemma ledger_app id n k n' k' a b : ledger id n k a → ledger id n' k' b → ledger id (n + n') (k + k') (a ++ b).
Proof.
  intros (<- & <- & Ha) (<- & <- & Hb). split_and!; [by rewrite count_app..|].
  intros v i t [?|?]%elem_of_app; eauto.
Qed.
Lemma ledger_execute id name rq : ledger id 1 0 [FX_Execute name rq].
Proof. split_and!; [done..|]. by intros v i t ?%list_elem_of_singleton. Qed.
Definition one_use (id : option string) : nat := match id with Some _ => 1 | None => 0 end.
Lemma ledger_reserved id pay : reserved id pay → ledger id 0 (one_use id) pay.
Proof.
  destruct id as [i|]; cbn; [|by intros ->; apply ledger_plain, all_plain_nil].
  intros (v & t & -> & Hs). split_and!; [done..|]. by intros v' i' t' [= -> -> ->]%list_elem_of_singleton.
Qed.
Lemma plain_ledger id n k a b : all_plain a → ledger id n k b → ledger id n k (a ++ b).
Proof. intros Ha Hb. apply (ledger_app id 0 0 n k); [by apply ledger_plain|done]. Qed.
Lemma ledger_then_plain id n k a b : ledger id n k a → all_plain b → ledger id n k (a ++ b).
Proof.
  intros Ha Hb. rewrite <- (Nat.add_0_r n), <- (Nat.add_0_r k). apply ledger_app; [done|by apply ledger_plain].
Qed.
Lemma plain_cons_ledger id n k f b : plain f = true → ledger id n k b → ledger id n k (f :: b).
Proof. intros Hf. apply (plain_ledger id n k [f]). auto with gateway. Qed.
#[local] Hint Resolve ledger_plain plain_ledger ledger_then_plain plain_cons_ledger ledger_execute ledger_reserved : gateway.

Lemma ledger_opened id a tr : opened id a tr → ledger id 0 (one_use id) tr.
Proof. intros (b & v & q & pay & c & -> & ? & ? & ? & _). auto 10 with gateway. Qed.
Lemma ledger_abandoned id tr : abandoned id tr → ledger id 0 0 tr ∨ ledger id 0 (one_use id) tr.
Proof.
  intros (b & pay & c & -> & ? & ? & [->|?]); [left; apply ledger_plain; auto with gateway|right; auto with gateway].
Qed.
Lemma ledger_dispatched {A} id (Q : A → Prop) p params r tr : dispatched_as Q p params r tr → ledger id 1 0 tr.
Proof.
  intros (b & v & a & -> & ? & ? & _). apply plain_ledger; [auto with gateway|]. apply plain_cons_ledger; [done|].
  apply (ledger_then_plain id 1 0 [_]); auto with gateway.
Qed.
Lemma ledger_ran {A B} Q (completed : A → B) req auth r tr : ran_as Q completed req auth r tr → let id := ut_id <$> ea_use_token auth in ledger id 1 (one_use id) tr.
Proof.
  intros (p & ready & adm & b & pay & a & c & r0 & -> & ? & ? & Hadm%admitted_plain & ? & _ & Hd & _) id.
  apply (ledger_dispatched id) in Hd. subst id. apply plain_ledger; [done|]. apply plain_ledger; [auto with gateway|].
  rewrite <- (Nat.add_0_r (one_use _)). apply (ledger_app _ 0 _ 1 0); auto with gateway.
Qed.

(** ** Theorems *)

Lemma trace_of {E A} (m : M E A) Q w r w' tr : m ⊨ Q → m w = (r, w') → w_trace w' = w_trace w ++ tr → Q r tr.
Proof.
  intros H E1 E2. destruct (H w) as (tr' & E3 & HQ). rewrite E1 in E3, HQ. cbn in *.
  rewrite E2 in E3. by apply app_inv_head in E3 as ->.
Qed.

Lemma execute_not_in id n k name rq tr : ledger id n k tr → n = 0%nat → FX_Execute name rq ∉ tr.
Proof. intros (E & _) -> Hin. apply (count_elem is_execute) in Hin; [lia|done]. Qed.

Lemma derived_forms_mono secrets secrets' form :
  (∀ x, x ∈ secrets → x ∈ secrets') → form ∈ derive_secret_forms secrets → form ∈ derive_secret_forms secrets'.
Proof.
  intros H. unfold derive_secret_forms. rewrite !sorted_elem, !dedup_elem, !sorted_elem, !list_elem_of_bind.
  intros (raw & ? & ?). eauto.
Qed.

(** The one place a plugin is called in a trace that dispatches. *)
Lemma dispatched_call {A} (Q : A → Prop) p params r body pre post name rq :
  dispatched_as Q p params r body → FX_Execute name rq ∉ pre → all_plain post → FX_Execute name rq ∈ pre ++ body ++ post →
  ∃ bf v af, pre ++ body ++ post = (pre ++ bf) ++ FX_Fence v (fence_query p) :: FX_Execute name rq :: af
  ∧ kill_fence_check v (fence_query p) = KF_Clear ∧ name = ay_plugin_name p ∧ rq = plugin_request p params.
Proof.
  intros (bf & v & af & -> & Hbf & Haf & Hv & _) Hpre Hpost Hin.
  assert (Hno : ∀ l, all_plain l → FX_Execute name rq ∉ l) by (intros l Hl; by apply plain_not_in).
  assert (FX_Execute name rq = FX_Execute (ay_plugin_name p) (plugin_request p params)) as [= -> ->].
  { rewrite !elem_of_app, !elem_of_cons in Hin. pose proof (Hno _ Hpost).
    pose proof (Hno _ (benign_plain _ Hbf)). pose proof (Hno _ (benign_plain _ Haf)). naive_solver. }
  exists bf, v, (af ++ post). split_and!; try done. by rewrite <- !app_assoc.
Qed.
Lemma ran_call {A B} Q (completed : A → B) req auth r tr name rq :
  ran_as Q completed req auth r tr → FX_Execute name rq ∈ tr →
  ∃ p ready adm b pay bf v af, tr = (adm ++ b ++ pay ++ bf) ++ FX_Fence v (fence_query p) :: FX_Execute name rq :: af
  ∧ admitted req auth p adm ∧ reserved (ut_id <$> ea_use_token auth) pay ∧ readied p ready
  ∧ kill_fence_check v (fence_query p) = KF_Clear ∧ name = ay_plugin_name p ∧ rq = plugin_request p ready.1.2.
Proof.
  intros (p & ready & adm & b & pay & a & c & r0 & -> & Hb & Hc & Hadm & Hpay & Hready & Hd & _) Hin.
  assert (Hpre : FX_Execute name rq ∉ adm ++ b ++ pay).
  { eapply execute_not_in; [|done]. do 2 (apply plain_ledger; [eauto using admitted_plain with gateway|]).
    apply ledger_reserved, Hpay. }
  replace (adm ++ b ++ pay ++ a ++ c) with ((adm ++ b ++ pay) ++ a ++ c) in * by (by rewrite <- !app_assoc).
  destruct (dispatched_call _ _ _ _ _ _ _ _ _ Hd Hpre (benign_plain _ Hc) Hin) as (bf & v & af & -> & Hv & -> & ->).
  exists p, ready, adm, b, pay, bf, v, af. by rewrite <- !app_assoc.
Qed.

(** What complete mediation says of a call in a trace. *)
Definition mediated (req : ExecuteRequest) (auth : ExecAuth) (tr : list Effect) (name : string) (rq : PluginRequest) : Prop :=
  ∃ before v epoch after resolved judging e caps paying,
    let c := pr_credential rq in
    let k := {| kq_credential_alias := cr_alias c; kq_principal := principal_of <$> ea_auth auth;
                kq_admitted_epoch := epoch |} in
    tr = before ++ FX_Fence v k :: FX_Execute name rq :: after ∧ kill_fence_check v k = KF_Clear
    ∧ before = resolved ++ FX_Resolved (er_credential req) c
               :: judging ++ FX_Judged e (asked_query req auth c) (observed auth) :: paying
    ∧ FX_Catalog caps ∈ paying
    ∧ passes req auth c e caps
    ∧ (∀ t, ea_use_token auth = Some t → ∃ vt t', FX_Consumed vt (ut_id t) t' ∈ paying ∧ spent vt (ut_id t) t')
    ∧ name = asked_plugin req ∧ pr_action rq = asked_action req
    ∧ apply_workspace_scope_to_params (er_params req) (cr_metadata c) = Ok (pr_params rq)
    ∧ count is_execute tr = 1%nat.
Lemma gated_mediated {A B} Q waits (completed : A → B) req auth r tr name rq :
  gated_as Q waits completed req auth r tr → FX_Execute name rq ∈ tr → mediated req auth tr name rq.
Proof.
  unfold mediated. intros [(a & _ & Ho)|[(x & _ & Ha)|Hran]] Hin.
  { exfalso. by eapply execute_not_in; [apply (ledger_opened _ _ _ Ho)|..]. }
  { exfalso. destruct (ledger_abandoned _ _ Ha) as [Hl|Hl]; by eapply execute_not_in; [exact Hl|..]. }
  pose proof (ledger_ran _ _ _ _ _ _ Hran) as (Hone & _).
  destruct (ran_call _ _ _ _ _ _ _ _ Hran Hin) as (p & ready & adm & b & pay & bf & v & af & Etr & Hadm & Hpay & Hready & Hv & -> & ->).
  destruct Hadm as (b1 & b2 & b3 & b4 & e & caps & -> & _ & _ & _ & _ & Hpass & Hplug & Hact & Hparams & _ & Hprin).
  rewrite <- Hprin, <- Hplug, <- Hact, <- Hparams.
  exists (b1 ++ FX_Resolved (er_credential req) (ay_credential p) :: b2
          ++ FX_Judged e (asked_query req auth (ay_credential p)) (observed auth) :: (b3 ++ FX_Catalog caps :: b4) ++ b ++ pay ++ bf),
    v, (ks_admitted_epoch (ay_kill_fence p)), af, b1, b2, e, caps, ((b3 ++ FX_Catalog caps :: b4) ++ b ++ pay ++ bf).
  cbv zeta. split_and!; try done.
  - rewrite Etr. repeat (rewrite <- app_assoc || rewrite <- app_comm_cons || cbn [app]). done.
  - set_solver.
  - intros t Ht. rewrite Ht in Hpay. destruct Hpay as (vt & t' & -> & Hs). exists vt, t'. split; [set_solver|done].
  - apply Hready.
Qed.

(** C3: Complete mediation. If a request calls a plugin, then before the call, in this
    order: the presented name resolved to the very credential the plugin got; the policy
    engine judged exactly the request's alias, action, params, principal and spend, and
    let it through without asking people; the catalog was read and asked for no approval
    either; the caller's role, its token and its tenant covered the request; its token,
    if it had one, spent a use it really had; and the kill fence, read under the vault's
    lock in the step right before the call, was clear for it. The plugin got the
    request's own action, and its params scoped by the credential; it was called once. *)
Theorem dispatch_is_authorized req auth via entry w r w' tr name rq :
  execute_gated_inner clk cfg acfg egress averin has_notifiers req auth via entry w = (r, w') →
  w_trace w' = w_trace w ++ tr → FX_Execute name rq ∈ tr →
  ∃ before v epoch after resolved judging e caps paying,
    let c := pr_credential rq in
    let k := {| kq_credential_alias := cr_alias c; kq_principal := principal_of <$> ea_auth auth;
                kq_admitted_epoch := epoch |} in
    tr = before ++ FX_Fence v k :: FX_Execute name rq :: after ∧ kill_fence_check v k = KF_Clear
    ∧ before = resolved ++ FX_Resolved (er_credential req) c
               :: judging ++ FX_Judged e (asked_query req auth c) (observed auth) :: paying
    ∧ FX_Catalog caps ∈ paying
    ∧ passes req auth c e caps
    ∧ (∀ t, ea_use_token auth = Some t → ∃ vt t', FX_Consumed vt (ut_id t) t' ∈ paying ∧ spent vt (ut_id t) t')
    ∧ name = asked_plugin req ∧ pr_action rq = asked_action req
    ∧ apply_workspace_scope_to_params (er_params req) (cr_metadata c) = Ok (pr_params rq)
    ∧ count is_execute tr = 1%nat.
Proof.
  intros E Htr Hin. eapply gated_mediated; [|exact Hin]. exact (trace_of _ _ _ _ _ _ (tr_gated req auth via entry) E Htr).
Qed.

(** C10: A failed run says truthfully whether the plugin was called. It is called at most
    once; a run that answers called it; an error marked committed means it was called and
    is never retryable, every other error means it was not. *)
Theorem error_says_whether_it_ran authorized w r w' tr :
  run_action egress averin authorized w = (r, w') → w_trace w' = w_trace w ++ tr →
  count is_execute tr = match r with Ok _ => 1%nat | Err e => if re_committed e then 1%nat else 0%nat end
  ∧ ∀ e, r = Err e → re_committed e = true → re_retryable e = false.
Proof.
  intros E Htr. set (id := ay_use_token_id (au_payload authorized)).
  assert (Hcount : ∀ n k l, ledger id n k l → count is_execute l = n) by (by intros ? ? ? []).
  destruct (trace_of _ _ _ _ _ _ (tr_run_action authorized) E Htr)
    as [[Hp (e & -> & He)]|(b & pay & a & -> & Hb & Hpay & [[Hp (e & -> & He)]|(ready & _ & Hd)])].
  - rewrite He, (plain_execute _ Hp). split; [done|]. intros ? [= <-]. congruence.
  - rewrite He, !count_app, (benign_execute _ Hb), (plain_execute _ Hp), (Hcount _ _ _ (ledger_reserved _ _ Hpay)).
    split; [done|]. intros ? [= <-]. congruence.
  - rewrite !count_app, (benign_execute _ Hb), (Hcount _ _ _ (ledger_reserved _ _ Hpay)),
      (Hcount _ _ _ (ledger_dispatched id _ _ _ _ _ Hd)).
    destruct Hd as (? & ? & ? & _ & _ & _ & _ & Hr). destruct r as [|e]; [done|]. destruct Hr as [-> ?].
    split; [done|]. by intros ? [= <-].
Qed.

(** A request spends at most one use, only of its own token, and only a use that
    token had; nothing runs and no approval is opened on a token that was not charged. *)
Theorem request_spends_one_use req auth via entry w r w' tr :
  execute_gated_inner clk cfg acfg egress averin has_notifiers req auth via entry w = (r, w') →
  w_trace w' = w_trace w ++ tr →
  (count is_consumed tr ≤ 1)%nat
  ∧ (∀ v id t, FX_Consumed v id t ∈ tr → (ut_id <$> ea_use_token auth) = Some id ∧ spent v id t)
  ∧ (∀ t, ea_use_token auth = Some t →
       (∃ name rq, FX_Execute name rq ∈ tr) ∨ (∃ a, r = Ok (EO_Pending a)) → count is_consumed tr = 1%nat).
Proof.
  intros E Htr. set (id := ut_id <$> ea_use_token auth).
  assert (Hle : (one_use id ≤ 1)%nat) by (destruct id; cbn; lia).
  assert (Hone : ∀ t, ea_use_token auth = Some t → one_use id = 1%nat) by (intros t Ht; subst id; by rewrite Ht).
  destruct (trace_of _ _ _ _ _ _ (tr_gated req auth via entry) E Htr) as [(a & _ & Ho)|[(x & -> & Ha)|Hran]].
  - apply ledger_opened in Ho as (_ & -> & Hs). eauto.
  - destruct (ledger_abandoned _ _ Ha) as [Hl|Hl]; pose proof Hl as (_ & -> & Hs);
      (split_and!; [exact Hle || lia|done|]); intros t Ht [(name & rq & Hin)|(a & [=])]; exfalso;
      by eapply execute_not_in; [exact Hl|..].
  - apply ledger_ran in Hran as (_ & -> & Hs). eauto.
Qed.

(** C12: What a request answers shows no form of the secrets of the credential it was
    given: not in the body, not in a header, whatever the plugin answered. *)
Theorem answer_is_confined req auth via entry w resp w' :
  execute_gated_inner clk cfg acfg egress averin has_notifiers req auth via entry w = (Ok (EO_Completed resp), w') →
  ∃ c, FX_Resolved (er_credential req) c ∈ w_trace w'
  ∧ ∀ form, form ∈ derive_secret_forms (secret_material (cr_data c)) ∨ form ∈ secret_material (cr_data c) → form ≠ "" →
      ¬ appears (as_bytes form) (resp_body resp)
      ∧ ∀ k v, resp_headers resp !! k = Some v → ¬ appears (as_bytes form) (as_bytes v).
Proof.
  intros E. destruct (tr_gated req auth via entry w) as (tr & Htr & H). rewrite E in Htr, H. cbn in Htr, H.
  destruct H as [(a & [=] & _)|[(x & [=] & _)|Hran]].
  destruct Hran as (p & ready & adm & b & pay & a & c & r0 & -> & _ & _ & Hadm & _ & _ & Hd & Hr).
  destruct r0 as [resp'|]; [injection Hr as <-|by destruct Hr].
  destruct Hd as (? & ? & ? & _ & _ & _ & _ & answer & _ & ->).
  destruct Hadm as (b1 & b2 & b3 & b4 & e & caps & -> & _). exists (ay_credential p). split; [rewrite Htr; set_solver|].
  intros form Hform Hne. apply confine_shows_no_form; [|done].
  assert (Hsub : ∀ x, x ∈ secret_material (cr_data (ay_credential p)) →
    x ∈ scrub_set_with_minted (secret_material (cr_data (ay_credential p))) (secret_material <$> answer.2)).
  { intros y Hy. destruct answer.2; cbn; set_solver. }
  destruct Hform as [Hform|Hform]; [left; by eapply derived_forms_mono|right; auto].
Qed.
End gateway.
