(* ===== verification/GatewayResumeFacts.v ===== *)
(** * What runs of an approved request

    Triples for [GatewayResume], and the theorem they give: an approved request is
    dispatched only out of a fresh claim, and only if everything it was approved under
    still holds ([resumed_dispatch_is_still_authorized]). *)

From stdpp Require Import base gmap strings list.
From Stdlib Require Import Ascii ZArith Lia.
From S2P Require Import Prelude RustStr PolicyTypes Precedence UrlCanon RateLimit Json Kernel PolicyEngine KillFence.
From S2P Require Import Outbox Approval ApprovalStore ApprovalExecution Egress Tokens Auth Credential HttpPlugin VaultCollections.
From S2P Require Import Capability Catalog Sessions GatewayBase Gateway GatewayResume GatewayHalt GatewayFacts.

Open Scope Z_scope.

Section resume_facts.
Context {UC : UrlCrate} {GC : GlobCrate} {EC : UrlEncodingCrate} {SJ : SerdeJson} {SH : Sha256}.
Context {RC : RegexCrate} {EN : Encoders} {HC : HttpCrates} {EV : Environment}.
Context (clk : Clock) (cfg : GatewayConfig) (egress : list EgressRule) (averin : option AverinConfig).
Context (show : VultrinoError → string).

#[local] Hint Resolve benign_plain all_plain_app all_plain_cons all_plain_nil : gateway.
#[local] Hint Extern 1 (plain _ = true) => reflexivity : gateway.

(** What must still hold of the request [a] when it is run with the record [c], judged
    by [e], under the catalog [caps], on the grant [g]. *)
Definition still_authorized (a : ApprovalRequest) (g : Granted) (c : Credential) (e : PolicyEngine) (caps : list Capability)
    : Prop :=
  ap_credential_authority a = Some (authority_of c) ∧ tenant_may_act (ap_tenant a) (credential_tenant c) = true
  ∧ catalog_current cfg a (authority_class (resolve_irreversibility cfg caps (ap_credential a) (ap_action a) (ap_action_label a))) = true
  ∧ is_deny (ev_decision (evaluate_readonly_for_admission clk e (resume_query a c)).1) = false
  ∧ ∃ cx d, dispatched_binding (resume_payload cfg averin a c cx (eb_epoch (gr_binding g))) = Some d
            ∧ same_binding (gr_binding g) d.

(** The trace of a resume up to its dispatch. *)
Definition readmitted (a : ApprovalRequest) (g : Granted) (c : Credential) (tr : list Effect) : Prop :=
  ∃ b1 b2 b3 b4 e caps,
    tr = b1 ++ FX_Resolved (ap_credential a) c :: b2 ++ FX_Catalog caps :: b3 ++ FX_Rejudged e (resume_query a c) :: b4
    ∧ all_benign b1 ∧ all_benign b2 ∧ all_benign b3 ∧ all_benign b4 ∧ still_authorized a g c e caps.

Lemma tr_rejudge {E} q :
  rejudge (E := E) clk q ⊨ (λ r tr, ∃ e, r = Ok (evaluate_readonly_for_admission clk e q).1 ∧ tr = [FX_Rejudged e q]).
Proof.
  intros w. exists [FX_Rejudged (p_engine (w_proc w)) q]. unfold rejudge, m_bind, get, emit, update, m_ret. cbn.
  destruct (evaluate_readonly_for_admission clk (p_engine (w_proc w)) q) as [ev e'] eqn:E'. cbn.
  split; [done|]. exists (p_engine (w_proc w)). by rewrite E'.
Qed.
Lemma tr_resume_judge a c :
  resume_judge clk a c ⊨ (λ r tr,
    match r with
    | Ok ev => ∃ e, tr = [FX_Rejudged e (resume_query a c)] ∧ ev = (evaluate_readonly_for_admission clk e (resume_query a c)).1
                    ∧ is_deny (ev_decision ev) = false
    | Err re => all_plain tr ∧ re_committed re = false
    end).
Proof.
  eapply tr_bind; [apply tr_rejudge|intros e tr (? & [=] & _)|]. intros ev tr (e & [= ->] & ->).
  destruct (ev_decision _) as [|reason|] eqn:E; [apply tr_ret; exists e; by rewrite E| |apply tr_ret; exists e; by rewrite E].
  apply tr_update_then. eapply (tr_mild _ _ _ (λ _, False)); [apply mild_emit_policy_denied|done|]. intros _ b Hb _.
  apply tr_fail. split; [auto with gateway|done].
Qed.
Lemma tr_check_catalog a :
  check_catalog_authority cfg a ⊨ (λ r tr,
    match r with
    | Ok _ => ∃ caps, tr = [FX_Catalog caps]
        ∧ catalog_current cfg a (authority_class (resolve_irreversibility cfg caps (ap_credential a) (ap_action a) (ap_action_label a))) = true
    | Err re => all_plain tr ∧ re_committed re = false
    end).
Proof.
  eapply tr_bind; [apply tr_catalog|intros e tr [([=] & _)|(? & [=] & _)]|].
  intros resolution tr [([= ->] & ->)|(caps & [= ->] & ->)]; [by apply tr_fail; auto with gateway|].
  destruct (catalog_current _ _ _) eqn:E; [apply tr_ret; by exists caps|apply tr_fail; auto with gateway].
Qed.
Lemma unsent_check_recipe a : gentle (check_recipe_authority cfg a) (λ _, True) (λ e, re_committed e = false).
Proof.
  eapply mild_bind; [apply mild_fetch|]. intros [answer|] _; [|by apply mild_fail].
  destruct (_ || _); [by apply mild_ret|by apply mild_fail].
Qed.
Lemma mild_check_credential a c :
  gentle (check_credential_authority a c)
    (λ _, ap_credential_authority a = Some (authority_of c) ∧ tenant_may_act (ap_tenant a) (credential_tenant c) = true)
    (λ e, re_committed e = false).
Proof.
  unfold check_credential_authority. cbv zeta. case_bool_decide; cbn [andb]; [|by apply mild_fail].
  destruct (tenant_may_act _ _) eqn:E; [by apply mild_ret|by apply mild_fail].
Qed.

(** A resume that reached no plugin, or one that was readmitted and called it. *)
Definition resumed (a : ApprovalRequest) (g : Granted) (r : result ExecuteResponse RunError) (tr : list Effect) : Prop :=
  ∃ c cx pre b body ready, let p := resume_payload cfg averin a c cx (eb_epoch (gr_binding g)) in
    tr = pre ++ b ++ body ∧ readmitted a g c pre ∧ all_benign b ∧ readied p ready
    ∧ dispatched egress p ready.1.1 ready.1.2 r body.

Lemma payload_takes_no_token a c cx epoch : ay_use_token_id (resume_payload cfg averin a c cx epoch) = None.
Proof. unfold resume_payload. by destruct (parse_action _). Qed.
Lemma stopped_plain {A} e tr : all_plain tr → re_committed e = false → ended_unsent (A := A) (Err e) tr.
Proof. intros ? ?. split; eauto. Qed.
Ltac stopped_here := apply stopped_plain; [auto 20 with gateway|done].

Lemma tr_resume a g :
  resume_approved clk cfg egress averin a g ⊨ (λ r tr, ended_unsent r tr ∨ resumed a g r tr).
Proof.
  unfold resume_approved. cbv zeta. eapply tr_bind with (P := λ r tr, match r with
    | Ok c => tr = [FX_Resolved (ap_credential a) c] | Err e => tr = [] ∧ re_committed e = false end).
  { eapply tr_map_err; [apply tr_resolve_noted|done|done]. }
  { intros e tr [-> ?]. left. stopped_here. }
  intros c tr ->. apply tr_tick_then. intros n.
  eapply (tr_mild _ _ (λ _, True) (λ e, re_committed e = false)).
  { apply mild_map_err. eapply mild_weaken; [apply mild_off_channel|done|done]. }
  { intros e tr ? ?. left. stopped_here. }
  intros _ b1 Hb1 _. eapply tr_mild; [apply mild_check_credential|intros e tr ? ?; left; stopped_here|].
  intros u b2 Hb2 [Hauth Htenant]. eapply tr_bind; [apply tr_check_catalog|intros e tr [? ?]; left; stopped_here|].
  intros _ tr (caps & -> & Hcat).
  eapply tr_mild; [apply unsent_check_recipe|intros e tr ? ?; left; stopped_here|]. intros _ b3 Hb3 _.
  eapply tr_bind; [apply tr_resume_judge|intros e tr [? ?]; left; stopped_here|].
  intros ev tr (e & -> & -> & Hdeny). apply tr_tick_then. intros m.
  destruct (approved _ _ _) as [permit|] eqn:Eperm; [|apply tr_fail; left; stopped_here].
  destruct (authorize _ _) as [ready|] eqn:Eauth; [|apply tr_fail; left; stopped_here].
  destruct (approved_binds _ _ _ _ _ _ Eperm Eauth) as (_ & _ & _ & d & Hd & _ & Hbind).
  apply authorize_payload in Eauth. eapply tr_weaken; [apply tr_run_action|]. rewrite Eauth. intros r tr Htr.
  set (pre := [FX_Resolved (ap_credential a) c] ++ b1 ++ b2 ++ [FX_Catalog caps] ++ b3 ++ [FX_Rejudged e (resume_query a c)]).
  assert (Hpre : readmitted a g c pre).
  { exists [], (b1 ++ b2), b3, [], e, caps. subst pre. rewrite <- !app_assoc. split_and!; auto with gateway.
    split_and!; eauto. }
  assert (Hplain : all_plain pre) by (subst pre; auto 20 with gateway).
  replace (_ ++ _) with (pre ++ tr) by (subst pre; by rewrite <- !app_assoc).
  destruct Htr as [[? (x & -> & ?)]|(b & pay & body & -> & Hb & Hpay & Hd')]; [left; stopped_here|].
  rewrite payload_takes_no_token in Hpay. cbn in Hpay. subst pay.
  destruct Hd' as [[? (x & -> & ?)]|(rd & Hrd & Hdisp)]; [left; stopped_here|].
  right. by exists c, (context_new (env_uuid n) (env_now n)), pre, b, body, rd.
Qed.

(** ** Polling an approval *)

(** The claim of a record that was approved, unexecuted and clear. *)
Definition claims (id : string) (cl : ExecutionClaim) : Prop :=
  ∃ now v a, record_of id v = Some a ∧ claim_facts now v a cl.
Lemma tr_claim id :
  on_vault (λ now, claim_approval_for_execution now id) ⊨ (λ r tr, tr = [] ∧ ∀ cl, r = Ok (Some cl) → claims id cl).
Proof.
  apply tr_locked; [done|]. intros now s cl. cbn.
  destruct (claim_approval_for_execution now id (sto_vault s)) as [[[cl'|]|] v'] eqn:E; cbn; [|done..].
  intros [= <-]. apply claim_granted in E as (a & ? & ? & _). by exists now, (sto_vault s), a.
Qed.
Lemma commit_silent id cl r : silent (commit_claim id cl r).
Proof.
  apply silent_bind; [apply silent_map_err, locked_store_mutate_silent|]. intros []; [by apply tr_ret|].
  apply silent_bind; [apply silent_map_err, cache_read_silent|]. intros a. by apply tr_ret.
Qed.

(** The record a poll found is the caller's own, when there is one to ask: opened by it, or by
    one of its label and tenant. *)
Definition owns_it (ca : ApprovalCaller) (a : ApprovalRequest) : Prop :=
  rq_principal_id (ap_requester a) = Some (ca_principal_id ca)
  ∨ ∃ label, non_blank (ca_agent_label ca) = Some label ∧ non_blank (ap_agent_label a) = Some label
             ∧ non_blank (ca_tenant ca) = non_blank (ap_tenant a).
Lemma owns_spec ca a : owns ca a = true → owns_it ca a.
Proof.
  unfold owns, owns_it. destruct (bool_decide_reflect (rq_principal_id (ap_requester a) = Some (ca_principal_id ca))) as [|_]; [by left|].
  destruct (non_blank (ca_agent_label ca)) as [l|], (non_blank (ap_agent_label a)) as [l'|]; try done.
  intros [->%String.eqb_eq ?%bool_decide_eq_true]%andb_true_iff. right. by exists l'.
Qed.
Definition owned (id : string) (caller : option ApprovalCaller) (tr : list Effect) : Prop :=
  ∀ ca, caller = Some ca → ∃ v a, FX_Polled v ∈ tr ∧ v_approvals v !! id = Some a ∧ owns_it ca a.
(** A poll that called no plugin, or one that claimed the record and ran it. *)
Definition polled (id : string) (caller : option ApprovalCaller) (tr : list Effect) : Prop :=
  ∃ b cl r body c, tr = b ++ FX_Claimed cl :: body ++ c ∧ all_benign b ∧ all_benign c ∧ owned id caller b ∧ claims id cl
  ∧ cl_stale_retake cl = false ∧ resumed (cl_approval cl) (cl_grant cl) r body.
Lemma tr_poll id caller :
  check_and_resume_approval clk cfg egress averin show id caller ⊨ (λ _ tr, all_plain tr ∨ polled id caller tr).
Proof.
  apply tr_try_quiet; [apply locked_read_silent|]. intros _.
  apply tr_quiet; [apply silent_map_err, cache_read_silent|auto with gateway|]. intros v. apply tr_emit_then.
  destruct (v_approvals v !! id) as [a|] eqn:Ea; [|apply tr_fail; left; auto with gateway].
  eapply (tr_mild _ _ (λ _, ∀ ca, caller = Some ca → owns ca a = true) (λ _, True)); [|intros; left; auto with gateway|].
  { destruct caller as [ca|]; [|by apply mild_ret]. destruct (owns ca a) eqn:Eo; [apply mild_ret; by intros ? [= <-]|].
    apply mild_refuse. }
  intros _ b0 Hb0 Hown. set (b := FX_Polled v :: b0).
  apply (tr_weaken _ (λ _ tr, all_plain (b ++ tr) ∨ polled id caller (b ++ tr))); [|done].
  assert (Hb : all_benign b) by (constructor; done).
  assert (Hmine : owned id caller b) by (intros ca Hca; exists v, a; split_and!; [by left|done|by apply owns_spec, Hown]). eapply tr_bind; [apply silent_map_err, locked_store_mutate_silent|intros e tr ->; auto with gateway|].
  intros a' tr ->. destruct (_ || _); [apply tr_ret; auto with gateway|].
  eapply tr_bind with (P := λ r tr, tr = [] ∧ ∀ cl, r = Ok (Some cl) → claims id cl).
  { eapply tr_map_err; [apply tr_claim|naive_solver|naive_solver]. }
  { intros e tr [-> _]. auto with gateway. }
  intros [cl|] tr [-> Hcl]; cycle 1.
  { eapply tr_bind; [apply silent_map_err, cache_read_silent|intros e tr ->; auto with gateway|].
    intros s tr ->. apply tr_ret. auto with gateway. }
  specialize (Hcl cl eq_refl). apply tr_emit_then. destruct (cl_stale_retake cl) eqn:Estale.
  { eapply tr_weaken; [apply commit_silent|]. intros r tr ->. left. auto with gateway. }
  eapply tr_try_then; [apply tr_resume|]. intros r body Hbody.
  eapply (tr_mild _ _ (λ _, True) (λ _, False)); [|done|].
  { destruct r; [by apply mild_ret|]. eapply mild_bind; [apply mild_note_run|]. intros e' _. by apply mild_ret. }
  intros outcome c Hc _. eapply tr_weaken; [apply commit_silent|]. intros r' tr ->. rewrite app_nil_r.
  destruct Hbody as [[? _]|Hres]; [left; auto 10 with gateway|]. right. by exists b, cl, r, body, c.
Qed.

(** ** Theorem *)

Lemma readmitted_plain a g c tr : readmitted a g c tr → all_plain tr.
Proof. intros (b1 & b2 & b3 & b4 & e & caps & -> & ? & ? & ? & ? & _). auto 20 with gateway. Qed.

(** What ran out of a poll: the claimed record, authorized again. *)
Definition resumed_call (id : string) (tr : list Effect) (name : string) (rq : PluginRequest) : Prop :=
  ∃ cl before v after e caps,
    let a := cl_approval cl in
    let c := pr_credential rq in
    let k := {| kq_credential_alias := cr_alias c; kq_principal := policy_principal a;
                kq_admitted_epoch := default 0 (ap_kill_epoch_at_open a) |} in
    tr = before ++ FX_Fence v k :: FX_Execute name rq :: after ∧ kill_fence_check v k = KF_Clear
    ∧ FX_Claimed cl ∈ before ∧ claims id cl ∧ cl_stale_retake cl = false
    ∧ FX_Resolved (ap_credential a) c ∈ before ∧ FX_Catalog caps ∈ before
    ∧ FX_Rejudged e (resume_query a c) ∈ before ∧ still_authorized a (cl_grant cl) c e caps
    ∧ (name, pr_action rq) = parse_action (ap_action a)
    ∧ apply_workspace_scope_to_params (ap_params a) (cr_metadata c) = Ok (pr_params rq)
    ∧ count is_execute tr = 1%nat ∧ count is_consumed tr = 0%nat.
Lemma polled_call id caller tr name rq :
  polled id caller tr → FX_Execute name rq ∈ tr → resumed_call id tr name rq ∧ owned id caller tr.
Proof.
  intros (b & cl & r0 & body & post & -> & Hb & Hpost & Hown & Hcl & Hstale & Hres) Hin.
  split; [|intros ca Hca; destruct (Hown ca Hca) as (v & a & ? & ? & ?); exists v, a; split_and!; [set_solver|done..]].
  destruct Hres as (c & cx & pre & b' & disp & ready & -> & Hpre & Hb' & Hready & Hdisp). cbv zeta in *.
  set (p := resume_payload cfg averin (cl_approval cl) c cx (eb_epoch (gr_binding (cl_grant cl)))) in *.
  assert (Hpp : all_plain (b ++ FX_Claimed cl :: pre ++ b')).
  { apply all_plain_app; [auto with gateway|]. apply all_plain_cons; [done|].
    apply all_plain_app; [by eapply readmitted_plain|auto with gateway]. }
  assert (Hl : ledger None 1 0 ((b ++ FX_Claimed cl :: pre ++ b') ++ disp ++ post)).
  { apply plain_ledger; [done|]. apply ledger_then_plain; [by eapply ledger_dispatched|auto with gateway]. }
  replace (b ++ FX_Claimed cl :: (pre ++ b' ++ disp) ++ post) with ((b ++ FX_Claimed cl :: pre ++ b') ++ disp ++ post) in *
    by (by rewrite <- !app_assoc; cbn; rewrite <- !app_assoc).
  destruct (dispatched_call _ _ _ _ _ _ _ _ _ Hdisp (plain_not_in (FX_Execute name rq) _ Hpp eq_refl) (benign_plain _ Hpost) Hin)
    as (bf & v & af & Etr & Hv & -> & ->). rewrite Etr in Hl |- *.
  destruct Hpre as (b1 & b2 & b3 & b4 & e & caps & -> & _ & _ & _ & _ & Hstill).
  exists cl, ((b ++ FX_Claimed cl :: (b1 ++ FX_Resolved (ap_credential (cl_approval cl)) c :: b2 ++ FX_Catalog caps
    :: b3 ++ FX_Rejudged e (resume_query (cl_approval cl) c) :: b4) ++ b') ++ bf), v, af, e, caps.
  cbv zeta. destruct Hl as (H1 & H2 & _). unfold plugin_request, fence_query in *. cbn [pr_credential pr_action pr_params].
  subst p. revert Hready Hv H1 H2. unfold resume_payload. destruct (parse_action _) as [plugin act] eqn:Epa. cbn.
  intros [_ Hready] Hv H1 H2. split_and!; first [done|set_solver|apply Hready].
Qed.

(** C6: An approved request runs only out of a claim, and only as approved. If polling an
    approval calls a plugin, the poll took a fresh claim on a record that was approved
    and not yet executed; the name still resolves to the credential record the people
    approved, of the same tenant; the catalog it re-read puts the action in the class
    they approved; the policy engine, judging it again, did not deny it; the grant binds
    exactly the payload; the kill fence in the step before was clear for work admitted
    when the request was opened; and the plugin got the approved action and params. *)
Theorem resumed_dispatch_is_still_authorized id caller w r w' tr name rq :
  check_and_resume_approval clk cfg egress averin show id caller w = (r, w') →
  w_trace w' = w_trace w ++ tr → FX_Execute name rq ∈ tr →
  ∃ cl before v after e caps,
    let a := cl_approval cl in
    let c := pr_credential rq in
    let k := {| kq_credential_alias := cr_alias c; kq_principal := policy_principal a;
                kq_admitted_epoch := default 0 (ap_kill_epoch_at_open a) |} in
    tr = before ++ FX_Fence v k :: FX_Execute name rq :: after ∧ kill_fence_check v k = KF_Clear
    ∧ FX_Claimed cl ∈ before ∧ claims id cl ∧ cl_stale_retake cl = false
    ∧ FX_Resolved (ap_credential a) c ∈ before ∧ FX_Catalog caps ∈ before
    ∧ FX_Rejudged e (resume_query a c) ∈ before ∧ still_authorized a (cl_grant cl) c e caps
    ∧ (name, pr_action rq) = parse_action (ap_action a)
    ∧ apply_workspace_scope_to_params (ap_params a) (cr_metadata c) = Ok (pr_params rq)
    ∧ count is_execute tr = 1%nat ∧ count is_consumed tr = 0%nat.
Proof.
  intros E Htr Hin. destruct (trace_of _ _ _ _ _ _ (tr_poll id caller) E Htr) as [Hp|Hp].
  { exfalso. by apply (plain_not_in _ _ Hp) in Hin. }
  exact (proj1 (polled_call _ _ _ _ _ Hp Hin)).
Qed.
End resume_facts.
