(* ===== verification/LlmProxy.v ===== *)
(** * The model call the proxy makes

    Models the middle of [llm_proxy_impl] of [src/src/web/llm_proxy.rs]: from the resolved
    channel to the request that is executed.  The checks come in the source's order (feature
    flag, upstream URL, query, body, allowlist, price, price modifiers), then the rewrites
    (ceiling, reasoning effort, stream flags).

    Three theorems speak about the request as it is sent, after every rewrite: its model is
    allowed and priced and every field of its body has a price ([sent_model_call_is_priced]);
    its output is bounded by the channel's ceiling ([sent_model_call_is_bounded]); it goes to
    the channel's own origin and path, without the caller's credentials
    ([sent_model_call_stays_on_channel]).  A fourth shows where metering falls short of it:
    the estimate of a cut stream does not see how many choices were asked for
    ([estimate_ignores_choices]). *)

From stdpp Require Import base gmap strings list.
From Stdlib Require Import Ascii ZArith Lia.
From S2P Require Import Prelude RustStr BTree Json UrlCanon Egress Ssrf HttpPlugin Capability CapabilityFacts Catalog.
From S2P Require Import PolicyEngine GatewayBase RateCard Metering LlmGate.

Open Scope Z_scope.

(** [Url::query_pairs_mut] with [append_pair] for each pair. *)
Class UrlQuery {UC : UrlCrate} := { url_append_pairs : Url → list (string * string) → Url }.

(** [LlmProxyConfig] without the rate card, whose current value is an argument. *)
Record LlmProxyConfig := {
  lc_streaming_enabled : bool;
  lc_inject_stream_usage : bool;
  lc_stream_idle_timeout_secs : Z;
  lc_stream_total_timeout_secs : Z;
  lc_stream_max_bytes : Z;
  lc_stream_max_line_bytes : nat;
  lc_require_priced_model : bool;
  lc_azure_deployments : gmap string string;
}.

(** Why the model of a route cannot be priced. *)
Inductive RouteRefusal := RR_Disagrees (named model : string) | RR_Unroutable (why : Unroutable).

(** Why a call was not made; the class it is noted under, the status and the error type. *)
Inductive LlmRefusal :=
| LX_ProviderDisabled (protocol : string)
| LX_NoUpstream
| LX_CredentialQuery (key : string)
| LX_BodyNotJson
| LX_ModelNotAllowed (m : option string)
| LX_ModelUnpriced (m : option string) (why : option RouteRefusal)
| LX_ModifierUnpriced (m : Modifier).
Definition call_refusal_class (r : LlmRefusal) : option RefusalClass :=
  match r with
  | LX_ProviderDisabled _ => Some RC_ProviderDisabled
  | LX_ModelNotAllowed _ => Some RC_NotGranted
  | LX_ModelUnpriced _ _ => Some RC_ModelUnpriced
  | LX_ModifierUnpriced _ => Some RC_ModifierUnpriced
  | LX_NoUpstream | LX_CredentialQuery _ | LX_BodyNotJson => None
  end.
Definition call_refusal_status (r : LlmRefusal) : Z * string :=
  match r with
  | LX_ProviderDisabled _ => (403, "provider_feature_disabled")
  | LX_NoUpstream => (500, "api_error")
  | LX_CredentialQuery _ | LX_BodyNotJson => (400, "invalid_request_error")
  | LX_ModelNotAllowed _ => (403, "permission_error")
  | LX_ModelUnpriced _ _ => (403, "model_unpriced")
  | LX_ModifierUnpriced _ => (403, "modifier_unpriced")
  end.

(** What is executed. *)
Record ModelCall := {
  mc_upstream : string;
  mc_headers : gmap string string;
  mc_body : option Value;
  mc_provider : string;
  mc_region : option string;
  mc_channel : string;
  mc_model : option string;
  mc_streaming : bool;
}.

Definition AUTH_QUERY_KEYS : list string :=
  ["key"; "api_key"; "apikey"; "access_token"; "token"; "sig"; "signature"; "x-goog-api-key"].

(** The model a body names. *)
Definition body_model (body : option Value) : option string := (body ≫= json_get "model") ≫= as_str.

(** The model that is gated, and why it cannot be priced. *)
Definition gated_route (route : UrlModel) (named : option string) : option string * option RouteRefusal :=
  match route with
  | UM_BodyPicks => (named, None)
  | UM_Names model body_ok =>
      (Some model,
       match named with
       | Some b => if negb (String.eqb b model) && negb (bool_decide (Some b = body_ok)) then Some (RR_Disagrees b model) else None
       | None => None
       end)
  | UM_Unresolvable why => (named, Some (RR_Unroutable why))
  end.
Definition route_allowed (cap : Capability) (route : UrlModel) : bool :=
  match route with
  | UM_Names model body_ok =>
      llm_model_allowed cap (Some model) || holds_some (λ d, llm_model_allowed cap (Some d)) body_ok
  | _ => true
  end.

(** The stream flag of a body, and taking the flags off. *)
Definition streaming_requested (body : Value) : bool := default false (json_get "stream" body ≫= as_bool).
Definition strip_stream_flags (body : Value) : Value :=
  match body with JObject obj => JObject (obj_remove "stream_options" (obj_remove "stream" obj)) | _ => body end.

Section prepare.
Context {UC : UrlCrate} {NS : NetStd} {EC : UrlEncodingCrate} {UQ : UrlQuery} {JR : JsonReader}.
Context (env : string → option string) (cfg : LlmProxyConfig) (card : option RateCard).

(** The upstream URL with the caller's query; [query] is the map in iteration order. *)
Definition credential_query_key (query : list (string * string)) : option string :=
  fst <$> List.find (λ kv : string * string, existsb (λ blocked, eq_ignore_ascii_case kv.1 blocked) AUTH_QUERY_KEYS) query.
Definition append_query (upstream : string) (query : list (string * string)) : result string LlmRefusal :=
  match query with
  | [] => Ok upstream
  | _ =>
      match credential_query_key query with
      | Some key => Err (LX_CredentialQuery key)
      | None =>
          Ok match url_parse upstream with Some u => url_as_str (url_append_pairs u query) | None => upstream end
      end
  end.

(** [serde_json::from_slice] of the body, none when it is empty. *)
Definition read_body (body : bytes) : result (option Value) LlmRefusal :=
  match body with
  | [] => Ok None
  | _ =>
      match (if is_utf8 body then json_from_str (of_bytes body) else None) with
      | Some v => Ok (Some v)
      | None => Err LX_BodyNotJson
      end
  end.

(** The price gate. *)
Definition price_gate (protocol upstream : string) (headers : HeaderMap) (body : option Value)
    (gated : option string * option RouteRefusal) : result unit LlmRefusal :=
  match body with
  | None => Ok tt
  | Some b =>
      if negb (lc_require_priced_model cfg) then Ok tt
      else
        let? _ := check (negb (bool_decide (is_Some gated.2)) && holds_some (handle_covers card) gated.1)
                    (LX_ModelUnpriced gated.1 gated.2) in
        match unpriced_modifier protocol upstream b with
        | Some m => Err (LX_ModifierUnpriced m)
        | None => match unpriced_beta_header headers with Some m => Err (LX_ModifierUnpriced m) | None => Ok tt end
        end
  end.

(** The ceiling and the effort. *)
Definition own_fields (cap : Capability) (protocol upstream : string) (body : Value) : Value :=
  let body := match llm_max_output_tokens cap with
              | Some ceiling => clamp_max_output_tokens body ceiling (default_output_token_field protocol upstream)
              | None => body
              end in
  match llm_reasoning_effort cap, reasoning_effort_shape protocol upstream with
  | Some effort, Some shape => apply_reasoning_effort body effort shape
  | _, _ => body
  end.

(** The stream flags; whether the answer is streamed. *)
Definition stream_flags (provider upstream : string) (body : Value) : bool * Value :=
  let requested := streaming_requested body in
  let use_streaming := requested && lc_streaming_enabled cfg in
  let body := if requested && negb (lc_streaming_enabled cfg) then strip_stream_flags body else body in
  let '(nvidia_tool_stream, body) :=
    if use_streaming then normalize_nvidia_tool_stream_options provider body else (false, body) in
  (use_streaming,
   if use_streaming && lc_inject_stream_usage cfg && is_openai_chat_endpoint upstream && negb nvidia_tool_stream
   then (maybe_inject_stream_usage body).2 else body).

(** From the resolved channel to the call. *)
Definition llm_prepare (cap : Capability) (llm : LlmProxy) (channel : option string) (path : string)
    (query : list (string * string)) (headers : HeaderMap) (body : bytes) : result ModelCall LlmRefusal :=
  let protocol := lp_protocol llm in
  let? _ := check (provider_feature_enabled env protocol) (LX_ProviderDisabled protocol) in
  let provider := default protocol (lp_provider llm) in
  let? joined := ok_or (llm_upstream_url cap path) LX_NoUpstream in
  let? upstream := append_query joined query in
  let? request := read_body body in
  let named := body_model request in
  let route := match request with
               | Some _ => url_model protocol upstream named (lc_azure_deployments cfg)
               | None => UM_BodyPicks
               end in
  let? _ := check (match route with UM_Names _ _ => true | _ => llm_model_allowed cap named end) (LX_ModelNotAllowed named) in
  let gated := gated_route route named in
  let? _ := check (route_allowed cap route) (LX_ModelNotAllowed gated.1) in
  let? _ := price_gate protocol upstream headers request gated in
  let rewritten := (λ b, stream_flags provider upstream (own_fields cap protocol upstream b)) <$> request in
  Ok {| mc_upstream := upstream;
        mc_headers := forward_provider_headers headers (<["Content-Type" := "application/json"]> ∅);
        mc_body := snd <$> rewritten; mc_provider := provider; mc_region := lp_region llm;
        mc_channel := default (cap_id cap) channel; mc_model := gated.1;
        mc_streaming := match rewritten with Some (s, _) => s | None => false end |}.

(** The [ExecuteRequest] of a call. *)
Definition json_map (m : gmap string string) : Value :=
  JObject (foldr (λ kv o, obj_insert kv.1 (JString kv.2) o) [] (map_to_list m)).
Definition json_opt (o : option string) : Value := match o with Some s => JString s | None => JNull end.
Definition call_params (c : ModelCall) : Value :=
  JObject (foldr (λ kv o, obj_insert kv.1 kv.2 o) []
    [("method", JString "POST"); ("url", JString (mc_upstream c)); ("headers", json_map (mc_headers c));
     ("body", default JNull (mc_body c)); ("query", JObject []); ("_feir_provider", JString (mc_provider c));
     ("_feir_region", json_opt (mc_region c)); ("_feir_channel", JString (mc_channel c));
     ("_feir_request_model", json_opt (mc_model c))]).
Definition call_request (cap : Capability) (c : ModelCall) : ExecuteRequest :=
  {| er_credential := cap_credential_ref cap; er_action := cap_action cap; er_params := call_params c |}.
End prepare.

(** ** Edits of a body *)

(** [m'] is [m] with entries of [I] written and entries of [R] removed. *)
Definition edits (I R : list string) (m m' : Object) : Prop :=
  (∀ k v, (k, v) ∈ m' → k ∈ I ∨ (k, v) ∈ m) ∧ (∀ k, k ∉ I → k ∉ R → obj_get k m' = obj_get k m).
Definition edits_body (I R : list string) (b b' : Value) : Prop :=
  match b with JObject m => ∃ m', b' = JObject m' ∧ edits I R m m' | _ => b' = b end.

Lemma edits_refl I R m : edits I R m m.
Proof. split; auto. Qed.
Lemma edits_trans I R m1 m2 m3 : edits I R m1 m2 → edits I R m2 m3 → edits I R m1 m3.
Proof.
  intros [H1 H2] [H3 H4]. split; [intros k v [?|?]%H3; [by left|auto]|]. intros k HI HR. by rewrite H4, H2.
Qed.
Lemma edits_mono I R I' R' m m' : I ⊆ I' → R ⊆ R' → edits I R m m' → edits I' R' m m'.
Proof. intros HI HR [H1 H2]. split; [intros k v [?|?]%H1; auto|]. intros k ? ?. apply H2; auto. Qed.
Lemma obj_insert_elem k v m x : x ∈ obj_insert k v m → x = (k, v) ∨ x ∈ m.
Proof.
  induction m as [|[k' v'] m IH]; cbn [obj_insert]; [set_solver|]. destruct (String.compare k k'); set_solver.
Qed.
Lemma edits_insert I R k v m : k ∈ I → edits I R m (obj_insert k v m).
Proof.
  intros Hk. split; [intros k' v' [[= -> ->]|?]%obj_insert_elem; auto|]. intros k' HI _. apply obj_get_insert_ne.
  by intros ->.
Qed.
Lemma obj_get_remove k j m : j ≠ k → obj_get j (obj_remove k m) = obj_get j m.
Proof.
  intros Hne. induction m as [|[k' v'] m IH]; [done|]. unfold obj_remove. cbn [List.filter fst]. rewrite obj_get_cons.
  destruct (String.eqb_spec k' k) as [->|]; cbn [negb]; [|rewrite obj_get_cons];
    fold (obj_remove k m); rewrite IH; [|done]. by destruct (String.eqb_spec k j) as [->|].
Qed.
Lemma edits_remove I R k m : k ∈ R → edits I R m (obj_remove k m).
Proof.
  intros Hk. split; [|intros j _ Hj; apply obj_get_remove; by intros ->].
  intros k' v Hin%list_elem_of_In. right. apply list_elem_of_In. unfold obj_remove in Hin. by apply List.filter_In in Hin as [].
Qed.
Lemma edits_foldl {A} I R (f : Object → A → Object) l m :
  (∀ m x, x ∈ l → edits I R m (f m x)) → edits I R m (foldl f m l).
Proof.
  revert m. induction l as [|x l IH]; intros m H; cbn; [apply edits_refl|].
  eapply edits_trans; [apply H; by left|]. apply IH. intros m' y Hy. apply H. by right.
Qed.
Lemma edits_body_refl I R b : edits_body I R b b.
Proof. destruct b; cbn; eauto using edits_refl. Qed.
Lemma edits_body_trans I R b1 b2 b3 : edits_body I R b1 b2 → edits_body I R b2 b3 → edits_body I R b1 b3.
Proof.
  destruct b1; cbn; try (by intros ->). intros (m2 & -> & H2) (m3 & -> & H3). eauto using edits_trans.
Qed.
Lemma edits_body_mono I R I' R' b b' : I ⊆ I' → R ⊆ R' → edits_body I R b b' → edits_body I' R' b b'.
Proof. intros HI HR. destruct b; cbn; auto. intros (m' & -> & H). eauto using edits_mono. Qed.
Lemma edits_body_get I R b b' k : edits_body I R b b' → k ∉ I → k ∉ R → json_get k b' = json_get k b.
Proof. intros H HI HR. destruct b; cbn in H; try (by subst). destruct H as (m' & -> & _ & H). by apply H. Qed.

(** What the gateway writes itself. *)
Definition STREAM_FIELDS : list string := ["stream"; "stream_options"].
Definition BOUND_FIELDS : list string := OUTPUT_TOKEN_FIELDS ++ ["n"; "best_of"].
Definition EFFORT_FIELDS : list string := ["reasoning_effort"; "reasoning"].
Definition GATEWAY_FIELDS : list string := BOUND_FIELDS ++ EFFORT_FIELDS ++ ["stream_options"].

Lemma default_field_known {UC : UrlCrate} protocol upstream : default_output_token_field protocol upstream ∈ OUTPUT_TOKEN_FIELDS.
Proof. unfold default_output_token_field, OUTPUT_TOKEN_FIELDS. destruct (_ || _); [set_solver|]. destruct (_ && _); set_solver. Qed.

Lemma clamp_edits body ceiling field R :
  field ∈ OUTPUT_TOKEN_FIELDS → edits_body BOUND_FIELDS R body (clamp_max_output_tokens body ceiling field).
Proof.
  intros Hf. destruct body as [| | | | |obj]; try done. cbn [clamp_max_output_tokens edits_body]. eexists; split; [done|].
  assert (Hsub : ∀ k, k ∈ OUTPUT_TOKEN_FIELDS → k ∈ BOUND_FIELDS) by (intros k ?; apply elem_of_app; by left).
  set (m1 := foldl pin_to_one obj _). assert (H1 : edits BOUND_FIELDS R obj m1).
  { apply edits_foldl. intros m x Hx. unfold pin_to_one. case_bool_decide; [apply edits_refl|].
    destruct (has_key x m); [apply edits_insert, elem_of_app; by right|apply edits_refl]. }
  set (pu := per_unit_budget _ _). clearbody m1 pu. assert (H2 : edits BOUND_FIELDS R m1 (foldl (clamp_field pu) m1 OUTPUT_TOKEN_FIELDS)).
  { apply edits_foldl. intros m x Hx. unfold clamp_field. destruct (has_key x m); [apply edits_insert; auto|apply edits_refl]. }
  eapply edits_trans; [exact H1|]. eapply edits_trans; [exact H2|].
  destruct (existsb _ _); [apply edits_refl|apply edits_insert; auto].
Qed.
Lemma effort_edits body effort shape R : edits_body EFFORT_FIELDS R body (apply_reasoning_effort body effort shape).
Proof.
  destruct body as [| | | | |obj]; try done. destruct shape; cbn [apply_reasoning_effort edits_body]; eexists; (split; [done|]);
    apply edits_insert; unfold EFFORT_FIELDS; set_solver.
Qed.
Lemma strip_edits I body : edits_body I STREAM_FIELDS body (strip_stream_flags body).
Proof.
  destruct body as [| | | | |obj]; try done. cbn. eexists; split; [done|]. unfold STREAM_FIELDS.
  eapply edits_trans; apply edits_remove; set_solver.
Qed.
Lemma nvidia_edits I provider body : edits_body I STREAM_FIELDS body (normalize_nvidia_tool_stream_options provider body).2.
Proof.
  unfold normalize_nvidia_tool_stream_options. destruct (negb _); [apply edits_body_refl|].
  destruct body as [| | | | |obj]; try done. destruct (_ ≫= _) as [[|]|]; [apply edits_body_refl| |apply edits_body_refl].
  cbn. eexists; split; [done|]. apply edits_remove. unfold STREAM_FIELDS. set_solver.
Qed.
Lemma inject_edits R body : edits_body ["stream_options"] R body (maybe_inject_stream_usage body).2.
Proof.
  unfold maybe_inject_stream_usage. destruct body as [| | | | |obj]; try done.
  destruct (negb _); [apply edits_body_refl|]. destruct (default _ _); cbn; eexists; (split; [done|]); apply edits_insert; set_solver.
Qed.

(** ** The ceiling *)

(** What a bounded body says; [asked] is the agent's. *)
Definition bounded_by (ceiling : Z) (asked sent : Object) : Prop :=
  let units := prompt_units sent in
  (∃ f, f ∈ OUTPUT_TOKEN_FIELDS ∧ is_Some (obj_get f sent))
  ∧ (∀ f v, f ∈ OUTPUT_TOKEN_FIELDS → obj_get f sent = Some v →
       ∃ n, as_u64 v = Some n ∧ units * n <= Z.max ceiling units
            ∧ ∀ r, obj_get f asked ≫= as_u64 = Some r → n <= r)
  ∧ (∀ f v, f ∈ ["n"; "best_of"] → obj_get f sent = Some v → as_u64 v = Some 1).

Lemma prompt_units_pos m : 1 <= prompt_units m.
Proof. unfold prompt_units. destruct (_ ≫= _); lia. Qed.
Lemma per_unit_bound ceiling units : 1 <= units → units * per_unit_budget ceiling units <= Z.max ceiling units.
Proof. intros H. unfold per_unit_budget. pose proof (Z.mul_div_le ceiling units). nia. Qed.

Definition clamped (per_unit : Z) (v : Value) : Value :=
  JNumber (PosInt (match as_u64 v with Some req => Z.min req per_unit | None => per_unit end)).
Lemma obj_get_clamp per_unit m f g :
  obj_get g (clamp_field per_unit m f) = if decide (g = f) then clamped per_unit <$> obj_get g m else obj_get g m.
Proof.
  unfold clamp_field, has_key. fold (obj_get f m). destruct (obj_get f m) as [v|] eqn:E; cbn [option_map mbind option_bind];
    (destruct (decide (g = f)) as [->|Hne]; [|]).
  - rewrite bool_decide_true by done. by rewrite obj_get_insert_eq, E.
  - rewrite bool_decide_true by done. by rewrite obj_get_insert_ne.
  - rewrite bool_decide_false by (by intros []). by rewrite E.
  - by rewrite bool_decide_false by (by intros []).
Qed.
Lemma obj_get_pin m f g :
  obj_get g (pin_to_one m f) = if decide (g = f) then (λ v, if decide (as_u64 v = Some 1) then v else JNumber (PosInt 1)) <$> obj_get g m
                               else obj_get g m.
Proof.
  unfold pin_to_one, has_key. fold (obj_get f m). destruct (decide (g = f)) as [->|Hne].
  - destruct (obj_get f m) as [v|] eqn:E; cbn [mbind option_bind].
    + case_bool_decide as Hd; [rewrite E; cbn; by rewrite decide_True|].
      rewrite bool_decide_true, obj_get_insert_eq by done. cbn. by rewrite decide_False.
    + case_bool_decide; [done|]. rewrite bool_decide_false by (by intros []). by rewrite E.
  - case_bool_decide; [done|]. destruct (bool_decide _); [by rewrite obj_get_insert_ne|done].
Qed.

Lemma clamp_get per_unit m g : obj_get g (foldl (clamp_field per_unit) m OUTPUT_TOKEN_FIELDS)
  = if decide (g ∈ OUTPUT_TOKEN_FIELDS) then clamped per_unit <$> obj_get g m else obj_get g m.
Proof.
  cbn [foldl OUTPUT_TOKEN_FIELDS]. rewrite !obj_get_clamp.
  destruct (decide (g ∈ OUTPUT_TOKEN_FIELDS)) as [H|H]; [|rewrite !decide_False by (intros ->; apply H; repeat constructor); done].
  unfold OUTPUT_TOKEN_FIELDS in H. rewrite !elem_of_cons, elem_of_nil in H. destruct H as [->|[->|[->|[]]]]; done.
Qed.
Lemma pin_get m g : obj_get g (foldl pin_to_one m ["n"; "best_of"])
  = if decide (g ∈ ["n"; "best_of"]) then (λ v, if decide (as_u64 v = Some 1) then v else JNumber (PosInt 1)) <$> obj_get g m else obj_get g m.
Proof.
  cbn [foldl]. rewrite !obj_get_pin. destruct (decide (g ∈ _)) as [H|H]; [|rewrite !decide_False by (intros ->; apply H; repeat constructor); done].
  rewrite !elem_of_cons, elem_of_nil in H. destruct H as [->|[->|[]]]; done.
Qed.

(** The clamp bounds an object. *)
Lemma clamp_bounds m ceiling field :
  field ∈ OUTPUT_TOKEN_FIELDS → ∃ m', clamp_max_output_tokens (JObject m) ceiling field = JObject m' ∧ bounded_by ceiling m m'.
Proof.
  intros Hf. cbn [clamp_max_output_tokens]. eexists; split; [done|]. set (m1 := foldl pin_to_one m _).
  set (pu := per_unit_budget ceiling (prompt_units m1)). set (m2 := foldl (clamp_field pu) m1 _).
  set (any := existsb _ _). set (m3 := if any then m2 else _).
  assert (Hout : ∀ g, g ∈ OUTPUT_TOKEN_FIELDS → obj_get g m1 = obj_get g m).
  { intros g Hg. unfold m1. rewrite pin_get, decide_False; [done|].
    unfold OUTPUT_TOKEN_FIELDS in Hg. rewrite !elem_of_cons, elem_of_nil in *. naive_solver. }
  assert (Hother : ∀ g, g ∉ OUTPUT_TOKEN_FIELDS → obj_get g m3 = obj_get g m1).
  { intros g Hg. unfold m3. destruct any; [|rewrite obj_get_insert_ne by (by intros ->)]; unfold m2; by rewrite clamp_get, decide_False. }
  assert (Hunits : prompt_units m3 = prompt_units m1).
  { unfold prompt_units. fold (obj_get "prompt" m3) (obj_get "prompt" m1). rewrite Hother; [done|]. unfold OUTPUT_TOKEN_FIELDS.
    rewrite !elem_of_cons, elem_of_nil. naive_solver. }
  assert (Hpu : prompt_units m3 * pu <= Z.max ceiling (prompt_units m3)) by (rewrite Hunits; apply per_unit_bound, prompt_units_pos).
  assert (Hwritten : ∀ g v, g ∈ OUTPUT_TOKEN_FIELDS → obj_get g m3 = Some v →
            ∃ n, v = JNumber (PosInt n) ∧ n <= pu ∧ ∀ r, obj_get g m ≫= as_u64 = Some r → n <= r).
  { intros g v Hg. assert (H2 : obj_get g m2 = clamped pu <$> obj_get g m) by (unfold m2; by rewrite clamp_get, decide_True, Hout).
    assert (Hw : obj_get g m2 = Some v → ∃ n, v = JNumber (PosInt n) ∧ n <= pu ∧ ∀ r, obj_get g m ≫= as_u64 = Some r → n <= r).
    { rewrite H2. intros (x & -> & Hx)%fmap_Some. rewrite Hx. eexists. split; [exact Hx || done|].
      cbn. destruct (as_u64 x) as [r|]; (split; [lia|]); intros r' ?; simplify_eq; lia. }
    unfold m3. destruct any eqn:Ea; [done|]. destruct (decide (g = field)) as [->|Hne]; [|by rewrite obj_get_insert_ne].
    rewrite obj_get_insert_eq. intros [= <-]. exists pu. split_and!; [done|lia|]. intros r Hr. exfalso.
    apply (existsb_false_elem_of _ _) with (x := field) in Ea; [|done]. unfold has_key in Ea. fold (obj_get field m1) in Ea.
    rewrite Hout in Ea by done. destruct (obj_get field m); [|done]. by apply bool_decide_eq_false in Ea; destruct Ea. }
  split_and!.
  - unfold m3. destruct any eqn:Ea; [|exists field; by rewrite obj_get_insert_eq].
    apply existsb_elem_of in Ea as (g & Hg & Hk%bool_decide_eq_true). exists g. split; [done|]. fold (obj_get g m1) in Hk.
    unfold m2. rewrite clamp_get, decide_True by done. by apply fmap_is_Some.
  - intros f v Hin Hv. destruct (Hwritten f v Hin Hv) as (n & -> & Hn & Hr). exists n. split_and!; [done| |done].
    pose proof (prompt_units_pos m3). nia.
  - intros f v Hin. rewrite Hother by (unfold OUTPUT_TOKEN_FIELDS; rewrite !elem_of_cons, elem_of_nil in *; naive_solver).
    unfold m1. rewrite pin_get, decide_True by done. intros (x & _ & ->)%fmap_Some. by case_decide.
Qed.

(** Edits outside its fields keep a body bounded. *)
Lemma edits_bounded I R ceiling asked m m' :
  (∀ k, k ∈ ("prompt" :: BOUND_FIELDS) → (k ∉ I) ∧ (k ∉ R)) → edits I R m m' → bounded_by ceiling asked m → bounded_by ceiling asked m'.
Proof.
  intros Hout [_ He] (H1 & H2 & H3).
  assert (Hget : ∀ k, k ∈ ("prompt" :: BOUND_FIELDS) → obj_get k m' = obj_get k m) by (intros k [? ?]%Hout; by apply He).
  assert (Hsub : ∀ k, k ∈ OUTPUT_TOKEN_FIELDS → k ∈ ("prompt" :: BOUND_FIELDS)) by (intros k ?; right; apply elem_of_app; by left).
  assert (Hsub' : ∀ k, k ∈ ["n"; "best_of"] → k ∈ ("prompt" :: BOUND_FIELDS)) by (intros k ?; right; apply elem_of_app; by right).
  assert (Hu : prompt_units m' = prompt_units m).
  { unfold prompt_units. fold (obj_get "prompt" m') (obj_get "prompt" m). rewrite Hget; [done|by left]. }
  split_and!.
  - destruct H1 as (f & Hf & Hs). exists f. split; [done|]. by rewrite Hget by auto.
  - intros f v Hf. rewrite Hget, Hu by auto. by apply H2.
  - intros f v Hf. rewrite Hget by auto. by apply H3.
Qed.

(** ** The call *)

Section call.
Context {UC : UrlCrate} {NS : NetStd} {EC : UrlEncodingCrate} {UQ : UrlQuery} {JR : JsonReader}.
Context (env : string → option string) (cfg : LlmProxyConfig) (card : option RateCard).

Lemma own_fields_edits cap protocol upstream R b : edits_body GATEWAY_FIELDS R b (own_fields cap protocol upstream b).
Proof.
  unfold own_fields. set (b1 := match llm_max_output_tokens cap with Some _ => _ | None => _ end).
  assert (H1 : edits_body GATEWAY_FIELDS R b b1).
  { unfold b1. destruct (llm_max_output_tokens cap); [|apply edits_body_refl].
    eapply edits_body_mono; [| |apply (clamp_edits _ _ _ R), default_field_known]; [|done].
    intros k ?. apply elem_of_app. by left. }
  destruct (llm_reasoning_effort cap); [|done]. destruct (reasoning_effort_shape _ _); [|done].
  eapply edits_body_trans; [exact H1|]. eapply edits_body_mono; [| |apply (effort_edits _ _ _ R)]; [|done].
  intros k ?. apply elem_of_app. right. apply elem_of_app. by left.
Qed.
Lemma stream_flags_edits provider upstream b :
  edits_body ["stream_options"] STREAM_FIELDS b (stream_flags cfg provider upstream b).2.
Proof.
  unfold stream_flags. set (b1 := if _ && negb _ then _ else b). assert (H1 : edits_body ["stream_options"] STREAM_FIELDS b b1).
  { unfold b1. destruct (_ && _); [apply strip_edits|apply edits_body_refl]. }
  clearbody b1. destruct (if _ && _ then _ else _) as [nv b2] eqn:E2. assert (H2 : edits_body ["stream_options"] STREAM_FIELDS b1 b2).
  { destruct (_ && _); [|injection E2 as <- <-; apply edits_body_refl].
    pose proof (nvidia_edits ["stream_options"] provider b1) as H. by rewrite E2 in H. }
  cbn [snd]. destruct (_ && negb nv); [|by eapply edits_body_trans].
  eapply edits_body_trans; [exact H1|]. eapply edits_body_trans; [exact H2|apply inject_edits].
Qed.
Lemma rewrites_edit cap protocol provider upstream b :
  edits_body GATEWAY_FIELDS STREAM_FIELDS b (stream_flags cfg provider upstream (own_fields cap protocol upstream b)).2.
Proof.
  eapply edits_body_trans; [apply own_fields_edits|]. eapply edits_body_mono; [| |apply stream_flags_edits]; [|done].
  intros k ?. do 2 (apply elem_of_app; right). done.
Qed.

(** The pieces of a call that was prepared. *)
Lemma prepare_inv cap llm channel path query headers body c :
  llm_prepare env cfg card cap llm channel path query headers body = Ok c →
  ∃ joined request,
    let protocol := lp_protocol llm in
    let named := body_model request in
    let route := match request with Some _ => url_model protocol (mc_upstream c) named (lc_azure_deployments cfg) | None => UM_BodyPicks end in
    provider_feature_enabled env protocol = true ∧ llm_upstream_url cap path = Some joined
    ∧ append_query joined query = Ok (mc_upstream c) ∧ read_body body = Ok request
    ∧ match route with UM_Names _ _ => true | _ => llm_model_allowed cap named end = true ∧ route_allowed cap route = true
    ∧ price_gate cfg card protocol (mc_upstream c) headers request (gated_route route named) = Ok tt
    ∧ mc_model c = (gated_route route named).1
    ∧ mc_body c = (λ b, (stream_flags cfg (default protocol (lp_provider llm)) (mc_upstream c) (own_fields cap protocol (mc_upstream c) b)).2) <$> request
    ∧ mc_headers c = forward_provider_headers headers (<["Content-Type" := "application/json"]> ∅).
Proof.
  unfold llm_prepare. cbv zeta. destruct (check (provider_feature_enabled _ _) _) as [[]|] eqn:E1; [|done]. cbn [result_bind].
  destruct (llm_upstream_url cap path) as [joined|] eqn:E2; [|done]. cbn [ok_or result_bind].
  destruct (append_query joined query) as [upstream|] eqn:E3; [|done]. cbn [result_bind].
  destruct (read_body body) as [request|] eqn:E4; [|done]. cbn [result_bind].
  destruct (check _ (LX_ModelNotAllowed (body_model request))) as [[]|] eqn:E5; [|done]. cbn [result_bind].
  destruct (check (route_allowed _ _) _) as [[]|] eqn:E6; [|done]. cbn [result_bind].
  destruct (price_gate _ _ _ _ _ _ _) as [[]|] eqn:E7; [|done]. cbn [result_bind]. intros [= <-]. exists joined, request.
  apply check_ok in E1, E5, E6. cbn. split_and!; try done. by destruct request.
Qed.

(** The model the provider serves: the one its URL selects, else the body's. *)
Definition served_model (llm : LlmProxy) (c : ModelCall) : option string :=
  match url_model (lp_protocol llm) (mc_upstream c) (body_model (mc_body c)) (lc_azure_deployments cfg) with
  | UM_BodyPicks => body_model (mc_body c)
  | UM_Names m _ => Some m
  | UM_Unresolvable _ => None
  end.
Definition model_granted (cap : Capability) (llm : LlmProxy) (c : ModelCall) (m : string) : Prop :=
  llm_model_allowed cap (Some m) = true
  ∨ ∃ d, url_model (lp_protocol llm) (mc_upstream c) (body_model (mc_body c)) (lc_azure_deployments cfg) = UM_Names m (Some d)
         ∧ llm_model_allowed cap (Some d) = true.

Lemma price_gate_inv protocol upstream headers b gated :
  lc_require_priced_model cfg = true → price_gate cfg card protocol upstream headers (Some b) gated = Ok tt →
  gated.2 = None ∧ (∃ m, gated.1 = Some m ∧ handle_covers card m = true)
  ∧ unpriced_modifier protocol upstream b = None ∧ unpriced_beta_header headers = None.
Proof.
  intros Hreq. unfold price_gate. rewrite Hreq. cbn [negb]. rewrite bind_unit_ok, check_ok. intros [Hp Hm].
  apply andb_true_iff in Hp as [Hn%negb_true_iff%bool_decide_eq_false Hc]. split_and!.
  - destruct gated.2; [by destruct Hn|done].
  - destruct gated.1 as [m|]; [|done]. eauto.
  - by destruct (unpriced_modifier _ _ _).
  - destruct (unpriced_modifier _ _ _); [done|]. by destruct (unpriced_beta_header _).
Qed.
Lemma unpriced_none_fields protocol upstream b :
  unpriced_modifier protocol upstream b = None →
  ∃ m, b = JObject m ∧ modality_marker (request_tables protocol upstream).2 m = None
  ∧ ∀ k v, (k, v) ∈ m → ∃ kind, field_kind (request_tables protocol upstream).1 k = Some kind
                               ∧ field_is_priced kind (request_tables protocol upstream).2 v = true.
Proof.
  unfold unpriced_modifier. destruct b as [| | | | |m]; try done. cbn [as_object]. destruct (request_tables _ _) as [table dialect].
  destruct (find_map _ m) eqn:E; [done|]. intros Hm%fmap_None. exists m. split_and!; [done|exact Hm|]. intros k v Hin.
  rewrite find_map_None in E. specialize (E _ Hin). unfold field_modifier in E. cbn [fst snd] in *.
  destruct (field_kind table k) as [kind|]; [|done]. exists kind. split; [done|]. by destruct (field_is_priced _ _ _).
Qed.
End call.

(** C21: a model call is sent only if it can be priced.  While prices are required, a call
    with a body goes out only if the model its provider will serve (the one the URL sent to
    selects, else the one the body sent names) is one the rate card prices and the channel
    grants, and that is the model it is metered under; a model the body names next to the
    URL's is that model or its deployment; every field of the body sent is one
    the gateway writes itself or one the protocol's table holds with a priced value; nested
    media has a price; and outside the gateway's own fields and the stream flags the body is
    the agent's. *)
Theorem sent_model_call_is_priced {UC : UrlCrate} {NS : NetStd} {EC : UrlEncodingCrate} {UQ : UrlQuery}
    {JR : JsonReader} env cfg card cap llm channel path query headers body c sent :
  llm_prepare env cfg card cap llm channel path query headers body = Ok c → lc_require_priced_model cfg = true →
  mc_body c = Some sent →
  ∃ m asked m', mc_model c = Some m ∧ served_model cfg llm c = Some m ∧ handle_covers card m = true ∧ model_granted cfg cap llm c m
  ∧ (∀ b, body_model (mc_body c) = Some b → b = m ∨
       url_model (lp_protocol llm) (mc_upstream c) (Some b) (lc_azure_deployments cfg) = UM_Names m (Some b))
  ∧ read_body body = Ok (Some (JObject asked)) ∧ sent = JObject m'
  ∧ (∀ k v, (k, v) ∈ m' → k ∈ GATEWAY_FIELDS ∨
       ∃ kind, field_kind (request_tables (lp_protocol llm) (mc_upstream c)).1 k = Some kind
               ∧ field_is_priced kind (request_tables (lp_protocol llm) (mc_upstream c)).2 v = true)
  ∧ modality_marker (request_tables (lp_protocol llm) (mc_upstream c)).2 asked = None
  ∧ (∀ k, k ∉ GATEWAY_FIELDS → k ∉ STREAM_FIELDS → obj_get k m' = obj_get k asked).
Proof.
  intros (joined & request & _ & _ & _ & Hread & Hallow & Hroute & Hgate & Hm & Hb & _)%prepare_inv Hreq Hsent.
  rewrite Hb in Hsent. destruct request as [b|]; [|done]. cbn [fmap option_fmap option_map] in Hsent. injection Hsent as Hsent.
  pose proof (rewrites_edit cfg cap (lp_protocol llm) (default (lp_protocol llm) (lp_provider llm)) (mc_upstream c) b) as He.
  rewrite Hsent in He. apply (price_gate_inv cfg card _ _ _ _ _ Hreq) in Hgate as (Hwhy & (m & Hgm & Hc) & Hmod & _).
  destruct (unpriced_none_fields _ _ _ Hmod) as (asked & -> & Hmark & Hfields). destruct He as (m' & -> & He1 & He2).
  assert (Hname : body_model (mc_body c) = body_model (Some (JObject asked))).
  { rewrite Hb. cbn [fmap option_fmap option_map body_model mbind option_bind]. rewrite Hsent. fold (obj_get "model" m') (obj_get "model" asked).
    rewrite He2; [done| |]; unfold GATEWAY_FIELDS, BOUND_FIELDS, OUTPUT_TOKEN_FIELDS, EFFORT_FIELDS, STREAM_FIELDS; cbn [app];
      rewrite !elem_of_cons, elem_of_nil; naive_solver. }
  exists m, asked, m'. unfold served_model, model_granted. rewrite Hname, Hm, Hgm.
  revert Hwhy Hgm Hallow Hroute. destruct (url_model _ _ _ _) as [|mm ok|why] eqn:Er; cbn [gated_route fst snd route_allowed]; [| |done].
  - intros _ Hn Ha _. rewrite Hn in Ha. split_and!; auto; [intros b ?; left; congruence|]. intros k v [?|?]%He1; auto.
  - intros Hagree [= ->] _ Ha%orb_true_iff. split_and!; auto; [| |intros k v [?|?]%He1; auto].
    + destruct Ha as [Ha|Ha]; [by left|right]. destruct ok as [d|]; [by exists d|done].
    + intros b Hn. rewrite Hn in Hagree, Er. destruct (String.eqb_spec b m) as [->|]; [by left|right]. cbn [negb andb] in Hagree.
      rewrite Er. case_bool_decide as Hd; [by rewrite Hd|done].
Qed.

(** C22: the ceiling of a channel holds for what is sent.  When the channel has one, the body
    sent names at least one output limit, every limit it names is a number that, times the
    prompts of the request, stays within the ceiling (or is one token per prompt, when there
    are more prompts than tokens) and is no higher than what the agent asked for, and every
    multiplier it names is one. *)
Theorem sent_model_call_is_bounded {UC : UrlCrate} {NS : NetStd} {EC : UrlEncodingCrate} {UQ : UrlQuery}
    {JR : JsonReader} env cfg card cap llm channel path query headers body c ceiling asked :
  llm_prepare env cfg card cap llm channel path query headers body = Ok c → llm_max_output_tokens cap = Some ceiling →
  read_body body = Ok (Some (JObject asked)) →
  ∃ sent, mc_body c = Some (JObject sent) ∧ bounded_by ceiling asked sent.
Proof.
  intros (joined & request & _ & _ & _ & Hread & _ & _ & _ & _ & Hb & _)%prepare_inv Hceil Hasked.
  rewrite Hasked in Hread. injection Hread as <-. rewrite Hb. cbn [fmap option_fmap option_map].
  set (protocol := lp_protocol llm). set (upstream := mc_upstream c). unfold own_fields. rewrite Hceil.
  destruct (clamp_bounds asked ceiling (default_output_token_field protocol upstream)) as (m1 & -> & H1); [apply default_field_known|].
  set (b2 := match llm_reasoning_effort cap with Some _ => _ | None => _ end).
  assert (He2 : edits_body EFFORT_FIELDS [] (JObject m1) b2).
  { unfold b2. destruct (llm_reasoning_effort cap); [|apply edits_body_refl]. destruct (reasoning_effort_shape _ _); [|apply edits_body_refl].
    apply effort_edits. }
  destruct He2 as (m2 & -> & He2).
  destruct (stream_flags_edits cfg (default protocol (lp_provider llm)) upstream (JObject m2)) as (m3 & E3 & He3).
  exists m3. split; [by rewrite E3|]. eapply edits_bounded; [|exact He3|eapply edits_bounded; [|exact He2|exact H1]];
    unfold BOUND_FIELDS, OUTPUT_TOKEN_FIELDS, EFFORT_FIELDS, STREAM_FIELDS; intros k; cbn [app]; rewrite !elem_of_cons, !elem_of_nil; naive_solver.
Qed.

(** What is forwarded of the inbound headers. *)
Lemma forwarded_headers names headers fwd k v :
  foldl (forward_header headers) fwd names !! k = Some v →
  fwd !! k = Some v ∨ (k ∈ names ∧ ∃ raw, header_get k headers = Some raw ∧ v = trim raw).
Proof.
  revert fwd. induction names as [|name names IH]; intros fwd; cbn [foldl]; [by left|]. intros [H|(Hin & H)]%IH; [|right; split; [by right|done]].
  unfold forward_header in H.
  destruct (header_get name headers) as [raw|] eqn:E; cbn [mbind option_bind] in H; [|by left].
  unfold header_to_str in H. destruct (str_all visible_ascii raw); [|by left]. cbv zeta in H. destruct (is_empty (trim raw)); [by left|].
  destruct (decide (k = name)) as [->|Hne].
  - rewrite lookup_insert_eq in H. injection H as <-. right. split; [by left|eauto].
  - rewrite lookup_insert_ne in H by done. by left.
Qed.
Lemma credential_query_none query kv blocked :
  credential_query_key query = None → kv ∈ query → blocked ∈ AUTH_QUERY_KEYS → eq_ignore_ascii_case kv.1 blocked = false.
Proof.
  unfold credential_query_key. intros H%fmap_None Hin Hb. pose proof (List.find_none _ _ H kv) as Hn.
  rewrite <- list_elem_of_In in Hn. specialize (Hn Hin). rewrite existsb_false_elem_of in Hn. auto.
Qed.

(** a model call stays on its channel.  If appending a query leaves the scheme, host,
    port and path of a URL, then whatever path and query the agent asked for, the URL called
    has the scheme, host and port of the channel's provider and a path under the provider's;
    no parameter of the query is a credential's; and the only headers of the agent that go
    along are those of the fixed list, so never its bearer. *)
Theorem sent_model_call_stays_on_channel {UC : UrlCrate} {NS : NetStd} {EC : UrlEncodingCrate} {UQ : UrlQuery}
    {JR : JsonReader} env cfg card cap llm channel path query headers body c :
  (∀ u ps, url_parse (url_as_str (url_append_pairs u ps)) = Some (url_append_pairs u ps)) →
  (∀ u ps, url_scheme (url_append_pairs u ps) = url_scheme u ∧ url_host_str (url_append_pairs u ps) = url_host_str u
           ∧ url_port_or_known_default (url_append_pairs u ps) = url_port_or_known_default u
           ∧ url_path (url_append_pairs u ps) = url_path u) →
  llm_prepare env cfg card cap llm channel path query headers body = Ok c →
  (∃ l base parsed, cap_llm cap = Some l ∧ url_parse (trim_end_matches "/" (lp_provider_base l)) = Some base
    ∧ url_parse (mc_upstream c) = Some parsed ∧ url_scheme parsed = url_scheme base ∧ url_host_str parsed = url_host_str base
    ∧ url_port_or_known_default parsed = url_port_or_known_default base
    ∧ (url_path parsed = trim_end_matches "/" (url_path base)
       ∨ ∃ rest, url_path parsed = trim_end_matches "/" (url_path base) +:+ "/" +:+ rest))
  ∧ (∀ kv blocked, kv ∈ query → blocked ∈ AUTH_QUERY_KEYS → eq_ignore_ascii_case kv.1 blocked = false)
  ∧ (∀ k v, mc_headers c !! k = Some v →
       (k = "Content-Type" ∧ v = "application/json")
       ∨ (k ∈ FORWARDED_PROVIDER_HEADERS ∧ ∃ raw, header_get k headers = Some raw ∧ v = trim raw)).
Proof.
  intros Hparse Hkeep (joined & request & _ & Hjoin & Hquery & _ & _ & _ & _ & _ & _ & Hheaders)%prepare_inv. split_and!.
  - destruct (llm_channel_is_contained _ _ _ Hjoin) as (l & base & parsed & ? & ? & Hp & H1 & H2 & H3 & H4).
    exists l, base. unfold append_query in Hquery. destruct query as [|kv query]; [injection Hquery as <-; by exists parsed|].
    destruct (credential_query_key _); [done|]. injection Hquery as <-. rewrite Hp. destruct (Hkeep parsed (kv :: query)) as (K1 & K2 & K3 & K4).
    exists (url_append_pairs parsed (kv :: query)). rewrite K1, K2, K3, K4. by split_and!.
  - intros kv blocked Hin Hb. unfold append_query in Hquery. destruct query as [|kv' query]; [by apply elem_of_nil in Hin|].
    destruct (credential_query_key _) eqn:E; [done|]. by eapply credential_query_none.
  - intros k v. rewrite Hheaders. intros [H|H]%forwarded_headers; [left|by right].
    apply lookup_insert_Some in H as [[<- <-]|[_ H]]; [done|by apply lookup_empty_Some in H].
Qed.

(** ** Several choices *)

Lemma admits_choices upstream m n :
  unpriced_modifier "openai-chat" upstream (JObject m) = None →
  unpriced_modifier "openai-chat" upstream (JObject (obj_insert "n" (JNumber (PosInt n)) m)) = None.
Proof.
  unfold unpriced_modifier. cbn [as_object]. change (request_tables "openai-chat" upstream) with (OPENAI_CHAT_FIELDS, DL_OpenAiChat).
  cbn iota. destruct (find_map _ m) eqn:E; [done|]. intros Hm%fmap_None. cbn [modality_marker] in Hm.
  rewrite find_map_None in E. replace (find_map _ (obj_insert _ _ _)) with (@None Modifier).
  - apply fmap_None. cbn [modality_marker]. rewrite <- Hm. unfold openai_content_marker. cbn [find_map].
    change (json_get ?k (JObject ?o)) with (obj_get k o). by rewrite !obj_get_insert_ne.
  - symmetry. apply find_map_None. intros kv [->|Hin]%obj_insert_elem; [done|by apply E].
Qed.

(** the estimate of a cut stream ignores how many choices were asked for.  A chat request
    that is admitted stays admitted whatever [n] it adds, its own output limit is read the
    same, and when its stream ends without a trailer or partial counts it is charged at most
    that limit, however many bytes of how many choices were received. *)
Theorem estimate_ignores_choices upstream m n cap prompt_bytes a :
  unpriced_modifier "openai-chat" upstream (JObject m) = None → request_max_output_tokens (JObject m) = Some cap → 1 <= cap →
  ua_output_tokens a = None → ua_thoughts_tokens a = 0 → ua_iter_output a = 0 →
  let body := JObject (obj_insert "n" (JNumber (PosInt n)) m) in
  unpriced_modifier "openai-chat" upstream body = None ∧ obj_get "n" (obj_insert "n" (JNumber (PosInt n)) m) = Some (JNumber (PosInt n))
  ∧ tu_output (estimate_stream_usage a prompt_bytes (request_max_output_tokens body)) <= cap.
Proof.
  intros Hu Hc Hpos Ho Ht Hi body. split_and!; [by apply admits_choices|apply obj_get_insert_eq|].
  assert (Hb : request_max_output_tokens body = Some cap).
  { rewrite <- Hc. unfold request_max_output_tokens, body, get2. cbn [find_map]. change (json_get ?k (JObject ?o)) with (obj_get k o).
    by rewrite !obj_get_insert_ne. }
  rewrite Hb. unfold estimate_stream_usage. cbn [tu_output]. rewrite Ho, Ht, Hi. cbn [default]. unfold u64_saturating_add, u64_max. lia.
Qed.
