(* ===== verification/GatewayStream.v ===== *)
(** * Streamed requests

    Models [run_action_streaming] and [execute_gated_streaming_inner] of
    [src/src/server/mod.rs]: the same gate as a buffered request, the same preflight,
    payment, evidence and fence, then a stream whose body the task of [StreamTail] reads.
    A live body is the task itself, as a function of what will happen to it.

    [streamed_dispatch_is_authorized] is complete mediation for this path, and
    [streamed_answer_is_confined] says that neither the head nor the body shows a secret,
    whichever of the four kinds of body it has. *)

From stdpp Require Import base gmap strings list.
From Stdlib Require Import Ascii ZArith Lia.
From S2P Require Import Prelude RustStr PolicyTypes Precedence UrlCanon RateLimit Json Kernel PolicyEngine KillFence.
From S2P Require Import Outbox Approval ApprovalStore Egress Tokens Auth Credential HttpPlugin VaultCollections.
From S2P Require Import Capability Catalog Sessions RateCard Metering StreamTail LlmGate LlmProxy GatewayBase Gateway GatewayFacts.

Open Scope Z_scope.

(** [ScrubbedBodyStream]: one chunk, or the receiver of the producer task. *)
Inductive StreamBody :=
| SB_Once (chunk : bytes)
| SB_Live (task : list ProducerInput → list (option bytes) → bool → StreamEnd).

(** [StreamingExecution], [StreamingOutcome]. *)
Record StreamingExecution := { sx_status : Z; sx_headers : gmap string string; sx_body : StreamBody }.
Inductive StreamingOutcome := SO_Pending (a : ApprovalRequest) | SO_Streaming (x : StreamingExecution).

(** [headers.retain], without the framing headers. *)
Definition without_framing (h : gmap string string) : gmap string string :=
  filter (λ e : string * string,
            eq_ignore_ascii_case e.1 "content-length" = false ∧ eq_ignore_ascii_case e.1 "transfer-encoding" = false) h.

(** [buffered_as_stream]. *)
Definition buffered_as_stream (resp : ExecuteResponse) : StreamingExecution :=
  {| sx_status := resp_status resp; sx_headers := without_framing (resp_headers resp); sx_body := SB_Once (resp_body resp) |}.

Definition COMPRESSED_PLACEHOLDER : bytes :=
  as_bytes "[vultrino: streamed response withheld - a compressed body could not be scrubbed for secrets]".

(** The default [execute_streaming] of the trait: the head of what [execute] answers. *)
Definition default_execute_streaming (execute : PluginRequest → result (ExecuteResponse * option CredentialData) string)
    (r : PluginRequest) : result StreamHead string :=
  match execute r with
  | Ok (resp, updated) => Ok {| sh_status := resp_status resp; sh_headers := resp_headers resp; sh_updated := updated |}
  | Err m => Err m
  end.

Section streaming.
Context {UC : UrlCrate} {GC : GlobCrate} {EC : UrlEncodingCrate} {SJ : SerdeJson} {SH : Sha256}.
Context {RC : RegexCrate} {EN : Encoders} {HC : HttpCrates} {JR : JsonReader} {EV : Environment}.
Context (clk : Clock) (cfg : GatewayConfig) (acfg : ApprovalConfig) (egress : list EgressRule).
Context (averin : option AverinConfig) (has_notifiers : bool) (lcfg : LlmProxyConfig) (card : option RateCard).

(** What an estimate needs of the request. *)
Definition estimate_context (params : Value) : StreamEstimateContext :=
  {| ec_prompt_bytes := match json_get "body" params with Some b => Z.of_nat (String.length (json_to_string b)) | None => 0 end;
     ec_max_output_tokens := json_get "body" params ≫= request_max_output_tokens;
     ec_request_model := request_model_of params; ec_card := card |}.

(** Opening the upstream stream: the point of no return. *)
Definition open_upstream (name : string) (plugin : Plugin) (r : PluginRequest) (evidence : option string) (secrets : list string)
    : M RunError StreamHead :=
  let* _ := emit (FX_Execute name r) in
  let* _ := await in
  match pl_execute_streaming plugin r with
  | Ok head => m_ret head
  | Err message =>
      let* _ := (match evidence with
                 | Some e => let* _ := complete_exact_use e "error" in m_ret tt
                 | None => m_ret tt
                 end) in
      m_fail (run_committed (confine_plugin_execution_error message secrets))
  end.

(** A response that is withheld is metered and its evidence closed at once. *)
Definition withhold_stream (p : ActionPayload) (evidence : option string) (status : Z) (chunk : bytes) : M RunError StreamingExecution :=
  let* _ := emit (FX_Metered (default (cr_alias (ay_credential p))
              (opt_or (cx_agent_label (ay_context p)) (cx_api_key_id (ay_context p))))) in
  let* _ := (match evidence with
             | Some e => let* _ := complete_exact_use e "error" in m_ret tt
             | None => m_ret tt
             end) in
  m_ret {| sx_status := status; sx_headers := ∅; sx_body := SB_Once chunk |}.

(** From the session on: evidence, fence, the open stream, persistence, and its body. *)
Definition open_stream (p : ActionPayload) (plugin : Plugin) (params : Value) (bytes : option string) (uses : Z)
    : M RunError StreamingExecution :=
  let c := ay_credential p in
  let max_line := lc_stream_max_line_bytes lcfg in
  let* evidence := seal_evidence averin p bytes uses in
  let* _ := kill_fence_before_dispatch (cr_alias c) (full_action_of (ay_plugin_name p) (ay_action_name p)) (ay_kill_fence p) evidence in
  let* head := open_upstream (ay_plugin_name p) plugin
                 {| pr_credential := c; pr_action := ay_action_name p; pr_params := params; pr_context := ay_context p |}
                 evidence (secret_material (cr_data c)) in
  let secrets := scrub_set_with_minted (secret_material (cr_data c)) (secret_material <$> sh_updated head) in
  let* _ := persist_updated c (sh_updated head) in
  if has_unredactable_secret secrets then withhold_stream p evidence (sh_status head) []
  else if headers_indicate_compression (sh_headers head)
  then withhold_stream p evidence (sh_status head) (terminate_with (scrubber_new secrets max_line) COMPRESSED_PLACEHOLDER).1
  else
    m_ret {| sx_status := sh_status head;
             sx_headers := without_framing (confine_stream_headers (sh_headers head) (derive_secret_forms secrets)).1;
             sx_body := SB_Live (stream_tail (estimate_context params) (lc_stream_max_bytes lcfg) secrets max_line evidence) |}.

(** The guard of a stream's session is dropped here only if the stream did not open. *)
Definition in_stream_session {E A} (e : SessionEntry) (body : M E A) : M E A :=
  let* _ := update (λ pr, set_sessions (begin_session e (p_sessions pr)).2 pr) in
  let* r := m_try body in
  match r with
  | Ok a => m_ret a
  | Err x =>
      let* _ := update (λ pr, set_sessions (end_session (se_session_id e) (p_sessions pr)) pr) in
      m_fail x
  end.

Definition run_action_streaming (authorized : Authorized ActionPayload) : M RunError StreamingExecution :=
  let p := au_payload authorized in
  let cx := ay_context p in
  let* ready := preflight averin p in
  let '(plugin, params, bytes) := ready in
  let* uses := reserve (ay_use_token_id p) in
  let* n := tick in
  in_stream_session
    {| se_session_id := cx_request_id cx; se_agent_label := cx_agent_label cx; se_principal_id := cx_api_key_id cx;
       se_token_id := ay_use_token_id p; se_credential := cr_alias (ay_credential p);
       se_action := full_action_of (ay_plugin_name p) (ay_action_name p); se_started_at := env_now n |}
    (open_stream p plugin params bytes uses).

(** What runs behind the gate: buffered when an operator rule needs the whole body. *)
Definition run_streamed (ready : Authorized ActionPayload) : M RunError StreamingExecution :=
  let p := au_payload ready in
  if has_unredactable_secret (secret_material (cr_data (ay_credential p)))
     || negb (stream_is_egress_safe egress (cr_alias (ay_credential p)) (full_action_of (ay_plugin_name p) (ay_action_name p)))
  then let* resp := run_action egress averin ready in m_ret (buffered_as_stream resp)
  else run_action_streaming ready.

(** [execute_gated_streaming_inner], [execute_gated_streaming], [execute_gated_streaming_llm_channel]. *)
Definition execute_gated_streaming_inner (req : ExecuteRequest) (auth : ExecAuth) (via_llm_channel : bool) (entry : RefusalEntry)
    : M VultrinoError StreamingOutcome :=
  let* prepared := prepare_execution clk cfg acfg averin has_notifiers req auth via_llm_channel entry in
  match prepared with
  | Prepared_Pending a => m_ret (SO_Pending a)
  | Prepared_Ready ready =>
      let* r := m_try (run_streamed ready) in
      match r with
      | Ok x => m_ret (SO_Streaming x)
      | Err re => let* re' := note_run_refusal averin (ay_refusal (au_payload ready)) re in m_fail (re_error re')
      end
  end.
Definition execute_gated_streaming (req : ExecuteRequest) (auth : ExecAuth) := execute_gated_streaming_inner req auth false RE_Execute.
Definition execute_gated_streaming_llm_channel (req : ExecuteRequest) (auth : ExecAuth) :=
  execute_gated_streaming_inner req auth true RE_Llm.
End streaming.

(** ** Facts *)

Section facts.
Context {UC : UrlCrate} {GC : GlobCrate} {EC : UrlEncodingCrate} {SJ : SerdeJson} {SH : Sha256}.
Context {RC : RegexCrate} {EN : Encoders} {HC : HttpCrates} {JR : JsonReader} {EV : Environment}.
Context (clk : Clock) (cfg : GatewayConfig) (acfg : ApprovalConfig) (egress : list EgressRule).
Context (averin : option AverinConfig) (has_notifiers : bool) (lcfg : LlmProxyConfig) (card : option RateCard).

(** No declared spelling of the secrets is in the head, nor in any body the client may see. *)
Definition body_shows_no (form : string) (b : StreamBody) : Prop :=
  match b with
  | SB_Once chunk => ¬ appears (as_bytes form) chunk
  | SB_Live task => ∀ inputs drained runtime,
      let q := st_producer (task inputs drained runtime) in
      ¬ appears (as_bytes form) (concat (pd_sent q)) ∧ ¬ appears (as_bytes form) (pd_frame q)
      ∧ (pd_lost q = [] → ¬ appears (as_bytes form) (concat (pd_sent q) ++ pd_frame q))
  end.
Definition shows_no_secret (secrets : list string) (x : StreamingExecution) : Prop :=
  ∀ form, form ∈ derive_secret_forms secrets →
    (∀ k v, sx_headers x !! k = Some v → ¬ appears (as_bytes form) (as_bytes v)) ∧ body_shows_no form (sx_body x).

Lemma derived_nonempty secrets form : form ∈ derive_secret_forms secrets → form ≠ "".
Proof. intros H%derived_form_length. intros ->. unfold MIN_REDACT_LEN in H. cbn in H. lia. Qed.
Lemma without_framing_lookup h k v : without_framing h !! k = Some v → h !! k = Some v.
Proof. unfold without_framing. by intros [H _]%map_lookup_filter_Some. Qed.

Lemma once_shows secrets status chunk :
  (∀ form, form ∈ derive_secret_forms secrets → ¬ appears (as_bytes form) chunk) →
  shows_no_secret secrets {| sx_status := status; sx_headers := ∅; sx_body := SB_Once chunk |}.
Proof. intros H form Hin. split; [intros k v; cbn [sx_headers]; by rewrite lookup_empty|by apply H]. Qed.
Lemma empty_shows secrets form : form ∈ derive_secret_forms secrets → ¬ appears (as_bytes form) [].
Proof. intros H. apply appears_nil, as_bytes_nonempty. by eapply derived_nonempty. Qed.
Lemma placeholder_shows secrets max_line form :
  form ∈ derive_secret_forms secrets → ¬ appears (as_bytes form) (terminate_with (scrubber_new secrets max_line) COMPRESSED_PLACEHOLDER).1.
Proof.
  intros H. pose proof (terminate_safe (scrubber_new secrets max_line) [] COMPRESSED_PLACEHOLDER (as_bytes form) (scrubber_new_inv secrets max_line)) as Hs.
  cbn [app] in Hs. apply Hs. by apply form_bytes.
Qed.
Lemma minted_shows secrets minted x : shows_no_secret (scrub_set_with_minted secrets minted) x → shows_no_secret secrets x.
Proof.
  intros H form Hin. apply H. eapply derived_forms_mono; [|exact Hin]. intros y Hy. destruct minted; cbn; set_solver.
Qed.
Lemma live_shows secrets ctx max_bytes max_line evidence head :
  shows_no_secret secrets
    {| sx_status := sh_status head; sx_headers := without_framing (confine_stream_headers (sh_headers head) (derive_secret_forms secrets)).1;
       sx_body := SB_Live (stream_tail ctx max_bytes secrets max_line evidence) |}.
Proof.
  intros form Hin. split; cbn [sx_headers sx_body body_shows_no].
  - intros k v Hv%without_framing_lookup. by eapply confined_headers_show_no_form; [| |exact Hv]; [|eapply derived_nonempty].
  - intros inputs drained runtime. by apply tail_confined.
Qed.
Lemma buffered_shows p plugin params resp :
  confined egress p plugin params resp → shows_no_secret (secret_material (cr_data (ay_credential p))) (buffered_as_stream resp).
Proof.
  intros (answer & _ & ->) form Hin.
  destruct (confine_shows_no_form answer.1 (scrub_set_with_minted (secret_material (cr_data (ay_credential p))) (secret_material <$> answer.2))
    (cr_alias (ay_credential p)) egress (full_action_of (ay_plugin_name p) (ay_action_name p)) form) as [Hb Hh].
  { left. eapply derived_forms_mono; [|exact Hin]. intros y Hy. destruct answer.2; cbn; set_solver. }
  { by eapply derived_nonempty. }
  split; [|exact Hb]. intros k v Hv%without_framing_lookup. by eapply Hh.
Qed.

(** The answer of a payload. *)
Definition streamed (p : ActionPayload) (plugin : Plugin) (params : Value) : StreamingExecution → Prop :=
  shows_no_secret (secret_material (cr_data (ay_credential p))).

Lemma tr_open_upstream name plugin rq evidence secrets :
  open_upstream name plugin rq evidence secrets ⊨ (λ r tr, ∃ b, tr = FX_Execute name rq :: b ∧ all_benign b
    ∧ match r with Ok _ => True | Err e => re_committed e = true ∧ re_retryable e = false end).
Proof.
  apply tr_emit_then. apply (tr_weaken _ (λ r b, all_benign b
    ∧ match r with Ok _ => True | Err e => re_committed e = true ∧ re_retryable e = false end)); [|eauto].
  apply (mild_bind _ _ (λ _, True)); [apply mild_await|]. intros _ _. destruct (pl_execute_streaming plugin rq) as [h|m]; [by apply mild_ret|].
  eapply mild_bind; [apply mild_close|]. intros _ _. by apply mild_fail.
Qed.
Lemma mild_withhold p evidence status chunk :
  gentle (withhold_stream p evidence status chunk) (λ x, x = {| sx_status := status; sx_headers := ∅; sx_body := SB_Once chunk |}) (λ _, False).
Proof.
  eapply mild_bind; [by apply mild_emit|]. intros _ _. eapply mild_bind; [apply mild_close|]. intros _ _. by apply mild_ret.
Qed.

Lemma tr_open_stream p plugin params bytes uses :
  open_stream averin lcfg card p plugin params bytes uses ⊨ (λ r tr, dispatched_as (streamed p plugin params) p params r tr ∨ ended_unsent r tr).
Proof.
  eapply tr_mild; [apply unsent_seal_evidence|intros e tr ? ?; right; split; eauto using benign_plain|].
  intros evidence b Hb _. eapply tr_bind; [apply (tr_fence p)|intros e tr [? ?]; right; split; eauto using all_plain_app, benign_plain|].
  intros [] fe (v & -> & Hv). eapply tr_bind; [apply (tr_open_upstream _ plugin (plugin_request p params))| |].
  { intros e tr (a & -> & Ha & He). left. exists b, v, a. done. }
  intros head tr (a & -> & Ha & _). eapply tr_mild; [apply mild_persist|done|]. intros _ a' Ha' _.
  set (secrets := scrub_set_with_minted _ _).
  apply (tr_weaken _ (λ r c, all_benign c ∧ ∃ x, r = Ok x ∧ shows_no_secret secrets x)).
  - assert (Hw : ∀ chunk, (∀ form, form ∈ derive_secret_forms secrets → ¬ appears (as_bytes form) chunk) →
      withhold_stream p evidence (sh_status head) chunk ⊨ (λ r c, all_benign c ∧ ∃ x, r = Ok x ∧ shows_no_secret secrets x)).
    { intros chunk Hc. eapply tr_weaken; [apply mild_withhold|]. intros [x|e] c [? Hx]; [|done]. subst x.
      split; [done|]. eexists; split; [done|]. by apply once_shows. }
    destruct (has_unredactable_secret secrets); [apply Hw, empty_shows|].
    destruct (headers_indicate_compression _); [apply Hw; intros form; apply placeholder_shows|].
    apply tr_ret. split; [apply all_benign_nil|]. eexists; split; [done|apply live_shows].
  - intros r c (Hc & x & -> & Hx). left. exists b, v, (a ++ a' ++ c). split; [done|].
    split_and!; auto with gateway. by eapply minted_shows.
Qed.

Lemma tr_in_stream_session {E A} e (body : M E A) Q : body ⊨ Q → in_stream_session e body ⊨ Q.
Proof.
  intros H. apply tr_update_then. eapply tr_try_then; [exact H|]. intros [a|x] tr Hr; [|apply tr_update_then];
    (apply tr_ret || apply tr_fail); by rewrite app_nil_r.
Qed.
Lemma tr_run_action_streaming authorized :
  run_action_streaming averin lcfg card authorized ⊨ paid_run (streamed (au_payload authorized)) (au_payload authorized).
Proof.
  eapply tr_mild; [apply unsent_preflight|intros e tr ? ?; left; split; eauto using benign_plain|].
  intros [[plugin params] bytes] b Hb Hready. eapply tr_bind; [apply tr_reserve| |].
  { intros e tr [-> He]. left. rewrite app_nil_r. split; eauto using benign_plain. }
  intros uses pay Hpay. apply tr_tick_then. intros n. apply tr_in_stream_session.
  eapply tr_weaken; [apply tr_open_stream|]. intros r a Ha. right. exists b, pay, a. split_and!; [done..|].
  destruct Ha; [right|by left]. by exists (plugin, params, bytes).
Qed.

(** A run whose answer is mapped. *)
Lemma tr_map_run {A B} (f : A → B) p (Q : Plugin → Value → A → Prop) (Q' : Plugin → Value → B → Prop) (m : M RunError A) :
  (∀ plugin params x, Q plugin params x → Q' plugin params (f x)) → m ⊨ paid_run Q p → (let* x := m in m_ret (f x)) ⊨ paid_run Q' p.
Proof.
  intros HQ Hm. eapply tr_bind; [exact Hm| |].
  - intros e tr [[? ?]|(b & pay & a & -> & ? & ? & [[? ?]|(rd & ? & x & v & y & -> & ? & ? & ? & ?)])].
    + left. split; [done|]. naive_solver.
    + right. exists b, pay, a. split_and!; [done..|]. left. split; [done|]. naive_solver.
    + right. eexists b, pay, _. split_and!; [done..|]. right. exists rd. split; [done|]. by exists x, v, y.
  - intros x tr Hx. apply tr_ret. rewrite app_nil_r.
    destruct Hx as [[_ (e & [=] & _)]|(b & pay & a & -> & ? & ? & [[_ (e & [=] & _)]|(rd & ? & l & v & y & -> & ? & ? & ? & ?)])].
    right. eexists b, pay, _. split_and!; [done..|]. right. exists rd. split; [done|]. exists l, v, y. split_and!; auto.
Qed.
Lemma tr_run_streamed ready :
  run_streamed egress averin lcfg card ready ⊨ paid_run (streamed (au_payload ready)) (au_payload ready).
Proof.
  unfold run_streamed. destruct (_ || _); [|apply tr_run_action_streaming].
  eapply tr_map_run; [|apply tr_run_action]. intros plugin params x. apply buffered_shows.
Qed.
Lemma tr_gated_streaming req auth via entry :
  execute_gated_streaming_inner clk cfg acfg egress averin has_notifiers lcfg card req auth via entry
  ⊨ gated_as clk cfg streamed SO_Pending SO_Streaming req auth.
Proof. apply tr_gated_as. apply tr_run_streamed. Qed.

(** C17: complete mediation of streamed requests.  A streamed request reaches a plugin only
    after the same steps as a buffered one, in the same order: the name resolved to the
    credential the plugin gets, the policy let exactly this request through, the catalog and
    the credential asked for no approval, the token was charged, and the kill fence was clear
    right before the stream was opened; and one stream is opened at most. *)
Theorem streamed_dispatch_is_authorized req auth via entry w r w' tr name rq :
  execute_gated_streaming_inner clk cfg acfg egress averin has_notifiers lcfg card req auth via entry w = (r, w') →
  w_trace w' = w_trace w ++ tr → FX_Execute name rq ∈ tr → mediated clk cfg req auth tr name rq.
Proof.
  intros E Htr Hin. eapply gated_mediated; [|exact Hin]. exact (trace_of _ _ _ _ _ _ (tr_gated_streaming req auth via entry) E Htr).
Qed.

(** C18: what a streamed request answers shows no secret of its credential: not in a header
    of the head, not in the bytes of its body, whatever the upstream sends, however it is
    cut, and however the stream ends. *)
Theorem streamed_answer_is_confined req auth via entry w x w' :
  execute_gated_streaming_inner clk cfg acfg egress averin has_notifiers lcfg card req auth via entry w = (Ok (SO_Streaming x), w') →
  ∃ c, FX_Resolved (er_credential req) c ∈ w_trace w' ∧ shows_no_secret (secret_material (cr_data c)) x.
Proof.
  intros E. destruct (tr_gated_streaming req auth via entry w) as (tr & Htr & H). rewrite E in Htr, H. cbn in Htr, H.
  destruct H as [(a & [=] & _)|[(y & [=] & _)|Hran]].
  destruct Hran as (p & ready & adm & b & pay & a & c & r0 & -> & _ & _ & Hadm & _ & _ & Hd & Hr).
  destruct r0 as [x'|]; [injection Hr as <-|by destruct Hr].
  destruct Hd as (? & ? & ? & _ & _ & _ & _ & Hx).
  destruct Hadm as (b1 & b2 & b3 & b4 & e & caps & -> & _). exists (ay_credential p). split; [rewrite Htr; set_solver|done].
Qed.
End facts.
