(* ===== verification/LlmHandler.v ===== *)
(** * The handlers of the LLM proxy

    Models [resolve_exec_auth], [llm_proxy_impl] and the four routes of
    [src/src/web/llm_proxy.rs] in the gateway's monad: the bearer, the granted channel, the
    call of [LlmProxy], the gate of [Gateway] or [GatewayStream], and what the agent is told.

    [model_call_is_prepared_and_mediated] composes the parts: a plugin is reached only with
    the call that was prepared for a channel granted to the very principal of the bearer, and
    only through the gate.  What the bearer and the channel were looked up in is recorded in
    the trace ([FX_Token], [FX_Key], [FX_Listed], [FX_Weighed]); [authenticated] and [granted]
    speak of those readings. *)

From stdpp Require Import base gmap strings list.
From Stdlib Require Import Ascii ZArith Lia.
From S2P Require Import Prelude RustStr PolicyTypes Precedence UrlCanon RateLimit Json Kernel PolicyEngine KillFence.
From S2P Require Import Outbox Approval ApprovalStore Egress Tokens Auth Ssrf Credential HttpPlugin VaultCollections.
From S2P Require Import Capability Catalog Sessions RateCard Metering StreamTail LlmGate LlmProxy.
From S2P Require Import GatewayBase Gateway GatewayHalt GatewayFacts GatewayStream.

Open Scope Z_scope.

(** What an error response stands for. *)
Inductive LlmFailure :=
| LF_NoBearer | LF_UnknownToken | LF_TokenUnusable (e : UseTokenInvalid) | LF_Key (e : AuthManagerError)
| LF_Channel (r : LlmChannelRefusal) | LF_Refused (r : LlmRefusal) | LF_Pending (approval : string)
| LF_Denied | LF_Misconfigured (key : string) | LF_Upstream.
Inductive LlmAnswer :=
| LA_Error (status : Z) (kind : string) (why : LlmFailure)
| LA_Body (status : Z) (content_type : string) (body : bytes)
| LA_Stream (status : Z) (content_type : string) (body : StreamBody).

(** [misconfigured_key]; the reason of a [CredentialConfig], read off the error's text when
    a plugin raised it. *)
Definition META_KEYS : list string := ["anthropic_workspace_id"; "openai_organization_id"; "openai_project_id"].
Definition misconfigured_key (reason : string) : string :=
  default "credential metadata" (List.find (λ k, contains k reason) META_KEYS).
Definition credential_config (e : PluginFailure) : option string :=
  match e with
  | PF_Scope (PE_CredentialConfig meta) => Some meta
  | PF_Message m => strip_prefix "Credential configuration error: " m
  | _ => None
  end.

(** What the agent is told of an error; the detail stays in the log. *)
Definition answer_error (e : VultrinoError) : LlmAnswer :=
  match e with
  | VE_PolicyDenied _ => LA_Error 403 "permission_error" LF_Denied
  | VE_Plugin f =>
      match credential_config f with
      | Some reason => LA_Error 500 "api_error" (LF_Misconfigured (misconfigured_key reason))
      | None => LA_Error 502 "api_error" LF_Upstream
      end
  | _ => LA_Error 502 "api_error" LF_Upstream
  end.
Definition answer_pending (a : ApprovalRequest) : LlmAnswer := LA_Error 403 "permission_error" (LF_Pending (ap_id a)).

(** [StatusCode::from_u16] with its fallback, and the content type of a response. *)
Definition answer_status (s : Z) : Z := if (100 <=? s) && (s <? 1000) then s else 502.
Definition content_type_of (h : gmap string string) (otherwise : string) : string :=
  default otherwise (snd <$> List.find (λ kv : string * string, eq_ignore_ascii_case kv.1 "content-type") (map_to_list h)).

Definition LLM_PRE_CAPABILITY_ACTION : string := "llm.proxy".

Section handler.
Context {UC : UrlCrate} {GC : GlobCrate} {NS : NetStd} {EC : UrlEncodingCrate} {SJ : SerdeJson} {SH : Sha256} {SD : Sha256Digest}.
Context {RC : RegexCrate} {EN : Encoders} {HC : HttpCrates} {UQ : UrlQuery} {JR : JsonReader} {EV : Environment}.
Context (clk : Clock) (cfg : GatewayConfig) (acfg : ApprovalConfig) (egress : list EgressRule).
Context (averin : option AverinConfig) (has_notifiers : bool) (lcfg : LlmProxyConfig).

(** [note_llm_refusal]. *)
Definition llm_refusal_ctx (auth : ExecAuth) (cap : option Capability) : RefusalCtx :=
  let ctx := refusal_ctx RE_Llm ((λ a, (ak_id (ar_api_key a), ak_agent_label (ar_api_key a))) <$> ea_auth auth)
               (match cap with Some c => cap_action c | None => LLM_PRE_CAPABILITY_ACTION end) in
  match cap with Some c => refusal_resolved (cap_credential_ref c) (cap_action c) ctx | None => ctx end.
Definition note_llm_refusal {E} (auth : ExecAuth) (cap : option Capability) (class : option RefusalClass) : M E unit :=
  match class with Some k => note_gateway_refusal averin (llm_refusal_ctx auth cap) k | None => m_ret tt end.

(** [resolve_exec_auth]; [manager] is the key manager at the moment it is read. *)
Definition resolve_exec_auth {E} (manager : AuthManager) (secret : string) : M E (result ExecAuth LlmAnswer) :=
  if looks_like_use_token secret
  then
    let* _ := m_try reload in
    let* found := m_try (cache_read (λ s, (sto_tokens s, get_use_token_by_hash (sto_tokens s) (hash_token secret)))) in
    match found with
    | Ok (v, Some t) =>
        let* n := tick in
        let* _ := emit (FX_Token v (env_now n)) in
        match check_usable (env_now n) t with
        | Ok _ => m_ret (Ok (from_use_token t))
        | Err e =>
            let* _ := note_gateway_refusal averin (refusal_ctx RE_Llm (Some (ut_id t, ut_agent_label t)) LLM_PRE_CAPABILITY_ACTION)
                        RC_TokenUnusable in
            m_ret (Err (LA_Error 403 "permission_error" (LF_TokenUnusable e)))
        end
    | _ => m_ret (Err (LA_Error 401 "invalid_request_error" LF_UnknownToken))
    end
  else
    let* _ := await in
    let* n := tick in
    let* _ := emit (FX_Key (env_now n)) in
    m_ret match validate_key (env_now n) secret manager with
          | Ok (key, role) => Ok (from_api_key {| ar_api_key := key; ar_role := role |})
          | Err e => Err (LA_Error 401 "invalid_request_error" (LF_Key e))
          end.

(** Running the call, and the answer. *)
Definition answer_streamed (r : result StreamingOutcome VultrinoError) : LlmAnswer :=
  match r with
  | Ok (SO_Streaming x) =>
      LA_Stream (answer_status (sx_status x)) (content_type_of (sx_headers x) "text/event-stream") (sx_body x)
  | Ok (SO_Pending a) => answer_pending a
  | Err e => answer_error e
  end.
Definition answer_buffered (r : result ExecutionOutcome VultrinoError) : LlmAnswer :=
  match r with
  | Ok (EO_Completed resp) =>
      LA_Body (answer_status (resp_status resp)) (content_type_of (resp_headers resp) "application/json") (resp_body resp)
  | Ok (EO_Pending a) => answer_pending a
  | Err e => answer_error e
  end.
Definition run_call {E} (card : option RateCard) (req : ExecuteRequest) (auth : ExecAuth) (streaming : bool) : M E LlmAnswer :=
  if streaming
  then let* r := m_try (execute_gated_streaming_llm_channel clk cfg acfg egress averin has_notifiers lcfg card req auth) in
       m_ret (answer_streamed r)
  else let* r := m_try (execute_gated_llm_channel clk cfg acfg egress averin has_notifiers req auth) in
       m_ret (answer_buffered r).

(** [llm_proxy_impl]; [cards] are what the rate card's handle answers at the gate and when
    the stream starts, [env] the process environment. *)
Definition llm_proxy_impl {E} (manager : AuthManager) (env : string → option string) (cards : option RateCard * option RateCard)
    (channel : option string) (path : string) (query : list (string * string)) (headers : HeaderMap) (body : bytes) : M E LlmAnswer :=
  match extract_bearer headers with
  | None => m_ret (LA_Error 401 "invalid_request_error" LF_NoBearer)
  | Some secret =>
      let* authenticated := resolve_exec_auth manager secret in
      match authenticated with
      | Err answer => m_ret answer
      | Ok auth =>
          let* resolved := m_try (resolve_llm_proxy_channel_for clk (ea_auth auth) channel) in
          match resolved with
          | Err refusal =>
              let* _ := note_llm_refusal auth None (llm_refusal_class refusal) in
              m_ret (LA_Error 403 "permission_error" (LF_Channel refusal))
          | Ok cap =>
              match cap_llm cap with
              | None => m_ret (LA_Error 500 "api_error" LF_Upstream)
              | Some llm =>
                  match llm_prepare env lcfg cards.1 cap llm channel path query headers body with
                  | Err refusal =>
                      let* _ := note_llm_refusal auth (Some cap) (call_refusal_class refusal) in
                      let '(status, kind) := call_refusal_status refusal in
                      m_ret (LA_Error status kind (LF_Refused refusal))
                  | Ok call => run_call cards.2 (call_request cap call) auth (mc_streaming call)
                  end
              end
          end
      end
  end.

(** [llm_proxy_root], [llm_proxy], [llm_proxy_channel], [llm_proxy_channel_root]. *)
Definition llm_proxy_root {E} manager env cards query headers body : M E LlmAnswer :=
  llm_proxy_impl manager env cards None "" query headers body.
Definition llm_proxy {E} manager env cards path query headers body : M E LlmAnswer :=
  llm_proxy_impl manager env cards None path query headers body.
Definition llm_proxy_channel {E} manager env cards channel path query headers body : M E LlmAnswer :=
  llm_proxy_impl manager env cards (Some channel) path query headers body.
Definition llm_proxy_channel_root {E} manager env cards channel query headers body : M E LlmAnswer :=
  llm_proxy_impl manager env cards (Some channel) "" query headers body.
End handler.

(** ** Facts *)

Section facts.
Context {UC : UrlCrate} {GC : GlobCrate} {NS : NetStd} {EC : UrlEncodingCrate} {SJ : SerdeJson} {SH : Sha256} {SD : Sha256Digest}.
Context {RC : RegexCrate} {EN : Encoders} {HC : HttpCrates} {UQ : UrlQuery} {JR : JsonReader} {EV : Environment}.
Context (clk : Clock) (cfg : GatewayConfig) (acfg : ApprovalConfig) (egress : list EgressRule).
Context (averin : option AverinConfig) (has_notifiers : bool) (lcfg : LlmProxyConfig).

(** Whom a secret stands for, by what the trace read: the stored token with its hash, in the
    tokens that were looked up and at the time it was judged, or the key that was valid then. *)
Definition token_of (secret : string) (t : UseToken) (now : DateTime) (tr : list Effect) : Prop :=
  ∃ v, FX_Token v now ∈ tr ∧ get_use_token_by_hash v (hash_token secret) = Some t.
Definition key_of (manager : AuthManager) (secret : string) (a : AuthResult) (tr : list Effect) : Prop :=
  ∃ now, FX_Key now ∈ tr ∧ starts_with KEY_PREFIX secret = true ∧ am_keys_by_hash manager !! hash_key secret = Some (ar_api_key a)
  ∧ (∀ e, ak_expires_at (ar_api_key a) = Some e → now < e) ∧ get_role manager (ak_role_id (ar_api_key a)) = Some (ar_role a).
Definition usable_at (now : DateTime) (t : UseToken) : Prop :=
  ut_revoked t = false ∧ (∀ e, ut_expires_at t = Some e → now < e) ∧ (∀ m, ut_max_uses t = Some m → ut_uses t < m).
Definition authenticated (manager : AuthManager) (secret : string) (auth : ExecAuth) (tr : list Effect) : Prop :=
  (∃ t now, token_of secret t now tr ∧ usable_at now t ∧ auth = from_use_token t)
  ∨ ∃ a, key_of manager secret a tr ∧ auth = from_api_key a.

(** A capability a principal holds, by what the trace read: the credential it names was found,
    the principal may use it, and the engine it was weighed with does not deny it. *)
Definition may_use_it (a : AuthResult) (c : Credential) : Prop :=
  has_permission (ar_role a) P_Execute = true ∧ can_access_credential (ar_role a) (cr_alias c) = true
  ∧ ∀ t, credential_tenant c = Some t → ak_tenant (ar_api_key a) = Some t.
Definition granted (auth : option AuthResult) (cap : Capability) (tr : list Effect) : Prop :=
  ∃ c e, FX_Weighed (cap_credential_ref cap) c e ∈ tr ∧ (∀ a, auth = Some a → may_use_it a c)
  ∧ is_deny (evaluate_readonly_full clk e
      {| in_credential_alias := cr_alias c; in_url := ct_url_glob (cap_target cap); in_method := effective_http_method cap;
         in_action := Some (cap_action cap); in_principal := principal_of <$> auth; in_spend := None |}).1 = false.
Definition listed_in (tr : list Effect) (cap : Capability) : Prop := ∃ caps, FX_Listed caps ∈ tr ∧ cap ∈ caps.
Definition answers_to (channel : option string) (cap : Capability) : Prop :=
  ∀ name, channel = Some name → cap_id cap = name ∨ cap_tool_name cap = name.

Lemma usable_now now t : check_usable now t = Ok tt → usable_at now t.
Proof.
  intros (H1 & H2 & H3)%check_usable_ok. unfold use_token_expired, past in H2. unfold is_exhausted in H3. split_and!; [done| |].
  - intros e He. rewrite He in H2. by apply Z.leb_gt.
  - intros m Hm. rewrite Hm in H3. by apply Z.leb_gt.
Qed.
Lemma may_use_spec a c : may_use a c = true → may_use_it a c.
Proof.
  unfold may_use. intros [[H1 H2]%andb_true_iff H3]%andb_true_iff. split_and!; [done..|]. intros t Ht. rewrite Ht in H3.
  by apply bool_decide_eq_true in H3.
Qed.

Lemma key_was_valid manager secret now key role tr :
  FX_Key now ∈ tr → validate_key now secret manager = Ok (key, role) → key_of manager secret {| ar_api_key := key; ar_role := role |} tr.
Proof.
  intros Hin. unfold validate_key. destruct (starts_with KEY_PREFIX secret) eqn:Ep; [cbn [negb]|done].
  destruct (am_keys_by_hash manager !! hash_key secret) as [k|] eqn:Ek; [|done]. destruct (key_expired now k) eqn:Ee; [done|].
  destruct (get_role manager (ak_role_id k)) as [r|] eqn:Er; [|done]. intros [= <- <-]. exists now. split_and!; [done..| |done].
  intros e He. cbn in He. revert Ee. unfold key_expired, past. rewrite He. by intros ?%Z.leb_gt.
Qed.

(** What was read stays read. *)
Lemma token_of_app secret t now a b : token_of secret t now a ∨ token_of secret t now b → token_of secret t now (a ++ b).
Proof. intros [(v & ? & ?)|(v & ? & ?)]; exists v; set_solver. Qed.
Lemma key_of_app manager secret k a b : key_of manager secret k a ∨ key_of manager secret k b → key_of manager secret k (a ++ b).
Proof. intros [(now & ? & ?)|(now & ? & ?)]; exists now; set_solver. Qed.
Lemma authenticated_app manager secret auth a b :
  authenticated manager secret auth a ∨ authenticated manager secret auth b → authenticated manager secret auth (a ++ b).
Proof.
  intros [[(t & now & H & ?)|(k & H & ?)]|[(t & now & H & ?)|(k & H & ?)]]; [left; exists t, now|right; exists k|left; exists t, now|right; exists k];
    (split; [apply token_of_app || apply key_of_app; auto|done]).
Qed.
Lemma granted_app auth cap a b : granted auth cap a ∨ granted auth cap b → granted auth cap (a ++ b).
Proof. intros [(c & e & ? & ?)|(c & e & ? & ?)]; exists c, e; (split; [set_solver|done]). Qed.
Lemma listed_app a b cap : listed_in a cap ∨ listed_in b cap → listed_in (a ++ b) cap.
Proof. intros [(l & ? & ?)|(l & ? & ?)]; exists l; set_solver. Qed.

Lemma tr_capability_allowed {E} auth cap :
  capability_allowed_for (E := E) clk auth cap ⊨ (λ r tr, all_benign tr ∧ (r = Ok true → granted auth cap tr)).
Proof.
  apply tr_try_quiet; [apply resolve_silent|]. intros [c|]; [|apply tr_ret; split; [apply all_benign_nil|done]].
  destruct (match auth with Some a => may_use a c | None => true end) eqn:Em; cbn [negb]; [|apply tr_ret; split; [apply all_benign_nil|done]].
  apply tr_get_then. intros e. apply tr_emit_then. destruct (evaluate_readonly_full clk e _) as [d e'] eqn:Ev. apply tr_update_then, tr_ret.
  split; [by apply all_benign_one|]. intros [= Hd%negb_true_iff]. exists c, e. rewrite Ev. split_and!; [by left| |done].
  intros a ->. by apply may_use_spec.
Qed.
Lemma tr_allowed_among {E} auth caps :
  allowed_among (E := E) clk auth caps ⊨ (λ r tr, all_benign tr ∧ ∀ l cap, r = Ok l → cap ∈ l → cap ∈ caps ∧ granted auth cap tr).
Proof.
  induction caps as [|cap caps IH]; cbn [allowed_among].
  { apply tr_ret. split; [apply all_benign_nil|]. intros l x [= <-] ?%elem_of_nil. done. }
  eapply tr_bind; [apply tr_capability_allowed|intros e tr [Hb _]; split; [done|by intros ? ? [=]]|]. intros ok tr1 [Hb1 Hok].
  eapply tr_bind; [apply IH|intros e tr [Hb _]; split; [by apply all_benign_app|by intros ? ? [=]]|]. intros others tr2 [Hb2 Ho]. apply tr_ret.
  rewrite app_nil_r. split; [by apply all_benign_app|]. intros l x [= <-] Hx.
  assert (Hrest : x ∈ others → x ∈ cap :: caps ∧ granted auth x (tr1 ++ tr2)).
  { intros Hin. destruct (Ho _ _ eq_refl Hin). split; [by right|]. apply granted_app. by right. }
  destruct ok; [|auto]. apply elem_of_cons in Hx as [->|Hx]; [|auto]. split; [by left|]. apply granted_app. left. auto.
Qed.
Lemma tr_channel auth channel :
  resolve_llm_proxy_channel_for clk auth channel ⊨ (λ r tr, all_benign tr ∧
    ∀ cap, r = Ok cap → granted auth cap tr ∧ listed_in tr cap ∧ is_Some (cap_llm cap) ∧ answers_to channel cap).
Proof.
  apply tr_try_quiet; [apply locked_read_silent|]. intros _. apply tr_try_quiet; [apply cache_read_silent|].
  intros [caps|]; [|apply tr_fail; split; [apply all_benign_nil|done]]. apply tr_emit_then.
  eapply tr_bind; [apply tr_allowed_among|intros e tr [Hb _]; split; [by constructor|done]|]. intros allowed tr [Hb Hin].
  set (tr' := FX_Listed caps :: tr). assert (Hb' : all_benign tr') by (by constructor).
  assert (Hok : ∀ cap, cap ∈ allowed → granted auth cap tr' ∧ listed_in tr' cap ∧ is_Some (cap_llm cap)).
  { intros cap H. destruct (Hin _ _ eq_refl H) as [Hl Hg]. apply list_elem_of_In in Hl. apply List.filter_In in Hl as [Hc Hl].
    split_and!; [apply (granted_app _ _ [_]); by right|exists caps; split; [by left|by apply list_elem_of_In]|by apply bool_decide_eq_true in Hl]. }
  apply (tr_weaken _ (λ r t, t = [] ∧ ∀ cap, r = Ok cap → cap ∈ allowed ∧ answers_to channel cap)).
  - destruct channel as [name|].
    + destruct (List.find _ allowed) as [cap|] eqn:Ef; [|by apply tr_fail]. apply tr_ret. split; [done|]. intros cap' [= <-].
      apply List.find_some in Ef as [Hi Hn]. apply list_elem_of_In in Hi. split; [done|].
      intros n [= <-]. by apply orb_true_iff in Hn as [?%String.eqb_eq|?%String.eqb_eq]; [left|right].
    + destruct allowed as [|cap [|]]; [by apply tr_fail| |by apply tr_fail]. apply tr_ret. split; [done|]. intros cap' [= <-].
      split; [by left|done].
  - intros r t [-> Hr]. rewrite app_nil_r. split; [done|]. intros cap Hcap. destruct (Hr cap Hcap) as [Hc Ha].
    destruct (Hok cap Hc) as (? & ? & ?). by split_and!.
Qed.
Lemma mild_note_llm {E} auth cap class (R : E → Prop) : gentle (note_llm_refusal averin auth cap class) (λ _, True) R.
Proof. destruct class; [apply mild_note|by apply mild_ret]. Qed.
Lemma tr_exec_auth {E} manager secret :
  resolve_exec_auth (E := E) averin manager secret ⊨ (λ r tr, all_benign tr ∧ ∀ auth, r = Ok (Ok auth) → authenticated manager secret auth tr).
Proof.
  unfold resolve_exec_auth. destruct (looks_like_use_token secret).
  - apply tr_try_quiet; [apply locked_read_silent|]. intros _.
    eapply tr_try_then; [apply tr_cache_read|]. intros [[v [t|]]|] tr [-> Hs]; [|apply tr_ret; (split; [apply all_benign_nil|by intros ? [=]])..].
    destruct (Hs _ eq_refl) as (s & [= -> Ht]). apply tr_tick_then. intros n. apply tr_emit_then.
    destruct (check_usable (env_now n) t) as [[]|e] eqn:Eu.
    + apply tr_ret. split; [by apply all_benign_one|]. intros auth [= <-]. left. exists t, (env_now n).
      split_and!; [|by apply usable_now|done]. exists (sto_tokens s). split; [by left|done].
    + eapply (tr_mild _ _ _ (λ _, False)); [apply mild_note|done|]. intros _ tr Htr _. apply tr_ret. cbn [app].
      rewrite app_nil_r. split; [by constructor|]. by intros auth [=].
  - apply tr_await_then, tr_tick_then. intros n. apply tr_emit_then, tr_ret. split; [by apply all_benign_one|]. intros auth.
    destruct (validate_key (env_now n) secret manager) as [[key role]|e] eqn:Ev; [|by intros [=]]. intros [= <-]. right.
    eexists. split; [|done]. eapply key_was_valid; [by left|done].
Qed.

(** Behind the gate. *)
Definition gated_call (req : ExecuteRequest) (auth : ExecAuth) (tr : list Effect) : Prop :=
  ∀ name rq, FX_Execute name rq ∈ tr → mediated clk cfg req auth tr name rq.
Lemma tr_run_call {E} card req auth streaming :
  run_call (E := E) clk cfg acfg egress averin has_notifiers lcfg card req auth streaming ⊨ (λ _ tr, gated_call req auth tr).
Proof.
  unfold run_call. destruct streaming.
  - eapply tr_try_then; [apply tr_gated_streaming|]. intros r tr H. apply tr_ret. rewrite app_nil_r. intros name rq. by apply (gated_mediated _ _ _ _ _ _ _ _ _ _ _ H).
  - eapply tr_try_then; [apply tr_gated|]. intros r tr H. apply tr_ret. rewrite app_nil_r. intros name rq. by apply (gated_mediated _ _ _ _ _ _ _ _ _ _ _ H).
Qed.

(** The whole request: nothing but noted refusals, or a prepared call behind the gate. *)
Definition proxied manager env (cards : option RateCard * option RateCard) channel path query headers body (tr : list Effect) : Prop :=
  ∃ secret auth cap llm call noted run,
    extract_bearer headers = Some secret ∧ authenticated manager secret auth noted
    ∧ listed_in noted cap ∧ granted (ea_auth auth) cap noted ∧ answers_to channel cap ∧ cap_llm cap = Some llm
    ∧ llm_prepare env lcfg cards.1 cap llm channel path query headers body = Ok call
    ∧ tr = noted ++ run ∧ all_benign noted ∧ gated_call (call_request cap call) auth run.
Lemma tr_llm_proxy {E} manager env cards channel path query headers body :
  llm_proxy_impl (E := E) clk cfg acfg egress averin has_notifiers lcfg manager env cards channel path query headers body
  ⊨ (λ _ tr, all_benign tr ∨ proxied manager env cards channel path query headers body tr).
Proof.
  unfold llm_proxy_impl. destruct (extract_bearer headers) as [secret|] eqn:Es; [|apply tr_ret; left; auto with gateway].
  eapply tr_bind; [apply tr_exec_auth|intros e tr [? _]; by left|]. intros [auth|answer] b [Hb Hauth];
    [|apply tr_ret; left; auto with gateway].
  eapply tr_try_then; [apply tr_channel|]. intros [cap|refusal] bc [Hbc Hcap].
  - destruct (Hcap _ eq_refl) as (Hg & Hlist & [llm Hl] & Hch). rewrite Hl.
    destruct (llm_prepare env lcfg cards.1 cap llm channel path query headers body) as [call|refusal] eqn:Ep.
    + eapply tr_weaken; [apply tr_run_call|]. intros ? run Hrun. right.
      exists secret, auth, cap, llm, call, (b ++ bc), run. rewrite <- app_assoc.
      split_and!; auto using authenticated_app, granted_app, listed_app, all_benign_app.
    + eapply (tr_mild _ _ _ (λ _, False)); [apply mild_note_llm|done|]. intros _ b' Hb' _. destruct (call_refusal_status refusal).
      apply tr_ret. left. auto with gateway.
  - eapply (tr_mild _ _ _ (λ _, False)); [apply mild_note_llm|done|]. intros _ b' Hb' _. apply tr_ret. left. auto with gateway.
Qed.

(** C13: a model request reaches a provider only as a prepared call of a granted channel.  If
    a request to the proxy calls a plugin, its trace begins with reads by which the bearer
    authenticated, as a stored token with its hash that was not revoked, expired or used up
    at the time of the reading, or as a key valid then; and by which the channel is one of
    the capabilities listed, the one it named if it named one, whose credential this
    principal may use and which the policy engine it was weighed with does not deny.  Every
    check of the call passed, and the plugin was called with that very call, scoped by the
    credential, after the whole gate of the gateway let it through. *)
Theorem model_call_is_prepared_and_mediated {E} manager env cards channel path query headers body w r w' tr name rq :
  llm_proxy_impl (E := E) clk cfg acfg egress averin has_notifiers lcfg manager env cards channel path query headers body w = (r, w') →
  w_trace w' = w_trace w ++ tr → FX_Execute name rq ∈ tr →
  ∃ secret auth cap llm call noted run,
    extract_bearer headers = Some secret ∧ authenticated manager secret auth noted
    ∧ listed_in noted cap ∧ granted (ea_auth auth) cap noted ∧ answers_to channel cap ∧ cap_llm cap = Some llm
    ∧ llm_prepare env lcfg cards.1 cap llm channel path query headers body = Ok call
    ∧ apply_workspace_scope_to_params (call_params call) (cr_metadata (pr_credential rq)) = Ok (pr_params rq)
    ∧ tr = noted ++ run ∧ all_benign noted ∧ mediated clk cfg (call_request cap call) auth run name rq.
Proof.
  intros Er Htr Hin. destruct (trace_of _ _ _ _ _ _ (tr_llm_proxy manager env cards channel path query headers body) Er Htr) as [Hb|Hp].
  { exfalso. by apply (plain_not_in (FX_Execute name rq) tr (benign_plain _ Hb)). }
  destruct Hp as (secret & auth & cap & llm & call & noted & run & ? & ? & ? & ? & ? & ? & ? & -> & Hn & Hrun).
  assert (Hm : mediated clk cfg (call_request cap call) auth run name rq).
  { apply Hrun. apply elem_of_app in Hin as [Hin|Hin]; [|done]. exfalso. by apply (plain_not_in (FX_Execute name rq) noted (benign_plain _ Hn)). }
  exists secret, auth, cap, llm, call, noted, run. split_and!; try done.
  destruct Hm as (? & ? & ? & ? & ? & ? & ? & ? & ? & H'). apply H'.
Qed.
End facts.
