(* ===== verification/Workload.v ===== *)
(** * Workload grants and the exchange of workload assertions

    Models [src/src/web/workload_exchange.rs]: an operator stores a grant for a workload; a
    workload presents an assertion signed by the edge and gets use tokens for it; a grant is
    removed with the tokens minted from it; a running workload polls whether it may go on.
    The handlers are computations in the gateway's monad, so other tasks and processes act at
    every await and any storage call may fail.  [require_admin] of [src/src/web/api.rs]
    stands in front of the operator's handlers.

    HMAC, base64 decoding and the derived reader of an assertion are class fields; a message
    of an error response is its code.

    [exchange_serves_only_granted_workloads] says to whom tokens go, [stored_grant_is_read_back]
    and [removed_workload_has_no_live_token] what storing and removing a grant leave;
    [one_generation_fills_the_cap] and [exchange_in_flight_outlives_its_grant] show where the
    code falls short of what it says of itself. *)

From stdpp Require Import base gmap strings list pretty.
From Stdlib Require Import Ascii ZArith Lia.
From S2P Require Import Prelude RustStr UrlCanon Json PolicyEngine Approval Egress Tokens Auth.
From S2P Require Import Capability CapabilityFacts Catalog RateLimit RateCard LlmGate Identity GatewayBase Gateway GatewayFacts.

Open Scope Z_scope.

(** ** Grants *)

(** [ChannelGrant], [WorkloadGrantTemplate]. *)
Record ChannelGrant := { cg_credential_scope : string; cg_action_scope : string }.
Record WorkloadGrantTemplate := {
  wt_tenant : string;
  wt_agent_label : string;
  wt_issuer : string;
  wt_subject : string;
  wt_audience : string;
  wt_mcp_credential_scope : string;
  wt_mcp_action_scope : string;
  wt_mcp_max_uses : option Z;
  wt_mcp_require_approval : bool;
  wt_model_channels : gmap string ChannelGrant;
  wt_ttl_secs : Z;
  wt_max_live_generations : option Z;
}.
Definition default_ttl : Z := 300.
Definition DEFAULT_MAX_LIVE_GENERATIONS : Z := 4.

(** The derived [Serialize], into a [Value]. *)
Definition channel_to_value (g : ChannelGrant) : Value :=
  jobject [("credential_scope", JString (cg_credential_scope g)); ("action_scope", JString (cg_action_scope g))].
Definition channels_to_value (m : gmap string ChannelGrant) : Value :=
  JObject (foldr (λ kv o, obj_insert kv.1 (channel_to_value kv.2) o) [] (map_to_list m)).
Definition int_value (n : Z) : Value := JNumber (if n <? 0 then NegInt n else PosInt n).
Definition opt_u32_value (o : option Z) : Value := match o with Some n => JNumber (PosInt n) | None => JNull end.
Definition template_to_value (t : WorkloadGrantTemplate) : Value :=
  jobject [("tenant", JString (wt_tenant t)); ("agent_label", JString (wt_agent_label t));
           ("issuer", JString (wt_issuer t)); ("subject", JString (wt_subject t)); ("audience", JString (wt_audience t));
           ("mcp_credential_scope", JString (wt_mcp_credential_scope t));
           ("mcp_action_scope", JString (wt_mcp_action_scope t)); ("mcp_max_uses", opt_u32_value (wt_mcp_max_uses t));
           ("mcp_require_approval", JBool (wt_mcp_require_approval t));
           ("model_channels", channels_to_value (wt_model_channels t)); ("ttl_secs", int_value (wt_ttl_secs t));
           ("max_live_generations", opt_u32_value (wt_max_live_generations t))].

(** The derived [Deserialize], from a [Value]: an object by name, an array by position. *)
Definition de_u32 (v : Value) : option Z :=
  match v with JNumber (PosInt n) => if n <=? 4294967295 then Some n else None | _ => None end.
Definition de_opt_u32 (v : Value) : option (option Z) :=
  match v with JNull => Some None | _ => Some <$> de_u32 v end.
Definition de_i64 (v : Value) : option Z :=
  match v with
  | JNumber (PosInt n) => if n <=? i64_max then Some n else None
  | JNumber (NegInt n) => Some n
  | _ => None
  end.
Definition channel_from_value (v : Value) : option ChannelGrant :=
  f ← de_struct 2 v;
  c ← f 0%nat "credential_scope" ≫= as_str;
  a ← f 1%nat "action_scope" ≫= as_str;
  Some {| cg_credential_scope := c; cg_action_scope := a |}.
Definition channels_from_value (v : Value) : option (gmap string ChannelGrant) :=
  m ← as_object v;
  l ← mapM (λ kv : string * Value, (λ g, (kv.1, g)) <$> channel_from_value kv.2) m;
  Some (foldl (λ acc kv, <[kv.1 := kv.2]> acc) ∅ l).
Definition template_from_value (v : Value) : option WorkloadGrantTemplate :=
  f ← de_struct 12 v;
  tenant ← f 0%nat "tenant" ≫= as_str;
  agent ← f 1%nat "agent_label" ≫= as_str;
  issuer ← f 2%nat "issuer" ≫= as_str;
  subject ← f 3%nat "subject" ≫= as_str;
  audience ← f 4%nat "audience" ≫= as_str;
  credential ← f 5%nat "mcp_credential_scope" ≫= as_str;
  action ← f 6%nat "mcp_action_scope" ≫= as_str;
  max_uses ← de_default None de_opt_u32 (f 7%nat "mcp_max_uses");
  approval ← de_default false as_bool (f 8%nat "mcp_require_approval");
  channels ← de_default ∅ channels_from_value (f 9%nat "model_channels");
  ttl ← de_default default_ttl de_i64 (f 10%nat "ttl_secs");
  generations ← de_default None de_opt_u32 (f 11%nat "max_live_generations");
  Some {| wt_tenant := tenant; wt_agent_label := agent; wt_issuer := issuer; wt_subject := subject;
          wt_audience := audience; wt_mcp_credential_scope := credential; wt_mcp_action_scope := action;
          wt_mcp_max_uses := max_uses; wt_mcp_require_approval := approval; wt_model_channels := channels;
          wt_ttl_secs := ttl; wt_max_live_generations := generations |}.

(** [grant_key]: the length of the tenant separates it from the agent. *)
Definition grant_key (tenant agent : string) : string := pretty (String.length tenant) +:+ ":" +:+ tenant +:+ agent.

(** [workload_token_request]. *)
Definition workload_token_request (name credential_scope action_scope : string) (max_uses : option Z)
    (require_approval : bool) (ttl_secs : Z) : NewUseToken :=
  {| nu_name := name; nu_credential_scope := credential_scope; nu_action_scope := Some action_scope;
     nu_max_uses := max_uses; nu_require_approval := require_approval; nu_expires_in := Some (seconds ttl_secs) |}.

(** ** Assertions *)

(** [WorkloadAssertion]; times are Unix seconds. *)
Record WorkloadAssertion := {
  wa_kind : string;
  wa_iss : string;
  wa_sub : string;
  wa_aud : string;
  wa_tenant : string;
  wa_agent_label : string;
  wa_jti : string;
  wa_exp : Z;
}.
Definition unix_secs (t : DateTime) : Z := t / nanos_per_sec.

(** [serde_json::from_slice] into an assertion. *)
Class AssertionSerde := { assertion_from_slice : string → option WorkloadAssertion }.

Inductive AssertionError :=
| AE_NotAssertion | AE_Malformed | AE_BadSignatureText | AE_SignatureInvalid | AE_BadPayload | AE_BadClaims
| AE_Kind | AE_Expired | AE_NoJti.

(** [verify_assertion] at a given time. *)
Definition verify_assertion `{MacCrates} `{AssertionSerde} (now : Z) (raw : string) (secrets : list string)
    : result WorkloadAssertion AssertionError :=
  match strip_prefix "vwa_" raw with
  | None => Err AE_NotAssertion
  | Some rest =>
      match split_once "." rest with
      | None => Err AE_Malformed
      | Some (payload, signature) =>
          match b64_url_decode signature with
          | None => Err AE_BadSignatureText
          | Some sig =>
              if negb (existsb (λ secret, String.eqb (mac_sha256 secret payload) sig) secrets)
              then Err AE_SignatureInvalid
              else match b64_url_decode payload with
              | None => Err AE_BadPayload
              | Some bytes =>
                  match assertion_from_slice bytes with
                  | None => Err AE_BadClaims
                  | Some claims =>
                      if negb (String.eqb (wa_kind claims) "oidc") && negb (String.eqb (wa_kind claims) "spiffe") then Err AE_Kind
                      else if (wa_exp claims <=? now) || (now + 600 <? wa_exp claims) then Err AE_Expired
                      else if is_empty (trim (wa_jti claims)) then Err AE_NoJti
                      else Ok claims
                  end
              end
          end
      end
  end.

(** [bearer]. *)
Definition workload_bearer (headers : HeaderMap) : option string :=
  v ← header_get "authorization" headers;
  s ← header_to_str v;
  trim <$> strip_prefix "Bearer " s.

(** [parse_verifier_secrets], [verifier_secrets], [WorkloadVerifier] and [from_env].  The
    environment variables and the file are arguments. *)
Inductive VerifierError := WE_FileUnreadable | WE_NotConfigured | WE_TooShort.
Definition parse_verifier_secrets (value : string) : result (list string) VerifierError :=
  let secrets := List.filter (λ s, negb (is_empty s)) (trim <$> split_char "," value) in
  match secrets with
  | [] => Err WE_NotConfigured
  | _ => if existsb (λ s, (String.length s <? 32)%nat) secrets then Err WE_TooShort else Ok secrets
  end.
Definition verifier_secrets (file var : option string) (read_to_string : string → option string)
    : result (list string) VerifierError :=
  let from_var := match var with Some value => parse_verifier_secrets value | None => Err WE_NotConfigured end in
  match file with
  | Some path =>
      if is_empty (trim path) then from_var
      else match read_to_string path with Some value => parse_verifier_secrets value | None => Err WE_FileUnreadable end
  | None => from_var
  end.
Inductive WorkloadVerifier := WV_Disabled | WV_Configured (secrets : list string) | WV_Invalid (e : VerifierError).
Definition verifier_from_env (enabled file var : option string) (read_to_string : string → option string) : WorkloadVerifier :=
  if match enabled with Some v => String.eqb v "1" || eq_ignore_ascii_case v "true" | None => false end
  then match verifier_secrets file var read_to_string with Ok secrets => WV_Configured secrets | Err e => WV_Invalid e end
  else WV_Disabled.
Definition startup_result (v : WorkloadVerifier) : result unit VerifierError :=
  match v with WV_Invalid e => Err e | _ => Ok tt end.

(** ** Handlers *)

(** [UseToken::create] slices the random part; it panics when fewer than eight characters
    are left of it. *)
Inductive HandlerPanic := ShortRandom.

(** What an exchange hands out: the secrets, and the tokens its metadata is rendered from. *)
Record Issued := {
  is_mcp_token : string;
  is_model_tokens : gmap string string;
  is_expires_at_unix : Z;
  is_mcp : UseToken;
  is_models : list UseToken;
}.
Inductive ExchangeAnswer :=
| XA_Error (status : Z) (code : string)
| XA_Stored (agent_label : string)
| XA_Removed (removed : bool) (revoked_tokens : nat)
| XA_Issued (i : Issued)
| XA_Active (agent_label tenant : option string).

Section handlers.
Context `{GC : GlobCrate} `{EN : Encoders} `{SD : Sha256Digest} `{MC : MacCrates} `{AC : AssertionSerde} `{EV : Environment}.

(** [require_admin] of the admin API: [manager] is the key manager when it is read. *)
Definition extract_api_key (headers : HeaderMap) : option string :=
  v ← header_get "authorization" headers;
  s ← header_to_str v;
  strip_prefix "Bearer " s.
Definition require_admin {E} (manager : AuthManager) (headers : HeaderMap) : M E (result AuthResult ExchangeAnswer) :=
  match extract_api_key headers with
  | None => m_ret (Err (XA_Error 401 "missing_api_key"))
  | Some secret =>
      if looks_like_use_token secret || looks_like_approval_token secret then m_ret (Err (XA_Error 403 "not_admin"))
      else
        let* _ := await in
        let* n := tick in
        m_ret match validate_key (env_now n) secret manager with
              | Err _ => Err (XA_Error 401 "invalid_api_key")
              | Ok (key, role) =>
                  if has_permission role P_Admin then Ok {| ar_api_key := key; ar_role := role |}
                  else Err (XA_Error 403 "permission_denied")
              end
  end.

(** The checks of [put_workload_grant]. *)
Definition grant_shape_ok (agent : string) (t : WorkloadGrantTemplate) : bool :=
  String.eqb agent (wt_agent_label t)
  && negb (existsb (λ v, is_empty (trim v)) [wt_tenant t; wt_issuer t; wt_subject t; wt_audience t])
  && (30 <=? wt_ttl_secs t) && (wt_ttl_secs t <=? 3600).
Definition scope_ok (t : WorkloadGrantTemplate) (credential action : string) (max_uses : option Z) (approval : bool) : bool :=
  match validate_use_token (workload_token_request "validation" credential action max_uses approval (wt_ttl_secs t)) with
  | Ok _ => true
  | Err _ => false
  end.
Definition scopes_ok (t : WorkloadGrantTemplate) : bool :=
  scope_ok t (wt_mcp_credential_scope t) (wt_mcp_action_scope t) (wt_mcp_max_uses t) (wt_mcp_require_approval t)
  && forallb (λ kv : string * ChannelGrant, scope_ok t (cg_credential_scope kv.2) (cg_action_scope kv.2) None false)
       (map_to_list (wt_model_channels t)).

(** [put_workload_grant]. *)
Definition put_workload_grant {E} (admin : AuthResult) (agent : string) (t : WorkloadGrantTemplate) : M E ExchangeAnswer :=
  if negb (tenant_may_act (ak_tenant (ar_api_key admin)) (Some (wt_tenant t))) then m_ret (XA_Error 403 "cross_tenant_denied")
  else if negb (grant_shape_ok agent t) then m_ret (XA_Error 400 "invalid_workload_grant")
  else if negb (scopes_ok t) then m_ret (XA_Error 400 "invalid_workload_grant")
  else
    let* stored := m_try (on_tokens (λ _, store_workload_grant Written (grant_key (wt_tenant t) agent) (template_to_value t))) in
    m_ret match stored with Ok _ => XA_Stored agent | Err _ => XA_Error 503 "grant_store_unavailable" end.

(** [delete_workload_grant]: the grant, then every token minted from it. *)
Definition remove_workload_grant {E} (admin : AuthResult) (agent tenant : string) : M E ExchangeAnswer :=
  if is_empty (trim tenant) || is_empty (trim agent) then m_ret (XA_Error 400 "invalid_workload_grant")
  else if negb (tenant_may_act (ak_tenant (ar_api_key admin)) (Some tenant)) then m_ret (XA_Error 403 "cross_tenant_denied")
  else
    let* removed := m_try (on_tokens (λ _, delete_workload_grant Written (grant_key tenant agent))) in
    match removed with
    | Err _ => m_ret (XA_Error 503 "grant_store_unavailable")
    | Ok removed =>
        let* retired := m_try (on_tokens (λ now, retire_workload_generations Written now tenant agent [])) in
        m_ret match retired with
              | Ok (_, n) => XA_Removed removed n
              | Err _ => XA_Error 500 "token_revocation_incomplete"
              end
    end.

(** ** The exchange *)

(** The identity of an assertion against the grant it names. *)
Definition binding_matches (a : WorkloadAssertion) (t : WorkloadGrantTemplate) : bool :=
  String.eqb (wa_iss a) (wt_issuer t) && String.eqb (wa_sub a) (wt_subject t) && String.eqb (wa_aud a) (wt_audience t)
  && String.eqb (wa_tenant a) (wt_tenant t) && String.eqb (wa_agent_label a) (wt_agent_label t).

(** The cap on live tokens. *)
Definition gen_cap (t : WorkloadGrantTemplate) : Z :=
  Z.max (default DEFAULT_MAX_LIVE_GENERATIONS (wt_max_live_generations t)) 1.

(** [mint], with the label and the tenant of the grant. *)
Definition labelled (t : WorkloadGrantTemplate) (k : UseToken) : UseToken :=
  {| ut_id := ut_id k; ut_token_prefix := ut_token_prefix k; ut_token_hash := ut_token_hash k; ut_name := ut_name k;
     ut_credential_scope := ut_credential_scope k; ut_action_scope := ut_action_scope k; ut_max_uses := ut_max_uses k;
     ut_uses := ut_uses k; ut_require_approval := ut_require_approval k; ut_expires_at := ut_expires_at k;
     ut_created_at := ut_created_at k; ut_last_used_at := ut_last_used_at k; ut_revoked := ut_revoked k;
     ut_agent_label := Some (wt_agent_label t); ut_dual_control := ut_dual_control k;
     ut_owner_identity := ut_owner_identity k; ut_tenant := Some (wt_tenant t) |}.
Definition mint (t : WorkloadGrantTemplate) (name credential action : string) (max_uses : option Z) (approval : bool)
    : M HandlerPanic (string * UseToken) :=
  let* n := tick in
  match create_use_token (env_secret n) (env_uuid n) (env_now n)
          (workload_token_request name credential action max_uses approval (wt_ttl_secs t)) with
  | Some (plain, k) => m_ret (plain, labelled t k)
  | None => m_fail ShortRandom
  end.

(** Storing a token.  The server then has averin record its grant ([on_mint] of the client, or
    an append to the client's own queue), which answers nothing and touches neither the store
    nor this process's state: for the handler it is an await. *)
Definition store_minted (k : UseToken) : M StorageFailure unit :=
  let* _ := on_tokens (λ _, store_use_token Written k) in
  emit (FX_Minted k).
Definition grant_recorded {E} : M E unit := await.

(** The revocation of what was minted so far; its failures are dropped. *)
Fixpoint revoke_minted {E} (ids : list string) : M E unit :=
  match ids with
  | [] => m_ret tt
  | id :: rest =>
      let* r := m_try (on_tokens (λ _, set_use_token_revoked Written id)) in
      let* _ := emit (FX_Revoked id (match r with Ok _ => true | Err _ => false end)) in
      revoke_minted rest
  end.

(** One token per model channel; [None] when one could not be stored. *)
Fixpoint mint_channels (t : WorkloadGrantTemplate) (channels : list (string * ChannelGrant)) (minted_ids : list string)
    : M HandlerPanic (option (list (string * (string * UseToken)))) :=
  match channels with
  | [] => m_ret (Some [])
  | (channel, g) :: rest =>
      let* pk := mint t (wt_agent_label t +:+ " model " +:+ channel) (cg_credential_scope g) (cg_action_scope g) None false in
      let* stored := m_try (store_minted pk.2) in
      match stored with
      | Err _ => let* _ := revoke_minted minted_ids in m_ret None
      | Ok _ =>
          let* _ := grant_recorded in
          let* others := mint_channels t rest (minted_ids ++ [ut_id pk.2]) in
          m_ret ((λ l, (channel, pk) :: l) <$> others)
      end
  end.

(** The retirement of the generations before; its failure is only logged. *)
Definition retire_predecessors {E} (t : WorkloadGrantTemplate) (keep : list string) : M E unit :=
  let* r := m_try (on_tokens (λ now, retire_workload_generations Written now (wt_tenant t) (wt_agent_label t) keep)) in
  match r with Ok _ => emit (FX_Retired keep) | Err _ => m_ret tt end.

(** Minting, then retiring, then the answer. *)
Definition issue (t : WorkloadGrantTemplate) : M HandlerPanic ExchangeAnswer :=
  let* mcp := mint t (wt_agent_label t +:+ " mcp") (wt_mcp_credential_scope t) (wt_mcp_action_scope t)
                (wt_mcp_max_uses t) (wt_mcp_require_approval t) in
  let* stored := m_try (store_minted mcp.2) in
  match stored with
  | Err _ => m_ret (XA_Error 500 "storage_error")
  | Ok _ =>
      let* _ := grant_recorded in
      let* models := mint_channels t (map_to_list (wt_model_channels t)) [ut_id mcp.2] in
      match models with
      | None => m_ret (XA_Error 500 "storage_error")
      | Some models =>
          let* _ := retire_predecessors t (ut_id mcp.2 :: ((λ m, ut_id m.2.2) <$> models)) in
          let* n := tick in
          m_ret (XA_Issued {| is_mcp_token := mcp.1; is_model_tokens := list_to_map (prod_map id fst <$> models);
                              is_expires_at_unix := unix_secs (env_now n + seconds (wt_ttl_secs t));
                              is_mcp := mcp.2; is_models := (λ m, m.2.2) <$> models |})
      end
  end.

(** Taking the id of the assertion, and the cap. *)
Definition spend_jti (a : WorkloadAssertion) (now : Z) : M StorageFailure bool :=
  let* r := on_tokens (λ _ v,
              let '(r, v') := consume_workload_jti Written (wa_jti a) (wa_exp a) now v in
              (match r with Ok b => Ok (v, b) | Err e => Err e end, v')) in
  let* _ := m_if r.2 (emit (FX_Exchanged r.1 (wa_jti a) (wa_exp a) now)) in
  m_ret r.2.
Definition exchange_bound (a : WorkloadAssertion) (t : WorkloadGrantTemplate) : M HandlerPanic ExchangeAnswer :=
  let* n := tick in
  let* consumed := m_try (spend_jti a (unix_secs (env_now n))) in
  match consumed with
  | Err _ => m_ret (XA_Error 503 "replay_store_unavailable")
  | Ok false => m_ret (XA_Error 409 "assertion_replay")
  | Ok true =>
      let* tokens := m_try (cache_read sto_tokens) in
      match tokens with
      | Err _ => m_ret (XA_Error 503 "grant_store_unavailable")
      | Ok v =>
          let* n := tick in
          let live := count_live_workload_tokens (env_now n) (wt_tenant t) (wt_agent_label t) v in
          if gen_cap t <=? Z.of_nat live then m_ret (XA_Error 429 "live_generation_cap")
          else let* _ := emit (FX_Counted v (env_now n)) in issue t
      end
  end.
Definition exchange_verified (a : WorkloadAssertion) : M HandlerPanic ExchangeAnswer :=
  let* reloaded := m_try reload in
  match reloaded with
  | Err _ => m_ret (XA_Error 503 "grant_store_unavailable")
  | Ok _ =>
      let key := grant_key (wa_tenant a) (wa_agent_label a) in
      let* found := m_try (cache_read (λ s, (sto_tokens s, get_workload_grant (sto_tokens s) key))) in
      match found with
      | Err _ => m_ret (XA_Error 503 "grant_store_unavailable")
      | Ok (_, None) => m_ret (XA_Error 403 "grant_not_found")
      | Ok (v, Some g) =>
          let* _ := emit (FX_Granted v key) in
          match template_from_value g with
          | None => m_ret (XA_Error 500 "invalid_stored_grant")
          | Some t =>
              if negb (binding_matches a t) then m_ret (XA_Error 403 "identity_binding_mismatch")
              else exchange_bound a t
          end
      end
  end.

(** [exchange_workload_token]. *)
Definition exchange_workload_token (verifier : WorkloadVerifier) (headers : HeaderMap) : M HandlerPanic ExchangeAnswer :=
  match verifier with
  | WV_Disabled => m_ret (XA_Error 404 "feature_disabled")
  | WV_Invalid _ => m_ret (XA_Error 503 "exchange_unconfigured")
  | WV_Configured secrets =>
      match workload_bearer headers with
      | None => m_ret (XA_Error 401 "invalid_workload_identity")
      | Some raw =>
          let* n := tick in
          match verify_assertion (unix_secs (env_now n)) raw secrets with
          | Err _ => m_ret (XA_Error 401 "invalid_workload_identity")
          | Ok a => exchange_verified a
          end
      end
  end.

(** [runtime_control]: whether a running workload may go on. *)
Definition runtime_control {E} (headers : HeaderMap) : M E ExchangeAnswer :=
  match workload_bearer headers with
  | None => m_ret (XA_Error 401 "missing_runtime_token")
  | Some secret =>
      if negb (looks_like_use_token secret) then m_ret (XA_Error 401 "missing_runtime_token")
      else
        let* _ := m_try reload in
        let* found := m_try (cache_read (λ s, get_use_token_by_hash (sto_tokens s) (hash_token secret))) in
        match found with
        | Err _ => m_ret (XA_Error 503 "control_store_unavailable")
        | Ok None => m_ret (XA_Error 401 "invalid_runtime_token")
        | Ok (Some t) =>
            let* n := tick in
            if ut_revoked t || use_token_expired (env_now n) t then m_ret (XA_Error 409 "runtime_cancelled")
            else
              let* e := get (λ w, p_engine (w_proc w)) in
              let principal := {| principal_id := ut_id t; agent_label := ut_agent_label t; owner := None; workload_id := None |} in
              if is_principal_halted (policies e) principal then m_ret (XA_Error 409 "runtime_cancelled")
              else m_ret (XA_Active (ut_agent_label t) (ut_tenant t))
        end
  end.
End handlers.

(** ** Grants read back *)

Lemma obj_get_jobject k l :
  NoDup l.*1 → json_get k (jobject l) = find_map (λ kv, if String.eqb kv.1 k then Some kv.2 else None) l.
Proof.
  unfold jobject. induction l as [|[j v] l IH]; intros Hd; [done|]. apply NoDup_cons in Hd as [Hj Hd].
  cbn [foldr fst snd find_map]. destruct (String.eqb_spec j k) as [->|Hne].
  - apply obj_get_insert_eq.
  - rewrite <- IH by done. apply obj_get_insert_ne. congruence.
Qed.

Lemma channel_reads_back g : channel_from_value (channel_to_value g) = Some g.
Proof. by destruct g. Qed.

(** Entries inserted under distinct names are a permutation of what was inserted. *)
Lemma obj_insert_fresh k v m : k ∉ m.*1 → obj_insert k v m ≡ₚ (k, v) :: m.
Proof.
  induction m as [|[j x] m IH]; intros Hk; [done|]. cbn [obj_insert]. rewrite fmap_cons, not_elem_of_cons in Hk. destruct Hk as [Hne Hk].
  destruct (String.compare k j) eqn:E; [by apply String.compare_eq_iff in E|done|]. rewrite (IH Hk). apply Permutation_swap.
Qed.
Lemma entries_permuted (l : list (string * Value)) :
  NoDup l.*1 → foldr (λ kv o, obj_insert kv.1 kv.2 o) [] l ≡ₚ l.
Proof.
  induction l as [|[k v] l IH]; intros Hd; [done|]. apply NoDup_cons in Hd as [Hk Hd]. cbn [foldr fst snd].
  rewrite obj_insert_fresh; [by rewrite (IH Hd)|]. by rewrite (IH Hd).
Qed.
Lemma insert_all_list_to_map {A} (l : list (string * A)) (acc : gmap string A) :
  NoDup l.*1 → (∀ k, k ∈ l.*1 → acc !! k = None) → foldl (λ m kv, <[kv.1 := kv.2]> m) acc l = list_to_map l ∪ acc.
Proof.
  revert acc. induction l as [|[k v] l IH]; intros acc Hd Hn; [by rewrite list_to_map_nil, (left_id_L ∅ (∪))|]. apply NoDup_cons in Hd as [Hk Hd].
  cbn [foldl fst snd]. rewrite IH by (done || intros j Hj; rewrite lookup_insert_ne by (intros ->; done); apply Hn; by right).
  cbn [list_to_map foldr]. rewrite <- insert_union_r, insert_union_l; [done|]. by apply not_elem_of_list_to_map_1.
Qed.

Lemma channels_read_back m : channels_from_value (channels_to_value m) = Some m.
Proof.
  set (code := λ kv : string * ChannelGrant, (kv.1, channel_to_value kv.2)). set (l := map_to_list m).
  assert (Hp : foldr (λ kv o, obj_insert kv.1 (channel_to_value kv.2) o) [] l ≡ₚ code <$> l).
  { rewrite <- (entries_permuted (code <$> l)).
    - by rewrite foldr_fmap.
    - rewrite <- list_fmap_compose. apply NoDup_fst_map_to_list. }
  apply Permutation_map_inv in Hp as (q & Hq & Hperm).
  unfold channels_from_value, channels_to_value. cbn [as_object mbind option_bind]. fold l. rewrite Hq.
  replace (mapM _ (List.map code q)) with (Some q).
  - cbn [mbind option_bind]. rewrite insert_all_list_to_map.
    + rewrite (right_id_L ∅ (∪)), <- (list_to_map_proper l q); [unfold l; by rewrite list_to_map_to_list| |done].
      apply NoDup_fst_map_to_list.
    + rewrite <- Hperm. apply NoDup_fst_map_to_list.
    + intros. apply lookup_empty.
  - clear. induction q as [|[k [c a]] q IH]; [done|]. cbn [List.map mapM]. by rewrite <- IH.
Qed.

(** Counts and lifetimes fit the integers of the struct. *)
Definition u32_opt (o : option Z) : Prop := match o with Some n => 0 <= n <= 4294967295 | None => True end.
Definition template_fits (t : WorkloadGrantTemplate) : Prop :=
  u32_opt (wt_mcp_max_uses t) ∧ u32_opt (wt_max_live_generations t) ∧ wt_ttl_secs t <= i64_max.
Lemma opt_u32_reads_back o : u32_opt o → de_opt_u32 (opt_u32_value o) = Some o.
Proof. destruct o as [n|]; [|done]. cbn. intros [_ H]. by rewrite (proj2 (Z.leb_le _ _) H). Qed.
Lemma i64_reads_back n : n <= i64_max → de_i64 (int_value n) = Some n.
Proof. intros H. unfold int_value. destruct (n <? 0); cbn; [done|]. by rewrite (proj2 (Z.leb_le _ _) H). Qed.

Lemma template_reads_back t : template_fits t → template_from_value (template_to_value t) = Some t.
Proof.
  intros (Hm & Hg & Ht). unfold template_from_value, template_to_value.
  assert (Hd : NoDup ["tenant"; "agent_label"; "issuer"; "subject"; "audience"; "mcp_credential_scope"; "mcp_action_scope";
                      "mcp_max_uses"; "mcp_require_approval"; "model_channels"; "ttl_secs"; "max_live_generations"])
    by (apply (bool_decide_unpack _); vm_compute; exact I).
  set (l := [("tenant", JString (wt_tenant t)); _; _; _; _; _; _; _; _; _; _; _]).
  assert (Hget : ∀ k, json_get k (jobject l) = find_map (λ kv, if String.eqb kv.1 k then Some kv.2 else None) l)
    by (intros k; by apply obj_get_jobject).
  replace (de_struct 12 (jobject l)) with (Some (λ (_ : nat) name, json_get name (jobject l))) by done.
  cbn [mbind option_bind]. rewrite !Hget. unfold l. cbn [find_map fst snd String.eqb Ascii.eqb Bool.eqb as_str mbind option_bind de_default as_bool].
  rewrite !opt_u32_reads_back, channels_read_back, i64_reads_back by done. by destruct t.
Qed.

(** Two workloads never share a key. *)
Lemma grant_key_inj tenant agent tenant' agent' :
  grant_key tenant agent = grant_key tenant' agent' → tenant = tenant' ∧ agent = agent'.
Proof.
  assert (Hfree : ∀ n : nat, contains_any (Ascii.eqb ":") (pretty n) = false).
  { intros n. apply pretty_N_free. intros d. unfold pretty_N_char. by repeat case_match. }
  unfold grant_key. intros H. cbn [String.append] in H. apply split_at_char_inj in H as [Hl H]; [|apply Hfree..].
  apply (inj pretty) in Hl. apply string_app_length_inj; [|done].
  pose proof (f_equal String.length H) as Hlen. rewrite !length_app_string in Hlen. lia.
Qed.

(** ** What an exchange does *)

(** The tokens a trace minted. *)
Definition minted_of (f : Effect) : option UseToken := match f with FX_Minted k => Some k | _ => None end.
Abbreviation minted_in := (omap (M := list) minted_of).

(** A token as the grant describes it: the agent's own, or that of a model channel. *)
Definition minted_for (t : WorkloadGrantTemplate) (credential action : string) (max_uses : option Z) (approval : bool)
    (k : UseToken) : Prop :=
  ut_tenant k = Some (wt_tenant t) ∧ ut_agent_label k = Some (wt_agent_label t)
  ∧ ut_credential_scope k = credential ∧ ut_action_scope k = Some action
  ∧ ut_max_uses k = max_uses ∧ ut_uses k = 0 ∧ ut_require_approval k = approval ∧ ut_revoked k = false
  ∧ ut_expires_at k = Some (ut_created_at k + seconds (wt_ttl_secs t)).
Definition agent_token (t : WorkloadGrantTemplate) (k : UseToken) : Prop :=
  minted_for t (wt_mcp_credential_scope t) (wt_mcp_action_scope t) (wt_mcp_max_uses t) (wt_mcp_require_approval t) k.
Definition channel_token (t : WorkloadGrantTemplate) (channel : string) (k : UseToken) : Prop :=
  ∃ g, wt_model_channels t !! channel = Some g ∧ minted_for t (cg_credential_scope g) (cg_action_scope g) None false k.
Definition within_grant (t : WorkloadGrantTemplate) (k : UseToken) : Prop :=
  agent_token t k ∨ ∃ channel, channel_token t channel k.
Definition issuing (t : WorkloadGrantTemplate) (f : Effect) : Prop :=
  match f with FX_Minted k => within_grant t k | FX_Revoked _ _ | FX_Retired _ => True | _ => False end.
Definition revoked_in (id : string) (tr : list Effect) : Prop := ∃ ok, FX_Revoked id ok ∈ tr.

(** The secret shown opens the token stored. *)
Definition opens `{Encoders} `{Sha256Digest} (plain : string) (k : UseToken) : Prop := ut_token_hash k = hash_token plain.

Section exchange_facts.
Context `{GC : GlobCrate} `{EN : Encoders} `{SD : Sha256Digest} `{MC : MacCrates} `{AC : AssertionSerde} `{EV : Environment}.

Lemma tr_mint t name credential action max_uses approval :
  mint t name credential action max_uses approval ⊨ (λ r tr, tr = [] ∧
    ∀ pk, r = Ok pk → minted_for t credential action max_uses approval pk.2 ∧ opens pk.1 pk.2).
Proof.
  apply tr_quiet; [apply tick_silent|done|]. intros n. unfold create_use_token.
  destruct (generate_token _ _) as [[full prefix]|]; cbn; [|by apply tr_fail].
  apply tr_ret. split; [done|]. intros pk [= <-]. by repeat split.
Qed.
Lemma tr_store_minted k :
  store_minted k ⊨ (λ r tr, match r with Ok _ => tr = [FX_Minted k] | Err _ => tr = [] end).
Proof.
  eapply tr_bind; [apply locked_store_mutate_silent|by intros e tr ->|]. intros [] tr ->. by apply tr_emit.
Qed.
Lemma tr_revoke_minted {E} ids :
  revoke_minted (E := E) ids ⊨ (λ r tr, r = Ok tt ∧ Forall (λ f, ∃ id ok, f = FX_Revoked id ok) tr ∧ ∀ id, id ∈ ids → revoked_in id tr).
Proof.
  induction ids as [|id ids IH]; [apply tr_ret; split_and!; [done|done|by intros id ?%elem_of_nil]|].
  cbn [revoke_minted]. apply tr_try_quiet; [apply locked_store_mutate_silent|]. intros r. apply tr_emit_then.
  eapply tr_weaken; [exact IH|]. intros r' tr (-> & Hf & Hr). split_and!; [done|constructor; eauto|].
  intros id' [->|H]%elem_of_cons; [eexists; by left|]. destruct (Hr _ H) as [ok ?]. exists ok. by right.
Qed.

Lemma minted_revocations tr : Forall (λ f, ∃ id ok, f = FX_Revoked id ok) tr → minted_in tr = [].
Proof. induction 1 as [|f tr (id & ok & ->) _ IH]; [done|]. exact IH. Qed.
Lemma minted_all ks : minted_in (FX_Minted <$> ks) = ks.
Proof. induction ks as [|k ks IH]; [done|]. cbn. by rewrite IH. Qed.

(** The tokens of the channels: all of them, or everything minted so far is revoked. *)
Definition channels_done (t : WorkloadGrantTemplate) (cs : list (string * ChannelGrant)) (ids : list string)
    (r : result (option (list (string * (string * UseToken)))) HandlerPanic) (tr : list Effect) : Prop :=
  Forall (issuing t) tr ∧ (length (minted_in tr) <= length cs)%nat
  ∧ match r with
    | Ok (Some l) => tr = FX_Minted <$> ((λ m, m.2.2) <$> l) ∧ l.*1 = cs.*1
                     ∧ Forall (λ m, channel_token t m.1 m.2.2 ∧ opens m.2.1 m.2.2) l
    | Ok None => (∀ id, id ∈ ids → revoked_in id tr) ∧ ∀ k, k ∈ minted_in tr → revoked_in (ut_id k) tr
    | Err _ => True
    end.
Lemma tr_mint_channels t cs : (∀ c g, (c, g) ∈ cs → wt_model_channels t !! c = Some g) →
  ∀ ids, mint_channels t cs ids ⊨ channels_done t cs ids.
Proof.
  induction cs as [|[c g] cs IH]; intros Hcs ids; [by apply tr_ret|]. cbn [mint_channels].
  eapply tr_bind; [apply tr_mint| |].
  { intros e tr [-> _]. split_and!; [done|cbn; lia|done]. }
  intros pk tr [-> Hk]. destruct (Hk pk eq_refl) as [Hfor Hopen]. clear Hk.
  assert (Hc : channel_token t c pk.2) by (exists g; split; [apply Hcs; by left|done]).
  eapply tr_try_then; [apply tr_store_minted|]. intros [[]|e] tr ->.
  - unfold grant_recorded. apply tr_await_then. eapply tr_bind.
    + apply IH. intros c' g' ?. apply Hcs. by right.
    + intros e tr (Hf & Hl & _). split_and!; [constructor; [right; by exists c|done]|cbn; lia|done].
    + intros l tr (Hf & Hl & Hr). apply tr_ret. rewrite app_nil_r. cbn [app]. split_and!.
      * constructor; [right; by exists c|done].
      * cbn. lia.
      * destruct l as [l|]; cbn.
        -- destruct Hr as (-> & Hn & Ha). split_and!; [done|cbn; by f_equal|by constructor].
        -- destruct Hr as [Hi Hr]. split.
           ++ intros id Hid. destruct (Hi id) as [ok ?]; [set_solver|]. exists ok. by right.
           ++ intros k [->|Hin]%elem_of_cons; [destruct (Hi (ut_id pk.2)) as [ok ?]|destruct (Hr k Hin) as [ok ?]]; [set_solver|exists ok; by right..].
  - eapply tr_bind; [apply tr_revoke_minted|by intros ? ? (? & _)|]. intros [] tr (_ & Hf & Hr). apply tr_ret.
    rewrite app_nil_r. cbn [app]. split_and!.
    + eapply Forall_impl; [exact Hf|]. by intros f (id & ok & ->).
    + rewrite minted_revocations by done. cbn. lia.
    + done.
    + rewrite minted_revocations by done. by intros k ?%elem_of_nil.
Qed.

(** A token for every channel, or nothing that stays. *)
Definition answered_with (t : WorkloadGrantTemplate) (i : Issued) (tr : list Effect) : Prop :=
  minted_in tr = is_mcp i :: is_models i ∧ length (is_models i) = size (wt_model_channels t) ∧ agent_token t (is_mcp i) ∧ opens (is_mcp_token i) (is_mcp i)
  ∧ ∀ c, is_Some (wt_model_channels t !! c) ↔
         ∃ plain k, is_model_tokens i !! c = Some plain ∧ k ∈ is_models i ∧ channel_token t c k ∧ opens plain k.
Definition issue_done (t : WorkloadGrantTemplate) (r : result ExchangeAnswer HandlerPanic) (tr : list Effect) : Prop :=
  Forall (issuing t) tr ∧ (length (minted_in tr) <= S (size (wt_model_channels t)))%nat
  ∧ match r with
    | Ok (XA_Issued i) => answered_with t i tr
    | Ok a => (∃ status code, a = XA_Error status code) ∧ ∀ k, k ∈ minted_in tr → revoked_in (ut_id k) tr
    | Err _ => True
    end.

Lemma models_by_channel t (l : list (string * (string * UseToken))) :
  l.*1 = (map_to_list (wt_model_channels t)).*1 → Forall (λ m, channel_token t m.1 m.2.2 ∧ opens m.2.1 m.2.2) l →
  ∀ c, is_Some (wt_model_channels t !! c) ↔
       ∃ plain k, list_to_map (M := gmap string string) (prod_map id fst <$> l) !! c = Some plain
                  ∧ k ∈ (λ m : string * (string * UseToken), m.2.2) <$> l ∧ channel_token t c k ∧ opens plain k.
Proof.
  intros Hn Ha c. split.
  - intros [g Hg]. assert (Hc : c ∈ l.*1).
    { rewrite Hn. apply list_elem_of_fmap. exists (c, g). split; [done|]. by apply elem_of_map_to_list. }
    apply list_elem_of_fmap in Hc as ([c' [plain k]] & -> & Hin). cbn. exists plain, k.
    rewrite Forall_forall in Ha. destruct (Ha _ Hin) as [Hf Ho]. split_and!; [|apply list_elem_of_fmap; by exists (c', (plain, k))|done..].
    apply elem_of_list_to_map_1.
    + rewrite <- list_fmap_compose, (list_fmap_ext _ fst) by (by intros ? [] ?). rewrite Hn. apply NoDup_fst_map_to_list.
    + apply list_elem_of_fmap. by exists (c', (plain, k)).
  - intros (plain & k & _ & _ & (g & Hg & _) & _). by exists g.
Qed.

Lemma tr_issue t : issue t ⊨ issue_done t.
Proof.
  unfold issue. eapply tr_bind; [apply tr_mint| |].
  { intros e tr [-> _]. split_and!; [done|cbn; lia|done]. }
  intros mcp tr [-> Hk]. destruct (Hk mcp eq_refl) as [Hfor Hopen]. clear Hk.
  eapply tr_try_then; [apply tr_store_minted|]. intros [[]|e] tr ->; cbn [app].
  2: { apply tr_ret. split_and!; [done|cbn; lia|eauto|by intros k ?%elem_of_nil]. }
  apply tr_await_then. eapply tr_bind.
  { apply (tr_mint_channels t (map_to_list (wt_model_channels t))). by intros c g ?%elem_of_map_to_list. }
  { intros e tr (Hf & Hl & _). split_and!; [by constructor; [left|]|cbn; rewrite length_map_to_list in Hl; lia|done]. }
  intros [models|] tr (Hf & Hl & Hr); rewrite length_map_to_list in Hl.
  2: { destruct Hr as [Hi Hr]. apply tr_ret. rewrite app_nil_r. split_and!; [by constructor; [left|]|cbn; lia|eauto|].
       intros k [->|Hin]%elem_of_cons; [destruct (Hi (ut_id mcp.2)) as [ok ?]; [set_solver|]|destruct (Hr k Hin) as [ok ?]]; exists ok; by right. }
  destruct Hr as (-> & Hn & Ha). eapply (tr_bind _ _ (λ r tr, r = Ok tt ∧ (tr = [] ∨ ∃ keep, tr = [FX_Retired keep]))).
  - unfold retire_predecessors. apply tr_try_quiet; [apply locked_store_mutate_silent|]. intros [x|e]; [apply tr_emit|apply tr_ret]; eauto.
  - by intros e tr [[=] _].
  - intros [] rest [_ Hrest]. apply tr_tick_then. intros n. apply tr_ret. rewrite app_nil_r.
    assert (Hm : minted_in rest = []) by (destruct Hrest as [->|[keep ->]]; done).
    assert (Hrf : Forall (issuing t) rest) by (destruct Hrest as [->|[keep ->]]; by repeat constructor).
    assert (Hall : minted_in (FX_Minted mcp.2 :: (FX_Minted <$> ((λ m, m.2.2) <$> models)) ++ rest)
                   = mcp.2 :: ((λ m : string * (string * UseToken), m.2.2) <$> models)).
    { cbn. by rewrite omap_app, minted_all, Hm, app_nil_r. }
    split_and!.
    + constructor; [by left|]. by apply Forall_app.
    + rewrite Hall. rewrite minted_all in Hl. cbn. lia.
    + split_and!; [exact Hall| |done|done|by apply models_by_channel]. cbn.
      rewrite length_fmap, <- (length_fmap fst), Hn, length_fmap. apply length_map_to_list.
Qed.

(** An assertion the edge signed: the very text was authenticated under one of the
    configured secrets, it is not expired nor valid for longer than ten minutes, and it has
    an id. *)
Definition signed_by (secrets : list string) (now : Z) (raw : string) (a : WorkloadAssertion) : Prop :=
  ∃ payload signature secret bytes,
    raw = "vwa_" +:+ payload +:+ "." +:+ signature ∧ secret ∈ secrets
    ∧ b64_url_decode signature = Some (mac_sha256 secret payload)
    ∧ b64_url_decode payload = Some bytes ∧ assertion_from_slice bytes = Some a
    ∧ (wa_kind a = "oidc" ∨ wa_kind a = "spiffe") ∧ now < wa_exp a <= now + 600 ∧ trim (wa_jti a) ≠ "".
Lemma verified_is_signed now raw secrets a : verify_assertion now raw secrets = Ok a → signed_by secrets now raw a.
Proof.
  unfold verify_assertion. destruct (strip_prefix "vwa_" raw) as [rest|] eqn:Ep; [|done].
  destruct (split_once "." rest) as [[payload signature]|] eqn:Es; [|done].
  destruct (b64_url_decode signature) as [sig|] eqn:Ed; [|done]. destruct (existsb _ secrets) eqn:Ex; [cbn [negb]|done].
  destruct (b64_url_decode payload) as [bytes|] eqn:Eb; [|done]. destruct (assertion_from_slice bytes) as [c|] eqn:Ea; [|done].
  destruct (_ && _) eqn:Ek; [done|]. destruct (_ || _) eqn:Ee; [done|]. destruct (is_empty _) eqn:Ej; [done|]. intros [= ->].
  apply existsb_exists in Ex as (secret & Hin%list_elem_of_In & <-%String.eqb_eq).
  apply strip_prefix_spec in Ep as ->. apply split_once_spec in Es as ->.
  exists payload, signature, secret, bytes. split_and!; try done.
  - apply andb_false_iff in Ek as [H|H]; apply negb_false_iff, String.eqb_eq in H; auto.
  - apply orb_false_iff in Ee as [?%Z.leb_gt _]. lia.
  - apply orb_false_iff in Ee as [_ ?%Z.ltb_ge]. lia.
  - by apply is_empty_false.
Qed.

(** The identity of the assertion is that of the grant. *)
Definition bound_to (a : WorkloadAssertion) (t : WorkloadGrantTemplate) : Prop :=
  wa_iss a = wt_issuer t ∧ wa_sub a = wt_subject t ∧ wa_aud a = wt_audience t
  ∧ wa_tenant a = wt_tenant t ∧ wa_agent_label a = wt_agent_label t.
Lemma binding_matches_true a t : binding_matches a t = true → bound_to a t.
Proof. unfold binding_matches. rewrite !andb_true_iff, !String.eqb_eq. unfold bound_to. tauto. Qed.

(** The exchange proper. *)
Definition exchanged (a : WorkloadAssertion) (t : WorkloadGrantTemplate) (r : result ExchangeAnswer HandlerPanic)
    (tr : list Effect) : Prop :=
  ∃ v now stored at_ rest, tr = FX_Exchanged v (wa_jti a) (wa_exp a) now :: FX_Counted stored at_ :: rest
    ∧ (consume_workload_jti Written (wa_jti a) (wa_exp a) now v).1 = Ok true
    ∧ Z.of_nat (count_live_workload_tokens at_ (wt_tenant t) (wt_agent_label t) stored) < gen_cap t ∧ issue_done t r rest.
Definition refused_exchange (r : result ExchangeAnswer HandlerPanic) (tr : list Effect) : Prop :=
  (∃ status code, r = Ok (XA_Error status code)) ∧ minted_in tr = [].

Lemma tr_spend_jti a now :
  spend_jti a now ⊨ (λ r tr, match r with
    | Ok true => ∃ v, tr = [FX_Exchanged v (wa_jti a) (wa_exp a) now] ∧ (consume_workload_jti Written (wa_jti a) (wa_exp a) now v).1 = Ok true
    | _ => tr = []
    end).
Proof.
  eapply tr_bind.
  - apply (tr_locked _ (λ r, ∀ vb, r = Ok vb → (consume_workload_jti Written (wa_jti a) (wa_exp a) now vb.1).1 = Ok vb.2)); [done|].
    intros ? s vb. destruct (consume_workload_jti _ _ _ _ (sto_tokens s)) as [[b|] v'] eqn:E; cbn; [|done].
    intros [= <-]. cbn. by rewrite E.
  - by intros e tr [-> _].
  - intros [v b] tr [-> Hb]. specialize (Hb _ eq_refl). cbn in Hb. cbn [fst snd]. destruct b; cbn [m_if].
    + apply tr_emit_then, tr_ret. eauto.
    + eapply tr_bind; [by apply (tr_ret tt (λ r tr, tr = []))|by intros e tr ->|]. intros [] tr ->. by apply tr_ret.
Qed.

Lemma tr_exchange_bound a t : exchange_bound a t ⊨ (λ r tr, refused_exchange r tr ∨ exchanged a t r tr).
Proof.
  apply tr_tick_then. intros n. eapply tr_try_then; [apply tr_spend_jti|].
  assert (Hno : ∀ status code tr, minted_in tr = [] → refused_exchange (Ok (XA_Error status code)) tr) by (intros; split; eauto).
  intros [[]|e] tr; [intros (v & -> & Hv)|intros ->; apply tr_ret; left; by apply Hno..].
  apply tr_try_quiet; [apply cache_read_silent|]. intros [v'|e]; [|apply tr_ret; left; by apply Hno].
  apply tr_tick_then. intros n'. destruct (Z.leb_spec (gen_cap t) (Z.of_nat (count_live_workload_tokens (env_now n') (wt_tenant t) (wt_agent_label t) v'))) as [Hge|Hlt].
  { apply tr_ret. left. by apply Hno. }
  apply tr_emit_then. eapply tr_weaken; [apply tr_issue|]. intros r rest Hr. right.
  by exists v, (unix_secs (env_now n)), v', (env_now n'), rest.
Qed.

Lemma tr_exchange_verified a :
  exchange_verified a ⊨ (λ r tr, refused_exchange r tr ∨ ∃ v t rest,
    tr = FX_Granted v (grant_key (wa_tenant a) (wa_agent_label a)) :: rest
    ∧ get_workload_grant v (grant_key (wa_tenant a) (wa_agent_label a)) ≫= template_from_value = Some t
    ∧ bound_to a t ∧ exchanged a t r rest).
Proof.
  assert (Hno : ∀ status code tr, minted_in tr = [] → refused_exchange (Ok (XA_Error status code)) tr) by (intros; split; eauto).
  apply tr_try_quiet; [apply locked_read_silent|]. intros [[]|e]; [|apply tr_ret; left; by apply Hno].
  eapply tr_try_then; [apply tr_cache_read|]. intros [[v [g|]]|e] tr [-> Hg]; [|apply tr_ret; left; by apply Hno..].
  destruct (Hg _ eq_refl) as (s & [= -> Hg']). apply tr_emit_then. destruct (template_from_value g) as [t|] eqn:Et; [|apply tr_ret; left; by apply Hno].
  destruct (binding_matches a t) eqn:Eb; cbn [negb]; [|apply tr_ret; left; by apply Hno].
  eapply tr_weaken; [apply tr_exchange_bound|]. intros r tr [[Hr Hm]|Hx]; [left; by split|right].
  exists (sto_tokens s), t, tr. split_and!; [done|by rewrite <- Hg'|by apply binding_matches_true|done].
Qed.

(** C19: tokens go only to a workload the operator granted.  If an exchange mints a token, then
    the feature is on, the bearer is an assertion authenticated under a configured secret and
    in date by the clock when the request came in; the grant stored for its tenant and agent,
    in the tokens that were read, names exactly its issuer, subject and audience; its id had
    not been taken and was taken by this very exchange; of the tokens then read, fewer than
    the cap were live for this tenant and agent; and the token has the tenant, label, scope,
    uses and lifetime of the grant.  What is answered are the secrets of one token for the agent and one per channel;
    if it fails half-way, everything minted was revoked or its revocation failed. *)
Theorem exchange_serves_only_granted_workloads verifier headers w r w' tr k :
  exchange_workload_token verifier headers w = (r, w') → w_trace w' = w_trace w ++ tr → FX_Minted k ∈ tr →
  ∃ secrets raw a grants t v now stored at_ rest,
    let key := grant_key (wa_tenant a) (wa_agent_label a) in
    verifier = WV_Configured secrets ∧ workload_bearer headers = Some raw
    ∧ signed_by secrets (unix_secs (env_now (w_tick w))) raw a
    ∧ tr = FX_Granted grants key :: FX_Exchanged v (wa_jti a) (wa_exp a) now :: FX_Counted stored at_ :: rest
    ∧ get_workload_grant grants key ≫= template_from_value = Some t ∧ bound_to a t
    ∧ (consume_workload_jti Written (wa_jti a) (wa_exp a) now v).1 = Ok true
    ∧ Z.of_nat (count_live_workload_tokens at_ (wt_tenant t) (wt_agent_label t) stored) < gen_cap t
    ∧ within_grant t k ∧ issue_done t r rest.
Proof.
  intros Er Htr Hin. assert (Hm : k ∈ minted_in tr) by (apply list_elem_of_omap; by exists (FX_Minted k)).
  assert (Hno : ∀ m : M HandlerPanic ExchangeAnswer, m ⊨ refused_exchange → m w = (r, w') → False).
  { intros m Hr Em. destruct (trace_of _ _ _ _ _ _ Hr Em Htr) as [_ Hn]. rewrite Hn in Hm. by apply elem_of_nil in Hm. }
  assert (Hret : ∀ status code, m_ret (E := HandlerPanic) (XA_Error status code) ⊨ refused_exchange) by (intros; apply tr_ret; split; eauto).
  revert Er. unfold exchange_workload_token.
  destruct verifier as [|secrets|e]; [intros Er; exfalso; by eapply Hno| |intros Er; exfalso; by eapply Hno].
  destruct (workload_bearer headers) as [raw|]; [|intros Er; exfalso; by eapply Hno].
  unfold m_bind, tick. destruct (verify_assertion _ raw secrets) as [a|e] eqn:Ev; intros Er.
  - destruct (trace_of _ _ _ _ _ _ (tr_exchange_verified a) Er Htr) as [[_ Hn]|(g & t & rest' & -> & Ht & Hb & Hx)].
    { rewrite Hn in Hm. by apply elem_of_nil in Hm. }
    destruct Hx as (v & now & stored & at_ & rest & -> & Hv & Hn & Hd).
    exists secrets, raw, a, g, t, v, now, stored, at_, rest. split_and!; try done; [by apply verified_is_signed|].
    rewrite !elem_of_cons in Hin. destruct Hin as [[=]|[[=]|[[=]|Hin]]]. destruct Hd as (Hf & _). rewrite Forall_forall in Hf. apply (Hf _ Hin).
  - exfalso. injection Er as <- <-. cbn in Htr. assert (tr = []) as ->; [|by apply elem_of_nil in Hin].
    apply (app_inv_head (w_trace w)). by rewrite app_nil_r.
Qed.

(** A scope that can be minted from: its credential pattern is not blank, both patterns
    compile, and the uses are not zero. *)
Definition scope_valid (credential action : string) (max_uses : option Z) : Prop :=
  trim credential ≠ "" ∧ is_Some (glob_new credential) ∧ is_Some (glob_new action) ∧ max_uses ≠ Some 0.
Lemma scope_ok_valid t credential action max_uses approval :
  scope_ok t credential action max_uses approval = true → scope_valid credential action max_uses.
Proof.
  unfold scope_ok, validate_use_token. cbn. destruct (is_empty _) eqn:Eb; [done|].
  destruct (match max_uses with Some m => m =? 0 | None => false end) eqn:Em; [done|]. destruct (seconds _ <=? 0); [done|].
  unfold glob_compiles. destruct (glob_new credential) eqn:Ec; [|done]. destruct (glob_new action) eqn:Ea; [|done]. intros _.
  split_and!; [by apply is_empty_false|done|done|]. by intros ->.
Qed.
Lemma scopes_ok_valid t :
  scopes_ok t = true → scope_valid (wt_mcp_credential_scope t) (wt_mcp_action_scope t) (wt_mcp_max_uses t)
  ∧ ∀ channel g, wt_model_channels t !! channel = Some g → scope_valid (cg_credential_scope g) (cg_action_scope g) None.
Proof.
  unfold scopes_ok. intros [Hm Hc]%andb_true_iff. split; [by eapply scope_ok_valid|]. intros channel g Hg.
  rewrite forallb_forall in Hc. apply (scope_ok_valid t _ _ _ false), (Hc (channel, g)), list_elem_of_In. by apply elem_of_map_to_list.
Qed.

(** C37: a grant is stored whole, by who may, and touches no other workload.  When
    [put_workload_grant] answers that it stored one, and the numbers of the grant fit those of
    the struct, the admin's tenant may act on it, its tenant, issuer, subject and audience are not blank, its lifetime is between 30 and 3600 seconds and every scope of it
    is valid; an exchange of this tenant and agent reads back exactly this grant, and the
    grants of all other tenants and agents are what they were. *)
Theorem stored_grant_is_read_back admin agent t w w' :
  put_workload_grant (E := HandlerPanic) admin agent t w = (Ok (XA_Stored agent), w') → template_fits t →
  tenant_may_act (ak_tenant (ar_api_key admin)) (Some (wt_tenant t)) = true
  ∧ agent = wt_agent_label t
  ∧ trim (wt_tenant t) ≠ "" ∧ trim (wt_issuer t) ≠ "" ∧ trim (wt_subject t) ≠ "" ∧ trim (wt_audience t) ≠ ""
  ∧ 30 <= wt_ttl_secs t <= 3600
  ∧ scope_valid (wt_mcp_credential_scope t) (wt_mcp_action_scope t) (wt_mcp_max_uses t)
  ∧ (∀ channel g, wt_model_channels t !! channel = Some g → scope_valid (cg_credential_scope g) (cg_action_scope g) None)
  ∧ get_workload_grant (sto_tokens (w_disk w')) (grant_key (wt_tenant t) agent) ≫= template_from_value = Some t
  ∧ ∀ tenant' agent', (tenant', agent') ≠ (wt_tenant t, agent) →
      get_workload_grant (sto_tokens (w_disk w')) (grant_key tenant' agent')
      = get_workload_grant (sto_tokens (env_others (w_tick w) (w_disk w, w_proc w)).1) (grant_key tenant' agent').
Proof.
  unfold put_workload_grant. destruct (tenant_may_act _ _); cbn [negb]; [|done].
  destruct (grant_shape_ok agent t) eqn:Es; cbn [negb]; [|done]. destruct (scopes_ok t) eqn:Ex; cbn [negb]; [|done].
  unfold m_bind, m_try, on_tokens, locked_store_mutate, m_bind, await, tick. destruct (env_others _ _) as [d p]. cbn.
  destruct (env_fault _); cbn; [done|]. intros [= <-] Hfit. apply scopes_ok_valid in Ex as [Hx1 Hx2]. cbn. unfold grant_shape_ok in Es. rewrite !andb_true_iff, String.eqb_eq, !Z.leb_le in Es.
  destruct Es as [[[-> Hid] ?] ?]. rewrite negb_true_iff in Hid. cbn [existsb] in Hid. rewrite !orb_false_iff in Hid.
  destruct Hid as (H1 & H2 & H3 & H4 & _). split_and!; try done; try (by apply is_empty_false).
  - unfold get_workload_grant. cbn. rewrite lookup_insert_eq. by apply template_reads_back.
  - intros tenant' agent' Hne. unfold get_workload_grant. cbn. apply lookup_insert_ne. intros [? ?]%grant_key_inj. congruence.
Qed.

(** ** Removal of a grant *)

Lemma retired_none_live now later tenant label v :
  token_reachable v → now <= later →
  count_live_workload_tokens later tenant label (retire_workload_generations Written now tenant label [] v).2 = 0%nat.
Proof.
  intros Hr Hle. apply reachable_index in Hr. destruct (retire_is_fmap now tenant label [] v _ Hr) as [Em _].
  unfold count_live_workload_tokens. rewrite (proj2 (List.length_zero_iff_nil _)); [done|]. apply elem_of_nil_inv. intros k [Hin Hk]%elem_of_filter_bool.
  apply listed_token in Hin as [id Hin]. cbn [retire_workload_generations token_mutate snd tv_use_tokens set_use_tokens] in Hin.
  rewrite Em, lookup_fmap in Hin. destruct (tv_use_tokens v !! id) as [t|]; [|done]. cbn in Hin. injection Hin as <-.
  assert (Hl : live_for now tenant label (retire_record now tenant label [] t) = true).
  { revert Hk. unfold live_for, use_token_expired, past. rewrite !andb_true_iff, !negb_true_iff. intros (H1 & H2). split; [done|].
    destruct (ut_expires_at _) as [e|]; [|done]. apply Z.leb_gt in H2. apply Z.leb_gt. lia. }
  rewrite live_after_retire in Hl. apply andb_true_iff in Hl as [_ Hl]. apply bool_decide_eq_true in Hl. by apply elem_of_nil in Hl.
Qed.

(** removing a grant ends its tokens.  While other tasks and processes change the tokens
    only by the vault's own operations, a removal that reports success was made by an admin
    whose tenant may act on this one, and leaves no token of this tenant and agent live, then
    or at any later reading of the clock. *)
Theorem removed_workload_has_no_live_token admin agent tenant w removed n w' :
  (∀ m d p, token_reachable (sto_tokens d) → token_reachable (sto_tokens (env_others m (d, p)).1)) →
  token_reachable (sto_tokens (w_disk w)) →
  remove_workload_grant (E := HandlerPanic) admin agent tenant w = (Ok (XA_Removed removed n), w') →
  tenant_may_act (ak_tenant (ar_api_key admin)) (Some tenant) = true
  ∧ ∃ now, ∀ later, now <= later → count_live_workload_tokens later tenant agent (sto_tokens (w_disk w')) = 0%nat.
Proof.
  intros Hothers Hr. unfold remove_workload_grant. destruct (_ || _); [done|]. destruct (tenant_may_act _ _); cbn [negb]; [|done].
  unfold m_bind, m_try, on_tokens, locked_store_mutate, m_bind, await, tick. pose proof (Hothers (w_tick w) _ (w_proc w) Hr) as Hr1.
  destruct (env_others (w_tick w) _) as [d p]. cbn [fst] in Hr1. cbn beta iota zeta delta [w_tick w_disk w_proc].
  destruct (env_fault _); [done|]. cbn beta iota zeta delta [w_tick w_disk w_proc delete_workload_grant token_mutate].
  set (d1 := set_tokens _ d). assert (Hr2 : token_reachable (sto_tokens d1)).
  { apply (TR_step _ (TO_delete_grant Written (grant_key tenant agent)) Hr1). done. }
  cbn [w_tick w_disk w_proc]. set (p1 := set_cache d1 p).
  pose proof (Hothers (S (S (w_tick w))) d1 p1 Hr2) as Hr3. destruct (env_others (S (S (w_tick w))) (d1, p1)) as [d2 p2]. cbn [fst] in Hr3.
  cbn beta iota zeta delta [w_tick w_disk w_proc]. destruct (env_fault _); [done|].
  set (now := env_now _). destruct (retire_workload_generations Written now tenant agent [] (sto_tokens d2)) as [[[live gone]|] v'] eqn:Ev; [|done].
  intros [= <- <- <-]. split; [done|]. exists now. intros later Hle. cbn [w_disk sto_tokens set_tokens].
  exact (retired_none_live now later tenant agent _ Hr3 Hle).
Qed.

(** ** One generation and the cap *)

(** The readings of the clock in a stretch of time. *)
Section undisturbed.
Context (Hquiet : ∀ n s, env_others n s = s) (Hok : ∀ n, env_fault n = false).
Context (Huuid : ∀ n m, env_uuid n = env_uuid m → n = m).

(** Tokens minted before and still stored as they were minted. *)
Definition stored_at (w : ServerWorld) (k : UseToken) : Prop :=
  tv_use_tokens (sto_tokens (w_disk w)) !! ut_id k = Some k
  ∧ ∃ n, (n < w_tick w)%nat ∧ ut_id k = "ut_" +:+ env_uuid n ∧ ut_created_at k = env_now n.
Definition all_stored (w : ServerWorld) (ks : list UseToken) : Prop := Forall (stored_at w) ks ∧ NoDup (ut_id <$> ks).

Lemma on_tokens_quiet {A} (f : DateTime → TokenVault → result A TokenError * TokenVault) w :
  let n := S (w_tick w) in let v := sto_tokens (w_disk w) in let s := set_tokens (f (env_now n) v).2 (w_disk w) in
  on_tokens f w = (match (f (env_now n) v).1 with Ok a => Ok a | Err e => Err (SF_Token e) end,
                   {| w_disk := s; w_proc := set_cache s (w_proc w); w_trace := w_trace w; w_tick := S n |}).
Proof.
  cbv zeta. unfold on_tokens, locked_store_mutate, m_bind, await, tick. rewrite Hquiet. cbn. rewrite Hok. cbn. by destruct (f _ _).
Qed.

Lemma held_later w w' ks :
  all_stored w ks → w_disk w' = w_disk w → (w_tick w <= w_tick w')%nat → all_stored w' ks.
Proof.
  intros [Hs Hn] Hd Ht. split; [|done]. eapply Forall_impl; [exact Hs|]. intros k (Hk & n & ? & ?).
  split; [by rewrite Hd|]. exists n. split; [lia|done].
Qed.

(** Minting and storing one more. *)
Lemma mint_held t name credential action max_uses approval w pk w1 w2 ks :
  all_stored w ks → mint t name credential action max_uses approval w = (Ok pk, w1) → store_minted pk.2 w1 = (Ok tt, w2) →
  all_stored w2 (ks ++ [pk.2]).
Proof.
  intros [Hs Hn] Em Est. unfold mint, m_bind, tick in Em. destruct (create_use_token _ _ _ _) as [[plain k]|] eqn:Ec; [|done].
  injection Em as <- <-. unfold create_use_token in Ec. destruct (generate_token _ _) as [[? ?]|]; [|done]. injection Ec as <- <-.
  unfold store_minted, m_bind in Est. rewrite on_tokens_quiet in Est. cbn in Est. injection Est as <-.
  set (k := labelled t _) in *. assert (Hid : ut_id k = "ut_" +:+ env_uuid (w_tick w)) by done.
  assert (Hfresh : ∀ k', k' ∈ ks → ut_id k' ≠ ut_id k).
  { rewrite Forall_forall in Hs. intros k' Hin. destruct (Hs k' Hin) as (_ & n & Hlt & Hk' & _).
    intros He. rewrite Hk', Hid in He. apply string_app_inj_l, Huuid in He. lia. }
  split.
  - apply Forall_app. split; [|constructor; [|done]].
    + rewrite Forall_forall in Hs |- *. intros k' Hin. destruct (Hs k' Hin) as (Hk & n & ? & ?).
      split; [cbn [w_disk sto_tokens set_tokens tv_use_tokens set_use_tokens]; by rewrite lookup_insert_ne by (apply not_eq_sym; auto)|].
      exists n. split; [cbn; lia|done].
    + split; [apply lookup_insert_eq|]. exists (w_tick w). split; [cbn; lia|done].
  - rewrite fmap_app. apply NoDup_app. split_and!; [done| |apply NoDup_singleton].
    intros id (k' & -> & Hin)%list_elem_of_fmap He%list_elem_of_singleton. by apply (Hfresh k' Hin).
Qed.

Lemma mint_channels_held t cs : ∀ ids ks w l w1,
  all_stored w ks → mint_channels t cs ids w = (Ok (Some l), w1) → all_stored w1 (ks ++ ((λ m, m.2.2) <$> l)).
Proof.
  induction cs as [|[c g] cs IH]; intros ids ks w l w1 Hh E; cbn [mint_channels] in E.
  { injection E as <- <-. by rewrite app_nil_r. }
  unfold m_bind at 1 in E. destruct (mint _ _ _ _ _ _ w) as [[pk|] wa] eqn:Em; [|done].
  unfold m_bind at 1, m_try in E. destruct (store_minted pk.2 wa) as [[[]|] wb] eqn:Es.
  - pose proof (mint_held _ _ _ _ _ _ _ _ _ _ _ Hh Em Es) as Hb. unfold m_bind at 1, grant_recorded, await in E. rewrite Hquiet in E. cbn in E.
    unfold m_bind in E. destruct (mint_channels t cs _ _) as [[[l'|]|] wc] eqn:Ec; [|done..]. injection E as <- <-.
    apply IH with (ks := ks ++ [pk.2]) in Ec; [|eapply held_later; [exact Hb|done|cbn; lia]]. cbn. by rewrite <- app_assoc in Ec.
  - unfold m_bind in E. by destruct (revoke_minted _ _) as [[|] ?].
Qed.

(** Retiring keeps what it is told to keep. *)
Lemma retire_fold_kept ids n m id : id ∉ ids → (foldl retire_one (n, m) ids).2 !! id = m !! id.
Proof.
  revert n m. induction ids as [|i ids IH]; intros n m Hid; [done|]. apply not_elem_of_cons in Hid as [Hne Hid]. cbn [foldl].
  unfold retire_one at 2. cbn [fst snd]. destruct (m !! i); rewrite IH by done; [by apply lookup_insert_ne|done].
Qed.
Lemma retire_held t ks w w1 r : all_stored w ks → retire_predecessors (E := HandlerPanic) t (ut_id <$> ks) w = (r, w1) → all_stored w1 ks.
Proof.
  intros Hh. unfold retire_predecessors, m_bind, m_try. rewrite on_tokens_quiet. cbn. intros [= _ <-].
  destruct Hh as [Hs Hn]. split; [|done]. rewrite Forall_forall in Hs |- *. intros k Hin. destruct (Hs k Hin) as (Hk & n & ? & ?).
  split; [|exists n; split; [cbn; lia|done]]. cbn [w_disk sto_tokens set_tokens tv_use_tokens set_use_tokens].
  rewrite retire_fold_kept; [done|]. unfold to_retire. intros (k' & Hid & [_ Hk']%list_elem_of_In%filter_In)%list_elem_of_fmap.
  apply andb_true_iff in Hk' as [_ Hk']. apply negb_true_iff, bool_decide_eq_false in Hk'. apply Hk'. rewrite <- Hid.
  apply list_elem_of_fmap. by exists k.
Qed.

Lemma issue_held t w i w1 : issue t w = (Ok (XA_Issued i), w1) → all_stored w1 (is_mcp i :: is_models i).
Proof.
  unfold issue. unfold m_bind at 1. destruct (mint _ _ _ _ _ _ w) as [[mcp|] wa] eqn:Em; [|done].
  unfold m_bind at 1, m_try. destruct (store_minted mcp.2 wa) as [[[]|] wb] eqn:Es; [|done].
  assert (H0 : all_stored w []) by (split; constructor). pose proof (mint_held _ _ _ _ _ _ _ _ _ _ _ H0 Em Es) as Hb. cbn [app] in Hb.
  unfold m_bind at 1, grant_recorded, await. rewrite Hquiet. cbn beta iota zeta.
  unfold m_bind at 1. destruct (mint_channels t _ _ _) as [[[l|]|] wc] eqn:Ec; [|done..].
  apply mint_channels_held with (ks := [mcp.2]) in Ec; [|eapply held_later; [exact Hb|done|cbn; lia]]. cbn [app] in Ec.
  unfold m_bind. destruct (retire_predecessors t _ wc) as [[[]|] wd] eqn:Er; [|done]. unfold tick. intros [= <- <-]. cbn [is_mcp is_models].
  apply (retire_held t (mcp.2 :: ((λ m, m.2.2) <$> l)) wc wd (Ok tt)) in Ec;
    [|rewrite <- Er; do 2 f_equal; cbn; f_equal; by rewrite <- list_fmap_compose].
  eapply held_later; [exact Ec|done|cbn; lia].
Qed.

(** Tokens that are stored and live are counted. *)
Lemma count_at_least v now tenant label (ks : list UseToken) :
  NoDup (ut_id <$> ks) → (∀ k, k ∈ ks → tv_use_tokens v !! ut_id k = Some k ∧ live_for now tenant label k = true) →
  (length ks <= count_live_workload_tokens now tenant label v)%nat.
Proof.
  intros Hn Hk. unfold count_live_workload_tokens. apply submseteq_length, NoDup_submseteq; [by eapply NoDup_fmap_1|].
  intros k Hin. destruct (Hk k Hin) as [Hs Hl]. apply list_elem_of_In, filter_In. split; [|done]. apply list_elem_of_In.
  apply listed_token. eauto.
Qed.

Lemma spend_jti_quiet a now w : ∃ b w', spend_jti a now w = (Ok b, w')
  ∧ tv_use_tokens (sto_tokens (w_disk w')) = tv_use_tokens (sto_tokens (w_disk w)) ∧ p_cache (w_proc w') = w_disk w'
  ∧ (w_tick w <= w_tick w')%nat ∧ (tv_workload_jtis (sto_tokens (w_disk w)) !! wa_jti a = None → b = true).
Proof.
  unfold spend_jti. unfold m_bind at 1. rewrite on_tokens_quiet. unfold consume_workload_jti, token_mutate.
  destruct (filter _ _ !! wa_jti a) eqn:E; cbn; eexists _, _; (split_and!; [done|done|done|cbn; lia|]); [|done].
  apply map_lookup_filter_Some in E as [E _]. congruence.
Qed.
Lemma count_by_tokens now tenant label v v' :
  tv_use_tokens v = tv_use_tokens v' → count_live_workload_tokens now tenant label v = count_live_workload_tokens now tenant label v'.
Proof. unfold count_live_workload_tokens, list_use_tokens. by intros ->. Qed.
Lemma cache_read_quiet {A} (f : Store → A) w :
  cache_read f w = (Ok (f (p_cache (w_proc w))),
                    {| w_disk := w_disk w; w_proc := w_proc w; w_trace := w_trace w; w_tick := S (S (w_tick w)) |}).
Proof. unfold cache_read, m_bind, await, tick, get. rewrite Hquiet. cbn. by rewrite Hok. Qed.

(** What [issue] answers is within the grant. *)
Lemma issue_granted t w i w1 :
  issue t w = (Ok (XA_Issued i), w1) →
  length (is_mcp i :: is_models i) = S (size (wt_model_channels t)) ∧ ∀ k, k ∈ is_mcp i :: is_models i → within_grant t k.
Proof.
  intros E. destruct (tr_issue t w) as (tr & _ & Hf & _ & Hr). rewrite E in Hr. destruct Hr as (Hm & Hl & _). rewrite Forall_forall in Hf.
  split; [cbn; by rewrite Hl|]. intros k Hin. rewrite <- Hm in Hin. apply list_elem_of_omap in Hin as (f & Hin & Hk).
  destruct f; try done. injection Hk as ->. apply (Hf _ Hin).
Qed.
Lemma granted_is_live t k now :
  within_grant t k → now < ut_created_at k + seconds (wt_ttl_secs t) → live_for now (wt_tenant t) (wt_agent_label t) k = true.
Proof.
  intros [Hk|(c & g & _ & Hk)] Ht; destruct Hk as (H1 & H2 & _ & _ & _ & _ & _ & H3 & H4); unfold live_for, use_token_expired, past;
    rewrite H1, H2, H3, H4, !bool_decide_eq_true_2 by done; cbn; apply negb_true_iff, Z.leb_gt; lia.
Qed.

(** the cap counts tokens, not generations.  In an undisturbed process whose clock stays
    within one lifetime, once a grant was exchanged for its one generation of tokens, the
    agent's own and one per model channel, and these are as many as the cap on live
    generations, no further assertion of the workload is exchanged: every one is refused as
    over the cap (or as a replay), although exactly one generation was ever minted. *)
Theorem one_generation_fills_the_cap a a' t w i w1 :
  (∀ n m, env_now n < env_now m + seconds (wt_ttl_secs t)) →
  exchange_bound a t w = (Ok (XA_Issued i), w1) → gen_cap t <= 1 + Z.of_nat (size (wt_model_channels t)) →
  length (is_mcp i :: is_models i) = S (size (wt_model_channels t))
  ∧ ((exchange_bound a' t w1).1 = Ok (XA_Error 429 "live_generation_cap")
     ∨ (exchange_bound a' t w1).1 = Ok (XA_Error 409 "assertion_replay")).
Proof.
  intros Hclock E Hcap. unfold exchange_bound in E. unfold m_bind at 1, tick in E. cbn beta iota zeta in E.
  unfold m_bind at 1, m_try in E. destruct (spend_jti a _ _) as [[[]|] wa]; [|done..].
  unfold m_bind at 1 in E. destruct (cache_read sto_tokens wa) as [[v|] wb]; [|done].
  unfold m_bind at 1 in E. destruct (gen_cap t <=? _); [done|]. unfold m_bind, emit in E. cbn beta iota zeta in E.
  pose proof (issue_held _ _ _ _ E) as Hh. destruct (issue_granted _ _ _ _ E) as [Hl Hg]. clear E wa wb v.
  split; [done|]. destruct Hh as [Hs Hn]. unfold exchange_bound, m_bind, m_try, tick. cbn beta iota zeta delta [w_tick].
  destruct (spend_jti_quiet a' (unix_secs (env_now (w_tick w1))) {| w_disk := w_disk w1; w_proc := w_proc w1; w_trace := w_trace w1; w_tick := S (w_tick w1) |})
    as (b & w2 & -> & Ht & Hc & _).
  destruct b; [left|by right]. rewrite cache_read_quiet. cbn [w_tick]. rewrite Hc.
  rewrite (proj2 (Z.leb_le _ _)); [done|]. etransitivity; [exact Hcap|]. rewrite Z.add_comm, Z.add_1_r, <- Nat2Z.inj_succ, <- Hl. apply Nat2Z.inj_le.
  apply count_at_least; [done|]. rewrite Forall_forall in Hs. intros k Hin. destruct (Hs k Hin) as (Hk & n & _ & _ & Hcr). split.
  - by rewrite Ht.
  - apply granted_is_live; [by apply Hg|]. rewrite Hcr. apply Hclock.
Qed.

(** ** Removal *)

(** With enough randomness an undisturbed exchange goes through. *)
Context (Hrandom : ∀ n, is_Some (generate_token USE_TOKEN_PREFIX (env_secret n))).

Lemma mint_succeeds t name credential action max_uses approval w :
  ∃ pk w', mint t name credential action max_uses approval w = (Ok pk, w').
Proof.
  unfold mint, m_bind, tick, create_use_token. destruct (Hrandom (w_tick w)) as [[full prefix] ->]. by eexists _, _.
Qed.
Lemma store_succeeds k w : ∃ w', store_minted k w = (Ok tt, w').
Proof. unfold store_minted, m_bind. rewrite on_tokens_quiet. by eexists. Qed.
Lemma mint_channels_succeed t cs : ∀ ids w, ∃ l w', mint_channels t cs ids w = (Ok (Some l), w').
Proof.
  induction cs as [|[c g] cs IH]; intros ids w; [by eexists _, _|]. cbn [mint_channels]. unfold m_bind at 1.
  destruct (mint_succeeds t (wt_agent_label t +:+ " model " +:+ c) (cg_credential_scope g) (cg_action_scope g) None false w) as (pk & wa & ->).
  unfold m_bind at 1, m_try. destruct (store_succeeds pk.2 wa) as [wb ->]. unfold m_bind at 1, grant_recorded, await. destruct (env_others _ _) as [d p].
  unfold m_bind. edestruct (IH (ids ++ [ut_id pk.2])) as (l & w' & ->). by eexists _, _.
Qed.
Lemma issue_succeeds t w : ∃ i w', issue t w = (Ok (XA_Issued i), w').
Proof.
  unfold issue. unfold m_bind at 1.
  destruct (mint_succeeds t (wt_agent_label t +:+ " mcp") (wt_mcp_credential_scope t) (wt_mcp_action_scope t) (wt_mcp_max_uses t) (wt_mcp_require_approval t) w)
    as (mcp & wa & ->).
  unfold m_bind at 1, m_try. destruct (store_succeeds mcp.2 wa) as [wb ->]. unfold m_bind at 1, grant_recorded, await. destruct (env_others _ _) as [d p].
  unfold m_bind at 1. edestruct (mint_channels_succeed t (map_to_list (wt_model_channels t)) [ut_id mcp.2]) as (l & w' & ->).
  unfold m_bind, retire_predecessors, m_bind, m_try. rewrite on_tokens_quiet. cbn. by eexists _, _.
Qed.

(** C40: a removal does not reach an exchange in flight.  An exchange reads its grant once, at
    its start.  If the grant is removed right after, with success and with every token of the
    workload retired, the exchange still goes on in the same undisturbed process and answers
    with tokens that are stored and live, though the grant is gone. *)
Theorem exchange_in_flight_outlives_its_grant admin a t w removed n w1 :
  (∀ m m', env_now m' < env_now m + seconds (wt_ttl_secs t)) → (∀ m m', (m <= m')%nat → env_now m <= env_now m') →
  token_reachable (sto_tokens (w_disk w)) → tv_workload_jtis (sto_tokens (w_disk w)) !! wa_jti a = None →
  remove_workload_grant (E := HandlerPanic) admin (wt_agent_label t) (wt_tenant t) w = (Ok (XA_Removed removed n), w1) →
  get_workload_grant (sto_tokens (w_disk w1)) (grant_key (wt_tenant t) (wt_agent_label t)) = None
  ∧ ∃ i w2, exchange_bound a t w1 = (Ok (XA_Issued i), w2)
    ∧ ∀ k m, k ∈ is_mcp i :: is_models i →
        tv_use_tokens (sto_tokens (w_disk w2)) !! ut_id k = Some k ∧ live_for (env_now m) (wt_tenant t) (wt_agent_label t) k = true.
Proof.
  intros Hclock Hmono Hr Hj. unfold remove_workload_grant. destruct (_ || _); [done|]. destruct (tenant_may_act _ _); cbn [negb]; [|done].
  unfold m_bind, m_try. rewrite on_tokens_quiet. cbn beta iota zeta delta [w_tick w_disk w_proc delete_workload_grant token_mutate fst snd].
  set (d1 := set_tokens _ (w_disk w)). rewrite on_tokens_quiet. cbn [w_tick w_disk w_proc].
  set (now := env_now _). set (v2 := retire_workload_generations _ _ _ _ _ _). unfold m_ret. intros Hw1%(f_equal snd). cbn [snd] in Hw1.
  assert (Hr1 : token_reachable (sto_tokens d1)).
  { apply (TR_step _ (TO_delete_grant Written (grant_key (wt_tenant t) (wt_agent_label t))) Hr). done. }
  assert (Hd : w_disk w1 = set_tokens v2.2 d1) by (by rewrite <- Hw1).
  assert (Hk : (S (S (S (w_tick w))) <= w_tick w1)%nat) by (rewrite <- Hw1; cbn; lia). clear Hw1.
  split; [rewrite Hd; apply lookup_delete_eq|]. unfold exchange_bound. unfold m_bind at 1, tick. unfold m_bind at 1, m_try.
  edestruct (spend_jti_quiet a (unix_secs (env_now (w_tick w1)))) as (b & w2 & -> & Ht & Hc & Htick & Hb). rewrite Hb by (cbn [w_disk]; rewrite Hd; exact Hj).
  cbn [w_tick w_disk] in Ht, Htick. rewrite Hd in Ht.
  unfold m_bind at 1. rewrite cache_read_quiet, Hc. unfold m_bind at 1. cbn beta iota zeta delta [w_tick w_disk w_proc w_trace].
  rewrite (count_by_tokens _ _ _ _ v2.2) by exact Ht. unfold v2. rewrite retired_none_live; [|exact Hr1|apply Hmono; lia].
  rewrite (proj2 (Z.leb_gt _ _)) by (unfold gen_cap; lia). unfold m_bind, emit. cbn beta iota zeta.
  edestruct (issue_succeeds t) as (i & w3 & E). exists i, w3. split; [exact E|].
  destruct (issue_held _ _ _ _ E) as [Hs _]. destruct (issue_granted _ _ _ _ E) as [_ Hg]. rewrite Forall_forall in Hs.
  intros k m Hin. destruct (Hs k Hin) as (Hst & n' & _ & _ & Hcr). split; [done|]. apply granted_is_live; [by apply Hg|]. rewrite Hcr. apply Hclock.
Qed.
End undisturbed.
End exchange_facts.
