(* ===== verification/McpText.v ===== *)
(** * Text of the MCP server

    Models the text handling of [src/src/mcp/server.rs]: the redaction of what is logged
    ([is_sensitive_key], [looks_like_secret_value], [scrub_plaintext_secrets],
    [redact_json_value], [sanitize_log_str]), what an agent is told of an approval
    ([format_pending], the text of [tool_check_approval]) and the approval artifact that
    [structured_approval_content] reads back out of a tool's text.  [serde_json]'s printers
    and [chrono]'s formats are parameters.

    [log_redaction_is_exact]: after redaction no string of a value holds a form of a secret,
    and a value without one is logged as it is; [listed_header_is_logged]: the names of
    headers are not looked at.  [poll_artifact_is_faithful]: until the action has run, the
    artifact says exactly what the record says, if no later line of its note or error begins
    like a field.  [note_rewrites_the_artifact] and [body_rewrites_the_artifact]: otherwise,
    and once a body is part of the text, it does not. *)

From stdpp Require Import base gmap strings list pretty.
From Stdlib Require Import Ascii ZArith Lia.
From S2P Require Import Prelude RustStr Json PolicyTypes Approval Egress RateCard Capability GatewayBase Gateway.

Open Scope Z_scope.

(** [serde_json::to_string_pretty(v).ok()], [DateTime::format] with [%Y-%m-%d %H:%M UTC] and
    [%Y-%m-%d %H:%M:%S UTC], and [to_rfc3339]. *)
Class McpCrates := {
  json_to_string_pretty : Value → option string;
  format_minutes : DateTime → string;
  format_seconds : DateTime → string;
  to_rfc3339 : DateTime → string;
}.

(** ** Redaction *)

Definition REDACTED : string := "[REDACTED]".
Definition SENSITIVE_KEYS : list string :=
  ["api_key"; "token"; "password"; "secret"; "authorization"; "access_token"; "refresh_token"; "bearer"; "client_secret";
   "private_key"; "x-api-key"; "x-auth-token"; "webhook_secret"; "hmac_secret"; "admin_password"; "cookie"; "set-cookie"].

(** [is_sensitive_key], [looks_like_secret_value]. *)
Definition is_sensitive_key (key : string) : bool := bool_decide (to_ascii_lowercase key ∈ SENSITIVE_KEYS).
Definition SECRET_PREFIXES : list string := ["vk_"; "vut_"; "vwa_"].
Definition looks_like_secret_value (s : string) : bool :=
  let t := trim s in
  existsb (λ p, starts_with p t) SECRET_PREFIXES || starts_with "bearer " (to_ascii_lowercase t).

(** [str::find] of a string. *)
Definition find_str (pat s : string) : option nat := (λ ab, String.length ab.1) <$> split_once pat s.

(** [scrub_plaintext_secrets]: where each form first occurs, the earliest of them (the first
    listed, on a tie), and the loop; a round drops at least a form, so the length of the
    text is fuel enough. *)
Definition SECRET_FORMS : list string := ["vk_"; "vut_"; "vwa_"; "bearer "].
Definition candidates (rest : string) : list (nat * nat) :=
  omap (λ form, (λ i, (i, String.length form)) <$> find_str form (to_ascii_lowercase rest)) SECRET_FORMS.
Fixpoint min_by_key (l : list (nat * nat)) : option (nat * nat) :=
  match l with
  | [] => None
  | x :: r => match min_by_key r with Some y => if (y.1 <? x.1)%nat then Some y else Some x | None => Some x end
  end.
Definition token_char (c : ascii) : bool := is_ascii_alphanumeric c || one_of ["_"; "-"; "."; "+"; "/"; "="]%char c.
Definition after_token (s : string) : string := (break_at (λ c, negb (token_char c)) s).2.
Fixpoint scrub_rounds (fuel : nat) (rest : string) : string :=
  match fuel with
  | O => ""
  | S fuel' =>
      match min_by_key (candidates rest) with
      | None => rest
      | Some (idx, len) => str_take idx rest +:+ REDACTED +:+ scrub_rounds fuel' (after_token (str_drop (idx + len) rest))
      end
  end.
Definition scrub_plaintext_secrets (input : string) : string := scrub_rounds (S (String.length input)) input.

(** [redact_json_value]. *)
Definition redact_string (s : string) : string :=
  if looks_like_secret_value s then REDACTED
  else if existsb (λ p, contains p s) SECRET_PREFIXES || contains "bearer " (to_ascii_lowercase s)
  then scrub_plaintext_secrets s else s.
Definition is_json_string (v : Value) : bool := match v with JString _ => true | _ => false end.
Definition is_headers (key : string) : bool := eq_ignore_ascii_case key "headers".
Fixpoint redact_json_value (v : Value) : Value :=
  match v with
  | JObject m =>
      JObject (List.map (λ kv : string * Value, let '(key, child) := kv in
        (key, if is_sensitive_key key then JString REDACTED
              else match child with
                   | JObject headers =>
                       if is_headers key
                       then JObject (List.map (λ h : string * Value, let '(name, hv) := h in
                              (name, if is_json_string hv then JString REDACTED else redact_json_value hv)) headers)
                       else redact_json_value child
                   | _ => redact_json_value child
                   end)) m)
  | JArray l => JArray (List.map redact_json_value l)
  | JString s => JString (redact_string s)
  | _ => v
  end.

(** [sanitize_log_value], [sanitize_log_str]. *)
Definition sanitize_log_value (v : Value) : Value := redact_json_value v.
Definition sanitize_log_str `{JsonReader} `{SerdeJson} (input : string) : string :=
  match json_from_str input with
  | Some v => json_to_string (redact_json_value v)
  | None => scrub_plaintext_secrets input
  end.

(** ** Approvals as text *)

(** [ToolContent]. *)
Inductive ToolContent :=
| TC_Text (text : string)
| TC_Image (data mime_type : string)
| TC_Resource (uri : string) (text mime_type : option string).

Definition NL : string := String "010"%char "".
Definition CR : string := String "013"%char "".
Definition HOURGLASS : string := "⏳".
Definition show_Z (n : Z) : string := pretty n.

(** [str::lines]: a line ends with a line feed, before which one carriage return is dropped;
    an empty last line is none. *)
Definition drop_cr (line : string) : string := default line (strip_suffix CR line).
Fixpoint end_lines (parts : list string) : list string :=
  match parts with
  | [] => []
  | [last] => if is_empty last then [] else [last]
  | part :: rest => drop_cr part :: end_lines rest
  end.
Definition lines (s : string) : list string := end_lines (split_char "010"%char s).

Section text.
Context {MC : McpCrates} {JR : JsonReader}.

(** [format_pending]. *)
Definition format_pending (a : ApprovalRequest) : string :=
  HOURGLASS +:+ " APPROVAL REQUIRED - this action has NOT run yet." +:+ NL +:+ NL
  +:+ "Your request (" +:+ ap_summary a +:+ ") needs a human to approve it before Vultrino will execute it. "
  +:+ "No result is available yet, and nothing has changed on the target system." +:+ NL +:+ NL
  +:+ "approval_id: " +:+ ap_id a +:+ NL +:+ "status: pending" +:+ NL +:+ "expires: " +:+ format_minutes (ap_expires_at a) +:+ NL +:+ NL
  +:+ "HOW TO PROCEED:" +:+ NL
  +:+ "1. Call the `check_approval` tool with approval_id " +:+ String "034"%char (ap_id a) +:+ String "034"%char ", re-presenting the same "
  +:+ "credential (API key or use token) you made this request with. Only that same principal may poll this approval." +:+ NL
  +:+ "2. If it returns " +:+ String "034"%char "pending" +:+ String "034"%char ", a human has not decided yet. Wait about 10-30 seconds, "
  +:+ "then call `check_approval` again." +:+ NL
  +:+ "3. Once approved, `check_approval` will run the action and return the real result." +:+ NL
  +:+ "4. If denied or expired, `check_approval` will tell you, and you should not retry.".

(** The pieces of [tool_check_approval]'s text. *)
Definition note_of (n : option string) (before : string) : string :=
  match n with Some n => before +:+ n +:+ ")" | None => "" end.
Definition dual_control_note (a : ApprovalRequest) : string :=
  if is_open (ap_status a) && (1 <? effective_required_approvals a)
  then " Dual control: " +:+ show_Z (Z.of_nat (length (ap_signoffs a))) +:+ " of " +:+ show_Z (effective_required_approvals a)
       +:+ " distinct approvals so far (" +:+ show_Z (approvals_remaining a) +:+ " more needed)."
  else "".
Definition pretty_body (body : string) : string := default body (json_from_str body ≫= json_to_string_pretty).
Definition human_text (a : ApprovalRequest) : string :=
  match ap_status a with
  | AS_Pending =>
      HOURGLASS +:+ " Approval " +:+ ap_id a +:+ " is still PENDING. A human has not decided yet." +:+ dual_control_note a
      +:+ " Wait about 10-30 seconds, then call `check_approval` again with the same approval_id." +:+ NL
      +:+ "Expires: " +:+ format_minutes (ap_expires_at a)
  | AS_Escalated =>
      HOURGLASS +:+ " Approval " +:+ ap_id a +:+ " is still PENDING (ESCALATED to a second reviewer window). "
      +:+ "A human has not decided yet." +:+ dual_control_note a
      +:+ " Wait about 10-30 seconds, then call `check_approval` again with the same approval_id." +:+ NL
      +:+ "Expires: " +:+ format_minutes (ap_expires_at a)
  | AS_Denied =>
      "❌ Approval " +:+ ap_id a +:+ " was DENIED" +:+ note_of (ap_decision_note a) " (reason: "
      +:+ ". The action did not run. Do not retry."
  | AS_Expired =>
      "⏰ Approval " +:+ ap_id a +:+ " EXPIRED before a human decided. The action did not run. "
      +:+ "Submit a fresh request if you still need it."
  | AS_Approved =>
      if negb (ap_executed a)
      then "✅ Approval " +:+ ap_id a +:+ " was APPROVED and the action is being executed now" +:+ note_of (ap_result_error a) " ("
           +:+ ". Wait about 10-30 seconds, then call `check_approval` again with the same approval_id to get the result."
      else
        match ap_result_error a with
        | Some err => "✅ Approval " +:+ ap_id a +:+ " was APPROVED, but the action then failed to execute:" +:+ NL +:+ err
        | None =>
            "✅ Approval " +:+ ap_id a +:+ " was APPROVED and the action has now run." +:+ NL +:+ "Status: "
            +:+ show_Z (default 0 (ap_result_status a)) +:+ NL +:+ NL +:+ "Result:" +:+ NL
            +:+ pretty_body (default "" (ap_result_body a))
        end
  end.
Definition status_name (s : ApprovalStatus) : string :=
  match s with
  | AS_Pending => "pending" | AS_Escalated => "escalated" | AS_Approved => "approved" | AS_Denied => "denied"
  | AS_Expired => "expired"
  end.
Definition poll_text (a : ApprovalRequest) : string :=
  human_text a +:+ NL +:+ NL +:+ "approval_id: " +:+ ap_id a +:+ NL +:+ "status: " +:+ status_name (ap_status a)
  +:+ NL +:+ "expires: " +:+ to_rfc3339 (ap_expires_at a)
  +:+ NL +:+ "progress: " +:+ show_Z (Z.of_nat (length (ap_signoffs a))) +:+ "/" +:+ show_Z (effective_required_approvals a).

(** The text of an HTTP answer. *)
Definition http_text (method url : string) (status : Z) (body : string) : string :=
  "HTTP " +:+ method +:+ " " +:+ url +:+ NL +:+ "Status: " +:+ show_Z status +:+ NL +:+ NL +:+ "Response:" +:+ NL +:+ pretty_body body.

(** ** The artifact *)

Record ApprovalArtifact := {
  aa_approval_id : string;
  aa_status : string;
  aa_expires_at : option string;
  aa_completed : Z;
  aa_required : Z;
  aa_execution_status : string;
  aa_result : option Value;
}.
Definition artifact_json (x : ApprovalArtifact) : Value :=
  jobject [("type", JString "feir.approval.v1"); ("approval_id", JString (aa_approval_id x)); ("status", JString (aa_status x));
           ("expires_at", jopt (aa_expires_at x));
           ("progress", jobject [("completed", JNumber (PosInt (aa_completed x))); ("required", JNumber (PosInt (aa_required x)))]);
           ("execution_status", JString (aa_execution_status x)); ("result", default JNull (aa_result x));
           ("proof_reference", JNull); ("execute_at_most_once", JBool true)].

(** [structured_approval_content]. *)
Definition text_field (name text : string) : option string := find_map (λ line, trim <$> strip_prefix name line) (lines text).
Definition read_progress (v : string) : option (Z * Z) :=
  '(a, b) ← split_once "/" v; n ← parse_usize a; m ← parse_usize b; Some (n, m).
Definition execution_status (status text : string) : string :=
  if str_in status ["pending"; "escalated"] then "not_started"
  else if str_in status ["denied"; "expired"] then "blocked"
  else if String.eqb status "approved"
  then if contains "being executed now" text then "running"
       else if contains "failed to execute" text then "failed"
       else if contains "has now run" text then "completed" else "running"
  else "unknown".
Definition artifact_result (text : string) : option Value :=
  '(_, tail) ← split_once (NL +:+ "Result:" +:+ NL) text;
  json_from_str (trim (match split_once (NL +:+ NL +:+ "approval_id:") tail with Some (json, _) => json | None => tail end)).
Definition read_artifact (text : string) : option ApprovalArtifact :=
  approval_id ← text_field "approval_id:" text;
  let status := default "pending" (text_field "status:" text) in
  let '(completed, required) := default (0, 1) (text_field "progress:" text ≫= read_progress) in
  let execution := execution_status status text in
  Some {| aa_approval_id := approval_id; aa_status := status; aa_expires_at := text_field "expires:" text;
          aa_completed := completed; aa_required := required; aa_execution_status := execution;
          aa_result := if String.eqb execution "completed" then artifact_result text else None |}.
Definition structured_approval_content (content : list ToolContent) : option Value :=
  match content with
  | TC_Text text :: _ => artifact_json <$> read_artifact text
  | _ => None
  end.
End text.

(** ** Scrubbing *)

Lemma contains_cons p c s : contains p (String c s) = starts_with p (String c s) || contains p s.
Proof.
  unfold contains, starts_with. cbn [split_once]. destruct (strip_prefix p (String c s)); [done|].
  by destruct (split_once p s) as [[]|].
Qed.
Lemma contains_empty p : p ≠ "" → contains p "" = false.
Proof. by destruct p. Qed.
Lemma starts_with_cons x p c s : starts_with (String x p) (String c s) = Ascii.eqb x c && starts_with p s.
Proof. unfold starts_with. cbn [strip_prefix]. by destruct (Ascii.eqb x c). Qed.
Lemma starts_with_short c p (a b : string) :
  contains_any (Ascii.eqb c) p = false → p ≠ "" → starts_with p (a +:+ String c b) = starts_with p a.
Proof.
  revert p. induction a as [|y a IH]; intros p Hc Hne; (destruct p as [|x p]; [done|]); cbn [contains_any] in Hc;
    apply orb_false_iff in Hc as [Hx Hp].
  - rewrite (Ascii.eqb_sym c) in Hx. cbn [String.append]. rewrite starts_with_cons, Hx. done.
  - cbn [String.append]. rewrite !starts_with_cons. destruct (Ascii.eqb x y); [|done]. cbn [andb]. destruct (String.eqb_spec p "") as [->|]; [|by apply IH].
    by destruct (a +:+ String c b), a.
Qed.

(** A text is searched on each side of a character that the pattern does not have. *)
Lemma contains_around c p (a b : string) :
  contains_any (Ascii.eqb c) p = false → p ≠ "" → contains p (a +:+ String c b) = contains p a || contains p b.
Proof.
  intros Hc Hne. induction a as [|y a IH].
  - cbn [String.append]. rewrite contains_cons, contains_empty by done. change (String c b) with ("" +:+ String c b).
    rewrite (starts_with_short c p "" b) by done. by destruct p.
  - cbn [String.append]. rewrite !contains_cons, IH. change (String y (a +:+ String c b)) with (String y a +:+ String c b).
    rewrite starts_with_short by done. by destruct (starts_with p (String y a)).
Qed.

Lemma starts_with_take p n s : starts_with p (str_take n s) = true → starts_with p s = true.
Proof.
  intros [r Hr]%starts_with_spec. apply starts_with_spec. revert n s Hr. induction p as [|x p IH]; intros n s Hr; [by exists s|].
  destruct n, s as [|c s]; try done. cbn in Hr. injection Hr as -> Hr. destruct (IH _ _ Hr) as [r' ->]. by exists r'.
Qed.
Lemma find_str_cons p c s :
  find_str p (String c s) = if starts_with p (String c s) then Some 0%nat else S <$> find_str p s.
Proof.
  unfold find_str, starts_with. cbn [split_once]. destruct (strip_prefix p (String c s)); [done|].
  by destruct (split_once p s) as [[]|].
Qed.
Lemma find_str_before p n s : p ≠ "" → contains p (str_take n s) = true → ∃ i, find_str p s = Some i ∧ (i < n)%nat.
Proof.
  intros Hne. revert n. induction s as [|c s IH]; intros n Hc; (destruct n as [|n]; [by rewrite ?str_take_0, contains_empty in Hc|]).
  { by rewrite contains_empty in Hc. }
  cbn [str_take] in Hc. rewrite contains_cons in Hc. rewrite find_str_cons.
  destruct (starts_with p (String c s)) eqn:Es; [exists 0%nat; split; [done|lia]|].
  apply orb_true_iff in Hc as [Hc|Hc].
  - change (String c (str_take n s)) with (str_take (S n) (String c s)) in Hc. apply starts_with_take in Hc. congruence.
  - destruct (IH _ Hc) as (i & -> & ?). exists (S i). split; [done|lia].
Qed.
Lemma find_str_none p s : find_str p s = None ↔ contains p s = false.
Proof. unfold find_str, contains. by destruct (split_once p s). Qed.

Lemma lower_app (a b : string) : to_ascii_lowercase (a +:+ b) = to_ascii_lowercase a +:+ to_ascii_lowercase b.
Proof. induction a as [|c a IH]; [done|]. cbn in *. by rewrite IH. Qed.
Lemma lower_take n s : to_ascii_lowercase (str_take n s) = str_take n (to_ascii_lowercase s).
Proof. revert n. induction s as [|c s IH]; intros [|n]; [done..|]. cbn in *. by rewrite IH. Qed.
Lemma str_drop_shorter n s : s ≠ "" → (String.length (str_drop (S n) s) < String.length s)%nat.
Proof.
  destruct s as [|c s]; [done|]. intros _. cbn. assert (H : ∀ k (t : string), (String.length (str_drop k t) ≤ String.length t)%nat).
  { intros k t. revert k. induction t as [|x t IH]; intros [|k]; cbn; [lia..|]. pose proof (IH k). lia. }
  pose proof (H n s). lia.
Qed.
Lemma after_token_shorter s : (String.length (after_token s) ≤ String.length s)%nat.
Proof. unfold after_token. rewrite <- (break_at_app (λ c, negb (token_char c)) s) at 2. rewrite length_app_string. lia. Qed.

Lemma min_by_key_none l : min_by_key l = None → l = [].
Proof. destruct l as [|u l]; [done|]. cbn [min_by_key]. destruct (min_by_key l) as [y|]; [by destruct (Nat.ltb y.1 u.1)|done]. Qed.
Lemma min_by_key_spec l x : min_by_key l = Some x → x ∈ l ∧ ∀ y, y ∈ l → (x.1 ≤ y.1)%nat.
Proof.
  revert x. induction l as [|z l IH]; intros x; [done|]. cbn [min_by_key]. destruct (min_by_key l) as [y|] eqn:Em.
  - destruct (IH y eq_refl) as [Hy Hmin]. destruct (Nat.ltb_spec y.1 z.1); intros [= <-]; (split; [set_solver|]);
      intros u [->|Hu]%elem_of_cons; try lia; specialize (Hmin _ Hu); lia.
  - intros [= <-]. apply min_by_key_none in Em as ->. split; [by left|]. by intros y ->%list_elem_of_singleton.
Qed.
Lemma candidates_spec s i n :
  (i, n) ∈ candidates s ↔ ∃ form, form ∈ SECRET_FORMS ∧ find_str form (to_ascii_lowercase s) = Some i ∧ n = String.length form.
Proof.
  unfold candidates. rewrite list_elem_of_omap. split.
  - intros (form & Hin & (j & Hf & [= -> ->])%fmap_Some). eauto.
  - intros (form & Hin & Hf & ->). exists form. split; [done|]. by rewrite Hf.
Qed.

(** A text without a form of a secret, in any case. *)
Definition free_of_forms (s : string) : Prop := ∀ form, form ∈ SECRET_FORMS → contains form (to_ascii_lowercase s) = false.
Lemma form_facts form : form ∈ SECRET_FORMS →
  form ≠ "" ∧ contains_any (Ascii.eqb "["%char) form = false ∧ contains_any (Ascii.eqb "]"%char) form = false
  ∧ contains form "redacted" = false ∧ String.length form = S (Nat.pred (String.length form)).
Proof. intros H. repeat (apply elem_of_cons in H as [->|H]; [done|]). by apply elem_of_nil in H. Qed.
Lemma candidates_free s : free_of_forms s ↔ candidates s = [].
Proof.
  split.
  - intros Hf. destruct (candidates s) as [|[i n] l] eqn:Ec; [done|]. assert (Hin : (i, n) ∈ candidates s) by (rewrite Ec; by left).
    apply candidates_spec in Hin as (form & Hin & Hfind & _). specialize (Hf _ Hin). apply find_str_none in Hf. congruence.
  - intros Hc form Hin. apply find_str_none. destruct (find_str form (to_ascii_lowercase s)) as [i|] eqn:Ef; [|done].
    assert (H : (i, String.length form) ∈ candidates s) by (apply candidates_spec; eauto). rewrite Hc in H. by apply elem_of_nil in H.
Qed.

Lemma scrub_rounds_free fuel s : (String.length s < fuel)%nat → free_of_forms (scrub_rounds fuel s).
Proof.
  revert s. induction fuel as [|fuel IH]; intros s Hl; [lia|]. cbn [scrub_rounds].
  destruct (min_by_key (candidates s)) as [[idx len]|] eqn:Em; [|by apply candidates_free, min_by_key_none].
  apply min_by_key_spec in Em as [Hin Hmin]. cbn [fst] in Hmin. apply candidates_spec in Hin as (f0 & Hf0 & Hi & ->).
  destruct (form_facts _ Hf0) as (_ & _ & _ & _ & Hlen).
  assert (Hs : s ≠ "") by (intros ->; destruct (form_facts _ Hf0) as (? & _); by destruct f0).
  assert (Hrest : free_of_forms (scrub_rounds fuel (after_token (str_drop (idx + String.length f0) s)))).
  { apply IH. pose proof (after_token_shorter (str_drop (idx + String.length f0) s)).
    rewrite Hlen, Nat.add_succ_r in *. pose proof (str_drop_shorter (idx + Nat.pred (String.length f0)) s Hs). lia. }
  intros form Hform. destruct (form_facts _ Hform) as (Hne & Ho & Hc & Hr & _).
  rewrite !lower_app, lower_take. change (to_ascii_lowercase REDACTED) with (String "["%char ("redacted" +:+ String "]"%char "")).
  set (later := to_ascii_lowercase (scrub_rounds _ _)). cbn [String.append]. rewrite contains_around by done.
  change (String "r"%char _) with ("redacted" +:+ String "]"%char later). rewrite contains_around, Hr by done. subst later. rewrite (Hrest _ Hform), !orb_false_r.
  apply not_true_is_false. intros E. apply find_str_before in E as (i & Ei & Hlt); [|done].
  assert (H : (i, String.length form) ∈ candidates s) by (apply candidates_spec; eauto). specialize (Hmin _ H). cbn in Hmin. lia.
Qed.
Lemma scrub_free s : free_of_forms (scrub_plaintext_secrets s).
Proof. apply scrub_rounds_free. lia. Qed.
Lemma scrub_id s : free_of_forms s → scrub_plaintext_secrets s = s.
Proof. intros Hs%candidates_free. unfold scrub_plaintext_secrets. cbn [scrub_rounds]. by rewrite Hs. Qed.

(** ** Redacted values *)

Lemma contains_intro (a p b : string) : contains p (a +:+ p +:+ b) = true.
Proof.
  induction a as [|c a IH]; cbn [String.append]; [|rewrite contains_cons, IH; apply orb_true_r].
  destruct (p +:+ b) as [|c s] eqn:E; [by destruct p|]. rewrite contains_cons, <- E, starts_with_app. done.
Qed.
Lemma contains_elim p s : contains p s = true → ∃ a b, s = a +:+ p +:+ b.
Proof. unfold contains. destruct (split_once p s) as [[a b]|] eqn:E; [|done]. apply split_once_spec in E. eauto. Qed.
Lemma contains_within p (a t b : string) : contains p t = true → contains p (a +:+ t +:+ b) = true.
Proof.
  intros (x & y & ->)%contains_elim. rewrite !string_app_assoc, <- (string_app_assoc a x). apply contains_intro.
Qed.
Lemma contains_lower p s : contains p s = true → contains (to_ascii_lowercase p) (to_ascii_lowercase s) = true.
Proof. intros (a & b & ->)%contains_elim. rewrite !lower_app. apply contains_intro. Qed.
Lemma starts_with_contains p s : starts_with p s = true → contains p s = true.
Proof. intros [r ->]%starts_with_spec. apply (contains_intro ""). Qed.

Lemma trim_start_part s : ∃ a, s = a +:+ trim_start s.
Proof.
  induction s as [s IH] using (well_founded_induction (well_founded_ltof _ String.length)). unfold ltof in IH.
  assert (Hgo : ∀ (p t : string), s = p +:+ t → p ≠ "" → ∃ a, s = a +:+ trim_start t).
  { intros p t -> Hp. destruct (IH t) as [a Ha]; [rewrite length_app_string; destruct p; [done|cbn; lia]|].
    exists (p +:+ a). by rewrite string_app_assoc, <- Ha. }
  destruct s as [|c1 s1]; [by exists ""|]. cbn [trim_start]. destruct (ascii_white _); [by apply (Hgo (String c1 "") s1)|].
  destruct s1 as [|c2 s2]; [by exists ""|]. destruct (white2 _ _); [by apply (Hgo (String c1 (String c2 "")) s2)|].
  destruct s2 as [|c3 s3]; [by exists ""|]. destruct (white3 _ _ _); [|by exists ""].
  by apply (Hgo (String c1 (String c2 (String c3 ""))) s3).
Qed.
Lemma trim_end_part s : ∃ b, s = trim_end s +:+ b.
Proof.
  induction s as [|c s [b IH]]; [by exists ""|]. cbn [trim_end]. destruct (is_blank _); [by exists (String c s)|].
  exists b. cbn. by rewrite <- IH.
Qed.
Lemma contains_trim p s : contains p (trim s) = true → contains p s = true.
Proof.
  intros H. destruct (trim_start_part s) as [a Ha], (trim_end_part (trim_start s)) as [b Hb].
  rewrite Ha, Hb. by apply contains_within.
Qed.

(** A string shows a secret when it holds a prefix of a vultrino secret or a bearer. *)
Definition shows_secret (s : string) : bool :=
  existsb (λ p, contains p s) SECRET_PREFIXES || contains "bearer " (to_ascii_lowercase s).
Lemma free_shows s : free_of_forms s → shows_secret s = false.
Proof.
  intros Hs. unfold shows_secret. apply orb_false_iff. split; [|apply Hs; repeat constructor].
  apply existsb_false_elem_of. intros p Hp. apply not_true_is_false. intros Hc%contains_lower. specialize (Hs (to_ascii_lowercase p)).
  rewrite Hc in Hs. assert (to_ascii_lowercase p ∈ SECRET_FORMS); [|by discriminate Hs].
  repeat (apply elem_of_cons in Hp as [->|Hp]; [repeat constructor|]). by apply elem_of_nil in Hp.
Qed.
Lemma looks_like_shows s : looks_like_secret_value s = true → shows_secret s = true.
Proof.
  unfold looks_like_secret_value, shows_secret. intros [H|H]%orb_true_iff; apply orb_true_iff.
  - left. apply existsb_elem_of in H as (p & Hp & H). apply existsb_elem_of. exists p. split; [done|].
    by apply contains_trim, starts_with_contains.
  - right. apply starts_with_contains in H as (a & b & H)%contains_elim.
    destruct (trim_start_part s) as [x Hx], (trim_end_part (trim_start s)) as [y Hy]. fold (trim s) in Hy.
    rewrite Hx, Hy, !lower_app, H. apply contains_within, contains_intro.
Qed.
Lemma redact_string_shows s : shows_secret (redact_string s) = false.
Proof.
  unfold redact_string. destruct (looks_like_secret_value s); [done|]. fold (shows_secret s).
  destruct (shows_secret s) eqn:E; [apply free_shows, scrub_free|done].
Qed.
Lemma redact_string_id s : shows_secret s = false → redact_string s = s.
Proof.
  intros H. unfold redact_string. fold (shows_secret s). rewrite H.
  destruct (looks_like_secret_value s) eqn:E; [apply looks_like_shows in E; congruence|done].
Qed.

(** A value that redaction leaves alone, by recursion on it. *)
Definition is_redacted (v : Value) : bool := match v with JString s => String.eqb s REDACTED | _ => false end.
Fixpoint discreet (v : Value) : bool :=
  match v with
  | JObject m =>
      forallb (λ kv : string * Value, let '(key, child) := kv in
        if is_sensitive_key key then is_redacted child
        else match child with
             | JObject headers =>
                 if is_headers key
                 then forallb (λ h : string * Value, let '(_, hv) := h in if is_json_string hv then is_redacted hv else discreet hv) headers
                 else discreet child
             | _ => discreet child
             end) m
  | JArray l => forallb discreet l
  | JString s => negb (shows_secret s)
  | _ => true
  end.

Lemma value_induction (P : Value → Prop) :
  P JNull → (∀ b, P (JBool b)) → (∀ n, P (JNumber n)) → (∀ s, P (JString s)) → (∀ l, Forall P l → P (JArray l)) →
  (∀ m, Forall (λ kv, P kv.2) m → P (JObject m)) → ∀ v, P v.
Proof.
  intros Hn Hb Hnum Hs Ha Ho. fix IH 1. intros [|b|n|s|l|m]; [apply Hn|apply Hb|apply Hnum|apply Hs|apply Ha|apply Ho].
  - induction l as [|x l IHl]; constructor; [apply IH|exact IHl].
  - induction m as [|[k x] m IHm]; constructor; [apply IH|exact IHm].
Qed.

(** A statement about a value and, one level down, the entries of an object. *)
Definition with_entries (P : Value → Prop) (v : Value) : Prop :=
  P v ∧ match v with JObject m => Forall (λ kv, P kv.2) m | _ => True end.
Lemma entries_induction (P : Value → Prop) :
  P JNull → (∀ b, P (JBool b)) → (∀ n, P (JNumber n)) → (∀ s, P (JString s)) → (∀ l, Forall P l → P (JArray l)) →
  (∀ m, Forall (λ kv, with_entries P kv.2) m → P (JObject m)) → ∀ v, P v.
Proof.
  intros Hn Hb Hnum Hs Ha Ho v. enough (with_entries P v) as [H _] by done. revert v. apply value_induction; try done.
  - intros l H. split; [|done]. apply Ha. eapply Forall_impl; [exact H|]. by intros x [].
  - intros m H. split; [by apply Ho|]. eapply Forall_impl; [exact H|]. by intros x [].
Qed.

Lemma forallb_of_map {A B} (f : A → B) (P : B → bool) l : forallb P (List.map f l) = forallb (λ x, P (f x)) l.
Proof. induction l as [|x l IH]; cbn; [done|by rewrite IH]. Qed.
Lemma redact_discreet v : discreet (redact_json_value v) = true.
Proof.
  revert v. apply entries_induction; try done.
  - intros s. cbn. by rewrite redact_string_shows.
  - intros l H. cbn. rewrite forallb_of_map. apply forallb_elem_of. intros x Hx. rewrite Forall_forall in H. by apply H.
  - intros m H. cbn [redact_json_value discreet]. rewrite forallb_of_map. apply forallb_elem_of. intros [k v] Hkv.
    rewrite Forall_forall in H. destruct (H _ Hkv) as [Hv He]. cbn [snd] in *. destruct (is_sensitive_key k) eqn:Ek; rewrite ?Ek; [done|].
    destruct v as [|b|n|s|l|h]; try done. destruct (is_headers k) eqn:Eh; rewrite ?Eh; [|done].
    rewrite forallb_of_map. apply forallb_elem_of. intros [name hv] Hh. rewrite Forall_forall in He. specialize (He _ Hh). cbn in He.
    destruct hv; done.
Qed.
Lemma redact_id v : discreet v = true → redact_json_value v = v.
Proof.
  revert v. apply (entries_induction (λ v, discreet v = true → redact_json_value v = v)); try done.
  - intros s Hs. cbn in *. rewrite redact_string_id; [done|]. by apply negb_true_iff.
  - intros l H Hd. cbn in *. f_equal. rewrite forallb_elem_of in Hd. rewrite Forall_forall in H.
    rewrite <- (List.map_id l) at 2. apply List.map_ext_in. intros x Hx%list_elem_of_In. by apply H, Hd.
  - intros m H Hd. cbn [redact_json_value discreet] in *. f_equal. rewrite forallb_elem_of in Hd. rewrite Forall_forall in H.
    rewrite <- (List.map_id m) at 2. apply List.map_ext_in. intros [k v] Hx%list_elem_of_In. specialize (Hd _ Hx).
    destruct (H _ Hx) as [Hv He]. cbn in Hv, He, Hd. f_equal. destruct (is_sensitive_key k).
    { destruct v; try done. by apply String.eqb_eq in Hd as ->. }
    destruct v as [|b|n|s|l|h]; try by apply Hv. destruct (is_headers k); [|by apply Hv].
    f_equal. rewrite forallb_elem_of in Hd. rewrite Forall_forall in He. rewrite <- (List.map_id h) at 2.
    apply List.map_ext_in. intros [name hv] Hh%list_elem_of_In. specialize (Hd _ Hh). specialize (He _ Hh). cbn in Hd, He. f_equal.
    destruct hv; try by apply He. cbn in *. by apply String.eqb_eq in Hd as ->.
Qed.

(** ** Where things are in a value *)

(** [under v path x]: at [path] in [v], through keys and list elements, is [x]. *)
Inductive under : Value → list (option string) → Value → Prop :=
| under_here v : under v [] v
| under_key m k x path y : (k, x) ∈ m → under x path y → under (JObject m) (Some k :: path) y
| under_elem l x path y : x ∈ l → under x path y → under (JArray l) (None :: path) y.
(** Whether what a path leads to are the headers themselves: it ends in a key [headers] that is
    not itself the name of a header. *)
Definition enter (headers : bool) (step : option string) : bool :=
  match step with Some k => negb headers && is_headers k | None => false end.
Definition headers_at (path : list (option string)) : bool := foldl enter false path.

(** What may be logged: no string shows a secret; a sensitive key holds nothing but the word
    that it was redacted, unless it is the name of a header; and a header that is a string
    holds nothing but that word. *)
Definition nothing_shown (v : Value) : Prop :=
  (∀ path s, under v path (JString s) → shows_secret s = false)
  ∧ (∀ path k x, under v (path ++ [Some k]) x → headers_at path = false → is_sensitive_key k = true → x = JString REDACTED)
  ∧ (∀ path k s, under v (path ++ [Some k]) (JString s) → headers_at path = true → s = REDACTED).

Lemma under_last v path k x : under v (path ++ [Some k]) x → ∃ m, under v path (JObject m) ∧ (k, x) ∈ m.
Proof.
  intros H. remember (path ++ [Some k]) as q eqn:E. revert path E. induction H as [v|m j y p z Hin Hu IH|l y p z Hin Hu IH]; intros path E.
  - by destruct path.
  - destruct path as [|st path]; cbn in E.
    + injection E as <- ->. inversion Hu; subst. exists m. split; [constructor|done].
    + injection E as <- E2. destruct (IH path E2) as (m' & ? & ?). exists m'. split; [by eapply under_key|done].
  - destruct path as [|st path]; cbn in E; [discriminate E|]. injection E as <- E2.
    destruct (IH path E2) as (m' & ? & ?). exists m'. split; [by eapply under_elem|done].
Qed.
(** The same recursion at the headers themselves. *)
Definition discreet_at (headers : bool) (v : Value) : bool :=
  match headers, v with
  | true, JObject h => forallb (λ e : string * Value, let '(_, hv) := e in if is_json_string hv then is_redacted hv else discreet hv) h
  | _, _ => discreet v
  end.
Lemma redacted_discreet v : is_redacted v = true → v = JString REDACTED ∧ ∀ b, discreet_at b v = true.
Proof. destruct v; try done. intros ->%String.eqb_eq. split; [done|]. by intros []. Qed.
Lemma discreet_entry b m k x :
  discreet_at b (JObject m) = true → (k, x) ∈ m →
  discreet_at (enter b (Some k)) x = true
  ∧ (if b then is_json_string x = true → x = JString REDACTED else is_sensitive_key k = true → x = JString REDACTED).
Proof.
  intros Hd Hin. destruct b; cbn [discreet_at discreet enter negb andb] in *; rewrite forallb_elem_of in Hd; specialize (Hd _ Hin); cbn in Hd.
  - destruct (is_json_string x); [apply redacted_discreet in Hd as [-> H]; by split|by split].
  - destruct (is_sensitive_key k); [apply redacted_discreet in Hd as [-> H]; by split|]. split; [|done].
    by destruct x, (is_headers k).
Qed.
Lemma discreet_under b v path x : discreet_at b v = true → under v path x → discreet_at (foldl enter b path) x = true.
Proof.
  intros Hd H. revert b Hd. induction H as [v|m k y p z Hin _ IH|l y p z Hin _ IH]; intros b Hd; [done| |]; cbn [foldl].
  - apply IH. by eapply discreet_entry.
  - apply IH. cbn. destruct b; cbn in Hd; rewrite forallb_elem_of in Hd; by apply Hd.
Qed.
Lemma discreet_shows_nothing v : discreet v = true → nothing_shown v.
Proof.
  intros Hd. assert (Hat : discreet_at false v = true) by (by destruct v). split_and!.
  - intros path s Hu. apply (discreet_under _ _ _ _ Hat) in Hu. destruct (foldl _ _ _); by apply negb_true_iff in Hu.
  - intros path k x (m & Hm & Hin)%under_last Hh Hk. apply (discreet_under _ _ _ _ Hat) in Hm. fold (headers_at path) in Hm. rewrite Hh in Hm.
    by apply (discreet_entry false m k x).
  - intros path k s (m & Hm & Hin)%under_last Hh. apply (discreet_under _ _ _ _ Hat) in Hm. fold (headers_at path) in Hm. rewrite Hh in Hm.
    destruct (discreet_entry true m k (JString s) Hm Hin) as [_ H]. by injection (H eq_refl).
Qed.
Lemma nothing_shown_below v k x m :
  v = JObject m → (k, x) ∈ m → headers_at [Some k] = false → nothing_shown v → nothing_shown x.
Proof.
  intros -> Hin Hk (H1 & H2 & H3). unfold headers_at in *. cbn [foldl] in Hk. split_and!.
  - intros path s Hu. apply (H1 (Some k :: path)). by eapply under_key.
  - intros path j y Hu Hp. apply (H2 (Some k :: path)); [by eapply under_key|]. cbn [foldl]. by rewrite Hk.
  - intros path j s Hu Hp. apply (H3 (Some k :: path) j); [by eapply under_key|]. cbn [foldl]. by rewrite Hk.
Qed.
Lemma nothing_shown_in_header k h name hv :
  is_headers k = true → nothing_shown (JObject [(k, JObject h)]) → (name, hv) ∈ h → nothing_shown hv.
Proof.
  intros Hk (H1 & H2 & H3) Hin. set (v := JObject _) in *.
  assert (Hu : ∀ path y, under hv path y → under v (Some k :: Some name :: path) y).
  { intros path y Hy. eapply under_key; [by left|]. by eapply under_key. }
  assert (Hat : ∀ path, headers_at (Some k :: Some name :: path) = headers_at path).
  { intros path. unfold headers_at. cbn [foldl enter negb andb]. by rewrite Hk. }
  split_and!.
  - intros path s Hy. by eapply H1, Hu.
  - intros path j y Hy Hp. apply (H2 (Some k :: Some name :: path)); [by apply Hu|by rewrite Hat].
  - intros path j s Hy Hp. apply (H3 (Some k :: Some name :: path) j); [by apply Hu|by rewrite Hat].
Qed.
Lemma nothing_shown_elem l x : x ∈ l → nothing_shown (JArray l) → nothing_shown x.
Proof.
  intros Hin (H1 & H2 & H3). split_and!.
  - intros path s Hu. apply (H1 (None :: path)). by eapply under_elem.
  - intros path j y Hu Hp. apply (H2 (None :: path)); [by eapply under_elem|done].
  - intros path j s Hu Hp. apply (H3 (None :: path) j); [by eapply under_elem|done].
Qed.
Lemma nothing_shown_entry m k x : (k, x) ∈ m → nothing_shown (JObject m) → nothing_shown (JObject [(k, x)]).
Proof.
  assert (Hsub : ∀ path y, (k, x) ∈ m → path ≠ [] → under (JObject [(k, x)]) path y → under (JObject m) path y).
  { intros path y Hin Hne Hu. inversion Hu as [|? ? ? ? ? Hj|]; subst; [done|]. apply list_elem_of_singleton in Hj as [= -> ->]. by eapply under_key. }
  assert (Hlast : ∀ (path : list (option string)) j, path ++ [Some j] ≠ []) by (intros [|? ?] ?; done).
  intros Hin (H1 & H2 & H3). split_and!.
  - intros path s Hu. apply (H1 path), Hsub; [done| |done]. intros ->. by inversion Hu.
  - intros path j y Hu. apply H2. by apply Hsub.
  - intros path j s Hu. apply (H3 path j). by apply Hsub.
Qed.
Lemma shows_nothing_discreet v : nothing_shown v → discreet v = true.
Proof.
  revert v. apply (entries_induction (λ v, nothing_shown v → discreet v = true)); try done.
  - intros s (H1 & _). cbn. by rewrite (H1 [] s (under_here _)).
  - intros l H Hn. cbn. apply forallb_elem_of. intros x Hx. rewrite Forall_forall in H. apply (H _ Hx). by eapply nothing_shown_elem.
  - intros m H Hn. cbn [discreet]. apply forallb_elem_of. intros [k x] Hin. rewrite Forall_forall in H. destruct (H _ Hin) as [Hx He]. cbn in Hx, He.
    assert (Hone := nothing_shown_entry m k x Hin Hn). assert (Hk : under (JObject [(k, x)]) ([] ++ [Some k]) x) by (eapply under_key; [by left|constructor]).
    destruct (is_sensitive_key k) eqn:Ek; [by rewrite (proj1 (proj2 Hone) [] k x Hk eq_refl Ek)|].
    destruct (is_headers k) eqn:Eh; [|assert (discreet x = true) as Hd by (apply Hx; eapply (nothing_shown_below _ k x); [done|by left|unfold headers_at; cbn; by rewrite Eh|done]);
      by destruct x].
    destruct x as [|b|n|s|l|h]; try done.
    + cbn. by rewrite (proj1 Hone [Some k] s Hk).
    + apply Hx. destruct Hone as (H1 & H2 & H3). split_and!.
      * intros path s Hu. apply (H1 (Some k :: path)). eapply under_key; [by left|done].
      * intros path j y Hu Hp. destruct path as [|st path]; [by inversion Hu|]. apply (H2 (Some k :: st :: path) j); [eapply under_key; [by left|done]|].
        unfold headers_at in *. cbn [foldl enter negb andb] in *. inversion Hu; subst. exact Hp.
      * intros path j s Hu Hp. destruct path as [|st path]; [by inversion Hu|]. apply (H3 (Some k :: st :: path) j); [eapply under_key; [by left|done]|].
        unfold headers_at in *. cbn [foldl enter negb andb] in *. inversion Hu; subst. exact Hp.
    + apply forallb_elem_of. intros [name hv] Hh. rewrite Forall_forall in He. specialize (He _ Hh). cbn in He.
      destruct (is_json_string hv) eqn:Es; [|apply He; by eapply nothing_shown_in_header]. destruct hv; try done. cbn. apply String.eqb_eq.
      apply (proj2 (proj2 Hone) [Some k] name); [eapply under_key; [by left|]; eapply under_key; [done|constructor]|]. unfold headers_at. cbn. by rewrite Eh.
Qed.


(** A header given as a list of values is logged as it is, whatever its name: under [headers]
    the names are not looked at, and a list is not a string. *)
Theorem listed_header_is_logged name values :
  forallb (λ s, negb (shows_secret s)) values = true →
  let logged := JObject [("headers", JObject [(name, JArray (List.map JString values))])] in
  sanitize_log_value logged = logged.
Proof.
  intros H. cbv zeta. apply redact_id. cbn [discreet forallb is_json_string]. change (is_sensitive_key "headers") with false.
  change (is_headers "headers") with true. cbn iota. by rewrite forallb_of_map, !andb_true_r.
Qed.

(** ** Lines *)

Definition on_one_line (s : string) : bool := negb (contains_any (Ascii.eqb "010"%char) s).
Lemma on_one_line_app (a b : string) : on_one_line (a +:+ b) = on_one_line a && on_one_line b.
Proof. unfold on_one_line. by rewrite contains_any_app, negb_orb. Qed.
Lemma split_nonempty c s : split_char c s ≠ [].
Proof. destruct s as [|x s]; [done|]. cbn. destruct (Ascii.eqb x c); [done|]. by destruct (split_char c s). Qed.
Lemma split_line (a b : string) : split_char "010"%char (a +:+ NL +:+ b) = split_char "010"%char a ++ split_char "010"%char b.
Proof.
  induction a as [|c a IH]; [done|]. cbn [String.append split_char] in *. rewrite IH. destruct (Ascii.eqb c "010"%char); [done|].
  pose proof (split_nonempty "010"%char a). by destruct (split_char "010"%char a).
Qed.
Lemma split_one_line s : on_one_line s = true → split_char "010"%char s = [s].
Proof.
  unfold on_one_line. induction s as [|c s IH]; [done|]. cbn [contains_any split_char]. rewrite negb_orb.
  intros [Hc Hs]%andb_true_iff. rewrite (Ascii.eqb_sym "010"%char) in Hc. apply negb_true_iff in Hc. by rewrite Hc, (IH Hs).
Qed.
Lemma end_lines_app xs ys : ys ≠ [] → end_lines (xs ++ ys) = List.map drop_cr xs ++ end_lines ys.
Proof.
  intros Hy. induction xs as [|x xs IH]; [done|]. cbn [app end_lines List.map]. rewrite <- IH.
  destruct (xs ++ ys) eqn:E; [|done]. by apply app_eq_nil in E as [_ ->].
Qed.
Lemma lines_app (a b : string) : lines (a +:+ NL +:+ b) = List.map drop_cr (split_char "010"%char a) ++ lines b.
Proof. unfold lines. rewrite split_line. apply end_lines_app, split_nonempty. Qed.
Lemma find_map_app {A B} (f : A → option B) l l' :
  find_map f (l ++ l') = match find_map f l with Some b => Some b | None => find_map f l' end.
Proof. induction l as [|x l IH]; cbn; [done|]. by destruct (f x). Qed.

(** ** Fields *)

Definition FIELDS : list string := ["approval_id:"; "status:"; "expires:"; "progress:"].
(** No line of a text looks like a field. *)
Definition unmarked (s : string) : bool :=
  forallb (λ line, forallb (λ name, negb (starts_with name line)) FIELDS) (split_char "010"%char s).
Lemma unmarked_app (a b : string) : unmarked (a +:+ NL +:+ b) = unmarked a && unmarked b.
Proof. unfold unmarked. by rewrite split_line, forallb_app. Qed.
Lemma unmarked_line s : on_one_line s = true → forallb (λ name, negb (starts_with name s)) FIELDS = true → unmarked s = true.
Proof. intros H. unfold unmarked. rewrite split_one_line by done. cbn [forallb]. by rewrite andb_true_r. Qed.
Lemma drop_cr_prefix line name : starts_with name line = false → strip_prefix name (drop_cr line) = None.
Proof.
  intros H. destruct (strip_prefix name (drop_cr line)) as [r|] eqn:E; [|done]. apply strip_prefix_spec in E.
  assert (∃ t, line = drop_cr line +:+ t) as [t Ht].
  { unfold drop_cr. destruct (strip_suffix CR line) as [x|] eqn:Es; cbn; [|exists ""; by rewrite string_app_nil_r].
    apply strip_suffix_eq in Es. eauto. }
  rewrite Ht, E, string_app_assoc, starts_with_app in H. done.
Qed.
Lemma field_after name (a b : string) : name ∈ FIELDS → unmarked a = true → text_field name (a +:+ NL +:+ b) = text_field name b.
Proof.
  intros Hn Ha. unfold text_field. rewrite lines_app, find_map_app.
  enough (find_map (λ line, trim <$> strip_prefix name line) (List.map drop_cr (split_char "010"%char a)) = None) as -> by done.
  apply find_map_None. intros line Hl. apply list_elem_of_In, List.in_map_iff in Hl as (x & <- & Hx). apply list_elem_of_In in Hx.
  unfold unmarked in Ha. rewrite forallb_elem_of in Ha. specialize (Ha _ Hx). rewrite forallb_elem_of in Ha.
  rewrite drop_cr_prefix; [done|]. by apply negb_true_iff, Ha.
Qed.
Lemma field_past name (line b : string) :
  on_one_line line = true → starts_with name line = false → text_field name (line +:+ NL +:+ b) = text_field name b.
Proof.
  intros Hl Hs. unfold text_field. rewrite lines_app, split_one_line by done. cbn [List.map app find_map].
  by rewrite drop_cr_prefix.
Qed.

(** A value on one line, without surrounding blanks. *)
Definition plain_field (s : string) : Prop := on_one_line s = true ∧ contains_any (Ascii.eqb "013"%char) s = false ∧ trim s = s.
Lemma trim_space s : trim (" " +:+ s) = trim s.
Proof. done. Qed.
Lemma no_cr_kept s : contains_any (Ascii.eqb "013"%char) s = false → drop_cr s = s.
Proof.
  intros H. unfold drop_cr. destruct (strip_suffix CR s) as [x|] eqn:E; [|done]. apply strip_suffix_eq in E as ->.
  rewrite contains_any_app in H. apply orb_false_iff in H as [_ H]. done.
Qed.
Lemma field_here name (v b : string) :
  on_one_line name = true → contains_any (Ascii.eqb "013"%char) name = false → plain_field v →
  text_field name ((name +:+ " " +:+ v) +:+ NL +:+ b) = Some v.
Proof.
  intros Hn Hc (Hv & Hcr & Ht). unfold text_field. rewrite lines_app, split_one_line.
  2:{ rewrite !on_one_line_app, Hn, Hv. done. }
  cbn [List.map app find_map]. rewrite no_cr_kept by (rewrite !contains_any_app, Hc, Hcr; done).
  rewrite strip_prefix_app. cbn [fmap option_fmap option_map]. by rewrite trim_space, Ht.
Qed.
Lemma field_last name (v : string) :
  on_one_line name = true → name ≠ "" → on_one_line v = true → trim v = v → text_field name (name +:+ " " +:+ v) = Some v.
Proof.
  intros Hn Hne Hv Ht. unfold text_field, lines. rewrite split_one_line by (by rewrite !on_one_line_app, Hn, Hv). cbn [end_lines].
  destruct (is_empty _) eqn:E; [by destruct name|]. cbn [find_map]. rewrite strip_prefix_app. cbn [fmap option_fmap option_map].
  by rewrite trim_space, Ht.
Qed.

(** ** Numbers *)

Lemma show_Z_free c n : (∀ d, Ascii.eqb c (pretty_N_char d) = false) → Ascii.eqb c "-"%char = false → contains_any (Ascii.eqb c) (show_Z n) = false.
Proof.
  intros Hd Hm. destruct n as [|p|p]; [|exact (pretty_N_free c (Npos p) Hd)|].
  - cbn. pose proof (Hd 0%N) as H0. cbn in H0. by rewrite H0.
  - change (contains_any (Ascii.eqb c) ("-" +:+ pretty (Npos p)) = false). rewrite contains_any_app, pretty_N_free by done.
    cbn [contains_any]. by rewrite Hm.
Qed.
Lemma char_not_digit c : (c ∉ ["0"; "1"; "2"; "3"; "4"; "5"; "6"; "7"; "8"; "9"]%char) → ∀ d, Ascii.eqb c (pretty_N_char d) = false.
Proof.
  intros H d. apply Ascii.eqb_neq. intros ->. apply H. unfold pretty_N_char. repeat case_match; set_solver.
Qed.

Lemma digit_char d : (d < 10)%N → is_ascii_digit (pretty_N_char d) = true ∧ Z.of_nat (nat_of_ascii (pretty_N_char d) - 48) = Z.of_N d.
Proof.
  intros Hd. assert (∃ k, (k < 10)%nat ∧ d = N.of_nat k) as (k & Hk & ->) by (exists (N.to_nat d); lia).
  do 10 (destruct k as [|k]; [done|]). lia.
Qed.
Lemma digits_of_go (x : N) s : (Z.of_N x <= u64_max) → digits_value (pretty_N_go x s) 0 = digits_value s (Z.of_N x).
Proof.
  revert s. induction (N.lt_wf_0 x) as [x _ IH]; intros s Hx. assert (x = 0 ∨ 0 < x)%N as [->|Hp] by lia; [by rewrite pretty_N_go_0|].
  rewrite pretty_N_go_step by done. rewrite IH; [|by apply N.div_lt|].
  2:{ etransitivity; [|exact Hx]. apply N2Z.inj_le, N.Div0.div_le_upper_bound. lia. }
  destruct (digit_char (x mod 10)) as [Hd Hv]; [by apply N.mod_lt|]. cbn [digits_value]. rewrite Hd, Hv.
  replace (Z.of_N (x / 10) * 10 + Z.of_N (x mod 10)) with (Z.of_N x) by (rewrite (N.div_mod x 10) at 1 by done; lia).
  by destruct (Z.leb_spec (Z.of_N x) u64_max); [|lia].
Qed.
Lemma parse_digits s : (∀ r, s ≠ String "+"%char r) → s ≠ "" → parse_usize s = digits_value s 0.
Proof.
  intros Hp Hne. unfold parse_usize. destruct s as [|c s]; [done|]. destruct (Ascii.eqb_spec c "+"%char) as [->|Hc]; [by specialize (Hp s)|].
  assert ((match String c s with String "+" (String c' r) => String c' r | _ => String c s end) = String c s) as ->.
  { destruct c as [[] [] [] [] [] [] [] []]; try done. }
  done.
Qed.
Lemma parse_show n : 0 <= n <= u64_max → parse_usize (show_Z n) = Some n.
Proof.
  intros Hn. destruct n as [|p|p]; [done| |lia]. rewrite parse_digits.
  - change (show_Z (Zpos p)) with (pretty (Npos p)). unfold pretty, pretty_N. case_decide; [done|].
    rewrite digits_of_go by (cbn; lia). done.
  - intros r Hr. assert (H : contains_any (Ascii.eqb "+"%char) (show_Z (Zpos p)) = false) by (apply show_Z_free; [apply char_not_digit; set_solver|done]).
    rewrite Hr in H. done.
  - intros He. assert (H : digits_value (show_Z (Zpos p)) 0 = Some (Zpos p)).
    { change (show_Z (Zpos p)) with (pretty (Npos p)). unfold pretty, pretty_N. case_decide; [done|]. rewrite digits_of_go by (cbn; lia). done. }
    rewrite He in H. done.
Qed.

(** Text of visible ASCII characters has nothing to trim. *)
Definition solid (c : ascii) : bool := (33 <=? nat_of_ascii c)%nat && (nat_of_ascii c <? 128)%nat.
Lemma solid_not_white c a b : solid c = true →
  ascii_white (nat_of_ascii c) = false ∧ white2 (nat_of_ascii c) a = false ∧ white3 (nat_of_ascii c) a b = false.
Proof.
  unfold solid, ascii_white, white2, white3. generalize (nat_of_ascii c). intros n Hn.
  apply andb_true_iff in Hn as [H1%Nat.leb_le H2%Nat.ltb_lt].
  assert (n ≠ 194 ∧ n ≠ 225 ∧ n ≠ 226 ∧ n ≠ 227 ∧ n ≠ 32)%nat as (H3 & H4 & H5 & H6 & H7) by lia.
  apply Nat.eqb_neq in H3, H4, H5, H6, H7. rewrite H3, H4, H5, H6, H7.
  destruct (Nat.leb_spec n 13); [lia|]. by rewrite andb_false_r.
Qed.
Lemma solid_not_blank c s : solid c = true → is_blank (String c s) = false ∧ trim_start (String c s) = String c s.
Proof.
  intros H. cbn [is_blank trim_start]. destruct (solid_not_white c 0%nat 0%nat H) as [-> _]. destruct s as [|x s]; [done|].
  destruct (solid_not_white c (nat_of_ascii x) 0%nat H) as (_ & -> & _). destruct s as [|y s]; [done|].
  destruct (solid_not_white c (nat_of_ascii x) (nat_of_ascii y) H) as (_ & _ & ->). done.
Qed.
Lemma trim_solid s : str_all solid s = true → trim s = s.
Proof.
  intros H. unfold trim. assert (trim_start s = s) as ->.
  { destruct s as [|c s]; [done|]. cbn [str_all] in H. apply andb_true_iff in H as [Hc _]. by apply solid_not_blank. }
  induction s as [|c s IH]; [done|]. cbn [str_all] in H. apply andb_true_iff in H as [Hc Hs].
  cbn [trim_end]. destruct (solid_not_blank c s Hc) as [-> _]. by rewrite IH.
Qed.
Lemma str_all_app P (a b : string) : str_all P (a +:+ b) = str_all P a && str_all P b.
Proof. induction a as [|c a IH]; cbn; [done|]. by rewrite IH, andb_assoc. Qed.
Lemma pretty_go_solid x s : str_all solid s = true → str_all solid (pretty_N_go x s) = true.
Proof.
  revert s. induction (N.lt_wf_0 x) as [x _ IH]; intros s Hs. assert (x = 0 ∨ 0 < x)%N as [->|Hp] by lia; [by rewrite pretty_N_go_0|].
  rewrite pretty_N_go_step by done. apply IH; [by apply N.div_lt|]. cbn [str_all]. rewrite Hs, andb_true_r.
  unfold pretty_N_char. by repeat case_match.
Qed.
Lemma show_Z_solid n : str_all solid (show_Z n) = true.
Proof.
  assert (H : ∀ p, str_all solid (pretty (Npos p)) = true).
  { intros p. unfold pretty, pretty_N. case_decide; [done|]. by apply pretty_go_solid. }
  destruct n as [|p|p]; [done|apply H|]. change (show_Z (Zneg p)) with ("-" +:+ pretty (Npos p)). by rewrite str_all_app, H.
Qed.
Lemma show_Z_line n : on_one_line (show_Z n) = true.
Proof. unfold on_one_line. rewrite show_Z_free; [done| |done]. apply char_not_digit. set_solver. Qed.
Lemma split_once_cons pat c s :
  split_once pat (String c s) = match strip_prefix pat (String c s) with
                                | Some r => Some ("", r)
                                | None => match split_once pat s with Some (a, b) => Some (String c a, b) | None => None end
                                end.
Proof. done. Qed.
Lemma split_once_found pat (a b : string) :
  (∀ c r, pat = String c r → contains_any (Ascii.eqb c) a = false) → pat ≠ "" → split_once pat (a +:+ pat +:+ b) = Some (a, b).
Proof.
  destruct pat as [|p pat]; [done|]. intros Hp _. specialize (Hp p pat eq_refl). induction a as [|c a IH].
  - cbn [String.append split_once]. change (String p (pat +:+ b)) with (String p pat +:+ b). by rewrite strip_prefix_app.
  - cbn [contains_any] in Hp. apply orb_false_iff in Hp as [Hc Ha].
    change (String c a +:+ String p pat +:+ b) with (String c (a +:+ String p pat +:+ b)). rewrite split_once_cons.
    cbn [strip_prefix]. by rewrite Hc, (IH Ha).
Qed.
Lemma read_progress_shown n m : 0 <= n <= u64_max → 0 <= m <= u64_max → read_progress (show_Z n +:+ "/" +:+ show_Z m) = Some (n, m).
Proof.
  intros Hn Hm. unfold read_progress. rewrite split_once_found; [|intros c r [= <- <-]; apply show_Z_free; [apply char_not_digit; set_solver|done]|done].
  cbn [mbind option_bind]. by rewrite !parse_show.
Qed.

(** ** What a poll says *)

Section polls.
Context {MC : McpCrates} {JR : JsonReader}.

(** No line, or no line after the first, looks like a field. *)
Definition bare_line (line : string) : bool := forallb (λ name, negb (starts_with name line)) FIELDS.
Definition later_unmarked (s : string) : bool := forallb bare_line (tail (split_char "010"%char s)).
Definition no_field_in (n : option string) : Prop := ∀ s, n = Some s → later_unmarked s = true.

(** The text of a record can be told from the fields after it: the id and the times are printed
    on one line, and no line of a note or an error after its first begins with a field's name. *)
Definition told_plainly (a : ApprovalRequest) : Prop :=
  plain_field (ap_id a) ∧ plain_field (to_rfc3339 (ap_expires_at a)) ∧ on_one_line (format_minutes (ap_expires_at a)) = true
  ∧ no_field_in (ap_decision_note a) ∧ no_field_in (ap_result_error a).
Definition yet_to_run (a : ApprovalRequest) : Prop := ap_status a = AS_Approved → ap_executed a = false.
Definition expected_execution (s : ApprovalStatus) : string :=
  match s with AS_Pending | AS_Escalated => "not_started" | AS_Denied | AS_Expired => "blocked" | AS_Approved => "running" end.
Definition expected_artifact (a : ApprovalRequest) : ApprovalArtifact :=
  {| aa_approval_id := ap_id a; aa_status := status_name (ap_status a); aa_expires_at := Some (to_rfc3339 (ap_expires_at a));
     aa_completed := Z.of_nat (length (ap_signoffs a)); aa_required := effective_required_approvals a;
     aa_execution_status := expected_execution (ap_status a); aa_result := None |}.

Lemma dual_note_line a : on_one_line (dual_control_note a) = true.
Proof. unfold dual_control_note. destruct (_ && _); [|done]. by rewrite !on_one_line_app, !show_Z_line. Qed.
Lemma later_app (a s : string) : on_one_line a = true → later_unmarked (a +:+ s) = later_unmarked s.
Proof.
  unfold on_one_line, later_unmarked. induction a as [|c a IH]; [done|]. cbn [contains_any String.append split_char]. rewrite negb_orb.
  intros [Hc Ha]%andb_true_iff. rewrite (Ascii.eqb_sym "010"%char) in Hc. apply negb_true_iff in Hc. rewrite Hc, <- (IH Ha).
  by destruct (split_char "010"%char (a +:+ s)).
Qed.
Lemma later_LF s : later_unmarked (NL +:+ s) = unmarked s.
Proof. done. Qed.
Lemma later_line s : on_one_line s = true → later_unmarked s = true.
Proof. intros H. unfold later_unmarked. by rewrite split_one_line. Qed.
Lemma unmarked_by (line s : string) : on_one_line line = true → (∀ t, bare_line (line +:+ t) = true) → later_unmarked s = true → unmarked (line +:+ s) = true.
Proof.
  intros Hl Hb Hs. rewrite <- (later_app line s Hl) in Hs. unfold unmarked, later_unmarked in *. fold bare_line.
  assert (∃ t r, split_char "010"%char (line +:+ s) = (line +:+ t) :: r) as (t & r & E).
  { clear Hs Hb. revert Hl. unfold on_one_line. induction line as [|c line IH]; cbn [contains_any String.append split_char].
    - pose proof (split_nonempty "010"%char s). destruct (split_char "010"%char s); [done|]. eauto.
    - rewrite negb_orb. intros [Hc Ha]%andb_true_iff. rewrite (Ascii.eqb_sym "010"%char) in Hc. apply negb_true_iff in Hc. rewrite Hc.
      destruct (IH Ha) as (t & r & ->). eauto. }
  rewrite E in *. cbn [forallb tail] in *. fold (bare_line (line +:+ t)). by rewrite Hb.
Qed.
(** Around a character that no field has, the lines are those of the two sides. *)
Lemma split_around c (s t : string) :
  c ≠ "010"%char → ∃ init l h r, split_char "010"%char s = init ++ [l] ∧ split_char "010"%char t = h :: r
  ∧ split_char "010"%char (s +:+ String c t) = init ++ (l +:+ String c h) :: r.
Proof.
  intros Hc. assert (Hx : ∀ x, Ascii.eqb x "010"%char = false → ∀ s : string, ∃ h r, split_char "010"%char s = h :: r
    ∧ split_char "010"%char (String x s) = String x h :: r).
  { intros x Hx u. cbn [split_char]. rewrite Hx. pose proof (split_nonempty "010"%char u). destruct (split_char "010"%char u) as [|h r]; [done|eauto]. }
  induction s as [|x s IH].
  - destruct (Hx c ltac:(by apply Ascii.eqb_neq) t) as (h & r & H1 & H2). exists [], "", h, r. by split_and!.
  - destruct IH as (init & l & h & r & H1 & H2 & H3). destruct (Ascii.eqb x "010"%char) eqn:E.
    + exists ("" :: init), l, h, r. cbn [String.append split_char]. by rewrite E, H1, H3.
    + cbn [String.append split_char]. rewrite E, H1, H3. destruct init as [|i init]; [exists [], (String x l), h, r|exists (String x i :: init), l, h, r]; done.
Qed.
Lemma later_around c (s t : string) :
  c ≠ "010"%char → (∀ name, name ∈ FIELDS → contains_any (Ascii.eqb c) name = false) →
  later_unmarked (s +:+ String c t) = later_unmarked s && later_unmarked t.
Proof.
  intros Hc Hf. destruct (split_around c s t Hc) as (init & l & h & r & H1 & H2 & H3). unfold later_unmarked. rewrite H1, H2, H3.
  assert (Hl : bare_line (l +:+ String c h) = bare_line l).
  { unfold bare_line, FIELDS in *. cbn [forallb]. rewrite !starts_with_short by (done || apply Hf; set_solver). done. }
  destruct init as [|i init]; [done|]. cbn [app tail]. rewrite !forallb_app. cbn [forallb]. by rewrite Hl, andb_true_r, andb_assoc.
Qed.
Lemma later_note n (before t : string) :
  no_field_in n → on_one_line before = true → later_unmarked t = true → later_unmarked (note_of n before +:+ t) = true.
Proof.
  intros Hn Hb Ht. destruct n as [s|]; [|done]. cbn [note_of]. rewrite !string_app_assoc, later_app by done.
  change (")" +:+ t) with (String ")"%char t). rewrite later_around; [by rewrite (Hn s eq_refl), Ht|done|].
  intros name Hin. unfold FIELDS in Hin. by repeat (apply elem_of_cons in Hin as [->|Hin]; [done|]); apply elem_of_nil in Hin.
Qed.
Lemma human_text_unmarked a : told_plainly a → yet_to_run a → unmarked (human_text a) = true.
Proof.
  intros ((Hid & _) & _ & Hf & Hn & He) Hr. unfold human_text.
  assert (Hexp : unmarked ("Expires: " +:+ format_minutes (ap_expires_at a)) = true) by (by apply unmarked_by; [| |apply later_line]).
  destruct (ap_status a) eqn:Es; try (rewrite (Hr Es); cbn [negb]).
  all: apply unmarked_by; [done|done|].
  all: repeat (rewrite later_LF || rewrite later_app by (done || apply dual_note_line)); try done; try (by apply later_line); by apply later_note.
Qed.

(** The lines after the human text. *)
Lemma field_skip name (label v b : string) :
  on_one_line label = true → on_one_line v = true → starts_with name (label +:+ v) = false →
  text_field name (label +:+ v +:+ NL +:+ b) = text_field name b.
Proof. intros Hl Hv Hs. rewrite <- (string_app_assoc label). apply field_past; [by rewrite on_one_line_app, Hl|done]. Qed.
Lemma field_at name (v b : string) :
  on_one_line name = true → contains_any (Ascii.eqb "013"%char) name = false → plain_field v →
  text_field name ((name +:+ " ") +:+ v +:+ NL +:+ b) = Some v.
Proof. intros Hn Hc Hv. rewrite <- (field_here name v b Hn Hc Hv). by rewrite !string_app_assoc. Qed.
Lemma poll_fields (a : ApprovalRequest) :
  plain_field (ap_id a) → plain_field (to_rfc3339 (ap_expires_at a)) → unmarked (human_text a) = true →
  text_field "approval_id:" (poll_text a) = Some (ap_id a)
  ∧ text_field "status:" (poll_text a) = Some (status_name (ap_status a))
  ∧ text_field "expires:" (poll_text a) = Some (to_rfc3339 (ap_expires_at a))
  ∧ text_field "progress:" (poll_text a)
    = Some (show_Z (Z.of_nat (length (ap_signoffs a))) +:+ "/" +:+ show_Z (effective_required_approvals a)).
Proof.
  intros Hid He Hu. set (progress := show_Z (Z.of_nat (length (ap_signoffs a))) +:+ "/" +:+ show_Z (effective_required_approvals a)).
  assert (on_one_line progress = true ∧ trim progress = progress) as [Hp Ht].
  { subst progress. split; [by rewrite !on_one_line_app, !show_Z_line|]. apply trim_solid. by rewrite !str_all_app, !show_Z_solid. }
  assert (Hs : plain_field (status_name (ap_status a))) by (by destruct (ap_status a)).
  assert (Hskip : ∀ name, name ∈ FIELDS → text_field name (poll_text a) = text_field name
    ("approval_id: " +:+ ap_id a +:+ NL +:+ "status: " +:+ status_name (ap_status a) +:+ NL +:+ "expires: "
     +:+ to_rfc3339 (ap_expires_at a) +:+ NL +:+ "progress: " +:+ progress)).
  { intros name Hn. unfold poll_text. rewrite field_after by done.
    match goal with |- text_field _ (NL +:+ ?t) = _ => change (text_field name ("" +:+ NL +:+ t) = text_field name t) end.
    by apply field_after. }
  split_and!; (rewrite Hskip; [|set_solver]).
  - by apply (field_at "approval_id:").
  - rewrite field_skip; [by apply (field_at "status:")|done|apply Hid|done].
  - rewrite field_skip; [|done|apply Hid|done]. rewrite field_skip; [by apply (field_at "expires:")|done|apply Hs|done].
  - rewrite field_skip; [|done|apply Hid|done]. rewrite field_skip; [|done|apply Hs|done]. rewrite field_skip; [|done|apply He|done].
    by apply (field_last "progress:").
Qed.

Lemma running_text (a : ApprovalRequest) : ap_status a = AS_Approved → ap_executed a = false → contains "being executed now" (poll_text a) = true.
Proof.
  intros Hs He. unfold poll_text, human_text. rewrite Hs, He. cbn [negb].
  match goal with |- contains ?p (("✅ Approval " +:+ ?i +:+ _ +:+ ?b) +:+ ?t) = true =>
    transitivity (contains p (("✅ Approval " +:+ i +:+ " was APPROVED and the action is ") +:+ p +:+ (b +:+ t)));
      [by rewrite !string_app_assoc|apply contains_intro] end.
Qed.

(** C36: Until its action has run, an approval is reported exactly, if the text can be told from
    the fields: the id and the times are printed plainly on one line, and no line after the
    first of the note of the decision or of the error begins with a field's name, which
    [note_rewrites_the_artifact] shows to be needed; and the counts fit [u64].  Then, whatever the state of a record that
    has not been executed, the artifact read back out of the text of a poll names that approval,
    its status, its expiry and the signatures it has and needs, says that the action is not
    started, blocked or running as the status demands, and carries no result. *)
Theorem poll_artifact_is_faithful (a : ApprovalRequest) :
  told_plainly a → yet_to_run a → Z.of_nat (length (ap_signoffs a)) <= u64_max → effective_required_approvals a <= u64_max →
  read_artifact (poll_text a) = Some (expected_artifact a).
Proof.
  intros Ht Hr Hn Hm. pose proof (human_text_unmarked a Ht Hr) as Hu. destruct Ht as (Hid & He & _).
  destruct (poll_fields a Hid He Hu) as (H1 & H2 & H3 & H4). unfold read_artifact. rewrite H1, H2, H3, H4. cbn [mbind option_bind default].
  rewrite read_progress_shown by (split; [|done]; unfold effective_required_approvals; destruct (ap_dual_control a); lia).
  assert (Hx : execution_status (status_name (ap_status a)) (poll_text a) = expected_execution (ap_status a)).
  { unfold execution_status. destruct (ap_status a) eqn:Es; try done. by rewrite running_text by auto. }
  cbn. rewrite Hx. unfold expected_artifact. by destruct (ap_status a).
Qed.

(** ** A body among the lines *)

(** A body that no JSON reader takes is shown as it is. *)
Lemma raw_body body : json_from_str body = None → pretty_body body = body.
Proof. intros H. unfold pretty_body. by rewrite H. Qed.
Definition forged_body (id : string) : string := "approval_id: " +:+ id +:+ NL +:+ "status: denied" +:+ NL +:+ "progress: 0/9".
Lemma forged_artifact (before after id : string) :
  unmarked before = true → plain_field id → (after = "" ∨ ∃ t, after = NL +:+ t) →
  ∃ x, read_artifact (before +:+ NL +:+ forged_body id +:+ after) = Some x
  ∧ aa_approval_id x = id ∧ aa_status x = "denied" ∧ aa_required x = 9 ∧ aa_execution_status x = "blocked" ∧ aa_result x = None.
Proof.
  intros Hb Hid Ha. set (text := before +:+ _). assert (Hskip : ∀ name, name ∈ FIELDS → text_field name text = text_field name
    ("approval_id: " +:+ id +:+ NL +:+ "status: denied" +:+ NL +:+ "progress: 0/9" +:+ after)).
  { intros name Hn. subst text. rewrite field_after by done. unfold forged_body. by rewrite !string_app_assoc. }
  assert (H1 : text_field "approval_id:" text = Some id) by (rewrite Hskip by set_solver; by apply (field_at "approval_id:")).
  assert (H2 : text_field "status:" text = Some "denied").
  { rewrite Hskip by set_solver. rewrite field_skip; [|done|apply Hid|done]. by apply (field_at "status:" "denied"). }
  assert (H3 : text_field "progress:" text = Some "0/9").
  { rewrite Hskip by set_solver. rewrite field_skip; [|done|apply Hid|done]. rewrite (field_past "progress:" "status: denied") by done.
    destruct Ha as [->|[t ->]]; [by rewrite string_app_nil_r|by apply (field_at "progress:" "0/9")]. }
  unfold read_artifact. rewrite H1, H2, H3. eexists. split; [reflexivity|done].
Qed.

(** A note decides what the artifact says, too.  The reason a person gives for a denial is any
    text; with a few more lines in it, the artifact of the denied approval names another one. *)
Theorem note_rewrites_the_artifact (a : ApprovalRequest) id :
  plain_field id → on_one_line (ap_id a) = true → ap_status a = AS_Denied →
  ap_decision_note a = Some ("no" +:+ NL +:+ forged_body id +:+ NL) →
  ∃ x, structured_approval_content [TC_Text (poll_text a)] = Some (artifact_json x)
  ∧ aa_approval_id x = id ∧ aa_status x = "denied" ∧ aa_required x = 9 ∧ aa_execution_status x = "blocked" ∧ aa_result x = None.
Proof.
  intros Hid Ha Hs Hn. cut (∃ x, read_artifact (poll_text a) = Some x ∧ aa_approval_id x = id ∧ aa_status x = "denied" ∧ aa_required x = 9
    ∧ aa_execution_status x = "blocked" ∧ aa_result x = None).
  { intros (x & Hx & H). exists x. cbn. by rewrite Hx. }
  unfold poll_text, human_text. rewrite Hs, Hn. cbn [note_of].
  match goal with |- context [read_artifact ((_ +:+ _ +:+ _ +:+ (_ +:+ _ +:+ ?p) +:+ ?e) +:+ ?t)] =>
    match goal with |- context [read_artifact ?text] =>
      replace text with (("❌ Approval " +:+ ap_id a +:+ " was DENIED (reason: no") +:+ NL +:+ forged_body id +:+ (NL +:+ p +:+ e +:+ t))
        by (by rewrite !string_app_assoc) end end.
  apply forged_artifact; [|done|eauto]. apply unmarked_by; [done|done|]. by rewrite !later_app.
Qed.

(** A body that passes through the text decides what the artifact says.  A result body
    of three lines makes the artifact of an approval that did run name another approval, as
    denied and blocked; and the answer of an HTTP request, which never had an approval, is
    given an artifact of one in the same way. *)
Theorem body_rewrites_the_artifact (a : ApprovalRequest) id url method status :
  json_from_str (forged_body id) = None → plain_field id → on_one_line (ap_id a) = true →
  on_one_line url = true → on_one_line method = true →
  ap_status a = AS_Approved → ap_executed a = true → ap_result_error a = None → ap_result_body a = Some (forged_body id) →
  ∀ text, text = poll_text a ∨ text = http_text method url status (forged_body id) →
  ∃ x, structured_approval_content [TC_Text text] = Some (artifact_json x)
  ∧ aa_approval_id x = id ∧ aa_status x = "denied" ∧ aa_required x = 9 ∧ aa_execution_status x = "blocked" ∧ aa_result x = None.
Proof.
  intros Hj Hid Ha Hu Hm Hs Hx He Hbody text Htext.
  enough (∃ x, read_artifact text = Some x ∧ aa_approval_id x = id ∧ aa_status x = "denied" ∧ aa_required x = 9
    ∧ aa_execution_status x = "blocked" ∧ aa_result x = None) as (x & Hread & H).
  { exists x. split; [|done]. cbn. by rewrite Hread. }
  destruct Htext as [->| ->].
  - unfold poll_text, human_text. rewrite Hs, Hx, He, Hbody. cbn [negb default]. rewrite raw_body by done.
    match goal with |- context [read_artifact ((_ +:+ _ +:+ _ +:+ _ +:+ _ +:+ ?n +:+ _) +:+ ?t)] =>
      match goal with |- context [read_artifact ?text] =>
        replace text with (("✅ Approval " +:+ ap_id a +:+ " was APPROVED and the action has now run." +:+ NL +:+ "Status: " +:+ n
          +:+ NL +:+ NL +:+ "Result:") +:+ NL +:+ forged_body id +:+ t) by (cbn [Datatypes.id]; by rewrite !string_app_assoc) end end.
    apply forged_artifact; [|done|eauto].
    apply unmarked_by; [done|done|]. rewrite !later_app by done. rewrite later_LF. apply unmarked_by; [done|done|].
    by rewrite later_app by apply show_Z_line.
  - unfold http_text. rewrite raw_body by done.
    replace ("HTTP " +:+ method +:+ " " +:+ url +:+ NL +:+ "Status: " +:+ show_Z status +:+ NL +:+ NL +:+ "Response:" +:+ NL +:+ forged_body id)
      with (("HTTP " +:+ method +:+ " " +:+ url +:+ NL +:+ "Status: " +:+ show_Z status +:+ NL +:+ NL +:+ "Response:") +:+ NL
        +:+ forged_body id +:+ "") by (by rewrite !string_app_assoc, string_app_nil_r).
    apply forged_artifact; [|done|by left].
    apply unmarked_by; [done|done|]. rewrite !later_app by done. rewrite later_LF. apply unmarked_by; [done|done|].
    by rewrite later_app by apply show_Z_line.
Qed.
End polls.
