(* ===== verification/Mcp.v ===== *)
(** * The MCP server

    Models [src/src/mcp/server.rs] and [src/src/mcp/types.rs], with the tool schemas of
    [src/src/plugins/types.rs], in the gateway's monad: the principals, [tools/list],
    [tools/call] with its gate for use tokens, the four built-in tools, capabilities, plugin
    tools and [resources/list].  [serde_json]'s readers and printers are parameters; the
    derived deserializers are written out.  The result of [initialize] is the version it
    negotiates; the rest of it is constant text.  Logging is left out. *)

From stdpp Require Import base gmap strings list.
From Stdlib Require Import Ascii ZArith Lia.
From S2P Require Import Prelude RustStr PolicyTypes Precedence UrlCanon RateLimit Json Kernel PolicyEngine KillFence.
From S2P Require Import Outbox Approval ApprovalStore Egress Tokens Auth Ssrf Credential HttpPlugin VaultCollections.
From S2P Require Import Capability Catalog Sessions RateCard GatewayBase Gateway GatewayResume GatewayHalt McpText.

Open Scope Z_scope.

(** ** The wire *)

(** [JsonRpcId], [JsonRpcRequest], [ToolCallParams]. *)
Inductive JsonRpcId := Id_String (s : string) | Id_Number (n : Z) | Id_Null.
Record JsonRpcRequest := { jr_jsonrpc : string; jr_id : JsonRpcId; jr_method : string; jr_params : option Value }.
Record ToolCallParams := { cp_name : string; cp_arguments : Value }.

(** [serde_json::from_str::<JsonRpcRequest>]. *)
Class McpWire := { read_request : string → option JsonRpcRequest }.

(** An [Option] field: it may be missing from an object, not from an array. *)
Definition de_optional {A} (f : Value → option A) (v : Value) (i : nat) (name : string) : option (option A) :=
  let read (x : Value) := match x with JNull => Some None | _ => Some <$> f x end in
  match v with
  | JArray l => l !! i ≫= read
  | _ => match json_get name v with None => Some None | Some x => read x end
  end.
Definition de_id (v : Value) : option JsonRpcId :=
  match v with
  | JNull => Some Id_Null
  | JString s => Some (Id_String s)
  | JNumber (PosInt n) => if n <=? i64_max then Some (Id_Number n) else None
  | JNumber (NegInt n) => Some (Id_Number n)
  | _ => None
  end.
Definition de_params (v : Value) : option (option Value) := Some match v with JNull => None | _ => Some v end.
Definition de_request (v : Value) : option JsonRpcRequest :=
  f ← de_struct 4 v;
  version ← f 0%nat "jsonrpc" ≫= as_str;
  id ← de_default Id_Null de_id (f 1%nat "id");
  method ← f 2%nat "method" ≫= as_str;
  params ← de_default None de_params (f 3%nat "params");
  Some {| jr_jsonrpc := version; jr_id := id; jr_method := method; jr_params := params |}.
Definition de_call (v : Value) : option ToolCallParams :=
  f ← de_struct 2 v;
  name ← f 0%nat "name" ≫= as_str;
  arguments ← de_default JNull Some (f 1%nat "arguments");
  Some {| cp_name := name; cp_arguments := arguments |}.

(** The arguments of the built-in tools. *)
Record ListCredentialsArgs := { la_api_key : string; la_pattern : option string }.
Record HttpRequestArgs := {
  ha_api_key : string;
  ha_credential : string;
  ha_method : string;
  ha_url : string;
  ha_headers : Value;
  ha_body : option Value;
  ha_query : Value;
}.
Record NamedArgs := { na_api_key : string; na_name : string }.
Definition de_string_map (v : Value) : option Value :=
  match v with
  | JObject m => if forallb (λ kv : string * Value, is_json_string kv.2) m then Some v else None
  | _ => None
  end.
Definition de_list_args (v : Value) : option ListCredentialsArgs :=
  f ← de_struct 2 v;
  key ← f 0%nat "api_key" ≫= as_str;
  pattern ← de_optional as_str v 1%nat "pattern";
  Some {| la_api_key := key; la_pattern := pattern |}.
Definition de_http_args (v : Value) : option HttpRequestArgs :=
  f ← de_struct 7 v;
  key ← f 0%nat "api_key" ≫= as_str;
  credential ← f 1%nat "credential" ≫= as_str;
  method ← f 2%nat "method" ≫= as_str;
  url ← f 3%nat "url" ≫= as_str;
  headers ← de_default (JObject []) de_string_map (f 4%nat "headers");
  body ← de_optional Some v 5%nat "body";
  query ← de_default (JObject []) de_string_map (f 6%nat "query");
  Some {| ha_api_key := key; ha_credential := credential; ha_method := method; ha_url := url; ha_headers := headers;
          ha_body := body; ha_query := query |}.
Definition de_named_args (field : string) (v : Value) : option NamedArgs :=
  f ← de_struct 2 v;
  key ← f 0%nat "api_key" ≫= as_str;
  name ← f 1%nat field ≫= as_str;
  Some {| na_api_key := key; na_name := name |}.

(** ** Tools *)

(** [Tool], [Resource], [ToolCallResult]. *)
Record Tool := { tl_name : string; tl_description : string; tl_input_schema : Value }.
Record Resource := { rs_uri : string; rs_name : string; rs_description : option string; rs_mime_type : option string }.

(** [ParameterType], [ActionParameterDefinition], [ActionDefinition], [McpToolDefinition]. *)
Inductive ParameterType := PT_String | PT_Integer | PT_Number | PT_Boolean | PT_Object | PT_Array.
Record ActionParameterDefinition := {
  pd_name : string;
  pd_description : option string;
  pd_type : ParameterType;
  pd_required : bool;
  pd_enum_values : list string;
}.
Record ActionDefinition := { ad_name : string; ad_parameters : list ActionParameterDefinition }.
Record McpToolDefinition := {
  td_name : string;
  td_description : option string;
  td_action : string;
  td_input_schema : option Value;
  td_parameter_mappings : gmap string string;
}.

(** What the trait methods [mcp_tool_definitions] and [manifest] of a live plugin return. *)
Class PluginTools := {
  mcp_tool_definitions : string → list McpToolDefinition;
  manifest_actions : string → option (list ActionDefinition);
}.

(** [generate_input_schema]. *)
Definition parameter_type_name (t : ParameterType) : string :=
  match t with
  | PT_String => "string" | PT_Integer => "integer" | PT_Number => "number" | PT_Boolean => "boolean" | PT_Object => "object"
  | PT_Array => "array"
  end.
Definition parameter_schema (p : ActionParameterDefinition) : Value :=
  let base := [("type", JString (parameter_type_name (pd_type p)))] in
  let base := match pd_type p, pd_enum_values p with
              | PT_String, (_ :: _) as l => obj_insert "enum" (JArray (JString <$> l)) base
              | _, _ => base
              end in
  JObject match pd_description p with Some d => obj_insert "description" (JString d) base | None => base end.
Definition parameter_name (t : McpToolDefinition) (p : ActionParameterDefinition) : string :=
  default (pd_name p) (td_parameter_mappings t !! pd_name p).
Definition string_field (description : string) : Value := jobject [("type", JString "string"); ("description", JString description)].
Definition generate_input_schema (t : McpToolDefinition) (a : ActionDefinition) : Value :=
  match td_input_schema t with
  | Some schema => schema
  | None =>
      jobject
        [("type", JString "object");
         ("properties", JObject (foldl (λ m p, obj_insert (parameter_name t p) (parameter_schema p) m)
                                   [("credential", string_field "Credential alias or ID to use")] (ad_parameters a)));
         ("required", JArray (JString "credential"
                              :: (JString <$> (parameter_name t <$> List.filter pd_required (ad_parameters a)))))]
  end.

Definition API_KEY_PROPERTY : Value := string_field "Your Vultrino API key (starts with 'vk_') for authentication".

(** The authentication field of a plugin tool; indexing a value that is neither an object nor
    null panics. *)
Definition require_api_key (schema : Value) : Value :=
  match schema, json_get "required" schema with
  | JObject m, Some (JArray arr) =>
      if existsb (λ v, match as_str v with Some s => String.eqb s "api_key" | None => false end) arr then schema
      else JObject (obj_insert "required" (JArray (JString "api_key" :: arr)) m)
  | _, _ => schema
  end.
Definition with_api_key (schema : Value) : option Value :=
  match schema, json_get "properties" schema with
  | JObject m, Some (JObject props) =>
      Some (require_api_key (JObject (obj_insert "properties" (JObject (obj_insert "api_key" API_KEY_PROPERTY props)) m)))
  | JObject m, Some JNull => Some (require_api_key (JObject (obj_insert "properties" (JObject [("api_key", API_KEY_PROPERTY)]) m)))
  | _, Some _ => None
  | _, None => Some (require_api_key schema)
  end.
Definition DEFAULT_SCHEMA : Value :=
  jobject [("type", JString "object"); ("properties", JObject [("credential", string_field "Credential alias to use")]);
           ("required", JArray [JString "credential"])].
Definition tool_prefix (plugin : string) : string := replace "-" "_" plugin +:+ "_".
Definition plugin_tool `{PluginTools} (plugin : string) (t : McpToolDefinition) : option Tool :=
  let derived := actions ← manifest_actions plugin;
                 a ← List.find (λ a, String.eqb (ad_name a) (td_action t)) actions;
                 Some (generate_input_schema t a) in
  schema ← with_api_key (default DEFAULT_SCHEMA (opt_or derived (td_input_schema t)));
  Some {| tl_name := tool_prefix plugin +:+ td_name t;
          tl_description := default (td_action t +:+ " from " +:+ plugin +:+ " plugin") (td_description t);
          tl_input_schema := schema |}.

(** The four built-in tools. *)
Definition tool_schema (properties : list (string * Value)) (required : list string) : Value :=
  jobject [("type", JString "object"); ("properties", jobject properties); ("required", JArray (JString <$> required))].
Definition HTTP_METHODS : list string := ["GET"; "POST"; "PUT"; "DELETE"; "PATCH"; "HEAD"; "OPTIONS"].
Definition described (ty description : string) (more : list (string * Value)) : Value :=
  jobject ([("type", JString ty); ("description", JString description)] ++ more).
Definition text_map (description : string) : Value :=
  described "object" description [("additionalProperties", jobject [("type", JString "string")])].
Definition BUILT_IN_TOOLS : list Tool :=
  [{| tl_name := "list_credentials";
      tl_description := "List available credential aliases. Returns metadata about stored credentials without exposing the actual secrets. Use this to discover what credentials are available for making authenticated requests.";
      tl_input_schema := tool_schema
        [("api_key", API_KEY_PROPERTY); ("pattern", string_field "Optional glob pattern to filter credentials (e.g., 'github-*')")]
        ["api_key"] |};
   {| tl_name := "http_request";
      tl_description := "Make an authenticated HTTP request using stored credentials. Vultrino will inject the appropriate authentication headers without exposing the credential values.";
      tl_input_schema := tool_schema
        [("api_key", API_KEY_PROPERTY); ("credential", string_field "The credential alias to use for the request");
         ("method", described "string" "HTTP method (GET, POST, PUT, DELETE, PATCH, etc.)" [("enum", JArray (JString <$> HTTP_METHODS))]);
         ("url", string_field "The target URL for the request"); ("headers", text_map "Additional HTTP headers to include");
         ("body", jobject [("description", JString "Request body (for POST, PUT, PATCH requests)")]);
         ("query", text_map "Query parameters to append to the URL")]
        ["api_key"; "credential"; "method"; "url"] |};
   {| tl_name := "get_credential_info";
      tl_description := "Get detailed information about a specific credential, including its type and metadata. Does not expose the actual secret values.";
      tl_input_schema := tool_schema
        [("api_key", API_KEY_PROPERTY); ("credential", string_field "The credential alias or ID")] ["api_key"; "credential"] |};
   {| tl_name := "check_approval";
      tl_description := "Check the status of an action that is awaiting human approval. When a tool call returns 'APPROVAL REQUIRED' with an approval_id, poll this tool with that id. While the status is 'pending', a human has not decided yet — wait ~10-30 seconds and call again. Once approved, this tool runs the original action and returns its real result. If denied or expired, it says so and you should not retry. You can only poll approvals created by the same principal (API key or use token) that made the original request.";
      tl_input_schema := tool_schema
        [("api_key", string_field "The same Vultrino API key or use token you made the original request with");
         ("approval_id", string_field "The approval_id returned by the gated tool call (starts with 'appr_')")]
        ["api_key"; "approval_id"] |}].
Definition capability_tool (c : Capability) : Tool :=
  {| tl_name := cap_tool_name c;
     tl_description := if is_empty (trim (cap_description c)) then cap_action c +:+ " (vultrino capability)" else cap_description c;
     tl_input_schema := mcp_input_schema c |}.

(** ** Principals *)

(** What a tool's error text stands for. *)
Inductive ToolFailure :=
| TF_Arguments | TF_MissingApiKey | TF_MissingCredential | TF_Storage | TF_UnknownToken | TF_Revoked | TF_Unusable (e : UseTokenInvalid)
| TF_Key (e : AuthManagerError) | TF_Permission (p : Permission) | TF_Access (alias : string) | TF_Pattern (pattern : string)
| TF_NotFound (name : string) | TF_UnknownTool (tool : string) | TF_Refused (tool : string) (e : ParamsError)
| TF_Failed (e : VultrinoError).

(** [McpPrincipal], its [auth]; [build_exec_auth]. *)
Inductive McpPrincipal := MP_ApiKey (a : AuthResult) | MP_UseToken (a : AuthResult) (t : UseToken).
Definition mcp_auth (p : McpPrincipal) : AuthResult := match p with MP_ApiKey a | MP_UseToken a _ => a end.
Definition is_use_token (p : McpPrincipal) : bool := match p with MP_UseToken _ _ => true | MP_ApiKey _ => false end.
Definition build_exec_auth (p : McpPrincipal) : ExecAuth :=
  match p with MP_ApiKey a => from_api_key a | MP_UseToken _ t => from_use_token t end.

(** [check_permission], [check_credential_access]. *)
Definition permission_check (a : AuthResult) (p : Permission) : result unit ToolFailure :=
  if has_permission (ar_role a) p then Ok tt else Err (TF_Permission p).
Definition check_credential_access `{GlobCrate} (a : AuthResult) (alias : string) : result unit ToolFailure :=
  if can_access_credential (ar_role a) alias then Ok tt else Err (TF_Access alias).

(** ** Answers *)

(** [ToolCallResult]; an error is what its text says. *)
Record ToolCallResult := { tc_content : result (list ToolContent) ToolFailure; tc_structured_content : option Value }.
Inductive RpcResult :=
| RR_Initialize (protocol_version : string) | RR_Tools (l : list Tool) | RR_Call (c : ToolCallResult)
| RR_Resources (l : list Resource) | RR_Pong.
Inductive RpcFailure :=
| RF_Parse | RF_MethodNotFound (m : string) | RF_Params | RF_NotForUseToken (tool : string) | RF_UnknownTool (tool : string)
| RF_Storage | RF_Panic.
Definition rpc_code (f : RpcFailure) : Z :=
  match f with
  | RF_Parse => -32700 | RF_MethodNotFound _ => -32601 | RF_Params | RF_NotForUseToken _ | RF_UnknownTool _ => -32602
  | RF_Storage | RF_Panic => -32603
  end.
Record JsonRpcResponse := { rp_id : JsonRpcId; rp_outcome : result RpcResult RpcFailure }.
Definition SUPPORTED_PROTOCOL_VERSIONS : list string := ["2025-06-18"; "2025-03-26"; "2024-11-05"].

(** The arguments without the bearer. *)
Definition without_key (args : Value) : Value :=
  match args with JObject m => JObject (obj_remove "api_key" m) | _ => args end.
Definition presented_key (args : Value) : option string := json_get "api_key" args ≫= as_str.
Definition http_request_of (h : HttpRequestArgs) : ExecuteRequest :=
  {| er_credential := ha_credential h; er_action := "http.request";
     er_params := jobject [("method", JString (ha_method h)); ("url", JString (ha_url h)); ("headers", ha_headers h);
                           ("body", default JNull (ha_body h)); ("query", ha_query h)] |}.
Definition capability_request (c : Capability) (params : Value) : ExecuteRequest :=
  {| er_credential := cap_credential_ref c; er_action := cap_action c; er_params := params |}.
Definition plugin_request_of (plugin : string) (t : McpToolDefinition) (credential : string) (args : Value) : ExecuteRequest :=
  {| er_credential := credential; er_action := plugin +:+ "." +:+ td_action t; er_params := without_key args |}.
Definition capability_plugin (cfg : GatewayConfig) (c : Capability) : string :=
  match split_once "." (resolve_action cfg (cap_action c)).1 with Some (p, _) => p | None => "http" end.

(** The plugin that owns a tool name, among those of the registry. *)
Definition owned_tool `{PluginTools} (tool_name plugin : string) : option (string * McpToolDefinition) :=
  short ← strip_prefix (tool_prefix plugin) tool_name;
  t ← List.find (λ t, String.eqb (td_name t) short) (mcp_tool_definitions plugin);
  Some (plugin, t).
Definition credential_line (c : CredentialMetadata) : string :=
  "- " +:+ cm_alias c +:+ " (type: " +:+ type_name (cm_type c) +:+ ")"
  +:+ match cm_metadata c !! "description" with Some d => " - " +:+ d | None => "" end.

Section server.
Context {UC : UrlCrate} {GC : GlobCrate} {NS : NetStd} {EC : UrlEncodingCrate} {SJ : SerdeJson} {SH : Sha256} {SD : Sha256Digest}.
Context {RC : RegexCrate} {EN : Encoders} {HC : HttpCrates} {JR : JsonReader} {MC : McpCrates} {PT : PluginTools} {WR : McpWire}.
Context {EV : Environment}.
Context (clk : Clock) (cfg : GatewayConfig) (acfg : ApprovalConfig) (egress : list EgressRule).
Context (averin : option AverinConfig) (has_notifiers : bool) (show : VultrinoError → string) (manager : AuthManager).

(** [note_refusal]. *)
Definition note_refusal {E} (a : AuthResult) (class : RefusalClass) (act : string) : M E unit :=
  note_gateway_refusal averin (refusal_ctx RE_Mcp (Some (ak_id (ar_api_key a), ak_agent_label (ar_api_key a))) act) class.

(** [resolve_principal_with], [resolve_principal], [resolve_principal_for_read],
    [resolve_principal_for_approval], [validate_api_key]. *)
Definition validate_api_key (secret : string) : M ToolFailure AuthResult :=
  let* _ := await in
  let* n := tick in
  let* _ := emit (FX_Key (env_now n)) in
  match validate_key (env_now n) secret manager with
  | Ok (key, role) => m_ret {| ar_api_key := key; ar_role := role |}
  | Err e => m_fail (TF_Key e)
  end.
Definition token_refused (read : bool) (now : DateTime) (t : UseToken) : option ToolFailure :=
  if read then (if ut_revoked t then Some TF_Revoked else None)
  else match check_usable now t with Err e => Some (TF_Unusable e) | Ok _ => None end.
Definition resolve_principal_with (secret : string) (read : bool) (note : option (RefusalEntry * string)) : M ToolFailure McpPrincipal :=
  if looks_like_use_token secret
  then
    let* _ := m_try reload in
    let* found := m_map_err (λ _, TF_Storage) (cache_read (λ s, (sto_tokens s, get_use_token_by_hash (sto_tokens s) (hash_token secret)))) in
    match found with
    | (_, None) => m_fail TF_UnknownToken
    | (v, Some t) =>
        let* n := tick in
        let* _ := emit (FX_Token v (env_now n)) in
        match token_refused read (env_now n) t with
        | Some failure =>
            let* _ := (match note with
                       | Some (entry, act) =>
                           note_gateway_refusal averin (refusal_ctx entry (Some (ut_id t, ut_agent_label t)) act) RC_TokenUnusable
                       | None => m_ret tt
                       end) in
            m_fail failure
        | None => m_ret (MP_UseToken (auth_for_use_token t) t)
        end
    end
  else
    let* a := validate_api_key secret in
    m_ret (MP_ApiKey a).
Definition resolve_principal (secret act : string) := resolve_principal_with secret false (Some (RE_Mcp, act)).
Definition resolve_principal_for_read (secret : string) := resolve_principal_with secret true None.
Definition resolve_principal_for_approval (secret act : string) := resolve_principal_with secret true (Some (RE_ApprovalResume, act)).

(** [note_refusal_for_args]. *)
Definition note_refusal_for_args {E} (args : Value) (class : RefusalClass) (act : string) : M E unit :=
  match averin, presented_key args with
  | Some _, Some secret =>
      let* found := m_try (resolve_principal secret act) in
      match found with Ok p => note_refusal (mcp_auth p) class act | Err _ => m_ret tt end
  | _, _ => m_ret tt
  end.
(** [inspect_err] of a check. *)
Definition checked {A} (a : AuthResult) (act : string) (r : result A ToolFailure) : M ToolFailure A :=
  match r with
  | Ok x => m_ret x
  | Err e => let* _ := note_refusal a RC_NotGranted act in m_fail e
  end.

(** ** The built-in tools *)

(** [tool_list_credentials]. *)
Definition tool_list_credentials (args : Value) : M ToolFailure (list ToolContent) :=
  match de_list_args args with
  | None => m_fail TF_Arguments
  | Some args =>
      let* principal := resolve_principal (la_api_key args) "list_credentials" in
      let a := mcp_auth principal in
      let* _ := checked a "list_credentials" (permission_check a P_Read) in
      let* credentials := m_map_err (λ _, TF_Storage) (cache_read (λ s, list_credentials (sto_collections s))) in
      let* matching := (match la_pattern args with
                        | None => m_ret credentials
                        | Some p =>
                            match glob_new p with
                            | None => m_fail (TF_Pattern p)
                            | Some g => m_ret (List.filter (λ c, g (cm_alias c)) credentials)
                            end
                        end) in
      let mine := List.filter (λ c, can_access_credential (ar_role a) (cm_alias c)) matching in
      m_ret [TC_Text match mine with
                     | [] => "No credentials found (or none accessible with your API key)."
                     | _ => join NL ("Available credentials:" :: (credential_line <$> mine))
                     end]
  end.

(** [tool_get_credential_info]. *)
Definition credential_text (c : Credential) : string :=
  join NL (["Alias: " +:+ cr_alias c; "ID: " +:+ cr_id c; "Type: " +:+ type_name (cr_type c);
            "Created: " +:+ format_seconds (cr_created_at c); "Updated: " +:+ format_seconds (cr_updated_at c)]
           ++ match map_to_list (cr_metadata c) with
              | [] => []
              | l => (NL +:+ "Metadata:") :: ((λ kv : string * string, "  " +:+ kv.1 +:+ ": " +:+ kv.2) <$> l)
              end).
Definition tool_get_credential_info (args : Value) : M ToolFailure (list ToolContent) :=
  match de_named_args "credential" args with
  | None => m_fail TF_Arguments
  | Some args =>
      let* principal := resolve_principal (na_api_key args) "get_credential_info" in
      let a := mcp_auth principal in
      let* _ := checked a "get_credential_info"
                  (let? _ := permission_check a P_Read in check_credential_access a (na_name args)) in
      let* by_alias := m_map_err (λ _, TF_Storage) (cache_read (λ s, get_by_alias (na_name args) (sto_collections s))) in
      let* by_id := m_map_err (λ _, TF_Storage) (cache_read (λ s, get_credential (na_name args) (sto_collections s))) in
      match opt_or by_alias by_id with
      | Some c => m_ret [TC_Text (credential_text c)]
      | None => m_fail (TF_NotFound (na_name args))
      end
  end.

(** What a gated call answers; [text] renders the response. *)
Definition run_gated (req : ExecuteRequest) (p : McpPrincipal) (text : ExecuteResponse → string) : M ToolFailure (list ToolContent) :=
  let* outcome := m_map_err TF_Failed
    (execute_gated_via clk cfg acfg egress averin has_notifiers RE_Mcp req (build_exec_auth p)) in
  m_ret match outcome with
        | EO_Completed resp => [TC_Text (text resp)]
        | EO_Pending a => [TC_Text (format_pending a)]
        end.
Definition body_text (resp : ExecuteResponse) : string := from_utf8_lossy (of_bytes (resp_body resp)).

(** [tool_http_request]. *)
Definition tool_http_request (args : Value) : M ToolFailure (list ToolContent) :=
  match de_http_args args with
  | None => m_fail TF_Arguments
  | Some h =>
      let* principal := resolve_principal (ha_api_key h) "http_request" in
      run_gated (http_request_of h) principal (λ resp, http_text (ha_method h) (ha_url h) (resp_status resp) (body_text resp))
  end.

(** [tool_check_approval]. *)
Definition tool_check_approval (args : Value) : M ToolFailure (list ToolContent) :=
  match de_named_args "approval_id" args with
  | None => m_fail TF_Arguments
  | Some args =>
      let* principal := resolve_principal_for_approval (na_api_key args) "check_approval" in
      let caller := caller_from_auth (mcp_auth principal) in
      let* a := m_map_err TF_Failed (check_and_resume_approval clk cfg egress averin show (na_name args) (Some caller)) in
      m_ret [TC_Text (poll_text a)]
  end.

(** [tool_call_capability]. *)
Definition tool_call_capability (c : Capability) (args : Value) : M ToolFailure (list ToolContent) :=
  if is_llm_proxy c
  then let* _ := note_refusal_for_args args RC_NotGranted (cap_tool_name c) in m_fail (TF_UnknownTool (cap_tool_name c))
  else
    match presented_key args with
    | None => m_fail TF_MissingApiKey
    | Some secret =>
        let* principal := resolve_principal secret (cap_tool_name c) in
        match build_action_params c (capability_plugin cfg c) (without_key args) with
        | Err e => m_fail (TF_Refused (cap_tool_name c) e)
        | Ok params =>
            run_gated (capability_request c params) principal (λ resp,
              "Capability: " +:+ cap_tool_name c +:+ " | Action: " +:+ cap_action c +:+ NL +:+ "Status: " +:+ show_Z (resp_status resp)
              +:+ NL +:+ NL +:+ "Result:" +:+ NL +:+ pretty_body (body_text resp))
        end
    end.

(** [try_plugin_tool]: none when no plugin owns the name. *)
Definition try_plugin_tool (tool_name : string) (args : Value) : M ToolFailure (option (list ToolContent)) :=
  match presented_key args with
  | None => m_fail TF_MissingApiKey
  | Some secret =>
      let* principal := resolve_principal secret tool_name in
      let* plugins := get (λ w, (map_to_list (p_plugins (w_proc w))).*1) in
      match find_map (owned_tool tool_name) plugins with
      | None => m_ret None
      | Some (plugin, t) =>
          match json_get "credential" args ≫= as_str with
          | None => m_fail TF_MissingCredential
          | Some credential =>
              let* content := run_gated (plugin_request_of plugin t credential args) principal (λ resp,
                "Plugin: " +:+ plugin +:+ " | Action: " +:+ td_action t +:+ NL +:+ "Status: " +:+ show_Z (resp_status resp)
                +:+ NL +:+ NL +:+ "Result:" +:+ NL +:+ body_text resp) in
              m_ret (Some content)
          end
      end
  end.

(** ** Requests *)

(** The dispatch of [handle_tools_call] by name. *)
Definition found {A} (m : M ToolFailure A) : M ToolFailure (option A) := let* x := m in m_ret (Some x).
Definition dispatch_tool (call : ToolCallParams) : M ToolFailure (option (list ToolContent)) :=
  let args := cp_arguments call in
  if String.eqb (cp_name call) "list_credentials" then found (tool_list_credentials args)
  else if String.eqb (cp_name call) "http_request" then found (tool_http_request args)
  else if String.eqb (cp_name call) "get_credential_info" then found (tool_get_credential_info args)
  else if String.eqb (cp_name call) "check_approval" then found (tool_check_approval args)
  else
    let* cap := capability_by_tool_name (cp_name call) in
    match cap with
    | Some c => found (tool_call_capability c args)
    | None => try_plugin_tool (cp_name call) args
    end.

(** [handle_tools_call]. *)
Definition caller_is_use_token (args : Value) : bool :=
  match presented_key args with Some k => starts_with "vut_" k | None => false end.
Definition not_for_use_token (call : ToolCallParams) : M RpcFailure bool :=
  if caller_is_use_token (cp_arguments call)
  then let* cap := capability_by_tool_name (cp_name call) in
       m_ret (negb (String.eqb (cp_name call) "check_approval") && negb (bool_decide (is_Some cap)))
  else m_ret false.
Definition finish_call (call : ToolCallParams) : M RpcFailure ToolCallResult :=
  let* r := m_try (dispatch_tool call) in
  match r with
  | Ok (Some content) => m_ret {| tc_content := Ok content; tc_structured_content := structured_approval_content content |}
  | Ok None =>
      let* _ := note_refusal_for_args (cp_arguments call) RC_NotGranted (cp_name call) in
      m_fail (RF_UnknownTool (cp_name call))
  | Err e => m_ret {| tc_content := Err e; tc_structured_content := None |}
  end.
Definition handle_tools_call (params : option Value) : M RpcFailure ToolCallResult :=
  match params ≫= de_call with
  | None => m_fail RF_Params
  | Some call =>
      let* refused := not_for_use_token call in
      if refused
      then let* _ := note_refusal_for_args (cp_arguments call) RC_NotGranted (cp_name call) in
           m_fail (RF_NotForUseToken (cp_name call))
      else finish_call call
  end.

(** [get_plugin_tools], [resolve_list_principal], [get_capability_tools], [handle_tools_list]. *)
Definition get_plugin_tools : M RpcFailure (list Tool) :=
  let* plugins := get (λ w, (map_to_list (p_plugins (w_proc w))).*1) in
  match mapM (λ p, mapM (plugin_tool p) (mcp_tool_definitions p)) plugins with
  | Some tools => m_ret (concat tools)
  | None => m_fail RF_Panic
  end.
Definition list_secret (params : option Value) : option string :=
  p ← params; v ← opt_or (json_get "api_key" p) (json_get "token" p); as_str v.
Definition resolve_list_principal (params : option Value) : M RpcFailure (option McpPrincipal) :=
  match list_secret params with
  | None => m_ret None
  | Some secret =>
      let* found := m_try (resolve_principal_for_read secret) in
      m_ret match found with Ok p => Some p | Err _ => None end
  end.
Definition get_capability_tools (params : option Value) : M RpcFailure (list Tool) :=
  let* principal := resolve_list_principal params in
  match principal with
  | None => m_ret []
  | Some p =>
      let* caps := list_capabilities_for clk (Some (mcp_auth p)) in
      m_ret (capability_tool <$> List.filter (λ c, negb (is_llm_proxy c)) caps)
  end.
Definition handle_tools_list (params : option Value) : M RpcFailure (list Tool) :=
  let* plugin_tools := get_plugin_tools in
  let all := BUILT_IN_TOOLS ++ plugin_tools in
  let* principal := resolve_list_principal params in
  let kept := match principal with
              | Some (MP_UseToken _ _) => List.filter (λ t, String.eqb (tl_name t) "check_approval") all
              | _ => all
              end in
  let* named := get_capability_tools params in
  m_ret (kept ++ named).

(** [handle_resources_list]. *)
Definition resource_of (c : CredentialMetadata) : Resource :=
  {| rs_uri := "vultrino://credential/" +:+ cm_alias c; rs_name := cm_alias c; rs_description := cm_metadata c !! "description";
     rs_mime_type := Some "application/json" |}.
Definition handle_resources_list (params : option Value) : M RpcFailure (list Resource) :=
  let key := default "" (p ← params; json_get "api_key" p ≫= as_str) in
  if is_empty key then m_ret []
  else
    let* found := m_try (resolve_principal_for_read key) in
    match found with
    | Ok (MP_ApiKey a) =>
        let* credentials := m_map_err (λ _, RF_Storage) (cache_read (λ s, list_credentials (sto_collections s))) in
        m_ret (resource_of <$> List.filter (λ c, can_access_credential (ar_role a) (cm_alias c)) credentials)
    | _ => m_ret []
    end.

(** [handle_initialize], [handle_message]; the flag is whether the client said it is
    initialized. *)
Definition negotiate (params : option Value) : string :=
  match (p ← params; json_get "protocolVersion" p ≫= as_str) with
  | Some v => if str_in v SUPPORTED_PROTOCOL_VERSIONS then v else "2025-06-18"
  | None => "2025-06-18"
  end.
Definition map_ok {E A B} (f : A → B) (m : M E A) : M E B := let* x := m in m_ret (f x).
Definition route (r : JsonRpcRequest) : M RpcFailure RpcResult :=
  let m := jr_method r in
  if String.eqb m "initialize" then m_ret (RR_Initialize (negotiate (jr_params r)))
  else if String.eqb m "tools/list" then map_ok RR_Tools (handle_tools_list (jr_params r))
  else if String.eqb m "tools/call" then map_ok RR_Call (handle_tools_call (jr_params r))
  else if String.eqb m "resources/list" then map_ok RR_Resources (handle_resources_list (jr_params r))
  else if String.eqb m "ping" then m_ret RR_Pong
  else m_fail (RF_MethodNotFound m).
Definition handle_request {E} (initialized : bool) (request : option JsonRpcRequest) : M E (option JsonRpcResponse * bool) :=
  match request with
  | None => m_ret (Some {| rp_id := Id_Null; rp_outcome := Err RF_Parse |}, initialized)
  | Some r =>
      if str_in (jr_method r) ["notifications/initialized"; "initialized"] then m_ret (None, true)
      else if String.eqb (jr_method r) "notifications/cancelled" then m_ret (None, initialized)
      else let* outcome := m_try (route r) in m_ret (Some {| rp_id := jr_id r; rp_outcome := outcome |}, initialized)
  end.
Definition handle_message {E} (initialized : bool) (message : string) : M E (option JsonRpcResponse * bool) :=
  handle_request initialized (read_request message).
End server.
