(* ===== verification/McpHttp.v ===== *)
(** * The MCP endpoint, and what the MCP server lets through

    Models [src/src/web/mcp_http.rs]: the header checks, the bearer's gate, the injection of
    the bearer into the request, the table of requests in flight and [mcp_jsonrpc], which
    hands the request to the server of [Mcp].  A [oneshot] start signal and the spawning of
    the task that runs a tracked request are the call itself.

    [tool_call_is_mediated]: a plugin is reached through [tools/call] only by an
    authenticated caller, with a request made of its own arguments less its secret, and
    only behind the gateway's gate or out of a claimed approval of its own; the readings
    that recognized it are in the trace.
    [use_token_needs_a_named_tool]: a use token named in an object of arguments calls nothing
    but capabilities and [check_approval]; [positional_arguments_skip_the_gate] is the way
    round it on the other transport; [http_call_is_its_bearers] is why there is none here.
    [listing_shows_only_what_is_granted] is the same for what is listed. *)

From stdpp Require Import base gmap strings list.
From Stdlib Require Import Ascii ZArith Lia.
From S2P Require Import Prelude RustStr PolicyTypes Precedence UrlCanon RateLimit Json Kernel PolicyEngine KillFence.
From S2P Require Import Outbox Approval ApprovalStore Egress Tokens Auth Ssrf Credential HttpPlugin VaultCollections.
From S2P Require Import Capability Catalog Sessions RateCard LlmGate GatewayBase Gateway GatewayResume GatewayHalt.
From S2P Require Import GatewayFacts GatewayResumeFacts LlmHandler CapabilityFacts McpText Mcp.

Open Scope Z_scope.

(** ** The request *)

(** [ensure_object]: the object in a field, made one when it is not. *)
Definition ensure_object (field : string) (m : Object) : Object :=
  match json_get field (JObject m) with Some (JObject o) => o | _ => [] end.

(** [inject_bearer]. *)
Definition inject_bearer (m : Object) (secret : string) : Object :=
  let key := JString secret in
  match json_get "method" (JObject m) ≫= as_str with
  | None => m
  | Some method =>
      if str_in method ["tools/list"; "resources/list"]
      then obj_insert "params" (JObject (obj_insert "api_key" key (ensure_object "params" m))) m
      else if String.eqb method "tools/call"
      then let params := ensure_object "params" m in
           let args := ensure_object "arguments" params in
           obj_insert "params" (JObject (obj_insert "arguments" (JObject (obj_insert "api_key" key args)) params)) m
      else m
  end.

(** [is_approval_status_poll], [request_key]; [message.pointer] is a parameter. *)
Definition is_approval_status_poll `{SerdeJson} (message : Value) : bool :=
  bool_decide (json_get "method" message ≫= as_str = Some "tools/call")
  && bool_decide (json_pointer message "/params/name" ≫= as_str = Some "check_approval").
Definition request_key `{Encoders} `{Sha256Digest} `{SerdeJson} (secret : string) (id : Value) : string :=
  hash_token secret +:+ ":" +:+ json_to_string id.

(** [hide_api_key_from_tools_list]. *)
Definition hide_property (m : Object) : Object :=
  match json_get "properties" (JObject m) with
  | Some (JObject props) => obj_insert "properties" (JObject (obj_remove "api_key" props)) m
  | _ => m
  end.
Definition hide_required (m : Object) : Object :=
  match json_get "required" (JObject m) with
  | Some (JArray arr) =>
      match List.filter (λ v, negb (bool_decide (as_str v = Some "api_key"))) arr with
      | [] => obj_remove "required" m
      | kept => obj_insert "required" (JArray kept) m
      end
  | _ => m
  end.
Definition hide_api_key (t : Tool) : Tool :=
  match tl_input_schema t with
  | JObject m => {| tl_name := tl_name t; tl_description := tl_description t; tl_input_schema := JObject (hide_required (hide_property m)) |}
  | _ => t
  end.
Definition hide_api_key_from_tools_list (r : RpcResult) : RpcResult :=
  match r with RR_Tools l => RR_Tools (hide_api_key <$> l) | _ => r end.

(** ** Headers *)

(** [validate_transport_headers]; [allowed_origins] is the environment variable. *)
Inductive TransportRefusal := TX_MediaType | TX_Accept | TX_Version | TX_Origin.
Definition transport_status (r : TransportRefusal) : Z :=
  match r with TX_MediaType => 415 | TX_Accept => 406 | TX_Version => 400 | TX_Origin => 403 end.
Definition text_header (name : string) (h : HeaderMap) : option string := header_get name h ≫= header_to_str.
Fixpoint date_shaped_from (i : nat) (s : string) : bool :=
  match s with
  | EmptyString => true
  | String c s' => (if ((i =? 4) || (i =? 7))%nat then Ascii.eqb c "-"%char else is_ascii_digit c) && date_shaped_from (S i) s'
  end.
Definition date_shaped (v : string) : bool := (String.length v =? 10)%nat && date_shaped_from 0 v.
Definition version_ok (h : HeaderMap) : bool :=
  match text_header "mcp-protocol-version" h with
  | Some v => str_in v SUPPORTED_PROTOCOL_VERSIONS || date_shaped v
  | None => true
  end.
Definition origin_host `{UrlCrate} (origin : string) : option string :=
  u ← url_parse origin;
  host ← url_host_str u;
  Some match url_port u with Some p => host +:+ ":" +:+ show_Z p | None => host end.
Definition origin_ok `{UrlCrate} (allowed_origins : option string) (h : HeaderMap) : bool :=
  match text_header "origin" h with
  | None => true
  | Some origin =>
      match origin_host origin, text_header "host" h with
      | Some o, Some host => eq_ignore_ascii_case o host
      | _, _ => false
      end
      || match allowed_origins with
         | Some allowed => existsb (λ v, String.eqb (trim v) origin) (split_char ","%char allowed)
         | None => false
         end
  end.
Definition validate_transport_headers `{UrlCrate} (allowed_origins : option string) (h : HeaderMap) : option TransportRefusal :=
  if negb (bool_decide (trim <$> head (split_char ";"%char (default "" (text_header "content-type" h))) = Some "application/json"))
  then Some TX_MediaType
  else
    let accept := default "" (text_header "accept" h) in
    if negb (contains "application/json" accept) || negb (contains "text/event-stream" accept) then Some TX_Accept
    else if negb (version_ok h) then Some TX_Version
    else if negb (origin_ok allowed_origins h) then Some TX_Origin
    else None.

(** ** Requests in flight *)

(** The table of tracked requests: the task each key stands for.  Filing a request tells
    whether its key was taken; [abort_tracked_request] takes the task of a key out. *)
Definition file_request (key : string) (task : nat) (t : gmap string nat) : bool * gmap string nat :=
  (bool_decide (is_Some (t !! key)), <[key := task]> t).
Definition abort_tracked_request (key : string) (t : gmap string nat) : option nat * gmap string nat := (t !! key, delete key t).

(** ** The endpoint *)

Inductive BearerRefusal := BR_Unknown | BR_Storage | BR_Revoked | BR_Expired | BR_Key (e : AuthManagerError).
Inductive McpHttpAnswer :=
| MH_Refused (r : TransportRefusal) | MH_NotJson | MH_NotObject | MH_NoBearer | MH_Unauthorized (r : BearerRefusal)
| MH_Cancelled (task : option nat) | MH_Duplicate | MH_Response (r : JsonRpcResponse) | MH_Accepted.
Definition http_status (a : McpHttpAnswer) : Z :=
  match a with
  | MH_Refused r => transport_status r
  | MH_NotJson | MH_NotObject => 400
  | MH_NoBearer | MH_Unauthorized _ => 401
  | MH_Cancelled _ | MH_Accepted => 202
  | MH_Duplicate => 409
  | MH_Response _ => 200
  end.

Section endpoint.
Context {UC : UrlCrate} {GC : GlobCrate} {NS : NetStd} {EC : UrlEncodingCrate} {SJ : SerdeJson} {SH : Sha256} {SD : Sha256Digest}.
Context {RC : RegexCrate} {EN : Encoders} {HC : HttpCrates} {JR : JsonReader} {MC : McpCrates} {PT : PluginTools} {WR : McpWire}.
Context {EV : Environment}.
Context (clk : Clock) (cfg : GatewayConfig) (acfg : ApprovalConfig) (egress : list EgressRule).
Context (averin : option AverinConfig) (has_notifiers : bool) (show : VultrinoError → string) (manager : AuthManager).

(** [gate_bearer]. *)
Definition gate_bearer {E} (secret : string) (allow_expired : bool) : M E (option BearerRefusal) :=
  if looks_like_use_token secret
  then
    let* _ := m_try reload in
    let* found := m_try (cache_read (λ s, get_use_token_by_hash (sto_tokens s) (hash_token secret))) in
    match found with
    | Err _ => m_ret (Some BR_Storage)
    | Ok None => m_ret (Some BR_Unknown)
    | Ok (Some t) =>
        let* n := tick in
        m_ret (if ut_revoked t then Some BR_Revoked
               else if use_token_expired (env_now n) t && negb allow_expired then Some BR_Expired else None)
    end
  else
    let* _ := await in
    let* n := tick in
    m_ret match validate_key (env_now n) secret manager with Ok _ => None | Err e => Some (BR_Key e) end.

(** [mcp_jsonrpc]; [in_flight] is the table when the request is filed, [task] the request's
    own task, which takes its key out again when it is done. *)
Definition answer_of (method : string) (response : option JsonRpcResponse) : McpHttpAnswer :=
  match response with
  | None => MH_Accepted
  | Some r =>
      MH_Response (if String.eqb method "tools/list"
                   then {| rp_id := rp_id r; rp_outcome := match rp_outcome r with Ok v => Ok (hide_api_key_from_tools_list v) | Err e => Err e end |}
                   else r)
  end.
Definition is_tracked (id : Value) (method : string) : bool :=
  negb (match id with JNull => true | _ => false end) && negb (str_in method ["initialize"; "ping"]).
Definition mcp_jsonrpc {E} (allowed_origins : option string) (in_flight : gmap string nat) (task : nat) (headers : HeaderMap) (body : bytes)
    : M E (McpHttpAnswer * gmap string nat) :=
  match validate_transport_headers allowed_origins headers with
  | Some r => m_ret (MH_Refused r, in_flight)
  | None =>
      match json_from_str (of_bytes body) with
      | None => m_ret (MH_NotJson, in_flight)
      | Some (JObject m) =>
          let message := JObject m in
          let id := default JNull (json_get "id" message) in
          match extract_bearer headers with
          | None => m_ret (MH_NoBearer, in_flight)
          | Some secret =>
              let* refused := gate_bearer secret (is_approval_status_poll message) in
              match refused with
              | Some r => m_ret (MH_Unauthorized r, in_flight)
              | None =>
                  if bool_decide (json_get "method" message ≫= as_str = Some "notifications/cancelled")
                  then match json_pointer message "/params/requestId" with
                       | Some cancelled =>
                           let '(aborted, others) := abort_tracked_request (request_key secret cancelled) in_flight in
                           m_ret (MH_Cancelled aborted, others)
                       | None => m_ret (MH_Cancelled None, in_flight)
                       end
                  else
                    let injected := JObject (inject_bearer m secret) in
                    let method := default "" (json_get "method" injected ≫= as_str) in
                    let run := handle_message clk cfg acfg egress averin has_notifiers show manager false (json_to_string injected) in
                    if is_tracked id method
                    then
                      let '(taken, filed) := file_request (request_key secret id) task in_flight in
                      if taken then m_ret (MH_Duplicate, filed)
                      else let* r := run in m_ret (answer_of method r.1, delete (request_key secret id) filed)
                    else let* r := run in m_ret (answer_of method r.1, in_flight)
              end
          end
      | Some _ => m_ret (MH_NotObject, in_flight)
      end
  end.
End endpoint.

(** A request whose id is in flight is refused, and takes the place of the one in flight: to
    cancel that id then stops the refused request and leaves the first one running. *)
Theorem duplicate_request_unlinks_the_first key first second table :
  let '(taken, filed) := file_request key second (<[key := first]> table) in
  taken = true ∧ abort_tracked_request key filed = (Some second, delete key (<[key := second]> (<[key := first]> table))).
Proof. unfold file_request, abort_tracked_request. rewrite !lookup_insert_eq. by split; [apply bool_decide_true|]. Qed.

(** ** Facts *)

#[local] Hint Resolve benign_plain all_plain_app all_plain_cons all_plain_nil : gateway.

Section facts.
Context {UC : UrlCrate} {GC : GlobCrate} {NS : NetStd} {EC : UrlEncodingCrate} {SJ : SerdeJson} {SH : Sha256} {SD : Sha256Digest}.
Context {RC : RegexCrate} {EN : Encoders} {HC : HttpCrates} {JR : JsonReader} {MC : McpCrates} {PT : PluginTools} {WR : McpWire}.
Context {EV : Environment}.
Context (clk : Clock) (cfg : GatewayConfig) (acfg : ApprovalConfig) (egress : list EgressRule).
Context (averin : option AverinConfig) (has_notifiers : bool) (show : VultrinoError → string) (manager : AuthManager).

(** The request a tool call stands for, and whose secret it presents; [known] are the
    capabilities it may be made of. *)
Inductive tool_request (known : Capability → Prop) (call : ToolCallParams) : string → ExecuteRequest → Prop :=
| tool_request_http h :
    cp_name call = "http_request" → de_http_args (cp_arguments call) = Some h →
    tool_request known call (ha_api_key h) (http_request_of h)
| tool_request_capability c secret params :
    known c → cp_name call = cap_tool_name c → is_llm_proxy c = false → presented_key (cp_arguments call) = Some secret →
    build_action_params c (capability_plugin cfg c) (without_key (cp_arguments call)) = Ok params →
    tool_request known call secret (capability_request c params)
| tool_request_plugin plugin t credential secret :
    owned_tool (cp_name call) plugin = Some (plugin, t) → presented_key (cp_arguments call) = Some secret →
    json_get "credential" (cp_arguments call) = Some (JString credential) →
    tool_request known call secret (plugin_request_of plugin t credential (cp_arguments call)).
Lemma tool_request_more (P Q : Capability → Prop) call secret req :
  (∀ c, P c → Q c) → tool_request P call secret req → tool_request Q call secret req.
Proof. intros H []; [by constructor|eapply tool_request_capability; eauto|by eapply tool_request_plugin]. Qed.

(** Whose approvals a secret may poll: a stored token that is not revoked, though it be expired
    or used up, or a valid key. *)
Definition recognized (secret : string) (a : AuthResult) (tr : list Effect) : Prop :=
  (∃ t now, token_of secret t now tr ∧ ut_revoked t = false ∧ a = auth_for_use_token t) ∨ key_of manager secret a tr.

(** What a tool call did: it called no plugin, or its request passed the gate for the caller
    of its secret, or it ran an approval of the caller's that it named. *)
Definition gated_for (call : ToolCallParams) (tr : list Effect) : Prop :=
  ∃ secret req auth noted run, tr = noted ++ run ∧ all_benign noted ∧ tool_request (listed_in noted) call secret req
  ∧ authenticated manager secret auth noted ∧ gated_call clk cfg req auth run.
Definition resumed_for (call : ToolCallParams) (tr : list Effect) : Prop :=
  cp_name call = "check_approval" ∧ ∃ args a noted run, de_named_args "approval_id" (cp_arguments call) = Some args
  ∧ tr = noted ++ run ∧ all_benign noted ∧ recognized (na_api_key args) a noted
  ∧ polled clk cfg egress averin (na_name args) (Some (caller_from_auth a)) run.
Definition handled (call : ToolCallParams) (tr : list Effect) : Prop := all_plain tr ∨ gated_for call tr ∨ resumed_for call tr.

(** More reads in front change nothing. *)
Lemma handled_after call b tr : all_benign b → handled call tr → handled call (b ++ tr).
Proof.
  intros Hb [H|[(secret & req & auth & noted & run & -> & Hn & Hr & Ha & Hg)|(Hc & args & a & noted & run & Hd & -> & Hn & Ha & Hp)]].
  - left. auto with gateway.
  - right. left. exists secret, req, auth, (b ++ noted), run. rewrite <- app_assoc. split_and!; [done|by apply all_benign_app| | |done].
    + eapply tool_request_more; [|exact Hr]. intros c Hc. apply listed_app. by right.
    + apply authenticated_app. by right.
  - right. right. split; [done|]. exists args, a, (b ++ noted), run. rewrite <- app_assoc. split_and!; [done|done|by apply all_benign_app| |done].
    destruct Ha as [(t & now & Ht & ?)|Hk]; [left; exists t, now; split; [apply token_of_app; by right|done]|right; apply key_of_app; by right].
Qed.

Lemma tr_principal secret read note :
  resolve_principal_with averin manager secret read note ⊨ (λ r tr, all_benign tr ∧ ∀ p, r = Ok p →
    is_use_token p = looks_like_use_token secret ∧ recognized secret (mcp_auth p) tr
    ∧ (is_use_token p = false → key_of manager secret (mcp_auth p) tr)
    ∧ (read = false → authenticated manager secret (build_exec_auth p) tr)).
Proof.
  unfold resolve_principal_with. destruct (looks_like_use_token secret).
  - apply tr_try_quiet; [apply locked_read_silent|]. intros _.
    eapply tr_bind with (P := λ r tr, tr = [] ∧ ∀ a, r = Ok a → ∃ s, a = (sto_tokens s, get_use_token_by_hash (sto_tokens s) (hash_token secret))).
    { eapply tr_map_err; [apply tr_cache_read|naive_solver|naive_solver]. }
    { intros e tr [-> _]. split; [apply all_benign_nil|done]. }
    intros [v [t|]] tr [-> Hs]; [|apply tr_fail; split; [apply all_benign_nil|done]]. destruct (Hs _ eq_refl) as (s & [= -> Ht]).
    apply tr_tick_then. intros n. apply tr_emit_then. destruct (token_refused read (env_now n) t) as [failure|] eqn:Er.
    + eapply (tr_mild _ _ (λ _, True) (λ _, True)).
      * destruct note as [[entry act]|]; [apply mild_note|by apply mild_ret].
      * intros e tr Htr _. split; [by constructor|done].
      * intros _ tr Htr _. apply tr_fail. rewrite app_nil_r. split; [by constructor|done].
    + apply tr_ret. split; [by apply all_benign_one|]. intros p [= <-].
      assert (Hof : token_of secret t (env_now n) [FX_Token (sto_tokens s) (env_now n)]) by (exists (sto_tokens s); split; [by left|done]).
      unfold token_refused in Er. split_and!; [done| |done|].
      * left. exists t, (env_now n). split_and!; [done| |done]. destruct read; [by destruct (ut_revoked t)|].
        destruct (check_usable (env_now n) t) as [[]|] eqn:Eu; [|done]. by apply usable_now in Eu as [? _].
      * intros ->. left. exists t, (env_now n). destruct (check_usable (env_now n) t) as [[]|] eqn:Eu; [|done].
        split_and!; [done|by apply usable_now|done].
  - eapply tr_bind with (P := λ r tr, all_benign tr ∧ ∀ a, r = Ok a → key_of manager secret a tr).
    + apply tr_await_then, tr_tick_then. intros n. apply tr_emit_then.
      destruct (validate_key (env_now n) secret manager) as [[key role]|e] eqn:Ev; [apply tr_ret|apply tr_fail]; (split; [by apply all_benign_one|]); [|done].
      intros a [= <-]. eapply key_was_valid; [by left|done].
    + intros e tr [Hb _]. by split.
    + intros a tr [Hb Hk]. apply tr_ret. rewrite app_nil_r. split; [done|]. intros p [= <-]. specialize (Hk a eq_refl).
      split_and!; [done|by right|done|]. intros _. right. by exists a.
Qed.
Lemma mild_principal secret read note : mild (resolve_principal_with averin manager secret read note) (λ _, True).
Proof. eapply tr_weaken; [apply tr_principal|]. by intros [] tr [? _]. Qed.
Lemma mild_note_for_args {E} args class act (R : E → Prop) : gentle (note_refusal_for_args averin manager args class act) (λ _, True) R.
Proof.
  unfold note_refusal_for_args. destruct averin as [x|] eqn:Ea; [rewrite <- Ea|by apply mild_ret].
  destruct (presented_key args); [|by apply mild_ret].
  eapply mild_bind; [apply mild_try, mild_principal|]. intros [p|] _; [apply mild_note|by apply mild_ret].
Qed.
Lemma mild_checked_by {A} a act (r : result A ToolFailure) : mild (checked averin a act r) (λ _, True).
Proof. destruct r; [by apply mild_ret|]. eapply mild_bind; [apply mild_note|]. intros _ _. by apply mild_fail. Qed.
Lemma mild_tool_list args : mild (tool_list_credentials averin manager args) (λ _, True).
Proof.
  unfold tool_list_credentials. destruct (de_list_args args) as [x|]; [|by apply mild_fail].
  eapply mild_bind; [apply mild_principal|]. intros p _. eapply mild_bind; [apply mild_checked_by|]. intros _ _.
  eapply mild_bind; [apply mild_map_err, mild_cache_read|]. intros l _. eapply mild_bind with (P := λ _, True); [|intros m _; by apply mild_ret].
  destruct (la_pattern x) as [g|]; [|by apply mild_ret]. destruct (glob_new g); [by apply mild_ret|by apply mild_fail].
Qed.
Lemma mild_tool_info args : mild (tool_get_credential_info averin manager args) (λ _, True).
Proof.
  unfold tool_get_credential_info. destruct (de_named_args _ args) as [x|]; [|by apply mild_fail].
  eapply mild_bind; [apply mild_principal|]. intros p _. eapply mild_bind; [apply mild_checked_by|]. intros _ _.
  eapply mild_bind; [apply mild_map_err, mild_cache_read|]. intros a _. eapply mild_bind; [apply mild_map_err, mild_cache_read|]. intros b _.
  destruct (opt_or a b); [by apply mild_ret|by apply mild_fail].
Qed.

(** The tools that run something. *)
(** A call that found no tool called no plugin. *)
Definition settles (call : ToolCallParams) {A} (r : result (option A) ToolFailure) (tr : list Effect) : Prop :=
  handled call tr ∧ (r = Ok None → all_plain tr).
Lemma tr_found {A} call b (m : M ToolFailure A) : m ⊨ (λ _ tr, handled call (b ++ tr)) → found m ⊨ (λ r tr, settles call r (b ++ tr)).
Proof. intros H. eapply tr_bind; [exact H|done|]. intros c tr Hc. apply tr_ret. by rewrite app_nil_r. Qed.
(** A caller's own request, once it is known whose it is. *)
Lemma tr_own_request call req p text secret b :
  tool_request (listed_in b) call secret req → authenticated manager secret (build_exec_auth p) b → all_benign b →
  run_gated clk cfg acfg egress averin has_notifiers req p text ⊨ (λ _ tr, handled call (b ++ tr)).
Proof.
  intros Hreq Hp Hb. assert (Hdone : ∀ tr, gated_call clk cfg req (build_exec_auth p) tr → handled call (b ++ tr)).
  { intros tr Htr. right. left. by exists secret, req, (build_exec_auth p), b, tr. }
  eapply tr_bind with (P := λ _ tr, gated_call clk cfg req (build_exec_auth p) tr).
  - assert (H : execute_gated_via clk cfg acfg egress averin has_notifiers RE_Mcp req (build_exec_auth p)
      ⊨ (λ _ tr, gated_call clk cfg req (build_exec_auth p) tr)).
    { eapply tr_weaken; [apply tr_gated|]. intros r tr H name rq. by apply (gated_mediated _ _ _ _ _ _ _ _ _ _ _ H). }
    by eapply tr_map_err; [exact H|..].
  - intros e tr H. by apply Hdone.
  - intros o tr H. apply tr_ret. rewrite app_nil_r. by apply Hdone.
Qed.
Lemma tr_http call :
  cp_name call = "http_request" → tool_http_request clk cfg acfg egress averin has_notifiers manager (cp_arguments call) ⊨ (λ _, handled call).
Proof.
  intros Hn. unfold tool_http_request. destruct (de_http_args _) as [h|] eqn:Eh; [|apply tr_fail; left; auto with gateway].
  eapply tr_bind; [apply tr_principal|intros e tr [? _]; left; auto with gateway|]. intros p b [Hb Hp].
  destruct (Hp p eq_refl) as (_ & _ & _ & Hauth). eapply tr_own_request; [by constructor|by apply Hauth|done].
Qed.
Lemma tr_capability call c before :
  cp_name call = cap_tool_name c → all_benign before → listed_in before c →
  tool_call_capability clk cfg acfg egress averin has_notifiers manager c (cp_arguments call) ⊨ (λ _ tr, handled call (before ++ tr)).
Proof.
  intros Hn Hbefore Hlisted. unfold tool_call_capability. destruct (is_llm_proxy c) eqn:El.
  { eapply (tr_mild _ _ _ (λ _, False)); [apply mild_note_for_args|done|]. intros _ b Hb _. apply tr_fail. left. rewrite app_nil_r. auto with gateway. }
  destruct (presented_key _) as [secret|] eqn:Es; [|apply tr_fail; left; rewrite app_nil_r; auto with gateway].
  eapply tr_bind; [apply tr_principal|intros e tr [? _]; left; auto with gateway|]. intros p b [Hb Hp].
  destruct (Hp p eq_refl) as (_ & _ & _ & Hauth).
  destruct (build_action_params _ _ _) as [params|] eqn:Eb; [|apply tr_fail; left; rewrite app_nil_r; auto with gateway].
  eapply tr_weaken; [eapply (tr_own_request call _ _ _ secret (before ++ b))|intros r tr; cbv beta; by rewrite <- app_assoc].
  - eapply tool_request_capability; [|done..]. apply listed_app. by left.
  - apply authenticated_app. right. by apply Hauth.
  - by apply all_benign_app.
Qed.
Lemma owned_by tool plugins plugin t :
  find_map (owned_tool tool) plugins = Some (plugin, t) → owned_tool tool plugin = Some (plugin, t).
Proof.
  intros (x & _ & Hx)%find_map_Some. assert (x = plugin) as ->; [|done]. revert Hx. unfold owned_tool.
  destruct (strip_prefix _ _); [|done]. cbn. destruct (List.find _ _); [|done]. by intros [= -> _].
Qed.
Lemma tr_plugin_tool call :
  try_plugin_tool clk cfg acfg egress averin has_notifiers manager (cp_name call) (cp_arguments call) ⊨ settles call.
Proof.
  assert (Hplain : ∀ r tr, all_benign tr → settles call (A := list ToolContent) r tr).
  { intros r tr H. split; [left|intros _]; auto with gateway. }
  unfold try_plugin_tool. destruct (presented_key _) as [secret|] eqn:Es; [|apply tr_fail, Hplain; auto with gateway].
  eapply tr_bind; [apply tr_principal|intros e tr [? _]; by auto|]. intros p b [Hb Hp]. destruct (Hp p eq_refl) as (_ & _ & _ & Hauth).
  apply tr_get_then. intros plugins.
  destruct (find_map _ plugins) as [[plugin t]|] eqn:Ef; [|apply tr_ret, Hplain; rewrite app_nil_r; auto with gateway].
  destruct (json_get "credential" _ ≫= as_str) as [credential|] eqn:Ec; [|apply tr_fail, Hplain; rewrite app_nil_r; auto with gateway].
  apply (tr_found call b (run_gated _ _ _ _ _ _ _ _ _)). eapply tr_own_request; [|by apply Hauth|done].
  eapply tool_request_plugin; [by eapply owned_by|done|].
  apply bind_Some in Ec as ([] & Ev & Es'); try done. by injection Es' as ->.
Qed.
Lemma tr_check_approval call :
  cp_name call = "check_approval" → tool_check_approval clk cfg egress averin show manager (cp_arguments call) ⊨ (λ _, handled call).
Proof.
  intros Hn. unfold tool_check_approval. destruct (de_named_args _ _) as [args|] eqn:Ea; [|apply tr_fail; left; auto with gateway].
  eapply tr_bind; [apply tr_principal|intros e tr [? _]; left; auto with gateway|]. intros p b [Hb Hp]. destruct (Hp p eq_refl) as (_ & Hrec & _).
  set (mine := polled clk cfg egress averin (na_name args) (Some (caller_from_auth (mcp_auth p)))).
  assert (Hpost : ∀ tr, all_plain tr ∨ mine tr → handled call (b ++ tr)).
  { intros tr [H|H]; [left; auto with gateway|]. right. right. split; [done|]. by exists args, (mcp_auth p), b, tr. }
  eapply tr_bind with (P := λ _ tr, all_plain tr ∨ mine tr).
  - by eapply tr_map_err; [apply tr_poll|..].
  - intros e tr H. by apply Hpost.
  - intros a tr H. apply tr_ret. rewrite app_nil_r. by apply Hpost.
Qed.
Lemma tr_all_capabilities {E} : all_capabilities (E := E) ⊨ (λ r tr, all_benign tr ∧ ∀ l, r = Ok l → ∀ c, c ∈ l → listed_in tr c).
Proof.
  apply tr_try_quiet; [apply locked_read_silent|]. intros _. apply tr_try_quiet; [apply cache_read_silent|]. intros l.
  apply tr_emit_then, tr_ret. split; [by apply all_benign_one|]. intros caps [= <-] c Hc. eexists. split; [by left|done].
Qed.
Lemma tr_by_name {E} name :
  capability_by_tool_name (E := E) name ⊨ (λ r tr, all_benign tr ∧ ∀ c, r = Ok (Some c) → cap_tool_name c = name ∧ listed_in tr c).
Proof.
  eapply tr_bind; [apply tr_all_capabilities|intros e tr [? _]; by split|]. intros l tr [Hb Hl]. apply tr_ret. rewrite app_nil_r.
  split; [done|]. intros c [= [Hc Hn]%List.find_some]. split; [by apply String.eqb_eq|]. apply (Hl l eq_refl). by apply list_elem_of_In.
Qed.
Lemma tr_dispatch_tool call :
  dispatch_tool clk cfg acfg egress averin has_notifiers show manager call ⊨ settles call.
Proof.
  unfold dispatch_tool. cbv zeta.
  assert (Hfound : ∀ (m : M ToolFailure (list ToolContent)), m ⊨ (λ _, handled call) → found m ⊨ settles call) by (intros; by apply (tr_found call [])).
  assert (Hmild : ∀ m : M ToolFailure (list ToolContent), mild m (λ _, True) → m ⊨ (λ _, handled call)).
  { intros m Hm. eapply tr_weaken; [exact Hm|]. intros r tr [H _]. left. auto with gateway. }
  destruct (String.eqb_spec (cp_name call) "list_credentials"); [apply Hfound, Hmild, mild_tool_list|].
  destruct (String.eqb_spec (cp_name call) "http_request"); [by apply Hfound, tr_http|].
  destruct (String.eqb_spec (cp_name call) "get_credential_info"); [apply Hfound, Hmild, mild_tool_info|].
  destruct (String.eqb_spec (cp_name call) "check_approval"); [by apply Hfound, tr_check_approval|].
  eapply tr_bind; [apply tr_by_name|intros e tr [? _]; split; [left|]; auto with gateway|]. intros [c|] b [Hb Hc].
  - destruct (Hc c eq_refl). apply tr_found. by apply tr_capability.
  - eapply tr_weaken; [apply tr_plugin_tool|]. intros r tr [Hh Hn]. split; [by apply handled_after|]. intros Hr. specialize (Hn Hr).
    auto with gateway.
Qed.
Lemma tr_noted_failure {A} args class act (e : RpcFailure) (Q : list Effect → Prop) :
  (∀ tr, all_benign tr → Q tr) → (let* _ := note_refusal_for_args averin manager args class act in m_fail (A := A) e) ⊨ (λ _, Q).
Proof.
  intros HQ. eapply (tr_mild _ _ _ (λ _, False)); [apply mild_note_for_args|done|]. intros _ b Hb _. apply tr_fail.
  rewrite app_nil_r. auto.
Qed.
Lemma tr_tools_call params :
  handle_tools_call clk cfg acfg egress averin has_notifiers show manager params
  ⊨ (λ _ tr, all_plain tr ∨ ∃ call, params ≫= de_call = Some call ∧ handled call tr).
Proof.
  unfold handle_tools_call. destruct (params ≫= de_call) as [call|] eqn:Ec; [|apply tr_fail; left; auto with gateway].
  eapply tr_bind with (P := λ _ tr, all_benign tr).
  { unfold not_for_use_token. destruct (caller_is_use_token _); [|apply tr_ret, all_benign_nil].
    eapply tr_bind; [apply tr_by_name|by intros e tr [? _]|]. intros c tr [? _]. apply tr_ret. by rewrite app_nil_r. }
  { intros e tr Hb. left. auto with gateway. }
  intros refused b0 Hb0. destruct refused; [apply (tr_noted_failure _ _ _ _ (λ tr', all_plain (b0 ++ tr') ∨ _)); intros b Hb; left; auto with gateway|].
  unfold finish_call. eapply tr_try_then; [apply tr_dispatch_tool|].
  intros [[content|]|e] tr [Hh Hn]; [apply tr_ret; rewrite app_nil_r; eauto using handled_after| |apply tr_ret; rewrite app_nil_r; eauto using handled_after].
  apply (tr_noted_failure _ _ _ _ (λ tr', all_plain (b0 ++ tr ++ tr') ∨ _)). intros b Hb. left. auto with gateway.
Qed.

(** A plugin reached by a tool call: behind the gate, with the request the tool stands for, by
    the caller its secret authenticated; or out of the approval it names, which is the
    caller's own, claimed and authorized again. *)
Definition called_for (call : ToolCallParams) (secret : string) (tr : list Effect) (name : string) (rq : PluginRequest) : Prop :=
  ∃ req auth noted run, tr = noted ++ run ∧ all_benign noted ∧ tool_request (listed_in noted) call secret req
  ∧ authenticated manager secret auth noted ∧ mediated clk cfg req auth run name rq.
Definition resumed_by (call : ToolCallParams) (secret : string) (tr : list Effect) (name : string) (rq : PluginRequest) : Prop :=
  cp_name call = "check_approval" ∧ ∃ id a noted run v record,
    de_named_args "approval_id" (cp_arguments call) = Some {| na_api_key := secret; na_name := id |}
    ∧ tr = noted ++ run ∧ all_benign noted ∧ recognized secret a noted
    ∧ FX_Polled v ∈ run ∧ v_approvals v !! id = Some record ∧ owns_it (caller_from_auth a) record
    ∧ resumed_call clk cfg averin id run name rq.
Lemma handled_passed call tr name rq :
  handled call tr → FX_Execute name rq ∈ tr → ∃ secret, called_for call secret tr name rq ∨ resumed_by call secret tr name rq.
Proof.
  assert (Hlater : ∀ noted run, all_benign noted → FX_Execute name rq ∈ noted ++ run → FX_Execute name rq ∈ run).
  { intros noted run Hn [Hin|]%elem_of_app; [|done]. by destruct (plain_not_in (FX_Execute name rq) noted (benign_plain _ Hn) eq_refl Hin). }
  intros [Hp|[(secret & req & auth & noted & run & -> & Hn & Hreq & Ha & Hrun)|(Hc & [secret id] & a & noted & run & Hd & -> & Hn & Ha & Hp)]] Hin.
  - by destruct (plain_not_in (FX_Execute name rq) tr Hp eq_refl Hin).
  - exists secret. left. exists req, auth, noted, run. split_and!; try done. apply Hrun. by eapply Hlater.
  - exists secret. right. split; [done|]. destruct (polled_call _ _ _ _ _ _ _ _ _ Hp (Hlater _ _ Hn Hin)) as [Hcall Hown].
    destruct (Hown _ eq_refl) as (v & record & ? & ? & ?). by exists id, a, noted, run, v, record.
Qed.

(** C14: Complete mediation of tool calls.  If [tools/call] calls a plugin, its params name a
    tool and present a secret, and the trace begins with the reads by which the caller of that
    secret was recognized: a stored token with its hash, or a key valid at the time.  Then
    either that token was also not revoked, expired or used up, and the plugin was called with
    the request the tool stands for, made of the caller's own arguments or of a listed
    capability of that name, behind the whole gate of the gateway; or the tool is
    [check_approval], the token was at least not revoked, the record that was read under the
    id it names is the caller's own, and what ran is that approval, claimed and authorized
    again. *)
Theorem tool_call_is_mediated params w r w' tr name rq :
  handle_tools_call clk cfg acfg egress averin has_notifiers show manager params w = (r, w') →
  w_trace w' = w_trace w ++ tr → FX_Execute name rq ∈ tr →
  ∃ call secret, params ≫= de_call = Some call
  ∧ (called_for call secret tr name rq ∨ resumed_by call secret tr name rq).
Proof.
  intros Er Htr Hin. destruct (trace_of _ _ _ _ _ _ (tr_tools_call params) Er Htr) as [Hp|(call & Hc & Hh)].
  { by destruct (plain_not_in (FX_Execute name rq) tr Hp eq_refl Hin). }
  exists call. destruct (handled_passed _ _ _ _ Hh Hin) as [secret H]. by exists secret.
Qed.

(** ** The gate for use tokens *)

(** No capability bears a name, on disk or in the cache. *)
Definition lacks (name : string) (s : Store) : Prop := ∀ c, c ∈ capabilities_of s → cap_tool_name c ≠ name.
Definition unnamed (name : string) (st : Store * Process) : Prop := lacks name st.1 ∧ lacks name (p_cache st.2).
Lemma lacks_find name s : lacks name s → List.find (λ c, String.eqb (cap_tool_name c) name) (capabilities_of s) = None.
Proof.
  intros H. destruct (List.find _ _) as [c|] eqn:E; [|done]. apply List.find_some in E as [Hc Hn]. apply list_elem_of_In in Hc.
  by apply String.eqb_eq, H in Hn.
Qed.
Lemma no_such_capability {E} name w :
  (∀ n st, unnamed name st → unnamed name (env_others n st)) → unnamed name (w_disk w, w_proc w) →
  (capability_by_tool_name (E := E) name w).1 = Ok None.
Proof.
  intros Henv Hw. unfold capability_by_tool_name, all_capabilities, list_capabilities, reload, locked_read, cache_read, sync, m_bind, m_try, await, tick, m_ret, m_fail, get.
  pose proof (Henv (w_tick w) _ Hw) as H1. destruct (env_others (w_tick w) _) as [d p]. cbn in *.
  destruct (env_fault (S (w_tick w))); cbn.
  - pose proof (Henv (S (S (w_tick w))) _ H1) as H2. destruct (env_others (S (S _)) _) as [d2 p2]. cbn in *.
    destruct (env_fault _); cbn; [done|]. f_equal. by apply lacks_find, H2.
  - assert (Hs : unnamed name (d, set_cache d p)) by (split; apply H1).
    pose proof (Henv (S (S (w_tick w))) _ Hs) as H2. destruct (env_others (S (S _)) _) as [d2 p2]. cbn in *.
    destruct (env_fault _); cbn; [done|]. f_equal. by apply lacks_find, H2.
Qed.

(** C15: A use token calls only tools that are named for agents.  A call whose arguments
    present a use token and whose tool is neither [check_approval] nor, at any time, the name
    of a stored capability is refused with nothing done: not a built-in tool, not a plugin's. *)
Theorem use_token_needs_a_named_tool params call w r w' tr :
  params ≫= de_call = Some call → caller_is_use_token (cp_arguments call) = true → cp_name call ≠ "check_approval" →
  (∀ n st, unnamed (cp_name call) st → unnamed (cp_name call) (env_others n st)) → unnamed (cp_name call) (w_disk w, w_proc w) →
  handle_tools_call clk cfg acfg egress averin has_notifiers show manager params w = (r, w') → w_trace w' = w_trace w ++ tr →
  r = Err (RF_NotForUseToken (cp_name call)) ∧ all_benign tr.
Proof.
  intros Hc Ht Hn Henv Hw Er Htr. unfold handle_tools_call in Er. rewrite Hc in Er. unfold m_bind at 1 in Er.
  assert (∃ w1 b, not_for_use_token call w = (Ok true, w1) ∧ w_trace w1 = w_trace w ++ b ∧ all_benign b) as (w1 & b0 & E1 & Hw1 & Hb0).
  { unfold not_for_use_token. rewrite Ht. unfold m_bind, m_ret. pose proof (no_such_capability (E := RpcFailure) (cp_name call) w Henv Hw) as H1.
    destruct (tr_by_name (E := RpcFailure) (cp_name call) w) as (tr0 & H0 & Hb & _).
    destruct (capability_by_tool_name (cp_name call) w) as [r1 w1]. cbn in *. subst r1. exists w1, tr0. split; [|done].
    apply String.eqb_neq in Hn. by rewrite Hn. }
  rewrite E1 in Er.
  assert (Hend : (let* _ := note_refusal_for_args averin manager (cp_arguments call) RC_NotGranted (cp_name call) in
    m_fail (A := ToolCallResult) (RF_NotForUseToken (cp_name call))) ⊨ (λ r tr, r = Err (RF_NotForUseToken (cp_name call)) ∧ all_benign tr)).
  { eapply (tr_mild _ _ _ (λ _, False)); [apply mild_note_for_args|done|]. intros _ b Hb _. apply tr_fail. by rewrite app_nil_r. }
  destruct (Hend w1) as (b1 & H1 & Hr & Hb1). rewrite Er in H1, Hr. cbn in H1, Hr. split; [done|].
  rewrite H1, Hw1, <- app_assoc in Htr. apply app_inv_head in Htr as <-. by apply all_benign_app.
Qed.

(** C39: Arguments given by position are not looked at by that gate.  Whatever secret the first
    element of an array is, a use token's included, the call goes on as if there were no gate,
    and the secret is the one the HTTP tool then authenticates with. *)
Theorem positional_arguments_skip_the_gate secret credential method url w :
  let args := JArray [JString secret; JString credential; JString method; JString url; JObject []; JNull] in
  let call := {| cp_name := "http_request"; cp_arguments := args |} in
  handle_tools_call clk cfg acfg egress averin has_notifiers show manager
    (Some (JObject [("arguments", args); ("name", JString "http_request")])) w
  = finish_call clk cfg acfg egress averin has_notifiers show manager call w
  ∧ ∃ req, tool_request (λ _, False) call secret req ∧ er_credential req = credential ∧ er_action req = "http.request".
Proof.
  split; [done|].
  set (h := {| ha_api_key := secret; ha_credential := credential; ha_method := method; ha_url := url; ha_headers := JObject [];
               ha_body := None; ha_query := JObject [] |}).
  exists (http_request_of h). split; [by refine (tool_request_http _ _ h _ _)|done].
Qed.

(** ** The endpoint *)

Lemma get_inserted k v m : json_get k (JObject (obj_insert k v m)) = Some v.
Proof. apply obj_get_insert_eq. Qed.
Lemma get_other k j v m : j ≠ k → json_get j (JObject (obj_insert k v m)) = json_get j (JObject m).
Proof. apply obj_get_insert_ne. Qed.

(** Arguments in an object are those of their own key. *)
Lemma tool_request_key known call m secret secret' req :
  cp_arguments call = JObject m → presented_key (JObject m) = Some secret → tool_request known call secret' req → secret' = secret.
Proof.
  intros Ha Hk Hr. destruct Hr as [h Hn Hd|c s params Hkn Hn Hl Hp Hb|plugin t credential s Ho Hp Hc]; rewrite Ha in *; [|congruence..].
  unfold de_http_args in Hd. cbn [de_struct mbind option_bind] in Hd. change (json_get "api_key" (JObject m) ≫= as_str) with (presented_key (JObject m)) in Hd.
  rewrite Hk in Hd. cbn [mbind option_bind] in Hd.
  repeat match type of Hd with (match ?o with _ => _ end) = _ => destruct o; [|done] | option_bind _ _ _ _ = _ => apply bind_Some in Hd as (? & _ & Hd)
    | (?o ≫= _) = _ => apply bind_Some in Hd as (? & _ & Hd) end. by injection Hd as <-.
Qed.

Lemma named_args_key field m secret args :
  presented_key (JObject m) = Some secret → de_named_args field (JObject m) = Some args → na_api_key args = secret.
Proof.
  intros Hk Hd. unfold de_named_args in Hd. cbn [de_struct mbind option_bind] in Hd.
  change (json_get "api_key" (JObject m) ≫= as_str) with (presented_key (JObject m)) in Hd. rewrite Hk in Hd. cbn [mbind option_bind] in Hd.
  apply bind_Some in Hd as (name & _ & Hd). by injection Hd as <-.
Qed.

(** A tool call posted with a bearer: the tool of its params, with its own arguments, the
    bearer for their key. *)
Definition posted_call (m : Object) (secret : string) (call : ToolCallParams) : Prop :=
  json_get "method" (JObject m) = Some (JString "tools/call")
  ∧ json_get "name" (JObject (ensure_object "params" m)) = Some (JString (cp_name call))
  ∧ cp_arguments call = JObject (obj_insert "api_key" (JString secret) (ensure_object "arguments" (ensure_object "params" m))).
Lemma injected_call m secret r call :
  de_request (JObject (inject_bearer m secret)) = Some r → jr_method r = "tools/call" → jr_params r ≫= de_call = Some call →
  posted_call m secret call.
Proof.
  intros Hr Hm Hc. unfold de_request in Hr. cbn [de_struct mbind option_bind] in Hr.
  apply bind_Some in Hr as (version & _ & Hr). apply bind_Some in Hr as (id & _ & Hr). apply bind_Some in Hr as (method & Hmethod & Hr).
  apply bind_Some in Hr as (params & Hparams & Hr). injection Hr as <-. cbn in Hm, Hc. subst method.
  assert (Hold : json_get "method" (JObject m) ≫= as_str = Some "tools/call").
  { unfold inject_bearer in Hmethod. destruct (json_get "method" (JObject m) ≫= as_str) as [method|] eqn:E; [|congruence].
    destruct (str_in method _); [|destruct (String.eqb method "tools/call")]; rewrite ?get_other in Hmethod by done; congruence. }
  unfold inject_bearer in Hparams. rewrite Hold in Hparams. change (str_in "tools/call" _) with false in Hparams. cbn iota in Hparams.
  rewrite String.eqb_refl, get_inserted in Hparams. cbn [de_default de_params] in Hparams. injection Hparams as <-.
  cbn [mbind option_bind] in Hc. unfold de_call in Hc. cbn [de_struct mbind option_bind] in Hc. apply bind_Some in Hc as (name & Hname & Hc).
  rewrite get_inserted in Hc. cbn [de_default mbind option_bind] in Hc. injection Hc as <-. rewrite get_other in Hname by done.
  assert (Hstr : ∀ (o : option Value) x, o ≫= as_str = Some x → o = Some (JString x)).
  { intros o x ([] & -> & Hx)%bind_Some; try done. by injection Hx as ->. }
  unfold posted_call. split_and!; [by apply Hstr|by apply Hstr|done].
Qed.

(** Listing does nothing. *)
Lemma mild_list_principal params : mild (resolve_list_principal averin manager params) (λ _, True).
Proof.
  unfold resolve_list_principal. destruct (list_secret params); [|by apply mild_ret].
  eapply mild_bind; [apply mild_try, mild_principal|]. intros p _. by apply mild_ret.
Qed.
Lemma tr_capabilities {E} auth :
  list_capabilities_for (E := E) clk auth ⊨ (λ r tr, all_benign tr ∧ ∀ l c, r = Ok l → c ∈ l → listed_in tr c ∧ granted clk auth c tr).
Proof.
  eapply tr_bind; [apply tr_all_capabilities|intros e tr [? _]; by split|]. intros caps b [Hb Hl].
  eapply tr_weaken; [apply tr_allowed_among|]. intros r tr [Hb' H]. split; [by apply all_benign_app|].
  intros l c Hr Hc. destruct (H l c Hr Hc) as [Hin Hg]. split; [apply listed_app; left; by apply (Hl caps)|apply granted_app; by right].
Qed.
(** The tool of a capability that the caller of a secret holds. *)
Definition named_for (secret : option string) (tr : list Effect) (t : Tool) : Prop :=
  ∃ s auth c, secret = Some s ∧ recognized s auth tr ∧ listed_in tr c ∧ granted clk (Some auth) c tr
  ∧ is_llm_proxy c = false ∧ t = capability_tool c.
Lemma recognized_app secret k a b : recognized secret k a ∨ recognized secret k b → recognized secret k (a ++ b).
Proof.
  intros [[(t & now & Ht & ?)|Hk]|[(t & now & Ht & ?)|Hk]]; [left; exists t, now|right|left; exists t, now|right];
    ((split; [apply token_of_app; auto|done]) || (apply key_of_app; auto)).
Qed.
Lemma named_after secret a b t : named_for secret b t → named_for secret (a ++ b) t.
Proof.
  intros (s & auth & c & ? & ? & ? & ? & ? & ?). exists s, auth, c. split_and!; [done|apply recognized_app; auto|apply listed_app; auto|apply granted_app; auto|done..].
Qed.
Lemma tr_capability_tools params :
  get_capability_tools clk averin manager params ⊨ (λ r tr, all_benign tr ∧ ∀ l t, r = Ok l → t ∈ l → named_for (list_secret params) tr t).
Proof.
  assert (Hnone : ∀ tr, all_benign tr → m_ret (E := RpcFailure) (A := list Tool) []
    ⊨ (λ r tr', all_benign (tr ++ tr') ∧ ∀ l t, r = Ok l → t ∈ l → named_for (list_secret params) (tr ++ tr') t)).
  { intros tr Hb. apply tr_ret. rewrite app_nil_r. split; [done|]. by intros l t [= <-] ?%elem_of_nil. }
  unfold get_capability_tools, resolve_list_principal. destruct (list_secret params) as [secret|] eqn:Es.
  2:{ eapply tr_bind; [by apply (tr_ret None (λ r tr, tr = [] ∧ r = Ok None))|by intros e tr [_ [=]]|].
      intros p tr [-> [= ->]]. apply (Hnone []), all_benign_nil. }
  eapply tr_bind with (P := λ r tr, all_benign tr ∧ ∀ p, r = Ok (Some p) → recognized secret (mcp_auth p) tr).
  { eapply tr_try_then; [apply tr_principal|]. intros r tr [Hb Hp]. apply tr_ret. rewrite app_nil_r. split; [done|].
    intros p. destruct r as [p'|]; [|done]. intros [= ->]. by apply Hp. }
  { intros e tr [? _]. by split. }
  intros [p|] b [Hb Hp]; [|by apply Hnone]. eapply tr_bind; [apply tr_capabilities|intros e tr [? _]; split; [by apply all_benign_app|done]|].
  intros caps b' [Hb' Hcaps]. apply tr_ret. rewrite app_nil_r. split; [by apply all_benign_app|].
  intros l t [= <-] (c & -> & Hc)%list_elem_of_fmap. apply list_elem_of_In, List.filter_In in Hc as [Hc Hl]. apply list_elem_of_In in Hc.
  destruct (Hcaps _ c eq_refl Hc). exists secret, (mcp_auth p), c.
  split_and!; [done|apply recognized_app; auto|apply listed_app; auto|apply granted_app; auto|by apply negb_true_iff|done].
Qed.
Definition generic_tool (t : Tool) : Prop :=
  t ∈ BUILT_IN_TOOLS ∨ ∃ plugin d, d ∈ mcp_tool_definitions plugin ∧ plugin_tool plugin d = Some t.
Lemma mild_plugin_tools : mild get_plugin_tools (λ l, ∀ t, t ∈ l → generic_tool t).
Proof.
  unfold get_plugin_tools. eapply mild_bind; [apply mild_get|]. intros plugins _.
  destruct (mapM _ plugins) as [tools|] eqn:E; [|by apply mild_fail]. apply mild_ret. intros t Ht. right.
  apply list_elem_of_In, List.in_concat in Ht as (l & Hl & Ht). apply list_elem_of_In in Hl, Ht. apply mapM_Some in E.
  apply list_elem_of_lookup in Hl as [i Hi]. destruct (Forall2_lookup_r _ _ _ _ _ E Hi) as (plugin & _ & Hp). apply mapM_Some in Hp.
  apply list_elem_of_lookup in Ht as [k Hk]. destruct (Forall2_lookup_r _ _ _ _ _ Hp Hk) as (d & Hd & Hdt).
  exists plugin, d. split; [by eapply list_elem_of_lookup_2|done].
Qed.
Lemma tr_tools_list params :
  handle_tools_list clk averin manager params ⊨ (λ r tr, all_benign tr ∧ ∀ l, r = Ok l → ∃ generic named, l = generic ++ named
    ∧ (∀ t, t ∈ generic → generic_tool t) ∧ ∀ t, t ∈ named → named_for (list_secret params) tr t).
Proof.
  unfold handle_tools_list. eapply tr_mild; [apply mild_plugin_tools|intros; by split|]. intros plugin_tools b1 H1 Hp.
  eapply tr_mild; [apply mild_list_principal|intros e b2 H2 _; split; [by apply all_benign_app|done]|]. intros principal b2 H2 _.
  eapply tr_bind; [apply tr_capability_tools|intros e b3 [H3 _]; split; [by repeat apply all_benign_app|done]|].
  intros named b3 [H3 Hnamed]. apply tr_ret. rewrite app_nil_r. split; [by repeat apply all_benign_app|]. intros l [= <-].
  exists (match principal with
          | Some (MP_UseToken _ _) => List.filter (λ t, String.eqb (tl_name t) "check_approval") (BUILT_IN_TOOLS ++ plugin_tools)
          | _ => BUILT_IN_TOOLS ++ plugin_tools
          end), named. split_and!; [done| |intros t Ht; by apply named_after, named_after, (Hnamed named)].
  assert (Hall : ∀ t, t ∈ BUILT_IN_TOOLS ++ plugin_tools → generic_tool t) by (intros t [?|?]%elem_of_app; [by left|by apply Hp]).
  intros t Ht. apply Hall. destruct principal as [[]|]; try done. apply list_elem_of_In in Ht. apply List.filter_In in Ht as [Ht _].
  by apply list_elem_of_In.
Qed.
Definition readable_by (secret : string) (tr : list Effect) (r : Resource) : Prop :=
  looks_like_use_token secret = false ∧ ∃ a, key_of manager secret a tr ∧ can_access_credential (ar_role a) (rs_name r) = true.
Definition list_key (params : option Value) : string := default "" (p ← params; json_get "api_key" p ≫= as_str).
Lemma tr_resources params :
  handle_resources_list averin manager params ⊨ (λ r tr, all_benign tr ∧ ∀ l x, r = Ok l → x ∈ l → readable_by (list_key params) tr x).
Proof.
  assert (Hnil : ∀ tr, all_benign tr → m_ret (E := RpcFailure) (A := list Resource) []
    ⊨ (λ r tr', all_benign (tr ++ tr') ∧ ∀ l x, r = Ok l → x ∈ l → readable_by (list_key params) (tr ++ tr') x)).
  { intros tr Hb. apply tr_ret. rewrite app_nil_r. split; [done|]. by intros l x [= <-] ?%elem_of_nil. }
  unfold handle_resources_list. fold (list_key params). destruct (is_empty _); [apply (Hnil []), all_benign_nil|].
  eapply tr_try_then; [apply tr_principal|]. intros [[a|a t]|e] b [Hb Hp]; [|by apply Hnil..].
  destruct (Hp _ eq_refl) as (Hu & _ & Ha & _). eapply (tr_mild _ _ (λ _, True) (λ _, True)); [apply mild_map_err, mild_cache_read|intros; split; [by apply all_benign_app|done]|].
  intros l b' Hb' _. apply tr_ret. rewrite app_nil_r. split; [by apply all_benign_app|].
  intros l' x [= <-] (c & -> & Hc)%list_elem_of_fmap. apply list_elem_of_In, List.filter_In in Hc as [_ Hc]. split; [by rewrite <- Hu|].
  exists a. split; [|done]. apply key_of_app. left. by apply Ha.
Qed.

(** Listing shows only what the caller is granted.  Whatever [tools/list] answers is a
    built-in tool, a plugin's tool, or the tool of a listed capability that is no model
    channel, whose credential the caller of the presented secret may use and that the policy
    does not deny it, by what was read; without a secret there are none of the last.
    [resources/list] names only credentials that the role of a key, valid when it was read,
    can access: to a use token, and without a key, none. *)
Theorem listing_shows_only_what_is_granted params w w' tr tools w2 w2' tr2 resources :
  handle_tools_list clk averin manager params w = (Ok tools, w') → w_trace w' = w_trace w ++ tr →
  handle_resources_list averin manager params w2 = (Ok resources, w2') → w_trace w2' = w_trace w2 ++ tr2 →
  (∃ generic named, tools = generic ++ named ∧ (∀ t, t ∈ generic → generic_tool t)
     ∧ ∀ t, t ∈ named → named_for (list_secret params) tr t)
  ∧ ∀ r, r ∈ resources → readable_by (list_key params) tr2 r.
Proof.
  intros Et Htr Er Htr2. destruct (trace_of _ _ _ _ _ _ (tr_tools_list params) Et Htr) as [_ Ht].
  destruct (trace_of _ _ _ _ _ _ (tr_resources params) Er Htr2) as [_ Hr]. split; [by apply Ht|]. intros r. by apply Hr.
Qed.

(** ** Through the endpoint *)

Lemma tr_map_ok {E A B} (f : A → B) (m : M E A) (Q : list Effect → Prop) : m ⊨ (λ _, Q) → map_ok f m ⊨ (λ _, Q).
Proof. intros H. eapply tr_bind; [exact H|done|]. intros x tr Hx. apply tr_ret. by rewrite app_nil_r. Qed.
Definition routed (r : JsonRpcRequest) (tr : list Effect) : Prop :=
  all_plain tr ∨ jr_method r = "tools/call" ∧ ∃ call, jr_params r ≫= de_call = Some call ∧ handled call tr.
Lemma tr_route r : route clk cfg acfg egress averin has_notifiers show manager r ⊨ (λ _, routed r).
Proof.
  unfold route, routed. cbv zeta. destruct (String.eqb_spec (jr_method r) "initialize"); [apply tr_ret; auto with gateway|].
  destruct (String.eqb_spec (jr_method r) "tools/list").
  { apply tr_map_ok. eapply tr_weaken; [apply tr_tools_list|]. intros ? tr [? _]. auto with gateway. }
  destruct (String.eqb_spec (jr_method r) "tools/call").
  { apply tr_map_ok. eapply tr_weaken; [apply tr_tools_call|]. intros ? tr [H|H]; auto. }
  destruct (String.eqb_spec (jr_method r) "resources/list").
  { apply tr_map_ok. eapply tr_weaken; [apply tr_resources|]. intros ? tr [? _]. auto with gateway. }
  destruct (String.eqb_spec (jr_method r) "ping"); [apply tr_ret; auto with gateway|apply tr_fail; auto with gateway].
Qed.
Lemma tr_message {E} flag message :
  handle_message (E := E) clk cfg acfg egress averin has_notifiers show manager flag message
  ⊨ (λ _ tr, all_plain tr ∨ ∃ r, read_request message = Some r ∧ routed r tr).
Proof.
  unfold handle_message, handle_request. destruct (read_request message) as [r|]; [|apply tr_ret; auto with gateway].
  destruct (str_in _ _); [apply tr_ret; auto with gateway|]. destruct (String.eqb _ _); [apply tr_ret; auto with gateway|].
  eapply tr_try_then; [apply tr_route|]. intros x tr H. apply tr_ret. rewrite app_nil_r. eauto.
Qed.
Lemma gate_bearer_silent {E} secret allow : silent (gate_bearer (E := E) manager secret allow).
Proof.
  unfold gate_bearer. destruct (looks_like_use_token secret).
  - apply tr_try_quiet; [apply locked_read_silent|]. intros _. apply tr_try_quiet; [apply cache_read_silent|]. intros [[t|]|]; [|by apply tr_ret..].
    apply tr_tick_then. intros n. by apply tr_ret.
  - apply tr_await_then, tr_tick_then. intros n. by apply tr_ret.
Qed.
Definition through (headers : HeaderMap) (body : bytes) (tr : list Effect) : Prop :=
  ∃ secret m r, extract_bearer headers = Some secret ∧ json_from_str (of_bytes body) = Some (JObject m) ∧ read_request (json_to_string (JObject (inject_bearer m secret))) = Some r ∧ routed r tr.
Lemma tr_endpoint {E} origins in_flight task headers body :
  mcp_jsonrpc (E := E) clk cfg acfg egress averin has_notifiers show manager origins in_flight task headers body
  ⊨ (λ _ tr, all_plain tr ∨ through headers body tr).
Proof.
  unfold mcp_jsonrpc. destruct (validate_transport_headers _ _); [apply tr_ret; auto with gateway|].
  destruct (json_from_str _) as [[| | | | |m]|] eqn:Ej; try (apply tr_ret; auto with gateway).
  destruct (extract_bearer headers) as [secret|] eqn:Es; [|apply tr_ret; auto with gateway].
  apply tr_quiet; [apply gate_bearer_silent|auto with gateway|]. intros [refused|]; [apply tr_ret; auto with gateway|].
  destruct (bool_decide _); [destruct (json_pointer _ _); apply tr_ret; auto with gateway|]. cbv zeta.
  assert (Hrun : ∀ (f : option JsonRpcResponse * bool → McpHttpAnswer * gmap string nat),
    (let* r := handle_message (E := E) clk cfg acfg egress averin has_notifiers show manager false (json_to_string (JObject (inject_bearer m secret))) in
     m_ret (f r)) ⊨ (λ _ tr, all_plain tr ∨ through headers body tr)).
  { intros f. apply (tr_map_ok f). eapply tr_weaken; [apply tr_message|]. intros x tr [H|(r & Hr & H)]; [by left|right].
    by exists secret, m, r. }
  destruct (is_tracked _ _); [|apply Hrun]. destruct (file_request _ _ _) as [[] filed]; [apply tr_ret; auto with gateway|apply Hrun].
Qed.

(** C16: Over HTTP a call is its bearer's.  Reading back the message that was printed gives
    that message; then if a request to the endpoint calls a plugin, the body is a JSON object
    with a [tools/call], the tool run is the one its params name, and its arguments are the
    posted ones with the secret of the authorization header for their key, whatever the body
    had there, so the gate for use tokens looked at it.  The plugin was reached behind the
    gateway's gate, with the request of that tool and those arguments, by the principal whom
    that very secret authenticated; or out of the approval that [check_approval] named, which
    is that principal's own. *)
Theorem http_call_is_its_bearers {E} origins in_flight task headers body w r w' tr name rq :
  (∀ m secret, json_from_str (of_bytes body) = Some (JObject m) → extract_bearer headers = Some secret →
     let message := JObject (inject_bearer m secret) in read_request (json_to_string message) = de_request message) →
  mcp_jsonrpc (E := E) clk cfg acfg egress averin has_notifiers show manager origins in_flight task headers body w = (r, w') →
  w_trace w' = w_trace w ++ tr → FX_Execute name rq ∈ tr →
  ∃ m secret call, json_from_str (of_bytes body) = Some (JObject m) ∧ extract_bearer headers = Some secret
  ∧ posted_call m secret call ∧ presented_key (cp_arguments call) = Some secret
  ∧ (called_for call secret tr name rq ∨ resumed_by call secret tr name rq).
Proof.
  intros Hwire Er Htr Hin. destruct (trace_of _ _ _ _ _ _ (tr_endpoint origins in_flight task headers body) Er Htr)
    as [Hp|(secret & m & req & Hs & Hj & Hread & [Hp|(Hm & call & Hcall & Hh)])].
  1,2: by destruct (plain_not_in (FX_Execute name rq) tr Hp eq_refl Hin).
  rewrite (Hwire m secret Hj Hs) in Hread. pose proof (injected_call m secret req call Hread Hm Hcall) as Hposted.
  exists m, secret, call. destruct Hposted as (Hmethod & Hname & Hargs).
  assert (Hk : presented_key (cp_arguments call) = Some secret) by (rewrite Hargs; unfold presented_key; by rewrite get_inserted).
  split_and!; [done..|]. destruct (handled_passed _ _ _ _ Hh Hin) as [secret' [H|H]]; [left|right].
  - destruct H as (q & auth & noted & run & ? & ? & Hreq & H). assert (secret' = secret) as ->; [|by exists q, auth, noted, run].
    rewrite Hargs in Hk. by eapply tool_request_key.
  - assert (secret' = secret) as ->; [|done]. destruct H as (_ & id & a & noted & run & v & record & Hd & _). rewrite Hargs in Hd, Hk.
    exact (named_args_key _ _ _ _ Hk Hd).
Qed.
End facts.

