(* ===== verification/Concrete.v ===== *)
(** * Concrete inputs

    Stand-ins for the crates outside the repository and the concrete policies,
    approvals, vaults and outboxes on which the theorems are exercised.  The stand-ins
    are total functions of the simplest kind that the classes allow: a URL is its own
    text, a glob without metacharacters matches itself, a digest is the digested text. *)

From stdpp Require Import base gmap strings list.
From Stdlib Require Import Ascii ZArith Lia.
From S2P Require Import Prelude RustStr PolicyTypes UrlCanon RateLimit BTree Json Kernel.
From S2P Require Import PolicyEngine KillFence Outbox Approval ApprovalRecipe ApprovalLifecycle.
From S2P Require Import ApprovalStore Egress Tokens.

Open Scope Z_scope.

(** ** The crates *)

(** A URL is its text, with a flag for a path parsed against the dummy base. *)
#[export] Instance text_url : UrlCrate := {|
  Url := bool * string;
  url_parse s := if contains "://" s then Some (false, s) else None;
  url_parse_with_base _ s := Some (true, s);
  url_host_str u := if u.1 then Some "relative.invalid" else None;
  url_port _ := None; url_username _ := ""; url_password _ := None;
  url_path u := u.2; url_query _ := None; url_drop_fragment u := u; url_domain _ := None;
  url_set_host _ _ := None; url_as_str u := u.2 |}.

#[export] Instance literal_glob : GlobCrate := {| glob_new p := Some (String.eqb p) |}.

#[export] Instance plain_encoding : UrlEncodingCrate := {| decode_binary s := s; url_encode s := s |}.

(** The text of a value, with the strings of an object concatenated. *)
Fixpoint plain_json (v : Value) : string :=
  match v with
  | JString s => s
  | JObject m => foldr (λ e acc, e.1 +:+ "=" +:+ plain_json e.2 +:+ ";" +:+ acc) "" m
  | _ => "-"
  end.

#[export] Instance plain_serde : SerdeJson :=
  {| json_to_string := plain_json; json_to_vec v := Some (plain_json v); json_pointer _ _ := None |}.

#[export] Instance plain_digest : Sha256Digest := {| sha256 s := s |}.

#[export] Instance plain_sha : Sha256 := {| sha256_hex s := s |}.

(** Base64 with a given alphabet, hexadecimal, and a JSON string. *)
Definition base64_digit (last : string) (n : nat) : ascii :=
  match String.get n ("ABCDEFGHIJKLMNOPQRSTUVWXYZabcdefghijklmnopqrstuvwxyz0123456789" +:+ last)
  with Some a => a | None => "A"%char end.

Fixpoint base64 (last : string) (pad : bool) (s : string) : string :=
  let d n := base64_digit last (n mod 64)%nat in
  match s with
  | String a (String b (String c s')) =>
      let n := (nat_of_ascii a, nat_of_ascii b, nat_of_ascii c) in
      String (d (n.1.1 / 4))%nat (String (d (n.1.1 * 16 + n.1.2 / 16))%nat
        (String (d (n.1.2 * 4 + n.2 / 64))%nat (String (d n.2) (base64 last pad s'))))
  | String a (String b EmptyString) =>
      let n := (nat_of_ascii a, nat_of_ascii b) in
      String (d (n.1 / 4))%nat (String (d (n.1 * 16 + n.2 / 16))%nat
        (String (d (n.2 * 4))%nat (if pad then "=" else "")))
  | String a EmptyString =>
      let n := nat_of_ascii a in
      String (d (n / 4))%nat (String (d (n * 16))%nat (if pad then "==" else ""))
  | EmptyString => ""
  end.

Fixpoint hex_of (digit : nat → ascii) (s : string) : string :=
  match s with
  | EmptyString => ""
  | String a s' =>
      String (digit (nat_of_ascii a / 16)%nat)
        (String (digit (nat_of_ascii a mod 16)%nat) (hex_of digit s'))
  end.

#[export] Instance real_encoders : Encoders := {|
  b64_standard := base64 "+/" true; b64_standard_no_pad := base64 "+/" false;
  b64_url_safe := base64 "-_" true; b64_url_safe_no_pad := base64 "-_" false;
  hex_encode := hex_of hex_lower; hex_encode_upper := hex_of hex_upper;
  json_string s := Some (String (ascii_of_nat 34) (s +:+ String (ascii_of_nat 34) "")) |}.

Example base64_light_work :
  b64_standard "light work." = "bGlnaHQgd29yay4=" ∧ b64_url_safe_no_pad "light work" = "bGlnaHQgd29yaw".
Proof. split; reflexivity. Qed.

(** A regular expression that is a literal text. *)
#[export] Instance literal_regex : RegexCrate :=
  {| Regex := string; replace_all re text by_ := replace re by_ text |}.

(** A clock that stands still, one second after the epoch and at noon. *)
Definition noon : Clock :=
  {| instant _ := nanos_per_sec; local_time _ := {| nt_secs := 43200; nt_frac := 0 |} |}.

(** ** Policies *)

Definition a_policy (id : string) (rs : list PolicyRule) (d : PolicyAction) : Policy :=
  {| policy_id := id; policy_name := id; credential_pattern := "*"; principal_pattern := None;
     rules := rs; default_action := d; kill := false |}.

(** Two layered limits: five a minute and a hundred a day. *)
Definition layered : Policy :=
  a_policy "limits"
    [ {| condition := RateLimit 5 60; action := PA_Allow |};
      {| condition := And [MethodMatch ["GET"]; RateLimit 100 86400]; action := PA_Allow |} ]
    PA_Deny.

Definition deny_get : Policy :=
  a_policy "no-get" [ {| condition := MethodMatch ["GET"]; action := PA_Deny |} ] PA_Allow.

Definition halt_all : Policy :=
  {| policy_id := "halt"; policy_name := "halt"; credential_pattern := "*";
     principal_pattern := None; rules := []; default_action := PA_Deny; kill := true |}.

Definition get_input : EvalInput :=
  {| in_credential_alias := "github"; in_url := Some "https://api.test/x";
     in_method := Some "GET"; in_action := None; in_principal := None; in_spend := None |}.

Definition idle : EngineState := {| rate_limits := ∅; reads := 0 |}.

(** ** Approvals *)

Definition requested (rule : option ApprovalRule) : ApprovalRequest :=
  open_approval (λ s, s) (seconds 1000) "7" "hash"
    {| na_credential := "github"; na_action := "merge";
       na_params := JObject [("url", JString "https://api.test/x")];
       na_requester := {| rq_principal_kind := "use_token"; rq_principal_id := Some "ut_1";
                          rq_principal_name := None; rq_role := None; rq_owner := None |};
       na_use_token_id := Some "ut_1"; na_principal_id := None; na_agent_label := Some "bot";
       na_action_label := None; na_dual_control := true; na_criticality := CC_High;
       na_trusted_irreversible := None; na_escalate_after := seconds 600;
       na_escalate_window := seconds 600; na_oob_identity := None;
       na_reauth_interval_secs := Some 300; na_required_approvals := 1; na_tenant := Some "acme";
       na_workload_id := None; na_preview := None; na_approval_rule := rule |}.

Definition says (who : string) (class : option ApproverClass) : Decision :=
  build_decision "panel" who true None None class None.

(** Requested with dual control, then approved by two people. *)
Definition once : ApprovalRequest :=
  (approve (seconds 1010) (requested None) (says "verified:alice" None)).2.
Definition twice : ApprovalRequest :=
  (approve (seconds 1020) once (says "verified:bob" None)).2.

(** One senior and one teammate. *)
Definition pair_rule : ApprovalRule :=
  {| recipes := [ {| terms := [ {| rt_class := Senior; rt_count := 1 |};
                                {| rt_class := Teammate; rt_count := 1 |} ] |} ];
     decision_mode := DenyOnAnyDeny; exclude_owner := true |}.

Definition ruled_once : ApprovalRequest :=
  (approve (seconds 1010) (requested (Some pair_rule)) (says "verified:alice" (Some Senior))).2.
Definition ruled : ApprovalRequest :=
  (approve (seconds 1020) ruled_once (says "verified:bob" (Some Teammate))).2.

(** One approval, then a denial. *)
Definition vetoed : ApprovalRequest :=
  (deny (seconds 1020) once (says "verified:bob" None)).2.

(** A vault that holds the approved request. *)
Definition empty_fence : FenceVault :=
  {| fv_policies := ∅; fv_fence := {| kf_epoch := 0; kf_marks := [] |} |}.
Lemma empty_fence_ok : fence_ok empty_fence.
Proof.
  split; [done|]. split; [by vm_compute|]. intros id p Hp. by apply elem_of_nil in Hp.
Qed.

Definition vault_of (a : ApprovalRequest) : Vault :=
  {| v_fence := empty_fence; v_approvals := {[ ap_id a := a ]}; v_pending_events := [] |}.

(** ** The outbox *)

Definition empty_outbox : OutboxCache := {| outbox := []; outbox_seq := 0 |}.
Definition two_subjects : OutboxCache :=
  (append 30 "b" "t" JNull (append 20 "a" "t" JNull (append 10 "a" "t" JNull empty_outbox).2).2).2.
