(* ===== verification/WitnessesPolicy.v ===== *)
(** * Policies and approvals, exercised

    Each lemma applies one theorem about policies, URLs, permits, the kill fence, approvals,
    their recipes or their execution at a concrete input and discharges its hypotheses by
    evaluation. *)

From stdpp Require Import base gmap strings list.
From Stdlib Require Import Ascii Lia Sorted ZArith.
From S2P Require Import Prelude RustStr PolicyTypes Precedence UrlCanon RateLimit BTree Json Kernel PolicyEngine.
From S2P Require Import PolicyEngineFacts PolicyDecision Admission KillFence Outbox Approval ApprovalRecipe ApprovalLifecycle ApprovalStore ApprovalExecution.
From S2P Require Import Concrete.

(** ** Evaluation *)

Lemma kill_always_denies_witness :
  is_deny (evaluate_inner noon get_input [layered; halt_all] true true idle).1.1 = true
  ∧ (evaluate_inner noon get_input [layered; halt_all] true true idle).2 = idle.
Proof.
  destruct (kill_always_denies noon get_input [layered; halt_all] true true idle halt_all)
    as (H1 & H2 & _); [|reflexivity..|exact (conj H1 H2)].
  apply list_elem_of_further, list_elem_of_here.
Defined.

Lemma readonly_refines_spec_witness :
  decision_action (evaluate_inner noon get_input [layered; deny_get] true false idle).1.1
  = readonly_spec get_input (local_time noon 0) [layered; deny_get] true.
Proof. apply (readonly_refines_spec noon get_input (local_time noon 0)). reflexivity. Defined.

(** The policies whose limits are all at the top of allow rules. *)
Lemma flat_example : counter_flat true (matching_policies get_input [layered; deny_get]).
Proof.
  change (matching_policies get_input [layered; deny_get]) with [layered; deny_get].
  repeat split; intros r Hr Ha; right || idtac;
    repeat (apply elem_of_cons in Hr as [->|Hr]); try by apply elem_of_nil in Hr.
  all: try done. all: repeat constructor; by right.
Qed.

Lemma layered_flat : counter_flat true (matching_policies get_input [layered]).
Proof.
  change (matching_policies get_input [layered]) with [layered].
  repeat split; intros r Hr Ha; right || idtac;
    repeat (apply elem_of_cons in Hr as [->|Hr]); try by apply elem_of_nil in Hr.
  all: try done. all: repeat constructor; by right.
Qed.

Lemma deny_rule_always_denies_witness :
  is_deny (evaluate_inner noon get_input [layered; deny_get] true true idle).1.1 = true.
Proof.
  apply (deny_rule_always_denies noon get_input (local_time noon 0) _ _ _ _
           {| condition := MethodMatch ["GET"]; action := PA_Deny |});
    [reflexivity|exact flat_example| |reflexivity|reflexivity].
  change (matching_policies get_input [layered; deny_get]) with [layered; deny_get].
  do 2 apply list_elem_of_further. apply list_elem_of_here.
Defined.

Lemma denied_request_charges_nothing_witness :
  is_deny (evaluate_inner noon get_input [layered; deny_get] true true idle).1.1 = true
  ∧ rate_limits (evaluate_inner noon get_input [layered; deny_get] true true idle).2
    = rate_limits idle.
Proof.
  split; [reflexivity|].
  apply (denied_request_charges_nothing noon get_input (local_time noon 0));
    [reflexivity|exact flat_example|reflexivity].
Defined.

Lemma allow_respects_every_limit_witness :
  (evaluate_inner noon get_input [layered] true true idle).1.1 = PD_Allow
  ∧ ∃ r, r ∈ all_rules (matching_policies get_input [layered])
         ∧ allow_match get_input (local_time noon 0) true r = true.
Proof.
  split; [vm_compute; reflexivity|].
  apply (allow_respects_every_limit noon get_input (local_time noon 0) [layered] true idle);
    [reflexivity|exact layered_flat| | |vm_compute; reflexivity].
  - change (matching_policies get_input [layered]) with [layered].
    intros r g Hr Hg. repeat (apply elem_of_cons in Hr as [->|Hr]); try by apply elem_of_nil in Hr.
    all: apply list_elem_of_singleton in Hg; subst g; vm_compute; intuition discriminate.
  - change (fail_closed get_input [layered] true)
      with ((∀ p, p ∈ [layered] → default_action p = PA_Deny) ∧ ([layered] = [] → true = true)).
    split; [|done]. intros p Hp. by apply list_elem_of_singleton in Hp as ->.
Defined.

(** Limits under [or] are outside [counter_flat]: the request is allowed, and of the two limits
    only the first is charged. *)
Definition either_limit : Policy :=
  a_policy "either" [ {| condition := Or [RateLimit 5 60; RateLimit 100 86400]; action := PA_Allow |} ] PA_Deny.
Example nested_limits_are_not_all_charged :
  (evaluate_inner noon get_input [either_limit] true true idle).1.1 = PD_Allow
  ∧ size (rate_limits (evaluate_inner noon get_input [either_limit] true true idle).2) = 1%nat.
Proof. vm_compute. split; reflexivity. Qed.

Lemma eval_pair_refines_denote_witness :
  let c := Not (And [MethodMatch ["GET"]; UrlMatch "https://api.test/x"]) in
  (eval_pair noon get_input c true NARROW idle).1.1
  = (denote get_input (local_time noon 0) true c).1.
Proof.
  intros c.
  destruct (eval_pair_refines_denote noon get_input (local_time noon 0) c true idle) as [H _];
    [reflexivity|by right|exact H].
Defined.

Lemma resolve_lazily_equals_full_witness :
  let present o := bool_decide (o = RO_Prompt) in
  resolve_lazily (present RO_Kill) (λ t, st_ret (present t)) [PA_Deny] true tt
  = (resolve_precedence [RO_Prompt; RO_NoMatch] [PA_Deny] true, tt).
Proof.
  intros present. apply (resolve_lazily_equals_full present [RO_Prompt; RO_NoMatch]).
  intros o Ho. unfold present. rewrite bool_decide_eq_true. split.
  - intros ->. apply list_elem_of_here.
  - intros H. apply elem_of_cons in H as [->|H]; [done|]. by apply list_elem_of_singleton in H.
Defined.

(** ** Admission *)

Definition query : AdmissionQuery :=
  {| q_credential_alias := "github"; q_action := "merge";
     q_params := JObject [("url", JString "https://api.test/x"); ("method", JString "GET")];
     q_principal := None; q_spend := None |}.

Lemma halted_is_never_admitted_witness :
  let e := set_policies engine_new [layered; halt_all] in
  is_halted (policies e) (eval_input query (policy_url (q_params query))) = true
  ∧ kernel_admit (evaluate_for_admission noon e query true).1 false = Err PolicyDenied.
Proof.
  intros e. split; [reflexivity|]. apply (halted_is_never_admitted noon e query true false).
  reflexivity.
Defined.

(** A plain deny rule, observed: the request is admitted and no guard was waived. *)
Lemma observed_deny_waives_no_guard_witness :
  let e := set_policies engine_new [deny_get] in
  ∃ w, kernel_admit (evaluate_for_admission noon e query true).1 false = Ok w
    ∧ aw_kind w = AK_ObservedDeny ∧ query_subject query = Some (aw_subject w).
Proof.
  intros e. destruct (kernel_admit (evaluate_for_admission noon e query true).1 false) as [w|] eqn:E;
    [|vm_compute in E; discriminate E].
  assert (Hk : aw_kind w = AK_ObservedDeny) by (vm_compute in E; injection E as <-; reflexivity).
  exists w. split; [reflexivity|]. split; [exact Hk|].
  apply (observed_deny_waives_no_guard noon e query true w E Hk).
Defined.

(** ** Permits *)

(** A payload that is its own binding. *)
#[local] Instance self_dispatch : Dispatch DispatchedBinding := λ d, Some d.

Lemma direct_permit_binds_judged_request_witness :
  ∃ (w : AdmissionWitness) (a : Authorized DispatchedBinding) (d : DispatchedBinding),
    kernel_admit (evaluate_for_admission noon (set_policies engine_new [layered]) query false).1 false = Ok w
    ∧ authorize (direct w "r1" "acme" "merge") d = Ok a ∧ db_credential d = "github".
Proof.
  destruct (kernel_admit (evaluate_for_admission noon (set_policies engine_new [layered]) query false).1
              false) as [w|] eqn:E; [|vm_compute in E; discriminate E].
  assert (Ew : w = {| aw_kind := AK_Allow; aw_subject :=
      {| js_credential := "github"; js_principal := "";
         js_params_digest := "sha256:url=https://api.test/x;method=GET;" |} |})
    by (vm_compute in E; injection E as <-; reflexivity).
  pose (d := {| db_approved := false; db_approval_id := "direct:r1"; db_epoch := 0%Z;
                db_tenant := "acme"; db_principal := ""; db_credential := "github";
                db_action := "merge";
                db_params_digest := "sha256:url=https://api.test/x;method=GET;" |}).
  destruct (authorize (direct w "r1" "acme" "merge") d) as [a|] eqn:Ea;
    [|rewrite Ew in Ea; vm_compute in Ea; discriminate Ea].
  exists w, a, d. split; [reflexivity|]. split; [exact Ea|].
  destruct (direct_permit_binds_judged_request _ _ w "r1" "acme" "merge" d a E Ea)
    as (d' & s & Hd & Hs & _ & _ & _ & _ & _ & Hc & _).
  injection Hd as <-. vm_compute in Hs. injection Hs as <-. exact Hc.
Defined.

(** A grant used within its window, for the request that was judged again. *)
Definition grant : Granted :=
  {| gr_basis := NumericThreshold 2 2;
     gr_binding :=
       {| eb_approval_id := "appr_7"; eb_epoch := 1; eb_tenant := "acme"; eb_principal := "";
          eb_credential := "github"; eb_action := "merge";
          eb_params_digest := "sha256:url=https://api.test/x;method=GET;";
          eb_rule_digest := "sha256:" |};
     gr_issued_at := 1020; gr_expires_at := 1320 |}.

Lemma approved_permit_binds_grant_witness :
  let ev := (evaluate_readonly_for_admission noon (set_policies engine_new [layered]) query).1 in
  ∃ p (a : Authorized DispatchedBinding) d,
    approved grant ev 1030 = Ok p ∧ authorize p d = Ok a ∧ same_binding (gr_binding grant) d.
Proof.
  intros ev. destruct (approved grant ev 1030) as [p|] eqn:E; [|vm_compute in E; discriminate E].
  pose (d := {| db_approved := true; db_approval_id := "appr_7"; db_epoch := 1;
                db_tenant := "acme"; db_principal := ""; db_credential := "github";
                db_action := "merge";
                db_params_digest := "sha256:url=https://api.test/x;method=GET;" |}).
  destruct (authorize p d) as [a|] eqn:Ea;
    [|vm_compute in E; injection E as <-; vm_compute in Ea; discriminate Ea].
  exists p, a, d. split; [reflexivity|]. split; [exact Ea|].
  destruct (approved_permit_binds_grant grant ev 1030 p d a E Ea) as (_ & _ & _ & d' & Hd & _ & H).
  injection Hd as <-. exact H.
Defined.

(** ** URLs *)

Lemma canonical_url_idempotent_witness :
  canonical_url "https://api.test/%7Eme%2f" = Some "https://api.test/~me%2F"
  ∧ canonical_url "https://api.test/~me%2F" = Some "https://api.test/~me%2F".
Proof.
  split; [reflexivity|].
  apply (canonical_url_idempotent "https://api.test/%7Eme%2f" "https://api.test/~me%2F").
  reflexivity.
Defined.

Lemma host_prefix_stops_at_host_boundary_witness :
  canonical_matches "https://api.test/x" "https://api.test*" = true
  ∧ canonical_matches "https://api.test.evil.net/x" "https://api.test*" ≠ true.
Proof.
  split.
  - apply (host_prefix_stops_at_host_boundary "https://api.test/x" "https" "api.test");
      [reflexivity..|]. exists "/x". split; [reflexivity|]. right.
    exists "/"%char, "x". split; [reflexivity|]. apply list_elem_of_here.
  - intros H. apply (host_prefix_stops_at_host_boundary "https://api.test.evil.net/x" "https" "api.test")
      in H as (rest & Hr & Hc); [|reflexivity..].
    injection Hr as <-. destruct Hc as [?|(c & r & [= <- <-] & Hc)]; [done|].
    by repeat (apply elem_of_cons in Hc as [Hc|Hc]); try by apply elem_of_nil in Hc.
Defined.

(** A deny pattern for [/admin] still matches with a parameter appended. *)
Lemma broadened_match_survives_suffix_witness :
  url_matches_for "https://api.test/admin/?a=1&b=2" "https://api.test/admin" true = true.
Proof.
  apply (broadened_match_survives_suffix "https://api.test/admin/?a=1&b=2" "https://api.test/admin"
           "https://api.test/admin/" "https://api.test/admin" "" "?a=1&b=2");
    [reflexivity|reflexivity|right; by eexists|constructor| |reflexivity].
  apply list_elem_of_further, list_elem_of_here.
Defined.

(** ** Rate limits *)

Lemma fixed_window_bounds_traffic_witness :
  let times := [seconds 0; seconds 1; seconds 2; seconds 61; seconds 62] in
  (count_in (seconds 1) (seconds 1 + 60 * nanos_per_sec) (admitted_times 2 60 None times) <= 2 * 2)%Z.
Proof.
  intros times. apply (fixed_window_bounds_traffic 2 60 times (seconds 1)); [done|done|].
  repeat constructor; vm_compute; discriminate.
Defined.

(** ** The kill fence *)

Definition work : KillFenceQuery :=
  {| kq_credential_alias := "github"; kq_principal := None; kq_admitted_epoch := 0 |}.

(** Killed, lifted and collected with the work still live. *)
Lemma killed_work_stays_refused_witness :
  let ops := [FO_delete "halt"; FO_gc (seconds 200000) [0%Z]] in
  is_clear (kill_fence_check (foldl fence_step (store_policy 0 empty_fence halt_all) ops) work)
  = false.
Proof.
  intros ops.
  apply (killed_work_stays_refused empty_fence 0 halt_all work ops);
    [exact empty_fence_ok|reflexivity|vm_compute; discriminate|reflexivity|].
  repeat constructor.
Defined.

(** A mark of a lifted kill past its grace, with younger work: the mark goes, the
    verdict stays. *)
Lemma gc_preserves_live_verdicts_witness :
  let v := foldl fence_step empty_fence [FO_store 0%Z halt_all; FO_delete "halt"] in
  let q := {| kq_credential_alias := "github"; kq_principal := None; kq_admitted_epoch := 1 |} in
  kf_marks (fv_fence (gc_marks (seconds 200000) [1%Z] v)) = []
  ∧ kill_fence_check (gc_marks (seconds 200000) [1%Z] v) q = kill_fence_check v q.
Proof.
  intros v q. split; [vm_compute; reflexivity|].
  apply (gc_preserves_live_verdicts (seconds 200000) [1%Z] v q); [|apply list_elem_of_here].
  apply fence_steps_inv, empty_fence_ok.
Defined.


Open Scope Z_scope.

(** ** The lifecycle *)

(** An identity without an aggregator key. *)
Lemma no_key identity : aggregator_key_prefix identity = None → key_lower identity.
Proof. intros H p. by rewrite H. Qed.

Lemma once_reachable : reachable once.
Proof.
  apply (reach_step (requested None)); [by apply reach_open|].
  apply step_approve, no_key. reflexivity.
Qed.

Lemma twice_reachable : reachable twice.
Proof. apply (reach_step once); [exact once_reachable|]. apply step_approve, no_key. reflexivity. Qed.

Lemma ruled_reachable : reachable ruled.
Proof.
  apply (reach_step ruled_once); [|apply step_approve, no_key; reflexivity].
  apply (reach_step (requested (Some pair_rule))); [by apply reach_open|].
  apply step_approve, no_key. reflexivity.
Qed.

Lemma vetoed_reachable : reachable vetoed.
Proof. apply (reach_step once); [exact once_reachable|]. apply step_deny. Qed.

(** Two named approvers under dual control; one senior and one teammate under a rule. *)
Lemma approved_means_enough_distinct_people_witness :
  (2 <= len_as_u32 (ap_signoffs twice)
   ∧ NoDup ((λ s, person_key (so_approver_identity s)) <$> ap_signoffs twice))
  ∧ ∃ r picks, r ∈ recipes pair_rule ∧ (0 < length (slots r))%nat
      ∧ NoDup ((λ s, person_key (so_approver_identity s)) <$> picks)
      ∧ (∀ s, s ∈ picks → s ∈ ap_signoffs ruled ∧ counted_human s)
      ∧ Forall2 (λ s slot, fills (human_class s) slot = true) picks (slots r).
Proof.
  split.
  - pose proof (approved_means_enough_distinct_people twice twice_reachable
      ltac:(vm_compute; reflexivity)) as H.
    rewrite (eq_refl : ap_approval_rule twice = None),
      (eq_refl : effective_required_approvals twice = 2) in H.
    destruct H as (H & _ & Hn & _). exact (conj H Hn).
  - pose proof (approved_means_enough_distinct_people ruled ruled_reachable
      ltac:(vm_compute; reflexivity)) as H.
    rewrite (eq_refl : ap_approval_rule ruled = Some pair_rule) in H.
    apply H; [vm_compute; discriminate|repeat constructor; vm_compute; discriminate].
Defined.

Lemma deny_wins_witness :
  terminal_deny vetoed false = true ∧ ap_status vetoed = AS_Denied.
Proof.
  split; [reflexivity|]. apply (deny_wins vetoed vetoed_reachable); [reflexivity|].
  exists (signoff_of (seconds 1020) "verified:bob" (says "verified:bob" None) false).
  split; [|reflexivity]. vm_compute. apply list_elem_of_further, list_elem_of_here.
Defined.

Lemma contributing_signoffs_do_not_mix_witness :
  same_aggregator_key_guard_active twice = true
  ∧ same_provenance twice (ap_signoffs twice) ∧ NoDup (contributing_keys twice (ap_signoffs twice)).
Proof.
  split; [reflexivity|].
  apply (contributing_signoffs_do_not_mix twice twice_reachable). reflexivity.
Defined.

Lemma approved_grant_can_be_rederived_witness :
  ap_status twice = AS_Approved ∧ is_Some (grant_basis twice).
Proof.
  split; [reflexivity|]. apply (approved_grant_can_be_rederived twice twice_reachable). reflexivity.
Defined.

Lemma grant_rests_on_stored_evidence_witness :
  ∃ g, grant_witness_inner (seconds 1030) twice 1 true = Some g
    ∧ eb_credential (gr_binding g) = "github"
    ∧ ∃ d, ap_decided_at twice = Some d ∧ gr_issued_at g = timestamp d.
Proof.
  destruct (grant_witness_inner (seconds 1030) twice 1 true) as [g|] eqn:E.
  - exists g. split; [reflexivity|].
    destruct (grant_rests_on_stored_evidence (seconds 1030) twice 1 true g E)
      as (_ & _ & (_ & _ & _ & Hc & _) & Hl).
    destruct (Hl eq_refl) as (d & Hd & Hi & _). split; [exact Hc|]. exists d. by split.
  - vm_compute in E. discriminate E.
Defined.

Lemma decided_is_final_witness :
  ap_step vetoed (approve (seconds 1030) vetoed (says "verified:carol" None)).2
  ∧ progress (approve (seconds 1030) vetoed (says "verified:carol" None)).2 = progress vetoed.
Proof.
  assert (H : ap_step vetoed (approve (seconds 1030) vetoed (says "verified:carol" None)).2)
    by (apply step_approve, no_key; reflexivity).
  split; [exact H|]. destruct (decided_is_final vetoed _ H) as (_ & _ & Hf & _).
  apply Hf. left. reflexivity.
Defined.

Lemma enforced_sod_refuses_self_approval_witness :
  approve (seconds 1010) (requested None) (says "verified:alice" None) = (Ok tt, once)
  ∧ person_key "verified:alice" ≠ to_ascii_lowercase "bot".
Proof.
  split; [reflexivity|].
  apply (enforced_sod_refuses_self_approval (seconds 1010) (requested None)
           (says "verified:alice" None) once "bot"); [reflexivity..| |reflexivity].
  apply list_elem_of_here.
Defined.

(** ** Recipes *)

Lemma recipe_satisfied_iff_assignment_witness :
  let r := {| terms := [ {| rt_class := Senior; rt_count := 1 |};
                         {| rt_class := Teammate; rt_count := 1 |} ] |} in
  ∃ l, l ⊆+ [Senior; Senior] ∧ Forall2 (λ c slot, fills c slot = true) l (slots r).
Proof.
  intros r.
  destruct (proj1 (recipe_satisfied_iff_assignment r 2 0 0
    ltac:(repeat constructor; vm_compute; discriminate) ltac:(vm_compute; discriminate)
    ltac:(vm_compute; discriminate) ltac:(vm_compute; discriminate))) as [_ H];
    [reflexivity|exact H].
Defined.

(** ** Execution *)

(** The claim of the approved request, at second 1030. *)
Definition claim_now : result (option ExecutionClaim) StorageError * Vault :=
  claim_approval_for_execution (seconds 1030) "appr_7" (vault_of twice).

Lemma claim_is_fenced_witness :
  ∃ c v', claim_now = (Ok (Some c), v') ∧ cl_epoch c = ap_execution_epoch twice + 1
    ∧ ∃ a', record_of "appr_7" v' = Some a' ∧ ap_executing a' = true.
Proof.
  destruct claim_now as [[[c|]|e] v'] eqn:E; [|vm_compute in E; discriminate E..].
  exists c, v'. split; [reflexivity|]. unfold claim_now in E.
  destruct (claim_is_fenced (seconds 1030) "appr_7" (vault_of twice) c v' E)
    as (a & Ha & _ & _ & _ & _ & Hep & _ & _ & _ & a' & Ha' & Hx & _).
  assert (Ea : a = twice) by (vm_compute in Ha; injection Ha as <-; reflexivity).
  subst a. split; [exact Hep|]. exists a'. split; [exact Ha'|exact Hx].
Defined.

(** After one claim a second worker starts nothing. *)
Lemma action_starts_at_most_once_witness :
  ∃ c v1 v2 l, claim_now = (Ok (Some c), v1)
    ∧ vsteps "appr_7" (λ _, True) commits_outcome (vault_of twice) (c :: l) v2
    ∧ (length (fresh_claims (c :: l)) <= 1)%nat.
Proof.
  destruct claim_now as [[[c|]|e] v1] eqn:E; [|vm_compute in E; discriminate E..].
  pose (r := claim_approval_for_execution (seconds 1031) "appr_7" v1).
  exists c, v1, r.2, (granted_claims "appr_7" "appr_7" r.1 ++ []). split; [reflexivity|].
  assert (H : vsteps "appr_7" (λ _, True) commits_outcome (vault_of twice)
                (c :: granted_claims "appr_7" "appr_7" r.1 ++ []) r.2).
  { apply (vsteps_cons _ _ _ (vault_of twice) v1 r.2 [c]).
    - pose proof (vs_claim "appr_7" (λ _, True) commits_outcome (vault_of twice)
        (seconds 1030) "appr_7") as Hs. unfold claim_now in E. rewrite E in Hs. exact Hs.
    - eapply vsteps_cons; [apply vs_claim|apply vsteps_nil]. }
  split; [exact H|].
  apply (proj1 (action_starts_at_most_once "appr_7" (λ _, True) (vault_of twice) _ r.2 twice
    H eq_refl)).
Defined.

(** The claim re-taken 130 seconds later fences the first worker off. *)
Lemma superseded_claim_cannot_commit_witness :
  ∃ c c2 v1 v2, claim_now = (Ok (Some c), v1)
    ∧ claim_approval_for_execution (seconds 1160) "appr_7" v1 = (Ok (Some c2), v2)
    ∧ (finalize_execution (seconds 1170) "appr_7" (cl_epoch c) (run (requested None)) v2).2 = v2.
Proof.
  destruct claim_now as [[[c|]|e] v1] eqn:E; [|vm_compute in E; discriminate E..].
  assert (Ev : claim_now.2 = v1) by (by rewrite E).
  destruct (claim_approval_for_execution (seconds 1160) "appr_7" v1) as [[[c2|]|e] v2] eqn:E2;
    [|rewrite <- Ev in E2; vm_compute in E2; discriminate E2..].
  exists c, c2, v1, v2. split; [reflexivity|]. split; [exact E2|]. unfold claim_now in E.
  apply (superseded_claim_cannot_commit "appr_7" (λ _, True) commits_outcome (seconds 1030)
           (vault_of twice) c v1 [c2] v2 (seconds 1170) (run (requested None)) E); [|done].
  pose proof (vs_claim "appr_7" (λ _, True) commits_outcome v1 (seconds 1160) "appr_7") as Hs.
  rewrite E2 in Hs. exact (vsteps_cons _ _ _ _ _ _ [c2] [] Hs (vsteps_nil _ _ _ _)).
Defined.

(** A kill stored and lifted between the grant and the claim. *)
Lemma killed_approval_never_starts_witness :
  ∃ v1 v2 l, vault_store_policy (seconds 1025) halt_all (vault_of twice) = (Ok tt, v1)
    ∧ vsteps "appr_7" (keeps_scope "halt" (claim_query twice)) honest_report v1 l v2
    ∧ fresh_claims l = [].
Proof.
  destruct (vault_store_policy (seconds 1025) halt_all (vault_of twice)) as [[[]|e] v1] eqn:E;
    [|vm_compute in E; discriminate E].
  pose (v1' := (vault_delete_policy (seconds 1026) "halt" v1).2).
  pose (r := claim_approval_for_execution (seconds 1030) "appr_7" v1').
  assert (H : vsteps "appr_7" (keeps_scope "halt" (claim_query twice)) honest_report v1
                ([] ++ granted_claims "appr_7" "appr_7" r.1 ++ []) r.2).
  { eapply vsteps_cons; [apply vs_unpolicy|].
    eapply vsteps_cons; [apply vs_claim|apply vsteps_nil]. }
  exists v1, r.2, (granted_claims "appr_7" "appr_7" r.1 ++ []).
  split; [reflexivity|]. split; [exact H|].
  apply (killed_approval_never_starts "appr_7" halt_all (seconds 1025) (vault_of twice) v1 _ r.2
           twice); [reflexivity|exact empty_fence_ok|reflexivity|vm_compute; discriminate
                  |reflexivity|exact E|exact H].
Defined.

(** The same request still running 980 seconds after its decision, past its window. *)
Lemma lapsed_running_claim_blocks_the_sweep_witness :
  let v := claim_now.2 in
  (sweep_approval_lifecycle (seconds 2000) v).2 = v
  ∧ (∀ c, (claim_approval_for_execution (seconds 2000) "appr_7" v).1 ≠ Ok (Some c)).
Proof.
  intros v.
  destruct (lapsed_running_claim_blocks_the_sweep "appr_7" v (claimed_record (seconds 1030) twice 1)
    (seconds 2000) (seconds 2000)) as ([_ Hs] & _ & Hc & _);
    [vm_compute; reflexivity|reflexivity..|vm_compute; reflexivity|vm_compute; discriminate|].
  exact (conj Hs Hc).
Defined.
