(* ===== verification/WitnessesOutbox.v ===== *)
(** * The outbox and the refusal recorder, exercised

    Each lemma applies one theorem about the outbox to a log of three events of two
    subjects and discharges its hypotheses by evaluation.  In the last part an agent is
    refused twice in one window and another once, and the process stops while averin is
    unreachable. *)

From stdpp Require Import base gmap strings list pretty.
From Stdlib Require Import Ascii ZArith Lia.
From S2P Require Import Prelude RustStr BTree Json Outbox Concrete.
From S2P Require Import PolicyEngine Approval Catalog Refusals RefusalDrain RefusalFacts RefusalShutdown.

Open Scope Z_scope.

Lemma two_subjects_ok : outbox_ok two_subjects.
Proof.
  split; [by vm_compute; intuition (try discriminate)|].
  split; [split; vm_compute; discriminate|].
  repeat constructor; vm_compute; discriminate.
Qed.

Lemma sequences_never_reused_witness :
  let r := append 40 "a" "t" JNull two_subjects in
  let c' := foldl outbox_step r.2 [OO_gc 50 0 0%nat []] in
  let r' := append 60 "a" "t" JNull c' in
  outbox c' = [] ∧ outbox_seq two_subjects < r.1 < r'.1.
Proof.
  intros r c' r'. split; [vm_compute; reflexivity|].
  apply (sequences_never_reused 3 two_subjects [OO_gc 50 0 0%nat []]
           40 60 "a" "a" "t" "t" JNull JNull);
    [exact two_subjects_ok|vm_compute; discriminate|repeat constructor|vm_compute; discriminate].
Defined.

(** Three pages: one event, then an append and a collection, a page of nothing, and the rest. *)
Definition three_turns : list (list outbox_op * option nat) :=
  [([], Some 1%nat); ([OO_append 50 "a" "t" JNull; OO_gc 50 0 9%nat []], Some 0%nat); ([], None)].

(** Two workers one second apart, with a third event of subject [a] between them. *)
Lemma claims_keep_subject_order_witness :
  let r := claim (seconds 100) 10 60 two_subjects in
  let r' := claim (seconds 101) 10 60 (foldl outbox_step r.2 [OO_append 50 "a" "t" JNull]) in
  subject <$> r.1.1 = ["a"; "b"]
  ∧ ∀ e e', e ∈ r.1.1 → e' ∈ r'.1.1 → subject e ≠ subject e'.
Proof.
  intros r r'. split; [vm_compute; reflexivity|].
  pose proof (claims_keep_subject_order (seconds 100) (seconds 101) 10 10 60 60 two_subjects
    [OO_append 50 "a" "t" JNull] two_subjects_ok ltac:(vm_compute; discriminate)
    ltac:(repeat constructor) ltac:(vm_compute; reflexivity)) as H.
  fold r in H. destruct r as [[cl dirty] c1] eqn:Er. cbn [snd] in r'. unfold r'.
  destruct (claim (seconds 101) 10 60 _) as [[cl' dirty'] c2]. apply H.
Defined.

Lemma failing_event_is_dead_lettered_once_witness :
  (fail_all [(100, 101, None); (200, 201, None); (300, 301, None)] 1 2 two_subjects).1
  = [false; true; false].
Proof.
  pose proof (failing_event_is_dead_lettered_once
    [(100, 101, None); (200, 201, None); (300, 301, None)] 1 2 two_subjects _
    eq_refl eq_refl eq_refl ltac:(split; vm_compute; discriminate)) as H.
  destruct (fail_all _ 1 2 two_subjects) as [flags c']. destruct H as [-> _].
  vm_compute. reflexivity.
Defined.

Lemma gc_drops_only_a_safe_prefix_witness :
  let r := gc_capped (seconds 100) 0 1 [] two_subjects in
  ∃ dropped, outbox two_subjects = dropped ++ outbox r.2 ∧ (length (outbox r.2) <= 1)%nat.
Proof.
  intros r.
  pose proof (gc_drops_only_a_safe_prefix (seconds 100) 0 1 [] two_subjects two_subjects_ok) as H.
  fold r in H. assert (Hb : cap_blocked r.1.1 = false) by (vm_compute; reflexivity).
  destruct r as [[out dirty] c'] eqn:Er. destruct H as (dropped & Hd & _ & _ & _ & _ & Hl & _).
  exists dropped. split; [exact Hd|exact (Hl Hb)].
Defined.

(** The intent [i] drained again after a sweep that protects it. *)
Lemma intent_is_drained_exactly_once_witness :
  let c1 := (append_deduped 40 "i" "a" "t" JNull two_subjects).2 in
  let c2 := foldl outbox_step c1 [OO_gc (seconds 9) 0 0%nat ["i"]; OO_append 50 "z" "t" JNull] in
  append_deduped 60 "i" "a" "t" JNull c2 = ((4, false), c2).
Proof.
  intros c1 c2.
  apply (intent_is_drained_exactly_once 3 "i" 40 60 "a" "a" "t" "t" JNull JNull two_subjects
           [OO_gc (seconds 9) 0 0%nat ["i"]; OO_append 50 "z" "t" JNull] 4 true c1);
    [exact two_subjects_ok|vm_compute; discriminate|vm_compute; discriminate
    |repeat constructor|repeat constructor|vm_compute; reflexivity].
Defined.

(** ** Refusals and a stopping process *)

Definition numbered (n : nat) : string := pretty n.
#[export] Instance numbered_inj : Inj (=) (=) numbered.
Proof. unfold numbered. apply _. Qed.

Definition refused_agent (agent : string) : RefusalCtx :=
  refusal_ctx RE_Execute (Some ("p-" +:+ agent, Some agent)) "http.request".
Definition after_refusals : RefusalRecorder :=
  note_at numbered (refused_agent "bob") RC_PolicyDeny (seconds 3) 3 3
    (note_at numbered (refused_agent "alice") RC_RateLimit (seconds 2) 2 2
       (note_at numbered (refused_agent "alice") RC_RateLimit (seconds 1) 1 1 (recorder_new default_refusal_settings 0))).
Definition unreachable_client : SealClient :=
  {| sc_refusals := after_refusals; sc_pending_gaps := []; sc_receipt_gaps := 0; sc_receipt_gaps_overflowed := 0 |}.

(** The first record of each drain is sealed, the second cannot be posted, the third task
    is still running when the budget ends. *)
Definition unlucky (_ : nat) : DrainInput := (seconds 4, 4, [(0%nat, TE_Sealed); (1%nat, TE_Failed SE_Request)]).
Example flush_of_three :
  let '(sealed, s') := flush_refusals_on_shutdown numbered "proj" (seconds 4) 4 unlucky unreachable_client in
  sealed = 1 ∧ (gp_detail <$> sc_pending_gaps s')
    = ["class=policy_deny entry=execute attempts=1: the process stopped before the record could be sealed";
       "class=rate_limit entry=execute attempts=1: the process stopped before the record could be sealed"].
Proof. vm_compute. auto. Qed.

Lemma shutdown_loses_no_refusal_witness :
  rs_enabled default_refusal_settings = true
  ∧ let '(sealed, s') := flush_refusals_on_shutdown numbered "proj" (seconds 4) 4 unlucky unreachable_client in
    ∃ gone' over',
      recorder_run numbered default_refusal_settings 0 (sc_refusals s')
        [(refused_agent "bob", RC_PolicyDeny); (refused_agent "alice", RC_RateLimit); (refused_agent "alice", RC_RateLimit)]
        (gone' ++ []) (over' ++ [])
      ∧ (∀ c, held c (sc_refusals s') = 0
              ∧ total (noted_weight c) [(refused_agent "bob", RC_PolicyDeny); (refused_agent "alice", RC_RateLimit);
                                        (refused_agent "alice", RC_RateLimit)]
                = total (weight c) (gone' ++ []) + total (gap_weight c) (over' ++ []))
      ∧ Z.of_nat (length gone' + length over') = sealed + (sc_receipt_gaps s' - 0).
Proof.
  split; [reflexivity|].
  apply (shutdown_loses_no_refusal numbered "proj" default_refusal_settings 0 unreachable_client
    [(refused_agent "bob", RC_PolicyDeny); (refused_agent "alice", RC_RateLimit); (refused_agent "alice", RC_RateLimit)] [] []
    (seconds 4) 4 unlucky); [reflexivity|].
  apply run_note, run_note, run_note, run_new.
Defined.
