(* ===== verification/WitnessesTokens.v ===== *)
(** * Tokens, keys and vault collections, exercised

    Each lemma applies one theorem about tokens, the auth manager, idempotency records,
    native drafts or the credential, role and key collections to a concrete state or to
    concrete operations, and discharges its hypotheses by evaluation. *)

From stdpp Require Import base gmap strings list.
From Stdlib Require Import Ascii ZArith Lia.
From S2P Require Import Prelude RustStr UrlCanon Json Egress Indexed Tokens Auth Concrete.

Open Scope Z_scope.

(** A token for two uses within ten minutes, minted at second 1000. *)
Definition random : string := "0123456789abcdef0123456789abcdef".

Definition two_uses : NewUseToken :=
  {| nu_name := "deploy"; nu_credential_scope := "github"; nu_action_scope := Some "http.request";
     nu_max_uses := Some 2; nu_require_approval := false; nu_expires_in := Some (seconds 600) |}.

Definition minted : UseToken :=
  match create_use_token random "7" (seconds 1000) two_uses with
  | Some (_, t) => t
  | None =>
      {| ut_id := ""; ut_token_prefix := ""; ut_token_hash := ""; ut_name := "";
         ut_credential_scope := ""; ut_action_scope := None; ut_max_uses := None; ut_uses := 0;
         ut_require_approval := false; ut_expires_at := None; ut_created_at := 0;
         ut_last_used_at := None; ut_revoked := false; ut_agent_label := None;
         ut_dual_control := false; ut_owner_identity := None; ut_tenant := None |}
  end.

(** The same token bound to a workload. *)
Definition bound (id hash : string) : UseToken :=
  {| ut_id := id; ut_token_prefix := ""; ut_token_hash := hash; ut_name := "w";
     ut_credential_scope := "*"; ut_action_scope := None; ut_max_uses := None; ut_uses := 0;
     ut_require_approval := false; ut_expires_at := None; ut_created_at := seconds 1000;
     ut_last_used_at := None; ut_revoked := false; ut_agent_label := Some "bot";
     ut_dual_control := false; ut_owner_identity := None; ut_tenant := Some "acme" |}.

Definition with_minted : TokenVault := token_step no_tokens (TO_store Written minted).

Lemma with_minted_reachable : token_reachable with_minted.
Proof. apply TR_step; [constructor|]. by vm_compute. Qed.

(** A use; one that is not written; one that is written and reported as failed, which the
    limit of two then counts; and a last one that is refused. *)
Definition attempts : list TokenOp :=
  [TO_consume Written (seconds 1001) "ut_7"; TO_consume Unwritten (seconds 1002) "ut_7"; TO_reload;
   TO_consume Unreported (seconds 1003) "ut_7"; TO_consume Written (seconds 1004) "ut_7"].

Lemma bounded_token_is_used_at_most_max_uses_witness :
  uses_handed_out "ut_7" with_minted attempts = [1]
  ∧ uses_handed_out "ut_7" with_minted attempts `sublist_of` seqZ 1 2.
Proof.
  split; [vm_compute; reflexivity|].
  apply (bounded_token_is_used_at_most_max_uses "ut_7" attempts with_minted minted 2);
    [vm_compute; reflexivity|vm_compute; reflexivity|vm_compute; split; discriminate
    |vm_compute; discriminate|repeat constructor].
Defined.

Lemma unusable_token_stays_unusable_witness :
  uses_handed_out "ut_7" with_minted [TO_consume Written (seconds 1600) "ut_7"] = [].
Proof.
  apply (unusable_token_stays_unusable "ut_7" (seconds 1600)
           [TO_consume Written (seconds 1600) "ut_7"] with_minted minted);
    [vm_compute; reflexivity|vm_compute; discriminate|repeat constructor|repeat constructor; vm_compute; discriminate].
Defined.

Lemma revoked_token_is_never_used_witness :
  uses_handed_out "ut_7" (set_use_token_revoked Written "ut_7" with_minted).2 attempts = [].
Proof.
  apply (revoked_token_is_never_used "ut_7" Written with_minted (revoked_token minted)
           (set_use_token_revoked Written "ut_7" with_minted).2 attempts);
    [vm_compute; reflexivity|repeat constructor].
Defined.

Lemma hash_lookup_is_exact_witness :
  get_use_token_by_hash with_minted (ut_token_hash minted) = Some minted.
Proof.
  apply (hash_lookup_is_exact with_minted (ut_token_hash minted) minted with_minted_reachable).
  split; vm_compute; reflexivity.
Defined.

(** Two days later the expired token is dropped. *)
Lemma gc_drops_only_dead_tokens_witness :
  let r := gc_use_tokens Written (seconds 200000) (seconds 200000) with_minted in
  get_use_token r.2 "ut_7" = None
  ∧ (get_use_token r.2 "ut_7" = Some minted
     ∨ get_use_token r.2 "ut_7" = None
       ∧ DEAD_USE_TOKEN_GRACE_SECS < num_seconds (seconds 200000 - ut_created_at minted)
       ∧ ∀ later, seconds 200000 <= later → check_usable later minted ≠ Ok tt).
Proof.
  intros r. split; [vm_compute; reflexivity|].
  apply (gc_drops_only_dead_tokens Written (seconds 200000) (seconds 200000) with_minted 1%nat r.2 "ut_7" minted);
    [exact with_minted_reachable|vm_compute; reflexivity|vm_compute; reflexivity].
Defined.

(** Two generations of a workload, of which the second is kept. *)
Definition generations : TokenVault :=
  token_step (token_step no_tokens (TO_store Written (bound "ut_a" "ha"))) (TO_store Written (bound "ut_b" "hb")).

Lemma generations_reachable : token_reachable generations.
Proof.
  apply TR_step; [apply TR_step; [constructor|]|]; split; vm_compute; reflexivity.
Qed.

Lemma retire_leaves_only_kept_generations_witness :
  let r := retire_workload_generations Written (seconds 2000) "acme" "bot" ["ut_b"] generations in
  get_use_token r.2 "ut_a" = Some (revoked_token (bound "ut_a" "ha"))
  ∧ get_use_token r.2 "ut_b" = Some (bound "ut_b" "hb")
  ∧ count_live_workload_tokens (seconds 2000) "acme" "bot" r.2 = 1%nat.
Proof.
  intros r.
  destruct (retire_leaves_only_kept_generations Written (seconds 2000) "acme" "bot" ["ut_b"] generations
    2 1 r.2 generations_reachable ltac:(vm_compute; reflexivity)) as (_ & Hc & Hl).
  split_and!.
  - rewrite (Hl "ut_a" (bound "ut_a" "ha")) by (vm_compute; reflexivity). vm_compute. reflexivity.
  - rewrite (Hl "ut_b" (bound "ut_b" "hb")) by (vm_compute; reflexivity). vm_compute. reflexivity.
  - lia.
Defined.

Lemma exchange_id_is_accepted_once_witness :
  let r := consume_workload_jti Written "j1" 500 100 no_tokens in
  r.1 = Ok true
  ∧ (consume_workload_jti Written "j1" 900 400 (run_tokens r.2 [TO_jti Written "j2" 300 200])).1 ≠ Ok true.
Proof.
  intros r. split; [reflexivity|].
  apply (exchange_id_is_accepted_once Written "j1" 500 100 no_tokens r.2 [TO_jti Written "j2" 300 200]
           Written 900 400); [vm_compute; reflexivity|repeat constructor; vm_compute; reflexivity|lia].
Defined.

Lemma minted_token_authenticates_witness :
  get_use_token_by_hash with_minted (hash_token "vut_MDEyMzQ1Njc4OWFiY2RlZjAxMjM0NTY3") = Some minted
  ∧ check_usable (seconds 1599) minted = Ok tt.
Proof.
  destruct (minted_token_authenticates (GC:=literal_glob) (EN:=real_encoders) (SD:=plain_digest) random "7" (seconds 1000) two_uses
    "vut_MDEyMzQ1Njc4OWFiY2RlZjAxMjM0NTY3" minted no_tokens (seconds 1599)
    ltac:(vm_compute; reflexivity) ltac:(vm_compute; reflexivity)
    ltac:(vm_compute; split; discriminate) ltac:(vm_compute; reflexivity)) as (_ & H & Hu & _).
  split; [exact H|exact Hu].
Defined.

(** A stored role that tries to take the name of a built-in one, and a custom role. *)
Definition impostor : Role := role_new "r1" 0 "admin" [].
Definition deployer : Role := role_new "r2" 0 "deployer" [P_Read; P_Execute].
Definition loaded : AuthManager := from_data 0 [impostor; deployer] [].

Lemma loaded_reachable : manager_reachable loaded.
Proof.
  apply MR_load. split_and!; try (by apply NoDup_nil).
  - apply (bool_decide_unpack _). by vm_compute.
  - apply (bool_decide_unpack _). by vm_compute.
  - intros r Hr. apply elem_of_cons in Hr as [->|Hr]; [by apply (bool_decide_unpack _); vm_compute|].
    apply list_elem_of_singleton in Hr as ->. by apply (bool_decide_unpack _); vm_compute.
Qed.

Lemma builtin_roles_are_permanent_witness :
  ∃ r, get_role loaded "admin" = Some r ∧ role_permissions r = all_permissions.
Proof.
  destruct (builtin_roles_are_permanent loaded "admin" loaded_reachable) as (r & H & _ & _ & Hp & _);
    [constructor|]. exists r. split; [exact H|exact Hp].
Defined.

(** A key for the custom role, used once, next to another key. *)
Definition key_ops : list AuthOp :=
  [AO_touch (seconds 1500) (hash_key "vk_MDEyMzQ1Njc4OWFiY2RlZjAxMjM0NTY3");
   AO_create_role "r3" 0 "ops" [P_Admin] [] None; AO_delete_role "ops"; AO_revoke "k9"].

Definition keyed : option (result (string * ApiKey) AuthManagerError * AuthManager) :=
  create_api_key_scoped random "k1" (seconds 1000) "ci" "deployer" (Some (seconds 600)) None loaded.

Definition the_key : ApiKey :=
  {| ak_id := "k1"; ak_key_prefix := "vk_MDEyMzQ1"; ak_name := "ci"; ak_role_id := "r2";
     ak_key_hash := hash_key "vk_MDEyMzQ1Njc4OWFiY2RlZjAxMjM0NTY3";
     ak_expires_at := Some (seconds 1600); ak_created_at := seconds 1000; ak_last_used_at := None;
     ak_agent_label := None; ak_owner_identity := None; ak_tenant := None; ak_workload_id := None |}.

Definition with_key : AuthManager := match keyed with Some r => r.2 | None => loaded end.

Lemma created_key_validates_witness :
  ∃ k r, validate_key (seconds 1599) "vk_MDEyMzQ1Njc4OWFiY2RlZjAxMjM0NTY3" (run_auth with_key key_ops)
         = Ok (k, r) ∧ ak_id k = "k1" ∧ get_role loaded "deployer" = Some r.
Proof.
  apply (created_key_validates loaded random "k1" (seconds 1000) "ci" "deployer" (Some (seconds 600))
           None "vk_MDEyMzQ1Njc4OWFiY2RlZjAxMjM0NTY3" the_key with_key key_ops (seconds 1599) loaded_reachable).
  - split; [vm_compute; reflexivity|]. intros h _. vm_compute. reflexivity.
  - vm_compute. reflexivity.
  - vm_compute. intuition discriminate.
  - vm_compute. reflexivity.
Defined.


(** ** The collections of the vault *)

From stdpp Require Import countable.
From S2P Require Import Credential Idempotency NativeDraft VaultCollections.

(** *** Idempotency *)

(** A token is minted_body, the request is repeated a minute later, and again with another
    body; in between a policy is written. *)
Definition minted_body : Value := JObject [("id", JString "ut_1"); ("token", JString "vut_secret")].
Definition in_the_meantime : list Event :=
  [ Arrive Convergent "policy" "h2" (seconds 30) (seconds 30); Finish 0 204 JNull (seconds 31) ].

Lemma idempotent_operation_runs_once_witness :
  (step (exec (exec idle_sys [Arrive AtMostOnce "mint" "h" 0 0]) (Finish 0 201 minted_body (seconds 2) :: in_the_meantime))
     (Arrive AtMostOnce "mint" "h" (seconds 60) (seconds 60))).1
  = Some (AN_Replay 201 (json_to_string (redact_for_replay minted_body))).
Proof.
  refine (proj1 (proj2 (idempotent_operation_runs_once "mint" [Arrive AtMostOnce "mint" "h" 0 0] 0
    {| run_key := "mint"; run_hash := "h"; run_start := 0 |} 201 minted_body (seconds 2) in_the_meantime
    AtMostOnce "h" (seconds 60) (seconds 60) _ _ _ _ _ _ _))); try reflexivity.
  - split; [|exact I]. intros r Hr. by apply elem_of_nil in Hr.
  - repeat constructor.
  - repeat constructor; discriminate.
  - repeat constructor.
Defined.

Lemma stale_release_frees_a_live_reservation_witness :
  (step (exec idle_sys
     [ Arrive AtMostOnce "mint" "h" 0 0; Arrive AtMostOnce "mint" "h" (0 + seconds 61) (0 + seconds 61);
       Finish 0 500 JNull (0 + seconds 62) ])
    (Arrive AtMostOnce "mint" "h" (0 + seconds 63) (0 + seconds 63))).1 = Some AN_Run.
Proof.
  exact (proj1 (stale_release_frees_a_live_reservation "mint" "h" 0 JNull 500 eq_refl)).
Defined.

(** ** Native drafts *)

(** The key's fields, encoded together. *)
Definition key_fields (k : NativeDraftKey) : string * string * string * string * string * string * string * Z :=
  (nk_tenant k, nk_project_ref k, nk_provider k, nk_target_alias k, nk_credential_alias k,
   nk_campaign_id k, nk_variant_id k, nk_row_version k).

Fixpoint bits (p : positive) : string :=
  match p with xH => "" | xO p' => String "0" (bits p') | xI p' => String "1" (bits p') end.

Lemma bits_inj p q : bits p = bits q → p = q.
Proof.
  revert q. induction p as [p IH|p IH|]; intros [q|q|]; cbn; intros H; try done;
    injection H as H; f_equal; by apply IH.
Qed.

#[export] Instance encoded_key : DraftSerde := {| storage_key k := bits (encode (key_fields k)) |}.

#[export] Instance encoded_key_laws : DraftSerdeLaws.
Proof.
  constructor. intros k k' H. apply bits_inj in H. apply (inj encode) in H.
  destruct k, k'. unfold key_fields in H. cbn in H. by simplify_eq.
Qed.

Definition a_key : NativeDraftKey :=
  {| nk_tenant := "acme"; nk_project_ref := "p1"; nk_provider := "buffer"; nk_target_alias := "x";
     nk_credential_alias := "buffer"; nk_campaign_id := "c1"; nk_variant_id := "v1"; nk_row_version := 1 |}.
Definition zeros : string := "0000000000000000000000000000000000000000000000000000000000000000".
Definition a_metadata : NativeDraftMetadata :=
  {| nm_approval_id := "ap_1"; nm_execution_epoch := 1; nm_principal_id := Some "ut_1";
     nm_agent_label := None; nm_content_hash := zeros; nm_credential_id := "cred_1" |}.
Definition a_record (s : DraftSyncStatus) : NativeDraftRecord :=
  {| nr_key := a_key; nr_payload_hash := "ph"; nr_metadata := a_metadata; nr_reservation_token := "t1";
     nr_status := s; nr_receipt := None; nr_original_receipt := None; nr_error := None;
     nr_created_at := 5; nr_updated_at := 5 |}.
Definition failed : NativeDraftOutcome := {| no_status := DS_Failed; no_receipt := None; no_error := None |}.

Definition a_receipt : DraftReceipt :=
  {| dr_provider := "buffer"; dr_campaign_id := "c1"; dr_variant_id := "v1"; dr_row_version := 1; dr_content_hash := zeros;
     dr_channel_ref := "x"; dr_external_content_hash := Some zeros; dr_external_id := Some "e1"; dr_external_status := Some "draft";
     dr_review_url := None; dr_sync_status := DS_Succeeded |}.
Definition confirmed_draft : Drafts :=
  run_drafts ∅ [DO_Reserve "t1" 5 a_key "ph" a_metadata;
                DO_Finalize 5 a_key "t1" "ph" {| no_status := DS_Succeeded; no_receipt := Some a_receipt; no_error := None |}].

Lemma draft_reserved :
  reserve_native_draft "t1" 5 a_key "ph" a_metadata ∅
  = (Ok (NR_Fresh (a_record DS_Reserved)), {[ storage_key a_key := a_record DS_Reserved ]}).
Proof. reflexivity. Qed.

Lemma draft_reserved_again :
  reserve_native_draft "t1" 5 a_key "ph" a_metadata
    (run_drafts {[ storage_key a_key := a_record DS_Reserved ]} [DO_Release a_key "t1"])
  = (Ok (NR_Fresh (a_record DS_Reserved)), {[ storage_key a_key := a_record DS_Reserved ]}).
Proof. reflexivity. Qed.

Lemma draft_is_granted_once_witness :
  existsb (is_release (storage_key a_key) "t1") [DO_Release a_key "t1"] = true.
Proof.
  exact (draft_is_granted_once _ _ _ _ _ _ _ _ [DO_Release a_key "t1"] _ _ _ _ _ _ draft_reserved draft_reserved_again).
Defined.

Lemma finalized_draft_is_final_witness :
  run_drafts {[ storage_key a_key := a_record DS_Failed ]}
    [DO_Release a_key "t1"; DO_Reserve "t2" 6 a_key "ph" a_metadata] !! storage_key a_key
  = Some (a_record DS_Failed).
Proof.
  apply (finalized_draft_is_final _ (storage_key a_key) (a_record DS_Failed)); [reflexivity|discriminate].
Defined.

(** ** Collections *)

Definition a_credential (alias : string) : Credential :=
  new_credential "c1" 0 alias (CD_ApiKey "key" "Authorization" "Bearer ").
Definition a_role : Role := role_new "r1" 0 "ops" [P_Read].
Definition an_api_key : ApiKey :=
  {| ak_id := "k1"; ak_key_prefix := "vk_"; ak_key_hash := "h1"; ak_name := "ci"; ak_role_id := "r1";
     ak_expires_at := None; ak_created_at := 0; ak_last_used_at := None; ak_agent_label := None;
     ak_owner_identity := None; ak_tenant := None; ak_workload_id := None |}.

Definition some_ops : list CollectionOp :=
  [CO_Store (a_credential "old"); CO_Update (a_credential "new"); CO_StoreRole a_role; CO_StoreKey an_api_key].

Lemma vault_lookups_agree_witness :
  get_by_alias "new" (run_collections no_collections some_ops) = Some (a_credential "new")
  ∧ get_by_alias "old" (run_collections no_collections some_ops) = None.
Proof.
  split; [|reflexivity].
  apply (proj1 (vault_lookups_agree some_ops "new" (a_credential "new") "" a_role "" an_api_key
    ltac:(repeat split; intros; discriminate))).
  split; reflexivity.
Defined.

Lemma no_key_is_orphaned_witness :
  keys_have_roles (run_collections no_collections
    [CO_StoreRole a_role; CO_StoreKey an_api_key; CO_DeleteRoleSafe "r1"]).
Proof.
  apply no_key_is_orphaned; [by intros id k H|]. intros ops1 op ops2 E.
  destruct ops1 as [|o1 [|o2 [|o3 [|? ?]]]]; cbn in E; injection E as; subst; try done.
  cbn. eexists. reflexivity.
Defined.
