(* ===== verification/WitnessesVault.v ===== *)
(** * A vault on disk, concretely

    Stand-ins for the ciphers and serializers under the vault's files, with the laws
    that the theorems assume of the real ones, and the theorems on the vault applied to
    a small vault: created, mutated, crashed and reopened.  Every stored value is
    written by a length-prefixed serializer ([Ser]).
    In the second part two receipts are appended to the receipt queue, one of them is claimed
    and delivered, the queue is compacted and the process dies in the middle of a third
    append. *)

From stdpp Require Import base gmap strings list countable.
From Stdlib Require Import Ascii Lia ZArith.
From S2P Require Import Prelude RustStr BTree Json KillFence Outbox Approval Egress Crypto Tracked.
From S2P Require Import VaultLog VaultCache VaultFile VaultFileFacts VaultCommit VaultSystem.

Open Scope Z_scope.

(** ** A serializer *)

(** Writing a value in front of the rest of a text, and reading it back. *)
Class Ser (A : Type) := {
  put : A → bytes;
  get : bytes → option (A * bytes);
  get_put a r : get (put a ++ r) = Some (a, r);
}.

Fixpoint get_nat (b : bytes) : option (nat * bytes) :=
  match b with
  | [] => None
  | a :: b' => if Ascii.eqb a "1"%char
               then match get_nat b' with Some (n, r) => Some (S n, r) | None => None end
               else Some (O, b')
  end.
#[export] Program Instance ser_nat : Ser nat :=
  {| put n := replicate n "1"%char ++ ["0"%char]; get := get_nat |}.
Next Obligation. intros n r. induction n as [|n IH]; [done|]. cbn. by rewrite IH. Qed.

Definition get_ascii (b : bytes) : option (ascii * bytes) :=
  match b with [] => None | a :: b' => Some (a, b') end.
#[export] Program Instance ser_ascii : Ser ascii := {| put a := [a]; get := get_ascii |}.
Next Obligation. done. Qed.

Section ser.
Context {A B : Type} {SA : Ser A} {SB : Ser B}.

Definition get_prod (b : bytes) : option ((A * B) * bytes) :=
  match get b with
  | Some (a, b') => match get b' with Some (c, r) => Some ((a, c), r) | None => None end
  | None => None
  end.
#[export] Program Instance ser_prod : Ser (A * B) :=
  {| put x := put x.1 ++ put x.2; get := get_prod |}.
Next Obligation. intros [a b] r. unfold get_prod. cbn [fst snd]. by rewrite <- app_assoc, !get_put. Qed.

Fixpoint get_many (n : nat) (b : bytes) : option (list A * bytes) :=
  match n with
  | O => Some ([], b)
  | S n' => match get b with
            | Some (a, b') => match get_many n' b' with Some (l, r) => Some (a :: l, r) | None => None end
            | None => None
            end
  end.
Definition get_list (b : bytes) : option (list A * bytes) :=
  match get b with Some (n, b') => get_many n b' | None => None end.
#[export] Program Instance ser_list : Ser (list A) :=
  {| put l := put (length l) ++ concat (put <$> l); get := get_list |}.
Next Obligation.
  intros l r. unfold get_list. rewrite <- app_assoc, get_put.
  induction l as [|a l IH]; [done|]. cbn [length fmap list_fmap concat get_many].
  by rewrite <- app_assoc, get_put, IH.
Qed.

Definition put_option (o : option A) : bytes :=
  match o with None => put O | Some a => put 1%nat ++ put a end.
Definition get_option (b : bytes) : option (option A * bytes) :=
  match get b with
  | Some (O, r) => Some (None, r)
  | Some (S _, b') => match get b' with Some (a, r) => Some (Some a, r) | None => None end
  | None => None
  end.
#[export] Program Instance ser_option : Ser (option A) := {| put := put_option; get := get_option |}.
Next Obligation. intros [a|] r; unfold put_option, get_option; [by rewrite <- app_assoc, !get_put|by rewrite get_put]. Qed.

(** A type embedded in one that can be written. *)
Definition ser_inj (f : B → A) (g : A → B) (gf : ∀ b, g (f b) = b) : Ser B.
Proof.
  refine {| put b := put (f b);
            get b := match get b with Some (a, r) => Some (g a, r) | None => None end |}.
  abstract (intros b r; by rewrite get_put, gf).
Defined.
End ser.

Fixpoint pos_bits (p : positive) : bytes :=
  match p with
  | xH => []
  | xO p' => "0"%char :: pos_bits p'
  | xI p' => "1"%char :: pos_bits p'
  end.
Fixpoint bits_pos (b : bytes) : positive :=
  match b with
  | [] => xH
  | a :: b' => if Ascii.eqb a "1"%char then xI (bits_pos b') else xO (bits_pos b')
  end.
Lemma bits_pos_bits p : bits_pos (pos_bits p) = p.
Proof. induction p as [p IH|p IH|]; cbn; by rewrite ?IH. Qed.

Definition Z_code (z : Z) : nat * bytes :=
  match z with Z0 => (0%nat, []) | Zpos p => (1%nat, pos_bits p) | Zneg p => (2%nat, pos_bits p) end.
Definition code_Z (c : nat * bytes) : Z :=
  match c.1 with O => 0 | S O => Zpos (bits_pos c.2) | _ => Zneg (bits_pos c.2) end.
Lemma code_Z_code z : code_Z (Z_code z) = z.
Proof. destruct z; cbn; by rewrite ?bits_pos_bits. Qed.
#[export] Instance ser_Z : Ser Z := ser_inj Z_code code_Z code_Z_code.

Lemma as_of_bytes s : of_bytes (as_bytes s) = s.
Proof. apply String.string_of_list_ascii_of_string. Qed.
#[export] Instance ser_string : Ser string := ser_inj as_bytes of_bytes as_of_bytes.

(** A whole text. *)
Definition to_text {A} `{Ser A} (x : A) : bytes := put x.
Definition of_text {A} `{Ser A} (b : bytes) : option A :=
  match get b with Some (x, []) => Some x | _ => None end.
Lemma of_to_text {A} `{Ser A} (x : A) : of_text (to_text x) = Some x.
Proof. unfold of_text, to_text. rewrite <- (app_nil_r (put x)). by rewrite get_put. Qed.

#[global] Arguments to_text : simpl never.
#[global] Arguments of_text : simpl never.

(** Bytes as hexadecimal digits. *)
Definition hex_digit (b3 b2 b1 b0 : bool) : ascii :=
  Ascii b0 b1 b2 b3 false true false false.   (* the characters from space on *)
Fixpoint hex (b : bytes) : string :=
  match b with
  | [] => ""
  | Ascii a0 a1 a2 a3 a4 a5 a6 a7 :: b' =>
      String (hex_digit a7 a6 a5 a4) (String (hex_digit a3 a2 a1 a0) (hex b'))
  end.
Fixpoint unhex (s : string) : option bytes :=
  match s with
  | EmptyString => Some []
  | String (Ascii a4 a5 a6 a7 _ _ _ _) (String (Ascii a0 a1 a2 a3 _ _ _ _) s') =>
      b ← unhex s'; Some (Ascii a0 a1 a2 a3 a4 a5 a6 a7 :: b)
  | _ => None
  end.
Lemma unhex_hex b : unhex (hex b) = Some b.
Proof. induction b as [|[] b IH]; cbn; [done|]. by rewrite IH. Qed.

Lemma of_as_bytes b : as_bytes (of_bytes b) = b.
Proof. induction b as [|a b IH]; [done|]. unfold as_bytes, of_bytes in *. cbn. by rewrite IH. Qed.

(** ** The crates *)

(** Ciphertext is the key in front of the plaintext; base64 is replaced by sixteen characters. *)
Definition strip_key (k c : bytes) : option bytes :=
  if decide (firstn (length k) c = k) then Some (skipn (length k) c) else None.

#[export] Instance toy_seal : SealCrates := {|
  b64_encode := hex;
  b64_decode := unhex;
  aead_encrypt k _ p := Some (k ++ p);
  aead_decrypt k _ c := strip_key k c;
  argon2 _ pw salt := Some (firstn KEY_SIZE (as_bytes pw ++ salt ++ replicate KEY_SIZE "k"%char)) |}.

Lemma hex_no_colon b : contains_any (Ascii.eqb ":"%char) (hex b) = false.
Proof.
  induction b as [|[a0 a1 a2 a3 a4 a5 a6 a7] b IH]; [done|].
  cbn [hex contains_any]. rewrite IH. by destruct a0, a1, a2, a3, a4, a5, a6, a7.
Qed.

#[export] Instance toy_seal_laws : SealLaws.
Proof.
  split.
  - exact unhex_hex.
  - exact hex_no_colon.
  - intros k n p c [= <-]. cbn. unfold strip_key. rewrite take_app_length, decide_True by done.
    by rewrite drop_app_length.
  - intros p pw salt k H. change (argon2 p pw salt) with
      (Some (firstn KEY_SIZE (as_bytes pw ++ salt ++ replicate KEY_SIZE "k"%char))) in H.
    apply (inj Some) in H as <-. rewrite length_take, !length_app, length_replicate. lia.
Qed.

(** JSON as a tree, and a tree as a number. *)
Fixpoint value_tree (v : Value) : gen_tree (string + Z) :=
  match v with
  | JNull => GenNode 0 []
  | JBool b => GenNode (if b then 1 else 2) []
  | JNumber (PosInt n) => GenNode 3 [GenLeaf (inr n)]
  | JNumber (NegInt n) => GenNode 4 [GenLeaf (inr n)]
  | JNumber (Float s) => GenNode 5 [GenLeaf (inl s)]
  | JString s => GenLeaf (inl s)
  | JArray l => GenNode 6 (List.map value_tree l)
  | JObject m => GenNode 7 (List.map (λ kv, GenNode 8 [GenLeaf (inl kv.1); value_tree kv.2]) m)
  end.
Fixpoint tree_value (t : gen_tree (string + Z)) : Value :=
  match t with
  | GenLeaf (inl s) => JString s
  | GenNode 1 [] => JBool true
  | GenNode 2 [] => JBool false
  | GenNode 3 [GenLeaf (inr n)] => JNumber (PosInt n)
  | GenNode 4 [GenLeaf (inr n)] => JNumber (NegInt n)
  | GenNode 5 [GenLeaf (inl s)] => JNumber (Float s)
  | GenNode 6 l => JArray (List.map tree_value l)
  | GenNode 7 l => JObject (List.map (λ t, match t with
                                          | GenNode 8 [GenLeaf (inl k); x] => (k, tree_value x)
                                          | _ => ("", JNull)
                                          end) l)
  | _ => JNull
  end.
Fixpoint tree_value_tree (v : Value) : tree_value (value_tree v) = v.
Proof.
  destruct v as [|[]|[]|s|l|m]; cbn; try reflexivity.
  - f_equal. induction l as [|x l IH]; [reflexivity|]. cbn. by rewrite tree_value_tree, IH.
  - f_equal. induction m as [|[k x] m IH]; [reflexivity|]. cbn. by rewrite tree_value_tree, IH.
Qed.
Lemma code_value v : default JNull (tree_value <$> decode (bits_pos (pos_bits (encode (value_tree v))))) = v.
Proof. rewrite bits_pos_bits, decode_encode. cbn. apply tree_value_tree. Qed.
#[export] Instance ser_value : Ser Value :=
  ser_inj (λ v, pos_bits (encode (value_tree v))) (λ b, default JNull (tree_value <$> decode (bits_pos b))) code_value.

(** Operations as tuples. *)
Definition op_code (op : Op) : Z * string * string * Value :=
  match op with
  | OpPut c k v => (0, c, k, v)
  | OpDel c k => (1, c, k, JNull)
  | OpKillEpoch e => (2 + 4 * e, "", "", JNull)
  | OpMisc v => (3, "", "", v)
  end.
Definition code_op (t : Z * string * string * Value) : Op :=
  let '(tag, a, b, v) := t in
  if tag =? 0 then OpPut a b v
  else if tag =? 1 then OpDel a b
  else if tag =? 3 then OpMisc v
  else OpKillEpoch ((tag - 2) / 4).
Lemma code_op_code op : code_op (op_code op) = op.
Proof.
  destruct op as [c k v|c k|e|v]; cbn; [done|done| |done].
  repeat match goal with |- context [?a =? ?b] => destruct (Z.eqb_spec a b); [lia|] end.
  f_equal. replace (2 + 4 * e - 2) with (e * 4) by lia. by apply Z.div_mul.
Qed.
Lemma hex_one_line b : newline ∉ as_bytes (hex b).
Proof.
  induction b as [|[a0 a1 a2 a3 a4 a5 a6 a7] b IH]; [by intros ?%elem_of_nil|]. cbn [hex as_bytes String.list_ascii_of_string].
  rewrite !not_elem_of_cons. split_and!; [by destruct a4, a5, a6, a7|by destruct a0, a1, a2, a3|exact IH].
Qed.

#[export] Instance toy_log_serde : LogSerde := {|
  plain_to_vec p := Some (to_text (pl_seq p, op_code <$> pl_ops p));
  plain_from_slice b :=
    sp ← (of_text b : option (Z * list (Z * string * string * Value)));
    Some {| pl_seq := sp.1; pl_ops := code_op <$> sp.2 |};
  envelope_to_vec e := Some (as_bytes (hex (to_text (env_seq e, env_nonce e, env_ct e))));
  envelope_from_slice b :=
    text ← unhex (of_bytes b);
    t ← (of_text text : option (Z * string * string));
    Some {| env_seq := t.1.1; env_nonce := t.1.2; env_ct := t.2 |} |}.

#[export] Instance toy_log_laws : LogSerdeLaws.
Proof.
  split.
  - intros [seq ops] b [= <-]. cbn. rewrite of_to_text. cbn. do 2 f_equal. rewrite <- list_fmap_compose.
    rewrite <- (list_fmap_id ops) at 2. apply list_fmap_ext. intros i op _. apply code_op_code.
  - intros [seq n c] b [= <-]. cbn. rewrite as_of_bytes, unhex_hex. cbn. by rewrite of_to_text.
  - intros e b [= <-]. apply hex_one_line.
Qed.

Definition mark_tuple (m : KillMark) : string * option string * Z * option Z :=
  (km_credential_pattern m, km_principal_pattern m, km_epoch m, km_stored_at m).
Definition tuple_mark (t : string * option string * Z * option Z) : KillMark :=
  {| km_credential_pattern := t.1.1.1; km_principal_pattern := t.1.1.2; km_epoch := t.1.2;
     km_stored_at := t.2 |}.

Lemma tuple_mark_tuple m : tuple_mark (mark_tuple m) = m.
Proof. by destruct m. Qed.
#[export] Instance ser_mark : Ser KillMark := ser_inj mark_tuple tuple_mark tuple_mark_tuple.
Lemma col_name_of c : default Credentials (col_of_name (col_name c)) = c.
Proof. by destruct c. Qed.
#[export] Instance ser_collection : Ser Collection :=
  ser_inj col_name (λ s, default Credentials (col_of_name s)) col_name_of.

(** A record is its own id, and every string is a valid record. *)
#[export] Instance toy_cache_serde : CacheSerde := {|
  Rec := string; Misc := string; misc_default := "";
  rec_to_value _ r := Some (JString r);
  rec_from_value _ v := as_str v;
  mark_to_value (m : KillMark) := Some (JString (of_bytes (to_text m)));
  mark_from_value v := s ← as_str v; (of_text (as_bytes s) : option KillMark);
  misc_to_vec (m : string) := Some (to_text m);
  misc_from_slice b := (of_text b : option string);
  misc_from_value v := s ← as_str v; (of_text (as_bytes s) : option string);
  value_from_slice b := Some (JString (of_bytes b));
  contents_to_vec c :=
    Some (to_text ((map_to_list (ct_recs c), kf_epoch (ct_kill c), kf_marks (ct_kill c), ct_misc c)
      : list (Collection * string * string) * Z * list (string * KillMark) * string));
  contents_from_slice b :=
    t ← (of_text b : option (list (Collection * string * string) * Z * list (string * KillMark) * string));
    Some {| ct_recs := list_to_map t.1.1.1;
            ct_kill := {| kf_epoch := t.1.1.2; kf_marks := t.1.2 |}; ct_misc := t.2 |};
  credentials_from_slice _ := None;
  rec_id _ r := r; rec_valid _ _ := true; rec_attr _ r := Some r |}.

#[export] Instance toy_cache_laws : CacheSerdeLaws.
Proof.
  split.
  - by intros c r v [= <-].
  - intros m v [= <-]. cbn. rewrite of_as_bytes. apply of_to_text.
  - intros m. by eexists.
  - intros m b [= <-]. apply of_to_text.
  - intros m b v [= <-] [= <-]. cbn. rewrite of_as_bytes. apply of_to_text.
  - intros [r [e k] m] b [= <-]. cbn. rewrite of_to_text. cbn. by rewrite list_to_map_to_list.
Qed.

#[export] Instance toy_file_serde : FileSerde := {|
  storage_file_to_string f :=
    Some (to_text (sf_version f, sf_salt f,
                   (m_cost (sf_kdf f), t_cost (sf_kdf f), p_cost (sf_kdf f)), sf_applied_seq f,
                   (ed_nonce (sf_data f), ed_ciphertext (sf_data f))));
  storage_file_from_str b :=
    t ← (of_text b : option (Z * string * (Z * Z * Z) * Z * (string * string)));
    Some {| sf_version := t.1.1.1.1; sf_salt := t.1.1.1.2;
            sf_kdf := {| m_cost := t.1.1.2.1.1; t_cost := t.1.1.2.1.2; p_cost := t.1.1.2.2 |};
            sf_applied_seq := t.1.2;
            sf_data := {| ed_nonce := t.2.1; ed_ciphertext := t.2.2 |} |} |}.

#[export] Instance toy_file_laws : FileSerdeLaws.
Proof. split. intros [v s [a b c] q [n d]] x [= <-]. cbn. by rewrite of_to_text. Qed.

#[export] Instance toy_write_laws : WriteLaws.
Proof. by split; intros; eexists. Qed.

(** ** A vault *)

Definition a_nonce : Nonce := {| nonce_bytes := replicate 12 "n"%char; nonce_size := eq_refl |}.
Definition a_handle : Handle :=
  {| h_key := {| mk_bytes := ["k"%char] |}; h_salt := ""; h_kdf := default_kdf; h_compact_min := 1000 |}.

Definition empty_disk : Disk :=
  {| d_vault := None; d_wal := None; d_vault_tmp := None; d_wal_tmp := None; d_bak_tmp := None;
     d_backups := ∅; d_clock := 0 |}.

(** After [create]. *)
Definition created : World :=
  Eval vm_compute in
  (create_locked a_handle a_nonce
     {| w_log := default_log; w_cache := default_cache; w_disk := empty_disk; w_fates := [] |}).2.

(** Stores a credential. *)
Definition add_cred (id : string) : closure unit := λ c,
  (V_ok tt, map_recs (λ t, (tr_insert (Credentials, id) id t).2) c).
Lemma add_cred_respects id : tracked_only (add_cred id).
Proof. intros c. split; [|done]. apply rtc_once. constructor. Qed.

Definition nothing : Contents Rec Misc :=
  {| ct_recs := ∅; ct_kill := no_kills; ct_misc := "" |}.

Definition the_file : File := default {| fl_token := 0; fl_bytes := [] |} (d_vault (w_disk created)).

Lemma created_loads : loads a_handle (fl_bytes the_file) [] 0 nothing.
Proof.
  exists 0, default_cache, {| pg_records := []; pg_consumed := 0; pg_torn_tail := false;
                              pg_decrypted_bytes := 0; pg_decrypts := 0 |}, default_cache.
  refine (conj _ (conj _ (conj _ (conj _ (conj _ (conj _ _)))))).
  - reflexivity.
  - lia.
  - reflexivity.
  - reflexivity.
  - reflexivity.
  - reflexivity.
  - exact I.
Qed.

Lemma created_good : good a_handle (w_disk created) 0 nothing.
Proof.
  exists the_file, []. split_and!; [reflexivity|reflexivity|exact created_loads|].
  apply (bool_decide_unpack _). vm_compute. exact I.
Qed.

Lemma created_synced : synced a_handle true created 0 nothing.
Proof.
  split_and!; [reflexivity..|]. exists the_file, [], [].
  split_and!; [reflexivity|reflexivity|reflexivity| |done].
  split_and!; [reflexivity|reflexivity|exact created_loads|reflexivity|reflexivity|].
  reflexivity.
Qed.

Lemma created_in_step : in_step a_handle (w_disk created) (w_log created) (w_cache created).
Proof.
  eapply synced_in_step; [eapply good_token, created_good|exact created_synced].
Qed.

(** Two processes start from the created vault. *)
Definition two : System :=
  {| y_disk := w_disk created;
     y_procs := {[ 1%nat := (w_log created, w_cache created); 2%nat := (w_log created, w_cache created) ]} |}.

Lemma two_holds : holds a_handle two 0 nothing.
Proof.
  split; [exact created_good|]. intros pid p Hp.
  assert (p = (w_log created, w_cache created)) as ->; [|exact created_in_step].
  unfold two, y_procs in Hp. apply lookup_insert_Some in Hp as [[_ <-]|[_ Hp]]; [done|].
  by apply lookup_singleton_Some in Hp as [_ <-].
Qed.

(** The world of process one when its write is cut after five bytes. *)
Definition cut_short : World :=
  {| w_log := w_log created; w_cache := w_cache created; w_disk := w_disk created;
     w_fates := [F_ok; F_crash 5] |}.

Lemma vault_refines_atomic_store_witness :
  ∃ ls s', length ls = 2%nat ∧ run a_handle two ls s'
    ∧ ∃ n' c', spec_run nothing ls c' ∧ holds a_handle s' n' c' ∧ n' <= 0 + Z.of_nat (length ls).
Proof.
  eexists _, _. split; [|split].
  3: { apply (vault_refines_atomic_store a_handle two _ _ 0 nothing).
       - exact two_holds.
       - instantiate (1 := [_; _]). vm_compute. discriminate.
       - eapply R_cons.
         + apply (S_mutate a_handle two unit 1 (w_log created, w_cache created) (add_cred "gh")
                    a_nonce a_nonce false [F_ok; F_crash 5]); [reflexivity|apply add_cred_respects].
         + eapply R_cons; [|apply R_nil].
           apply (S_read a_handle _ nat 2 (w_log created, w_cache created)
                    (λ c, size (tr_map (sc_recs c))) []).
           reflexivity. }
  - reflexivity.
  - eapply R_cons.
    + apply (S_mutate a_handle two unit 1 (w_log created, w_cache created) (add_cred "gh")
               a_nonce a_nonce false [F_ok; F_crash 5]); [reflexivity|apply add_cred_respects].
    + eapply R_cons; [|apply R_nil].
      apply (S_read a_handle _ nat 2 (w_log created, w_cache created)
               (λ c, size (tr_map (sc_recs c))) []).
      reflexivity.
Defined.

(** The first process died in its write, and the second one reads the old contents. *)
Example cut_short_evaluates :
  let r := locked_mutate_blocking a_handle a_nonce a_nonce (add_cred "gh") false cut_short in
  r.1 = Crashed ∧ d_wal (w_disk r.2) ≠ Some [].
Proof. vm_compute. split; [reflexivity|discriminate]. Qed.

Lemma crash_leaves_old_or_new_witness :
  let d := w_disk (locked_mutate_blocking a_handle a_nonce a_nonce (add_cred "gh") false cut_short).2 in
  let r := bootstrap_locked a_handle a_nonce 0 0
             {| w_log := default_log; w_cache := default_cache; w_disk := d; w_fates := [] |} in
  r.1 = Done tt
  ∧ (contents (w_cache r.2) = nothing ∨ ∃ a, effect (add_cred "gh") nothing a (contents (w_cache r.2))).
Proof.
  exact (crash_leaves_old_or_new a_handle a_nonce a_nonce (add_cred "gh") false cut_short 0 nothing
           a_nonce 0 0 (add_cred_respects "gh") eq_refl created_good created_in_step).
Defined.

Lemma healthy_vault_is_readable_witness :
  ∃ cache : StorageCache,
    (locked_read_blocking a_handle sc_kill created).1 = Done (sc_kill cache) ∧ contents cache = nothing.
Proof.
  exact (healthy_vault_is_readable a_handle sc_kill created 0 nothing created_good created_in_step eq_refl).
Defined.

Definition stored : outcome unit * World :=
  locked_mutate_blocking a_handle a_nonce a_nonce (add_cred "gh") false created.

Lemma add_cred_shaped base :
  clean base → contents base = nothing →
  (∃ r, (add_cred "gh" base).1 = V_ok r) ∧ shapes_ok (tr_map (sc_recs (add_cred "gh" base).2)) = true.
Proof.
  intros Hc Hb. split; [by exists tt|]. destruct base as [[m d] k x i]. injection Hb as -> _ _. unfold clean in Hc. cbn in Hc. rewrite Hc. reflexivity.
Qed.

(** Up to date or not, and forced to compact: the credential is stored, and read by who opens
    the vault next. *)
Definition stale : World := upd_log (set_loaded false) created.
Lemma stale_in_step : in_step a_handle (w_disk stale) (w_log stale) (w_cache stale).
Proof. exact (in_step_unloaded _ _ _ (w_cache created) _ created_in_step). Qed.
Lemma healthy_mutation_commits_witness :
  ∃ r w' n' c', locked_mutate_blocking a_handle a_nonce a_nonce (add_cred "gh") true stale = (Done r, w')
  ∧ effect (add_cred "gh") nothing r c' ∧ good a_handle (w_disk w') n' c' ∧ 0 <= n' <= 0 + 1
  ∧ in_step a_handle (w_disk w') (w_log w') (w_cache w')
  ∧ let opened := bootstrap_locked a_handle a_nonce 0 0
                    {| w_log := default_log; w_cache := default_cache; w_disk := w_disk w'; w_fates := [] |} in
    opened.1 = Done tt ∧ contents (w_cache opened.2) = c'.
Proof.
  exact (healthy_mutation_commits a_handle a_nonce a_nonce (add_cred "gh") true stale 0 nothing a_nonce 0 0
           (add_cred_respects "gh") eq_refl created_good stale_in_step eq_refl add_cred_shaped).
Defined.

(** The log after one mutation. *)
Definition one_line : bytes := Eval vm_compute in default [] (d_wal (w_disk stored.2)).

Lemma log_reader_is_contiguous_witness :
  ∃ out, parse_log one_line 0 (h_key a_handle) = Ok out
    ∧ contiguous 0 (pg_records out) ∧ pg_decrypts out = Z.of_nat (length (pg_records out))
    ∧ pg_consumed out = length (whole_lines one_line)
    ∧ (pg_torn_tail out = false ↔ one_line = whole_lines one_line).
Proof.
  destruct (parse_log one_line 0 (h_key a_handle)) as [out|] eqn:E.
  - exists out. split; [reflexivity|].
    exact (log_reader_is_contiguous one_line 0 (h_key a_handle) out ltac:(lia) E).
  - exfalso. vm_compute in E. discriminate E.
Defined.

(** A process that had read three bytes more than the log still has. *)
Definition had_more : World :=
  {| w_log := advance 1 3 (w_log created); w_cache := w_cache created; w_disk := w_disk created;
     w_fates := [] |}.

Lemma shrunk_log_is_refused_witness :
  ∃ e, (sync_locked a_handle false (looks a_handle false 2 had_more)).1 = Failed e
       ∧ looks a_handle false 2 had_more = had_more.
Proof.
  apply (shrunk_log_is_refused a_handle false had_more the_file 2); [reflexivity..|].
  intros wal [= <-]. cbn. lia.
Defined.

(** The directory was emptied under a running process. *)
Definition emptied : World :=
  {| w_log := w_log created; w_cache := w_cache created; w_disk := empty_disk; w_fates := [] |}.

Lemma vanished_vault_is_refused_witness :
  (sync_locked a_handle false (looks a_handle false 3 emptied)).1 = Failed E_VaultFileGone.
Proof.
  apply (vanished_vault_is_refused a_handle false emptied 3); [reflexivity|discriminate].
Defined.


(** ** The receipt queue *)

From S2P Require Import QueueJournal QueueJournalFacts AverinQueue QueueWriterFacts QueueDurability QueueRuns QueueRecovery.

(** Events whose payload is a string, as tuples. *)
Definition delivery_code (d : DeliveryState) : nat := match d with Pending => 0 | Delivered => 1 | DeadLettered => 2 end.
Definition code_delivery (n : nat) : DeliveryState := match n with O => Pending | S O => Delivered | _ => DeadLettered end.
Definition event_tuple : Type :=
  Z * string * string * string * Z * nat * Z * option Z * option Z * option string * option string.
Definition event_code (e : OutboxEvent) : option event_tuple :=
  match payload e with
  | JString p =>
      Some (sequence e, subject e, event_type e, p, created_at e, delivery_code (delivery e), attempts e, leased_until e,
            last_attempt_at e, last_error e, dedup_id e)
  | _ => None
  end.
Definition code_event (t : event_tuple) : OutboxEvent :=
  let '(s, subj, ty, p, c, d, a, l, la, le, dd) := t in
  {| sequence := s; subject := subj; event_type := ty; payload := JString p; created_at := c; delivery := code_delivery d; attempts := a;
     leased_until := l; last_attempt_at := la; last_error := le; dedup_id := dd |}.
Lemma code_event_code e t : event_code e = Some t → code_event t = e.
Proof. destruct e as [s subj ty [] c [] a l la le dd]; cbn; intros [= <-]; done. Qed.

Definition delta_tuple : Type := Z * option event_tuple * Z * Z * option Z * option Z * (option string * string * string * string).
Definition delta_code (d : Delta) : option delta_tuple :=
  match d with
  | D_Append e => t ← event_code e; Some (0, Some t, 0, 0, None, None, (None, "", "", ""))
  | D_Lease s u => Some (1, None, s, 0, u, None, (None, "", "", ""))
  | D_Attempt s a b t e => Some (2, None, s, a, Some b, Some t, (e, "", "", ""))
  | D_Delivered s => Some (3, None, s, 0, None, None, (None, "", "", ""))
  | D_DeadLetter s => Some (4, None, s, 0, None, None, (None, "", "", ""))
  | D_Prune s => Some (5, None, s, 0, None, None, (None, "", "", ""))
  | D_Reclaimed s => Some (6, None, s, 0, None, None, (None, "", "", ""))
  | D_GrantResolved t g c => Some (7, None, 0, 0, None, None, (None, t, g, c))
  end.
Definition code_delta (x : delta_tuple) : option Delta :=
  let '(tag, ev, s, a, u, t, (err, x1, x2, x3)) := x in
  match tag, ev with
  | 0, Some e => Some (D_Append (code_event e))
  | 1, _ => Some (D_Lease s u)
  | 2, _ => Some (D_Attempt s a (default 0 u) (default 0 t) err)
  | 3, _ => Some (D_Delivered s)
  | 4, _ => Some (D_DeadLetter s)
  | 5, _ => Some (D_Prune s)
  | 6, _ => Some (D_Reclaimed s)
  | 7, _ => Some (D_GrantResolved x1 x2 x3)
  | _, _ => None
  end.
Lemma code_delta_code d t : delta_code d = Some t → code_delta t = Some d.
Proof.
  destruct d as [e|s u|s a b t' e|s|s|s|s|tk g c]; cbn; try (intros [= <-]; done).
  destruct (event_code e) as [x|] eqn:E; [|done]. cbn. intros [= <-]. cbn. by rewrite (code_event_code _ _ E).
Qed.

Definition snapshot_tuple : Type := list (Z * event_tuple) * Z * list (string * (string * string)).
Definition entry_code (x : Z * OutboxEvent) : option (Z * event_tuple) := t ← event_code x.2; Some (x.1, t).
Definition grant_code (x : string * ResolvedGrant) : string * (string * string) := (x.1, (rg_grant_id x.2, rg_capability x.2)).
Definition code_grant (x : string * (string * string)) : string * ResolvedGrant :=
  (x.1, {| rg_grant_id := x.2.1; rg_capability := x.2.2 |}).
Definition snapshot_code (s : QueueSnapshot) : option snapshot_tuple :=
  l ← mapM entry_code (outbox (qs_cache s)); Some (l, outbox_seq (qs_cache s), grant_code <$> map_to_list (qs_resolved s)).
Definition code_snapshot (t : snapshot_tuple) : QueueSnapshot :=
  {| qs_cache := {| outbox := (λ x, (x.1, code_event x.2)) <$> t.1.1; outbox_seq := t.1.2 |};
     qs_resolved := list_to_map (code_grant <$> t.2) |}.
Lemma code_snapshot_code s t : snapshot_code s = Some t → code_snapshot t = s.
Proof.
  destruct s as [[m n] r]. unfold snapshot_code. cbn. destruct (mapM entry_code m) as [l|] eqn:E; [|done]. cbn. intros [= <-].
  unfold code_snapshot. cbn. f_equal; [f_equal|].
  - apply mapM_Some in E. induction E as [|[k e] x m l Hx _ IH]; [done|]. cbn. rewrite IH. f_equal. unfold entry_code in Hx. cbn in Hx.
    destruct (event_code e) as [y|] eqn:Ey; [|done]. cbn in Hx. injection Hx as <-. cbn. by rewrite (code_event_code _ _ Ey).
  - rewrite <- list_fmap_compose. rewrite (list_fmap_ext _ id); [by rewrite list_fmap_id, list_to_map_to_list|].
    by intros i [k [a b]] _.
Qed.

#[export] Instance toy_queue_serde : QueueSerde := {|
  delta_to_vec d := t ← delta_code d; Some (to_text t);
  delta_from_slice b := t ← (of_text b : option delta_tuple); code_delta t;
  sealed_to_vec d := Some (to_text (ed_nonce d, ed_ciphertext d));
  sealed_from_slice b := t ← (of_text b : option (string * string)); Some {| ed_nonce := t.1; ed_ciphertext := t.2 |};
  snapshot_to_vec s := t ← snapshot_code s; Some (to_text t);
  snapshot_from_slice b := t ← (of_text b : option snapshot_tuple); Some (code_snapshot t);
  snapfile_to_string f := Some (to_text (sf_version f, ed_nonce (sf_data f), ed_ciphertext (sf_data f)));
  snapfile_from_str b :=
    t ← (of_text b : option (Z * string * string));
    Some {| sf_version := t.1.1; sf_data := {| ed_nonce := t.1.2; ed_ciphertext := t.2 |} |} |}.
#[export] Instance toy_queue_laws : QueueSerdeLaws.
Proof.
  split.
  - intros d b. cbn. destruct (delta_code d) as [t|] eqn:E; [|done]. cbn. intros [= <-]. rewrite of_to_text. cbn. by apply code_delta_code.
  - intros [n c] b [= <-]. cbn. by rewrite of_to_text.
  - intros s b. cbn. destruct (snapshot_code s) as [t|] eqn:E; [|done]. cbn. intros [= <-]. rewrite of_to_text. cbn.
    by rewrite (code_snapshot_code _ _ E).
  - intros [v [n c]] b [= <-]. cbn. by rewrite of_to_text.
Qed.

(** ** A run *)

Definition queue_key : MasterKey := {| mk_bytes := ["k"%char] |}.
Definition all_removed (_ : Z) (_ : bool) : bool := false.
Definition quiet : CommitInput := {| ci_before := []; ci_after := []; ci_nonce := a_nonce; ci_io := [] |}.
Definition no_queue : QueueDir := {| qd_deltas := []; qd_snapshots := [] |}.
Definition no_live_queue : AverinQueue :=
  {| aq_mem := {| qm_state := empty_queue; qm_committing := [] |}; aq_dir := no_queue; aq_index := 0; aq_size := 0;
     aq_reserved := []; aq_jobs := []; aq_results := []; aq_staged := [] |}.
Definition opened (d : QueueDir) : AverinQueue :=
  match (queue_open queue_key all_removed [] d).1 with Ok q => q | Err _ => no_live_queue end.
Definition receipt (seq : Z) (agent : string) (now : DateTime) : OutboxEvent :=
  {| sequence := seq; subject := agent; event_type := "action.executed"; payload := JString "{}"; created_at := now; delivery := Pending;
     attempts := 0; leased_until := None; last_attempt_at := None; last_error := None; dedup_id := None |}.
Definition appending (agent : string) (now : DateTime) (q : AverinQueue) : AverinQueue :=
  (reserve_for_append now agent "action.executed" (JString "{}") q).2.

(** The writer takes both appends in one batch; the first is claimed and delivered. *)
Definition q1 : AverinQueue := opened no_queue.
Definition q2 : AverinQueue := appending "bob" (seconds 2) (appending "alice" (seconds 1) q1).
Definition q3 : AverinQueue := writer_runs [] (hand_over queue_key (hand_over queue_key q2 (2, a_nonce)) (1, a_nonce)).
Definition q4 : AverinQueue := (finish_append 2 (finish_append 1 q3).2).2.
Definition q5 : AverinQueue := (queue_claim queue_key 1 60 (seconds 3) (λ _, quiet) q4).2.
Definition q6 : AverinQueue := (queue_record_delivery queue_key 1 true None 5 (seconds 4) (seconds 4) quiet q5).2.
(** A compaction, and a third append whose batch is lost in the crash. *)
Definition q7 : AverinQueue := (finish_compact queue_key 1 a_nonce SW_Durable all_removed (compact [] q6).2).2.
Definition q8 : AverinQueue := writer_runs [IO_Ok; IO_Err] (hand_over queue_key (appending "carol" (seconds 5) q7) (3, a_nonce)).
Definition cut_behind (n : nat) (d : QueueDir) : QueueDir :=
  {| qd_deltas := (λ e, (e.1, {| sg_bytes := take (sg_synced e.2 + n) (sg_bytes e.2); sg_synced := sg_synced e.2 |})) <$> qd_deltas d;
     qd_snapshots := qd_snapshots d |}.
Definition cut_dir : QueueDir := cut_behind 20 (aq_dir q8).

Example q7_shape : bt_keys (qd_deltas (aq_dir q7)) = [2] ∧ bt_keys (qd_snapshots (aq_dir q7)) = [1].
Proof. vm_compute. auto. Qed.
Example reopened : (delivery <$> queue_get 1 (opened cut_dir), queue_get 2 (opened cut_dir), queue_get 3 (opened cut_dir))
  = (Some Delivered, Some (receipt 2 "bob" (seconds 2)), None).
Proof. vm_compute. reflexivity. Qed.

Lemma q8_run : queue_run queue_key (Live q8) [receipt 2 "bob" (seconds 2); receipt 1 "alice" (seconds 1)] [1] [receipt 1 "alice" (seconds 1)].
Proof.
  assert (H1 : queue_run queue_key (Live q1) [] [] []).
  { eapply (QR_open queue_key _ [] [] [] all_removed []); [apply QR_start|]. vm_compute. reflexivity. }
  assert (H2 : queue_run queue_key (Live q2) [] [] []).
  { unfold q2, appending. apply QR_reserve; [apply QR_reserve; [exact H1|]|]; vm_compute; reflexivity. }
  assert (H3 : queue_run queue_key (Live q3) [] [] []) by (apply QR_writer; [apply QR_hand_over, QR_hand_over, H2|constructor]).
  assert (H4 : queue_run queue_key (Live q4) [receipt 2 "bob" (seconds 2); receipt 1 "alice" (seconds 1)] [] []).
  { eapply (QR_finish queue_key _ [receipt 1 "alice" (seconds 1)] [] [] (receipt 2 "bob" (seconds 2)) true).
    - eapply (QR_finish queue_key q3 [] [] [] (receipt 1 "alice" (seconds 1)) true); [exact H3|vm_compute; set_solver|vm_compute; reflexivity].
    - vm_compute. set_solver.
    - vm_compute. reflexivity. }
  assert (H5 : queue_run queue_key (Live q5) [receipt 2 "bob" (seconds 2); receipt 1 "alice" (seconds 1)] [] [])
    by (apply QR_claim; [exact H4|intros n; constructor]).
  assert (H6 : queue_run queue_key (Live q6) [receipt 2 "bob" (seconds 2); receipt 1 "alice" (seconds 1)] [1] [receipt 1 "alice" (seconds 1)]).
  { refine (QR_record queue_key q5 _ _ _ 1 true None 5 (seconds 4) (seconds 4) quiet (Ok false) q6 H5 _ _); [constructor|]. vm_compute. reflexivity. }
  apply QR_writer; [|by repeat constructor]. apply QR_hand_over. unfold appending. apply QR_reserve; [|vm_compute; reflexivity].
  apply QR_finish_compact, QR_compact; [exact H6|constructor].
Qed.
Lemma cut_behind_crash n d :
  Forall (λ x : Z * SegmentData, (sg_synced x.2 <= length (sg_bytes x.2))%nat) (qd_deltas d) → crashed d (cut_behind n d).
Proof.
  intros H. split; [|done]. apply Forall2_fmap_r, Forall_Forall2_diag. rewrite Forall_forall in H |- *. intros [i s] Hs%H. split; [done|]. cbn in *.
  exists (Nat.min (sg_synced s + n) (length (sg_bytes s))). split_and!; [lia|lia| |lia|lia].
  rewrite <- (firstn_all (sg_bytes s)) at 1. by rewrite take_take.
Qed.
Lemma q8_crash : crashed (aq_dir q8) cut_dir.
Proof. apply cut_behind_crash, (bool_decide_unpack _). vm_compute. exact I. Qed.

Lemma acknowledged_receipts_survive_witness :
  ∃ q, (queue_open queue_key all_removed [] cut_dir).1 = Ok q
    ∧ ∀ e, e ∈ [receipt 2 "bob" (seconds 2); receipt 1 "alice" (seconds 1)] →
        (sequence e ∉ [1] → ∃ e', queue_get (sequence e) q = Some e' ∧ same_event e e' ∧ delivery e' = Pending)
        ∧ (e ∈ [receipt 1 "alice" (seconds 1)] → ∀ e', queue_get (sequence e) q = Some e' → delivery e' ≠ Pending).
Proof. exact (acknowledged_receipts_survive queue_key (Live q8) _ _ _ cut_dir all_removed q8_run q8_crash). Defined.

(** A long append falls short after its header, a short delta follows. *)
Definition writing_at : BatchState :=
  {| bs_dir := {| qd_deltas := [(1, {| sg_bytes := []; sg_synced := 0 |})]; qd_snapshots := [] |}; bs_index := 1; bs_size := 0;
     bs_dirty := false; bs_io := [IO_Short 40] |}.
Definition sealed_frame (d : Delta) : bytes := match seal_delta a_nonce d queue_key with Ok f => f | Err _ => [] end.
Definition long_frame : bytes := Eval vm_compute in sealed_frame (D_Append (receipt 1 "alice-of-the-first-floor-by-the-window" (seconds 1))).
Definition short_frame : bytes := Eval vm_compute in sealed_frame (D_Delivered 1).

Lemma short_write_hides_a_committed_record_witness :
  let '(r0, s1) := run_batch [WJ_Data long_frame] writing_at in
  let '(r, s2) := run_batch [WJ_Data short_frame] s1 in
  r0 = None ∧ r = Some 1
  ∧ ∃ g', bt_get (qd_deltas (bs_dir s2)) 1 = Some g' ∧ sg_synced g' = length (sg_bytes g') ∧ replay_segment (sg_bytes g') queue_key = Ok [].
Proof.
  apply (short_write_hides_a_committed_record queue_key writing_at {| sg_bytes := []; sg_synced := 0 |} [] [] a_nonce
    (D_Append (receipt 1 "alice-of-the-first-floor-by-the-window" (seconds 1))) long_frame a_nonce (D_Delivered 1) short_frame 40).
  - reflexivity.
  - reflexivity.
  - constructor.
  - reflexivity.
  - vm_compute. reflexivity.
  - vm_compute. reflexivity.
  - vm_compute. reflexivity.
  - lia.
  - apply (bool_decide_unpack _). vm_compute. exact I.
Defined.
