(* ===== verification/WitnessesHttp.v ===== *)
(** * Outbound requests, capabilities and egress, exercised

    Each lemma applies one theorem about address checks or the HTTP plugin to concrete
    requests, with an https-only URL parser that escapes braces, one public host and
    one token endpoint, and discharges its hypotheses by evaluation.  A registered tool is a
    DELETE on the internal transport with one pinned parameter; the responses at the end
    echo their secrets. *)

From stdpp Require Import base gmap strings list.
From Stdlib Require Import Ascii ZArith Lia.
From S2P Require Import Prelude RustStr UrlCanon Json Egress Ssrf Credential HttpPlugin HttpFacts Concrete.
From S2P Require Import Capability CapabilityFacts.

Open Scope Z_scope.

(** ** The crates *)

Definition https_rest (u : string) : string := default "" (strip_prefix "https://" u).

#[export] Instance https_url : UrlCrate := {|
  Url := string;
  url_parse s := if starts_with "https://" s then Some s else None;
  url_parse_with_base _ s := None;
  url_host_str u := Some (break_at url_delim (https_rest u)).1;
  url_port _ := None; url_username _ := ""; url_password _ := None;
  url_path u := (break_at (Ascii.eqb "?") (break_at url_delim (https_rest u)).2).1;
  url_query u := (split_once "?" u) ≫= λ p, Some p.2;
  url_drop_fragment u := u; url_domain _ := None; url_set_host _ _ := None;
  url_as_str u := replace "{" "%7B" (replace "}" "%7D" u) |}.

(** 93.184.215.14 is public, and so is its name; nothing else resolves. *)
#[export] Instance one_host : NetStd := {|
  url_scheme _ := "https"; url_port_or_known_default _ := Some 443;
  parse_ip s := if String.eqb s "10.0.0.1" then Some (V4 0x0a000001) else None;
  resolve h p := if String.eqb h "api.test" then Some [(V4 0x5db8d70e, p)] else None |}.

#[export] Instance plain_http : HttpCrates := {|
  url_query_pairs _ := []; url_set_pairs u _ := u; url_host_is_ip _ := false;
  method_from_str m := if is_empty m then None else Some m;
  to_uppercase := to_ascii_uppercase;
  hmac_bytes k d := k +:+ d; format_amz_date _ := "20260101T000000Z"; format_date _ := "20260101";
  checked_add_signed t d := Some (t + d);
  params_from_value _ :=
    Some {| hp_method := "post"; hp_url := "https://api.test/v1";
            hp_headers := {[ "authorization" := "Bearer stolen"; "Host" := "evil.test";
                             "OpenAI-Project" := "proj_other000"; "Accept-Encoding" := "br";
                             "X-Trace" := "7" ]};
            hp_body := None; hp_query := ∅ |};
  token_post _ _ := TR_Token {| tk_access_token := "minted-token"; tk_expires_in := Some 3600;
                                tk_refresh_token := None |} |}.

(** ** Addresses *)

Lemma classifier_equals_specification_witness :
  valid_ip (V4 0x0a000001) ∧ is_private_ip (V4 0x0a000001) = spec_ip (V4 0x0a000001)
  ∧ is_private_ip (V4 0x0a000001) = true.
Proof.
  assert (H : valid_ip (V4 0x0a000001)) by (cbn; lia).
  split; [exact H|]. split; [apply (classifier_equals_specification (V4 0x0a000001)); exact H|].
  vm_compute. reflexivity.
Defined.

Lemma metadata_is_private_witness : is_private_ip (V4 0xa9fea9fe) = true.
Proof.
  apply (metadata_is_private (V4 0xa9fea9fe)); [cbn; lia|]. vm_compute. reflexivity.
Defined.

Lemma accepted_url_is_public_witness :
  validate_url_ssrf true "https://api.test/v1" = Ok "https://api.test/v1"
  ∧ url_parse "https://api.test/v1" = Some "https://api.test/v1".
Proof.
  assert (H : validate_url_ssrf true "https://api.test/v1" = Ok "https://api.test/v1")
    by (vm_compute; reflexivity).
  split; [exact H|].
  apply (accepted_url_is_public (UC := https_url) true "https://api.test/v1" "https://api.test/v1" 80).
  left. split; [exact H|reflexivity].
Defined.

(** ** Requests *)

Definition oauth : CredentialData :=
  CD_OAuth2 "cid" "csecret" (Some "refresh") (Some "old-token") (Some 0) "https://api.test/token" ["read"].

Definition scope_of : gmap string string := {[ OPENAI_PROJECT_META := "proj_operator1" ]}.

Definition scoped : HttpRequestParams :=
  {| hp_method := "post"; hp_url := "https://api.test/v1";
     hp_headers := {[ "authorization" := "Bearer stolen"; "Host" := "evil.test";
                      "openai-project" := "proj_operator1"; "Accept-Encoding" := "br"; "X-Trace" := "7" ]};
     hp_body := None; hp_query := ∅ |}.

Definition renewed : CredentialData :=
  CD_OAuth2 "cid" "csecret" (Some "refresh") (Some "minted-token") (Some (seconds 3600 + 5))
    "https://api.test/token" ["read"].

Definition sent : Request :=
  {| rq_method := "POST"; rq_url := "https://api.test/v1";
     rq_headers := {[ "Authorization" := "Bearer minted-token"; "openai-project" := "proj_operator1";
                      "X-Trace" := "7" ]};
     rq_body := RB_None |}.

Definition refresh_post : Posts :=
  [("https://api.test/token",
    [("grant_type", "refresh_token"); ("refresh_token", "refresh"); ("client_id", "cid");
     ("client_secret", "csecret"); ("scope", "read")])].

Lemma scoped_ok : scoped_params scope_of JNull = Ok scoped.
Proof. vm_compute. reflexivity. Qed.

Lemma sent_ok : prepare_request true 5 scoped oauth = (refresh_post, Ok (sent, Some renewed)).
Proof. vm_compute. reflexivity. Qed.

Lemma sent_headers_have_an_author_witness :
  is_gateway_owned_header "X-Trace" = false
  ∧ eq_ignore_ascii_case "X-Trace" "accept-encoding" = false.
Proof.
  split; [reflexivity|].
  refine (proj1 (sent_headers_have_an_author true 5 scope_of JNull _ scoped oauth _ _ _ "X-Trace" "7"
    _ scoped_ok sent_ok _)); [reflexivity|vm_compute; reflexivity].
Defined.

Lemma credential_header_is_sole_copy_witness :
  ∃ v, rq_headers sent !! "Authorization" = Some v ∧ v = "Bearer minted-token".
Proof.
  destruct (credential_header_is_sole_copy true 5 scoped oauth _ _ _ "Authorization" sent_ok) as [_ H].
  - apply (bool_decide_unpack _). vm_compute. exact I.
  - destruct (H eq_refl eq_refl) as (v & Hv & t & [= <-] & ->). eexists. split; [exact Hv|reflexivity].
Defined.

Lemma renew_ok : ensure_valid_token true 5 oauth = (refresh_post, Ok ("minted-token", Some renewed)).
Proof. vm_compute. reflexivity. Qed.

Lemma oauth_secrets_reach_only_the_token_url_witness :
  (length refresh_post <= 2)%nat ∧ ∃ d', renewed = d'.
Proof.
  destruct (oauth_secrets_reach_only_the_token_url true 5 _ _ _ _ _ _ _ _ _ renew_ok) as (_ & Hl & _ & H).
  split; [exact Hl|]. destruct (H _ _ eq_refl) as (r & e & Hd & _). eexists. exact Hd.
Defined.

(** An upstream that answers with the bearer token it got. *)
Definition mirror (rq : Request) : option Upstream :=
  Some {| up_status := 200; up_headers := []; up_declared := None;
          up_chunks := [Some (default "" (rq_headers rq !! "Authorization"))] |}.

Definition mirrored : ExecuteResponse :=
  {| resp_status := 200; resp_headers := ∅; resp_body := as_bytes "Bearer minted-token" |}.

Lemma mirrored_ok : execute_request mirror true 5 scoped oauth = (refresh_post, Ok (mirrored, Some renewed)).
Proof. vm_compute. reflexivity. Qed.

Lemma sent_secret_is_not_returned_witness :
  ¬ appears (as_bytes "minted-token")
      (resp_body (confine_response mirrored
        (scrub_set_with_minted (secret_material oauth) (Some (secret_material renewed))) "api" [] "http.request")).
Proof.
  destruct (sent_secret_is_not_returned mirror true 5 scoped oauth _ _ _ "api" [] "http.request" mirrored_ok)
    as (rq & up & Hp & _ & H).
  rewrite sent_ok in Hp. injection Hp as <-.
  destruct (H "Authorization" "Bearer minted-token") as (pre & s & Hv & Hs & Hn);
    [reflexivity|apply (bool_decide_unpack _); vm_compute; exact I|left; reflexivity|].
  assert (s = "minted-token") as ->.
  { apply strip_suffix_spec in Hv. cbn [secret_material default renewed opt_list app id] in Hs.
    rewrite !elem_of_cons, elem_of_nil in Hs. destruct Hs as [->|[->|[->|[->|[->|[]]]]]];
      [vm_compute in Hv; discriminate..|reflexivity|vm_compute in Hv; discriminate]. }
  exact (proj1 (Hn ltac:(discriminate))).
Defined.

Lemma url_token_changes_only_the_placeholder_witness :
  url_token_send_url "https://api.test/bot{credential}/send" {[ "q" := "{credential}" ]} "123:abc"
    = Ok "https://api.test/bot123:abc/send?q=%7Bcredential%7D"
  ∧ structure "https://api.test/bot123:abc/send?q=%7Bcredential%7D" = ["/"; "/"; "/"; "/"; "?"]%char.
Proof.
  assert (H : url_token_send_url "https://api.test/bot{credential}/send" {[ "q" := "{credential}" ]} "123:abc"
    = Ok "https://api.test/bot123:abc/send?q=%7Bcredential%7D") by (vm_compute; reflexivity).
  split; [exact H|].
  destruct (url_token_changes_only_the_placeholder _ _ _ _ H) as (base & merged & part & bare & Hb & He & _ & _ & Hs & _).
  assert (Hj : effective_url "https://api.test/bot{credential}/send" (map_to_list {[ "q" := "{credential}" ]})
    = Some "https://api.test/bot%7Bcredential%7D/send?q=%7Bcredential%7D") by (vm_compute; reflexivity).
  rewrite Hj in He. injection He as He. rewrite Hs, <- He. reflexivity.
Defined.

(** ** A registered tool *)

#[export] Instance no_addresses : @UrlHost https_url := {| url_host_addr _ := None |}.

Definition drop_schema : Value :=
  JObject [("additionalProperties", JBool false);
           ("properties", JObject [("reason", JObject [("minLength", JNumber (PosInt 3)); ("type", JString "string")])]);
           ("required", JArray [JString "reason"]); ("type", JString "object")].

(** The operator pins the verb and the path; the caller may say why. *)
Definition drop_row : Capability :=
  {| cap_id := "cap_1"; cap_tool_name := "drop_row"; cap_description := ""; cap_action := "internal_http.call";
     cap_plugin := Some INTERNAL_HTTP_PLUGIN;
     cap_target := {| ct_url_glob := None; ct_methods := ["delete"];
                      ct_plugin_params := [("path", JString "/rows/7")] |};
     cap_credential_ref := "db"; cap_input_schema := drop_schema; cap_reversibility := "irreversible";
     cap_llm := None; cap_approval_preview := None |}.
Definition good_args : Object := [("reason", JString "spam")].
Definition bad_args : Object := [("path", JString "/rows/8"); ("reason", JString "spam")].

Lemma drop_row_valid : validate_capability (UC := https_url) drop_row = Ok tt.
Proof. vm_compute. reflexivity. Qed.
Lemma good_args_pass : validate_input drop_row (JObject good_args) = Ok tt.
Proof. vm_compute. reflexivity. Qed.
Lemma bad_args_fail :
  ∃ r, build_action_params (UC := https_url) drop_row INTERNAL_HTTP_PLUGIN (JObject bad_args) = Err (BE_Input r).
Proof. eexists. vm_compute. reflexivity. Qed.

Lemma accepted_arguments_meet_schema_witness :
  is_object (JObject bad_args) = true ∧
  ¬ conforms (S MAX_INPUT_SCHEMA_DEPTH) (enforced_schema drop_row) (JObject bad_args).
Proof.
  split; [reflexivity|]. intros Hc. destruct bad_args_fail as [r Hr].
  refine (proj1 (proj1 (accepted_arguments_meet_schema (H := https_url) drop_row INTERNAL_HTTP_PLUGIN
    (JObject bad_args) eq_refl)) Hc r Hr).
Defined.

Lemma registered_tool_runs_under_operator_pins_witness :
  ∃ verb p, resolve_pinned_http_method drop_row = Ok verb ∧ verb ∈ INTERNAL_HTTP_VERBS
    ∧ build_action_params (UC := https_url) drop_row INTERNAL_HTTP_PLUGIN (JObject good_args) = Ok (JObject p)
    ∧ obj_get "method" p = Some (JString verb)
    ∧ ∀ k, k ≠ "method" →
        obj_get k p = match obj_get k [("path", JString "/rows/7")] with
                      | Some v => Some v | None => obj_get k good_args end.
Proof.
  refine (proj2 (proj2 (registered_tool_runs_under_operator_pins (UC := https_url) drop_row good_args
    drop_row_valid eq_refl _)) eq_refl _).
  - apply NoDup_singleton.
  - apply (validate_json_schema_ok _ _ _ "$"). exact good_args_pass.
Defined.

(** ** What comes back *)

Open Scope nat_scope.

(** An upstream that echoes the credential, raw in the body and in base64 in a header. *)
Definition echo : ExecuteResponse :=
  {| resp_status := 200; resp_headers := {[ "X-Echo" := b64_standard "token-secret" ]};
     resp_body := as_bytes "you sent token-secret" |}.

Lemma confined_response_shows_no_form_witness :
  let r' := confine_response echo ["token-secret"] "github" [] "http.request" in
  resp_body r' = as_bytes "you sent [REDACTED]"
  ∧ resp_headers r' !! "X-Echo" = Some "[REDACTED]"
  ∧ ¬ appears (as_bytes "token-secret") (resp_body r').
Proof.
  intros r'. split; [vm_compute; reflexivity|]. split; [vm_compute; reflexivity|].
  pose proof (confined_response_shows_no_form echo ["token-secret"] "github" [] "http.request"
    "token-secret" (or_intror (proj2 (list_elem_of_singleton _ _) eq_refl)) ltac:(discriminate)) as [H _].
  exact H.
Defined.

Lemma confined_headers_show_no_form_witness :
  (confine_stream_headers (resp_headers echo) (derive_secret_forms ["token-secret"])).1 !! "X-Echo"
    = Some "[REDACTED]"
  ∧ ¬ appears (as_bytes (b64_standard "token-secret")) (as_bytes "[REDACTED]").
Proof.
  assert (H : (confine_stream_headers (resp_headers echo) (derive_secret_forms ["token-secret"])).1
                !! "X-Echo" = Some "[REDACTED]") by (vm_compute; reflexivity).
  split; [exact H|].
  apply (confined_headers_show_no_form (resp_headers echo) (derive_secret_forms ["token-secret"])
           (b64_standard "token-secret") "X-Echo" "[REDACTED]"); [|vm_compute; discriminate|exact H].
  apply (bool_decide_unpack _). vm_compute. exact I.
Defined.

(** The secret straddles the boundary of two chunks. *)
Lemma stream_never_releases_a_form_witness :
  let s := scrubber_new ["token-secret"] 100 in
  stream s [as_bytes "a token-s"; as_bytes "ecret b"] true [] = as_bytes "a [REDACTED] b"
  ∧ ¬ appears (as_bytes "token-secret") (stream s [as_bytes "a token-s"; as_bytes "ecret b"] true []).
Proof.
  intros s. split; [vm_compute; reflexivity|].
  apply (stream_never_releases_a_form ["token-secret"] 100
           [as_bytes "a token-s"; as_bytes "ecret b"] true [] "token-secret").
  apply (bool_decide_unpack _). vm_compute. exact I.
Defined.

(** No spelling of this secret starts another one, decided by evaluation. *)
Definition prefix_free_b (forms : list bytes) : bool :=
  forallb (λ f, forallb (λ g, negb (bytes_prefix f g) || bool_decide (g = f)) forms) forms.

Lemma prefix_free_decided forms : prefix_free_b forms = true → prefix_free forms.
Proof.
  unfold prefix_free_b. intros H f g r Hf Hg ->.
  rewrite forallb_forall in H. specialize (H f (proj1 (list_elem_of_In _ _) Hf)). cbv beta in H.
  rewrite forallb_forall in H. specialize (H (f ++ r) (proj1 (list_elem_of_In _ _) Hg)). cbv beta in H.
  apply orb_true_iff in H as [H|H]; [|by apply bool_decide_eq_true in H].
  apply negb_true_iff, not_true_iff_false in H. exfalso. apply H, bytes_prefix_spec. by exists r.
Qed.

Lemma chunking_does_not_matter_witness :
  let s := scrubber_new ["token-secret"] 100 in
  let chunks := [as_bytes "a tok"; as_bytes "en-sec"; as_bytes "ret b"] in
  (push_all s chunks).1.1 ++ as_bytes "a [REDACTED] b"
  = one_scan (ss_forms s) (as_bytes MARKER) 0 (as_bytes "a token-secret b").
Proof.
  intros s chunks.
  apply (chunking_does_not_matter ["token-secret"] 100 chunks _ (as_bytes "a [REDACTED] b")
           (push_all s chunks).2 (finish (push_all s chunks).2).2);
    [apply prefix_free_decided| |]; vm_compute; reflexivity.
Defined.

(** Two secrets of one credential, the second continuing the first, and a chunk that
    ends where the first does. *)
Definition two_secrets : StreamScrubber := scrubber_new ["token"; "token-secret"] 100.

Lemma absent_decided forms text :
  forallb (λ g, negb (find_bytes text g)) forms = true → (∀ g, g ∈ forms → g ≠ []) →
  ∀ g, g ∈ forms → ¬ appears g text.
Proof.
  rewrite forallb_forall. intros H Hne g Hg Ha.
  specialize (H g (proj1 (list_elem_of_In _ _) Hg)). apply negb_true_iff, not_true_iff_false in H.
  apply H, find_bytes_spec. split; [by apply Hne|done].
Qed.

Lemma chunk_boundary_releases_rest_of_secret_witness :
  stream two_secrets [as_bytes "token"; as_bytes "-secret"] true [] = as_bytes "[REDACTED]-secret"
  ∧ stream two_secrets [as_bytes "token-secret"] true [] = as_bytes "[REDACTED]".
Proof.
  pose proof (scrubber_new_forms_ok ["token"; "token-secret"] 100) as Hok.
  pose proof (chunk_boundary_releases_rest_of_secret two_secrets (as_bytes "token") (as_bytes "-secret")
    []) as H.
  assert (E : as_bytes "token" ++ as_bytes "-secret" = as_bytes "token-secret") by reflexivity.
  rewrite E in H. apply H; clear H.
  - discriminate.
  - discriminate.
  - apply (bool_decide_unpack _). vm_compute. exact I.
  - exact Hok.
  - reflexivity.
  - reflexivity.
  - reflexivity.
  - vm_compute. lia.
  - vm_compute. reflexivity.
  - vm_compute. reflexivity.
  - apply absent_decided; [vm_compute; reflexivity|]. intros g Hg. apply (Hok g Hg).
Defined.

(** A rule that redacts one action of one credential does not concern another. *)
Lemma streaming_skips_no_rule_witness :
  let rule := {| er_credential_pattern := String.eqb "github"; er_action_pattern := String.eqb "keys";
                 er_block := true; er_redact_patterns := [] |} in
  stream_is_egress_safe [rule] "github" "keys" = false
  ∧ apply_egress echo [rule] "github" "http.request" = (false, echo).
Proof.
  intros rule. split; [reflexivity|].
  apply (streaming_skips_no_rule echo [rule] "github" "http.request"). reflexivity.
Defined.
