(* ===== verification/WitnessesGateway.v ===== *)
(** * The gateway, exercised

    A server with one credential, one two-use token and one plugin whose answer echoes the
    secret.  Each lemma applies one theorem about the gateway to a request, a poll or a
    halt on it and discharges its hypotheses by evaluation. *)

From stdpp Require Import base gmap strings list.
From Stdlib Require Import Ascii ZArith Lia.
From S2P Require Import Prelude RustStr PolicyTypes Precedence UrlCanon RateLimit Json Kernel PolicyEngine KillFence.
From S2P Require Import Outbox Approval ApprovalLifecycle ApprovalStore ApprovalExecution Egress Tokens Auth Credential.
From S2P Require Import HttpPlugin VaultCollections Capability Catalog Sessions.
From S2P Require Import GatewayBase Gateway GatewayResume GatewayHalt GatewayFacts GatewayResumeFacts.
From S2P Require Import Concrete WitnessesHttp WitnessesTokens.

Open Scope Z_scope.

(** ** The server *)

(** A quiet environment: nobody else acts, no storage call fails, no averin client. *)
Definition no_averin : AverinClient :=
  {| ac_begin_exact_use _ _ _ _ _ := Err AV_Unavailable; ac_complete_exact_use _ _ := false;
     ac_has_in_memory_grant _ := false; ac_popkeys := None; ac_owns_queue := false; ac_queue_append _ _ := None;
     ac_queue_get _ := None; ac_deliver_use _ := false; ac_durable_use_oversize_drop _ _ := false;
     ac_seal_use_required _ _ _ _ := false; ac_on_execute _ _ _ _ := false |}.
#[export] Instance quiet : Environment :=
  {| env_others _ s := s; env_fault _ := false; env_now n := seconds 1000 + Z.of_nat n; env_instant n := Z.of_nat n;
     env_uuid _ := "9"; env_secret _ := "s3"; env_govder _ := Some (λ _ _ _, Some GR_NoRule); env_averin _ := no_averin |}.

Definition settings : GatewayConfig :=
  {| gc_action_labels := ∅; gc_tenants := ∅; gc_require_declared := false; gc_spend_extractors := [];
     gc_policies := []; gc_averin_enabled := false; gc_d8_complete_evidence := false;
     gc_d8_money_and_irreversible := false |}.
Definition approvals_on : ApprovalConfig :=
  {| ac_enabled := true; ac_ttl_secs := 600; ac_sla_overrides := []; ac_criticality_rules := [];
     ac_oob_approver_identity := None; ac_reauth_interval_secs := None; ac_dual_control_approvers := 2 |}.

Definition github_key : Credential := new_credential "c1" 0 "github" (CD_ApiKey "hunter2secret" "Authorization" "Bearer ").
Definition echo_plugin : Plugin :=
  {| pl_validate _ _ := Ok tt;
     pl_execute _ := Ok ({| resp_status := 200; resp_headers := ∅; resp_body := as_bytes "got hunter2secret" |}, None);
     pl_execute_streaming _ := Ok {| sh_status := 200; sh_headers := {[ "x-echo" := "hunter2secret" ]}; sh_updated := None |} |}.
Definition open_policy : Policy := a_policy "open" [] PA_Allow.
Definition shelf (v : Vault) : Store :=
  {| sto_collections := match store_credential github_key no_collections with Ok c => c | Err _ => no_collections end;
     sto_capabilities := ∅; sto_tokens := with_minted; sto_vault := v |}.
Definition bare_vault : Vault := {| v_fence := empty_fence; v_approvals := ∅; v_pending_events := [] |}.
Definition server (v : Vault) : ServerWorld :=
  {| w_disk := shelf v;
     w_proc := {| p_cache := shelf v; p_engine := set_policies engine_new [open_policy]; p_plugins := {[ "http" := echo_plugin ]};
                  p_sessions := no_sessions; p_detect_gate := ∅; p_unauthorized := 0 |};
     w_trace := []; w_tick := 0 |}.

Definition ask : ExecuteRequest :=
  {| er_credential := "github"; er_action := "http.request"; er_params := JObject [("method", JString "GET")] |}.
Definition bearer : ExecAuth := from_use_token minted.
Definition answered := execute_gated_inner (UC := https_url) noon settings approvals_on [] None false ask bearer false RE_Execute (server bare_vault).

(** A write that has to be approved, the record it opened, and its approval. *)
Definition ask_write : ExecuteRequest :=
  {| er_credential := "github"; er_action := "http.request"; er_params := JObject [("method", JString "POST")] |}.
Definition cautious : ExecAuth :=
  {| ea_auth := None; ea_use_token := None; ea_force_approval := true; ea_requester := local_requester |}.
Definition pending := execute_gated_inner (UC := https_url) noon settings approvals_on [] None false ask_write cautious false
                        RE_Execute (server bare_vault).
Definition opened_record : ApprovalRequest :=
  match pending.1 with Ok (EO_Pending a) => a | _ => requested None end.
Definition approved_record : ApprovalRequest := (approve (seconds 1010) opened_record (says "verified:alice" None)).2.
#[export] Instance later : Environment :=
  {| env_others _ s := s; env_fault _ := false; env_now n := seconds 1020 + Z.of_nat n; env_instant n := Z.of_nat n;
     env_uuid _ := "10"; env_secret _ := "s4"; env_govder _ := Some (λ _ _ _, Some GR_NoRule); env_averin _ := no_averin |}.
Definition polled_once :=
  check_and_resume_approval (UC := https_url) (EV := later) noon settings [] None (λ _, "") "appr_9" None (server (vault_of approved_record)).

(** The call recorded in a trace. *)
Definition call_of (tr : list Effect) : option (string * PluginRequest) :=
  match List.find is_execute tr with Some (FX_Execute name rq) => Some (name, rq) | _ => None end.
Lemma call_of_elem tr name rq : call_of tr = Some (name, rq) → FX_Execute name rq ∈ tr.
Proof.
  unfold call_of. destruct (List.find is_execute tr) as [f|] eqn:E; [|discriminate].
  apply find_some in E as [Hin _]. destruct f; try discriminate. intros [= <- <-]. by apply list_elem_of_In.
Qed.

Definition the_call : PluginRequest :=
  {| pr_credential := github_key; pr_action := "request"; pr_params := er_params ask;
     pr_context := with_auth (auth_for_use_token minted) (context_new "9" (seconds 1000)) |}.
Lemma answered_called : call_of (w_trace answered.2) = Some ("http", the_call).
Proof. vm_compute. reflexivity. Qed.
Definition resumed_call : PluginRequest :=
  {| pr_credential := github_key; pr_action := "request"; pr_params := er_params ask_write;
     pr_context := bind_approved_execution "appr_9" 1 None (context_new "10" (seconds 1020 + 10)) |}.
Lemma polled_called : call_of (w_trace polled_once.2) = Some ("http", resumed_call).
Proof. vm_compute. reflexivity. Qed.
Lemma answered_ok : ∃ resp, answered.1 = Ok (EO_Completed resp).
Proof. eexists. vm_compute. reflexivity. Qed.

(** ** Requests *)

Lemma dispatch_is_authorized_witness :
  ∃ before v k after, w_trace answered.2 = before ++ FX_Fence v k :: FX_Execute "http" the_call :: after
    ∧ kill_fence_check v k = KF_Clear.
Proof.
  destruct (dispatch_is_authorized (UC := https_url) noon settings approvals_on [] None false ask bearer false RE_Execute
    (server bare_vault) answered.1 answered.2 (w_trace answered.2) "http" the_call (surjective_pairing _) eq_refl
    (call_of_elem _ _ _ answered_called)) as (before & v & epoch & after & _ & _ & _ & _ & _ & Etr & Hv & _).
  eexists before, v, _, after. exact (conj Etr Hv).
Defined.

Lemma request_spends_one_use_witness : count is_consumed (w_trace answered.2) = 1%nat.
Proof.
  apply (proj2 (proj2 (request_spends_one_use (UC := https_url) noon settings approvals_on [] None false ask bearer false
    RE_Execute (server bare_vault) answered.1 answered.2 (w_trace answered.2) (surjective_pairing _) eq_refl)) minted).
  - reflexivity.
  - left. exists "http", the_call. exact (call_of_elem _ _ _ answered_called).
Defined.

Lemma answer_is_confined_witness :
  ∃ resp c, answered.1 = Ok (EO_Completed resp) ∧ FX_Resolved "github" c ∈ w_trace answered.2
    ∧ ∀ form, form ∈ secret_material (cr_data c) → form ≠ "" → ¬ appears (as_bytes form) (resp_body resp).
Proof.
  destruct answered_ok as [resp Hr].
  assert (E : answered = (Ok (EO_Completed resp), answered.2)) by (rewrite <- Hr; apply surjective_pairing).
  destruct (answer_is_confined (UC := https_url) noon settings approvals_on [] None false ask bearer false RE_Execute
    (server bare_vault) resp answered.2 E) as (c & Hc & H).
  exists resp, c. split; [exact Hr|]. split; [exact Hc|]. intros form Hin Hne. exact (proj1 (H form (or_intror Hin) Hne)).
Defined.

(** A run whose plugin is not registered: nothing was called, so it may be retried. *)
Definition unready : Authorized ActionPayload :=
  {| au_payload :=
       {| ay_credential := github_key; ay_plugin_name := "missing"; ay_action_name := "x"; ay_params := JNull;
          ay_context := context_new "9" 0; ay_use_token_id := None; ay_evidence_subject_id := None;
          ay_approved_execution := false; ay_evidence_action := "x"; ay_evidence_required := false;
          ay_d8_fallback_ok := false;
          ay_kill_fence := {| ks_principal := None; ks_admitted_epoch := 0; ks_tenant := None |};
          ay_refusal := refusal_ctx RE_Execute None "x" |};
     au_permit :=
       {| ep_binding := {| eb_approval_id := "direct:9"; eb_epoch := 0; eb_tenant := ""; eb_principal := "";
                           eb_credential := "github"; eb_action := "missing.x"; eb_params_digest := "";
                           eb_rule_digest := "" |};
          ep_basis := PB_Direct AK_Allow |} |}.
Definition not_run := run_action (GC := literal_glob) [] None unready (server bare_vault).
Lemma error_says_whether_it_ran_witness :
  ∃ e, not_run.1 = Err e ∧ re_retryable e = true ∧ count is_execute (w_trace not_run.2) = 0%nat.
Proof.
  assert (E : not_run.1 = Err (run_retryable (VE_Plugin (PF_NotFound "missing")))) by reflexivity.
  exists (run_retryable (VE_Plugin (PF_NotFound "missing"))). split; [exact E|]. split; [reflexivity|].
  pose proof (proj1 (error_says_whether_it_ran (GC := literal_glob) [] None unready (server bare_vault) not_run.1 not_run.2
    (w_trace not_run.2) (surjective_pairing _) eq_refl)) as H.
  rewrite E in H. exact H.
Defined.

(** ** Approvals *)

Lemma resumed_dispatch_is_still_authorized_witness :
  ∃ cl before v k after, w_trace polled_once.2 = before ++ FX_Fence v k :: FX_Execute "http" resumed_call :: after
    ∧ FX_Claimed cl ∈ before ∧ ap_credential_authority (cl_approval cl) = Some (authority_of github_key).
Proof.
  destruct (resumed_dispatch_is_still_authorized (UC := https_url) (EV := later) noon settings [] None (λ _, "") "appr_9"
    None (server (vault_of approved_record)) polled_once.1 polled_once.2 (w_trace polled_once.2) "http" resumed_call
    (surjective_pairing _) eq_refl (call_of_elem _ _ _ polled_called))
    as (cl & before & v & after & e & caps & Etr & _ & Hcl & _ & _ & _ & _ & _ & (Ha & _) & _).
  eexists cl, before, v, _, after. exact (conj Etr (conj Hcl Ha)).
Defined.

(** ** Sessions *)

Definition a_session (id : string) (label : string) : SessionEntry :=
  {| se_session_id := id; se_agent_label := Some label; se_principal_id := None; se_token_id := None;
     se_credential := "github"; se_action := "http.request"; se_started_at := 0 |}.
Definition two_sessions : SessionRegistry :=
  session_step (session_step no_sessions (Begin (a_session "s1" "bot"))) (Begin (a_session "s2" "other")).
Lemma two_sessions_reachable : registry_reachable two_sessions.
Proof. apply rr_step; [apply rr_step; [constructor|]|]; vm_compute; reflexivity. Qed.
Lemma halt_wakes_exactly_its_target_witness :
  (signal_halt "bot" two_sessions).1 = 1%nat ∧ (take_permit 0 (signal_halt "bot" two_sessions).2).1 = true.
Proof.
  destruct (halt_wakes_exactly_its_target two_sessions "bot" "s1" (a_session "s1" "bot") 0 two_sessions_reachable
    eq_refl eq_refl) as (H1 & H2 & _). split; [rewrite H1; vm_compute; reflexivity|rewrite H2; reflexivity].
Defined.
